(* ===== verification/_CoqProject ===== *)
-Q . S2P
Prelude.v
Bytes.v
Text.v
TextTrim.v
Net.v
NetText.v
Sorting.v
Lru.v
DnsWire.v
DnsWireSpec.v
FakeIp.v
FakeIpSpec.v
FakeIpWriter.v
GeoIp.v
Router.v
RouterSpec.v
Resolver.v
ResolverSpec.v
Coalesce.v
CoalesceSpec.v
RuleMode.v
RuleModeSpec.v
RulesBatch.v
RulesBatchSpec.v
RulesText.v
Groups.v
GroupsSpec.v
GroupsLive.v
Tokio.v
QuicDatagram.v
QuicDatagramSpec.v
QuicHubSpec.v
Headers.v
HeadersSpec.v
StreamDatagram.v
StreamDatagramSpec.v
SocksUdp.v
SocksUdpSpec.v
TlsSniff.v
TlsSniffSpec.v
Mtu.v
MtuSpec.v
Health.v
HealthSpec.v
AsyncIo.v
AnyTls.v
AnyTlsFrames.v
AnyTlsSpec.v
AnyTlsPool.v
AnyTlsPoolSpec.v
SsUdp.v
Vision.v
VisionRecords.v
VisionRead.v
VisionWrite.v
Vmess.v
VmessSpec.v
VmessStream.v
VmessReadSpec.v
VmessWriteSpec.v
ShadowTls.v
ShadowTlsSpec.v
StrOrder.v
Nodes.v
NodeIdentity.v
Dedup.v
DedupSpec.v
Refresh.v
RefreshSpec.v
Migrate.v
MigrateSpec.v
Calendar.v
Traffic.v
TrafficSteps.v
TrafficSpec.v
TrafficReports.v
HttpProxy.v
HttpProxySpec.v
Pool.v
PoolSpec.v
