(* ===== verification/Prelude.v ===== *)
(** * A verification library for Sockrocket

    Sockrocket is a proxy client: programs or the whole machine (through a TUN
    device) hand it connections and datagrams, it decides for each destination
    which proxy node carries it, and speaks that node's protocol.  This library
    models the core crate, [src/crates/sockrocket-core/src], and proves what
    makes its parts correct.  Paths below are relative to that directory.

    ** The parts and how they meet

    A DNS query reaches the codec ([DnsWire]) and the resolver ([Resolver]), whose
    exchanges with the servers are shared between callers ([Coalesce]); for proxied
    names the answer is an address of the fake-IP pool ([FakeIp]), saved by a
    background writer ([FakeIpWriter]), and when a connection to that address comes
    the pool gives the name back.  Connections enter through the HTTP proxy
    ([HttpProxy]), the SOCKS5 server ([Headers], [SocksUdp]) or the TUN device,
    whose MTU is chosen at startup ([Mtu]) and where a lost name is read from the
    TLS ClientHello ([TlsSniff]).  The routing engine ([Router], with the country
    table [GeoIp] and the rule sets of [RuleMode], edited by [RulesBatch]) turns
    host and address into an action; a node or a group of nodes ([Groups], watched
    by [Health]) carries the connection, taken warm from a pool ([Pool]) or dialled.
    The outbounds write the request of their protocol ([Headers], [Vmess]), wrap the
    stream ([AnyTls], [Vision], [VmessStream], [ShadowTls]) and carry UDP in frames over a stream
    ([StreamDatagram]), in QUIC datagrams ([QuicDatagram]) or in the packets of
    Shadowsocks ([SsUdp]).  What passes is counted ([Traffic]) by node and by
    subscription.  Nodes come from subscriptions: they are identified by a
    fingerprint ([Nodes]), merged ([Dedup]) and replaced when a subscription is
    refreshed ([Refresh]); references to identities of an older form are moved
    ([Migrate]).

    ** Files

    Shared:
    - [Prelude], [Bytes], [Text], [TextTrim], [StrOrder], [Sorting]:
      outcomes of a computation (value, error, panic, divergence), byte slices with
      checked and panicking access, machine widths, strings and their order, stable
      sorting, sums over the actors of a system.
    - [Net], [NetText]: addresses of [std::net], their parsers and printers.
    - [AsyncIo]: polled byte streams, the [AsyncRead] and [AsyncWrite] of tokio.
    - Interfaces, classes that state the documented laws of code outside the
      sources; clients are proved against them, and an instance shows the laws can
      hold: [Lru] (crate lru), [Tokio] (semaphores and channels), [Quinn] of
      [QuicDatagram], [Crypto] of [Vmess], [Macs] of [ShadowTls], [Unicode] of [NetText], [SerdeJson] and
      [Sha256] of [Nodes].  [Identity] of [Dedup] is what the fingerprint promises
      to the merge of nodes, discharged by [node_identity].

    DNS and addresses:
    - [DnsWire], [DnsWireSpec]: dns/wire.rs, every function, and replies reused for
      another query.
    - [FakeIp], [FakeIpSpec], [FakeIpWriter]: dns/fakeip.rs and
      dns/fakeip/persistence.rs; [Inner] is the state behind the lock, the
      writer's critical sections interleave in a step relation.
    - [Resolver], [ResolverSpec]: one request of dns/mod.rs and dns/upstream.rs over
      the shared caches.  [Coalesce], [CoalesceSpec]: callers that share an exchange,
      as a transition system with cancellation.

    Decisions:
    - [GeoIp]: router/geoip.rs.  [Router], [RouterSpec]: router/engine.rs and
      router/engine/trace.rs.  [RuleMode], [RuleModeSpec]: router/rule_mode.rs,
      router/china.rs, the dispatch of proxy/routing.rs and config/group.rs.
    - [RulesBatch], [RulesBatchSpec], [RulesText]:
      config/rules_batch.rs, rule_groups.rs, rule_list.rs and rule_scenes.rs.
    - [Groups], [GroupsSpec], [GroupsLive]: proxy/groups.rs, many requests on the
      atomics and locks of a group.  [Health], [HealthSpec]: the failure tracker and
      the search for a replacement of proxy/health.rs.
    - [Pool], [PoolSpec]: proxy/pool.rs, the worker, the requests and the shared
      budget as a transition system; the budgets of resources.rs.

    Ways in:
    - [HttpProxy], [HttpProxySpec]: proxy/http.rs and proxy/http_forward.rs.
    - [Headers], [HeadersSpec]: the request headers of proxy/trojan.rs and
      proxy/vless.rs, the handshake of proxy/socks5.rs and the datagram header of
      proxy/socks_udp.rs.  [SocksUdp], [SocksUdpSpec]: the association loop of
      proxy/socks_udp.rs as a function of the event it received.
    - [TlsSniff], [TlsSniffSpec]: proxy/tls_sniff.rs and [valid_domain] of
      config/dns.rs.  [Mtu], [MtuSpec]: proxy/tun/mtu.rs (the Linux variants).

    Ways out:
    - [QuicDatagram], [QuicDatagramSpec], [QuicHubSpec]: proxy/quic_datagram.rs;
      [Channel] and [Hub] are its structs, each operation under the registry's
      lock is one step.  [StreamDatagram], [StreamDatagramSpec]:
      proxy/stream_datagram.rs.  [SsUdp]: the UDP side of proxy/ss.rs.
    - [AnyTls], [AnyTlsFrames], [AnyTlsSpec], [AnyTlsPool], [AnyTlsPoolSpec]:
      proxy/anytls, the session, its padding and the pool of sessions, with opens and
      closes that overlap as steps between their locks.
    - [Vision], [VisionRecords], [VisionRead], [VisionWrite]:
      proxy/vision.rs.
    - [Vmess], [VmessSpec], [VmessStream], [VmessReadSpec], [VmessWriteSpec]:
      proxy/vmess.rs.
    - [ShadowTls], [ShadowTlsSpec]: proxy/shadow_tls.rs, the records of the handshake
      as the TLS client reads them and the relay behind it.

    Books and nodes:
    - [Calendar], [Traffic], [TrafficSteps], [TrafficSpec], [TrafficReports]: traffic.rs; [TrafficSteps] interleaves recorders and mergers.
    - [Nodes], [NodeIdentity]: JSON values, config/model.rs (nodes) and
      config/node_identity.rs.  [Dedup], [DedupSpec]: config/dedup.rs.
      [Refresh], [RefreshSpec]: refreshes, config/dedup.rs and config/storage.rs.
      [Migrate], [MigrateSpec]: references to old identities.

    A definition carries the name of the function it translates; helpers that
    split a long function are mapped to the lines they cover.

    ** What the theorems show

    - Codecs: every parser returns on every input, without panic or endless loop,
      and inverts its builder (DNS, QUIC frames, Trojan, VLESS, VMess and SOCKS
      headers, UDP framing, rule lists, the fake-IP store, authorities); rewriting a
      reply touches the TTL fields only, and a UDP reply fits its limit.
    - DNS: every query gets an answer of its own, only names of the proxied groups
      get fake addresses, a cached answer is never served past its lifetime, and
      callers that share an exchange all get its reply, none is left waiting.
    - Streams: AnyTLS, VMess and Vision hand the application exactly the bytes the
      peer sent and put on the wire exactly the bytes written, however the connection
      is cut into polls; ShadowTLS shows its TLS client the genuine handshake, opens the
      relay for a server that knows the password, and hands over authentic data only;
      Vision leaves the outer connection at a record boundary; the
      HTTP proxy decides by the bytes alone, and a tunnel loses none of those read
      ahead; the sniffed name does not depend on the cuts.
    - State: the fake-IP pool is a bijection, first-in first-out, bounded, and
      survives a restart; a flush that succeeds is on disk in every interleaving;
      the QUIC hub, the SOCKS association, the AnyTLS sessions and the warm pool stay
      within their bounds in every reachable state and give every permit back;
      no Shadowsocks packet is accepted twice, no number used twice; a warm
      connection goes to one request only.
    - Decisions: rules are tried in priority order, the cache never changes a
      decision, the trace tells what routing does, a validated rule compiles, rule
      mode always decides, an unusable group fails closed, a group's request ends and
      gets a member that answered, the country lookup is the longest match, the MTU
      is never claimed without a probe that passed, and the fastest reachable
      candidate replaces a failed node.
    - Books: bytes are counted once, whatever the interleaving, in the node and the
      subscription they belong to; months older than the cutoff are dropped.
    - Nodes: two nodes have one fingerprint exactly when they are the same server
      with the same credentials, reached the same way; merging keeps every
      membership; a refresh replaces what its subscription owns and nothing else, and
      one of an older revision is refused; names stay unique; migration moves the
      references and nothing else.

    ** Fuel and bounds

    Loops that are not structural take fuel and give [Diverge] (or a verdict of
    their own) when it runs out; the totality theorems exclude that outcome, so the
    fuel written in the callers is enough: the length of the buffer for loops that
    consume bytes, the width of the interval for the MTU search, 33 attempts for
    an identifier among at most 32 sessions.  Transition systems have a measure
    instead: [fill_left] of [PoolSpec], the one of [GroupsLive].  Integers are [Z];
    the conversions the code makes ([as u8], [as u16], wrapping counters, saturating
    ones) are written out where they matter.  [usize] does not wrap: every length is
    bounded by a buffer in memory.

    ** What is not modelled

    Sockets, timers, TLS and QUIC connections, cryptography, files and processes
    appear only through what they return, as parameters or as parts of an event.
    Left out, because what they do is done by code outside the sources or is input
    and output: the transports (TCP, TLS, WebSocket, HTTP/2, XHTTP, WireGuard), the
    connectors and the relay, the sockets of the DNS listener, the TUN device and the
    platform code, the readers and writers of subscription formats (over serde_json,
    serde_yaml and url), the watching of configuration files, the bandwidth budget of Hysteria2 (floating point), the
    command line with its CGI front end, the graphical interface and the vendored
    crates.  Of parts that are modelled, what is left out is said at the top of
    their files. *)
From Stdlib Require Export ZArith Lia.
From stdpp Require Export prelude numbers list gmap strings.

#[global] Set Default Goal Selector "!".
#[global] Open Scope Z_scope.

(** [lia] also decides division and remainder by constants. *)
Ltac Zify.zify_post_hook ::= Z.to_euclidean_division_equations.

(** ** Outcomes of a Rust computation

    [Ok] and [Err] are the two constructors of [Result]; [Panic] is a Rust
    panic (an index out of range, an overflow check, an [unwrap] of [None]);
    [Diverge] is the result of a loop whose fuel ran out, so that
    "never panics and always terminates" is one statement about the outcome. *)
Inductive outcome (A : Type) : Type :=
  | Ok (a : A)
  | Err (e : string)
  | Panic
  | Diverge.
Arguments Ok {A} a.
Arguments Err {A} e.
Arguments Panic {A}.
Arguments Diverge {A}.

#[export] Instance outcome_ret : MRet outcome := @Ok.
#[export] Instance outcome_bind : MBind outcome := λ A B f o,
  match o with
  | Ok a => f a
  | Err e => Err e
  | Panic => Panic
  | Diverge => Diverge
  end.

(** [ensure!(c, msg)] / [if !c { bail!(msg) }]. *)
Definition ensure (c : bool) (msg : string) : outcome unit :=
  if c then Ok tt else Err msg.

(** [opt.ok_or_else(|| msg)]. *)
Definition ok_or {A} (o : option A) (msg : string) : outcome A :=
  match o with Some a => Ok a | None => Err msg end.

(** A computation that returned, with a value or with an error. *)
Definition returns {A} (o : outcome A) : Prop :=
  match o with Ok _ | Err _ => True | Panic | Diverge => False end.

Definition is_ok {A} (o : outcome A) : bool :=
  match o with Ok _ => true | _ => false end.

Create HintDb outcome.

Lemma returns_ok {A} (a : A) : returns (Ok a).
Proof. exact I. Qed.

Lemma returns_err {A} (e : string) : returns (@Err A e).
Proof. exact I. Qed.

Lemma returns_ensure c msg : returns (ensure c msg).
Proof. by destruct c. Qed.

Lemma returns_ok_or {A} (o : option A) msg : returns (ok_or o msg).
Proof. by destruct o. Qed.

Lemma returns_bind {A B} (o : outcome A) (f : A → outcome B) :
  returns o → (∀ a, o = Ok a → returns (f a)) → returns (o ≫= f).
Proof. destruct o; simpl; eauto. Qed.

Lemma bind_ok {A B} (o : outcome A) (f : A → outcome B) b :
  (o ≫= f) = Ok b ↔ ∃ a, o = Ok a ∧ f a = Ok b.
Proof. destruct o; simpl; naive_solver. Qed.

Lemma ensure_ok c msg u : ensure c msg = Ok u ↔ c = true.
Proof. destruct c, u; simpl; naive_solver. Qed.

Lemma ok_or_ok {A} (o : option A) msg a : ok_or o msg = Ok a ↔ o = Some a.
Proof. destruct o; simpl; naive_solver. Qed.

#[export] Hint Resolve returns_ok returns_err returns_ensure returns_ok_or : outcome.

(** Inverts every [_ ≫= _ = Ok _] of the context, and the guards among them. *)
Ltac inv_ok :=
  repeat match goal with
  | H : _ ≫= _ = Ok _ |- _ =>
      let x := fresh "x" in let Hx := fresh "Hx" in
      apply bind_ok in H as (x & Hx & H)
  | H : ensure _ _ = Ok ?u |- _ => apply ensure_ok in H; try clear u
  | H : ok_or _ _ = Ok _ |- _ => apply ok_or_ok in H
  | H : Ok _ = Ok _ |- _ => injection H as H
  | H : Err _ = Ok _ |- _ => discriminate H
  | H : Panic = Ok _ |- _ => discriminate H
  | H : Diverge = Ok _ |- _ => discriminate H
  | H : mret _ = Ok _ |- _ => change (Ok _ = Ok _) in H
  end; subst.

Lemma Ok_inj {A} (x y : A) : Ok x = Ok y → x = y.
Proof. by intros [= ->]. Qed.

(** Reduces [Ok a ≫= f] without unfolding anything else. *)
Ltac obind := cbn beta iota delta [mbind outcome_bind].

(** Runs binds and guards that are already evaluated. *)
Ltac orun := cbn beta iota delta [mbind outcome_bind ensure].

(** Runs one step of a computation already run in [H : o ≫= f = Ok b]. *)
Ltac ostep H :=
  let x := fresh "x" in let Hx := fresh "Hx" in
  apply bind_ok in H as (x & Hx & H); rewrite Hx; obind.

(** Evaluates a decidable closed proposition. *)
Ltac decided := apply (bool_decide_unpack _); vm_compute; exact I.
