(* ===== verification/Bytes.v ===== *)
(** * Bytes: slices, indices and machine-width integers

    Byte buffers are [list Z]; positions and lengths are [Z] (Rust's [usize]).
    [idx] and [sub] are the panicking [data[i]] and [data[a..b]]; [byte_at] and
    [get_range] are the checked [data.get(i)] and [data.get(a..b)]. *)
From Stdlib Require Zbitwise.
From S2P Require Import Prelude.

Abbreviation bytes := (list Z).

(** ** Widths *)
Definition as_u8 (z : Z) : Z := z mod 256.
Definition as_u16 (z : Z) : Z := z mod 65536.
Definition as_u32 (z : Z) : Z := z mod 4294967296.

Definition u8 (z : Z) : Prop := 0 <= z < 256.
Definition u16 (z : Z) : Prop := 0 <= z < 65536.
Definition u32 (z : Z) : Prop := 0 <= z < 4294967296.
Definition is_bytes (bs : bytes) : Prop := Forall u8 bs.

#[export] Instance u8_dec z : Decision (u8 z).
Proof. unfold u8. apply _. Defined.
#[export] Instance u16_dec z : Decision (u16 z).
Proof. unfold u16. apply _. Defined.
#[export] Instance u32_dec z : Decision (u32 z).
Proof. unfold u32. apply _. Defined.
#[export] Instance is_bytes_dec bs : Decision (is_bytes bs).
Proof. unfold is_bytes. apply _. Defined.

(** ** Lengths, indices and ranges *)
Definition len {A} (l : list A) : Z := Z.of_nat (length l).

Definition byte_at {A} (l : list A) (i : Z) : option A :=
  if i <? 0 then None else l !! Z.to_nat i.

Definition idx {A} (l : list A) (i : Z) : outcome A :=
  match byte_at l i with Some b => Ok b | None => Panic end.

Definition range {A} (l : list A) (a b : Z) : list A :=
  take (Z.to_nat (b - a)) (drop (Z.to_nat a) l).

Definition in_range {A} (l : list A) (a b : Z) : bool :=
  (0 <=? a) && (a <=? b) && (b <=? len l).

Definition get_range {A} (l : list A) (a b : Z) : option (list A) :=
  if in_range l a b then Some (range l a b) else None.

Definition sub {A} (l : list A) (a b : Z) : outcome (list A) :=
  if in_range l a b then Ok (range l a b) else Panic.

(** [buf[i] = x], panicking out of range. *)
Definition set_at {A} (l : list A) (i : Z) (x : A) : outcome (list A) :=
  if (0 <=? i) && (i <? len l) then Ok (<[Z.to_nat i := x]> l) else Panic.

(** ** Big-endian integers *)
Fixpoint be_bytes (n : nat) (z : Z) : bytes :=
  match n with
  | O => []
  | S m => be_bytes m (z / 256) ++ [z mod 256]
  end.

Definition of_be (bs : bytes) : Z := foldl (λ acc b, acc * 256 + b) 0 bs.

(** [u16::from_be_bytes([data[i], data[i + 1]])]. *)
Definition idx_u16 (data : bytes) (i : Z) : outcome Z :=
  a ← idx data i; b ← idx data (i + 1); Ok (a * 256 + b).

(** ** Lemmas on lengths and indices *)
Section lists.
Context {A : Type}.
Implicit Types (l pre post : list A) (i j a b : Z) (x : A).

Lemma len_nonneg l : 0 <= len l.
Proof. unfold len; lia. Qed.

Lemma len_nil : len (@nil A) = 0.
Proof. reflexivity. Qed.

Lemma len_cons x l : len (x :: l) = 1 + len l.
Proof. unfold len; simpl; lia. Qed.

Lemma len_app l l' : len (l ++ l') = len l + len l'.
Proof. unfold len; rewrite length_app; lia. Qed.

Lemma len_replicate n x : len (replicate n x) = Z.of_nat n.
Proof. unfold len. by rewrite length_replicate. Qed.

Lemma len_zero_nil l : len l = 0 → l = [].
Proof. destruct l; [done|]. rewrite len_cons. pose proof (len_nonneg l). lia. Qed.

Lemma byte_at_some l i : 0 <= i < len l → ∃ x, byte_at l i = Some x.
Proof.
  unfold byte_at, len. intros H. destruct (Z.ltb_spec i 0); [lia|].
  apply lookup_lt_is_Some_2. lia.
Qed.

Lemma byte_at_bound l i x : byte_at l i = Some x → 0 <= i < len l.
Proof.
  unfold byte_at, len. destruct (Z.ltb_spec i 0); [done|].
  intros Hl%lookup_lt_Some. lia.
Qed.

Lemma byte_at_none l i : byte_at l i = None ↔ i < 0 ∨ len l <= i.
Proof.
  unfold byte_at, len. destruct (Z.ltb_spec i 0).
  - split; [lia|done].
  - rewrite lookup_ge_None. lia.
Qed.

Lemma idx_ok l i x : idx l i = Ok x ↔ byte_at l i = Some x.
Proof. unfold idx. destruct (byte_at l i); split; congruence. Qed.

Lemma idx_in l i : 0 <= i < len l → ∃ x, idx l i = Ok x.
Proof. intros [x Hx]%byte_at_some. exists x. by apply idx_ok. Qed.

Lemma returns_idx l i : 0 <= i < len l → returns (idx l i).
Proof. intros [x ->]%idx_in. done. Qed.

Lemma byte_at_app_r pre l i :
  0 <= i → byte_at (pre ++ l) (len pre + i) = byte_at l i.
Proof.
  intros Hi. unfold byte_at, len.
  destruct (Z.ltb_spec (Z.of_nat (length pre) + i) 0); [lia|].
  destruct (Z.ltb_spec i 0); [lia|].
  rewrite lookup_app_r by lia. f_equal. lia.
Qed.

Lemma byte_at_app_l l post i : i < len l → byte_at (l ++ post) i = byte_at l i.
Proof.
  unfold byte_at, len. intros Hi. destruct (Z.ltb_spec i 0); [done|].
  rewrite lookup_app_l by lia. done.
Qed.

Lemma byte_at_head x l : byte_at (x :: l) 0 = Some x.
Proof. reflexivity. Qed.

Lemma byte_at_tail x l i : 0 < i → byte_at (x :: l) i = byte_at l (i - 1).
Proof.
  unfold byte_at. intros Hi.
  destruct (Z.ltb_spec i 0); [lia|]. destruct (Z.ltb_spec (i - 1) 0); [lia|].
  replace (Z.to_nat i) with (S (Z.to_nat (i - 1))) by lia. done.
Qed.

Lemma idx_app_r pre l i : 0 <= i → idx (pre ++ l) (len pre + i) = idx l i.
Proof. intros. unfold idx. by rewrite byte_at_app_r. Qed.

Lemma in_range_spec l a b : in_range l a b = true ↔ 0 <= a ∧ a <= b ∧ b <= len l.
Proof. unfold in_range. rewrite !andb_true_iff. lia. Qed.

Lemma sub_ok l a b r : sub l a b = Ok r ↔ in_range l a b = true ∧ r = range l a b.
Proof. unfold sub. destruct (in_range l a b); naive_solver. Qed.

Lemma sub_in l a b : 0 <= a → a <= b → b <= len l → sub l a b = Ok (range l a b).
Proof. intros. apply sub_ok. by rewrite in_range_spec. Qed.

Lemma returns_sub l a b : 0 <= a → a <= b → b <= len l → returns (sub l a b).
Proof. intros. by rewrite sub_in. Qed.

Lemma len_range l a b : 0 <= a → a <= b → b <= len l → len (range l a b) = b - a.
Proof.
  unfold range, len. intros. rewrite length_take, length_drop. lia.
Qed.

Lemma range_app pre mid post a b :
  a = len pre → b = len pre + len mid → range (pre ++ mid ++ post) a b = mid.
Proof.
  unfold range, len. intros -> ->.
  rewrite drop_app_length' by lia. rewrite take_app_length' by lia. done.
Qed.

Lemma range_app_r pre l a b :
  0 <= a → range (pre ++ l) (len pre + a) (len pre + b) = range l a b.
Proof.
  unfold range, len. intros Ha.
  replace (Z.to_nat (Z.of_nat (length pre) + a)) with (length pre + Z.to_nat a)%nat by lia.
  rewrite drop_app_add. do 2 f_equal. lia.
Qed.

Lemma range_app_l l post a b :
  0 <= a → b <= len l → range (l ++ post) a b = range l a b.
Proof.
  unfold range, len. intros Ha Hb.
  destruct (decide (a <= Z.of_nat (length l))).
  - rewrite drop_app_le by lia. rewrite take_app_le; [done|].
    rewrite length_drop. lia.
  - replace (Z.to_nat (b - a)) with 0%nat by lia. done.
Qed.

Lemma range_all l a b : a = 0 → len l <= b → range l a b = l.
Proof. unfold range, len. intros -> Hb. simpl. apply take_ge. lia. Qed.

Lemma range_empty l a b : b <= a → range l a b = [].
Proof. unfold range. intros. by replace (Z.to_nat (b - a)) with 0%nat by lia. Qed.

Lemma range_split l a b c :
  0 <= a → a <= b → b <= c → range l a b ++ range l b c = range l a c.
Proof.
  unfold range. intros.
  replace (Z.to_nat (c - a)) with (Z.to_nat (b - a) + Z.to_nat (c - b))%nat by lia.
  rewrite <- take_take_drop, drop_drop. do 3 f_equal. lia.
Qed.

Lemma byte_at_range l a b i :
  0 <= a → 0 <= i < b - a → byte_at (range l a b) i = byte_at l (a + i).
Proof.
  intros. unfold byte_at, range.
  destruct (Z.ltb_spec i 0), (Z.ltb_spec (a + i) 0); try lia.
  rewrite lookup_take_lt by lia. rewrite lookup_drop. f_equal. lia.
Qed.

Lemma get_range_some l a b r :
  get_range l a b = Some r ↔ in_range l a b = true ∧ r = range l a b.
Proof. unfold get_range. destruct (in_range l a b); naive_solver. Qed.

Lemma set_at_in l i x : 0 <= i < len l → set_at l i x = Ok (<[Z.to_nat i := x]> l).
Proof.
  unfold set_at. intros.
  destruct (Z.leb_spec 0 i), (Z.ltb_spec i (len l)); try lia. done.
Qed.
End lists.

#[export] Hint Rewrite @len_nil @len_cons @len_app @len_replicate : len.
#[export] Hint Resolve returns_idx returns_sub : outcome.

(** ** Big-endian lemmas *)
Lemma length_be_bytes n z : length (be_bytes n z) = n.
Proof. revert z. induction n; intros z; simpl; [done|]. rewrite length_app, IHn; simpl; lia. Qed.

Lemma len_be_bytes n z : len (be_bytes n z) = Z.of_nat n.
Proof. unfold len. by rewrite length_be_bytes. Qed.

Lemma be_bytes_u8 n z : is_bytes (be_bytes n z).
Proof.
  revert z. induction n; intros z; simpl; [constructor|].
  apply Forall_app. split; [apply IHn|]. repeat constructor; apply Z.mod_pos_bound; lia.
Qed.

Lemma of_be_snoc bs b : of_be (bs ++ [b]) = of_be bs * 256 + b.
Proof. unfold of_be. by rewrite foldl_app. Qed.

Lemma of_be_be_bytes n z : of_be (be_bytes n z) = z mod 256 ^ Z.of_nat n.
Proof.
  revert z. induction n; intros z.
  - simpl. by rewrite Z.mod_1_r.
  - cbn [be_bytes]. rewrite of_be_snoc, IHn, Nat2Z.inj_succ, Z.pow_succ_r by lia.
    rewrite (Z.rem_mul_r z 256) by lia. lia.
Qed.

Lemma of_be_small n z : 0 <= z < 256 ^ Z.of_nat n → of_be (be_bytes n z) = z.
Proof. intros. rewrite of_be_be_bytes. by apply Z.mod_small. Qed.

Lemma be_bytes_of_be bs : is_bytes bs → be_bytes (length bs) (of_be bs) = bs.
Proof.
  induction bs as [|b bs IH] using rev_ind; [done|].
  intros [Hbs Hb]%Forall_app. rewrite length_app, Nat.add_comm. simpl.
  rewrite of_be_snoc. inversion_clear Hb as [|? ? Hu]. unfold u8 in Hu.
  rewrite Z.div_add_l, (Z.div_small b), Z.add_0_r by lia.
  rewrite IH by done. by rewrite Z.add_comm, Z.mod_add, Z.mod_small by lia.
Qed.

Lemma of_be_bound bs : is_bytes bs → 0 <= of_be bs < 256 ^ len bs.
Proof.
  induction bs as [|b bs IH] using rev_ind; [done|].
  intros [Hbs Hb]%Forall_app. inversion_clear Hb as [|? ? Hu]. unfold u8 in Hu.
  specialize (IH Hbs). rewrite of_be_snoc, len_app. change (len [b]) with 1.
  pose proof (len_nonneg bs). rewrite Z.pow_add_r by lia.
  change (256 ^ 1) with 256. nia.
Qed.

(** Two bytes: the [u16] of the wire formats. *)
Definition be16 (z : Z) : bytes := be_bytes 2 z.
Definition be32 (z : Z) : bytes := be_bytes 4 z.

Lemma len_be16 z : len (be16 z) = 2.
Proof. reflexivity. Qed.

Lemma len_be32 z : len (be32 z) = 4.
Proof. reflexivity. Qed.

Lemma be16_value z : u16 z → (z / 256) mod 256 * 256 + z mod 256 = z.
Proof. unfold u16. intros. rewrite (Z.mod_small (z / 256)); lia. Qed.

Lemma of_be_be16 z : u16 z → of_be (be16 z) = z.
Proof. intros. by apply of_be_small. Qed.

Lemma of_be_be32 z : u32 z → of_be (be32 z) = z.
Proof. intros. by apply of_be_small. Qed.

Lemma is_bytes_at bs i b : is_bytes bs → byte_at bs i = Some b → u8 b.
Proof.
  unfold byte_at. destruct (i <? 0); [done|]. intros H ?. by eapply Forall_lookup_1.
Qed.

Lemma is_bytes_idx bs i b : is_bytes bs → idx bs i = Ok b → u8 b.
Proof. intros ? ?%idx_ok. by eapply is_bytes_at. Qed.

Lemma idx_u16_in bs i : 0 <= i → i + 1 < len bs → ∃ v, idx_u16 bs i = Ok v.
Proof.
  intros. destruct (idx_in bs i) as [a Ha]; [lia|]. destruct (idx_in bs (i + 1)) as [b Hb]; [lia|].
  exists (a * 256 + b). unfold idx_u16. rewrite Ha. simpl. by rewrite Hb.
Qed.

Lemma returns_idx_u16 bs i : 0 <= i → i + 1 < len bs → returns (idx_u16 bs i).
Proof. intros H1 H2. destruct (idx_u16_in bs i H1 H2) as [v ->]. done. Qed.

Lemma idx_u16_bound bs i v : is_bytes bs → idx_u16 bs i = Ok v → u16 v.
Proof.
  intros Hb H. unfold idx_u16 in H. inv_ok.
  apply (is_bytes_idx bs) in Hx, Hx0; [|done..]. unfold u8, u16 in *. lia.
Qed.

Lemma idx_u16_app_r pre bs i :
  0 <= i → idx_u16 (pre ++ bs) (len pre + i) = idx_u16 bs i.
Proof.
  intros. unfold idx_u16. rewrite idx_app_r by lia.
  by rewrite <- Z.add_assoc, idx_app_r by lia.
Qed.

Lemma idx_u16_be16 z rest : u16 z → idx_u16 (be16 z ++ rest) 0 = Ok z.
Proof. intros Hz. apply (f_equal Ok), be16_value, Hz. Qed.

#[export] Hint Rewrite len_be_bytes len_be16 len_be32 : len.
#[export] Hint Resolve returns_idx_u16 : outcome.

Lemma is_bytes_range bs a b : is_bytes bs → is_bytes (range bs a b).
Proof. intros. unfold range. by apply Forall_take, Forall_drop. Qed.

Lemma is_bytes_app bs bs' : is_bytes (bs ++ bs') ↔ is_bytes bs ∧ is_bytes bs'.
Proof. apply Forall_app. Qed.

#[export] Hint Resolve be_bytes_u8 is_bytes_range : bytes.

(** Normalises lengths, then linear arithmetic. *)
Ltac lenlia := autorewrite with len in *; repeat match goal with
  | |- context [len ?l] => lazymatch goal with
      | _ : 0 <= len l |- _ => fail | _ => pose proof (len_nonneg l) end
  | _ : context [len ?l] |- _ => lazymatch goal with
      | _ : 0 <= len l |- _ => fail | _ => pose proof (len_nonneg l) end
  end; lia.

Lemma be_bytes_split n m z :
  be_bytes (n + m) z = be_bytes n (z / 256 ^ Z.of_nat m) ++ be_bytes m z.
Proof.
  revert z. induction m as [|m IH]; intros z.
  - rewrite Nat.add_0_r, Z.pow_0_r, Z.div_1_r. by rewrite app_nil_r.
  - rewrite Nat.add_succ_r. cbn [be_bytes]. rewrite IH, app_assoc. do 3 f_equal.
    rewrite Nat2Z.inj_succ, Z.pow_succ_r by lia. by rewrite Z.div_div by lia.
Qed.

(** ** Slices of a known layout *)
Lemma sub_mid {A} (pre mid post : list A) a b :
  a = len pre → b = len pre + len mid → sub (pre ++ mid ++ post) a b = Ok mid.
Proof. intros. rewrite sub_in by lenlia. by rewrite range_app. Qed.

Lemma sub_suffix {A} (pre l : list A) a b :
  a = len pre → b = len (pre ++ l) → sub (pre ++ l) a b = Ok l.
Proof. intros. rewrite <- (app_nil_r l) at 1. apply sub_mid; lenlia. Qed.

Lemma idx_mid {A} (pre post : list A) x i : i = len pre → idx (pre ++ x :: post) i = Ok x.
Proof. intros ->. apply idx_ok. rewrite <- (Z.add_0_r (len pre)). by rewrite byte_at_app_r. Qed.

(** ** Shifts *)
Lemma lor_shift a b k : 0 <= k → 0 <= b < 2 ^ k → Z.lor (Z.shiftl a k) b = a * 2 ^ k + b.
Proof.
  intros Hk Hb. assert (Hz : Z.land (Z.shiftl a k) b = 0).
  { apply Z.bits_inj'. intros n Hn. rewrite Z.land_spec, Z.shiftl_spec, Z.bits_0 by done.
    destruct (Z.ltb_spec n k).
    - by rewrite Z.testbit_neg_r by lia.
    - rewrite <- (Z.mod_small b (2 ^ k)), Z.mod_pow2_bits_high by lia. by rewrite andb_false_r. }
  pose proof (Zbitwise.Z.add_lor_land (Z.shiftl a k) b) as E.
  rewrite Hz, Z.add_0_r in E. rewrite E. by rewrite Z.shiftl_mul_pow2.
Qed.
