(* ===== verification/Text.v ===== *)
(** * Text: the [str] operations of the Rust standard library

    A [str] or [String] is the list of its UTF-8 bytes.  Only operations of the
    standard library live here; nothing in this file models project code. *)
From Stdlib Require Import Ascii String.
From S2P Require Import Prelude Bytes.

Definition byte_of_ascii (a : ascii) : Z := Z.of_N (N_of_ascii a).

Fixpoint lit (s : string) : bytes :=
  match s with
  | EmptyString => []
  | String a s' => byte_of_ascii a :: lit s'
  end.

(** ** UTF-8 *)
Definition cont (b : Z) : bool := (128 <=? b) && (b <=? 191).
Definition between (lo hi b : Z) : bool := (lo <=? b) && (b <=? hi).

(** [str::from_utf8]: the scalar values of a well-formed byte sequence. *)
Fixpoint utf8_decode (bs : bytes) : option (list Z) :=
  match bs with
  | [] => Some []
  | a :: t =>
    if between 0 127 a then (a ::.) <$> utf8_decode t
    else match t with
    | b :: t =>
      if between 194 223 a && cont b
      then (((a - 192) * 64 + (b - 128)) ::.) <$> utf8_decode t
      else match t with
      | c :: t =>
        if ((a =? 224) && between 160 191 b || between 225 236 a && cont b
            || (a =? 237) && between 128 159 b || between 238 239 a && cont b) && cont c
        then (((a - 224) * 4096 + (b - 128) * 64 + (c - 128)) ::.) <$> utf8_decode t
        else match t with
        | d :: t =>
          if ((a =? 240) && between 144 191 b || between 241 243 a && cont b
              || (a =? 244) && between 128 143 b) && cont c && cont d
          then (((a - 240) * 262144 + (b - 128) * 4096 + (c - 128) * 64 + (d - 128)) ::.)
                 <$> utf8_decode t
          else None
        | [] => None
        end
      | [] => None
      end
    | [] => None
    end
  end.

Definition utf8_valid (bs : bytes) : bool := bool_decide (is_Some (utf8_decode bs)).

Definition from_utf8 (bs : bytes) : outcome bytes :=
  if utf8_valid bs then Ok bs else Err "invalid utf-8".

Definition is_ascii (bs : bytes) : bool := forallb (between 0 127) bs.

(** ** ASCII case *)
Definition lower_byte (b : Z) : Z := if between 65 90 b then b + 32 else b.
Definition upper_byte (b : Z) : Z := if between 97 122 b then b - 32 else b.
Definition to_ascii_lowercase (s : bytes) : bytes := map lower_byte s.
Definition to_ascii_uppercase (s : bytes) : bytes := map upper_byte s.
Definition eq_ignore_ascii_case (a b : bytes) : bool :=
  bool_decide (to_ascii_lowercase a = to_ascii_lowercase b).

Definition is_digit (b : Z) : bool := between 48 57 b.
Definition is_ascii_alphabetic (b : Z) : bool := between 65 90 b || between 97 122 b.
Definition is_ascii_alphanumeric (b : Z) : bool := is_ascii_alphabetic b || is_digit b.

(** ** Searching and splitting on an ASCII character *)
Fixpoint starts_with (p s : bytes) : bool :=
  match p, s with
  | [], _ => true
  | a :: p', b :: s' => (a =? b) && starts_with p' s'
  | _ :: _, [] => false
  end.

Definition strip_prefix (p s : bytes) : option bytes :=
  if starts_with p s then Some (drop (length p) s) else None.

Definition ends_with (s p : bytes) : bool := starts_with (reverse p) (reverse s).

Fixpoint contains (s p : bytes) : bool :=
  starts_with p s || match s with [] => false | _ :: s' => contains s' p end.

Fixpoint split_on (c : Z) (s : bytes) : list bytes :=
  match s with
  | [] => [[]]
  | b :: s' =>
    if b =? c then [] :: split_on c s'
    else match split_on c s' with
         | p :: ps => (b :: p) :: ps
         | [] => [[b]]
         end
  end.

Fixpoint split_once (c : Z) (s : bytes) : option (bytes * bytes) :=
  match s with
  | [] => None
  | b :: s' => if b =? c then Some ([], s')
               else '(l, r) ← split_once c s'; Some (b :: l, r)
  end.

Fixpoint join (sep : bytes) (parts : list bytes) : bytes :=
  match parts with
  | [] => []
  | [p] => p
  | p :: ps => p ++ sep ++ join sep ps
  end.

Fixpoint trim_start_byte (c : Z) (s : bytes) : bytes :=
  match s with
  | b :: s' => if b =? c then trim_start_byte c s' else s
  | [] => []
  end.

Definition trim_end_byte (c : Z) (s : bytes) : bytes :=
  reverse (trim_start_byte c (reverse s)).

(** ** White space and lines

    [char::is_whitespace] is the Unicode property [White_Space]; these
    functions read a string as the list of its scalar values. *)
Definition is_whitespace (c : Z) : bool :=
  between 9 13 c || (c =? 32) || (c =? 133) || (c =? 160) || (c =? 5760) || between 8192 8202 c
  || (c =? 8232) || (c =? 8233) || (c =? 8239) || (c =? 8287) || (c =? 12288).

Fixpoint drop_while {A} (p : A → bool) (s : list A) : list A :=
  match s with
  | c :: s' => if p c then drop_while p s' else s
  | [] => []
  end.

Fixpoint take_while {A} (p : A → bool) (s : list A) : list A :=
  match s with
  | c :: s' => if p c then c :: take_while p s' else []
  | [] => []
  end.

Definition trim_start (s : list Z) : list Z := drop_while is_whitespace s.
Definition trim_end (s : list Z) : list Z := reverse (trim_start (reverse s)).
Definition trim (s : list Z) : list Z := trim_end (trim_start s).

Fixpoint words (fuel : nat) (s : list Z) : list (list Z) :=
  match fuel with
  | O => []
  | S fuel =>
    match drop_while is_whitespace s with
    | [] => []
    | s => let w := take_while (λ c, negb (is_whitespace c)) s in
           w :: words fuel (drop (length w) s)
    end
  end.
Definition split_whitespace (s : list Z) : list (list Z) := words (S (length s)) s.

Definition newline : Z := 10.

(** [str::lines]: the final line needs no terminator, and a carriage return
    before the line feed belongs to the terminator. *)
Definition strip_cr (l : list Z) : list Z :=
  match last l with Some 13 => take (Nat.pred (length l)) l | _ => l end.

Definition lines (s : list Z) : list (list Z) :=
  let ls := split_on newline s in
  let last_line := default [] (last ls) in
  let init := take (Nat.pred (length ls)) ls in
  map strip_cr init ++ match last_line with [] => [] | _ => [last_line] end.

(** ** Decimal numbers *)
Fixpoint parse_digits (max acc : Z) (s : bytes) : option Z :=
  match s with
  | [] => Some acc
  | b :: s' =>
    if is_digit b then
      let acc' := acc * 10 + (b - 48) in
      if acc' <=? max then parse_digits max acc' s' else None
    else None
  end.

(** [s.parse::<uN>()] with [max] the largest value of the type: an optional
    plus sign, at least one digit, overflow rejected. *)
Definition parse_uint (max : Z) (s : bytes) : option Z :=
  match s with
  | [] => None
  | b :: s' =>
    if b =? 43 then match s' with [] => None | _ => parse_digits max 0 s' end
    else parse_digits max 0 s
  end.

Fixpoint show_digits (fuel : nat) (n : Z) : bytes :=
  match fuel with
  | O => []
  | S fuel => if n <? 10 then [48 + n] else show_digits fuel (n / 10) ++ [48 + n mod 10]
  end.

(** Decimal [Display]; forty digits cover every [u128]. *)
Definition show_uint (n : Z) : bytes := show_digits 40 n.

(** ** Lemmas *)
Lemma len_to_ascii_lowercase s : len (to_ascii_lowercase s) = len s.
Proof. unfold len, to_ascii_lowercase. by rewrite length_map. Qed.

Lemma lower_byte_idem b : lower_byte (lower_byte b) = lower_byte b.
Proof.
  unfold lower_byte, between.
  destruct (Z.leb_spec 65 b), (Z.leb_spec b 90); simpl;
    destruct (Z.leb_spec 65 (b + 32)), (Z.leb_spec (b + 32) 90); simpl;
    destruct (Z.leb_spec 65 b), (Z.leb_spec b 90); simpl; lia.
Qed.

Lemma to_ascii_lowercase_idem s :
  to_ascii_lowercase (to_ascii_lowercase s) = to_ascii_lowercase s.
Proof.
  unfold to_ascii_lowercase. rewrite map_map. apply map_ext, lower_byte_idem.
Qed.

Lemma eq_ignore_ascii_case_refl s : eq_ignore_ascii_case s s = true.
Proof. by apply bool_decide_eq_true_2. Qed.

Lemma split_on_nonempty c s : split_on c s ≠ [].
Proof. induction s; simpl; [done|]. destruct (a =? c); [done|]. by destruct (split_on c s). Qed.

Lemma join_split_on c s : join [c] (split_on c s) = s.
Proof.
  induction s as [|b s IH]; [done|]. simpl.
  destruct (Z.eqb_spec b c) as [->|Hbc].
  - destruct (split_on c s) eqn:E; [by apply split_on_nonempty in E|].
    change (c :: join [c] (l :: l0) = c :: s). by rewrite IH.
  - destruct (split_on c s) as [|p [|q ps]] eqn:E; [by apply split_on_nonempty in E|..];
      simpl in *; by rewrite <- IH.
Qed.

Lemma split_on_none c s : c ∉ s → split_on c s = [s].
Proof.
  induction s as [|b s IH]; [done|]. intros [Hb Hs]%not_elem_of_cons. simpl.
  destruct (Z.eqb_spec b c); [congruence|]. by rewrite IH.
Qed.

Lemma split_on_app c p s : c ∉ p → split_on c (p ++ c :: s) = p :: split_on c s.
Proof.
  induction p as [|b p IH]; simpl.
  - intros _. by rewrite Z.eqb_refl.
  - intros [Hb Hp]%not_elem_of_cons. destruct (Z.eqb_spec b c); [congruence|].
    by rewrite IH.
Qed.

Lemma split_on_join c ps :
  ps ≠ [] → Forall (λ p, c ∉ p) ps → split_on c (join [c] ps) = ps.
Proof.
  intros Hne. induction 1 as [|p ps Hp Hps IH]; [done|].
  destruct ps as [|q ps]; simpl.
  - by apply split_on_none.
  - rewrite split_on_app by done. f_equal. by apply IH.
Qed.

Lemma starts_with_app p s : starts_with p (p ++ s) = true.
Proof. induction p; simpl; [done|]. by rewrite Z.eqb_refl. Qed.

Lemma strip_prefix_app p s : strip_prefix p (p ++ s) = Some s.
Proof. unfold strip_prefix. by rewrite starts_with_app, drop_app_length. Qed.

Lemma starts_with_spec p s : starts_with p s = true ↔ ∃ t, s = p ++ t.
Proof.
  split.
  - revert s. induction p as [|a p IH]; intros s; simpl; [eauto|].
    destruct s as [|b s]; [done|]. intros [->%Z.eqb_eq [t ->]%IH]%andb_true_iff. eauto.
  - intros [t ->]. apply starts_with_app.
Qed.

Lemma ends_with_spec s p : ends_with s p = true ↔ ∃ t, s = t ++ p.
Proof.
  unfold ends_with. rewrite starts_with_spec. split.
  - intros [t Ht]. exists (reverse t).
    by rewrite <- (reverse_involutive s), Ht, reverse_app, reverse_involutive.
  - intros [t ->]. exists (reverse t). by rewrite reverse_app.
Qed.

Lemma contains_spec s p : contains s p = true ↔ ∃ l r, s = l ++ p ++ r.
Proof.
  induction s as [|b s IH]; simpl; rewrite orb_true_iff, starts_with_spec.
  - split.
    + intros [[t Ht]|]; [exists [], t; done|done].
    + intros (l & r & H). left. destruct l; [eauto|done].
  - rewrite IH. split.
    + intros [[t Ht]|(l & r & ->)]; [exists [], t; done|exists (b :: l), r; done].
    + intros ([|x l] & r & H); simplify_eq/=; eauto.
Qed.

Lemma trim_end_byte_snoc_ne c s b : b ≠ c → trim_end_byte c (s ++ [b]) = s ++ [b].
Proof.
  intros. unfold trim_end_byte. rewrite reverse_snoc. simpl.
  destruct (Z.eqb_spec b c); [done|]. by rewrite reverse_cons, reverse_involutive.
Qed.

Lemma trim_end_byte_spec c s :
  ∃ n, s = trim_end_byte c s ++ replicate n c ∧ last (trim_end_byte c s) ≠ Some c.
Proof.
  induction s as [|b s IH] using rev_ind; [by exists 0%nat|].
  destruct (decide (b = c)) as [->|Hne].
  - destruct IH as (n & Hs & Hl). exists (S n). unfold trim_end_byte in *.
    rewrite reverse_snoc. simpl. rewrite Z.eqb_refl. split; [|done].
    rewrite Hs at 1. by rewrite <- app_assoc, <- replicate_S_end.
  - exists 0%nat. rewrite trim_end_byte_snoc_ne by done. rewrite app_nil_r. split; [done|].
    rewrite last_snoc. congruence.
Qed.

Lemma trim_end_byte_id c s : last s ≠ Some c → trim_end_byte c s = s.
Proof.
  destruct s as [|b s _] using rev_ind; [done|]. rewrite last_snoc. intros.
  apply trim_end_byte_snoc_ne. congruence.
Qed.

Lemma trim_end_byte_replicate c s n :
  trim_end_byte c (s ++ replicate n c) = trim_end_byte c s.
Proof.
  induction n as [|n IH]; [by rewrite app_nil_r|]. rewrite <- IH. unfold trim_end_byte.
  rewrite replicate_S_end, app_assoc, reverse_snoc. simpl. by rewrite Z.eqb_refl.
Qed.

Lemma last_join c ps :
  Forall (λ p, c ∉ p ∧ p ≠ []) ps → last (join [c] ps) ≠ Some c.
Proof.
  induction 1 as [|p ps [Hc Hp] Hps IH]; [done|].
  destruct ps as [|q ps].
  - intros Hl. apply Hc. apply list_elem_of_lookup. exists (Nat.pred (length p)).
    simpl in Hl. by rewrite <- last_lookup.
  - change (join [c] (p :: q :: ps)) with (p ++ [c] ++ join [c] (q :: ps)).
    rewrite !last_app. destruct (last (join [c] (q :: ps))) eqn:E; [done|].
    apply last_None in E. inversion_clear Hps as [|? ? [? Hq]]. exfalso.
    destruct ps, q; simpl in E; done.
Qed.

(** ** Numbers *)
Lemma parse_digits_app max acc s t :
  parse_digits max acc (s ++ t) = acc' ← parse_digits max acc s; parse_digits max acc' t.
Proof.
  revert acc. induction s as [|b s IH]; intros acc; [done|]. simpl.
  case_match; [|done]. case_match; [apply IH|done].
Qed.

Lemma show_digits_spec fuel n max :
  0 <= n <= max → n < 10 ^ Z.of_nat fuel →
  parse_digits max 0 (show_digits fuel n) = Some n
  ∧ Forall (λ c, is_digit c = true) (show_digits fuel n)
  ∧ (0 < fuel → show_digits fuel n ≠ [])%nat.
Proof.
  revert n. induction fuel as [|fuel IH]; intros n Hn Hf.
  { simpl in Hf. replace n with 0 by lia. split; [done|]. split; [constructor|lia]. }
  cbn [show_digits]. rewrite Nat2Z.inj_succ, Z.pow_succ_r in Hf by lia.
  assert (∀ d, 0 <= d < 10 → is_digit (48 + d) = true) as Hd.
  { intros d Hd. unfold is_digit, between. apply andb_true_iff. lia. }
  destruct (Z.ltb_spec n 10).
  - cbn [parse_digits]. rewrite Hd by lia. cbv zeta.
    rewrite (proj2 (Z.leb_le _ max)) by lia.
    split; [f_equal; lia|]. split; [|done]. repeat constructor. apply Hd. lia.
  - destruct (IH (n / 10)) as (H1 & H2 & _); [lia|lia|].
    rewrite parse_digits_app, H1. cbn [mbind option_bind parse_digits].
    rewrite Hd by lia. cbv zeta. rewrite (proj2 (Z.leb_le _ max)) by lia.
    split; [f_equal; lia|]. split.
    + apply Forall_app. split; [done|]. repeat constructor. apply Hd. lia.
    + intros _. by destruct (show_digits fuel (n / 10)).
Qed.

Lemma show_uint_digits n :
  0 <= n < 10 ^ 40 → Forall (λ c, is_digit c = true) (show_uint n) ∧ show_uint n ≠ [].
Proof.
  intros Hn. destruct (show_digits_spec 40 n n) as (_ & H & Hne); [lia|change (Z.of_nat 40) with 40; lia|].
  split; [done|]. apply Hne. lia.
Qed.

Lemma parse_show_uint max n :
  0 <= n <= max → n < 10 ^ 40 → parse_uint max (show_uint n) = Some n.
Proof.
  intros Hn Hb. destruct (show_digits_spec 40 n max) as (Hp & Hd & Hne); [lia|change (Z.of_nat 40) with 40; lia|].
  unfold parse_uint, show_uint. destruct (show_digits 40 n) as [|b s]; [by destruct (Hne ltac:(lia))|].
  apply Forall_cons in Hd as [Hb' _]. unfold is_digit, between in Hb'.
  apply andb_true_iff in Hb' as [?%Z.leb_le ?%Z.leb_le].
  by rewrite (proj2 (Z.eqb_neq b 43)) by lia.
Qed.

(** ** White space *)
Definition solid (s : list Z) : Prop := Forall (λ c, is_whitespace c = false) s.

Lemma drop_while_solid s t : solid s → s ≠ [] → drop_while is_whitespace (s ++ t) = s ++ t.
Proof. intros Hs Hne. destruct Hs as [|c s Hc Hs]; [done|]. simpl. by rewrite Hc. Qed.

Lemma trim_solid a m b : solid (a :: m) → solid [b] → trim (a :: m ++ [b]) = a :: m ++ [b].
Proof.
  intros Ha Hb. apply Forall_cons in Ha as [Ha _]. apply Forall_cons in Hb as [Hb _].
  unfold trim, trim_end, trim_start. simpl. rewrite Ha.
  rewrite app_comm_cons, reverse_snoc. simpl. rewrite Hb.
  by rewrite <- reverse_snoc, reverse_involutive.
Qed.

Lemma trim_ends s a b : head s = Some a → last s = Some b →
  is_whitespace a = false → is_whitespace b = false → trim s = s.
Proof.
  intros Ha Hb Hwa Hwb. destruct s as [|c s]; [done|]. injection Ha as ->.
  unfold trim, trim_end, trim_start. simpl. rewrite Hwa.
  destruct (reverse (a :: s)) as [|e r] eqn:Hr.
  { apply (f_equal length) in Hr. by rewrite length_reverse in Hr. }
  assert (a :: s = reverse r ++ [e]) as E
    by (rewrite <- (reverse_involutive (a :: s)), Hr; apply reverse_cons).
  rewrite E, last_snoc in Hb. injection Hb as ->. simpl. rewrite Hwb.
  by rewrite <- Hr, reverse_involutive.
Qed.

Lemma take_while_all {A} (p : A → bool) s t :
  Forall (λ c, p c = true) s → (∀ c, head t = Some c → p c = false) →
  take_while p (s ++ t) = s.
Proof.
  intros Hs Ht. induction Hs as [|c s Hc Hs IH].
  - destruct t as [|c t]; [done|]. simpl. by rewrite (Ht c).
  - simpl. by rewrite Hc, IH.
Qed.

Lemma words_solid n w t :
  solid w → w ≠ [] → (∀ c, head t = Some c → is_whitespace c = true) →
  words (S n) (w ++ t) = w :: words n t.
Proof.
  intros Hw Hne Ht. cbn [words]. rewrite drop_while_solid by done.
  assert (take_while (λ c, negb (is_whitespace c)) (w ++ t) = w) as Htw.
  { apply take_while_all; [|intros c Hc; by rewrite (Ht c Hc)].
    eapply Forall_impl; [done|]. by intros ? ->. }
  destruct (w ++ t) as [|c s] eqn:E; [by destruct w|]. cbv zeta.
  by rewrite Htw, <- E, drop_app_length.
Qed.

Lemma split_whitespace_pair u v :
  solid u → solid v → u ≠ [] → v ≠ [] → split_whitespace (u ++ 32 :: v) = [u; v].
Proof.
  intros Hu Hv Hun Hvn. unfold split_whitespace. rewrite length_app. simpl length.
  rewrite Nat.add_succ_r, words_solid by (done || by intros ? [= <-]). f_equal.
  replace (words _ (32 :: v)) with (words (S (length u + length v)) (v ++ []))
    by (by rewrite app_nil_r).
  rewrite words_solid by done. f_equal. by destruct (length u + length v)%nat.
Qed.

(** A text made of terminated lines splits back into them. *)
Lemma lines_unlines ls :
  Forall (λ l, newline ∉ l ∧ last l ≠ Some 13) ls →
  lines (flat_map (λ l, l ++ [newline]) ls) = ls.
Proof.
  intros Hls. unfold lines.
  assert (split_on newline (flat_map (λ l, l ++ [newline]) ls) = ls ++ [[]]) as ->.
  { induction Hls as [|l ls [Hl _] Hls IH]; [done|]. cbn [flat_map].
    rewrite <- app_assoc. cbn [app]. rewrite split_on_app by done. by rewrite IH. }
  rewrite last_snoc. simpl default. rewrite app_nil_r, length_app. simpl length.
  rewrite Nat.add_1_r. simpl Nat.pred. rewrite take_app_length.
  induction Hls as [|l ls [_ Hl] Hls IH]; [done|]. simpl. rewrite IH. f_equal.
  unfold strip_cr. repeat case_match; congruence.
Qed.
