(* ===== verification/TextTrim.v ===== *)
(** * Text: trimming and splitting

    Further facts on the operations of [Text] that read lists of scalar values. *)
From S2P Require Import Prelude Bytes Text.

#[local] Open Scope list_scope.
#[local] Open Scope Z_scope.

Abbreviation blank := (Forall (λ c, is_whitespace c = true)).

(** ** Trimming *)
Lemma drop_while_split {A} (p : A → bool) s :
  ∃ pre, s = pre ++ drop_while p s ∧ Forall (λ c, p c = true) pre ∧ (∀ c, head (drop_while p s) = Some c → p c = false).
Proof.
  induction s as [|c s (pre & E & Hp & Hh)]; simpl; [by exists []|]. destruct (p c) eqn:Ec.
  - exists (c :: pre). simpl. rewrite <- E. split_and!; try done. by constructor.
  - exists []. split_and!; try done. by intros ? [= <-].
Qed.

Lemma drop_while_app {A} (p : A → bool) pre s :
  Forall (λ c, p c = true) pre → drop_while p (pre ++ s) = drop_while p s.
Proof. induction 1 as [|c pre Hc _ IH]; simpl; [done|]. by rewrite Hc. Qed.

Lemma drop_while_stop {A} (p : A → bool) s : (∀ c, head s = Some c → p c = false) → drop_while p s = s.
Proof. destruct s as [|c s]; simpl; intros H; [done|]. by rewrite H. Qed.

(** A text with no white space at its ends. *)
Definition trimmed (s : list Z) : Prop :=
  (∀ c, head s = Some c → is_whitespace c = false) ∧ (∀ c, last s = Some c → is_whitespace c = false).


Lemma head_reverse {A} (s : list A) : head (reverse s) = last s.
Proof. rewrite <- (reverse_involutive s) at 2. generalize (reverse s). intros t. destruct t as [|x t]; [done|]. by rewrite reverse_cons, last_snoc. Qed.

Lemma last_reverse {A} (s : list A) : last (reverse s) = head s.
Proof. by rewrite <- head_reverse, reverse_involutive. Qed.

Lemma trim_fixed s : trimmed s → trim s = s.
Proof.
  intros [Hh Hl]. unfold trim, trim_end, trim_start. rewrite (drop_while_stop _ s) by done.
  rewrite drop_while_stop; [apply reverse_involutive|]. intros c. rewrite head_reverse. apply Hl.
Qed.

Lemma trim_split s : ∃ pre post, s = pre ++ trim s ++ post ∧ blank pre ∧ blank post ∧ trimmed (trim s).
Proof.
  unfold trim, trim_end, trim_start. destruct (drop_while_split is_whitespace s) as (pre & E & Hp & Hh).
  set (t := drop_while is_whitespace s) in *.
  destruct (drop_while_split is_whitespace (reverse t)) as (post & E' & Hq & Hl). set (u := drop_while is_whitespace (reverse t)) in *.
  assert (t = reverse u ++ reverse post) as Et by (by rewrite <- reverse_app, <- E', reverse_involutive).
  exists pre, (reverse post). rewrite <- Et. split_and!; [done|done| |].
  - by apply Forall_reverse.
  - split.
    + intros c Hc. apply Hh. rewrite Et. by destruct (reverse u).
    + intros c. rewrite last_reverse. apply Hl.
Qed.

Lemma trim_is_trimmed s : trimmed (trim s).
Proof. by destruct (trim_split s) as (? & ? & _ & _ & _ & ?). Qed.

Lemma trim_idem s : trim (trim s) = trim s.
Proof. apply trim_fixed, trim_is_trimmed. Qed.

Lemma trim_blank_l pre s : blank pre → trim (pre ++ s) = trim s.
Proof. intros Hp. unfold trim, trim_start. by rewrite drop_while_app. Qed.

Lemma trim_blank_r s post : blank post → trim (s ++ post) = trim s.
Proof.
  intros Hp. unfold trim, trim_end, trim_start. destruct (drop_while_split is_whitespace s) as (pre & E & Hpre & Hh).
  set (t := drop_while is_whitespace s) in *.
  assert (drop_while is_whitespace (s ++ post) = match t with [] => [] | _ => t ++ post end) as ->.
  { rewrite E, <- app_assoc, drop_while_app by done. destruct t as [|c u] eqn:Et.
    - simpl. rewrite <- (app_nil_r post) at 1. by rewrite drop_while_app.
    - apply drop_while_stop. intros c' [= <-]. by apply Hh. }
  destruct t as [|c u] eqn:Et; [done|]. rewrite reverse_app, drop_while_app by (by apply Forall_reverse). done.
Qed.

Lemma trim_elem s c : c ∈ trim s → c ∈ s.
Proof. destruct (trim_split s) as (pre & post & E & _). intros Hc. rewrite E, !elem_of_app. auto. Qed.

Lemma trim_nil_blank s : trim s = [] → blank s.
Proof.
  intros E. destruct (trim_split s) as (pre & post & Es & H1 & H2 & _). rewrite Es, E. by apply Forall_app.
Qed.

(** Trimming stops at a text that has no white space at its ends. *)
Lemma trim_solid_prefix w y : trimmed w → w ≠ [] → ∃ y', trim (w ++ y) = w ++ y'.
Proof.
  intros [Hh Hl] Hw. unfold trim, trim_end, trim_start. rewrite (drop_while_stop _ (w ++ y)).
  2: { intros c Hc. apply Hh. by destruct w. }
  rewrite reverse_app. generalize (reverse y). intros z. induction z as [|c z IH]; simpl.
  - exists []. rewrite drop_while_stop by (intros c; rewrite head_reverse; apply Hl). by rewrite reverse_involutive, app_nil_r.
  - destruct (is_whitespace c); [done|]. exists (reverse (c :: z)).
    by rewrite app_comm_cons, reverse_app, reverse_involutive.
Qed.

Lemma trim_strip_cr s : trim (strip_cr s) = trim s.
Proof.
  unfold strip_cr. destruct (last s) as [c|] eqn:E; [|done]. destruct (decide (c = 13)) as [->|Hc].
  - apply last_Some in E as (l & ->). rewrite length_app. simpl. rewrite Nat.add_1_r. simpl.
    rewrite take_app_length, trim_blank_r; [done|]. repeat constructor.
  - repeat case_match; congruence.
Qed.

(** ** Numbers *)
Lemma parse_digits_range max acc s n : 0 <= acc <= max → parse_digits max acc s = Some n → 0 <= n <= max.
Proof.
  revert acc. induction s as [|b s IH]; intros acc Ha; simpl; [by intros [= <-]|].
  destruct (is_digit b) eqn:Hd; [|done]. unfold is_digit, between in Hd. case_match eqn:E; [|done].
  apply IH. apply Z.leb_le in E. apply andb_true_iff in Hd as [?%Z.leb_le _]. lia.
Qed.

Lemma parse_uint_range max s n : 0 <= max → parse_uint max s = Some n → 0 <= n <= max.
Proof.
  intros Hmax. unfold parse_uint. destruct s as [|b s]; [done|].
  destruct (b =? 43); [destruct s as [|c s]; [done|]|]; apply parse_digits_range; lia.
Qed.

Lemma split_once_split c s l r : split_once c s = Some (l, r) → s = l ++ c :: r ∧ c ∉ l.
Proof.
  revert l r. induction s as [|b s IH]; intros l r; simpl; [done|]. destruct (Z.eqb_spec b c) as [->|Hb].
  - intros [= <- <-]. split; [done|apply not_elem_of_nil].
  - destruct (split_once c s) as [[l' r']|]; [|done]. intros [= <- <-]. destruct (IH _ _ eq_refl) as [-> Hl].
    split; [done|]. apply not_elem_of_cons. by split.
Qed.

Lemma solid_trimmed s : solid s → trimmed s.
Proof.
  intros Hs. unfold solid in Hs. rewrite Forall_forall in Hs. split; intros c Hc; apply Hs.
  - by apply head_Some_elem_of.
  - by apply last_Some_elem_of.
Qed.

Lemma digit_solid c : is_digit c = true → is_whitespace c = false.
Proof. unfold is_digit, is_whitespace, between. lia. Qed.

Lemma parse_digits_all max acc s n : parse_digits max acc s = Some n → Forall (λ c, is_digit c = true) s.
Proof.
  revert acc. induction s as [|b s IH]; intros acc; simpl; [constructor|]. destruct (is_digit b) eqn:E; [|done].
  case_match; [|done]. intros Hs. constructor; [done|by eapply IH].
Qed.

(** A number is written with digits, behind a plus sign perhaps. *)
Lemma parse_uint_chars max s n : parse_uint max s = Some n → s ≠ [] ∧ Forall (λ c, is_digit c = true ∨ c = 43) s.
Proof.
  unfold parse_uint. destruct s as [|b s]; [done|]. intros Hp. split; [done|]. destruct (Z.eqb_spec b 43) as [->|].
  - destruct s as [|c s]; [done|]. apply parse_digits_all in Hp. constructor; [by right|]. eapply Forall_impl; [exact Hp|auto].
  - apply parse_digits_all in Hp. eapply Forall_impl; [exact Hp|auto].
Qed.

Lemma parse_uint_solid max s n : parse_uint max s = Some n → solid s.
Proof.
  intros [_ Hs]%parse_uint_chars. eapply Forall_impl; [exact Hs|]. intros c [Hc| ->]; [by apply digit_solid|done].
Qed.

(** ** Splitting at the first occurrence *)
Lemma split_once_app c p s : c ∉ p → split_once c (p ++ c :: s) = Some (p, s).
Proof.
  induction p as [|b p IH]; simpl; [by rewrite Z.eqb_refl|].
  intros [Hb Hp]%not_elem_of_cons. rewrite (proj2 (Z.eqb_neq b c)) by congruence.
  by rewrite IH.
Qed.

Lemma split_once_none sep p : sep ∉ p → split_once sep p = None.
Proof.
  induction p as [|b p IH]; simpl; intros Hp; [done|]. apply not_elem_of_cons in Hp as [Hb Hp].
  destruct (Z.eqb_spec b sep); [congruence|]. by rewrite IH.
Qed.
