(* ===== verification/Net.v ===== *)
(** * Network addresses of the Rust standard library

    An [IpAddr] carries its numeric value ([u32] or [u128]); [octets],
    [segments], parsing and [Display] are those of [std::net]. *)
From S2P Require Import Prelude Bytes Text.

Inductive IpAddr :=
  | V4 (a : Z)
  | V6 (a : Z).

#[export] Instance IpAddr_eq_dec : EqDecision IpAddr.
Proof. solve_decision. Defined.

#[export] Instance IpAddr_countable : Countable IpAddr.
Proof.
  refine (inj_countable' (λ ip, match ip with V4 a => inl a | V6 a => inr a end)
            (λ s, match s with inl a => V4 a | inr a => V6 a end) _).
  by intros [].
Defined.

Definition u128 (z : Z) : Prop := 0 <= z < 2 ^ 128.

Definition ip_wf (ip : IpAddr) : Prop :=
  match ip with V4 a => u32 a | V6 a => u128 a end.

Definition is_ipv4 (ip : IpAddr) : bool := match ip with V4 _ => true | V6 _ => false end.

Definition octets (ip : IpAddr) : bytes :=
  match ip with V4 a => be_bytes 4 a | V6 a => be_bytes 16 a end.

(** [Ipv6Addr::to_ipv4_mapped]: [::ffff:a.b.c.d]. *)
Definition to_ipv4_mapped (a : Z) : option Z :=
  if a / 4294967296 =? 65535 then Some (a mod 4294967296) else None.

Lemma octets_u8 ip : is_bytes (octets ip).
Proof. destruct ip; apply be_bytes_u8. Qed.

Lemma of_be_octets_v4 a : u32 a → of_be (octets (V4 a)) = a.
Proof. intros. by apply of_be_small. Qed.

Lemma of_be_octets_v6 a : u128 a → of_be (octets (V6 a)) = a.
Proof. intros. by apply of_be_small. Qed.

#[export] Hint Resolve octets_u8 : bytes.

(** ** Parsing: the recursive descent of [core::net::parser]

    Each reader takes the remaining characters and returns the value and the
    rest; a reader that fails consumes nothing. *)
Definition reader (A : Type) : Type := list Z → option (A * list Z).

Definition digit_of (radix c : Z) : option Z :=
  let d := if between 48 57 c then c - 48
           else if between 97 122 c then c - 87
           else if between 65 90 c then c - 55 else radix in
  if d <? radix then Some d else None.

Fixpoint read_digits (fuel : nat) (radix acc count : Z) (s : list Z) : option (Z * Z * list Z) :=
  match fuel with
  | O => match s with
         | c :: _ => match digit_of radix c with Some _ => None | None => Some (acc, count, s) end
         | [] => Some (acc, count, s)
         end
  | S fuel =>
    match s with
    | c :: s' =>
      match digit_of radix c with
      | Some d => read_digits fuel radix (acc * radix + d) (count + 1) s'
      | None => Some (acc, count, s)
      end
    | [] => Some (acc, count, s)
    end
  end.

Definition read_number (radix : Z) (max_digits : nat) (allow_zero_prefix : bool) (max : Z)
    : reader Z := λ s,
  '(v, count, s') ← read_digits max_digits radix 0 0 s;
  if count =? 0 then None
  else if negb allow_zero_prefix && bool_decide (head s = Some 48) && (1 <? count) then None
  else if max <? v then None
  else Some (v, s').

Definition read_given_char (c : Z) : reader unit := λ s,
  match s with b :: s' => if b =? c then Some (tt, s') else None | [] => None end.

Definition read_separator {A} (sep : Z) (index : nat) (inner : reader A) : reader A := λ s,
  match index with
  | O => inner s
  | S _ => '(_, s) ← read_given_char sep s; inner s
  end.

Definition read_ipv4_addr : reader Z := λ s,
  '(a, s) ← read_separator 46 0 (read_number 10 3 false 255) s;
  '(b, s) ← read_separator 46 1 (read_number 10 3 false 255) s;
  '(c, s) ← read_separator 46 2 (read_number 10 3 false 255) s;
  '(d, s) ← read_separator 46 3 (read_number 10 3 false 255) s;
  Some (((a * 256 + b) * 256 + c) * 256 + d, s).

(** [read_groups]: the groups read before slot [limit], and whether an embedded
    IPv4 address ended them. *)
Fixpoint read_groups (n : nat) (i limit : nat) (s : list Z) : list Z * bool * list Z :=
  match n with
  | O => ([], false, s)
  | S n =>
    let ipv4 := if decide (i < limit - 1)%nat then read_separator 58 i read_ipv4_addr s else None in
    match ipv4 with
    | Some (a, s) => ([a / 65536; a mod 65536], true, s)
    | None =>
      match read_separator 58 i (read_number 16 4 true 65535) s with
      | Some (g, s) => let '(gs, v4, s) := read_groups n (S i) limit s in (g :: gs, v4, s)
      | None => ([], false, s)
      end
    end
  end.

Definition of_groups (gs : list Z) : Z := foldl (λ acc g, acc * 65536 + g) 0 gs.

Definition read_ipv6_addr : reader Z := λ s,
  let '(head, head_ipv4, s) := read_groups 8 0 8 s in
  if decide (length head = 8%nat) then Some (of_groups head, s)
  else if head_ipv4 then None
  else
    '(_, s) ← read_given_char 58 s;
    '(_, s) ← read_given_char 58 s;
    let limit := (8 - (length head + 1))%nat in
    let '(tail, _, s) := read_groups limit 0 limit s in
    Some (of_groups (head ++ replicate (8 - length head - length tail) 0 ++ tail), s).

Definition parse_with {A} (r : reader A) (s : list Z) : option A :=
  match r s with Some (a, []) => Some a | _ => None end.

Definition parse_ipv4 (s : list Z) : option Z :=
  if 15 <? len s then None else parse_with read_ipv4_addr s.
Definition parse_ipv6 (s : list Z) : option Z := parse_with read_ipv6_addr s.
Definition parse_ip (s : list Z) : option IpAddr :=
  parse_with (λ s, match read_ipv4_addr s with
                   | Some (a, s) => Some (V4 a, s)
                   | None => '(a, s) ← read_ipv6_addr s; Some (V6 a, s)
                   end) s.

(** [Display] of an IPv4 address. *)
Definition show_ipv4 (a : Z) : list Z := join [46] (map show_uint (be_bytes 4 a)).

(** [Ipv6Addr::segments]. *)
Definition segment (a : Z) (i : Z) : Z := Z.shiftr a (16 * (7 - i)) mod 65536.

(** One decimal group: checked on all 256 values. *)
Definition show_octet_ok (n : nat) : bool :=
  let s := show_uint (Z.of_nat n) in
  bool_decide (read_number 10 3 false 255 s = Some (Z.of_nat n, []))
  && bool_decide (read_number 10 3 false 255 (s ++ [46]) = Some (Z.of_nat n, [46]))
  && (length s <=? 3)%nat.

Lemma show_octet_all : forallb show_octet_ok (seq 0 256) = true.
Proof. by vm_compute. Qed.

Lemma read_digits_app fuel radix acc count s v k t :
  read_digits fuel radix acc count (s ++ [46]) = Some (v, k, [46]) →
  read_digits fuel radix acc count (s ++ 46 :: t) = Some (v, k, 46 :: t).
Proof.
  assert (digit_of radix 46 = None) as Hdot by (unfold digit_of; simpl; by rewrite Z.ltb_irrefl).
  revert acc count s. induction fuel as [|fuel IH]; intros acc count s; destruct s as [|c s];
    cbn [read_digits app]; rewrite ?Hdot.
  - by intros [= <- <-].
  - destruct (digit_of radix c); [done|]. intros [= _ _ H1 H2]. by destruct s.
  - by intros [= <- <-].
  - destruct (digit_of radix c); [apply IH|]. intros [= _ _ H1 H2]. by destruct s.
Qed.

Lemma read_octet z t :
  u8 z → (t = [] ∨ head t = Some 46) →
  read_number 10 3 false 255 (show_uint z ++ t) = Some (z, t).
Proof.
  intros Hz Ht. pose proof show_octet_all as H. rewrite forallb_forall in H.
  specialize (H (Z.to_nat z)). unfold u8 in Hz.
  assert (In (Z.to_nat z) (seq 0 256)) as Hin by (apply in_seq; lia).
  apply H in Hin. unfold show_octet_ok in Hin. rewrite Z2Nat.id in Hin by lia.
  apply andb_true_iff in Hin as [[H1 H2]%andb_true_iff _].
  apply bool_decide_eq_true in H1, H2. destruct Ht as [->|Ht]; [by rewrite app_nil_r|].
  destruct t as [|c t]; [done|]. injection Ht as ->.
  unfold read_number in *. destruct (read_digits 3 10 0 0 (show_uint z ++ [46])) as [[[v k] r]|] eqn:E;
    [|done]. cbn [mbind option_bind] in H2.
  assert (r = [46] ∧ v = z) as [-> ->] by (repeat case_match; naive_solver).
  rewrite (read_digits_app _ _ _ _ _ _ _ t E). cbn [mbind option_bind].
  assert (head (show_uint z ++ 46 :: t) = head (show_uint z ++ [46])) as -> by (by destruct (show_uint z)).
  repeat case_match; congruence.
Qed.

Lemma parse_show_ipv4 a : u32 a → parse_ipv4 (show_ipv4 a) = Some a.
Proof.
  intros Ha. pose proof (be_bytes_u8 4 a) as Hb. pose proof (of_be_octets_v4 a Ha) as Hv.
  unfold show_ipv4, octets in *.
  destruct (be_bytes 4 a) as [|x [|y [|z [|w [|? ?]]]]] eqn:E;
    try (apply (f_equal length) in E; by rewrite length_be_bytes in E).
  apply Forall_cons in Hb as [Hx Hb]. apply Forall_cons in Hb as [Hy Hb].
  apply Forall_cons in Hb as [Hz Hb]. apply Forall_cons in Hb as [Hw _].
  assert (∀ n, u8 n → (length (show_uint n) <= 3)%nat) as Hlen.
  { intros n Hn. pose proof show_octet_all as H. rewrite forallb_forall in H. unfold u8 in Hn.
    specialize (H (Z.to_nat n) ltac:(apply in_seq; lia)). unfold show_octet_ok in H.
    rewrite Z2Nat.id in H by lia. apply andb_true_iff in H as [_ H]. by apply Nat.leb_le in H. }
  cbn [map join app]. unfold parse_ipv4.
  rewrite (proj2 (Z.ltb_ge 15 _)).
  2: { pose proof (Hlen x Hx). pose proof (Hlen y Hy). pose proof (Hlen z Hz). pose proof (Hlen w Hw).
       unfold len. rewrite !length_app. simpl. rewrite !length_app. simpl. rewrite !length_app. simpl. lia. }
  unfold parse_with, read_ipv4_addr, read_separator, read_given_char.
  rewrite read_octet by auto. cbn [mbind option_bind]. rewrite Z.eqb_refl. cbn [mbind option_bind].
  rewrite read_octet by auto. cbn [mbind option_bind]. rewrite Z.eqb_refl. cbn [mbind option_bind].
  rewrite read_octet by auto. cbn [mbind option_bind]. rewrite Z.eqb_refl. cbn [mbind option_bind].
  rewrite <- (app_nil_r (show_uint w)), read_octet by auto. cbn [mbind option_bind].
  f_equal. unfold of_be in Hv. simpl in Hv. lia.
Qed.

Lemma show_ipv4_solid a : u32 a → solid (show_ipv4 a) ∧ newline ∉ show_ipv4 a.
Proof.
  intros Ha.
  assert (Forall (λ c, between 46 57 c = true) (show_ipv4 a)) as H.
  { pose proof (be_bytes_u8 4 a) as Hb. unfold show_ipv4.
    assert (Forall (Forall (λ c, between 46 57 c = true)) (map show_uint (be_bytes 4 a))) as Hp.
    { apply Forall_map. eapply Forall_impl; [done|]. intros n Hn. unfold u8 in Hn.
      destruct (show_uint_digits n) as [Hd _]; [lia|]. eapply Forall_impl; [done|].
      intros c Hc. unfold is_digit, between in *. lia. }
    induction Hp as [|p ps Hp Hps IH]; [constructor|]. destruct ps as [|q ps]; [done|].
    change (join [46] (p :: q :: ps)) with (p ++ 46 :: join [46] (q :: ps)).
    apply Forall_app. split; [done|]. by apply Forall_cons. }
  split.
  - eapply Forall_impl; [done|]. intros c Hc. unfold between in Hc. unfold is_whitespace, between. lia.
  - intros Hin. rewrite Forall_forall in H. by specialize (H _ Hin).
Qed.

Lemma read_digits_nonneg fuel radix acc count s v k t :
  0 <= radix → 0 <= acc → read_digits fuel radix acc count s = Some (v, k, t) → 0 <= v.
Proof.
  intros Hr. revert acc count s. induction fuel as [|fuel IH]; intros acc count s Ha H.
  { destruct s; simpl in H; repeat case_match; simplify_eq; done. }
  destruct s as [|c s]; simpl in H; [by simplify_eq|].
  destruct (digit_of radix c) as [d|] eqn:Hd; [|by simplify_eq].
  eapply IH, H. unfold digit_of, between in Hd. repeat case_match; simplify_eq; nia.
Qed.

Lemma read_number_bound radix n z max s v t :
  0 <= radix → read_number radix n z max s = Some (v, t) → 0 <= v <= max.
Proof.
  intros Hr H. unfold read_number in H.
  destruct (read_digits n radix 0 0 s) as [[[v' k] r]|] eqn:E; [|done]. simpl in H.
  destruct (k =? 0); [done|]. destruct (_ && _ && _); [done|].
  destruct (Z.ltb_spec max v'); [done|]. simplify_eq.
  split; [|done]. by eapply read_digits_nonneg in E.
Qed.

Lemma read_separator_some {A} sep i (r : reader A) s a t :
  read_separator sep i r s = Some (a, t) → ∃ s', r s' = Some (a, t).
Proof.
  destruct i; simpl; [by eexists|]. destruct (read_given_char sep s) as [[[] s']|]; [|done].
  by eexists.
Qed.

Lemma parse_ipv4_u32 s a : parse_ipv4 s = Some a → u32 a.
Proof.
  unfold parse_ipv4, parse_with. case_match; [done|].
  destruct (read_ipv4_addr s) as [[v [|? ?]]|] eqn:E; [|done..]. intros [= ->].
  unfold read_ipv4_addr in E.
  do 4 (match type of E with (read_separator ?c ?i ?r ?s ≫= _) = _ =>
      let Hx := fresh "Hx" in destruct (read_separator c i r s) as [[? ?]|] eqn:Hx; [|done];
      apply read_separator_some in Hx as [? Hx]; apply read_number_bound in Hx; [|lia];
      cbn [mbind option_bind] in E end).
  injection E as <- _. unfold u32. lia.
Qed.
