(* ===== verification/NetText.v ===== *)
(** * Addresses as text, and Unicode case

    [Display] of IP addresses with its inverse law, and the class [Unicode] of
    the case tables of the standard library: the code relies on them only
    through their behaviour on ASCII and on address literals. *)
From S2P Require Import Prelude Bytes Text Net.

#[local] Open Scope list_scope.
#[local] Open Scope Z_scope.

(** ** [Display] *)
Definition hex_digit (d : Z) : Z := if d <? 10 then 48 + d else 87 + d.

Fixpoint show_hex (fuel : nat) (n : Z) : list Z :=
  match fuel with
  | O => []
  | S fuel => if n <? 16 then [hex_digit n] else show_hex fuel (n / 16) ++ [hex_digit (n mod 16)]
  end.

Definition show_groups (gs : list Z) : list Z := join [58] (map (show_hex 4) gs).

(** The first longest run of zero groups: position, current run, best run. *)
Record zero_runs := Runs { run_pos : nat; cur : nat * nat; best : nat * nat }.

Definition zero_step (r : zero_runs) (g : Z) : zero_runs :=
  let i := run_pos r in
  if g =? 0 then
    let c := (if (cur r).2 =? 0 then (i, 1) else ((cur r).1, S (cur r).2))%nat in
    Runs (S i) c (if (best r).2 <? c.2 then c else best r)%nat
  else Runs (S i) (0, 0)%nat (best r).

Definition longest_zeros (gs : list Z) : nat * nat :=
  best (foldl zero_step (Runs 0 (0, 0) (0, 0))%nat gs).

Definition segments (a : Z) : list Z := map (segment a) [0; 1; 2; 3; 4; 5; 6; 7].

Definition show_ipv6 (a : Z) : list Z :=
  match to_ipv4_mapped a with
  | Some v4 => [58; 58; 102; 102; 102; 102; 58] ++ show_ipv4 v4
  | None =>
    let gs := segments a in
    let '(start, n) := longest_zeros gs in
    if (1 <? n)%nat then
      show_groups (take start gs) ++ [58; 58] ++ show_groups (drop (start + n) gs)
    else show_groups gs
  end.

Definition show_ip (ip : IpAddr) : list Z :=
  match ip with V4 a => show_ipv4 a | V6 a => show_ipv6 a end.

(** ** One printed group *)
Lemma digit_of_hex d : 0 <= d < 16 → digit_of 16 (hex_digit d) = Some d.
Proof.
  intros Hd. assert (In d (map Z.of_nat (seq 0 16))) as Hin
    by (apply in_map_iff; exists (Z.to_nat d); rewrite in_seq; lia).
  repeat destruct Hin as [<-|Hin]; done.
Qed.

Lemma show_hex_read k n :
  0 <= n < 16 ^ Z.of_nat k → (0 < k)%nat →
  ∃ L, length (show_hex k n) = L ∧ (1 <= L <= k)%nat
    ∧ Forall (λ c, ∃ d, 0 <= d < 16 ∧ c = hex_digit d) (show_hex k n)
    ∧ ∀ fuel acc count t, (L <= fuel)%nat →
      read_digits fuel 16 acc count (show_hex k n ++ t)
      = read_digits (fuel - L) 16 (acc * 16 ^ Z.of_nat L + n) (count + Z.of_nat L) t.
Proof.
  revert n. induction k as [|k IH]; intros n Hn Hk; [lia|]. cbn [show_hex].
  destruct (Z.ltb_spec n 16).
  - exists 1%nat. split; [done|]. split; [lia|]. split; [repeat constructor; exists n; lia|].
    intros [|fuel] acc count t Hf; [lia|]. cbn [app read_digits]. rewrite digit_of_hex by lia.
    rewrite Nat.sub_succ, Nat.sub_0_r. f_equal; lia.
  - rewrite Nat2Z.inj_succ, Z.pow_succ_r in Hn by lia.
    destruct (IH (n / 16)) as (L & Hlen & HL & Hd & Hr); [lia| |].
    { destruct k; [simpl in Hn; lia|lia]. }
    exists (S L). rewrite length_app. simpl length. split; [lia|]. split; [lia|]. split.
    { apply Forall_app. split; [done|]. repeat constructor. exists (n mod 16). lia. }
    intros fuel acc count t Hf. rewrite <- app_assoc, Hr by lia.
    replace (fuel - L)%nat with (S (fuel - S L)) by lia. cbn [app read_digits].
    rewrite digit_of_hex by lia. f_equal; [|lia].
    rewrite Nat2Z.inj_succ, Z.pow_succ_r by lia. lia.
Qed.

Definition stops (t : list Z) : Prop := t = [] ∨ head t = Some 58.

Lemma read_digits_stop fuel acc count t :
  stops t → read_digits fuel 16 acc count t = Some (acc, count, t).
Proof.
  intros [->|Ht]; [by destruct fuel|]. destruct t as [|c t]; [done|]. injection Ht as ->.
  by destruct fuel.
Qed.

Lemma read_group g t :
  u16 g → stops t → read_number 16 4 true 65535 (show_hex 4 g ++ t) = Some (g, t).
Proof.
  intros Hg Ht. unfold u16 in Hg.
  destruct (show_hex_read 4 g) as (L & _ & HL & _ & Hr); [simpl; lia|lia|].
  unfold read_number. rewrite Hr by lia. rewrite read_digits_stop by done. cbn [mbind option_bind].
  rewrite (proj2 (Z.eqb_neq _ 0)) by lia. cbn [negb andb].
  by rewrite (proj2 (Z.ltb_ge 65535 _)) by lia.
Qed.

(** ** Without a dot there is no embedded IPv4 address *)
Lemma read_digits_suffix fuel radix acc count s v k t :
  read_digits fuel radix acc count s = Some (v, k, t) → ∃ p, s = p ++ t.
Proof.
  revert acc count s. induction fuel as [|fuel IH]; intros acc count s H.
  - destruct s; simpl in H; repeat case_match; simplify_eq; by exists [].
  - destruct s as [|c s]; simpl in H; [simplify_eq; by exists []|].
    destruct (digit_of radix c); [|simplify_eq; by exists []].
    apply IH in H as [p ->]. by exists (c :: p).
Qed.

Lemma read_number_suffix radix n z max s v t :
  read_number radix n z max s = Some (v, t) → ∃ p, s = p ++ t.
Proof.
  unfold read_number. destruct (read_digits n radix 0 0 s) as [[[v' k] r]|] eqn:E; [|done]. simpl.
  repeat case_match; intros; simplify_eq. by eapply read_digits_suffix.
Qed.

Lemma read_ipv4_no_dot s : 46 ∉ s → read_ipv4_addr s = None.
Proof.
  intros Hs. unfold read_ipv4_addr, read_separator.
  destruct (read_number 10 3 false 255 s) as [[a t]|] eqn:E; [|done]. cbn [mbind option_bind].
  apply read_number_suffix in E as [p ->]. unfold read_given_char.
  destruct t as [|c t]; [done|]. destruct (Z.eqb_spec c 46) as [->|]; [|done].
  exfalso. apply Hs. apply elem_of_app. right. by left.
Qed.

Lemma read_ipv4_sep_no_dot i s : 46 ∉ s → read_separator 58 i read_ipv4_addr s = None.
Proof.
  intros Hs. destruct i; [by apply read_ipv4_no_dot|]. simpl. unfold read_given_char.
  destruct s as [|c s]; [done|]. apply not_elem_of_cons in Hs as [_ Hs].
  destruct (c =? 58); [|done]. by apply read_ipv4_no_dot.
Qed.

Lemma show_hex_no_dot g : u16 g → 46 ∉ show_hex 4 g.
Proof.
  intros Hg Hin. unfold u16 in Hg.
  destruct (show_hex_read 4 g) as (L & _ & _ & Hd & _); [simpl; lia|lia|].
  rewrite Forall_forall in Hd. destruct (Hd _ Hin) as (d & Hd' & E).
  unfold hex_digit in E. destruct (Z.ltb_spec d 10); lia.
Qed.

Lemma show_groups_no_dot gs : Forall u16 gs → 46 ∉ show_groups gs.
Proof.
  induction 1 as [|g gs Hg Hgs IH]; [apply not_elem_of_nil|].
  pose proof (show_hex_no_dot g Hg). unfold show_groups in *. destruct gs as [|h gs]; [done|].
  change (join [58] (map (show_hex 4) (g :: h :: gs)))
    with (show_hex 4 g ++ 58 :: join [58] (map (show_hex 4) (h :: gs))).
  rewrite elem_of_app, elem_of_cons. naive_solver.
Qed.

(** ** Reading printed groups back *)
Definition sep_groups (gs : list Z) : list Z := flat_map (λ g, 58 :: show_hex 4 g) gs.

Lemma show_groups_cons g gs : show_groups (g :: gs) = show_hex 4 g ++ sep_groups gs.
Proof.
  revert g. induction gs as [|h gs IH]; intros g; [unfold show_groups; simpl; by rewrite app_nil_r|].
  change (show_groups (g :: h :: gs)) with (show_hex 4 g ++ 58 :: show_groups (h :: gs)).
  by rewrite IH.
Qed.

(** A reader of the next group fails on what follows. *)
Definition ends_groups (n : nat) (t : list Z) : Prop :=
  n = O ∨ t = [] ∨ ∃ t', t = 58 :: 58 :: t'.

Lemma ends_stops n t : ends_groups n t → n ≠ O → stops t.
Proof. intros [?|[->|[t' ->]]]; [done|by left|by right]. Qed.

Lemma read_groups_sep n i limit gs t :
  Forall u16 gs → 46 ∉ t → (length gs <= n)%nat → i ≠ O →
  (stops t ∧ ends_groups (n - length gs) t) →
  read_groups n i limit (sep_groups gs ++ t) = (gs, false, t).
Proof.
  intros Hgs Ht Hn Hi [Hst He]. revert n i Hn Hi He. induction Hgs as [|g gs Hg Hgs IH]; intros n i Hn Hi He.
  - rewrite Nat.sub_0_r in He. simpl. destruct n as [|n]; [done|]. cbn [read_groups].
    rewrite read_ipv4_sep_no_dot by done. destruct i as [|i]; [done|].
    destruct He as [?|[->|[t' ->]]]; [done|by destruct (decide _)..].
  - destruct n as [|n]; [simpl in Hn; lia|]. cbn [sep_groups flat_map app].
    fold (sep_groups gs). rewrite <- app_assoc. cbn [read_groups].
    assert (46 ∉ 58 :: show_hex 4 g ++ sep_groups gs ++ t) as Hnd.
    { pose proof (show_groups_no_dot (g :: gs) ltac:(by constructor)) as H.
      rewrite show_groups_cons in H. rewrite !elem_of_cons, !elem_of_app in *. naive_solver. }
    rewrite read_ipv4_sep_no_dot by done. destruct i as [|i]; [done|].
    cbn [read_separator read_given_char]. rewrite Z.eqb_refl. cbn [mbind option_bind].
    rewrite read_group; [|done|].
    2: { destruct gs; [done|]. by right. }
    rewrite IH by (simpl in *; done || lia). by destruct (decide _).
Qed.

Lemma read_groups_show n limit gs t :
  Forall u16 gs → 46 ∉ t → (length gs <= n)%nat → stops t →
  ends_groups (n - length gs) t →
  read_groups n 0 limit (show_groups gs ++ t) = (gs, false, t).
Proof.
  intros Hgs Ht Hn Hst He. destruct gs as [|g gs].
  - rewrite Nat.sub_0_r in He. simpl. destruct n as [|n]; [done|]. cbn [read_groups read_separator].
    rewrite read_ipv4_no_dot by done.
    destruct He as [?|[->|[t' ->]]]; [done|by destruct (decide _)..].
  - destruct n as [|n]; [simpl in Hn; lia|]. rewrite show_groups_cons, <- app_assoc.
    cbn [read_groups]. inversion_clear Hgs as [|? ? Hg Hgs'].
    assert (46 ∉ show_hex 4 g ++ sep_groups gs ++ t) as Hnd.
    { pose proof (show_groups_no_dot (g :: gs) ltac:(by constructor)) as H.
      rewrite show_groups_cons in H. rewrite !elem_of_app in *. naive_solver. }
    cbn [read_separator]. rewrite read_ipv4_no_dot by done.
    rewrite read_group; [|done|].
    2: { destruct gs; [done|]. by right. }
    rewrite read_groups_sep by (simpl in *; done || lia). by destruct (decide _).
Qed.

Lemma parse_groups_all gs :
  Forall u16 gs → length gs = 8%nat → parse_ipv6 (show_groups gs) = Some (of_groups gs).
Proof.
  intros Hgs Hlen. unfold parse_ipv6, parse_with, read_ipv6_addr.
  rewrite <- (app_nil_r (show_groups gs)).
  rewrite read_groups_show; [|done|apply not_elem_of_nil|lia|by left|by left; lia].
  by rewrite decide_True by done.
Qed.

Lemma parse_groups_gap hd n tl :
  Forall u16 hd → Forall u16 tl → (length hd + n + length tl = 8)%nat → (0 < n)%nat →
  parse_ipv6 (show_groups hd ++ [58; 58] ++ show_groups tl)
  = Some (of_groups (hd ++ replicate n 0 ++ tl)).
Proof.
  intros Hh Ht Hlen Hn. unfold parse_ipv6, parse_with, read_ipv6_addr.
  rewrite read_groups_show; [|done| |lia|by right|right; right; by eexists].
  2: { pose proof (show_groups_no_dot tl Ht). cbn [app]. rewrite !elem_of_cons. naive_solver. }
  rewrite decide_False by lia. cbn [app].
  assert (∀ s, read_given_char 58 (58 :: s) = Some (tt, s)) as Hc by done.
  rewrite Hc. cbn [mbind option_bind]. rewrite Hc. cbn [mbind option_bind].
  rewrite <- (app_nil_r (show_groups tl)).
  rewrite read_groups_show; [|done|apply not_elem_of_nil|lia|by left|by right; left].
  by replace (8 - length hd - length tl)%nat with n by lia.
Qed.

(** ** The zero run *)
Definition zero_span (gs : list Z) (sp : nat * nat) : Prop :=
  (sp.1 + sp.2 <= length gs)%nat ∧ ∀ i, (sp.1 <= i < sp.1 + sp.2)%nat → gs !! i = Some 0.

Record runs_ok (gs : list Z) (r : zero_runs) : Prop := {
  runs_pos : run_pos r = length gs;
  runs_cur : zero_span gs (cur r) ∧ ((cur r).1 + (cur r).2 = length gs)%nat ∨ (cur r).2 = O;
  runs_best : zero_span gs (best r);
}.

Lemma zero_span_snoc gs g sp : zero_span gs sp → zero_span (gs ++ [g]) sp.
Proof.
  intros [Hl H]. split; [rewrite length_app; lia|]. intros i Hi.
  rewrite lookup_app_l by lia. by apply H.
Qed.

Lemma runs_step gs g r : runs_ok gs r → runs_ok (gs ++ [g]) (zero_step r g).
Proof.
  intros [Hp Hc Hb]. unfold zero_step. destruct (Z.eqb_spec g 0) as [->|].
  - set (c := (if (cur r).2 =? 0 then (run_pos r, 1) else ((cur r).1, S (cur r).2))%nat).
    assert (zero_span (gs ++ [0]) c ∧ (c.1 + c.2 = length (gs ++ [0%Z]))%nat) as [Hspan Hsum].
    { unfold c. rewrite length_app. simpl. destruct (cur r) as [s [|n]]; simpl in *.
      - split; [|lia]. split; [rewrite length_app; simpl; lia|]. simpl. intros i Hi.
        rewrite lookup_app_r by lia. by replace (i - length gs)%nat with O by lia.
      - destruct Hc as [[[Hl Hz] Hs]|]; [|done]. simpl in *. split; [|lia].
        split; [rewrite length_app; simpl; lia|]. simpl. intros i Hi.
        destruct (decide (i < length gs)%nat).
        + rewrite lookup_app_l by done. apply Hz. lia.
        + rewrite lookup_app_r by lia. by replace (i - length gs)%nat with O by lia. }
    split; cbn [run_pos cur best]; [rewrite length_app, Hp; simpl; lia|exact (or_introl (conj Hspan Hsum))|].
    fold c. case_match; [done|]. by apply zero_span_snoc.
  - split; simpl; [rewrite length_app, Hp; simpl; lia|by right|by apply zero_span_snoc].
Qed.

Lemma longest_zeros_span gs : zero_span gs (longest_zeros gs).
Proof.
  assert (∀ gs0 gs r, runs_ok gs0 r → runs_ok (gs0 ++ gs) (foldl zero_step r gs)) as H.
  { clear. intros gs0 gs. revert gs0. induction gs as [|g gs IH]; intros gs0 r Hr.
    - by rewrite app_nil_r.
    - rewrite (app_assoc gs0 [g] gs : gs0 ++ g :: gs = _). apply IH. by apply runs_step. }
  unfold longest_zeros. apply (H [] gs). split; simpl; [done|by right|].
  split; simpl; [lia|]. intros i Hi. lia.
Qed.

Lemma zero_span_split gs start n :
  zero_span gs (start, n) → gs = take start gs ++ replicate n 0 ++ drop (start + n) gs.
Proof.
  intros [Hl Hz]. simpl in *. rewrite <- (take_drop start gs) at 1. f_equal.
  rewrite <- (take_drop n (drop start gs)) at 1. rewrite drop_drop. f_equal.
  apply list_eq. intros i. destruct (decide (i < n)%nat).
  - rewrite lookup_take_lt, lookup_drop, lookup_replicate_2 by done. apply Hz. lia.
  - rewrite !lookup_ge_None_2; [done|rewrite length_replicate; lia|rewrite length_take; lia].
Qed.

(** ** Round trips *)
Lemma segment_value a i : 0 <= i <= 7 → segment a i = a / 65536 ^ (7 - i) mod 65536.
Proof.
  intros Hi. unfold segment. rewrite Z.shiftr_div_pow2 by lia.
  replace (2 ^ (16 * (7 - i))) with (65536 ^ (7 - i)); [done|].
  change 65536 with (2 ^ 16). by rewrite <- Z.pow_mul_r by lia.
Qed.

Lemma of_groups_snoc gs g : of_groups (gs ++ [g]) = of_groups gs * 65536 + g.
Proof. unfold of_groups. by rewrite foldl_app. Qed.

Lemma segments_ok a : u128 a → Forall u16 (segments a) ∧ of_groups (segments a) = a.
Proof.
  intros Ha. unfold u128 in Ha. split.
  - unfold segments. apply Forall_map. repeat constructor; unfold segment; by apply Z.mod_pos_bound.
  - unfold segments. cbn [map]. rewrite !segment_value by lia.
    change (7 - 0) with 7. change (7 - 1) with 6. change (7 - 2) with 5. change (7 - 3) with 4.
    change (7 - 4) with 3. change (7 - 5) with 2. change (7 - 6) with 1. change (7 - 7) with 0.
    assert (∀ k k', 0 <= k → k' = k + 1 →
      a / 65536 ^ k' * 65536 + a / 65536 ^ k mod 65536 = a / 65536 ^ k) as Hstep.
    { intros k k' Hk ->. rewrite Z.pow_add_r, <- Z.div_div by lia. rewrite Z.pow_1_r.
      rewrite (Z.div_mod (a / 65536 ^ k) 65536) at 3 by lia. lia. }
    unfold of_groups. cbn [foldl].
    rewrite (Z.mod_small (a / 65536 ^ 7)).
    2: { split; [apply Z.div_pos; lia|]. apply Z.div_lt_upper_bound; [lia|].
         change (65536 ^ 7 * 65536) with (2 ^ 128). lia. }
    rewrite Z.mul_0_l, Z.add_0_l.
    rewrite (Hstep 6 7), (Hstep 5 6), (Hstep 4 5), (Hstep 3 4), (Hstep 2 3), (Hstep 1 2), (Hstep 0 1) by lia.
    by rewrite Z.pow_0_r, Z.div_1_r.
Qed.

Lemma read_show_ipv4 a : u32 a → read_ipv4_addr (show_ipv4 a) = Some (a, []).
Proof.
  intros Ha. pose proof (parse_show_ipv4 a Ha) as H. unfold parse_ipv4, parse_with in H.
  case_match; [done|]. repeat case_match; simplify_eq. done.
Qed.

Lemma parse_show_ipv6 a : u128 a → parse_ipv6 (show_ipv6 a) = Some a.
Proof.
  intros Ha. unfold show_ipv6. destruct (to_ipv4_mapped a) as [v4|] eqn:Hm.
  - unfold to_ipv4_mapped in Hm. destruct (Z.eqb_spec (a / 4294967296) 65535) as [Hq|]; [|done].
    injection Hm as Hv. unfold parse_ipv6, parse_with, read_ipv6_addr.
    change (read_groups 8 0 8 ([58; 58; 102; 102; 102; 102; 58] ++ show_ipv4 v4))
      with (@nil Z, false, [58; 58; 102; 102; 102; 102; 58] ++ show_ipv4 v4).
    cbn beta iota. rewrite decide_False by done. cbn [app].
    assert (∀ s, read_given_char 58 (58 :: s) = Some (tt, s)) as Hc by done.
    rewrite Hc. cbn [mbind option_bind]. rewrite Hc. cbn [mbind option_bind].
    change (8 - (length (@nil Z) + 1))%nat with 7%nat.
    change (read_groups 7 0 7 (102 :: 102 :: 102 :: 102 :: 58 :: show_ipv4 v4))
      with (let '(gs, v4, s) := read_groups 6 1 7 (58 :: show_ipv4 v4) in (65535 :: gs, v4, s)).
    assert (read_groups 6 1 7 (58 :: show_ipv4 v4) = ([v4 / 65536; v4 mod 65536], true, [])) as ->.
    { cbn [read_groups]. rewrite decide_True by lia.
      unfold read_separator. rewrite Hc. cbn [mbind option_bind].
      by rewrite read_show_ipv4 by (unfold u32; lia). }
    f_equal. change (of_groups (65535 :: [v4 / 65536; v4 mod 65536]) = a).
    unfold of_groups. cbn [foldl]. lia.
  - destruct (segments_ok a Ha) as [Hu Hv]. pose proof (longest_zeros_span (segments a)) as Hz.
    destruct (longest_zeros (segments a)) as [start n]. destruct (Nat.ltb_spec 1 n) as [Hn|Hn].
    + pose proof (zero_span_split _ _ _ Hz) as Hs. destruct Hz as [Hl _]. simpl in Hl.
      rewrite parse_groups_gap with (n := n).
      * by rewrite <- Hs, Hv.
      * by apply Forall_take.
      * by apply Forall_drop.
      * rewrite length_take, length_drop. change (length (segments a)) with 8%nat in *. lia.
      * lia.
    + by rewrite parse_groups_all, Hv.
Qed.

Lemma show_ipv6_not_v4 a : u128 a → read_ipv4_addr (show_ipv6 a) = None.
Proof.
  intros Ha. unfold show_ipv6. destruct (to_ipv4_mapped a) as [v4|]; [done|].
  destruct (segments_ok a Ha) as [Hu _]. destruct (longest_zeros (segments a)) as [start n].
  apply read_ipv4_no_dot. case_match; [|by apply show_groups_no_dot].
  pose proof (show_groups_no_dot (take start (segments a)) ltac:(by apply Forall_take)).
  pose proof (show_groups_no_dot (drop (start + n) (segments a)) ltac:(by apply Forall_drop)).
  cbn [app]. rewrite elem_of_app, !elem_of_cons. naive_solver.
Qed.

(** Every address prints and parses back. *)
Lemma parse_show_ip ip : ip_wf ip → parse_ip (show_ip ip) = Some ip.
Proof.
  destruct ip as [a|a]; intros Ha; unfold parse_ip, parse_with; cbn [show_ip].
  - by rewrite read_show_ipv4.
  - rewrite show_ipv6_not_v4 by done. pose proof (parse_show_ipv6 a Ha) as H.
    unfold parse_ipv6, parse_with in H. destruct (read_ipv6_addr _) as [[v [|]]|]; simplify_eq. done.
Qed.

(** ** Unicode case tables *)
Class Unicode := {
  to_lowercase : list Z → list Z;
  to_uppercase : list Z → list Z;
  is_alphanumeric : Z → bool;
  to_lowercase_ascii s : is_ascii s = true → to_lowercase s = to_ascii_lowercase s;
  to_uppercase_ascii s : is_ascii s = true → to_uppercase s = to_ascii_uppercase s;
  is_alphanumeric_ascii c : between 0 127 c = true → is_alphanumeric c = is_ascii_alphanumeric c;
  to_lowercase_ip s : parse_ip (to_lowercase s) = parse_ip s;
}.

(** The ASCII case map is such a table. *)
Definition low (s : list Z) : list Z := map lower_byte s.

Lemma lower_byte_cases c : lower_byte c = c ∨ 65 <= c <= 90 ∧ lower_byte c = c + 32.
Proof. unfold lower_byte, between. destruct (Z.leb_spec 65 c), (Z.leb_spec c 90); simpl; lia. Qed.

Lemma digit_of_lower radix c : radix <= 36 → digit_of radix (lower_byte c) = digit_of radix c.
Proof.
  intros Hr. destruct (lower_byte_cases c) as [->|[Hc ->]]; [done|]. unfold digit_of, between.
  rewrite (proj2 (Z.leb_gt (c + 32) 57)), (proj2 (Z.leb_gt c 57)), !andb_false_r by lia.
  rewrite (proj2 (Z.leb_le 97 (c + 32))), (proj2 (Z.leb_le (c + 32) 122)) by lia. simpl.
  rewrite (proj2 (Z.leb_gt 97 c)), (proj2 (Z.leb_le 65 c)), (proj2 (Z.leb_le c 90)) by lia. simpl.
  by replace (c + 32 - 87) with (c - 55) by lia.
Qed.

Lemma lower_byte_punct c p : (p = 46 ∨ p = 58) → (lower_byte c =? p) = (c =? p).
Proof.
  intros Hp. destruct (lower_byte_cases c) as [->|[Hc ->]]; [done|].
  destruct (Z.eqb_spec c p), (Z.eqb_spec (c + 32) p); lia.
Qed.

Lemma read_digits_low fuel radix acc count s :
  radix <= 36 →
  read_digits fuel radix acc count (low s)
  = (λ '(v, k, t), (v, k, low t)) <$> read_digits fuel radix acc count s.
Proof.
  intros Hr. revert acc count s. induction fuel as [|fuel IH]; intros acc count [|c s]; try done;
    cbn [low map read_digits]; rewrite digit_of_lower by done; destruct (digit_of radix c); try done; apply IH.

Qed.

Lemma read_number_low radix n z max s :
  radix <= 36 → read_number radix n z max (low s) = prod_map id low <$> read_number radix n z max s.
Proof.
  intros Hr. unfold read_number. rewrite read_digits_low by done.
  destruct (read_digits n radix 0 0 s) as [[[v k] t]|]; [|done]. cbn [mbind option_bind fmap option_fmap option_map].
  assert (bool_decide (head (low s) = Some 48) = bool_decide (head s = Some 48)) as ->.
  { apply bool_decide_ext. destruct s as [|c s]; [done|]. simpl.
    destruct (lower_byte_cases c) as [->|[Hc ->]]; [done|]. split; intros [= ?]; lia. }
  by repeat case_match.
Qed.

Lemma read_char_low p s :
  p = 46 ∨ p = 58 → read_given_char p (low s) = prod_map id low <$> read_given_char p s.
Proof.
  intros Hp. destruct s as [|c s]; [done|]. simpl. rewrite lower_byte_punct by done.
  by destruct (c =? p).
Qed.

Lemma read_separator_low {A} p i (r : reader A) s :
  p = 46 ∨ p = 58 → (∀ t, r (low t) = prod_map id low <$> r t) →
  read_separator p i r (low s) = prod_map id low <$> read_separator p i r s.
Proof.
  intros Hp Hr. destruct i; [apply Hr|]. simpl. rewrite read_char_low by done.
  destruct (read_given_char p s) as [[[] t]|]; [apply Hr|done].
Qed.

Ltac oc := cbn [fmap option_fmap option_map mbind option_bind prod_map fst snd id].

Lemma read_ipv4_low s : read_ipv4_addr (low s) = prod_map id low <$> read_ipv4_addr s.
Proof.
  unfold read_ipv4_addr.
  assert (∀ i t, read_separator 46 i (read_number 10 3 false 255) (low t)
                 = prod_map id low <$> read_separator 46 i (read_number 10 3 false 255) t) as H.
  { intros. apply read_separator_low; [by left|]. intros. by apply read_number_low. }
  rewrite H. destruct (read_separator 46 0 _ s) as [[a t0]|]; [|done]. oc.
  rewrite (H 1%nat). destruct (read_separator 46 1 _ t0) as [[b t1]|]; [|done]. oc.
  rewrite (H 2%nat). destruct (read_separator 46 2 _ t1) as [[c t2]|]; [|done]. oc.
  rewrite (H 3%nat). by destruct (read_separator 46 3 _ t2) as [[d t3]|].
Qed.

Lemma read_groups_low n i limit s :
  read_groups n i limit (low s) = let '(gs, v4, t) := read_groups n i limit s in (gs, v4, low t).
Proof.
  revert i s. induction n as [|n IH]; intros i s; [done|]. cbn [read_groups].
  assert (∀ r : reader Z, (∀ t, r (low t) = prod_map id low <$> r t) →
    read_separator 58 i r (low s) = prod_map id low <$> read_separator 58 i r s) as Hs
    by (intros; apply read_separator_low; [by right|done]).
  rewrite (Hs read_ipv4_addr read_ipv4_low).
  rewrite (Hs (read_number 16 4 true 65535)) by (intros; by apply read_number_low).
  destruct (decide (i < limit - 1)%nat);
    [destruct (read_separator 58 i read_ipv4_addr s) as [[a t]|]; [done|]|];
    (destruct (read_separator 58 i (read_number 16 4 true 65535) s) as [[g t]|]; [|done]);
    oc; rewrite IH; by destruct (read_groups n (S i) limit t) as [[gs v4] u].
Qed.

Lemma read_ipv6_low s : read_ipv6_addr (low s) = prod_map id low <$> read_ipv6_addr s.
Proof.
  unfold read_ipv6_addr. rewrite read_groups_low.
  destruct (read_groups 8 0 8 s) as [[hd v4] t]. case_decide; [done|]. destruct v4; [done|].
  rewrite read_char_low by (by right). destruct (read_given_char 58 t) as [[[] t1]|]; [|done]. oc.
  rewrite read_char_low by (by right). destruct (read_given_char 58 t1) as [[[] t2]|]; [|done]. oc.
  rewrite read_groups_low. by destruct (read_groups _ 0 _ t2) as [[tl ?] t3].
Qed.

Lemma parse_ip_low s : parse_ip (low s) = parse_ip s.
Proof.
  unfold parse_ip, parse_with. rewrite read_ipv4_low.
  destruct (read_ipv4_addr s) as [[a [|c t]]|]; [done..|]. oc. rewrite read_ipv6_low.
  by destruct (read_ipv6_addr s) as [[a [|c t]]|].
Qed.

Definition ascii_unicode : Unicode.
Proof.
  refine {| to_lowercase := to_ascii_lowercase; to_uppercase := to_ascii_uppercase;
            is_alphanumeric := is_ascii_alphanumeric |}; try done.
  apply parse_ip_low.
Defined.

(** ** Parsed addresses fit their width *)
Lemma read_ipv4_u32 s a t : read_ipv4_addr s = Some (a, t) → u32 a.
Proof.
  unfold read_ipv4_addr. intros E.
  do 4 (match type of E with (read_separator ?c ?i ?r ?s ≫= _) = _ =>
      let Hx := fresh "Hx" in destruct (read_separator c i r s) as [[? ?]|] eqn:Hx; [|done];
      apply read_separator_some in Hx as [? Hx]; apply read_number_bound in Hx; [|lia];
      cbn [mbind option_bind] in E end).
  injection E as <- _. unfold u32. lia.
Qed.

Lemma read_groups_bound n i limit s gs v4 t :
  (i + n = limit)%nat → read_groups n i limit s = (gs, v4, t) →
  Forall u16 gs ∧ (length gs <= n)%nat.
Proof.
  revert i s gs v4 t. induction n as [|n IH]; intros i s gs v4 t Hn H; cbn [read_groups] in H.
  { injection H as <- _ _. split; [constructor|done]. }
  assert (∀ o : option (Z * list Z),
    o = read_separator 58 i (read_number 16 4 true 65535) s →
    match o with
    | Some (g, s) => let '(gs, v4, s) := read_groups n (S i) limit s in (g :: gs, v4, s)
    | None => ([], false, s)
    end = (gs, v4, t) → Forall u16 gs ∧ (length gs <= S n)%nat) as Hgroup.
  { intros o Ho. destruct o as [[g s']|]; [|intros [= <- _ _]; split; [constructor|simpl; lia]].
    symmetry in Ho. apply read_separator_some in Ho as [? Ho]. apply read_number_bound in Ho; [|lia].
    destruct (read_groups n (S i) limit s') as [[gs' v4'] t'] eqn:E. intros [= <- _ _].
    apply IH in E as [Hf Hl]; [|lia]. split; [|simpl; lia]. constructor; [unfold u16; lia|done]. }
  destruct (decide (i < limit - 1)%nat) as [Hi|Hi]; [|by eapply Hgroup in H].
  destruct (read_separator 58 i read_ipv4_addr s) as [[a s']|] eqn:E; [|by eapply Hgroup in H].
  injection H as <- _ _. apply read_separator_some in E as [? E]. apply read_ipv4_u32 in E.
  unfold u32 in E. split; [|simpl; lia]. repeat constructor; unfold u16; lia.
Qed.

Lemma of_groups_bound gs : Forall u16 gs → 0 <= of_groups gs < 65536 ^ len gs.
Proof.
  induction gs as [|g gs IH] using rev_ind; [done|]. intros [Hgs Hg]%Forall_app.
  apply Forall_cons in Hg as [Hg _]. specialize (IH Hgs). unfold u16 in Hg.
  rewrite of_groups_snoc, len_app. change (len [g]) with 1. pose proof (len_nonneg gs).
  rewrite Z.pow_add_r, Z.pow_1_r by lia. nia.
Qed.

Lemma of_eight_groups gs : Forall u16 gs → length gs = 8%nat → u128 (of_groups gs).
Proof.
  intros Hgs Hl. pose proof (of_groups_bound gs Hgs) as H. unfold len in H. rewrite Hl in H.
  change (65536 ^ Z.of_nat 8) with (2 ^ 128) in H. done.
Qed.

Lemma read_ipv6_u128 s a t : read_ipv6_addr s = Some (a, t) → u128 a.
Proof.
  unfold read_ipv6_addr. destruct (read_groups 8 0 8 s) as [[hd v4] r] eqn:Eh.
  apply read_groups_bound in Eh as [Hh Hlh]; [|done].
  destruct (decide (length hd = 8%nat)); [intros [= <- _]; by apply of_eight_groups|].
  destruct v4; [done|].
  destruct (read_given_char 58 r) as [[[] r1]|]; [|done]. cbn [mbind option_bind].
  destruct (read_given_char 58 r1) as [[[] r2]|]; [|done]. cbn [mbind option_bind].
  destruct (read_groups _ 0 _ r2) as [[tl w] r3] eqn:Et.
  apply read_groups_bound in Et as [Ht Hlt]; [|lia]. intros [= <- _]. apply of_eight_groups.
  - apply Forall_app. split; [done|]. apply Forall_app. split; [|done].
    apply Forall_replicate. unfold u16. lia.
  - rewrite !length_app, length_replicate. lia.
Qed.

Lemma parse_ip_wf s ip : parse_ip s = Some ip → ip_wf ip.
Proof.
  unfold parse_ip, parse_with. destruct (read_ipv4_addr s) as [[a t]|] eqn:E.
  - apply read_ipv4_u32 in E. destruct t; [|done]. by intros [= <-].
  - destruct (read_ipv6_addr s) as [[a t]|] eqn:E6; [|done]. apply read_ipv6_u128 in E6. simpl.
    destruct t; [|done]. by intros [= <-].
Qed.
