(* ===== verification/Sorting.v ===== *)
(** * Stable sorting, and sums

    [slice::sort_by] and [sort_by_key] are stable, so their result is determined
    by the order relation: insertion sort computes it.  The sums are over finite maps
    and lists: what the steps of a transition system conserve. *)
From S2P Require Import Prelude Bytes.
From Stdlib Require Export Sorted.

Section sort.
Context {A : Type} (le : A → A → bool).

Fixpoint insert_by (x : A) (l : list A) : list A :=
  match l with
  | [] => [x]
  | y :: l' => if le x y then x :: l else y :: insert_by x l'
  end.

Definition sort_by (l : list A) : list A := foldr insert_by [] l.

Lemma insert_by_perm x l : insert_by x l ≡ₚ x :: l.
Proof.
  induction l as [|y l IH]; simpl; [done|]. case_match; [done|].
  rewrite IH. constructor.
Qed.

Lemma sort_by_perm l : sort_by l ≡ₚ l.
Proof. induction l as [|x l IH]; simpl; [done|]. by rewrite insert_by_perm, IH. Qed.

Lemma Forall_insert_by P x l : P x → Forall P l → Forall P (insert_by x l).
Proof. intros Hx Hl. rewrite insert_by_perm. by constructor. Qed.

Lemma Forall_sort_by P l : Forall P l → Forall P (sort_by l).
Proof. intros Hl. by rewrite sort_by_perm. Qed.

Definition sorted (l : list A) : Prop := StronglySorted (λ x y, le x y = true) l.

Context (le_total : ∀ x y, le x y = true ∨ le y x = true).
Context (le_trans : ∀ x y z, le x y = true → le y z = true → le x z = true).

Lemma insert_by_sorted x l : sorted l → sorted (insert_by x l).
Proof.
  induction 1 as [|y l Hs IH Hy]; simpl; [repeat constructor|].
  destruct (le x y) eqn:E.
  - constructor; [by constructor|]. constructor; [done|].
    eapply Forall_impl; [exact Hy|]. intros z Hz. by apply (le_trans x y z).
  - constructor; [done|]. apply Forall_insert_by; [|done]. destruct (le_total x y); congruence.
Qed.

Lemma sort_by_sorted l : sorted (sort_by l).
Proof. induction l as [|x l IH]; simpl; [constructor|by apply insert_by_sorted]. Qed.
End sort.

Lemma find_none_Forall {A} (p : A → bool) l :
  List.find p l = None ↔ Forall (λ x, p x = false) l.
Proof.
  induction l as [|x l IH]; simpl; [by split|]. rewrite Forall_cons, <- IH.
  destruct (p x); naive_solver.
Qed.

Lemma find_app {A} (p : A → bool) l l' :
  List.find p (l ++ l') = match List.find p l with Some x => Some x | None => List.find p l' end.
Proof. induction l as [|x l IH]; simpl; [done|]. by destruct (p x). Qed.

(** Searching an insertion: the new element wins if it matches and is not above
    the first match. *)
Lemma find_insert_by {A} (le : A → A → bool) (p : A → bool) x l :
  (∀ x y z, le x y = true → le y z = true → le x z = true) →
  sorted le l →
  List.find p (insert_by le x l) =
    match List.find p l with
    | Some b => if p x && le x b then Some x else Some b
    | None => if p x then Some x else None
    end.
Proof.
  intros Htr. induction 1 as [|y l Hs IH Hy]; [done|]. cbn [insert_by].
  destruct (le x y) eqn:E; cbn [List.find].
  - destruct (p x) eqn:Hx, (p y) eqn:Hpy; cbn [andb]; rewrite ?E; try done.
    + destruct (List.find p l) as [b|] eqn:Hb; [|done].
      apply List.find_some in Hb as [Hin _]. rewrite Forall_forall in Hy.
      rewrite (Htr x y b); [done|done|]. apply Hy. by apply list_elem_of_In.
    + by destruct (List.find p l).
  - destruct (p y) eqn:Hpy; [|done]. by rewrite E, andb_false_r.
Qed.

Lemma strongly_sorted_app {A} (R : A → A → Prop) l l' :
  StronglySorted R (l ++ l') →
  StronglySorted R l ∧ StronglySorted R l' ∧ ∀ x y, x ∈ l → y ∈ l' → R x y.
Proof.
  induction l as [|x l IH]; simpl; intros H.
  - split; [constructor|]. split; [done|]. by intros ? ? ?%elem_of_nil.
  - inversion_clear H as [|? ? Hs Hx]. destruct (IH Hs) as (H1 & H2 & H3).
    apply Forall_app in Hx as [Hx Hx']. split; [by constructor|]. split; [done|].
    intros a b [->|Ha]%elem_of_cons Hb; [|by apply H3].
    rewrite Forall_forall in Hx'. by apply Hx'.
Qed.

(** * Sums over finite maps and lists *)
Section sums.
Context {A : Type} (f : A → Z).

Definition sum_by (m : gmap nat A) : Z := map_fold (λ _ x acc, f x + acc) 0 m.

Lemma sum_by_empty : sum_by ∅ = 0.
Proof. apply map_fold_empty. Qed.

Lemma sum_by_insert m i x : m !! i = None → sum_by (<[i:=x]> m) = f x + sum_by m.
Proof. intros Hi. unfold sum_by. rewrite map_fold_insert_L; [done| |done]. intros. lia. Qed.

Lemma sum_by_delete m i x : m !! i = Some x → sum_by (delete i m) = sum_by m - f x.
Proof. intros Hi. rewrite <- (insert_delete_id m i x Hi) at 2. rewrite sum_by_insert by apply lookup_delete_eq. lia. Qed.

Lemma sum_by_update m i x y : m !! i = Some x → sum_by (<[i:=y]> m) = sum_by m - f x + f y.
Proof.
  intros Hi. rewrite <- insert_delete_eq, sum_by_insert by apply lookup_delete_eq. rewrite (sum_by_delete m i x Hi). lia.
Qed.

Lemma sum_by_nonneg m : (∀ i x, m !! i = Some x → 0 <= f x) → 0 <= sum_by m.
Proof.
  induction m as [|i x m Hi IH] using map_ind; intros Hf; [by rewrite sum_by_empty|]. rewrite sum_by_insert by done.
  pose proof (Hf i x ltac:(by rewrite lookup_insert_eq)). assert (0 <= sum_by m); [|lia]. apply IH. intros j y Hj. apply (Hf j).
  rewrite lookup_insert_ne; [done|]. intros ->. congruence.
Qed.

Lemma sum_by_member m i x : (∀ i x, m !! i = Some x → 0 <= f x) → m !! i = Some x → f x <= sum_by m.
Proof.
  intros Hf Hi. pose proof (sum_by_delete m i x Hi). assert (0 <= sum_by (delete i m)); [|lia]. apply sum_by_nonneg.
  intros j y [_ Hj]%lookup_delete_Some. by apply (Hf j).
Qed.

(** The sum over the keys of a list. *)
Definition sum_of (m : gmap nat A) (l : list nat) : Z := foldr (λ i acc, default 0 (f <$> m !! i) + acc) 0 l.

Lemma sum_by_registered m l :
  NoDup l → (∀ i, i ∈ l → is_Some (m !! i)) → (∀ i x, m !! i = Some x → i ∉ l → f x = 0) → sum_by m = sum_of m l.
Proof.
  revert m. induction l as [|i l IH]; intros m Hnd Hin Hout; cbn [sum_of foldr].
  - induction m as [|i x m Hi IHm] using map_ind; [by rewrite sum_by_empty|]. rewrite sum_by_insert by done.
    rewrite (Hout i x) by (by rewrite ?lookup_insert_eq || set_solver). rewrite IHm; [done|set_solver|].
    intros j y Hj Hl. apply (Hout j); [|done]. rewrite lookup_insert_ne; [done|]. intros ->. congruence.
  - apply NoDup_cons in Hnd as [Hil Hnd]. destruct (Hin i ltac:(set_solver)) as [x Hx]. rewrite Hx. cbn.
    pose proof (sum_by_delete m i x Hx) as Hd. rewrite (IH (delete i m)) in Hd; [|done| |].
    + assert (sum_of (delete i m) l = sum_of m l) as E; [|unfold sum_of in *; lia]. clear -Hil. unfold sum_of.
      induction l as [|j l IHl]; [done|]. cbn [foldr]. apply not_elem_of_cons in Hil as [Hne Hil].
      rewrite IHl by done. by rewrite lookup_delete_ne.
    + intros j Hj. rewrite lookup_delete_ne; [apply Hin; set_solver|]. intros ->. done.
    + intros j y [Hne Hj]%lookup_delete_Some Hl. apply (Hout j); [done|]. set_solver.
Qed.
End sums.

(** ** Sums over lists *)
Section lists.
Context {A : Type} (f : A → Z).

Definition wsum (l : list A) : Z := foldr (λ x acc, f x + acc) 0 l.

Lemma wsum_cons x l : wsum (x :: l) = f x + wsum l.
Proof. done. Qed.

Lemma wsum_app l l' : wsum (l ++ l') = wsum l + wsum l'.
Proof. induction l as [|x l IH]; cbn -[Z.add]; [done|]. fold (wsum (l ++ l')) (wsum l). lia. Qed.

Lemma wsum_nonneg l : (∀ x, 0 <= f x) → 0 <= wsum l.
Proof. intros Hf. induction l as [|x l IH]; [done|]. rewrite wsum_cons. specialize (Hf x). lia. Qed.

Lemma wsum_sublist l l' : (∀ x, 0 <= f x) → l `sublist_of` l' → wsum l <= wsum l'.
Proof. intros Hf. induction 1 as [|x l l' _ IH|x l l' _ IH]; rewrite ?wsum_cons; [done|lia|]. specialize (Hf x). lia. Qed.

Lemma wsum_lookup l i x : l !! i = Some x → wsum l = f x + wsum (delete i l).
Proof.
  revert i. induction l as [|y l IH]; intros [|i] Hi; cbn in Hi; [done..| |].
  - by injection Hi as ->.
  - change (delete (S i) (y :: l)) with (y :: delete i l). rewrite !wsum_cons. specialize (IH i Hi). lia.
Qed.

Lemma wsum_insert l i x y : l !! i = Some x → wsum (<[i := y]> l) = wsum l - f x + f y.
Proof.
  revert i. induction l as [|z l IH]; intros [|i] Hi; cbn in Hi; [done..| |].
  - injection Hi as ->. cbn [insert list_insert]. rewrite !wsum_cons. lia.
  - change (<[S i := y]> (z :: l)) with (z :: <[i := y]> l). rewrite !wsum_cons. specialize (IH i Hi). lia.
Qed.
End lists.

Lemma wsum_one {A} (l : list A) : wsum (λ _, 1) l = len l.
Proof. induction l as [|x l IH]; [done|]. rewrite wsum_cons, len_cons. lia. Qed.

#[export] Hint Rewrite @wsum_cons @wsum_app : wsum.
