(* ===== verification/Lru.v ===== *)
(** * The bounded cache interface

    The project keeps several maps in the [lru] crate's [LruCache].  The crate
    is not part of the sources: [Lru] states the behaviour its documentation
    promises and the code relies on, and clients are proved against the class.
    [list_lru], a recency list, shows the laws can hold and lets examples run. *)
From S2P Require Import Prelude.

Class Lru (K V C : Type) := {
  lru_new : nat → C;
  lru_put : K → V → C → C;
  lru_get : K → C → option V * C;
  lru_peek : K → C → option V;
  lru_len : C → nat;
  lru_cap : C → nat;
  lru_cap_new n : lru_cap (lru_new n) = n;
  lru_cap_put k v c : lru_cap (lru_put k v c) = lru_cap c;
  lru_cap_get k c : lru_cap (lru_get k c).2 = lru_cap c;
  lru_peek_new n k : lru_peek k (lru_new n) = None;
  lru_peek_put k v c : (0 < lru_cap c)%nat → lru_peek k (lru_put k v c) = Some v;
  lru_peek_put_ne k k' v v' c :
    k ≠ k' → lru_peek k' (lru_put k v c) = Some v' → lru_peek k' c = Some v';
  lru_get_peek k c : (lru_get k c).1 = lru_peek k c;
  lru_peek_get k k' c : lru_peek k' (lru_get k c).2 = lru_peek k' c;
  lru_len_new n : lru_len (lru_new n) = 0%nat;
  lru_len_put k v c : (lru_len c <= lru_cap c → lru_len (lru_put k v c) <= lru_cap c)%nat;
  lru_len_get k c : lru_len (lru_get k c).2 = lru_len c;
}.

(** ** A recency list *)
Section list_lru.
Context {K V : Type} `{EqDecision K}.

Record cache := Cache { cache_cap : nat; entries : list (K * V) }.

Fixpoint assoc (k : K) (l : list (K * V)) : option V :=
  match l with
  | [] => None
  | (k', v) :: l => if decide (k = k') then Some v else assoc k l
  end.

Fixpoint without (k : K) (l : list (K * V)) : list (K * V) :=
  match l with
  | [] => []
  | (k', v) :: l => if decide (k = k') then l else (k', v) :: without k l
  end.

Definition cache_put (k : K) (v : V) (c : cache) : cache :=
  Cache (cache_cap c) (take (cache_cap c) ((k, v) :: without k (entries c))).

Definition cache_get (k : K) (c : cache) : option V * cache :=
  match assoc k (entries c) with
  | Some v => (Some v, Cache (cache_cap c) ((k, v) :: without k (entries c)))
  | None => (None, c)
  end.

Lemma assoc_take n k l v : assoc k (take n l) = Some v → assoc k l = Some v.
Proof.
  revert n. induction l as [|[k' v'] l IH]; intros [|n]; simpl; try done.
  case_decide; [done|]. apply IH.
Qed.

Lemma assoc_without_ne k k' l : k ≠ k' → assoc k' (without k l) = assoc k' l.
Proof.
  intros Hne. induction l as [|[j w] l IH]; simpl; [done|].
  case_decide; subst; simpl; case_decide; congruence.
Qed.

Lemma length_without k l v : assoc k l = Some v → S (length (without k l)) = length l.
Proof.
  induction l as [|[j w] l IH]; simpl; [done|]. case_decide; simpl; [done|].
  intros Hl. by rewrite IH.
Qed.

#[export] Program Instance list_lru : Lru K V cache := {|
  lru_new n := Cache n [];
  lru_put := cache_put;
  lru_get := cache_get;
  lru_peek k c := assoc k (entries c);
  lru_len c := length (entries c);
  lru_cap := cache_cap;
|}.
Solve All Obligations with try done.
Next Obligation. intros k c. unfold cache_get. by case_match. Qed.
Next Obligation.
  intros k v c Hc. unfold cache_put. destruct (cache_cap c); [lia|]. simpl. by case_decide.
Qed.
Next Obligation.
  intros k k' v v' c Hne H. unfold cache_put in H. cbn [entries] in H. apply assoc_take in H.
  simpl in H. case_decide; [congruence|]. by rewrite assoc_without_ne in H.
Qed.
Next Obligation. intros k c. unfold cache_get. by case_match. Qed.
Next Obligation.
  intros k k' c. unfold cache_get. destruct (assoc k (entries c)) eqn:E; [|done]. simpl.
  case_decide; subst; [done|]. by apply assoc_without_ne.
Qed.
Next Obligation. intros k v c _. unfold cache_put. cbn [entries]. rewrite length_take. lia. Qed.
Next Obligation.
  intros k c. unfold cache_get. destruct (assoc k (entries c)) eqn:E; [|done]. simpl.
  by eapply length_without.
Qed.
End list_lru.
Arguments cache : clear implicits.
Arguments Cache {K V}.

(** ** Removal, and the entries as a list

    [WireCache] counts the bytes it holds, so it also needs the operations that
    remove entries; the laws speak of the entries, most recent first. *)
Class LruView (K V C : Type) `{Lru K V C} := {
  lru_entries : C → list (K * V);
  lru_pop : K → C → option V * C;
  lru_pop_lru : C → option (K * V) * C;
  lru_len_entries c : lru_len c = length (lru_entries c);
  lru_entries_new n : lru_entries (lru_new n) = [];
  lru_peek_entries k v c : lru_peek k c = Some v → (k, v) ∈ lru_entries c;
  lru_peek_none k v c : (k, v) ∈ lru_entries c → lru_peek k c ≠ None;
  lru_entries_get k c : lru_entries (lru_get k c).2 ≡ₚ lru_entries c;
  lru_entries_put k v c :
    lru_peek k c = None → (lru_len c < lru_cap c)%nat → lru_entries (lru_put k v c) ≡ₚ (k, v) :: lru_entries c;
  lru_entries_put_sub k v c x : x ∈ lru_entries (lru_put k v c) → x = (k, v) ∨ x ∈ lru_entries c;
  lru_put_nodup k v c : NoDup (lru_entries c).*1 → NoDup (lru_entries (lru_put k v c)).*1;
  lru_pop_peek k c : (lru_pop k c).1 = lru_peek k c;
  lru_entries_pop k v c : lru_peek k c = Some v → lru_entries c ≡ₚ (k, v) :: lru_entries (lru_pop k c).2;
  lru_pop_none k c : lru_peek k c = None → (lru_pop k c).2 = c;
  lru_pop_lru_spec c :
    match lru_pop_lru c with
    | (Some kv, c') => lru_entries c = lru_entries c' ++ [kv]
    | (None, c') => lru_entries c = [] ∧ c' = c
    end;
  lru_cap_pop k c : lru_cap (lru_pop k c).2 = lru_cap c;
  lru_cap_pop_lru c : lru_cap (lru_pop_lru c).2 = lru_cap c;
}.

Section list_view.
Context {K V : Type} `{EqDecision K}.

Definition cache_pop (k : K) (c : cache K V) : option V * cache K V :=
  (assoc k (entries c), Cache (cache_cap c) (without k (entries c))).

Definition cache_pop_lru (c : cache K V) : option (K * V) * cache K V :=
  match last (entries c) with
  | Some kv => (Some kv, Cache (cache_cap c) (removelast (entries c)))
  | None => (None, c)
  end.

Lemma assoc_in (k : K) (v : V) l : assoc k l = Some v → (k, v) ∈ l.
Proof.
  induction l as [|[j w] l IH]; simpl; [done|]. case_decide; [intros [= <-]; subst; by left|].
  intros ?. right. by apply IH.
Qed.

Lemma without_perm (k : K) (v : V) l : assoc k l = Some v → l ≡ₚ (k, v) :: without k l.
Proof.
  induction l as [|[j w] l IH]; simpl; [done|]. case_decide; [by intros [= <-]; subst|].
  intros E. rewrite (IH E) at 1. constructor.
Qed.

Lemma without_none (k : K) (l : list (K * V)) : assoc k l = None → without k l = l.
Proof. induction l as [|[j w] l IH]; simpl; [done|]. case_decide; [done|]. intros ?. by rewrite IH. Qed.

Lemma assoc_none (e : K * V) l : assoc e.1 l = None → e ∉ l.
Proof.
  induction l as [|[j w] l IH]; simpl; [by intros _ ?%not_elem_of_nil|]. case_decide; [done|].
  intros E [->|He]%elem_of_cons; [done|by apply IH].
Qed.

Lemma without_sub (k : K) (l : list (K * V)) x : x ∈ without k l → x ∈ l.
Proof.
  induction l as [|[j w] l IH]; simpl; [done|]. case_decide; [by right|].
  intros [->|?]%elem_of_cons; [by left|right; by apply IH].
Qed.

#[export] Program Instance list_lru_view : LruView K V (cache K V) := {|
  lru_entries := entries;
  lru_pop := cache_pop;
  lru_pop_lru := cache_pop_lru;
|}.
Solve All Obligations with try done.
Next Obligation. intros k v c. apply assoc_in. Qed.
Next Obligation. intros k v c He Hn. by apply (assoc_none (k, v)) in Hn. Qed.
Next Obligation.
  intros k c. simpl. unfold cache_get. destruct (assoc k (entries c)) eqn:E; [|done]. simpl.
  symmetry. by apply without_perm.
Qed.
Next Obligation.
  intros k v c Hn Hlt. simpl in *. unfold cache_put. simpl. rewrite without_none by done.
  by rewrite take_ge by (simpl; lia).
Qed.
Next Obligation.
  intros k v c x Hx. simpl in *. unfold cache_put in Hx. simpl in Hx. apply elem_of_take in Hx as (i & Hi & _).
  apply list_elem_of_lookup_2, elem_of_cons in Hi as [|Hi]; [by left|right]. by eapply without_sub.
Qed.
Next Obligation.
  intros k v c Hnd. simpl in *. unfold cache_put. simpl. rewrite fmap_take.
  apply (sublist_NoDup _ ((k, v) :: without k (entries c)).*1); [|apply sublist_take].
  destruct (assoc k (entries c)) as [w|] eqn:E.
  - by rewrite (without_perm _ _ _ E) in Hnd.
  - rewrite without_none by done. simpl. constructor; [|done].
    intros (e & -> & He)%list_elem_of_fmap. by apply assoc_none in E.
Qed.
Next Obligation. intros k v c. apply without_perm. Qed.
Next Obligation. intros k [n l] Hn. unfold cache_pop. simpl in *. by rewrite without_none. Qed.
Next Obligation.
  intros [n l]. unfold cache_pop_lru. simpl. destruct l as [|x l _] using rev_ind; [done|].
  rewrite last_snoc. simpl. by rewrite removelast_last.
Qed.
Next Obligation. intros [n l]. unfold cache_pop_lru. simpl. by destruct (last l). Qed.
End list_view.
