(* ===== verification/DnsWire.v ===== *)
(** * DNS wire codec ([crates/sockrocket-core/src/dns/wire.rs]) *)
From Stdlib Require Import String.
From S2P Require Import Prelude Bytes Text Net.

#[local] Open Scope string_scope.
#[local] Open Scope list_scope.
#[local] Open Scope Z_scope.

Definition dot : Z := 46.
Definition nonempty (s : bytes) : bool := negb (len s =? 0).

(** The query id, [rand::random()] in the code, is an argument. *)
Definition build_dns_query (id : Z) (domain : bytes) (qtype : Z) : bytes :=
  be16 id ++ [1; 0] ++ [0; 1] ++ [0; 0] ++ [0; 0] ++ [0; 0]
  ++ flat_map (λ label, as_u8 (len label) :: label)
       (List.filter nonempty (split_on dot (trim_end_byte dot domain)))
  ++ [0] ++ be16 qtype ++ [0; 1].

(** One turn of the loop of [skip_dns_name] per unit of fuel. *)
Fixpoint skip_dns_labels (fuel : nat) (data : bytes) (start pos : Z) : outcome Z :=
  match fuel with
  | O => Diverge
  | S fuel =>
    l ← ok_or (byte_at data pos) "Truncated DNS name";
    if l =? 0 then Ok (pos + 1)
    else if Z.land l 192 =? 192 then
      low ← ok_or (byte_at data (pos + 1)) "Truncated DNS pointer";
      let target := Z.lor (Z.shiftl (Z.land l 63) 8) low in
      if pos <=? target then Err "Invalid DNS compression pointer" else Ok (pos + 2)
    else if (63 <? l) || (len data <? pos + 1 + l) || (254 <? pos + 1 + l - start)
    then Err "Invalid DNS name length"
    else skip_dns_labels fuel data start (pos + 1 + l)
  end.

Definition skip_dns_name (data : bytes) (pos : Z) : outcome Z :=
  skip_dns_labels (S (length data)) data pos pos.

Fixpoint skip_questions (n : nat) (data : bytes) (pos : Z) : outcome Z :=
  match n with
  | O => Ok pos
  | S n =>
    pos ← skip_dns_name data pos;
    if len data <? pos + 4 then Err "Truncated DNS question"
    else skip_questions n data (pos + 4)
  end.

Fixpoint parse_answers (n : nat) (data : bytes) (pos : Z) (addrs : list IpAddr)
    : outcome (list IpAddr) :=
  match n with
  | O => Ok addrs
  | S n =>
    if len data <=? pos then Err "Missing DNS answer" else
    pos ← skip_dns_name data pos;
    if len data <? pos + 10 then Err "Truncated DNS answer header" else
    rtype ← idx_u16 data pos;
    rdlength ← idx_u16 data (pos + 8);
    let pos := pos + 10 in
    if len data <? pos + rdlength then Err "Truncated DNS record" else
    addrs ←
      (if (rtype =? 1) && (rdlength =? 4) then
         rdata ← sub data pos (pos + 4); Ok (addrs ++ [V4 (of_be rdata)])
       else if (rtype =? 28) && (rdlength =? 16) then
         rdata ← sub data pos (pos + 16); Ok (addrs ++ [V6 (of_be rdata)])
       else Ok addrs);
    parse_answers n data (pos + rdlength) addrs
  end.

Definition parse_dns_response (data : bytes) : outcome (list IpAddr) :=
  if len data <? 12 then Err "DNS response too short" else
  flags ← idx data 2;
  if (Z.land flags 128 =? 0) || negb (Z.land flags 2 =? 0)
  then Err "Not a complete DNS response" else
  ancount ← idx_u16 data 6;
  b3 ← idx data 3;
  let rcode := Z.land b3 15 in
  if negb (rcode =? 0) then Err ("DNS response error: rcode=") else
  qdcount ← idx_u16 data 4;
  pos ← skip_questions (Z.to_nat qdcount) data 12;
  parse_answers (Z.to_nat ancount) data pos [].

(** ** Queries *)
Record Question := { q_domain : bytes; q_qtype : Z; q_end : Z }.

Fixpoint question_labels (fuel : nat) (data : bytes) (pos : Z) (labels : list bytes)
    : outcome (list bytes * Z) :=
  match fuel with
  | O => Diverge
  | S fuel =>
    l ← ok_or (byte_at data pos) "Missing DNS name";
    let pos := pos + 1 in
    if l =? 0 then Ok (labels, pos)
    else if (63 <? l) || (len data <? pos + l) || (254 <? pos + l - 12)
    then Err "Invalid DNS label or name length"
    else
      raw ← sub data pos (pos + l);
      label ← from_utf8 raw;
      question_labels fuel data (pos + l) (labels ++ [label])
  end.

Definition question (data : bytes) : outcome Question :=
  header ← (if len data <? 12 then Ok false else
            f ← idx data 2; c ← sub data 4 6;
            Ok ((Z.land f 248 =? 0) && bool_decide (c = [0; 1])));
  if negb header then Err "Expected a standard DNS query with one question" else
  '(labels, pos) ← question_labels (S (length data)) data 12 [];
  if len data <? pos + 4 then Err "Missing question fields or unsupported DNS class" else
  cls ← sub data (pos + 2) (pos + 4);
  if negb (bool_decide (cls = [0; 1]))
  then Err "Missing question fields or unsupported DNS class" else
  qtype ← idx_u16 data pos;
  Ok {| q_domain := join [dot] labels; q_qtype := qtype; q_end := pos + 4 |}.

Definition parse_dns_query (data : bytes) : outcome (bytes * Z) :=
  q ← question data; Ok (q_domain q, q_qtype q).

(** ** Responses *)
Definition answer_record (ttl : Z) (addr : IpAddr) : bytes :=
  [192; 12] ++
  match addr with
  | V4 _ => [0; 1] ++ [0; 1] ++ be32 ttl ++ [0; 4] ++ octets addr
  | V6 _ => [0; 28] ++ [0; 1] ++ be32 ttl ++ [0; 16] ++ octets addr
  end.

Definition build_dns_response_with_ttl (query : bytes) (addresses : list IpAddr) (ttl : Z)
    : outcome bytes :=
  q ← question query;
  if 65535 <? len addresses then Err "Too many DNS answer records" else
  id ← sub query 0 2;
  f ← idx query 2;
  section ← sub query 12 (q_end q);
  Ok (id ++ [Z.lor 128 (Z.land f 1); 128] ++ [0; 1] ++ be16 (as_u16 (len addresses))
      ++ [0; 0; 0; 0] ++ section ++ flat_map (answer_record ttl) addresses).

Definition build_dns_response (query : bytes) (addresses : list IpAddr) : outcome bytes :=
  build_dns_response_with_ttl query addresses 300.

Definition build_dns_error_response (query : bytes) (rcode : Z) : outcome bytes :=
  if len query <? 12 then Ok [] else
  let fin := match question query with Ok q => Some (q_end q) | _ => None end in
  resp ← sub query 0 (default 12 fin);
  f ← idx query 2;
  resp ← set_at resp 2 (Z.lor 128 (Z.land f 1));
  resp ← set_at resp 3 (Z.lor 128 (Z.land rcode 15));
  tail ← sub resp 12 (len resp);
  head ← sub resp 0 4;
  let resp := head ++ replicate 8 0 ++ tail in
  match fin with Some _ => set_at resp 5 1 | None => Ok resp end.

(** ** Validation of upstream replies *)
Definition ensure_bounds (message : bytes) (fin : Z) : outcome unit :=
  ensure (fin <=? len message) "Truncated DNS record".

Definition sum_counts (message : bytes) : outcome Z :=
  a ← idx_u16 message 6; b ← idx_u16 message 8; c ← idx_u16 message 10; Ok (a + b + c).

Fixpoint walk_records (n : nat) (message : bytes) (pos : Z) : outcome Z :=
  match n with
  | O => Ok pos
  | S n =>
    pos ← skip_dns_name message pos;
    _ ← ensure_bounds message (pos + 10);
    l ← idx_u16 message (pos + 8);
    let pos := pos + (10 + l) in
    _ ← ensure_bounds message pos;
    walk_records n message pos
  end.

Definition validate_records (message : bytes) : outcome unit :=
  p ← skip_dns_name message 12;
  let pos := p + 4 in
  _ ← ensure_bounds message pos;
  records ← sum_counts message;
  pos ← walk_records (Z.to_nat records) message pos;
  ensure (pos =? len message) "Trailing bytes in DNS response".

Definition validate_response (query response : bytes) : outcome unit :=
  ok ← (if (len response <? 12) || (len query <? 12) then Ok false else
        a ← sub response 0 2; b ← sub query 0 2; f ← idx response 2;
        Ok (bool_decide (a = b) && negb (Z.land f 128 =? 0) && (Z.land f 2 =? 0)));
  if negb ok then Err "DNS response identity mismatch or truncated response" else
  _ ← validate_records response;
  expected ← question query;
  f ← idx response 2;
  question_packet ← set_at response 2 (Z.land f 7);
  actual ← question question_packet;
  if negb (eq_ignore_ascii_case (q_domain expected) (q_domain actual))
     || negb (q_qtype expected =? q_qtype actual)
  then Err "DNS response question mismatch"
  else Ok tt.

Fixpoint cap_ttl_loop (n : nat) (message : bytes) (max pos : Z) : outcome bytes :=
  match n with
  | O => Ok message
  | S n =>
    pos ← skip_dns_name message pos;
    kind ← idx_u16 message pos;
    l ← idx_u16 message (pos + 8);
    message ←
      (if negb (kind =? 41) then
         old ← sub message (pos + 4) (pos + 8);
         let ttl := of_be old in
         before ← sub message 0 (pos + 4);
         after ← sub message (pos + 8) (len message);
         Ok (before ++ be32 (Z.min ttl max) ++ after)
       else Ok message);
    cap_ttl_loop n message max (pos + (10 + l))
  end.

Definition cap_ttl (message : bytes) (max : Z) : outcome bytes :=
  _ ← validate_records message;
  p ← skip_dns_name message 12;
  count ← sum_counts message;
  cap_ttl_loop (Z.to_nat count) message max (p + 4).

(** The EDNS scan of [udp_response]: a [break] keeps the limit found so far. *)
Fixpoint edns_limit (n : nat) (query : bytes) (pos limit : Z) : outcome Z :=
  match n with
  | O => Ok limit
  | S n =>
    match skip_dns_name query pos with
    | Ok pos =>
      if len query <? pos + 10 then Ok limit else
      kind ← idx_u16 query pos;
      class ← idx_u16 query (pos + 2);
      l ← idx_u16 query (pos + 8);
      if len query <? pos + 10 + l then Ok limit else
      edns_limit n query (pos + (10 + l))
        (if kind =? 41 then Z.min (Z.max class 512) 4096 else limit)
    | Err _ => Ok limit
    | Panic => Panic
    | Diverge => Diverge
    end
  end.

Definition udp_limit (query : bytes) : outcome Z :=
  match question query with
  | Ok q => count ← idx_u16 query 10; edns_limit (Z.to_nat count) query (q_end q) 512
  | Err _ => Ok 512
  | Panic => Panic
  | Diverge => Diverge
  end.

Definition udp_response (query reply : bytes) : outcome bytes :=
  limit ← udp_limit query;
  if len reply <=? limit then Ok reply else
  truncated ← build_dns_error_response query (Z.land (default 2 (byte_at reply 3)) 15);
  if 12 <=? len truncated then
    f ← idx truncated 2; set_at truncated 2 (Z.lor f 2)
  else Ok truncated.

Fixpoint min_ttl_loop (n : nat) (message : bytes) (pos : Z) (ttl : option Z) : outcome Z :=
  match n with
  | O => Ok (default 0 ttl)
  | S n =>
    pos ← skip_dns_name message pos;
    old ← sub message (pos + 4) (pos + 8);
    let value := of_be old in
    l ← idx_u16 message (pos + 8);
    min_ttl_loop n message (pos + (10 + l))
      (Some (match ttl with Some old => Z.min old value | None => value end))
  end.

Definition answer_ttl (message : bytes) : outcome Z :=
  _ ← validate_records message;
  p ← skip_dns_name message 12;
  count ← idx_u16 message 6;
  min_ttl_loop (Z.to_nat count) message (p + 4) None.

(** ** Names: termination, bounds and locality *)
Lemma skip_labels_total fuel data start pos :
  is_bytes data → 0 <= pos → Z.max 0 (len data - pos) < Z.of_nat fuel →
  returns (skip_dns_labels fuel data start pos).
Proof.
  intros Hb. revert pos. induction fuel as [|fuel IH]; intros pos Hpos Hf; [lia|].
  simpl. destruct (byte_at data pos) as [l|] eqn:Hl; simpl; [|done].
  pose proof (is_bytes_at _ _ _ Hb Hl) as Hu. pose proof (byte_at_bound _ _ _ Hl). unfold u8 in Hu.
  destruct (Z.eqb_spec l 0); [done|].
  destruct (Z.land l 192 =? 192).
  { destruct (byte_at data (pos + 1)); simpl; [|done]. by case_match. }
  destruct ((63 <? l) || _ || _) eqn:Hbad; [done|].
  apply orb_false_iff in Hbad as [[_ ?%Z.ltb_ge]%orb_false_iff _].
  apply IH; lia.
Qed.

Lemma skip_labels_bounds fuel data start pos fin :
  is_bytes data → skip_dns_labels fuel data start pos = Ok fin →
  0 <= pos ∧ pos < fin <= len data.
Proof.
  intros Hb. revert pos. induction fuel as [|fuel IH]; intros pos; [done|].
  simpl. intros H. inv_ok. rename x into l, Hx into Hl.
  pose proof (is_bytes_at _ _ _ Hb Hl) as Hu. pose proof (byte_at_bound _ _ _ Hl). unfold u8 in Hu.
  destruct (Z.eqb_spec l 0); [inv_ok; lia|].
  destruct (Z.land l 192 =? 192).
  { inv_ok. apply byte_at_bound in Hx. case_match; inv_ok. lia. }
  destruct ((63 <? l) || _ || _); [done|]. apply IH in H. lia.
Qed.

Lemma skip_name_total data pos : is_bytes data → 0 <= pos → returns (skip_dns_name data pos).
Proof. intros. apply skip_labels_total; [done..|]. unfold len. lia. Qed.

Lemma skip_name_bounds data pos fin :
  is_bytes data → skip_dns_name data pos = Ok fin → 0 <= pos ∧ pos < fin <= len data.
Proof. apply skip_labels_bounds. Qed.

(** Two buffers with the same bytes in [a, b). *)
Definition agree (data data' : bytes) (a b : Z) : Prop :=
  b <= len data' ∧ ∀ i, a <= i < b → byte_at data' i = byte_at data i.

Lemma agree_mono data data' a b a' b' :
  agree data data' a b → a <= a' → b' <= b → agree data data' a' b'.
Proof. intros [? H] ? ?. split; [lia|]. intros. apply H. lia. Qed.

Lemma skip_labels_agree fuel fuel' data data' start pos fin :
  is_bytes data → skip_dns_labels fuel data start pos = Ok fin →
  agree data data' pos fin → fin - pos <= Z.of_nat fuel' →
  skip_dns_labels fuel' data' start pos = Ok fin.
Proof.
  intros Hb. revert pos fuel'. induction fuel as [|fuel IH]; intros pos fuel' H Hag Hf; [done|].
  pose proof (skip_labels_bounds _ _ _ _ _ Hb H) as Hbd.
  destruct fuel' as [|fuel']; [lia|]. simpl in *.
  destruct Hag as [Hlen Hag]. rewrite (Hag pos) by lia. inv_ok. rewrite Hx. simpl.
  pose proof (is_bytes_at _ _ _ Hb Hx) as Hu. unfold u8 in Hu.
  destruct (Z.eqb_spec x 0); [done|].
  destruct (Z.land x 192 =? 192).
  { inv_ok. destruct (Z.leb_spec pos (Z.lor (Z.shiftl (Z.land x 63) 8) x0)) in H; [done|]. inv_ok.
    rewrite (Hag (pos + 1)) by lia. rewrite Hx0. simpl.
    by rewrite (proj2 (Z.leb_gt _ _)) by lia. }
  destruct ((63 <? x) || _ || _) eqn:Hbad in H; [done|].
  apply orb_false_iff in Hbad as [[H63 _]%orb_false_iff H254].
  pose proof (skip_labels_bounds _ _ _ _ _ Hb H).
  rewrite H63, H254. destruct (Z.ltb_spec (len data') (pos + 1 + x)); [lia|]. simpl.
  apply IH; [done| |lia]. split; [done|]. intros. apply Hag. lia.
Qed.

Lemma skip_name_agree data data' pos fin :
  is_bytes data → skip_dns_name data pos = Ok fin → agree data data' pos fin →
  skip_dns_name data' pos = Ok fin.
Proof.
  intros Hb H Hag. pose proof (skip_name_bounds _ _ _ Hb H).
  eapply skip_labels_agree; [done..|]. destruct Hag as [? _]. unfold len in *. lia.
Qed.

(** ** Questions *)
Lemma land_192_small l : 0 <= l <= 63 → Z.land l 192 = 0.
Proof.
  intros. replace 192 with (Z.shiftl 3 6) by done.
  apply Z.bits_inj_0. intros n. rewrite Z.land_spec.
  destruct (Z.ltb_spec n 6) as [|Hn].
  - rewrite Z.shiftl_spec_low by done. apply andb_false_r.
  - rewrite (Z.bits_above_log2 l n), andb_false_l; [done|lia|].
    destruct (decide (l = 0)) as [->|]; [simpl; lia|].
    apply Z.log2_lt_pow2; [lia|]. apply (Z.lt_le_trans _ (2 ^ 6)); [lia|].
    apply Z.pow_le_mono_r; lia.
Qed.

Lemma returns_from_utf8 bs : returns (from_utf8 bs).
Proof. unfold from_utf8. by case_match. Qed.
#[export] Hint Resolve returns_from_utf8 : outcome.

Lemma from_utf8_ok bs r : from_utf8 bs = Ok r ↔ utf8_valid bs = true ∧ r = bs.
Proof. unfold from_utf8. case_match; naive_solver. Qed.

Lemma question_labels_total fuel data pos labels :
  is_bytes data → 0 <= pos → Z.max 0 (len data - pos) < Z.of_nat fuel →
  returns (question_labels fuel data pos labels).
Proof.
  intros Hb. revert pos labels. induction fuel as [|fuel IH]; intros pos labels Hpos Hf; [lia|].
  simpl. destruct (byte_at data pos) as [l|] eqn:Hl; simpl; [|done].
  pose proof (is_bytes_at _ _ _ Hb Hl) as Hu. pose proof (byte_at_bound _ _ _ Hl). unfold u8 in Hu.
  destruct (Z.eqb_spec l 0); [done|].
  destruct ((63 <? l) || _ || _) eqn:Hbad; [done|].
  apply orb_false_iff in Hbad as [[_ ?%Z.ltb_ge]%orb_false_iff _].
  rewrite sub_in by lia. simpl. apply returns_bind; [auto with outcome|].
  intros. apply IH; lia.
Qed.

(** The labels of a question are a name that [skip_dns_name] accepts. *)
Lemma question_labels_skip fuel data pos acc labels fin :
  is_bytes data → question_labels fuel data pos acc = Ok (labels, fin) →
  skip_dns_labels fuel data 12 pos = Ok fin.
Proof.
  intros Hb. revert pos acc. induction fuel as [|fuel IH]; intros pos acc H; [done|].
  simpl in *. inv_ok. rewrite Hx. simpl.
  pose proof (is_bytes_at _ _ _ Hb Hx) as Hu. unfold u8 in Hu.
  destruct (Z.eqb_spec x 0); [inv_ok; congruence|].
  destruct (_ || _) eqn:Hbad in H; [done|]. rewrite Hbad.
  apply orb_false_iff in Hbad as [[?%Z.ltb_ge _]%orb_false_iff _].
  rewrite land_192_small by lia. simpl. inv_ok. eauto.
Qed.

Lemma question_total data : is_bytes data → returns (question data).
Proof.
  intros Hb. unfold question. destruct (Z.ltb_spec (len data) 12); obind; [done|].
  destruct (idx_in data 2) as [f ->]; [lia|]. obind. rewrite sub_in by lia. obind.
  case_match; [done|]. apply returns_bind.
  { apply question_labels_total; [done|lia|]. unfold len. lia. }
  intros [labels pos] Hl. apply question_labels_skip, skip_labels_bounds in Hl; [|done..].
  destruct (Z.ltb_spec (len data) (pos + 4)); [done|].
  rewrite sub_in by lia. obind. case_match; [done|].
  destruct (idx_u16_in data pos) as [v ->]; [lia..|]. done.
Qed.

(** What an accepted question guarantees about the packet. *)
Lemma question_ok data q :
  is_bytes data → question data = Ok q →
  12 <= len data ∧ 17 <= q_end q <= len data
  ∧ skip_dns_name data 12 = Ok (q_end q - 4).
Proof.
  intros Hb H. unfold question in H.
  apply bind_ok in H as (hdr & Hh & H). destruct hdr; [|done].
  destruct (Z.ltb_spec (len data) 12); [done|]. clear Hh. cbn [negb] in H.
  apply bind_ok in H as ([labels pos] & Hl & H).
  destruct (Z.ltb_spec (len data) (pos + 4)); [done|].
  apply bind_ok in H as (cls & _ & H). destruct (negb _) in H; [done|].
  apply bind_ok in H as (qtype & _ & H). injection H as <-. cbn [q_end].
  pose proof (question_labels_skip _ _ _ _ _ _ Hb Hl) as Hs.
  pose proof (skip_labels_bounds _ _ _ _ _ Hb Hs).
  split; [done|]. split; [lia|]. by replace (pos + 4 - 4) with pos by lia.
Qed.

(** ** Responses: shape and reads *)
Lemma land_1_cases f : Z.land f 1 = 0 ∨ Z.land f 1 = 1.
Proof. pose proof (Z.land_ones f 1 ltac:(lia)) as H. change (Z.ones 1) with 1 in H. lia. Qed.

Definition response_header (a b f n : Z) : bytes :=
  [a; b; Z.lor 128 (Z.land f 1); 128; 0; 1] ++ be16 n ++ [0; 0; 0; 0].

Lemma response_shape query q addrs ttl :
  is_bytes query → question query = Ok q → len addrs <= 65535 →
  ∃ a b f, range query 0 2 = [a; b] ∧ u8 a ∧ u8 b ∧
    build_dns_response_with_ttl query addrs ttl =
      Ok (response_header a b f (len addrs) ++ range query 12 (q_end q)
          ++ flat_map (answer_record ttl) addrs).
Proof.
  intros Hb Hq Hn. destruct (question_ok _ _ Hb Hq) as (Hlen & Hend & _).
  unfold build_dns_response_with_ttl. rewrite Hq. obind.
  destruct (Z.ltb_spec 65535 (len addrs)); [lia|].
  rewrite !sub_in by lia. obind. destruct (idx_in query 2) as [f ->]; [lia|]. obind.
  pose proof (is_bytes_range query 0 2 Hb) as Hr.
  pose proof (len_range query 0 2 ltac:(lia) ltac:(lia) ltac:(lia)) as Hl2.
  destruct (range query 0 2) as [|a [|b [|]]]; try (autorewrite with len in Hl2; lenlia).
  inversion_clear Hr as [|? ? Ha Hr']. inversion_clear Hr' as [|? ? Hb' _].
  exists a, b, f. repeat split; try apply Ha; try apply Hb'.
  unfold response_header. rewrite <- !app_assoc. unfold as_u16.
  rewrite Z.mod_small by (pose proof (len_nonneg addrs); lia). done.
Qed.

Lemma len_response_header a b f n : len (response_header a b f n) = 12.
Proof. reflexivity. Qed.

Lemma section_agree query q hdr body :
  is_bytes query → question query = Ok q → len hdr = 12 →
  agree query (hdr ++ range query 12 (q_end q) ++ body) 12 (q_end q).
Proof.
  intros Hb Hq Hh. destruct (question_ok _ _ Hb Hq) as (Hlen & Hend & _). split.
  - rewrite !len_app, len_range; lenlia.
  - intros i Hi. replace i with (len hdr + (i - 12)) at 1 by lia.
    rewrite byte_at_app_r by lia. rewrite byte_at_app_l by (rewrite len_range; lia).
    rewrite byte_at_range by lia. f_equal. lia.
Qed.

Lemma response_name query q hdr body :
  is_bytes query → question query = Ok q → len hdr = 12 →
  skip_dns_name (hdr ++ range query 12 (q_end q) ++ body) 12 = Ok (q_end q - 4).
Proof.
  intros Hb Hq Hh. destruct (question_ok _ _ Hb Hq) as (_ & _ & Hs).
  eapply skip_name_agree; [done..|]. eapply agree_mono; [by apply section_agree|lia..].
Qed.

Definition rr_type (addr : IpAddr) : Z := match addr with V4 _ => 1 | V6 _ => 28 end.

Lemma len_answer_record ttl addr : len (answer_record ttl addr) = 12 + len (octets addr).
Proof. destruct addr; reflexivity. Qed.

Lemma record_name pre ttl addr rest :
  12 < len pre →
  skip_dns_name (pre ++ answer_record ttl addr ++ rest) (len pre) = Ok (len pre + 2).
Proof.
  intros Hpre. unfold skip_dns_name. cbn [skip_dns_labels].
  assert (∀ i b, 0 <= i < 2 → byte_at [192; 12] i = Some b →
    byte_at (pre ++ answer_record ttl addr ++ rest) (len pre + i) = Some b) as Hat.
  { intros i b Hi Hb. rewrite byte_at_app_r by lia. unfold answer_record.
    rewrite <- !app_assoc, byte_at_app_l; [done|]. lenlia. }
  replace (byte_at _ (len pre)) with (Some 192).
  2: { symmetry. rewrite <- (Z.add_0_r (len pre)). apply Hat; [lia|done]. }
  rewrite (Hat 1 12) by (lia || done). simpl.
  change (Z.lor _ 12) with 12. by rewrite (proj2 (Z.leb_gt _ _)) by lia.
Qed.

Lemma record_type pre ttl addr rest :
  idx_u16 (pre ++ answer_record ttl addr ++ rest) (len pre + 2) = Ok (rr_type addr).
Proof. rewrite idx_u16_app_r by lia. by destruct addr. Qed.

Lemma record_length pre ttl addr rest :
  idx_u16 (pre ++ answer_record ttl addr ++ rest) (len pre + 2 + 8) = Ok (len (octets addr)).
Proof. rewrite <- Z.add_assoc, idx_u16_app_r by lia. by destruct addr. Qed.

Lemma record_data pre ttl addr rest :
  sub (pre ++ answer_record ttl addr ++ rest)
    (len pre + 2 + 10) (len pre + 2 + 10 + len (octets addr)) = Ok (octets addr).
Proof.
  assert (∃ fixed, answer_record ttl addr = fixed ++ octets addr ∧ len fixed = 12) as (fixed & -> & Hf)
    by (by destruct addr; [exists (range (answer_record ttl (V4 a)) 0 12)
                          |exists (range (answer_record ttl (V6 a)) 0 12)]).
  rewrite sub_in by (rewrite ?len_app; lenlia). f_equal.
  replace (pre ++ (fixed ++ octets addr) ++ rest) with ((pre ++ fixed) ++ octets addr ++ rest)
    by (by rewrite <- !app_assoc).
  apply range_app; rewrite len_app; lia.
Qed.

Lemma parse_answers_records ttl addrs pre acc :
  Forall ip_wf addrs → 12 < len pre →
  parse_answers (length addrs) (pre ++ flat_map (answer_record ttl) addrs) (len pre) acc
  = Ok (acc ++ addrs).
Proof.
  intros Hwf. revert pre acc. induction Hwf as [|addr addrs Hip Hwf IH]; intros pre acc Hpre.
  { simpl. by rewrite app_nil_r. }
  cbn [length parse_answers flat_map]. set (rest := flat_map _ addrs).
  set (data := pre ++ answer_record ttl addr ++ rest).
  pose proof (record_name pre ttl addr rest Hpre) as Hname.
  pose proof (record_type pre ttl addr rest) as Htype.
  pose proof (record_length pre ttl addr rest) as Hrdl.
  pose proof (record_data pre ttl addr rest) as Hdata. fold data in Hname, Htype, Hrdl, Hdata.
  assert (len data = len pre + 12 + len (octets addr) + len rest) as Hlen.
  { unfold data. rewrite !len_app, len_answer_record. lia. }
  pose proof (len_nonneg rest). pose proof (len_nonneg (octets addr)).
  rewrite (proj2 (Z.leb_gt (len data) (len pre))), Hname by lia. obind.
  rewrite (proj2 (Z.ltb_ge (len data) _)), Htype, Hrdl by lia. obind. cbv zeta.
  rewrite (proj2 (Z.ltb_ge (len data) _)) by lia.
  specialize (IH (pre ++ answer_record ttl addr) (acc ++ [addr])).
  rewrite len_app, len_answer_record, <- !app_assoc in IH. fold rest data in IH.
  replace (len pre + 2 + 10 + len (octets addr)) with (len pre + (12 + len (octets addr))) by lia.
  destruct addr as [a|a]; cbn [rr_type octets] in *; cbn in Hip;
    [change (len (be_bytes 4 a)) with 4 in *|change (len (be_bytes 16 a)) with 16 in *];
    simpl (_ && _); rewrite Hdata; obind; rewrite of_be_small by done; apply IH; lia.
Qed.

Lemma response_reads a b f n rest :
  u16 n →
  let resp := response_header a b f n ++ rest in
  idx resp 2 = Ok (Z.lor 128 (Z.land f 1)) ∧ idx resp 3 = Ok 128
  ∧ idx_u16 resp 4 = Ok 1 ∧ idx_u16 resp 6 = Ok n ∧ idx_u16 resp 8 = Ok 0
  ∧ idx_u16 resp 10 = Ok 0 ∧ sub resp 0 2 = Ok [a; b] ∧ sub resp 4 6 = Ok [0; 1].
Proof.
  intros Hn resp. assert (12 <= len resp) as Hl.
  { unfold resp. rewrite len_app, len_response_header. pose proof (len_nonneg rest). lia. }
  do 3 (split; [done|]). split.
  { unfold resp, response_header. apply (f_equal Ok), be16_value, Hn. }
  do 2 (split; [done|]). split; by rewrite sub_in by lia.
Qed.

Lemma response_flags f :
  let g := Z.lor 128 (Z.land f 1) in
  Z.land g 128 = 128 ∧ Z.land g 2 = 0 ∧ Z.land (Z.land g 7) 248 = 0.
Proof. destruct (land_1_cases f) as [-> | ->]; done. Qed.

Lemma parse_own_response query q addrs ttl resp :
  is_bytes query → question query = Ok q → Forall ip_wf addrs → len addrs <= 65535 →
  build_dns_response_with_ttl query addrs ttl = Ok resp →
  parse_dns_response resp = Ok addrs.
Proof.
  intros Hb Hq Hwf Hn Hbuild. pose proof (len_nonneg addrs).
  destruct (response_shape query q addrs ttl Hb Hq Hn) as (a & b & f & _ & _ & _ & E).
  assert (resp = response_header a b f (len addrs) ++ range query 12 (q_end q)
                 ++ flat_map (answer_record ttl) addrs) as -> by congruence.
  destruct (question_ok _ _ Hb Hq) as (? & ? & _).
  set (sec := range query 12 (q_end q)). set (recs := flat_map _ addrs).
  set (hdr := response_header a b f (len addrs)).
  destruct (response_reads a b f (len addrs) (sec ++ recs)) as (H2 & H3 & H4 & H6 & _).
  { unfold u16. lia. }
  destruct (response_flags f) as (F1 & F2 & _). fold hdr in H2, H3, H4, H6.
  assert (len sec = q_end q - 12) as Hsec by (unfold sec; rewrite len_range; lia).
  pose proof (len_nonneg recs).
  assert (len (hdr ++ sec ++ recs) = q_end q + len recs) as Hlen.
  { rewrite !len_app. change (len hdr) with 12. lia. }
  unfold parse_dns_response. rewrite (proj2 (Z.ltb_ge _ 12)) by lia.
  rewrite H2. obind. rewrite F1, F2. simpl (_ || _). cbv iota.
  rewrite H6, H3. obind. change (Z.land 128 15 =? 0) with true. cbn [negb].
  rewrite H4. obind. change (Z.to_nat 1) with 1%nat. cbn [skip_questions].
  unfold sec. rewrite (response_name query q hdr recs Hb Hq eq_refl). obind. fold sec.
  rewrite (proj2 (Z.ltb_ge _ _)) by lia. obind.
  replace (Z.to_nat (len addrs)) with (length addrs) by (unfold len; lia).
  pose proof (parse_answers_records ttl addrs (hdr ++ sec) [] Hwf) as Hrec.
  rewrite len_app, <- app_assoc in Hrec. fold recs in Hrec. change (len hdr) with 12 in Hrec.
  replace (q_end q - 4 + 4) with (12 + len sec) by lia. apply Hrec. lia.
Qed.

(** ** Locality of questions *)
Lemma sub_agree data data' a b :
  agree data data' a b → 0 <= a → a <= b → b <= len data →
  sub data' a b = sub data a b.
Proof.
  intros [Hl Hag] ? ? ?. rewrite !sub_in by lia. f_equal. unfold range.
  apply list_eq. intros i. destruct (decide (i < Z.to_nat (b - a))%nat).
  - rewrite !lookup_take_lt, !lookup_drop by lia.
    specialize (Hag (a + Z.of_nat i) ltac:(lia)). unfold byte_at in Hag.
    destruct (Z.ltb_spec (a + Z.of_nat i) 0); [lia|].
    by replace (Z.to_nat (a + Z.of_nat i)) with (Z.to_nat a + i)%nat in Hag by lia.
  - rewrite !lookup_take_ge by lia. done.
Qed.

Lemma idx_agree data data' a b i :
  agree data data' a b → a <= i < b → idx data' i = idx data i.
Proof. intros [_ Hag] Hi. unfold idx. by rewrite Hag. Qed.

Lemma idx_u16_agree data data' a b i :
  agree data data' a b → a <= i → i + 1 < b → idx_u16 data' i = idx_u16 data i.
Proof. intros. unfold idx_u16. by rewrite !(idx_agree data data' a b) by (done || lia). Qed.

Lemma question_labels_agree fuel fuel' data data' pos acc labels fin :
  is_bytes data → question_labels fuel data pos acc = Ok (labels, fin) →
  agree data data' pos fin → fin - pos <= Z.of_nat fuel' →
  question_labels fuel' data' pos acc = Ok (labels, fin).
Proof.
  intros Hb. revert pos acc fuel'.
  induction fuel as [|fuel IH]; intros pos acc fuel' H Hag Hf; [done|].
  pose proof (question_labels_skip _ _ _ _ _ _ Hb H) as Hs.
  pose proof (skip_labels_bounds _ _ _ _ _ Hb Hs) as Hbd. clear Hs.
  destruct fuel' as [|fuel']; [lia|]. cbn [question_labels] in *.
  destruct Hag as [Hlen Hag]. rewrite (Hag pos) by lia.
  apply bind_ok in H as (l & Hl & H). rewrite Hl. obind. apply ok_or_ok in Hl.
  pose proof (is_bytes_at _ _ _ Hb Hl) as Hu. unfold u8 in Hu.
  destruct (Z.eqb_spec l 0); [done|].
  destruct ((63 <? l) || _ || _) eqn:Hbad in H; [done|].
  apply orb_false_iff in Hbad as [[H63 ?%Z.ltb_ge]%orb_false_iff H254].
  apply bind_ok in H as (raw & Hraw & H). apply bind_ok in H as (lab & Hlab & H).
  pose proof (question_labels_skip _ _ _ _ _ _ Hb H) as Hs.
  pose proof (skip_labels_bounds _ _ _ _ _ Hb Hs) as Hbd'.
  rewrite H63, H254. destruct (Z.ltb_spec (len data') (pos + 1 + l)); [lia|]. simpl (_ || _).
  rewrite (sub_agree data data') by (try split; try (intros; apply Hag); lia).
  rewrite Hraw. obind. rewrite Hlab. obind.
  apply IH; [done| |lia]. split; [lia|]. intros. apply Hag. lia.
Qed.

Lemma question_agree data data' q f :
  is_bytes data → question data = Ok q → agree data data' 12 (q_end q) →
  idx data' 2 = Ok f → Z.land f 248 = 0 → sub data' 4 6 = Ok [0; 1] →
  question data' = Ok q.
Proof.
  intros Hb Hq Hag Hf Hf0 Hc. destruct (question_ok _ _ Hb Hq) as (Hl & He & _).
  pose proof Hag as [Hl' _]. unfold question in *.
  destruct (Z.ltb_spec (len data) 12); [lia|]. destruct (Z.ltb_spec (len data') 12); [lia|].
  rewrite Hf, Hc. obind. rewrite Hf0. simpl (_ && _).
  apply bind_ok in Hq as ([|] & _ & Hq); [|done]. cbn [negb] in *.
  apply bind_ok in Hq as ([labels pos] & Hlab & Hq).
  destruct (Z.ltb_spec (len data) (pos + 4)); [done|].
  apply bind_ok in Hq as (cls & Hcls & Hq). destruct (negb _) eqn:Hbd in Hq; [done|].
  apply bind_ok in Hq as (qtype & Hqt & Hq). injection Hq as <-. cbn [q_end] in *.
  pose proof (question_labels_skip _ _ _ _ _ _ Hb Hlab) as Hs%skip_labels_bounds; [|done].
  rewrite (question_labels_agree (S (length data)) (S (length data')) data data' 12 [] labels pos);
    [obind|done|done|eapply agree_mono; [done|lia..]|unfold len in *; lia].
  destruct (Z.ltb_spec (len data') (pos + 4)); [lia|].
  rewrite (sub_agree data data') by (try eapply agree_mono; try done; lia). rewrite Hcls. obind.
  rewrite Hbd. by rewrite (idx_u16_agree data data' 12 (pos + 4)), Hqt by (done || lia).
Qed.

(** ** Totality of the walks *)
Lemma skip_questions_spec n data pos :
  is_bytes data → 0 <= pos →
  returns (skip_questions n data pos)
  ∧ ∀ fin, skip_questions n data pos = Ok fin → pos <= fin.
Proof.
  intros Hb. revert pos. induction n as [|n IH]; intros pos Hpos; cbn [skip_questions].
  { split; [done|]. intros ? [= ->]. lia. }
  pose proof (skip_name_total _ _ Hb Hpos) as Ht.
  destruct (skip_dns_name data pos) as [p| | |] eqn:Hs; try done. obind.
  pose proof (skip_name_bounds _ _ _ Hb Hs).
  destruct (len data <? p + 4); [done|]. destruct (IH (p + 4)) as [IH1 IH2]; [lia|].
  split; [done|]. intros fin Hf. apply IH2 in Hf. lia.
Qed.

Lemma parse_answers_total n data pos acc :
  is_bytes data → 0 <= pos → returns (parse_answers n data pos acc).
Proof.
  intros Hb. revert pos acc. induction n as [|n IH]; intros pos acc Hpos; [done|].
  cbn [parse_answers]. case_match; [done|].
  apply returns_bind; [by apply skip_name_total|]. intros p Hp%skip_name_bounds; [|done].
  destruct (Z.ltb_spec (len data) (p + 10)); [done|].
  destruct (idx_u16_in data p) as [k ->]; [lia..|]. obind.
  destruct (idx_u16 data (p + 8)) as [l| | |] eqn:Hl;
    [|destruct (idx_u16_in data (p + 8)) as [? ?]; [lia|lia|congruence]..].
  obind. cbv zeta. apply idx_u16_bound in Hl; [|done]. unfold u16 in Hl.
  destruct (Z.ltb_spec (len data) (p + 10 + l)); [done|].
  apply returns_bind; [|intros; apply IH; lia].
  destruct (Z.eqb_spec l 4), (Z.eqb_spec l 16), (k =? 1), (k =? 28); simpl;
    rewrite ?sub_in by lia; done.
Qed.

Lemma parse_dns_response_total data : is_bytes data → returns (parse_dns_response data).
Proof.
  intros Hb. unfold parse_dns_response. destruct (Z.ltb_spec (len data) 12); [done|].
  destruct (idx_in data 2) as [f ->]; [lia|]. obind. case_match; [done|].
  destruct (idx_u16_in data 6) as [an ->]; [lia..|]. obind.
  destruct (idx_in data 3) as [r ->]; [lia|]. obind. cbv zeta. case_match; [done|].
  destruct (idx_u16_in data 4) as [qd ->]; [lia..|]. obind.
  destruct (skip_questions_spec (Z.to_nat qd) data 12 Hb) as [Hr Hq]; [lia|].
  apply returns_bind; [done|]. intros p Hp%Hq. apply parse_answers_total; [done|lia].
Qed.

Lemma walk_records_spec n message pos :
  is_bytes message → 0 <= pos <= len message →
  returns (walk_records n message pos)
  ∧ ∀ fin, walk_records n message pos = Ok fin → pos <= fin <= len message.
Proof.
  intros Hb. revert pos. induction n as [|n IH]; intros pos Hpos; cbn [walk_records].
  { split; [done|]. intros ? [= ->]. lia. }
  pose proof (skip_name_total message pos Hb ltac:(lia)) as Ht.
  destruct (skip_dns_name message pos) as [p| | |] eqn:Hs; try done. obind.
  pose proof (skip_name_bounds _ _ _ Hb Hs). unfold ensure_bounds, ensure.
  destruct (Z.leb_spec (p + 10) (len message)); [|done]. obind.
  destruct (idx_u16_in message (p + 8)) as [l Hl]; [lia..|]. rewrite Hl. obind. cbv zeta.
  apply idx_u16_bound in Hl; [|done]. unfold u16 in Hl.
  destruct (Z.leb_spec (p + (10 + l)) (len message)); [|done]. obind.
  destruct (IH (p + (10 + l))) as [IH1 IH2]; [lia|].
  split; [done|]. intros fin Hf. apply IH2 in Hf. lia.
Qed.

Lemma sum_counts_in message :
  12 <= len message → ∃ a b c, idx_u16 message 6 = Ok a ∧ sum_counts message = Ok (a + b + c)
                              ∧ (is_bytes message → u16 a ∧ u16 b ∧ u16 c).
Proof.
  intros. destruct (idx_u16_in message 6) as [a Ha]; [lia..|].
  destruct (idx_u16_in message 8) as [b Hb]; [lia..|].
  destruct (idx_u16_in message 10) as [c Hc]; [lia..|].
  exists a, b, c. unfold sum_counts. rewrite Ha, Hb, Hc. split; [done|]. split; [done|].
  intros. repeat split; eapply idx_u16_bound; done.
Qed.

Lemma validate_records_total message : is_bytes message → returns (validate_records message).
Proof.
  intros Hb. unfold validate_records.
  apply returns_bind; [by apply skip_name_total|]. intros p Hp%skip_name_bounds; [|done].
  unfold ensure_bounds, ensure. destruct (Z.leb_spec (p + 4) (len message)); [|done]. obind.
  destruct (sum_counts_in message) as (a & b & c & _ & -> & _); [lia|]. obind.
  destruct (walk_records_spec (Z.to_nat (a + b + c)) message (p + 4) Hb) as [Hr _]; [lia|].
  apply returns_bind; [done|]. intros. by case_match.
Qed.

(** Everything a validated message guarantees. *)
Lemma validate_records_ok message :
  is_bytes message → validate_records message = Ok tt →
  ∃ p a b c, skip_dns_name message 12 = Ok p ∧ 12 < p ∧ p + 4 <= len message
    ∧ idx_u16 message 6 = Ok a ∧ sum_counts message = Ok (a + b + c)
    ∧ u16 a ∧ u16 b ∧ u16 c
    ∧ walk_records (Z.to_nat (a + b + c)) message (p + 4) = Ok (len message).
Proof.
  intros Hb H. unfold validate_records in H.
  apply bind_ok in H as (p & Hp & H). pose proof (skip_name_bounds _ _ _ Hb Hp).
  apply bind_ok in H as (u & Hu & H). apply ensure_ok in Hu as Hu%Z.leb_le.
  destruct (sum_counts_in message) as (a & b & c & Ha & Hs & Hw); [lia|].
  rewrite Hs in H. apply bind_ok in H as (n & [= <-] & H).
  apply bind_ok in H as (fin & Hfin & H). apply ensure_ok in H as ->%Z.eqb_eq.
  destruct (Hw Hb) as (? & ? & ?). exists p, a, b, c. done || (split_and!; done || lia).
Qed.

(** ** The record view of a message *)
Record RR := { rr_kind : Z; rr_class : Z; rr_ttl : Z; rr_data : bytes }.

Fixpoint read_records (n : nat) (message : bytes) (pos : Z) : outcome (list RR) :=
  match n with
  | O => Ok []
  | S n =>
    p ← skip_dns_name message pos;
    kind ← idx_u16 message p;
    class ← idx_u16 message (p + 2);
    ttl ← sub message (p + 4) (p + 8);
    l ← idx_u16 message (p + 8);
    rdata ← sub message (p + 10) (p + 10 + l);
    rs ← read_records n message (p + (10 + l));
    Ok ({| rr_kind := kind; rr_class := class; rr_ttl := of_be ttl; rr_data := rdata |} :: rs)
  end.

Definition cap_rr (max : Z) (r : RR) : RR :=
  if rr_kind r =? 41 then r
  else {| rr_kind := rr_kind r; rr_class := rr_class r;
          rr_ttl := Z.min (rr_ttl r) max; rr_data := rr_data r |}.

(** One record at [pos]: the first turn of a successful walk. *)
Lemma walk_step n message pos fin :
  is_bytes message → walk_records (S n) message pos = Ok fin →
  ∃ p l, skip_dns_name message pos = Ok p ∧ 0 <= pos < p ∧ idx_u16 message (p + 8) = Ok l ∧ 0 <= l
    ∧ p + (10 + l) <= fin <= len message ∧ walk_records n message (p + (10 + l)) = Ok fin.
Proof.
  intros Hb H. cbn [walk_records] in H. apply bind_ok in H as (p & Hp & H).
  pose proof (skip_name_bounds _ _ _ Hb Hp). apply bind_ok in H as (u & _ & H).
  apply bind_ok in H as (l & Hl & H). apply bind_ok in H as (u' & Hu & H).
  apply ensure_ok in Hu as Hu%Z.leb_le. pose proof (idx_u16_bound _ _ _ Hb Hl) as Hw.
  unfold u16 in Hw. exists p, l.
  destruct (walk_records_spec n message (p + (10 + l)) Hb) as [_ Hf]; [lia|].
  specialize (Hf _ H). split_and!; done || lia.
Qed.

Lemma walk_agree n data data' pos fin :
  is_bytes data → walk_records n data pos = Ok fin → agree data data' pos fin →
  walk_records n data' pos = Ok fin.
Proof.
  intros Hb. revert pos. induction n as [|n IH]; intros pos H Hag; [done|].
  destruct (walk_step _ _ _ _ Hb H) as (p & l & Hp & Hlt & Hl & H0 & Hbd & Hw).
  pose proof Hag as [Hlen _]. cbn [walk_records].
  rewrite (skip_name_agree data data' pos p) by (done || (eapply agree_mono; [done|lia..])). obind.
  unfold ensure_bounds, ensure. rewrite (proj2 (Z.leb_le _ _)) by lia. obind.
  rewrite (idx_u16_agree data data' pos fin), Hl by (done || lia). obind. cbv zeta. rewrite (proj2 (Z.leb_le _ _)) by lia. obind.
  apply IH; [done|]. eapply agree_mono; [done|lia..].
Qed.

Lemma read_records_agree n N data data' pos fin :
  is_bytes data → walk_records N data pos = Ok fin → (n <= N)%nat → agree data data' pos fin →
  read_records n data' pos = read_records n data pos.
Proof.
  intros Hb. revert N pos. induction n as [|n IH]; intros N pos H Hn Hag; [done|].
  destruct N as [|N]; [lia|].
  destruct (walk_step _ _ _ _ Hb H) as (p & l & Hp & Hlt & Hl & H0 & Hbd & Hw).
  cbn [read_records]. rewrite (skip_name_agree data data' pos p), Hp
    by (done || (eapply agree_mono; [done|lia..])). obind.
  assert (∀ i, p <= i → i + 1 < fin → idx_u16 data' i = idx_u16 data i) as Hidx
    by (intros; eapply idx_u16_agree; done || lia).
  assert (∀ a b, p <= a → a <= b → b <= fin → sub data' a b = sub data a b) as Hsub
    by (intros; apply sub_agree; (lia || (eapply agree_mono; [done|lia..]))).
  rewrite (Hidx p) by lia. destruct (idx_u16_in data p) as [k ->]; [lia..|]. obind.
  rewrite (Hidx (p + 2)) by lia. destruct (idx_u16_in data (p + 2)) as [c ->]; [lia..|]. obind.
  rewrite (Hsub (p + 4)), (sub_in data (p + 4)) by lia. obind.
  rewrite (Hidx (p + 8)), Hl by lia. obind. rewrite Hsub by lia.
  by rewrite (IH N) by (done || lia || (eapply agree_mono; [done|lia..])).
Qed.

Lemma read_records_walk n N message pos fin :
  is_bytes message → walk_records N message pos = Ok fin → (n <= N)%nat → 0 <= pos →
  ∃ rs, read_records n message pos = Ok rs ∧ length rs = n.
Proof.
  intros Hb. revert N pos. induction n as [|n IH]; intros N pos H Hn Hpos; [by eexists|].
  destruct N as [|N]; [lia|].
  destruct (walk_step _ _ _ _ Hb H) as (p & l & Hp & Hlt & Hl & H0 & Hbd & Hw).
  destruct (IH N (p + (10 + l)) Hw) as (rs & Hrs & Hlrs); [lia..|].
  cbn [read_records]. rewrite Hp. obind.
  destruct (idx_u16_in message p) as [k ->]; [lia..|]. obind.
  destruct (idx_u16_in message (p + 2)) as [c ->]; [lia..|]. obind.
  rewrite !sub_in by lia. obind. rewrite Hl. obind. rewrite sub_in by lia. obind.
  rewrite Hrs. obind. eexists. split; [done|]. simpl. by rewrite Hlrs.
Qed.

(** ** [answer_ttl] is the least TTL of the answer section *)
Definition min_ttl (acc : option Z) (rs : list RR) : option Z :=
  foldl (λ acc r, Some (match acc with Some old => Z.min old (rr_ttl r) | None => rr_ttl r end))
    acc rs.

Lemma min_ttl_loop_spec n message pos acc rs :
  read_records n message pos = Ok rs →
  min_ttl_loop n message pos acc = Ok (default 0 (min_ttl acc rs)).
Proof.
  revert pos acc rs. induction n as [|n IH]; intros pos acc rs H.
  { simpl in H. by injection H as <-. }
  cbn [read_records min_ttl_loop] in *.
  apply bind_ok in H as (p & -> & H). apply bind_ok in H as (k & _ & H).
  apply bind_ok in H as (c & _ & H). apply bind_ok in H as (t & Ht & H).
  apply bind_ok in H as (l & Hl & H). apply bind_ok in H as (d & _ & H).
  apply bind_ok in H as (rs' & Hrs & H). injection H as <-.
  obind. rewrite Ht. obind. rewrite Hl. obind. by rewrite (IH _ _ rs').
Qed.

(** ** Rewriting a TTL in place *)
Lemma patch_spec message at_ v :
  is_bytes message → 0 <= at_ → at_ + 4 <= len message → u32 v →
  let m := range message 0 at_ ++ be32 v ++ range message (at_ + 4) (len message) in
  len m = len message ∧ is_bytes m ∧ sub m at_ (at_ + 4) = Ok (be32 v)
  ∧ ∀ i, i < at_ ∨ at_ + 4 <= i → byte_at m i = byte_at message i.
Proof.
  intros Hb Ha Hlen Hv m.
  assert (len (range message 0 at_) = at_) as H1 by (rewrite len_range; lia).
  assert (len (range message (at_ + 4) (len message)) = len message - (at_ + 4)) as H2
    by (rewrite len_range; lia).
  assert (len m = len message) as Hm by (unfold m; rewrite !len_app; change (len (be32 v)) with 4; lia).
  split; [done|]. split.
  { unfold m. rewrite !is_bytes_app. eauto with bytes. repeat split; eauto with bytes. apply be_bytes_u8. }
  split.
  { rewrite sub_in by lia. f_equal. unfold m. apply range_app; [lia|]. change (len (be32 v)) with 4. lia. }
  intros i [Hi|Hi]; unfold m.
  - rewrite byte_at_app_l by lia. destruct (Z.ltb_spec i 0) as [Hneg|].
    + unfold byte_at. by rewrite (proj2 (Z.ltb_lt i 0)).
    + rewrite byte_at_range by lia. done.
  - destruct (Z.ltb_spec i (len message)) as [|Hbig].
    + pose proof (byte_at_app_r (range message 0 at_ ++ be32 v) (range message (at_ + 4) (len message))
                    (i - (at_ + 4)) ltac:(lia)) as E.
      rewrite len_app, H1, <- app_assoc in E. change (len (be32 v)) with 4 in E.
      replace (at_ + 4 + (i - (at_ + 4))) with i in E by lia.
      rewrite E, byte_at_range by lia. f_equal. lia.
    + fold m. rewrite (proj2 (byte_at_none m i)), (proj2 (byte_at_none message i)) by lia. done.
Qed.

Lemma cap_ttl_loop_spec max n N message pos fin rs :
  is_bytes message → u32 max → walk_records N message pos = Ok fin → (n <= N)%nat → 0 <= pos →
  read_records n message pos = Ok rs →
  ∃ m, cap_ttl_loop n message max pos = Ok m ∧ is_bytes m ∧ len m = len message
    ∧ (∀ i, i < pos → byte_at m i = byte_at message i)
    ∧ walk_records N m pos = Ok fin ∧ read_records n m pos = Ok (map (cap_rr max) rs).
Proof.
  intros Hb Hmax. revert N message pos rs Hb.
  induction n as [|n IH]; intros N message pos rs Hb H Hn Hpos Hrs.
  { simpl in Hrs. injection Hrs as <-. by exists message. }
  destruct N as [|N]; [lia|].
  destruct (walk_step _ _ _ _ Hb H) as (p & l & Hp & Hlt & Hl & H0 & Hbd & Hw).
  set (next := p + (10 + l)) in *. assert (p + 10 <= next) as Hnx by (unfold next; lia).
  cbn [read_records] in Hrs. rewrite Hp in Hrs.
  apply bind_ok in Hrs as (? & [= <-] & Hrs). apply bind_ok in Hrs as (k & Hk & Hrs).
  apply bind_ok in Hrs as (c & Hc & Hrs). apply bind_ok in Hrs as (t & Ht & Hrs).
  rewrite Hl in Hrs. apply bind_ok in Hrs as (? & [= <-] & Hrs).
  apply bind_ok in Hrs as (d & Hd & Hrs). apply bind_ok in Hrs as (rs' & Hrs' & Hrs).
  injection Hrs as <-. fold next in Hrs'.
  cbn [cap_ttl_loop]. rewrite Hp. obind. rewrite Hk. obind. rewrite Hl. obind. fold next.
  (* the message after the first record was handled *)
  set (k41 := k =? 41). set (v := if k41 then of_be t else Z.min (of_be t) max).
  assert (∃ m1, (if negb k41 then _ else Ok message) = Ok m1 ∧ is_bytes m1
     ∧ len m1 = len message ∧ sub m1 (p + 4) (p + 8) = Ok (be32 v) ∧ u32 v
     ∧ ∀ i, i < p + 4 ∨ p + 8 <= i → byte_at m1 i = byte_at message i)
    as (m1 & -> & Hb1 & Hlen1 & Hsub1 & Hv & Hat1).
  { pose proof Ht as Htr. apply sub_ok in Htr as [_ Htr].
    assert (is_bytes t) as Htb by (subst t; by apply is_bytes_range).
    assert (len t = 4) as Htl by (subst t; rewrite len_range; lia).
    pose proof (of_be_bound t Htb) as Htv. rewrite Htl in Htv. change (256 ^ 4) with 4294967296 in Htv.
    destruct k41; cbn [negb]; unfold v.
    - exists message. rewrite Ht. split_and!; try done. f_equal. unfold be32.
      replace 4%nat with (length t) by (unfold len in Htl; lia). by rewrite be_bytes_of_be.
    - rewrite Ht. obind. rewrite !sub_in by lia. obind.
      destruct (patch_spec message (p + 4) (Z.min (of_be t) max)) as (Q1 & Q2 & Q3 & Q4);
        [done|lia|lia|unfold u32 in *; lia|].
      replace (p + 4 + 4) with (p + 8) in * by lia. eexists. split_and!; try done. unfold u32 in *; lia. }
  obind.
  assert (∀ a b, b <= len message → b <= p + 4 ∨ p + 8 <= a → agree message m1 a b) as Hag1.
  { intros a b Hb' Hd'. split; [lia|]. intros. apply Hat1. lia. }
  destruct (IH N m1 next rs' Hb1) as (m & Hm & Hbm & Hlm & Hatm & Hwm & Hrm); [|lia|lia| |].
  { apply (walk_agree N message m1); [done|done|]. apply Hag1; lia. }
  { rewrite (read_records_agree n N message m1 next fin); (done || lia || (apply Hag1; lia)). }
  assert (∀ a b, b <= next → b <= p + 4 ∨ p + 8 <= a → agree message m a b) as Hag.
  { intros a b Hb' Hd'. split; [lia|]. intros. rewrite Hatm by lia. apply Hat1. lia. }
  assert (skip_dns_name m pos = Ok p) as Hpm
    by (apply (skip_name_agree message); [done..|apply Hag; lia]).
  assert (idx_u16 m (p + 8) = Ok l) as Hlm'
    by (rewrite (idx_u16_agree message m (p + 8) (p + 10)); [done|apply Hag; lia|lia..]).
  exists m. split_and!; [done|done|lia|intros; rewrite Hatm, Hat1 by lia; done|..].
  - cbn [walk_records]. rewrite Hpm. obind. unfold ensure_bounds, ensure.
    rewrite (proj2 (Z.leb_le _ _)), Hlm' by lia. obind. fold next.
    rewrite (proj2 (Z.leb_le _ _)) by lia. done.
  - cbn [read_records]. rewrite Hpm. obind.
    rewrite (idx_u16_agree message m p (p + 2) p), Hk by ((apply Hag; lia) || lia). obind.
    rewrite (idx_u16_agree message m (p + 2) (p + 4) (p + 2)), Hc by ((apply Hag; lia) || lia). obind.
    rewrite (sub_agree m1 m) by (try (split; [lia|intros; apply Hatm]); lia).
    rewrite Hsub1, Hlm'. obind.
    rewrite (sub_agree message m), Hd by (try (apply Hag; lia); unfold next in *; lia). obind.
    fold next. rewrite Hrm. obind. rewrite of_be_be32 by done. cbn [map].
    f_equal. f_equal. unfold cap_rr, v. cbn [rr_kind]. fold k41. by destruct k41.
Qed.

(** ** A response built here passes the validation of upstream replies *)
Lemma walk_own_records ttl addrs pre :
  12 < len pre →
  walk_records (length addrs) (pre ++ flat_map (answer_record ttl) addrs) (len pre)
  = Ok (len (pre ++ flat_map (answer_record ttl) addrs)).
Proof.
  revert pre. induction addrs as [|addr addrs IH]; intros pre Hpre.
  { cbn [flat_map length walk_records]. by rewrite app_nil_r. }
  cbn [length walk_records flat_map]. set (rest := flat_map _ addrs).
  set (data := pre ++ answer_record ttl addr ++ rest).
  pose proof (record_name pre ttl addr rest Hpre) as Hname.
  pose proof (record_length pre ttl addr rest) as Hrdl. fold data in Hname, Hrdl.
  assert (len data = len pre + 12 + len (octets addr) + len rest) as Hlen.
  { unfold data. rewrite !len_app, len_answer_record. lia. }
  pose proof (len_nonneg rest). pose proof (len_nonneg (octets addr)).
  rewrite Hname. obind. unfold ensure_bounds, ensure.
  rewrite (proj2 (Z.leb_le _ (len data))), Hrdl by lia. obind. cbv zeta.
  rewrite (proj2 (Z.leb_le _ (len data))) by lia. obind.
  specialize (IH (pre ++ answer_record ttl addr)).
  rewrite len_app, len_answer_record, <- !app_assoc in IH. fold rest data in IH.
  replace (len pre + 2 + (10 + len (octets addr))) with (len pre + (12 + len (octets addr))) by lia.
  apply IH. lia.
Qed.

Lemma validate_own_response query q addrs ttl resp :
  is_bytes query → question query = Ok q → len addrs <= 65535 →
  build_dns_response_with_ttl query addrs ttl = Ok resp →
  validate_response query resp = Ok tt.
Proof.
  intros Hb Hq Hn Hbuild. pose proof (len_nonneg addrs).
  destruct (response_shape query q addrs ttl Hb Hq Hn) as (a & b & f & Hid & _ & _ & E).
  assert (resp = response_header a b f (len addrs) ++ range query 12 (q_end q)
                 ++ flat_map (answer_record ttl) addrs) as -> by congruence. clear E Hbuild.
  destruct (question_ok _ _ Hb Hq) as (? & ? & _).
  set (sec := range query 12 (q_end q)). set (recs := flat_map _ addrs).
  set (hdr := response_header a b f (len addrs)).
  destruct (response_reads a b f (len addrs) (sec ++ recs))
    as (H2 & _ & _ & H6 & H8 & H10 & H02 & _); [unfold u16; lia|].
  destruct (response_flags f) as (F1 & F2 & F3). fold hdr in H2, H6, H8, H10, H02.
  set (g := Z.lor 128 (Z.land f 1)) in *.
  assert (len sec = q_end q - 12) as Hsec by (unfold sec; rewrite len_range; lia).
  pose proof (len_nonneg recs).
  assert (len (hdr ++ sec ++ recs) = q_end q + len recs) as Hlen.
  { rewrite !len_app. change (len hdr) with 12. lia. }
  unfold validate_response.
  rewrite (proj2 (Z.ltb_ge (len (hdr ++ sec ++ recs)) 12)), (proj2 (Z.ltb_ge (len query) 12)) by lia.
  simpl (_ || _). cbv iota. rewrite H02, sub_in, Hid, H2 by lia. obind.
  rewrite bool_decide_eq_true_2 by done. rewrite F1, F2. simpl (negb _). cbv iota.
  assert (validate_records (hdr ++ sec ++ recs) = Ok tt) as ->.
  { unfold validate_records. unfold sec. rewrite (response_name query q) by done. fold sec. obind.
    unfold ensure_bounds, ensure. rewrite (proj2 (Z.leb_le _ _)) by lia. obind.
    unfold sum_counts. rewrite H6, H8, H10. obind. rewrite !Z.add_0_r.
    replace (Z.to_nat (len addrs)) with (length addrs) by (unfold len; lia).
    pose proof (walk_own_records ttl addrs (hdr ++ sec)) as Hw.
    rewrite len_app, <- app_assoc in Hw. fold recs in Hw. change (len hdr) with 12 in Hw.
    replace (q_end q - 4 + 4) with (12 + len sec) by lia. rewrite Hw by lia. obind.
    by rewrite Z.eqb_refl. }
  obind. rewrite Hq. obind. rewrite set_at_in by lia. obind.
  set (hdr' := [a; b; Z.land g 7; 128; 0; 1] ++ be16 (len addrs) ++ [0; 0; 0; 0]).
  change (<[Z.to_nat 2 := Z.land g 7]> (hdr ++ sec ++ recs)) with (hdr' ++ sec ++ recs).
  rewrite (question_agree query _ q (Z.land g 7)); [|done|done|by apply section_agree|done|done|].
  - obind. by rewrite eq_ignore_ascii_case_refl, Z.eqb_refl.
  - rewrite sub_in; [done|lia|lia|]. rewrite len_app. change (len hdr') with 12. lenlia.
Qed.

(** ** Query round trip *)
Definition wire_label (l : bytes) : Prop :=
  is_bytes l ∧ 1 <= len l <= 63 ∧ utf8_valid l = true ∧ dot ∉ l.

Definition encode_labels (ls : list bytes) : bytes :=
  flat_map (λ label, as_u8 (len label) :: label) ls.

Lemma question_labels_encode fuel pre ls tail acc :
  Forall wire_label ls → 12 <= len pre → len pre + len (encode_labels ls) - 12 <= 254 →
  (length ls < fuel)%nat →
  question_labels fuel (pre ++ encode_labels ls ++ 0 :: tail) (len pre) acc
  = Ok (acc ++ ls, len pre + len (encode_labels ls) + 1).
Proof.
  intros Hls. revert fuel pre acc. induction Hls as [|l ls (Hb & Hl & Hu & _) Hls IH];
    intros fuel pre acc Hpre Hlen Hfuel; (destruct fuel as [|fuel]; [simpl in Hfuel; lia|]).
  - cbn [encode_labels flat_map question_labels app].
    replace (byte_at _ _) with (Some 0).
    2: { rewrite <- (Z.add_0_r (len pre)). by rewrite byte_at_app_r. }
    obind. simpl. rewrite app_nil_r. do 2 f_equal. unfold len; simpl; lia.
  - unfold encode_labels in *. cbn [flat_map question_labels] in *. rewrite <- app_assoc.
    set (rest := flat_map _ ls ++ 0 :: tail).
    assert (as_u8 (len l) = len l) as Has by (unfold as_u8; lia).
    rewrite Has in *. rewrite len_app, len_cons in Hlen.
    set (data := pre ++ (len l :: l) ++ rest).
    assert (byte_at data (len pre) = Some (len l)) as ->.
    { rewrite <- (Z.add_0_r (len pre)). unfold data. by rewrite byte_at_app_r. }
    obind. cbn [ok_or]. obind. cbv zeta. rewrite (proj2 (Z.eqb_neq _ _)) by lia.
    assert (len data = len pre + (1 + len l) + len rest) as Hd
      by (unfold data; rewrite !len_app, len_cons; lia).
    pose proof (len_nonneg rest). pose proof (len_nonneg (flat_map (λ l, as_u8 (len l) :: l) ls)).
    rewrite (proj2 (Z.ltb_ge 63 _)), (proj2 (Z.ltb_ge (len data) _)), (proj2 (Z.ltb_ge 254 _)) by lia.
    simpl (_ || _). cbv iota.
    assert (sub data (len pre + 1) (len pre + 1 + len l) = Ok l) as ->.
    { rewrite sub_in by lia. f_equal. unfold data.
      replace (pre ++ (len l :: l) ++ rest) with ((pre ++ [len l]) ++ l ++ rest)
        by (by rewrite <- app_assoc).
      apply range_app; rewrite len_app; change (len [len l]) with 1; lia. }
    obind. rewrite (proj2 (from_utf8_ok l l)) by done. obind.
    specialize (IH fuel (pre ++ len l :: l) (acc ++ [l])).
    rewrite len_app, len_cons, <- !app_assoc in IH.
    replace (len pre + 1 + len l) with (len pre + (1 + len l)) by lia.
    rewrite len_app, len_cons. unfold data, rest. rewrite IH by (simpl in Hfuel; lia).
    f_equal. f_equal. lia.
Qed.

Lemma nonempty_labels ls : Forall wire_label ls → List.filter nonempty ls = ls.
Proof.
  induction 1 as [|l ls (_ & Hl & _) Hls IH]; [done|]. cbn [List.filter].
  assert (nonempty l = true) as -> by (unfold nonempty; by rewrite (proj2 (Z.eqb_neq _ _)) by lia).
  by rewrite IH.
Qed.

Lemma query_labels ls n :
  Forall wire_label ls →
  List.filter nonempty (split_on dot (trim_end_byte dot (join [dot] ls ++ replicate n dot))) = ls.
Proof.
  intros Hls. rewrite trim_end_byte_replicate, trim_end_byte_id.
  2: { apply last_join. eapply Forall_impl; [done|]. intros l (_ & Hl & _ & Hd).
       split; [done|]. intros ->. unfold len in Hl; simpl in Hl; lia. }
  destruct ls as [|l ls]; [done|]. rewrite split_on_join; [by apply nonempty_labels|done|].
  eapply Forall_impl; [done|]. by intros ? (_ & _ & _ & ?).
Qed.

Lemma parse_own_query id ls n qtype :
  Forall wire_label ls → len (encode_labels ls) <= 254 → u16 qtype →
  parse_dns_query (build_dns_query id (join [dot] ls ++ replicate n dot) qtype)
  = Ok (join [dot] ls, qtype).
Proof.
  intros Hls Hlen Hq. unfold build_dns_query. rewrite query_labels by done.
  change (flat_map _ ls) with (encode_labels ls). set (enc := encode_labels ls) in *.
  set (hdr := be16 id ++ [1; 0] ++ [0; 1] ++ [0; 0] ++ [0; 0] ++ [0; 0]).
  set (tail := be16 qtype ++ [0; 1]).
  replace (be16 id ++ _) with (hdr ++ enc ++ 0 :: tail) by (unfold hdr; by rewrite <- !app_assoc).
  set (data := hdr ++ enc ++ 0 :: tail).
  pose proof (len_nonneg enc).
  assert (len data = 12 + len enc + 5) as Hd
    by (unfold data; rewrite !len_app, len_cons; unfold len; simpl; lia).
  unfold parse_dns_query, question. rewrite (proj2 (Z.ltb_ge _ _)) by lia.
  change (idx data 2) with (Ok 1). obind. rewrite sub_in by lia. obind.
  change (range data 4 6) with [0; 1]. rewrite bool_decide_eq_true_2 by done. cbn [negb].
  change (Z.land 1 248 =? 0) with true. simpl (true && _). cbn [negb].
  pose proof (question_labels_encode (S (length data)) hdr ls tail [] Hls) as Hql.
  change (len hdr) with 12 in Hql. fold enc data in Hql. rewrite Hql; [|lia|lia|].
  2: { assert (length ls <= length enc)%nat; [|unfold len in *; lia].
       unfold enc, encode_labels. clear. induction ls; simpl; [lia|]. rewrite length_app. lia. }
  obind. rewrite (proj2 (Z.ltb_ge _ _)) by lia.
  assert (data = (hdr ++ enc ++ [0]) ++ tail) as Hdt
    by (unfold data; by rewrite <- !app_assoc).
  assert (len (hdr ++ enc ++ [0]) = 12 + len enc + 1) as Hpre
    by (rewrite !len_app; unfold len; simpl; lia).
  rewrite sub_in by lia. obind.
  assert (range data (12 + len enc + 1 + 2) (12 + len enc + 1 + 4) = [0; 1]) as ->.
  { rewrite <- Hpre, Hdt, range_app_r by lia. done. }
  rewrite bool_decide_eq_true_2 by done. cbn [negb].
  assert (idx_u16 data (12 + len enc + 1) = Ok qtype) as ->; [|done].
  rewrite <- Hpre, Hdt. rewrite <- (Z.add_0_r (len _)), idx_u16_app_r by lia.
  by apply idx_u16_be16.
Qed.

(** ** Error responses and the UDP size limit *)
Lemma question_labels_end fuel data pos acc labels fin :
  pos <= 266 → question_labels fuel data pos acc = Ok (labels, fin) → fin <= 267.
Proof.
  revert pos acc. induction fuel as [|fuel IH]; intros pos acc Hpos H; [done|].
  cbn [question_labels] in H. apply bind_ok in H as (l & _ & H).
  destruct (l =? 0); [injection H as <- <-; lia|].
  destruct ((63 <? l) || _ || _) eqn:Hbad in H; [done|].
  apply orb_false_iff in Hbad as [_ ?%Z.ltb_ge].
  apply bind_ok in H as (raw & _ & H). apply bind_ok in H as (lab & _ & H).
  eapply IH; [|done]. lia.
Qed.

Lemma question_end data q : question data = Ok q → q_end q <= 271.
Proof.
  intros H. unfold question in H. apply bind_ok in H as (h & _ & H). destruct (negb h); [done|].
  apply bind_ok in H as ([labels pos] & Hl & H). apply question_labels_end in Hl; [|lia].
  case_match; [done|]. apply bind_ok in H as (cls & _ & H). case_match; [done|].
  apply bind_ok in H as (t & _ & H). injection H as <-. cbn [q_end]. lia.
Qed.

Lemma error_response_shape query rcode :
  is_bytes query → 12 <= len query →
  ∃ out f, build_dns_error_response query rcode = Ok out ∧ 12 <= len out <= 271
    ∧ idx query 2 = Ok f ∧ idx out 2 = Ok (Z.lor 128 (Z.land f 1))
    ∧ idx out 3 = Ok (Z.lor 128 (Z.land rcode 15)) ∧ range out 0 2 = range query 0 2.
Proof.
  intros Hb Hlen. unfold build_dns_error_response. rewrite (proj2 (Z.ltb_ge _ 12)) by lia.
  set (fin := match question query with Ok q => Some (q_end q) | _ => None end).
  assert (12 <= default 12 fin <= 271 ∧ default 12 fin <= len query) as [He1 He2].
  { subst fin. destruct (question query) eqn:Hq; simpl; try lia.
    pose proof (question_end _ _ Hq). destruct (question_ok _ _ Hb Hq) as (_ & ? & _). lia. }
  rewrite sub_in by lia. obind. destruct (idx_in query 2) as [f Hf]; [lia|]. rewrite Hf. obind.
  pose proof (len_range query 0 (default 12 fin) ltac:(lia) ltac:(lia) ltac:(lia)) as Hr.
  assert (range (range query 0 (default 12 fin)) 0 2 = range query 0 2) as H02.
  { unfold range. simpl. rewrite drop_0, take_take. f_equal. lia. }
  destruct (range query 0 (default 12 fin)) as
    [|b0 [|b1 [|b2 [|b3 [|b4 [|b5 [|b6 [|b7 [|b8 [|b9 [|b10 [|b11 t]]]]]]]]]]]];
    try (unfold len in Hr; simpl in Hr; lia).
  set (F := Z.lor 128 (Z.land f 1)). set (R := Z.lor 128 (Z.land rcode 15)).
  assert (set_at (b0 :: b1 :: b2 :: b3 :: b4 :: b5 :: b6 :: b7 :: b8 :: b9 :: b10 :: b11 :: t) 2 F
    = Ok (b0 :: b1 :: F :: b3 :: b4 :: b5 :: b6 :: b7 :: b8 :: b9 :: b10 :: b11 :: t)) as ->
    by (rewrite set_at_in by lenlia; done). obind.
  set (resp := b0 :: b1 :: F :: R :: b4 :: b5 :: b6 :: b7 :: b8 :: b9 :: b10 :: b11 :: t).
  assert (len resp = default 12 fin) as Hresp by (unfold resp; lenlia).
  assert (set_at (b0 :: b1 :: F :: b3 :: b4 :: b5 :: b6 :: b7 :: b8 :: b9 :: b10 :: b11 :: t) 3 R
    = Ok resp) as -> by (rewrite set_at_in by lenlia; done). obind.
  rewrite !sub_in by lia. obind.
  assert (range resp 12 (len resp) = t) as ->.
  { unfold range. change (drop (Z.to_nat 12) resp) with t. apply take_ge. unfold len. simpl. lia. }
  change (range resp 0 4) with [b0; b1; F; R].
  assert (∀ v, len ([b0; b1; F; R; 0; v; 0; 0; 0; 0; 0; 0] ++ t) = default 12 fin) as Hout.
  { intros v. rewrite <- Hresp. unfold len. simpl. done. }
  change (range (b0 :: _) 0 2) with [b0; b1] in H02. rewrite <- H02.
  destruct fin as [e|].
  - exists ([b0; b1; F; R; 0; 1; 0; 0; 0; 0; 0; 0] ++ t), f.
    rewrite set_at_in; [by rewrite Hout|]. specialize (Hout 0). lenlia.
  - exists ([b0; b1; F; R; 0; 0; 0; 0; 0; 0; 0; 0] ++ t), f. by rewrite Hout.
Qed.
