(* ===== verification/DnsWireSpec.v ===== *)
(** * What the DNS wire codec guarantees

    The theorems about [DnsWire]: every entry point returns on every byte
    string, the builders and the parsers are inverse, the TTL cap rewrites
    exactly the TTL fields, and a UDP reply fits the size the client asked for. *)
From Stdlib Require Import String.
From S2P Require Import Prelude Bytes Text Net DnsWire.

#[local] Open Scope list_scope.
#[local] Open Scope Z_scope.

(** ** Totality of the entry points *)
Lemma edns_limit_spec n query pos limit :
  is_bytes query → 0 <= pos → 512 <= limit <= 4096 →
  ∃ l, edns_limit n query pos limit = Ok l ∧ 512 <= l <= 4096.
Proof.
  intros Hb. revert pos limit. induction n as [|n IH]; intros pos limit Hpos Hl; [by eexists|].
  cbn [edns_limit]. pose proof (skip_name_total query pos Hb Hpos) as Ht.
  destruct (skip_dns_name query pos) as [p| | |] eqn:Hp; [|by eexists|done..].
  pose proof (skip_name_bounds _ _ _ Hb Hp).
  destruct (Z.ltb_spec (len query) (p + 10)); [by eexists|].
  destruct (idx_u16_in query p) as [k ->]; [lia..|]. obind.
  destruct (idx_u16_in query (p + 2)) as [c ->]; [lia..|]. obind.
  destruct (idx_u16_in query (p + 8)) as [w Hw]; [lia..|]. rewrite Hw. obind.
  pose proof (idx_u16_bound _ _ _ Hb Hw) as Hu. unfold u16 in Hu.
  destruct (Z.ltb_spec (len query) (p + 10 + w)); [by eexists|].
  apply IH; [lia|]. destruct (k =? 41); lia.
Qed.

Lemma udp_limit_spec query :
  is_bytes query → ∃ l, udp_limit query = Ok l ∧ 512 <= l <= 4096.
Proof.
  intros Hb. unfold udp_limit. pose proof (question_total _ Hb) as Ht.
  destruct (question query) as [q| | |] eqn:Hq; [|by eexists|done..].
  destruct (question_ok _ _ Hb Hq) as (? & ? & _).
  destruct (idx_u16_in query 10) as [c ->]; [lia..|]. obind.
  apply edns_limit_spec; [done|lia|lia].
Qed.

Lemma build_total query addrs ttl :
  is_bytes query → returns (build_dns_response_with_ttl query addrs ttl).
Proof.
  intros Hb. unfold build_dns_response_with_ttl.
  apply returns_bind; [by apply question_total|]. intros q Hq.
  destruct (question_ok _ _ Hb Hq) as (? & ? & _). case_match; [done|].
  rewrite sub_in by lia. obind. destruct (idx_in query 2) as [f ->]; [lia|]. obind.
  by rewrite sub_in by lia.
Qed.

Lemma error_total query rcode : is_bytes query → is_ok (build_dns_error_response query rcode) = true.
Proof.
  intros Hb. destruct (Z.ltb_spec (len query) 12).
  - unfold build_dns_error_response. by rewrite (proj2 (Z.ltb_lt _ _)) by lia.
  - by destruct (error_response_shape query rcode Hb) as (out & f & -> & _); [lia|].
Qed.

Lemma validate_response_total query response :
  is_bytes query → is_bytes response → returns (validate_response query response).
Proof.
  intros Hq Hr. unfold validate_response.
  destruct (Z.ltb_spec (len response) 12); [done|].
  destruct (Z.ltb_spec (len query) 12); [done|]. simpl (_ || _). cbv iota.
  rewrite !sub_in by lia. obind. destruct (idx_in response 2) as [f Hf]; [lia|]. rewrite Hf. obind.
  case_match; [done|]. apply returns_bind; [by apply validate_records_total|]. intros _ _.
  apply returns_bind; [by apply question_total|]. intros q _. rewrite set_at_in by lia. obind.
  apply returns_bind; [|intros; by case_match].
  apply question_total. apply Forall_insert; [done|].
  pose proof (is_bytes_idx _ _ _ Hr Hf) as Hu. unfold u8 in *.
  change 7 with (Z.ones 3). rewrite Z.land_ones by lia. lia.
Qed.

Lemma read_records_take n N message pos rs :
  read_records N message pos = Ok rs → (n <= N)%nat →
  read_records n message pos = Ok (take n rs).
Proof.
  revert N pos rs. induction n as [|n IH]; intros N pos rs H Hn; [done|].
  destruct N as [|N]; [lia|]. cbn [read_records] in *.
  do 6 ostep H. apply bind_ok in H as (rs' & Hrs & H). injection H as <-.
  by rewrite (IH N _ rs') by (done || lia).
Qed.

(** The capped message, its records and the lifetime of the original. *)
Lemma capped_records message max :
  is_bytes message → u32 max → validate_records message = Ok tt →
  ∃ m p a rs,
    cap_ttl message max = Ok m ∧ validate_records m = Ok tt ∧ len m = len message
    ∧ skip_dns_name message 12 = Ok p
    ∧ (∀ i, i < p + 4 → byte_at m i = byte_at message i)
    ∧ idx_u16 message 6 = Ok a ∧ sum_counts message = Ok (len rs) ∧ a <= len rs
    ∧ read_records (length rs) message (p + 4) = Ok rs
    ∧ read_records (length rs) m (p + 4) = Ok (map (cap_rr max) rs)
    ∧ answer_ttl message = Ok (default 0 (min_ttl None (take (Z.to_nat a) rs))).
Proof.
  intros Hb Hmax Hv.
  destruct (validate_records_ok _ Hb Hv) as (p & a & b & c & Hp & H12 & Hlen & Ha & Hs & ? & ? & ? & Hw).
  unfold u16 in *. set (N := Z.to_nat (a + b + c)) in *.
  destruct (read_records_walk N N _ _ _ Hb Hw) as (rs & Hrs & Hlrs); [lia..|].
  destruct (cap_ttl_loop_spec max N N message (p + 4) (len message) rs Hb Hmax Hw)
    as (m & Hm & Hmb & Hml & Hpre & Hmw & Hmr); [lia|lia|done|].
  exists m, p, a, rs. rewrite Hlrs.
  assert (len rs = a + b + c) as HL by (unfold len; lia).
  split. { unfold cap_ttl. rewrite Hv. obind. rewrite Hp. obind. by rewrite Hs. }
  assert (agree message m 0 (p + 4)) as Hag by (split; [lia|intros; apply Hpre; lia]).
  assert (skip_dns_name m 12 = Ok p) as Hmp.
  { apply (skip_name_agree message); [done..|]. eapply agree_mono; [done|lia..]. }
  assert (∀ i, 0 <= i → i + 1 < p + 4 → idx_u16 m i = idx_u16 message i) as Hi.
  { intros. apply (idx_u16_agree _ _ 0 (p + 4)); done || lia. }
  split.
  { unfold validate_records. rewrite Hmp. obind. unfold ensure_bounds, ensure.
    rewrite (proj2 (Z.leb_le _ _)) by lia. obind.
    assert (sum_counts m = sum_counts message) as ->
      by (unfold sum_counts; by rewrite !Hi by lia).
    rewrite Hs. obind. fold N. rewrite Hmw. obind. by rewrite Hml, Z.eqb_refl. }
  repeat (split; [done || lia || congruence|]).
  unfold answer_ttl. rewrite Hv. obind. rewrite Hp. obind. rewrite Ha. obind.
  apply min_ttl_loop_spec. apply (read_records_take _ N); [done|lia].
Qed.

(** ** Concrete messages *)
Section examples.
Definition labels_example : list bytes := [lit "www"; lit "example"; lit "com"].
Definition query_example : bytes :=
  build_dns_query 4660 (lit "www.example.com.") 1.
Definition addrs_example : list IpAddr := [V4 3232235777; V6 (2 ^ 125 + 1)].
Definition response_example : bytes :=
  match build_dns_response query_example addrs_example with Ok r => r | _ => [] end.
End examples.

(** C7. The DNS codec is total: on any bytes whatever, and any argument, each
    entry point returns a value or an error; it never panics on an index or a
    slice, and none of its loops runs out of fuel. *)
Theorem dns_codec_total query message addrs ttl rcode max :
  is_bytes query → is_bytes message → u32 max →
  returns (parse_dns_response message) ∧ returns (question query)
  ∧ returns (build_dns_response_with_ttl query addrs ttl)
  ∧ is_ok (build_dns_error_response query rcode) = true
  ∧ returns (validate_response query message)
  ∧ returns (cap_ttl message max) ∧ returns (answer_ttl message)
  ∧ is_ok (udp_response query message) = true.
Proof.
  intros Hq Hm Hmax.
  split; [by apply parse_dns_response_total|]. split; [by apply question_total|].
  split; [by apply build_total|]. split; [by apply error_total|].
  split; [by apply validate_response_total|].
  pose proof (validate_records_total _ Hm) as Ht.
  unfold udp_response. destruct (udp_limit_spec _ Hq) as (l & -> & Hl). obind.
  split; [|split].
  - destruct (validate_records message) as [[]| | |] eqn:Hv; [|unfold cap_ttl; by rewrite Hv|done..].
    by destruct (capped_records message max Hm Hmax Hv) as (? & ? & ? & ? & -> & _).
  - destruct (validate_records message) as [[]| | |] eqn:Hv; [|unfold answer_ttl; by rewrite Hv|done..].
    by destruct (capped_records message max Hm Hmax Hv)
      as (? & ? & ? & ? & _ & _ & _ & _ & _ & _ & _ & _ & _ & _ & ->).
  - case_match; [done|]. destruct (build_dns_error_response _ _) eqn:He;
      try (pose proof (error_total query (Z.land (default 2 (byte_at message 3)) 15) Hq) as Hok;
           by rewrite He in Hok).
    obind. case_match eqn:H12; [|done]. apply Z.leb_le in H12.
    destruct (idx_in a 2) as [f ->]; [lia|]. obind. by rewrite set_at_in by lia.
Qed.

Lemma dns_codec_total_witness :
  is_ok (udp_response query_example response_example) = true.
Proof.
  apply (dns_codec_total query_example response_example [] 0 2 60);
    [decided|decided|unfold u32; lia].
Defined.

(** C11. A reply built for a query carries the addresses: it is accepted by
    [parse_dns_response], which returns exactly the addresses in order, and by
    [validate_response] against that query, and it fails to build only when the
    query does not parse or there are more than 65535 addresses. *)
Theorem dns_response_roundtrip query addrs ttl :
  is_bytes query → Forall ip_wf addrs →
  match build_dns_response_with_ttl query addrs ttl with
  | Ok resp => parse_dns_response resp = Ok addrs ∧ validate_response query resp = Ok tt
  | _ => is_ok (question query) = false ∨ 65535 < len addrs
  end.
Proof.
  intros Hb Hwf. pose proof (question_total _ Hb) as Ht.
  destruct (question query) as [q| | |] eqn:Hq;
    [|unfold build_dns_response_with_ttl; rewrite Hq; by left|done..].
  destruct (Z.ltb_spec 65535 (len addrs)) as [Hlt|Hle].
  { unfold build_dns_response_with_ttl. rewrite Hq. obind.
    rewrite (proj2 (Z.ltb_lt _ _)) by lia. by right. }
  destruct (response_shape query q addrs ttl Hb Hq Hle) as (a & b & f & _ & _ & _ & E).
  rewrite E. split.
  - by apply (parse_own_response query q addrs ttl).
  - by apply (validate_own_response query q addrs ttl).
Qed.

Lemma dns_response_roundtrip_witness :
  parse_dns_response response_example = Ok addrs_example.
Proof.
  pose proof (dns_response_roundtrip query_example addrs_example 300) as H.
  assert (build_dns_response_with_ttl query_example addrs_example 300 = Ok response_example) as E
    by reflexivity.
  rewrite E in H. apply H; [decided|].
  repeat constructor; unfold ip_wf, u32, u128; lia.
Defined.

(** A query built for a domain parses back to it: for labels that fit the
    wire (1..63 bytes of UTF-8 without a dot, 254 octets in all) and any number
    of trailing dots, [parse_dns_query] returns the domain without those dots
    and the type, whatever the id. *)
Theorem dns_query_roundtrip id labels dots qtype :
  Forall wire_label labels → len (encode_labels labels) <= 254 → u16 qtype →
  parse_dns_query (build_dns_query id (join [dot] labels ++ replicate dots dot) qtype)
  = Ok (join [dot] labels, qtype).
Proof. apply parse_own_query. Qed.

Lemma dns_query_roundtrip_witness :
  parse_dns_query (build_dns_query 7 (join [dot] labels_example ++ replicate 1 dot) 28)
  = Ok (lit "www.example.com", 28).
Proof.
  apply (dns_query_roundtrip 7 labels_example 1 28);
    [|by vm_compute|unfold u16; lia].
  repeat constructor; try (by vm_compute); try (decided).
  all: intros Hin; by apply (bool_decide_unpack _) in Hin.
Defined.

(** [cap_ttl] rewrites the TTLs and nothing else: a message that passes
    [validate_records] keeps its length, header and question, still validates,
    and its records read back as before with each TTL (of a record that is not
    OPT) replaced by the smaller of itself and the cap; [answer_ttl] is the
    least TTL of the answer section. *)
Theorem cap_ttl_spec message max :
  is_bytes message → u32 max → validate_records message = Ok tt →
  ∃ m p a rs,
    cap_ttl message max = Ok m ∧ validate_records m = Ok tt ∧ len m = len message
    ∧ skip_dns_name message 12 = Ok p
    ∧ (∀ i, i < p + 4 → byte_at m i = byte_at message i)
    ∧ idx_u16 message 6 = Ok a ∧ sum_counts message = Ok (len rs) ∧ a <= len rs
    ∧ read_records (length rs) message (p + 4) = Ok rs
    ∧ read_records (length rs) m (p + 4) = Ok (map (cap_rr max) rs)
    ∧ answer_ttl message = Ok (default 0 (min_ttl None (take (Z.to_nat a) rs))).
Proof. apply capped_records. Qed.

Lemma cap_ttl_spec_witness :
  ∃ m, cap_ttl response_example 60 = Ok m ∧ validate_records m = Ok tt.
Proof.
  destruct (cap_ttl_spec response_example 60) as (m & _ & _ & _ & Hm & Hv & _);
    [decided|unfold u32; lia|reflexivity|].
  by exists m.
Defined.

(** C30. A UDP reply never exceeds what the client accepts: the limit is 512
    unless an EDNS record raises it, at most 4096; a reply within the limit is
    passed on unchanged, and a larger one becomes a truncated reply with the
    query's id, the QR and TC bits set and the reply's rcode. *)
Theorem udp_response_fits query reply :
  is_bytes query →
  ∃ limit out,
    udp_limit query = Ok limit ∧ 512 <= limit <= 4096
    ∧ (idx_u16 query 10 = Ok 0 → limit = 512)
    ∧ udp_response query reply = Ok out ∧ len out <= limit
    ∧ (len reply <= limit → out = reply)
    ∧ (limit < len reply → 12 <= len query →
       ∃ f r, idx out 2 = Ok f ∧ Z.testbit f 7 = true ∧ Z.testbit f 1 = true
              ∧ idx out 3 = Ok r ∧ Z.land r 15 = Z.land (default 2 (byte_at reply 3)) 15
              ∧ range out 0 2 = range query 0 2).
Proof.
  intros Hb. destruct (udp_limit_spec _ Hb) as (limit & Hlim & Hbd). exists limit.
  unfold udp_response. rewrite Hlim. obind.
  assert (idx_u16 query 10 = Ok 0 → limit = 512) as H0.
  { intros H. unfold udp_limit in Hlim. destruct (question query); try congruence.
    rewrite H in Hlim. change (Ok 512 = Ok limit) in Hlim. congruence. }
  destruct (Z.leb_spec (len reply) limit) as [Hle|Hgt].
  { exists reply. repeat (split; [done|]). lia. }
  set (rc := Z.land (default 2 (byte_at reply 3)) 15).
  destruct (Z.ltb_spec (len query) 12) as [Hs|Hq].
  { exists []. unfold build_dns_error_response. rewrite (proj2 (Z.ltb_lt _ _)) by lia.
    pose proof (@len_nil Z). repeat (split; [done || lia|]). intros. lia. }
  destruct (error_response_shape query rc Hb Hq) as (out & f & -> & Hlo & _ & Hf & Hr & Hid).
  obind. rewrite (proj2 (Z.leb_le _ _)) by lia. rewrite Hf. obind. rewrite set_at_in by lia.
  set (F := Z.lor (Z.lor 128 (Z.land f 1)) 2).
  exists (<[Z.to_nat 2 := F]> out).
  assert (len (<[Z.to_nat 2 := F]> out) = len out) as -> by (unfold len; by rewrite length_insert).
  repeat (split; [done || lia|]). intros _ _. exists F, (Z.lor 128 (Z.land rc 15)).
  split. { apply idx_ok. unfold byte_at. simpl. apply list_lookup_insert_eq. unfold len in *; lia. }
  split. { unfold F. by rewrite !Z.lor_spec. }
  split. { unfold F. by rewrite !Z.lor_spec, orb_true_r. }
  split. { apply idx_ok. apply idx_ok in Hr. rewrite <- Hr. unfold byte_at. simpl.
           by apply list_lookup_insert_ne. }
  split.
  { rewrite Z.land_lor_distr_l. change (Z.land 128 15) with 0. rewrite Z.lor_0_l.
    unfold rc. by rewrite <- !Z.land_assoc. }
  rewrite <- Hid. unfold range. change (Z.to_nat 0) with 0%nat. rewrite !drop_0.
  by rewrite take_insert_ge by lia.
Qed.

Lemma udp_response_fits_witness :
  is_bytes query_example ∧
  ∃ limit out, udp_response query_example (replicate 600 0) = Ok out ∧ len out <= limit
               ∧ idx_u16 query_example 10 = Ok 0 ∧ limit = 512.
Proof.
  assert (is_bytes query_example) as Hb by decided. split; [done|].
  destruct (udp_response_fits query_example (replicate 600 0) Hb)
    as (limit & out & _ & _ & H0 & Ho & Hl & _).
  exists limit, out. repeat (split; [done|]). apply H0. by vm_compute.
Defined.

(** * Replies reused for another query *)
(** Two messages that differ in the first two bytes only. *)
Definition same_after_id (m m' : bytes) : Prop :=
  len m' = len m ∧ ∀ i, 2 ≤ i → byte_at m' i = byte_at m i.

Lemma same_after_id_agree m m' a b : same_after_id m m' → 2 ≤ a → b ≤ len m → agree m m' a b.
Proof. intros [Hl Hb] ? ?. split; [lia|]. intros. apply Hb. lia. Qed.

Lemma question_header data q :
  question data = Ok q →
  12 ≤ len data ∧ ∃ f, idx data 2 = Ok f ∧ Z.land f 248 = 0 ∧ sub data 4 6 = Ok [0; 1].
Proof.
  unfold question. destruct (Z.ltb_spec (len data) 12); [done|]. intros Hq. split; [done|].
  apply bind_ok in Hq as (h & Hh & Hq).
  apply bind_ok in Hh as (f & Hf & Hh). apply bind_ok in Hh as (c & Hc & Hh). injection Hh as <-.
  destruct (negb _) eqn:E in Hq; [done|]. apply negb_false_iff, andb_true_iff in E as [E1%Z.eqb_eq E2].
  exists f. split; [done|]. split; [done|]. rewrite Hc. f_equal. by apply bool_decide_eq_true in E2.
Qed.

Lemma question_same_after_id q q' r :
  is_bytes q → same_after_id q q' → question q = Ok r → question q' = Ok r.
Proof.
  intros Hb Hs Hq. destruct (question_header _ _ Hq) as (Hlen & f & Hf & Hf0 & Hc).
  destruct (question_ok _ _ Hb Hq) as (_ & He & _).
  eapply question_agree; [exact Hb|exact Hq| | |exact Hf0|].
  - apply same_after_id_agree; [done|lia|lia].
  - rewrite <- Hf. apply (idx_agree q q' 2 12); [|lia]. apply same_after_id_agree; [done|lia|lia].
  - rewrite <- Hc. apply (sub_agree q q' 4 6); [|lia..]. apply same_after_id_agree; [done|lia|lia].
Qed.

Lemma byte_at_set_at {A} (l : list A) i x l' :
  set_at l i x = Ok l' →
  len l' = len l ∧ byte_at l' i = Some x ∧ ∀ j, j ≠ i → byte_at l' j = byte_at l j.
Proof.
  unfold set_at. destruct (_ && _) eqn:E; [|done]. intros [= <-].
  apply andb_true_iff in E as [H0%Z.leb_le H1%Z.ltb_lt]. unfold byte_at.
  assert (Z.to_nat i < length l)%nat by (unfold len in H1; lia).
  split; [unfold len; by rewrite length_insert|]. split.
  - destruct (Z.ltb_spec i 0); [lia|]. by apply list_lookup_insert_eq.
  - intros j Hj. destruct (Z.ltb_spec j 0); [done|]. apply list_lookup_insert_ne. lia.
Qed.

(** What [validate_response] establishes, and what it needs. *)
Lemma validate_response_ok query response :
  validate_response query response = Ok tt ↔
  12 ≤ len response ∧ 12 ≤ len query ∧ range response 0 2 = range query 0 2 ∧
  validate_records response = Ok tt ∧
  ∃ f expected packet actual,
    idx response 2 = Ok f ∧ Z.land f 128 ≠ 0 ∧ Z.land f 2 = 0 ∧ question query = Ok expected ∧
    set_at response 2 (Z.land f 7) = Ok packet ∧ question packet = Ok actual ∧
    eq_ignore_ascii_case (q_domain expected) (q_domain actual) = true ∧ q_qtype expected = q_qtype actual.
Proof.
  unfold validate_response.
  destruct (Z.ltb_spec (len response) 12); [split; [done|lia]|].
  destruct (Z.ltb_spec (len query) 12); [split; [done|lia]|]. simpl (_ || _). cbv iota.
  rewrite !sub_in by lia. obind. destruct (idx_in response 2) as [f Hf]; [lia|]. rewrite Hf. obind.
  split.
  - destruct (negb _) eqn:E; [done|]. apply negb_false_iff in E.
    apply andb_true_iff in E as [[E1 E2]%andb_true_iff E3%Z.eqb_eq].
    apply bool_decide_eq_true in E1. apply negb_true_iff, Z.eqb_neq in E2.
    intros H1. apply bind_ok in H1 as ([] & Hr & H1). apply bind_ok in H1 as (e & He & H1).
    apply bind_ok in H1 as (p & Hp & H1). apply bind_ok in H1 as (a & Ha & H1).
    destruct (_ || _) eqn:E in H1; [done|]. apply orb_false_iff in E as [E4%negb_false_iff E5%negb_false_iff].
    split_and!; [done..|]. exists f, e, p, a. by apply Z.eqb_eq in E5.
  - intros (_ & _ & Hid & Hr & f' & e & p & a & [= <-] & Hf1 & Hf2 & He & Hp & Ha & Hd & Ht).
    rewrite Hid, bool_decide_eq_true_2 by done. rewrite (proj2 (Z.eqb_neq _ _)) by done.
    rewrite Hf2. simpl (negb _). cbv iota. rewrite Hr. obind. rewrite He. obind. rewrite Hp. obind.
    rewrite Ha. obind. by rewrite Hd, Ht, Z.eqb_refl.
Qed.

(** The reply may change in its id and behind its question. *)
Lemma validate_transfer query query' reply reply' p :
  is_bytes query → is_bytes reply → validate_response query reply = Ok tt →
  skip_dns_name reply 12 = Ok p → same_after_id query query' →
  len reply' = len reply → (∀ i, 2 ≤ i < p + 4 → byte_at reply' i = byte_at reply i) →
  validate_records reply' = Ok tt → range reply' 0 2 = range query' 0 2 →
  validate_response query' reply' = Ok tt.
Proof.
  intros Hbq Hbr Hv Hp Hq Hlen Hsame Hrec Hid.
  apply validate_response_ok in Hv as (Hr12 & Hq12 & _ & Hrecr & f & e & packet & a & Hf & Hf1 & Hf2 & He & Hset & Ha & Hd & Ht).
  pose proof Hq as [Hql _].
  destruct (validate_records_ok _ Hbr Hrecr) as (p' & _ & _ & _ & Hp' & Hp12 & Hpl & _).
  rewrite Hp in Hp'. injection Hp' as <-.
  apply validate_response_ok. split_and!; [lia|lia|done|done|].
  assert (idx reply' 2 = Ok f) as Hf'.
  { unfold idx. rewrite Hsame by lia. exact Hf. }
  assert (∃ packet', set_at reply' 2 (Z.land f 7) = Ok packet') as [packet' Hset'].
  { eexists. apply set_at_in. lia. }
  exists f, e, packet', a. do 3 (split; [done|]). split; [by apply (question_same_after_id query)|].
  split; [done|]. split; [|done].
  destruct (byte_at_set_at _ _ _ _ Hset) as (Hpl1 & Hp2 & Hpo).
  destruct (byte_at_set_at _ _ _ _ Hset') as (Hpl1' & Hp2' & Hpo').
  assert (is_bytes packet) as Hbp.
  { rewrite set_at_in in Hset by lia. injection Hset as <-. apply Forall_insert; [done|].
    pose proof (is_bytes_idx _ _ _ Hbr Hf) as Hu. unfold u8 in *.
    change 7 with (Z.ones 3). rewrite Z.land_ones by lia. lia. }
  destruct (question_ok _ _ Hbp Ha) as (_ & _ & Hskip).
  assert (skip_dns_name packet 12 = Ok p) as Hskip'.
  { apply (skip_name_agree reply); [done|done|]. split; [lia|]. intros i Hi. apply Hpo. lia. }
  rewrite Hskip' in Hskip. injection Hskip as Hskip.
  assert (agree packet packet' 2 (p + 4)) as Hag.
  { split; [lia|]. intros i Hi. destruct (Z.eq_dec i 2) as [->|]; [by rewrite Hp2, Hp2'|].
    rewrite Hpo, Hpo' by lia. apply Hsame. lia. }
  destruct (question_header _ _ Ha) as (_ & g & Hg & Hg0 & Hc).
  apply (question_agree packet packet' a g); [done|done|eapply agree_mono; [done|lia..]| |done|].
  - rewrite <- Hg. eapply idx_agree; [done|lia].
  - rewrite <- Hc. apply (sub_agree packet packet' 4 6); [eapply agree_mono; [done|lia..]|lia..].
Qed.

Lemma validate_records_same_after_id m m' :
  is_bytes m → same_after_id m m' → validate_records m = Ok tt → validate_records m' = Ok tt.
Proof.
  intros Hb Hs Hv. destruct (validate_records_ok _ Hb Hv) as (p & a & b & c & Hp & H12 & Hl & Ha & Hsum & _ & _ & _ & Hw).
  pose proof (skip_name_bounds _ _ _ Hb Hp). pose proof Hs as [Hlen _].
  assert (∀ lo hi, 2 ≤ lo → hi ≤ len m → agree m m' lo hi) as Hag by (intros; by apply same_after_id_agree).
  unfold validate_records. rewrite (skip_name_agree m m' 12 p) by (done || (apply Hag; lia)). obind.
  unfold ensure_bounds, ensure. rewrite (proj2 (Z.leb_le _ _)) by lia. obind.
  assert (sum_counts m' = Ok (a + b + c)) as ->.
  { rewrite <- Hsum. unfold sum_counts. by rewrite !(idx_u16_agree m m' 6 12) by (done || lia || (apply Hag; lia)). }
  obind. rewrite (walk_agree _ m m' (p + 4) (len m)) by (done || (apply Hag; lia)). obind.
  by rewrite (proj2 (Z.eqb_eq _ _)) by lia.
Qed.

Lemma is_bytes_sub data a b r : is_bytes data → sub data a b = Ok r → is_bytes r.
Proof. intros Hb [_ ->]%sub_ok. by apply is_bytes_range. Qed.

Lemma cap_ttl_bytes message max m : is_bytes message → cap_ttl message max = Ok m → is_bytes m.
Proof.
  intros Hb H. unfold cap_ttl in H. inv_ok. clear Hx Hx0 Hx1. revert H Hb. generalize (x0 + 4) as pos. intros pos.
  generalize (Z.to_nat x1) as n. intros n. revert message pos.
  induction n as [|n IH]; intros message pos H Hb; [by injection H as <-|].
  cbn [cap_ttl_loop] in H. do 3 (apply bind_ok in H as (? & _ & H)).
  apply bind_ok in H as (message' & Hm & H). apply IH in H; [done|].
  destruct (negb _); [|by injection Hm as <-].
  inv_ok. apply is_bytes_app. split; [by eapply is_bytes_sub|].
  repeat (apply Forall_cons; split; [unfold u8; lia|]). by eapply is_bytes_sub.
Qed.

Lemma question_bytes data q : is_bytes data → question data = Ok q → is_bytes (q_domain q).
Proof.
  intros Hb H. unfold question in H. apply bind_ok in H as (h & _ & H). destruct (negb h); [done|].
  apply bind_ok in H as ([labels pos] & Hl & H).
  assert (Forall is_bytes labels) as Hlab.
  { revert Hl. generalize (S (length data)) as fuel. intros fuel. generalize 12 as p.
    assert (Forall is_bytes (@nil bytes)) as Hacc by constructor. revert Hacc. generalize (@nil bytes) as acc.
    induction fuel as [|fuel IH]; intros acc Hacc p Hl; [done|]. cbn [question_labels] in Hl.
    apply bind_ok in Hl as (l & _ & Hl). destruct (l =? 0); [by injection Hl as <- _|].
    destruct (_ || _); [done|]. apply bind_ok in Hl as (raw & Hraw & Hl). apply bind_ok in Hl as (lab & Hlab & Hl).
    eapply IH; [|exact Hl]. apply Forall_app. split; [done|]. constructor; [|done].
    apply from_utf8_ok in Hlab as [_ ->]. by eapply is_bytes_sub. }
  case_match; [done|]. apply bind_ok in H as (cls & _ & H). case_match; [done|].
  apply bind_ok in H as (t & _ & H). injection H as <-. simpl. clear -Hlab.
  induction Hlab as [|l ls Hl Hls IH]; [constructor|]. destruct ls as [|l' ls]; [done|].
  change (is_bytes (l ++ [dot] ++ join [dot] (l' :: ls))). apply is_bytes_app. split; [done|].
  apply is_bytes_app. split; [|done]. repeat constructor; unfold u8, dot; lia.
Qed.

Lemma build_response_bytes query addrs ttl resp :
  is_bytes query → build_dns_response_with_ttl query addrs ttl = Ok resp → is_bytes resp.
Proof.
  intros Hb H. unfold build_dns_response_with_ttl in H. apply bind_ok in H as (q & Hq & H).
  destruct (65535 <? len addrs); [done|]. apply bind_ok in H as (id & Hid & H).
  apply bind_ok in H as (f & Hf & H). apply bind_ok in H as (body & Hbody & H).
  assert (is_bytes (flat_map (answer_record ttl) addrs)) as Hrecs.
  { clear. induction addrs as [|a addrs IH]; [constructor|]. cbn [flat_map]. apply is_bytes_app. split; [|done].
    unfold answer_record, octets. destruct a; rewrite !is_bytes_app; split_and!; try apply be_bytes_u8; decided. }
  apply (f_equal (λ o, match o with Ok x => x | _ => [] end)) in H. cbv beta iota in H. rewrite <- H.
  rewrite !is_bytes_app. split_and!; try done;
    try (eapply (is_bytes_sub query); eassumption); try apply be_bytes_u8; try decided.
  destruct (land_1_cases f) as [-> | ->]; decided.
Qed.
