(* ===== verification/FakeIp.v ===== *)
(** * Fake-IP pool ([crates/sockrocket-core/src/dns/fakeip.rs] and
      [fakeip/persistence.rs])

    [Inner] is the state behind the pool's lock; every operation takes the
    state and returns the new one.  Domains and the store file are lists of
    Unicode scalar values.  The Module [Writer] has the critical sections of the
    background writer; [FakeIpWriter] interleaves them. *)
From Stdlib Require Import String.
From S2P Require Import Prelude Bytes Text Net Lru.

#[local] Open Scope string_scope.
#[local] Open Scope list_scope.
#[local] Open Scope Z_scope.

Abbreviation str := (list Z).

Definition FAKE_IP_BASE : Z := 3323068416.
Definition FAKE_IP_MASK : Z := 4294901760.
Definition FIRST_HOST_OFFSET : Z := 2.
Definition MAX_ENTRIES : Z := 8192.
Definition DOMESTIC_MAX_ENTRIES : nat := Z.to_nat 16384.
Definition PERSIST_MIN_INTERVAL : Z := 10.

Definition is_fake_ip (ip : Z) : bool := Z.land ip FAKE_IP_MASK =? FAKE_IP_BASE.

Definition fake_ipv4 (ip : IpAddr) : option Z :=
  match ip with
  | V4 ip => if is_fake_ip ip then Some ip else None
  | V6 ip =>
    if bool_decide (map (segment ip) [0; 1; 2; 3; 4; 5] = [8193; 2; 0; 18277; 0; 0]) then
      let octets := be_bytes 16 ip in
      let ip := of_be (range octets 12 16) in
      if is_fake_ip ip then Some ip else None
    else None
  end.

Section pool.
Context {C : Type} `{LRU : Lru IpAddr str C}.

Record Inner := {
  next : Z;
  by_domain : gmap str Z;
  by_ip : gmap Z str;
  order : list str;
  domestic : C;
}.

Definition new : Inner :=
  {| next := FIRST_HOST_OFFSET; by_domain := ∅; by_ip := ∅; order := [];
     domestic := lru_new DOMESTIC_MAX_ENTRIES |}.

(** The four steps of [allocate] for a domain that has no address yet. *)
Definition evict (s : Inner) : Inner :=
  if MAX_ENTRIES <=? Z.of_nat (size (by_domain s)) then
    match order s with
    | [] => s
    | oldest :: rest =>
      match by_domain s !! oldest with
      | Some ip => {| next := next s; by_domain := delete oldest (by_domain s);
                      by_ip := delete ip (by_ip s); order := rest; domestic := domestic s |}
      | None => {| next := next s; by_domain := by_domain s; by_ip := by_ip s;
                   order := rest; domestic := domestic s |}
      end
    end
  else s.

Definition next_offset (n : Z) : Z :=
  if MAX_ENTRIES + FIRST_HOST_OFFSET <=? n then FIRST_HOST_OFFSET else n + 1.

Definition drop_stale (ip : Z) (s : Inner) : Inner :=
  match by_ip s !! ip with
  | Some old => {| next := next s; by_domain := delete old (by_domain s);
                   by_ip := delete ip (by_ip s); order := order s; domestic := domestic s |}
  | None => s
  end.

Definition insert_mapping (domain : str) (ip : Z) (s : Inner) : Inner :=
  {| next := next s; by_domain := <[domain := ip]> (by_domain s);
     by_ip := <[ip := domain]> (by_ip s); order := order s ++ [domain];
     domestic := domestic s |}.

Definition set_next (n : Z) (s : Inner) : Inner :=
  {| next := n; by_domain := by_domain s; by_ip := by_ip s; order := order s;
     domestic := domestic s |}.

Definition allocate (domain : str) (s : Inner) : Z * Inner :=
  let domain := to_ascii_lowercase domain in
  match by_domain s !! domain with
  | Some ip => (ip, s)
  | None =>
    let s := evict s in
    let offset := next s in
    let s := set_next (next_offset (next s)) s in
    let ip := Z.lor FAKE_IP_BASE offset in
    (ip, insert_mapping domain ip (drop_stale ip s))
  end.

Definition allocate_v6 (domain : str) (s : Inner) : Z * Inner :=
  let '(ip, s) := allocate domain s in
  (of_groups [8193; 2; 0; 18277; 0; 0; as_u16 (Z.shiftr ip 16); as_u16 ip], s).

Definition lookup (ip : Z) (s : Inner) : option str :=
  if negb (is_fake_ip ip) then None else by_ip s !! ip.

Definition record_domestic (ip : IpAddr) (domain : str) (s : Inner) : Inner :=
  {| next := next s; by_domain := by_domain s; by_ip := by_ip s; order := order s;
     domestic := lru_put ip (to_ascii_lowercase domain) (domestic s) |}.

Definition lookup_domestic (ip : IpAddr) (s : Inner) : option str := lru_peek ip (domestic s).

(** ** The store file *)
(** One line of the file; [None] is the [break] of a full pool. *)
Definition load_line (raw : str) (s : Inner) : option Inner :=
  let line := trim raw in
  if (len line =? 0) || starts_with (lit "#") line then Some s else
  match strip_prefix (lit "next=") line with
  | Some rest =>
    Some (match parse_uint 4294967295 rest with
          | Some n => set_next (Z.max n FIRST_HOST_OFFSET) s
          | None => s
          end)
  | None =>
    match split_whitespace line with
    | ip_s :: domain :: _ =>
      match parse_ipv4 ip_s with
      | None => Some s
      | Some ip =>
        if negb (is_fake_ip ip) then Some s else
        let domain := to_ascii_lowercase domain in
        if MAX_ENTRIES <=? Z.of_nat (size (by_domain s)) then None else
        if bool_decide (is_Some (by_domain s !! domain)) || bool_decide (is_Some (by_ip s !! ip))
        then Some s
        else Some (insert_mapping domain ip s)
      end
    | _ => Some s
    end
  end.

Fixpoint load_lines (ls : list str) (s : Inner) : Inner :=
  match ls with
  | [] => s
  | l :: ls => match load_line l s with Some s => load_lines ls s | None => s end
  end.

(** [fs::read_to_string]: the text, no such file, or another failure. *)
Inductive read_file := ReadOk (text : str) | ReadNotFound | ReadErr (e : string).

Definition load_from (file : read_file) (s : Inner) : outcome Inner :=
  match file with
  | ReadNotFound => Ok s
  | ReadErr e => Err e
  | ReadOk text => Ok (load_lines (lines text) s)
  end.

Definition load_or_new (file : read_file) : Inner :=
  match load_from file new with Ok s => s | _ => new end.

Definition snapshot_rows (s : Inner) : list (Z * str) :=
  omap (λ d, (λ ip, (ip, d)) <$> by_domain s !! d) (order s).

Definition show_row (row : Z * str) : str := show_ipv4 row.1 ++ [32] ++ row.2.

(** The text [persist_snapshot] hands to the atomic writer. *)
Definition persist_snapshot (s : Inner) : str :=
  lit "# sockrocket fake-ip store v1" ++ [newline]
  ++ lit "next=" ++ show_uint (next s) ++ [newline]
  ++ flat_map (λ row, show_row row ++ [newline]) (snapshot_rows s).
End pool.
Arguments Inner : clear implicits.

(** ** The coalescing writer *)
Module Writer.
Record State := {
  requested : Z;
  persisted : Z;
  attempted : Z;
  force : bool;
  stopping : bool;
  last_attempt : option Z;
  error : option string;
}.

Definition initial : State :=
  {| requested := 0; persisted := 0; attempted := 0; force := false; stopping := false;
     last_attempt := None; error := None |}.

Definition schedule (s : State) : State :=
  {| requested := requested s + 1; persisted := persisted s; attempted := attempted s;
     force := force s; stopping := stopping s; last_attempt := last_attempt s; error := error s |}.

(** The first half of [flush]: the request, and the generation waited for. *)
Definition flush_request (s : State) : Z * State :=
  (requested s + 1,
   {| requested := requested s + 1; persisted := persisted s; attempted := attempted s;
      force := true; stopping := stopping s; last_attempt := last_attempt s; error := error s |}).

(** The second half: [None] keeps waiting; an [unwrap] of no error panics. *)
Definition flush_poll (target : Z) (s : State) : option (outcome unit) :=
  if attempted s <? target then None
  else if target <=? persisted s then Some (Ok tt)
  else Some (match error s with Some e => Err e | None => Panic end).

Definition stop (s : State) : State :=
  {| requested := requested s; persisted := persisted s; attempted := attempted s;
     force := force s; stopping := true; last_attempt := last_attempt s; error := error s |}.

(** What the worker does at the top of its loop, at clock [now]. *)
Inductive decision := Exit | Wait | WaitTimeout (remaining : Z) | Write (generation : Z).

Definition remaining (interval now : Z) (s : State) : option Z :=
  at_ ← last_attempt s;
  if now - at_ <=? interval then Some (interval - (now - at_)) else None.

Definition decide_step (interval now : Z) (s : State) : decision :=
  if stopping s && (requested s <=? attempted s) then Exit
  else if requested s <=? persisted s then Wait
  else match (if negb (force s) && negb (stopping s) then remaining interval now s else None) with
       | Some r => WaitTimeout r
       | None => Write (requested s)
       end.

Definition begin_write (s : State) : State :=
  {| requested := requested s; persisted := persisted s; attempted := attempted s;
     force := false; stopping := stopping s; last_attempt := last_attempt s; error := error s |}.

Definition finish_write (generation now : Z) (result : outcome unit) (s : State) : State :=
  match result with
  | Ok _ => {| requested := requested s; persisted := generation; attempted := generation;
               force := force s; stopping := stopping s; last_attempt := Some now; error := None |}
  | Err e => {| requested := requested s; persisted := persisted s; attempted := generation;
                force := force s; stopping := stopping s; last_attempt := Some now;
                error := Some e |}
  | Panic | Diverge =>
    {| requested := requested s; persisted := persisted s; attempted := generation;
       force := force s; stopping := stopping s; last_attempt := Some now;
       error := Some "fake-IP snapshot writer panicked" |}
  end.
End Writer.
