(* ===== verification/FakeIpSpec.v ===== *)
(** * What the fake-IP pool guarantees *)
From Stdlib Require Import String.
From S2P Require Import Prelude Bytes Text Net Lru FakeIp.

#[local] Open Scope list_scope.
#[local] Open Scope Z_scope.

(** ** Ranges *)
Lemma land_mask ip : u32 ip → Z.land ip FAKE_IP_MASK = ip / 65536 * 65536.
Proof.
  intros Hip. unfold u32 in Hip.
  replace (ip / 65536 * 65536) with (Z.shiftl (Z.shiftr ip 16) 16)
    by (rewrite Z.shiftl_mul_pow2, Z.shiftr_div_pow2 by lia; done).
  apply Z.bits_inj'. intros n Hn. rewrite Z.land_spec, Z.shiftl_spec by lia.
  change FAKE_IP_MASK with (Z.shiftl (Z.ones 16) 16). rewrite Z.shiftl_spec by lia.
  destruct (Z.ltb_spec n 16).
  { rewrite !(Z.testbit_neg_r _ (n - 16)) by lia. by rewrite andb_false_r. }
  rewrite Z.shiftr_spec by lia. replace (n - 16 + 16) with n by lia.
  destruct (Z.ltb_spec (n - 16) 16).
  - rewrite Z.ones_spec_low by lia. by rewrite andb_true_r.
  - rewrite Z.ones_spec_high by lia. rewrite andb_false_r. symmetry.
    rewrite Z.testbit_eqb by lia. rewrite Z.div_small; [done|].
    split; [lia|]. apply Z.lt_le_trans with (2 ^ 32); [lia|]. apply Z.pow_le_mono_r; lia.
Qed.

Lemma is_fake_ip_spec ip : u32 ip → is_fake_ip ip = true ↔ FAKE_IP_BASE <= ip < FAKE_IP_BASE + 65536.
Proof.
  intros Hip. unfold is_fake_ip. rewrite land_mask by done. rewrite Z.eqb_eq.
  unfold FAKE_IP_BASE. lia.
Qed.

Lemma lor_base offset : 0 <= offset < 65536 → Z.lor FAKE_IP_BASE offset = FAKE_IP_BASE + offset.
Proof.
  intros Ho. rewrite <- Z.add_lor_land.
  assert (Z.land FAKE_IP_BASE offset = 0) as ->; [|lia].
  apply Z.bits_inj'. intros n Hn. rewrite Z.land_spec, Z.bits_0.
  change FAKE_IP_BASE with (Z.shiftl 50706 16). rewrite Z.shiftl_spec by lia.
  destruct (Z.ltb_spec n 16); [by rewrite Z.testbit_neg_r by lia|].
  rewrite (Z.testbit_eqb offset) by lia. rewrite Z.div_small; [by rewrite andb_false_r|].
  split; [lia|]. apply Z.lt_le_trans with (2 ^ 16); [lia|]. apply Z.pow_le_mono_r; lia.
Qed.

Section pool.
Context {C : Type} `{LRU : Lru IpAddr str C}.
Implicit Types s : Inner C.

(** ** The two maps are inverse *)
Definition paired (s : Inner C) : Prop :=
  ∀ d ip, by_domain s !! d = Some ip ↔ by_ip s !! ip = Some d.

Lemma paired_new : paired new.
Proof. intros d ip. simpl. by rewrite !lookup_empty. Qed.

Lemma paired_delete s d ip n o c :
  paired s → by_domain s !! d = Some ip →
  paired {| next := n; by_domain := delete d (by_domain s); by_ip := delete ip (by_ip s);
            order := o; domestic := c |}.
Proof.
  intros Hp Hd d' ip'. simpl. rewrite !lookup_delete_Some. rewrite (Hp d' ip').
  apply Hp in Hd as Hi. split.
  - intros [Hne H']. split; [|done]. intros ->. congruence.
  - intros [Hne H']. split; [|done]. intros ->. apply Hp in H'. congruence.
Qed.

Lemma paired_insert s d ip :
  paired s → by_domain s !! d = None → by_ip s !! ip = None → paired (insert_mapping d ip s).
Proof.
  intros Hp Hd Hi d' ip'. simpl. rewrite !lookup_insert_Some, (Hp d' ip').
  split; intros [[<- <-]|[Hne H']]; auto; right.
  - split; [|done]. intros <-. congruence.
  - split; [|done]. intros <-. apply Hp in H'. congruence.
Qed.

Lemma paired_evict s : paired s → paired (evict s).
Proof.
  intros Hp. unfold evict. case_match; [|done]. destruct (order s) as [|oldest rest]; [done|].
  destruct (by_domain s !! oldest) eqn:Hd; [by apply paired_delete|done].
Qed.

Lemma paired_drop_stale ip s : paired s → paired (drop_stale ip s).
Proof.
  intros Hp. unfold drop_stale. destruct (by_ip s !! ip) eqn:Hi; [|done].
  apply paired_delete; [done|]. by apply Hp.
Qed.

Lemma evict_none d s : by_domain s !! d = None → by_domain (evict s) !! d = None.
Proof.
  intros Hd. unfold evict. case_match; [|done]. destruct (order s) as [|o rest]; [done|].
  destruct (by_domain s !! o); [|done]. simpl. rewrite lookup_delete_None. by right.
Qed.

Lemma drop_stale_none d ip s :
  by_domain s !! d = None →
  by_domain (drop_stale ip s) !! d = None ∧ by_ip (drop_stale ip s) !! ip = None.
Proof.
  intros Hd. unfold drop_stale. destruct (by_ip s !! ip) eqn:Hi; [|done]. simpl.
  by rewrite lookup_delete_eq, lookup_delete_None; auto.
Qed.

Lemma paired_allocate d s : paired s → paired (allocate d s).2.
Proof.
  intros Hp. unfold allocate. destruct (by_domain s !! _) eqn:Hd; [done|]. simpl.
  apply evict_none in Hd.
  match goal with |- paired (insert_mapping ?d ?ip (drop_stale ?ip ?s)) =>
    destruct (drop_stale_none d ip s Hd) as [H1 H2] end.
  apply paired_insert; [|done..]. apply paired_drop_stale. by apply paired_evict in Hp.
Qed.

Lemma paired_load_line l s s' : paired s → load_line l s = Some s' → paired s'.
Proof.
  intros Hp. unfold load_line. case_match; [by intros [= <-]|].
  destruct (strip_prefix _ _); [intros [= <-]; by destruct (parse_uint _ _)|].
  destruct (split_whitespace _) as [|ip_s [|d ?]]; try by intros [= <-].
  destruct (parse_ipv4 ip_s) as [ip|]; [|by intros [= <-]].
  destruct (negb (is_fake_ip ip)); [by intros [= <-]|]. cbv zeta.
  case_match; [done|]. case_match eqn:Hor; intros [= <-]; [done|].
  apply orb_false_iff in Hor as [H1 H2]. apply bool_decide_eq_false in H1, H2.
  apply paired_insert; [done|by apply eq_None_not_Some..].
Qed.

(** Every state a pool started from [file] can be in. *)
Inductive reachable (file : read_file) : Inner C → Prop :=
  | reach_load : reachable file (load_or_new file)
  | reach_allocate d s : reachable file s → reachable file (allocate d s).2
  | reach_domestic ip d s : reachable file s → reachable file (record_domestic ip d s).

Lemma paired_load_lines ls s : paired s → paired (load_lines ls s).
Proof.
  revert s. induction ls as [|l ls IH]; intros s Hp; simpl; [done|].
  destruct (load_line l s) eqn:E; [|done]. apply IH. by eapply paired_load_line.
Qed.

Lemma reachable_paired file s : reachable file s → paired s.
Proof.
  induction 1 as [|d s _ IH|ip d s _ IH].
  - unfold load_or_new, load_from. destruct file; try apply paired_new.
    apply paired_load_lines, paired_new.
  - by apply paired_allocate.
  - done.
Qed.

(** ** The addresses stay in the fake range *)
Definition ranged (s : Inner C) : Prop :=
  2 <= next s < 65536
  ∧ ∀ d ip, by_domain s !! d = Some ip → u32 ip ∧ is_fake_ip ip = true.

Definition fake (ip : Z) : Prop := u32 ip ∧ is_fake_ip ip = true.

Lemma lor_fake offset : 0 <= offset < 65536 → fake (Z.lor FAKE_IP_BASE offset).
Proof.
  intros Ho. rewrite lor_base by done.
  assert (u32 (FAKE_IP_BASE + offset)) by (unfold u32, FAKE_IP_BASE; lia).
  split; [done|]. apply is_fake_ip_spec; [done|lia].
Qed.

Definition all_fake (s : Inner C) : Prop := map_Forall (λ _, fake) (by_domain s).

Lemma all_fake_evict s : all_fake s → all_fake (evict s) ∧ next (evict s) = next s.
Proof.
  intros Hf. unfold evict. case_match; [|done]. destruct (order s) as [|o rest]; [done|].
  destruct (by_domain s !! o); [|done]. split; [|done]. by apply map_Forall_delete.
Qed.

Lemma all_fake_drop_stale ip s :
  all_fake s → all_fake (drop_stale ip s) ∧ next (drop_stale ip s) = next s.
Proof.
  intros Hf. unfold drop_stale. destruct (by_ip s !! ip); [|done].
  split; [|done]. by apply map_Forall_delete.
Qed.

Lemma ranged_iff s : ranged s ↔ 2 <= next s < 65536 ∧ all_fake s.
Proof. done. Qed.

Lemma next_offset_ok n : 2 <= n → 2 <= next_offset n < 65536.
Proof. intros Hn. unfold next_offset, MAX_ENTRIES, FIRST_HOST_OFFSET. case_match eqn:E; lia. Qed.

Lemma ranged_allocate d s :
  ranged s → fake (allocate d s).1 ∧ ranged (allocate d s).2.
Proof.
  rewrite !ranged_iff. intros [Hn Hf]. unfold allocate. destruct (by_domain s !! _) eqn:Hd.
  { split; [by eapply Hf|done]. }
  destruct (all_fake_evict s Hf) as [Hfe Hne].
  cbn [fst snd insert_mapping next by_domain].
  match goal with |- context [drop_stale ?ip ?t] =>
    destruct (all_fake_drop_stale ip t) as [Hfd Hnd]; [done|] end.
  assert (fake (Z.lor FAKE_IP_BASE (next (evict s)))) by (apply lor_fake; lia).
  split; [done|]. rewrite Hnd. cbn [set_next next]. split; [apply next_offset_ok; lia|].
  by apply map_Forall_insert_2.
Qed.

Lemma load_line_fake l s s' :
  2 <= next s → all_fake s → load_line l s = Some s' → 2 <= next s' ∧ all_fake s'.
Proof.
  intros Hn Hf. unfold load_line. case_match; [by intros [= <-]|].
  destruct (strip_prefix _ _); [intros [= <-]; destruct (parse_uint _ _); simpl|].
  { split; [unfold FIRST_HOST_OFFSET; lia|done]. } { done. }
  destruct (split_whitespace _) as [|ip_s [|d ?]]; try by intros [= <-].
  destruct (parse_ipv4 ip_s) as [ip|] eqn:Hp; [|by intros [= <-]]. apply parse_ipv4_u32 in Hp.
  destruct (is_fake_ip ip) eqn:Hi; [|by intros [= <-]]. cbn [negb]. cbv zeta.
  case_match; [done|]. case_match; intros [= <-]; [done|]. split; [done|].
  by apply map_Forall_insert_2.
Qed.

Lemma load_or_new_fake file :
  let s := load_or_new file : Inner C in 2 <= next s ∧ all_fake s.
Proof.
  assert (2 <= next (new : Inner C) ∧ all_fake (new : Inner C)) as [Hn Hf]
    by (split; [done|apply map_Forall_empty]).
  unfold load_or_new, load_from. destruct file as [text| |]; [|done..].
  revert Hn Hf. generalize (new : Inner C). induction (lines text) as [|l ls IH]; intros s Hn Hf; [done|].
  simpl. destruct (load_line l s) eqn:E; [|done]. apply IH; by eapply load_line_fake.
Qed.

Lemma reachable_ranged file s :
  next (load_or_new file : Inner C) < 65536 → reachable file s → ranged s.
Proof.
  intros Hfile. induction 1 as [|d s _ IH|ip d s _ IH].
  - destruct (load_or_new_fake file). apply ranged_iff. split; [lia|done].
  - by apply ranged_allocate.
  - done.
Qed.

Lemma allocate_again d s ip s' :
  allocate d s = (ip, s') → by_domain s' !! to_ascii_lowercase d = Some ip.
Proof.
  unfold allocate. destruct (by_domain s !! _) eqn:Hd; intros [= <- <-]; [done|].
  simpl. by rewrite lookup_insert_eq.
Qed.

Lemma allocate_hit d s ip :
  by_domain s !! to_ascii_lowercase d = Some ip → allocate d s = (ip, s).
Proof. intros Hd. unfold allocate. by rewrite Hd. Qed.

(** The IPv6 alias carries the IPv4 address in its last four octets. *)
Lemma fake_ipv4_alias ip :
  fake ip →
  fake_ipv4 (V6 (of_groups [8193; 2; 0; 18277; 0; 0; as_u16 (Z.shiftr ip 16); as_u16 ip])) = Some ip.
Proof.
  intros [Hip Hf]. unfold u32 in Hip.
  set (K := of_groups [8193; 2; 0; 18277; 0; 0]).
  assert (of_groups [8193; 2; 0; 18277; 0; 0; as_u16 (Z.shiftr ip 16); as_u16 ip]
          = K * 2 ^ 32 + ip) as ->.
  { change (of_groups [8193; 2; 0; 18277; 0; 0; as_u16 (Z.shiftr ip 16); as_u16 ip])
      with ((K * 65536 + as_u16 (Z.shiftr ip 16)) * 65536 + as_u16 ip).
    rewrite Z.shiftr_div_pow2 by lia. unfold as_u16. change (2 ^ 16) with 65536. lia. }
  assert (∀ i, 0 <= i <= 5 → segment (K * 2 ^ 32 + ip) i = segment (K * 2 ^ 32) i) as Hseg.
  { intros i Hi. unfold segment. f_equal. rewrite !Z.shiftr_div_pow2 by lia.
    replace (16 * (7 - i)) with (32 + 16 * (5 - i)) by lia.
    rewrite Z.pow_add_r, <- !Z.div_div by lia.
    rewrite Z.div_add_l, Z.div_mul by lia. by rewrite (Z.div_small ip), Z.add_0_r by lia. }
  unfold fake_ipv4. cbn [map]. rewrite !Hseg by lia.
  rewrite bool_decide_eq_true_2 by done.
  assert (range (be_bytes 16 (K * 2 ^ 32 + ip)) 12 16 = be_bytes 4 ip) as ->.
  { rewrite (be_bytes_split 12 4).
    rewrite <- (app_nil_r (be_bytes 4 (K * 2 ^ 32 + ip))), range_app;
      [|by rewrite len_be_bytes..].
    assert (∀ n z, be_bytes n (z mod 256 ^ Z.of_nat n) = be_bytes n z) as Hmod.
    { clear. induction n as [|n IH]; intros z; [done|]. cbn [be_bytes].
      rewrite Nat2Z.inj_succ, Z.pow_succ_r by lia. rewrite <- (IH (z / 256)).
      rewrite Z.rem_mul_r by lia. f_equal; [|f_equal; lia]. f_equal. lia. }
    rewrite <- Hmod. f_equal. change (256 ^ Z.of_nat 4) with (2 ^ 32).
    rewrite Z.add_comm, Z.mod_add by lia. by apply Z.mod_small. }
  rewrite of_be_small by (change (256 ^ Z.of_nat 4) with (2 ^ 32); lia). by rewrite Hf.
Qed.

(** ** A pool that started empty: a sliding window of offsets *)
Definition slot (j : Z) : Z := FAKE_IP_BASE + (2 + j mod 8193).

Record window (s : Inner C) (j k : Z) : Prop := {
  win_next : next s = 2 + j mod 8193;
  win_k : k <= j ∧ 0 <= k <= 8192;
  win_len : len (order s) = k;
  win_nodup : NoDup (order s);
  win_map d ip : by_domain s !! d = Some ip ↔
                 ∃ i, order s !! i = Some d ∧ ip = slot (j - k + Z.of_nat i);
}.

Lemma window_new : window new 0 0.
Proof.
  split; simpl; try done; try constructor; try lia.
  - by rewrite lookup_empty.
  - intros (i & Hi & _). by rewrite lookup_nil in Hi.
Qed.

Lemma window_dom s j k d : window s j k → is_Some (by_domain s !! d) ↔ d ∈ order s.
Proof.
  intros W. split.
  - intros [ip Hd]. apply (win_map _ _ _ W) in Hd as (i & Hi & _). by eapply list_elem_of_lookup_2.
  - intros [i Hi]%list_elem_of_lookup. eexists. apply (win_map _ _ _ W). by exists i.
Qed.

Lemma window_size s j k : window s j k → Z.of_nat (size (by_domain s)) = k.
Proof.
  intros W. rewrite <- size_dom, <- (win_len _ _ _ W). unfold len.
  rewrite <- (size_list_to_set (C:=gset str) (order s)).
  - do 2 f_equal. apply set_eq. intros d. rewrite elem_of_dom, elem_of_list_to_set.
    by apply (window_dom _ j k).
  - apply W.
Qed.

Lemma window_evict_none s j k : window s j k → k < 8192 → evict s = s.
Proof.
  intros W Hk. unfold evict. rewrite (window_size _ _ _ W). unfold MAX_ENTRIES.
  by rewrite (proj2 (Z.leb_gt 8192 k)) by lia.
Qed.

Lemma window_evict s j :
  window s j 8192 →
  ∃ o rest, order s = o :: rest ∧ by_domain (evict s) = delete o (by_domain s)
            ∧ order (evict s) = rest ∧ domestic (evict s) = domestic s
            ∧ window (evict s) j 8191.
Proof.
  intros W. pose proof (win_len _ _ _ W) as Hlen. destruct (order s) as [|o rest] eqn:Ho; [done|].
  exists o, rest.
  assert (by_domain s !! o = Some (slot (j - 8192 + Z.of_nat 0))) as Hd.
  { apply (win_map _ _ _ W). exists 0%nat. by rewrite Ho. }
  assert (evict s = {| next := next s; by_domain := delete o (by_domain s);
    by_ip := delete (slot (j - 8192 + Z.of_nat 0)) (by_ip s);
    order := rest; domestic := domestic s |}) as ->.
  { unfold evict. rewrite (window_size _ _ _ W), Ho. by rewrite Hd. }
  repeat (split; [done|]). pose proof (win_nodup _ _ _ W) as Hnd. rewrite Ho in Hnd.
  apply NoDup_cons in Hnd as [Hno Hnd]. rewrite len_cons in Hlen.
  split; simpl; [apply W|split; [destruct (win_k _ _ _ W); lia|lia]|lia|done|].
  intros d ip. rewrite lookup_delete_Some, (win_map _ _ _ W), Ho. split.
  - intros (Hne & [|i] & Hi & ->); [naive_solver|]. exists i. split; [done|]. f_equal. lia.
  - intros (i & Hi & ->). split.
    + intros ->. apply Hno. by eapply list_elem_of_lookup_2.
    + exists (S i). split; [done|]. f_equal. lia.
Qed.

Lemma slot_fresh s j k d :
  window s j k → paired s → by_ip s !! slot j = Some d → False.
Proof.
  intros W Hp Hi. apply Hp, (win_map _ _ _ W) in Hi as (i & Hi & E).
  apply lookup_lt_Some in Hi. pose proof (win_len _ _ _ W) as Hl. unfold len in Hl.
  destruct (win_k _ _ _ W). unfold slot in E. lia.
Qed.

(** The step of a domain that has no address: the window slides by one. *)
Lemma window_push s j k d :
  window s j k → paired s → k < 8192 → by_domain s !! d = None →
  let ip := Z.lor FAKE_IP_BASE (next s) in
  let s' := insert_mapping d ip (drop_stale ip (set_next (next_offset (next s)) s)) in
  ip = slot j ∧ by_ip s !! ip = None ∧ order s' = order s ++ [d]
  ∧ by_domain s' = <[d := ip]> (by_domain s) ∧ window s' (j + 1) (k + 1).
Proof.
  intros W Hp Hk Hd ip s'. pose proof (win_next _ _ _ W) as Hn. destruct (win_k _ _ _ W) as [Hj _].
  assert (ip = slot j) as Hip by (unfold ip, slot; rewrite Hn; apply lor_base; lia).
  assert (by_ip s !! ip = None) as Hf.
  { destruct (by_ip s !! ip) eqn:E; [|done]. rewrite Hip in E. by destruct (slot_fresh _ _ _ _ W Hp E). }
  assert (drop_stale ip (set_next (next_offset (next s)) s) = set_next (next_offset (next s)) s) as Hds
    by (unfold drop_stale; simpl; by rewrite Hf).
  subst s'. rewrite Hds. repeat (split; [done|]).
  assert (d ∉ order s) as Hno.
  { intros Hin. apply (window_dom _ _ _ _ W) in Hin as [? Hin]. congruence. }
  split; simpl.
  - rewrite Hn. unfold next_offset, MAX_ENTRIES, FIRST_HOST_OFFSET. case_match; lia.
  - destruct (win_k _ _ _ W). lia.
  - rewrite len_app, (win_len _ _ _ W). done.
  - apply NoDup_app. split; [apply W|]. split; [|apply NoDup_singleton].
    intros x Hx ->%list_elem_of_singleton. done.
  - intros d' ip'. rewrite lookup_insert_Some, (win_map _ _ _ W). split.
    + intros [[<- <-]|(Hne & i & Hi & ->)].
      * exists (length (order s)). pose proof (win_len _ _ _ W) as Hl. unfold len in Hl.
        split; [by apply list_lookup_middle|rewrite Hip; f_equal; lia].
      * exists i. split; [by apply lookup_app_l_Some|]. f_equal. lia.
    + intros (i & Hi & ->). apply lookup_app_Some in Hi as [Hi|[Hge Hi]].
      * right. split.
        { intros ->. apply Hno. by eapply list_elem_of_lookup_2. }
        exists i. split; [done|]. f_equal. lia.
      * left. pose proof (win_len _ _ _ W) as Hl. unfold len in Hl.
        destruct (i - length (order s))%nat as [|m] eqn:Em; [|by destruct m]. injection Hi as ->.
        split; [done|]. rewrite Hip. f_equal. lia.
Qed.

Inductive fresh : Inner C → Prop :=
  | fresh_new : fresh new
  | fresh_allocate d s : fresh s → fresh (allocate d s).2
  | fresh_domestic ip d s : fresh s → fresh (record_domestic ip d s).

Lemma fresh_paired s : fresh s → paired s.
Proof. induction 1; [apply paired_new|by apply paired_allocate|done]. Qed.

Lemma allocate_window s j k d0 ip s' :
  window s j k → paired s → allocate d0 s = (ip, s') →
  let d := to_ascii_lowercase d0 in
  (∃ j' k', window s' j' k') ∧ ∀ (Hmiss : by_domain s !! d = None),
  FAKE_IP_BASE + 2 <= ip <= FAKE_IP_BASE + 8194 ∧ by_ip s !! ip = None
  ∧ if decide (k < 8192)
    then order s' = order s ++ [d] ∧ by_domain s' = <[d := ip]> (by_domain s)
    else ∃ oldest rest, order s = oldest :: rest ∧ order s' = rest ++ [d]
                        ∧ by_domain s' = <[d := ip]> (delete oldest (by_domain s)).
Proof.
  intros W Hp. cbv zeta. unfold allocate. set (dl := to_ascii_lowercase d0).
  destruct (by_domain s !! dl) as [ip0|] eqn:Hd; intros [= <- <-];
    [split; [by exists j, k|congruence]|].
  assert (∀ j, FAKE_IP_BASE + 2 <= slot j <= FAKE_IP_BASE + 8194) as Hslot
    by (intros; unfold slot; lia).
  destruct (decide (k < 8192)) as [Hk|Hk].
  - rewrite (window_evict_none _ _ _ W Hk).
    destruct (window_push s j k dl W Hp Hk Hd) as (Hip & Hf & Ho & Hm & W').
    split; [by eexists _, _|]. intros _. rewrite Hip at 1 2. by auto.
  - destruct (win_k _ _ _ W). replace k with 8192 in * by lia.
    destruct (window_evict _ _ W) as (o & rest & Ho & Hm & Ho' & _ & We).
    pose proof (paired_evict s Hp) as Hpe. pose proof (evict_none dl s Hd) as Hde.
    destruct (window_push (evict s) j 8191 dl We Hpe) as (Hip & Hf & Ho2 & Hm2 & W'); [lia|done|].
    split; [by eexists _, _|]. intros _. rewrite Hip at 1 2. split; [done|]. split.
    + rewrite Hip. destruct (by_ip s !! slot j) eqn:E; [|done].
      exfalso. apply Hp in E. apply (win_map _ _ _ W) in E as (i & Hi & E).
      apply lookup_lt_Some in Hi. pose proof (win_len _ _ _ W) as Hl. unfold len in Hl.
      unfold slot in E. lia.
    + exists o, rest. rewrite Ho2, Ho', Hm2, Hm. done.
Qed.

Lemma fresh_window s : fresh s → ∃ j k, window s j k.
Proof.
  induction 1 as [|d s Hf (j & k & W)|ip d s Hf (j & k & W)].
  - eexists _, _. apply window_new.
  - destruct (allocate d s) as [ip s'] eqn:E.
    by destruct (allocate_window _ _ _ _ _ _ W (fresh_paired s Hf) E).
  - exists j, k. destruct W. by split.
Qed.

(** ** The store file *)
Definition storable (d : str) : Prop := d ≠ [] ∧ solid d ∧ to_ascii_lowercase d = d.

Record persistable (s : Inner C) : Prop := {
  pers_paired : paired s;
  pers_nodup : NoDup (order s);
  pers_dom d : is_Some (by_domain s !! d) ↔ d ∈ order s;
  pers_size : Z.of_nat (size (by_domain s)) <= MAX_ENTRIES;
  pers_next : 2 <= next s < 4294967296;
  pers_ip d ip : by_domain s !! d = Some ip → u32 ip ∧ is_fake_ip ip = true;
  pers_storable : Forall storable (order s);
}.

Lemma solid_no_newline l : solid l → newline ∉ l ∧ last l ≠ Some 13.
Proof.
  intros Hl. unfold solid in Hl. rewrite Forall_forall in Hl. split.
  - intros Hin. by specialize (Hl _ Hin).
  - intros Hin%last_Some_elem_of. by specialize (Hl _ Hin).
Qed.

Lemma starts_with_head c p l : head l ≠ Some c → starts_with (c :: p) l = false.
Proof.
  destruct l as [|b l]; [done|]. simpl. intros Hne.
  by rewrite (proj2 (Z.eqb_neq c b)) by congruence.
Qed.

(** The first character of a printed address is a digit or a dot. *)
Lemma show_ipv4_head ip :
  u32 ip → ∃ c l, show_ipv4 ip = c :: l ∧ between 46 57 c = true.
Proof.
  intros Hip. pose proof (be_bytes_u8 4 ip) as Hb. unfold show_ipv4.
  destruct (be_bytes 4 ip) as [|x [|y l]] eqn:E;
    try (apply (f_equal length) in E; by rewrite length_be_bytes in E).
  apply Forall_cons in Hb as [Hx _]. unfold u8 in Hx.
  destruct (show_uint_digits x) as [Hd Hne]; [lia|].
  change (map show_uint (x :: y :: l)) with (show_uint x :: show_uint y :: map show_uint l).
  cbn [join]. destruct (show_uint x) as [|c t]; [done|]. eexists _, _. split; [done|].
  apply Forall_cons in Hd as [Hd _]. unfold is_digit, between in *. lia.
Qed.

Lemma load_row ip d s :
  u32 ip → is_fake_ip ip = true → storable d →
  Z.of_nat (size (by_domain s)) < MAX_ENTRIES → by_domain s !! d = None → by_ip s !! ip = None →
  load_line (show_row (ip, d)) s = Some (insert_mapping d ip s).
Proof.
  intros Hip Hf (Hne & Hsol & Hlow) Hsize Hd Hi. unfold load_line, show_row. cbn [fst snd].
  destruct (show_ipv4_solid ip Hip) as [Hs4 _].
  destruct (show_ipv4_head ip Hip) as (c & l & Ec & Hc).
  destruct (exists_last Hne) as (d' & z & Ed).
  assert (trim (show_ipv4 ip ++ [32] ++ d) = show_ipv4 ip ++ [32] ++ d) as ->.
  { apply (trim_ends _ c z).
    - by rewrite Ec.
    - rewrite Ed, !app_assoc. apply last_snoc.
    - unfold is_whitespace, between in *. lia.
    - rewrite Ed in Hsol. apply Forall_app in Hsol as [_ Hz]. by apply Forall_cons in Hz as [? _]. }
  cbv zeta.
  assert (len (show_ipv4 ip ++ [32] ++ d) =? 0 = false) as ->.
  { apply Z.eqb_neq. rewrite len_app. change [32] with ([32] : list Z). rewrite len_app.
    pose proof (len_nonneg (show_ipv4 ip)). pose proof (len_nonneg d). change (len [32]) with 1. lia. }
  assert (∀ p q, between 46 57 p = false → starts_with (p :: q) (show_ipv4 ip ++ [32] ++ d) = false) as Hsw.
  { intros p q Hp. apply starts_with_head. rewrite Ec. simpl. congruence. }
  change (lit "#") with [35]. rewrite Hsw by done. cbn [orb].
  unfold strip_prefix. change (lit "next=") with [110; 101; 120; 116; 61].
  rewrite Hsw by done. cbn [app].
  rewrite split_whitespace_pair; [|done|done|by rewrite Ec|done].
  rewrite parse_show_ipv4 by done. rewrite Hf. cbn [negb]. rewrite Hlow.
  rewrite (proj2 (Z.leb_gt _ _)) by lia. by rewrite Hd, Hi.
Qed.

Lemma load_rows s ds t :
  persistable s → order t ++ ds = order s →
  (∀ d ip, by_domain t !! d = Some ip ↔ d ∈ order t ∧ by_domain s !! d = Some ip) →
  (∀ d ip, by_ip t !! ip = Some d ↔ d ∈ order t ∧ by_ip s !! ip = Some d) →
  let rows : list (Z * str) := omap (λ d, (λ ip, (ip, d)) <$> by_domain s !! d) ds in
  let r : Inner C := load_lines (map show_row rows) t in
  by_domain r = by_domain s ∧ by_ip r = by_ip s ∧ order r = order s
  ∧ next r = next t ∧ FakeIp.domestic r = FakeIp.domestic t.
Proof.
  intros P. revert t. induction ds as [|d ds IH]; intros t Ho Hd Hi rows r.
  - rewrite app_nil_r in Ho. subst r rows. simpl. split; [|split; [|done]].
    + apply map_eq. intros d. apply option_eq. intros ip. rewrite Hd, Ho, <- (pers_dom _ P d).
      naive_solver.
    + apply map_eq. intros ip. apply option_eq. intros d. rewrite Hi, Ho, <- (pers_dom _ P d).
      split; [by intros [_ ?]|]. intros H. split; [|done]. exists ip. by apply (pers_paired _ P).
  - assert (d ∈ order s) as Hin by (rewrite <- Ho; apply elem_of_app; right; by left).
    destruct (proj2 (pers_dom _ P d) Hin) as [ip Hdip].
    assert (d ∉ order t) as Hnot.
    { pose proof (pers_nodup _ P) as Hnd. rewrite <- Ho in Hnd.
      apply NoDup_app in Hnd as (_ & Hx & _). intros Hc. apply (Hx d Hc). by left. }
    assert (by_domain t !! d = None) as Htd by (apply eq_None_not_Some; intros [? H%Hd]; naive_solver).
    assert (by_ip t !! ip = None) as Hti.
    { apply eq_None_not_Some. intros [d' [Hc H]%Hi]. apply (pers_paired _ P) in Hdip.
      naive_solver. }
    destruct (pers_ip _ P _ _ Hdip) as [Hu Hf].
    assert (Z.of_nat (size (by_domain t)) < MAX_ENTRIES) as Hsz.
    { assert (<[d := ip]> (by_domain t) ⊆ by_domain s) as Hsub.
      { apply map_subseteq_spec. intros d' ip' [[<- <-]|[_ H]]%lookup_insert_Some; [done|].
        by apply Hd in H as [_ ?]. }
      apply map_subseteq_size in Hsub. rewrite map_size_insert_None in Hsub by done.
      pose proof (pers_size _ P). lia. }
    subst r rows. cbn [omap list_omap]. rewrite Hdip. cbn [fmap option_fmap option_map map load_lines].
    assert (storable d) as Hst by (by eapply Forall_forall in Hin; [|apply P]).
    rewrite load_row by done.
    apply (IH (insert_mapping d ip t)).
    + cbn [insert_mapping order]. by rewrite <- app_assoc.
    + intros d' ip'. cbn [insert_mapping order by_domain].
      rewrite lookup_insert_Some, Hd, elem_of_app, list_elem_of_singleton.
      split; [naive_solver|]. intros [[Hx| ->] Hy].
      * right. split; [|done]. by intros ->.
      * left. split; [done|congruence].
    + intros d' ip'. cbn [insert_mapping order by_ip].
      rewrite lookup_insert_Some, Hi, elem_of_app, list_elem_of_singleton.
      apply (pers_paired _ P) in Hdip as Hipd. split; [naive_solver|]. intros [[Hx| ->] Hy].
      * right. split; [|done]. intros ->. congruence.
      * left. split; [|done]. apply (pers_paired _ P) in Hy. congruence.
Qed.

Lemma persist_lines s :
  persistable s →
  lines (persist_snapshot s)
  = lit "# sockrocket fake-ip store v1" :: (lit "next=" ++ show_uint (next s))
    :: map show_row (snapshot_rows s).
Proof.
  intros P. pose proof (pers_next _ P) as Hn.
  set (ls := _ :: _ :: _).
  assert (persist_snapshot s = flat_map (λ l, l ++ [newline]) ls) as ->.
  { unfold persist_snapshot, ls. cbn [flat_map]. rewrite <- !app_assoc. do 5 f_equal.
    by rewrite flat_map_concat_map, (flat_map_concat_map _ (map _ _)), map_map. }
  apply lines_unlines. destruct (show_uint_digits (next s)) as [Hdig Hne]; [lia|].
  assert (∀ l, Forall (λ c, is_digit c = true) l → solid l) as Hds.
  { intros l Hl. eapply Forall_impl; [done|]. intros c Hc.
    unfold is_digit, is_whitespace, between in *. lia. }
  unfold ls. apply Forall_cons. split; [split; [decided|by vm_compute]|].
  apply Forall_cons. split.
  - split.
    + apply solid_no_newline. apply Forall_app. split; [decided|by apply Hds].
    + destruct (exists_last Hne) as (l & z & E). rewrite E in Hdig |- *. rewrite app_assoc, last_snoc.
      apply Forall_app in Hdig as [_ Hz]. apply Forall_cons in Hz as [Hz _]. by intros [= ->].
  - apply Forall_map, Forall_forall. intros [ip d] Hin.
    unfold snapshot_rows in Hin. apply list_elem_of_omap in Hin as (d' & Hd' & Hrow).
    destruct (by_domain s !! d') as [ip'|] eqn:Hip; [|done]. injection Hrow as -> ->.
    destruct (pers_ip _ P _ _ Hip) as [Hu _]. destruct (show_ipv4_solid ip Hu) as [_ Hnl].
    pose proof (pers_storable _ P) as Hst. rewrite Forall_forall in Hst.
    destruct (Hst _ Hd') as (Hdne & Hsol & _). destruct (solid_no_newline d Hsol) as [Hnd Hld].
    unfold show_row. cbn [fst snd]. split.
    + rewrite !elem_of_app, list_elem_of_singleton. intros [?|[?|?]]; done.
    + destruct (exists_last Hdne) as (l & z & ->). rewrite !app_assoc, last_snoc.
      by rewrite last_snoc in Hld.
Qed.

Lemma load_persist s :
  persistable s →
  let r := load_or_new (ReadOk (persist_snapshot s)) : Inner C in
  next r = next s ∧ by_domain r = by_domain s ∧ by_ip r = by_ip s ∧ order r = order s.
Proof.
  intros P. unfold load_or_new, load_from. rewrite (persist_lines s P).
  pose proof (pers_next _ P) as Hn. cbn [load_lines].
  change (load_line (lit "# sockrocket fake-ip store v1") new) with (Some (new : Inner C)).
  cbn match.
  assert (load_line (lit "next=" ++ show_uint (next s)) new = Some (set_next (next s) (new : Inner C))) as ->.
  { destruct (show_uint_digits (next s)) as [Hdig Hne]; [lia|].
    destruct (exists_last Hne) as (l & z & E). unfold load_line.
    assert (trim (lit "next=" ++ show_uint (next s)) = lit "next=" ++ show_uint (next s)) as ->.
    { apply (trim_ends _ 110 z); [done|rewrite E, app_assoc; apply last_snoc|done|].
      rewrite E in Hdig. apply Forall_app in Hdig as [_ Hz]. apply Forall_cons in Hz as [Hz _].
      unfold is_digit, is_whitespace, between in *. lia. }
    cbv zeta. rewrite strip_prefix_app, parse_show_uint by lia.
    rewrite (proj2 (Z.eqb_neq _ _)) by (rewrite len_app; pose proof (len_nonneg (show_uint (next s))); change (len (lit "next=")) with 5; lia).
    change (starts_with (lit "#") _) with false. cbn [orb]. do 2 f_equal. unfold FIRST_HOST_OFFSET. lia. }
  destruct (load_rows s (order s) (set_next (next s) new) P) as (H1 & H2 & H3 & H4 & _); [done| | |].
  - intros d ip. simpl. rewrite lookup_empty. split; [done|]. by intros [Hin%elem_of_nil _].
  - intros d ip. simpl. rewrite lookup_empty. split; [done|]. by intros [Hin%elem_of_nil _].
  - split; [exact H4|by split].
Qed.

Lemma fresh_persistable s :
  fresh s → Forall storable (order s) → persistable s.
Proof.
  intros Hf Hst. destruct (fresh_window s Hf) as (j & k & W). pose proof (win_k _ _ _ W) as [_ Hk].
  assert (reachable ReadNotFound s) as Hr.
  { clear -Hf. induction Hf; [apply (reach_load ReadNotFound)|by constructor..]. }
  destruct (reachable_ranged ReadNotFound s ltac:(by simpl) Hr) as [Hn Hi].
  split; [by apply fresh_paired|apply W|intros; by apply (window_dom _ j k)| |lia|done|done].
  rewrite (window_size _ _ _ W). unfold MAX_ENTRIES. lia.
Qed.

(** C2. The two maps of the pool are always inverse: whatever the store file
    held and whatever calls followed, a domain maps to an address exactly when
    the address maps back to it. *)
Theorem fakeip_bijection file s d ip :
  reachable file s → by_domain s !! d = Some ip ↔ by_ip s !! ip = Some d.
Proof. intros Hr. by apply (reachable_paired file). Qed.

(** C1. [allocate] keeps its promise: if the loaded counter is inside the /16,
    then in every reachable state the address returned lies in 198.18.0.0/16,
    [lookup] gives the lower-cased domain back, asking again (in any letter
    case) returns the same address and changes nothing, and the IPv6 alias of
    [allocate_v6] names the same address. *)
Theorem fakeip_allocate_spec file s d d' ip s' :
  next (load_or_new file : Inner C) < 65536 → reachable file s →
  allocate d s = (ip, s') → to_ascii_lowercase d' = to_ascii_lowercase d →
  is_fake_ip ip = true ∧ lookup ip s' = Some (to_ascii_lowercase d)
  ∧ allocate d' s' = (ip, s')
  ∧ fake_ipv4 (V4 ip) = Some ip ∧ fake_ipv4 (V6 (allocate_v6 d s).1) = Some ip.
Proof.
  intros Hfile Hr Ha Hd. pose proof (reachable_ranged file s Hfile Hr) as Hrg.
  destruct (ranged_allocate d s Hrg) as [Hfake _]. rewrite Ha in Hfake. cbn [fst] in Hfake.
  assert (paired s') as Hp.
  { replace s' with (allocate d s).2 by (by rewrite Ha). apply paired_allocate.
    by apply (reachable_paired file). }
  pose proof (allocate_again _ _ _ _ Ha) as Hm. destruct Hfake as [Hu Hf].
  split; [done|]. split; [unfold lookup; rewrite Hf; by apply Hp|].
  split; [apply allocate_hit; by rewrite Hd|]. split; [unfold fake_ipv4; by rewrite Hf|].
  unfold allocate_v6. rewrite Ha. by apply fake_ipv4_alias.
Qed.

(** A pool that started empty is a first-in first-out cache of at most 8192
    domains: an address is never in use when it is handed out, it is between
    198.18.0.2 and 198.18.32.2, a new domain displaces nothing until the pool
    is full, and then it displaces exactly the oldest one. *)
Theorem fakeip_fifo s d ip s' :
  fresh s → allocate d s = (ip, s') →
  let d := to_ascii_lowercase d in
  Z.of_nat (size (by_domain s')) <= 8192 ∧ NoDup (order s')
  ∧ (∀ x, is_Some (by_domain s' !! x) ↔ x ∈ order s')
  ∧ (is_Some (by_domain s !! d) → s' = s)
  ∧ (by_domain s !! d = None →
     FAKE_IP_BASE + 2 <= ip <= FAKE_IP_BASE + 8194 ∧ by_ip s !! ip = None
     ∧ if decide (Z.of_nat (size (by_domain s)) < 8192)
       then order s' = order s ++ [d] ∧ by_domain s' = <[d := ip]> (by_domain s)
       else ∃ oldest rest, order s = oldest :: rest ∧ order s' = rest ++ [d]
                           ∧ by_domain s' = <[d := ip]> (delete oldest (by_domain s))).
Proof.
  intros Hf Ha dl. destruct (fresh_window s Hf) as (j & k & W).
  destruct (allocate_window _ _ _ _ _ _ W (fresh_paired s Hf) Ha) as [(j' & k' & W') Hmiss].
  rewrite (window_size _ _ _ W), (window_size _ _ _ W'). pose proof (win_k _ _ _ W').
  split; [lia|]. split; [apply W'|]. split; [intros; by apply (window_dom _ j' k')|].
  split; [|done]. intros [ip0 Hd]. rewrite (allocate_hit d s ip0 Hd) in Ha. congruence.
Qed.

(** A restart keeps every mapping: reading back the file a pool wrote
    restores the counter, both maps and the eviction order, provided the
    domains are non-empty, lower-case and free of white space. *)
Theorem fakeip_persist_roundtrip s :
  fresh s → Forall storable (order s) →
  let r := load_or_new (ReadOk (persist_snapshot s)) : Inner C in
  next r = next s ∧ by_domain r = by_domain s ∧ by_ip r = by_ip s ∧ order r = order s.
Proof. intros Hf Hst. by apply load_persist, fresh_persistable. Qed.
End pool.

(** ** Concrete pools *)
Definition Cache_example : Type := cache IpAddr str.
Definition pool_example : Inner Cache_example :=
  (allocate (lit "Example.com") (allocate (lit "www.rust-lang.org") new).2).2.

Lemma pool_example_fresh : fresh pool_example.
Proof. apply fresh_allocate, fresh_allocate, fresh_new. Qed.

Lemma fakeip_bijection_witness :
  by_domain pool_example !! lit "example.com" = Some (FAKE_IP_BASE + 3)
  ↔ by_ip pool_example !! (FAKE_IP_BASE + 3) = Some (lit "example.com").
Proof.
  apply (fakeip_bijection ReadNotFound).
  apply reach_allocate, reach_allocate, (reach_load ReadNotFound).
Defined.

Lemma fakeip_allocate_spec_witness :
  lookup (allocate (lit "A.io") pool_example).1 (allocate (lit "A.io") pool_example).2
  = Some (lit "a.io").
Proof.
  apply (fakeip_allocate_spec ReadNotFound pool_example (lit "A.io") (lit "a.IO"));
    [reflexivity| |reflexivity|reflexivity].
  apply reach_allocate, reach_allocate, (reach_load ReadNotFound).
Defined.

Lemma fakeip_fifo_witness :
  order (allocate (lit "a.io") pool_example).2 = order pool_example ++ [lit "a.io"].
Proof.
  destruct (allocate (lit "a.io") pool_example) as [ip s'] eqn:E.
  destruct (fakeip_fifo pool_example (lit "a.io") ip s' pool_example_fresh E)
    as (_ & _ & _ & _ & H).
  destruct H as (_ & _ & H); [by vm_compute|].
  rewrite decide_True in H by (by vm_compute). exact (proj1 H).
Defined.

Lemma fakeip_persist_roundtrip_witness :
  by_domain (load_or_new (ReadOk (persist_snapshot pool_example)) : Inner Cache_example)
  = by_domain pool_example.
Proof.
  apply (fakeip_persist_roundtrip pool_example pool_example_fresh).
  assert (order pool_example = [lit "www.rust-lang.org"; lit "example.com"]) as -> by (by vm_compute).
  apply Forall_cons_2; [|apply Forall_cons_2; [|apply Forall_nil_2]];
    (split; [done|split; [unfold solid; decided|by vm_compute]]).
Defined.

(** A counter read from the file is clamped from below only: with [next=65536]
    the next address is 198.19.0.0, which [is_fake_ip] rejects and [lookup]
    does not resolve. *)
Lemma loaded_counter_escapes_range :
  let s := load_or_new (ReadOk (lit "next=65536")) : Inner Cache_example in
  let '(ip, s') := allocate (lit "a.io") s in
  ip = FAKE_IP_BASE + 65536 ∧ is_fake_ip ip = false ∧ lookup ip s' = None.
Proof. vm_compute. done. Qed.
