(* ===== verification/FakeIpWriter.v ===== *)
(** * The background writer of the fake-IP store as a transition system

    [Writer] of [FakeIp] has the critical sections; here they interleave.  The
    pool is a version number that every mutation raises; the worker takes its
    snapshot between its two critical sections, without the lock; a flusher has
    asked and not yet seen its answer. *)
From Stdlib Require Import String.
From S2P Require Import Prelude Bytes FakeIp.
Import Writer.

#[local] Open Scope list_scope.
#[local] Open Scope Z_scope.

Inductive worker_state :=
  | Idle
  | Writing (generation : Z)
  | Snapped (generation version : Z)
  | Exited.

Record system := Sys {
  st : State;
  worker : worker_state;
  version : Z;                       (* of the pool in memory *)
  disk : Z;                          (* version of the last committed snapshot *)
  flushers : list (Z * Z);           (* generation waited for, version at the call *)
}.

Definition start : system := Sys initial Idle 0 0 [].

Section step.
Variable interval : Z.

Inductive step : system → system → Prop :=
  | step_mutate s w v d f : step (Sys s w v d f) (Sys s w (v + 1) d f)
  | step_schedule s w v d f : step (Sys s w v d f) (Sys (schedule s) w v d f)
  | step_flush s w v d f :
      step (Sys s w v d f)
           (Sys (flush_request s).2 w v d (((flush_request s).1, v) :: f))
  | step_stop s w v d f : step (Sys s w v d f) (Sys (stop s) w v d f)
  | step_begin s v d f now g :
      decide_step interval now s = Write g →
      step (Sys s Idle v d f) (Sys (begin_write s) (Writing g) v d f)
  | step_exit s v d f now :
      decide_step interval now s = Exit →
      step (Sys s Idle v d f) (Sys s Exited v d f)
  | step_snapshot s v d f g : step (Sys s (Writing g) v d f) (Sys s (Snapped g v) v d f)
  | step_commit s v d f g snap now u :
      step (Sys s (Snapped g snap) v d f) (Sys (finish_write g now (Ok u) s) Idle v snap f)
  | step_fail s w v d f g now r :
      w = Writing g ∨ (∃ snap, w = Snapped g snap) → (∀ u, r ≠ Ok u) →
      step (Sys s w v d f) (Sys (finish_write g now r s) Idle v d f).

Definition steps : system → system → Prop := rtc step.

(** The generation the worker is writing is at least as recent as every flush
    it was asked for, and the disk is as recent as what [persisted] says. *)
Definition covered (f : list (Z * Z)) (g v : Z) : Prop :=
  Forall (λ p, p.1 <= g → p.2 <= v) f.

Record inv (x : system) : Prop := {
  inv_order : 0 <= persisted (st x) <= attempted (st x) ∧ attempted (st x) <= requested (st x);
  inv_error : persisted (st x) < attempted (st x) → is_Some (error (st x));
  inv_targets : Forall (λ p, p.1 <= requested (st x) ∧ p.2 <= version x) (flushers x);
  inv_disk : covered (flushers x) (persisted (st x)) (disk x) ∧ disk x <= version x;
  inv_worker : match worker x with
    | Idle => True
    | Writing g => attempted (st x) <= g <= requested (st x)
    | Snapped g snap => attempted (st x) <= g <= requested (st x)
                        ∧ covered (flushers x) g snap ∧ disk x <= snap <= version x
    | Exited => stopping (st x) = true
    end;
  inv_pos : Forall (λ p, 0 < p.1) (flushers x);
}.

Lemma inv_start : inv start.
Proof. split; simpl; try done; try lia; try constructor; try lia. constructor. Qed.

Lemma covered_request f s v :
  Forall (λ p, p.1 <= requested s ∧ p.2 <= v) f →
  ∀ g w, g <= requested s → covered f g w → covered ((requested s + 1, v) :: f) g w.
Proof. intros Hf g w Hg Hc. apply Forall_cons. split; [simpl; lia|exact Hc]. Qed.

Lemma decide_write now s g :
  decide_step interval now s = Write g → g = requested s ∧ persisted s < requested s.
Proof.
  unfold decide_step. case_match; [done|]. case_match eqn:E; [done|]. apply Z.leb_gt in E.
  repeat case_match; intros [= <-]; done.
Qed.

Lemma step_inv x y : inv x → step x y → inv y.
Proof.
  intros [Ho He Ht [Hd Hdv] Hw Hp] Hs.
  assert (∀ v', version x <= v' → Forall (λ p, p.1 <= requested (st x) + 1 ∧ p.2 <= v') (flushers x)) as Ht'.
  { intros v' Hv. eapply Forall_impl; [exact Ht|]. intros [? ?]; simpl; lia. }
  destruct Hs; cbn [st worker version disk flushers] in *.
  - split; cbn [st worker version disk flushers]; try done; [|split; [done|lia]|].
    + eapply Forall_impl; [exact Ht|]. intros [? ?]; simpl; lia.
    + destruct w; [done|done| |done]. destruct Hw as (? & ? & ?). repeat split; done || lia.
  - split; cbn [st worker version disk flushers schedule requested persisted attempted error stopping];
      try done; [lia|by apply Ht'|].
    destruct w; [done|lia| |done]. destruct Hw as (? & ? & ?). repeat split; done || lia.
  - split; cbn [st worker version disk flushers flush_request fst snd requested persisted
                attempted error stopping]; try done; [lia| | | |].
    + apply Forall_cons. split; [simpl; lia|by apply Ht'].
    + split; [|done]. apply covered_request; [done|lia|done].
    + destruct w; [done|lia| |done]. destruct Hw as (? & ? & ?).
      split; [lia|]. split; [apply covered_request; done || lia|lia].
    + apply Forall_cons. split; [simpl; lia|done].
  - split; cbn [st worker version disk flushers stop requested persisted attempted error stopping];
      try done. by destruct w.
  - apply decide_write in H as [-> ?].
    split; cbn [st worker version disk flushers begin_write requested persisted attempted error];
      done || lia.
  - split; cbn [st worker version disk flushers]; try done.
    unfold decide_step in H. case_match eqn:E; [|by repeat case_match].
    by apply andb_true_iff in E as [? _].
  - split; cbn [st worker version disk flushers]; try done.
    split; [done|]. split; [|lia]. eapply Forall_impl; [exact Ht|]. intros [? ?]; simpl; lia.
  - destruct Hw as (? & ? & ?).
    split; cbn [st worker version disk flushers finish_write requested persisted attempted error];
      try done; try lia. split; [done|lia].
  - assert (attempted s <= g <= requested s) as Hg
      by (destruct H as [->|[snap ->]]; [done|by destruct Hw]).
    destruct r as [u| | |]; [by destruct (H0 u)|..];
      (split; cbn [st worker version disk flushers finish_write requested persisted attempted error];
       try done; lia).
Qed.

Lemma steps_inv x : steps start x → inv x.
Proof.
  intros Hs. remember start as x0. assert (inv x0) as Hi by (subst; apply inv_start). clear Heqx0.
  induction Hs; [done|]. by eapply IHHs, step_inv.
Qed.

(** C36. [flush] is a barrier: in every interleaving of mutations, requests,
    writes and failures, a flusher whose wait ends with success finds on disk
    a snapshot no older than the pool was when it called, and its wait never
    ends in the panic of the missing error. *)
Theorem writer_flush_barrier x target called :
  steps start x → (target, called) ∈ flushers x →
  flush_poll target (st x) ≠ Some Panic
  ∧ (flush_poll target (st x) = Some (Ok tt) → called <= disk x <= version x)
  ∧ (flush_poll target (st x) = None ↔ attempted (st x) < target).
Proof.
  intros Hs Hin. destruct (steps_inv x Hs) as [Ho He Ht [Hd Hdv] Hw Hp].
  unfold flush_poll. destruct (Z.ltb_spec (attempted (st x)) target) as [Hlt|Hge].
  { split; [done|]. split; [done|]. by split. }
  destruct (Z.leb_spec target (persisted (st x))) as [Hle|Hgt].
  - split; [done|]. split; [|split; [done|lia]]. intros _. split; [|done].
    unfold covered in Hd. rewrite Forall_forall in Hd. by apply (Hd _ Hin).
  - destruct He as [e ->]; [lia|]. split; [done|]. split; [done|]. split; [done|lia].
Qed.

(** The worker neither loses a request nor writes without one: it leaves
    only when told to stop with every request attempted; it sleeps only when
    everything requested is on disk; and a pending forced or final request is
    written without waiting for the debounce interval. *)
Theorem writer_no_lost_request x now :
  steps start x →
  match decide_step interval now (st x) with
  | Exit => stopping (st x) = true ∧ attempted (st x) = requested (st x)
  | Wait => persisted (st x) = requested (st x)
  | WaitTimeout r => force (st x) = false ∧ stopping (st x) = false ∧ 0 <= r
                     ∧ ∃ at_, last_attempt (st x) = Some at_ ∧ now + r = at_ + interval
  | Write g => g = requested (st x) ∧ persisted (st x) < g
  end.
Proof.
  intros Hs. destruct (steps_inv x Hs) as [Ho He Ht [Hd Hdv] Hw Hp].
  unfold decide_step. destruct (stopping (st x)) eqn:Hst; cbn [andb negb].
  - destruct (Z.leb_spec (requested (st x)) (attempted (st x))); [split; [done|lia]|].
    rewrite (proj2 (Z.leb_gt _ _)) by lia. rewrite andb_false_r. split; [done|lia].
  - destruct (Z.leb_spec (requested (st x)) (persisted (st x))); [lia|].
    rewrite andb_true_r. destruct (force (st x)) eqn:Hf; cbn [negb]; [split; [done|lia]|].
    unfold remaining. destruct (last_attempt (st x)) as [t|] eqn:Hl; simpl; [|split; [done|lia]].
    destruct (Z.leb_spec (now - t) interval); [|split; [done|lia]].
    repeat (split; [done || lia|]). exists t. split; [done|lia].
Qed.
End step.

(** One flush that overlaps a mutation. *)
Definition flushed : system :=
  let '(target, s) := flush_request initial in
  Sys (finish_write target 5 (Ok tt) (begin_write s)) Idle 2 1 [(target, 1)].

Lemma flushed_steps : steps 10 start flushed.
Proof.
  eapply rtc_l; [apply step_mutate|]. eapply rtc_l; [apply step_flush|].
  eapply rtc_l; [by apply (step_begin 10 _ _ _ _ 3 1)|]. eapply rtc_l; [apply step_snapshot|].
  eapply rtc_l; [apply step_mutate|]. eapply rtc_l; [apply (step_commit _ _ _ _ _ _ _ 5 tt)|].
  apply rtc_refl.
Qed.

Lemma writer_flush_barrier_witness :
  flush_poll 1 (st flushed) = Some (Ok tt) ∧ 1 <= disk flushed <= version flushed.
Proof.
  split; [reflexivity|].
  apply (writer_flush_barrier 10 flushed 1 1 flushed_steps); [by left|reflexivity].
Defined.

Lemma writer_no_lost_request_witness : persisted (st flushed) = requested (st flushed).
Proof. exact (writer_no_lost_request 10 flushed 7 flushed_steps). Defined.
