(* ===== verification/GeoIp.v ===== *)
(** * GeoIP country table ([crates/sockrocket-core/src/router/geoip.rs])

    The table is a list of CIDR entries; [build] sorts it longest prefix first
    and records the range of every prefix length, and [lookup] searches the
    ranges by bisection.  Text is a list of scalar values. *)
From S2P Require Import Prelude Bytes Text Net NetText Sorting.

#[local] Open Scope list_scope.
#[local] Open Scope Z_scope.

Abbreviation str := (list Z).

Record GeoEntry := { ge_addr : Z; ge_prefix : Z; ge_country : str }.

Record GeoTable := { entries : list GeoEntry; prefixes : list (Z * (nat * nat)) }.

Definition GeoTable_default : GeoTable := {| entries := []; prefixes := [] |}.

(** [u128::checked_shl] fails from 128 on; bits shifted out are lost. *)
Definition prefix_mask (total_bits prefix_len : Z) : Z :=
  let n := total_bits - prefix_len in
  if n <? 128 then Z.shiftl (2 ^ 128 - 1) n mod 2 ^ 128 else 0.

Definition table_push (t : GeoTable) (e : GeoEntry) : GeoTable :=
  {| entries := entries t ++ [e]; prefixes := [] |}.

(** The key [(Reverse(prefix_len), addr)]. *)
Definition entry_le (x y : GeoEntry) : bool :=
  (ge_prefix y <? ge_prefix x) || ((ge_prefix x =? ge_prefix y) && (ge_addr x <=? ge_addr y)).

(** [partition_point] on a slice whose [true]s come first. *)
Definition partition_point {A} (p : A → bool) (l : list A) : nat := length (take_while p l).

Fixpoint prefix_ranges (fuel : nat) (total_bits : Z) (es : list GeoEntry) (start : nat)
    : list (Z * (nat * nat)) :=
  match fuel with
  | O => []
  | S fuel =>
    match drop start es with
    | [] => []
    | e :: _ =>
      let fin := (start + partition_point (λ x, ge_prefix x =? ge_prefix e)%Z (drop start es))%nat in
      (prefix_mask total_bits (ge_prefix e), (start, fin)) :: prefix_ranges fuel total_bits es fin
    end
  end.

Definition build_table (t : GeoTable) (total_bits : Z) : GeoTable :=
  let es := sort_by entry_le (entries t) in
  {| entries := es; prefixes := prefix_ranges (length es) total_bits es 0 |}.

Fixpoint search_ranges (ps : list (Z * (nat * nat))) (es : list GeoEntry) (ip : Z) : option GeoEntry :=
  match ps with
  | [] => None
  | (mask, (start, fin)) :: ps =>
    let network := Z.land ip mask in
    let slice := take (fin - start) (drop start es) in
    let index := partition_point (λ e, ge_addr e <? network) slice in
    match slice !! index with
    | Some e => if ge_addr e =? network then Some e else search_ranges ps es ip
    | None => search_ranges ps es ip
    end
  end.

Definition matches (total_bits ip : Z) (e : GeoEntry) : bool :=
  Z.land ip (prefix_mask total_bits (ge_prefix e)) =? ge_addr e.

Definition table_lookup (t : GeoTable) (ip total_bits : Z) : option str :=
  ge_country <$>
    match prefixes t with
    | [] => List.find (matches total_bits ip) (entries t)
    | ps => search_ranges ps (entries t) ip
    end.

(** ** The database *)
Record GeoIpDb := { v4_entries : GeoTable; v6_entries : GeoTable }.

Definition ip_to_u128 (ip : IpAddr) : Z := match ip with V4 a | V6 a => a end.

Definition db_new : GeoIpDb := {| v4_entries := GeoTable_default; v6_entries := GeoTable_default |}.

Section db.
Context {U : Unicode}.

Definition add_entry (db : GeoIpDb) (cidr country : str) : GeoIpDb :=
  match split_once 47 cidr with
  | None => db
  | Some (address, prefix) =>
    match parse_ip address with
    | None => db
    | Some addr =>
      match parse_uint 255 prefix with
      | None => db
      | Some prefix_len =>
        let total_bits := if is_ipv4 addr then 32 else 128 in
        if total_bits <? prefix_len then db else
        let entry := {| ge_addr := Z.land (ip_to_u128 addr) (prefix_mask total_bits prefix_len);
                        ge_prefix := prefix_len; ge_country := to_uppercase country |} in
        match addr with
        | V4 _ => {| v4_entries := table_push (v4_entries db) entry; v6_entries := v6_entries db |}
        | V6 _ => {| v4_entries := v4_entries db; v6_entries := table_push (v6_entries db) entry |}
        end
      end
    end
  end.

Definition build (db : GeoIpDb) : GeoIpDb :=
  {| v4_entries := build_table (v4_entries db) 32; v6_entries := build_table (v6_entries db) 128 |}.

Definition lookup (db : GeoIpDb) (ip : IpAddr) : option str :=
  match ip with
  | V4 _ => table_lookup (v4_entries db) (ip_to_u128 ip) 32
  | V6 _ => table_lookup (v6_entries db) (ip_to_u128 ip) 128
  end.

Definition is_cn (db : GeoIpDb) (ip : IpAddr) : bool :=
  match lookup db ip with
  | Some c => eq_ignore_ascii_case c [67; 78]
  | None => false
  end.

Definition load_line (db : GeoIpDb) (line : str) : GeoIpDb :=
  let line := trim line in
  if (len line =? 0) || starts_with [35] line then db else
  match split_whitespace line with
  | cidr :: country :: _ => add_entry db cidr country
  | _ => db
  end.

Definition load_from_text (text : str) : GeoIpDb := build (foldl load_line db_new (lines text)).

Definition builtin_cidrs : list str :=
  [lit "10.0.0.0/8"; lit "172.16.0.0/12"; lit "192.168.0.0/16"; lit "127.0.0.0/8";
   lit "169.254.0.0/16"; lit "100.64.0.0/10"; lit "::1/128"; lit "fc00::/7"; lit "fe80::/10"].

Definition builtin : GeoIpDb :=
  build (foldl (λ db cidr, add_entry db cidr (lit "PRIVATE")) db_new builtin_cidrs).

Definition entry_count (db : GeoIpDb) : nat :=
  (length (entries (v4_entries db)) + length (entries (v6_entries db)))%nat.
End db.

(** ** The mask keeps the network part *)
Lemma land_prefix_mask total_bits p ip :
  0 <= p <= total_bits → total_bits <= 128 → 0 <= ip < 2 ^ 128 →
  Z.land ip (prefix_mask total_bits p) = ip / 2 ^ (total_bits - p) * 2 ^ (total_bits - p).
Proof.
  intros Hp Ht Hip. unfold prefix_mask. set (n := total_bits - p).
  assert (ip / 2 ^ n * 2 ^ n = Z.shiftl (Z.shiftr ip n) n) as ->
    by (by rewrite Z.shiftl_mul_pow2, Z.shiftr_div_pow2 by lia).
  destruct (Z.ltb_spec n 128).
  - apply Z.bits_inj'. intros k Hk.
    rewrite Z.land_spec, Z.shiftl_spec, Z.testbit_mod_pow2 by lia.
    change (2 ^ 128 - 1) with (Z.ones 128). rewrite Z.shiftl_spec by lia.
    destruct (Z.ltb_spec k n).
    { rewrite !(Z.testbit_neg_r _ (k - n)) by lia. by rewrite !andb_false_r. }
    rewrite Z.shiftr_spec by lia. replace (k - n + n) with k by lia.
    destruct (Z.ltb_spec k 128) as [|Hbig].
    + rewrite Z.ones_spec_low by lia. by rewrite !andb_true_r.
    + rewrite andb_false_l, andb_false_r. symmetry. rewrite Z.testbit_eqb by lia.
      rewrite Z.div_small; [done|]. split; [lia|].
      apply Z.lt_le_trans with (2 ^ 128); [lia|]. apply Z.pow_le_mono_r; lia.
  - rewrite Z.land_0_r, Z.shiftr_div_pow2, Z.div_small, Z.shiftl_0_l; [done| |lia..].
    split; [lia|]. apply Z.lt_le_trans with (2 ^ 128); [lia|]. apply Z.pow_le_mono_r; lia.
Qed.

(** ** Bisection against a scan *)
Lemma entry_le_total x y : entry_le x y = true ∨ entry_le y x = true.
Proof. unfold entry_le. lia. Qed.

Lemma entry_le_trans x y z : entry_le x y = true → entry_le y z = true → entry_le x z = true.
Proof. unfold entry_le. lia. Qed.

Lemma partition_find (es : list GeoEntry) network :
  StronglySorted (λ x y, ge_addr x <= ge_addr y) es →
  match es !! partition_point (λ e, ge_addr e <? network) es with
  | Some e => if ge_addr e =? network then Some e else None
  | None => None
  end = List.find (λ e, network =? ge_addr e) es.
Proof.
  unfold partition_point. induction 1 as [|e es Hs IH He]; [done|]. cbn [take_while List.find].
  destruct (Z.ltb_spec (ge_addr e) network) as [Hlt|Hge]; simpl.
  - rewrite (proj2 (Z.eqb_neq network _)) by lia. apply IH.
  - rewrite Z.eqb_sym. destruct (Z.eqb_spec network (ge_addr e)); [done|].
    symmetry. apply find_none_Forall. eapply Forall_impl; [exact He|]. simpl. intros x Hx.
    apply Z.eqb_neq. lia.
Qed.

Lemma take_while_split {A} (p : A → bool) l :
  l = take_while p l ++ drop (length (take_while p l)) l
  ∧ Forall (λ x, p x = true) (take_while p l)
  ∧ (∀ x, head (drop (length (take_while p l)) l) = Some x → p x = false).
Proof.
  induction l as [|x l (E & H & Hh)]; [done|]. simpl. destruct (p x) eqn:Hx; simpl.
  - split; [by f_equal|]. split; [by constructor|done].
  - split; [done|]. split; [constructor|]. by intros ? [= <-].
Qed.

Lemma search_ranges_find fuel total_bits es start ip :
  sorted entry_le es → (length es - start <= fuel)%nat →
  search_ranges (prefix_ranges fuel total_bits es start) es ip
  = List.find (matches total_bits ip) (drop start es).
Proof.
  intros Hs. revert start. induction fuel as [|fuel IH]; intros start Hf.
  { by rewrite drop_ge by lia. }
  cbn [prefix_ranges]. destruct (drop start es) as [|e rest] eqn:Hd; [done|]. cbv zeta.
  cbn [search_ranges]. rewrite Hd. set (p := λ x, ge_prefix x =? ge_prefix e).
  destruct (take_while_split p (e :: rest)) as (E & Hg & _).
  set (g := take_while p (e :: rest)) in *.
  unfold partition_point. fold g.
  assert (start < length es)%nat as Hstart.
  { apply (f_equal length) in Hd. rewrite length_drop in Hd. simpl in Hd. lia. }
  assert (1 <= length g)%nat as Hg1.
  { unfold g. cbn [take_while]. unfold p at 1. rewrite Z.eqb_refl. simpl. lia. }
  replace (start + length g - start)%nat with (length g) by lia.
  assert (take (length g) (e :: rest) = g) as Htg by (rewrite E at 1; apply take_app_length).
  rewrite Htg. rewrite IH by lia.
  assert (drop (start + length g) es = drop (length g) (e :: rest)) as -> by (by rewrite <- Hd, drop_drop).
  rewrite (f_equal (List.find (matches total_bits ip)) E), find_app.
  set (network := Z.land ip (prefix_mask total_bits (ge_prefix e))).
  assert (List.find (matches total_bits ip) g = List.find (λ x, network =? ge_addr x) g) as ->.
  { clear -Hg. induction Hg as [|x l Hx Hl IH]; [done|]. simpl. unfold matches at 1.
    unfold p in Hx. apply Z.eqb_eq in Hx. rewrite Hx. fold network. by rewrite IH. }
  rewrite <- partition_find; [unfold partition_point; by destruct (g !! _) as [x|]; [case_match|]|].
  assert (sorted entry_le g) as Hsg.
  { unfold sorted in *. rewrite <- (take_drop start es), Hd in Hs.
    apply strongly_sorted_app in Hs as (_ & Hs & _). rewrite E in Hs.
    by apply strongly_sorted_app in Hs as (Hs & _). }
  clear -Hg Hsg. unfold sorted in Hsg. induction Hsg as [|x l Hs IH Hx]; [constructor|].
  apply Forall_cons in Hg as [Hpx Hg]. constructor; [by apply IH|].
  rewrite Forall_forall in *. intros y Hy. specialize (Hx y Hy). specialize (Hg y Hy).
  unfold entry_le, p in *. lia.
Qed.

(** ** The reference: longest prefix, first entry among equals *)
Fixpoint longest_match (total_bits ip : Z) (es : list GeoEntry) : option GeoEntry :=
  match es with
  | [] => None
  | e :: es =>
    match longest_match total_bits ip es with
    | Some b => if matches total_bits ip e && (ge_prefix b <=? ge_prefix e) then Some e else Some b
    | None => if matches total_bits ip e then Some e else None
    end
  end.

Lemma longest_match_matches total_bits ip es b :
  longest_match total_bits ip es = Some b → matches total_bits ip b = true ∧ b ∈ es.
Proof.
  induction es as [|e es IH]; simpl; [done|].
  destruct (longest_match total_bits ip es) as [b'|] eqn:E.
  - destruct (matches total_bits ip e) eqn:Hm; simpl.
    + case_match; intros [= <-]; [split; [done|by left]|].
      destruct IH; [done|]. split; [done|by right].
    + intros [= <-]. destruct IH; [done|]. split; [done|by right].
  - destruct (matches total_bits ip e) eqn:Hm; [|done]. intros [= <-]. split; [done|by left].
Qed.

Lemma sorted_find_longest total_bits ip es :
  List.find (matches total_bits ip) (sort_by entry_le es) = longest_match total_bits ip es.
Proof.
  induction es as [|e es IH]; [done|]. cbn [sort_by foldr longest_match].
  rewrite find_insert_by; [|apply entry_le_trans|].
  2: { apply sort_by_sorted; [apply entry_le_total|apply entry_le_trans]. }
  fold (sort_by entry_le es). rewrite IH.
  destruct (longest_match total_bits ip es) as [b|] eqn:E; [|done].
  apply longest_match_matches in E as [Hm _]. destruct (matches total_bits ip e) eqn:He; [|done].
  cbn [andb]. unfold matches in Hm, He. apply Z.eqb_eq in Hm, He.
  assert (entry_le e b = (ge_prefix b <=? ge_prefix e)) as ->; [|done].
  unfold entry_le. destruct (Z.eqb_spec (ge_prefix e) (ge_prefix b)) as [Hp|Hp].
  - rewrite Hp in He. rewrite <- Hm, <- He, Hp, Z.leb_refl, Z.leb_refl. apply orb_true_r.
  - cbn [andb]. rewrite orb_false_r. lia.
Qed.

Lemma build_lookup t ip total_bits :
  table_lookup (build_table t total_bits) ip total_bits
  = ge_country <$> longest_match total_bits ip (entries t).
Proof.
  rewrite <- sorted_find_longest. unfold table_lookup, build_table. cbn [prefixes entries].
  f_equal. set (es := sort_by entry_le (entries t)).
  pose proof (search_ranges_find (length es) total_bits es 0 ip) as H.
  destruct (prefix_ranges (length es) total_bits es 0); [done|]. rewrite H; [done| |lia].
  apply sort_by_sorted; [apply entry_le_total|apply entry_le_trans].
Qed.

(** The entries of a database all have their address masked, so an entry
    matches exactly the addresses with its first [ge_prefix] bits. *)
Definition entry_ok (total_bits : Z) (e : GeoEntry) : Prop :=
  0 <= ge_prefix e <= total_bits
  ∧ ∃ a, 0 <= a < 2 ^ total_bits ∧ ge_addr e = a / 2 ^ (total_bits - ge_prefix e) * 2 ^ (total_bits - ge_prefix e).

Lemma matches_prefix total_bits ip e :
  entry_ok total_bits e → total_bits <= 128 → 0 <= ip < 2 ^ total_bits →
  matches total_bits ip e = true ↔
    ip / 2 ^ (total_bits - ge_prefix e) = ge_addr e / 2 ^ (total_bits - ge_prefix e).
Proof.
  intros (Hp & a & Ha & E) Ht Hip. unfold matches.
  assert (2 ^ total_bits <= 2 ^ 128) by (apply Z.pow_le_mono_r; lia).
  rewrite land_prefix_mask, E, Z.eqb_eq by lia.
  set (k := 2 ^ (total_bits - ge_prefix e)).
  assert (0 < k) by (apply Z.pow_pos_nonneg; lia). rewrite Z.div_mul by lia.
  split; [|by intros ->]. intros Hk. by apply Z.mul_reg_r in Hk; [|lia].
Qed.

Lemma longest_match_split total_bits ip es :
  match longest_match total_bits ip es with
  | Some e => ∃ l1 l2, es = l1 ++ e :: l2 ∧ matches total_bits ip e = true
      ∧ Forall (λ x, matches total_bits ip x = true → ge_prefix x < ge_prefix e) l1
      ∧ Forall (λ x, matches total_bits ip x = true → ge_prefix x <= ge_prefix e) l2
  | None => Forall (λ x, matches total_bits ip x = false) es
  end.
Proof.
  induction es as [|e es IH]; simpl; [constructor|].
  destruct (longest_match total_bits ip es) as [b|].
  - destruct IH as (l1 & l2 & E & Hm & H1 & H2).
    destruct (matches total_bits ip e) eqn:He; cbn [andb].
    + destruct (Z.leb_spec (ge_prefix b) (ge_prefix e)).
      * exists [], es. repeat (split; [done || constructor|]). subst es.
        apply Forall_app. split; [|constructor; [done|]];
          (eapply Forall_impl; [eassumption|]; simpl; intros x Hx Hmx; specialize (Hx Hmx); lia).
      * exists (e :: l1), l2. subst es. repeat (split; [done|]). split; [|done].
        constructor; [lia|done].
    + exists (e :: l1), l2. subst es. repeat (split; [done|]). split; [|done].
      constructor; [congruence|done].
  - destruct (matches total_bits ip e) eqn:He.
    + exists [], es. repeat (split; [done || constructor|]).
      eapply Forall_impl; [exact IH|]. simpl. congruence.
    + by constructor.
Qed.

(** ** Entries come from parsed CIDRs *)
Section db.
Context {U : Unicode}.

Definition db_ok (db : GeoIpDb) : Prop :=
  Forall (entry_ok 32) (entries (v4_entries db)) ∧ Forall (entry_ok 128) (entries (v6_entries db)).

Lemma parse_digits_nonneg max acc s n : 0 <= acc → parse_digits max acc s = Some n → 0 <= n.
Proof.
  revert acc. induction s as [|b s IH]; intros acc Ha; simpl; [by intros [= <-]|].
  destruct (is_digit b) eqn:Hb; [|done]. case_match; [|done]. apply IH.
  unfold is_digit, between in Hb. lia.
Qed.

Lemma parse_uint_nonneg max s n : parse_uint max s = Some n → 0 <= n.
Proof.
  unfold parse_uint. destruct s as [|b s]; [done|].
  destruct (b =? 43); [destruct s; [done|]|]; by apply parse_digits_nonneg.
Qed.

Lemma add_entry_ok db cidr country : db_ok db → db_ok (add_entry db cidr country).
Proof.
  intros [H4 H6]. unfold add_entry.
  destruct (split_once 47 cidr) as [[address prefix]|]; [|done].
  destruct (parse_ip address) as [addr|] eqn:Ha; [|done]. apply parse_ip_wf in Ha.
  destruct (parse_uint 255 prefix) as [p|] eqn:Hp; [|done]. apply parse_uint_nonneg in Hp.
  destruct addr as [a|a]; cbn [is_ipv4 ip_to_u128 ip_wf] in *; cbv zeta.
  - destruct (Z.ltb_spec 32 p); [done|]. unfold u32 in Ha. split; cbn; [|done].
    apply Forall_app. split; [done|]. constructor; [|constructor]. split; simpl; [lia|].
    exists a. split; [lia|]. apply land_prefix_mask; lia.
  - destruct (Z.ltb_spec 128 p); [done|]. unfold u128 in Ha. split; cbn; [done|].
    apply Forall_app. split; [done|]. constructor; [|constructor]. split; simpl; [lia|].
    exists a. split; [lia|]. apply land_prefix_mask; lia.
Qed.

Lemma load_lines_ok ls db : db_ok db → db_ok (foldl load_line db ls).
Proof.
  revert db. induction ls as [|l ls IH]; intros db Hdb; [done|]. simpl. apply IH.
  unfold load_line. case_match; [done|]. destruct (split_whitespace _) as [|? [|? ?]]; try done.
  by apply add_entry_ok.
Qed.

(** The entries of the family of [ip], and its width. *)
Definition family_entries (db : GeoIpDb) (ip : IpAddr) : list GeoEntry :=
  match ip with V4 _ => entries (v4_entries db) | V6 _ => entries (v6_entries db) end.
Definition family_bits (ip : IpAddr) : Z := match ip with V4 _ => 32 | V6 _ => 128 end.

Definition in_network (ip : IpAddr) (e : GeoEntry) : Prop :=
  let k := 2 ^ (family_bits ip - ge_prefix e) in ip_to_u128 ip / k = ge_addr e / k.

(** C40. Country lookup is longest-prefix match: over the entries of the
    address's family, in file order, the indexed bisection of a loaded table
    returns the country of the entry with the longest prefix containing the
    address, the first such entry among duplicates, and nothing exactly when no
    entry contains it. *)
Theorem geoip_longest_prefix text ip :
  ip_wf ip →
  let es := family_entries (foldl load_line db_new (lines text)) ip in
  match lookup (load_from_text text) ip with
  | Some c => ∃ l1 e l2, es = l1 ++ e :: l2 ∧ ge_country e = c ∧ in_network ip e
      ∧ Forall (λ x, in_network ip x → ge_prefix x < ge_prefix e) l1
      ∧ Forall (λ x, in_network ip x → ge_prefix x <= ge_prefix e) l2
  | None => Forall (λ x, ¬ in_network ip x) es
  end.
Proof.
  intros Hip es. set (db := foldl load_line db_new (lines text)).
  assert (db_ok db) as [H4 H6] by (apply load_lines_ok; split; constructor).
  assert (Forall (entry_ok (family_bits ip)) es) as Hes by (by destruct ip).
  assert (0 <= ip_to_u128 ip < 2 ^ family_bits ip ∧ family_bits ip <= 128) as [Hb Hw].
  { destruct ip; simpl in *; unfold u32, u128 in Hip; lia. }
  assert (lookup (load_from_text text) ip
          = ge_country <$> longest_match (family_bits ip) (ip_to_u128 ip) es) as ->.
  { unfold load_from_text, lookup, build. destruct ip; cbn [v4_entries v6_entries]; apply build_lookup. }
  assert (∀ l x, Forall (entry_ok (family_bits ip)) l → x ∈ l →
    matches (family_bits ip) (ip_to_u128 ip) x = true ↔ in_network ip x) as Hm.
  { intros l x Hl Hx. rewrite Forall_forall in Hl. apply matches_prefix; [by apply Hl|lia|lia]. }
  pose proof (longest_match_split (family_bits ip) (ip_to_u128 ip) es) as H.
  destruct (longest_match _ _ es) as [e|]; cbn [fmap option_fmap option_map].
  - destruct H as (l1 & l2 & E & He & H1 & H2). rewrite E in Hes.
    apply Forall_app in Hes as [Hl1 Hl2]. apply Forall_cons in Hl2 as [Hee Hl2].
    exists l1, e, l2. split; [done|]. split; [done|].
    split; [apply (Hm [e]); [by apply Forall_singleton|by left|done]|].
    rewrite Forall_forall in H1, H2. split; apply Forall_forall; intros x Hx Hin.
    + apply H1; [done|]. by apply (Hm l1).
    + apply H2; [done|]. by apply (Hm l2).
  - rewrite Forall_forall in H. apply Forall_forall. intros x Hx Hin.
    apply (Hm es) in Hin; [|done..]. rewrite H in Hin; done.
Qed.
End db.

Definition geo_example : str :=
  lit "0.0.0.0/0 a" ++ [10] ++ lit "192.0.2.99/24 first" ++ [10] ++ lit "192.0.2.0/24 second"
  ++ [10] ++ lit "192.0.2.255/32 host".

#[local] Existing Instance ascii_unicode.

Lemma geoip_longest_prefix_witness :
  ∃ e, e ∈ family_entries (foldl load_line db_new (lines geo_example)) (V4 3221226239)
       ∧ ge_country e = lit "HOST" ∧ in_network (V4 3221226239) e.
Proof.
  assert (ip_wf (V4 3221226239)) as Hip by (simpl; unfold u32; lia).
  pose proof (geoip_longest_prefix geo_example (V4 3221226239) Hip) as H. cbv zeta in H.
  assert (lookup (load_from_text geo_example) (V4 3221226239) = Some (lit "HOST")) as E
    by (by vm_compute).
  rewrite E in H. destruct H as (l1 & e & l2 & Es & Hc & Hin & _).
  exists e. split; [|done]. rewrite Es. apply elem_of_app. right. by left.
Defined.
