(* ===== verification/Router.v ===== *)
(** * Routing engine (router/engine.rs and router/engine/trace.rs)

    Text is a list of scalar values.  The client address and the TUN destination,
    task-local variables in the code, are the record [Context]; the answer of the
    resolver during one call is an argument. *)
From Stdlib Require Import String.
From S2P Require Import Prelude Bytes Text Net NetText Lru Sorting FakeIp GeoIp.

#[local] Open Scope string_scope.
#[local] Open Scope list_scope.
#[local] Open Scope Z_scope.

(** ** Configuration *)
Record RoutingRule := {
  r_source : str;
  r_name : str;
  r_group : str;
  r_type : str;
  r_pattern : str;
  r_target : str;
  r_enabled : bool;
  r_priority : Z;
}.

(** UTF-8 length of a string of scalar values. *)
Definition utf8_len (s : str) : Z :=
  foldr (λ c n, n + if c <? 128 then 1 else if c <? 2048 then 2 else if c <? 65536 then 3 else 4) 0 s.

Definition slash : Z := 47.

(** ** Address patterns *)
Definition parse_cidr (cidr : str) : option (IpAddr * Z) :=
  match split_once slash cidr with
  | None => None
  | Some (a, p) =>
    addr ← parse_ip a;
    prefix_len ← parse_uint 255 p;
    match addr with
    | V4 _ => if 32 <? prefix_len then None else Some (addr, prefix_len)
    | V6 _ => if 128 <? prefix_len then None else Some (addr, prefix_len)
    end
  end.

(** [uN::MAX.checked_shl(n).unwrap_or(0)]. *)
Definition shl_mask (width n : Z) : Z :=
  if n <? width then Z.shiftl (2 ^ width - 1) n mod 2 ^ width else 0.

Definition cidr_match (ip network : IpAddr) (prefix_len : Z) : bool :=
  match ip, network with
  | V4 ip, V4 net =>
    if prefix_len =? 0 then true else
    let mask := shl_mask 32 (32 - prefix_len) in Z.land ip mask =? Z.land net mask
  | V6 ip, V6 net =>
    if prefix_len =? 0 then true else
    let mask := shl_mask 128 (128 - prefix_len) in Z.land ip mask =? Z.land net mask
  | _, _ => false
  end.

Definition parse_port_range (pattern : str) : option (Z * Z) :=
  let p := trim pattern in
  if len p =? 0 then None else
  match split_once 45 p with
  | Some (a, b) =>
    min ← parse_uint 65535 (trim a);
    max ← parse_uint 65535 (trim b);
    if min <=? max then Some (min, max) else Some (max, min)
  | None => port ← parse_uint 65535 p; Some (port, port)
  end.

Definition clear_host_bits (width bits a : Z) : Z :=
  Z.land a (if bits =? 0 then 0 else Z.shiftl (2 ^ width - 1) (width - bits) mod 2 ^ width).

Definition normalize_rule_source (value : str) : outcome str :=
  let value := trim value in
  if len value =? 0 then Ok [] else
  '(ip, bits) ← (if contains value [slash] then ok_or (parse_cidr value) "bad CIDR"
                 else ip ← ok_or (parse_ip value) "bad address";
                      Ok (ip, if is_ipv4 ip then 32 else 128));
  '(ip, bits) ←
    (match ip with
     | V6 v6 =>
       match to_ipv4_mapped v6 with
       | Some v4 => if bits <? 96 then Err "mapped prefix below 96" else Ok (V4 v4, bits - 96)
       | None => Ok (ip, bits)
       end
     | V4 _ => Ok (ip, bits)
     end);
  let network := match ip with
                 | V4 a => V4 (clear_host_bits 32 bits a)
                 | V6 a => V6 (clear_host_bits 128 bits a)
                 end in
  Ok (show_ip network ++ [slash] ++ show_uint bits).

Definition source_matches (scope : option (IpAddr * Z)) (source : option IpAddr) : bool :=
  match scope, source with
  | None, _ => true
  | Some (network, bits), Some ip => cidr_match ip network bits
  | Some _, None => false
  end.

(** ** Compiled rules *)
Inductive RouteAction :=
  | Proxy
  | Group (name : str)
  | Node (id : str)
  | Direct
  | Reject.

#[export] Instance RouteAction_eq_dec : EqDecision RouteAction.
Proof. solve_decision. Defined.

Inductive MatchRule :=
  | Domain (domain : str)
  | DomainSuffix (suffix : str)
  | DomainKeyword (keyword : str)
  | IpCidr (addr : IpAddr) (prefix_len : Z)
  | GeoIp (country : str)
  | DstPort (min max : Z)
  | MatchAll
  | DomesticHint.

#[export] Instance MatchRule_eq_dec : EqDecision MatchRule.
Proof. solve_decision. Defined.

Record RuleEntry := {
  config_index : option nat;
  source : option (IpAddr * Z);
  rule : MatchRule;
  action : RouteAction;
}.

Record RuleSet := { rules : list RuleEntry; default_action : RouteAction }.

Definition RuleSet_new : RuleSet := {| rules := []; default_action := Proxy |}.

Definition set_default (s : RuleSet) (a : RouteAction) : RuleSet :=
  {| rules := rules s; default_action := a |}.

Definition add_rule (s : RuleSet) (r : MatchRule) (a : RouteAction) : RuleSet :=
  {| rules := rules s ++ [{| config_index := None; source := None; rule := r; action := a |}];
     default_action := default_action s |}.

Definition extend (s other : RuleSet) : RuleSet :=
  {| rules := rules s ++ rules other; default_action := default_action s |}.

Section engine.
Context {U : Unicode}.

(** *** Names ([config/group.rs]) *)
Definition valid_group_name (name : str) : bool :=
  negb (len name =? 0) && (utf8_len name <=? 96)
  && forallb (λ c, is_alphanumeric c || (c =? 45) || (c =? 95)) name.

Definition lower_hex (c : Z) : bool := is_digit c || between 97 102 c.

Definition node_target_id (target : str) : option str :=
  id ← strip_prefix (lit "node:") target;
  if (utf8_len id =? 64) && forallb lower_hex id then Some id else None.

(** *** Validation *)
Definition one_of (s : str) (names : list string) : bool :=
  existsb (λ n, bool_decide (s = lit n)) names.

Definition valid_target (target : str) : bool :=
  one_of (to_ascii_lowercase target) ["direct"; "proxy"; "reject"; "block"]
  || match strip_prefix (lit "group:") target with
     | Some name => valid_group_name name
     | None => false
     end
  || bool_decide (is_Some (node_target_id target)).

(** [trim_matches('.')]. *)
Definition trim_dots (s : str) : str := trim_end_byte 46 (trim_start_byte 46 s).

Definition check_pattern (kind pattern : str) : outcome unit :=
  if one_of kind ["domain"; "domain-suffix"; "domain-keyword"] then
    if (len (trim_dots pattern) =? 0) || existsb is_whitespace pattern
    then Err "Invalid domain routing pattern" else Ok tt
  else if one_of kind ["ip-cidr"] && bool_decide (is_Some (parse_cidr pattern)) then Ok tt
  else if one_of kind ["geoip"]
          && (eq_ignore_ascii_case pattern (lit "PRIVATE")
              || (utf8_len pattern =? 2) && forallb is_ascii_alphabetic pattern) then Ok tt
  else if one_of kind ["dst-port"; "port"]
          && match parse_port_range pattern with Some (min, _) => 0 <? min | None => false end
  then Ok tt
  else ensure (one_of kind ["match"; "final"]) "Unknown rule type or invalid routing pattern".

Definition validate_rule (r : RoutingRule) : outcome unit :=
  if negb (r_enabled r) then Ok tt else
  _ ← ensure (valid_target (r_target r)) "Invalid routing target";
  _ ← check_pattern (to_ascii_lowercase (r_type r)) (r_pattern r);
  match normalize_rule_source (r_source r) with
  | Ok _ => Ok tt
  | Err _ => Err "Invalid routing source"
  | Panic => Panic
  | Diverge => Diverge
  end.

(** *** Compilation *)
Definition compile_action (target : str) : RouteAction :=
  match strip_prefix (lit "group:") target with
  | Some name => Group name
  | None =>
    match strip_prefix (lit "node:") target with
    | Some id => Node (to_ascii_lowercase id)
    | None =>
      let t := to_lowercase target in
      if one_of t ["direct"] then Direct
      else if one_of t ["reject"; "block"] then Reject
      else Proxy
    end
  end.

Definition compile_match (kind pattern : str) : option MatchRule :=
  let kind := to_lowercase kind in
  if one_of kind ["domain"] then Some (Domain (to_lowercase pattern))
  else if one_of kind ["domain-suffix"] then
    let suffix := to_lowercase pattern in
    Some (DomainSuffix (if starts_with [46] suffix then suffix else 46 :: suffix))
  else if one_of kind ["domain-keyword"] then Some (DomainKeyword (to_lowercase pattern))
  else if one_of kind ["ip-cidr"] then
    '(addr, prefix_len) ← parse_cidr pattern; Some (IpCidr addr prefix_len)
  else if one_of kind ["geoip"] then Some (GeoIp (to_uppercase pattern))
  else if one_of kind ["dst-port"; "port"] then
    '(min, max) ← parse_port_range pattern; Some (DstPort min max)
  else if one_of kind ["match"; "final"] then Some MatchAll
  else None.

(** [None] drops the rule ([continue]). *)
Definition compile_source (s : str) : option (option (IpAddr * Z)) :=
  if len s =? 0 then Some None else
  match normalize_rule_source s with
  | Ok normalized => Some (parse_cidr normalized)
  | _ => None
  end.

Definition compile_rule (ir : nat * RoutingRule) : option RuleEntry :=
  let '(index, r) := ir in
  m ← compile_match (r_type r) (r_pattern r);
  src ← compile_source (r_source r);
  Some {| config_index := Some index; source := src; rule := m;
          action := compile_action (r_target r) |}.

(** Priority descending, then index ascending. *)
Definition rule_le (a b : nat * RoutingRule) : bool :=
  (r_priority b.2 <? r_priority a.2)
  || ((r_priority a.2 =? r_priority b.2) && (a.1 <=? b.1)%nat).

Definition from_indexed_config (rs : list (nat * RoutingRule)) : RuleSet :=
  {| rules := omap compile_rule (sort_by rule_le (List.filter (λ ir, r_enabled ir.2) rs));
     default_action := Proxy |}.

Definition enumerate {A} (l : list A) : list (nat * A) := imap pair l.

Definition from_config (rs : list RoutingRule) : RuleSet := from_indexed_config (enumerate rs).

(** *** Matching *)
Record Context := {
  client_source : option IpAddr;
  tun_destination : option IpAddr * bool;
}.

Section matching.
Context (geoip : option GeoIpDb).

Definition rule_matches (ctx : Context) (r : MatchRule) (host_lower : str) (ip : option IpAddr)
    (port : Z) : bool :=
  match r with
  | Domain domain => bool_decide (host_lower = domain)
  | DomainSuffix suffix =>
    ends_with host_lower suffix || bool_decide (host_lower = trim_start_byte 46 suffix)
  | DomainKeyword keyword => contains host_lower keyword
  | IpCidr addr prefix_len =>
    match ip with Some ip => cidr_match ip addr prefix_len | None => false end
  | GeoIp country =>
    match ip, geoip with
    | Some ip, Some db =>
      match GeoIp.lookup db ip with
      | Some cc => eq_ignore_ascii_case cc country
      | None => false
      end
    | _, _ => false
    end
  | DstPort min max => (min <=? port) && (port <=? max)
  | MatchAll => true
  | DomesticHint => (tun_destination ctx).2
  end.

Definition applies (ctx : Context) (host_lower : str) (ip : option IpAddr) (port : Z)
    (e : RuleEntry) : bool :=
  source_matches (source e) (client_source ctx) && rule_matches ctx (rule e) host_lower ip port.

Definition host_ip (ctx : Context) (host : str) : option IpAddr :=
  match parse_ip host with Some ip => Some ip | None => (tun_destination ctx).1 end.

Fixpoint first_action (ctx : Context) (host_lower : str) (ip : option IpAddr) (port : Z)
    (default : RouteAction) (es : list RuleEntry) : RouteAction :=
  match es with
  | [] => default
  | e :: es =>
    if negb (source_matches (source e) (client_source ctx))
    then first_action ctx host_lower ip port default es
    else if rule_matches ctx (rule e) host_lower ip port then action e
    else first_action ctx host_lower ip port default es
  end.

Definition route_uncached (set : RuleSet) (ctx : Context) (host : str) (port : Z) : RouteAction :=
  first_action ctx (to_lowercase host) (host_ip ctx host) port (default_action set) (rules set).

Definition is_domain_rule (r : MatchRule) : bool :=
  match r with Domain _ | DomainSuffix _ | DomainKeyword _ => true | _ => false end.

Fixpoint domain_action (ctx : Context) (host_lower : str) (es : list RuleEntry)
    : option RouteAction :=
  match es with
  | [] => None
  | e :: es =>
    if negb (source_matches (source e) (client_source ctx)) then domain_action ctx host_lower es
    else if is_domain_rule (rule e) && rule_matches ctx (rule e) host_lower None 0
    then Some (action e)
    else domain_action ctx host_lower es
  end.

Definition route_domain_only (set : RuleSet) (ctx : Context) (host : str) : option RouteAction :=
  domain_action ctx (to_lowercase host) (rules set).

Definition needs_ip (r : MatchRule) : bool :=
  match r with IpCidr _ _ | GeoIp _ => true | _ => false end.

(** The lookup happens at the first applicable IP rule, at most once. *)
Fixpoint resolving_action (resolve : str → option IpAddr) (ctx : Context) (host_lower : str)
    (ip : option IpAddr) (attempted : bool) (port : Z) (default : RouteAction)
    (es : list RuleEntry) : RouteAction :=
  match es with
  | [] => default
  | e :: es =>
    if negb (source_matches (source e) (client_source ctx))
    then resolving_action resolve ctx host_lower ip attempted port default es
    else
      let now := negb attempted && needs_ip (rule e) in
      let ip := if now then resolve host_lower else ip in
      let attempted := attempted || now in
      if rule_matches ctx (rule e) host_lower ip port then action e
      else resolving_action resolve ctx host_lower ip attempted port default es
  end.

Definition route_uncached_resolving (resolve : str → option IpAddr) (set : RuleSet)
    (ctx : Context) (host : str) (port : Z) : RouteAction :=
  let ip := host_ip ctx host in
  resolving_action resolve ctx (to_lowercase host) ip (bool_decide (is_Some ip)) port
    (default_action set) (rules set).

(** *** The cache *)
Record RouteCacheKey := {
  k_host : str;
  k_port : Z;
  k_source : option IpAddr;
  k_destination : option IpAddr * bool;
}.

Definition client_cache_key (ctx : Context) (host : str) (port : Z) : RouteCacheKey :=
  {| k_host := to_lowercase host; k_port := port; k_source := client_source ctx;
     k_destination := tun_destination ctx |}.
End matching.
End engine.

#[export] Instance RouteCacheKey_eq_dec : EqDecision RouteCacheKey.
Proof. solve_decision. Defined.

Definition ROUTE_CACHE_CAP : nat := Z.to_nat 4096.

(** ** The router and its decision cache *)
Section router.
Context {U : Unicode} {C : Type} `{LRU : Lru RouteCacheKey RouteAction C}.

Record Router := { r_rules : RuleSet; r_geoip : option GeoIpDb; r_cache : C }.

Definition Router_new (set : RuleSet) : Router :=
  {| r_rules := set; r_geoip := None; r_cache := lru_new ROUTE_CACHE_CAP |}.

Definition with_geoip (r : Router) (db : GeoIpDb) : Router :=
  {| r_rules := r_rules r; r_geoip := Some db; r_cache := r_cache r |}.

Definition with_cache (r : Router) (c : C) : Router :=
  {| r_rules := r_rules r; r_geoip := r_geoip r; r_cache := c |}.

Definition has_client_rules (r : Router) (ctx : Context) : bool :=
  existsb (λ e, bool_decide (is_Some (source e)) && source_matches (source e) (client_source ctx))
    (rules (r_rules r)).

(** A hit promotes the entry; a miss stores the decision just made. *)
Definition cached (r : Router) (key : RouteCacheKey) (decide : RouteAction) : RouteAction * Router :=
  match lru_get key (r_cache r) with
  | (Some a, c) => (a, with_cache r c)
  | (None, c) => (decide, with_cache r (lru_put key decide c))
  end.

Definition route (r : Router) (ctx : Context) (host : str) (port : Z) : RouteAction * Router :=
  cached r (client_cache_key ctx host port)
    (route_uncached (r_geoip r) (r_rules r) ctx host port).

Definition route_resolving (resolve : str → option IpAddr) (r : Router) (ctx : Context)
    (host : str) (port : Z) : RouteAction * Router :=
  let decision := route_uncached_resolving (r_geoip r) resolve (r_rules r) ctx host port in
  if negb (bool_decide (is_Some (parse_ip host)))
     && negb (bool_decide (is_Some (tun_destination ctx).1))
  then (decision, r)
  else cached r (client_cache_key ctx host port) decision.
End router.
Arguments Router : clear implicits.

(** [with_client_source] and [trace_route] fold mapped addresses. *)
Definition unmap_ip (ip : IpAddr) : IpAddr :=
  match ip with
  | V6 a => match to_ipv4_mapped a with Some v4 => V4 v4 | None => ip end
  | V4 _ => ip
  end.

Definition with_client_source (ip : option IpAddr) (ctx : Context) : Context :=
  {| client_source := unmap_ip <$> ip; tun_destination := tun_destination ctx |}.

(** ** Name resolution for IP rules

    [scoped] is the request's own resolver, [lookup_host] the system's (no
    answer in time is [None]) and [lookup_a] a UDP query to a named server. *)
Definition resolve_host (scoped : str → option (outcome (list IpAddr)))
    (lookup_host : str → option (list IpAddr)) (lookup_a : string → str → option IpAddr)
    (host : str) : option IpAddr :=
  match scoped host with
  | Some (Ok ips) => head ips
  | Some _ => None
  | None =>
    addrs ← lookup_host host;
    ip ← match List.find is_ipv4 addrs with Some ip => Some ip | None => head addrs end;
    match ip with
    | V4 v4 =>
      if is_fake_ip v4 then
        match lookup_a "223.5.5.5:53" host with
        | Some real => Some real
        | None => lookup_a "119.29.29.29:53" host
        end
      else Some ip
    | V6 _ => Some ip
    end
  end.

(** ** Explanation of a decision ([trace_route]) *)
Inductive TraceOutcome := source_mismatch | needs_ip_ | matched | not_matched.

#[export] Instance TraceOutcome_eq_dec : EqDecision TraceOutcome.
Proof. solve_decision. Defined.

Record RouteTraceStep := {
  s_config_index : option nat;
  s_rule_type : string;
  s_pattern : str;
  s_source : option str;
  s_action : RouteAction;
  s_outcome : TraceOutcome;
  s_checked : nat;
}.

Record RouteTrace := {
  t_action : RouteAction;
  t_matched_rule : option nat;
  t_matched_builtin : bool;
  t_resolved_ip : option IpAddr;
  t_dns : string;
  t_definitive : bool;
  t_steps : list RouteTraceStep;
  t_omitted_steps : nat;
  t_checked_rules : nat;
}.

Definition show_cidr (c : IpAddr * Z) : str := show_ip c.1 ++ [slash] ++ show_uint c.2.

Definition rule_text (r : MatchRule) : string * str :=
  match r with
  | Domain p => ("domain", p)
  | DomainSuffix p => ("domain-suffix", trim_start_byte 46 p)
  | DomainKeyword p => ("domain-keyword", p)
  | IpCidr addr prefix_len => ("ip-cidr", show_cidr (addr, prefix_len))
  | GeoIp p => ("geoip", p)
  | DstPort min max =>
    ("dst-port", if min =? max then show_uint min else show_uint min ++ [45] ++ show_uint max)
  | MatchAll => ("final", lit "*")
  | DomesticHint => ("domestic-hint", [])
  end.

Definition step (e : RuleEntry) (o : TraceOutcome) : RouteTraceStep :=
  {| s_config_index := config_index e; s_rule_type := (rule_text (rule e)).1;
     s_pattern := (rule_text (rule e)).2; s_source := show_cidr <$> source e;
     s_action := action e; s_outcome := o; s_checked := 1 |}.

(** The mutable variables of the loop. *)
Record Tracing := {
  tr_ip : option IpAddr;
  tr_attempted : bool;
  tr_trace : RouteTrace;
  tr_misses : nat;
  tr_needs : bool;
}.

Definition set_steps (t : RouteTrace) (steps : list RouteTraceStep) (omitted : nat) : RouteTrace :=
  {| t_action := t_action t; t_matched_rule := t_matched_rule t;
     t_matched_builtin := t_matched_builtin t; t_resolved_ip := t_resolved_ip t; t_dns := t_dns t;
     t_definitive := t_definitive t; t_steps := steps; t_omitted_steps := omitted;
     t_checked_rules := t_checked_rules t |}.

Definition push_step (t : RouteTrace) (s : RouteTraceStep) (always : bool) (checked : nat) : RouteTrace :=
  if (length (t_steps t) <? 256)%nat || always
  then set_steps t (t_steps t ++ [s]) (t_omitted_steps t)
  else set_steps t (t_steps t) (t_omitted_steps t + checked).

Definition push_builtin (t : RouteTrace) (checked : nat) (needs : bool) : RouteTrace :=
  push_step t {| s_config_index := None; s_rule_type := "builtin"; s_pattern := []; s_source := None;
                 s_action := Direct; s_outcome := if needs then needs_ip_ else not_matched;
                 s_checked := checked |} false checked.

Section trace.
Context {U : Unicode} (geoip : option GeoIpDb) (resolve : str → option IpAddr) (resolve_dns : bool).
Context (src : option IpAddr) (host_lower : str) (port : Z).

(** The lazy lookup of one turn of the loop. *)
Definition trace_lookup (e : RuleEntry) (v : Tracing) : Tracing :=
  if source_matches (source e) src && needs_ip (rule e) && negb (tr_attempted v) then
    let t := tr_trace v in
    let ip := if resolve_dns then resolve host_lower else tr_ip v in
    {| tr_ip := ip; tr_attempted := true; tr_misses := tr_misses v; tr_needs := tr_needs v;
       tr_trace :=
         {| t_action := t_action t; t_matched_rule := t_matched_rule t;
            t_matched_builtin := t_matched_builtin t;
            t_resolved_ip := if resolve_dns then ip else t_resolved_ip t;
            t_dns := if resolve_dns then (match ip with Some _ => "resolved" | None => "failed" end)
                     else "skipped";
            t_definitive := t_definitive t; t_steps := t_steps t;
            t_omitted_steps := t_omitted_steps t; t_checked_rules := t_checked_rules t |} |}
  else v.

Definition trace_outcome (e : RuleEntry) (ip : option IpAddr) : TraceOutcome :=
  if negb (source_matches (source e) src) then source_mismatch
  else if needs_ip (rule e) && bool_decide (ip = None) then needs_ip_
  else if negb (bool_decide (rule e = DomesticHint))
          && rule_matches geoip {| client_source := src; tun_destination := (None, false) |}
               (rule e) host_lower ip port
  then matched else not_matched.

Definition note_checked (o : TraceOutcome) (t : RouteTrace) : RouteTrace :=
  {| t_action := t_action t; t_matched_rule := t_matched_rule t;
     t_matched_builtin := t_matched_builtin t; t_resolved_ip := t_resolved_ip t; t_dns := t_dns t;
     t_definitive := t_definitive t && negb (bool_decide (o = needs_ip_)); t_steps := t_steps t;
     t_omitted_steps := t_omitted_steps t; t_checked_rules := S (t_checked_rules t) |}.

Definition note_match (e : RuleEntry) (t : RouteTrace) : RouteTrace :=
  {| t_action := action e; t_matched_rule := config_index e;
     t_matched_builtin := negb (bool_decide (is_Some (config_index e)));
     t_resolved_ip := t_resolved_ip t; t_dns := t_dns t; t_definitive := t_definitive t;
     t_steps := t_steps t; t_omitted_steps := t_omitted_steps t;
     t_checked_rules := t_checked_rules t |}.

Definition flush_builtin (v : Tracing) : RouteTrace :=
  if (0 <? tr_misses v)%nat then push_builtin (tr_trace v) (tr_misses v) (tr_needs v)
  else tr_trace v.

Fixpoint trace_loop (es : list RuleEntry) (v : Tracing) : RouteTrace :=
  match es with
  | [] => flush_builtin v
  | e :: es =>
    let v := trace_lookup e v in
    let o := trace_outcome e (tr_ip v) in
    let t := note_checked o (tr_trace v) in
    if negb (bool_decide (is_Some (config_index e))) && negb (bool_decide (o = matched)) then
      trace_loop es {| tr_ip := tr_ip v; tr_attempted := tr_attempted v; tr_trace := t;
                       tr_misses := S (tr_misses v);
                       tr_needs := tr_needs v || bool_decide (o = needs_ip_) |}
    else
      let t := flush_builtin {| tr_ip := tr_ip v; tr_attempted := tr_attempted v; tr_trace := t;
                                tr_misses := tr_misses v; tr_needs := tr_needs v |} in
      let t := push_step t (step e o) (bool_decide (o = matched)) 1 in
      if bool_decide (o = matched) then note_match e t
      else trace_loop es {| tr_ip := tr_ip v; tr_attempted := tr_attempted v; tr_trace := t;
                            tr_misses := 0; tr_needs := false |}
  end.
End trace.

Definition trace_route {U : Unicode} (geoip : option GeoIpDb) (resolve : str → option IpAddr)
    (set : RuleSet) (host : str) (port : Z) (src destination_ip : option IpAddr)
    (resolve_dns : bool) : RouteTrace :=
  let literal := parse_ip host in
  let ip := match literal with Some ip => Some ip | None => destination_ip end in
  trace_loop geoip resolve resolve_dns (unmap_ip <$> src) (to_lowercase host) port (rules set)
    {| tr_ip := ip; tr_attempted := bool_decide (is_Some ip); tr_misses := 0; tr_needs := false;
       tr_trace :=
         {| t_action := default_action set; t_matched_rule := None; t_matched_builtin := false;
            t_resolved_ip := ip;
            t_dns := match literal, ip with
                     | Some _, _ => "literal" | None, Some _ => "provided" | _, _ => "not_needed"
                     end;
            t_definitive := true; t_steps := []; t_omitted_steps := 0; t_checked_rules := 0 |} |}.
