(* ===== verification/RouterSpec.v ===== *)
(** * What the routing engine guarantees *)
From Stdlib Require Import String.
From S2P Require Import Prelude Bytes Text TextTrim Net NetText Lru Sorting FakeIp GeoIp Router.

#[local] Open Scope string_scope.
#[local] Open Scope list_scope.
#[local] Open Scope Z_scope.

(** ** Masks *)
Lemma shl_mask_land width n a :
  0 <= n <= width → 0 <= a < 2 ^ width → Z.land a (shl_mask width n) = a / 2 ^ n * 2 ^ n.
Proof.
  intros Hn Ha. unfold shl_mask.
  assert (a / 2 ^ n * 2 ^ n = Z.shiftl (Z.shiftr a n) n) as ->
    by (by rewrite Z.shiftl_mul_pow2, Z.shiftr_div_pow2 by lia).
  destruct (Z.ltb_spec n width).
  - apply Z.bits_inj'. intros k Hk.
    rewrite Z.land_spec, Z.shiftl_spec, Z.testbit_mod_pow2 by lia.
    replace (2 ^ width - 1) with (Z.ones width) by (rewrite Z.ones_equiv; lia).
    rewrite Z.shiftl_spec by lia.
    destruct (Z.ltb_spec k n).
    { rewrite !(Z.testbit_neg_r _ (k - n)) by lia. by rewrite !andb_false_r. }
    rewrite Z.shiftr_spec by lia. replace (k - n + n) with k by lia.
    destruct (Z.ltb_spec k width) as [|Hbig].
    + rewrite Z.ones_spec_low by lia. by rewrite !andb_true_r.
    + rewrite andb_false_l, andb_false_r. symmetry. rewrite Z.testbit_eqb by lia.
      rewrite Z.div_small; [done|]. split; [lia|].
      apply Z.lt_le_trans with (2 ^ width); [lia|]. apply Z.pow_le_mono_r; lia.
  - replace n with width by lia.
    by rewrite Z.land_0_r, Z.shiftr_div_pow2, Z.div_small, Z.shiftl_0_l by lia.
Qed.

Lemma clear_host_bits_spec width bits a :
  0 <= bits <= width → 0 <= a < 2 ^ width →
  clear_host_bits width bits a = a / 2 ^ (width - bits) * 2 ^ (width - bits).
Proof.
  intros Hb Ha. unfold clear_host_bits. destruct (Z.eqb_spec bits 0) as [->|].
  - rewrite Z.land_0_r, Z.sub_0_r, Z.div_small by lia. done.
  - rewrite <- (shl_mask_land width (width - bits) a) by lia. unfold shl_mask.
    by rewrite (proj2 (Z.ltb_lt (width - bits) width)) by lia.
Qed.

(** ** CIDR matching *)
Definition width_of (ip : IpAddr) : Z := match ip with V4 _ => 32 | V6 _ => 128 end.
Definition value_of (ip : IpAddr) : Z := match ip with V4 a | V6 a => a end.

(** [ip] has the first [bits] bits of [net], in the same family. *)
Definition in_cidr (ip net : IpAddr) (bits : Z) : Prop :=
  width_of ip = width_of net
  ∧ value_of ip / 2 ^ (width_of net - bits) = value_of net / 2 ^ (width_of net - bits).

Lemma value_bound ip : ip_wf ip → 0 <= value_of ip < 2 ^ width_of ip.
Proof. destruct ip; simpl; unfold u32, u128; lia. Qed.

Lemma masked_eq width bits a b :
  0 <= bits <= width → 0 <= a < 2 ^ width → 0 <= b < 2 ^ width →
  (if bits =? 0 then true
   else Z.land a (shl_mask width (width - bits)) =? Z.land b (shl_mask width (width - bits))) = true
  ↔ a / 2 ^ (width - bits) = b / 2 ^ (width - bits).
Proof.
  intros Hb Ha Hb'. destruct (Z.eqb_spec bits 0) as [->|].
  - rewrite Z.sub_0_r, !Z.div_small by lia. done.
  - rewrite !shl_mask_land, Z.eqb_eq by lia.
    assert (0 < 2 ^ (width - bits)) by (apply Z.pow_pos_nonneg; lia).
    split; [|by intros ->]. intros E. apply Z.mul_reg_r in E; lia.
Qed.

Lemma cidr_match_iff ip net bits :
  ip_wf ip → ip_wf net → 0 <= bits <= width_of net →
  cidr_match ip net bits = true ↔ in_cidr ip net bits.
Proof.
  intros Hip Hnet Hb. pose proof (value_bound ip Hip). pose proof (value_bound net Hnet).
  unfold cidr_match, in_cidr. destruct ip as [a|a], net as [b|b]; cbn [width_of value_of] in *;
    try (split; [done|by intros [? _]]).
  - rewrite (masked_eq 32 bits a b) by lia. naive_solver.
  - rewrite (masked_eq 128 bits a b) by lia. naive_solver.
Qed.

(** ** Parsing a scope *)
Lemma parse_cidr_ok s net bits :
  parse_cidr s = Some (net, bits) → ip_wf net ∧ 0 <= bits <= width_of net.
Proof.
  unfold parse_cidr. destruct (split_once slash s) as [[a p]|]; [|done].
  destruct (parse_ip a) as [addr|] eqn:Ha; [|done]. cbn [mbind option_bind].
  destruct (parse_uint 255 p) as [n|] eqn:Hp; [|done]. cbn [mbind option_bind].
  apply parse_ip_wf in Ha. apply parse_uint_nonneg in Hp.
  destruct addr as [v|v]; destruct (Z.ltb_spec 32 n), (Z.ltb_spec 128 n); intros [= <- <-];
    split; (done || simpl; lia).
Qed.

(** The characters of a printed address. *)
Definition addr_char (c : Z) : bool := between 46 46 c || between 48 58 c || between 97 102 c.

Lemma digits_addr_chars l : Forall (λ c, is_digit c = true) l → Forall (λ c, addr_char c = true) l.
Proof.
  intros H. eapply Forall_impl; [exact H|]. simpl. unfold is_digit, addr_char, between. intros. lia.
Qed.

Lemma join_chars (P : Z → Prop) c ps : P c → Forall (Forall P) ps → Forall P (join [c] ps).
Proof.
  intros Hc. induction 1 as [|p ps Hp Hps IH]; [constructor|]. destruct ps as [|q ps]; [done|].
  change (join [c] (p :: q :: ps)) with (p ++ c :: join [c] (q :: ps)).
  apply Forall_app. split; [done|]. by constructor.
Qed.

Lemma show_ipv4_chars a : Forall (λ c, addr_char c = true) (show_ipv4 a).
Proof.
  unfold show_ipv4. apply join_chars; [done|]. apply Forall_map.
  eapply Forall_impl; [apply (be_bytes_u8 4 a)|]. intros n Hn. unfold u8 in Hn.
  apply digits_addr_chars, show_uint_digits. lia.
Qed.

Lemma show_groups_chars gs : Forall u16 gs → Forall (λ c, addr_char c = true) (show_groups gs).
Proof.
  intros Hgs. unfold show_groups. apply join_chars; [done|]. apply Forall_map.
  eapply Forall_impl; [exact Hgs|]. intros g Hg. unfold u16 in Hg.
  destruct (show_hex_read 4 g) as (_ & _ & _ & Hd & _); [simpl; lia|lia|].
  eapply Forall_impl; [exact Hd|]. intros c (d & Hd' & ->). unfold hex_digit, addr_char, between.
  destruct (Z.ltb_spec d 10); lia.
Qed.

Lemma show_ip_chars ip : ip_wf ip → Forall (λ c, addr_char c = true) (show_ip ip).
Proof.
  destruct ip as [a|a]; intros Ha; [apply show_ipv4_chars|]. cbn [show_ip]. unfold show_ipv6.
  destruct (to_ipv4_mapped a).
  { apply Forall_app. split; [by repeat constructor|apply show_ipv4_chars]. }
  destruct (segments_ok a Ha) as [Hu _]. destruct (longest_zeros (segments a)) as [s n].
  case_match; [|by apply show_groups_chars].
  apply Forall_app. split; [by apply show_groups_chars, Forall_take|].
  apply Forall_app. split; [by repeat constructor|by apply show_groups_chars, Forall_drop].
Qed.

Lemma parse_show_cidr net bits :
  ip_wf net → 0 <= bits <= width_of net →
  parse_cidr (show_ip net ++ [slash] ++ show_uint bits) = Some (net, bits).
Proof.
  intros Hnet Hb. unfold parse_cidr.
  assert (bits <= 255) by (destruct net; simpl in Hb; lia). cbn [app]. rewrite split_once_app.
  2: { intros Hin. pose proof (show_ip_chars net Hnet) as Hc. rewrite Forall_forall in Hc.
       by specialize (Hc _ Hin). }
  rewrite parse_show_ip by done. cbn [mbind option_bind]. rewrite parse_show_uint by lia.
  cbn [mbind option_bind]. destruct net; simpl in Hb; by rewrite (proj2 (Z.ltb_ge _ bits)) by lia.
Qed.

(** ** Client scopes in canonical form *)
Definition written_scope (value : str) : option (IpAddr * Z) :=
  let v := trim value in
  if contains v [slash] then parse_cidr v
  else ip ← parse_ip v; Some (ip, width_of ip).

(** The form in which a client address is compared with the written scope. *)
Definition as_written (net ip : IpAddr) : IpAddr :=
  match net, ip with
  | V6 n, V4 a => if bool_decide (is_Some (to_ipv4_mapped n)) then V6 (65535 * 2 ^ 32 + a) else ip
  | _, _ => ip
  end.

Definition cleared (ip : IpAddr) (bits : Z) : IpAddr :=
  match ip with V4 a => V4 (clear_host_bits 32 bits a) | V6 a => V6 (clear_host_bits 128 bits a) end.

Definition fold_mapped (ip : IpAddr) (bits : Z) : option (IpAddr * Z) :=
  match ip with
  | V6 v6 => match to_ipv4_mapped v6 with
             | Some v4 => if bits <? 96 then None else Some (V4 v4, bits - 96)
             | None => Some (ip, bits)
             end
  | V4 _ => Some (ip, bits)
  end.

Lemma written_scope_ok value net bits :
  written_scope value = Some (net, bits) → ip_wf net ∧ 0 <= bits <= width_of net.
Proof.
  unfold written_scope. destruct (contains _ _); [apply parse_cidr_ok|].
  destruct (parse_ip (trim value)) as [ip|] eqn:E; [|done]. intros [= <- <-].
  split; [by eapply parse_ip_wf|]. destruct ip; simpl; lia.
Qed.

Lemma fold_mapped_ok ip bits ip' bits' :
  ip_wf ip → 0 <= bits <= width_of ip → fold_mapped ip bits = Some (ip', bits') →
  ip_wf ip' ∧ 0 <= bits' <= width_of ip' ∧ unmap_ip ip' = ip'.
Proof.
  unfold fold_mapped. destruct ip as [a|a]; intros Hip Hb; [by intros [= <- <-]|].
  unfold to_ipv4_mapped. destruct (Z.eqb_spec (a / 4294967296) 65535) as [E|E].
  - destruct (Z.ltb_spec bits 96); [done|]. intros [= <- <-]. simpl in *. unfold u32. split; [lia|].
    split; [lia|done].
  - intros [= <- <-]. split; [done|]. split; [done|]. simpl. unfold to_ipv4_mapped.
    by rewrite (proj2 (Z.eqb_neq _ _)).
Qed.

Lemma cleared_ok ip bits :
  ip_wf ip → 0 <= bits <= width_of ip →
  ip_wf (cleared ip bits) ∧ width_of (cleared ip bits) = width_of ip
  ∧ value_of (cleared ip bits) = value_of ip / 2 ^ (width_of ip - bits) * 2 ^ (width_of ip - bits).
Proof.
  intros Hip Hb. pose proof (value_bound ip Hip).
  assert (0 < 2 ^ (width_of ip - bits)) by (apply Z.pow_pos_nonneg; lia).
  destruct ip as [a|a]; cbn [cleared width_of value_of ip_wf] in *; rewrite clear_host_bits_spec by lia;
    unfold u32, u128 in *; (split; [|done]);
    match goal with _ : 0 < ?k |- context [?a / ?k] =>
      pose proof (Z.mul_div_le a k); pose proof (Z.div_pos a k) end; lia.
Qed.

Lemma div_div_mul a k : 0 < k → a / k * k / k = a / k.
Proof. intros. by rewrite Z.div_mul by lia. Qed.

Lemma unmap_cleared ip bits :
  ip_wf ip → 0 <= bits <= width_of ip → unmap_ip ip = ip →
  unmap_ip (cleared ip bits) = cleared ip bits.
Proof.
  destruct ip as [a|a]; intros Hip Hb Hu; [done|]. simpl in *. unfold to_ipv4_mapped in *.
  rewrite clear_host_bits_spec by (unfold u128 in *; lia).
  destruct (Z.eqb_spec (a / 4294967296) 65535) as [|Hne]; [done|].
  set (k := 128 - bits). destruct (Z.eqb_spec (a / 2 ^ k * 2 ^ k / 4294967296) 65535) as [E|]; [|done].
  exfalso. destruct (Z.leb_spec k 32).
  - apply Hne. rewrite <- E. change 4294967296 with (2 ^ 32). replace 32 with (k + (32 - k)) by lia.
    rewrite Z.pow_add_r, <- !Z.div_div by (try apply Z.pow_pos_nonneg; lia).
    rewrite Z.div_mul; [done|]. assert (0 < 2 ^ k) by (apply Z.pow_pos_nonneg; lia). lia.
  - replace k with (33 + (k - 33)) in E at 2 by lia. rewrite Z.pow_add_r in E by lia.
    set (q := a / 2 ^ k * 2 ^ (k - 33)).
    replace (a / 2 ^ k * (2 ^ 33 * 2 ^ (k - 33))) with ((2 * q) * 2 ^ 32) in E by (unfold q; lia).
    change 4294967296 with (2 ^ 32) in E. rewrite Z.div_mul in E by lia. lia.
Qed.

Ltac ok_eq H :=
  match goal with |- ?w = ?x => assert (Ok x = Ok w) as E by exact H; congruence end.

Lemma normalize_cases value w :
  normalize_rule_source value = Ok w → w ≠ [] →
  ∃ net0 bits0 ip bits, written_scope value = Some (net0, bits0)
    ∧ fold_mapped net0 bits0 = Some (ip, bits)
    ∧ w = show_ip (cleared ip bits) ++ [slash] ++ show_uint bits.
Proof.
  unfold normalize_rule_source, written_scope. case_match; [by intros [= <-]|]. intros Hn Hne.
  destruct (contains (trim value) [slash]).
  - destruct (parse_cidr (trim value)) as [[net0 bits0]|]; [|done]. cbn in Hn.
    exists net0, bits0. unfold fold_mapped. destruct net0 as [a|a].
    + cbn in Hn. exists (V4 a), bits0. split; [done|]. split; [done|]. ok_eq Hn.
    + destruct (to_ipv4_mapped a) as [v4|]; [case_match; [done|]|]; cbn in Hn;
        eexists _, _; (split; [done|]); (split; [done|]); ok_eq Hn.
  - destruct (parse_ip (trim value)) as [net0|]; [|done]. cbn in Hn.
    exists net0, (width_of net0). unfold fold_mapped. destruct net0 as [a|a]; cbn [is_ipv4 width_of] in *.
    + cbn in Hn. exists (V4 a), 32. split; [done|]. split; [done|]. ok_eq Hn.
    + destruct (to_ipv4_mapped a) as [v4|]; cbn in Hn;
        eexists _, _; (split; [done|]); (split; [done|]); ok_eq Hn.
Qed.

Lemma cidr_text_trim net bits :
  ip_wf net → 0 <= bits <= width_of net →
  let w := show_ip net ++ [slash] ++ show_uint bits in
  trim w = w ∧ len w =? 0 = false ∧ contains w [slash] = true.
Proof.
  intros Hnet Hb w. destruct (show_uint_digits bits) as [Hd Hdn]; [destruct net; simpl in Hb; lia|].
  pose proof (show_ip_chars net Hnet) as Hc.
  assert (Forall (λ c, addr_char c = true ∨ c = slash) w) as Hw.
  { unfold w. apply Forall_app. split; [eapply Forall_impl; [exact Hc|]; by left|].
    constructor; [by right|]. eapply Forall_impl; [by apply digits_addr_chars|]. by left. }
  assert (∀ c, addr_char c = true ∨ c = slash → is_whitespace c = false) as Hns.
  { intros c [H| ->]; [|done]. unfold addr_char, is_whitespace, between in *. lia. }
  destruct (exists_last Hdn) as (d & z & Ez).
  assert (head w = Some (hd 0 w) ∧ w ≠ []) as [Hh Hne].
  { unfold w. by destruct (show_ip net). }
  split.
  - apply (trim_ends _ (hd 0 w) z); [done|unfold w; rewrite Ez, !app_assoc; apply last_snoc| |].
    + apply Hns. rewrite Forall_forall in Hw. apply Hw. destruct w; [done|by left].
    + apply Hns. rewrite Forall_forall in Hw. apply Hw. unfold w. rewrite Ez.
      rewrite !elem_of_app. right. right. right. by left.
  - split; [|apply contains_spec; by exists (show_ip net), (show_uint bits)].
    apply Z.eqb_neq. destruct w; [done|]. rewrite len_cons. pose proof (len_nonneg w). lia.
Qed.

Lemma normalize_canonical net bits :
  ip_wf net → 0 <= bits <= width_of net → unmap_ip net = net →
  normalize_rule_source (show_ip net ++ [slash] ++ show_uint bits)
  = Ok (show_ip (cleared net bits) ++ [slash] ++ show_uint bits).
Proof.
  intros Hnet Hb Hu. destruct (cidr_text_trim net bits Hnet Hb) as (Ht & Hl & Hc).
  unfold normalize_rule_source. rewrite Ht, Hl, Hc, parse_show_cidr by done. cbn.
  destruct net as [a|a]; [done|]. simpl in Hu. unfold to_ipv4_mapped in *.
  by destruct (a / 4294967296 =? 65535).
Qed.

Lemma cleared_idem ip bits :
  ip_wf ip → 0 <= bits <= width_of ip → cleared (cleared ip bits) bits = cleared ip bits.
Proof.
  intros Hip Hb. destruct (cleared_ok ip bits Hip Hb) as (Hw & Hwi & Hv).
  destruct (cleared_ok (cleared ip bits) bits Hw ltac:(by rewrite Hwi)) as (_ & Hwi' & Hv').
  rewrite Hwi in Hv'. rewrite Hv in Hv'.
  assert (0 < 2 ^ (width_of ip - bits)) by (apply Z.pow_pos_nonneg; lia).
  rewrite div_div_mul in Hv' by done. rewrite <- Hv in Hv'. clear -Hv'. destruct ip; simpl in *; congruence.
Qed.

Lemma in_cidr_cleared ip net bits :
  ip_wf net → 0 <= bits <= width_of net → in_cidr ip (cleared net bits) bits ↔ in_cidr ip net bits.
Proof.
  intros Hnet Hb. destruct (cleared_ok net bits Hnet Hb) as (_ & Hw & Hv).
  unfold in_cidr. rewrite Hw, Hv.
  assert (0 < 2 ^ (width_of net - bits)) by (apply Z.pow_pos_nonneg; lia).
  by rewrite div_div_mul by done.
Qed.

Lemma in_cidr_folded ip net0 bits0 net bits :
  ip_wf ip → unmap_ip ip = ip → ip_wf net0 → 0 <= bits0 <= width_of net0 →
  fold_mapped net0 bits0 = Some (net, bits) →
  in_cidr ip net bits ↔ in_cidr (as_written net0 ip) net0 bits0.
Proof.
  intros Hip Hu Hnet Hb. unfold fold_mapped, as_written. destruct net0 as [n|n]; [by intros [= <- <-]|].
  destruct (to_ipv4_mapped n) as [v4|] eqn:Hm.
  2: { intros [= <- <-]. by destruct ip. }
  unfold to_ipv4_mapped in Hm. destruct (Z.eqb_spec (n / 4294967296) 65535) as [Hq|]; [|done].
  injection Hm as <-. destruct (Z.ltb_spec bits0 96); [done|]. intros [= <- <-].
  simpl in Hb, Hnet. set (k := 128 - bits0). destruct ip as [a|a]; cbn.
  - unfold in_cidr. cbn [width_of value_of]. replace (32 - (bits0 - 96)) with k by lia. fold k.
    simpl in Hip. unfold u32 in Hip.
    assert (2 ^ 32 = 2 ^ (32 - k) * 2 ^ k) as H32 by (rewrite <- Z.pow_add_r by lia; f_equal; lia).
    assert (0 < 2 ^ k) by (apply Z.pow_pos_nonneg; lia).
    assert ((65535 * 2 ^ 32 + a) / 2 ^ k = 65535 * 2 ^ (32 - k) + a / 2 ^ k) as ->.
    { rewrite H32. rewrite Z.mul_assoc, Z.div_add_l by lia. done. }
    assert (n / 2 ^ k = 65535 * 2 ^ (32 - k) + n mod 4294967296 / 2 ^ k) as ->.
    { rewrite (Z.div_mod n 4294967296) at 1 by lia. rewrite Hq.
      change 4294967296 with (2 ^ 32) at 1. rewrite H32 at 1.
      replace (2 ^ (32 - k) * 2 ^ k * 65535) with (65535 * 2 ^ (32 - k) * 2 ^ k) by lia.
      by rewrite Z.div_add_l by lia. }
    split; intros [? ?]; (split; [done|lia]).
  - unfold in_cidr. cbn [width_of value_of]. fold k. split; [by intros [? _]|]. intros [_ E].
    exfalso. simpl in Hu. unfold to_ipv4_mapped in Hu.
    destruct (Z.eqb_spec (a / 4294967296) 65535) as [|Ha]; [done|]. apply Ha. rewrite <- Hq.
    change 4294967296 with (2 ^ 32). replace 32 with (k + (32 - k)) by lia.
    rewrite Z.pow_add_r, <- !Z.div_div by (try apply Z.pow_pos_nonneg; lia). by rewrite E.
Qed.

(** ** First match *)
Section matching.
Context {U : Unicode} (geoip : option GeoIpDb).

Lemma first_action_find ctx h ip port d es :
  first_action geoip ctx h ip port d es
  = match List.find (applies geoip ctx h ip port) es with Some e => action e | None => d end.
Proof.
  induction es as [|e es IH]; [done|]. cbn [first_action List.find]. unfold applies at 1.
  destruct (source_matches (source e) (client_source ctx)); cbn [negb andb]; [|done].
  by destruct (rule_matches _ _ _ _ _ _).
Qed.

(** Only IP rules look at the address. *)
Lemma rule_matches_no_ip ctx r h ip ip' port :
  needs_ip r = false → rule_matches geoip ctx r h ip port = rule_matches geoip ctx r h ip' port.
Proof. by destruct r. Qed.

Lemma resolving_attempted resolve ctx h ip port d es :
  resolving_action geoip resolve ctx h ip true port d es
  = first_action geoip ctx h ip port d es.
Proof.
  induction es as [|e es IH]; [done|]. cbn [resolving_action first_action].
  destruct (negb _); [done|]. cbn [negb andb orb]. by rewrite IH.
Qed.

(** Resolving at the first IP rule is resolving before the first rule. *)
Lemma resolving_lazy resolve ctx h ip port d es :
  resolving_action geoip resolve ctx h ip false port d es
  = first_action geoip ctx h (resolve h) port d es.
Proof.
  induction es as [|e es IH]; [done|]. cbn [resolving_action first_action].
  destruct (negb _); [done|]. cbn [negb andb orb]. destruct (needs_ip (rule e)) eqn:Hn.
  - by rewrite resolving_attempted.
  - rewrite (rule_matches_no_ip ctx (rule e) h ip (resolve h)) by done. by rewrite IH.
Qed.

Definition effective_ip (resolve : str → option IpAddr) (ctx : Context) (host : str) : option IpAddr :=
  match host_ip ctx host with Some ip => Some ip | None => resolve (to_lowercase host) end.

Lemma route_resolving_find resolve set ctx host port :
  route_uncached_resolving geoip resolve set ctx host port
  = match List.find (applies geoip ctx (to_lowercase host) (effective_ip resolve ctx host) port)
            (rules set) with
    | Some e => action e
    | None => default_action set
    end.
Proof.
  unfold route_uncached_resolving, effective_ip.
  destruct (host_ip ctx host) as [ip|]; cbn [bool_decide].
  - rewrite bool_decide_eq_true_2 by done. rewrite resolving_attempted. apply first_action_find.
  - rewrite bool_decide_eq_false_2 by (by intros [? ?]). rewrite resolving_lazy. apply first_action_find.
Qed.

Lemma domain_action_find ctx h es :
  domain_action geoip ctx h es
  = action <$> List.find (λ e, applies geoip ctx h None 0 e && is_domain_rule (rule e)) es.
Proof.
  induction es as [|e es IH]; [done|]. cbn [domain_action List.find]. unfold applies at 1.
  destruct (source_matches (source e) (client_source ctx)); cbn [negb andb]; [|done].
  rewrite andb_comm. by destruct (rule_matches _ _ _ _ _ _ && _).
Qed.
End matching.

Lemma find_split {A} (p : A → bool) l :
  match List.find p l with
  | Some x => ∃ l1 l2, l = l1 ++ x :: l2 ∧ p x = true ∧ Forall (λ y, p y = false) l1
  | None => Forall (λ y, p y = false) l
  end.
Proof.
  induction l as [|x l IH]; simpl; [constructor|]. destruct (p x) eqn:Hx.
  - by exists [], l.
  - destruct (List.find p l) as [y|].
    + destruct IH as (l1 & l2 & -> & Hy & Hl). exists (x :: l1), l2. split; [done|].
      split; [done|]. by constructor.
    + by constructor.
Qed.

(** ** Compilation of validated rules *)
Lemma is_ascii_map_lower s : is_ascii (to_ascii_lowercase s) = true → is_ascii s = true.
Proof.
  unfold is_ascii, to_ascii_lowercase. rewrite !forallb_forall. intros H c Hc.
  specialize (H (lower_byte c) (in_map _ _ _ Hc)).
  destruct (lower_byte_cases c) as [E|[Hr E]]; rewrite E in H; [done|].
  unfold between in *. lia.
Qed.

Lemma one_of_spec s names : one_of s names = true ↔ ∃ n, n ∈ names ∧ s = lit n.
Proof.
  unfold one_of. rewrite existsb_exists. setoid_rewrite bool_decide_eq_true.
  split; intros (n & Hn & E); exists n; split; try done; by apply list_elem_of_In.
Qed.

Section compile.
Context {U : Unicode}.

(** On a name that is one of the code's keywords in some ASCII case, the two
    lower-casings agree. *)
Lemma lower_keyword s names :
  one_of (to_ascii_lowercase s) names = true → forallb (λ n, is_ascii (lit n)) names = true →
  to_lowercase s = to_ascii_lowercase s.
Proof.
  intros (n & Hn & E)%one_of_spec Ha. apply to_lowercase_ascii, is_ascii_map_lower.
  rewrite E. rewrite forallb_forall in Ha. apply Ha. by apply list_elem_of_In.
Qed.

Lemma check_pattern_compiles kind pattern :
  check_pattern (to_ascii_lowercase kind) pattern = Ok tt → is_Some (compile_match kind pattern).
Proof.
  unfold check_pattern, compile_match. intros H.
  destruct (one_of (to_ascii_lowercase kind) ["domain"; "domain-suffix"; "domain-keyword"]) eqn:E1.
  { rewrite (lower_keyword _ _ E1) by done.
    apply one_of_spec in E1 as (n & Hn & E). rewrite E in *. clear E. repeat (apply elem_of_cons in Hn as [->|Hn]; [eexists; reflexivity|]).
    by apply elem_of_nil in Hn. }
  destruct (one_of (to_ascii_lowercase kind) ["ip-cidr"]) eqn:E2; cbn [andb] in H.
  { rewrite (lower_keyword _ _ E2) by done. apply one_of_spec in E2 as (n & Hn & E). rewrite E in *. clear E.
    apply list_elem_of_singleton in Hn as ->.
    destruct (parse_cidr pattern) as [[a p]|]; [eexists; reflexivity|].
    rewrite bool_decide_eq_false_2 in H by (by intros [? ?]). discriminate H. }
  destruct (one_of (to_ascii_lowercase kind) ["geoip"]) eqn:E3; cbn [andb] in H.
  { rewrite (lower_keyword _ _ E3) by done. apply one_of_spec in E3 as (n & Hn & E). rewrite E in *. clear E.
    apply list_elem_of_singleton in Hn as ->. eexists; reflexivity. }
  destruct (one_of (to_ascii_lowercase kind) ["dst-port"; "port"]) eqn:E4; cbn [andb] in H.
  { rewrite (lower_keyword _ _ E4) by done. apply one_of_spec in E4 as (n & Hn & E). rewrite E in *. clear E.
    destruct (parse_port_range pattern) as [[a b]|].
    - repeat (apply elem_of_cons in Hn as [->|Hn]; [eexists; reflexivity|]). by apply elem_of_nil in Hn.
    - repeat (apply elem_of_cons in Hn as [->|Hn]; [done|]). by apply elem_of_nil in Hn. }
  apply ensure_ok in H. rewrite (lower_keyword _ _ H) by done.
  apply one_of_spec in H as (n & Hn & E). rewrite E in *. clear E.
  repeat (apply elem_of_cons in Hn as [->|Hn]; [eexists; reflexivity|]). by apply elem_of_nil in Hn.
Qed.

Lemma strip_prefix_some p s t : strip_prefix p s = Some t → s = p ++ t.
Proof.
  unfold strip_prefix. destruct (starts_with p s) eqn:E; [|done]. intros [= <-].
  apply starts_with_spec in E as [t ->]. by rewrite drop_app_length.
Qed.

Lemma node_target_prefix t id : node_target_id t = Some id → strip_prefix (lit "node:") t = Some id.
Proof.
  unfold node_target_id. destruct (strip_prefix (lit "node:") t); [|done]. simpl. by case_match.
Qed.

Lemma compile_action_proxy target :
  valid_target target = true →
  compile_action target = Proxy ↔ to_ascii_lowercase target = lit "proxy".
Proof.
  unfold valid_target, compile_action. intros Hv.
  destruct (strip_prefix (lit "group:") target) as [g|] eqn:Hg.
  { apply strip_prefix_some in Hg as ->. done. }
  destruct (strip_prefix (lit "node:") target) as [n|] eqn:Hn.
  { apply strip_prefix_some in Hn as ->. done. }
  rewrite (bool_decide_eq_false_2 (is_Some _)), !orb_false_r in Hv.
  2: { intros [id Hid]. apply node_target_prefix in Hid. congruence. }
  rewrite (lower_keyword _ _ Hv) by done. apply one_of_spec in Hv as (n & Hin & ->).
  repeat (apply elem_of_cons in Hin as [->|Hin]; [done|]). by apply elem_of_nil in Hin.
Qed.

Lemma trim_nil : trim [] = [].
Proof. done. Qed.

Definition scope_is (value : str) (scope : option (IpAddr * Z)) : Prop :=
  match scope with
  | None => trim value = []
  | Some (net, bits) =>
    ∃ net0 bits0, written_scope value = Some (net0, bits0) ∧
      ∀ ip, ip_wf ip → unmap_ip ip = ip →
        cidr_match ip net bits = true ↔ in_cidr (as_written net0 ip) net0 bits0
  end.

Lemma normalized_scope value w :
  normalize_rule_source value = Ok w → w ≠ [] →
  ∃ net bits, parse_cidr w = Some (net, bits) ∧ scope_is value (Some (net, bits))
              ∧ normalize_rule_source w = Ok w.
Proof.
  intros Hn Hne. destruct (normalize_cases _ _ Hn Hne) as (net0 & bits0 & ip & bits & Hw & Hf & ->).
  destruct (written_scope_ok _ _ _ Hw) as [Hnet0 Hb0].
  destruct (fold_mapped_ok _ _ _ _ Hnet0 Hb0 Hf) as (Hip & Hb & Hu).
  destruct (cleared_ok ip bits Hip Hb) as (Hc & Hcw & _).
  assert (0 <= bits <= width_of (cleared ip bits)) as Hbc by lia.
  exists (cleared ip bits), bits. split; [by apply parse_show_cidr|]. split.
  - exists net0, bits0. split; [done|]. intros c Hc' Huc.
    rewrite cidr_match_iff, in_cidr_cleared by done.
    by apply (in_cidr_folded c net0 bits0 ip bits).
  - rewrite normalize_canonical by (done || by apply unmap_cleared). by rewrite cleared_idem.
Qed.

Lemma normalize_nil value : normalize_rule_source value = Ok [] → trim value = [].
Proof.
  unfold normalize_rule_source. destruct (Z.eqb_spec (len (trim value)) 0) as [E|].
  { intros _. by apply len_zero_nil. }
  intros H. inv_ok. destruct x as [ip bits]. inv_ok. destruct x as [ip' bits'].
  injection H as H. apply (f_equal length) in H. rewrite !length_app in H. simpl in H. lia.
Qed.

Lemma compile_source_ok value w :
  normalize_rule_source value = Ok w → ∃ scope, compile_source value = Some scope ∧ scope_is value scope.
Proof.
  intros Hn. unfold compile_source. destruct (Z.eqb_spec (len value) 0) as [E|].
  { exists None. split; [done|]. apply len_zero_nil in E as ->. done. }
  rewrite Hn. destruct (decide (w = [])) as [->|Hne].
  - exists None. split; [done|]. by apply normalize_nil.
  - destruct (normalized_scope _ _ Hn Hne) as (net & bits & Hp & Hs & _).
    exists (Some (net, bits)). by rewrite Hp.
Qed.

(** ** The order of compiled rules *)
Lemma rule_le_spec a b :
  rule_le a b = true ↔
  r_priority b.2 < r_priority a.2 ∨ r_priority b.2 = r_priority a.2 ∧ (a.1 <= b.1)%nat.
Proof.
  unfold rule_le. rewrite orb_true_iff, andb_true_iff, Z.ltb_lt, Z.eqb_eq, Nat.leb_le. naive_solver.
Qed.

Lemma rule_le_total a b : rule_le a b = true ∨ rule_le b a = true.
Proof. rewrite !rule_le_spec. lia. Qed.

Lemma rule_le_trans a b c : rule_le a b = true → rule_le b c = true → rule_le a c = true.
Proof. rewrite !rule_le_spec. lia. Qed.

Lemma elem_of_enumerate {A} (l : list A) i x : (i, x) ∈ enumerate l ↔ l !! i = Some x.
Proof.
  unfold enumerate. rewrite elem_of_lookup_imap. split.
  - intros (j & y & [= -> ->] & H). done.
  - intros H. by exists i, x.
Qed.

Definition ranked (rs : list RoutingRule) : list (nat * RoutingRule) :=
  sort_by rule_le (List.filter (λ ir, r_enabled ir.2) (enumerate rs)).

Lemma elem_of_ranked rs i r : (i, r) ∈ ranked rs ↔ rs !! i = Some r ∧ r_enabled r = true.
Proof.
  unfold ranked. rewrite (sort_by_perm rule_le). rewrite list_elem_of_In, filter_In, <- list_elem_of_In.
  by rewrite elem_of_enumerate.
Qed.

Lemma find_omap {A B} (f : A → option B) (p : B → bool) l :
  match List.find p (omap f l) with
  | Some y => ∃ l1 x l2, l = l1 ++ x :: l2 ∧ f x = Some y ∧ p y = true
                         ∧ Forall (λ z, ∀ w, f z = Some w → p w = false) l1
  | None => Forall (λ z, ∀ w, f z = Some w → p w = false) l
  end.
Proof.
  induction l as [|x l IH]; [constructor|].
  change (omap f (x :: l)) with (match f x with Some y => y :: omap f l | None => omap f l end).
  destruct (f x) as [y|] eqn:Hf; cbn [List.find].
  - destruct (p y) eqn:Hp.
    + exists [], x, l. by repeat (split; [done|]).
    + destruct (List.find p (omap f l)) as [y'|].
      * destruct IH as (l1 & x' & l2 & -> & H1 & H2 & H3). exists (x :: l1), x', l2.
        repeat (split; [done|]). apply Forall_cons; split; [intros; congruence|done].
      * apply Forall_cons; split; [intros; congruence|done].
  - destruct (List.find p (omap f l)) as [y'|].
    + destruct IH as (l1 & x' & l2 & -> & H1 & H2 & H3). exists (x :: l1), x', l2.
      repeat (split; [done|]). apply Forall_cons; split; [intros; congruence|done].
    + apply Forall_cons; split; [intros; congruence|done].
Qed.
End compile.

(** ** Theorems on rules *)
Section rules.
Context {U : Unicode}.

(** A rule that passes validation is never lost and never weakened: when
    enabled it compiles to an entry with its own index; its action is the
    global proxy only if the target says so; the entry is open to every client
    only if the written source is blank, and otherwise admits exactly the
    clients of the written address or network. *)
Theorem validated_rule_compiles i r :
  r_enabled r = true → validate_rule r = Ok tt →
  ∃ e, compile_rule (i, r) = Some e ∧ config_index e = Some i
    ∧ (action e = Proxy ↔ to_ascii_lowercase (r_target r) = lit "proxy")
    ∧ match source e with
      | None => trim (r_source r) = []
      | Some (net, bits) =>
        ∃ net0 bits0, written_scope (r_source r) = Some (net0, bits0) ∧
          ∀ ip, ip_wf ip → unmap_ip ip = ip →
            cidr_match ip net bits = true ↔ in_cidr (as_written net0 ip) net0 bits0
      end.
Proof.
  intros He Hv. unfold validate_rule in Hv. rewrite He in Hv. cbn [negb] in Hv.
  apply bind_ok in Hv as (? & Ht & Hv). apply ensure_ok in Ht.
  apply bind_ok in Hv as ([] & Hp & Hv). apply check_pattern_compiles in Hp as [m Hm].
  destruct (normalize_rule_source (r_source r)) as [w| | |] eqn:Hn; try done.
  destruct (compile_source_ok _ _ Hn) as (scope & Hs & Hscope).
  eexists. unfold compile_rule. rewrite Hm. cbn [mbind option_bind]. rewrite Hs. cbn [mbind option_bind].
  split; [done|]. split; [done|]. split; [by apply compile_action_proxy|].
  cbn [source]. unfold scope_is in Hscope. by destruct scope as [[? ?]|].
Qed.

(** Client scopes have one canonical spelling: what
    [normalize_rule_source] returns parses as a CIDR, is its own normal form,
    and matches a client exactly when the scope as written does (an
    IPv4-mapped scope being compared with the mapped form of an IPv4 client). *)
Theorem rule_source_canonical value w :
  normalize_rule_source value = Ok w → w ≠ [] →
  ∃ net bits net0 bits0, parse_cidr w = Some (net, bits) ∧ normalize_rule_source w = Ok w
    ∧ written_scope value = Some (net0, bits0)
    ∧ ∀ ip, ip_wf ip → unmap_ip ip = ip →
        source_matches (Some (net, bits)) (Some ip) = true ↔ in_cidr (as_written net0 ip) net0 bits0.
Proof.
  intros Hn Hne. destruct (normalized_scope _ _ Hn Hne) as (net & bits & Hp & (n0 & b0 & Hw & Hs) & Hi).
  by exists net, bits, n0, b0.
Qed.

(** C37. The decision is that of the first matching rule in priority order: it
    is the action of an enabled rule that applies and that no applicable rule
    outranks (higher priority, or equal priority and earlier position), and
    the default only when no rule applies. *)
Theorem route_priority rs geoip ctx host port :
  let ok := applies geoip ctx (to_lowercase host) (host_ip ctx host) port in
  let a := route_uncached geoip (from_config rs) ctx host port in
  (∃ i r e, rs !! i = Some r ∧ r_enabled r = true ∧ compile_rule (i, r) = Some e ∧ ok e = true
     ∧ a = action e
     ∧ ∀ j r' e', rs !! j = Some r' → r_enabled r' = true → compile_rule (j, r') = Some e' →
         ok e' = true → r_priority r' < r_priority r ∨ r_priority r' = r_priority r ∧ (i <= j)%nat)
  ∨ (a = Proxy ∧ ∀ i r e, rs !! i = Some r → r_enabled r = true → compile_rule (i, r) = Some e →
       ok e = false).
Proof.
  intros ok a. subst a. unfold route_uncached. rewrite first_action_find. fold ok.
  change (rules (from_config rs)) with (omap compile_rule (ranked rs)).
  pose proof (find_omap compile_rule ok (ranked rs)) as H.
  destruct (List.find ok (omap compile_rule (ranked rs))) as [e|]; [left|right].
  - destruct H as (l1 & [i r] & l2 & Hl & He & Hok & Hno). exists i, r, e.
    assert ((i, r) ∈ ranked rs) as Hin by (rewrite Hl; apply elem_of_app; right; by left).
    apply elem_of_ranked in Hin as [Hi Hen]. repeat (split; [done|]).
    intros j r' e' Hj Hen' He' Hok'.
    assert ((j, r') ∈ ranked rs) as Hin' by (by apply elem_of_ranked).
    assert (sorted rule_le (ranked rs)) as Hs
      by (apply sort_by_sorted; [apply rule_le_total|apply rule_le_trans]).
    rewrite Hl in Hin', Hs. apply elem_of_app in Hin' as [Hin'|Hin'].
    { rewrite Forall_forall in Hno. specialize (Hno _ Hin' _ He'). congruence. }
    apply elem_of_cons in Hin' as [[= -> ->]|Hin'].
    { right. split; [done|lia]. }
    apply strongly_sorted_app in Hs as (_ & Hs & _). inversion_clear Hs as [|? ? _ Hf].
    rewrite Forall_forall in Hf. by apply Hf, rule_le_spec in Hin'.
  - split; [done|]. intros i r e Hi Hen He. rewrite Forall_forall in H.
    apply (H (i, r)); [by apply elem_of_ranked|done].
Qed.

(** Resolving late costs nothing: the decision reached by looking the name
    up at the first applicable IP rule is the one reached by having the address
    from the start, and a known address (a literal host or a TUN destination)
    is never looked up. *)
Theorem route_resolving_eager geoip resolve set ctx host port :
  route_uncached_resolving geoip resolve set ctx host port
  = first_action geoip ctx (to_lowercase host)
      (match host_ip ctx host with Some ip => Some ip | None => resolve (to_lowercase host) end)
      port (default_action set) (rules set)
  ∧ (is_Some (host_ip ctx host) →
     route_uncached_resolving geoip resolve set ctx host port = route_uncached geoip set ctx host port).
Proof.
  rewrite first_action_find. split; [apply route_resolving_find|]. intros [ip Hip].
  rewrite route_resolving_find. unfold route_uncached, effective_ip. rewrite first_action_find.
  by rewrite Hip.
Qed.
End rules.

(** ** The cache *)
Section cache.
Context {U : Unicode} {C : Type} `{LRU : Lru RouteCacheKey RouteAction C}.
Implicit Types r : Router C.

(** What a cached decision must be. *)
Definition decision_of (r : Router C) (key : RouteCacheKey) (a : RouteAction) : Prop :=
  ∀ ctx host port, client_cache_key ctx host port = key →
    a = route_uncached (r_geoip r) (r_rules r) ctx host port.

Definition cache_ok (r : Router C) : Prop :=
  ∀ key a, lru_peek key (r_cache r) = Some a → decision_of r key a.

Lemma same_key_same_decision geoip set ctx ctx' host host' port port' :
  client_cache_key ctx host port = client_cache_key ctx' host' port' →
  route_uncached geoip set ctx host port = route_uncached geoip set ctx' host' port'.
Proof.
  intros Hk.
  assert (to_lowercase host = to_lowercase host') as Hh by (by apply (f_equal k_host) in Hk).
  assert (port = port') as -> by (by apply (f_equal k_port) in Hk).
  assert (ctx = ctx') as ->.
  { apply (f_equal k_source) in Hk as Hs. apply (f_equal k_destination) in Hk as Hd.
    destruct ctx, ctx'; simpl in *; congruence. }
  unfold route_uncached. rewrite Hh. f_equal. unfold host_ip.
  by rewrite <- (to_lowercase_ip host), Hh, to_lowercase_ip.
Qed.

(** The only operations on a router. *)
Inductive serves (r0 : Router C) : Router C → Prop :=
  | serve_new : serves r0 r0
  | serve_route r ctx host port : serves r0 r → serves r0 (route r ctx host port).2
  | serve_resolving r resolve ctx host port :
      serves r0 r → serves r0 (route_resolving resolve r ctx host port).2.

Lemma cached_ok r ctx host port :
  cache_ok r → (0 < lru_cap (r_cache r))%nat →
  let d := route_uncached (r_geoip r) (r_rules r) ctx host port in
  let '(a, r') := cached r (client_cache_key ctx host port) d in
  a = d ∧ cache_ok r' ∧ r_rules r' = r_rules r ∧ r_geoip r' = r_geoip r
  ∧ lru_cap (r_cache r') = lru_cap (r_cache r).
Proof.
  intros Hok Hcap d. unfold cached. set (key := client_cache_key ctx host port).
  pose proof (lru_get_peek key (r_cache r)) as Hget.
  pose proof (λ k, lru_peek_get key k (r_cache r)) as Hpeek.
  pose proof (lru_cap_get key (r_cache r)) as Hc.
  destruct (lru_get key (r_cache r)) as [[a|] c]; cbn [fst snd] in *.
  - split; [by eapply Hok|]. split; [|done]. intros k a' Hk. cbn in Hk. rewrite Hpeek in Hk.
    by apply Hok.
  - split; [done|]. split; [|by cbn; rewrite lru_cap_put].
    intros k a' Hk ctx' host' port' Hkey. cbn in Hk |- *.
    destruct (decide (key = k)) as [<-|Hne].
    + rewrite lru_peek_put in Hk by lia. injection Hk as <-. by apply same_key_same_decision.
    + apply lru_peek_put_ne in Hk; [|done]. rewrite Hpeek in Hk. eapply Hok; eauto.
Qed.

Lemma serves_ok set db r :
  serves {| r_rules := set; r_geoip := db; r_cache := lru_new ROUTE_CACHE_CAP |} r →
  cache_ok r ∧ r_rules r = set ∧ r_geoip r = db ∧ lru_cap (r_cache r) = ROUTE_CACHE_CAP.
Proof.
  induction 1 as [|r ctx host port _ IH|r resolve ctx host port _ IH].
  - split; [|split; [done|split; [done|apply lru_cap_new]]]. intros k a Hk. cbn in Hk. by rewrite lru_peek_new in Hk.
  - destruct IH as (Hok & <- & <- & Hcap).
    pose proof (cached_ok r ctx host port Hok) as H. cbv zeta in H. unfold route.
    destruct (cached _ _ _) as [a r']. destruct H as (_ & ? & ? & ? & ?); [rewrite Hcap; unfold ROUTE_CACHE_CAP; lia|].
    repeat (split; [done|]). cbn [snd]. congruence.
  - destruct IH as (Hok & <- & <- & Hcap). unfold route_resolving.
    destruct (negb _ && negb _) eqn:Hn; [done|].
    assert (is_Some (host_ip ctx host)) as Hip.
    { unfold host_ip. destruct (parse_ip host); [by eexists|]. cbn in Hn.
      destruct (tun_destination ctx).1; [by eexists|done]. }
    rewrite (proj2 (route_resolving_eager _ _ _ _ _ _) Hip).
    pose proof (cached_ok r ctx host port Hok) as H. cbv zeta in H.
    destruct (cached _ _ _) as [a r']. destruct H as (_ & ? & ? & ? & ?); [rewrite Hcap; unfold ROUTE_CACHE_CAP; lia|].
    repeat (split; [done|]). cbn [snd]. congruence.
Qed.

(** C38. The decision cache is transparent: after any sequence of synchronous
    and resolving calls on one router, each of the two entry points answers
    exactly what rule evaluation answers, for every client, destination, host
    spelling and port. *)
Theorem route_cache_transparent set db r resolve ctx host port :
  serves {| r_rules := set; r_geoip := db; r_cache := lru_new ROUTE_CACHE_CAP |} r →
  (route r ctx host port).1 = route_uncached db set ctx host port
  ∧ (route_resolving resolve r ctx host port).1 = route_uncached_resolving db resolve set ctx host port.
Proof.
  intros Hr. destruct (serves_ok _ _ _ Hr) as (Hok & <- & <- & Hcap).
  pose proof (cached_ok r ctx host port Hok) as H. cbv zeta in H.
  assert (0 < lru_cap (r_cache r))%nat as Hpos by (rewrite Hcap; unfold ROUTE_CACHE_CAP; lia).
  specialize (H Hpos). split.
  - unfold route. destruct (cached _ _ _). by destruct H.
  - unfold route_resolving. destruct (negb _ && negb _) eqn:Hn; [done|].
    assert (is_Some (host_ip ctx host)) as Hip.
    { unfold host_ip. destruct (parse_ip host); [by eexists|]. cbn in Hn.
      destruct (tun_destination ctx).1; [by eexists|done]. }
    rewrite (proj2 (route_resolving_eager _ _ _ _ _ _) Hip). destruct (cached _ _ _). by destruct H.
Qed.
End cache.

(** ** The explanation *)
Section trace.
Context {U : Unicode} (geoip : option GeoIpDb) (resolve : str → option IpAddr) (resolve_dns : bool).
Context (src : option IpAddr) (h : str) (port : Z).

Abbreviation outcome_of := (trace_outcome geoip src h port).
Abbreviation loop := (trace_loop geoip resolve resolve_dns src h port).
Abbreviation hit ip := (λ e, bool_decide (outcome_of e ip = matched)).

Definition final_ip (v : Tracing) : option IpAddr :=
  if tr_attempted v then tr_ip v else if resolve_dns then resolve h else tr_ip v.

Lemma push_step_fields t s always n :
  t_action (push_step t s always n) = t_action t
  ∧ t_matched_rule (push_step t s always n) = t_matched_rule t
  ∧ t_definitive (push_step t s always n) = t_definitive t.
Proof. unfold push_step. by case_match. Qed.

Lemma flush_builtin_fields v :
  t_action (flush_builtin v) = t_action (tr_trace v)
  ∧ t_matched_rule (flush_builtin v) = t_matched_rule (tr_trace v)
  ∧ t_definitive (flush_builtin v) = t_definitive (tr_trace v).
Proof. unfold flush_builtin, push_builtin. case_match; [apply push_step_fields|done]. Qed.

Lemma outcome_no_ip e ip ip' : needs_ip (rule e) = false → outcome_of e ip = outcome_of e ip'.
Proof.
  intros Hn. unfold trace_outcome. rewrite Hn. cbn [andb].
  by rewrite (rule_matches_no_ip geoip _ (rule e) h ip ip').
Qed.

(** After the lazy lookup the outcome is that of the final address, and the
    final address of the remaining rules is unchanged. *)
Lemma trace_lookup_spec e v :
  let v' := trace_lookup resolve resolve_dns src h e v in
  outcome_of e (tr_ip v') = outcome_of e (final_ip v) ∧ final_ip v' = final_ip v
  ∧ t_action (tr_trace v') = t_action (tr_trace v)
  ∧ t_matched_rule (tr_trace v') = t_matched_rule (tr_trace v)
  ∧ t_definitive (tr_trace v') = t_definitive (tr_trace v)
  ∧ (resolve_dns = false → tr_ip v' = tr_ip v).
Proof.
  unfold trace_lookup, final_ip.
  destruct (source_matches (source e) src) eqn:Hs; cbn [andb].
  - destruct (needs_ip (rule e)) eqn:Hn; cbn [andb].
    + destruct (tr_attempted v) eqn:Ha; cbn [negb]; [by rewrite Ha|]. cbn.
      split; [done|]. split; [done|]. repeat (split; [done|]). by intros ->.
    + split; [|by repeat split]. by apply outcome_no_ip.
  - split; [|by repeat split]. unfold trace_outcome. by rewrite Hs.
Qed.

Lemma trace_loop_action es v :
  match List.find (hit (final_ip v)) es with
  | Some e => t_action (loop es v) = action e ∧ t_matched_rule (loop es v) = config_index e
  | None => t_action (loop es v) = t_action (tr_trace v)
            ∧ t_matched_rule (loop es v) = t_matched_rule (tr_trace v)
  end.
Proof.
  revert v. induction es as [|e es IH]; intros v.
  { cbn [List.find trace_loop]. by destruct (flush_builtin_fields v) as (? & ? & _). }
  cbn [List.find trace_loop].
  destruct (trace_lookup_spec e v) as (Ho & Hf & Ha & Hm & _ & _).
  set (v' := trace_lookup resolve resolve_dns src h e v) in *. cbv zeta. rewrite Ho.
  destruct (decide (outcome_of e (final_ip v) = matched)) as [Hm'|Hm'].
  - rewrite (bool_decide_eq_true_2 _ Hm'), andb_false_r. split; [done|].
    cbn [note_match t_matched_rule]. done.
  - rewrite (bool_decide_eq_false_2 _ Hm'), andb_true_r.
    match goal with |- context [if negb (bool_decide ?P) then loop es ?v1 else loop es ?v2] =>
      pose proof (IH v1) as H1; pose proof (IH v2) as H2;
      assert (final_ip v1 = final_ip v) as E1 by (rewrite <- Hf; done);
      assert (final_ip v2 = final_ip v) as E2 by (rewrite <- Hf; done);
      rewrite E1 in H1; rewrite E2 in H2 end.
    match goal with |- context [flush_builtin ?w] => destruct (flush_builtin_fields w) as (G1 & G2 & _) end.
    match goal with |- context [push_step ?t ?s ?b 1] =>
      destruct (push_step_fields t s b 1) as (P1 & P2 & _) end.
    destruct (List.find (hit (final_ip v)) es); case_match; try done.
    + cbn [tr_trace note_checked t_action t_matched_rule] in H1. by rewrite Ha, Hm in H1.
    + cbn [tr_trace note_checked t_action t_matched_rule] in *. rewrite P1, P2, G1, G2, Ha, Hm in H2. done.
Qed.

(** A conclusive explanation did not depend on the address. *)
Lemma trace_loop_definitive es v ip :
  resolve_dns = false → t_definitive (loop es v) = true → (tr_ip v = None ∨ ip = tr_ip v) →
  t_definitive (tr_trace v) = true
  ∧ List.find (hit ip) es = List.find (hit (tr_ip v)) es.
Proof.
  intros Hr. revert v. induction es as [|e es IH]; intros v Hd Hip.
  { split; [|done]. cbn [trace_loop] in Hd. by rewrite (proj2 (proj2 (flush_builtin_fields v))) in Hd. }
  cbn [List.find trace_loop] in *.
  destruct (trace_lookup_spec e v) as (_ & _ & _ & _ & Hdef & Hsame). specialize (Hsame Hr).
  set (v' := trace_lookup resolve resolve_dns src h e v) in *. cbv zeta in Hd. rewrite Hsame in Hd.
  (* what one turn concludes *)
  assert (t_definitive (tr_trace v) && negb (bool_decide (outcome_of e (tr_ip v) = needs_ip_)) = true →
    t_definitive (tr_trace v) = true ∧ outcome_of e ip = outcome_of e (tr_ip v)) as Hturn.
  { intros Hd'. apply andb_true_iff in Hd' as [Hd1 Hd2]. split; [done|].
    destruct Hip as [Hnone| ->]; [|done]. rewrite Hnone in *.
    destruct (needs_ip (rule e)) eqn:Hn; [|by apply outcome_no_ip].
    unfold trace_outcome in *. rewrite Hn in *.
    destruct (negb (source_matches (source e) src)) eqn:Hs; [done|].
    rewrite (bool_decide_eq_true_2 (None = None)) in Hd2 by done. done. }
  destruct (decide (outcome_of e (tr_ip v) = matched)) as [Hm|Hm].
  - rewrite (bool_decide_eq_true_2 _ Hm), andb_false_r in Hd. cbn [note_match t_definitive] in Hd.
    rewrite (proj2 (proj2 (push_step_fields _ _ _ _))), (proj2 (proj2 (flush_builtin_fields _))) in Hd.
    cbn [tr_trace note_checked t_definitive] in Hd. rewrite Hdef, Hm in Hd.
    destruct Hturn as [Hd1 E]; [by rewrite Hm|]. split; [done|].
    by rewrite E, (bool_decide_eq_true_2 _ Hm).
  - rewrite (bool_decide_eq_false_2 _ Hm), andb_true_r in Hd.
    destruct (negb (bool_decide (is_Some (config_index e)))).
    + apply IH in Hd as [Hd1 Hd2]; [|done]. cbn [tr_trace note_checked t_definitive tr_ip] in Hd1, Hd2.
      rewrite Hdef in Hd1. destruct (Hturn Hd1) as [Hd3 E]. split; [done|].
      rewrite E, (bool_decide_eq_false_2 _ Hm). exact Hd2.
    + apply IH in Hd as [Hd1 Hd2]; [|done]. cbn [tr_trace tr_ip] in Hd1, Hd2.
      rewrite (proj2 (proj2 (push_step_fields _ _ _ _))), (proj2 (proj2 (flush_builtin_fields _))) in Hd1.
      cbn [tr_trace note_checked t_definitive] in Hd1. rewrite Hdef in Hd1.
      destruct (Hturn Hd1) as [Hd3 E]. split; [done|].
      rewrite E, (bool_decide_eq_false_2 _ Hm). exact Hd2.
Qed.

Lemma hit_applies ip e :
  hit ip e = applies geoip {| client_source := src; tun_destination := (None, false) |} h ip port e.
Proof.
  unfold trace_outcome, applies. cbn [client_source].
  destruct (source_matches (source e) src); cbn [negb andb]; [|done].
  destruct (needs_ip (rule e)) eqn:Hn; cbn [andb].
  - destruct ip as [ip|]; cbn [bool_decide].
    + rewrite (bool_decide_eq_false_2 (Some ip = None)) by done.
      rewrite (bool_decide_eq_false_2 (rule e = DomesticHint)) by (by intros E; rewrite E in Hn).
      cbn [negb andb]. by destruct (rule_matches _ _ _ _ _ _).
    + rewrite (bool_decide_eq_true_2 (None = None)) by done. by destruct (rule e).
  - destruct (decide (rule e = DomesticHint)) as [E|E].
    + rewrite (bool_decide_eq_true_2 _ E). by rewrite E.
    + rewrite (bool_decide_eq_false_2 _ E). cbn [negb andb]. by destruct (rule_matches _ _ _ _ _ _).
Qed.
End trace.

(** The explanation agrees with routing: with DNS it names the action and
    the rule index of the first entry routing applies for that client and
    destination; without DNS, whenever it calls itself definitive, its action is
    the routing decision whatever the resolver would answer. *)
Theorem trace_agrees {U : Unicode} geoip resolve set host port client dest :
  let ctx := {| client_source := unmap_ip <$> client; tun_destination := (dest, false) |} in
  let decision := route_uncached_resolving geoip resolve set ctx host port in
  t_action (trace_route geoip resolve set host port client dest true) = decision
  ∧ (match List.find (applies geoip ctx (to_lowercase host) (effective_ip resolve ctx host) port) (rules set) with
     | Some e => t_matched_rule (trace_route geoip resolve set host port client dest true) = config_index e
     | None => t_matched_rule (trace_route geoip resolve set host port client dest true) = None
     end)
  ∧ (t_definitive (trace_route geoip resolve set host port client dest false) = true →
     t_action (trace_route geoip resolve set host port client dest false) = decision).
Proof.
  intros ctx decision. unfold decision. rewrite route_resolving_find.
  set (ip := effective_ip resolve ctx host).
  assert (∀ l ip', List.find (λ e, bool_decide (trace_outcome geoip (unmap_ip <$> client) (to_lowercase host) port e ip' = matched)) l
    = List.find (applies geoip ctx (to_lowercase host) ip' port) l) as Hfind.
  { intros l ip'. induction l as [|e l IH]; [done|]. cbn [List.find].
    rewrite hit_applies, IH. done. }
  unfold trace_route.
  assert (∀ b, final_ip resolve b (to_lowercase host)
    {| tr_ip := match parse_ip host with Some ip => Some ip | None => dest end;
       tr_attempted := bool_decide (is_Some (match parse_ip host with Some ip => Some ip | None => dest end));
       tr_misses := 0; tr_needs := false; tr_trace :=
         {| t_action := default_action set; t_matched_rule := None; t_matched_builtin := false;
            t_resolved_ip := match parse_ip host with Some ip => Some ip | None => dest end;
            t_dns := match parse_ip host, match parse_ip host with Some ip => Some ip | None => dest end with
                     | Some _, _ => "literal" | None, Some _ => "provided" | _, _ => "not_needed" end;
            t_definitive := true; t_steps := []; t_omitted_steps := 0; t_checked_rules := 0 |} |}
    = if b then ip else match parse_ip host with Some ip => Some ip | None => dest end) as Hfinal.
  { intros b. unfold final_ip, ip, effective_ip, host_ip. cbn.
    destruct (parse_ip host); [by destruct b|]. destruct dest; by destruct b. }
  cbv zeta. split; [|split].
  - match goal with |- t_action (trace_loop ?g ?r ?b ?s ?h ?p ?es ?v) = _ =>
      pose proof (trace_loop_action g r b s h p es v) as H end.
    rewrite (Hfinal true), Hfind in H. by destruct (List.find _ _), H.
  - match goal with |- context [trace_loop ?g ?r ?b ?s ?h ?p ?es ?v] =>
      pose proof (trace_loop_action g r b s h p es v) as H end.
    rewrite (Hfinal true), Hfind in H. by destruct (List.find _ _), H.
  - match goal with |- context [trace_loop ?g ?r ?b ?s ?h ?p ?es ?v] =>
      pose proof (trace_loop_action g r b s h p es v) as H;
      pose proof (trace_loop_definitive g r b s h p es v ip eq_refl) as Hdef end.
    intros Hd. destruct (Hdef Hd) as [_ E].
    { cbn [tr_ip]. unfold ip, effective_ip, host_ip. cbn.
      destruct (parse_ip host); [by right|]. destruct dest; [by right|by left]. }
    rewrite (Hfinal false) in H. cbn [tr_ip] in E. rewrite <- E, Hfind in H.
    by destruct (List.find _ _), H.
Qed.

(** ** Concrete rules *)
#[local] Existing Instance ascii_unicode.

Definition rule_example : RoutingRule :=
  {| r_source := lit " ::ffff:192.0.2.9/120 "; r_name := []; r_group := [];
     r_type := lit "Domain-Suffix"; r_pattern := lit "example.com"; r_target := lit "group:Video";
     r_enabled := true; r_priority := 5 |}.

Lemma validated_rule_compiles_witness :
  validate_rule rule_example = Ok tt
  ∧ ∃ e, compile_rule (3%nat, rule_example) = Some e ∧ action e ≠ Proxy.
Proof.
  assert (validate_rule rule_example = Ok tt) as Hv by (by vm_compute). split; [done|].
  destruct (validated_rule_compiles 3 rule_example eq_refl Hv) as (e & He & _ & Ha & _).
  exists e. split; [done|]. intros H%Ha. by vm_compute in H.
Defined.

Lemma rule_source_canonical_witness :
  ∃ net bits, parse_cidr (lit "192.0.2.0/24") = Some (net, bits)
    ∧ source_matches (Some (net, bits)) (Some (V4 3221226239)) = true.
Proof.
  destruct (rule_source_canonical (lit " ::ffff:192.0.2.9/120 ") (lit "192.0.2.0/24"))
    as (net & bits & n0 & b0 & Hp & _ & Hw & Hm); [by vm_compute|done|].
  exists net, bits. split; [done|]. apply Hm; [simpl; unfold u32; lia|done|].
  assert (written_scope (lit " ::ffff:192.0.2.9/120 ") = Some (V6 (65535 * 2 ^ 32 + 3221225993), 120)) as E
    by (by vm_compute).
  rewrite E in Hw. assert (n0 = V6 (65535 * 2 ^ 32 + 3221225993) ∧ b0 = 120) as [-> ->]
    by (split; congruence).
  by vm_compute.
Defined.

Definition cache_example : Type := cache RouteCacheKey RouteAction.

Lemma route_cache_transparent_witness :
  let set := from_config [rule_example] in
  let r0 : Router cache_example :=
    {| r_rules := set; r_geoip := None; r_cache := lru_new ROUTE_CACHE_CAP |} in
  let ctx := {| client_source := Some (V4 3221225994); tun_destination := (None, false) |} in
  let r := (route r0 ctx (lit "www.example.com") 443).2 in
  (route r ctx (lit "WWW.example.com") 443).1 = Group (lit "Video").
Proof.
  cbv zeta.
  match goal with |- (route (route ?r0 ?ctx ?h ?p).2 _ ?h2 _).1 = _ =>
    destruct (route_cache_transparent (r_rules r0) None (route r0 ctx h p).2 (λ _, None) ctx h2 p)
      as [H _]; [apply serve_route, serve_new|]; rewrite H end.
  by vm_compute.
Defined.
