(* ===== verification/Resolver.v ===== *)
(** * The DNS resolver (dns/mod.rs, dns/upstream.rs)

    One request of the resolver, from the name or the wire query to the answer,
    over the state it shares with the others: the address cache, the cache of
    wire replies, the fake-IP pool and the slots of background refreshes.  What
    the servers answer is a parameter: for a list of servers and a query, the
    replies in the order they arrive with the time each one took; a list shorter
    than the servers leaves the others silent.  An exchange whose servers stay
    silent never ends, [Diverge], until the caller's timeout drops it.  Requests
    that share one exchange are the matter of [Coalesce].  Time is counted in
    nanoseconds. *)
From S2P Require Import Prelude Bytes Text Net NetText Sorting Lru DnsWire FakeIp GeoIp.

(** ** The cache of wire replies *)
Section wire_cache.
Context {W : Type} `{WL : LruView bytes (bytes * Z) W}.

Record WireCache := { wc_entries : W; wc_bytes : Z }.

Definition clamp (z lo hi : Z) : Z := Z.min (Z.max z lo) hi.

Definition WireCache_new (capacity : Z) : WireCache :=
  {| wc_entries := lru_new (Z.to_nat (clamp capacity 16 16384)); wc_bytes := 0 |}.

Definition entry_size (e : bytes * (bytes * Z)) : Z := len e.1 + len e.2.1.

(** The [while] of [put]: evicts until there is room, or nothing is left. *)
Fixpoint make_room (fuel : nat) (need : Z) (w : WireCache) : WireCache :=
  match fuel with
  | O => w
  | S fuel =>
      if (lru_cap (wc_entries w) <=? lru_len (wc_entries w))%nat || (1024 * 1024 <? wc_bytes w + need) then
        match lru_pop_lru (wc_entries w) with
        | (Some e, c) => make_room fuel need {| wc_entries := c; wc_bytes := wc_bytes w - entry_size e |}
        | (None, _) => w
        end
      else w
  end.

Definition wire_put (key reply : bytes) (expiry : Z) (w : WireCache) : WireCache :=
  if (512 <? len key) || (4096 <? len reply) then w else
  let w :=
    match lru_pop key (wc_entries w) with
    | (Some (old, _), c) => {| wc_entries := c; wc_bytes := wc_bytes w - (len key + len old) |}
    | (None, c) => {| wc_entries := c; wc_bytes := wc_bytes w |}
    end in
  let need := len key + len reply in
  let w := make_room (S (lru_len (wc_entries w))) need w in
  {| wc_entries := lru_put key (reply, expiry) (wc_entries w); wc_bytes := wc_bytes w + need |}.
End wire_cache.

(** ** Configuration *)
Definition SocketAddr : Type := IpAddr * Z.
Inductive DnsGroup := Primary | Fallback.
Inductive AddressStrategy := PreferIpv4 | PreferIpv6 | Ipv4Only | Ipv6Only.
Inductive DnsServer :=
  | Udp (a : SocketAddr)
  | Tcp (a : SocketAddr)
  | Tls (a : SocketAddr) (sni : str)
  | Endpoint (url : str) (proxy : bool) (bootstrap : list SocketAddr)
  | DoH (url : str)
  | ProxyTcp (a : SocketAddr)
  | ProxyTls (a : SocketAddr) (sni : str).

(** The fields of [DnsConfig] a request reads. *)
Record DnsConfig := {
  config_ipv4_only : bool;
  dual_stack_fakeip : bool;
  proxy_servers : option (list DnsServer);
  strategy : AddressStrategy;
  cache_capacity : Z;
  servers : list DnsServer;
  fallback : list DnsServer;
  domain_rules : gmap str DnsGroup;
  cache_ttl : Z;
  cache_enabled : bool;
}.

Record CacheEntry := { addresses : list IpAddr; expires_at : Z }.
Record LookupAnswer := { la_addresses : list IpAddr; la_ttl : Z }.
Definition CacheKey : Type := str * Z * bool.

Definition DNS_CACHE_MAX_ENTRIES : Z := 1024.
Definition QTYPE_A : Z := 1.
Definition QTYPE_AAAA : Z := 28.
Definition second : Z := 1000000000.
Definition NEGATIVE_CACHE_TTL : Z := 30 * second.
Definition STALE_WHILE_REVALIDATE : Z := 300 * second.

(** [trim_end_matches('.').to_ascii_lowercase()]. *)
Definition canonical (domain : str) : str := to_ascii_lowercase (trim_end_byte dot domain).

(** ** Groups of names *)
Definition at_dot (domain host : str) : bool :=
  (len host <? len domain) && ends_with domain host &&
  bool_decide (byte_at domain (len domain - len host - 1) = Some dot).

Definition is_server_domain (server_domains : list str) (domain : str) : bool :=
  bool_decide (domain ∈ server_domains) || existsb (at_dot domain) server_domains.

Fixpoint suffix_rule (rules : gmap str DnsGroup) (domain : str) : option DnsGroup :=
  match domain with
  | [] => None
  | b :: rest =>
      if b =? dot
      then match rules !! rest with Some g => Some g | None => suffix_rule rules rest end
      else suffix_rule rules rest
  end.

Section resolver.
Context {U : Unicode}.
Context {W : Type} `{WL : LruView bytes (bytes * Z) W}.
Context {A : Type} `{AL : LruView CacheKey CacheEntry A}.
Context {D : Type} `{DL : Lru IpAddr str D}.

(** The resolver as one request sees it: the snapshot of its policy. *)
Record DnsResolver := {
  config : DnsConfig;
  client_ipv4_only : bool;
  direct_resolution : bool;
  primary_override : option (list DnsServer);
  fakeip : bool;
  geoip : option GeoIpDb;
  server_domains : list str;
}.

(** What requests share. *)
Record Shared := {
  now : Z;
  cache : A;
  wire : @WireCache W;
  pool : @Inner D;
  free_slots : nat;
  refreshing : list (str * Z);
}.

(** A computation over the shared state. *)
Definition M (T : Type) : Type := Shared → outcome T * Shared.
#[export] Instance M_ret : MRet M := λ T x s, (Ok x, s).
#[export] Instance M_bind : MBind M := λ T T' f m s,
  match m s with
  | (Ok x, s) => f x s
  | (Err e, s) => (Err e, s)
  | (Panic, s) => (Panic, s)
  | (Diverge, s) => (Diverge, s)
  end.
Definition lift {T} (o : outcome T) : M T := λ s, (o, s).
Definition state {T} (f : Shared → T * Shared) : M T := λ s, let '(x, s) := f s in (Ok x, s).
Definition modify (f : Shared → Shared) : M unit := state (λ s, (tt, f s)).

Definition set_now (n : Z) (s : Shared) : Shared :=
  {| now := n; cache := cache s; wire := wire s; pool := pool s;
     free_slots := free_slots s; refreshing := refreshing s |}.
Definition set_cache (c : A) (s : Shared) : Shared :=
  {| now := now s; cache := c; wire := wire s; pool := pool s;
     free_slots := free_slots s; refreshing := refreshing s |}.
Definition set_wire (w : @WireCache W) (s : Shared) : Shared :=
  {| now := now s; cache := cache s; wire := w; pool := pool s;
     free_slots := free_slots s; refreshing := refreshing s |}.
Definition set_pool (p : @Inner D) (s : Shared) : Shared :=
  {| now := now s; cache := cache s; wire := wire s; pool := p;
     free_slots := free_slots s; refreshing := refreshing s |}.
Definition spawn_refresh (domain : str) (qtype : Z) (s : Shared) : Shared :=
  match free_slots s with
  | O => s
  | S n => {| now := now s; cache := cache s; wire := wire s; pool := pool s;
              free_slots := n; refreshing := refreshing s ++ [(domain, qtype)] |}
  end.

(** The servers' answers, and the random id of a query built here. *)
Context (network : list DnsServer → bytes → list (N * (bytes + string))).
Context (query_id : str → Z → Z).

Definition match_domain_group (r : DnsResolver) (domain : str) : DnsGroup :=
  if is_server_domain (server_domains r) domain then Fallback else
  match domain_rules (config r) !! domain with
  | Some g => g
  | None => default Primary (suffix_rule (domain_rules (config r)) domain)
  end.

(** ** Exchanges with the servers *)

(** [exchange_server]: the reply must answer the query. *)
Definition exchange_server (query : bytes) (answer : bytes + string) : outcome bytes :=
  match answer with
  | inl reply => _ ← validate_response query reply; Ok reply
  | inr e => Err e
  end.

(** The loop of [exchange_raw_uncached] over the replies as they arrive; a task
    that panics is an error. *)
Fixpoint first_reply (r : DnsResolver) (query key : bytes) (pending : nat) (error : string)
    (arriving : list (N * (bytes + string))) : M bytes :=
  match pending, arriving with
  | O, _ => lift (Err error)
  | S _, [] => lift Diverge
  | S pending, (delay, answer) :: arriving =>
      _ ← modify (λ s, set_now (now s + Z.of_N delay) s);
      match exchange_server query answer with
      | Ok reply =>
          flags ← lift (idx reply 3);
          let rcode := Z.land flags 15 in
          if (rcode =? 2) || (rcode =? 5)
          then first_reply r query key pending "DNS upstream returned a temporary failure" arriving
          else
            _ ← (if cache_enabled (config r) && (rcode =? 0) then
                   ttl ← lift (answer_ttl reply);
                   let ttl := if 0 <? cache_ttl (config r) then Z.min ttl (cache_ttl (config r)) else ttl in
                   if 0 <? ttl
                   then modify (λ s, set_wire (wire_put key reply (now s + ttl * second) (wire s)) s)
                   else mret tt
                 else mret tt);
            mret reply
      | Err e => first_reply r query key pending e arriving
      | Panic | Diverge => first_reply r query key pending "task panicked" arriving
      end
  end.

Definition exchange_raw_uncached (r : DnsResolver) (query key : bytes) (servers : list DnsServer) : M bytes :=
  first_reply r query key (length servers) "No DNS servers configured" (network servers query).

(** [reply[..2].copy_from_slice(&query[..2])]. *)
Definition with_id (query reply : bytes) : outcome bytes :=
  id ← sub query 0 2; rest ← sub reply 2 (len reply); Ok (id ++ rest).

Definition wire_key (r : DnsResolver) (query : bytes) : outcome bytes :=
  rest ← sub query 2 (len query);
  Ok ([0; 0] ++ rest ++ [Z.b2z (direct_resolution r)]).

Definition cached_reply (query key : bytes) : M (option bytes) :=
  found ← state (λ s,
    let '(found, c) := lru_get key (wc_entries (wire s)) in
    ('(reply, expiry) ← found; if now s <? expiry then Some (reply, expiry - now s) else None,
     set_wire {| wc_entries := c; wc_bytes := wc_bytes (wire s) |} s));
  match found with
  | Some (reply, remaining) =>
      reply ← lift (cap_ttl reply (as_u32 (remaining / second)));
      reply ← lift (with_id query reply);
      mret (Some reply)
  | None => mret None
  end.

Definition servers_for (r : DnsResolver) (domain : str) : list DnsServer :=
  if direct_resolution r && negb (bool_decide (fallback (config r) = [])) then fallback (config r)
  else match match_domain_group r domain with
       | Primary => default (servers (config r)) (primary_override r)
       | Fallback => fallback (config r)
       end.

(** [exchange_raw], for the request that leads its exchange. *)
Definition exchange_raw (r : DnsResolver) (query : bytes) : M bytes :=
  '(domain, _) ← lift (parse_dns_query query);
  key ← lift (wire_key r query);
  hit ← (if cache_enabled (config r) then cached_reply query key else mret None);
  match hit with
  | Some reply => mret reply
  | None =>
      reply ← exchange_raw_uncached r query key (servers_for r (canonical domain));
      lift (with_id query reply)
  end.

(** ** Looking up a name *)
Definition of_family (qtype : Z) (ip : IpAddr) : bool :=
  if qtype =? 1 then is_ipv4 ip else if qtype =? 28 then negb (is_ipv4 ip) else true.

Definition resolve_uncached (r : DnsResolver) (domain : str) (qtype : Z) : M LookupAnswer :=
  reply ← exchange_raw r (build_dns_query (query_id domain qtype) domain qtype);
  addrs ← lift (parse_dns_response reply);
  ttl ← lift (answer_ttl reply);
  mret {| la_addresses := take 128 (List.filter (of_family qtype) addrs); la_ttl := ttl |}.

(** The outcome goes to the cache, whatever it is. *)
Definition remember_answer (r : DnsResolver) (key : CacheKey) (result : option LookupAnswer) (s : Shared) : Shared :=
  let '(addrs, ttl) :=
    match result with
    | Some a =>
        if bool_decide (la_addresses a = []) then ([], NEGATIVE_CACHE_TTL)
        else (la_addresses a,
              (if 0 <? cache_ttl (config r) then Z.min (cache_ttl (config r)) (la_ttl a) else la_ttl a) * second)
    | None => ([], NEGATIVE_CACHE_TTL)
    end in
  set_cache (if ttl =? 0 then (lru_pop key (cache s)).2
             else lru_put key {| addresses := addrs; expires_at := now s + ttl |} (cache s)) s.

Definition resolve_dedup (r : DnsResolver) (domain : str) (qtype : Z) : M (list IpAddr) := λ s,
  let key := (domain, qtype, direct_resolution r) in
  let finish result s := if cache_enabled (config r) then remember_answer r key result s else s in
  match resolve_uncached r domain qtype s with
  | (Ok answer, s) => (Ok (la_addresses answer), finish (Some answer) s)
  | (Err e, s) => (Err e, finish None s)
  | (Panic, s) => (Panic, s)
  | (Diverge, s) => (Diverge, s)
  end.

(** A background refresh runs and gives its slot back. *)
Definition refresh_step (r : DnsResolver) (s : Shared) : Shared :=
  match refreshing s with
  | [] => s
  | (domain, qtype) :: rest =>
      let s := (resolve_dedup r domain qtype s).2 in
      {| now := now s; cache := cache s; wire := wire s; pool := pool s;
         free_slots := S (free_slots s); refreshing := rest |}
  end.

(** The cache as [resolve_qtype_inner] reads it: the addresses, and whether they
    are stale. *)
Definition cached_addresses (r : DnsResolver) (domain : str) (qtype : Z) (s : Shared) : option (list IpAddr * bool) :=
  if negb (cache_enabled (config r)) then None else
  match lru_peek (domain, qtype, direct_resolution r) (cache s) with
  | Some e =>
      if now s <? expires_at e then Some (addresses e, false)
      else if negb (bool_decide (addresses e = [])) && (now s - expires_at e <? STALE_WHILE_REVALIDATE)
      then Some (addresses e, true)
      else None
  | None => None
  end.

Definition ips_are_cn (r : DnsResolver) (addrs : list IpAddr) : bool :=
  match geoip r with
  | Some db => existsb (is_cn db) addrs
  | None => false
  end.

Definition record_probe_domestic (domain : str) (addrs : list IpAddr) : M unit :=
  modify (λ s, set_pool (fold_left (λ p ip, record_domestic ip domain p) addrs (pool s)) s).

Definition allocate_fake (domain : str) : M IpAddr :=
  state (λ s, let '(ip, p) := allocate domain (pool s) in (V4 ip, set_pool p s)).
Definition allocate_fake_v6 (domain : str) : M IpAddr :=
  state (λ s, let '(ip, p) := allocate_v6 domain (pool s) in (V6 ip, set_pool p s)).

Definition answer_fakeip (domain : str) (qtype : Z) : M (list IpAddr) :=
  if qtype =? QTYPE_A then ip ← allocate_fake domain; mret [ip] else mret [].

Definition answer_cn_direct (r : DnsResolver) (domain : str) (qtype : Z) : M (list IpAddr) :=
  addrs ← resolve_dedup r domain qtype;
  _ ← record_probe_domestic domain addrs;
  mret addrs.

Definition resolve_primary_fakeip_or_cn (r : DnsResolver) (domain : str) (qtype : Z) : M (list IpAddr) :=
  probe ← resolve_dedup r domain QTYPE_A;
  if ips_are_cn r probe then
    _ ← record_probe_domestic domain probe;
    if qtype =? QTYPE_A then mret probe else answer_cn_direct r domain qtype
  else answer_fakeip domain qtype.

Definition wrong_family (st : AddressStrategy) (qtype : Z) : bool :=
  match st with
  | Ipv4Only => qtype =? 28
  | Ipv6Only => qtype =? 1
  | _ => false
  end.

Definition resolve_literal (ip : IpAddr) (qtype : Z) : list IpAddr :=
  match ip with
  | V4 _ => if qtype =? QTYPE_A then [ip] else []
  | V6 _ => if qtype =? QTYPE_AAAA then [ip] else []
  end.

Definition resolve_qtype_inner (r : DnsResolver) (domain : str) (qtype : Z) : M (list IpAddr) :=
  if wrong_family (strategy (config r)) qtype then mret [] else
  match parse_ip domain with
  | Some ip => mret (resolve_literal ip qtype)
  | None =>
    if fakeip r && (match match_domain_group r domain with Primary => true | Fallback => false end) then
      if dual_stack_fakeip (config r) && (qtype =? QTYPE_AAAA) then
        addrs ← resolve_dedup r domain qtype;
        if bool_decide (addrs = []) then mret []
        else if ips_are_cn r addrs then _ ← record_probe_domestic domain addrs; mret addrs
        else ip ← allocate_fake_v6 domain; mret [ip]
      else match geoip r with
           | Some _ => resolve_primary_fakeip_or_cn r domain qtype
           | None => answer_fakeip domain qtype
           end
    else
      hit ← state (λ s, (cached_addresses r domain qtype s, s));
      match hit with
      | Some (addrs, false) => mret addrs
      | Some (addrs, true) => _ ← modify (spawn_refresh domain qtype); mret addrs
      | None => resolve_dedup r domain qtype
      end
  end.

Definition valid_lengths (name : str) : bool :=
  (len name <=? 253) &&
  (bool_decide (name = []) ||
   forallb (λ label, negb (bool_decide (label = [])) && (len label <=? 63)) (split_on dot name)).

Definition resolve_qtype_snapshot (r : DnsResolver) (domain : str) (qtype : Z) : M (list IpAddr) :=
  let name := canonical domain in
  if negb (valid_lengths name) then lift (Err "Invalid DNS name length") else
  addrs ← resolve_qtype_inner r name qtype;
  _ ← (if fakeip r && (match match_domain_group r name with Primary => false | Fallback => true end)
       then record_probe_domestic name addrs else mret tt);
  mret addrs.

(** [resolve_addresses]: both families, the preferred one first.  The two lookups
    are joined; here the first one runs first. *)
Definition without_fakeip (r : DnsResolver) : DnsResolver :=
  {| config := config r; client_ipv4_only := client_ipv4_only r; direct_resolution := direct_resolution r;
     primary_override := primary_override r; fakeip := false; geoip := geoip r;
     server_domains := server_domains r |}.

Definition prefer_v6 (st : AddressStrategy) : bool :=
  match st with PreferIpv6 | Ipv6Only => true | _ => false end.

Definition preferred (v6_first : bool) (ips : list IpAddr) : list IpAddr :=
  let key ip := negb (Bool.eqb (negb (is_ipv4 ip)) v6_first) in
  sort_by (λ a b, implb (key a) (key b)) ips.

Definition attempt {T} (m : M T) : M (option T) := λ s,
  match m s with
  | (Ok x, s) => (Ok (Some x), s)
  | (Err _, s) => (Ok None, s)
  | (Panic, s) => (Panic, s)
  | (Diverge, s) => (Diverge, s)
  end.

Definition resolve_addresses (r : DnsResolver) (domain : str) : M (list IpAddr) :=
  let r := without_fakeip r in
  a ← attempt (resolve_qtype_snapshot r domain 1);
  aaaa ← attempt (resolve_qtype_snapshot r domain 28);
  let ips := preferred (prefer_v6 (strategy (config r))) (default [] a ++ default [] aaaa) in
  _ ← lift (ensure (negb (bool_decide (ips = []))) "DNS returned no addresses for configured strategy");
  mret ips.

Definition resolve_ipv4 (r : DnsResolver) (domain : str) : M Z :=
  addrs ← resolve_qtype_snapshot r domain QTYPE_A;
  lift (ok_or (head (omap (λ a, match a with V4 v => Some v | V6 _ => None end) addrs)) "No IPv4 address").

Definition resolve_ipv6 (r : DnsResolver) (domain : str) : M Z :=
  addrs ← resolve_qtype_snapshot r domain QTYPE_AAAA;
  lift (ok_or (head (omap (λ a, match a with V6 v => Some v | V4 _ => None end) addrs)) "No IPv6 address").

(** [(total_entries, expired_entries)]. *)
Definition cache_stats (s : Shared) : nat * nat :=
  (lru_len (cache s),
   length (List.filter (λ e, expires_at e.2 <=? now s) (lru_entries (cache s)))).

(** The state of [with_config], and [clear_cache]. *)
Definition shared_new (capacity start : Z) (p : @Inner D) : Shared :=
  {| now := start; cache := lru_new (Z.to_nat (clamp capacity 16 16384)); wire := WireCache_new capacity;
     pool := p; free_slots := 16; refreshing := [] |}.

Definition clear_cache (r : DnsResolver) (s : Shared) : Shared :=
  set_wire (WireCache_new (cache_capacity (config r))) (set_cache (lru_new (lru_cap (cache s))) s).

(** ** Answering a client's wire query *)
Definition rcode_of (reply : bytes) : outcome Z := f ← idx reply 3; Ok (Z.land f 15).

Definition answer_wire (r : DnsResolver) (query : bytes) : M bytes :=
  '(domain, qtype) ← lift (parse_dns_query query);
  let domain := canonical domain in
  if negb (fakeip r) then exchange_raw r query else
  let primary := match match_domain_group r domain with Primary => true | Fallback => false end in
  if (qtype =? 28) && dual_stack_fakeip (config r) && primary then
    reply ← exchange_raw r query;
    let addrs := match parse_dns_response reply with Ok a => a | _ => [] end in
    rcode ← lift (rcode_of reply);
    if negb (rcode =? 0) || bool_decide (addrs = []) then mret reply else
    if ips_are_cn r addrs then
      _ ← record_probe_domestic domain addrs;
      lift (cap_ttl reply 30)
    else
      ip ← allocate_fake_v6 domain;
      lift (build_dns_response_with_ttl query [ip] 5)
  else if (qtype =? 65) && primary then lift (build_dns_response_with_ttl query [] 5)
  else if negb ((qtype =? 1) || (qtype =? 28)) then exchange_raw r query
  else if negb primary then
    reply ← exchange_raw r query;
    reply ← lift (cap_ttl reply 30);
    _ ← (match parse_dns_response reply with
         | Ok addrs => record_probe_domestic domain addrs
         | _ => mret tt
         end);
    mret reply
  else
    probe ← exchange_raw r (if qtype =? 1 then query else build_dns_query (query_id domain 1) domain 1);
    rcode ← lift (rcode_of probe);
    if negb (rcode =? 0) then
      if qtype =? 1 then mret probe else exchange_raw r query
    else
      addrs ← lift (parse_dns_response probe);
      if ips_are_cn r addrs then
        probe ← lift (cap_ttl probe 30);
        _ ← record_probe_domestic domain addrs;
        if qtype =? 1 then mret probe
        else
          reply ← exchange_raw r query;
          _ ← (match parse_dns_response reply with
               | Ok addrs => record_probe_domestic domain addrs
               | _ => mret tt
               end);
          mret reply
      else
        fake ← (if bool_decide (addrs = []) || negb (qtype =? 1) then mret []
                else ip ← allocate_fake domain; mret [ip]);
        lift (build_dns_response_with_ttl query fake 5).

(** The types a client policy leaves without data. *)
Definition suppressed (r : DnsResolver) (qtype : Z) : bool :=
  if client_ipv4_only r then (qtype =? 28) || (qtype =? 65)
  else match strategy (config r) with
       | Ipv4Only => (qtype =? 28) || (qtype =? 65)
       | Ipv6Only => (qtype =? 1) || (qtype =? 65)
       | _ => false
       end.

(** [answer_raw_dns_query]: an exchange that never ends is cut by the timeout. *)
Definition answer_raw_dns_query (r : DnsResolver) (query : bytes) : M bytes :=
  match parse_dns_query query with
  | Ok (_, qtype) =>
      if suppressed r qtype then
        lift (match build_dns_response_with_ttl query [] 5 with
              | Err _ => build_dns_error_response query 1
              | built => built
              end)
      else λ s,
        match answer_wire r query s with
        | (Ok reply, s) => (Ok reply, s)
        | (Panic, s) => (Panic, s)
        | (_, s) => (build_dns_error_response query 2, s)
        end
  | Err _ => lift (build_dns_error_response query 1)
  | Panic => lift Panic
  | Diverge => lift Diverge
  end.

(** One datagram of [serve_dns_socket]: what is sent back, if anything. *)
Definition serve_datagram (r : DnsResolver) (gate_open : bool) (in_flight max_inflight : nat) (query : bytes)
    : M (option bytes) :=
  if len query <? 12 then mret None
  else if negb gate_open then mret None
  else if (max_inflight <=? in_flight)%nat then
    resp ← lift (build_dns_error_response query 2); mret (Some resp)
  else
    reply ← answer_raw_dns_query r query;
    resp ← lift (udp_response query reply);
    mret (Some resp).
End resolver.
