(* ===== verification/ResolverSpec.v ===== *)
(** * The DNS resolver: what its answers and its state guarantee

    A computation is [safe] when from a good state it reaches a good state without
    a panic; [safe] composes, so each operation is checked along its code. *)
From S2P Require Import Prelude Bytes Text Net NetText Sorting Lru DnsWire DnsWireSpec FakeIp GeoIp Resolver.

(** ** The cache of wire replies *)
Section wire_cache.
Context {W : Type} `{WL : LruView bytes (bytes * Z) W}.

Definition total_size (l : list (bytes * (bytes * Z))) : Z := foldr (λ e n, entry_size e + n) 0 l.

#[export] Instance total_size_perm : Proper ((≡ₚ) ==> eq) total_size.
Proof. induction 1; simpl; lia. Qed.

Lemma total_size_app l l' : total_size (l ++ l') = total_size l + total_size l'.
Proof. induction l as [|x l IH]; simpl; lia. Qed.

Lemma entry_size_nonneg e : 0 ≤ entry_size e.
Proof. unfold entry_size. lenlia. Qed.

Lemma total_size_nonneg l : 0 ≤ total_size l.
Proof. induction l as [|e l IH]; simpl; [lia|]. pose proof (entry_size_nonneg e). lia. Qed.

Definition small (e : bytes * (bytes * Z)) : Prop := len e.1 ≤ 512 ∧ len e.2.1 ≤ 4096.

Record bounded (w : @WireCache W) : Prop := {
  bytes_counted : wc_bytes w = total_size (lru_entries (wc_entries w));
  bytes_bounded : wc_bytes w ≤ 1024 * 1024;
  entries_bounded : (lru_len (wc_entries w) ≤ lru_cap (wc_entries w))%nat;
  cap_bounded : 16 ≤ Z.of_nat (lru_cap (wc_entries w)) ≤ 16384;
  entries_small : Forall small (lru_entries (wc_entries w));
  entries_distinct : NoDup (lru_entries (wc_entries w)).*1;
}.

Lemma bounded_new capacity : bounded (WireCache_new capacity).
Proof.
  unfold WireCache_new, clamp. split; simpl.
  - by rewrite lru_entries_new.
  - lia.
  - rewrite lru_len_new. lia.
  - rewrite lru_cap_new. lia.
  - by rewrite lru_entries_new.
  - rewrite lru_entries_new. constructor.
Qed.

Lemma make_room_spec fuel need (w : @WireCache W) P :
  (lru_len (wc_entries w) < fuel)%nat → 0 ≤ need ≤ 4608 →
  wc_bytes w = total_size (lru_entries (wc_entries w)) → 16 ≤ Z.of_nat (lru_cap (wc_entries w)) ≤ 16384 →
  Forall P (lru_entries (wc_entries w)) →
  let w' := make_room fuel need w in
  wc_bytes w' = total_size (lru_entries (wc_entries w')) ∧ wc_bytes w' + need ≤ 1024 * 1024 ∧
  (lru_len (wc_entries w') < lru_cap (wc_entries w'))%nat ∧ lru_cap (wc_entries w') = lru_cap (wc_entries w) ∧
  Forall P (lru_entries (wc_entries w')) ∧
  (NoDup (lru_entries (wc_entries w)).*1 → NoDup (lru_entries (wc_entries w')).*1) ∧
  (∀ k, k ∉ (lru_entries (wc_entries w)).*1 → k ∉ (lru_entries (wc_entries w')).*1).
Proof.
  revert w; induction fuel as [|fuel IH]; intros w Hlen Hneed Hb Hcap HP; [lia|]. simpl.
  destruct (_ || _) eqn:Hfull.
  - pose proof (lru_pop_lru_spec (wc_entries w)) as Hpop.
    pose proof (lru_cap_pop_lru (wc_entries w)) as Hc.
    rewrite lru_len_entries in Hlen.
    destruct (lru_pop_lru (wc_entries w)) as [[e|] c]; simpl in Hc.
    + rewrite Hpop in *. rewrite length_app in Hlen. rewrite total_size_app in Hb. simpl in *.
      apply Forall_app in HP as [HP _].
      destruct (IH {| wc_entries := c; wc_bytes := wc_bytes w - entry_size e |}) as (H1 & H2 & H3 & H4 & H5 & H6 & H7);
        simpl; [rewrite lru_len_entries; lia|done|lia|by rewrite Hc|done|].
      rewrite fmap_app. split_and!; [done..|simpl in *; congruence|done| |].
      * intros Hnd. apply H6. by apply NoDup_app in Hnd as [? _].
      * intros k Hk. apply H7. set_solver.
    + destruct Hpop as [Hnil _]. exfalso. rewrite lru_len_entries, Hnil in Hfull. rewrite Hnil in Hb. simpl in *.
      apply orb_true_iff in Hfull as [?%Nat.leb_le|?%Z.ltb_lt]; lia.
  - apply orb_false_iff in Hfull as [?%Nat.leb_gt ?%Z.ltb_ge]. by split_and!; [|lia|lia|..].
Qed.

Lemma wire_put_spec key reply expiry (w : @WireCache W) :
  bounded w → bounded (wire_put key reply expiry w) ∧
  ∀ e, e ∈ lru_entries (wc_entries (wire_put key reply expiry w)) →
       e = (key, (reply, expiry)) ∨ e ∈ lru_entries (wc_entries w).
Proof.
  intros [Hb Hmax Hlen Hcap Hsm Hnd]. unfold wire_put.
  destruct (_ || _) eqn:Hbig.
  { split; [by split|]. intros e ?. by right. }
  apply orb_false_iff in Hbig as [?%Z.ltb_ge ?%Z.ltb_ge].
  match goal with |- context [make_room _ _ ?x] => set (w1 := x) end.
  assert (Hw1 : wc_bytes w1 = total_size (lru_entries (wc_entries w1)) ∧
    lru_cap (wc_entries w1) = lru_cap (wc_entries w) ∧ key ∉ (lru_entries (wc_entries w1)).*1 ∧
    NoDup (lru_entries (wc_entries w1)).*1 ∧
    ∀ e, e ∈ lru_entries (wc_entries w1) → e ∈ lru_entries (wc_entries w)).
  { subst w1. pose proof (lru_pop_peek key (wc_entries w)) as Hpeek.
    pose proof (lru_cap_pop key (wc_entries w)) as Hc.
    pose proof (λ v, lru_entries_pop key v (wc_entries w)) as Hpop. pose proof (lru_pop_none key (wc_entries w)) as Hnone.
    destruct (lru_peek key (wc_entries w)) as [[old t]|] eqn:E;
      destruct (lru_pop key (wc_entries w)) as [found c] eqn:Ep; simpl in *; subst found; simpl.
    - specialize (Hpop _ eq_refl). simpl in Hpop. rewrite Hpop in Hnd. simpl in Hnd.
      apply NoDup_cons in Hnd as [Hk Hnd]. split_and!; [|done..|].
      + rewrite Hb, Hpop. simpl. unfold entry_size. simpl. lia.
      + intros e He. rewrite Hpop. by right.
    - rewrite (Hnone eq_refl) in *. split_and!; try done.
      intros ([k [y z]] & -> & He)%list_elem_of_fmap. by apply (lru_peek_none _ _ _ He). }
  clearbody w1. destruct Hw1 as (Hb1 & Hc1 & Hk1 & Hnd1 & Hsub).
  pose proof (len_nonneg key). pose proof (len_nonneg reply).
  assert (Hsm1 : Forall (λ e, small e ∧ e ∈ lru_entries (wc_entries w)) (lru_entries (wc_entries w1))).
  { apply Forall_forall. intros e He%Hsub. split; [|done]. rewrite Forall_forall in Hsm. by apply Hsm. }
  destruct (make_room_spec (S (lru_len (wc_entries w1))) (len key + len reply) w1 _
    ltac:(lia) ltac:(lia) Hb1 ltac:(rewrite Hc1; lia) Hsm1) as (Hb2 & Hm2 & Hl2 & Hc2 & Hs2 & Hn2 & Hk2).
  specialize (Hn2 Hnd1). specialize (Hk2 key Hk1). set (w2 := make_room _ _ w1) in *. clearbody w2.
  assert (Hpk : lru_peek key (wc_entries w2) = None).
  { destruct (lru_peek key (wc_entries w2)) as [v|] eqn:E; [|done].
    apply lru_peek_entries in E. destruct Hk2. apply list_elem_of_fmap. by eexists (_, _). }
  pose proof (lru_entries_put key (reply, expiry) (wc_entries w2) Hpk Hl2) as HP.
  split.
  - split; simpl.
    + rewrite HP, Hb2. simpl. unfold entry_size. simpl. lia.
    + lia.
    + rewrite lru_cap_put, lru_len_entries, HP. simpl. rewrite <- lru_len_entries. lia.
    + rewrite lru_cap_put. lia.
    + rewrite HP. constructor; [split; simpl; lia|]. eapply Forall_impl; [exact Hs2|]. by intros ? [].
    + by apply lru_put_nodup.
  - simpl. intros e He. rewrite HP in He. apply elem_of_cons in He as [|He]; [by left|right].
    rewrite Forall_forall in Hs2. by apply Hs2.
Qed.

Lemma bounded_get key (w : @WireCache W) :
  bounded w → bounded {| wc_entries := (lru_get key (wc_entries w)).2; wc_bytes := wc_bytes w |}.
Proof.
  intros [Hb Hmax Hlen Hcap Hsm Hnd]. pose proof (lru_entries_get key (wc_entries w)) as HP.
  split; simpl; rewrite ?lru_len_get, ?lru_cap_get, ?HP; done.
Qed.
End wire_cache.

(** ** Replies with another id *)
Lemma with_id_spec query reply :
  is_bytes query → is_bytes reply → 2 ≤ len query → 2 ≤ len reply →
  ∃ out, with_id query reply = Ok out ∧ same_after_id reply out ∧ range out 0 2 = range query 0 2 ∧ is_bytes out.
Proof.
  intros Hbq Hbr Hq Hr. unfold with_id. rewrite sub_in by lia. obind. rewrite sub_in by lia. obind.
  eexists; split; [done|]. assert (len (range query 0 2) = 2) as Hl by (rewrite len_range; lia).
  split; [split|].
  - rewrite len_app, Hl, len_range by lia. lia.
  - intros i Hi. replace i with (len (range query 0 2) + (i - 2)) at 1 by lia.
    rewrite byte_at_app_r by lia. destruct (Z.ltb_spec i (len reply)).
    + rewrite byte_at_range by lia. f_equal. lia.
    + rewrite (proj2 (byte_at_none reply i)) by lia. apply byte_at_none. rewrite len_range by lia. lia.
  - split; [|apply is_bytes_app; split; by apply is_bytes_range].
    rewrite range_app_l by lia. rewrite range_all by lia. done.
Qed.

Lemma reuse_reply query query' reply m out p :
  is_bytes query → is_bytes query' → is_bytes reply → is_bytes m → validate_response query reply = Ok tt →
  same_after_id query query' → skip_dns_name reply 12 = Ok p → len m = len reply →
  (∀ i, i < p + 4 → byte_at m i = byte_at reply i) → validate_records m = Ok tt →
  with_id query' m = Ok out → validate_response query' out = Ok tt ∧ is_bytes out.
Proof.
  intros Hbq Hbq' Hbr Hbm Hv Hsame Hp Hlen Hpre Hrec Hout.
  pose proof (proj1 (validate_response_ok _ _) Hv) as (Hr12 & Hq12 & _). pose proof Hsame as [Hql _].
  destruct (with_id_spec query' m) as (out' & Hout' & [Hol Hob] & Hid & Hbo); [done|done|lia|lia|].
  rewrite Hout in Hout'. injection Hout' as <-. split; [|done].
  eapply validate_transfer; [exact Hbq|exact Hbr|exact Hv|exact Hp|done|lia| | |done].
  - intros i Hi. rewrite Hob by lia. apply Hpre. lia.
  - by apply (validate_records_same_after_id m).
Qed.

Definition answers (query reply : bytes) : Prop := validate_response query reply = Ok tt ∧ is_bytes reply.

Lemma answers_ok query reply :
  answers query reply → 12 ≤ len reply ∧ 12 ≤ len query ∧ validate_records reply = Ok tt ∧
    ∃ p, skip_dns_name reply 12 = Ok p.
Proof.
  intros [Hv Hb]. apply validate_response_ok in Hv as (? & ? & _ & Hr & _). split_and!; [done..|].
  destruct (validate_records_ok _ Hb Hr) as (p & _ & _ & _ & Hp & _). by exists p.
Qed.

Lemma answers_with_id query reply :
  is_bytes query → answers query reply → ∃ out, with_id query reply = Ok out ∧ answers query out.
Proof.
  intros Hbq Ha. destruct (answers_ok _ _ Ha) as (? & ? & Hr & p & Hp). destruct Ha as [Hv Hb].
  destruct (with_id_spec query reply) as (out & Hout & _); [done|done|lia|lia|]. exists out. split; [done|].
  eapply (reuse_reply query query reply reply); try done.
Qed.

Lemma answers_capped query query' reply max :
  is_bytes query → is_bytes query' → answers query reply → same_after_id query query' → u32 max →
  ∃ m out, cap_ttl reply max = Ok m ∧ with_id query' m = Ok out ∧ answers query' out.
Proof.
  intros Hbq Hbq' Ha Hsame Hmax. destruct (answers_ok _ _ Ha) as (? & ? & Hr & p & Hp). destruct Ha as [Hv Hb].
  destruct (capped_records reply max Hb Hmax Hr) as (m & p' & a & rs & Hm & Hrm & Hlm & Hp' & Hpre & _).
  rewrite Hp in Hp'. injection Hp' as <-. pose proof (cap_ttl_bytes _ _ _ Hb Hm) as Hbm. pose proof Hsame as [Hql _].
  destruct (with_id_spec query' m) as (out & Hout & _); [done|done|lia|lia|].
  exists m, out. split_and!; [done..|]. by eapply (reuse_reply query query' reply m).
Qed.

Lemma answers_cap query reply max :
  is_bytes query → answers query reply → u32 max → ∃ m, cap_ttl reply max = Ok m ∧ answers query m.
Proof.
  intros Hbq Ha Hmax. destruct (answers_ok _ _ Ha) as (? & ? & Hr & p & Hp). destruct Ha as [Hv Hb].
  destruct (capped_records reply max Hb Hmax Hr) as (m & p' & a & rs & Hm & Hrm & Hlm & Hp' & Hpre & _).
  rewrite Hp in Hp'. injection Hp' as <-. exists m. split; [done|]. split; [|by eapply cap_ttl_bytes].
  eapply validate_transfer; [exact Hbq|exact Hb|exact Hv|exact Hp|by split|done|intros; apply Hpre; lia|done|].
  apply validate_response_ok in Hv as (_ & _ & <- & _).
  destruct (skip_name_bounds _ _ _ Hb Hp). apply list_eq. intros i. unfold range. simpl.
  destruct (decide (i < 2)%nat); [|by rewrite !lookup_take_ge by lia].
  rewrite !lookup_take_lt, !drop_0 by lia. specialize (Hpre (Z.of_nat i) ltac:(lia)). unfold byte_at in Hpre.
  destruct (Z.ltb_spec (Z.of_nat i) 0); [lia|]. by rewrite Nat2Z.id in Hpre.
Qed.

Lemma answers_ttl query reply : answers query reply → ∃ ttl, answer_ttl reply = Ok ttl.
Proof.
  intros Ha. destruct (answers_ok _ _ Ha) as (? & ? & Hr & p & Hp). destruct Ha as [Hv Hb].
  destruct (capped_records reply 0 Hb ltac:(unfold u32; lia) Hr) as (m & p' & a & rs & _ & _ & _ & _ & _ & _ & _ & _ & _ & _ & Ht).
  by eexists.
Qed.

Section resolver.
Context {U : Unicode}.
Context {W : Type} `{WL : LruView bytes (bytes * Z) W}.
Context {A : Type} `{AL : LruView CacheKey CacheEntry A}.
Context {D : Type} `{DL : Lru IpAddr str D}.
Notation Shared := (@Shared W A D).
Notation M := (@M W A D).

(** ** Good states *)

(** An entry of the wire cache answers a query with its key. *)
Definition key_of (d : bool) (query : bytes) : bytes := [0; 0] ++ range query 2 (len query) ++ [Z.b2z d].

Definition entry_answers (e : bytes * (bytes * Z)) : Prop :=
  ∃ query d, e.1 = key_of d query ∧ is_bytes query ∧ 2 ≤ len query ∧ answers query e.2.1.

Definition family_entry (e : CacheKey * CacheEntry) : Prop :=
  Forall (λ ip, of_family e.1.1.2 ip = true) (addresses e.2) ∧ (length (addresses e.2) ≤ 128)%nat.

Record good (s : Shared) : Prop := {
  good_wire : bounded (wire s);
  good_replies : Forall entry_answers (lru_entries (wc_entries (wire s)));
  good_cache : (lru_len (cache s) ≤ lru_cap (cache s))%nat;
  good_room : (0 < lru_cap (cache s))%nat;
  good_distinct : NoDup (lru_entries (cache s)).*1;
  good_addresses : Forall family_entry (lru_entries (cache s));
  good_slots : (free_slots s + length (refreshing s) = 16)%nat;
  good_names : Forall (λ t, is_bytes t.1) (refreshing s);
}.

(** From a good state to a good state, later, without panic. *)
Definition safe {T} (m : M T) (Q : T → Prop) : Prop :=
  ∀ s, good s → let '(o, s') := m s in
    good s' ∧ now s ≤ now s' ∧ match o with Ok x => Q x | Panic => False | _ => True end.

Lemma safe_ret {T} (x : T) (Q : T → Prop) : Q x → safe (mret x) Q.
Proof. intros HQ s Hs. simpl. split_and!; [done|lia|done]. Qed.

Lemma safe_lift {T} (o : outcome T) (Q : T → Prop) :
  returns o → (∀ x, o = Ok x → Q x) → safe (lift o) Q.
Proof. intros Hr HQ s Hs. simpl. split_and!; [done|lia|]. destruct o; auto. Qed.

Lemma safe_lift_ok {T} (o : outcome T) x (Q : T → Prop) : o = Ok x → Q x → safe (lift o) Q.
Proof. intros -> HQ. apply safe_lift; [done|]. by intros ? [= <-]. Qed.

Lemma safe_bind {T T'} (m : M T) (f : T → M T') (Q : T → Prop) (R : T' → Prop) :
  safe m Q → (∀ x, Q x → safe (f x) R) → safe (m ≫= f) R.
Proof.
  intros Hm Hf s Hs. specialize (Hm s Hs). change ((m ≫= f) s) with (M_bind _ _ f m s). unfold M_bind.
  destruct (m s) as [o s1]. destruct Hm as (Hs1 & Hn1 & HQ).
  destruct o as [x| | |]; [|by split_and!..]. specialize (Hf x HQ s1 Hs1).
  destruct (f x s1) as [o2 s2]. destruct Hf as (? & ? & ?). split_and!; [done|lia|done].
Qed.

Lemma safe_weaken {T} (m : M T) (Q R : T → Prop) : safe m Q → (∀ x, Q x → R x) → safe m R.
Proof.
  intros Hm HQR s Hs. specialize (Hm s Hs). destruct (m s) as [o s1]. destruct Hm as (? & ? & ?).
  split_and!; [done|done|]. destruct o; auto.
Qed.

Lemma safe_state {T} (f : Shared → T * Shared) (Q : T → Prop) :
  (∀ s, good s → good (f s).2 ∧ now s ≤ now (f s).2 ∧ Q (f s).1) → safe (state f) Q.
Proof.
  intros Hf s Hs. specialize (Hf s Hs). unfold state. destruct (f s) as [x s']. exact Hf.
Qed.

Lemma safe_modify (f : Shared → Shared) (Q : unit → Prop) :
  (∀ s, good s → good (f s) ∧ now s ≤ now (f s)) → Q tt → safe (modify f) Q.
Proof. intros Hf HQ. apply safe_state. intros s Hs. destruct (Hf s Hs). by split_and!. Qed.

Lemma good_set_pool p s : good s → good (set_pool p s).
Proof. by intros []. Qed.

Lemma good_wire_put query d reply expiry s :
  good s → is_bytes query → 2 ≤ len query → answers query reply →
  good (set_wire (wire_put (key_of d query) reply expiry (wire s)) s).
Proof.
  intros Hs Hb Hlen Ha. destruct Hs. destruct (wire_put_spec (key_of d query) reply expiry (wire s)) as [Hbd Hin]; [done|].
  split; simpl; try done.
  apply Forall_forall. intros e [->|He]%Hin.
  - exists query, d. by split_and!.
  - rewrite Forall_forall in good_replies0. by apply good_replies0.
Qed.

Context (network : list DnsServer → bytes → list (N * (bytes + string))).
Context (query_id : str → Z → Z).

(** Servers send bytes. *)
Definition sends_bytes : Prop :=
  ∀ servers query, Forall (λ a, match a.2 with inl reply => is_bytes reply | inr _ => True end) (network servers query).

Lemma exchange_server_spec query answer :
  is_bytes query → match answer with inl reply => is_bytes reply | inr _ => True end →
  match exchange_server query answer with Ok reply => answers query reply | Err _ => True | _ => False end.
Proof.
  intros Hq Hb. destruct answer as [reply|e]; [|done]. simpl.
  pose proof (validate_response_total query reply Hq Hb) as Ht.
  destruct (validate_response query reply) as [[]| | |] eqn:E; [|done..]. obind. by split.
Qed.

Lemma safe_tick (delay : N) : safe (modify (λ s, set_now (now s + Z.of_N delay) s)) (λ _, True).
Proof. apply safe_modify; [|done]. intros s Hs. split; [by destruct Hs|simpl; lia]. Qed.

Lemma store_reply_safe r query d reply rcode :
  is_bytes query → 2 ≤ len query → answers query reply →
  safe (if cache_enabled (config r) && (rcode =? 0) then
          ttl ← lift (answer_ttl reply);
          let ttl := if 0 <? cache_ttl (config r) then Z.min ttl (cache_ttl (config r)) else ttl in
          if 0 <? ttl
          then modify (λ s, set_wire (wire_put (key_of d query) reply (now s + ttl * second) (wire s)) s)
          else mret tt
        else mret tt) (λ _, True).
Proof.
  intros Hq Hlen Ha. destruct (_ && _); [|by apply safe_ret].
  destruct (answers_ttl _ _ Ha) as [ttl Httl]. eapply safe_bind; [by apply (safe_lift_ok _ ttl (λ _, True))|].
  intros t _. cbn zeta. set (t' := if 0 <? cache_ttl (config r) then _ else _).
  destruct (0 <? t'); [|by apply safe_ret]. apply safe_modify; [|done].
  intros s Hs. split; [by apply good_wire_put|simpl; lia].
Qed.

Lemma first_reply_safe r query d pending error arriving :
  is_bytes query → 2 ≤ len query →
  Forall (λ a, match a.2 with inl reply => is_bytes reply | inr _ => True end) arriving →
  safe (first_reply r query (key_of d query) pending error arriving) (answers query).
Proof.
  intros Hq Hlen Hall. revert pending error.
  induction Hall as [|[delay answer] arriving Ha Hall IH]; intros [|pending] error;
    [by apply safe_lift| |by apply safe_lift|].
  { intros s Hs. simpl. split_and!; [done|lia|done]. }
  cbn [first_reply]. eapply safe_bind; [apply safe_tick|]. intros _ _.
  pose proof (exchange_server_spec query answer Hq Ha) as Hex.
  destruct (exchange_server query answer) as [reply|e| |]; [|by apply IH|done..].
  destruct (answers_ok _ _ Hex) as (Hl & _). destruct (idx_in reply 3) as [fl Hfl]; [lia|].
  eapply safe_bind; [by apply (safe_lift_ok _ fl (λ x, x = fl))|]. intros ? ->. cbn zeta.
  destruct (_ || _); [by apply IH|].
  eapply safe_bind; [by apply store_reply_safe|]. intros _ _. by apply safe_ret.
Qed.

Lemma wire_key_spec r query :
  2 ≤ len query → wire_key r query = Ok (key_of (direct_resolution r) query).
Proof. intros. unfold wire_key. by rewrite sub_in by lia. Qed.

Lemma key_of_inj d d' q q' :
  2 ≤ len q → 2 ≤ len q' → key_of d q = key_of d' q' → same_after_id q q'.
Proof.
  intros Hq Hq' E. unfold key_of in E. injection E as E. apply app_inj_tail in E as [E _].
  assert (len q' = len q) as Hl.
  { apply (f_equal len) in E. rewrite !len_range in E by lia. lia. }
  split; [done|]. intros i Hi. destruct (Z.ltb_spec i (len q)).
  - replace i with (2 + (i - 2)) by lia. rewrite <- (byte_at_range q' 2 (len q')) by lia.
    by rewrite <- E, byte_at_range by lia.
  - rewrite (proj2 (byte_at_none q i)) by lia. apply byte_at_none. lia.
Qed.

Lemma cached_reply_safe d query :
  is_bytes query → 2 ≤ len query →
  safe (cached_reply query (key_of d query))
    (λ hit, match hit with Some reply => answers query reply | None => True end).
Proof.
  intros Hq Hlen. eapply (safe_bind _ _ (λ found, match found with
    | Some (reply, _) => ∃ q0, is_bytes q0 ∧ answers q0 reply ∧ same_after_id q0 query
    | None => True end)).
  - apply safe_state. intros s Hs. destruct Hs. pose proof (bounded_get (key_of d query) _ good_wire0) as Hbd.
    pose proof (lru_entries_get (key_of d query) (wc_entries (wire s))) as HP.
    pose proof (lru_get_peek (key_of d query) (wc_entries (wire s))) as Hg.
    destruct (lru_get _ _) as [found c]. simpl in *. split_and!; [|lia|].
    + split; simpl; try done. by rewrite HP.
    + destruct found as [[reply expiry]|]; [|done]. simpl. destruct (now s <? expiry); [|done].
      symmetry in Hg. apply lru_peek_entries in Hg. rewrite Forall_forall in good_replies0.
      destruct (good_replies0 _ Hg) as (q0 & d0 & Hk & Hb0 & Hl0 & Ha). simpl in *.
      exists q0. split_and!; [done..|]. symmetry in Hk. by eapply key_of_inj.
  - intros [[reply lasting]|]; [|intros _; by apply safe_ret]. intros (q0 & Hb0 & Ha & Hsame).
    destruct (answers_capped q0 query reply (as_u32 (lasting / second))) as (m & out & Hm & Hout & Hans);
      [done..|unfold u32, as_u32; lia|].
    eapply safe_bind; [by apply (safe_lift_ok _ m (λ x, x = m))|]. intros ? ->.
    eapply safe_bind; [by apply (safe_lift_ok _ out (λ x, x = out))|]. intros ? ->. by apply safe_ret.
Qed.

Context (network_bytes : sends_bytes).
Notation exchange_raw := (exchange_raw network).
Notation resolve_uncached := (resolve_uncached network query_id).
Notation resolve_dedup := (resolve_dedup network query_id).

Lemma parse_query_spec query :
  is_bytes query →
  returns (parse_dns_query query) ∧
  ∀ domain qtype, parse_dns_query query = Ok (domain, qtype) → is_bytes domain ∧ 12 ≤ len query.
Proof.
  intros Hq. unfold parse_dns_query. split.
  - apply returns_bind; [by apply question_total|]. done.
  - intros domain qtype HH. apply bind_ok in HH as (q & Hqq & HH). injection HH as <- <-.
    split; [by eapply question_bytes|]. by destruct (question_ok _ _ Hq Hqq).
Qed.

Lemma parse_query_safe query :
  is_bytes query → safe (lift (parse_dns_query query)) (λ p, parse_dns_query query = Ok p ∧ is_bytes p.1 ∧ 12 ≤ len query).
Proof.
  intros Hq. destruct (parse_query_spec query Hq) as [Ht Hok]. apply safe_lift; [done|].
  intros [domain qtype] Hp. split; [done|]. by apply Hok with qtype.
Qed.

Lemma exchange_raw_safe r query : is_bytes query → safe (exchange_raw r query) (answers query).
Proof.
  intros Hq. unfold Resolver.exchange_raw. eapply safe_bind; [by apply parse_query_safe|].
  intros [domain qtype] (_ & _ & Hlen). eapply safe_bind.
  { apply (safe_lift_ok _ (key_of (direct_resolution r) query) (λ x, x = key_of (direct_resolution r) query)); [apply wire_key_spec; lia|done]. }
  intros ? ->. apply (safe_bind _ _ (λ hit, match hit with Some reply => answers query reply | None => True end)).
  { destruct (cache_enabled (config r)); [apply cached_reply_safe; [done|lia]|by apply safe_ret]. }
  intros [reply|] Hhit; [by apply safe_ret|].
  eapply safe_bind; [apply first_reply_safe; [done|lia|apply network_bytes]|].
  intros reply Ha. destruct (answers_with_id query reply Hq Ha) as (out & Hout & Hans).
  by apply (safe_lift_ok _ out).
Qed.

Lemma build_query_bytes id domain qtype : is_bytes domain → is_bytes (build_dns_query id domain qtype).
Proof.
  intros Hd. unfold build_dns_query.
  assert (Forall is_bytes (List.filter nonempty (split_on dot (trim_end_byte dot domain)))) as Hl.
  { assert (is_bytes (trim_end_byte dot domain)) as Ht.
    { unfold trim_end_byte. apply Forall_reverse.
      assert (is_bytes (reverse domain)) as Hr by (by apply Forall_reverse). revert Hr. generalize (reverse domain).
      intros s Hs. induction Hs as [|b s Hb Hs IH]; [constructor|]. simpl. destruct (b =? dot); [done|by constructor]. }
    revert Ht. generalize (trim_end_byte dot domain). intros s Hs.
    assert (Forall is_bytes (split_on dot s)) as Hsp.
    { induction Hs as [|b s Hb Hs IH]; simpl; [by repeat constructor|]. destruct (b =? dot); [by constructor; [constructor|]|].
      destruct (split_on dot s) as [|p ps]; [by repeat apply Forall_cons_2|].
      apply Forall_cons in IH as [? ?]. constructor; [by constructor|done]. }
    induction Hsp; simpl; [constructor|]. case_match; [by constructor|done]. }
  assert (is_bytes (flat_map (λ label, as_u8 (len label) :: label)
    (List.filter nonempty (split_on dot (trim_end_byte dot domain))))) as Hf.
  { induction Hl as [|l ls Hl Hls IH]; [constructor|]. simpl. constructor; [unfold u8, as_u8; lia|].
    by apply is_bytes_app. }
  rewrite !is_bytes_app. split_and!; try done; try apply be_bytes_u8; decided.
Qed.

Lemma resolve_uncached_safe r domain qtype :
  is_bytes domain →
  safe (resolve_uncached r domain qtype)
    (λ a, Forall (λ ip, of_family qtype ip = true) (la_addresses a) ∧ (length (la_addresses a) ≤ 128)%nat).
Proof.
  intros Hd. unfold Resolver.resolve_uncached. eapply safe_bind; [apply exchange_raw_safe; by apply build_query_bytes|].
  intros reply Ha. eapply safe_bind; [apply (safe_lift _ (λ _, True)); [by apply parse_dns_response_total, Ha|done]|].
  intros addrs _. destruct (answers_ttl _ _ Ha) as [ttl Httl].
  eapply safe_bind; [by apply (safe_lift_ok _ ttl (λ _, True))|]. intros t _. apply safe_ret. simpl. split.
  - apply Forall_take. apply Forall_forall. intros ip Hip.
    by apply list_elem_of_In, filter_In in Hip as [_ ?].
  - rewrite length_take. lia.
Qed.

Lemma remember_answer_good r domain qtype result s :
  good s →
  match result with
  | Some a => Forall (λ ip, of_family qtype ip = true) (la_addresses a) ∧ (length (la_addresses a) ≤ 128)%nat
  | None => True
  end →
  good (remember_answer r (domain, qtype, direct_resolution r) result s) ∧
  now (remember_answer r (domain, qtype, direct_resolution r) result s) = now s.
Proof.
  intros Hs Hr. unfold remember_answer. set (key := (domain, qtype, direct_resolution r)).
  destruct (match result with Some _ => _ | None => _ end) as [addrs ttl] eqn:E.
  assert (Forall (λ ip, of_family qtype ip = true) addrs ∧ (length addrs ≤ 128)%nat) as Ha.
  { destruct result as [a|]; [|injection E as <- <-; split; [constructor|simpl; lia]].
    destruct (bool_decide _); injection E as <- <-; [split; [constructor|simpl; lia]|done]. }
  split; [|done]. destruct Hs. destruct (ttl =? 0); split; simpl; try done.
  - rewrite lru_cap_pop, lru_len_entries. rewrite lru_len_entries in good_cache0.
    destruct (lru_peek key (cache s)) as [e|] eqn:Ep; [|by rewrite (lru_pop_none _ _ Ep)].
    apply lru_entries_pop, Permutation_length in Ep. eapply Nat.le_trans; [|exact good_cache0].
    etransitivity; [apply Nat.le_succ_diag_r|]. apply Nat.eq_le_incl. symmetry. exact Ep.
  - by rewrite lru_cap_pop.
  - destruct (lru_peek key (cache s)) as [e|] eqn:Ep; [|by rewrite (lru_pop_none _ _ Ep)].
    rewrite (lru_entries_pop _ _ _ Ep) in good_distinct0. by apply NoDup_cons in good_distinct0 as [_ ?].
  - destruct (lru_peek key (cache s)) as [e|] eqn:Ep.
    + rewrite (lru_entries_pop _ _ _ Ep) in good_addresses0. by apply Forall_cons in good_addresses0 as [_ ?].
    + by rewrite (lru_pop_none _ _ Ep).
  - rewrite lru_cap_put. by apply lru_len_put.
  - rewrite lru_cap_put. done.
  - by apply lru_put_nodup.
  - apply Forall_forall. intros e [->|He]%lru_entries_put_sub; [done|].
    rewrite Forall_forall in good_addresses0. by apply good_addresses0.
Qed.

Lemma resolve_dedup_safe r domain qtype :
  is_bytes domain →
  safe (resolve_dedup r domain qtype) (λ addrs, Forall (λ ip, of_family qtype ip = true) addrs ∧ (length addrs ≤ 128)%nat).
Proof.
  intros Hd s Hs. pose proof (resolve_uncached_safe r domain qtype Hd s Hs) as HH. unfold Resolver.resolve_dedup.
  destruct (resolve_uncached r domain qtype s) as [[a|e| |] s1]; destruct HH as (Hs1 & Hn & Hq); [| |done..].
  - destruct (remember_answer_good r domain qtype (Some a) s1 Hs1 Hq) as [Hg Hnow].
    destruct (cache_enabled (config r)); (split; [done|split; [|done]]); [|done].
    exact (eq_ind_r (λ n, now s ≤ n) Hn Hnow).
  - destruct (remember_answer_good r domain qtype None s1 Hs1 I) as [Hg Hnow].
    destruct (cache_enabled (config r)); (split; [done|split; [|done]]); [|done].
    exact (eq_ind_r (λ n, now s ≤ n) Hn Hnow).
Qed.

Notation resolve_qtype_inner := (resolve_qtype_inner network query_id).
Notation resolve_qtype_snapshot := (resolve_qtype_snapshot network query_id).
Notation resolve_primary_fakeip_or_cn := (resolve_primary_fakeip_or_cn network query_id).
Notation answer_wire := (answer_wire network query_id).
Notation answer_raw_dns_query := (answer_raw_dns_query network query_id).
Notation refresh_step := (refresh_step network query_id).

Definition right_family (qtype : Z) (addrs : list IpAddr) : Prop := Forall (λ ip, of_family qtype ip = true) addrs.

Lemma record_probe_safe domain addrs : safe (record_probe_domestic domain addrs) (λ _, True).
Proof. apply safe_modify; [|done]. intros s Hs. split; [by apply good_set_pool|simpl; lia]. Qed.

Lemma allocate_fake_safe domain : safe (allocate_fake domain) (λ ip, is_ipv4 ip = true).
Proof.
  apply safe_state. intros s Hs. destruct (allocate _ _) as [ip p]. simpl.
  split_and!; [by apply good_set_pool|lia|done].
Qed.

Lemma allocate_fake_v6_safe domain : safe (allocate_fake_v6 domain) (λ ip, is_ipv4 ip = false).
Proof.
  apply safe_state. intros s Hs. destruct (allocate_v6 _ _) as [ip p]. simpl.
  split_and!; [by apply good_set_pool|lia|done].
Qed.

Lemma family_A ip : of_family 1 ip = is_ipv4 ip.
Proof. done. Qed.
Lemma family_AAAA ip : of_family 28 ip = negb (is_ipv4 ip).
Proof. done. Qed.

Lemma answer_fakeip_safe domain qtype : safe (answer_fakeip domain qtype) (right_family qtype).
Proof.
  unfold answer_fakeip, QTYPE_A. destruct (Z.eqb_spec qtype 1) as [->|]; [|apply safe_ret; constructor].
  eapply safe_bind; [apply allocate_fake_safe|]. intros ip Hip. apply safe_ret. by repeat constructor.
Qed.

Lemma primary_safe r domain qtype :
  is_bytes domain → safe (resolve_primary_fakeip_or_cn r domain qtype) (right_family qtype).
Proof.
  intros Hd. unfold Resolver.resolve_primary_fakeip_or_cn. eapply safe_bind; [by apply resolve_dedup_safe|].
  intros probe [Hp _]. destruct (ips_are_cn r probe); [|apply answer_fakeip_safe].
  eapply safe_bind; [apply record_probe_safe|]. intros _ _. unfold QTYPE_A in *.
  destruct (Z.eqb_spec qtype 1) as [->|]; [by apply safe_ret|]. unfold answer_cn_direct.
  eapply safe_bind; [by apply resolve_dedup_safe|]. intros addrs [Ha _].
  eapply safe_bind; [apply record_probe_safe|]. intros _ _. by apply safe_ret.
Qed.

Lemma cached_addresses_family r domain qtype s addrs stale :
  good s → cached_addresses r domain qtype s = Some (addrs, stale) → right_family qtype addrs.
Proof.
  intros Hs. unfold cached_addresses. destruct (negb _); [done|].
  destruct (lru_peek _ _) as [e|] eqn:E; [|done]. apply lru_peek_entries in E.
  pose proof (good_addresses _ Hs) as Ha. rewrite Forall_forall in Ha. destruct (Ha _ E) as [Hf _]. simpl in Hf.
  destruct (_ <? _); [by intros [= <- <-]|]. destruct (_ && _); [by intros [= <- <-]|done].
Qed.

Lemma spawn_refresh_good domain qtype s : is_bytes domain → good s → good (spawn_refresh domain qtype s).
Proof.
  intros Hd Hs. unfold spawn_refresh. destruct (free_slots s) as [|n] eqn:E; [done|].
  destruct Hs. split; simpl; try done.
  - rewrite length_app. simpl. lia.
  - apply Forall_app. split; [done|]. by constructor.
Qed.

Lemma resolve_inner_safe r domain qtype :
  is_bytes domain → safe (resolve_qtype_inner r domain qtype) (right_family qtype).
Proof.
  intros Hd. unfold Resolver.resolve_qtype_inner. destruct (wrong_family _ _); [apply safe_ret; constructor|].
  destruct (parse_ip domain) as [ip|].
  { apply safe_ret. unfold resolve_literal, right_family, QTYPE_A, QTYPE_AAAA.
    destruct ip; [destruct (Z.eqb_spec qtype 1) as [->|]|destruct (Z.eqb_spec qtype 28) as [->|]]; by repeat constructor. }
  destruct (fakeip r && _).
  - destruct (_ && (qtype =? QTYPE_AAAA)) eqn:E.
    + apply andb_true_iff in E as [_ ->%Z.eqb_eq]. eapply safe_bind; [by apply resolve_dedup_safe|].
      intros addrs [Ha _]. destruct (bool_decide _); [apply safe_ret; constructor|].
      destruct (ips_are_cn r addrs).
      * eapply safe_bind; [apply record_probe_safe|]. intros _ _. by apply safe_ret.
      * eapply safe_bind; [apply allocate_fake_v6_safe|]. intros ip Hip. apply safe_ret.
        repeat constructor. unfold QTYPE_AAAA. by rewrite family_AAAA, Hip.
    + destruct (geoip r); [by apply primary_safe|apply answer_fakeip_safe].
  - apply (safe_bind _ _ (λ hit, match hit with Some (addrs, _) => right_family qtype addrs | None => True end)).
    { apply safe_state. intros s Hs. simpl. split_and!; [done|lia|].
      destruct (cached_addresses _ _ _ _) as [[addrs stale]|] eqn:E; [|done]. by eapply cached_addresses_family. }
    intros [[addrs [|]]|] Hh; [| by apply safe_ret|].
    + eapply safe_bind; [|intros _ _; by apply safe_ret].
      apply (safe_modify _ (λ _, True)); [|done]. intros s Hs. split; [by apply spawn_refresh_good|].
      unfold spawn_refresh. destruct (free_slots s); simpl; lia.
    + eapply safe_weaken; [by apply resolve_dedup_safe|]. by intros addrs [? _].
Qed.

Lemma canonical_bytes domain : is_bytes domain → is_bytes (canonical domain).
Proof.
  intros Hd. unfold canonical, to_ascii_lowercase. apply Forall_map.
  assert (is_bytes (trim_end_byte dot domain)) as Ht.
  { unfold trim_end_byte. apply Forall_reverse.
    assert (is_bytes (reverse domain)) as Hr by (by apply Forall_reverse). revert Hr. generalize (reverse domain).
    intros s Hs. induction Hs as [|b s Hb Hs IH]; [constructor|]. simpl. destruct (b =? dot); [done|by constructor]. }
  eapply Forall_impl; [exact Ht|]. intros b Hb. unfold u8, lower_byte, between in *.
  destruct (_ && _) eqn:E; [|done]. apply andb_true_iff in E as [?%Z.leb_le ?%Z.leb_le]. lia.
Qed.

Lemma resolve_snapshot_safe r domain qtype :
  is_bytes domain → safe (resolve_qtype_snapshot r domain qtype) (right_family qtype).
Proof.
  intros Hd. unfold Resolver.resolve_qtype_snapshot. destruct (negb _); [by apply safe_lift|].
  eapply safe_bind; [by apply resolve_inner_safe, canonical_bytes|]. intros addrs Ha.
  eapply safe_bind; [|intros _ _; by apply safe_ret].
  destruct (_ && _); [apply record_probe_safe|by apply safe_ret].
Qed.

(** ** What an exchange leaves alone *)
Definition framed {T B} (f : Shared → B) (m : M T) : Prop := ∀ s, f (m s).2 = f s.

Section frame.
Context {B : Type} (f : Shared → B).
Context (f_now : ∀ n s, f (set_now n s) = f s) (f_wire : ∀ w s, f (set_wire w s) = f s)
  (f_cache : ∀ c s, f (set_cache c s) = f s).

Lemma framed_bind {T T'} (m : M T) (k : T → M T') :
  framed f m → (∀ x, framed f (k x)) → framed f (m ≫= k).
Proof.
  intros Hm Hk s. change ((m ≫= k) s) with (M_bind _ _ k m s). unfold M_bind. specialize (Hm s).
  destruct (m s) as [[x| | |] s1]; [|done..]. by rewrite (Hk x s1).
Qed.

Lemma framed_ret {T} (x : T) : framed f (mret x : M T).
Proof. done. Qed.
Lemma framed_lift {T} (o : outcome T) : framed f (lift o).
Proof. done. Qed.
Lemma framed_state {T} (g : Shared → T * Shared) : (∀ s, f (g s).2 = f s) → framed f (state g).
Proof. intros Hg s. specialize (Hg s). unfold state. by destruct (g s). Qed.
Lemma framed_modify (g : Shared → Shared) : (∀ s, f (g s) = f s) → framed f (modify g).
Proof. intros Hg. by apply framed_state. Qed.

Lemma lift_ok_bind {T T'} (x : T) (k : T → M T') : (lift (Ok x) ≫= k) = k x.
Proof. done. Qed.

Lemma exchange_raw_framed r query : framed f (exchange_raw r query).
Proof.
  unfold Resolver.exchange_raw. apply framed_bind; [apply framed_lift|]. intros [domain qtype].
  apply framed_bind; [apply framed_lift|]. intros key. apply framed_bind.
  - destruct (cache_enabled _); [|apply framed_ret]. unfold cached_reply. apply framed_bind.
    + apply framed_state. intros s. destruct (lru_get _ _) as [found c]. apply f_wire.
    + intros [[reply lasting]|]; [|apply framed_ret].
      repeat (apply framed_bind; [apply framed_lift|intros ?]). apply framed_ret.
  - intros [reply|]; [apply framed_ret|]. apply framed_bind; [|intros; apply framed_lift].
    unfold exchange_raw_uncached. generalize (network (servers_for r (canonical domain)) query) as arriving.
    generalize (length (servers_for r (canonical domain))) as pending. generalize "No DNS servers configured"%string as e.
    intros e pending. revert e. induction pending as [|pending IH]; intros e arriving; [by destruct arriving|].
    destruct arriving as [|[delay answer] arriving]; [done|]. cbn [first_reply].
    apply framed_bind; [apply framed_modify; intros; apply f_now|]. intros _.
    destruct (exchange_server query answer) as [reply| | |]; [|apply IH..].
    apply framed_bind; [apply framed_lift|]. intros fl. cbn zeta. destruct (_ || _); [apply IH|].
    apply framed_bind; [|intros; apply framed_ret]. destruct (_ && _); [|apply framed_ret].
    apply framed_bind; [apply framed_lift|]. intros ttl.
    repeat case_match; first [apply framed_ret | apply framed_modify; intros; apply f_wire].
Qed.

Lemma resolve_dedup_framed r domain qtype : framed f (resolve_dedup r domain qtype).
Proof.
  intros s. unfold Resolver.resolve_dedup.
  assert (framed f (resolve_uncached r domain qtype)) as Hu.
  { unfold Resolver.resolve_uncached. apply framed_bind; [apply exchange_raw_framed|]. intros reply.
    repeat (apply framed_bind; [apply framed_lift|intros ?]). apply framed_ret. }
  specialize (Hu s). destruct (resolve_uncached r domain qtype s) as [[a| | |] s1]; simpl in *; try done.
  - destruct (cache_enabled _); [|done]. unfold remember_answer. case_match. by rewrite f_cache.
  - destruct (cache_enabled _); [|done]. unfold remember_answer. by rewrite f_cache.
Qed.
End frame.

Lemma refresh_step_good r s : good s → good (refresh_step r s) ∧ now s ≤ now (refresh_step r s).
Proof.
  intros Hs. unfold Resolver.refresh_step. destruct (refreshing s) as [|[domain qtype] rest] eqn:E; [split; [done|lia]|].
  pose proof (good_names _ Hs) as Hn. rewrite E in Hn. apply Forall_cons in Hn as [Hd Hrest].
  pose proof (resolve_dedup_safe r domain qtype Hd s Hs) as Hsafe.
  pose proof (resolve_dedup_framed free_slots ltac:(done) ltac:(done) ltac:(done) r domain qtype s) as Hf.
  destruct (resolve_dedup r domain qtype s) as [o s1]. simpl in Hf. destruct Hsafe as (Hs1 & Hnow & _).
  pose proof (good_slots _ Hs) as Hsl. rewrite E in Hsl. simpl in Hsl.
  split; [|done]. destruct Hs1. split; simpl; try done. lia.
Qed.

(** ** Answers to wire queries *)
Lemma built_answers query q addrs ttl :
  is_bytes query → question query = Ok q → len addrs ≤ 65535 →
  ∃ resp, build_dns_response_with_ttl query addrs ttl = Ok resp ∧ answers query resp.
Proof.
  intros Hb Hq Hl. destruct (response_shape query q addrs ttl Hb Hq Hl) as (a & b & fl & _ & _ & _ & E).
  eexists. split; [exact E|]. split; [by eapply validate_own_response|by eapply build_response_bytes].
Qed.

Lemma parse_query_question query domain qtype :
  parse_dns_query query = Ok (domain, qtype) → ∃ q, question query = Ok q.
Proof. unfold parse_dns_query. intros E. apply bind_ok in E as (q & Hq & _). by exists q. Qed.

Lemma build_safe query q addrs ttl :
  is_bytes query → question query = Ok q → len addrs ≤ 65535 →
  safe (lift (build_dns_response_with_ttl query addrs ttl)) (answers query).
Proof.
  intros Hb Hq Hl. destruct (built_answers query q addrs ttl Hb Hq Hl) as (resp & E & Ha).
  by apply (safe_lift_ok _ resp).
Qed.

Lemma rcode_safe query reply : answers query reply → safe (lift (rcode_of reply)) (λ _, True).
Proof.
  intros Ha. destruct (answers_ok _ _ Ha) as (Hl & _). destruct (idx_in reply 3) as [fl Hfl]; [lia|].
  apply (safe_lift_ok _ (Z.land fl 15)); [|done]. unfold rcode_of. rewrite Hfl. by obind.
Qed.

Lemma cap_safe query reply :
  is_bytes query → answers query reply → safe (lift (cap_ttl reply 30)) (answers query).
Proof.
  intros Hq Ha. destruct (answers_cap query reply 30 Hq Ha ltac:(unfold u32; lia)) as (m & Hm & Ham).
  by apply (safe_lift_ok _ m).
Qed.

Lemma record_parsed_safe (reply : bytes) domain :
  safe (match parse_dns_response reply with Ok addrs => record_probe_domestic domain addrs | _ => mret tt end)
    (λ _, True).
Proof. destruct (parse_dns_response reply); [apply record_probe_safe|by apply safe_ret..]. Qed.

Lemma answer_wire_safe r query : is_bytes query → safe (answer_wire r query) (answers query).
Proof.
  intros Hq. unfold Resolver.answer_wire. eapply safe_bind; [by apply parse_query_safe|].
  intros [domain0 qtype] (Hp & Hd & Hlen). simpl in Hd. apply parse_query_question in Hp as [q Hqq].
  apply canonical_bytes in Hd. set (domain := canonical domain0) in *. cbn zeta.
  destruct (negb (fakeip r)); [by apply exchange_raw_safe|].
  set (primary := match match_domain_group r domain with Primary => true | Fallback => false end).
  destruct ((qtype =? 28) && _ && primary).
  { eapply safe_bind; [by apply exchange_raw_safe|]. intros reply Ha.
    eapply safe_bind; [exact (rcode_safe _ _ Ha)|]. intros rcode _.
    destruct (_ || _); [by apply safe_ret|]. destruct (ips_are_cn _ _).
    - eapply safe_bind; [apply record_probe_safe|]. intros _ _. by apply cap_safe.
    - eapply safe_bind; [apply allocate_fake_v6_safe|]. intros ip _. by eapply build_safe. }
  destruct ((qtype =? 65) && primary); [by eapply build_safe|].
  destruct (negb (_ || _)); [by apply exchange_raw_safe|].
  destruct (negb primary).
  { eapply safe_bind; [by apply exchange_raw_safe|]. intros reply Ha.
    eapply safe_bind; [by apply (cap_safe query)|]. intros capped Hc.
    eapply safe_bind; [apply record_parsed_safe|]. intros _ _. by apply safe_ret. }
  eapply safe_bind.
  { apply exchange_raw_safe. destruct (qtype =? 1); [done|]. by apply build_query_bytes. }
  intros probe Ha. eapply safe_bind; [exact (rcode_safe _ _ Ha)|]. intros rcode _.
  assert (qtype = 1 → answers query probe) as Hprobe by (intros ->; exact Ha).
  destruct (negb (rcode =? 0)).
  { destruct (Z.eqb_spec qtype 1); [by apply safe_ret, Hprobe|by apply exchange_raw_safe]. }
  eapply safe_bind; [apply (safe_lift _ (λ _, True)); [by apply parse_dns_response_total, Ha|done]|].
  intros addrs _. destruct (ips_are_cn r addrs).
  - assert (is_bytes (if qtype =? 1 then query else build_dns_query (query_id domain 1) domain 1)) as Hb
      by (destruct (qtype =? 1); [done|by apply build_query_bytes]).
    eapply safe_bind; [exact (cap_safe _ _ Hb Ha)|].
    intros capped Hc. eapply safe_bind; [apply record_probe_safe|]. intros _ _.
    destruct (Z.eqb_spec qtype 1); [by apply safe_ret|].
    eapply safe_bind; [by apply exchange_raw_safe|]. intros reply Hr.
    eapply safe_bind; [apply record_parsed_safe|]. intros _ _. by apply safe_ret.
  - eapply (safe_bind _ _ (λ fake, len fake ≤ 1)).
    + destruct (_ || _); [by apply safe_ret|]. eapply safe_bind; [apply allocate_fake_safe|].
      intros ip _. by apply safe_ret.
    + intros fake Hf. eapply build_safe; [done|done|lia].
Qed.

(** The answer a client gets, by what could go wrong. *)
Inductive answered (query : bytes) : bytes → Prop :=
  | answered_reply reply : answers query reply → answered query reply
  | answered_malformed reply :
      is_ok (parse_dns_query query) = false → build_dns_error_response query 1 = Ok reply → answered query reply
  | answered_failed reply : build_dns_error_response query 2 = Ok reply → answered query reply.

Lemma answer_raw_spec r query s :
  is_bytes query → good s →
  let '(o, s') := answer_raw_dns_query r query s in
  good s' ∧ now s ≤ now s' ∧ ∃ reply, o = Ok reply ∧ answered query reply.
Proof.
  intros Hq Hs. unfold Resolver.answer_raw_dns_query. destruct (parse_query_spec query Hq) as [Ht _].
  assert (∀ code, ∃ reply, build_dns_error_response query code = Ok reply) as Herr.
  { intros code. pose proof (error_total query code Hq). by destruct (build_dns_error_response query code) eqn:E; [eexists|..]. }
  destruct (parse_dns_query query) as [[domain qtype]| | |] eqn:Hp; [| |done..].
  - apply parse_query_question in Hp as [q Hqq]. destruct (suppressed r qtype).
    + destruct (built_answers query q [] 5 Hq Hqq ltac:(done)) as (resp & -> & Ha). simpl.
      split_and!; [done|lia|]. eexists. split; [done|by constructor].
    + pose proof (answer_wire_safe r query Hq s Hs) as Hsafe. destruct (Herr 2) as [e2 He2].
      destruct (answer_wire r query s) as [[reply| | |] s']; destruct Hsafe as (? & ? & ?); try done;
        split_and!; try done.
      * exists reply. split; [done|by constructor].
      * exists e2. split; [done|by apply answered_failed].
      * exists e2. split; [done|by apply answered_failed].
  - destruct (Herr 1) as [e1 He1]. simpl. split_and!; [done|lia|]. exists e1. split; [done|].
    apply answered_malformed; [by rewrite Hp|done].
Qed.

(** ** Who gets a fake address *)
Definition mapping (s : Shared) : gmap str Z * gmap Z str := (by_domain (pool s), by_ip (pool s)).

Lemma record_probe_mapping domain addrs : framed mapping (record_probe_domestic domain addrs).
Proof.
  apply framed_modify. intros s. unfold mapping. simpl. generalize (pool s) as p. intros p.
  assert (by_domain (fold_left (λ p ip, record_domestic ip domain p) addrs p) = by_domain p ∧
          by_ip (fold_left (λ p ip, record_domestic ip domain p) addrs p) = by_ip p) as [-> ->]; [|done].
  revert p. induction addrs as [|ip addrs IH]; intros p; [done|]. simpl. by destruct (IH (record_domestic ip domain p)) as [-> ->].
Qed.

Lemma exchange_raw_mapping r query : framed mapping (exchange_raw r query).
Proof. by apply exchange_raw_framed. Qed.

Lemma resolve_dedup_mapping r domain qtype : framed mapping (resolve_dedup r domain qtype).
Proof. by apply resolve_dedup_framed. Qed.

(** A name that may get a fake address. *)
Definition faked (r : DnsResolver) (domain : str) : bool :=
  fakeip r && match match_domain_group r domain with Primary => true | Fallback => false end.

Lemma resolve_mapping r domain qtype :
  faked r (canonical domain) = false → framed mapping (resolve_qtype_snapshot r domain qtype).
Proof.
  intros Hf. unfold Resolver.resolve_qtype_snapshot. destruct (negb _); [apply framed_lift|].
  apply framed_bind.
  - unfold Resolver.resolve_qtype_inner. fold (faked r (canonical domain)). rewrite Hf.
    destruct (wrong_family _ _); [apply framed_ret|]. destruct (parse_ip _); [apply framed_ret|].
    apply framed_bind; [by apply framed_state|]. intros [[addrs [|]]|]; [|apply framed_ret|apply resolve_dedup_mapping].
    apply framed_bind; [|intros; apply framed_ret]. apply framed_modify. intros s. unfold spawn_refresh.
    by destruct (free_slots s).
  - intros addrs. apply framed_bind; [|intros; apply framed_ret].
    destruct (_ && _); [apply record_probe_mapping|apply framed_ret].
Qed.

Lemma record_parsed_mapping (reply : bytes) domain :
  framed mapping (match parse_dns_response reply with Ok addrs => record_probe_domestic domain addrs | _ => mret tt end).
Proof. destruct (parse_dns_response reply); [apply record_probe_mapping|apply framed_ret..]. Qed.

Lemma answer_wire_mapping r query :
  (∀ domain qtype, parse_dns_query query = Ok (domain, qtype) → faked r (canonical domain) = false) →
  framed mapping (answer_wire r query).
Proof.
  intros Hf. unfold Resolver.answer_wire. destruct (parse_dns_query query) as [[domain qtype]| | |] eqn:E;
    [|by intros s..].
  specialize (Hf _ _ eq_refl). rewrite lift_ok_bind. cbn zeta. unfold faked in Hf.
  destruct (fakeip r); simpl negb; cbv iota; [|apply exchange_raw_mapping]. simpl (true && _) in Hf. rewrite Hf.
  rewrite !andb_false_r. simpl negb. cbv iota. destruct (negb _); [apply exchange_raw_mapping|].
  apply framed_bind; [apply exchange_raw_mapping|]. intros reply.
  apply framed_bind; [apply framed_lift|]. intros capped.
  apply framed_bind; [apply record_parsed_mapping|]. intros. apply framed_ret.
Qed.

Lemma answer_raw_mapping r query :
  (∀ domain qtype, parse_dns_query query = Ok (domain, qtype) → faked r (canonical domain) = false) →
  framed mapping (answer_raw_dns_query r query).
Proof.
  intros Hf s. pose proof (answer_wire_mapping r query Hf s) as Hm. unfold Resolver.answer_raw_dns_query.
  destruct (parse_dns_query query) as [[domain qtype]| | |]; [|done..]. destruct (suppressed r qtype); [done|].
  by destruct (answer_wire r query s) as [[| | |] s'].
Qed.

Lemma allocate_entry domain (p : @Inner D) : let '(ip, p') := allocate domain p in by_domain p' !! to_ascii_lowercase domain = Some ip.
Proof.
  unfold allocate. destruct (by_domain p !! to_ascii_lowercase domain) eqn:E; [done|]. simpl. apply lookup_insert_eq.
Qed.

Lemma lower_idem b : lower_byte (lower_byte b) = lower_byte b.
Proof.
  unfold lower_byte, between.
  destruct (Z.leb_spec 65 b), (Z.leb_spec b 90); simpl;
    repeat match goal with |- context [?a <=? ?c] => destruct (Z.leb_spec a c) end; simpl; lia.
Qed.

Lemma canonical_lower domain : to_ascii_lowercase (canonical domain) = canonical domain.
Proof. unfold canonical, to_ascii_lowercase. rewrite map_map. apply map_ext, lower_idem. Qed.

(** What holds when a computation returns a value. *)
Definition wp {T} (m : M T) (R : T → Shared → Prop) (s : Shared) : Prop :=
  match m s with (Ok x, s') => R x s' | _ => True end.

Lemma wp_bind {T T'} (m : M T) (k : T → M T') R s :
  wp m (λ x, wp (k x) R) s → wp (m ≫= k) R s.
Proof.
  unfold wp. change ((m ≫= k) s) with (M_bind _ _ k m s). unfold M_bind. by destruct (m s) as [[x| | |] s1].
Qed.

Lemma wp_ret {T} (x : T) (R : T → Shared → Prop) s : R x s → wp (mret x) R s.
Proof. done. Qed.

Lemma wp_framed {T B} (f : Shared → B) (m : M T) s : framed f m → wp m (λ _ s', f s' = f s) s.
Proof. intros Hm. specialize (Hm s). unfold wp. destruct (m s) as [[x| | |] s1]; done. Qed.

Lemma wp_mono {T} (m : M T) (R R' : T → Shared → Prop) s :
  wp m R s → (∀ x s', R x s' → R' x s') → wp m R' s.
Proof. unfold wp. intros Hm HR. destruct (m s) as [[x| | |] s1]; auto. Qed.

(** The outcome of the A lookup of a name that may be faked: Chinese addresses,
    or the fake address of the name. *)
Definition faked_answer (r : DnsResolver) (name : str) (s : Shared) (addrs : list IpAddr) (s' : Shared) : Prop :=
  (ips_are_cn r addrs = true ∧ mapping s' = mapping s) ∨
  (∃ ip, addrs = [V4 ip] ∧ by_domain (pool s') !! name = Some ip).

Lemma wp_fakeip name s (R : list IpAddr → Shared → Prop) :
  to_ascii_lowercase name = name →
  (∀ ip s', by_domain (pool s') !! name = Some ip → R [V4 ip] s') → wp (answer_fakeip name 1) R s.
Proof.
  intros Hl HR. unfold answer_fakeip. simpl. apply wp_bind. unfold wp, allocate_fake, state.
  pose proof (allocate_entry name (pool s)) as He. destruct (allocate name (pool s)) as [ip p].
  apply HR. simpl. by rewrite <- Hl.
Qed.

Lemma resolve_faked r domain s :
  faked r (canonical domain) = true → wrong_family (strategy (config r)) 1 = false →
  parse_ip (canonical domain) = None →
  wp (resolve_qtype_snapshot r domain 1) (faked_answer r (canonical domain) s) s.
Proof.
  intros Hf Hw Hp. unfold Resolver.resolve_qtype_snapshot. destruct (negb _); [done|].
  assert (fakeip r && match match_domain_group r (canonical domain) with Primary => false | Fallback => true end = false) as ->.
  { unfold faked in Hf. destruct (fakeip r); [|done]. by destruct (match_domain_group _ _). }
  pose proof (canonical_lower domain) as Hl. set (name := canonical domain) in *.
  apply wp_bind. apply (wp_mono _ (faked_answer r name s)); [|by intros].
  unfold Resolver.resolve_qtype_inner. rewrite Hw, Hp. fold (faked r name). rewrite Hf, andb_false_r.
  assert (∀ s0, wp (answer_fakeip name 1) (faked_answer r name s) s0) as Hfake.
  { intros s0. apply wp_fakeip; [done|]. intros ip s' He. right. by exists ip. }
  destruct (geoip r) eqn:Hg; [|apply Hfake].
  unfold Resolver.resolve_primary_fakeip_or_cn. apply wp_bind.
  eapply wp_mono; [apply (wp_framed mapping), resolve_dedup_mapping|]. intros probe s1 Hs1.
  destruct (ips_are_cn r probe) eqn:Hcn; [|apply Hfake].
  apply wp_bind. eapply wp_mono; [apply (wp_framed mapping), record_probe_mapping|]. intros [] s2 Hs2.
  apply wp_ret. left. split; [done|]. simpl in *. by rewrite Hs2.
Qed.

(** ** The life of a cached answer *)
Lemma peek_pop k (c : A) : NoDup (lru_entries c).*1 → lru_peek k (lru_pop k c).2 = None.
Proof.
  intros Hnd. destruct (lru_peek k c) as [v|] eqn:E; [|by rewrite (lru_pop_none _ _ E)].
  rewrite (lru_entries_pop _ _ _ E) in Hnd. simpl in Hnd. apply NoDup_cons in Hnd as [Hk _].
  destruct (lru_peek k (lru_pop k c).2) as [w|] eqn:E'; [|done].
  destruct Hk. apply lru_peek_entries in E'. apply list_elem_of_fmap. by exists (k, w).
Qed.

(** How long addresses with the TTL [ttl] are kept: the configured time bounds it. *)
Definition lifetime (r : DnsResolver) (ttl : Z) : Z := if 0 <? cache_ttl (config r) then Z.min (cache_ttl (config r)) ttl else ttl.

(** What the cache answers at [t] when addresses came at [from] with the TTL [ttl]. *)
Definition kept (r : DnsResolver) (addrs : list IpAddr) (ttl from t : Z) : option (list IpAddr * bool) :=
  if bool_decide (addrs = []) then if t <? from + NEGATIVE_CACHE_TTL then Some ([], false) else None
  else if lifetime r ttl =? 0 then None
  else if t <? from + lifetime r ttl * second then Some (addrs, false)
  else if t - (from + lifetime r ttl * second) <? STALE_WHILE_REVALIDATE then Some (addrs, true)
  else None.

Lemma remember_lookup r domain qtype result s t :
  good s → cache_enabled (config r) = true →
  cached_addresses r domain qtype (set_now t (remember_answer r (domain, qtype, direct_resolution r) result s)) =
    match result with Some a => kept r (la_addresses a) (la_ttl a) (now s) t | None => kept r [] 0 (now s) t end.
Proof.
  intros Hs Hen. unfold remember_answer, cached_addresses. rewrite Hen. simpl negb. cbv iota.
  pose proof (good_room _ Hs) as Hroom. pose proof (good_distinct _ Hs) as Hnd.
  destruct result as [[addrs ttl]|]; unfold kept; simpl.
  - destruct (bool_decide (addrs = [])) eqn:Ea; simpl.
    + rewrite lru_peek_put by done. simpl. by destruct (_ <? _).
    + fold (lifetime r ttl). set (T := lifetime r ttl).
      assert ((T * second =? 0) = (T =? 0)) as -> by (unfold second; destruct (Z.eqb_spec T 0), (Z.eqb_spec (T * 1000000000) 0); lia).
      destruct (T =? 0); simpl; [by rewrite peek_pop|]. rewrite lru_peek_put by done. simpl. rewrite Ea. simpl. done.
  - rewrite lru_peek_put by done. simpl. by destruct (_ <? _).
Qed.

(** The least TTL of the records in the answer section, none without records. *)
Definition answers_live (reply : bytes) (ttl : Z) : Prop :=
  ∃ p a rs, skip_dns_name reply 12 = Ok p ∧ idx_u16 reply 6 = Ok a ∧ read_records (Z.to_nat a) reply (p + 4) = Ok rs ∧
    Forall (λ rr, ttl <= rr_ttl rr) rs ∧ (if bool_decide (rs = []) then ttl = 0 else Exists (λ rr, rr_ttl rr = ttl) rs).

Lemma min_ttl_least rs : ∀ old, ∃ n, min_ttl (Some old) rs = Some n ∧ n <= old ∧ Forall (λ rr, n <= rr_ttl rr) rs ∧
  (n = old ∨ Exists (λ rr, rr_ttl rr = n) rs).
Proof.
  induction rs as [|rr rs IH]; intros old; [exists old; by split_and!; auto|].
  destruct (IH (Z.min old (rr_ttl rr))) as (n & E & Hle & Hall & Hex). exists n. split; [exact E|]. split; [lia|]. split; [constructor; [lia|done]|].
  destruct Hex as [->|Hex]; [|right; by constructor 2].
  destruct (Z.le_gt_cases old (rr_ttl rr)); [left; lia|right; constructor; lia].
Qed.

Lemma answer_ttl_live query reply ttl : answers query reply → answer_ttl reply = Ok ttl → answers_live reply ttl.
Proof.
  intros Ha. destruct (answers_ok _ _ Ha) as (? & ? & Hr & _). destruct Ha as [_ Hb].
  destruct (capped_records reply 0 Hb ltac:(unfold u32; lia) Hr) as (_ & p & a & rs & _ & _ & _ & Hp & _ & Hi & _ & Hle & Hrs & _ & ->).
  intros [= <-]. exists p, a, (take (Z.to_nat a) rs). split; [done|]. split; [done|].
  split; [apply (read_records_take _ _ _ _ _ Hrs); unfold len in Hle; lia|].
  destruct (take (Z.to_nat a) rs) as [|rr l]; [by split; [constructor|rewrite bool_decide_eq_true_2]|].
  destruct (min_ttl_least l (rr_ttl rr)) as (n & E & Hn & Hall & Hex). change (min_ttl None (rr :: l)) with (min_ttl (Some (rr_ttl rr)) l). rewrite E.
  cbn [default]. split; [by constructor|]. rewrite bool_decide_eq_false_2 by done. destruct Hex as [->|]; [by constructor|by constructor 2].
Qed.

(** A lookup that went to the servers: the reply its addresses and lifetime come from. *)
Lemma resolve_uncached_reply r domain qtype s a s' : is_bytes domain → good s → resolve_uncached r domain qtype s = (Ok a, s') →
  ∃ reply all, exchange_raw r (build_dns_query (query_id domain qtype) domain qtype) s = (Ok reply, s') ∧
    parse_dns_response reply = Ok all ∧ la_addresses a = take 128 (List.filter (of_family qtype) all) ∧ answers_live reply (la_ttl a).
Proof.
  intros Hd Hs E. set (query := build_dns_query _ _ _) in *.
  pose proof (exchange_raw_safe r query ltac:(by apply build_query_bytes) s Hs) as Hx. unfold Resolver.resolve_uncached in E. fold query in E.
  unfold mbind, M_bind in E. destruct (exchange_raw r query s) as [[reply|e| |] s1]; try discriminate E. destruct Hx as (_ & _ & Ha). unfold lift in E.
  destruct (parse_dns_response reply) as [all|e| |] eqn:Ep; try discriminate E.
  destruct (answer_ttl reply) as [ttl|e| |] eqn:Et; try discriminate E. injection E as <- <-.
  exists reply, all. split; [done|]. split; [done|]. split; [done|]. by eapply answer_ttl_live.
Qed.
End resolver.

(** ** Groups of names *)
(** [domain] is [host] or a name below it. *)
Definition below (domain host : str) : Prop := domain = host ∨ ∃ p, domain = p ++ [dot] ++ host.

Lemma at_dot_spec domain host : at_dot domain host = true ↔ ∃ p, domain = p ++ [dot] ++ host.
Proof.
  unfold at_dot. rewrite !andb_true_iff, Z.ltb_lt, ends_with_spec, bool_decide_eq_true. split.
  - intros [[Hlt [t ->]] Hd]. rewrite len_app in *.
    replace (len t + len host - len host - 1) with (len t - 1) in Hd by lia.
    rewrite byte_at_app_l in Hd by lia. destruct t as [|x t _] using rev_ind; [unfold len in Hlt; simpl in Hlt; lia|].
    exists t. rewrite <- app_assoc. f_equal. rewrite len_app in Hd. change (len [x]) with 1 in Hd.
    replace (len t + 1 - 1) with (len t + 0) in Hd by lia. rewrite byte_at_app_r in Hd by lia.
    simpl. f_equal. by injection Hd.
  - intros [p ->]. split; [split|].
    + rewrite !len_app. pose proof (len_nonneg p). change (len [dot]) with 1. lia.
    + exists (p ++ [dot]). by rewrite <- app_assoc.
    + replace (len (p ++ [dot] ++ host) - len host - 1) with (len p + 0)
        by (rewrite !len_app; change (len [dot]) with 1; lia).
      by rewrite byte_at_app_r by lia.
Qed.

Lemma is_server_domain_spec hosts domain :
  is_server_domain hosts domain = true ↔ ∃ host, host ∈ hosts ∧ below domain host.
Proof.
  unfold is_server_domain, below. rewrite orb_true_iff, bool_decide_eq_true, existsb_exists. split.
  - intros [Hin|(host & Hin%list_elem_of_In & Hd%at_dot_spec)]; [exists domain|exists host]; auto.
  - intros (host & Hin & [->|Hd]); [by left|right]. exists host. by rewrite <- list_elem_of_In, at_dot_spec.
Qed.

(** The suffixes that start after a dot, longest first. *)
Fixpoint suffixes (domain : str) : list str :=
  match domain with
  | [] => []
  | b :: rest => if b =? dot then rest :: suffixes rest else suffixes rest
  end.

Lemma elem_of_suffixes domain s : s ∈ suffixes domain ↔ ∃ p, domain = p ++ [dot] ++ s.
Proof.
  induction domain as [|b rest IH]; simpl.
  - split; [by intros ?%not_elem_of_nil|by intros [[|] [=]]].
  - destruct (Z.eqb_spec b dot) as [->|Hb].
    + rewrite elem_of_cons, IH. split.
      * intros [->|[p ->]]; [by exists []|by exists (dot :: p)].
      * intros [[|x p] E]; simpl in E; injection E; intros; subst; [by left|right; by exists p].
    + rewrite IH. split; [intros [p ->]; by exists (b :: p)|].
      intros [[|x p] E]; simpl in E; injection E; intros; subst; [done|by exists p].
Qed.

Lemma suffix_rule_spec rules domain : suffix_rule rules domain = head (omap (rules !!.) (suffixes domain)).
Proof.
  induction domain as [|b rest IH]; simpl; [done|]. destruct (b =? dot); [|done].
  simpl. by destruct (rules !! rest).
Qed.

(** Longer suffixes come first, so the head is the longest. *)
Lemma suffixes_longest domain :
  StronglySorted (λ s t : str, (length t < length s)%nat) (suffixes domain) ∧
  Forall (λ s : str, (length s < length domain)%nat) (suffixes domain).
Proof.
  induction domain as [|b rest [IHs IHl]]; simpl; [by split; constructor|].
  assert (Forall (λ s : str, (length s < S (length rest))%nat) (suffixes rest)) as Hl.
  { eapply Forall_impl; [exact IHl|]. simpl. lia. }
  destruct (b =? dot); [|done]. split; constructor; done || simpl; lia.
Qed.

(** ** The properties *)
Section properties.
Context {U : Unicode}.
Context {W : Type} `{WL : LruView bytes (bytes * Z) W}.
Context {A : Type} `{AL : LruView CacheKey CacheEntry A}.
Context {D : Type} `{DL : Lru IpAddr str D}.
Notation Shared := (@Shared W A D).

(** The states a resolver goes through, whatever servers answer and whatever
    policy each request runs under. *)
Inductive reachable : Shared → Prop :=
  | at_start capacity start p : reachable (shared_new capacity start p)
  | after_lookup network query_id r domain qtype s :
      sends_bytes network → is_bytes domain → reachable s →
      reachable (resolve_qtype_snapshot network query_id r domain qtype s).2
  | after_query network query_id r query s :
      sends_bytes network → is_bytes query → reachable s →
      reachable (answer_raw_dns_query network query_id r query s).2
  | after_refresh network query_id r s :
      sends_bytes network → reachable s → reachable (refresh_step network query_id r s)
  | after_time (d : N) s : reachable s → reachable (set_now (now s + Z.of_N d) s)
  | after_clear r s : reachable s → reachable (clear_cache r s).

Lemma reachable_good s : reachable s → good s.
Proof.
  induction 1 as [capacity start p|network query_id r domain qtype s Hn Hd _ IH
    |network query_id r query s Hn Hq _ IH|network query_id r s Hn _ IH|d s _ IH|r s _ IH].
  - split; simpl; try done; try (rewrite lru_entries_new; by constructor).
    + apply bounded_new.
    + rewrite lru_len_new. apply Nat.le_0_l.
    + rewrite lru_cap_new. unfold clamp. lia.
  - pose proof (resolve_snapshot_safe network query_id Hn r domain qtype Hd s IH) as Hs.
    destruct (resolve_qtype_snapshot _ _ _ _ _ _) as [o s']. by destruct Hs.
  - pose proof (answer_raw_spec network query_id Hn r query s Hq IH) as Hs.
    destruct (answer_raw_dns_query _ _ _ _ _) as [o s']. by destruct Hs.
  - by apply refresh_step_good.
  - by destruct IH.
  - destruct IH. split; simpl; try done; try (rewrite lru_entries_new; by constructor).
    + apply bounded_new.
    + rewrite lru_len_new. apply Nat.le_0_l.
    + by rewrite lru_cap_new.
Qed.

(** In every reachable state the cache of wire replies holds at most 1 MiB and
    its byte count is exact, no key exceeds 512 bytes and no reply 4096, every
    reply it holds answers the query of its key, the address cache is within its
    capacity, and at most sixteen refreshes run in the background. *)
Theorem resolver_bounded s :
  reachable s →
  wc_bytes (wire s) = total_size (lru_entries (wc_entries (wire s))) ∧ wc_bytes (wire s) ≤ 1048576 ∧
  Forall small (lru_entries (wc_entries (wire s))) ∧ Forall entry_answers (lru_entries (wc_entries (wire s))) ∧
  (lru_len (cache s) ≤ lru_cap (cache s))%nat ∧ (free_slots s + length (refreshing s) = 16)%nat.
Proof. intros Hs%reachable_good. destruct Hs as [[] ]. split_and!; done. Qed.

(** C8. Every query gets an answer: whatever the servers send, in whatever state,
    the resolver returns without a panic either a reply that answers this very
    query (its id, its question, well-formed records), also when the reply comes
    from the cache, or the error reply for a malformed query or a failure. *)
Theorem dns_always_answers network query_id r query s :
  sends_bytes network → is_bytes query → reachable s →
  ∃ reply s', answer_raw_dns_query network query_id r query s = (Ok reply, s') ∧
    (validate_response query reply = Ok tt ∨
     is_ok (parse_dns_query query) = false ∧ build_dns_error_response query 1 = Ok reply ∨
     build_dns_error_response query 2 = Ok reply).
Proof.
  intros Hn Hq Hs%reachable_good. pose proof (answer_raw_spec network query_id Hn r query s Hq Hs) as Ha.
  destruct (answer_raw_dns_query _ _ _ _ _) as [o s']. destruct Ha as (_ & _ & reply & -> & Hr).
  exists reply, s'. split; [done|]. destruct Hr as [reply [? _]|reply ? ?|reply ?]; auto.
Qed.

(** C28. Lookups are well typed: the addresses of an A lookup are IPv4 and those
    of an AAAA lookup IPv6, from the servers, the caches or the fake-IP pool. *)
Theorem resolver_families network query_id r domain qtype s addrs s' :
  sends_bytes network → is_bytes domain → reachable s →
  resolve_qtype_snapshot network query_id r domain qtype s = (Ok addrs, s') →
  Forall (λ ip, (qtype = 1 → is_ipv4 ip = true) ∧ (qtype = 28 → is_ipv4 ip = false)) addrs.
Proof.
  intros Hn Hd Hs%reachable_good E. pose proof (resolve_snapshot_safe network query_id Hn r domain qtype Hd s Hs) as Hsafe.
  rewrite E in Hsafe. destruct Hsafe as (_ & _ & Hf). eapply Forall_impl; [exact Hf|].
  intros ip Hip. simpl in Hip. split; intros ->; [done|]. by apply negb_true_iff.
Qed.

(** C9. Fake addresses are for the names they are meant for: without the pool, or
    for a name of the direct group (a proxy server's host, a domestic suffix),
    neither a lookup nor a wire query ever allocates one; and the A lookup of any
    other name gives its fake address, or real ones of which one is Chinese, in
    which case nothing is allocated. *)
Theorem fake_ip_policy network query_id r domain qtype s :
  (fakeip r = false ∨ match_domain_group r (canonical domain) = Fallback →
   mapping (resolve_qtype_snapshot network query_id r domain qtype s).2 = mapping s ∧
   ∀ query t, parse_dns_query query = Ok (domain, t) →
     mapping (answer_raw_dns_query network query_id r query s).2 = mapping s) ∧
  (fakeip r = true → match_domain_group r (canonical domain) = Primary →
   wrong_family (strategy (config r)) 1 = false → parse_ip (canonical domain) = None →
   ∀ addrs s', resolve_qtype_snapshot network query_id r domain 1 s = (Ok addrs, s') →
     (ips_are_cn r addrs = true ∧ mapping s' = mapping s) ∨
     (∃ ip, addrs = [V4 ip] ∧ by_domain (pool s') !! canonical domain = Some ip)).
Proof.
  split.
  - intros Hno. assert (faked r (canonical domain) = false) as Hf.
    { unfold faked. destruct Hno as [-> | ->]; [done|apply andb_false_r]. }
    split; [by apply resolve_mapping|]. intros query t Hp. apply answer_raw_mapping.
    intros d' t' Hp'. rewrite Hp in Hp'. by injection Hp' as <- <-.
  - intros Hf Hg Hw Hp addrs s' E.
    assert (faked r (canonical domain) = true) as Hfk by (unfold faked; by rewrite Hf, Hg).
    pose proof (resolve_faked network query_id r domain s Hfk Hw Hp) as Hr. unfold wp in Hr. by rewrite E in Hr.
Qed.

(** C27. An answer lives in the cache as long as it should. When a lookup that went to
    the servers gives addresses, they are those of its family in the reply, the first
    128, and the cache serves them fresh for the least TTL of the answers in that reply
    or the configured time, whichever is shorter (zero configures none), stale for five
    more minutes, and never after; with a lifetime of zero it does not keep them. No
    addresses, or a failure, are remembered for thirty seconds and never served stale. *)
Theorem dns_cache_lifetime network query_id r domain qtype s o s' t :
  sends_bytes network → is_bytes domain → reachable s → cache_enabled (config r) = true →
  resolve_dedup network query_id r domain qtype s = (o, s') → o ≠ Diverge →
  match o with
  | Ok addrs => ∃ reply s1 all ttl,
      exchange_raw network r (build_dns_query (query_id domain qtype) domain qtype) s = (Ok reply, s1) ∧
      parse_dns_response reply = Ok all ∧ addrs = take 128 (List.filter (of_family qtype) all) ∧ answers_live reply ttl ∧
      let life := if 0 <? cache_ttl (config r) then Z.min (cache_ttl (config r)) ttl else ttl in
      cached_addresses r domain qtype (set_now t s') =
        if bool_decide (addrs = []) then if t <? now s' + 30 * second then Some ([], false) else None
        else if life =? 0 then None
        else if t <? now s' + life * second then Some (addrs, false)
        else if t - (now s' + life * second) <? 300 * second then Some (addrs, true)
        else None
  | Err _ => cached_addresses r domain qtype (set_now t s') = if t <? now s' + 30 * second then Some ([], false) else None
  | _ => False
  end.
Proof.
  intros Hn Hd Hs%reachable_good Hen E Hdiv.
  pose proof (resolve_uncached_safe network query_id Hn r domain qtype Hd s Hs) as Hsafe.
  pose proof (resolve_uncached_reply network query_id Hn r domain qtype s) as Hreply.
  unfold resolve_dedup in E. rewrite Hen in E.
  destruct (resolve_uncached network query_id r domain qtype s) as [[a|e| |] s1]; destruct Hsafe as (Hs1 & _ & HQ);
    injection E as <- <-; try done.
  - destruct (Hreply a s1 Hd Hs eq_refl) as (reply & all & Hx & Hp & Ha & Hl). exists reply, s1, all, (la_ttl a). split; [done|].
    split; [done|]. split; [done|]. split; [done|].
    rewrite (remember_lookup query_id r domain qtype (Some a)) by done. unfold kept, lifetime, remember_answer. by destruct (bool_decide _).
  - by rewrite (remember_lookup query_id r domain qtype None).
Qed.

(** A name goes to the group of its longest suffix: a name at or below the
    host of a proxy server is always in the direct group; any other takes the rule
    of the name itself, else that of its longest suffix behind a dot that has
    one, else the primary group. *)
Theorem domain_group_spec r domain :
  ((∃ host, host ∈ server_domains r ∧ below domain host) → match_domain_group r domain = Fallback) ∧
  ((¬ ∃ host, host ∈ server_domains r ∧ below domain host) →
   match_domain_group r domain =
     default Primary (head (omap (domain_rules (config r) !!.) (domain :: suffixes domain)))) ∧
  (∀ s, s ∈ suffixes domain ↔ ∃ p, domain = p ++ [dot] ++ s) ∧
  StronglySorted (λ s t : str, (length t < length s)%nat) (domain :: suffixes domain).
Proof.
  unfold match_domain_group. rewrite <- is_server_domain_spec. split_and!.
  - by intros ->.
  - intros Hno%not_true_is_false. rewrite Hno. simpl. rewrite suffix_rule_spec.
    by destruct (domain_rules (config r) !! domain).
  - intros s. apply elem_of_suffixes.
  - destruct (suffixes_longest domain). by constructor.
Qed.
End properties.

(** ** Witnesses: one server that knows one name *)
#[local] Existing Instance ascii_unicode.
Definition sample_network (servers : list DnsServer) (query : bytes) : list (N * (bytes + string)) :=
  if bool_decide (query = query_example) then [(5%N, inl response_example)] else [].
Definition sample_config : DnsConfig :=
  {| config_ipv4_only := false; dual_stack_fakeip := false; proxy_servers := None; strategy := PreferIpv4;
     cache_capacity := 64; servers := [Udp (V4 134744072, 53)]; fallback := []; domain_rules := ∅;
     cache_ttl := 600; cache_enabled := true |}.
Definition sample_resolver (fake : bool) : DnsResolver :=
  {| config := sample_config; client_ipv4_only := false; direct_resolution := false; primary_override := None;
     fakeip := fake; geoip := None; server_domains := [] |}.
Definition sample_shared : @Shared (Lru.cache bytes (bytes * Z)) (Lru.cache CacheKey CacheEntry) (Lru.cache IpAddr str) :=
  shared_new 64 0 FakeIp.new.
Definition sample_id (domain : str) (qtype : Z) : Z := 7.
Definition sample_name : str := lit "www.example.com".

Lemma sample_network_bytes : sends_bytes sample_network.
Proof.
  intros servers query. unfold sample_network. destruct (bool_decide _); [|constructor].
  constructor; [|constructor]. simpl. decided.
Qed.

Lemma resolver_bounded_witness :
  wc_bytes (wire (answer_raw_dns_query sample_network sample_id (sample_resolver false) query_example sample_shared).2) ≤ 1048576.
Proof.
  apply resolver_bounded. apply after_query; [apply sample_network_bytes|decided|apply at_start].
Defined.

Lemma dns_always_answers_witness :
  ∃ reply s', answer_raw_dns_query sample_network sample_id (sample_resolver false) query_example sample_shared = (Ok reply, s') ∧
    (validate_response query_example reply = Ok tt ∨
     is_ok (parse_dns_query query_example) = false ∧ build_dns_error_response query_example 1 = Ok reply ∨
     build_dns_error_response query_example 2 = Ok reply).
Proof. apply dns_always_answers; [apply sample_network_bytes|decided|apply at_start]. Defined.

Lemma resolver_families_witness :
  ∃ addrs s', resolve_qtype_snapshot sample_network sample_id (sample_resolver true) sample_name 1 sample_shared = (Ok addrs, s') ∧
    addrs ≠ [] ∧ Forall (λ ip, (1 = 1 → is_ipv4 ip = true) ∧ (1 = 28 → is_ipv4 ip = false)) addrs.
Proof.
  destruct (resolve_qtype_snapshot sample_network sample_id (sample_resolver true) sample_name 1 sample_shared) as [o s'] eqn:E.
  assert (∃ ip, o = Ok [ip]) as [ip ->].
  { apply (f_equal fst) in E. vm_compute in E. rewrite <- E. by eexists. }
  exists [ip], s'. split; [done|]. split; [done|].
  apply (resolver_families sample_network sample_id (sample_resolver true) sample_name 1 sample_shared [ip] s'
    sample_network_bytes); [decided|apply at_start|exact E].
Defined.

(** Seven seconds after the lookup the addresses are fresh. *)
Lemma dns_cache_lifetime_witness :
  ∃ s' reply ttl, resolve_dedup sample_network (λ _ _, 4660) (sample_resolver false) sample_name 1 sample_shared
          = (Ok [V4 3232235777], s') ∧ answers_live reply ttl ∧
    cached_addresses (sample_resolver false) sample_name 1 (set_now 7 s') =
      (let life := Z.min 600 ttl in
       if life =? 0 then None
       else if 7 <? now s' + life * second then Some ([V4 3232235777], false)
       else if 7 - (now s' + life * second) <? 300 * second then Some ([V4 3232235777], true) else None).
Proof.
  destruct (resolve_dedup sample_network (λ _ _, 4660) (sample_resolver false) sample_name 1 sample_shared) as [o s'] eqn:E.
  assert (o = Ok [V4 3232235777]) as ->.
  { apply (f_equal fst) in E. vm_compute in E. by rewrite <- E. }
  destruct (dns_cache_lifetime sample_network (λ _ _, 4660) (sample_resolver false) sample_name 1 sample_shared _ s' 7
    sample_network_bytes ltac:(decided) (at_start 64 0 FakeIp.new) eq_refl E ltac:(done)) as (reply & s1 & all & ttl & _ & _ & _ & Hl & Hc).
  exists s', reply, ttl. split; [reflexivity|]. split; [exact Hl|]. exact Hc.
Defined.
