(* ===== verification/Coalesce.v ===== *)
(** * Requests that share one exchange (dns/mod.rs, dns/upstream.rs)

    [WireInflight] and [InflightLookup]: callers with the same key join one cell,
    one of them runs the exchange, all of them get its reply, and the last one to
    leave removes the cell from the registry.  A caller may be cancelled at any
    moment: its guard is dropped all the same, and tokio's [OnceCell] passes the
    initialisation on to a waiter.  The steps are the sections under the registry's
    lock and the transitions of the cell; they interleave freely. *)
From S2P Require Import Prelude.

Section coalesce.
Context {K R : Type} `{Countable K}.

(** A cell with its counter of users; [leader] is the caller whose initialiser
    runs. *)
Record Cell := { users : nat; reply : option R; leader : option nat }.

(** A caller holds its guard: the key and the cell. *)
Record Registry := {
  map_ : gmap K nat;
  cells : gmap nat Cell;
  guards : gmap nat (K * nat);
  next_cell : nat;
}.

Definition empty_registry : Registry := {| map_ := ∅; cells := ∅; guards := ∅; next_cell := 0 |}.

(** [map.entry(key)] under the lock; [limit] is the admission bound of the wire
    registry, a caller it refuses runs alone. *)
Definition join (limit : option nat) (caller : nat) (key : K) (s : Registry) : Registry :=
  match map_ s !! key with
  | Some c =>
      match cells s !! c with
      | Some cell =>
          {| map_ := map_ s;
             cells := <[c := {| users := S (users cell); reply := reply cell; leader := leader cell |}]> (cells s);
             guards := <[caller := (key, c)]> (guards s); next_cell := next_cell s |}
      | None => s
      end
  | None =>
      if match limit with Some n => (size (map_ s) <? n)%nat | None => true end then
        let c := next_cell s in
        {| map_ := <[key := c]> (map_ s);
           cells := <[c := {| users := 1; reply := None; leader := None |}]> (cells s);
           guards := <[caller := (key, c)]> (guards s); next_cell := S c |}
      else s
  end.

Definition with_cell (c : nat) (f : Cell → Cell) (s : Registry) : Registry :=
  {| map_ := map_ s; cells := alter f c (cells s); guards := guards s; next_cell := next_cell s |}.

(** [get_or_init] of a caller that finds the cell neither set nor initialising. *)
Definition lead (caller c : nat) : Registry → Registry :=
  with_cell c (λ cell, {| users := users cell; reply := reply cell; leader := Some caller |}).

(** The initialiser returns: the cell is set. *)
Definition complete (c : nat) (r : R) : Registry → Registry :=
  with_cell c (λ cell, {| users := users cell; reply := Some r; leader := None |}).

(** A dropped future gives up the initialisation it was running. *)
Definition resign (caller c : nat) : Registry → Registry :=
  with_cell c (λ cell, {| users := users cell; reply := reply cell;
                          leader := if bool_decide (leader cell = Some caller) then None else leader cell |}).

(** [WireInflightGuard::drop]. *)
Definition drop_guard (caller : nat) (s : Registry) : Registry :=
  match guards s !! caller with
  | None => s
  | Some (key, c) =>
      let s := resign caller c s in
      match cells s !! c with
      | None => s
      | Some cell =>
          let last := (users cell =? 1)%nat in
          let own := bool_decide (map_ s !! key = Some c) in
          {| map_ := if last && own then delete key (map_ s) else map_ s;
             cells := <[c := {| users := users cell - 1; reply := reply cell; leader := leader cell |}]> (cells s);
             guards := delete caller (guards s); next_cell := next_cell s |}
      end
  end.

(** [clear_cache] empties the registry under callers that still hold cells. *)
Definition clear (s : Registry) : Registry :=
  {| map_ := ∅; cells := cells s; guards := guards s; next_cell := next_cell s |}.

Inductive step (limit : option nat) : Registry → Registry → Prop :=
  | step_join caller key s : guards s !! caller = None → step limit s (join limit caller key s)
  | step_lead caller key c cell s :
      guards s !! caller = Some (key, c) → cells s !! c = Some cell → reply cell = None → leader cell = None →
      step limit s (lead caller c s)
  | step_complete caller c cell r s :
      cells s !! c = Some cell → leader cell = Some caller → step limit s (complete c r s)
  | step_drop caller s : is_Some (guards s !! caller) → step limit s (drop_guard caller s)
  | step_clear s : step limit s (clear s).

Inductive reachable (limit : option nat) : Registry → Prop :=
  | reach_empty : reachable limit empty_registry
  | reach_step s s' : reachable limit s → step limit s s' → reachable limit s'.

(** ** Invariant *)
Definition holders (c : nat) (s : Registry) : gmap nat (K * nat) :=
  filter (λ g, g.2.2 = c) (guards s).

Record registry_ok (limit : option nat) (s : Registry) : Prop := {
  ok_users : ∀ c cell, cells s !! c = Some cell → users cell = size (holders c s);
  ok_guard : ∀ caller key c, guards s !! caller = Some (key, c) → is_Some (cells s !! c);
  ok_map : ∀ key c, map_ s !! key = Some c →
    ∃ caller, guards s !! caller = Some (key, c);
  ok_same_key : ∀ a b key key' c, guards s !! a = Some (key, c) → guards s !! b = Some (key', c) → key = key';
  ok_leader : ∀ c cell a, cells s !! c = Some cell → leader cell = Some a →
    reply cell = None ∧ ∃ key, guards s !! a = Some (key, c);
  ok_fresh : ∀ c, is_Some (cells s !! c) → (c < next_cell s)%nat;
  ok_limit : ∀ n, limit = Some n → (size (map_ s) ≤ n)%nat;
}.
End coalesce.
Arguments Registry K R {_ _}.
Arguments Cell : clear implicits.
