(* ===== verification/CoalesceSpec.v ===== *)
(** * Requests that share one exchange: nobody is mixed up, lost or left waiting *)
From S2P Require Import Prelude Coalesce.

Section spec.
Context {K R : Type} `{Countable K}.
Notation Registry := (Registry K R).
Implicit Types s : Registry.

Lemma size_holders_insert s g caller key c c' :
  guards s !! caller = None → g = <[caller := (key, c)]> (guards s) →
  size (filter (λ x : nat * (K * nat), x.2.2 = c') g) =
    if decide (c' = c) then S (size (holders c' s)) else size (holders c' s).
Proof.
  intros Hn ->. case_decide as E.
  - rewrite map_filter_insert_True by done. rewrite map_size_insert_None; [done|].
    apply map_lookup_filter_None. by left.
  - rewrite map_filter_insert_not'; [done|simpl; congruence|]. intros y Hy. congruence.
Qed.

Lemma size_holders_delete s caller key c c' :
  guards s !! caller = Some (key, c) →
  size (filter (λ x : nat * (K * nat), x.2.2 = c') (delete caller (guards s))) =
    if decide (c' = c) then pred (size (holders c' s)) else size (holders c' s).
Proof.
  intros Hs. rewrite map_filter_delete. case_decide as E.
  - rewrite map_size_delete_Some; [done|]. exists (key, c). by apply map_lookup_filter_Some.
  - rewrite map_size_delete_None; [done|]. apply map_lookup_filter_None. right.
    intros x Hx. rewrite Hs in Hx. injection Hx as <-. simpl. congruence.
Qed.

Lemma holders_pos s caller key c : guards s !! caller = Some (key, c) → (0 < size (holders c s))%nat.
Proof.
  intros Hg. assert (holders c s !! caller = Some (key, c)) as Hh by (by apply map_lookup_filter_Some).
  destruct (decide (size (holders c s) = 0%nat)) as [E|]; [|lia].
  apply map_size_empty_inv in E. by rewrite E, lookup_empty in Hh.
Qed.

(** A second holder besides [caller]. *)
Lemma another_holder s caller key c :
  guards s !! caller = Some (key, c) → size (holders c s) ≠ 1%nat →
  ∃ other key', other ≠ caller ∧ guards s !! other = Some (key', c).
Proof.
  intros Hg Hsize. pose proof (holders_pos _ _ _ _ Hg).
  assert (size (delete caller (holders c s)) ≠ 0%nat) as Hd.
  { rewrite map_size_delete_Some; [lia|]. exists (key, c). by apply map_lookup_filter_Some. }
  apply map_size_non_empty_iff, map_choose in Hd as (other & [key' c'] & Ho).
  apply lookup_delete_Some in Ho as [Hne [Ho Hc]%map_lookup_filter_Some]. simpl in Hc. subst c'.
  exists other, key'. by split.
Qed.

Context (limit : option nat).

Lemma join_ok caller key s :
  guards s !! caller = None → registry_ok limit s → registry_ok limit (join limit caller key s).
Proof.
  intros Hn Hs. unfold join. destruct (map_ s !! key) as [c|] eqn:Em.
  - destruct (cells s !! c) as [cell|] eqn:Ec; [|done].
    destruct (ok_map _ _ Hs _ _ Em) as [holder Hholder]. destruct Hs. split; simpl.
    + intros c' cell' Hc'. unfold holders. simpl. rewrite (size_holders_insert s _ caller key c c') by done.
      apply lookup_insert_Some in Hc' as [[<- <-]|[Hne Hc']]; simpl.
      * rewrite decide_True by done. f_equal. by apply ok_users.
      * rewrite decide_False by done. by apply ok_users.
    + intros a k c' [[<- [= <- <-]]|[_ Ha]]%lookup_insert_Some; [by rewrite lookup_insert_eq|].
      apply lookup_insert_is_Some. destruct (decide (c = c')); [by left|right; split; [done|by eapply ok_guard]].
    + intros k c' Hk. destruct (ok_map k c' Hk) as [a Ha]. exists a. rewrite lookup_insert_ne; [done|congruence].
    + intros a b k k' c' [[<- [= <- <-]]|[_ Ha]]%lookup_insert_Some [[<- [= <-]]|[_ Hb]]%lookup_insert_Some;
        simplify_eq; first [done | eapply ok_same_key; eassumption].
    + intros c' cell' a Hc' Hl. apply lookup_insert_Some in Hc' as [[<- <-]|[_ Hc']]; simpl in *;
        [destruct (ok_leader _ _ _ Ec Hl) as (? & k & Hk)|destruct (ok_leader _ _ _ Hc' Hl) as (? & k & Hk)];
        (split; [done|exists k; rewrite lookup_insert_ne; [done|congruence]]).
    + intros c' [<-|[_ Hc']]%lookup_insert_is_Some; [apply ok_fresh; by rewrite Ec|by apply ok_fresh].
    + done.
  - destruct (match limit with Some n => _ | None => _ end) eqn:Hl; [|done].
    set (c := next_cell s). assert (cells s !! c = None) as Hc.
    { destruct (cells s !! c) eqn:E; [|done]. pose proof (ok_fresh _ _ Hs c ltac:(by rewrite E)). unfold c in *. lia. }
    assert (∀ a k, guards s !! a ≠ Some (k, c)) as Hnone.
    { intros a k Ha. destruct (ok_guard _ _ Hs _ _ _ Ha) as [? ?]. congruence. }
    destruct Hs. split; simpl.
    + intros c' cell' Hc'. unfold holders. simpl. rewrite (size_holders_insert s _ caller key c c') by done.
      apply lookup_insert_Some in Hc' as [[<- <-]|[Hne Hc']]; simpl.
      * rewrite decide_True by done. f_equal. symmetry. apply map_size_empty_iff. apply map_empty.
        intros a. apply map_lookup_filter_None. right. intros [k c2] Ha Hk. simpl in Hk. subst c2. by eapply Hnone.
      * rewrite decide_False by done. by apply ok_users.
    + intros a k c' [[<- [= <- <-]]|[_ Ha]]%lookup_insert_Some; [by rewrite lookup_insert_eq|].
      rewrite lookup_insert_ne; [by eapply ok_guard|]. intros <-. by eapply Hnone.
    + intros k c' [[<- <-]|[_ Hk]]%lookup_insert_Some; [exists caller; by rewrite lookup_insert_eq|].
      destruct (ok_map k c' Hk) as [a Ha]. exists a. rewrite lookup_insert_ne; [done|congruence].
    + intros a b k k' c' [[<- [= <- <-]]|[_ Ha]]%lookup_insert_Some [[<- [= <-]]|[_ Hb]]%lookup_insert_Some;
        simplify_eq; first [done | exfalso; by eapply Hnone | eapply ok_same_key; eassumption].
    + intros c' cell' a Hc' Hl'. apply lookup_insert_Some in Hc' as [[<- <-]|[_ Hc']]; [done|].
      destruct (ok_leader _ _ _ Hc' Hl') as (? & k & Hk).
      split; [done|exists k; rewrite lookup_insert_ne; [done|congruence]].
    + intros c' [<-|[_ Hc']]%lookup_insert_is_Some; [lia|]. specialize (ok_fresh c' Hc'). lia.
    + intros n ->. rewrite map_size_insert_None by done. apply Nat.ltb_lt in Hl. lia.
Qed.

(** Steps that change one cell and not its counter. *)
Lemma with_cell_ok c f s :
  (∀ cell, cells s !! c = Some cell → users (f cell) = users cell ∧
     ∀ a, leader (f cell) = Some a → reply (f cell) = None ∧ ∃ key, guards s !! a = Some (key, c)) →
  registry_ok limit s → registry_ok limit (with_cell c f s).
Proof.
  intros Hf Hs. destruct Hs. split; simpl; try done.
  - intros c' cell' Hc'. apply lookup_alter_Some in Hc' as [(<- & cell & Hc & ->)|[_ Hc]]; [|by apply ok_users].
    rewrite (proj1 (Hf _ Hc)). by apply ok_users.
  - intros a k c' Ha. rewrite lookup_alter_is_Some. by eapply ok_guard.
  - intros c' cell' a Hc' Hl. apply lookup_alter_Some in Hc' as [(<- & cell & Hc & ->)|[_ Hc]]; [|by eapply ok_leader].
    by apply (Hf _ Hc).
  - intros c'. rewrite lookup_alter_is_Some. apply ok_fresh.
Qed.

Lemma drop_guard_eq caller key c cell s :
  guards s !! caller = Some (key, c) → cells s !! c = Some cell →
  drop_guard caller s =
    {| map_ := if (users cell =? 1)%nat && bool_decide (map_ s !! key = Some c) then delete key (map_ s) else map_ s;
       cells := <[c := {| users := users cell - 1; reply := reply cell;
                          leader := if bool_decide (leader cell = Some caller) then None else leader cell |}]> (cells s);
       guards := delete caller (guards s); next_cell := next_cell s |}.
Proof.
  intros Hg Hc. unfold drop_guard. rewrite Hg. unfold resign, with_cell. simpl.
  rewrite lookup_alter_eq, Hc. simpl. f_equal. apply map_eq. intros c'.
  destruct (decide (c = c')) as [<-|]; [by rewrite !lookup_insert_eq|].
  rewrite !lookup_insert_ne by done. by apply lookup_alter_ne.
Qed.

Lemma drop_guard_ok caller s :
  is_Some (guards s !! caller) → registry_ok limit s → registry_ok limit (drop_guard caller s).
Proof.
  intros [[key c] Hg] Hs. destruct (ok_guard _ _ Hs _ _ _ Hg) as [cell Hc].
  rewrite (drop_guard_eq _ _ _ _ _ Hg Hc). pose proof (holders_pos _ _ _ _ Hg) as Hpos.
  pose proof (ok_users _ _ Hs _ _ Hc) as Hu. destruct Hs. split; simpl.
  - intros c' cell' Hc'. unfold holders. simpl. rewrite (size_holders_delete _ _ _ _ _ Hg).
    apply lookup_insert_Some in Hc' as [[<- <-]|[Hne Hc']]; simpl.
    + rewrite decide_True by done. lia.
    + rewrite decide_False by done. by apply ok_users.
  - intros a k c' [Hne Ha]%lookup_delete_Some. apply lookup_insert_is_Some.
    destruct (decide (c = c')); [by left|right; split; [done|by eapply ok_guard]].
  - assert (∀ k c', map_ s !! k = Some c' → (k = key ∧ c' = c → users cell ≠ 1%nat) →
      ∃ a, delete caller (guards s) !! a = Some (k, c')) as Hkeep.
    { intros k c' Hk Hlast. destruct (ok_map k c' Hk) as [a Ha].
      destruct (decide (a = caller)) as [->|]; [|exists a; by rewrite lookup_delete_ne].
      rewrite Hg in Ha. injection Ha as <- <-.
      destruct (another_holder _ _ _ _ Hg) as (o & k' & Hne & Ho); [rewrite <- Hu; by apply Hlast|].
      exists o. rewrite lookup_delete_ne by done. rewrite Ho. do 2 f_equal. by eapply ok_same_key. }
    intros k c' Hk. destruct (_ && _) eqn:E.
    + apply lookup_delete_Some in Hk as [Hne Hk]. apply Hkeep; [done|]. by intros [<- _].
    + apply Hkeep; [done|]. intros [-> ->] Hone. rewrite Hone, bool_decide_eq_true_2 in E by done. done.
  - intros a b k k' c' [_ Ha]%lookup_delete_Some [_ Hb]%lookup_delete_Some. by eapply ok_same_key.
  - intros c' cell' a Hc' Hl. apply lookup_insert_Some in Hc' as [[<- <-]|[Hne Hc']]; simpl in *.
    + case_bool_decide; [done|]. destruct (ok_leader _ _ _ Hc Hl) as (? & k & Hk).
      split; [done|exists k]. rewrite lookup_delete_ne; [done|congruence].
    + destruct (ok_leader _ _ _ Hc' Hl) as (? & k & Hk). split; [done|exists k].
      rewrite lookup_delete_ne; [done|]. intros <-. rewrite Hg in Hk. by injection Hk as _ ->.
  - intros c' [<-|[_ Hc']]%lookup_insert_is_Some; [apply ok_fresh; by rewrite Hc|by apply ok_fresh].
  - intros n Hn. etransitivity; [|by apply ok_limit]. destruct (_ && _); [|done].
    apply map_subseteq_size, delete_subseteq.
Qed.

Lemma registry_step_ok s s' : registry_ok limit s → step limit s s' → registry_ok limit s'.
Proof.
  intros Hs Hst. destruct Hst as [caller key s Hn|caller key c cell s Hg Hc Hr Hl|caller c cell r s Hc Hl|caller s Hg|s].
  - by apply join_ok.
  - apply with_cell_ok; [|done]. intros cell' Hc'. split; [done|]. simpl. intros a [= <-].
    rewrite Hc in Hc'. injection Hc' as <-. split; [done|by exists key].
  - by apply with_cell_ok.
  - by apply drop_guard_ok.
  - destruct Hs. split; simpl; try done. intros n Hn. rewrite map_size_empty. lia.
Qed.

Lemma registry_reachable_ok s : reachable limit s → registry_ok limit s.
Proof.
  induction 1 as [|s s' _ IH Hst]; [|by eapply registry_step_ok].
  split; simpl.
  - intros c cell Hc. by rewrite lookup_empty in Hc.
  - intros a key c Ha. by rewrite lookup_empty in Ha.
  - intros key c Hc. by rewrite lookup_empty in Hc.
  - intros a b key key' c Ha. by rewrite lookup_empty in Ha.
  - intros c cell a Hc. by rewrite lookup_empty in Hc.
  - intros c Hc. rewrite lookup_empty in Hc. by inversion Hc.
  - intros n _. rewrite map_size_empty. apply Nat.le_0_l.
Qed.

Lemma reply_kept s s' c cell r :
  registry_ok limit s → step limit s s' → cells s !! c = Some cell → reply cell = Some r →
  ∃ cell', cells s' !! c = Some cell' ∧ reply cell' = Some r.
Proof.
  intros Hs Hst Hc Hr.
  assert (∀ c' f, (c' = c → reply (f cell) = Some r) → ∃ cell', cells (with_cell c' f s) !! c = Some cell' ∧ reply cell' = Some r)
    as Hwith.
  { intros c' f Hf. simpl. destruct (decide (c' = c)) as [->|].
    - exists (f cell). rewrite lookup_alter_eq, Hc. auto.
    - exists cell. by rewrite lookup_alter_ne. }
  destruct Hst as [caller key s Hn|caller key c' cell' s Hg Hc' Hr' Hl|caller c' cell' r' s Hc' Hl|caller s [[key c'] Hg]|s].
  - unfold join. destruct (map_ s !! key) as [c'|] eqn:Em.
    + destruct (cells s !! c') as [cell'|] eqn:Ec; [|by exists cell]. simpl.
      destruct (decide (c' = c)) as [->|]; [|exists cell; by rewrite lookup_insert_ne].
      rewrite Hc in Ec. injection Ec as <-. eexists. by rewrite lookup_insert_eq.
    + destruct (match limit with Some n => _ | None => _ end); [|by exists cell]. simpl.
      exists cell. rewrite lookup_insert_ne; [done|]. intros E.
      pose proof (ok_fresh _ _ Hs c ltac:(by rewrite Hc)). lia.
  - by apply Hwith.
  - apply Hwith. intros ->. rewrite Hc in Hc'. injection Hc' as <-.
    destruct (ok_leader _ _ Hs _ _ _ Hc Hl) as [Hno _]. congruence.
  - destruct (ok_guard _ _ Hs _ _ _ Hg) as [cell' Hc']. rewrite (drop_guard_eq _ _ _ _ _ Hg Hc'). simpl.
    destruct (decide (c' = c)) as [->|]; [|exists cell; by rewrite lookup_insert_ne].
    rewrite Hc in Hc'. injection Hc' as <-. eexists. by rewrite lookup_insert_eq.
  - by exists cell.
Qed.

(** C10. Sharing is safe and live, in every interleaving of callers that join, lead,
    are answered, are cancelled at any point, and of cache clears: callers share a
    cell only for the same key; a registered cell is held by somebody, so an
    abandoned exchange is never joined and an idle registry is empty; the registry
    stays within its limit; a reply once there never changes; and a waiting caller
    has its reply, or somebody with the same key is working on it, or may start
    working on it himself. *)
Theorem coalesce_spec s :
  reachable limit s →
  (∀ a b key key' c, guards s !! a = Some (key, c) → guards s !! b = Some (key', c) → key = key') ∧
  (∀ key c, map_ s !! key = Some c → ∃ caller, guards s !! caller = Some (key, c)) ∧
  (guards s = ∅ → map_ s = ∅) ∧
  (∀ n, limit = Some n → (size (map_ s) ≤ n)%nat) ∧
  (∀ s' c cell r, step limit s s' → cells s !! c = Some cell → reply cell = Some r →
     ∃ cell', cells s' !! c = Some cell' ∧ reply cell' = Some r) ∧
  (∀ caller key c, guards s !! caller = Some (key, c) → ∃ cell, cells s !! c = Some cell ∧
     (is_Some (reply cell) ∨
      (∃ other, leader cell = Some other ∧ guards s !! other = Some (key, c)) ∨
      step limit s (lead caller c s))).
Proof.
  intros Hs%registry_reachable_ok. split_and!.
  - intros. by eapply ok_same_key.
  - apply (ok_map _ _ Hs).
  - intros He. apply map_empty. intros key. destruct (map_ s !! key) as [c|] eqn:E; [|done].
    destruct (ok_map _ _ Hs _ _ E) as [caller Hc]. by rewrite He, lookup_empty in Hc.
  - apply (ok_limit _ _ Hs).
  - intros s' c cell r. by apply reply_kept.
  - intros caller key c Hg. destruct (ok_guard _ _ Hs _ _ _ Hg) as [cell Hc]. exists cell. split; [done|].
    destruct (reply cell) as [r|] eqn:Hr; [left; by exists r|right].
    destruct (leader cell) as [a|] eqn:Hl.
    + left. exists a. split; [done|]. destruct (ok_leader _ _ Hs _ _ _ Hc Hl) as [_ [key' Hk]].
      rewrite Hk. do 2 f_equal. by eapply (ok_same_key _ _ Hs).
    + right. by eapply step_lead.
Qed.
End spec.

(** Two callers for key 1, the leader cancelled: the other one may lead. *)
Lemma coalesce_spec_witness :
  let s := drop_guard 0 (lead 0 0 (join (Some 2%nat) 5 1 (join (Some 2%nat) 0 1 (empty_registry : Registry Z Z)))) in
  ∃ cell, cells s !! 0%nat = Some cell ∧
    (is_Some (reply cell) ∨ (∃ other, leader cell = Some other ∧ guards s !! other = Some (1, 0%nat)) ∨
     step (Some 2%nat) s (lead 5 0 s)).
Proof.
  apply (coalesce_spec (Some 2%nat)) with (key := 1); [|reflexivity].
  eapply reach_step; [|apply step_drop; by eexists]. eapply reach_step; [|by eapply step_lead].
  eapply reach_step; [|by apply step_join]. eapply reach_step; [|by apply step_join]. apply reach_empty.
Defined.
