(* ===== verification/RuleMode.v ===== *)
(** * Rule-mode rule sets and dispatch ([router/rule_mode.rs],
      [router/china.rs], [proxy/routing.rs] and [config/group.rs])

    The domain and address tables of [china.rs] are data: the definitions take
    them as arguments and the theorems hold for any. *)
From Stdlib Require Import String.
From S2P Require Import Prelude Bytes Text Net NetText Lru Sorting GeoIp Router.

#[local] Open Scope string_scope.
#[local] Open Scope list_scope.
#[local] Open Scope Z_scope.

(** ** The built-in China-direct rules *)
Definition PRIVATE_CIDRS : list str := builtin_cidrs.

Definition china_parse_cidr (cidr : str) : option (IpAddr * Z) :=
  '(a, p) ← split_once slash cidr;
  addr ← parse_ip a;
  prefix_len ← parse_uint 255 p;
  Some (addr, prefix_len).

Section china.
Context (CHINA_DOMAIN_SUFFIXES CHINA_DOMAIN_KEYWORDS : list str).
Context (CHINA_IP_CIDRS CHINA_IPV6_CIDRS : list str).

Definition china_direct_ruleset : RuleSet :=
  let rs := foldl (λ rs cidr, match china_parse_cidr cidr with
                              | Some (addr, prefix_len) => add_rule rs (IpCidr addr prefix_len) Direct
                              | None => rs
                              end) RuleSet_new PRIVATE_CIDRS in
  let rs := add_rule rs DomesticHint Direct in
  let rs := foldl (λ rs suffix,
              add_rule rs (DomainSuffix (if starts_with [46] suffix then suffix else 46 :: suffix))
                Direct) rs CHINA_DOMAIN_SUFFIXES in
  let rs := foldl (λ rs kw, add_rule rs (DomainKeyword kw) Direct) rs CHINA_DOMAIN_KEYWORDS in
  let rs := add_rule rs (GeoIp (lit "CN")) Direct in
  add_rule rs MatchAll Proxy.

Definition china_geoip_db {U : Unicode} : GeoIpDb :=
  build (foldl (λ db cidr, add_entry db cidr (lit "CN")) builtin (CHINA_IP_CIDRS ++ CHINA_IPV6_CIDRS)).

Definition china_ipv4_cidrs : list str := List.filter (λ c, negb (contains c [58])) CHINA_IP_CIDRS.

(** ** The effective rules of rule mode *)
Record DeviceRuleGroup := {
  l_source : str;
  l_group : str;
  l_priority : Z;
  l_target : str;
}.

Definition partition {A} (p : A → bool) (l : list A) : list A * list A :=
  (List.filter p l, List.filter (λ x, negb (p x)) l).

Definition link_prefix (l : DeviceRuleGroup) : Z :=
  default 0 ('(_, p) ← split_once slash (l_source l); parse_uint 255 p).

(** A link's copy of a member rule. *)
Definition link_rule (member : RoutingRule) (link : DeviceRuleGroup) : RoutingRule :=
  {| r_source := l_source link; r_name := r_name member; r_group := r_group member;
     r_type := r_type member; r_pattern := r_pattern member;
     r_target := if len (l_target link) =? 0 then r_target member else l_target link;
     r_enabled := r_enabled member; r_priority := r_priority member |}.

(** Keys of the tier map: whether a device is bound, then the link priority. *)
Definition tier_key : Type := bool * Z.

Definition tier_lt (a b : tier_key) : bool :=
  (negb a.1 && b.1) || (eqb a.1 b.1 && (a.2 <? b.2)).

Section mode.
Context {U : Unicode}.

Definition is_catch_all (rule_type : str) : bool :=
  one_of (to_lowercase rule_type) ["final"; "match"].

Definition active_links (explicit : bool) (links : list DeviceRuleGroup) : list DeviceRuleGroup :=
  List.filter (λ l, explicit || negb (len (l_source l) =? 0))
    (sort_by (λ a b, link_prefix b <=? link_prefix a) links).

Definition member_tiers (explicit : bool) (links : list DeviceRuleGroup)
    (ir : nat * RoutingRule) : list (tier_key * (nat * RoutingRule)) :=
  let '(index, member) := ir in
  (if negb explicit || (len (trim (r_group member)) =? 0)
   then [((false, 0), (index, member))] else [])
  ++ map (λ link, ((negb (len (l_source link) =? 0), l_priority link),
                   (index, link_rule member link)))
       (List.filter (λ link, bool_decide (l_group link = trim (r_group member)))
          (active_links explicit links)).

(** The tier map in descending key order. *)
Definition tier_keys (entries : list (tier_key * (nat * RoutingRule))) : list tier_key :=
  sort_by (λ a b, negb (tier_lt a b)) (remove_dups (map fst entries)).

Definition in_tier (k : tier_key) (entries : list (tier_key * (nat * RoutingRule)))
    : list (nat * RoutingRule) :=
  map snd (List.filter (λ e, bool_decide (e.1 = k)) entries).

Definition rule_mode_with_bindings (rs : list RoutingRule) (links : list DeviceRuleGroup)
    (explicit : bool) : RuleSet :=
  let enabled := List.filter (λ ir, r_enabled ir.2) (enumerate rs) in
  match enabled with
  | [] => china_direct_ruleset
  | _ =>
    let '(devices, global) := partition (λ ir, negb (len (r_source ir.2) =? 0)) enabled in
    let '(device_rules, device_finals) :=
      partition (λ ir, negb (is_catch_all (r_type ir.2))) devices in
    let '(non_final, finals) := partition (λ ir, negb (is_catch_all (r_type ir.2))) global in
    let set := from_indexed_config device_rules in
    let entries := flat_map (member_tiers explicit links) non_final in
    let set := foldl (λ set k, extend set (from_indexed_config (in_tier k entries))) set
                 (tier_keys entries) in
    let set := foldl (λ set e, match rule e with
                               | MatchAll => set
                               | r => add_rule set r (action e)
                               end) set (rules china_direct_ruleset) in
    let set := extend set (from_indexed_config device_finals) in
    match finals with
    | [] => add_rule set MatchAll Proxy
    | _ => extend set (from_indexed_config finals)
    end
  end.

Definition rule_mode_with_devices (rs : list RoutingRule) (links : list DeviceRuleGroup) : RuleSet :=
  rule_mode_with_bindings rs links false.

Definition rule_mode_ruleset (rs : list RoutingRule) : RuleSet := rule_mode_with_devices rs [].
End mode.
End china.

(** ** Dispatch ([RoutingOutbound::connect] and [connect_datagram]) *)
Section dispatch.
Context {T : Type}.

(** An outbound's dial: the stream or datagram channel, or an error. *)
Definition dial : Type := str → Z → outcome T.

Record RoutingOutbound := {
  proxy_outbound : dial;
  direct_outbound : dial;
  groups : gmap str dial;
  nodes : gmap str dial;
}.

Definition group (o : RoutingOutbound) (name : str) : outcome dial :=
  ok_or (groups o !! name) "Routing proxy group does not exist".

Definition node (o : RoutingOutbound) (id : str) : outcome dial :=
  ok_or (nodes o !! id) "Routing node does not exist".

Definition dispatch (o : RoutingOutbound) (a : RouteAction) (host : str) (port : Z) : outcome T :=
  match a with
  | Proxy => proxy_outbound o host port
  | Group name => d ← group o name; d host port
  | Node id => d ← node o id; d host port
  | Direct => direct_outbound o host port
  | Reject => Err "Connection rejected by routing rule"
  end.
End dispatch.

(** A routed connection: the decision, then the dial it names. *)
Definition connect {U : Unicode} {C T : Type} `{Lru RouteCacheKey RouteAction C}
    (resolve : str → option IpAddr) (r : Router C) (o : RoutingOutbound) (ctx : Context)
    (host : str) (port : Z) : outcome T * Router C :=
  let '(action, r) := route_resolving resolve r ctx host port in (dispatch o action host port, r).

(** ** Groups of nodes ([config/group.rs]) *)
Inductive GroupType := Select | UrlTest | Fallback.

Record ProxyGroupConfig := {
  g_name : str;
  g_type : GroupType;
  g_members : list str;
  g_current : option str;
}.

Section groups.
(** A node and its fingerprint, computed by the deduplication code. *)
Context {Node : Type} (node_fingerprint : Node → str).

Fixpoint position (p : Node → bool) (ns : list Node) : option nat :=
  match ns with
  | [] => None
  | n :: ns => if p n then Some O else S <$> position p ns
  end.

Definition resolve_members (g : ProxyGroupConfig) (ns : list Node) : list nat :=
  omap (λ fp, position (λ n, bool_decide (node_fingerprint n = fp)) ns) (g_members g).

Fixpoint index_from (pos : nat) (ns : list Node) (index : gmap str nat) : gmap str nat :=
  match ns with
  | [] => index
  | n :: ns =>
    let fp := node_fingerprint n in
    index_from (S pos) ns (match index !! fp with Some _ => index | None => <[fp := pos]> index end)
  end.

Definition NodeIndex_new (ns : list Node) : gmap str nat := index_from 0 ns ∅.

Definition NodeIndex_resolve_members (index : gmap str nat) (g : ProxyGroupConfig) : list nat :=
  omap (λ fp, index !! fp) (g_members g).

Definition NodeIndex_selected_member (index : gmap str nat) (g : ProxyGroupConfig) : option nat :=
  match g_current g with
  | Some current =>
    if existsb (λ fp, bool_decide (fp = current)) (g_members g) then index !! current else None
  | None => head (omap (λ fp, index !! fp) (g_members g))
  end.

Definition selected_member (g : ProxyGroupConfig) (ns : list Node) : option nat :=
  let members := resolve_members g ns in
  match g_current g with
  | Some current =>
    List.find (λ i, bool_decide (node_fingerprint <$> ns !! i = Some current)) members
  | None => head members
  end.

Definition ProbeResult : Type := nat * option Z.

(** [min_by_key] keeps the first of equal keys. *)
Fixpoint min_by_key (l : list (nat * Z)) : option (nat * Z) :=
  match l with
  | [] => None
  | x :: l => Some (match min_by_key l with
                    | Some y => if x.2 <=? y.2 then x else y
                    | None => x
                    end)
  end.

Definition url_test_pick (ns : list Node) (probes : list ProbeResult) : option str :=
  '(idx, _) ← min_by_key (omap (λ p, (λ ms, (p.1, ms)) <$> p.2) probes);
  node_fingerprint <$> ns !! idx.

Definition fallback_pick (ns : list Node) (probes : list ProbeResult) : option str :=
  p ← List.find (λ p : ProbeResult, bool_decide (is_Some p.2)) probes;
  node_fingerprint <$> ns !! p.1.
End groups.

Section targets.
Context {U : Unicode}.

Definition is_proxy_target (target : str) : bool :=
  bool_decide (target = lit "proxy") || starts_with (lit "group:") target
  || bool_decide (is_Some (node_target_id target)).

Fixpoint check_groups (names : gset str) (gs : list ProxyGroupConfig) : outcome (gset str) :=
  match gs with
  | [] => Ok names
  | g :: gs =>
    if bool_decide (g_name g ∈ names) then Err "Duplicate proxy group name" else
    if (256 <? Z.of_nat (length (g_members g))) then Err "Too many group members (maximum 256)" else
    check_groups ({[g_name g]} ∪ names) gs
  end.

Fixpoint check_rules (names : gset str) (rs : list RoutingRule) : outcome unit :=
  match rs with
  | [] => Ok tt
  | r :: rs =>
    _ ← validate_rule r;
    match strip_prefix (lit "group:") (r_target r) with
    | Some name => if bool_decide (name ∈ names) then check_rules names rs
                   else Err "Rule refers to a missing proxy group"
    | None => check_rules names rs
    end
  end.

Definition validate_targets (gs : list ProxyGroupConfig) (rs : list RoutingRule) : outcome unit :=
  if 64 <? Z.of_nat (length gs) then Err "Too many proxy groups (maximum 64)" else
  names ← check_groups ∅ gs;
  check_rules names rs.
End targets.
