(* ===== verification/RuleModeSpec.v ===== *)
(** * What rule mode, dispatch and groups guarantee *)
From Stdlib Require Import String.
From S2P Require Import Prelude Bytes Text Net NetText Lru Sorting GeoIp Router RouterSpec RuleMode.

#[local] Open Scope string_scope.
#[local] Open Scope list_scope.
#[local] Open Scope Z_scope.

(** ** Built-in entries *)
Definition builtin_entry (e : RuleEntry) : Prop := config_index e = None ∧ source e = None.

Definition grows (s s' : RuleSet) : Prop :=
  default_action s' = default_action s ∧ ∃ es, rules s' = rules s ++ es ∧ Forall builtin_entry es.

#[export] Instance grows_preorder : PreOrder grows.
Proof.
  split.
  - intros s. split; [done|]. exists []. by rewrite app_nil_r.
  - intros s1 s2 s3 [D1 (e1 & E1 & F1)] [D2 (e2 & E2 & F2)]. split; [congruence|].
    exists (e1 ++ e2). rewrite E2, E1, app_assoc. split; [done|]. by apply Forall_app.
Qed.

Lemma grows_add s r a : grows s (add_rule s r a).
Proof. split; [done|]. eexists. split; [done|]. by repeat constructor. Qed.

Lemma grows_fold {A} (f : RuleSet → A → RuleSet) l s :
  (∀ s x, grows s (f s x)) → grows s (foldl f s l).
Proof.
  intros Hf. revert s. induction l as [|x l IH]; intros s; simpl; [reflexivity|].
  etransitivity; [apply Hf|apply IH].
Qed.

Section china.
Context (SUFFIXES KEYWORDS : list str).

Abbreviation china := (china_direct_ruleset SUFFIXES KEYWORDS).

Lemma china_builtin : default_action china = Proxy ∧ Forall builtin_entry (rules china).
Proof.
  assert (grows RuleSet_new china) as [Hd (es & E & Hf)].
  { unfold china_direct_ruleset. cbv zeta. etransitivity; [|apply grows_add].
    etransitivity; [|apply grows_add]. etransitivity; [|apply grows_fold; intros; apply grows_add].
    etransitivity; [|apply grows_fold; intros; apply grows_add].
    etransitivity; [|apply grows_add].
    apply grows_fold. intros s cidr. destruct (china_parse_cidr cidr) as [[a p]|]; [apply grows_add|reflexivity]. }
  split; [done|]. by rewrite E.
Qed.

Lemma china_last : ∃ es, rules china
  = es ++ [{| config_index := None; source := None; rule := MatchAll; action := Proxy |}].
Proof. eexists. unfold china_direct_ruleset, add_rule at 1. cbv zeta. reflexivity. Qed.

Definition not_match_all (e : RuleEntry) : bool :=
  match rule e with MatchAll => false | _ => true end.

Lemma readd_builtin es s :
  Forall builtin_entry es →
  foldl (λ set e, match rule e with MatchAll => set | r => add_rule set r (action e) end) s es
  = {| rules := rules s ++ List.filter not_match_all es; default_action := default_action s |}.
Proof.
  intros Hes. revert s. induction Hes as [|e es [Hc Hs] Hes IH]; intros s; cbn [foldl List.filter].
  { rewrite app_nil_r. by destruct s. }
  rewrite IH. unfold not_match_all at 2. destruct e as [c sc r a]. cbn in Hc, Hs. subst.
  destruct r; cbn [rule rules default_action add_rule action]; rewrite <- ?app_assoc; done.
Qed.

Context {U : Unicode}.

Abbreviation compiled l := (rules (from_indexed_config l)).
Abbreviation is_final ir := (is_catch_all (r_type ir.2)).
Abbreviation scoped ir := (negb (len (r_source ir.2) =? 0)).

Lemma filter_filter_comm {A} (p q : A → bool) l :
  List.filter p (List.filter q l) = List.filter (λ x, q x && p x) l.
Proof.
  induction l as [|x l IH]; [done|]. simpl. destruct (q x); simpl; [|done].
  by destruct (p x); rewrite IH.
Qed.

Lemma remove_dups_const {A B} `{EqDecision B} (c : B) (l : list A) x :
  remove_dups (map (λ _, c) (x :: l)) = [c].
Proof.
  assert (∀ L, c ∈ L → remove_dups (c :: L) = remove_dups L) as H.
  { intros L HL. cbn [remove_dups]. by destruct (decide_rel _ c L). }
  induction l as [|y l IH]; [done|]. cbn [map] in *. rewrite H by (by left). exact IH.
Qed.

(** Without links every global member sits in the one unscoped tier. *)
Lemma unlinked_tiers (l : list (nat * RoutingRule)) s :
  let entries := flat_map (member_tiers false []) l in
  foldl (λ set k, extend set (from_indexed_config (in_tier k entries))) s (tier_keys entries)
  = extend s (from_indexed_config l).
Proof.
  intros entries.
  assert (entries = map (λ ir, ((false, 0), ir)) l) as ->.
  { unfold entries. induction l as [|[i r] l IH]; [done|]. cbn [flat_map map]. by rewrite IH. }
  destruct l as [|ir l]; [by destruct s; unfold extend; simpl; rewrite app_nil_r|].
  assert (tier_keys (map (λ ir, ((false, 0), ir)) (ir :: l)) = [(false, 0)]) as ->.
  { unfold tier_keys. rewrite map_map. cbn [fst].
    by rewrite (remove_dups_const ((false, 0) : tier_key) l ir). }
  cbn [foldl]. do 2 f_equal. unfold in_tier.
  induction (ir :: l) as [|x m IH]; [done|]. cbn [map List.filter].
  rewrite bool_decide_eq_true_2 by done. cbn [map]. by rewrite IH.
Qed.

(** The phases of rule mode: with at least one enabled rule (and no device
    links) the effective list is the device rules, the global rules, the
    built-in list without its catch-all, the device finals and then the global
    finals (or the built-in catch-all to the proxy), each phase compiled on its
    own; with none enabled it is the built-in list. *)
Theorem rule_mode_phases rs :
  let enabled := List.filter (λ ir, r_enabled ir.2) (enumerate rs) in
  rule_mode_ruleset SUFFIXES KEYWORDS rs
  = if bool_decide (enabled = []) then china else
    {| rules :=
         compiled (List.filter (λ ir, scoped ir && negb (is_final ir)) enabled)
         ++ compiled (List.filter (λ ir, negb (scoped ir) && negb (is_final ir)) enabled)
         ++ List.filter not_match_all (rules china)
         ++ compiled (List.filter (λ ir, scoped ir && is_final ir) enabled)
         ++ match List.filter (λ ir, negb (scoped ir) && is_final ir) enabled with
            | [] => [{| config_index := None; source := None; rule := MatchAll; action := Proxy |}]
            | finals => compiled finals
            end;
       default_action := Proxy |}.
Proof.
  intros enabled. unfold rule_mode_ruleset, rule_mode_with_devices, rule_mode_with_bindings.
  fold enabled. destruct enabled as [|ir l] eqn:E; [done|]. rewrite <- E.
  rewrite bool_decide_eq_false_2 by (by rewrite E). clear E ir l.
  unfold partition. rewrite !filter_filter_comm, unlinked_tiers, readd_builtin by apply china_builtin.
  assert (∀ f g : nat * RoutingRule → bool, (∀ x, f x = g x) → List.filter f enabled = List.filter g enabled)
    as Hext by (intros f g Hfg; by apply filter_ext).
  rewrite (Hext (λ x, negb (scoped x) && negb (negb (is_final x)))
             (λ x, negb (scoped x) && is_final x)) by (intros; by destruct (is_catch_all _)).
  rewrite (Hext (λ x, scoped x && negb (negb (is_final x))) (λ x, scoped x && is_final x))
    by (intros; by destruct (is_catch_all _)).
  unfold extend, add_rule. cbn [rules default_action].
  destruct (List.filter (λ ir, negb (scoped ir) && is_final ir) enabled);
    cbn [rules default_action]; by rewrite <- !app_assoc.
Qed.

(** *** Rule mode always decides *)
Definition decides (s : RuleSet) : Prop :=
  Exists (λ e, source e = None ∧ rule e = MatchAll) (rules s).

Lemma decides_find geoip s ctx h ip port :
  decides s → is_Some (List.find (applies geoip ctx h ip port) (rules s)).
Proof.
  unfold decides. intros H. destruct (List.find _ _) eqn:E; [by eexists|]. exfalso.
  apply find_none_Forall in E. induction H as [e l [Hs Hr]|e l H IH].
  - apply Forall_cons in E as [E _]. unfold applies in E. rewrite Hs, Hr in E. done.
  - apply Forall_cons in E as [_ E]. by apply IH.
Qed.

Lemma final_compiles ir :
  is_final ir = true → len (r_source ir.2) = 0 →
  ∃ e, compile_rule ir = Some e ∧ source e = None ∧ rule e = MatchAll.
Proof.
  destruct ir as [i r]. cbn [snd]. intros Hf Hs. unfold is_catch_all in Hf.
  unfold compile_rule, compile_match, compile_source. rewrite Hs. cbn [Z.eqb].
  apply one_of_spec in Hf as (n & Hn & ->).
  repeat (apply elem_of_cons in Hn as [->|Hn]; [eexists; repeat split|]). by apply elem_of_nil in Hn.
Qed.

Lemma compiled_decides l :
  Exists (λ ir, r_enabled ir.2 = true ∧ is_final ir = true ∧ len (r_source ir.2) = 0) l →
  decides (from_indexed_config l).
Proof.
  rewrite Exists_exists. intros (ir & Hin & He & Hf & Hs).
  destruct (final_compiles ir Hf Hs) as (e & Hc & Hse & Hre).
  unfold decides. apply Exists_exists. exists e. split; [|done]. cbn [from_indexed_config rules].
  apply list_elem_of_omap. exists ir. split; [|done]. rewrite (sort_by_perm rule_le).
  rewrite list_elem_of_In, filter_In, <- list_elem_of_In. done.
Qed.

Lemma decides_extend_r s s' : decides s' → decides (extend s s').
Proof. intros H. apply Exists_app. by right. Qed.

(** Rule mode never falls through: with any rules and any device links the
    effective list ends in a catch-all that applies to every client, so the
    default action of the rule set is never used. *)
Theorem rule_mode_always_decides rs links explicit geoip ctx host port d :
  let set := rule_mode_with_bindings SUFFIXES KEYWORDS rs links explicit in
  ∃ e, e ∈ rules set
    ∧ applies geoip ctx (to_lowercase host) (host_ip ctx host) port e = true
    ∧ route_uncached geoip (set_default set d) ctx host port = action e.
Proof.
  intros set. assert (decides set) as Hd.
  { unfold set, rule_mode_with_bindings.
    destruct (List.filter (λ ir, r_enabled ir.2) (enumerate rs)) as [|ir l] eqn:E.
    { destruct china_last as [es Hes]. unfold decides. rewrite Hes. apply Exists_app. right. by left. }
    rewrite <- E. unfold partition.
    match goal with |- context [match ?f with [] => _ | _ => _ end] => set (finals := f) end.
    destruct finals as [|fin finals'] eqn:Hfin.
    - unfold decides, add_rule. cbn [rules]. apply Exists_app. right. by left.
    - apply decides_extend_r, compiled_decides. rewrite <- Hfin. apply Exists_exists.
      exists fin. assert (fin ∈ finals) as Hin by (rewrite Hfin; by left). split; [done|].
      unfold finals in Hin. rewrite !list_elem_of_In, !filter_In in Hin.
      destruct Hin as [[[_ He] Hs] Hf]. split; [done|].
      apply negb_true_iff, negb_false_iff in Hf. split; [done|].
      apply negb_true_iff, negb_false_iff, Z.eqb_eq in Hs. done. }
  destruct (decides_find geoip set ctx (to_lowercase host) (host_ip ctx host) port Hd) as [e He].
  exists e. apply List.find_some in He as Hf. destruct Hf as [Hin Hok].
  split; [by apply list_elem_of_In|]. split; [done|].
  unfold route_uncached. rewrite first_action_find. cbn [set_default rules]. by rewrite He.
Qed.
End china.

(** ** Dispatch *)
Definition with_proxy {T : Type} (o : RoutingOutbound) (p : dial (T := T)) : RoutingOutbound :=
  {| proxy_outbound := p; direct_outbound := direct_outbound o; groups := groups o; nodes := nodes o |}.

(** Routing fails closed: a connection dials the outbound its decision
    names and no other; a rule that names a missing group or node, or rejects,
    ends in an error; and unless the decision is the global proxy, the result
    does not depend on the global proxy. *)
Theorem connect_fails_closed {U : Unicode} {C T : Type} `{LRU : Lru RouteCacheKey RouteAction C}
    resolve (r : Router C) (o : RoutingOutbound (T := T)) ctx host port :
  let a := (route_resolving resolve r ctx host port).1 in
  let result := (connect resolve r o ctx host port).1 in
  match a with
  | Proxy => result = proxy_outbound o host port
  | Direct => result = direct_outbound o host port
  | Reject => is_ok result = false
  | Group name => match groups o !! name with
                  | Some d => result = d host port
                  | None => is_ok result = false
                  end
  | Node id => match nodes o !! id with
               | Some d => result = d host port
               | None => is_ok result = false
               end
  end
  ∧ (a ≠ Proxy → ∀ p, (connect resolve r (with_proxy o p) ctx host port).1 = result)
  ∧ (connect resolve r o ctx host port).2 = (route_resolving resolve r ctx host port).2.
Proof.
  unfold connect. destruct (route_resolving resolve r ctx host port) as [a r']. cbn [fst snd].
  split; [|split; [|done]].
  - destruct a as [|name|id| |]; cbn [dispatch]; try done; unfold group, node.
    + by destruct (groups o !! name).
    + by destruct (nodes o !! id).
  - intros Ha p. by destruct a.
Qed.

(** ** Groups *)
Section groups.
Context {Node : Type} (fingerprint : Node → str).

Lemma position_spec p (ns : list Node) :
  match position p ns with
  | Some i => ∃ n, ns !! i = Some n ∧ p n = true ∧ ∀ j m, (j < i)%nat → ns !! j = Some m → p m = false
  | None => ∀ n, n ∈ ns → p n = false
  end.
Proof.
  induction ns as [|n ns IH]; simpl; [by intros ? ?%elem_of_nil|]. destruct (p n) eqn:Hn.
  { exists n. split; [done|]. split; [done|]. intros. lia. }
  destruct (position p ns) as [i|]; simpl.
  - destruct IH as (m & Hm & Hp & Hlt). exists m. split; [done|]. split; [done|].
    intros [|j] x Hj Hx; simpl in Hx; [congruence|]. apply (Hlt j); [lia|done].
  - intros m [->|Hm]%elem_of_cons; [done|]. by apply IH.
Qed.

Lemma index_from_lookup pos ns index fp :
  index_from fingerprint pos ns index !! fp
  = match index !! fp with
    | Some i => Some i
    | None => (λ i, (pos + i)%nat) <$> position (λ n, bool_decide (fingerprint n = fp)) ns
    end.
Proof.
  revert pos index. induction ns as [|n ns IH]; intros pos index; cbn [index_from position].
  { by destruct (index !! fp). }
  rewrite IH. destruct (decide (fingerprint n = fp)) as [Hfp|Hfp].
  - rewrite (bool_decide_eq_true_2 _ Hfp), Hfp. destruct (index !! fp) eqn:E; [by rewrite E|].
    rewrite lookup_insert_eq. simpl. by rewrite Nat.add_0_r.
  - rewrite (bool_decide_eq_false_2 _ Hfp).
    assert ((match index !! fingerprint n with Some _ => index | None => <[fingerprint n := pos]> index end) !! fp
            = index !! fp) as ->.
    { destruct (index !! fingerprint n); [done|]. by rewrite lookup_insert_ne. }
    destruct (index !! fp); [done|].
    destruct (position _ ns); simpl; [|done]. f_equal. lia.
Qed.

Lemma index_lookup ns fp :
  NodeIndex_new fingerprint ns !! fp = position (λ n, bool_decide (fingerprint n = fp)) ns.
Proof.
  unfold NodeIndex_new. rewrite index_from_lookup, lookup_empty. by destruct (position _ ns).
Qed.

(** The indexed group lookups are the plain ones: over any node list and
    any group, with duplicates and stale fingerprints, [NodeIndex] resolves the
    same members in the same order and the same selected member as the
    searching versions, and a stored selection is only ever honoured for a
    current member, never replaced by another node. *)
Theorem node_index_equiv (g : ProxyGroupConfig) (ns : list Node) :
  NodeIndex_resolve_members (NodeIndex_new fingerprint ns) g = resolve_members fingerprint g ns
  ∧ NodeIndex_selected_member (NodeIndex_new fingerprint ns) g = selected_member fingerprint g ns
  ∧ ∀ i, selected_member fingerprint g ns = Some i →
      i ∈ resolve_members fingerprint g ns
      ∧ match g_current g with
        | Some current => fingerprint <$> ns !! i = Some current ∧ current ∈ g_members g
        | None => True
        end.
Proof.
  assert (∀ l : list str, omap (λ fp, NodeIndex_new fingerprint ns !! fp) l
    = omap (λ fp, position (λ n, bool_decide (fingerprint n = fp)) ns) l) as Hres.
  { intros l. induction l as [|fp l IH]; [done|]. cbn. by rewrite index_lookup, IH. }
  assert (∀ fp i, position (λ n, bool_decide (fingerprint n = fp)) ns = Some i →
    fingerprint <$> ns !! i = Some fp) as Hpos.
  { intros fp i Hi. pose proof (position_spec (λ n, bool_decide (fingerprint n = fp)) ns) as H.
    rewrite Hi in H. destruct H as (n & -> & Hn & _). apply bool_decide_eq_true in Hn. simpl. by f_equal. }
  split; [apply Hres|]. split.
  - unfold NodeIndex_selected_member, selected_member, resolve_members. rewrite Hres.
    destruct (g_current g) as [current|]; [|done]. rewrite index_lookup.
    induction (g_members g) as [|fp l IH]; [done|]. cbn [existsb omap list_omap].
    destruct (decide (fp = current)) as [->|Hne].
    + rewrite (bool_decide_eq_true_2 (current = current)) by done. cbn [orb].
      destruct (position _ ns) as [i|] eqn:E.
      * cbn [List.find]. by rewrite (bool_decide_eq_true_2 _ (Hpos _ _ E)).
      * rewrite <- IH. by destruct (existsb _ l).
    + rewrite (bool_decide_eq_false_2 _ Hne). cbn [orb]. rewrite IH.
      destruct (position (λ n, bool_decide (fingerprint n = fp)) ns) as [i|] eqn:E; [|done].
      cbn [List.find]. rewrite bool_decide_eq_false_2; [done|]. rewrite (Hpos _ _ E). congruence.
  - intros i. unfold selected_member. destruct (g_current g) as [current|].
    + intros H. apply List.find_some in H as [Hin Hc]. apply bool_decide_eq_true in Hc.
      split; [by apply list_elem_of_In|]. split; [done|].
      apply list_elem_of_In in Hin. unfold resolve_members in Hin.
      apply list_elem_of_omap in Hin as (fp & Hfp & Hi). apply Hpos in Hi. congruence.
    + intros H. split; [|done]. destruct (resolve_members fingerprint g ns); [done|].
      injection H as ->. by left.
Qed.
End groups.
