(* ===== verification/RulesBatch.v ===== *)
(** * Batch rule editing (config/rules_batch.rs, config/rule_groups.rs, config/rule_list.rs,
      config/rule_scenes.rs)

    The text format of rule lists, the merge of imported rules into a list, the
    editing of groups and the previews of downloaded lists.  Text is a list of scalar
    values.  The host parser of the url crate, used for names outside ASCII, is a
    parameter; the wording of the error messages is abbreviated. *)
From Stdlib Require Import String.
From S2P Require Import Prelude Bytes Text Net NetText Lru Sorting FakeIp GeoIp Router RuleMode.

#[local] Open Scope string_scope.
#[local] Open Scope list_scope.
#[local] Open Scope Z_scope.

(** [url::Host::parse] when it gives a domain. *)
Class UrlHost := { host_domain : str → option str }.

Inductive BatchConflict := Skip | Replace.

Record BatchLineError := { el_line : nat; el_message : string }.
Record BatchParseResult := { b_rules : list RoutingRule; b_errors : list BatchLineError }.
Record BatchMergeStats := { added : nat; replaced : nat; skipped : nat }.

Definition hash : Z := 35.
Definition comma : Z := 44.
Definition colon : Z := 58.
Definition dot : Z := 46.
Definition dash : Z := 45.

Definition is_empty (s : str) : bool := len s =? 0.

(** [str::split_once] on a two-character separator. *)
Fixpoint split_once2 (a b : Z) (s : str) : option (str * str) :=
  match s with
  | x :: (y :: t) as s' =>
      if (x =? a) && (y =? b) then Some ([], t)
      else '(l, r) ← split_once2 a b s'; Some (x :: l, r)
  | _ => None
  end.

(** The scalar values between any of some separators ([split] on a predicate). *)
Fixpoint split_by (p : Z → bool) (s : str) : list str :=
  match s with
  | [] => [[]]
  | c :: s' =>
      if p c then [] :: split_by p s'
      else match split_by p s' with w :: ws => (c :: w) :: ws | [] => [[c]] end
  end.

Section batch.
Context {U : Unicode} {H : UrlHost}.

(** ** Rule types and targets *)
Definition looks_like_type (s : str) : bool :=
  one_of (to_ascii_lowercase s)
    ["domain"; "domain-suffix"; "domain_suffix"; "domainsuffix"; "domain-keyword"; "domain_keyword"; "domainkeyword";
     "ip-cidr"; "ip_cidr"; "ipcidr"; "geoip"; "dst-port"; "dst_port"; "port"; "match"; "final"].

Definition normalize_type (s : str) : str :=
  let t := to_ascii_lowercase s in
  if one_of t ["domain"] then lit "domain"
  else if one_of t ["domain-suffix"; "domain_suffix"; "domainsuffix"] then lit "domain-suffix"
  else if one_of t ["domain-keyword"; "domain_keyword"; "domainkeyword"] then lit "domain-keyword"
  else if one_of t ["ip-cidr"; "ip_cidr"; "ipcidr"] then lit "ip-cidr"
  else if one_of t ["geoip"] then lit "geoip"
  else if one_of t ["dst-port"; "dst_port"; "port"] then lit "dst-port"
  else if one_of t ["match"; "final"] then lit "match"
  else lit "domain-suffix".

Definition normalize_target (s : str) : option str :=
  if starts_with (lit "group:") s && valid_group_name (drop 6 s) then Some s
  else if bool_decide (is_Some (node_target_id s)) then Some s
  else
    let t := to_ascii_lowercase (trim s) in
    if one_of t ["direct"; "dir"] then Some (lit "direct")
    else if one_of t ["proxy"; "proxied"] then Some (lit "proxy")
    else if one_of t ["reject"; "block"; "deny"] then Some (lit "reject")
    else None.

Definition export_type (t : str) : str :=
  if one_of t ["domain"] then lit "DOMAIN"
  else if one_of t ["domain-suffix"] then lit "DOMAIN-SUFFIX"
  else if one_of t ["domain-keyword"] then lit "DOMAIN-KEYWORD"
  else if one_of t ["ip-cidr"] then lit "IP-CIDR"
  else if one_of t ["geoip"] then lit "GEOIP"
  else if one_of t ["dst-port"; "port"] then lit "DST-PORT"
  else if one_of t ["match"; "final"] then lit "MATCH"
  else lit "DOMAIN-SUFFIX".

Definition export_target (t : str) : str :=
  if starts_with (lit "group:") t || bool_decide (is_Some (node_target_id t)) then t
  else if one_of t ["direct"] then lit "DIRECT"
  else if one_of t ["reject"] then lit "REJECT"
  else lit "PROXY".

(** ** Patterns *)
Definition domain_char (c : Z) : bool := is_ascii_alphanumeric c || (c =? dash).

Definition looks_like_domain (s : str) : bool :=
  let s := trim_start_byte dot (trim s) in
  if is_empty s || (253 <? utf8_len s) then false
  else if starts_with [dash] s || ends_with s [dash] || starts_with [dot] s || ends_with s [dot] then false
  else if negb (contains s [dot]) then forallb domain_char s
  else
    forallb (λ c, domain_char c || (c =? dot)) s
    && forallb (λ label, negb (is_empty label) && (utf8_len label <=? 63)
                         && negb (starts_with [dash] label) && negb (ends_with label [dash])) (split_on dot s).

Definition looks_like_ipv4 (s : str) : bool := bool_decide (is_Some (parse_ipv4 s)).

Definition normalize_cidr (s : str) : outcome str :=
  '(addr, prefix) ← ok_or (split_once slash s) "CIDR needs a prefix";
  ip ← ok_or (parse_ip addr) "Invalid IP address";
  n ← ok_or (parse_uint 255 prefix) "Invalid prefix";
  if (if is_ipv4 ip then 32 else 128) <? n then Err "Prefix length out of range"
  else Ok (addr ++ [slash] ++ show_uint n).

Definition looks_like_cidr (s : str) : bool :=
  contains s [slash] && match normalize_cidr s with Ok _ => true | _ => false end.

Definition valid_port_pattern (s : str) : bool :=
  match split_once dash s with
  | Some (a, b) =>
      match parse_uint 65535 a, parse_uint 65535 b with
      | Some min, Some max => min <=? max
      | _, _ => false
      end
  | None => bool_decide (is_Some (parse_uint 65535 s))
  end.

(** The normal form of a pattern. *)
Definition build_pattern (rule_type pattern : str) : outcome str :=
  if one_of rule_type ["match"; "final"] then Ok (lit "*")
  else if one_of rule_type ["geoip"] then
    let p := trim pattern in
    if (utf8_len p =? 2) && forallb is_ascii_alphabetic p then Ok (to_uppercase p) else Err "Invalid GeoIP code"
  else if one_of rule_type ["ip-cidr"] then normalize_cidr pattern
  else if one_of rule_type ["domain"; "domain-suffix"] then
    let s := to_lowercase (trim_start_byte dot (trim pattern)) in
    s ← (if is_ascii s then Ok s else ok_or (host_domain s) "Invalid domain");
    if looks_like_domain s then Ok s else Err "Invalid domain"
  else if one_of rule_type ["domain-keyword"] then
    let s := to_lowercase (trim pattern) in
    if is_empty s || existsb is_whitespace s then Err "Keyword must be non-empty without spaces" else Ok s
  else if one_of rule_type ["dst-port"; "port"] then
    let s := trim pattern in
    if valid_port_pattern s then Ok s else Err "Invalid port"
  else Err "Unsupported rule type".

Definition build_rule (rule_type pattern target : str) : outcome RoutingRule :=
  pattern ← build_pattern rule_type pattern;
  Ok {| r_source := []; r_name := []; r_group := [];
        r_type := if one_of rule_type ["port"] then lit "dst-port"
                  else if one_of rule_type ["final"] then lit "match" else rule_type;
        r_pattern := pattern; r_target := target; r_enabled := true; r_priority := 0 |}.

Definition with_source (source : str) (r : RoutingRule) : RoutingRule :=
  {| r_source := source; r_name := r_name r; r_group := r_group r; r_type := r_type r; r_pattern := r_pattern r;
     r_target := r_target r; r_enabled := r_enabled r; r_priority := r_priority r |}.
Definition with_name (name : str) (r : RoutingRule) : RoutingRule :=
  {| r_source := r_source r; r_name := name; r_group := r_group r; r_type := r_type r; r_pattern := r_pattern r;
     r_target := r_target r; r_enabled := r_enabled r; r_priority := r_priority r |}.
Definition with_group (group : str) (r : RoutingRule) : RoutingRule :=
  {| r_source := r_source r; r_name := r_name r; r_group := group; r_type := r_type r; r_pattern := r_pattern r;
     r_target := r_target r; r_enabled := r_enabled r; r_priority := r_priority r |}.
Definition with_target (target : str) (r : RoutingRule) : RoutingRule :=
  {| r_source := r_source r; r_name := r_name r; r_group := r_group r; r_type := r_type r; r_pattern := r_pattern r;
     r_target := target; r_enabled := r_enabled r; r_priority := r_priority r |}.
Definition with_priority (priority : Z) (r : RoutingRule) : RoutingRule :=
  {| r_source := r_source r; r_name := r_name r; r_group := r_group r; r_type := r_type r; r_pattern := r_pattern r;
     r_target := r_target r; r_enabled := r_enabled r; r_priority := priority |}.

(** ** One line *)
Definition parts_of (sep : Z → bool) (line : str) : list str :=
  List.filter (λ s, negb (is_empty s)) (map trim (split_by sep line)).

Definition parse_clash_line (line default_target : str) : outcome RoutingRule :=
  match parts_of (Z.eqb comma) line with
  | [] => Err "Empty rule"
  | typ_raw :: args =>
      if negb (looks_like_type typ_raw) then Err "Unknown rule type"
      else
        let typ := normalize_type typ_raw in
        if one_of typ ["match"; "final"] then
          target ← ok_or (head args ≫= normalize_target) "MATCH/FINAL requires a target";
          build_rule typ (lit "*") target
        else
          match args with
          | [] => Err "Rule requires a pattern"
          | pattern :: more =>
              let target :=
                match more with
                | [] => default_target
                | action :: _ =>
                    if eq_ignore_ascii_case action (lit "no-resolve") then default_target
                    else default (lit "proxy") (normalize_target action)
                end in
              build_rule typ pattern target
          end
  end.

Definition parse_typed_left (left target : str) : outcome RoutingRule :=
  let by_words :=
    match split_whitespace left with
    | [w] => if looks_like_type w then build_rule (normalize_type w) (lit "*") target else Err "Cannot parse typed rule"
    | w :: w' :: _ => if looks_like_type w then build_rule (normalize_type w) w' target else Err "Cannot parse typed rule"
    | [] => Err "Cannot parse typed rule"
    end in
  match split_once colon left with
  | Some (typ, pat) => if looks_like_type typ then build_rule (normalize_type typ) (trim pat) target else by_words
  | None => by_words
  end.

Definition auto_detect (value target : str) : outcome RoutingRule :=
  let v := trim value in
  if looks_like_cidr v then cidr ← normalize_cidr v; build_rule (lit "ip-cidr") cidr target
  else if looks_like_ipv4 v then build_rule (lit "ip-cidr") (v ++ lit "/32") target
  else if looks_like_domain v then build_rule (lit "domain-suffix") (to_lowercase (trim_start_byte dot v)) target
  else Err "Unrecognized pattern".

(** [line.get(..7)] is "SOURCE," in any case. *)
Definition has_source (line : str) : bool := eq_ignore_ascii_case (take 7 line) (lit "SOURCE,").

(** The rest of [parse_one_line], behind the SOURCE prefix. *)
Definition parse_plain_line (line default_target : str) : outcome RoutingRule :=
  if contains line [comma] then parse_clash_line line default_target
  else
    match split_once2 dash 62 line with
    | Some (lhs, rhs) =>
        target ← ok_or (normalize_target (trim rhs)) "Unknown target";
        parse_typed_left (trim lhs) target
    | None =>
        let colon_form :=
          match split_once colon line with
          | Some (typ, pat) =>
              if looks_like_type typ then build_rule (normalize_type typ) (trim pat) default_target
              else auto_detect line default_target
          | None => auto_detect line default_target
          end in
        match split_whitespace line with
        | typ :: pattern :: more =>
            if looks_like_type typ then
              target ← match more with
                       | action :: _ => ok_or (normalize_target action) "Unknown target"
                       | [] => Ok default_target
                       end;
              build_rule (normalize_type typ) pattern target
            else colon_form
        | _ => colon_form
        end
    end.

Definition parse_one_line (line default_target : str) : outcome RoutingRule :=
  if has_source line then
    '(scope, rest) ← ok_or ('(_, more) ← split_once comma line; split_once comma more)
                           "SOURCE requires an address and a complete rule";
    if has_source rest then Err "Nested SOURCE is not supported"
    else
      rule ← parse_clash_line rest default_target;
      source ← normalize_rule_source scope;
      if is_empty source then Err "SOURCE requires an IP address or network" else Ok (with_source source rule)
  else parse_plain_line line default_target.

(** ** Blocks of lines *)
Definition parse_group_directive (trimmed : str) : option str :=
  let t := trim trimmed in
  if negb (starts_with [hash] t) then None
  else
    let rest := trim (trim_start_byte hash t) in
    after ← strip_prefix (lit "@group") (to_ascii_lowercase rest);
    Some (trim (drop (length rest - length after) rest)).

Definition split_line_and_name (raw : str) : str * str :=
  let trimmed := trim raw in
  if is_empty trimmed || starts_with [hash] trimmed then ([], [])
  else
    match split_once hash trimmed with
    | Some (body, name) => (trim body, trim name)
    | None => (trimmed, [])
    end.

Definition error_of {A} (o : outcome A) : string := match o with Err e => e | _ => "" end.

(** One line of [parse_batch_rules_in_group], with the active group. *)
Definition parse_batch_line (default_target : str) (line_no : nat) (raw active_group : str) (out : BatchParseResult)
    : str * BatchParseResult :=
  let trimmed := trim raw in
  if is_empty trimmed then (active_group, out)
  else
    match parse_group_directive trimmed with
    | Some g => (g, out)
    | None =>
        let '(line, name) := split_line_and_name raw in
        if is_empty line then (active_group, out)
        else
          match parse_one_line line default_target with
          | Ok rule =>
              let rule := if is_empty name then rule else with_name name rule in
              let rule := if is_empty (r_group rule) && negb (is_empty active_group)
                          then with_group active_group rule else rule in
              (active_group, {| b_rules := b_rules out ++ [rule]; b_errors := b_errors out |})
          | o => (active_group, {| b_rules := b_rules out;
                                   b_errors := b_errors out ++ [{| el_line := line_no; el_message := error_of o |}] |})
          end
    end.

Fixpoint parse_batch_lines (default_target : str) (line_no : nat) (ls : list str) (active_group : str)
    (out : BatchParseResult) : BatchParseResult :=
  match ls with
  | [] => out
  | raw :: ls =>
      let '(active_group, out) := parse_batch_line default_target line_no raw active_group out in
      parse_batch_lines default_target (S line_no) ls active_group out
  end.

Definition parse_batch_rules_in_group (text default_target default_group : str) : BatchParseResult :=
  parse_batch_lines (default (lit "proxy") (normalize_target default_target)) 1 (lines text) (trim default_group)
    {| b_rules := []; b_errors := [] |}.

Definition parse_batch_rules (text default_target : str) : BatchParseResult :=
  parse_batch_rules_in_group text default_target [].

Definition make_typed_rule (rule_type pattern target group : str) : outcome RoutingRule :=
  rule ← build_rule (normalize_type rule_type) (trim pattern) (default (lit "proxy") (normalize_target target));
  Ok (with_group (trim group) rule).

Definition rule_type_supports_bulk (rule_type : str) : bool :=
  one_of rule_type ["domain"; "domain-suffix"; "domain-keyword"; "ip-cidr"; "geoip"].

(** The patterns of one pasted line. *)
Definition pattern_tokens (typ line : str) : list str :=
  if one_of typ ["domain"; "domain-suffix"; "domain-keyword"; "geoip"]
  then parts_of (λ c, (c =? comma) || (c =? 59) || is_whitespace c) line
  else parts_of (Z.eqb comma) line.

Definition add_token (typ target group : str) (line_no : nat) (out : BatchParseResult) (token : str) : BatchParseResult :=
  match build_rule typ token target with
  | Ok rule => {| b_rules := b_rules out ++ [with_group group rule]; b_errors := b_errors out |}
  | o => {| b_rules := b_rules out; b_errors := b_errors out ++ [{| el_line := line_no; el_message := error_of o |}] |}
  end.

Fixpoint parse_typed_lines (typ target group : str) (line_no : nat) (ls : list str) (out : BatchParseResult)
    : BatchParseResult :=
  match ls with
  | [] => out
  | raw :: ls =>
      let out :=
        if is_empty (trim raw) || starts_with [hash] (trim raw) then out
        else let line := (split_line_and_name raw).1 in
             if is_empty line then out else foldl (add_token typ target group line_no) out (pattern_tokens typ line) in
      parse_typed_lines typ target group (S line_no) ls out
  end.

Definition parse_typed_patterns (text rule_type target group : str) : BatchParseResult :=
  parse_typed_lines (normalize_type rule_type) (default (lit "proxy") (normalize_target target)) (trim group) 1 (lines text)
    {| b_rules := []; b_errors := [] |}.

(** ** Groups for display (config/rule_groups.rs) *)
Record RuleGroupView := { v_name : str; v_indices : list nat }.

Fixpoint add_to_bucket (g : str) (i : nat) (named : list RuleGroupView) : list RuleGroupView :=
  match named with
  | [] => [{| v_name := g; v_indices := [i] |}]
  | b :: named =>
      if bool_decide (v_name b = g) then {| v_name := v_name b; v_indices := v_indices b ++ [i] |} :: named
      else b :: add_to_bucket g i named
  end.

Fixpoint bucket_rules (i : nat) (rs : list RoutingRule) (named : list RuleGroupView) (ungrouped : list nat)
    : list RuleGroupView * list nat :=
  match rs with
  | [] => (named, ungrouped)
  | r :: rs =>
      let g := trim (r_group r) in
      if is_empty g then bucket_rules (S i) rs named (ungrouped ++ [i])
      else bucket_rules (S i) rs (add_to_bucket g i named) ungrouped
  end.

Definition group_rules_for_display (rs : list RoutingRule) : list RuleGroupView :=
  let '(named, ungrouped) := bucket_rules 0 rs [] [] in
  match ungrouped with [] => named | _ => named ++ [{| v_name := []; v_indices := ungrouped |}] end.

Definition same_rule_group (rule_group want : str) : bool := bool_decide (trim rule_group = trim want).

(** ** Writing *)
Definition format_rule_destination_line (r : RoutingRule) : str :=
  let typ := export_type (r_type r) in
  if one_of (r_type r) ["match"; "final"] then typ ++ [comma] ++ export_target (r_target r)
  else typ ++ [comma] ++ r_pattern r ++ [comma] ++ export_target (r_target r).

Definition format_rule_clash_line (r : RoutingRule) : str :=
  let line := format_rule_destination_line r in
  if is_empty (r_source r) then line else lit "SOURCE," ++ r_source r ++ [comma] ++ line.

(** [str::replace('\n', " ")]. *)
Definition one_line (s : str) : str := map (λ c, if c =? newline then 32 else c) s.

Definition export_rule_line (r : RoutingRule) : str :=
  let suffix := if is_empty (r_name r) then [] else lit "  # " ++ one_line (r_name r) in
  if negb (r_enabled r) then lit "# disabled: " ++ format_rule_clash_line r ++ suffix
  else format_rule_clash_line r ++ suffix.

Definition export_bucket (rs : list RoutingRule) (b : RuleGroupView) : list str :=
  (lit "# @group " ++ v_name b)
    :: omap (λ i, export_rule_line <$> rs !! i) (v_indices b).

Definition export_lines (rs : list RoutingRule) : list str :=
  (lit "# Sockrocket rules export " ++ [8212] ++ lit " one rule per line")
    :: lit "# @group Name switches group; trailing # is rule name"
    :: flat_map (export_bucket rs) (group_rules_for_display rs).

Definition format_rules_export (rs : list RoutingRule) : str := join [newline] (export_lines rs).

(** ** Merging *)
(** The same matcher for the same clients. *)
Definition same_rule (within_group : bool) (r e : RoutingRule) : bool :=
  (negb within_group || same_rule_group (r_group e) (r_group r))
  && bool_decide (r_type e = r_type r) && bool_decide (r_pattern e = r_pattern r)
  && bool_decide (r_source e = r_source r).

Definition overwrite (r e : RoutingRule) : RoutingRule :=
  {| r_source := r_source e; r_name := if is_empty (r_name r) then r_name e else r_name r;
     r_group := if is_empty (r_group r) then r_group e else r_group r;
     r_type := r_type e; r_pattern := r_pattern e; r_target := r_target r; r_enabled := r_enabled r;
     r_priority := r_priority r |}.

(** [iter().position]. *)
Fixpoint position {A} (p : A → bool) (l : list A) : option nat :=
  match l with
  | [] => None
  | x :: l => if p x then Some O else S <$> position p l
  end.

(** [Vec::insert]. *)
Definition insert_at {A} (i : nat) (x : A) (l : list A) : list A := take i l ++ x :: drop i l.

Definition merge_one (conflict : BatchConflict) (within_group : bool) (acc : list RoutingRule * BatchMergeStats)
    (rule : RoutingRule) : list RoutingRule * BatchMergeStats :=
  let '(existing, stats) := acc in
  match position (same_rule within_group rule) existing with
  | Some pos =>
      match conflict with
      | Skip => (existing, {| added := added stats; replaced := replaced stats; skipped := S (skipped stats) |})
      | Replace =>
          (alter (overwrite rule) pos existing,
           {| added := added stats; replaced := S (replaced stats); skipped := skipped stats |})
      end
  | None =>
      let pos := default (length existing) (position (λ r, r_priority r <=? r_priority rule) existing) in
      (insert_at pos rule existing,
       {| added := S (added stats); replaced := replaced stats; skipped := skipped stats |})
  end.

Definition merge_rules (existing incoming : list RoutingRule) (conflict : BatchConflict) (within_group : bool)
    : list RoutingRule * BatchMergeStats :=
  foldl (merge_one conflict within_group) (existing, {| added := 0; replaced := 0; skipped := 0 |}) (reverse incoming).

Definition merge_batch_rules (existing incoming : list RoutingRule) (conflict : BatchConflict)
    : list RoutingRule * BatchMergeStats := merge_rules existing incoming conflict false.

(** ** Editing groups (config/rule_groups.rs) *)
Inductive GroupOutlet := Shared (target : str) | Mixed | Unset.

Definition selectable_outlet (outlet : str) : bool :=
  bool_decide (outlet = lit "proxy")
  || match strip_prefix (lit "group:") outlet with Some name => valid_group_name name | None => false end
  || bool_decide (is_Some (node_target_id outlet)).

(** The loop of [group_outlet], with what the rules seen so far share. *)
Fixpoint outlet_loop (group : str) (shared : option str) (rs : list RoutingRule) : GroupOutlet :=
  match rs with
  | [] => match shared with Some t => Shared t | None => Unset end
  | r :: rs =>
      if same_rule_group (r_group r) group && is_proxy_target (r_target r) then
        match shared with
        | None => outlet_loop group (Some (r_target r)) rs
        | Some t => if bool_decide (t = r_target r) then outlet_loop group shared rs else Mixed
        end
      else outlet_loop group shared rs
  end.

Definition group_outlet (rs : list RoutingRule) (group : str) : GroupOutlet := outlet_loop group None rs.

(** The rules [assign_group_outlet] points at the new exit. *)
Definition takes_outlet (rs : list RoutingRule) (group : str) (r : RoutingRule) : bool :=
  let has_proxy := existsb (λ r, same_rule_group (r_group r) group && is_proxy_target (r_target r)) rs in
  same_rule_group (r_group r) group && negb (has_proxy && negb (is_proxy_target (r_target r))).

Definition assign_group_outlet (rs : list RoutingRule) (group outlet : str) : outcome nat * list RoutingRule :=
  if negb (selectable_outlet outlet) then (Err "group outlet must be the global node, one node, or a proxy group", rs)
  else
    let seen := List.filter (takes_outlet rs group) rs in
    let rs' := map (λ r, if takes_outlet rs group r && negb (bool_decide (r_target r = outlet))
                         then with_target outlet r else r) rs in
    match seen with
    | [] => (Err "no rules in that group", rs')
    | _ => (Ok (length (List.filter (λ r, negb (bool_decide (r_target r = outlet))) seen)), rs')
    end.

Definition group_member_indices (rs : list RoutingRule) (group : str) : list nat :=
  omap (λ ir, if same_rule_group (r_group ir.2) group then Some ir.1 else None) (enumerate rs).

Record RuleGroupSnapshot := {
  s_type : str; s_target : str; s_priority : Z; s_enabled : bool; s_patterns : list str; s_mixed_type : bool;
}.

Definition snapshot_rule_group (rs : list RoutingRule) (group : str) : option RuleGroupSnapshot :=
  let members := List.filter (λ r, same_rule_group (r_group r) group) rs in
  first ← head members;
  Some {| s_type := r_type first; s_target := r_target first; s_priority := r_priority first;
          s_enabled := forallb r_enabled members; s_patterns := map r_pattern members;
          s_mixed_type := existsb (λ r, negb (bool_decide (r_type r = r_type first))) members |}.

(** The insertions of [replace_rule_group]. *)
Fixpoint insert_all (at_ : nat) (incoming rs : list RoutingRule) : list RoutingRule :=
  match incoming with
  | [] => rs
  | r :: incoming => insert_all (S at_) incoming (insert_at at_ r rs)
  end.

Definition replace_rule_group (rs : list RoutingRule) (old_group : str) (incoming : list RoutingRule)
    : outcome nat * list RoutingRule :=
  match incoming with
  | [] => (Err "a group needs a rule", rs)
  | first :: _ =>
      let new_name := trim (r_group first) in
      if negb (same_rule_group new_name old_group) && existsb (λ r, same_rule_group (r_group r) new_name) rs
      then (Err "the group exists", rs)
      else
        let insert_at := default (length rs) (position (λ r, same_rule_group (r_group r) old_group) rs) in
        let kept := List.filter (λ r, negb (same_rule_group (r_group r) old_group)) rs in
        (Ok (length incoming), insert_all (Nat.min insert_at (length kept)) incoming kept)
  end.

Definition existing_rule_groups (rs : list RoutingRule) : list str :=
  foldl (λ out r, let g := trim (r_group r) in
                  if is_empty g || existsb (λ x, bool_decide (x = g)) out then out else out ++ [g]) [] rs.

(** ** Downloaded lists (config/rule_list.rs) *)
Definition MAX_RULE_LIST_BYTES : Z := 256 * 1024.
Definition MAX_RULE_LIST_RULES : nat := 4096.

Record RuleListPreview := { p_text : str; p_count : nat }.

Definition is_global_destination (r : RoutingRule) : bool :=
  is_empty (r_source r) && negb (eq_ignore_ascii_case (r_type r) (lit "match"))
  && negb (eq_ignore_ascii_case (r_type r) (lit "final")).

(** The lines that count against the limit. *)
Definition rule_line (line : str) : bool :=
  let line := trim line in negb (is_empty line) && negb (starts_with [hash] line).

Definition preview_rule_list (text target group : str) : outcome RuleListPreview :=
  _ ← ensure (utf8_len text <=? MAX_RULE_LIST_BYTES) "the list exceeds 256 KiB";
  let text := trim_start_byte 65279 text in
  _ ← ensure (length (take (S MAX_RULE_LIST_RULES) (List.filter rule_line (lines text))) <=? MAX_RULE_LIST_RULES)%nat
             "at most 4096 rules";
  let parsed := parse_batch_rules_in_group text target group in
  _ ← match b_errors parsed with [] => Ok tt | _ => Err "a line cannot be parsed" end;
  _ ← ensure (negb (bool_decide (b_rules parsed = []))) "no rules";
  _ ← ensure (length (b_rules parsed) <=? MAX_RULE_LIST_RULES)%nat "at most 4096 rules";
  _ ← ensure (forallb is_global_destination (b_rules parsed)) "only destination rules";
  let text := join [newline] (map format_rule_clash_line (b_rules parsed)) in
  _ ← ensure (utf8_len text <=? MAX_RULE_LIST_BYTES) "the expanded list exceeds 256 KiB";
  Ok {| p_text := text; p_count := length (b_rules parsed) |}.

(** ** Scenes (config/rule_scenes.rs) *)
Record RuleScene := { sc_id : str; sc_base_priority : Z; sc_build : list RoutingRule }.

Definition scene_rules (s : RuleScene) : list RoutingRule :=
  map (λ r, let r := with_priority (sc_base_priority s) r in
            if is_empty (r_group r) then with_group (sc_id s) r else r) (sc_build s).

Definition rule (rule_type pattern target : string) : RoutingRule :=
  {| r_source := []; r_name := []; r_group := []; r_type := lit rule_type; r_pattern := lit pattern;
     r_target := lit target; r_enabled := true; r_priority := 0 |}.

Definition scene_cross_border : list RoutingRule :=
  [rule "domain-suffix" "googleapis.com" "proxy";
   rule "domain-suffix" "gstatic.com" "proxy";
   rule "domain-suffix" "google.com" "proxy";
   rule "domain-suffix" "cloudflare.com" "proxy";
   rule "domain-suffix" "cloudflare.net" "proxy";
   rule "domain-suffix" "amazonaws.com" "proxy";
   rule "domain-suffix" "apple.com" "proxy";
   rule "domain-suffix" "icloud.com" "proxy";
   rule "domain-suffix" "microsoft.com" "proxy";
   rule "domain-suffix" "office.com" "proxy";
   rule "domain-suffix" "live.com" "proxy";
   rule "domain-suffix" "github.com" "proxy";
   rule "domain-suffix" "githubusercontent.com" "proxy";
   rule "domain-suffix" "openai.com" "proxy";
   rule "domain-suffix" "chatgpt.com" "proxy"].

Definition scene_domestic_direct : list RoutingRule :=
  [rule "geoip" "CN" "direct";
   rule "domain-suffix" "qq.com" "direct";
   rule "domain-suffix" "weixin.qq.com" "direct";
   rule "domain-suffix" "wechat.com" "direct";
   rule "domain-suffix" "tenpay.com" "direct";
   rule "domain-suffix" "alipay.com" "direct";
   rule "domain-suffix" "alipayobjects.com" "direct";
   rule "domain-suffix" "taobao.com" "direct";
   rule "domain-suffix" "tmall.com" "direct";
   rule "domain-suffix" "aliyun.com" "direct";
   rule "domain-suffix" "alicdn.com" "direct";
   rule "domain-suffix" "jd.com" "direct";
   rule "domain-suffix" "360buyimg.com" "direct";
   rule "domain-suffix" "bilibili.com" "direct";
   rule "domain-suffix" "hdslb.com" "direct";
   rule "domain-suffix" "163.com" "direct";
   rule "domain-suffix" "126.com" "direct";
   rule "domain-suffix" "netease.com" "direct";
   rule "domain-suffix" "baidu.com" "direct";
   rule "domain-suffix" "bdstatic.com" "direct";
   rule "domain-keyword" "weixin" "direct";
   rule "domain-keyword" "alipay" "direct"].

Definition SCENES : list RuleScene :=
  [{| sc_id := lit "cross_border"; sc_base_priority := 100; sc_build := scene_cross_border |};
   {| sc_id := lit "domestic_direct"; sc_base_priority := 80; sc_build := scene_domestic_direct |}].

Definition rule_scene_by_id (id : str) : option RuleScene := List.find (λ s, bool_decide (sc_id s = id)) SCENES.

Definition rules_in_group (s : RuleScene) (group : str) : list RoutingRule :=
  let g := trim group in
  if is_empty g then scene_rules s else map (with_group g) (scene_rules s).
End batch.
