(* ===== verification/RulesBatchSpec.v ===== *)
(** * Batch rule editing: merging lists and editing groups *)
From Stdlib Require Import String.
From S2P Require Import Prelude Bytes Text TextTrim Net NetText Lru Sorting FakeIp GeoIp Router RuleMode RulesBatch.

#[local] Open Scope list_scope.
#[local] Open Scope Z_scope.

(** ** Positions and insertions *)
Lemma position_split {A} (p : A → bool) l :
  match position p l with
  | Some i => ∃ pre x post, l = pre ++ x :: post ∧ length pre = i ∧ p x = true ∧ Forall (λ y, p y = false) pre
  | None => Forall (λ y, p y = false) l
  end.
Proof.
  induction l as [|x l IH]; simpl; [constructor|]. destruct (p x) eqn:E; simpl.
  - exists [], x, l. by split_and!.
  - destruct (position p l) as [i|]; simpl; [|by constructor]. destruct IH as (pre & y & post & -> & <- & Hy & Hpre).
    exists (x :: pre), y, post. split_and!; try done. by constructor.
Qed.

(** An insertion at a position splits the list there. *)
Lemma insert_at_app {A} (x : A) pre post : insert_at (length pre) x (pre ++ post) = pre ++ x :: post.
Proof. unfold insert_at. by rewrite take_app_length, drop_app_length. Qed.

Section spec.
Context {U : Unicode} {H : UrlHost}.

(** ** Merging *)
(** What makes two rules the same. *)
Definition rule_key (within : bool) (r : RoutingRule) : str * str * str * str :=
  (if within then trim (r_group r) else [], r_type r, r_pattern r, r_source r).

Lemma same_rule_key within r e : same_rule within r e = bool_decide (rule_key within e = rule_key within r).
Proof.
  unfold same_rule, rule_key, same_rule_group. apply eq_true_iff_eq. rewrite !andb_true_iff, !bool_decide_eq_true.
  destruct within; simpl; rewrite ?bool_decide_eq_true; intuition congruence.
Qed.

Definition descending (l : list RoutingRule) : Prop := StronglySorted (λ a b, r_priority b <= r_priority a) l.

(** Highest priority first; at equal priority what was not there before is in front. *)
Definition newer_first (keys : list (str * str * str * str)) (within : bool) (l : list RoutingRule) : Prop :=
  StronglySorted (λ a b, r_priority b < r_priority a ∨ r_priority b = r_priority a ∧
    (rule_key within a ∈ keys → rule_key within b ∈ keys)) l.

Lemma insert_split (rule : RoutingRule) l :
  descending l → ∃ pre post, l = pre ++ post ∧
    insert_at (default (length l) (position (λ r, r_priority r <=? r_priority rule) l)) rule l = pre ++ rule :: post ∧
    Forall (λ r, r_priority rule < r_priority r) pre ∧ Forall (λ r, r_priority r <= r_priority rule) post.
Proof.
  intros Hl. pose proof (position_split (λ r, r_priority r <=? r_priority rule) l) as Hp.
  assert (∀ pre, Forall (λ y, (r_priority y <=? r_priority rule) = false) pre → Forall (λ r, r_priority rule < r_priority r) pre) as Hlt.
  { intros pre Hpre. eapply Forall_impl; [exact Hpre|]. intros r Hr. simpl in Hr. lia. }
  destruct (position _ l) as [i|]; simpl.
  - destruct Hp as (pre & x & post & -> & <- & Hx & Hpre). exists pre, (x :: post). split_and!; try done.
    + by rewrite insert_at_app.
    + by apply Hlt.
    + apply strongly_sorted_app in Hl as (_ & Hl & _). apply StronglySorted_inv in Hl as [_ Hl].
      constructor; [lia|]. eapply Forall_impl; [exact Hl|]. simpl. lia.
  - exists l, []. rewrite app_nil_r. split_and!; try done; [|by apply Hlt].
    rewrite <- (app_nil_r l) at 2. by rewrite insert_at_app.
Qed.

Lemma position_insert (rule : RoutingRule) l :
  ∃ pre post, l = pre ++ post ∧
    insert_at (default (length l) (position (λ r, r_priority r <=? r_priority rule) l)) rule l = pre ++ rule :: post.
Proof.
  pose proof (position_split (λ r, r_priority r <=? r_priority rule) l) as Hp. destruct (position _ l) as [i|]; simpl.
  - destruct Hp as (pre & x & post & -> & <- & _). exists pre, (x :: post). by rewrite insert_at_app.
  - exists l, []. rewrite app_nil_r. split; [done|]. rewrite <- (app_nil_r l) at 2. by rewrite insert_at_app.
Qed.

Lemma sorted_insert {A} (R : A → A → Prop) pre x post :
  StronglySorted R (pre ++ post) → Forall (λ y, R y x) pre → Forall (R x) post → StronglySorted R (pre ++ x :: post).
Proof.
  induction pre as [|y pre IH]; simpl; intros Hs Hpre Hpost; [by constructor|].
  apply StronglySorted_inv in Hs as [Hs Hy]. apply Forall_cons in Hpre as [Hyx Hpre]. constructor; [by apply IH|].
  apply Forall_app in Hy as [Hy1 Hy2]. apply Forall_app. split; [done|by constructor].
Qed.

Lemma sorted_weaken {A} (R R' : A → A → Prop) l :
  (∀ x y, x ∈ l → y ∈ l → R x y → R' x y) → StronglySorted R l → StronglySorted R' l.
Proof.
  intros HR Hs. induction Hs as [|x l Hs IH Hx]; [constructor|]. constructor.
  - apply IH. intros a b Ha Hb. apply HR; by right.
  - rewrite Forall_forall in Hx |- *. intros y Hy. apply HR; [by left|by right|by apply Hx].
Qed.

(** What one incoming rule changes. *)
Lemma merge_one_spec conflict within rule ex st out st' :
  merge_one conflict within (ex, st) rule = (out, st') →
  (∃ e, e ∈ ex ∧ rule_key within e = rule_key within rule ∧
     match conflict with
     | Skip => out = ex ∧ st' = {| added := added st; replaced := replaced st; skipped := S (skipped st) |}
     | Replace => ∃ pre post, ex = pre ++ e :: post ∧ out = pre ++ overwrite rule e :: post ∧
         Forall (λ r, rule_key within r ≠ rule_key within rule) pre ∧
         st' = {| added := added st; replaced := S (replaced st); skipped := skipped st |}
     end) ∨
  (rule_key within rule ∉ map (rule_key within) ex ∧
   out = insert_at (default (length ex) (position (λ r, r_priority r <=? r_priority rule) ex)) rule ex ∧
   st' = {| added := S (added st); replaced := replaced st; skipped := skipped st |}).
Proof.
  unfold merge_one. pose proof (position_split (same_rule within rule) ex) as Hp.
  assert (∀ r, same_rule within rule r = false → rule_key within r ≠ rule_key within rule) as Hne.
  { intros r Hr. rewrite same_rule_key in Hr. by apply bool_decide_eq_false in Hr. }
  destruct (position (same_rule within rule) ex) as [pos|].
  - destruct Hp as (pre & e & post & -> & <- & He & Hpre). rewrite same_rule_key in He. apply bool_decide_eq_true in He.
    intros E. left. exists e. split_and!; [set_solver|done|]. destruct conflict; injection E as <- <-; [done|].
    exists pre, post. split_and!; try done.
    + rewrite alter_app_r_alt by lia. by rewrite Nat.sub_diag.
    + eapply Forall_impl; [exact Hpre|]. apply Hne.
  - intros E. right. injection E as <- <-. split_and!; try done. intros (r & Hk & Hr)%list_elem_of_fmap.
    rewrite Forall_forall in Hp. by apply (Hne r (Hp r Hr)).
Qed.

Abbreviation merge_all conflict within := (foldl (merge_one conflict within)).

Lemma overwrite_key within r e : rule_key within e = rule_key within r → rule_key within (overwrite r e) = rule_key within e.
Proof.
  unfold rule_key, overwrite. intros Hk. destruct within; simpl; [|done]. injection Hk as Hg _ _ _.
  destruct (is_empty (r_group r)); congruence.
Qed.

Lemma newer_first_descending keys within l : newer_first keys within l → descending l.
Proof. apply sorted_weaken. simpl. lia. Qed.

(** The keys, the counts and the length after one rule. *)
Lemma merge_one_keys conflict within rule ex st out st' :
  merge_one conflict within (ex, st) rule = (out, st') →
  (∀ k, k ∈ map (rule_key within) out ↔ k ∈ map (rule_key within) ex ∨ k = rule_key within rule) ∧
  (NoDup (map (rule_key within) ex) → NoDup (map (rule_key within) out)) ∧
  (added st' + replaced st' + skipped st' = S (added st + replaced st + skipped st))%nat ∧
  (length out + added st = length ex + added st')%nat.
Proof.
  intros [(e & He & Hk & Hc)|(Hnew & -> & ->)]%merge_one_spec.
  - assert (rule_key within rule ∈ map (rule_key within) ex) as Hin by (rewrite <- Hk; by apply list_elem_of_fmap_2).
    destruct conflict; [destruct Hc as [-> ->]; simpl; split_and!; [|done|lia..]; intros k; split; [auto|by intros [?| ->]]|].
    destruct Hc as (pre & post & -> & -> & _ & ->). simpl.
    assert (map (rule_key within) (pre ++ overwrite rule e :: post) = map (rule_key within) (pre ++ e :: post)) as ->
      by (rewrite !map_app; simpl; by rewrite overwrite_key).
    split_and!; [|done|lia|rewrite !length_app; simpl; lia]. intros k. split; [auto|by intros [?| ->]].
  - destruct (position_insert rule ex) as (pre & post & -> & ->). simpl. rewrite !length_app. simpl.
    rewrite !map_app in *. simpl. split_and!; [|intros Hnd|lia|lia].
    + intros k. set_solver.
    + apply NoDup_app in Hnd as (H1 & H2 & H3). apply NoDup_app. split_and!; [done| |].
      * intros k Hk1 [->|Hk2]%elem_of_cons; [by destruct Hnew; apply elem_of_app; left|by apply (H2 k)].
      * apply NoDup_cons. split; [|done]. intros Hin. destruct Hnew. apply elem_of_app. by right.
Qed.

Lemma merge_all_keys conflict within l : ∀ ex st out st',
  merge_all conflict within (ex, st) l = (out, st') →
  (∀ k, k ∈ map (rule_key within) out ↔ k ∈ map (rule_key within) ex ∨ k ∈ map (rule_key within) l) ∧
  (NoDup (map (rule_key within) ex) → NoDup (map (rule_key within) out)) ∧
  (added st' + replaced st' + skipped st' = added st + replaced st + skipped st + length l)%nat ∧
  (length out + added st = length ex + added st')%nat.
Proof.
  induction l as [|r l IH]; intros ex st out st'; cbn [foldl map length].
  { intros [= <- <-]. split_and!; [set_solver|done|lia|lia]. }
  destruct (merge_one conflict within (ex, st) r) as [ex1 st1] eqn:E. apply merge_one_keys in E as (K1 & N1 & C1 & L1).
  intros (K2 & N2 & C2 & L2)%IH. split_and!; [|auto|lia|lia]. intros k. rewrite K2, K1, elem_of_cons. intuition.
Qed.

(** Skipping keeps what was there and puts new rules in front of their equals. *)
Lemma merge_skip_one base within rule ex st out st' :
  base `sublist_of` ex → (descending base → newer_first (map (rule_key within) base) within ex) →
  merge_one Skip within (ex, st) rule = (out, st') →
  base `sublist_of` out ∧ ex `sublist_of` out ∧
  (descending base → newer_first (map (rule_key within) base) within out) ∧
  (rule_key within rule ∉ map (rule_key within) ex → rule ∈ out).
Proof.
  intros Hb Hs [(e & He & Hk & -> & ->)|(Hnew & -> & ->)]%merge_one_spec.
  - split_and!; try done. intros Hn. destruct Hn. rewrite <- Hk. by apply list_elem_of_fmap_2.
  - assert (ex `sublist_of` insert_at (default (length ex) (position (λ r, r_priority r <=? r_priority rule) ex)) rule ex) as Hsub.
    { destruct (position_insert rule ex) as (pre & post & -> & ->). apply sublist_app; [done|by apply sublist_cons]. }
    split_and!; [by etrans|done| |].
    + intros Hd. specialize (Hs Hd). destruct (insert_split rule ex) as (pre & post & -> & -> & Hpre & Hpost);
        [by eapply newer_first_descending|].
      apply sorted_insert; [done|..].
      * eapply Forall_impl; [exact Hpre|]. simpl. lia.
      * eapply Forall_impl; [exact Hpost|]. simpl. intros r Hr.
        assert (r_priority r < r_priority rule ∨ r_priority r = r_priority rule) as [?|?] by lia; [by left|right].
        split; [done|]. intros Hin. destruct Hnew. apply list_elem_of_fmap in Hin as (e & -> & He).
        apply list_elem_of_fmap_2. eapply elem_of_submseteq; [exact He|by apply sublist_submseteq].
    + intros _. destruct (position_insert rule ex) as (pre & post & _ & ->). set_solver.
Qed.

Lemma merge_skip_all base within l : ∀ ex st out st',
  base `sublist_of` ex → (descending base → newer_first (map (rule_key within) base) within ex) →
  merge_all Skip within (ex, st) l = (out, st') →
  base `sublist_of` out ∧ ex `sublist_of` out ∧
  (descending base → newer_first (map (rule_key within) base) within out) ∧
  (∀ pre r post, l = pre ++ r :: post → rule_key within r ∉ map (rule_key within) (ex ++ pre) → r ∈ out).
Proof.
  induction l as [|r l IH]; intros ex st out st' Hb Hs; cbn [foldl].
  { intros [= <- <-]. split_and!; try done. by intros [|? ?] ? ?. }
  destruct (merge_one Skip within (ex, st) r) as [ex1 st1] eqn:E.
  pose proof (merge_one_keys _ _ _ _ _ _ _ E) as (K & _).
  destruct (merge_skip_one base within r ex st ex1 st1 Hb Hs E) as (B1 & S1 & N1 & A1).
  intros (B2 & S2 & N2 & A2)%IH; [|done|done]. split_and!; [done|by etrans|done|].
  intros [|x pre] r' post [= <- ->] Hk.
  - rewrite app_nil_r in Hk. eapply elem_of_submseteq; [by apply A1|by apply sublist_submseteq].
  - eapply A2; [done|]. rewrite map_app, elem_of_app in *. cbn [map] in Hk. rewrite elem_of_cons in Hk.
    intros [[Hin|Hin]%K|Hin]; tauto.
Qed.

Definition carries (within : bool) (r e : RoutingRule) : Prop :=
  rule_key within e = rule_key within r ∧ r_target e = r_target r ∧ r_enabled e = r_enabled r ∧ r_priority e = r_priority r.

(** Replacing keeps the rules of other keys and carries the new decision. *)
Lemma merge_replace_one within rule ex st out st' :
  merge_one Replace within (ex, st) rule = (out, st') →
  (∃ e, e ∈ out ∧ carries within rule e) ∧
  (∀ e, e ∈ ex → rule_key within e ≠ rule_key within rule → e ∈ out).
Proof.
  intros [(e & He & Hk & pre & post & -> & -> & _ & ->)|(Hnew & -> & ->)]%merge_one_spec.
  - split.
    2: { intros e' He' Hne. rewrite elem_of_app, elem_of_cons in *. destruct He' as [?|[->|?]]; [by left|done|by right; right]. }
    exists (overwrite rule e). split; [rewrite elem_of_app, elem_of_cons; auto|]. split; [by rewrite overwrite_key|done].
  - destruct (position_insert rule ex) as (pre & post & -> & ->). split.
    + exists rule. split; [rewrite elem_of_app, elem_of_cons; auto|done].
    + intros e' He' _. rewrite elem_of_app, elem_of_cons in *. tauto.
Qed.

Lemma merge_replace_all within l : ∀ ex st out st',
  merge_all Replace within (ex, st) l = (out, st') →
  (∀ pre r post, l = pre ++ r :: post → rule_key within r ∉ map (rule_key within) post → ∃ e, e ∈ out ∧ carries within r e) ∧
  (∀ e, e ∈ ex → rule_key within e ∉ map (rule_key within) l → e ∈ out).
Proof.
  induction l as [|r l IH]; intros ex st out st'; cbn [foldl].
  { intros [= <- <-]. split; [by intros [|? ?] ? ?|done]. }
  destruct (merge_one Replace within (ex, st) r) as [ex1 st1] eqn:E. apply merge_replace_one in E as ((e1 & He1 & Hc1) & Hk1).
  intros (R2 & K2)%IH. split.
  - intros [|x pre] r' post [= <- ->] Hk; [|by eapply R2]. exists e1. split; [|done]. apply K2; [done|].
    destruct Hc1 as [-> _]. done.
  - intros e He Hn. cbn [map] in Hn. rewrite elem_of_cons in Hn. apply K2; [apply Hk1; [done|tauto]|tauto].
Qed.

(** Merging a batch of rules. Every incoming rule is counted once, as added,
    replaced or skipped, and the list grows by those added; no rule is listed twice
    that was not, where two rules are the same when they match the same traffic of the
    same clients (and, within groups, bear the same group), and the rules listed after
    are those of either list. Skipping leaves every existing rule as it is and in
    order, adds the last of the incoming duplicates, and keeps a list that was ordered
    by priority ordered, new rules in front of their equals. Replacing gives every
    incoming matcher the target, state and priority of its first line, and leaves the
    other existing rules alone. *)
Theorem merge_rules_spec existing incoming conflict within out st :
  merge_rules existing incoming conflict within = (out, st) →
  (added st + replaced st + skipped st = length incoming ∧ length out = length existing + added st)%nat ∧
  (∀ k, k ∈ map (rule_key within) out ↔ k ∈ map (rule_key within) (existing ++ incoming)) ∧
  (NoDup (map (rule_key within) existing) → NoDup (map (rule_key within) out)) ∧
  match conflict with
  | Skip => existing `sublist_of` out ∧
      (descending existing → newer_first (map (rule_key within) existing) within out) ∧
      (∀ pre r post, incoming = pre ++ r :: post → rule_key within r ∉ map (rule_key within) (existing ++ post) → r ∈ out)
  | Replace =>
      (∀ pre r post, incoming = pre ++ r :: post → rule_key within r ∉ map (rule_key within) pre →
         ∃ e, e ∈ out ∧ carries within r e) ∧
      (∀ e, e ∈ existing → rule_key within e ∉ map (rule_key within) incoming → e ∈ out)
  end.
Proof.
  intros E. pose proof (merge_all_keys _ _ _ _ _ _ _ E) as (K & N & C & L). simpl in C, L. rewrite length_reverse in C.
  assert (∀ l, (∀ k, k ∈ map (rule_key within) (reverse l) ↔ k ∈ map (rule_key within) l)) as Hrev.
  { intros l k. by rewrite !list_elem_of_fmap; setoid_rewrite elem_of_reverse. }
  split; [lia|]. split; [|split; [done|]].
  { intros k. by rewrite K, Hrev, map_app, elem_of_app. }
  destruct conflict.
  - assert (descending existing → newer_first (map (rule_key within) existing) within existing) as Hn.
    { apply sorted_weaken. intros a b Ha Hb Hab.
      assert (r_priority b < r_priority a ∨ r_priority b = r_priority a) as [?|?] by lia; [by left|right].
      split; [done|]. intros _. by apply list_elem_of_fmap_2. }
    destruct (merge_skip_all existing within (reverse incoming) existing _ out st (reflexivity _) Hn E) as (_ & Hsub & Hnew & Hin).
    split_and!; [done|done|]. intros pre r post -> Hk. eapply (Hin (reverse post) r (reverse pre)).
    + by rewrite reverse_app, reverse_cons, <- app_assoc.
    + intros Hx. apply Hk. rewrite map_app, elem_of_app in Hx |- *. by rewrite Hrev in Hx.
  - apply merge_replace_all in E as [R K2]. split.
    + intros pre r post -> Hk. eapply (R (reverse post) r (reverse pre)); [by rewrite reverse_app, reverse_cons, <- app_assoc|]. by rewrite Hrev.
    + intros e He Hk. apply K2; [done|]. by rewrite Hrev.
Qed.

(** ** Editing a group *)
Abbreviation in_group g := (λ r : RoutingRule, same_rule_group (r_group r) g).

Lemma same_group_spec a b : same_rule_group a b = true ↔ trim a = trim b.
Proof. unfold same_rule_group. apply bool_decide_eq_true. Qed.

Lemma insert_all_app incoming : ∀ pre post, insert_all (length pre) incoming (pre ++ post) = pre ++ incoming ++ post.
Proof.
  induction incoming as [|r incoming IH]; intros pre post; simpl; [done|].
  rewrite insert_at_app. replace (S (length pre)) with (length (pre ++ [r])) by (rewrite length_app; simpl; lia).
  rewrite (app_assoc pre [r] post : pre ++ r :: post = (pre ++ [r]) ++ post). rewrite IH. by rewrite <- app_assoc.
Qed.

Lemma filter_none {A} (p : A → bool) l : Forall (λ x, p x = false) l → List.filter p l = [].
Proof. induction 1 as [|x l Hx _ IH]; simpl; [done|]. by rewrite Hx. Qed.

Lemma filter_every {A} (p : A → bool) l : Forall (λ x, p x = true) l → List.filter p l = l.
Proof. induction 1 as [|x l Hx _ IH]; simpl; [done|]. by rewrite Hx, IH. Qed.

Lemma filter_compl_none {A} (p : A → bool) l : List.filter p (List.filter (λ x, negb (p x)) l) = [].
Proof. induction l as [|x l IH]; simpl; [done|]. destruct (p x) eqn:E; simpl; [done|]. by rewrite E. Qed.

(** Replacing a group by new rules. It fails, and changes nothing, only for no
    rules or for a name that another group bears; otherwise the rules of other groups
    stay in order around the new ones, which stand together, in order, where the first
    rule of the old group stood (at the end when there was none); and the new name's
    group is then exactly the incoming rules, when they all bear it. *)
Theorem replace_rule_group_spec rs old_group incoming res out :
  replace_rule_group rs old_group incoming = (res, out) →
  match res with
  | Ok n => n = length incoming ∧ incoming ≠ [] ∧
      ∃ before after, out = before ++ incoming ++ after ∧
        List.filter (λ r, negb (same_rule_group (r_group r) old_group)) rs = before ++ after ∧
        (after = [] ∧ Forall (λ r, same_rule_group (r_group r) old_group = false) rs ∨
         ∃ first rest, rs = before ++ first :: rest ∧ same_rule_group (r_group first) old_group = true) ∧
        ∀ first, head incoming = Some first →
          Forall (λ r, same_rule_group (r_group r) (r_group first) = true) incoming →
          List.filter (in_group (r_group first)) out = incoming
  | Err _ => out = rs ∧ (incoming = [] ∨ ∃ first r, head incoming = Some first ∧ r ∈ rs ∧
      trim (r_group first) ≠ trim old_group ∧ trim (r_group r) = trim (r_group first))
  | _ => False
  end.
Proof.
  unfold replace_rule_group. destruct incoming as [|first incoming]; [intros [= <- <-]; auto|].
  set (new := trim (r_group first)). set (all := first :: incoming).
  assert (trim new = new) as Hnew by apply trim_idem.
  destruct (negb (same_rule_group new old_group) && existsb (in_group new) rs) eqn:E.
  { intros [= <- <-]. split; [done|]. right. apply andb_true_iff in E as [E1 (r & Hr & E2)%existsb_exists].
    apply negb_true_iff, bool_decide_eq_false in E1. apply same_group_spec in E2. rewrite Hnew in E1, E2.
    exists first, r. split_and!; try done. by apply list_elem_of_In. }
  intros [<- <-]%pair_equal_spec. split; [done|]. split; [done|].
  set (kept := List.filter (λ r, negb (same_rule_group (r_group r) old_group)) rs).
  assert (∃ before after, kept = before ++ after ∧
    Nat.min (default (length rs) (position (in_group old_group) rs)) (length kept) = length before ∧
    (after = [] ∧ Forall (λ r, same_rule_group (r_group r) old_group = false) rs ∨
     ∃ first rest, rs = before ++ first :: rest ∧ same_rule_group (r_group first) old_group = true)) as (before & after & Hkept & Hat & Hpos).
  { pose proof (position_split (in_group old_group) rs) as Hp. destruct (position (in_group old_group) rs) as [i|].
    - destruct Hp as (pre & x & post & Hrs & <- & Hx & Hpre). exists pre, (List.filter (λ r, negb (same_rule_group (r_group r) old_group)) (x :: post)).
      assert (kept = pre ++ List.filter (λ r, negb (same_rule_group (r_group r) old_group)) (x :: post)) as Hk.
      { unfold kept. rewrite Hrs, List.filter_app. f_equal. apply filter_every. eapply Forall_impl; [exact Hpre|]. by intros r ->. }
      split; [done|]. split; [rewrite Hk, length_app; simpl; lia|]. right. by exists x, post.
    - exists rs, []. rewrite app_nil_r. assert (kept = rs) as Hk.
      { apply filter_every. eapply Forall_impl; [exact Hp|]. by intros r ->. }
      rewrite Hk. simpl. split; [done|]. split; [lia|]. by left. }
  exists before, after. rewrite Hat, Hkept, insert_all_app. split_and!; try done.
  intros f [= <-] Hall.
  assert (List.filter (in_group (r_group first)) kept = []) as Hnone.
  { apply andb_false_iff in E as [E|E].
    - apply negb_false_iff, same_group_spec in E. rewrite Hnew in E. unfold kept.
      replace (List.filter (in_group (r_group first))) with (List.filter (in_group old_group)); [apply filter_compl_none|].
      unfold same_rule_group, new in *. by rewrite E.
    - apply filter_none. apply Forall_forall. intros r Hr. unfold kept in Hr. apply list_elem_of_In, List.filter_In in Hr as [Hr _].
      destruct (same_rule_group (r_group r) (r_group first)) eqn:Er; [|done]. apply same_group_spec in Er.
      assert (existsb (in_group new) rs = true) as Hx; [|congruence]. apply existsb_exists. exists r. split; [done|].
      apply same_group_spec. by rewrite Hnew. }
  rewrite Hkept, List.filter_app in Hnone. apply app_eq_nil in Hnone as [Hn1 Hn2].
  rewrite !List.filter_app, Hn1, Hn2, (filter_every _ all Hall). by rewrite app_nil_r.
Qed.

(** ** The exit of a group *)
Lemma selectable_proxy outlet : selectable_outlet outlet = true → is_proxy_target outlet = true ∧ valid_target outlet = true.
Proof.
  unfold selectable_outlet, is_proxy_target, valid_target. intros Hs.
  apply orb_true_iff in Hs as [[Hs|Hs]%orb_true_iff|Hs].
  - apply bool_decide_eq_true in Hs as ->. by vm_compute.
  - unfold strip_prefix in *. destruct (starts_with (lit "group:") outlet); [|done]. rewrite Hs, !orb_true_r. done.
  - by rewrite Hs, !orb_true_r.
Qed.

Lemma outlet_loop_shared group outlet rs :
  Forall (λ r, same_rule_group (r_group r) group && is_proxy_target (r_target r) = true → r_target r = outlet) rs →
  outlet_loop group (Some outlet) rs = Shared outlet.
Proof.
  induction 1 as [|r rs Hr _ IH]; [done|]. cbn [outlet_loop]. destruct (_ && _); [|done]. by rewrite Hr, bool_decide_eq_true_2.
Qed.

Lemma group_outlet_shared group outlet rs :
  Forall (λ r, same_rule_group (r_group r) group && is_proxy_target (r_target r) = true → r_target r = outlet) rs →
  Exists (λ r, same_rule_group (r_group r) group && is_proxy_target (r_target r) = true) rs →
  group_outlet rs group = Shared outlet.
Proof.
  unfold group_outlet. induction 1 as [|r rs Hr Hrs IH]; intros Hex; [by inversion Hex|]. cbn [outlet_loop].
  destruct (same_rule_group (r_group r) group && is_proxy_target (r_target r)) eqn:E.
  - rewrite Hr by done. by apply outlet_loop_shared.
  - apply IH. inversion Hex; congruence.
Qed.

(** Assigning an exit to a group. It fails, and changes nothing, for what is not
    an exit or a group without rules. Otherwise the group's shared exit is the new
    one, which is a valid target of a rule; only targets change, and only in the
    group: all of them when no rule of it dials a proxy, those that do otherwise; and
    the answer counts the targets changed. *)
Theorem assign_outlet_spec rs group outlet res out :
  assign_group_outlet rs group outlet = (res, out) →
  match res with
  | Ok n =>
      group_outlet out group = Shared outlet ∧ valid_target outlet = true ∧
      Forall2 (λ r r', r' = with_target (r_target r') r ∧
        (r_target r' = r_target r ∨ r_target r' = outlet ∧ same_rule_group (r_group r) group = true) ∧
        (same_rule_group (r_group r) group = true → is_proxy_target (r_target r) = false →
           Exists (λ r, same_rule_group (r_group r) group && is_proxy_target (r_target r) = true) rs → r' = r)) rs out ∧
      n = length (List.filter (λ rr, negb (bool_decide (r_target rr.1 = r_target rr.2))) (zip rs out))
  | Err _ => out = rs
  | _ => False
  end.
Proof.
  unfold assign_group_outlet. destruct (selectable_outlet outlet) eqn:Hsel; [|by intros [= <- <-]].
  apply selectable_proxy in Hsel as [Hproxy Hvalid]. cbn [negb].
  set (f := λ r, if takes_outlet rs group r && negb (bool_decide (r_target r = outlet)) then with_target outlet r else r).
  set (has := existsb (λ r, same_rule_group (r_group r) group && is_proxy_target (r_target r)) rs).
  assert (∀ r, takes_outlet rs group r = same_rule_group (r_group r) group && negb (has && negb (is_proxy_target (r_target r)))) as Htakes by done.
  assert (∀ r, r_group (f r) = r_group r ∧ r_target (f r) = if takes_outlet rs group r then outlet else r_target r) as Hf.
  { intros r. unfold f. destruct (takes_outlet rs group r); simpl; [|done].
    destruct (bool_decide_reflect (r_target r = outlet)); by simpl. }
  destruct (List.filter (takes_outlet rs group) rs) as [|x seen] eqn:Eseen; intros [<- <-]%pair_equal_spec.
  { rewrite <- (List.map_id rs) at 2. apply map_ext_in. intros r Hr. unfold f.
    destruct (takes_outlet rs group r) eqn:Et; [|done]. assert (r ∈ List.filter (takes_outlet rs group) rs) as Hin
      by (apply list_elem_of_In, List.filter_In; done). rewrite Eseen in Hin. by apply elem_of_nil in Hin. }
  rewrite <- Eseen. split_and!; [|done| |].
  - apply group_outlet_shared.
    + apply Forall_forall. intros r' (r & -> & Hr)%list_elem_of_fmap. destruct (Hf r) as [-> ->]. rewrite Htakes.
      destruct (same_rule_group (r_group r) group); [|done]. simpl.
      destruct has; simpl; [|done]. by destruct (is_proxy_target (r_target r)) eqn:Ep; simpl; rewrite ?Ep.
    + assert (x ∈ List.filter (takes_outlet rs group) rs) as Hx by (rewrite Eseen; apply list_elem_of_here).
      apply list_elem_of_In, List.filter_In in Hx as [Hx Ht]. apply Exists_exists. exists (f x). split.
      * apply list_elem_of_fmap_2. by apply list_elem_of_In.
      * destruct (Hf x) as [-> ->]. rewrite Ht, Hproxy, andb_true_r. rewrite Htakes in Ht. by apply andb_true_iff in Ht as [-> _].
  - apply Forall2_fmap_r, Forall_Forall2_diag, Forall_forall. intros r Hr. destruct (Hf r) as [_ Ht]. split_and!.
    + unfold f. destruct (takes_outlet rs group r && _); by destruct r.
    + rewrite Ht, Htakes. destruct (same_rule_group (r_group r) group); simpl; [|by left]. destruct (negb _); auto.
    + intros Hg Hp Hex. unfold f. rewrite Htakes, Hg, Hp. unfold has.
      replace (existsb _ rs) with true; [done|]. symmetry. apply existsb_exists. apply Exists_exists in Hex as (y & Hy & Hyp).
      exists y. split; [by apply list_elem_of_In|done].
  - clear - Hf. revert Hf. generalize (takes_outlet rs group). intros t Hf. clearbody f. f_equal.
    induction rs as [|r rs IH]; [done|]. simpl. destruct (Hf r) as [_ ->].
    destruct (t r); simpl; [destruct (bool_decide_reflect (r_target r = outlet)); simpl; by rewrite IH|].
    by rewrite bool_decide_eq_true_2.
Qed.
End spec.

(** ** Concrete lists *)
#[local] Existing Instance ascii_unicode.
#[local] Instance no_hosts : UrlHost := {| host_domain := λ _, None |}.

Definition plain_rule (group pattern target : string) (priority : Z) : RoutingRule :=
  {| r_source := []; r_name := []; r_group := lit group; r_type := lit "domain"; r_pattern := lit pattern;
     r_target := lit target; r_enabled := true; r_priority := priority |}.

(** Two new rules, one of them over an old one of another priority. *)
Lemma merge_rules_spec_witness :
  let old := [plain_rule "" "a.example" "direct" 5; plain_rule "" "b.example" "direct" 0] in
  let new := [plain_rule "" "c.example" "proxy" 0; plain_rule "" "b.example" "proxy" 0] in
  ∃ out st, merge_rules old new Skip false = (out, st) ∧ map r_pattern out = [lit "a.example"; lit "c.example"; lit "b.example"]
    ∧ (added st + replaced st + skipped st = 2)%nat.
Proof.
  intros old new. destruct (merge_rules old new Skip false) as [out st] eqn:E. exists out, st.
  split; [done|]. split; [|by destruct (merge_rules_spec old new Skip false out st E) as [[-> _] _]].
  assert (out = (merge_rules old new Skip false).1) as -> by (by rewrite E). by vm_compute.
Defined.

(** A group of one rule, replaced by two of a new name. *)
Lemma replace_rule_group_spec_witness :
  let rs := [plain_rule "x" "a.example" "direct" 5; plain_rule "y" "b.example" "direct" 0; plain_rule "x" "c.example" "direct" 0] in
  let new := [plain_rule "z" "d.example" "proxy" 0; plain_rule "z" "e.example" "proxy" 0] in
  ∃ res out, replace_rule_group rs (lit "y") new = (res, out) ∧ res = Ok (length new).
Proof.
  intros rs new. destruct (replace_rule_group rs (lit "y") new) as [res out] eqn:E. exists res, out. split; [done|].
  pose proof (replace_rule_group_spec rs (lit "y") new res out E) as Hs.
  destruct res as [n|e| |]; [by destruct Hs as [-> _]| |done|done].
  assert (Err e = (replace_rule_group rs (lit "y") new).1) as Ha by (by rewrite E). vm_compute in Ha. discriminate Ha.
Defined.

(** A group with a direct rule and a proxy rule. *)
Lemma assign_outlet_spec_witness :
  let rs := [plain_rule "x" "a.example" "direct" 5; plain_rule "x" "b.example" "proxy" 0] in
  ∃ res out, assign_group_outlet rs (lit "x") (lit "group:home") = (res, out) ∧
    ∀ n, res = Ok n → group_outlet out (lit "x") = Shared (lit "group:home").
Proof.
  intros rs. destruct (assign_group_outlet rs (lit "x") (lit "group:home")) as [res out] eqn:E. exists res, out. split; [done|].
  pose proof (assign_outlet_spec rs (lit "x") (lit "group:home") res out E) as Hs. intros n ->. apply Hs.
Defined.

(** The built-in packs hold valid rules, no rule twice, above a rule of the usual priority. *)
Example builtin_scenes_valid :
  NoDup (map sc_id SCENES) ∧
  Forall (λ s, Forall (λ r, validate_rule r = Ok tt ∧ 0 < r_priority r) (rules_in_group s (lit " Mine "))
               ∧ NoDup (map (λ r, (r_type r, r_pattern r)) (scene_rules s))) SCENES.
Proof.
  split; [by vm_compute; repeat (constructor; [set_solver|]); constructor|].
  repeat constructor; apply (bool_decide_unpack _); by vm_compute.
Qed.
