(* ===== verification/RulesText.v ===== *)
(** * Batch rule editing: the text format

    What the writer of rule lists writes, the parser reads back; what the parser
    accepts is in normal form and compiles. *)
From Stdlib Require Import String.
From S2P Require Import Prelude Bytes Text TextTrim Net NetText Lru Sorting FakeIp GeoIp Router RouterSpec RuleMode RulesBatch.

#[local] Open Scope string_scope.
#[local] Open Scope list_scope.
#[local] Open Scope Z_scope.

(** [char::is_alphanumeric] and [White_Space] are disjoint. *)
Class UnicodeSpaces (U : Unicode) := {
  alphanumeric_solid c : is_alphanumeric c = true → is_whitespace c = false;
}.

(** ** Splitting *)
Lemma split_by_eqb c s : split_by (Z.eqb c) s = split_on c s.
Proof.
  induction s as [|b s IH]; simpl; [done|]. rewrite Z.eqb_sym, IH. destruct (b =? c); [done|]. by destruct (split_on c s).
Qed.

Lemma is_empty_spec s : is_empty s = true ↔ s = [].
Proof. unfold is_empty. rewrite Z.eqb_eq. split; [apply len_zero_nil|by intros ->]. Qed.

Lemma is_empty_false s : s ≠ [] → is_empty s = false.
Proof. intros Hs. apply not_true_iff_false. by rewrite is_empty_spec. Qed.

(** A field of a comma-separated line. *)
Definition field_ok (s : str) : Prop := s ≠ [] ∧ trimmed s ∧ comma ∉ s ∧ hash ∉ s ∧ newline ∉ s.

Lemma parts_of_fields fields :
  Forall field_ok fields → fields ≠ [] → parts_of (Z.eqb comma) (join [comma] fields) = fields.
Proof.
  intros Hf Hne. unfold parts_of. rewrite split_by_eqb, split_on_join; [|done|].
  - induction Hf as [|s fields (Hs & Ht & _) Hf IH]; [done|]. simpl. rewrite trim_fixed by done. rewrite is_empty_false by done. simpl.
    f_equal. destruct fields; [done|by apply IH].
  - eapply Forall_impl; [exact Hf|]. by intros s (_ & _ & ? & _).
Qed.

Lemma eq_ignore_head a b s t : lower_byte a ≠ lower_byte b → eq_ignore_ascii_case (a :: s) (b :: t) = false.
Proof. intros Hne. unfold eq_ignore_ascii_case. apply bool_decide_eq_false. simpl. congruence. Qed.

Definition field_okb (s : str) : bool :=
  match s, last s with
  | a :: _, Some b => negb (is_whitespace a) && negb (is_whitespace b)
      && forallb (λ c, negb ((c =? comma) || (c =? hash) || (c =? newline))) s
  | _, _ => false
  end.

Lemma field_okb_sound s : field_okb s = true → field_ok s.
Proof.
  unfold field_okb, field_ok. destruct s as [|a l]; [done|]. destruct (last (a :: l)) as [b|] eqn:El; [|done].
  intros [[Ha%negb_true_iff Hb%negb_true_iff]%andb_true_iff Hall]%andb_true_iff. split; [done|]. split.
  { split; [by intros ? [= <-]|]. rewrite El. by intros ? [= <-]. }
  rewrite forallb_forall in Hall.
  split_and!; intros Hin; apply list_elem_of_In, Hall in Hin; by vm_compute in Hin.
Qed.

Lemma contains_elem c s : contains s [c] = true ↔ c ∈ s.
Proof.
  rewrite contains_spec. split; [intros (l & r & ->); rewrite !elem_of_app; right; left; apply list_elem_of_here|].
  intros (l & r & ->)%list_elem_of_split. by exists l, r.
Qed.

Lemma fresh_bool c s : forallb (λ b, negb (b =? c)) s = true → c ∉ s.
Proof. rewrite forallb_forall. intros Hs Hc. apply list_elem_of_In, Hs in Hc. by rewrite Z.eqb_refl in Hc. Qed.

Definition rule_types : list string :=
  ["domain"; "domain-suffix"; "domain-keyword"; "ip-cidr"; "geoip"; "dst-port"; "match"].

Section text.
Context {U : Unicode} {H : UrlHost}.

(** What the writer makes of a type. *)
Record type_facts (t : str) : Prop := {
  tf_field : field_ok (export_type t);
  tf_known : looks_like_type (export_type t) = true;
  tf_back : normalize_type (export_type t) = t;
  tf_head : ∃ a u, export_type t = a :: u ∧ lower_byte a ≠ 115;
  tf_build : (if one_of t ["port"] then lit "dst-port" else if one_of t ["final"] then lit "match" else t) = t;
  tf_match : one_of t ["match"; "final"] = bool_decide (t = lit "match");
}.

Lemma rule_type_facts t : one_of t rule_types = true → type_facts t.
Proof.
  intros (n & Hn & ->)%one_of_spec. unfold rule_types in Hn.
  repeat (apply elem_of_cons in Hn as [->|Hn]; [split; try (by vm_compute); [by apply field_okb_sound|eexists _, _; split; [reflexivity|by vm_compute]]|]); try by apply elem_of_nil in Hn.
Qed.

(** A rule the format can carry. *)
Record exportable (r : RoutingRule) : Prop := {
  ex_type : one_of (r_type r) rule_types = true;
  ex_pattern : build_pattern (r_type r) (r_pattern r) = Ok (r_pattern r);
  ex_field : field_ok (r_pattern r);
  ex_target : normalize_target (r_target r) = Some (r_target r);
  ex_source : r_source r = [] ∨ normalize_rule_source (r_source r) = Ok (r_source r) ∧ field_ok (r_source r);
  ex_name : trimmed (r_name r) ∧ newline ∉ r_name r;
  ex_group : newline ∉ r_group r;
}.

(** The rule without what its line does not carry. *)
Definition bare (r : RoutingRule) : RoutingRule :=
  {| r_source := []; r_name := []; r_group := []; r_type := r_type r; r_pattern := r_pattern r; r_target := r_target r;
     r_enabled := true; r_priority := 0 |}.

Definition target_name : list string := ["direct"; "proxy"; "reject"].

(** A normal target is a name, a group or a node. *)
Lemma normalize_target_cases s t :
  normalize_target s = Some t →
  one_of t target_name = true ∨
  t = s ∧ ((∃ name, s = lit "group:" ++ name ∧ valid_group_name name = true) ∨ ∃ id, node_target_id s = Some id).
Proof.
  unfold normalize_target. destruct (starts_with (lit "group:") s && valid_group_name (drop 6 s)) eqn:E.
  - apply andb_true_iff in E as [(name & ->)%starts_with_spec Hv]. intros [= <-]. right. split; [done|]. left.
    by exists name.
  - case_bool_decide as Hn; [intros [= <-]; right; split; [done|]; right; destruct Hn as [id Hn]; by exists id|].
    repeat case_match; intros [= <-]; left; by vm_compute.
Qed.

Lemma node_target_spec s id :
  node_target_id s = Some id → s = lit "node:" ++ id ∧ Forall (λ c, lower_hex c = true) id ∧ id ≠ [].
Proof.
  unfold node_target_id. destruct (strip_prefix (lit "node:") s) as [i|] eqn:E; [|done]. cbn.
  destruct (utf8_len i =? 64) eqn:El; [|done]. destruct (forallb lower_hex i) eqn:Eh; [|done]. intros [= <-].
  unfold strip_prefix in E. destruct (starts_with (lit "node:") s) eqn:Es; [|done]. apply starts_with_spec in Es as (t & ->).
  rewrite drop_app_length in E. injection E as ->. split_and!; [done| |by intros ->].
  apply Forall_forall. intros c Hc. rewrite forallb_forall in Eh. by apply Eh, list_elem_of_In.
Qed.

Lemma field_of_chars pre s :
  pre ≠ [] → (∀ c, head pre = Some c → is_whitespace c = false) → s ≠ [] →
  Forall (λ c, is_whitespace c = false ∧ c ≠ comma ∧ c ≠ hash ∧ c ≠ newline) s →
  forallb (λ c, negb ((c =? comma) || (c =? hash) || (c =? newline))) pre = true → field_ok (pre ++ s).
Proof.
  intros Hpre Hh Hs Hall Hp. assert (comma ∉ pre ∧ hash ∉ pre ∧ newline ∉ pre) as (Hc & Hx & Hn).
  { rewrite forallb_forall in Hp. split_and!; intros Hin; apply list_elem_of_In, Hp in Hin; by vm_compute in Hin. } rewrite Forall_forall in Hall. split; [by destruct pre|]. split.
  { split; [by destruct pre|]. intros c. destruct (last s) as [b|] eqn:El; [|by apply last_None in El].
    rewrite last_app, El. intros [= <-]. apply last_Some in El as (l & ->). apply (Hall b). set_solver. }
  split_and!; intros [?|Hin]%elem_of_app; [done| |done| |done|]; by destruct (Hall _ Hin) as (_ & ? & ? & ?).
Qed.

Context {UP : UnicodeSpaces U}.

Lemma group_char_facts c :
  is_alphanumeric c || (c =? 45) || (c =? 95) = true → is_whitespace c = false ∧ c ≠ comma ∧ c ≠ hash ∧ c ≠ newline.
Proof.
  intros [[Hc|Hc%Z.eqb_eq]%orb_true_iff|Hc%Z.eqb_eq]%orb_true_iff; [|by subst..].
  split; [by apply alphanumeric_solid|].
  assert (∀ d, between 0 127 d = true → is_ascii_alphanumeric d = false → c ≠ d) as Hne.
  { intros d Hd Ha ->. rewrite is_alphanumeric_ascii in Hc by done. congruence. }
  split_and!; by apply Hne.
Qed.

Lemma lower_hex_facts c : lower_hex c = true → is_whitespace c = false ∧ c ≠ comma ∧ c ≠ hash ∧ c ≠ newline.
Proof.
  unfold lower_hex, is_digit, between. intros Hc. assert (48 <= c <= 57 ∨ 97 <= c <= 102) as Hr by lia. clear Hc.
  split; [|unfold comma, hash, newline; lia]. unfold is_whitespace, between. lia.
Qed.

Record target_facts (t : str) : Prop := {
  tg_field : field_ok (export_target t);
  tg_back : normalize_target (export_target t) = Some t;
  tg_flag : eq_ignore_ascii_case (export_target t) (lit "no-resolve") = false;
}.

Lemma export_target_facts t : normalize_target t = Some t → target_facts t.
Proof.
  intros Ht. destruct (normalize_target_cases t t Ht) as [Hn|[_ [(name & -> & Hv)|(id & Hid)]]].
  - apply one_of_spec in Hn as (n & Hn & ->). unfold target_name in Hn.
    repeat (apply elem_of_cons in Hn as [->|Hn]; [split; [apply field_okb_sound|..]; by vm_compute|]). by apply elem_of_nil in Hn.
  - assert (export_target (lit "group:" ++ name) = lit "group:" ++ name) as E
      by (unfold export_target; by rewrite starts_with_app).
    split; rewrite E; [|done|by apply eq_ignore_head].
    unfold valid_group_name in Hv. apply andb_true_iff in Hv as [[Hne _]%andb_true_iff Hall].
    apply field_of_chars; try (by vm_compute).
    + by intros c [= <-].
    + intros ->. done.
    + apply Forall_forall. intros c Hc. rewrite forallb_forall in Hall. by apply group_char_facts, Hall, list_elem_of_In.
  - pose proof (node_target_spec _ _ Hid) as (Et & Hall & Hne).
    assert (export_target t = t) as E by (unfold export_target; rewrite Hid; by rewrite orb_true_r).
    split; rewrite E; [|done|].
    + rewrite Et. apply field_of_chars; try (by vm_compute); [by intros c [= <-]|].
      eapply Forall_impl; [exact Hall|]. apply lower_hex_facts.
    + rewrite Et. apply bool_decide_eq_false. intros Heq. apply (f_equal (λ l, l !! 2%nat)) in Heq. by vm_compute in Heq.
Qed.

(** *** Lines *)
Lemma has_source_head a s : lower_byte a ≠ 115 → has_source (a :: s) = false.
Proof. intros Ha. unfold has_source. simpl take. by apply eq_ignore_head. Qed.

Lemma destination_line_spec r :
  exportable r →
  ∃ a s, format_rule_destination_line r = a :: s ∧ lower_byte a ≠ 115 ∧
    ∀ dt, parse_clash_line (format_rule_destination_line r) dt = Ok (bare r).
Proof.
  intros [Ht Hp Hf Htg _ _ _]. destruct (rule_type_facts _ Ht) as [T1 T2 T3 (a & u & T4 & T4') T5 T6].
  destruct (export_target_facts _ Htg) as [G1 G2 G3].
  unfold format_rule_destination_line. rewrite T6. set (typ := export_type (r_type r)) in *. set (tgt := export_target (r_target r)) in *.
  assert (build_rule (r_type r) (r_pattern r) (r_target r) = Ok (bare r)) as Hbuild.
  { unfold build_rule. rewrite Hp. obind. by rewrite T5. }
  case_bool_decide as Hm.
  - exists a, (u ++ [comma] ++ tgt). rewrite T4. split; [done|]. split; [done|]. intros dt. rewrite <- T4.
    change (typ ++ [comma] ++ tgt) with (join [comma] [typ; tgt]). unfold parse_clash_line.
    rewrite parts_of_fields by (rewrite ?Forall_cons, ?Forall_nil; done). rewrite T2. cbn [negb]. rewrite T3, T6.
    cbn [head]. simpl mbind. rewrite G2. obind. cbn [ok_or].
    assert (r_pattern r = lit "*") as Epat by (rewrite Hm in Hp; by injection Hp). rewrite Epat in Hbuild. exact Hbuild.
  - exists a, (u ++ [comma] ++ r_pattern r ++ [comma] ++ tgt). rewrite T4. split; [done|]. split; [done|]. intros dt. rewrite <- T4.
    change (typ ++ [comma] ++ r_pattern r ++ [comma] ++ tgt) with (join [comma] [typ; r_pattern r; tgt]). unfold parse_clash_line.
    rewrite parts_of_fields by (rewrite ?Forall_cons, ?Forall_nil; done). rewrite T2. cbn [negb]. rewrite T3, T6.
    rewrite G3, G2. done.
Qed.

Definition line_ok (s : str) : Prop := s ≠ [] ∧ trimmed s ∧ hash ∉ s ∧ newline ∉ s.

Lemma join_line_ok fields : Forall field_ok fields → fields ≠ [] → line_ok (join [comma] fields).
Proof.
  induction 1 as [|s fields (Hs & [Hh Hl] & Hc & Hx & Hn) Hf IH]; [done|]. intros _.
  destruct fields as [|s' fields]; [by split_and!|]. destruct IH as (I1 & [I2 I3] & I4 & I5); [done|].
  change (join [comma] (s :: s' :: fields)) with (s ++ [comma] ++ join [comma] (s' :: fields)).
  set (more := join [comma] (s' :: fields)) in *. split; [by destruct s|]. split; [split|].
  - intros c Hc'. apply Hh. by destruct s.
  - intros c. rewrite !last_app. destruct (last more) as [b|] eqn:El; [intros [= <-]; by apply I3|]. by apply last_None in El.
  - rewrite !elem_of_app, !list_elem_of_singleton. unfold comma, hash, newline in *. intuition lia.
Qed.

Definition line_fields (r : RoutingRule) : list str :=
  (if is_empty (r_source r) then [] else [lit "SOURCE"; r_source r]) ++
  (if one_of (r_type r) ["match"; "final"] then [export_type (r_type r); export_target (r_target r)]
   else [export_type (r_type r); r_pattern r; export_target (r_target r)]).

Lemma clash_line_fields r : format_rule_clash_line r = join [comma] (line_fields r).
Proof.
  unfold format_rule_clash_line, line_fields, format_rule_destination_line.
  destruct (is_empty (r_source r)), (one_of (r_type r) _); reflexivity.
Qed.

Lemma clash_line_spec r :
  exportable r →
  line_ok (format_rule_clash_line r) ∧
  ∀ dt, parse_one_line (format_rule_clash_line r) dt = Ok (with_source (r_source r) (bare r)).
Proof.
  intros Hr. pose proof Hr as [Ht Hp Hf Htg Hsrc _ _]. destruct (rule_type_facts _ Ht) as [T1 _ _ _ _ _].
  destruct (export_target_facts _ Htg) as [G1 _ _]. split.
  { rewrite clash_line_fields. apply join_line_ok; unfold line_fields.
    - apply Forall_app. split; [|destruct (one_of (r_type r) ["match"; "final"]); rewrite ?Forall_cons, ?Forall_nil; tauto].
      destruct (is_empty (r_source r)) eqn:E; [constructor|]. destruct Hsrc as [Hn|[_ Hs]]; [by apply is_empty_spec in Hn; congruence|].
      rewrite !Forall_cons, Forall_nil. split_and!; [|done|done]. by apply field_okb_sound.
    - by destruct (is_empty (r_source r)), (one_of (r_type r) ["match"; "final"]). }
  intros dt. destruct (destination_line_spec r Hr) as (a & s & E & Ha & Hparse).
  unfold format_rule_clash_line, parse_one_line. destruct (is_empty (r_source r)) eqn:Esrc.
  - apply is_empty_spec in Esrc. rewrite E, has_source_head, <- E by done. unfold parse_plain_line.
    rewrite (proj2 (contains_elem _ _)); [rewrite Hparse; by rewrite Esrc|].
    unfold format_rule_destination_line. destruct (one_of (r_type r) ["match"; "final"]); set_solver.
  - destruct Hsrc as [Hn|[Hn (Hs1 & _ & Hs2 & _)]]; [by apply is_empty_spec in Hn; congruence|].
    assert (has_source (lit "SOURCE," ++ r_source r ++ [comma] ++ format_rule_destination_line r) = true) as -> by (by vm_compute).
    change (lit "SOURCE," ++ ?x) with (lit "SOURCE" ++ comma :: x). rewrite split_once_app by (by apply fresh_bool). obind.
    cbn [option_bind]. change (r_source r ++ [comma] ++ ?x) with (r_source r ++ comma :: x). rewrite split_once_app by done. cbn [ok_or]. obind.
    rewrite E, has_source_head, <- E by done. rewrite Hparse. obind. rewrite Hn. obind. by rewrite Esrc.
Qed.

(** What the parser makes of an exported rule, in group [g]. *)
Definition imported (g : str) (r : RoutingRule) : RoutingRule :=
  {| r_source := r_source r; r_name := r_name r; r_group := g; r_type := r_type r; r_pattern := r_pattern r;
     r_target := r_target r; r_enabled := true; r_priority := 0 |}.

Definition add_parsed (r : RoutingRule) (out : BatchParseResult) : BatchParseResult :=
  {| b_rules := b_rules out ++ [r]; b_errors := b_errors out |}.

Lemma starts_with_hash_false s : hash ∉ s → starts_with [hash] s = false.
Proof.
  destruct s as [|c s]; [done|]. intros Hs. cbn [starts_with]. rewrite andb_true_r. apply Z.eqb_neq. intros <-. apply Hs, list_elem_of_here.
Qed.

Lemma one_line_id s : newline ∉ s → one_line s = s.
Proof.
  induction s as [|c s IH]; [done|]. intros [Hc Hs]%not_elem_of_cons. simpl. rewrite IH by done.
  by destruct (Z.eqb_spec c newline); [congruence|].
Qed.

Lemma batch_rule_line r dt n g out :
  exportable r → r_enabled r = true →
  parse_batch_line dt n (export_rule_line r) g out = (g, add_parsed (imported g r) out).
Proof.
  intros Hr Hen. destruct (clash_line_spec r Hr) as [(L1 & [L2 L2'] & L3 & _) Hparse].
  destruct (ex_name _ Hr) as [[N1 N2] N3]. unfold export_rule_line. rewrite Hen. cbn [negb].
  set (line := format_rule_clash_line r) in *.
  assert (∀ dt, parse_one_line line dt = Ok (with_source (r_source r) (bare r))) as Hparse' by done. clear Hparse.
  assert (∀ raw name, trimmed raw → raw ≠ [] → starts_with [hash] raw = false →
    split_line_and_name raw = (line, name) → name = r_name r →
    parse_batch_line dt n raw g out = (g, add_parsed (imported g r) out)) as Hgo.
  { intros raw name Ht Hne Hx Hs ->. unfold parse_batch_line. rewrite (trim_fixed raw) by done. rewrite (is_empty_false raw) by done.
    unfold parse_group_directive. rewrite (trim_fixed raw), Hx by done. cbn [negb]. rewrite Hs, (is_empty_false line), Hparse' by done.
    unfold add_parsed, imported. destruct (is_empty (r_name r)) eqn:En; [apply is_empty_spec in En|];
      (destruct (is_empty g) eqn:Eg; [apply is_empty_spec in Eg|]); cbn; rewrite ?En, ?Eg; reflexivity. }
  destruct (is_empty (r_name r)) eqn:En.
  - apply is_empty_spec in En. rewrite app_nil_r. apply (Hgo line []); try done; [by apply starts_with_hash_false|].
    unfold split_line_and_name. rewrite trim_fixed by done. rewrite (is_empty_false line) by done.
    rewrite starts_with_hash_false by done. cbn [orb]. by rewrite split_once_none.
  - assert (r_name r ≠ []) as Hne by (intros E; by rewrite E in En). rewrite one_line_id by done.
    assert (trimmed (line ++ lit "  # " ++ r_name r)) as Ht.
    { split; [intros c Hc; apply L2; by destruct line|]. intros c. rewrite !last_app.
      destruct (last (r_name r)) as [b|] eqn:El; [intros [= <-]; by apply N2|]. by apply last_None in El. }
    assert (starts_with [hash] (line ++ lit "  # " ++ r_name r) = false) as Hx.
    { destruct line as [|a l]; [done|]. cbn [starts_with app]. rewrite andb_true_r. apply Z.eqb_neq. intros <-. apply L3, list_elem_of_here. }
    apply (Hgo _ (r_name r)); try done; [by destruct line|].
    unfold split_line_and_name. rewrite trim_fixed by done. rewrite is_empty_false by (by destruct line). rewrite Hx. cbn [orb].
    change (lit "  # " ++ r_name r) with ([32; 32] ++ hash :: ([32] ++ r_name r)). rewrite app_assoc, split_once_app.
    + rewrite trim_blank_r by (repeat constructor). rewrite trim_blank_l by (repeat constructor).
      by rewrite !trim_fixed.
    + rewrite elem_of_app. intros [?|Hin]; [done|]. revert Hin. by apply fresh_bool.
Qed.

Lemma batch_disabled_line dt n x g out : parse_batch_line dt n (lit "# disabled: " ++ x) g out = (g, out).
Proof.
  change (lit "# disabled: " ++ x) with (lit "# disabled:" ++ (32 :: x)).
  destruct (trim_solid_prefix (lit "# disabled:") (32 :: x)) as (y & Hy).
  { split; by intros c [= <-]. } { done. }
  unfold parse_batch_line. rewrite Hy, is_empty_false by done.
  assert (trim (lit "# disabled:" ++ y) = lit "# disabled:" ++ y) as Hfix by (by rewrite <- Hy, trim_idem).
  unfold parse_group_directive. rewrite Hfix. change (starts_with [hash] _) with true. cbn [negb].
  change (trim_start_byte hash (lit "# disabled:" ++ y)) with ([32] ++ (lit "disabled:" ++ y)).
  rewrite trim_blank_l by (repeat constructor).
  destruct (trim_solid_prefix (lit "disabled:") y) as (z & ->); [split; by intros c [= <-]|done|].
  change (strip_prefix (lit "@group") (to_ascii_lowercase (lit "disabled:" ++ z))) with (@None str). cbn [option_bind mbind].
  unfold split_line_and_name. rewrite Hy, is_empty_false by done. change (starts_with [hash] (lit "# disabled:" ++ y)) with true. done.
Qed.

Lemma batch_group_line dt n name g out :
  trimmed name → parse_batch_line dt n (lit "# @group " ++ name) g out = (name, out).
Proof.
  intros Hname. unfold parse_batch_line.
  assert (∃ y, trim (lit "# @group " ++ name) = lit "# @group" ++ y ∧ trim (lit "@group" ++ y) = lit "@group" ++ y ∧ trim y = name) as (y & Hy & Hg & Ht).
  { destruct name as [|c name]; [by exists []|]. set (s := c :: name) in *. exists (32 :: s).
    assert (∀ w, trimmed (w :: s) → trim (w :: s) = w :: s) as _ by (intros; by apply trim_fixed).
    assert (∀ pre, pre ≠ [] → (∀ c, head pre = Some c → is_whitespace c = false) → trim (pre ++ s) = pre ++ s) as Hfix.
    { intros pre Hp Hh. apply trim_fixed. split; [intros d Hd; apply Hh; by destruct pre|]. intros d. rewrite last_app.
      destruct (last s) as [b|] eqn:El; [intros [= <-]; by apply Hname|]. by apply last_None in El. }
    split_and!.
    - apply (Hfix (lit "# @group ")); [done|by intros d [= <-]].
    - apply (Hfix (lit "@group ")); [done|by intros d [= <-]].
    - change (32 :: s) with ([32] ++ s). rewrite trim_blank_l by (repeat constructor). by apply trim_fixed. }
  rewrite Hy, is_empty_false by done. unfold parse_group_directive.
  rewrite <- Hy, trim_idem, Hy. change (starts_with [hash] (lit "# @group" ++ y)) with true. cbn [negb].
  change (trim_start_byte hash (lit "# @group" ++ y)) with ([32] ++ (lit "@group" ++ y)). rewrite trim_blank_l by (repeat constructor).
  rewrite Hg. change (to_ascii_lowercase (lit "@group" ++ y)) with (lit "@group" ++ to_ascii_lowercase y). rewrite strip_prefix_app. obind.
  unfold to_ascii_lowercase. cbn [option_bind]. rewrite length_app, length_map. replace (length (lit "@group") + length y - length y)%nat with (length (lit "@group")) by lia.
  by rewrite drop_app_length, Ht.
Qed.

(** *** Blocks *)
Lemma batch_line_strip_cr dt n l g out : parse_batch_line dt n (strip_cr l) g out = parse_batch_line dt n l g out.
Proof. unfold parse_batch_line, split_line_and_name. by rewrite trim_strip_cr. Qed.

Lemma batch_lines_ext ls ls' dt : ∀ n g out,
  Forall2 (λ l l', ∀ n g out, parse_batch_line dt n l g out = parse_batch_line dt n l' g out) ls ls' →
  parse_batch_lines dt n ls g out = parse_batch_lines dt n ls' g out.
Proof.
  intros n g out Hls. revert n g out. induction Hls as [|l l' ls ls' Hl _ IH]; intros n g out; [done|]. cbn [parse_batch_lines].
  rewrite Hl. by destruct (parse_batch_line dt n l' g out).
Qed.

Lemma batch_lines_trailing_empty ls dt : ∀ n g out, parse_batch_lines dt n (ls ++ [[]]) g out = parse_batch_lines dt n ls g out.
Proof.
  induction ls as [|l ls IH]; intros n g out; [done|]. cbn [app parse_batch_lines].
  by destruct (parse_batch_line dt n l g out).
Qed.

Lemma batch_lines_join ls dt n g out :
  Forall (λ l, newline ∉ l) ls →
  parse_batch_lines dt n (lines (join [newline] ls)) g out = parse_batch_lines dt n ls g out.
Proof.
  intros Hls. destruct (decide (ls = [])) as [->|Hne]; [done|]. unfold lines. rewrite split_on_join by done.
  destruct (last ls) as [l|] eqn:El; [|by apply last_None in El]. apply last_Some in El as (init & ->).
  rewrite length_app. simpl length. rewrite Nat.add_1_r. simpl Nat.pred. rewrite take_app_length. simpl default.
  assert (∀ tail n g out, parse_batch_lines dt n (map strip_cr init ++ tail) g out = parse_batch_lines dt n (init ++ tail) g out) as Hinit.
  { intros tail n' g' out'. apply batch_lines_ext, Forall2_app; [|by apply Forall_Forall2_diag, Forall_true].
    apply Forall2_fmap_l, Forall_Forall2_diag, Forall_true. intros ? ? ? ?. apply batch_line_strip_cr. }
  destruct l as [|a l].
  - rewrite app_nil_r, batch_lines_trailing_empty. pose proof (Hinit [] n g out) as Hi. by rewrite !app_nil_r in Hi.
  - apply Hinit.
Qed.

Definition rule_ok (r : RoutingRule) : Prop :=
  if r_enabled r then exportable r else newline ∉ format_rule_clash_line r ∧ newline ∉ r_group r.

Definition bucket_out (rs : list RoutingRule) (b : RuleGroupView) : list RoutingRule :=
  omap (λ i, r ← rs !! i; if r_enabled r then Some (imported (v_name b) r) else None) (v_indices b).

Lemma batch_lines_rules rs dt g is_ : ∀ n more out,
  Forall rule_ok rs →
  ∃ n', parse_batch_lines dt n (omap (λ i, export_rule_line <$> rs !! i) is_ ++ more) g out =
    parse_batch_lines dt n' more g {| b_rules := b_rules out ++ bucket_out rs {| v_name := g; v_indices := is_ |}; b_errors := b_errors out |}.
Proof.
  unfold bucket_out. simpl. induction is_ as [|i is_ IH]; intros n more out Hrs.
  { exists n. simpl. rewrite app_nil_r. by destruct out. }
  simpl. destruct (rs !! i) as [r|] eqn:E; simpl; [|by apply IH].
  assert (rule_ok r) as Hr by (eapply Forall_lookup_1; done). unfold rule_ok in Hr. destruct (r_enabled r) eqn:Een; cbn.
  - rewrite batch_rule_line by done. destruct (IH (S n) more (add_parsed (imported g r) out) Hrs) as (n' & E'). exists n'.
    etrans; [exact E'|]. unfold add_parsed. simpl. by rewrite <- app_assoc.
  - unfold export_rule_line. rewrite Een. cbn [negb]. rewrite batch_disabled_line. by apply IH.
Qed.

Lemma batch_lines_buckets rs dt bs : ∀ n g out,
  Forall rule_ok rs → Forall (λ b, trimmed (v_name b)) bs →
  parse_batch_lines dt n (flat_map (export_bucket rs) bs) g out =
    {| b_rules := b_rules out ++ flat_map (bucket_out rs) bs; b_errors := b_errors out |}.
Proof.
  induction bs as [|b bs IH]; intros n g out Hrs Hbs; [simpl; rewrite app_nil_r; by destruct out|].
  apply Forall_cons in Hbs as [Hb Hbs]. cbn [flat_map]. unfold export_bucket at 1. cbn [app parse_batch_lines].
  rewrite batch_group_line by done. cbn beta iota.
  destruct (batch_lines_rules rs dt (v_name b) (v_indices b) (S n) (flat_map (export_bucket rs) bs) out Hrs) as (n' & E').
  etrans; [exact E'|]. rewrite IH by done. simpl. rewrite <- app_assoc. by destruct b.
Qed.

Lemma export_line_newline r : rule_ok r → newline ∉ export_rule_line r.
Proof.
  intros Hr. unfold export_rule_line.
  assert (newline ∉ (if is_empty (r_name r) then [] else lit "  # " ++ one_line (r_name r))) as Hsuffix.
  { destruct (is_empty (r_name r)); [apply not_elem_of_nil|]. rewrite elem_of_app. intros [Hin|Hin]; [revert Hin; by apply fresh_bool|].
    unfold one_line in Hin. apply list_elem_of_fmap in Hin as (c & Hc & _). destruct (Z.eqb_spec c newline); unfold newline in *; lia. }
  assert (newline ∉ format_rule_clash_line r) as Hline.
  { unfold rule_ok in Hr. destruct (r_enabled r); [|by destruct Hr]. by destruct (clash_line_spec r Hr) as [(_ & _ & _ & ?) _]. }
  destruct (negb (r_enabled r)); rewrite ?elem_of_app; [|tauto]. intros [Hin|Hin]; [revert Hin; by apply fresh_bool|tauto].
Qed.

(** *** Groups *)
Fixpoint members_from (g : str) (i : nat) (rs : list RoutingRule) : list nat :=
  match rs with
  | [] => []
  | r :: rs => (if bool_decide (trim (r_group r) = g) then [i] else []) ++ members_from g (S i) rs
  end.

(** The indices of a bucket. *)
Fixpoint bucket (g : str) (bs : list RuleGroupView) : list nat :=
  match bs with [] => [] | b :: bs => if bool_decide (v_name b = g) then v_indices b else bucket g bs end.

Lemma add_to_bucket_spec h i bs :
  NoDup (map v_name bs) →
  NoDup (map v_name (add_to_bucket h i bs)) ∧
  (∀ x, x ∈ map v_name (add_to_bucket h i bs) → x = h ∨ x ∈ map v_name bs) ∧
  ∀ g, bucket g (add_to_bucket h i bs) = bucket g bs ++ (if bool_decide (h = g) then [i] else []).
Proof.
  induction bs as [|b bs IH]; simpl; intros Hnd.
  { split; [apply NoDup_singleton|]. split; [intros x; rewrite list_elem_of_singleton; auto|]. intros g. by case_bool_decide. }
  apply NoDup_cons in Hnd as [Hb Hnd]. destruct (IH Hnd) as (I1 & I2 & I3). destruct (decide (v_name b = h)) as [<-|Hne];
    [rewrite bool_decide_eq_true_2 by done|rewrite bool_decide_eq_false_2 by done]; simpl.
  - split; [by apply NoDup_cons|]. split; [auto|]. intros g. case_bool_decide; [done|by rewrite app_nil_r].
  - split; [apply NoDup_cons; split; [|done]; intros [?|?]%I2; congruence|]. split.
    + intros x [->|Hx]%elem_of_cons; [right; by left|]. destruct (I2 x Hx); [by left|right; by right].
    + intros g. rewrite I3. destruct (bool_decide_reflect (v_name b = g)) as [<-|]; [|done].
      rewrite bool_decide_eq_false_2 by done. by rewrite app_nil_r.
Qed.

Lemma bucket_rules_spec (Q : str → Prop) rs : ∀ i named ung named' ung',
  Forall (λ r, trim (r_group r) ≠ [] → Q (trim (r_group r))) rs →
  bucket_rules i rs named ung = (named', ung') →
  NoDup (map v_name named) → (∀ x, x ∈ map v_name named → Q x) →
  NoDup (map v_name named') ∧ (∀ x, x ∈ map v_name named' → Q x) ∧
  ung' = ung ++ members_from [] i rs ∧ ∀ g, g ≠ [] → bucket g named' = bucket g named ++ members_from g i rs.
Proof.
  induction rs as [|r rs IH]; intros i named ung named' ung'; cbn [bucket_rules members_from].
  { intros _ [= <- <-] ? ?. rewrite app_nil_r. split_and!; try done. intros g _. by rewrite app_nil_r. }
  intros [Hr Hrs]%Forall_cons. destruct (is_empty (trim (r_group r))) eqn:E; intros Hb Hnd Hne.
  - apply is_empty_spec in E. destruct (IH _ _ _ _ _ Hrs Hb Hnd Hne) as (I1 & I2 & I3 & I4). split_and!; [done|done| |].
    + rewrite I3, <- app_assoc. by rewrite bool_decide_eq_true_2.
    + intros g Hg. rewrite I4 by done. rewrite bool_decide_eq_false_2 by congruence. done.
  - assert (trim (r_group r) ≠ []) as Ht by (intros E'; by rewrite E' in E).
    destruct (add_to_bucket_spec (trim (r_group r)) i named Hnd) as (A1 & A2 & A3).
    destruct (IH _ _ _ _ _ Hrs Hb A1) as (I1 & I2 & I3 & I4).
    { intros x [->|Hx]%A2; [by apply Hr|by apply Hne]. }
    split_and!; [done|done|rewrite I3, bool_decide_eq_false_2 by done; done|].
    intros g Hg. rewrite I4, A3, <- app_assoc by done. done.
Qed.

Lemma bucket_app g bs bs' : g ∉ map v_name bs → bucket g (bs ++ bs') = bucket g bs'.
Proof.
  induction bs as [|b bs IH]; simpl; [done|]. intros [Hb Hbs]%not_elem_of_cons. rewrite bool_decide_eq_false_2 by done. by apply IH.
Qed.

Lemma bucket_app_l g bs bs' : g ∉ map v_name bs' → bucket g (bs ++ bs') = bucket g bs.
Proof.
  intros Hg. induction bs as [|b bs IH]; simpl; [|by rewrite IH].
  induction bs' as [|b bs' IH]; simpl in *; [done|]. apply not_elem_of_cons in Hg as [Hb Hg].
  rewrite bool_decide_eq_false_2 by done. by apply IH.
Qed.

Lemma display_spec rs :
  NoDup (map v_name (group_rules_for_display rs)) ∧
  Forall (λ b, trimmed (v_name b) ∧ (Forall (λ r, newline ∉ r_group r) rs → newline ∉ v_name b)) (group_rules_for_display rs) ∧
  ∀ g, bucket g (group_rules_for_display rs) = members_from g 0 rs.
Proof.
  unfold group_rules_for_display. destruct (bucket_rules 0 rs [] []) as [named ung] eqn:E.
  destruct (bucket_rules_spec (λ x, x ≠ [] ∧ trimmed x ∧ (Forall (λ r, newline ∉ r_group r) rs → newline ∉ x)) rs 0 [] [] named ung)
    as (I1 & I2 & I3 & I4); [|done|constructor|by intros x ?%elem_of_nil|].
  { apply Forall_forall. intros r Hr Hne. split; [done|]. split; [apply trim_is_trimmed|]. intros Hall Hin.
    rewrite Forall_forall in Hall. by apply (Hall r Hr), trim_elem. }
  simpl in I3. assert ([] ∉ map v_name named) as Hnil by (intros Hin; by destruct (I2 _ Hin)).
  assert (Forall (λ b, trimmed (v_name b) ∧ (Forall (λ r, newline ∉ r_group r) rs → newline ∉ v_name b)) named) as Htr.
  { apply Forall_forall. intros b Hb. by apply (I2 (v_name b)), list_elem_of_fmap_2. }
  destruct ung as [|j ung].
  - split_and!; [done|done|]. intros g. destruct (decide (g = [])) as [->|Hg]; [|by apply I4].
    rewrite <- I3. rewrite <- (app_nil_r named). by apply bucket_app.
  - split_and!.
    + rewrite map_app. apply NoDup_app. split; [done|]. split; [|apply NoDup_singleton].
      intros x Hx. simpl. rewrite list_elem_of_singleton. by intros ->.
    + apply Forall_app. split; [done|]. constructor; [|constructor]. split; [by split|intros _; apply not_elem_of_nil].
    + intros g. destruct (decide (g = [])) as [->|Hg].
      * rewrite bucket_app by done. simpl. by rewrite I3.
      * rewrite bucket_app_l; [by apply I4|]. simpl. by rewrite list_elem_of_singleton.
Qed.

Lemma bucket_out_group rs b r : r ∈ bucket_out rs b → r_group r = v_name b.
Proof.
  unfold bucket_out. intros (i & _ & Hi)%list_elem_of_omap. destruct (rs !! i) as [x|]; simpl in Hi; [|done].
  destruct (r_enabled x); [|done]. by injection Hi as <-.
Qed.

(** The parsed rules of a group are those of its bucket. *)
Lemma filter_buckets rs g bs :
  NoDup (map v_name bs) →
  List.filter (λ r, bool_decide (r_group r = g)) (flat_map (bucket_out rs) bs) =
    bucket_out rs {| v_name := g; v_indices := bucket g bs |}.
Proof.
  induction bs as [|b bs IH]; simpl; intros Hnd; [done|]. apply NoDup_cons in Hnd as [Hb Hnd].
  rewrite List.filter_app, IH by done. destruct (bool_decide_reflect (v_name b = g)) as [<-|Hne].
  - assert (bucket (v_name b) bs = []) as ->.
    { pose proof (bucket_app _ bs [] Hb) as Hbk. by rewrite app_nil_r in Hbk. }
    rewrite (List.filter_ext_in _ (λ _, true)).
    + replace (List.filter (λ _, true) _) with (bucket_out rs b); [by rewrite app_nil_r; destruct b|].
      generalize (bucket_out rs b). intros l. induction l as [|r l IHl]; simpl; [done|by f_equal].
    + intros r Hr. apply bool_decide_eq_true. apply list_elem_of_In in Hr. by apply bucket_out_group in Hr.
  - rewrite (List.filter_ext_in _ (λ _, false)).
    + replace (List.filter (λ _, false) (bucket_out rs b)) with (@nil RoutingRule); [done|]. by induction (bucket_out rs b).
    + intros r Hr. apply bool_decide_eq_false. apply list_elem_of_In, bucket_out_group in Hr. congruence.
Qed.

Lemma bucket_out_members rs g : ∀ pre suf, rs = pre ++ suf →
  bucket_out rs {| v_name := g; v_indices := members_from g (length pre) suf |} =
    map (imported g) (List.filter (λ r, r_enabled r && bool_decide (trim (r_group r) = g)) suf).
Proof.
  intros pre suf. revert pre. induction suf as [|r suf IH]; intros pre Hrs; [done|]. cbn [members_from List.filter].
  specialize (IH (pre ++ [r])). rewrite length_app in IH. simpl in IH. rewrite Nat.add_1_r in IH.
  unfold bucket_out in *. simpl in *. rewrite omap_app, IH by (by rewrite <- app_assoc).
  case_bool_decide as Hg; simpl; [|by rewrite andb_false_r]. rewrite andb_true_r.
  assert (rs !! length pre = Some r) as -> by (rewrite Hrs; by apply list_lookup_middle). simpl. by destruct (r_enabled r).
Qed.

(** C23. What the export writes, the parser reads. The text of any rules, enabled ones
    in the normal form the parser itself produces, disabled ones on one line, reads
    back without an error, whatever the default target: group by group, the enabled
    rules of the list in their order, with their clients, names, matchers and targets,
    their group trimmed and their priority reset. *)
Theorem rules_export_roundtrip rs dt :
  Forall rule_ok rs →
  b_errors (parse_batch_rules (format_rules_export rs) dt) = [] ∧
  ∀ g, List.filter (λ r, bool_decide (r_group r = g)) (b_rules (parse_batch_rules (format_rules_export rs) dt)) =
    map (imported g) (List.filter (λ r, r_enabled r && bool_decide (trim (r_group r) = g)) rs).
Proof.
  intros Hrs. destruct (display_spec rs) as (D1 & D2 & D3).
  assert (b_rules (parse_batch_rules (format_rules_export rs) dt) = flat_map (bucket_out rs) (group_rules_for_display rs)
    ∧ b_errors (parse_batch_rules (format_rules_export rs) dt) = []) as [-> ->].
  { unfold parse_batch_rules, parse_batch_rules_in_group, format_rules_export. rewrite batch_lines_join.
    - unfold export_lines. cbn [parse_batch_lines]. set (d := default _ _).
      change (parse_batch_line d 1 _ _ ?o) with (trim [], o).
      cbn beta iota. match goal with |- context [parse_batch_line d 2 ?l ?g ?o] =>
        change (parse_batch_line d 2 l g o) with (lit "Name switches group; trailing # is rule name", o) end.
      cbn beta iota. rewrite batch_lines_buckets; [done|done|]. eapply Forall_impl; [exact D2|]. by intros b [? _].
    - unfold export_lines. rewrite !Forall_cons. split; [by apply fresh_bool|]. split; [by apply fresh_bool|].
      apply Forall_flat_map. apply Forall_forall. intros b Hb. constructor.
      + rewrite elem_of_app. intros [Hin|Hin]; [revert Hin; by apply fresh_bool|].
        rewrite Forall_forall in D2. destruct (D2 b Hb) as [_ Hn]. apply Hn; [|done].
        eapply Forall_impl; [exact Hrs|]. intros r Hr. unfold rule_ok in Hr. destruct (r_enabled r); [by apply ex_group|by destruct Hr].
      + apply Forall_forall. intros l (i & _ & Hi)%list_elem_of_omap. destruct (rs !! i) as [r|] eqn:Er; [|done].
        injection Hi as <-. apply export_line_newline. by eapply Forall_lookup_1. }
  split; [done|]. intros g. rewrite filter_buckets, D3 by done. by apply (bucket_out_members rs g [] rs).
Qed.
End text.

(** ** A concrete list *)
#[local] Existing Instance ascii_unicode.
#[local] Instance no_hosts : UrlHost := {| host_domain := λ _, None |}.
#[local] Instance ascii_spaces : UnicodeSpaces ascii_unicode.
Proof.
  split. intros c. change (is_alphanumeric c) with (is_ascii_alphanumeric c).
  unfold is_ascii_alphanumeric, is_ascii_alphabetic, is_digit, is_whitespace, between. lia.
Qed.

Definition written_rule (source name group typ pattern target : string) (enabled : bool) : RoutingRule :=
  {| r_source := lit source; r_name := lit name; r_group := lit group; r_type := lit typ; r_pattern := lit pattern;
     r_target := lit target; r_enabled := enabled; r_priority := 7 |}.

(** Two groups, one of them written with a space, and a disabled rule. *)
Lemma rules_export_roundtrip_witness :
  let a := written_rule "" "Home" " x " "domain" "a.example" "direct" true in
  let b := written_rule "" "" "y" "domain-keyword" "b" "group:home" true in
  let c := written_rule "" "" "x" "ip-cidr" "10.0.0.0/8" "reject" true in
  let d := written_rule "" "" "x" "domain" "d.example" "proxy" false in
  let back := parse_batch_rules (format_rules_export [a; b; c; d]) (lit "proxy") in
  b_errors back = [] ∧
  List.filter (λ r, bool_decide (r_group r = lit "x")) (b_rules back) = [imported (lit "x") a; imported (lit "x") c].
Proof.
  intros a b c d back. assert (Forall rule_ok [a; b; c; d]) as Hrs.
  { repeat constructor; try (by vm_compute); try (by apply field_okb_sound); try (by left); try (by apply fresh_bool);
      try (intros x; vm_compute; congruence). }
  destruct (rules_export_roundtrip [a; b; c; d] (lit "proxy") Hrs) as [H1 H2]. split; [exact H1|].
  etransitivity; [apply (H2 (lit "x"))|]. by vm_compute.
Defined.

(** * What the parser accepts *)
(** ** ASCII text *)
Lemma is_ascii_forall s : is_ascii s = true ↔ Forall (λ c, 0 <= c <= 127) s.
Proof.
  unfold is_ascii. rewrite forallb_forall, Forall_forall. unfold between.
  split; intros Hs c Hc; [apply list_elem_of_In, Hs in Hc; lia|apply list_elem_of_In, Hs in Hc; lia].
Qed.

(** Characters a field may have. *)
Definition inside (c : Z) : Prop := c ≠ comma ∧ c ≠ hash ∧ c ≠ newline.

Lemma field_intro s : s ≠ [] → trimmed s → Forall inside s → field_ok s.
Proof.
  intros Hne Ht Hs. rewrite Forall_forall in Hs. split; [done|]. split; [done|].
  split_and!; intros Hin; by destruct (Hs _ Hin) as (? & ? & ?).
Qed.

(** The text of a token: what the lines of a list are cut into. *)
Record token (p : str) : Prop := {
  tk_trimmed : trimmed p;
  tk_ascii : is_ascii p = true;
  tk_inside : Forall inside p;
}.

Lemma lower_inside c : inside c → inside (lower_byte c).
Proof.
  unfold inside, comma, hash, newline. intros (H1 & H2 & H3). destruct (lower_byte_cases c) as [->|[? ->]]; [done|lia].
Qed.

Lemma lower_ascii c : 0 <= c <= 127 → 0 <= lower_byte c <= 127.
Proof. destruct (lower_byte_cases c) as [->|[? ->]]; lia. Qed.

Lemma lower_space c : is_whitespace (lower_byte c) = is_whitespace c.
Proof. destruct (lower_byte_cases c) as [->|[Hc ->]]; [done|]. unfold is_whitespace, between. lia. Qed.

Lemma upper_byte_cases c : upper_byte c = c ∨ 97 <= c <= 122 ∧ upper_byte c = c - 32.
Proof. unfold upper_byte, between. destruct (Z.leb_spec 97 c), (Z.leb_spec c 122); simpl; lia. Qed.

Lemma letter_solid c : is_ascii_alphabetic c = true → is_whitespace c = false ∧ inside c.
Proof. unfold is_ascii_alphabetic, is_whitespace, inside, between, comma, hash, newline. lia. Qed.

Lemma upper_letter c : is_ascii_alphabetic c = true → is_ascii_alphabetic (upper_byte c) = true ∧ upper_byte (upper_byte c) = upper_byte c.
Proof.
  intros Hc. destruct (upper_byte_cases c) as [E|[Hr E]]; rewrite E; [done|].
  unfold is_ascii_alphabetic, upper_byte, between. split; [lia|]. destruct (Z.leb_spec 97 (c - 32)), (Z.leb_spec (c - 32) 122); simpl; lia.
Qed.

Lemma utf8_len_ascii s : is_ascii s = true → utf8_len s = len s.
Proof.
  intros Hs%is_ascii_forall. unfold utf8_len, len. induction Hs as [|c s Hc _ IH]; [done|]. simpl. rewrite IH.
  destruct (Z.ltb_spec c 128); lia.
Qed.

Lemma trim_start_dot s : trim_start_byte dot s = drop_while (Z.eqb dot) s.
Proof.
  induction s as [|b s IH]; [done|]. cbn [trim_start_byte drop_while]. rewrite (Z.eqb_sym b dot).
  destruct (dot =? b); [exact IH|done].
Qed.

Lemma map_lower_drop_dots s : map lower_byte (trim_start_byte dot s) = trim_start_byte dot (map lower_byte s).
Proof.
  induction s as [|b s IH]; [done|]. cbn [trim_start_byte map]. rewrite (lower_byte_punct b dot) by (by left).
  destruct (b =? dot); [exact IH|done].
Qed.

Lemma map_lower_idem s : map lower_byte (map lower_byte s) = map lower_byte s.
Proof. apply to_ascii_lowercase_idem. Qed.

Lemma drop_dots_idem s : trim_start_byte dot (trim_start_byte dot s) = trim_start_byte dot s.
Proof. rewrite !trim_start_dot. apply drop_while_stop. by destruct (drop_while_split (Z.eqb dot) s) as (? & _ & _ & ?). Qed.

(** The end of a text whose start is dropped. *)
Lemma drop_dots_last s : trim_start_byte dot s ≠ [] → last (trim_start_byte dot s) = last s.
Proof.
  rewrite trim_start_dot. destruct (drop_while_split (Z.eqb dot) s) as (pre & E & _). set (t := drop_while _ s) in *.
  intros Hne. rewrite E, last_app. destruct (last t) eqn:El; [done|]. by apply last_None in El.
Qed.

Lemma domain_char_facts c : domain_char c = true ∨ c = dot → is_whitespace c = false ∧ inside c.
Proof.
  unfold domain_char, is_ascii_alphanumeric, is_ascii_alphabetic, is_digit, is_whitespace, inside, between, dash, dot, comma, hash, newline.
  lia.
Qed.

Section valid.
Context {U : Unicode} {H : UrlHost}.

Lemma to_lowercase_map s : is_ascii s = true → to_lowercase s = map lower_byte s.
Proof. apply to_lowercase_ascii. Qed.

Lemma looks_domain_facts s :
  looks_like_domain s = true →
  let d := trim_start_byte dot (trim s) in
  d ≠ [] ∧ Forall (λ c, domain_char c = true ∨ c = dot) d ∧ last d ≠ Some dot.
Proof.
  unfold looks_like_domain. cbv zeta. set (d := trim_start_byte dot (trim s)).
  destruct (is_empty d) eqn:Ee; [done|]. destruct (253 <? utf8_len d); [done|]. cbn [orb].
  destruct (starts_with [dash] d || ends_with d [dash] || starts_with [dot] d || ends_with d [dot]) eqn:E; [done|].
  apply orb_false_iff in E as [_ Hend]. intros Hd. split; [intros Hnil; by rewrite Hnil in Ee|]. split.
  - apply Forall_forall. intros c Hc. apply list_elem_of_In in Hc. destruct (negb (contains d [dot])).
    + rewrite forallb_forall in Hd. left. by apply Hd.
    + apply andb_true_iff in Hd as [Hd _]. rewrite forallb_forall in Hd. apply Hd, orb_true_iff in Hc as [?|?%Z.eqb_eq]; auto.
  - intros (l & Hl)%last_Some. assert (ends_with d [dot] = true); [|congruence]. apply ends_with_spec. by exists l.
Qed.

(** The cases of [build_pattern]. *)
Lemma build_match p : build_pattern (lit "match") p = Ok (lit "*").
Proof. reflexivity. Qed.
Lemma build_geoip p : build_pattern (lit "geoip") p =
  if (utf8_len (trim p) =? 2) && forallb is_ascii_alphabetic (trim p) then Ok (to_uppercase (trim p)) else Err "Invalid GeoIP code".
Proof. reflexivity. Qed.
Lemma build_cidr p : build_pattern (lit "ip-cidr") p = normalize_cidr p.
Proof. reflexivity. Qed.
Lemma build_keyword p : build_pattern (lit "domain-keyword") p =
  let s := to_lowercase (trim p) in
  if is_empty s || existsb is_whitespace s then Err "Keyword must be non-empty without spaces" else Ok s.
Proof. reflexivity. Qed.
Lemma build_port p : build_pattern (lit "dst-port") p =
  if valid_port_pattern (trim p) then Ok (trim p) else Err "Invalid port".
Proof. reflexivity. Qed.

Definition is_domain (typ : str) : Prop := typ = lit "domain" ∨ typ = lit "domain-suffix".

Lemma build_domain typ p : is_domain typ → is_ascii p = true → trimmed p →
  build_pattern typ p =
    let s := trim_start_byte dot (map lower_byte p) in if looks_like_domain s then Ok s else Err "Invalid domain".
Proof.
  intros Ht Ha Hp. assert (build_pattern typ p =
    (let s := to_lowercase (trim_start_byte dot (trim p)) in
     s ← (if is_ascii s then Ok s else ok_or (host_domain s) "Invalid domain");
     if looks_like_domain s then Ok s else Err "Invalid domain")) as -> by (by destruct Ht as [->| ->]).
  rewrite trim_fixed by done. assert (is_ascii (trim_start_byte dot p) = true) as Ha'.
  { apply is_ascii_forall in Ha. apply is_ascii_forall. rewrite trim_start_dot.
    destruct (drop_while_split (Z.eqb dot) p) as (pre & E & _). rewrite E in Ha. by apply Forall_app in Ha as [_ ?]. }
  rewrite to_lowercase_map by done. cbv zeta. rewrite map_lower_drop_dots.
  assert (is_ascii (trim_start_byte dot (map lower_byte p)) = true) as ->; [|done].
  rewrite <- map_lower_drop_dots. apply is_ascii_forall, Forall_map. apply is_ascii_forall in Ha'.
  eapply Forall_impl; [exact Ha'|]. apply lower_ascii.
Qed.

Lemma is_domain_cidr : is_domain (lit "ip-cidr") → False.
Proof. by intros [?|?]. Qed.

(** A pattern that is read again as itself, or a domain with white space in front. *)
Definition settled (typ q : str) : Prop :=
  (is_domain typ ∧ existsb is_whitespace q = true) ∨ (build_pattern typ q = Ok q ∧ field_ok q).

Lemma settled_domain typ p q :
  is_domain typ → token p → build_pattern typ p = Ok q → settled typ q ∧ looks_like_domain q = true.
Proof.
  intros Ht [[Hp1 Hp2] Ha Hin]. rewrite build_domain by done. cbv zeta. set (s := trim_start_byte dot (map lower_byte p)).
  destruct (looks_like_domain s) eqn:Hd; [|done]. intros [= <-]. split; [|done].
  destruct (existsb is_whitespace s) eqn:Ews; [by left|]. right.
  assert (solid s) as Hsolid.
  { unfold solid. apply Forall_forall. intros c Hc. destruct (is_whitespace c) eqn:Ec; [|done].
    assert (existsb is_whitespace s = true); [|congruence]. apply existsb_exists. exists c. split; [by apply list_elem_of_In|done]. }
  pose proof (looks_domain_facts s Hd) as Hf. cbv zeta in Hf. rewrite (trim_fixed s) in Hf by (by apply solid_trimmed).
  assert (trim_start_byte dot s = s) as Hs by apply drop_dots_idem. rewrite Hs in Hf. destruct Hf as (Hne & Hchars & _).
  assert (Forall (λ c, 0 <= c <= 127) s) as Hascii.
  { unfold s. rewrite <- map_lower_drop_dots. apply Forall_map. apply is_ascii_forall in Ha. rewrite trim_start_dot.
    destruct (drop_while_split (Z.eqb dot) p) as (pre & E & _). rewrite E in Ha. apply Forall_app in Ha as [_ Ha].
    eapply Forall_impl; [exact Ha|]. apply lower_ascii. }
  split.
  - rewrite build_domain; [|done|by apply is_ascii_forall|by apply solid_trimmed]. cbv zeta.
    assert (trim_start_byte dot (map lower_byte s) = s) as ->; [|by rewrite Hd].
    rewrite <- map_lower_drop_dots, Hs. unfold s. rewrite <- map_lower_drop_dots. apply map_lower_idem.
  - apply field_intro; [done|by apply solid_trimmed|]. eapply Forall_impl; [exact Hchars|]. intros c Hc. by apply domain_char_facts.
Qed.

Lemma settled_geoip p q : token p → build_pattern (lit "geoip") p = Ok q → settled (lit "geoip") q.
Proof.
  intros [Ht Ha _]. rewrite build_geoip, trim_fixed by done.
  destruct (utf8_len p =? 2) eqn:El; [|done]. destruct (forallb is_ascii_alphabetic p) eqn:Eall; [|done]. intros [= <-]. right.
  rewrite to_uppercase_ascii by done. rewrite forallb_forall in Eall. rewrite utf8_len_ascii in El by done. apply Z.eqb_eq in El.
  assert (∀ c, c ∈ to_ascii_uppercase p → is_ascii_alphabetic c = true ∧ upper_byte c = c) as Hup.
  { intros c (b & -> & Hb)%list_elem_of_fmap. by apply upper_letter, Eall, list_elem_of_In. }
  assert (Forall (λ c, is_whitespace c = false ∧ inside c) (to_ascii_uppercase p)) as Hs.
  { apply Forall_forall. intros c Hc. by apply letter_solid, Hup. }
  assert (trimmed (to_ascii_uppercase p)) as Ht' by (apply solid_trimmed; eapply Forall_impl; [exact Hs|]; by intros c [? _]).
  assert (is_ascii (to_ascii_uppercase p) = true) as Ha'.
  { apply is_ascii_forall, Forall_forall. intros c [Hc _]%Hup. unfold is_ascii_alphabetic, between in Hc. lia. }
  split.
  - rewrite build_geoip, trim_fixed by done. rewrite utf8_len_ascii by done. unfold len, to_ascii_uppercase in *. rewrite length_map, El. cbn [Z.eqb andb].
    assert (forallb is_ascii_alphabetic (map upper_byte p) = true) as ->.
    { apply forallb_forall. intros c Hc. by apply Hup, list_elem_of_In. }
    simpl. f_equal. rewrite to_uppercase_ascii by done. unfold to_ascii_uppercase.
    rewrite <- (List.map_id (map upper_byte p)) at 2. apply map_ext_in. intros c Hc. by apply Hup, list_elem_of_In.
  - apply field_intro; [destruct p; [by vm_compute in El|done]|done|]. eapply Forall_impl; [exact Hs|]. by intros c [_ ?].
Qed.

Lemma normalize_cidr_spec p q :
  normalize_cidr p = Ok q →
  ∃ addr n ip rest, p = addr ++ slash :: rest ∧ q = addr ++ [slash] ++ show_uint n ∧ slash ∉ addr ∧
    parse_ip addr = Some ip ∧ 0 <= n <= (if is_ipv4 ip then 32 else 128).
Proof.
  unfold normalize_cidr. intros E. destruct (split_once slash p) as [[addr prefix]|] eqn:Es; [|done].
  cbn [ok_or] in E. revert E. obind. destruct (parse_ip addr) as [ip|] eqn:Ei; [|done]. cbn [ok_or]. obind.
  destruct (parse_uint 255 prefix) as [n|] eqn:En; [|done]. cbn [ok_or]. obind.
  destruct (Z.ltb_spec (if is_ipv4 ip then 32 else 128) n); [done|]. intros [= <-].
  apply split_once_split in Es as [-> Hs]. pose proof (parse_uint_range 255 prefix n ltac:(lia) En) as Hr. exists addr, n, ip, prefix. split_and!; try done; lia.
Qed.

Lemma normalize_cidr_again addr n ip :
  slash ∉ addr → parse_ip addr = Some ip → 0 <= n <= (if is_ipv4 ip then 32 else 128) →
  normalize_cidr (addr ++ [slash] ++ show_uint n) = Ok (addr ++ [slash] ++ show_uint n).
Proof.
  intros Hs Hi Hn. unfold normalize_cidr. change ([slash] ++ ?x) with (slash :: x). rewrite split_once_app by done. cbn [ok_or]. obind.
  rewrite Hi. cbn [ok_or]. obind. rewrite parse_show_uint by (destruct (is_ipv4 ip); lia). cbn [ok_or]. obind.
  destruct (Z.ltb_spec (if is_ipv4 ip then 32 else 128) n); [lia|done].
Qed.

Lemma trimmed_prefix a b : trimmed (a ++ b) → a ≠ [] → ∀ c, head a = Some c → is_whitespace c = false.
Proof. intros [Hh _] Ha c Hc. apply Hh. by destruct a. Qed.

Lemma trimmed_join a b : trimmed a → solid b → b ≠ [] → trimmed (a ++ b).
Proof.
  intros Ha Hb Hne. pose proof (solid_trimmed b Hb) as [B1 B2]. split; intros c.
  - destruct a as [|x a]; [apply B1|]. simpl. intros [= <-]. by apply (proj1 Ha).
  - rewrite last_app. destruct (last b) as [y|] eqn:El; [intros [= <-]; by apply B2|]. by apply last_None in El.
Qed.

Lemma show_uint_inside n : 0 <= n <= 128 → show_uint n ≠ [] ∧ solid (show_uint n) ∧ Forall inside (show_uint n).
Proof.
  intros Hn. destruct (show_uint_digits n) as [Hd Hne].
  { split; [lia|]. apply Z.le_lt_trans with 128; [lia|by vm_compute]. } split; [done|]. split.
  - unfold solid. eapply Forall_impl; [exact Hd|]. apply digit_solid.
  - eapply Forall_impl; [exact Hd|]. intros c. unfold is_digit, between, inside, comma, hash, newline. lia.
Qed.

(** A network keeps its address and has its length written again. *)
Lemma settled_cidr p q : trimmed p → Forall inside p → build_pattern (lit "ip-cidr") p = Ok q → settled (lit "ip-cidr") q.
Proof.
  intros Ht Hin. rewrite build_cidr. intros (addr & n & ip & rest & -> & -> & Hs & Hi & Hn)%normalize_cidr_spec. right.
  split; [rewrite build_cidr; by eapply normalize_cidr_again|].
  assert (0 <= n <= 128) as Hn' by (destruct (is_ipv4 ip); lia). destruct (show_uint_inside n Hn') as (N1 & N2 & N3).
  assert (addr ≠ []) as Ha by (intros ->; by vm_compute in Hi).
  assert (solid ([slash] ++ show_uint n)) as Hsol by (unfold solid; by apply Forall_cons).
  apply field_intro; [by destruct addr| |].
  - split; intros c.
    + intros Hc. eapply (trimmed_prefix addr); [exact Ht|done|]. by destruct addr.
    + rewrite last_app. destruct (last ([slash] ++ show_uint n)) as [y|] eqn:El; [|by apply last_None in El].
      intros [= <-]. by apply (solid_trimmed _ Hsol).
  - apply Forall_app in Hin as [Hin _]. apply Forall_app. split; [done|]. by constructor; [|done].
Qed.

Lemma settled_keyword p q : token p → build_pattern (lit "domain-keyword") p = Ok q → settled (lit "domain-keyword") q.
Proof.
  intros [Ht Ha Hin]. rewrite build_keyword, trim_fixed, to_lowercase_map by done. cbv zeta.
  destruct (is_empty (map lower_byte p) || _) eqn:E; [done|]. intros [= <-]. right.
  pose proof E as [Ee Ew]%orb_false_iff. assert (trimmed (map lower_byte p)) as Ht'.
  { apply solid_trimmed, Forall_forall. intros c Hc. destruct (is_whitespace c) eqn:Ec; [|done].
    assert (existsb is_whitespace (map lower_byte p) = true); [|congruence]. apply existsb_exists. exists c. by rewrite <- list_elem_of_In. }
  assert (is_ascii (map lower_byte p) = true) as Ha'.
  { apply is_ascii_forall, Forall_map. apply is_ascii_forall in Ha. eapply Forall_impl; [exact Ha|]. apply lower_ascii. }
  split.
  - rewrite build_keyword, trim_fixed, to_lowercase_map by done. cbv zeta. by rewrite map_lower_idem, E.
  - apply field_intro; [intros Hn; by rewrite Hn in Ee|done|]. apply Forall_map. eapply Forall_impl; [exact Hin|]. apply lower_inside.
Qed.

Lemma settled_port p q : token p → build_pattern (lit "dst-port") p = Ok q → settled (lit "dst-port") q.
Proof.
  intros [Ht Ha Hin]. rewrite build_port, trim_fixed by done. destruct (valid_port_pattern p) eqn:E; [|done]. intros [= <-]. right.
  split; [by rewrite build_port, trim_fixed, E|]. apply field_intro; [by intros ->|done|done].
Qed.

Lemma settled_build typ p q :
  one_of typ rule_types = true → token p → build_pattern typ p = Ok q → settled typ q.
Proof.
  intros (n & Hn & ->)%one_of_spec Hp. unfold rule_types in Hn.
  apply elem_of_cons in Hn as [->|Hn]; [intros Hq; by eapply settled_domain; [left|..]|].
  apply elem_of_cons in Hn as [->|Hn]; [intros Hq; by eapply settled_domain; [right|..]|].
  apply elem_of_cons in Hn as [->|Hn]; [by apply settled_keyword|].
  apply elem_of_cons in Hn as [->|Hn]; [destruct Hp; by apply settled_cidr|].
  apply elem_of_cons in Hn as [->|Hn]; [by apply settled_geoip|].
  apply elem_of_cons in Hn as [->|Hn]; [by apply settled_port|].
  apply list_elem_of_singleton in Hn as ->. rewrite build_match. intros [= <-]. right. split; [done|by apply field_okb_sound].
Qed.

(** ** From lines to tokens *)
Definition clean (s : str) : Prop := Forall (λ c, 0 <= c <= 127 ∧ c ≠ hash ∧ c ≠ newline) s.

Lemma clean_sub s t : clean s → (∀ c, c ∈ t → c ∈ s) → clean t.
Proof. unfold clean. rewrite !Forall_forall. auto. Qed.

Lemma clean_token s : clean s → comma ∉ s → trimmed s → token s.
Proof.
  unfold clean. rewrite Forall_forall. intros Hs Hc Ht. split; [done| |].
  - apply is_ascii_forall, Forall_forall. intros c. by intros [? _]%Hs.
  - apply Forall_forall. intros c Hin. destruct (Hs c Hin) as (_ & ? & ?). split_and!; [by intros ->|done|done].
Qed.

Lemma trim_token s : clean s → comma ∉ s → token (trim s).
Proof.
  intros Hs Hc. apply clean_token; [|by intros ?%trim_elem|apply trim_is_trimmed]. eapply clean_sub; [done|]. apply trim_elem.
Qed.

Lemma split_by_chars p s : Forall (Forall (λ c, c ∈ s ∧ p c = false)) (split_by p s).
Proof.
  assert (∀ t l, Forall (Forall (λ c, c ∈ t ∧ p c = false)) l → ∀ b, Forall (Forall (λ c, c ∈ b :: t ∧ p c = false)) l) as Hmore.
  { intros t l Hl b. eapply Forall_impl; [exact Hl|]. intros w Hw. eapply Forall_impl; [exact Hw|]. intros c [? ?]. split; [by right|done]. }
  induction s as [|b s IH]; simpl; [by repeat constructor|]. pose proof (Hmore s _ IH b) as IH'.
  destruct (p b) eqn:Eb; [by constructor|]. assert (b ∈ b :: s) as Hb by apply list_elem_of_here.
  destruct (split_by p s) as [|w ws]; [by repeat constructor|]. apply Forall_cons in IH' as [Hw Hws].
  constructor; [by constructor|done].
Qed.

Lemma parts_token line : clean line → Forall token (parts_of (Z.eqb comma) line).
Proof.
  intros Hl. unfold parts_of. apply Forall_forall. intros w Hw. apply list_elem_of_In, List.filter_In in Hw as [Hw _].
  apply in_map_iff in Hw as (x & <- & Hx%list_elem_of_In). pose proof (split_by_chars (Z.eqb comma) line) as Hc.
  rewrite Forall_forall in Hc. specialize (Hc x Hx). rewrite Forall_forall in Hc. apply trim_token.
  - eapply clean_sub; [exact Hl|]. by intros c [? _]%Hc.
  - intros [_ E]%Hc. by rewrite Z.eqb_refl in E.
Qed.

Lemma words_chars fuel s : Forall (λ w, solid w ∧ ∀ c, c ∈ w → c ∈ s) (words fuel s).
Proof.
  revert s. induction fuel as [|fuel IH]; intros s; [constructor|]. cbn [words].
  destruct (drop_while_split is_whitespace s) as (pre & E & _ & _). destruct (drop_while is_whitespace s) as [|a t] eqn:Et; [constructor|].
  rewrite <- Et in *. clear a t Et. set (t := drop_while is_whitespace s) in *. cbv zeta. set (w := take_while _ t).
  assert (solid w ∧ ∃ more, t = w ++ more) as [Hw [more Hm]].
  { subst w. clear. induction t as [|c t [IH1 [more IH2]]]; simpl; [split; [constructor|by exists []]|].
    destruct (is_whitespace c) eqn:Ec; simpl; [split; [constructor|by eexists]|]. split; [by constructor|]. exists more. by f_equal. }
  constructor.
  - split; [done|]. intros c Hc. rewrite E, Hm, !elem_of_app. auto.
  - eapply Forall_impl; [apply IH|]. intros x [Hx Hc]. split; [done|]. intros c Hin. apply Hc in Hin.
    rewrite E, elem_of_app. right. rewrite <- (take_drop (length w) t), elem_of_app. by right.
Qed.

Lemma words_token line : clean line → comma ∉ line → Forall token (split_whitespace line).
Proof.
  intros Hl Hc. eapply Forall_impl; [apply words_chars|]. intros w [Hs Hw].
  apply clean_token; [by eapply clean_sub|by intros ?%Hw|by apply solid_trimmed].
Qed.

(** ** What a line gives *)
Record parsed (r : RoutingRule) : Prop := {
  pa_type : one_of (r_type r) rule_types = true;
  pa_pattern : settled (r_type r) (r_pattern r);
  pa_target : normalize_target (r_target r) = Some (r_target r);
}.

Lemma normalize_type_known s : one_of (normalize_type s) rule_types = true.
Proof. unfold normalize_type. repeat case_match; reflexivity. Qed.

Lemma normalize_target_normal s t : normalize_target s = Some t → normalize_target t = Some t.
Proof.
  intros Hs. destruct (normalize_target_cases s t Hs) as [Hn|[-> _]]; [|done].
  apply one_of_spec in Hn as (n & Hn & ->). unfold target_name in Hn.
  repeat (apply elem_of_cons in Hn as [->|Hn]; [reflexivity|]). by apply elem_of_nil in Hn.
Qed.

Definition normal (t : str) : Prop := normalize_target t = Some t.

Lemma default_normal o : normal (default (lit "proxy") (normalize_target o)).
Proof. destruct (normalize_target o) as [t|] eqn:E; [by eapply normalize_target_normal|reflexivity]. Qed.


Lemma build_rule_parsed typ p t r :
  (∀ q, build_pattern typ p = Ok q → settled typ q) → one_of typ rule_types = true → normal t →
  build_rule typ p t = Ok r → parsed r.
Proof.
  intros Hset Ht Hn. unfold build_rule. destruct (build_pattern typ p) as [q| | |] eqn:E; try done. obind. rewrite (tf_build _ (rule_type_facts _ Ht)).
  intros <-%Ok_inj. split; [done|by apply Hset|done].
Qed.

Lemma token_rule_parsed raw p t r : token p → normal t → build_rule (normalize_type raw) p t = Ok r → parsed r.
Proof.
  intros Hp Hn. apply build_rule_parsed; [|apply normalize_type_known|done]. intros q.
  apply settled_build; [apply normalize_type_known|done].
Qed.

Lemma clash_line_parsed line dt r : clean line → normal dt → parse_clash_line line dt = Ok r → parsed r.
Proof.
  intros Hl Hn. unfold parse_clash_line. pose proof (parts_token line Hl) as Hp.
  destruct (parts_of (Z.eqb comma) line) as [|w args]; [done|]. destruct (negb (looks_like_type w)); [done|].
  apply Forall_cons in Hp as [_ Hp]. cbv zeta. destruct (one_of (normalize_type w) ["match"; "final"]).
  - destruct (head args ≫= normalize_target) as [t|] eqn:Et; [|done]. cbn [ok_or]. obind. apply token_rule_parsed.
    + by apply clean_token; [repeat constructor|apply fresh_bool|split; intros c [= <-]].
    + destruct (head args) as [a|]; [|done]. by eapply normalize_target_normal.
  - destruct args as [|p more]; [done|]. apply Forall_cons in Hp as [Hp _]. apply token_rule_parsed; [done|].
    destruct more as [|action more]; [done|]. destruct (eq_ignore_ascii_case action _); [done|apply default_normal].
Qed.

Lemma typed_left_parsed line t r : clean line → comma ∉ line → normal t → parse_typed_left line t = Ok r → parsed r.
Proof.
  intros Hl Hc Hn. unfold parse_typed_left. pose proof (words_token line Hl Hc) as Hw.
  assert (token (lit "*")) as Hstar by (by apply clean_token; [repeat constructor|apply fresh_bool|split; intros c [= <-]]).
  set (by_words := match split_whitespace line with [] => _ | _ => _ end).
  assert (by_words = Ok r → parsed r) as Hwords.
  { subst by_words. destruct (split_whitespace line) as [|w [|w' ws]]; [done|..].
    - destruct (looks_like_type w); [by apply token_rule_parsed|done].
    - apply Forall_cons in Hw as [_ [Hw _]%Forall_cons]. destruct (looks_like_type w); [by apply token_rule_parsed|done]. }
  destruct (split_once colon line) as [[typ pat]|] eqn:Es; [|done]. destruct (looks_like_type typ); [|done].
  apply token_rule_parsed; [|done]. apply split_once_split in Es as [-> _]. apply trim_token.
  - eapply clean_sub; [exact Hl|]. intros c Hin. rewrite elem_of_app. right. by right.
  - intros Hin. apply Hc. rewrite elem_of_app. right. by right.
Qed.

Lemma build_suffix p : build_pattern (lit "domain-suffix") p =
  (let s := to_lowercase (trim_start_byte dot (trim p)) in
   s ← (if is_ascii s then Ok s else ok_or (host_domain s) "Invalid domain");
   if looks_like_domain s then Ok s else Err "Invalid domain").
Proof. reflexivity. Qed.

Lemma build_suffix_trim p : build_pattern (lit "domain-suffix") p = build_pattern (lit "domain-suffix") (trim p).
Proof. by rewrite !build_suffix, trim_idem. Qed.

Lemma lower_dots_clean v : clean v → comma ∉ v → clean (map lower_byte (trim_start_byte dot v)) ∧ comma ∉ map lower_byte (trim_start_byte dot v).
Proof.
  intros Hv Hc. assert (∀ c, c ∈ trim_start_byte dot v → c ∈ v) as Hsub.
  { rewrite trim_start_dot. destruct (drop_while_split (Z.eqb dot) v) as (pre & E & _). intros c Hin. rewrite E, elem_of_app. by right. }
  assert (∀ c, c ∈ trim_start_byte dot v → (0 <= c <= 127 ∧ c ≠ hash ∧ c ≠ newline) ∧ c ≠ comma) as Hall.
  { intros c Hin%Hsub. unfold clean in Hv. rewrite Forall_forall in Hv. split; [by apply Hv|by intros ->]. }
  split.
  - apply Forall_map, Forall_forall. intros c Hin. destruct (Hall c Hin) as [(H1 & H2 & H3) H4].
    destruct (lower_inside c ltac:(by split_and!)) as (? & ? & ?). split_and!; try done; by apply lower_ascii.
  - intros (c & E & Hin)%list_elem_of_fmap. destruct (Hall c Hin) as [(H1 & H2 & H3) H4].
    destruct (lower_inside c ltac:(by split_and!)) as (? & ? & ?). congruence.
Qed.

Lemma auto_detect_parsed line t r : clean line → comma ∉ line → normal t → auto_detect line t = Ok r → parsed r.
Proof.
  intros Hl Hc Hn. unfold auto_detect. pose proof (trim_token line Hl Hc) as Hv. cbv zeta.
  assert (clean (trim line) ∧ comma ∉ trim line) as [Hvc Hvm].
  { split; [|by intros ?%trim_elem]. eapply clean_sub; [done|]. apply trim_elem. }
  set (v := trim line) in *. destruct (looks_like_cidr v).
  { destruct (normalize_cidr v) as [q| | |] eqn:E; try done. obind. apply build_rule_parsed; [|done|done].
    intros q' Hq'. rewrite <- build_cidr in E. pose proof Hv as [Ht _ Hin].
    destruct (settled_cidr v q Ht Hin E) as [[[]%is_domain_cidr _]|[E2 _]]. rewrite E2 in Hq'. injection Hq' as <-.
    by apply (settled_cidr v). }
  destruct (looks_like_ipv4 v) eqn:E4.
  { apply build_rule_parsed; [|done|done]. intros q. pose proof Hv as [Ht _ Hin]. apply settled_cidr.
    - apply trimmed_join; [done|repeat constructor|done].
    - apply Forall_app. split; [done|by repeat constructor]. }
  destruct (looks_like_domain v); [|done]. apply build_rule_parsed; [|done|done]. intros q Hq.
  rewrite to_lowercase_map in Hq.
  - destruct (lower_dots_clean v Hvc Hvm). rewrite build_suffix_trim in Hq.
    eapply settled_domain; [by right|by apply trim_token|done].
  - apply is_ascii_forall. destruct Hv as [_ Ha%is_ascii_forall _]. rewrite trim_start_dot.
    destruct (drop_while_split (Z.eqb dot) v) as (pre & E & _). rewrite E in Ha. by apply Forall_app in Ha as [_ ?].
Qed.

Lemma split_once2_split a b s l r : split_once2 a b s = Some (l, r) → s = l ++ a :: b :: r.
Proof.
  revert l. induction s as [|x s IH]; intros l; [done|]. cbn [split_once2]. destruct s as [|y t]; [done|].
  destruct ((x =? a) && (y =? b)) eqn:E.
  - apply andb_true_iff in E as [->%Z.eqb_eq ->%Z.eqb_eq]. by intros [= <- <-].
  - destruct (split_once2 a b (y :: t)) as [[l' r']|]; [|done]. intros [= <- <-]. by rewrite (IH l').
Qed.

Lemma plain_line_parsed line dt r : clean line → normal dt → parse_plain_line line dt = Ok r → parsed r.
Proof.
  intros Hl Hn. unfold parse_plain_line. destruct (contains line [comma]) eqn:Ec; [by apply clash_line_parsed|].
  assert (comma ∉ line) as Hc by (intros Hin%contains_elem; congruence).
  destruct (split_once2 dash 62 line) as [[lhs rhs]|] eqn:Es.
  { apply split_once2_split in Es as ->. destruct (normalize_target (trim rhs)) as [t|] eqn:Et; [|done]. cbn [ok_or]. obind.
    apply typed_left_parsed.
    - eapply clean_sub; [exact Hl|]. intros c Hin%trim_elem. rewrite elem_of_app. by left.
    - intros Hin%trim_elem. apply Hc. rewrite elem_of_app. by left.
    - by eapply normalize_target_normal. }
  set (colon_form := match split_once colon line with Some _ => _ | None => _ end).
  assert (colon_form = Ok r → parsed r) as Hcolon.
  { subst colon_form. destruct (split_once colon line) as [[typ pat]|] eqn:E; [|by apply auto_detect_parsed].
    destruct (looks_like_type typ); [|by apply auto_detect_parsed]. apply token_rule_parsed; [|done].
    apply split_once_split in E as [-> _]. apply trim_token.
    - eapply clean_sub; [exact Hl|]. intros c Hin. rewrite elem_of_app. right. by right.
    - intros Hin. apply Hc. rewrite elem_of_app. right. by right. }
  cbv zeta. pose proof (words_token line Hl Hc) as Hw. destruct (split_whitespace line) as [|typ [|p more]]; [done..|].
  apply Forall_cons in Hw as [_ [Hp _]%Forall_cons]. destruct (looks_like_type typ); [|done]. destruct more as [|action more].
  - obind. by apply token_rule_parsed.
  - destruct (normalize_target action) as [t|] eqn:Et; [|done]. cbn [ok_or]. obind. apply token_rule_parsed; [done|].
    by eapply normalize_target_normal.
Qed.

Lemma one_line_parsed line dt r :
  clean line → normal dt → parse_one_line line dt = Ok r → r_source r = [] → parsed r.
Proof.
  intros Hl Hn. unfold parse_one_line. destruct (has_source line); [|intros E _; by eapply plain_line_parsed].
  match goal with |- context [ok_or ?o _] => destruct o as [[scope rest]|]; [|done] end. cbn [ok_or]. obind. destruct (has_source rest); [done|].
  destruct (parse_clash_line rest dt); try done. obind. destruct (normalize_rule_source scope) as [src| | |]; try done. obind.
  destruct (is_empty src) eqn:E; [done|]. intros <-%Ok_inj. cbn. intros ->. done.
Qed.

(** ** Blocks *)
Definition ascii_line (s : str) : Prop := Forall (λ c, 0 <= c <= 127 ∧ c ≠ newline) s.

Lemma split_line_clean raw : ascii_line raw → clean (split_line_and_name raw).1.
Proof.
  intros Hr. unfold split_line_and_name. destruct (is_empty (trim raw) || starts_with [hash] (trim raw)); [constructor|].
  assert (∀ t, (∀ c, c ∈ t → c ∈ trim raw ∧ c ≠ hash) → clean t) as Hgo.
  { intros t Ht. apply Forall_forall. intros c [Hc%trim_elem Hx]%Ht. unfold ascii_line in Hr. rewrite Forall_forall in Hr.
    destruct (Hr c Hc) as [[? ?] ?]. by split_and!. }
  destruct (split_once hash (trim raw)) as [[body name]|] eqn:E; cbn [fst]; apply Hgo; intros c Hc.
  - apply split_once_split in E as [-> Hx]. apply trim_elem in Hc. split; [rewrite elem_of_app; by left|]. by intros ->.
  - split; [done|]. intros ->. revert E. clear -Hc. induction (trim raw) as [|b t IH]; [by apply elem_of_nil in Hc|].
    cbn [split_once]. destruct (Z.eqb_spec b hash); [done|]. apply elem_of_cons in Hc as [Hc|Hc]; [congruence|].
    intros E. apply IH; [done|]. by destruct (split_once hash t) as [[? ?]|].
Qed.

(** The rules for every client are in normal form. *)
Definition out_parsed (out : BatchParseResult) : Prop := Forall (λ r, r_source r = [] → parsed r) (b_rules out).

Lemma parsed_with name group r : parsed r → parsed (with_group group r) ∧ parsed (with_name name r).
Proof. intros [H1 H2 H3]. split; by constructor. Qed.

Lemma batch_line_parsed dt n raw g out :
  ascii_line raw → normal dt → out_parsed out → out_parsed (parse_batch_line dt n raw g out).2.
Proof.
  intros Hr Hn Hout. unfold parse_batch_line. destruct (is_empty (trim raw)); [done|].
  destruct (parse_group_directive (trim raw)); [done|]. pose proof (split_line_clean raw Hr) as Hc.
  destruct (split_line_and_name raw) as [line name]. cbn [fst] in Hc. destruct (is_empty line); [done|].
  destruct (parse_one_line line dt) as [r| | |] eqn:E; try done. apply Forall_app. split; [done|]. constructor; [|done].
  pose proof (one_line_parsed line dt r Hc Hn E) as Hp. destruct (is_empty name); cbn; case_match; cbn; try done;
    intros Hs%Hp; repeat apply parsed_with; done.
Qed.

Lemma batch_lines_parsed dt ls : ∀ n g out,
  Forall ascii_line ls → normal dt → out_parsed out → out_parsed (parse_batch_lines dt n ls g out).
Proof.
  induction ls as [|raw ls IH]; intros n g out Hls Hn Hout; [done|]. apply Forall_cons in Hls as [Hr Hls]. cbn [parse_batch_lines].
  pose proof (batch_line_parsed dt n raw g out Hr Hn Hout) as H1. destruct (parse_batch_line dt n raw g out) as [g' out'].
  by apply IH.
Qed.

Lemma strip_cr_elem l c : c ∈ strip_cr l → c ∈ l.
Proof.
  unfold strip_cr. destruct (last l) as [z|]; [|done]. repeat (case_match; try done).
  intros Hc. rewrite <- (take_drop (Nat.pred (length l)) l), elem_of_app. by left.
Qed.

Lemma lines_ascii s : is_ascii s = true → Forall ascii_line (lines s).
Proof.
  intros Ha%is_ascii_forall. assert (Forall ascii_line (split_on newline s)) as Hs.
  { rewrite <- split_by_eqb. eapply Forall_impl; [apply split_by_chars|]. intros w Hw. eapply Forall_impl; [exact Hw|].
    intros c [Hc Hx]. rewrite Forall_forall in Ha. split; [by apply Ha|]. intros ->. by rewrite Z.eqb_refl in Hx. }
  unfold lines. apply Forall_app. split.
  - apply Forall_map. apply Forall_take. eapply Forall_impl; [exact Hs|]. intros l Hl. unfold ascii_line in *.
    rewrite Forall_forall in *. intros c Hc. by apply Hl, strip_cr_elem.
  - destruct (last (split_on newline s)) as [l|] eqn:El; [|constructor]. apply last_Some in El as (pre & E).
    rewrite E in Hs. apply Forall_app in Hs as [_ [Hl _]%Forall_cons]. cbn [default from_option]. destruct l; [constructor|by constructor].
Qed.

(** ** Writing the accepted rules again *)
Context {UP : UnicodeSpaces U}.

Lemma bare_exportable r : parsed r → solid (r_pattern r) → exportable (bare r).
Proof.
  intros [Ht [[Hd Hs]|[Hp Hf]] Hn] Hsol.
  - apply existsb_exists in Hs as (c & Hc%list_elem_of_In & Hs). unfold solid in Hsol. rewrite Forall_forall in Hsol.
    by rewrite Hsol in Hs.
  - split; cbn; try done; [by left|by split; [split|apply not_elem_of_nil]|apply not_elem_of_nil].
Qed.

Lemma bare_line r : r_source r = [] → export_rule_line (bare r) = format_rule_clash_line r.
Proof.
  intros Hs. unfold export_rule_line. cbn [bare r_enabled negb r_name is_empty len length]. cbn [Z.of_nat Z.eqb].
  rewrite app_nil_r. unfold format_rule_clash_line. by rewrite Hs.
Qed.

Lemma batch_lines_bare dt rs : ∀ n g out,
  Forall (λ r, exportable (bare r) ∧ r_source r = []) rs →
  parse_batch_lines dt n (map format_rule_clash_line rs) g out =
    {| b_rules := b_rules out ++ map (λ r, imported g (bare r)) rs; b_errors := b_errors out |}.
Proof.
  induction rs as [|r rs IH]; intros n g out Hrs; cbn [map parse_batch_lines]; [rewrite app_nil_r; by destruct out|].
  apply Forall_cons in Hrs as [[Hr Hs] Hrs]. rewrite <- bare_line, batch_rule_line by done. rewrite IH by done.
  unfold add_parsed. cbn. by rewrite <- app_assoc.
Qed.

(** A global destination rule has no source. *)
Lemma global_source r : is_global_destination r = true → r_source r = [].
Proof. unfold is_global_destination. intros [[H1 _]%andb_true_iff _]%andb_true_iff. by apply is_empty_spec. Qed.

Lemma ensure_then {A} (b : bool) e (k : unit → outcome A) x : (ensure b e ≫= k) = Ok x → b = true ∧ k tt = Ok x.
Proof. by destruct b. Qed.

(** A previewed list is what its import makes of it. When the preview of a
    downloaded ASCII text accepts it, the canonical text it returns reads back without
    an error with any default target and into any group: every rule of the download
    keeps its type, pattern and target and lands in that group, whatever groups and
    names the download wrote, it is enabled, it applies to every client and none is a
    match-all; the count shown is their number, between one and 4096, and the text
    keeps to 256 KiB. *)
Theorem preview_spec text target group p target' group' :
  preview_rule_list text target group = Ok p →
  let text := trim_start_byte 65279 text in
  let rules := b_rules (parse_batch_rules_in_group text target group) in
  is_ascii text = true → Forall (λ r, solid (r_pattern r)) rules →
  parse_batch_rules_in_group (p_text p) target' group' =
    {| b_rules := map (λ r, imported (trim group') (bare r)) rules; b_errors := [] |} ∧
  p_count p = length rules ∧ (0 < p_count p <= MAX_RULE_LIST_RULES)%nat ∧
  utf8_len (p_text p) <= MAX_RULE_LIST_BYTES ∧ Forall (λ r, is_global_destination r = true) rules.
Proof.
  unfold preview_rule_list. intros [_ E]%ensure_then. cbv zeta in E |- *. set (t := trim_start_byte 65279 text) in *.
  apply ensure_then in E as [_ E]. destruct (b_errors _); [|done]. apply ensure_then in E as [Hne E].
  apply ensure_then in E as [Hmax E]. apply ensure_then in E as [Hg E]. apply ensure_then in E as [Hlen <-%Ok_inj].
  cbn [p_text p_count]. intros Ha Hsol. apply Nat.leb_le in Hmax. apply Z.leb_le in Hlen.
  set (rs := b_rules (parse_batch_rules_in_group t target group)) in *.
  assert (Forall (λ r, is_global_destination r = true) rs) as Hglob.
  { rewrite forallb_forall in Hg. apply Forall_forall. intros r Hr. by apply Hg, list_elem_of_In. }
  assert (Forall (λ r, exportable (bare r) ∧ r_source r = []) rs) as Hrs.
  { pose proof (batch_lines_parsed _ (lines t) 1 (trim group) {| b_rules := []; b_errors := [] |} (lines_ascii t Ha)
      (default_normal target) ltac:(constructor)) as Hp.
    unfold out_parsed in Hp. change (b_rules _) with rs in Hp. rewrite Forall_forall in Hp, Hglob, Hsol. apply Forall_forall. intros r Hr.
    pose proof (global_source r (Hglob r Hr)) as Hs. split; [|done]. apply bare_exportable; [by apply Hp|by apply Hsol]. }
  split; [|split_and!; try done].
  - unfold parse_batch_rules_in_group. rewrite batch_lines_join; [by rewrite batch_lines_bare|].
    apply Forall_map. eapply Forall_impl; [exact Hrs|]. intros r [Hr Hs]. rewrite <- bare_line by done. apply export_line_newline.
    unfold rule_ok. by cbn [bare r_enabled].
  - destruct rs; [done|simpl; lia].
Qed.
End valid.

(** ** A concrete download *)
#[local] Existing Instances ascii_unicode RulesText.no_hosts RulesText.ascii_spaces.

(** Three rules, with a group of the download's own. *)
Lemma preview_spec_witness :
  let text := lit "a.example" ++ [10] ++ lit "# @group Other" ++ [13; 10] ++ lit "IP-CIDR, 10.0.0.0/08,DIRECT" ++ [10]
              ++ lit "port:80-90 -> reject # Web" in
  ∃ p, preview_rule_list text (lit "proxy") (lit "Mine") = Ok p ∧ p_count p = 3%nat ∧
    map r_group (b_rules (parse_batch_rules_in_group (p_text p) (lit "direct") (lit " Yours "))) =
      [lit "Yours"; lit "Yours"; lit "Yours"].
Proof.
  intros text. destruct (preview_rule_list text (lit "proxy") (lit "Mine")) as [p|e| |] eqn:E; [|by vm_compute in E..].
  exists p. split; [done|].
  destruct (preview_spec text (lit "proxy") (lit "Mine") p (lit "direct") (lit " Yours ") E) as (H1 & H2 & _).
  - by vm_compute.
  - vm_compute. repeat constructor.
  - split; [by rewrite H2|]. rewrite H1. by vm_compute.
Defined.
