(* ===== verification/Groups.v ===== *)
(** * Runtime groups (proxy/groups.rs)

    Groups of nodes as outbounds: a fixed member, the first member that answers, or
    the fastest.  Many requests share a group; the steps are the accesses to its
    atomics and locks and the awaits, and they interleave freely.  A dial, its
    deadlines and cancellation are events: whether a configured member answers is the
    network's choice.  [configured] tells for which nodes the factory makes an outbound
    (a [OnceLock] keeps its answer), and [USIZE] is the range of a usize counter. *)
From S2P Require Import Prelude RuleMode.

#[local] Open Scope Z_scope.

Inductive GroupKind := KSelect | KFallback | KUrlTest.
#[export] Instance group_kind_eq_dec : EqDecision GroupKind.
Proof. solve_decision. Defined.

Definition GROUP_PROBE_CONCURRENCY : nat := 4.
Definition GLOBAL_PROBE_CONCURRENCY : nat := 16.

(** Members are positions in the list of nodes; [selection] names the request that
    holds the lock; instants are in nanoseconds. *)
Record GroupOutbound := {
  members : list nat;
  kind : GroupKind;
  preferred : nat;
  use_saved : bool;
  sticky_until : option Z;
  selection : option nat;
  generation : Z;
  next_probe : Z;
}.

Definition with_preferred (index : nat) (g : GroupOutbound) : GroupOutbound :=
  {| members := members g; kind := kind g; preferred := index; use_saved := use_saved g; sticky_until := sticky_until g;
     selection := selection g; generation := generation g; next_probe := next_probe g |}.
Definition with_use_saved (b : bool) (g : GroupOutbound) : GroupOutbound :=
  {| members := members g; kind := kind g; preferred := preferred g; use_saved := b; sticky_until := sticky_until g;
     selection := selection g; generation := generation g; next_probe := next_probe g |}.
Definition with_sticky (until : Z) (g : GroupOutbound) : GroupOutbound :=
  {| members := members g; kind := kind g; preferred := preferred g; use_saved := use_saved g; sticky_until := Some until;
     selection := selection g; generation := generation g; next_probe := next_probe g |}.
Definition with_selection (owner : option nat) (g : GroupOutbound) : GroupOutbound :=
  {| members := members g; kind := kind g; preferred := preferred g; use_saved := use_saved g; sticky_until := sticky_until g;
     selection := owner; generation := generation g; next_probe := next_probe g |}.
Definition with_generation (n : Z) (g : GroupOutbound) : GroupOutbound :=
  {| members := members g; kind := kind g; preferred := preferred g; use_saved := use_saved g; sticky_until := sticky_until g;
     selection := selection g; generation := n; next_probe := next_probe g |}.
Definition with_next_probe (n : Z) (g : GroupOutbound) : GroupOutbound :=
  {| members := members g; kind := kind g; preferred := preferred g; use_saved := use_saved g; sticky_until := sticky_until g;
     selection := selection g; generation := generation g; next_probe := n |}.

(** A task of a scan: the order it was launched in, its member, and whether it waits
    for a permit, connects, or is ready to be joined. *)
Inductive Stage := Queued | Connecting | Finished (ok : bool).
#[export] Instance stage_eq_dec : EqDecision Stage.
Proof. solve_decision. Defined.
Record Probe := { pr_number : nat; pr_index : nat; pr_stage : Stage }.

(** Where [sticky_index] was called. *)
Inductive Caller := FirstTry (gen : Z) | SecondTry (gen : Z) | FallbackStart.

(** Where the pick is remembered: in the loop of a fallback group or behind a scan. *)
Inductive Rememberer := AfterAttempt | AfterScan.

(** How far a request is. *)
Inductive Pc :=
  | Begin
  | StickyLock (from : Caller)
  | StickySwap (from : Caller)
  | StickyLoad (from : Caller)
  | DialSticky (gen : Z) (index : nat)
  | AwaitSelection (gen : Z)
  | Recheck (gen : Z)
  | DialPicked (index : nat)
  | Scan (launched : nat) (tasks : list Probe)
  | Attempt (start offset : nat)
  | StorePreferred (by_ : Rememberer) (index : nat)
  | StoreSticky (by_ : Rememberer) (index : nat)
  | BumpGeneration (by_ : Rememberer) (index : nat)
  | Connected (index : nat)
  | PickFailed (index : nat)
  | Unavailable
  | Abandoned.

(** A request to a group, with the members it dialled and the nodes its traffic was
    credited to ([traffic::note_node]). *)
Record Request := { r_group : list Z; r_pc : Pc; r_tried : list nat; r_noted : list nat }.

Record World := {
  groups : gmap (list Z) GroupOutbound;
  requests : gmap nat Request;
  permits : gset (nat * nat);
  now : Z;
}.

Inductive Event :=
  | Arrive (rid : nat) (name : list Z)
  | Step (rid : nat)
  | Reply (rid : nat) (ok : bool)
  | Launch (rid : nat)
  | Acquire (rid number : nat)
  | ProbeEnds (rid number : nat) (ok : bool)
  | Join (rid number : nat)
  | Deadline (rid : nat)
  | TaskDropped (rid number : nat)
  | Tick (elapsed : Z).

Section groups.
Context (USIZE : Z) (configured : nat → bool).

Definition len_ (g : GroupOutbound) : nat := length (members g).

(** What the caller of [sticky_index] does with its answer. *)
Definition resume (from : Caller) (index : option nat) (g : GroupOutbound) (r : Request) : GroupOutbound * Request :=
  let goto pc tried := {| r_group := r_group r; r_pc := pc; r_tried := r_tried r ++ tried; r_noted := r_noted r |} in
  match from, index with
  | FirstTry gen, Some i => (g, goto (DialSticky gen i) [i])
  | FirstTry gen, None => (g, goto (AwaitSelection gen) [])
  | SecondTry _, Some i => (with_selection None g, goto (DialPicked i) [i])
  | SecondTry _, None => (g, goto (Scan 0 []) [])
  | FallbackStart, _ => let start := default O index in (g, goto (Attempt start 0) [(start mod len_ g)%nat])
  end.

Definition at_pc (pc : Pc) (r : Request) : Request :=
  {| r_group := r_group r; r_pc := pc; r_tried := r_tried r; r_noted := r_noted r |}.
Definition dialling (pc : Pc) (index : nat) (r : Request) : Request :=
  {| r_group := r_group r; r_pc := pc; r_tried := r_tried r ++ [index]; r_noted := r_noted r |}.
Definition note (pc : Pc) (g : GroupOutbound) (index : nat) (r : Request) : Request :=
  {| r_group := r_group r; r_pc := pc; r_tried := r_tried r;
     r_noted := r_noted r ++ match members g !! index with Some node => [node] | None => [] end |}.

(** A step of the request itself: between awaits, or taking the selection lock. *)
Definition step_request (time : Z) (rid : nat) (g : GroupOutbound) (r : Request) : option (GroupOutbound * Request) :=
  match r_pc r with
  | Begin =>
      if (len_ g =? 0)%nat then Some (g, at_pc Unavailable r)
      else match kind g with
           | KUrlTest => Some (g, at_pc (StickyLock (FirstTry (generation g))) r)
           | KFallback => Some (g, at_pc (StickyLock FallbackStart) r)
           | KSelect => Some (g, dialling (Attempt 0 0) 0 r)
           end
  | StickyLock from =>
      if (match sticky_until g with Some until => time <? until | None => false end)
      then Some (g, at_pc (StickyLoad from) r) else Some (g, at_pc (StickySwap from) r)
  | StickySwap from =>
      let g' := with_use_saved false g in
      if use_saved g then Some (g', at_pc (StickyLoad from) r) else Some (resume from None g' r)
  | StickyLoad from => Some (resume from (Some (preferred g mod len_ g)%nat) g r)
  | AwaitSelection gen =>
      match selection g with
      | None => Some (with_selection (Some rid) g, at_pc (Recheck gen) r)
      | Some _ => None
      end
  | Recheck gen =>
      if negb (generation g =? gen) then Some (g, at_pc (StickyLock (SecondTry gen)) r)
      else Some (g, at_pc (Scan 0 []) r)
  | Scan launched [] =>
      if (launched <? len_ g)%nat then None else Some (with_selection None g, at_pc Unavailable r)
  | StorePreferred b i => Some (with_preferred i g, at_pc (StoreSticky b i) r)
  | StoreSticky b i => Some (with_sticky (time + 300 * 10 ^ 9) g, at_pc (BumpGeneration b i) r)
  | BumpGeneration b i =>
      let g' := with_generation ((generation g + 1) mod USIZE) g in
      match b with
      | AfterAttempt => Some (g', at_pc (Connected i) r)
      | AfterScan => Some (with_selection None g', note (Connected i) g i r)
      end
  | _ => None
  end.

(** Only a configured member answers. *)
Definition may_answer (g : GroupOutbound) (index : nat) (ok : bool) : bool :=
  negb ok || match members g !! index with Some node => configured node | None => false end.

(** [connect_at] comes back. *)
Definition reply (ok : bool) (g : GroupOutbound) (r : Request) : option Request :=
  match r_pc r with
  | DialSticky gen i =>
      if negb (may_answer g i ok) then None
      else Some (if ok then note (Connected i) g i r else at_pc (AwaitSelection gen) r)
  | DialPicked i =>
      if negb (may_answer g i ok) then None
      else Some (if ok then note (Connected i) g i r else at_pc (PickFailed i) r)
  | Attempt start offset =>
      let i := ((start + offset) mod len_ g)%nat in
      let attempts := match kind g with KFallback => len_ g | _ => 1%nat end in
      if negb (may_answer g i ok) then None
      else Some (if ok then match kind g with
                            | KFallback => note (StorePreferred AfterAttempt i) g i r
                            | _ => note (Connected i) g i r
                            end
                 else if (S offset <? attempts)%nat
                      then dialling (Attempt start (S offset)) ((start + S offset) mod len_ g)%nat r
                      else at_pc Unavailable r)
  | _ => None
  end.

Definition can_launch (g : GroupOutbound) (launched : nat) (tasks : list Probe) : bool :=
  ((length tasks <? GROUP_PROBE_CONCURRENCY) && (launched <? len_ g))%nat.

(** One turn of the inner loop of [connect_fastest]. *)
Definition launch (g : GroupOutbound) (r : Request) : option (GroupOutbound * Request) :=
  match r_pc r with
  | Scan launched tasks =>
      if can_launch g launched tasks then
        let index := Z.to_nat (next_probe g mod Z.of_nat (len_ g)) in
        Some (with_next_probe ((next_probe g + 1) mod USIZE) g,
              dialling (Scan (S launched) (tasks ++ [{| pr_number := launched; pr_index := index; pr_stage := Queued |}])) index r)
      else None
  | _ => None
  end.

Definition set_stage (number : nat) (stage : Stage) (tasks : list Probe) : list Probe :=
  map (λ p, if (pr_number p =? number)%nat then {| pr_number := number; pr_index := pr_index p; pr_stage := stage |} else p) tasks.

Definition probe (number : nat) (tasks : list Probe) : option Probe :=
  List.find (λ p, (pr_number p =? number)%nat) tasks.

(** [join_next]: the loop is back at it when nothing can be launched. *)
Definition join (number : nat) (g : GroupOutbound) (r : Request) : option Request :=
  match r_pc r with
  | Scan launched tasks =>
      if can_launch g launched tasks then None
      else p ← probe number tasks;
           match pr_stage p with
           | Finished true => Some (at_pc (StorePreferred AfterScan (pr_index p)) r)
           | Finished false => Some (at_pc (Scan launched (List.filter (λ p, negb (pr_number p =? number)%nat) tasks)) r)
           | _ => None
           end
  | _ => None
  end.

(** The deadline of ten seconds, or the caller giving up: at an await. *)
Definition deadline (rid : nat) (g : GroupOutbound) (r : Request) : option (GroupOutbound * Request) :=
  match r_pc r with
  | DialSticky _ _ | AwaitSelection _ | DialPicked _ | Attempt _ _ => Some (g, at_pc Abandoned r)
  | Scan _ _ => Some (with_selection None g, at_pc Abandoned r)
  | _ => None
  end.

(** ** The groups of a configuration and their requests *)
Definition put (rid : nat) (g : GroupOutbound) (r : Request) (w : World) : World :=
  {| groups := <[r_group r := g]> (groups w); requests := <[rid := r]> (requests w); permits := permits w; now := now w |}.
Definition with_permits (p : gset (nat * nat)) (w : World) : World :=
  {| groups := groups w; requests := requests w; permits := p; now := now w |}.

(** The tasks of the scan a request runs. *)
Definition tasks_of (r : Request) : list Probe := match r_pc r with Scan _ tasks => tasks | _ => [] end.
Definition connecting (w : World) (rid number : nat) : bool :=
  match requests w !! rid with
  | Some r => existsb (λ p, (pr_number p =? number)%nat && bool_decide (pr_stage p = Connecting)) (tasks_of r)
  | None => false
  end.

Definition on_request (rid : nat) (w : World) (f : GroupOutbound → Request → option World) : option World :=
  r ← requests w !! rid; g ← groups w !! r_group r; f g r.

Definition perform (w : World) (e : Event) : option World :=
  match e with
  | Arrive rid name =>
      match requests w !! rid, groups w !! name with
      | None, Some _ =>
          Some {| groups := groups w;
                  requests := <[rid := {| r_group := name; r_pc := Begin; r_tried := []; r_noted := [] |}]> (requests w);
                  permits := permits w; now := now w |}
      | _, _ => None
      end
  | Step rid => on_request rid w (λ g r, '(g, r) ← step_request (now w) rid g r; Some (put rid g r w))
  | Reply rid ok => on_request rid w (λ g r, r ← reply ok g r; Some (put rid g r w))
  | Launch rid => on_request rid w (λ g r, '(g, r) ← launch g r; Some (put rid g r w))
  | Acquire rid number => on_request rid w (λ g r,
      match r_pc r with
      | Scan launched tasks =>
          p ← probe number tasks;
          if bool_decide (pr_stage p = Queued) && (size (permits w) <? GLOBAL_PROBE_CONCURRENCY)%nat
          then Some (with_permits ({[(rid, number)]} ∪ permits w) (put rid g (at_pc (Scan launched (set_stage number Connecting tasks)) r) w))
          else None
      | _ => None
      end)
  | ProbeEnds rid number ok => on_request rid w (λ g r,
      match r_pc r with
      | Scan launched tasks =>
          p ← probe number tasks;
          if bool_decide (pr_stage p = Connecting) && may_answer g (pr_index p) ok
          then Some (with_permits (permits w ∖ {[(rid, number)]}) (put rid g (at_pc (Scan launched (set_stage number (Finished ok) tasks)) r) w))
          else None
      | _ => None
      end)
  | Join rid number => on_request rid w (λ g r, r ← join number g r; Some (put rid g r w))
  | Deadline rid => on_request rid w (λ g r, '(g, r) ← deadline rid g r; Some (put rid g r w))
  | TaskDropped rid number =>
      if bool_decide ((rid, number) ∈ permits w) && negb (connecting w rid number)
      then Some (with_permits (permits w ∖ {[(rid, number)]}) w) else None
  | Tick elapsed =>
      if 0 <=? elapsed then Some {| groups := groups w; requests := requests w; permits := permits w; now := now w + elapsed |}
      else None
  end.

Fixpoint run (w : World) (es : list Event) : option World :=
  match es with [] => Some w | e :: es => w ← perform w e; run w es end.

(** ** Datagrams *)
Definition datagram_index (g : GroupOutbound) : option nat :=
  if (len_ g =? 0)%nat then None
  else Some (match kind g with KUrlTest => (preferred g mod len_ g)%nat | _ => O end).
End groups.

(** ** Building the groups *)
Section build.
Context {Node : Type} (node_fingerprint : Node → list Z) (node_public_id : list Z → list Z).

Definition build_group (index : gmap (list Z) nat) (group : ProxyGroupConfig) : GroupOutbound :=
  let indices := match g_type group with
                 | Fallback | UrlTest => NodeIndex_resolve_members index group
                 | Select => match NodeIndex_selected_member index group with Some i => [i] | None => [] end
                 end in
  let kind := match g_type group with Fallback => KFallback | UrlTest => KUrlTest | Select => KSelect end in
  {| members := indices; kind := kind;
     preferred := default O (current ← g_current group; selected ← index !! current;
                             fst <$> list_find (λ i, i = selected) indices);
     use_saved := bool_decide (is_Some (g_current group)) && negb (bool_decide (kind = KSelect));
     sticky_until := None; selection := None; generation := 0; next_probe := 0 |}.

Definition build_groups (groups : list ProxyGroupConfig) (nodes : list Node) : gmap (list Z) GroupOutbound :=
  match groups with
  | [] => ∅
  | _ => let index := NodeIndex_new node_fingerprint nodes in
         foldl (λ out group, <[g_name group := build_group index group]> out) ∅ groups
  end.

Definition start (configs : list ProxyGroupConfig) (nodes : list Node) (time : Z) : World :=
  {| groups := build_groups configs nodes; requests := ∅; permits := ∅; now := time |}.

(** [pinned_nodes]: the first node of each id, as its position. *)
Fixpoint pin_from (pos : nat) (nodes : list Node) (out : gmap (list Z) nat) : gmap (list Z) nat :=
  match nodes with
  | [] => out
  | node :: nodes =>
      let id := node_public_id (node_fingerprint node) in
      pin_from (S pos) nodes (match out !! id with Some _ => out | None => <[id := pos]> out end)
  end.
Definition pinned_nodes (nodes : list Node) : gmap (list Z) nat := pin_from 0 nodes ∅.
End build.
