(* ===== verification/GroupsSpec.v ===== *)
(** * Runtime groups: what a request may get, and that it ends *)
From S2P Require Import Prelude RuleMode RuleModeSpec Groups.

#[local] Open Scope Z_scope.

Section spec.
Context (USIZE : Z).
Hypothesis usize_pos : 0 < USIZE.
Notation step_request := (step_request USIZE).

(** ** The order of a scan and of a fallback *)
Definition scan_order (base : Z) (len n : nat) : list nat :=
  map (λ k, Z.to_nat (((base + Z.of_nat k) mod USIZE) mod Z.of_nat len)) (seq 0 n).
Definition rotation (start len n : nat) : list nat := map (λ k, ((start + k) mod len)%nat) (seq 0 n).

Lemma scan_order_S base len n :
  scan_order base len (S n) = scan_order base len n ++ [Z.to_nat (((base + Z.of_nat n) mod USIZE) mod Z.of_nat len)].
Proof. unfold scan_order. rewrite seq_S, map_app. done. Qed.

Lemma rotation_S start len n : rotation start len (S n) = rotation start len n ++ [((start + n) mod len)%nat].
Proof. unfold rotation. rewrite seq_S, map_app. done. Qed.

Lemma scan_order_bound base len n : (0 < len)%nat → Forall (λ i, (i < len)%nat) (scan_order base len n).
Proof.
  intros Hl. apply Forall_map, Forall_forall. intros k _. pose proof (Z.mod_pos_bound ((base + Z.of_nat k) mod USIZE) (Z.of_nat len)). lia.
Qed.

Lemma rotation_bound start len n : (0 < len)%nat → Forall (λ i, (i < len)%nat) (rotation start len n).
Proof. intros Hl. apply Forall_map, Forall_forall. intros k _. apply Nat.mod_upper_bound. lia. Qed.

(** Different lists of positions below [n] of length [n] are all of them. *)
Lemma full_permutation (l : list nat) n : NoDup l → Forall (λ i, (i < n)%nat) l → length l = n → Permutation l (seq 0 n).
Proof.
  intros Hd Hb Hl. apply Permutation.NoDup_Permutation_bis.
  - by apply NoDup_ListNoDup.
  - by rewrite length_seq, Hl.
  - intros i Hi%list_elem_of_In. rewrite Forall_forall in Hb. apply in_seq. specialize (Hb i Hi). lia.
Qed.


Lemma mod_inj n a b s : 0 <= a < n → 0 <= b < n → (s + a) mod n = (s + b) mod n → a = b.
Proof.
  intros Ha Hb E. pose proof (Z.div_mod (s + a) n ltac:(lia)). pose proof (Z.div_mod (s + b) n ltac:(lia)). rewrite E in *.
  set (q := (s + a) / n) in *. set (q' := (s + b) / n) in *. assert (q = q') by nia. nia.
Qed.

Lemma rotation_permutation start len : (0 < len)%nat → Permutation (rotation start len len) (seq 0 len).
Proof.
  intros Hl. apply full_permutation; [|by apply rotation_bound|unfold rotation; by rewrite length_map, length_seq].
  apply (NoDup_fmap_2_strong (λ k, ((start + k) mod len)%nat)); [|apply NoDup_seq].
  intros a b Ha%elem_of_seq Hb%elem_of_seq E. apply (f_equal Z.of_nat) in E. rewrite !Nat2Z.inj_mod, !Nat2Z.inj_add in E.
  apply mod_inj in E; lia.
Qed.

(** Unless the counter wraps around, a scan dials every member once. *)
Lemma scan_permutation base len :
  (0 < len)%nat → 0 <= base → base + Z.of_nat len <= USIZE → Permutation (scan_order base len len) (seq 0 len).
Proof.
  intros Hl Hb Hw. apply full_permutation; [|by apply scan_order_bound|unfold scan_order; by rewrite length_map, length_seq].
  apply (NoDup_fmap_2_strong (λ k, Z.to_nat (((base + Z.of_nat k) mod USIZE) mod Z.of_nat len))); [|apply NoDup_seq].
  intros a b Ha%elem_of_seq Hb'%elem_of_seq. rewrite !(Z.mod_small _ USIZE) by lia. intros E.
  pose proof (Z.mod_pos_bound (base + Z.of_nat a) (Z.of_nat len) ltac:(lia)).
  pose proof (Z.mod_pos_bound (base + Z.of_nat b) (Z.of_nat len) ltac:(lia)).
  apply Nat2Z.inj, (mod_inj (Z.of_nat len) _ _ base); lia.
Qed.

(** ** The state of one request *)
Context (configured : nat → bool).
Notation perform := (perform USIZE configured).
Notation run := (run USIZE configured).

Definition holds (pc : Pc) : bool :=
  match pc with
  | StickyLock (SecondTry _) | StickySwap (SecondTry _) | StickyLoad (SecondTry _) | Recheck _ | Scan _ _
  | StorePreferred AfterScan _ | StoreSticky AfterScan _ | BumpGeneration AfterScan _ => true
  | _ => false
  end.

Definition scanning (pc : Pc) : bool := match pc with Scan _ _ => true | _ => false end.

(** At most the sticky member was dialled. *)
Definition one_try (g : GroupOutbound) (tried : list nat) : Prop :=
  tried = [] ∨ ∃ i, tried = [i] ∧ (i < len_ g)%nat.

(** The member is configured, and was dialled. *)
Definition answers (g : GroupOutbound) (r : Request) (i : nat) : Prop :=
  ∃ node, members g !! i = Some node ∧ configured node = true ∧ i ∈ r_tried r.
Definition credited (g : GroupOutbound) (r : Request) (i : nat) : Prop :=
  ∃ node, members g !! i = Some node ∧ configured node = true ∧ i ∈ r_tried r ∧ r_noted r = [node].

Definition task_ok (g : GroupOutbound) (base : Z) (launched : nat) (p : Probe) : Prop :=
  scan_order base (len_ g) launched !! pr_number p = Some (pr_index p) ∧
  (pr_stage p = Finished true → may_answer configured g (pr_index p) true = true).

(** What the members dialled say about a request that got nothing. *)
Definition exhausted (g : GroupOutbound) (tried : list nat) : Prop :=
  match kind g with
  | KSelect => tried = match len_ g with O => [] | _ => [O] end
  | KFallback => ∃ start, tried = rotation start (len_ g) (len_ g)
  | KUrlTest => len_ g = O ∧ tried = [] ∨
      ∃ pre base, one_try g pre ∧ 0 <= base < USIZE ∧ tried = pre ++ scan_order base (len_ g) (len_ g)
  end.

Definition caller_ok (g : GroupOutbound) (from : Caller) (tried : list nat) : Prop :=
  match from with
  | FirstTry _ => kind g = KUrlTest ∧ tried = []
  | SecondTry _ => kind g = KUrlTest ∧ one_try g tried
  | FallbackStart => kind g = KFallback ∧ tried = []
  end.

Definition rememberer_ok (g : GroupOutbound) (r : Request) (b : Rememberer) (i : nat) : Prop :=
  match b with
  | AfterAttempt => kind g = KFallback ∧ credited g r i
  | AfterScan => kind g = KUrlTest ∧ r_noted r = [] ∧ answers g r i
  end.

Definition scan_ok (g : GroupOutbound) (tried : list nat) (launched : nat) (tasks : list Probe) : Prop :=
  ∃ pre base, one_try g pre ∧ tried = pre ++ scan_order base (len_ g) launched ∧ 0 <= base < USIZE ∧
    next_probe g = (base + Z.of_nat launched) mod USIZE ∧ (launched <= len_ g)%nat ∧
    (length tasks <= GROUP_PROBE_CONCURRENCY)%nat ∧ NoDup (map pr_number tasks) ∧ Forall (task_ok g base launched) tasks.

Definition pc_ok (g : GroupOutbound) (r : Request) : Prop :=
  let tried := r_tried r in
  match r_pc r with
  | Begin => tried = [] ∧ r_noted r = []
  | StickyLock from | StickySwap from | StickyLoad from => (0 < len_ g)%nat ∧ caller_ok g from tried ∧ r_noted r = []
  | DialSticky _ i => kind g = KUrlTest ∧ tried = [i] ∧ (i < len_ g)%nat ∧ r_noted r = []
  | AwaitSelection _ | Recheck _ => (0 < len_ g)%nat ∧ kind g = KUrlTest ∧ one_try g tried ∧ r_noted r = []
  | DialPicked i => kind g = KUrlTest ∧ (∃ pre, one_try g pre ∧ tried = pre ++ [i]) ∧ (i < len_ g)%nat ∧ r_noted r = []
  | Scan launched tasks => (0 < len_ g)%nat ∧ kind g = KUrlTest ∧ scan_ok g tried launched tasks ∧ r_noted r = []
  | Attempt start offset => (0 < len_ g)%nat ∧ r_noted r = [] ∧ tried = rotation start (len_ g) (S offset) ∧
      match kind g with KSelect => start = O ∧ offset = O | KFallback => (offset < len_ g)%nat | KUrlTest => False end
  | StorePreferred b i | StoreSticky b i | BumpGeneration b i => rememberer_ok g r b i
  | Connected i => credited g r i
  | PickFailed i => kind g = KUrlTest ∧ (∃ pre, one_try g pre ∧ tried = pre ++ [i]) ∧ r_noted r = []
  | Unavailable => r_noted r = [] ∧ exhausted g tried
  | Abandoned => r_noted r = []
  end.

(** A request dials members only, a fixed choice only the one, and nobody twice in a row of the group. *)
Record request_ok (g : GroupOutbound) (r : Request) : Prop := {
  ro_pc : pc_ok g r;
  ro_members : Forall (λ i, (i < len_ g)%nat) (r_tried r);
  ro_select : kind g = KSelect → r_tried r = [] ∨ r_tried r = [O];
}.

(** ** One request moves *)
Record moves (rid : nat) (g : GroupOutbound) (r : Request) (g' : GroupOutbound) (r' : Request) : Prop := {
  mv_members : members g' = members g;
  mv_kind : kind g' = kind g;
  mv_group : r_group r' = r_group r;
  mv_lock : selection g' = if holds (r_pc r') then Some rid else if holds (r_pc r) then None else selection g;
  mv_take : holds (r_pc r') = true → holds (r_pc r) = true ∨ selection g = None;
  mv_probe : next_probe g' = next_probe g ∨ scanning (r_pc r) = true;
  mv_range : 0 <= next_probe g' < USIZE;
  mv_ok : request_ok g' r';
}.

Lemma one_try_bound g pre : one_try g pre → Forall (λ i, (i < len_ g)%nat) pre.
Proof. intros [->|(i & -> & Hi)]; by repeat constructor. Qed.

Lemma scan_start g r : 
  (0 < len_ g)%nat → kind g = KUrlTest → one_try g (r_tried r) → r_noted r = [] → 0 <= next_probe g < USIZE →
  request_ok g (at_pc (Scan 0 []) r).
Proof.
  intros Hl Hk Ho Hn Hp. split; cbn [r_tried at_pc]; [|by apply one_try_bound|congruence]. unfold pc_ok. cbn [r_pc at_pc r_tried r_noted].
  split_and!; try done. exists (r_tried r), (next_probe g). rewrite Z.add_0_r, Z.mod_small by lia.
  split_and!; try done; [by rewrite app_nil_r|lia..|cbn; unfold GROUP_PROBE_CONCURRENCY; lia|constructor].
Qed.

Ltac request_cases :=
  repeat match goal with
  | H : _ ∧ _ |- _ => destruct H
  | H : Some _ = Some _ |- _ => injection H as <- <-
  | H : None = Some _ |- _ => discriminate H
  end.

(** [sticky_index] has its answer. *)
Lemma resume_moves rid g r from index g' r' :
  (0 < len_ g)%nat → caller_ok g from (r_tried r) → r_noted r = [] → 0 <= next_probe g < USIZE →
  r_pc r = StickySwap from ∨ r_pc r = StickyLoad from → (holds (r_pc r) = true → selection g = Some rid) →
  (∀ i, index = Some i → (i < len_ g)%nat) →
  resume from index g r = (g', r') → moves rid g r g' r'.
Proof.
  intros Hl Hc Hn Hp Hpc Hs Hi. unfold resume. cbv zeta.
  assert (∀ gen, from = SecondTry gen → holds (r_pc r) = true) as Hsec by (by intros gen ->; destruct Hpc as [->| ->]).
  assert (holds (r_pc r) = match from with SecondTry _ => true | _ => false end) as Hh by (destruct Hpc as [->| ->]; by destruct from).
  destruct from as [gen|gen|]; cbn [caller_ok] in Hc.
  - destruct Hc as [Hk Ht]. destruct index as [i|]; intros [= <- <-]; specialize (Hi _ eq_refl) || clear Hi.
    + split; cbn [r_pc r_group holds]; rewrite ?Hh; try done; [by left|]. split; cbn [r_tried r_pc]; rewrite ?Ht; cbn; [done|by repeat constructor|congruence].
    + split; cbn [r_pc r_group holds]; rewrite ?Hh; try done; [by left|]. split; cbn [r_tried r_pc]; rewrite ?Ht; cbn; [by split_and!; try left|done|congruence].
  - destruct Hc as [Hk Ht]. destruct index as [i|]; intros [= <- <-]; specialize (Hi _ eq_refl) || clear Hi.
    + split; cbn [r_pc r_group holds]; rewrite ?Hh; try done; [by left|]. split; cbn [r_tried r_pc].
      * unfold pc_ok. cbn. split_and!; try done. by exists (r_tried r).
      * apply Forall_app. split; [by apply (one_try_bound g)|by repeat constructor].
      * cbn. congruence.
    + rewrite app_nil_r. split; cbn [r_pc r_group holds at_pc]; rewrite ?Hh; try done; [by apply Hs; rewrite Hh|by left|by left|by apply scan_start].
  - destruct Hc as [Hk Ht]. set (start := default O index). intros [= <- <-].
    split; cbn [r_pc r_group holds]; rewrite ?Hh; try done; [by left|]. split; cbn [r_tried r_pc]; rewrite ?Ht.
    + unfold pc_ok. cbn [r_pc r_tried r_noted app]. rewrite Hk. split_and!; try done. unfold rotation. cbn. by rewrite Nat.add_0_r.
    + repeat constructor. apply Nat.mod_upper_bound. lia.
    + congruence.
Qed.

(** Nothing else of the group matters to a request. *)
Lemma request_ok_frame g g' r :
  members g' = members g → kind g' = kind g → (next_probe g' = next_probe g ∨ scanning (r_pc r) = false) →
  request_ok g r → request_ok g' r.
Proof.
  destruct g, g'; cbn. intros -> -> Hn [H1 H2 H3]. split; [|exact H2|exact H3]. clear H2 H3.
  destruct Hn as [->|Hn]; [exact H1|]. unfold pc_ok in *. destruct (r_pc r); try discriminate Hn; exact H1.
Qed.

Lemma request_ok_pc g r pc :
  request_ok g r → pc_ok g (at_pc pc r) → request_ok g (at_pc pc r).
Proof. intros [_ H2 H3] H1. by split. Qed.

(** A move that neither takes nor releases the lock. *)
Lemma quiet_move rid g r g' r' :
  members g' = members g → kind g' = kind g → next_probe g' = next_probe g → selection g' = selection g →
  0 <= next_probe g < USIZE → r_group r' = r_group r → holds (r_pc r') = holds (r_pc r) →
  (holds (r_pc r) = true → selection g = Some rid) → request_ok g r' → moves rid g r g' r'.
Proof.
  intros Hm Hk Hn Hs Hp Hg Hh Hl Hok. split; try done.
  - rewrite Hs, Hh. destruct (holds (r_pc r)); [by apply Hl|done].
  - rewrite Hh. by left.
  - by left.
  - by rewrite Hn.
  - by apply (request_ok_frame g); [..|left|].
Qed.

(** A move that releases it. *)
Lemma release_move rid g r g' r' :
  members g' = members g → kind g' = kind g → next_probe g' = next_probe g → selection g' = None →
  0 <= next_probe g < USIZE → r_group r' = r_group r → holds (r_pc r) = true → holds (r_pc r') = false →
  request_ok g r' → moves rid g r g' r'.
Proof.
  intros Hm Hk Hn Hs Hp Hg Hh Hh' Hok. split; try done; rewrite ?Hh, ?Hh', ?Hn; try done; [by left|].
  by apply (request_ok_frame g); [..|left|].
Qed.

Lemma step_request_moves time rid g r g' r' :
  request_ok g r → 0 <= next_probe g < USIZE → (holds (r_pc r) = true → selection g = Some rid) →
  step_request time rid g r = Some (g', r') → moves rid g r g' r'.
Proof.
  intros Hok Hp Hs. pose proof Hok as [Hpc Hm Hsel]. unfold pc_ok in Hpc. unfold Groups.step_request.
  destruct (r_pc r) as [|from|from|from| |gen|gen| |launched tasks| |b i|b i|b i| | | | ] eqn:Epc; try done.
  - destruct Hpc as [Ht Hn]. destruct (Nat.eqb_spec (len_ g) 0) as [E|E].
    { intros [= <- <-]. apply quiet_move; try done; rewrite ?Epc; try done. apply request_ok_pc; [done|]. unfold pc_ok. cbn. rewrite Ht.
      split; [done|]. unfold exhausted. rewrite E. destruct (kind g); [done|by exists O|by left]. }
    destruct (kind g) eqn:Ek; intros [= <- <-]; apply quiet_move; try done; rewrite ?Epc; try done.
    + split; cbn; rewrite ?Ht; cbn; [|repeat constructor; lia|by right]. unfold pc_ok. cbn. rewrite Ek. split_and!; try done; [lia|].
      unfold rotation. cbn. by rewrite Nat.Div0.mod_0_l.
    + apply request_ok_pc; [done|]. unfold pc_ok. cbn. split_and!; try done; lia.
    + apply request_ok_pc; [done|]. unfold pc_ok. cbn. split_and!; try done; lia.
  - case_match; intros [= <- <-]; apply quiet_move; try done; rewrite ?Epc; try done; by apply request_ok_pc.
  - destruct (use_saved g).
    + intros [= <- <-]. apply quiet_move; try done; rewrite ?Epc; try done; by apply request_ok_pc.
    + intros [= E]. destruct Hpc as (H1 & H2 & H3).
      assert (moves rid (with_use_saved false g) r g' r') as Hmv.
      { eapply resume_moves; [..|exact E]; try done; [by left|by rewrite Epc]. }
      by destruct Hmv; split.
  - intros [= E]. destruct Hpc as (H1 & H2 & H3). eapply resume_moves; [..|exact E]; try done; [by right|by rewrite Epc|].
    intros i [= <-]. apply Nat.mod_upper_bound. lia.
  - destruct (selection g) eqn:El; [done|]. intros [= <- <-]. split; cbn; try done; [by right|by left].
  - destruct Hpc as (H1 & H2 & H3 & H4). destruct (negb _); intros [= <- <-]; apply quiet_move; try done; rewrite ?Epc; try done.
    all: first [by apply request_ok_pc|by apply scan_start].
  - destruct tasks; [|done]. destruct (Nat.ltb_spec launched (len_ g)); [done|]. intros [= <- <-].
    destruct Hpc as (H1 & H2 & (pre & base & Hs1 & Hs2 & Hs3 & _ & Hs5 & _) & H4).
    apply release_move; try done; rewrite ?Epc; try done. apply request_ok_pc; [done|]. unfold pc_ok. cbn. split; [done|].
    unfold exhausted. rewrite H2. right. exists pre, base. rewrite Hs2. replace launched with (len_ g) by lia. split_and!; try done; lia.
  - intros [= <- <-]. apply quiet_move; try done; rewrite ?Epc; try by destruct b. all: by apply request_ok_pc.
  - intros [= <- <-]. apply quiet_move; try done; rewrite ?Epc; try by destruct b. all: by apply request_ok_pc.
  - destruct b; intros [= <- <-].
    + apply quiet_move; try done; rewrite ?Epc; try done. all: apply request_ok_pc; [done|]; by destruct Hpc.
    + apply release_move; try done; rewrite ?Epc; try done.
      destruct Hpc as (H1 & H2 & node & H3 & H4 & H5). split; cbn; [|done|done]. exists node. cbn. rewrite H2, H3. by split_and!.
Qed.

Lemma may_answer_true g i : may_answer configured g i true = true → ∃ node, members g !! i = Some node ∧ configured node = true.
Proof. unfold may_answer. cbn [negb orb]. destruct (members g !! i) as [node|]; [|done]. intros E. by exists node. Qed.

(** The answer of a configured member is credited to it. *)
Lemma note_credited pc g i r :
  may_answer configured g i true = true → i ∈ r_tried r → r_noted r = [] → credited g (note pc g i r) i.
Proof.
  intros (node & Hn & Hc)%may_answer_true Hi Hr. exists node. cbn. rewrite Hn, Hr. by split_and!.
Qed.

Lemma note_ok pc g i r :
  request_ok g r → pc_ok g (note pc g i r) → request_ok g (note pc g i r).
Proof. intros [_ H2 H3] H1. by split. Qed.

Lemma reply_moves rid ok g r r' :
  request_ok g r → 0 <= next_probe g < USIZE → (holds (r_pc r) = true → selection g = Some rid) →
  reply configured ok g r = Some r' → moves rid g r g r'.
Proof.
  intros Hok Hp Hs. pose proof Hok as [Hpc Hm Hsel]. unfold pc_ok in Hpc. unfold reply.
  destruct (r_pc r) as [| | | |gen i| | |i| |start off| | | | | | | ] eqn:Epc; try done.
  - destruct (may_answer configured g i ok) eqn:Ea; [|done]. destruct Hpc as (H1 & H2 & H3 & H4).
    cbn [negb]. intros [= <-]. destruct ok; apply quiet_move; try done; rewrite ?Epc; try done.
    + apply note_ok; [done|]. apply note_credited; [done|rewrite H2; by apply list_elem_of_here|done].
    + apply request_ok_pc; [done|]. unfold pc_ok. cbn. split_and!; try done; [lia|]. right. by exists i.
  - destruct (may_answer configured g i ok) eqn:Ea; [|done]. destruct Hpc as (H1 & (pre & H2 & H2') & H3 & H4).
    cbn [negb]. intros [= <-]. destruct ok; apply quiet_move; try done; rewrite ?Epc; try done.
    + apply note_ok; [done|]. apply note_credited; [done|rewrite H2', elem_of_app; right; by apply list_elem_of_here|done].
    + apply request_ok_pc; [done|]. unfold pc_ok. cbn. split_and!; try done. by exists pre.
  - destruct Hpc as (H1 & H2 & H3 & H4). set (i := ((start + off) mod len_ g)%nat).
    assert (i ∈ r_tried r) as Hi by (rewrite H3, rotation_S, elem_of_app; right; by apply list_elem_of_here).
    destruct (may_answer configured g i ok) eqn:Ea; [|done]. cbn [negb]. intros [= <-].
    destruct ok; [|destruct (Nat.ltb_spec (S off) (match kind g with KFallback => len_ g | _ => 1%nat end)) as [Hlt|Hge]].
    + pose proof (λ pc, note_credited pc g i r Ea Hi H2) as Hc.
      destruct (kind g) eqn:Ek; [|..]; apply quiet_move; try done; rewrite ?Epc; try done; (apply note_ok; [done|]; by apply Hc || by split).
    + destruct (kind g) eqn:Ek; [lia| |lia]. apply quiet_move; try done; rewrite ?Epc; try done.
      split; cbn [r_tried dialling]; [|apply Forall_app; split; [done|repeat constructor; apply Nat.mod_upper_bound; lia]|congruence].
      unfold pc_ok. cbn [r_pc dialling r_tried r_noted]. rewrite Ek. split_and!; try done. by rewrite (rotation_S start _ (S off)), H3.
    + apply quiet_move; try done; rewrite ?Epc; try done. apply request_ok_pc; [done|]. unfold pc_ok. cbn [r_pc at_pc r_noted r_tried].
      split; [done|]. unfold exhausted. destruct (kind g) eqn:Ek; [|exists start; rewrite H3; f_equal; lia|done].
      destruct H4 as [-> ->]. destruct (len_ g) eqn:El; [lia|]. by destruct (Hsel eq_refl) as [E|E]; rewrite E in *.
Qed.

Lemma launch_moves rid g r g' r' :
  request_ok g r → 0 <= next_probe g < USIZE → (holds (r_pc r) = true → selection g = Some rid) →
  launch USIZE g r = Some (g', r') → moves rid g r g' r'.
Proof.
  intros Hok Hp Hs. pose proof Hok as [Hpc Hm Hsel]. unfold pc_ok in Hpc. unfold launch.
  destruct (r_pc r) as [| | | | | | | |launched tasks| | | | | | | | ] eqn:Epc; try done.
  destruct (can_launch g launched tasks) eqn:Ec; [|done]. set (index := Z.to_nat _). intros [= <- <-].
  unfold can_launch in Ec. apply andb_true_iff in Ec as [Ec1%Nat.ltb_lt Ec2%Nat.ltb_lt].
  destruct Hpc as (H1 & H2 & (pre & base & S1 & S2 & S3 & S4 & S5 & S6 & S7 & S8) & H4).
  assert (0 <= (next_probe g + 1) mod USIZE < USIZE) as Hr by (apply Z.mod_pos_bound; lia).
  assert (index < len_ g)%nat as Hindex.
  { unfold index. pose proof (Z.mod_pos_bound (next_probe g) (Z.of_nat (len_ g))). lia. }
  assert (scan_order base (len_ g) (S launched) = scan_order base (len_ g) launched ++ [index]) as Eord by (rewrite scan_order_S; unfold index; by rewrite S4).
  split; cbn [r_pc dialling holds members kind r_group selection next_probe with_next_probe]; rewrite ?Epc; try done; [by apply Hs|by left|by right|].
  split; cbn [r_tried dialling]; [|by apply Forall_app; split; [done|repeat constructor]|cbn; congruence].
  unfold pc_ok. cbn [r_pc dialling r_noted r_tried]. split; [done|]. split; [done|]. split; [|done].
  exists pre, base. change (len_ (with_next_probe _ g)) with (len_ g). rewrite Eord, S2, app_assoc. split; [exact S1|]. split; [done|]. split; [done|].
  split_and!.
  - cbn. rewrite S4, Zplus_mod_idemp_l. f_equal. lia.
  - lia.
  - rewrite length_app. cbn. unfold GROUP_PROBE_CONCURRENCY in *. lia.
  - rewrite map_app. apply NoDup_app. split; [done|]. split; [|apply NoDup_singleton].
    intros n (p & -> & Hp')%list_elem_of_fmap. cbn. rewrite list_elem_of_singleton. rewrite Forall_forall in S8.
    destruct (S8 p Hp') as [Hl _]. apply lookup_lt_Some in Hl. unfold scan_order in Hl. rewrite length_map, length_seq in Hl. lia.
  - apply Forall_app. split.
    + eapply Forall_impl; [exact S8|]. intros p [P1 P2]. split; [|exact P2]. change (len_ (with_next_probe _ g)) with (len_ g).
      rewrite Eord. by apply lookup_app_l_Some.
    + constructor; [|done]. split; [|done]. change (len_ (with_next_probe _ g)) with (len_ g). cbn [pr_number pr_index]. rewrite Eord.
      rewrite lookup_app_r; unfold scan_order; rewrite length_map, length_seq; [|lia]. by rewrite Nat.sub_diag.
Qed.

Lemma probe_some number tasks p : probe number tasks = Some p → p ∈ tasks ∧ pr_number p = number.
Proof. unfold probe. intros [Hp E%Nat.eqb_eq]%List.find_some. split; [by apply list_elem_of_In|done]. Qed.

(** Tasks that are in order, among those launched. *)
Lemma scan_ok_tasks g tried launched tasks tasks' :
  scan_ok g tried launched tasks → (length tasks' <= length tasks)%nat → NoDup (map pr_number tasks') →
  Forall (λ p', ∃ p, p ∈ tasks ∧ pr_number p' = pr_number p ∧ pr_index p' = pr_index p ∧
                     (pr_stage p' = Finished true → pr_stage p = Finished true ∨ may_answer configured g (pr_index p) true = true)) tasks' →
  scan_ok g tried launched tasks'.
Proof.
  intros (pre & base & S1 & S2 & S3 & S4 & S5 & S6 & S7 & S8) Hl Hd Ht. exists pre, base. split_and!; try done; [lia..|].
  eapply Forall_impl; [exact Ht|]. intros p' (p & Hp & E1 & E2 & E3). rewrite Forall_forall in S8. destruct (S8 p Hp) as [P1 P2].
  split; rewrite E2; [by rewrite E1|]. intros [?|?]%E3; auto.
Qed.

Lemma filter_fmap_NoDup {A B} (f : A → B) (q : A → bool) l : NoDup (map f l) → NoDup (map f (List.filter q l)).
Proof.
  induction l as [|x l IH]; cbn [map List.filter]; [done|]. intros [Hx Hl]%NoDup_cons. destruct (q x); cbn [map]; [|by apply IH].
  apply NoDup_cons. split; [|by apply IH]. intros (y & E & Hy)%list_elem_of_fmap. apply Hx. apply list_elem_of_In, List.filter_In in Hy as [Hy _].
  rewrite E. by apply (list_elem_of_fmap_2 f), list_elem_of_In.
Qed.

Lemma join_moves rid number g r r' :
  request_ok g r → 0 <= next_probe g < USIZE → (holds (r_pc r) = true → selection g = Some rid) →
  join number g r = Some r' → moves rid g r g r'.
Proof.
  intros Hok Hp Hs. pose proof Hok as [Hpc Hm Hsel]. unfold pc_ok in Hpc. unfold join.
  destruct (r_pc r) as [| | | | | | | |launched tasks| | | | | | | | ] eqn:Epc; try done. destruct (can_launch g launched tasks); [done|].
  destruct (probe number tasks) as [p|] eqn:Eq; [|done]. cbn [mbind option_bind]. apply probe_some in Eq as [Hin <-].
  destruct Hpc as (H1 & H2 & Hscan & H4). destruct (pr_stage p) as [| |[|]] eqn:Est; try done; intros [= <-];
    apply quiet_move; try done; rewrite ?Epc; try done; apply request_ok_pc; try done; unfold pc_ok; cbn [at_pc r_pc r_noted r_tried].
  - destruct Hscan as (pre & base & S1 & S2 & S3 & S4 & S5 & S6 & S7 & S8). split_and!; try done. rewrite Forall_forall in S8.
    destruct (S8 p Hin) as [P1 P2]. destruct (may_answer_true g (pr_index p) (P2 Est)) as (node & N1 & N2). exists node.
    split_and!; try done. cbn [at_pc r_tried]. rewrite S2, elem_of_app. right. by eapply list_elem_of_lookup_2.
  - split_and!; try done. apply (scan_ok_tasks g _ launched tasks); [done|apply filter_length_le| |].
    + destruct Hscan as (? & ? & _ & _ & _ & _ & _ & _ & Hd & _). by apply filter_fmap_NoDup.
    + apply Forall_forall. intros q [Hq _]%list_elem_of_In%List.filter_In. exists q. split_and!; try done; [by apply list_elem_of_In|by left].
Qed.

Lemma deadline_moves rid g r g' r' :
  request_ok g r → 0 <= next_probe g < USIZE → (holds (r_pc r) = true → selection g = Some rid) →
  deadline rid g r = Some (g', r') → moves rid g r g' r'.
Proof.
  intros Hok Hp Hs. pose proof Hok as [Hpc Hm Hsel]. unfold pc_ok in Hpc. unfold deadline.
  assert (pc_ok g (at_pc Abandoned r) ∨ r_noted r ≠ []) as Hab by (destruct (r_noted r) eqn:E; [left; by unfold pc_ok|by right]).
  destruct (r_pc r) eqn:Epc; try done; intros [= <- <-];
    (destruct Hab as [Hab|Hab]; [|by exfalso; apply Hab; tauto]);
    first [solve [apply quiet_move; first [done|rewrite ?Epc; done|by apply request_ok_pc]]
          |solve [apply release_move; first [done|rewrite ?Epc; done|by apply request_ok_pc]]].
Qed.

Lemma set_stage_numbers number stage tasks : map pr_number (set_stage number stage tasks) = map pr_number tasks.
Proof.
  unfold set_stage. rewrite map_map. apply map_ext. intros p. destruct (Nat.eqb_spec (pr_number p) number) as [<-|]; done.
Qed.

(** A task of the scan moves on. *)
Lemma stage_moves rid number stage g r launched tasks :
  request_ok g r → 0 <= next_probe g < USIZE → selection g = Some rid → r_pc r = Scan launched tasks →
  (stage = Finished true → ∀ p, probe number tasks = Some p → may_answer configured g (pr_index p) true = true) →
  moves rid g r g (at_pc (Scan launched (set_stage number stage tasks)) r).
Proof.
  intros Hok Hp Hs Epc Hst. pose proof Hok as [Hpc Hm Hsel]. unfold pc_ok in Hpc. rewrite Epc in Hpc.
  apply quiet_move; try done; rewrite ?Epc; try done. apply request_ok_pc; [done|]. unfold pc_ok. cbn [at_pc r_pc r_noted r_tried].
  destruct Hpc as (H1 & H2 & Hscan & H4). split_and!; try done.
  pose proof Hscan as (? & ? & _ & _ & _ & _ & _ & _ & Hd & _).
  apply (scan_ok_tasks g _ launched tasks); [done|unfold set_stage; by rewrite length_map|by rewrite set_stage_numbers|].
  apply Forall_map, Forall_forall. intros p Hin. exists p. destruct (Nat.eqb_spec (pr_number p) number) as [E|E]; [|split_and!; try done; by left].
  split_and!; try done. cbn. intros Ef. right. apply (Hst Ef p). unfold probe.
  destruct (List.find (λ p, (pr_number p =? number)%nat) tasks) as [q|] eqn:Eq.
  - apply List.find_some in Eq as [Hq Eq%Nat.eqb_eq]. f_equal. apply list_elem_of_In in Hq.
    apply list_elem_of_lookup in Hin as [a Ha], Hq as [b Hb]. assert (a = b) as ->; [|congruence].
    eapply NoDup_lookup; [exact Hd|..]; rewrite list_lookup_fmap; [by rewrite Ha|]. rewrite Hb. cbn. congruence.
  - eapply List.find_none in Eq; [|by apply list_elem_of_In]. by apply Nat.eqb_neq in Eq.
Qed.

(** ** All requests *)
Context (built : gmap (list Z) (list nat * GroupKind)).

Record world_ok (w : World) : Prop := {
  wo_static : (λ g, (members g, kind g)) <$> groups w = built;
  wo_range name g : groups w !! name = Some g → 0 <= next_probe g < USIZE;
  wo_request rid r : requests w !! rid = Some r → ∃ g, groups w !! r_group r = Some g ∧ request_ok g r;
  wo_lock name g rid : groups w !! name = Some g →
    selection g = Some rid ↔ ∃ r, requests w !! rid = Some r ∧ r_group r = name ∧ holds (r_pc r) = true;
  wo_permits : (size (permits w) <= GLOBAL_PROBE_CONCURRENCY)%nat;
  wo_connecting rid n : connecting w rid n = true → (rid, n) ∈ permits w;
}.

Lemma scanning_holds pc : scanning pc = true → holds pc = true.
Proof. by destruct pc. Qed.

Lemma own_lock w rid r g :
  world_ok w → requests w !! rid = Some r → groups w !! r_group r = Some g → holds (r_pc r) = true → selection g = Some rid.
Proof. intros Hw Hr Hg Hh. apply (wo_lock w Hw _ _ _ Hg). by exists r. Qed.

(** The lock, after one request moved. *)
Lemma put_lock w rid r g r' g' rid2 :
  world_ok w → requests w !! rid = Some r → groups w !! r_group r = Some g → moves rid g r g' r' →
  selection g' = Some rid2 ↔ ∃ r2, <[rid := r']> (requests w) !! rid2 = Some r2 ∧ r_group r2 = r_group r ∧ holds (r_pc r2) = true.
Proof.
  intros Hw Hr Hg [_ _ M3 M4 M5 _ _ _]. rewrite M4. destruct (decide (rid2 = rid)) as [->|Hne].
  - setoid_rewrite lookup_insert_eq. split.
    + destruct (holds (r_pc r')) eqn:E'; [intros _; by exists r'|]. destruct (holds (r_pc r)) eqn:E; [done|].
      intros (r2 & Hr2 & _ & Hh)%(wo_lock w Hw _ _ _ Hg). rewrite Hr in Hr2. injection Hr2 as <-. congruence.
    + intros (r2 & [= <-] & _ & ->). done.
  - setoid_rewrite lookup_insert_ne; [|done]. destruct (holds (r_pc r')) eqn:E'.
    + split; [congruence|]. intros (r2 & Hr2 & Hg2 & Hh2). assert (selection g = Some rid2) as Hs by (apply (wo_lock w Hw _ _ _ Hg); by exists r2).
      destruct (M5 eq_refl) as [Hh|Hn]; [|congruence]. pose proof (own_lock w rid r g Hw Hr Hg Hh). congruence.
    + destruct (holds (r_pc r)) eqn:E; [|apply (wo_lock w Hw _ _ _ Hg)]. split; [done|].
      intros (r2 & Hr2 & Hg2 & Hh2). assert (selection g = Some rid2) as Hs by (apply (wo_lock w Hw _ _ _ Hg); by exists r2).
      pose proof (own_lock w rid r g Hw Hr Hg E). congruence.
Qed.

Lemma put_ok w rid r g r' g' ps :
  world_ok w → requests w !! rid = Some r → groups w !! r_group r = Some g → moves rid g r g' r' →
  (size ps <= GLOBAL_PROBE_CONCURRENCY)%nat →
  (∀ rid2 n, connecting (put rid g' r' w) rid2 n = true → (rid2, n) ∈ ps) →
  world_ok (with_permits ps (put rid g' r' w)).
Proof.
  intros Hw Hr Hg Hm Hps Hc. pose proof Hm as [M1 M2 M3 M4 M5 M6 M7 M8]. split; cbn; try done.
  - rewrite fmap_insert, M1, M2, M3, (wo_static w Hw). apply insert_id. rewrite <- (wo_static w Hw), lookup_fmap, Hg. done.
  - intros name g2. rewrite M3. destruct (decide (name = r_group r)) as [->|Hne].
    + rewrite lookup_insert_eq. by intros [= <-].
    + rewrite lookup_insert_ne by done. apply (wo_range w Hw).
  - intros rid2 r2. rewrite M3. destruct (decide (rid2 = rid)) as [->|Hne].
    + rewrite lookup_insert_eq. intros [= <-]. exists g'. by rewrite M3, lookup_insert_eq.
    + rewrite lookup_insert_ne by done. intros Hr2. destruct (wo_request w Hw rid2 r2 Hr2) as (g2 & Hg2 & Hok2).
      destruct (decide (r_group r2 = r_group r)) as [E|E]; [|exists g2; by rewrite lookup_insert_ne].
      rewrite E in *. rewrite Hg in Hg2. injection Hg2 as <-. exists g'. rewrite lookup_insert_eq. split; [done|].
      apply (request_ok_frame g); try done. destruct M6 as [?|Hscan]; [by left|]. right.
      destruct (scanning (r_pc r2)) eqn:Es; [|done]. apply scanning_holds in Es, Hscan.
      pose proof (own_lock w rid r g Hw Hr Hg Hscan) as L1. assert (selection g = Some rid2); [|congruence].
      apply (wo_lock w Hw _ _ _ Hg). by exists r2.
  - intros name g2 rid2. rewrite M3. destruct (decide (name = r_group r)) as [->|Hne].
    + rewrite lookup_insert_eq. intros [= <-]. by apply (put_lock w rid r g r' g').
    + rewrite lookup_insert_ne by done. intros Hg2. rewrite (wo_lock w Hw _ _ _ Hg2). destruct (decide (rid2 = rid)) as [->|Hne2].
      * rewrite lookup_insert_eq. split; intros (r2 & Hr2 & Hn & Hh); [|injection Hr2 as <-; congruence].
        rewrite Hr in Hr2. injection Hr2 as <-. congruence.
      * by rewrite lookup_insert_ne.
Qed.

(** ** Permits *)
Definition busy (r : Request) (n : nat) : bool :=
  existsb (λ p, (pr_number p =? n)%nat && bool_decide (pr_stage p = Connecting)) (tasks_of r).

Lemma busy_spec r n : busy r n = true ↔ ∃ p, p ∈ tasks_of r ∧ pr_number p = n ∧ pr_stage p = Connecting.
Proof.
  unfold busy. rewrite existsb_exists. setoid_rewrite andb_true_iff. setoid_rewrite Nat.eqb_eq. setoid_rewrite bool_decide_eq_true.
  setoid_rewrite <- list_elem_of_In. naive_solver.
Qed.

Lemma connecting_put rid g r w rid2 n :
  connecting (put rid g r w) rid2 n = if decide (rid2 = rid) then busy r n else connecting w rid2 n.
Proof.
  unfold connecting, put. cbn. destruct (decide (rid2 = rid)) as [->|]; [by rewrite lookup_insert_eq|by rewrite lookup_insert_ne].
Qed.

Lemma connecting_busy w rid r n : requests w !! rid = Some r → connecting w rid n = busy r n.
Proof. unfold connecting. by intros ->. Qed.

Lemma step_tasks time rid g r g' r' : step_request time rid g r = Some (g', r') → tasks_of r' = [].
Proof.
  unfold Groups.step_request, resume. destruct (r_pc r); repeat case_match; intros; simplify_eq; done.
Qed.

Lemma reply_tasks ok g r r' : reply configured ok g r = Some r' → tasks_of r' = [].
Proof. unfold reply. destruct (r_pc r); repeat case_match; intros; simplify_eq; done. Qed.

Lemma deadline_tasks rid g r g' r' : deadline rid g r = Some (g', r') → tasks_of r' = [].
Proof. unfold deadline. destruct (r_pc r); intros; simplify_eq; done. Qed.

Lemma launch_busy g r g' r' n : launch USIZE g r = Some (g', r') → busy r' n = true → busy r n = true.
Proof.
  unfold launch. destruct (r_pc r) eqn:E; try done. destruct (can_launch g launched tasks); [|done]. intros [= _ <-].
  rewrite !busy_spec. unfold tasks_of. rewrite E. cbn [r_pc dialling].
  intros (p & [Hp|Hp]%elem_of_app & Hn & Hs); [by exists p|]. apply list_elem_of_singleton in Hp as ->. done.
Qed.

Lemma join_busy number g r r' n : join number g r = Some r' → busy r' n = true → busy r n = true.
Proof.
  unfold join. destruct (r_pc r) eqn:E; try done. destruct (can_launch g launched tasks); [done|].
  destruct (probe number tasks) as [p|]; [|done]. cbn [mbind option_bind]. intros Hj. rewrite !busy_spec.
  assert (∀ q, q ∈ tasks_of r' → q ∈ tasks_of r) as Hsub; [|naive_solver]. unfold tasks_of at 2. rewrite E.
  destruct (pr_stage p) as [| |[|]]; try done; injection Hj as <-; cbn; intros q; [by intros ?%elem_of_nil|].
  by intros [Hq%list_elem_of_In _]%list_elem_of_In%List.filter_In.
Qed.

Lemma stage_busy number stage launched tasks r n :
  r_pc r = Scan launched tasks → busy (at_pc (Scan launched (set_stage number stage tasks)) r) n = true →
  n = number ∧ stage = Connecting ∨ n ≠ number ∧ busy r n = true.
Proof.
  intros E. rewrite !busy_spec. unfold tasks_of. rewrite E. cbn [r_pc at_pc].
  intros (p & (q & -> & Hq)%list_elem_of_fmap & Hn & Hs).
  destruct (Nat.eqb_spec (pr_number q) number) as [Eq|Eq]; cbn in *; [left; split; congruence|]. right. split; [congruence|by exists q].
Qed.

(** A request moves and no task of it starts to connect. *)
Lemma put_quiet w rid r g r' g' :
  world_ok w → requests w !! rid = Some r → groups w !! r_group r = Some g → moves rid g r g' r' →
  (∀ n, busy r' n = true → busy r n = true) → world_ok (put rid g' r' w).
Proof.
  intros Hw Hr Hg Hm Hb. change (put rid g' r' w) with (with_permits (permits w) (put rid g' r' w)).
  eapply put_ok; try done; [apply (wo_permits w Hw)|]. intros rid2 n. rewrite connecting_put. case_decide as E; [subst rid2|apply (wo_connecting w Hw)].
  intros Hn%Hb. apply (wo_connecting w Hw). by rewrite (connecting_busy w rid r).
Qed.

Lemma no_tasks_busy r r' : tasks_of r' = [] → ∀ n, busy r' n = true → busy r n = true.
Proof. intros E n. unfold busy. by rewrite E. Qed.

Lemma on_request_some rid w f w' :
  on_request rid w f = Some w' →
  ∃ r g, requests w !! rid = Some r ∧ groups w !! r_group r = Some g ∧ f g r = Some w'.
Proof.
  unfold on_request. destruct (requests w !! rid) as [r|]; [|done]. cbn [mbind option_bind].
  destruct (groups w !! r_group r) as [g|] eqn:E; [|done]. intros H. by exists r, g.
Qed.

Lemma world_step_ok w e w' : world_ok w → perform w e = Some w' → world_ok w'.
Proof.
  intros Hw. assert (∀ rid r g, requests w !! rid = Some r → groups w !! r_group r = Some g →
    request_ok g r ∧ 0 <= next_probe g < USIZE ∧ (holds (r_pc r) = true → selection g = Some rid)) as Hfacts.
  { intros rid r g Hr Hg. destruct (wo_request w Hw rid r Hr) as (g2 & Hg2 & Hok). rewrite Hg in Hg2. injection Hg2 as <-.
    split_and!; [done|by apply (wo_range w Hw _ _ Hg)..|by apply (own_lock w)]. }
  destruct e as [rid name|rid|rid ok|rid|rid number|rid number ok|rid number|rid|rid number|dt]; cbn [Groups.perform].
  - destruct (requests w !! rid) eqn:Er; [done|]. destruct (groups w !! name) as [g|] eqn:Eg; [|done]. intros [= <-]. split; cbn.
    + apply (wo_static w Hw).
    + apply (wo_range w Hw).
    + intros rid2 r2. rewrite lookup_insert_Some. intros [[<- <-]|[Hne Hr2]]; [|by apply (wo_request w Hw rid2)].
      exists g. split; [done|]. split; cbn; [done|constructor|by left].
    + intros name2 g2 rid2 Hg2. rewrite (wo_lock w Hw _ _ _ Hg2). setoid_rewrite lookup_insert_Some.
      split; intros (r2 & Hr2 & Hn & Hh); exists r2; (split; [|done]).
      * right. split; [congruence|done].
      * destruct Hr2 as [[<- <-]|[_ ?]]; done.
    + apply (wo_permits w Hw).
    + intros rid2 n. unfold connecting. cbn. destruct (decide (rid2 = rid)) as [->|]; [by rewrite lookup_insert_eq|].
      rewrite lookup_insert_ne by done. apply (wo_connecting w Hw).
  - intros (r & g & Hr & Hg & E)%on_request_some. destruct (Hfacts rid r g Hr Hg) as (H1 & H2 & H3).
    destruct (step_request (now w) rid g r) as [[g' r']|] eqn:Es; [|done]. injection E as <-.
    eapply put_quiet; [done|done|done|by eapply step_request_moves|]. by eapply no_tasks_busy, step_tasks.
  - intros (r & g & Hr & Hg & E)%on_request_some. destruct (Hfacts rid r g Hr Hg) as (H1 & H2 & H3).
    destruct (reply configured ok g r) as [r'|] eqn:Es; [|done]. injection E as <-.
    eapply put_quiet; [done|done|done|by eapply reply_moves|]. by eapply no_tasks_busy, reply_tasks.
  - intros (r & g & Hr & Hg & E)%on_request_some. destruct (Hfacts rid r g Hr Hg) as (H1 & H2 & H3).
    destruct (launch USIZE g r) as [[g' r']|] eqn:Es; [|done]. injection E as <-.
    eapply put_quiet; [done|done|done|by eapply launch_moves|]. intros n. by eapply launch_busy.
  - intros (r & g & Hr & Hg & E)%on_request_some. destruct (Hfacts rid r g Hr Hg) as (H1 & H2 & H3).
    destruct (r_pc r) as [| | | | | | | |launched tasks| | | | | | | | ] eqn:Epc; try done.
    destruct (probe number tasks) as [p|] eqn:Ep; [|done]. cbn [mbind option_bind] in E.
    destruct (bool_decide (pr_stage p = Queued) && _) eqn:Eb; [|done]. injection E as <-. apply andb_true_iff in Eb as [_ Hsize%Nat.ltb_lt].
    eapply put_ok; [done|done|done|eapply stage_moves; eauto; done| |].
    + destruct (decide ((rid, number) ∈ permits w)) as [Hin|Hin].
      * replace ({[(rid, number)]} ∪ permits w) with (permits w) by set_solver. lia.
      * rewrite size_union by set_solver. rewrite size_singleton. lia.
    + intros rid2 n. rewrite connecting_put. case_decide as Er; [subst rid2|intros Hn%(wo_connecting w Hw); set_solver].
      intros [[-> _]|[_ Hn]]%(stage_busy _ _ _ _ _ _ Epc); [set_solver|]. assert ((rid, n) ∈ permits w); [|set_solver].
      apply (wo_connecting w Hw). by rewrite (connecting_busy w rid r).
  - intros (r & g & Hr & Hg & E)%on_request_some. destruct (Hfacts rid r g Hr Hg) as (H1 & H2 & H3).
    destruct (r_pc r) as [| | | | | | | |launched tasks| | | | | | | | ] eqn:Epc; try done.
    destruct (probe number tasks) as [p|] eqn:Ep; [|done]. cbn [mbind option_bind] in E.
    destruct (bool_decide (pr_stage p = Connecting) && _) eqn:Eb; [|done]. injection E as <-. apply andb_true_iff in Eb as [_ Hans].
    eapply put_ok; [done|done|done|eapply stage_moves; eauto| |].
    + intros [= ->] q Hq. congruence.
    + pose proof (wo_permits w Hw). pose proof (subseteq_size (permits w ∖ {[(rid, number)]}) (permits w) ltac:(set_solver)). lia.
    + intros rid2 n. rewrite connecting_put. case_decide as Er; [subst rid2|intros Hn%(wo_connecting w Hw); set_solver].
      intros [[_ ?]|[Hne Hn]]%(stage_busy _ _ _ _ _ _ Epc); [done|]. assert ((rid, n) ∈ permits w); [|set_solver].
      apply (wo_connecting w Hw). by rewrite (connecting_busy w rid r).
  - intros (r & g & Hr & Hg & E)%on_request_some. destruct (Hfacts rid r g Hr Hg) as (H1 & H2 & H3).
    destruct (join number g r) as [r'|] eqn:Es; [|done]. injection E as <-.
    eapply put_quiet; [done|done|done|by eapply join_moves|]. intros n. by eapply join_busy.
  - intros (r & g & Hr & Hg & E)%on_request_some. destruct (Hfacts rid r g Hr Hg) as (H1 & H2 & H3).
    destruct (deadline rid g r) as [[g' r']|] eqn:Es; [|done]. injection E as <-.
    eapply put_quiet; [done|done|done|by eapply deadline_moves|]. by eapply no_tasks_busy, deadline_tasks.
  - destruct (bool_decide ((rid, number) ∈ permits w) && negb (connecting w rid number)) eqn:Eb; [|done]. intros [= <-].
    apply andb_true_iff in Eb as [_ Hc%negb_true_iff]. destruct Hw as [W0 W1 W2 W3 W4 W5]. split; try done; cbn.
    + pose proof (subseteq_size (permits w ∖ {[(rid, number)]}) (permits w) ltac:(set_solver)). lia.
    + intros rid2 n Hn. change (connecting _ rid2 n) with (connecting w rid2 n) in Hn. pose proof (W5 rid2 n Hn).
      apply elem_of_difference. split; [done|]. intros [= -> ->]%elem_of_singleton. congruence.
  - destruct (0 <=? dt); [|done]. intros [= <-]. by destruct Hw; split.
Qed.

Lemma world_run_ok es : ∀ w w', world_ok w → run w es = Some w' → world_ok w'.
Proof.
  induction es as [|e es IH]; intros w w' Hw; cbn [Groups.run]; [by intros [= <-]|].
  destruct (perform w e) as [w1|] eqn:E; [|done]. apply IH. by eapply world_step_ok.
Qed.
End spec.

(** ** From the configuration *)
Section built.
Context {Node : Type} (node_fingerprint : Node → list Z).

Lemma build_groups_lookup configs nodes name g :
  build_groups node_fingerprint configs nodes !! name = Some g →
  ∃ config, config ∈ configs ∧ g_name config = name ∧ g = build_group (NodeIndex_new node_fingerprint nodes) config.
Proof.
  unfold build_groups. destruct configs as [|c configs]; [by rewrite lookup_empty|]. set (index := NodeIndex_new _ _).
  generalize (c :: configs). clear c configs. intros configs.
  assert (∀ out : gmap (list Z) GroupOutbound, foldl (λ out group, <[g_name group := build_group index group]> out) out configs !! name = Some g →
    out !! name = Some g ∨ ∃ config, config ∈ configs ∧ g_name config = name ∧ g = build_group index config) as Hgo.
  { induction configs as [|c configs IH]; intros out; cbn [foldl]; [by left|]. intros [E|(config & H1 & H2 & H3)]%IH.
    - apply lookup_insert_Some in E as [[E1 E2]|[_ E]]; [|by left]. right. exists c. split_and!; try done. apply list_elem_of_here.
    - right. exists config. split_and!; try done. by apply list_elem_of_further. }
  intros [E|E]%Hgo; [by rewrite lookup_empty in E|done].
Qed.

Lemma index_node nodes fp i :
  NodeIndex_new node_fingerprint nodes !! fp = Some i → ∃ n, nodes !! i = Some n ∧ node_fingerprint n = fp.
Proof.
  rewrite index_lookup. revert i. induction nodes as [|n nodes IH]; intros i; cbn [position]; [done|].
  case_bool_decide as E; [intros [= <-]; by exists n|]. destruct (position _ nodes) as [j|]; [|done]. intros [= <-]. by apply IH.
Qed.

Lemma build_group_members nodes config i :
  i ∈ members (build_group (NodeIndex_new node_fingerprint nodes) config) →
  ∃ n, nodes !! i = Some n ∧ node_fingerprint n ∈ g_members config.
Proof.
  intros Hi. assert (∃ fp, fp ∈ g_members config ∧ NodeIndex_new node_fingerprint nodes !! fp = Some i) as (fp & Hfp & Hx).
  { cbn in Hi. unfold NodeIndex_resolve_members, NodeIndex_selected_member in Hi. destruct (g_type config).
    - destruct (g_current config) as [c|].
      + destruct (existsb _ _) eqn:E; [|by apply elem_of_nil in Hi]. apply existsb_exists in E as (x & Hx%list_elem_of_In & ->%bool_decide_eq_true).
        destruct (_ !! c) as [j|] eqn:Ej; [|by apply elem_of_nil in Hi]. apply list_elem_of_singleton in Hi as ->. by exists c.
      + destruct (head _) as [j|] eqn:Ej; [|by apply elem_of_nil in Hi]. apply list_elem_of_singleton in Hi as ->.
        apply head_Some_elem_of in Ej. apply list_elem_of_omap in Ej as (x & Hx & E). by exists x.
    - apply list_elem_of_omap in Hi as (x & Hx & E). by exists x.
    - apply list_elem_of_omap in Hi as (x & Hx & E). by exists x. }
  destruct (index_node nodes fp i Hx) as (n & Hn & E). exists n. split; [done|]. by rewrite E.
Qed.

Lemma start_ok USIZE configured configs nodes time :
  0 < USIZE →
  world_ok USIZE configured ((λ g, (members g, kind g)) <$> build_groups node_fingerprint configs nodes)
    (start node_fingerprint configs nodes time).
Proof.
  intros Hu. split; cbn; try done.
  - intros name g (config & _ & _ & ->)%build_groups_lookup. cbn. lia.
  - intros name g rid (config & _ & _ & ->)%build_groups_lookup. cbn. split; [done|]. intros (r & Hr & _). by rewrite lookup_empty in Hr.
  - unfold GLOBAL_PROBE_CONCURRENCY. rewrite size_empty. lia.
Qed.

(** The node pinned to an id is the first that has it. *)
Lemma pinned_lookup (node_public_id : list Z → list Z) nodes id :
  pinned_nodes node_fingerprint node_public_id nodes !! id =
    position (λ n, bool_decide (node_public_id (node_fingerprint n) = id)) nodes.
Proof.
  unfold pinned_nodes. assert (∀ pos out, pin_from node_fingerprint node_public_id pos nodes out !! id =
    match out !! id with Some i => Some i | None =>
      (λ i, (pos + i)%nat) <$> position (λ n, bool_decide (node_public_id (node_fingerprint n) = id)) nodes end) as Hgo.
  { induction nodes as [|n nodes IH]; intros pos out; cbn [pin_from position]; [by destruct (out !! id)|].
    rewrite IH. case_bool_decide as E.
    - rewrite E. destruct (out !! id) eqn:Eo; [by rewrite Eo|]. rewrite lookup_insert_eq. cbn. f_equal. lia.
    - assert ((match out !! node_public_id (node_fingerprint n) with Some _ => out | None => <[node_public_id (node_fingerprint n) := pos]> out end) !! id
        = out !! id) as -> by (case_match; [done|by rewrite lookup_insert_ne]).
      destruct (out !! id); [done|]. destruct (position _ nodes); cbn; [|done]. f_equal. lia. }
  rewrite Hgo, lookup_empty. by destruct (position _ nodes).
Qed.

(** What a run keeps of the configuration. *)
Lemma run_group USIZE configured configs nodes time es w rid r :
  0 < USIZE → run USIZE configured (start node_fingerprint configs nodes time) es = Some w → requests w !! rid = Some r →
  ∃ config g, config ∈ configs ∧ g_name config = r_group r ∧ groups w !! r_group r = Some g ∧ request_ok USIZE configured g r ∧
    members g = members (build_group (NodeIndex_new node_fingerprint nodes) config) ∧
    kind g = kind (build_group (NodeIndex_new node_fingerprint nodes) config).
Proof.
  intros Hu Hrun Hr. pose proof (world_run_ok USIZE Hu configured _ es _ _ (start_ok USIZE configured configs nodes time Hu) Hrun) as Hw.
  destruct (wo_request _ _ _ _ Hw rid r Hr) as (g & Hg & Hok). pose proof (wo_static _ _ _ _ Hw) as Hs.
  apply (f_equal (λ m, m !! r_group r)) in Hs. rewrite !lookup_fmap, Hg in Hs. cbn in Hs. symmetry in Hs.
  apply fmap_Some in Hs as (g0 & (config & H1 & H2 & ->)%build_groups_lookup & [= E1 E2]). exists config, g. by split_and!.
Qed.

(** C24. What a request to a group gets. However requests to the groups of a
    configuration interleave, and whatever the network answers: a request dials
    members of its group only; in a group with a fixed choice it dials that choice
    alone, and the group has no member when the choice is missing.  A connection comes
    from a configured member the request dialled, a node whose fingerprint the group
    lists, and to that node, once, its traffic is credited; a request that gets no
    connection is credited to none.  It is told the group is unavailable only after it
    dialled everyone: the fixed choice, each member of a fallback group once, or, in
    order and behind at most one sticky member, each member of a url-test group (once,
    unless the counter of probes wraps around meanwhile).  Otherwise it is told that
    the member a concurrent request had just picked failed, or it ran into its
    deadline. *)
Theorem groups_connect_spec USIZE configured configs nodes time es w rid r :
  0 < USIZE → run USIZE configured (start node_fingerprint configs nodes time) es = Some w → requests w !! rid = Some r →
  ∃ config g, config ∈ configs ∧ g_name config = r_group r ∧ groups w !! r_group r = Some g ∧
    let len := length (members g) in
    Forall (λ i, (i < len)%nat) (r_tried r) ∧
    (kind g = KSelect → (r_tried r = [] ∨ r_tried r = [O]) ∧
      members g = option_list (NodeIndex_selected_member (NodeIndex_new node_fingerprint nodes) config)) ∧
    match r_pc r with
    | Connected i => ∃ node n, members g !! i = Some node ∧ configured node = true ∧ i ∈ r_tried r ∧ r_noted r = [node] ∧
        nodes !! node = Some n ∧ node_fingerprint n ∈ g_members config
    | Unavailable => r_noted r = [] ∧
        match kind g with
        | KSelect => r_tried r = match len with O => [] | _ => [O] end
        | KFallback => Permutation (r_tried r) (seq 0 len)
        | KUrlTest => len = O ∧ r_tried r = [] ∨
            ∃ pre base, (length pre <= 1)%nat ∧ r_tried r = pre ++ scan_order USIZE base len len ∧ 0 <= base < USIZE ∧
              (base + Z.of_nat len <= USIZE → Permutation (scan_order USIZE base len len) (seq 0 len))
        end
    | PickFailed i => kind g = KUrlTest ∧ r_noted r = [] ∧ last (r_tried r) = Some i
    | Abandoned => r_noted r = []
    | _ => True
    end.
Proof.
  intros Hu Hrun Hr. destruct (run_group _ _ _ _ _ _ _ _ _ Hu Hrun Hr) as (config & g & H1 & H2 & H3 & [Hpc Hm Hs] & Em & Ek).
  exists config, g. do 3 (split; [done|]). split; [exact Hm|]. split.
  { intros K. split; [by apply Hs|]. rewrite Em. rewrite Ek in K. cbn in K |- *. destruct (g_type config); try done.
    all: by destruct (NodeIndex_selected_member _ config). }
  unfold pc_ok in Hpc. destruct (r_pc r); try done.
  - destruct Hpc as (node & P1 & P2 & P3 & P4). destruct (build_group_members nodes config node) as (n & N1 & N2).
    { rewrite <- Em. by eapply list_elem_of_lookup_2. }
    by exists node, n.
  - destruct Hpc as (P1 & (pre & _ & ->) & P3). rewrite last_snoc. by split_and!.
  - destruct Hpc as [P1 P2]. split; [done|]. unfold exhausted, len_ in P2. destruct (kind g); [done|..].
    + destruct P2 as [st ->]. destruct (length (members g)) eqn:El; [done|]. apply rotation_permutation; lia.
    + destruct P2 as [?|(pre & base & O & B & ->)]; [by left|]. right. exists pre, base. split; [destruct O as [->|(i & -> & _)]; simpl; lia|]. split; [done|]. split; [done|].
      intros Hw. destruct (length (members g)) eqn:El; [done|]. apply scan_permutation; lia.
Qed.
End built.
