(* ===== verification/GroupsLive.v ===== *)
(** * Runtime groups: limits, and every request ends *)
From S2P Require Import Prelude RuleMode RuleModeSpec Groups GroupsSpec.

#[local] Open Scope nat_scope.

(** The request an event belongs to, and the events that time and callers alone bring. *)
Definition owner (e : Event) : option nat :=
  match e with
  | Step rid | Reply rid _ | Launch rid | Acquire rid _ | ProbeEnds rid _ _ | Join rid _ | Deadline rid => Some rid
  | Arrive _ _ | TaskDropped _ _ | Tick _ => None
  end.
Definition spontaneous (e : Event) : bool :=
  match e with Arrive _ _ | Deadline _ | Tick _ => true | _ => false end.
Definition finished (pc : Pc) : bool :=
  match pc with Connected _ | PickFailed _ | Unavailable | Abandoned => true | _ => false end.
Definition moves_of (rid : nat) (es : list Event) : nat :=
  length (List.filter (λ e, bool_decide (owner e = Some rid)) es).

(** ** How many moves a request of a group of [n] members has left *)
Definition stage_weight (st : Stage) : nat := match st with Queued => 3 | Connecting => 2 | Groups.Finished _ => 1 end.
Definition tasks_weight (tasks : list Probe) : nat := sum_list (map (λ p, stage_weight (pr_stage p)) tasks).
Definition weight (n : nat) (pc : Pc) : nat :=
  match pc with
  | Begin => 14 + 4 * n
  | StickyLock (SecondTry _) => 7 + 4 * n
  | StickySwap (SecondTry _) => 6 + 4 * n
  | StickyLoad (SecondTry _) => 5 + 4 * n
  | StickyLock _ => 13 + 4 * n
  | StickySwap _ => 12 + 4 * n
  | StickyLoad _ => 11 + 4 * n
  | DialSticky _ _ => 10 + 4 * n
  | AwaitSelection _ => 9 + 4 * n
  | Recheck _ => 8 + 4 * n
  | DialPicked _ => 1
  | Scan launched tasks => 4 + 4 * (n - launched) + tasks_weight tasks
  | Attempt _ offset => 4 + (n - offset)
  | StorePreferred _ _ => 3
  | StoreSticky _ _ => 2
  | BumpGeneration _ _ => 1
  | Connected _ | PickFailed _ | Unavailable | Abandoned => 0
  end.

Section live.
Context (USIZE : Z) (configured : nat → bool).

Lemma resume_weight from index g r g' r' :
  resume from index g r = (g', r') →
  weight (len_ g) (r_pc r') < weight (len_ g) (StickyLoad from) ∨ index = None ∧ weight (len_ g) (r_pc r') < weight (len_ g) (StickySwap from).
Proof.
  unfold resume. destruct from, index; intros [= <- <-]; cbn [r_pc weight tasks_weight map sum_list sum_list_with]; 
    first [left; lia|right; split; [done|]; cbn; lia].
Qed.

Lemma step_weight time rid g r g' r' :
  step_request USIZE time rid g r = Some (g', r') → weight (len_ g) (r_pc r') < weight (len_ g) (r_pc r).
Proof.
  unfold step_request. destruct (r_pc r) as [|from|from|from| | | | |launched tasks| |b i|b i|b i| | | | ] eqn:E; try done.
  - destruct (len_ g =? 0); [intros [= <- <-]; cbn; lia|]. destruct (kind g); intros [= <- <-]; cbn; lia.
  - case_match; intros [= <- <-]; destruct from; cbn; lia.
  - destruct (use_saved g); [intros [= <- <-]; destruct from; cbn; lia|]. intros [= Hr]. apply resume_weight in Hr.
    change (len_ (with_use_saved false g)) with (len_ g) in Hr. destruct Hr as [Hr|[_ Hr]]; [|done]. destruct from; cbn in *; lia.
  - intros [= Hr]. apply resume_weight in Hr. by destruct Hr as [Hr|[? _]].
  - destruct (selection g); intros [= <- <-]; cbn; lia.
  - destruct (negb _); intros [= <- <-]; cbn; lia.
  - destruct tasks; [|done]. destruct (launched <? len_ g); intros [= <- <-]; cbn; lia.
  - intros [= <- <-]; cbn; lia.
  - intros [= <- <-]; cbn; lia.
  - destruct b; intros [= <- <-]; cbn; lia.
Qed.

Lemma reply_weight ok g r r' : reply configured ok g r = Some r' → weight (len_ g) (r_pc r') < weight (len_ g) (r_pc r).
Proof.
  unfold reply. destruct (r_pc r) eqn:E; try done; destruct (may_answer _ _ _ _); try done; cbn [negb].
  - destruct ok; intros [= <-]; cbn; lia.
  - destruct ok; intros [= <-]; cbn; lia.
  - destruct ok; [destruct (kind g); intros [= <-]; cbn; lia|].
    destruct (Nat.ltb_spec (S offset) (match kind g with KFallback => len_ g | _ => 1 end)); intros [= <-]; [|cbn; lia].
    destruct (kind g); [lia| |lia]. cbn. lia.
Qed.

Lemma tasks_weight_app a b : tasks_weight (a ++ b) = tasks_weight a + tasks_weight b.
Proof. unfold tasks_weight. by rewrite map_app, sum_list_with_app. Qed.

Lemma launch_weight g r g' r' : launch USIZE g r = Some (g', r') → weight (len_ g) (r_pc r') < weight (len_ g) (r_pc r).
Proof.
  unfold launch. destruct (r_pc r) eqn:E; try done. unfold can_launch. destruct (Nat.ltb_spec launched (len_ g)); [|by rewrite andb_false_r].
  destruct (_ <? _); [|done]. cbn [andb]. intros [= <- <-]. cbn [r_pc dialling weight]. rewrite tasks_weight_app. cbn. lia.
Qed.

Lemma deadline_weight rid g r g' r' : deadline rid g r = Some (g', r') → weight (len_ g) (r_pc r') < weight (len_ g) (r_pc r).
Proof. unfold deadline. destruct (r_pc r); try done; intros [= <- <-]; cbn; lia. Qed.

Lemma set_stage_weight number stage tasks p :
  NoDup (map pr_number tasks) → probe number tasks = Some p →
  tasks_weight (set_stage number stage tasks) + stage_weight (pr_stage p) = tasks_weight tasks + stage_weight stage.
Proof.
  induction tasks as [|q tasks IH]; [done|]. cbn [map set_stage]. intros [Hq Hd]%NoDup_cons. unfold probe. cbn [List.find].
  unfold tasks_weight. cbn [map sum_list sum_list_with]. destruct (Nat.eqb_spec (pr_number q) number) as [E|E].
  - intros [= ->]. cbn [pr_stage]. assert (set_stage number stage tasks = tasks) as Es; [|unfold set_stage in Es; rewrite Es; cbn; lia].
    unfold set_stage. rewrite <- (List.map_id tasks) at 2. apply map_ext_in. intros x Hx%list_elem_of_In.
    destruct (Nat.eqb_spec (pr_number x) number) as [Ex|]; [|done]. exfalso. apply Hq. rewrite E, <- Ex. by apply (list_elem_of_fmap_2 pr_number).
  - intros Hp. specialize (IH Hd Hp). unfold tasks_weight, set_stage in IH. cbn in *. lia.
Qed.

Lemma filter_weight q tasks p : p ∈ tasks → q p = false → tasks_weight (List.filter q tasks) < tasks_weight tasks.
Proof.
  assert (∀ l, tasks_weight (List.filter q l) <= tasks_weight l) as Hle.
  { induction l as [|x l IH]; [done|]. cbn [List.filter]. unfold tasks_weight in *. destruct (q x); cbn; lia. }
  induction tasks as [|x tasks IH]; [by intros ?%elem_of_nil|]. intros [->|Hp]%elem_of_cons Hq; cbn [List.filter].
  - rewrite Hq. specialize (Hle tasks). unfold tasks_weight in *. cbn. destruct (pr_stage x); cbn; lia.
  - specialize (IH Hp Hq). unfold tasks_weight in *. destruct (q x); cbn; lia.
Qed.

Lemma join_weight number g r r' : join number g r = Some r' → weight (len_ g) (r_pc r') < weight (len_ g) (r_pc r).
Proof.
  unfold join. destruct (r_pc r) eqn:E; try done. destruct (can_launch g launched tasks); [done|].
  destruct (probe number tasks) as [p|] eqn:Ep; [|done]. cbn [mbind option_bind]. apply probe_some in Ep as [Hin Hn].
  destruct (pr_stage p) as [| |[|]]; try done; intros [= <-]; cbn [r_pc at_pc weight]; [lia|].
  pose proof (filter_weight (λ p, negb (pr_number p =? number)) tasks p Hin ltac:(cbn; rewrite Hn; by rewrite Nat.eqb_refl)). lia.
Qed.

(** ** Moves in the world *)
Context (usize_pos : (0 < USIZE)%Z) (built : gmap (list Z) (list nat * GroupKind)).
Notation world_ok := (world_ok USIZE configured built).
Notation perform := (perform USIZE configured).
Notation run := (run USIZE configured).

Lemma put_request rid g r w : requests (put rid g r w) !! rid = Some r.
Proof. apply lookup_insert_eq. Qed.

Lemma perform_other w e w' rid r :
  owner e ≠ Some rid → requests w !! rid = Some r → perform w e = Some w' → requests w' !! rid = Some r.
Proof.
  intros Ho Hr. destruct e as [rid2 name|rid2|rid2 ok|rid2|rid2 n|rid2 n ok|rid2 n|rid2|rid2 n|dt]; cbn [Groups.perform].
  1: { destruct (requests w !! rid2) eqn:E; [done|]. destruct (groups w !! name); [|done]. intros [= <-]. cbn.
       rewrite lookup_insert_ne; [done|congruence]. }
  8,9: repeat case_match; intros; simplify_eq; done.
  all: intros (r2 & g2 & H1 & H2 & H3)%on_request_some; assert (rid2 ≠ rid) as Hne by (intros ->; by apply Ho);
    unfold mbind, option_bind in H3; repeat (case_match; simplify_eq); cbn; by rewrite lookup_insert_ne.
Qed.

(** A request stays with its group. *)
Lemma step_group time rid g r g' r' : step_request USIZE time rid g r = Some (g', r') → r_group r' = r_group r.
Proof. unfold step_request, resume. intros E. destruct (r_pc r); repeat (case_match; simplify_eq; try done); by simplify_eq. Qed.
Lemma reply_group ok g r r' : reply configured ok g r = Some r' → r_group r' = r_group r.
Proof. unfold reply. intros E. destruct (r_pc r); repeat (case_match; simplify_eq; try done); by simplify_eq. Qed.
Lemma launch_group g r g' r' : launch USIZE g r = Some (g', r') → r_group r' = r_group r.
Proof. unfold launch. intros E. destruct (r_pc r); repeat (case_match; simplify_eq; try done); by simplify_eq. Qed.
Lemma join_group number g r r' : join number g r = Some r' → r_group r' = r_group r.
Proof. unfold join, mbind, option_bind. intros E. destruct (r_pc r); repeat (case_match; simplify_eq; try done); by simplify_eq. Qed.
Lemma deadline_group rid g r g' r' : deadline rid g r = Some (g', r') → r_group r' = r_group r.
Proof. unfold deadline. intros E. destruct (r_pc r); simplify_eq; done. Qed.

Lemma perform_own w e w' rid r g :
  world_ok w → owner e = Some rid → requests w !! rid = Some r → groups w !! r_group r = Some g → perform w e = Some w' →
  ∃ r', requests w' !! rid = Some r' ∧ r_group r' = r_group r ∧ weight (len_ g) (r_pc r') < weight (len_ g) (r_pc r).
Proof.
  intros Hw Ho Hr Hg. assert (request_ok USIZE configured g r) as [Hpc _ _].
  { destruct (wo_request _ _ _ _ Hw rid r Hr) as (g2 & Hg2 & Hok). rewrite Hg in Hg2. by injection Hg2 as <-. }
  assert (∀ f, on_request rid w f = Some w' → f g r = Some w') as Hon by (intros f; unfold on_request; rewrite Hr; cbn; by rewrite Hg).
  assert (∀ stage number launched tasks p, r_pc r = Scan launched tasks → probe number tasks = Some p →
    stage_weight stage < stage_weight (pr_stage p) →
    weight (len_ g) (Scan launched (set_stage number stage tasks)) < weight (len_ g) (r_pc r)) as Hstage.
  { intros stage number launched tasks p E Ep Hlt. unfold pc_ok in Hpc. rewrite E in Hpc |- *.
    destruct Hpc as (_ & _ & (? & ? & _ & _ & _ & _ & _ & _ & Hd & _) & _). cbn. pose proof (set_stage_weight number stage tasks p Hd Ep). lia. }
  destruct e as [rid2 name|rid2|rid2 ok|rid2|rid2 n|rid2 n ok|rid2 n|rid2|rid2 n|dt]; try discriminate Ho; injection Ho as ->;
    cbn [Groups.perform]; intros E%Hon.
  - destruct (step_request USIZE (now w) rid g r) as [[g' r']|] eqn:Es; [|done]. injection E as <-. exists r'.
    split_and!; [apply put_request|by eapply step_group|by eapply step_weight].
  - destruct (reply configured ok g r) as [r'|] eqn:Es; [|done]. injection E as <-. exists r'. split_and!; [apply put_request|by eapply reply_group|by eapply reply_weight].
  - destruct (launch USIZE g r) as [[g' r']|] eqn:Es; [|done]. injection E as <-. exists r'. split_and!; [apply put_request|by eapply launch_group|by eapply launch_weight].
  - destruct (r_pc r) as [| | | | | | | |launched tasks| | | | | | | | ] eqn:Epc; try done. destruct (probe n tasks) as [p|] eqn:Ep; [|done].
    cbn [mbind option_bind] in E. destruct (bool_decide (pr_stage p = Queued) && _) eqn:Eb; [|done]. injection E as <-.
    apply andb_true_iff in Eb as [Eq%bool_decide_eq_true _]. eexists. split; [apply put_request|]. split; [done|]. cbn [r_pc at_pc].
    eapply Hstage; [done|done|]. rewrite Eq. cbn. lia.
  - destruct (r_pc r) as [| | | | | | | |launched tasks| | | | | | | | ] eqn:Epc; try done. destruct (probe n tasks) as [p|] eqn:Ep; [|done].
    cbn [mbind option_bind] in E. destruct (bool_decide (pr_stage p = Connecting) && _) eqn:Eb; [|done]. injection E as <-.
    apply andb_true_iff in Eb as [Eq%bool_decide_eq_true _]. eexists. split; [apply put_request|]. split; [done|]. cbn [r_pc at_pc].
    eapply Hstage; [done|done|]. rewrite Eq. cbn. lia.
  - destruct (join n g r) as [r'|] eqn:Es; [|done]. injection E as <-. exists r'. split_and!; [apply put_request|by eapply join_group|by eapply join_weight].
  - destruct (deadline rid g r) as [[g' r']|] eqn:Es; [|done]. injection E as <-. exists r'. split_and!; [apply put_request|by eapply deadline_group|by eapply deadline_weight].
Qed.

Lemma static_len w name g : world_ok w → groups w !! name = Some g → len_ g = match built !! name with Some (ms, _) => length ms | None => 0 end.
Proof. intros Hw Hg. rewrite <- (wo_static _ _ _ _ Hw), lookup_fmap, Hg. done. Qed.

Lemma run_moves es : ∀ w w' rid r,
  world_ok w → requests w !! rid = Some r → run w es = Some w' →
  moves_of rid es <= weight (match built !! r_group r with Some (ms, _) => length ms | None => 0 end) (r_pc r).
Proof.
  induction es as [|e es IH]; intros w w' rid r Hw Hr; cbn [Groups.run]; [intros _; unfold moves_of; cbn; lia|].
  destruct (perform w e) as [w1|] eqn:E; [|done]. cbn [mbind option_bind]. intros Hrun. pose proof (world_step_ok USIZE usize_pos configured built w e w1 Hw E) as Hw1.
  unfold moves_of. cbn [List.filter]. case_bool_decide as Ho; cbn [length].
  - destruct (wo_request _ _ _ _ Hw rid r Hr) as (g & Hg & _). destruct (perform_own w e w1 rid r g Hw Ho Hr Hg E) as (r1 & Hr1 & Eg & Hlt).
    specialize (IH w1 w' rid r1 Hw1 Hr1 Hrun). unfold moves_of in IH. rewrite <- (static_len w _ g) by done.
    rewrite Eg, <- (static_len w _ g) in IH by done. lia.
  - apply (IH w1 w'); [done| |done]. by eapply perform_other.
Qed.

(** ** Somebody can always move *)
Definition enabled (w : World) : Prop := ∃ e, spontaneous e = false ∧ is_Some (perform w e).

Lemma on_enabled rid w r g e f :
  requests w !! rid = Some r → groups w !! r_group r = Some g → spontaneous e = false →
  perform w e = on_request rid w f → is_Some (f g r) → enabled w.
Proof. intros Hr Hg Hs E Hf. exists e. split; [done|]. rewrite E. unfold on_request. rewrite Hr. cbn. by rewrite Hg. Qed.

Lemma step_enabled w rid r g :
  requests w !! rid = Some r → groups w !! r_group r = Some g → is_Some (step_request USIZE (now w) rid g r) → enabled w.
Proof.
  intros Hr Hg [[g' r'] E]. eapply (on_enabled rid w r g (Step rid)); [done..|]. cbn beta. rewrite E. by eexists.
Qed.

Lemma no_answer_enabled w rid r g :
  requests w !! rid = Some r → groups w !! r_group r = Some g → is_Some (reply configured false g r) → enabled w.
Proof.
  intros Hr Hg [r' E]. eapply (on_enabled rid w r g (Reply rid false)); [done..|]. cbn beta. rewrite E. by eexists.
Qed.

Lemma probe_own tasks p : NoDup (map pr_number tasks) → p ∈ tasks → probe (pr_number p) tasks = Some p.
Proof.
  unfold probe. induction tasks as [|q tasks IH]; [by intros _ ?%elem_of_nil|]. cbn [map List.find].
  intros [Hq Hd]%NoDup_cons [->|Hp]%elem_of_cons; [by rewrite Nat.eqb_refl|].
  destruct (Nat.eqb_spec (pr_number q) (pr_number p)) as [E|]; [|by apply IH].
  exfalso. apply Hq. rewrite E. by apply (list_elem_of_fmap_2 pr_number).
Qed.

(** A task that connects can fail. *)
Lemma connecting_enabled w rid n : world_ok w → connecting w rid n = true → enabled w.
Proof.
  intros Hw Hc. pose proof Hc as Hb. unfold connecting in Hb. destruct (requests w !! rid) as [r|] eqn:Hr; [|done].
  change (busy r n = true) in Hb. apply (busy_spec configured) in Hb as (p & Hp & <- & Hs).
  destruct (wo_request _ _ _ _ Hw rid r Hr) as (g & Hg & [Hpc _ _]). unfold pc_ok in Hpc. unfold tasks_of in Hp.
  destruct (r_pc r) as [| | | | | | | |launched tasks| | | | | | | | ] eqn:Epc; try by apply elem_of_nil in Hp.
  destruct Hpc as (_ & _ & (? & ? & _ & _ & _ & _ & _ & _ & Hd & _) & _).
  eapply (on_enabled rid w r g (ProbeEnds rid (pr_number p) false)); [done..|]. cbn beta. rewrite Epc, (probe_own tasks p) by done.
  cbn [mbind option_bind]. rewrite Hs. by eexists.
Qed.

Lemma permit_enabled w : world_ok w → permits w ≠ ∅ → enabled w.
Proof.
  intros Hw Hne. apply set_choose_L in Hne as [[rid n] Hin]. destruct (connecting w rid n) eqn:E; [by eapply connecting_enabled|].
  exists (TaskDropped rid n). split; [done|]. cbn. rewrite bool_decide_eq_true_2, E by done. by eexists.
Qed.

Lemma scan_enabled w rid r g launched tasks :
  world_ok w → requests w !! rid = Some r → groups w !! r_group r = Some g → r_pc r = Scan launched tasks →
  pc_ok USIZE configured g r → enabled w.
Proof.
  intros Hw Hr Hg Epc Hpc. unfold pc_ok in Hpc. rewrite Epc in Hpc.
  destruct Hpc as (_ & _ & (? & ? & _ & _ & _ & _ & _ & _ & Hd & _) & _).
  destruct (can_launch g launched tasks) eqn:Ec.
  { eapply (on_enabled rid w r g (Launch rid)); [done..|]. cbn beta. unfold launch. rewrite Epc, Ec. by eexists. }
  destruct tasks as [|p tasks].
  { eapply step_enabled; [done|done|]. unfold step_request. rewrite Epc. change (can_launch g launched []) with (launched <? len_ g) in Ec. rewrite Ec. by eexists. }
  set (all := p :: tasks) in *. assert (probe (pr_number p) all = Some p) as Hp by (apply probe_own; [done|apply list_elem_of_here]).
  destruct (pr_stage p) as [| |ok] eqn:Es.
  - destruct (decide (size (permits w) < GLOBAL_PROBE_CONCURRENCY)) as [Hlt|Hge].
    + eapply (on_enabled rid w r g (Acquire rid (pr_number p))); [done..|]. cbn beta. rewrite Epc, Hp. cbn [mbind option_bind]. rewrite Es.
      rewrite (proj2 (Nat.ltb_lt _ _) Hlt). by eexists.
    + apply permit_enabled; [done|]. intros E. rewrite E, size_empty in Hge. unfold GLOBAL_PROBE_CONCURRENCY in Hge. lia.
  - eapply (on_enabled rid w r g (ProbeEnds rid (pr_number p) false)); [done..|]. cbn beta. rewrite Epc, Hp. cbn [mbind option_bind]. rewrite Es.
    by eexists.
  - eapply (on_enabled rid w r g (Join rid (pr_number p))); [done..|]. cbn beta. unfold join. rewrite Epc, Ec, Hp. cbn [mbind option_bind]. rewrite Es.
    destruct ok; by eexists.
Qed.

(** The steps that wait for nothing. *)
Definition local (pc : Pc) : bool :=
  match pc with
  | Begin | StickyLock _ | StickySwap _ | StickyLoad _ | Recheck _ | StorePreferred _ _ | StoreSticky _ _ | BumpGeneration _ _ => true
  | _ => false
  end.

Lemma local_enabled w rid r g :
  requests w !! rid = Some r → groups w !! r_group r = Some g → local (r_pc r) = true → enabled w.
Proof.
  intros Hr Hg Hl. eapply step_enabled; [done|done|]. unfold step_request. destruct (r_pc r); try done; repeat case_match; by eexists.
Qed.

(** Whoever holds the selection of a group can move. *)
Lemma holder_enabled w rid r :
  world_ok w → requests w !! rid = Some r → holds (r_pc r) = true → enabled w.
Proof.
  intros Hw Hr Hh. destruct (wo_request _ _ _ _ Hw rid r Hr) as (g & Hg & [Hpc _ _]).
  destruct (local (r_pc r)) eqn:El; [by eapply local_enabled|].
  destruct (r_pc r) as [| | | | | | | |launched tasks| | | | | | | | ] eqn:Epc; try done. by eapply scan_enabled.
Qed.

Lemma unfinished_enabled w rid r :
  world_ok w → requests w !! rid = Some r → finished (r_pc r) = false → enabled w.
Proof.
  intros Hw Hr Hf. destruct (wo_request _ _ _ _ Hw rid r Hr) as (g & Hg & _).
  destruct (holds (r_pc r)) eqn:Hh; [by eapply holder_enabled|]. destruct (local (r_pc r)) eqn:El; [by eapply local_enabled|].
  destruct (r_pc r) as [| | | |gen i|gen| |i| |start off| | | | | | | ] eqn:Epc; try done.
  - eapply no_answer_enabled; [done|done|]. unfold reply. rewrite Epc. by eexists.
  - destruct (selection g) as [owner_|] eqn:Es.
    + apply (wo_lock _ _ _ _ Hw _ _ _ Hg) in Es as (r2 & Hr2 & _ & Hh2). by eapply holder_enabled.
    + eapply step_enabled; [done|done|]. unfold step_request. rewrite Epc, Es. by eexists.
  - eapply no_answer_enabled; [done|done|]. unfold reply. rewrite Epc. by eexists.
  - eapply no_answer_enabled; [done|done|]. unfold reply. rewrite Epc. cbn [may_answer negb orb]. by destruct (S off <? _); eexists.
Qed.

(** A request that has [k] tasks left has few moves left. *)
Lemma weight_bound w rid r g :
  world_ok w → requests w !! rid = Some r → groups w !! r_group r = Some g → weight (len_ g) (r_pc r) <= 16 + 4 * len_ g.
Proof.
  intros Hw Hr Hg. destruct (wo_request _ _ _ _ Hw rid r Hr) as (g2 & Hg2 & [Hpc _ _]). rewrite Hg in Hg2. injection Hg2 as <-.
  unfold pc_ok in Hpc. destruct (r_pc r) as [|from|from|from| | | | |launched tasks| | | | | | | | ]; cbn; try lia; try (destruct from; lia).
  destruct Hpc as (_ & _ & (? & ? & _ & _ & _ & _ & _ & Hlen & _) & _). unfold GROUP_PROBE_CONCURRENCY in Hlen.
  assert (tasks_weight tasks <= 3 * length tasks); [|lia]. clear. unfold tasks_weight.
  induction tasks as [|p tasks IH]; cbn; [lia|]. destruct (pr_stage p); cbn; lia.
Qed.

(** ** The limits of a scan *)
Lemma scan_limits w rid r launched tasks :
  world_ok w → requests w !! rid = Some r → r_pc r = Scan launched tasks →
  ∃ g, groups w !! r_group r = Some g ∧ length tasks <= GROUP_PROBE_CONCURRENCY ∧ launched <= length (members g).
Proof.
  intros Hw Hr E. destruct (wo_request _ _ _ _ Hw rid r Hr) as (g & Hg & [Hpc _ _]). exists g. unfold pc_ok in Hpc. rewrite E in Hpc.
  by destruct Hpc as (_ & _ & (? & ? & _ & _ & _ & _ & ? & ? & _) & _).
Qed.

Lemma one_scan w rid1 rid2 r1 r2 :
  world_ok w → requests w !! rid1 = Some r1 → requests w !! rid2 = Some r2 → r_group r1 = r_group r2 →
  tasks_of r1 ≠ [] → tasks_of r2 ≠ [] → rid1 = rid2.
Proof.
  intros Hw H1 H2 Hg T1 T2. destruct (wo_request _ _ _ _ Hw rid1 r1 H1) as (g & Hg1 & _).
  assert (∀ r, tasks_of r ≠ [] → holds (r_pc r) = true) as Hh by (intros r; unfold tasks_of; by destruct (r_pc r)).
  assert (selection g = Some rid1) as S1 by (apply (wo_lock _ _ _ _ Hw _ _ _ Hg1); eauto).
  assert (selection g = Some rid2) as S2 by (apply (wo_lock _ _ _ _ Hw _ _ _ Hg1); exists r2; auto). congruence.
Qed.
End live.

Section configured.
Context {Node : Type} (node_fingerprint : Node → list Z).

(** Limits of the probes. However the requests to the groups of a configuration
    interleave, and however they are cancelled: a scan launches no more probes than its
    group has members and has at most four tasks, one scan of a group runs tasks at
    a time, and over all groups at most sixteen probes connect at once, each with a
    permit of its own. *)
Theorem groups_probe_limits USIZE configured configs nodes time es w :
  (0 < USIZE)%Z → run USIZE configured (start node_fingerprint configs nodes time) es = Some w →
  size (permits w) <= 16 ∧ (∀ rid n, connecting w rid n = true → (rid, n) ∈ permits w) ∧
  (∀ rid r launched tasks, requests w !! rid = Some r → r_pc r = Scan launched tasks →
    ∃ g, groups w !! r_group r = Some g ∧ length tasks <= 4 ∧ launched <= length (members g)) ∧
  (∀ rid1 rid2 r1 r2, requests w !! rid1 = Some r1 → requests w !! rid2 = Some r2 → r_group r1 = r_group r2 →
    tasks_of r1 ≠ [] → tasks_of r2 ≠ [] → rid1 = rid2).
Proof.
  intros Hu Hrun. pose proof (world_run_ok USIZE Hu configured _ es _ _ (start_ok _ USIZE configured configs nodes time Hu) Hrun) as Hw.
  split; [apply (wo_permits _ _ _ _ Hw)|]. split; [apply (wo_connecting _ _ _ _ Hw)|].
  split; intros *; [by eapply scan_limits|by eapply one_scan].
Qed.

(** C25. Every request to a group ends. In whatever state the requests to the groups
    of a configuration got: as long as one of them has no result, some request or
    abandoned probe can take a step that neither the clock nor a caller has to bring
    (it may be that a pending dial fails); and from there on no request takes more
    than sixteen steps of its own and four for each member of its group. *)
Theorem groups_progress USIZE configured configs nodes time es w :
  (0 < USIZE)%Z → run USIZE configured (start node_fingerprint configs nodes time) es = Some w →
  (∀ rid r, requests w !! rid = Some r → finished (r_pc r) = false →
    ∃ e, spontaneous e = false ∧ is_Some (perform USIZE configured w e)) ∧
  (∀ rid r es' w', requests w !! rid = Some r → run USIZE configured w es' = Some w' →
    ∃ g, groups w !! r_group r = Some g ∧ moves_of rid es' <= 16 + 4 * length (members g)).
Proof.
  intros Hu Hrun. pose proof (world_run_ok USIZE Hu configured _ es _ _ (start_ok _ USIZE configured configs nodes time Hu) Hrun) as Hw. split.
  - intros rid r Hr Hf. by eapply unfinished_enabled.
  - intros rid r es' w' Hr Hrun'. destruct (wo_request _ _ _ _ Hw rid r Hr) as (g & Hg & _). exists g. split; [done|].
    pose proof (weight_bound _ _ _ w rid r g Hw Hr Hg). pose proof (run_moves _ _ Hu _ es' w w' rid r Hw Hr Hrun') as Hm.
    rewrite <- (static_len _ _ _ w _ g Hw Hg) in Hm. unfold len_ in *. lia.
Qed.
End configured.

(** ** A group of two members *)
Definition race_group : ProxyGroupConfig := {| g_name := [103%Z]; g_type := UrlTest; g_members := [[1%Z]; [2%Z]]; g_current := None |}.
Definition race_events : list Event :=
  [Arrive 7 [103%Z]; Step 7; Step 7; Step 7; Step 7; Step 7; Launch 7; Launch 7; Acquire 7 1; Acquire 7 0; ProbeEnds 7 1 true;
   Join 7 1; Step 7; Step 7; Step 7].
Notation race_run es := (run (2 ^ 64) (λ _, true) (start id [race_group] [[1%Z]; [2%Z]] 0) es).

(** The second member answers first. *)
Lemma groups_connect_spec_witness :
  ∃ w r, race_run race_events = Some w ∧ requests w !! 7 = Some r ∧ r_pc r = Connected 1 ∧ r_noted r = [1].
Proof.
  assert ((w ← race_run race_events; requests w !! 7) =
    Some {| r_group := [103%Z]; r_pc := Connected 1; r_tried := [0; 1]; r_noted := [1] |}) as Hr by (by vm_compute).
  destruct (race_run race_events) as [w|] eqn:E; [|done]. cbn [mbind option_bind] in Hr.
  destruct (groups_connect_spec id (2 ^ 64) (λ _, true) [race_group] [[1%Z]; [2%Z]] 0 race_events w 7 _ ltac:(done) E Hr)
    as (config & g & _ & _ & _ & _ & _ & Hc). cbn [r_pc] in Hc. destruct Hc as (node & n & H1 & _ & _ & H2 & _).
  eexists w, _. split; [done|]. split; [exact Hr|]. split; [done|]. by injection H2 as <-.
Defined.

(** The first member's probe keeps its permit until its task is gone. *)
Lemma groups_probe_limits_witness :
  ∃ w, race_run race_events = Some w ∧ (7, 0) ∈ permits w ∧ size (permits w) <= 16.
Proof.
  assert ((λ w, bool_decide ((7, 0) ∈ permits w)) <$> race_run race_events = Some true) as Hp by (by vm_compute).
  destruct (race_run race_events) as [w|] eqn:E; [|done]. exists w. split; [done|]. split.
  - apply (bool_decide_eq_true_1 _). by injection Hp as ->.
  - by destruct (groups_probe_limits id (2 ^ 64) (λ _, true) [race_group] [[1%Z]; [2%Z]] 0 race_events w ltac:(done) E).
Defined.

(** Half way through the scan somebody can move. *)
Lemma groups_progress_witness :
  ∃ w, race_run (take 8 race_events) = Some w ∧ ∃ e, spontaneous e = false ∧ is_Some (perform (2 ^ 64) (λ _, true) w e).
Proof.
  assert ((w ← race_run (take 8 race_events); r ← requests w !! 7; Some (finished (r_pc r))) = Some false) as Hr by (by vm_compute).
  destruct (race_run (take 8 race_events)) as [w|] eqn:E; [|done]. exists w. split; [done|]. cbn [mbind option_bind] in Hr.
  destruct (requests w !! 7) as [r|] eqn:Er; [|done]. cbn [mbind option_bind] in Hr.
  destruct (groups_progress id (2 ^ 64) (λ _, true) [race_group] [[1%Z]; [2%Z]] 0 (take 8 race_events) w ltac:(done) E) as [Hp _].
  apply (Hp 7 r Er). by injection Hr.
Defined.
