(* ===== verification/Tokio.v ===== *)
(** * The tokio primitives the data plane uses

    [tokio] is not part of the sources.  [Semaphore] and [Mpsc] state what its
    documentation promises of counting semaphores and of bounded channels;
    the counter and the list below satisfy the laws. *)
From S2P Require Import Prelude Bytes.

(** [tokio::sync::Semaphore]: [try_acquire_many(n)] takes [n] permits when they
    are available, dropping the permit gives them back. *)
Class Semaphore (S : Type) := {
  sem_new : Z → S;
  available_permits : S → Z;
  try_acquire_many : Z → S → option S;
  release : Z → S → S;
  available_new n : available_permits (sem_new n) = n;
  try_acquire_spec n s : 0 <= n →
    match try_acquire_many n s with
    | Some s' => n <= available_permits s ∧ available_permits s' = available_permits s - n
    | None => available_permits s < n
    end;
  release_spec n s : available_permits (release n s) = available_permits s + n;
}.

#[export] Program Instance counter_semaphore : Semaphore Z := {|
  sem_new n := n;
  available_permits s := s;
  try_acquire_many n s := if n <=? s then Some (s - n) else None;
  release n s := s + n;
|}.
Solve All Obligations with try done.
Next Obligation. intros n s _. simpl. destruct (Z.leb_spec n s); lia. Qed.

(** [tokio::sync::mpsc::error::TrySendError]. *)
Inductive try_send_error := Full | Closed.

(** [tokio::sync::mpsc::channel]: a bounded first-in first-out queue; the
    receiver may close it, after which nothing more is accepted. *)
Class Mpsc (T Q : Type) := {
  channel : Z → Q;
  queued : Q → list T;
  max_capacity : Q → Z;
  is_closed : Q → bool;
  try_send : T → Q → Q + try_send_error;
  try_recv : Q → option (T * Q);
  close : Q → Q;
  queued_channel n : queued (channel n) = [];
  max_capacity_channel n : max_capacity (channel n) = n;
  is_closed_channel n : is_closed (channel n) = false;
  try_send_spec x q :
    match try_send x q with
    | inl q' => is_closed q = false ∧ len (queued q) < max_capacity q ∧
        queued q' = queued q ++ [x] ∧ max_capacity q' = max_capacity q ∧ is_closed q' = false
    | inr Full => is_closed q = false ∧ max_capacity q <= len (queued q)
    | inr Closed => is_closed q = true
    end;
  try_recv_spec q :
    match try_recv q with
    | Some (x, q') => queued q = x :: queued q' ∧
        max_capacity q' = max_capacity q ∧ is_closed q' = is_closed q
    | None => queued q = []
    end;
  close_spec q : queued (close q) = queued q ∧ max_capacity (close q) = max_capacity q ∧
    is_closed (close q) = true;
}.

Section list_mpsc.
Context {T : Type}.

Record list_channel := ListChannel { items : list T; bound : Z; shut : bool }.

#[export] Program Instance list_mpsc : Mpsc T list_channel := {|
  channel n := ListChannel [] n false;
  queued := items;
  max_capacity := bound;
  is_closed := shut;
  try_send x q :=
    if shut q then inr Closed
    else if bound q <=? len (items q) then inr Full
    else inl (ListChannel (items q ++ [x]) (bound q) false);
  try_recv q := match items q with
                | x :: l => Some (x, ListChannel l (bound q) (shut q))
                | [] => None
                end;
  close q := ListChannel (items q) (bound q) true;
|}.
Solve All Obligations with try done.
Next Obligation.
  intros x [l n s]. simpl. destruct s; [done|].
  destruct (Z.leb_spec n (len l)); simpl; repeat split; lia.
Qed.
Next Obligation. intros [[|x l] n s]; done. Qed.
End list_mpsc.
Arguments list_channel : clear implicits.
