(* ===== verification/QuicDatagram.v ===== *)
(** * UDP over QUIC datagrams (proxy/quic_datagram.rs)

    Hysteria2 and TUIC v5 share this module: the frame of each protocol and its
    decoder, splitting a packet into datagrams and putting the fragments back
    together, the bounded queue of a session and the registry of sessions.

    The hub's registry and each session's channel sit behind one lock, so every
    operation here is one critical section; [step] lets them interleave in any
    order.  Time is in nanoseconds.  [Quinn] stands for the QUIC library. *)
From S2P Require Import Prelude Bytes Text Net NetText Tokio.

Inductive Protocol := Hysteria2 | Tuic.

#[export] Instance Protocol_eq_dec : EqDecision Protocol.
Proof. solve_decision. Defined.

Definition is_tuic (p : Protocol) : bool := match p with Tuic => true | Hysteria2 => false end.

Definition RECEIVE_QUEUE_PACKETS : Z := 256.
Definition RECEIVE_QUEUE_BYTES : Z := 128 * 1024.

(** [quinn::VarInt::from_u32(n).into_inner()]. *)
Class Quinn := {
  varint_from_u32 : Z → Z;
  varint_value n : u32 n → varint_from_u32 n = n;
}.

Definition plain_quinn : Quinn := {| varint_from_u32 n := n; varint_value _ _ := eq_refl |}.

(** ** Frames *)

(** [host.trim_matches(['[', ']'])]: the ends lose their brackets. *)
Definition is_bracket (b : Z) : bool := (b =? 91) || (b =? 93).

Definition trim_brackets (s : bytes) : bytes :=
  reverse (drop_while is_bracket (reverse (drop_while is_bracket s))).

Definition format_host_port (host : bytes) (port : Z) : bytes :=
  let bare := trim_brackets host in
  if bool_decide (is_Some (parse_ipv6 bare))
  then 91 :: bare ++ 93 :: 58 :: show_uint port
  else host ++ 58 :: show_uint port.

Definition put_varint (value : Z) : bytes :=
  if value <? 64 then [as_u8 value] else be16 (Z.lor (as_u16 value) 16384).

Definition address `{Quinn} (protocol : Protocol) (host : bytes) (port : Z) : outcome bytes :=
  if negb (is_tuic protocol) then
    let address := format_host_port host port in
    _ ← ensure (len address <? 16384) "UDP address too long";
    Ok (put_varint (varint_from_u32 (as_u32 (len address))) ++ address)
  else
    data ← match parse_ip host with
           | Some (V4 ip) => Ok (1 :: octets (V4 ip))
           | Some (V6 ip) => Ok (2 :: octets (V6 ip))
           | None =>
               _ ← ensure (len host <=? 255) "UDP domain too long";
               Ok (0 :: as_u8 (len host) :: host)
           end;
    Ok (data ++ be16 port).

Definition header (protocol : Protocol) (session packet index total : Z) (address : bytes)
    (length : Z) : bytes :=
  match protocol with
  | Hysteria2 => be32 session
  | Tuic => [5; 2] ++ be16 (as_u16 session)
  end ++ be16 packet ++
  match protocol with
  | Hysteria2 => [index; total]
  | Tuic => [total; index] ++ be16 (as_u16 length)
  end ++ address.

Record Fragment := {
  f_session : Z;
  f_packet : Z;
  f_index : Z;
  f_total : Z;
  f_data : bytes;
}.

(** The bytes after the first of a variable-length integer. *)
Definition varint_tail (first : Z) (rest : bytes) : Z :=
  foldl (λ len b, Z.lor (Z.shiftl len 8) b) first rest.

(** [uN::from_be_bytes(frame[a..b].try_into()?)]. *)
Definition sub_be (frame : bytes) (a b : Z) : outcome Z := bs ← sub frame a b; Ok (of_be bs).

(** [match frame[10]]: where the address field ends. *)
Definition tuic_address_end (frame : bytes) (kind : Z) : outcome Z :=
  if kind =? 0 then
    _ ← ensure (12 <=? len frame) "Missing domain length";
    domain ← idx frame 11;
    Ok (12 + domain + 2)
  else if kind =? 1 then Ok 17
  else if kind =? 2 then Ok 29
  else Err "Invalid TUIC address".

(** The association an incoming frame is for. *)
Definition decode_session (protocol : Protocol) (frame : bytes) : outcome Z :=
  match protocol with
  | Hysteria2 => sub_be frame 0 4
  | Tuic =>
      command ← sub frame 0 2;
      _ ← ensure (bool_decide (command = [5; 2])) "Unexpected TUIC command";
      sub_be frame 2 4
  end.

(** [(index, total, pos, expected)]. *)
Definition decode_layout (protocol : Protocol) (frame : bytes) : outcome (Z * Z * Z * option Z) :=
  match protocol with
  | Hysteria2 =>
      first ← idx frame 8;
      let n := Z.shiftl 1 (Z.shiftr first 6) in
      _ ← ensure (8 + n <=? len frame) "Truncated address length";
      rest ← sub frame 9 (8 + n);
      let length := varint_tail (Z.land first 63) rest in
      _ ← ensure (length <=? 65535) "Oversized address";
      index ← idx frame 6;
      total ← idx frame 7;
      Ok (index, total, 8 + n + length, None)
  | Tuic =>
      _ ← ensure (11 <=? len frame) "Truncated TUIC header";
      length ← sub_be frame 8 10;
      kind ← idx frame 10;
      stop ← tuic_address_end frame kind;
      index ← idx frame 7;
      total ← idx frame 6;
      Ok (index, total, stop, Some length)
  end.

Definition decode (protocol : Protocol) (frame : bytes) : outcome Fragment :=
  _ ← ensure (9 <=? len frame) "Truncated UDP header";
  session ← decode_session protocol frame;
  packet ← sub_be frame 4 6;
  '(index, total, pos, expected) ← decode_layout protocol frame;
  _ ← ensure ((0 <? total) && (index <? total) && (pos <=? len frame)) "Invalid UDP fragment";
  data ← sub frame pos (len frame);
  _ ← ensure ((len data <=? 65535)
              && match expected with None => true | Some length => length =? len data end)
        "Invalid UDP payload length";
  Ok {| f_session := session; f_packet := packet; f_index := index; f_total := total; f_data := data |}.

(** ** Sending *)
Record Session := {
  s_id : Z;
  s_address : bytes;
  s_packet : Z;
}.

(** The body of the loop of [send]: the datagram with fragment [index]. *)
Definition send_frame (protocol : Protocol) (s : Session) (chunk total id : Z) (packet : bytes)
    (index : Z) : outcome bytes :=
  let start := Z.min (index * chunk) (len packet) in
  let stop := Z.min (start + chunk) (len packet) in
  data ← sub packet start stop;
  Ok (header protocol (s_id s) id (as_u8 index) (as_u8 total) (s_address s) (len data) ++ data).

(** The loop: [transmit] is [connection.send_datagram]; the frames it took are
    returned with the result. *)
Fixpoint send_loop (transmit : bytes → outcome unit) (frame : Z → outcome bytes)
    (indices : list Z) : list bytes * outcome unit :=
  match indices with
  | [] => ([], Ok tt)
  | i :: rest =>
      match (f ← frame i; _ ← transmit f; Ok f) with
      | Ok f => let '(sent, result) := send_loop transmit frame rest in (f :: sent, result)
      | Err e => ([], Err e)
      | Panic => ([], Panic)
      | Diverge => ([], Diverge)
      end
  end.

Definition div_ceil (a b : Z) : Z := (a + b - 1) / b.

(** The guards of [send]: the size of a chunk and the number of fragments. *)
Definition send_plan (protocol : Protocol) (max_datagram : option Z) (s : Session) (packet : bytes)
    : outcome (Z * Z) :=
  _ ← ensure (len packet <=? 65535) "UDP payload too large";
  max ← ok_or max_datagram "UDP unavailable";
  let overhead := len (header protocol (s_id s) 0 0 1 (s_address s) 0) in
  _ ← ensure (overhead <? max) "UDP address exceeds QUIC MTU";
  let chunk := max - overhead in
  let total := div_ceil (Z.max (len packet) 1) chunk in
  _ ← ensure (total <=? 255) "Too many UDP fragments";
  Ok (chunk, total).

Definition send (protocol : Protocol) (max_datagram : option Z) (transmit : bytes → outcome unit)
    (s : Session) (packet : bytes) : Session * (list bytes * outcome unit) :=
  match send_plan protocol max_datagram s packet with
  | Ok (chunk, total) =>
      let id := s_packet s in
      ({| s_id := s_id s; s_address := s_address s; s_packet := as_u16 (id + 1) |},
       send_loop transmit (send_frame protocol s chunk total id packet) (seqZ 0 total))
  | Err e => (s, ([], Err e))
  | Panic => (s, ([], Panic))
  | Diverge => (s, ([], Diverge))
  end.

(** ** Reassembly *)
Record Assembly := {
  created : Z;
  a_total : Z;
  a_bytes : Z;
  parts : list (option bytes);
}.

Abbreviation Reassembler := (gmap Z Assembly).

Definition ASSEMBLY_LIFETIME : Z := 5 * 1000000000.

Definition fresh (now : Z) (pending : Reassembler) : Reassembler :=
  filter (λ kv, now - created kv.2 < ASSEMBLY_LIFETIME) pending.

(** The packet when every part has arrived, else keep waiting. *)
Definition finish (key : Z) (item : Assembly) (pending : Reassembler)
    : Reassembler * outcome (option bytes) :=
  if forallb (λ part, bool_decide (is_Some part)) (parts item)
  then (delete key pending, Ok (Some (concat (omap id (parts item)))))
  else (<[key := item]> pending, Ok None).

Definition assemble (now : Z) (pending : Reassembler) (fragment : Fragment)
    : Reassembler * outcome (option bytes) :=
  let key := f_packet fragment in
  let pending := fresh now pending in
  if f_total fragment =? 1 then (pending, Ok (Some (f_data fragment)))
  else
    let pending := if (2 <=? Z.of_nat (size pending)) && bool_decide (pending !! key = None)
                   then ∅ else pending in
    let item := match pending !! key with
                | Some item => item
                | None => {| created := now; a_total := f_total fragment; a_bytes := 0;
                             parts := replicate (Z.to_nat (f_total fragment)) None |}
                end in
    if negb (a_total item =? f_total fragment)
    then (<[key := item]> pending, Err "UDP fragment count changed")
    else
      match idx (parts item) (f_index fragment) with
      | Ok None =>
          let total_bytes := a_bytes item + len (f_data fragment) in
          if negb (total_bytes <=? 65535) then
            (<[key := {| created := created item; a_total := a_total item;
                         a_bytes := total_bytes; parts := parts item |}]> pending,
             Err "Oversized UDP fragments")
          else
            match set_at (parts item) (f_index fragment) (Some (f_data fragment)) with
            | Ok filled =>
                finish key {| created := created item; a_total := a_total item;
                              a_bytes := total_bytes; parts := filled |} pending
            | _ => (pending, Panic)
            end
      | Ok (Some _) => finish key item pending
      | _ => (pending, Panic)
      end.

(** ** The queue of a session *)

(** [QueuedDatagram]: the payload and the permits it holds. *)
Record QueuedDatagram := { q_data : bytes; q_permits : Z }.

Definition U64_MAX : Z := 2 ^ 64 - 1.
Definition saturating_inc (n : Z) : Z := Z.min (n + 1) U64_MAX.

Section hub.
Context {Sem Que : Type} `{Semaphore Sem} `{Mpsc QueuedDatagram Que} `{Quinn}.

Record Channel := {
  tx : Que;
  bytes_left : Sem;
  dropped : Z;
  packet_drops : Z;
  byte_drops : Z;
  assembly : Reassembler;
}.

Definition Channel_new : Channel := {|
  tx := channel RECEIVE_QUEUE_PACKETS;
  bytes_left := sem_new RECEIVE_QUEUE_BYTES;
  dropped := 0; packet_drops := 0; byte_drops := 0;
  assembly := ∅;
|}.

Definition set_tx (c : Channel) (q : Que) (s : Sem) : Channel :=
  {| tx := q; bytes_left := s; dropped := dropped c; packet_drops := packet_drops c;
     byte_drops := byte_drops c; assembly := assembly c |}.

Definition set_assembly (c : Channel) (a : Reassembler) : Channel :=
  {| tx := tx c; bytes_left := bytes_left c; dropped := dropped c;
     packet_drops := packet_drops c; byte_drops := byte_drops c; assembly := a |}.

Definition drop_packet (c : Channel) (by_packets : bool) : Channel :=
  {| tx := tx c; bytes_left := bytes_left c; dropped := saturating_inc (dropped c);
     packet_drops := if by_packets then saturating_inc (packet_drops c) else packet_drops c;
     byte_drops := if by_packets then byte_drops c else saturating_inc (byte_drops c);
     assembly := assembly c |}.

(** [Channel::deliver]; the [bool] says that the drop is logged. *)
Definition is_power_of_two (n : Z) : bool := (0 <? n) && (Z.land n (n - 1) =? 0).

Definition deliver (c : Channel) (data : bytes) : Channel * bool :=
  if is_closed (tx c) then (c, false)
  else
    let need := as_u32 (Z.max (len data) 1) in
    let log (c : Channel) := (c, is_power_of_two (dropped c)) in
    match try_acquire_many need (bytes_left c) with
    | Some s =>
        match try_send {| q_data := data; q_permits := need |} (tx c) with
        | inl q => (set_tx c q s, false)
        | inr Closed => (set_tx c (tx c) (release need s), false)
        | inr Full => log (drop_packet (set_tx c (tx c) (release need s)) true)
        end
    | None => log (drop_packet c false)
    end.

(** [Session::recv]: [None] while the queue is empty and the session is
    registered; the permits go back once the packet is copied or refused. *)
Definition recv (registered : bool) (room : Z) (c : Channel) : option (Channel * outcome bytes) :=
  match try_recv (tx c) with
  | Some (packet, q) =>
      Some (set_tx c q (release (q_permits packet) (bytes_left c)),
            _ ← ensure (len (q_data packet) <=? room) "UDP receive buffer too small";
            Ok (q_data packet))
  | None => if registered then None else Some (c, Err "UDP association closed")
  end.

(** ** The hub *)
Record Hub := {
  sessions : gmap Z Channel;
  next : Z;
}.

(** [Hub::new] starts at a random identifier. *)
Definition Hub_new (random : Z) : Hub := {| sessions := ∅; next := random |}.

Definition MAX_SESSIONS : Z := 32.

(** The identifier loop of [associate]: the identifier and the new [next]. *)
Fixpoint fresh_id (fuel : nat) (protocol : Protocol) (sessions : gmap Z Channel) (next : Z)
    : outcome (Z * Z) :=
  match fuel with
  | O => Diverge
  | S fuel' =>
      let id := if is_tuic protocol then Z.land next 65535 else next in
      let next := as_u32 (next + 1) in
      if bool_decide (sessions !! id = None) then Ok (id, next)
      else fresh_id fuel' protocol sessions next
  end.

Definition associate (protocol : Protocol) (max_datagram : option Z) (host : bytes) (port : Z)
    (random : Z) (h : Hub) : Hub * outcome Session :=
  let body :=
    _ ← ensure (bool_decide (is_Some max_datagram)) "Server did not enable QUIC datagrams";
    address ← address protocol host port;
    _ ← ensure (Z.of_nat (size (sessions h)) <? MAX_SESSIONS) "QUIC UDP session limit reached";
    '(id, next) ← fresh_id (Z.to_nat MAX_SESSIONS + 1) protocol (sessions h) (next h);
    Ok ({| sessions := <[id := Channel_new]> (sessions h); next := next |},
        {| s_id := id; s_address := address; s_packet := as_u16 random |}) in
  match body with
  | Ok (h', s) => (h', Ok s)
  | Err e => (h, Err e)
  | Panic => (h, Panic)
  | Diverge => (h, Diverge)
  end.

(** The receive task's handling of one datagram. *)
Definition on_datagram (protocol : Protocol) (now : Z) (packet : bytes) (h : Hub) : outcome Hub :=
  match decode protocol packet with
  | Ok fragment =>
      match sessions h !! f_session fragment with
      | None => Ok h
      | Some c =>
          let '(pending, result) := assemble now (assembly c) fragment in
          let c := set_assembly c pending in
          match result with
          | Ok (Some data) =>
              Ok {| sessions := <[f_session fragment := (deliver c data).1]> (sessions h);
                    next := next h |}
          | Ok None | Err _ =>
              Ok {| sessions := <[f_session fragment := c]> (sessions h); next := next h |}
          | Panic => Panic
          | Diverge => Diverge
          end
      end
  | Err _ => Ok h
  | Panic => Panic
  | Diverge => Diverge
  end.

(** The receive task ends with the connection: every channel goes. *)
Definition on_close (h : Hub) : Hub := {| sessions := ∅; next := next h |}.

(** [Drop for Session]. *)
Definition drop_session (id : Z) (h : Hub) : Hub :=
  {| sessions := delete id (sessions h); next := next h |}.

Definition dissociate (protocol : Protocol) (id : Z) : option bytes :=
  if is_tuic protocol then Some ([5; 3] ++ be16 (as_u16 id)) else None.

(** One operation on the hub, by any task. *)
Inductive step (protocol : Protocol) : Hub → Hub → Prop :=
  | step_associate max_datagram host port random h :
      step protocol h (associate protocol max_datagram host port random h).1
  | step_datagram now packet h h' : is_bytes packet →
      on_datagram protocol now packet h = Ok h' → step protocol h h'
  | step_recv id room c c' result h : sessions h !! id = Some c →
      recv true room c = Some (c', result) →
      step protocol h {| sessions := <[id := c']> (sessions h); next := next h |}
  | step_drop id h : step protocol h (drop_session id h)
  | step_close h : step protocol h (on_close h).

Inductive reachable (protocol : Protocol) : Hub → Prop :=
  | reach_new random : u32 random → reachable protocol (Hub_new random)
  | reach_step h h' : reachable protocol h → step protocol h h' → reachable protocol h'.
End hub.
