(* ===== verification/QuicDatagramSpec.v ===== *)
(** * UDP over QUIC: what the frames, the reassembly and the hub guarantee *)
From S2P Require Import Prelude Bytes Text Net NetText Tokio QuicDatagram.

Lemma sub_be_mid pre mid post a b :
  a = len pre → b = len pre + len mid → sub_be (pre ++ mid ++ post) a b = Ok (of_be mid).
Proof. intros. unfold sub_be. by rewrite (sub_mid pre mid post). Qed.

Lemma sub_be_head mid post b : b = len mid → sub_be (mid ++ post) 0 b = Ok (of_be mid).
Proof. intros. apply (sub_be_mid []); [done|]. by rewrite len_nil. Qed.

(** ** Addresses *)

(** The destination field as the decoder skips it. *)
Inductive framed : Protocol → bytes → Prop :=
  | framed_hysteria2 text : len text < 16384 → framed Hysteria2 (put_varint (len text) ++ text)
  | framed_v4 ip port : len ip = 4 → len port = 2 → framed Tuic (1 :: ip ++ port)
  | framed_v6 ip port : len ip = 16 → len port = 2 → framed Tuic (2 :: ip ++ port)
  | framed_domain host port : len host <= 255 → len port = 2 →
      framed Tuic (0 :: len host :: host ++ port).

Lemma address_framed `{Quinn} p host port a : address p host port = Ok a → framed p a.
Proof.
  unfold address. destruct p; simpl; intros Ha.
  - inv_ok. apply Z.ltb_lt in Hx. pose proof (len_nonneg (format_host_port host port)) as Hn.
    rewrite varint_value by (unfold u32, as_u32; lia).
    unfold as_u32. rewrite Z.mod_small by lia. by constructor.
  - destruct (parse_ip host) as [[ip|ip]|]; inv_ok; try by constructor.
    apply Z.leb_le in Hx0. pose proof (len_nonneg host).
    unfold as_u8. rewrite Z.mod_small by lia. simpl. by constructor.
Qed.

Definition session_ok (p : Protocol) (id : Z) : Prop :=
  match p with Hysteria2 => u32 id | Tuic => u16 id end.

#[export] Instance session_ok_dec p id : Decision (session_ok p id).
Proof. destruct p; unfold session_ok; apply _. Defined.

Lemma varint_read n : 0 <= n < 16384 →
  ∃ first tail, put_varint n = first :: tail ∧ len tail = Z.shiftl 1 (Z.shiftr first 6) - 1 ∧
    varint_tail (Z.land first 63) tail = n.
Proof.
  intros Hn. unfold put_varint. change 63 with (Z.ones 6). destruct (Z.ltb_spec n 64).
  - unfold as_u8. rewrite Z.mod_small by lia. eexists _, []. split; [reflexivity|].
    rewrite Z.shiftr_div_pow2, Z.div_small, Z.land_ones by lia. split; [done|].
    cbn. apply Z.mod_small. lia.
  - unfold as_u16. rewrite (Z.mod_small n) by lia.
    rewrite Z.lor_comm. change 16384 with (Z.shiftl 1 14). rewrite lor_shift by lia.
    change (1 * 2 ^ 14) with 16384. unfold be16, be_bytes. cbn [app].
    eexists _, [_]. split; [reflexivity|].
    replace ((16384 + n) / 256 mod 256) with (64 + n / 256) by lia.
    rewrite Z.shiftr_div_pow2, Z.land_ones by lia. change (2 ^ 6) with 64.
    replace ((64 + n / 256) / 64) with 1 by lia. split; [done|].
    unfold varint_tail. simpl foldl. rewrite lor_shift by lia. change (2 ^ 8) with 256. lia.
Qed.

(** ** Decoding what was encoded *)
Lemma pos_shift first : 0 <= first → 1 <= Z.shiftl 1 (Z.shiftr first 6).
Proof.
  intros. rewrite Z.shiftl_1_l. assert (0 <= Z.shiftr first 6) by (by apply Z.shiftr_nonneg).
  pose proof (Z.pow_pos_nonneg 2 (Z.shiftr first 6)). lia.
Qed.

Lemma decode_header_hysteria2 s pk i t text data :
  u32 s → u16 pk → 0 <= i → i < t → len text < 16384 → len data <= 65535 →
  decode Hysteria2 (header Hysteria2 s pk i t (put_varint (len text) ++ text) (len data) ++ data)
  = Ok {| f_session := s; f_packet := pk; f_index := i; f_total := t; f_data := data |}.
Proof.
  intros Hs Hp Hi Ht Htext Hdata. unfold header.
  destruct (varint_read (len text)) as (first & tail & Hv & Htail & Hval); [lenlia|].
  rewrite Hv. set (n := Z.shiftl 1 (Z.shiftr first 6)) in *.
  set (pre := be32 s ++ be16 pk ++ [i; t]). assert (Hpre : len pre = 8) by done.
  set (frame := (be32 s ++ be16 pk ++ [i; t] ++ (first :: tail) ++ text) ++ data).
  assert (E : frame = pre ++ first :: tail ++ text ++ data)
    by (unfold frame, pre; rewrite <- !app_assoc; done).
  assert (Hlen : len frame = 8 + n + len text + len data) by (rewrite E; lenlia).
  unfold decode, decode_session, decode_layout. pose proof (len_nonneg text). pose proof (len_nonneg data). pose proof (len_nonneg tail).
  rewrite (proj2 (Z.leb_le 9 _)) by lia. orun.
  replace (sub_be frame 0 4) with (Ok s)
    by (symmetry; unfold frame; rewrite <- !app_assoc; rewrite sub_be_head by done; by rewrite of_be_be32).
  replace (sub_be frame 4 6) with (Ok pk)
    by (symmetry; unfold frame; rewrite <- !app_assoc; rewrite (sub_be_mid (be32 s)) by done; by rewrite of_be_be16).
  replace (idx frame 8) with (Ok first) by (rewrite E; by rewrite idx_mid).
  orun. fold n. rewrite (proj2 (Z.leb_le (8 + n) _)) by lia. orun.
  replace (sub frame 9 (8 + n)) with (Ok tail)
    by (symmetry; rewrite E; rewrite (cons_middle first pre);
        rewrite (app_assoc pre [first]); apply sub_mid; lenlia).
  orun. rewrite Hval. rewrite (proj2 (Z.leb_le (len text) 65535)) by lia. orun.
  replace (idx frame 6) with (Ok i) by done. replace (idx frame 7) with (Ok t) by done. orun.
  rewrite (proj2 (Z.ltb_lt 0 t)), (proj2 (Z.ltb_lt i t)), (proj2 (Z.leb_le _ (len frame))) by lia.
  cbn [andb]. orun.
  replace (sub frame (8 + n + len text) (len frame)) with (Ok data)
    by (symmetry; apply sub_suffix; [lenlia|done]).
  orun. rewrite (proj2 (Z.leb_le (len data) 65535)) by lia. done.
Qed.

Lemma tuic_end_framed a pre data : framed Tuic a → len pre = 10 →
  ∃ kind rest, a = kind :: rest ∧ 2 <= len rest ∧
    tuic_address_end (pre ++ a ++ data) kind = Ok (10 + len a).
Proof.
  intros Ha Hpre. inversion Ha as [|ip port Hi Hp|ip port Hi Hp|host port Hh Hp]; subst;
    (eexists _, _; split; [reflexivity|]; split; [lenlia|]).
  - apply (f_equal Ok). lenlia.
  - apply (f_equal Ok). lenlia.
  - unfold tuic_address_end. cbn [Z.eqb].
    rewrite (proj2 (Z.leb_le 12 _)) by lenlia. orun.
    cbn [app]. rewrite (cons_middle 0 pre), (app_assoc pre [0]), idx_mid by lenlia. orun.
    apply (f_equal Ok). lenlia.
Qed.

Lemma decode_header_tuic s pk i t a data :
  u16 s → u16 pk → 0 <= i → i < t → framed Tuic a → len data <= 65535 →
  decode Tuic (header Tuic s pk i t a (len data) ++ data)
  = Ok {| f_session := s; f_packet := pk; f_index := i; f_total := t; f_data := data |}.
Proof.
  intros Hs Hp Hi Ht Ha Hdata. unfold header, as_u16. pose proof (len_nonneg data).
  rewrite (Z.mod_small s) by exact Hs. rewrite (Z.mod_small (len data)) by lia.
  set (pre8 := [5; 2] ++ be16 s ++ be16 pk ++ [t; i]). set (pre := pre8 ++ be16 (len data)).
  assert (Hpre : len pre = 10) by done.
  destruct (tuic_end_framed a pre data Ha Hpre) as (kind & rest & Ek & Hrest & Hend).
  set (frame := (([5; 2] ++ be16 s) ++ be16 pk ++ ([t; i] ++ be16 (len data)) ++ a) ++ data).
  assert (E : frame = pre ++ a ++ data) by (unfold frame, pre, pre8; rewrite <- !app_assoc; done).
  rewrite <- E in Hend.
  assert (Hlen : len frame = 10 + len a + len data) by (rewrite E; lenlia).
  assert (len a = 1 + len rest) by (rewrite Ek; lenlia).
  unfold decode, decode_session, decode_layout. rewrite (proj2 (Z.leb_le 9 _)) by lia. orun.
  replace (sub frame 0 2) with (Ok [5; 2])
    by (symmetry; unfold frame; rewrite <- !app_assoc; by apply (sub_mid [] [5; 2])).
  orun. rewrite bool_decide_true by done. orun.
  replace (sub_be frame 2 4) with (Ok s)
    by (symmetry; unfold frame; rewrite <- !app_assoc; rewrite (sub_be_mid [5; 2]) by done; by rewrite of_be_be16).
  replace (sub_be frame 4 6) with (Ok pk)
    by (symmetry; unfold frame; rewrite <- !app_assoc, (app_assoc [5; 2]); rewrite (sub_be_mid ([5; 2] ++ be16 s)) by done; by rewrite of_be_be16).
  orun. rewrite (proj2 (Z.leb_le 11 _)) by lia. orun.
  replace (sub_be frame 8 10) with (Ok (len data))
    by (symmetry; rewrite E; unfold pre; rewrite <- app_assoc;
        rewrite (sub_be_mid pre8) by done; rewrite of_be_be16; [done|unfold u16; lia]).
  replace (idx frame 10) with (Ok kind) by (rewrite E, Ek; by rewrite <- app_comm_cons, idx_mid).
  orun. rewrite Hend. orun.
  replace (idx frame 7) with (Ok i) by done. replace (idx frame 6) with (Ok t) by done. orun.
  rewrite (proj2 (Z.ltb_lt 0 t)), (proj2 (Z.ltb_lt i t)), (proj2 (Z.leb_le _ (len frame))) by lia.
  cbn [andb]. orun.
  replace (sub frame (10 + len a) (len frame)) with (Ok data)
    by (symmetry; apply sub_suffix; [lenlia|done]).
  orun. rewrite (proj2 (Z.leb_le (len data) 65535)), Z.eqb_refl by lia. done.
Qed.

Lemma decode_header p s pk i t a data :
  session_ok p s → u16 pk → 0 <= i → i < t → framed p a → len data <= 65535 →
  decode p (header p s pk i t a (len data) ++ data)
  = Ok {| f_session := s; f_packet := pk; f_index := i; f_total := t; f_data := data |}.
Proof.
  intros Hs Hp Hi Ht Ha Hd. destruct p; [inversion Ha; subst|].
  - by apply decode_header_hysteria2.
  - by apply decode_header_tuic.
Qed.

(** ** Decoding arbitrary datagrams *)
Record fragment_wf (p : Protocol) (f : Fragment) : Prop := {
  wf_session : session_ok p (f_session f);
  wf_packet : u16 (f_packet f);
  wf_index : 0 <= f_index f < f_total f;
  wf_total : f_total f <= 255;
  wf_data : len (f_data f) <= 65535;
}.

Lemma varint_tail_nonneg rest acc : is_bytes rest → 0 <= acc → 0 <= varint_tail acc rest.
Proof.
  unfold varint_tail. revert acc. induction rest as [|b rest IH]; intros acc Hb Ha; [done|].
  inversion_clear Hb as [|? ? Hu]. apply IH; [done|]. apply Z.lor_nonneg. split.
  - by apply Z.shiftl_nonneg.
  - unfold u8 in Hu. lia.
Qed.

Lemma returns_sub_be frame a b : 0 <= a → a <= b → b <= len frame → returns (sub_be frame a b).
Proof. intros. unfold sub_be. by rewrite sub_in. Qed.

Lemma sub_be_bound frame a b n z : is_bytes frame → sub_be frame a b = Ok z →
  b - a = Z.of_nat n → 0 <= z < 256 ^ Z.of_nat n.
Proof.
  unfold sub_be. intros Hf Hz Hn. inv_ok. apply sub_ok in Hx as [Hr ->].
  apply in_range_spec in Hr. rewrite <- Hn, <- (len_range frame a b) by lia.
  by apply of_be_bound, is_bytes_range.
Qed.

Lemma returns_tuic_end frame kind : is_bytes frame → 11 <= len frame →
  returns (tuic_address_end frame kind) ∧
  ∀ stop, tuic_address_end frame kind = Ok stop → 0 <= stop.
Proof.
  intros Hf Hl. unfold tuic_address_end. destruct (kind =? 0).
  - split.
    + apply returns_bind; [auto with outcome|]. intros [] Hx%ensure_ok%Z.leb_le.
      apply returns_bind; [|auto with outcome]. apply returns_idx. lia.
    + intros stop Hs. inv_ok. apply is_bytes_idx in Hx0; [|done]. unfold u8 in Hx0. lia.
  - destruct (kind =? 1); [split; [done|intros; inv_ok; lia]|].
    destruct (kind =? 2); [split; [done|intros; inv_ok; lia]|]. split; [done|intros; inv_ok].
Qed.

Lemma returns_decode_session p frame : 9 <= len frame → returns (decode_session p frame).
Proof.
  intros Hl. destruct p; simpl.
  - apply returns_sub_be; lia.
  - rewrite sub_in by lia. orun. apply returns_bind; [auto with outcome|].
    intros _ _. apply returns_sub_be; lia.
Qed.

Lemma decode_session_ok p frame s : is_bytes frame → decode_session p frame = Ok s → session_ok p s.
Proof.
  intros Hf Hs. destruct p; simpl in Hs.
  - by apply (sub_be_bound frame 0 4 4).
  - inv_ok. by apply (sub_be_bound frame 2 4 2).
Qed.

Lemma decode_layout_spec p frame : is_bytes frame → 9 <= len frame →
  returns (decode_layout p frame) ∧
  ∀ i t pos e, decode_layout p frame = Ok (i, t, pos, e) → u8 i ∧ u8 t ∧ 0 <= pos.
Proof.
  intros Hf Hl. destruct p; simpl.
  - destruct (idx_in frame 8) as [first Hfirst]; [lia|]. rewrite Hfirst. orun.
    apply is_bytes_idx in Hfirst; [|done]. pose proof (pos_shift first ltac:(unfold u8 in *; lia)).
    set (n := Z.shiftl 1 (Z.shiftr first 6)) in *. split.
    + apply returns_bind; [auto with outcome|]. intros [] Hn%ensure_ok%Z.leb_le.
      rewrite sub_in by lia. orun. destruct (_ <=? 65535); orun; [|done].
      apply returns_bind; [apply returns_idx; lia|]. intros i _.
      apply returns_bind; [apply returns_idx; lia|]. done.
    + intros i t pos e Hd. inv_ok. apply sub_ok in Hx0 as [_ ->].
      apply is_bytes_idx in Hx2, Hx3; [|done..].
      assert (0 <= Z.land first 63) by (apply Z.land_nonneg; lia).
      pose proof (varint_tail_nonneg (range frame 9 (8 + n)) (Z.land first 63)
                    (is_bytes_range _ _ _ Hf)).
      repeat split; try apply Hx2; try apply Hx3. lia.
  - split.
    + apply returns_bind; [auto with outcome|]. intros [] Hn%ensure_ok%Z.leb_le.
      apply returns_bind; [apply returns_sub_be; lia|]. intros l _.
      apply returns_bind; [apply returns_idx; lia|]. intros k _.
      apply returns_bind; [by apply returns_tuic_end|]. intros stop _.
      apply returns_bind; [apply returns_idx; lia|]. intros i _.
      apply returns_bind; [apply returns_idx; lia|]. done.
    + intros i t pos e Hd. inv_ok. apply Z.leb_le in Hx.
      apply is_bytes_idx in Hx3, Hx4; [|done..].
      repeat split; try apply Hx3; try apply Hx4. by eapply returns_tuic_end.
Qed.

Lemma decode_ok p frame f : is_bytes frame → decode p frame = Ok f →
  fragment_wf p f ∧ ∃ pre, frame = pre ++ f_data f.
Proof.
  intros Hf Hd. unfold decode in Hd. inv_ok. apply Z.leb_le in Hx.
  destruct x2 as [[[i t] pos] e]. apply decode_layout_spec in Hx2 as (Hi & Ht & Hpos); [|done..].
  inv_ok. rewrite !andb_true_iff, Z.ltb_lt, Z.ltb_lt, Z.leb_le in Hx2.
  apply sub_ok in Hx3 as [_ ->]. apply andb_true_iff in Hx4 as [Hlen%Z.leb_le _].
  unfold u8 in *. split.
  - constructor; simpl; [by eapply decode_session_ok| |lia..].
    by apply (sub_be_bound frame 4 6 2).
  - exists (range frame 0 pos). simpl. rewrite range_split by lia.
    symmetry. apply range_all; lia.
Qed.

Lemma returns_decode p frame : is_bytes frame → returns (decode p frame).
Proof.
  intros Hf. unfold decode. apply returns_bind; [auto with outcome|]. intros [] Hl%ensure_ok%Z.leb_le.
  apply returns_bind; [by apply returns_decode_session|]. intros s _.
  apply returns_bind; [apply returns_sub_be; lia|]. intros pk _.
  destruct (decode_layout_spec p frame Hf Hl) as [Hr Hb].
  apply returns_bind; [done|]. intros [[[i t] pos] e] (_ & _ & Hpos)%Hb.
  apply returns_bind; [auto with outcome|]. intros [] Hg%ensure_ok.
  rewrite !andb_true_iff, Z.leb_le in Hg.
  apply returns_bind; [apply returns_sub; lia|]. intros d _.
  apply returns_bind; auto with outcome.
Qed.

(** ** Reassembly *)

(** The bytes an assembly holds. *)
Definition stored (l : list (option bytes)) : bytes := concat (omap id l).

Lemma stored_cons_none l : stored (None :: l) = stored l.
Proof. done. Qed.

Lemma stored_cons_some d l : stored (Some d :: l) = d ++ stored l.
Proof. done. Qed.

Lemma len_stored_insert l i d : l !! i = Some None →
  len (stored (<[i := Some d]> l)) = len (stored l) + len d.
Proof.
  revert i. induction l as [|o l IH]; intros [|i] Hi; try done; simpl in Hi.
  - injection Hi as ->. simpl. rewrite stored_cons_none, stored_cons_some. lenlia.
  - simpl. specialize (IH i Hi). destruct o as [e|].
    + rewrite !stored_cons_some, !len_app, IH. lia.
    + by rewrite !stored_cons_none.
Qed.

Record assembly_ok (a : Assembly) : Prop := {
  ok_total : 0 < a_total a <= 255;
  ok_parts : len (parts a) = a_total a;
  ok_counted : len (stored (parts a)) <= a_bytes a;
  ok_stored : len (stored (parts a)) <= 65535;
}.

(** What a session keeps for reassembly: two packets of at most 64 KiB each. *)
Record reassembler_ok (pending : Reassembler) : Prop := {
  ok_size : (size pending <= 2)%nat;
  ok_each : map_Forall (λ _, assembly_ok) pending;
}.

Lemma size_insert_le (m : Reassembler) k a :
  (size m <= 2)%nat → is_Some (m !! k) ∨ (size m < 2)%nat → (size (<[k := a]> m) <= 2)%nat.
Proof.
  intros Hm Hk. destruct (m !! k) eqn:E.
  - rewrite map_size_insert_Some; [done|by rewrite E].
  - rewrite map_size_insert_None by done. destruct Hk as [[? ?]|]; [done|lia].
Qed.

Lemma insert_ok m k a : reassembler_ok m → is_Some (m !! k) ∨ (size m < 2)%nat →
  assembly_ok a → reassembler_ok (<[k := a]> m).
Proof. intros [Hs He] Hk Ha. split; [by apply size_insert_le|by apply map_Forall_insert_2]. Qed.

Lemma fresh_ok now m : reassembler_ok m → reassembler_ok (fresh now m).
Proof.
  intros [Hs He]. split.
  - etrans; [|exact Hs]. apply map_subseteq_size, map_filter_subseteq.
  - intros k a Hk. apply map_lookup_filter_Some in Hk as [Hk _]. by eapply He.
Qed.

Lemma finish_ok key item m : reassembler_ok m → is_Some (m !! key) ∨ (size m < 2)%nat →
  assembly_ok item → let '(m', r) := finish key item m in
  reassembler_ok m' ∧ returns r ∧ ∀ d, r = Ok (Some d) → len d <= 65535.
Proof.
  intros Hm Hk Hi. unfold finish. destruct (forallb _ _).
  - split; [split|split; [done|]].
    + etrans; [|apply Hm]. apply map_subseteq_size, delete_subseteq.
    + apply map_Forall_delete, Hm.
    + intros d [= <-]. apply Hi.
  - split; [by apply insert_ok|done].
Qed.

Lemma stored_replicate n : stored (replicate n None) = [].
Proof. unfold stored. by induction n. Qed.

(** The assembly a fragment is added to. *)
Lemma new_assembly_ok now t : 0 < t <= 255 →
  assembly_ok {| created := now; a_total := t; a_bytes := 0; parts := replicate (Z.to_nat t) None |}.
Proof.
  intros Ht. constructor; simpl; rewrite ?stored_replicate; simpl; rewrite ?len_replicate; unfold len; simpl; lia.
Qed.

Lemma filled_ok a i d : assembly_ok a → parts a !! i = Some None → a_bytes a + len d <= 65535 →
  assembly_ok {| created := created a; a_total := a_total a; a_bytes := a_bytes a + len d;
                 parts := <[i := Some d]> (parts a) |}.
Proof.
  intros [Ht Hp Hc Hs] Hi Hb. constructor; simpl; [lia| |rewrite len_stored_insert by done; lia..].
  unfold len. by rewrite length_insert.
Qed.

Lemma assemble_ok now m f : reassembler_ok m → 0 <= f_index f < f_total f → f_total f <= 255 →
  len (f_data f) <= 65535 →
  let '(m', r) := assemble now m f in
  reassembler_ok m' ∧ returns r ∧ ∀ d, r = Ok (Some d) → len d <= 65535.
Proof.
  intros Hm%(fresh_ok now) Hi Ht Hd. unfold assemble.
  destruct (f_total f =? 1); [split; [done|split; [done|congruence]]|].
  set (m0 := fresh now m) in *. set (m1 := if _ : bool then ∅ else m0).
  assert (H1 : reassembler_ok m1 ∧ (is_Some (m1 !! f_packet f) ∨ (size m1 < 2)%nat)).
  { subst m1. destruct (Z.leb_spec 2 (Z.of_nat (size m0))), (decide (m0 !! f_packet f = None)) as [E|E];
      cbn [andb]; rewrite ?bool_decide_true, ?bool_decide_false by done;
      try (split; [done|]; (right; lia) || (left; by apply not_eq_None_Some)).
    split; [split; [rewrite map_size_empty; lia|apply map_Forall_empty]|right; rewrite map_size_empty; lia]. }
  destruct H1 as [H1 Hroom]. clearbody m1.
  set (item := match m1 !! f_packet f with Some item => item | None => _ end).
  assert (Hitem : assembly_ok item).
  { subst item. destruct (m1 !! f_packet f) eqn:E; [by eapply H1|apply new_assembly_ok; lia]. }
  clearbody item. destruct (Z.eqb_spec (a_total item) (f_total f)) as [E|E]; cbn [negb].
  2: { split; [by apply insert_ok|done]. }
  destruct (idx_in (parts item) (f_index f)) as [o Ho]; [rewrite (ok_parts item) by done; lia|].
  rewrite Ho. destruct o as [d|]; [by apply finish_ok|].
  destruct (Z.leb_spec (a_bytes item + len (f_data f)) 65535) as [Hb|Hb]; cbn [negb].
  - rewrite set_at_in by (rewrite (ok_parts item) by done; lia).
    apply finish_ok; [done..|]. apply filled_ok; [done| |lia].
    apply idx_ok in Ho. unfold byte_at in Ho. by destruct (Z.ltb_spec (f_index f) 0); [lia|].
  - split; [|done]. apply insert_ok; [done..|]. destruct Hitem. constructor; simpl; lenlia.
Qed.

(** *** Fragments of one packet, in any order *)

(** The parts an assembly holds after the fragments [got] have arrived. *)
Definition partial (got : list nat) (chunks : list bytes) : list (option bytes) :=
  imap (λ i c, if bool_decide (i ∈ got) then Some c else None) chunks.

Lemma length_partial got chunks : length (partial got chunks) = length chunks.
Proof. apply length_imap. Qed.

Lemma lookup_partial got chunks i c : chunks !! i = Some c →
  partial got chunks !! i = Some (if bool_decide (i ∈ got) then Some c else None).
Proof. intros Hc. unfold partial. by rewrite list_lookup_imap, Hc. Qed.

Lemma partial_nil chunks : partial [] chunks = replicate (length chunks) None.
Proof.
  apply list_eq. intros i. unfold partial. rewrite list_lookup_imap.
  destruct (chunks !! i) as [c|] eqn:E.
  - apply lookup_lt_Some in E as Hl. by rewrite lookup_replicate_2.
  - apply lookup_ge_None in E. symmetry. apply lookup_ge_None. by rewrite length_replicate.
Qed.

Lemma partial_insert got chunks i c : chunks !! i = Some c →
  <[i := Some c]> (partial got chunks) = partial (i :: got) chunks.
Proof.
  intros Hc. apply list_eq. intros j. apply lookup_lt_Some in Hc as Hl.
  destruct (decide (i = j)) as [<-|Hne].
  - rewrite list_lookup_insert_eq by (by rewrite length_partial).
    rewrite (lookup_partial _ _ _ c) by done. by rewrite bool_decide_true by left.
  - rewrite list_lookup_insert_ne by done. unfold partial. rewrite !list_lookup_imap.
    destruct (chunks !! j); [|done]. simpl. do 2 f_equal.
    rewrite (bool_decide_ext (j ∈ i :: got) (j ∈ got)); [done|]. rewrite elem_of_cons. naive_solver.
Qed.

Lemma partial_again got chunks i : i ∈ got → partial (i :: got) chunks = partial got chunks.
Proof.
  intros Hi. apply imap_ext. intros j c Hj.
  rewrite (bool_decide_ext (j ∈ i :: got) (j ∈ got)); [done|]. rewrite elem_of_cons. naive_solver.
Qed.

Lemma stored_some (f : nat → bool) chunks :
  len (stored (imap (λ i c, if f i then Some c else None) chunks)) <= len (concat chunks).
Proof.
  revert f. induction chunks as [|c chunks IH]; intros f; [done|].
  specialize (IH (f ∘ S)). rewrite imap_cons. cbn [concat]. rewrite len_app.
  destruct (f 0%nat); rewrite ?stored_cons_some, ?stored_cons_none, ?len_app; unfold compose in *; lenlia.
Qed.

Lemma stored_partial got chunks : len (stored (partial got chunks)) <= len (concat chunks).
Proof. apply (stored_some (λ i, bool_decide (i ∈ got))). Qed.

Definition all_got (got : list nat) (chunks : list bytes) : Prop :=
  ∀ i, (i < length chunks)%nat → i ∈ got.

Lemma partial_all got chunks :
  forallb (λ part, bool_decide (is_Some part)) (partial got chunks) = true ↔ all_got got chunks.
Proof.
  rewrite <- Is_true_true, forallb_True, Forall_lookup. split.
  - intros Hf i [c Hc]%lookup_lt_is_Some_2. specialize (Hf i _ (lookup_partial got chunks i c Hc)).
    destruct (decide (i ∈ got)); [done|]. rewrite (bool_decide_false (i ∈ got)) in Hf by done.
    apply bool_decide_unpack in Hf as [? ?]. done.
  - intros Ha i o Ho. unfold partial in Ho. rewrite list_lookup_imap in Ho.
    destruct (chunks !! i) eqn:E; [|done]. injection Ho as <-.
    rewrite (bool_decide_true (i ∈ got)) by (by eapply Ha, lookup_lt_Some). by apply bool_decide_pack.
Qed.

Lemma stored_all got chunks : all_got got chunks → stored (partial got chunks) = concat chunks.
Proof.
  intros Ha. unfold stored. f_equal.
  assert (E : partial got chunks = Some <$> chunks).
  { apply list_eq. intros i. unfold partial. rewrite list_lookup_imap, list_lookup_fmap.
    destruct (chunks !! i) eqn:E; [|done]. simpl.
    by rewrite bool_decide_true by (by eapply Ha, lookup_lt_Some). }
  rewrite E. clear. induction chunks as [|c chunks IH]; [done|]. cbn. by rewrite IH.
Qed.

Section arrivals.
(** One packet's fragments, all received within a window shorter than the
    lifetime of an assembly. *)
Variables (session pk start : Z) (chunks : list bytes).
Hypothesis Hmany : (2 <= length chunks <= 255)%nat.
Hypothesis Hsize : len (concat chunks) <= 65535.

Definition fragment_of (i : nat) (c : bytes) : Fragment :=
  {| f_session := session; f_packet := pk; f_index := Z.of_nat i;
     f_total := len chunks; f_data := c |}.

Definition in_window (now : Z) : Prop := start <= now < start + ASSEMBLY_LIFETIME.

Record collecting (got : list nat) (a : Assembly) : Prop := {
  col_created : start <= created a;
  col_total : a_total a = len chunks;
  col_bytes : a_bytes a = len (stored (parts a));
  col_parts : parts a = partial got chunks;
}.

Definition holds (got : list nat) (m : Reassembler) : Prop :=
  match m !! pk with None => got = [] | Some a => collecting got a end.

Lemma holds_fresh now got m : in_window now → holds got m → holds got (fresh now m).
Proof.
  unfold holds, in_window, fresh. intros Hw Hh. destruct (m !! pk) as [a|] eqn:E.
  - rewrite (proj2 (map_lookup_filter_Some _ _ _ a)); [done|]. split; [done|]. simpl.
    apply col_created in Hh. lia.
  - by rewrite (proj2 (map_lookup_filter_None _ _ _) (or_introl E)).
Qed.

Lemma holds_item now got m : in_window now → holds got m →
  collecting got (match m !! pk with
                  | Some item => item
                  | None => {| created := now; a_total := len chunks; a_bytes := 0;
                               parts := replicate (Z.to_nat (len chunks)) None |}
                  end).
Proof.
  unfold holds. intros Hw Hh. destruct (m !! pk) as [a|]; [done|]. subst got.
  assert (E : replicate (Z.to_nat (len chunks)) None = partial [] chunks)
    by (rewrite partial_nil; unfold len; by rewrite Nat2Z.id).
  constructor; simpl; [apply Hw|done| |done]. by rewrite stored_replicate.
Qed.

Lemma collect_finish got item m : collecting got item →
  let '(m', r) := finish pk item m in
  (all_got got chunks → r = Ok (Some (concat chunks))) ∧
  (¬ all_got got chunks → r = Ok None ∧ holds got m').
Proof.
  intros Hc. unfold finish. rewrite (col_parts _ _ Hc).
  destruct (forallb _ _) eqn:E.
  - apply partial_all in E. split; [|done]. intros _. fold (stored (partial got chunks)).
    by rewrite stored_all.
  - assert (¬ all_got got chunks) by (intros ?%partial_all; congruence).
    split; [done|]. intros _. split; [done|]. unfold holds. by rewrite lookup_insert_eq.
Qed.

(** One more fragment: the packet when it was the last missing one. *)
Lemma assemble_step now got m i c : in_window now → holds got m → chunks !! i = Some c →
  let '(m', r) := assemble now m (fragment_of i c) in
  (all_got (i :: got) chunks → r = Ok (Some (concat chunks))) ∧
  (¬ all_got (i :: got) chunks → r = Ok None ∧ holds (i :: got) m').
Proof using Hmany Hsize.
  intros Hw Hh Hi. apply lookup_lt_Some in Hi as Hlt. unfold assemble. cbn [f_total f_packet f_index f_data fragment_of].
  destruct (Z.eqb_spec (len chunks) 1); [unfold len in *; lia|].
  apply (holds_fresh now) in Hh; [|done]. set (m0 := fresh now m) in *.
  set (m1 := if _ : bool then ∅ else m0).
  assert (H1 : holds got m1).
  { subst m1. destruct (_ && _) eqn:E; [|done]. apply andb_true_iff in E as [_ E%bool_decide_eq_true].
    unfold holds in *. rewrite E in Hh. by rewrite lookup_empty. }
  clearbody m1. apply (holds_item now) in H1; [|done].
  set (item := match m1 !! pk with Some item => item | None => _ end) in *. clearbody item.
  rewrite (col_total _ _ H1), Z.eqb_refl. cbn [negb].
  pose proof (lookup_partial got chunks i c Hi) as Hp.
  assert (Hidx : idx (parts item) (Z.of_nat i) = Ok (if bool_decide (i ∈ got) then Some c else None)).
  { apply idx_ok. unfold byte_at. destruct (Z.ltb_spec (Z.of_nat i) 0); [lia|].
    by rewrite Nat2Z.id, (col_parts _ _ H1). }
  rewrite Hidx. destruct (decide (i ∈ got)) as [Hin|Hout].
  - rewrite bool_decide_true by done. apply collect_finish.
    destruct H1. constructor; try done. by rewrite partial_again.
  - rewrite bool_decide_false in * by done.
    pose proof (len_stored_insert _ _ c Hp) as Hl. rewrite partial_insert in Hl by done.
    pose proof (stored_partial (i :: got) chunks).
    rewrite (col_bytes _ _ H1), (col_parts _ _ H1).
    rewrite (proj2 (Z.leb_le _ 65535)) by lia. cbn [negb].
    rewrite set_at_in by (unfold len; rewrite length_partial; lia).
    rewrite Nat2Z.id, partial_insert by done. apply collect_finish.
    destruct H1. constructor; try done.
Qed.
End arrivals.

(** What a session makes of datagrams that arrive one after the other. *)
Fixpoint receive_all (p : Protocol) (m : Reassembler) (arrivals : list (Z * bytes))
    : list (outcome (option bytes)) :=
  match arrivals with
  | [] => []
  | (now, frame) :: rest =>
      match decode p frame with
      | Ok f => let '(m', r) := assemble now m f in r :: receive_all p m' rest
      | Err e => Err e :: receive_all p m rest
      | Panic => [Panic]
      | Diverge => [Diverge]
      end
  end.

Definition arrive (frames : list bytes) (order : list (Z * nat)) : list (Z * bytes) :=
  map (λ '(now, i), (now, nth i frames [])) order.

Lemma receive_all_order p session pk start chunks frames order last :
  (2 <= length chunks <= 255)%nat → len (concat chunks) <= 65535 →
  (∀ i c, chunks !! i = Some c → decode p (nth i frames []) = Ok (fragment_of session pk chunks i c)) →
  ∀ got m, holds pk start chunks got m →
  Forall (λ '(now, i), in_window start now ∧ (i < length chunks)%nat) (order ++ [last]) →
  last.2 ∉ order.*2 ++ got → all_got (last.2 :: order.*2 ++ got) chunks →
  receive_all p m (arrive frames (order ++ [last])) =
    replicate (length order) (Ok None) ++ [Ok (Some (concat chunks))].
Proof.
  intros Hmany Hsize Hdec. induction order as [|[now i] order IH]; intros got m Hh Hf Hout Hall.
  - destruct last as [now i]. apply Forall_singleton in Hf as [Hw Hi].
    apply lookup_lt_is_Some in Hi as [c Hc]. cbn. rewrite (Hdec i c Hc).
    pose proof (assemble_step session pk start chunks Hmany Hsize now got m i c Hw Hh Hc) as Hs.
    destruct (assemble _ _ _) as [m' r]. destruct Hs as [Hs _]. by rewrite Hs.
  - apply Forall_cons in Hf as [[Hw Hi] Hf].
    apply lookup_lt_is_Some in Hi as [c Hc]. cbn in Hout, Hall |- *. rewrite (Hdec i c Hc).
    pose proof (assemble_step session pk start chunks Hmany Hsize now got m i c Hw Hh Hc) as Hs.
    destruct (assemble _ _ _) as [m' r].
    rewrite elem_of_cons, elem_of_app in Hout. destruct Hs as [_ Hs].
    assert (Hn : ¬ all_got (i :: got) chunks).
    { intros Ha. rewrite Forall_app, Forall_singleton in Hf.
      destruct last as [nl il], Hf as [_ [_ Hl]]. specialize (Ha il Hl).
      apply elem_of_cons in Ha. simpl in Hout. naive_solver. }
    destruct (Hs Hn) as [-> Hh']. f_equal. apply (IH (i :: got)); [done..| |].
    + rewrite elem_of_app, elem_of_cons. naive_solver.
    + intros j Hj. specialize (Hall j Hj). rewrite !elem_of_cons, elem_of_app in *.
      rewrite elem_of_cons. naive_solver.
Qed.

(** *** Splitting a packet *)
Definition chunk_at (packet : bytes) (chunk : Z) (index : Z) : bytes :=
  let start := Z.min (index * chunk) (len packet) in
  range packet start (Z.min (start + chunk) (len packet)).

Lemma concat_chunks packet chunk n : 0 < chunk →
  concat (chunk_at packet chunk <$> seqZ 0 (Z.of_nat n)) =
    range packet 0 (Z.min (Z.of_nat n * chunk) (len packet)).
Proof.
  intros Hc. pose proof (len_nonneg packet). induction n as [|n IH].
  - symmetry. apply range_empty. lia.
  - rewrite Nat2Z.inj_succ, <- Z.add_1_r, seqZ_app, fmap_app, concat_app, IH by lia. change (seqZ _ 1) with [Z.of_nat n]. cbn. rewrite app_nil_r.
    unfold chunk_at. rewrite range_split by nia. f_equal. nia.
Qed.

Lemma send_loop_ok frame indices sent :
  send_loop (λ _, Ok tt) frame indices = (sent, Ok tt) → Forall2 (λ i f, frame i = Ok f) indices sent.
Proof.
  revert sent. induction indices as [|i rest IH]; intros sent Hs; simpl in Hs.
  - by injection Hs as <-.
  - destruct (frame i) as [f| | |] eqn:E; simpl in Hs; try congruence.
    destruct (send_loop _ _ _) as [sent' r]. injection Hs as <- ->. constructor; [done|by apply IH].
Qed.

(** What a successful [send] put on the wire. *)
Lemma send_frames p max s packet s' frames :
  framed p (s_address s) → session_ok p (s_id s) → u16 (s_packet s) →
  send p (Some max) (λ _, Ok tt) s packet = (s', (frames, Ok tt)) →
  ∃ chunks, concat chunks = packet ∧ (1 <= length chunks <= 255)%nat ∧ len packet <= 65535 ∧
    length frames = length chunks ∧ Forall (λ f, len f <= max) frames ∧
    ∀ i c, chunks !! i = Some c →
      decode p (nth i frames []) = Ok (fragment_of (s_id s) (s_packet s) chunks i c).
Proof.
  intros Ha Hs Hp Hsend. unfold send in Hsend.
  destruct (send_plan _ _ _ _) as [[chunk total]| | |] eqn:Hplan; [|congruence..].
  unfold send_plan in Hplan. inv_ok. apply Z.leb_le in Hx. injection Hx0 as <-.
  set (overhead := len (header _ _ _ _ _ _ _)) in *.
  apply Z.ltb_lt in Hx1. apply Z.leb_le in Hx2.
  set (chunk := max - overhead) in *. assert (Hc : 0 < chunk) by lia.
  set (total := div_ceil (Z.max (len packet) 1) chunk) in *. pose proof (len_nonneg packet).
  assert (Hcov : len packet <= total * chunk ∧ 1 <= total) by (unfold total, div_ceil; nia).
  apply (f_equal snd) in Hsend. apply send_loop_ok in Hsend. cbn [s_id s_packet] in Hsend.
  assert (Hl : length (seqZ 0 total) = Z.to_nat total) by apply length_seqZ.
  exists (chunk_at packet chunk <$> seqZ 0 total).
  assert (Hconcat : concat (chunk_at packet chunk <$> seqZ 0 total) = packet).
  { rewrite <- (Z2Nat.id total) by lia. rewrite concat_chunks by lia. apply range_all; lia. }
  rewrite length_fmap, Hl. split; [done|]. split; [lia|]. split; [done|].
  split; [by rewrite <- (Forall2_length _ _ _ Hsend)|].
  assert (Hframe : ∀ i f, send_frame p s chunk total (s_packet s) packet i = Ok f → 0 <= i < total →
    f = header p (s_id s) (s_packet s) i total (s_address s) (len (chunk_at packet chunk i))
          ++ chunk_at packet chunk i).
  { intros i f Hf Hi. unfold send_frame in Hf. inv_ok. apply sub_ok in Hx0 as [_ ->].
    unfold as_u8. by rewrite (Z.mod_small i), (Z.mod_small total) by lia. }
  split.
  - apply Forall_lookup. intros i f Hf. destruct (Forall2_lookup_r _ _ _ _ _ Hsend Hf) as (j & Hj & E).
    apply lookup_seqZ in Hj as [-> Hj]. apply Hframe in E as ->; [|lia]. rewrite len_app.
    assert (Hh : ∀ i t n, len (header p (s_id s) (s_packet s) i t (s_address s) n) = overhead)
      by (intros; unfold overhead, header; destruct p; autorewrite with len; done).
    rewrite Hh. unfold chunk_at. rewrite len_range by lia. lia.
  - intros i c Hi. rewrite list_lookup_fmap in Hi.
    destruct (seqZ 0 total !! i) as [j|] eqn:Hj; [|done]. injection Hi as <-.
    destruct (Forall2_lookup_l _ _ _ _ _ Hsend Hj) as (f & Hf & E).
    apply lookup_seqZ in Hj as [-> Hj]. rewrite Z.add_0_l in *.
    rewrite (nth_lookup_Some _ _ _ _ Hf). apply Hframe in E as ->; [|lia].
    rewrite decode_header; try done; try lia.
    + unfold fragment_of. repeat f_equal. unfold len. rewrite length_fmap, Hl. lia.
    + unfold chunk_at. rewrite len_range by lia. lia.
Qed.

(** C3. A packet survives its journey over QUIC: whenever [send] takes a packet
    for a destination that [address] accepted, every datagram it emits fits the
    connection's limit, and a session that receives the datagrams in any order,
    with any repetitions, within the lifetime of an assembly, delivers exactly
    the packet, once, when the last missing fragment arrives, whatever other
    packets it is reassembling. *)
Theorem quic_roundtrip `{Quinn} p host port addr session counter max packet s' frames m start order last :
  address p host port = Ok addr → session_ok p session → u16 counter →
  send p (Some max) (λ _, Ok tt) {| s_id := session; s_address := addr; s_packet := counter |} packet
    = (s', (frames, Ok tt)) →
  m !! counter = None →
  Forall (λ '(now, i), in_window start now ∧ (i < length frames)%nat) (order ++ [last]) →
  last.2 ∉ order.*2 → (∀ i, (i < length frames)%nat → i ∈ last.2 :: order.*2) →
  Forall (λ f, len f <= max) frames ∧
  receive_all p m (arrive frames (order ++ [last])) =
    replicate (length order) (Ok None) ++ [Ok (Some packet)].
Proof.
  intros Ha%address_framed Hs Hc Hsend Hm Hw Hlast Hcover.
  destruct (send_frames p max {| s_id := session; s_address := addr; s_packet := counter |}
              packet s' frames Ha Hs Hc Hsend)
    as (chunks & <- & Hn & Hlen & El & Hmax & Hdec).
  split; [done|]. cbn [s_id s_packet] in Hdec. rewrite El in *.
  destruct (decide (length chunks = 1)%nat) as [E|E].
  - destruct chunks as [|c [|]]; try done. cbn [concat]. rewrite app_nil_r.
    rewrite Forall_app, Forall_singleton in Hw. destruct last as [now i], Hw as [Hw [_ Hi]].
    destruct order as [|[now' j] order].
    + destruct i; [|simpl in Hi; lia]. cbn. by rewrite (Hdec 0%nat c).
    + apply Forall_cons in Hw as [[_ Hj] _]. destruct Hlast. apply elem_of_cons. left. simpl in *. lia.
  - apply (receive_all_order p session counter start) with (got := []); try done; try lia.
    + unfold holds. by rewrite Hm.
    + by rewrite app_nil_r.
    + intros i Hi. rewrite app_nil_r. by apply Hcover.
Qed.

Lemma quic_roundtrip_witness :
  Forall (λ f, len f <= 20) (send Tuic (Some 20) (λ _, Ok tt)
    {| s_id := 7; s_address := [1; 10; 0; 0; 1; 0; 53]; s_packet := 65535 |} [1; 2; 3; 4; 5; 6; 7]).2.1 ∧
  receive_all Tuic ∅ (arrive (send Tuic (Some 20) (λ _, Ok tt)
      {| s_id := 7; s_address := [1; 10; 0; 0; 1; 0; 53]; s_packet := 65535 |} [1; 2; 3; 4; 5; 6; 7]).2.1
    ([(0, 2%nat); (5, 0%nat); (6, 2%nat)] ++ [(9, 1%nat)])) =
    replicate 3 (Ok None) ++ [Ok (Some [1; 2; 3; 4; 5; 6; 7])].
Proof.
  apply (quic_roundtrip (H := plain_quinn) Tuic (lit "10.0.0.1") 53 [1; 10; 0; 0; 1; 0; 53]
           7 65535 20 [1; 2; 3; 4; 5; 6; 7]
           {| s_id := 7; s_address := [1; 10; 0; 0; 1; 0; 53]; s_packet := 0 |} _ ∅ 0).
  - vm_compute. reflexivity.
  - decided.
  - decided.
  - vm_compute. reflexivity.
  - reflexivity.
  - unfold in_window. repeat constructor; vm_compute; congruence || lia.
  - decided.
  - intros i Hi. vm_compute in Hi. simpl. rewrite !elem_of_cons. lia.
Defined.

(** Decoding a datagram, whatever its bytes, neither panics nor loops; a
    decoded fragment has an index below a total of at most 255, a payload of at
    most 65535 bytes that is the end of the datagram, and a TUIC session fits 16 bits. *)
Theorem quic_decode_total p frame : is_bytes frame →
  returns (decode p frame) ∧
  ∀ f, decode p frame = Ok f → fragment_wf p f ∧ ∃ pre, frame = pre ++ f_data f.
Proof. intros Hf. split; [by apply returns_decode|]. intros f. by apply decode_ok. Qed.

Lemma quic_decode_total_witness :
  returns (decode Hysteria2 [0; 0; 0; 1; 0; 2; 0; 1; 1; 65; 9; 9]) ∧
  ∀ f, decode Hysteria2 [0; 0; 0; 1; 0; 2; 0; 1; 1; 65; 9; 9] = Ok f →
    fragment_wf Hysteria2 f ∧ ∃ pre, [0; 0; 0; 1; 0; 2; 0; 1; 1; 65; 9; 9] = pre ++ f_data f.
Proof. apply quic_decode_total. decided. Defined.
