(* ===== verification/QuicHubSpec.v ===== *)
(** * The QUIC hub: bounded memory, fresh identifiers, a lossy but ordered queue *)
From S2P Require Import Prelude Bytes Text Net NetText Tokio QuicDatagram QuicDatagramSpec.

Section hub.
Context {Sem Que : Type} `{Semaphore Sem} `{Mpsc QueuedDatagram Que} `{Quinn}.
Implicit Types (c : Channel (Sem := Sem) (Que := Que)) (h : Hub (Sem := Sem) (Que := Que)).

(** ** The queue of one session *)
Definition waiting c : list QueuedDatagram := queued (tx c).

Definition queue_bytes (l : list QueuedDatagram) : Z := foldr (λ d n, q_permits d + n) 0 l.

Definition payload_bytes (l : list QueuedDatagram) : Z := len (concat (q_data <$> l)).

Definition queued_ok (d : QueuedDatagram) : Prop :=
  q_permits d = Z.max (len (q_data d)) 1.

Record channel_ok c : Prop := {
  ch_cap : max_capacity (tx c) = RECEIVE_QUEUE_PACKETS;
  ch_len : len (waiting c) <= RECEIVE_QUEUE_PACKETS;
  ch_each : Forall queued_ok (waiting c);
  ch_credit : available_permits (bytes_left c) + queue_bytes (waiting c) = RECEIVE_QUEUE_BYTES;
  ch_left : 0 <= available_permits (bytes_left c);
  ch_assembly : reassembler_ok (assembly c);
}.

Lemma queue_bytes_app l l' : queue_bytes (l ++ l') = queue_bytes l + queue_bytes l'.
Proof. induction l; simpl; lia. Qed.

Lemma payload_le l : Forall queued_ok l → payload_bytes l <= queue_bytes l.
Proof.
  unfold payload_bytes. induction 1 as [|d l Hd _ IH]; [done|].
  change (len (q_data d ++ concat (q_data <$> l)) <= q_permits d + queue_bytes l).
  unfold queued_ok in Hd. rewrite len_app. lia.
Qed.

Lemma reassembler_empty_ok : reassembler_ok ∅.
Proof. split; [rewrite map_size_empty; lia|apply map_Forall_empty]. Qed.

Lemma channel_new_ok : channel_ok Channel_new.
Proof.
  constructor; unfold waiting; cbn; rewrite ?max_capacity_channel, ?queued_channel, ?available_new;
    try done. apply reassembler_empty_ok.
Qed.

Lemma set_assembly_ok c a : channel_ok c → reassembler_ok a → channel_ok (set_assembly c a).
Proof. intros [] Ha. by constructor. Qed.

(** There is room for [data] in the queue of [c]. *)
Definition fits c (data : bytes) : Prop :=
  len (waiting c) < RECEIVE_QUEUE_PACKETS ∧
  queue_bytes (waiting c) + Z.max (len data) 1 <= RECEIVE_QUEUE_BYTES.

Lemma deliver_spec c data : channel_ok c → is_closed (tx c) = false → len data <= 65535 →
  let c' := (deliver c data).1 in channel_ok c' ∧
  (fits c data ∧ waiting c' = waiting c ++ [{| q_data := data; q_permits := Z.max (len data) 1 |}]
     ∧ dropped c' = dropped c
   ∨ ¬ fits c data ∧ waiting c' = waiting c ∧ dropped c' = saturating_inc (dropped c)) ∧
  is_closed (tx c') = false.
Proof.
  intros Hc Hopen Hd. unfold deliver, as_u32. rewrite Hopen.
  rewrite Z.mod_small by (pose proof (len_nonneg data); lia).
  set (need := Z.max (len data) 1). destruct Hc as [Hcap Hlen Heach Hcredit Hleft Hasm].
  pose proof (try_acquire_spec need (bytes_left c) ltac:(lia)) as Ht.
  destruct (try_acquire_many need (bytes_left c)) as [s|].
  - pose proof (try_send_spec {| q_data := data; q_permits := need |} (tx c)) as Hs.
    destruct (try_send _ _) as [q|[|]]; simpl.
    + destruct Hs as (_ & Hroom & Hq & Hcap' & Hopen'). split; [|split; [left|done]].
      * constructor; unfold waiting in *; simpl; [by rewrite Hcap'| |..|lia|done]; rewrite ?Hq.
        -- rewrite len_app. change (len [_]) with 1. lia.
        -- apply Forall_app. split; [done|]. by repeat constructor.
        -- rewrite queue_bytes_app. simpl. lia.
      * unfold fits, waiting in *. simpl. rewrite Hq. repeat split; lia.
    + split; [|split; [right|done]].
      * constructor; unfold waiting in *; simpl; try done; rewrite ?release_spec; lia.
      * unfold fits, waiting in *. split; [lia|done].
    + congruence.
  - simpl. split; [|split; [right|done]].
    + by constructor.
    + unfold fits, waiting in *. split; [lia|done].
Qed.

Lemma deliver_ok c data : channel_ok c → len data <= 65535 → channel_ok (deliver c data).1.
Proof.
  intros Hc Hd. destruct (is_closed (tx c)) eqn:E.
  - unfold deliver. by rewrite E.
  - by apply deliver_spec.
Qed.

Lemma recv_spec registered room c : channel_ok c →
  match waiting c with
  | d :: rest => ∃ c', recv registered room c = Some (c',
        if len (q_data d) <=? room then Ok (q_data d) else Err "UDP receive buffer too small") ∧
      waiting c' = rest ∧ channel_ok c'
  | [] => recv registered room c =
            if registered then None else Some (c, Err "UDP association closed")
  end.
Proof.
  intros [Hcap Hlen Heach Hcredit Hleft Hasm]. unfold recv, waiting in *.
  pose proof (try_recv_spec (tx c)) as Hr. destruct (try_recv (tx c)) as [[d q]|].
  - destruct Hr as (Hq & Hcap' & _). rewrite Hq in *. exists (set_tx c q (release (q_permits d) (bytes_left c))).
    split; [by destruct (_ <=? room)|]. split; [done|].
    inversion_clear Heach as [|? ? Hd Hrest]. simpl in Hcredit. unfold queued_ok in Hd.
    pose proof (len_nonneg (q_data d)). constructor; unfold waiting; simpl; try done.
    + by rewrite Hcap'.
    + rewrite len_cons in Hlen. lia.
    + rewrite release_spec. lia.
    + rewrite release_spec. lia.
  - by rewrite Hr.
Qed.

(** ** Identifiers *)
Definition id_range (p : Protocol) : Z := if is_tuic p then 65536 else 4294967296.

Definition candidate (p : Protocol) (n : Z) : Z := if is_tuic p then Z.land n 65535 else n.

Lemma candidate_value p n : u32 n → candidate p n = n mod id_range p.
Proof.
  unfold candidate, id_range, u32. intros Hn. destruct (is_tuic p).
  - change 65535 with (Z.ones 16). by rewrite Z.land_ones by lia.
  - by rewrite Z.mod_small.
Qed.

Lemma candidate_ok p n : u32 n → session_ok p (candidate p n).
Proof.
  intros Hn. rewrite candidate_value by done. destruct p; unfold session_ok, u32, u16, id_range; simpl; lia.
Qed.

(** The loop stops at a free identifier, or has found [fuel] taken ones. *)
Lemma fresh_id_spec fuel p (s : gmap Z (Channel (Sem := Sem) (Que := Que))) n : u32 n →
  match fresh_id fuel p s n with
  | Ok (id, n') => s !! id = None ∧ session_ok p id ∧ u32 n'
  | Diverge => ∀ k, 0 <= k < Z.of_nat fuel → is_Some (s !! ((n + k) mod id_range p))
  | _ => False
  end.
Proof.
  revert n. induction fuel as [|fuel IH]; intros n Hn; simpl; [lia|]. fold (candidate p n).
  destruct (decide (s !! candidate p n = None)) as [E|E].
  - rewrite bool_decide_true by done. split; [done|]. split; [by apply candidate_ok|].
    unfold u32, as_u32. lia.
  - rewrite bool_decide_false by done. specialize (IH (as_u32 (n + 1)) ltac:(unfold u32, as_u32; lia)).
    destruct (fresh_id fuel p s _) as [[id n']| | |]; [done..|]. intros k Hk.
    destruct (decide (k = 0)) as [->|Hne].
    + rewrite Z.add_0_r, <- candidate_value by done. by apply not_eq_None_Some.
    + specialize (IH (k - 1) ltac:(lia)).
      replace ((as_u32 (n + 1) + (k - 1)) mod id_range p) with ((n + k) mod id_range p) in IH; [done|].
      unfold as_u32, id_range. destruct (is_tuic p); lia.
Qed.

(** Fewer sessions than candidates: one of them is free. *)
Lemma fresh_id_total fuel p (s : gmap Z (Channel (Sem := Sem) (Que := Que))) n : u32 n →
  (size s < fuel)%nat → Z.of_nat fuel <= 65536 → fresh_id fuel p s n ≠ Diverge.
Proof.
  intros Hn Hsize Hfuel E. pose proof (fresh_id_spec fuel p s n Hn) as Hs. rewrite E in Hs.
  set (ids := (λ k, (n + k) mod id_range p) <$> seqZ 0 (Z.of_nat fuel)).
  assert (Hids : NoDup ids).
  { apply NoDup_fmap_2_strong; [|apply NoDup_seqZ]. intros x y Hx%elem_of_seqZ Hy%elem_of_seqZ.
    unfold id_range. destruct (is_tuic p); lia. }
  assert (Hsub : ids ⊆ (map_to_list s).*1).
  { intros x (k & -> & Hk%elem_of_seqZ)%list_elem_of_fmap. destruct (Hs k ltac:(lia)) as [c Hc].
    apply list_elem_of_fmap. exists ((n + k) mod id_range p, c). split; [done|].
    by apply elem_of_map_to_list. }
  pose proof (submseteq_length _ _ (NoDup_submseteq _ _ Hids Hsub)) as Hlen.
  unfold ids in Hlen. rewrite !length_fmap, length_seqZ, length_map_to_list in Hlen. lia.
Qed.

(** ** The registry *)
Record hub_ok (p : Protocol) h : Prop := {
  hub_count : Z.of_nat (size (sessions h)) <= MAX_SESSIONS;
  hub_next : u32 (next h);
  hub_each : map_Forall (λ id c, session_ok p id ∧ channel_ok c) (sessions h);
}.

Lemma hub_update_ok p h id c : hub_ok p h → is_Some (sessions h !! id) → channel_ok c →
  hub_ok p {| sessions := <[id := c]> (sessions h); next := next h |}.
Proof.
  intros [Hn Hx He] [c0 Hc0] Hc. constructor; simpl; [|done|].
  - rewrite map_size_insert_Some; [done|by rewrite Hc0].
  - apply map_Forall_insert_2; [|done]. split; [by eapply He|done].
Qed.

Lemma hub_delete_ok p h id : hub_ok p h → hub_ok p (drop_session id h).
Proof.
  intros [Hn Hx He]. constructor; simpl; [|done|by apply map_Forall_delete].
  pose proof (map_subseteq_size _ _ (delete_subseteq (sessions h) id)). lia.
Qed.

Lemma on_datagram_ok p now packet h : hub_ok p h → is_bytes packet →
  ∃ h', on_datagram p now packet h = Ok h' ∧ hub_ok p h'.
Proof.
  intros Hh Hb. unfold on_datagram. pose proof (returns_decode p packet Hb) as Hr.
  destruct (decode p packet) as [f|e| |] eqn:Hd; try done; [|by exists h].
  destruct (decode_ok _ _ _ Hb Hd) as [Hf _].
  destruct (sessions h !! f_session f) as [c|] eqn:Hc; [|by exists h].
  destruct (hub_each _ _ Hh _ _ Hc) as [_ Hcok].
  pose proof (assemble_ok now (assembly c) f (ch_assembly _ Hcok) (wf_index _ _ Hf) (wf_total _ _ Hf)
                (wf_data _ _ Hf)) as Ha.
  destruct (assemble now (assembly c) f) as [m r]. destruct Ha as (Hm & Hret & Hlen).
  assert (is_Some (sessions h !! f_session f)) by (by rewrite Hc).
  pose proof (set_assembly_ok _ _ Hcok Hm) as Hc'.
  destruct r as [[d|]|e| |]; try done; eexists; (split; [reflexivity|]); apply hub_update_ok; try done.
  apply deliver_ok; [done|by apply Hlen].
Qed.

Lemma returns_address p host port : returns (address p host port).
Proof.
  unfold address. destruct p; cbn [is_tuic negb]; cbv zeta.
  - apply returns_bind; [apply returns_ensure|intros; exact I].
  - apply returns_bind; [|intros; exact I]. destruct (parse_ip host) as [[]|]; try exact I.
    apply returns_bind; [apply returns_ensure|intros; exact I].
Qed.

Lemma associate_ok p max host port random h : hub_ok p h →
  let '(h', r) := associate p max host port random h in
  hub_ok p h' ∧
  match r with
  | Ok s => is_Some max ∧ address p host port = Ok (s_address s) ∧
      Z.of_nat (size (sessions h)) < MAX_SESSIONS ∧
      sessions h !! s_id s = None ∧ session_ok p (s_id s) ∧
      sessions h' = <[s_id s := Channel_new]> (sessions h)
  | Err _ => h' = h ∧
      (max = None ∨ is_ok (address p host port) = false ∨ Z.of_nat (size (sessions h)) = MAX_SESSIONS)
  | _ => False
  end.
Proof.
  intros [Hn Hx He]. unfold associate. pose proof (returns_address p host port) as Ha.
  destruct max as [max|].
  2: { rewrite bool_decide_false by (by intros [? ?]). split; [done|]. split; [done|]. by left. }
  rewrite bool_decide_true by done. orun.
  destruct (address p host port) as [addr|e| |]; try done; orun.
  2: { split; [done|]. split; [done|]. right; by left. }
  destruct (Z.ltb_spec (Z.of_nat (size (sessions h))) MAX_SESSIONS) as [Hlt|]; orun.
  2: { split; [done|]. split; [done|]. right; right. lia. }
  pose proof (fresh_id_spec (Z.to_nat MAX_SESSIONS + 1) p (sessions h) (next h) Hx) as Hf.
  pose proof (fresh_id_total (Z.to_nat MAX_SESSIONS + 1) p (sessions h) (next h) Hx) as Ht.
  destruct (fresh_id _ _ _ _) as [[id n']| | |]; try done; orun.
  2: { unfold MAX_SESSIONS in *. destruct Ht; [lia|lia|done]. }
  destruct Hf as (Hfree & Hid & Hn'). split; [|done].
  constructor; simpl; [|done|].
  - rewrite map_size_insert_None by done. lia.
  - apply map_Forall_insert_2; [|done]. split; [done|apply channel_new_ok].
Qed.

Lemma step_ok p h h' : hub_ok p h → step p h h' → hub_ok p h'.
Proof.
  intros Hh Hs. destruct Hs as [max host port random h|now packet h h' Hb Hd|id room c c' r h Hc Hr|id h|h].
  - pose proof (associate_ok p max host port random h Hh) as Ha.
    destruct (associate _ _ _ _ _ _). apply Ha.
  - destruct (on_datagram_ok p now packet h Hh Hb) as (h2 & E & Hok). congruence.
  - apply hub_update_ok; [done|by rewrite Hc|].
    destruct (hub_each _ _ Hh _ _ Hc) as [_ Hcok]. pose proof (recv_spec true room c Hcok) as Hspec.
    destruct (waiting c); [congruence|]. destruct Hspec as (c2 & E & _ & Hok). congruence.
  - by apply hub_delete_ok.
  - constructor; simpl; [by rewrite map_size_empty|apply Hh|apply map_Forall_empty].
Qed.

Lemma reachable_ok p h : reachable p h → hub_ok p h.
Proof.
  induction 1; [|by eapply step_ok].
  constructor; simpl; [by rewrite map_size_empty|done|apply map_Forall_empty].
Qed.

(** The payload queued in all the sessions of the hub. *)
Definition total_payload h : Z :=
  foldr (λ kc n, payload_bytes (waiting kc.2) + n) 0 (map_to_list (sessions h)).

Lemma foldr_bound {A} (f : A → Z) bound l :
  Forall (λ x, f x <= bound) l → foldr (λ x n, f x + n) 0 l <= bound * len l.
Proof. induction 1; rewrite ?len_cons; simpl; [unfold len; simpl|]; lia. Qed.

Lemma channel_payload c : channel_ok c → payload_bytes (waiting c) <= RECEIVE_QUEUE_BYTES.
Proof. intros [Hcap Hlen Heach Hcredit Hleft Hasm]. apply payload_le in Heach. lia. Qed.

Lemma total_bound p h : hub_ok p h → total_payload h <= MAX_SESSIONS * RECEIVE_QUEUE_BYTES.
Proof.
  intros [Hn Hx He]. unfold total_payload. etrans; [apply (foldr_bound _ RECEIVE_QUEUE_BYTES)|].
  - apply Forall_forall. intros [id c] Hc%elem_of_map_to_list. simpl.
    apply channel_payload. by eapply He.
  - unfold len. rewrite length_map_to_list. unfold RECEIVE_QUEUE_BYTES. lia.
Qed.

(** What one session may hold in memory. *)
Definition session_bounded c : Prop :=
  len (waiting c) <= 256 ∧ payload_bytes (waiting c) <= 128 * 1024 ∧ (size (assembly c) <= 2)%nat ∧
  ∀ k a, assembly c !! k = Some a → len (parts a) <= 255 ∧ len (stored (parts a)) <= 65535.

Lemma channel_bounded c : channel_ok c → session_bounded c.
Proof.
  intros Hc. split; [apply Hc|]. split; [by apply channel_payload|].
  destruct (ch_assembly _ Hc) as [Hs Ha]. split; [done|]. intros k a Hk.
  destruct (Ha k a Hk) as [Ht Hp _ Hst]. lia.
Qed.

(** C26. In every state the hub can reach, by any interleaving of associations,
    arriving datagrams, receives, session drops and the end of the connection, it
    has at most 32 sessions holding together at most 4 MiB of queued payload; each
    queues at most 256 packets and 128 KiB and reassembles at most two packets of
    at most 64 KiB; and no datagram, whatever its bytes, makes the receive task panic. *)
Theorem quic_hub_bounded p h : reachable p h →
  Z.of_nat (size (sessions h)) <= 32 ∧ total_payload h <= 4 * 1024 * 1024 ∧
  (∀ id c, sessions h !! id = Some c → session_ok p id ∧ session_bounded c) ∧
  ∀ now packet, is_bytes packet → ∃ h', on_datagram p now packet h = Ok h'.
Proof.
  intros Hh%reachable_ok. split; [apply Hh|]. split; [by eapply total_bound|]. split.
  - intros id c Hc. destruct (hub_each _ _ Hh _ _ Hc). split; [done|by apply channel_bounded].
  - intros now packet Hb. destruct (on_datagram_ok p now packet h Hh Hb) as (h' & ? & _). by exists h'.
Qed.

(** In every reachable state [associate] terminates. It succeeds exactly when
    the server accepts datagrams, the destination can be encoded and fewer than 32
    sessions exist; the new session has an identifier no other session has (of 16
    bits for TUIC), an empty channel, and the other sessions are untouched. Any
    refusal leaves the registry as it was. *)
Theorem quic_associate_spec p max host port random h : reachable p h →
  let '(h', r) := associate p max host port random h in
  match r with
  | Ok s => is_Some max ∧ address p host port = Ok (s_address s) ∧
      Z.of_nat (size (sessions h)) < 32 ∧
      sessions h !! s_id s = None ∧ session_ok p (s_id s) ∧
      sessions h' = <[s_id s := Channel_new]> (sessions h)
  | Err _ => h' = h ∧
      (max = None ∨ is_ok (address p host port) = false ∨ Z.of_nat (size (sessions h)) = 32)
  | Panic | Diverge => False
  end.
Proof.
  intros Hh%reachable_ok. pose proof (associate_ok p max host port random h Hh) as Ha.
  destruct (associate _ _ _ _ _ _) as [h' [s|e| |]]; apply Ha.
Qed.

(** The queue of a registered session is first-in first-out and lossy only
    when full: a delivered packet is appended unchanged when fewer than 256
    packets wait and its bytes fit the 128 KiB budget, and otherwise dropped and
    counted, leaving the queue as it was; [recv] takes the oldest packet, returns
    its bytes to the budget, and fails only when the caller's buffer is too small. *)
Theorem quic_queue_spec p h id c data room : reachable p h → sessions h !! id = Some c →
  is_closed (tx c) = false → len data <= 65535 →
  let c' := (deliver c data).1 in
  (fits c data ∧ q_data <$> waiting c' = (q_data <$> waiting c) ++ [data] ∧ dropped c' = dropped c
   ∨ ¬ fits c data ∧ waiting c' = waiting c ∧ dropped c' = saturating_inc (dropped c)) ∧
  match q_data <$> waiting c' with
  | d :: rest => ∃ c2, recv true room c' =
        Some (c2, if len d <=? room then Ok d else Err "UDP receive buffer too small") ∧
      q_data <$> waiting c2 = rest ∧
      available_permits (bytes_left c2) = RECEIVE_QUEUE_BYTES - queue_bytes (waiting c2)
  | [] => recv true room c' = None
  end.
Proof.
  intros Hh%reachable_ok Hc Hopen Hd. destruct (hub_each _ _ Hh _ _ Hc) as [_ Hcok].
  destruct (deliver_spec c data Hcok Hopen Hd) as (Hok & Hcases & _). cbv zeta. split.
  - destruct Hcases as [(? & E & ?)|?]; [left|by right]. split; [done|]. split; [|done].
    by rewrite E, fmap_app.
  - pose proof (recv_spec true room _ Hok) as Hr.
    destruct (waiting (deliver c data).1) as [|d rest]; [done|]. cbn [fmap list_fmap].
    destruct Hr as (c2 & ? & <- & Hok2). exists c2. split; [done|]. split; [done|].
    pose proof (ch_credit _ Hok2). lia.
Qed.
End hub.

(** ** Witnesses, on counters and list channels *)
#[local] Existing Instance plain_quinn.

(** The hub after one association that took identifier 5. *)
Definition one_session : Hub (Sem := Z) (Que := list_channel QueuedDatagram) :=
  (associate Tuic (Some 1200) (lit "dns.example") 53 9 (Hub_new 65541)).1.

Lemma one_session_reachable : reachable Tuic one_session.
Proof.
  eapply reach_step; [apply (reach_new Tuic 65541); decided|]. apply step_associate.
Qed.

Lemma quic_hub_bounded_witness :
  Z.of_nat (size (sessions one_session)) <= 32 ∧ total_payload one_session <= 4 * 1024 * 1024 ∧
  (∀ id c, sessions one_session !! id = Some c → session_ok Tuic id ∧ session_bounded c) ∧
  ∀ now packet, is_bytes packet → ∃ h', on_datagram Tuic now packet one_session = Ok h'.
Proof. apply quic_hub_bounded, one_session_reachable. Defined.

Lemma quic_associate_spec_witness :
  match associate Tuic (Some 1200) (lit "10.0.0.1") 53 1 one_session with
  | (h', Ok s) => is_Some (Some 1200) ∧ address Tuic (lit "10.0.0.1") 53 = Ok (s_address s) ∧
      Z.of_nat (size (sessions one_session)) < 32 ∧
      sessions one_session !! s_id s = None ∧ session_ok Tuic (s_id s) ∧
      sessions h' = <[s_id s := Channel_new]> (sessions one_session)
  | _ => False
  end.
Proof. apply (quic_associate_spec Tuic (Some 1200) (lit "10.0.0.1") 53 1 one_session), one_session_reachable. Defined.

Lemma quic_queue_spec_witness :
  let c' := (deliver (Channel_new (Sem := Z) (Que := list_channel QueuedDatagram)) [1; 2; 3]).1 in
  fits (Channel_new (Sem := Z) (Que := list_channel QueuedDatagram)) [1; 2; 3] ∧
  ∃ c2, recv true 1500 c' = Some (c2, Ok [1; 2; 3]).
Proof.
  destruct (quic_queue_spec Tuic one_session 5 Channel_new [1; 2; 3] 1500) as [[Hf|[Hn _]] Hr].
  - apply one_session_reachable.
  - vm_compute. reflexivity.
  - reflexivity.
  - decided.
  - split; [apply Hf|]. destruct Hf as (_ & E & _). cbn in Hr. destruct Hr as (c2 & Hr & _). by exists c2.
  - destruct Hn. split; vm_compute; congruence.
Defined.
