(* ===== verification/Headers.v ===== *)
(** * Destinations on the wire (proxy/trojan.rs, vless.rs, socks5.rs, socks_udp.rs)

    The request headers the Trojan and VLESS outbounds write, and the readers of
    the SOCKS5 server: its handshake, its address parser and the header of its UDP
    datagrams.  A stream being read is the list of the bytes that will arrive
    before it ends; a host name is its UTF-8 bytes. *)
From S2P Require Import Prelude Bytes Text Net NetText.

(** ** Reading a stream *)
Definition EOF : string := "unexpected end of file".

Definition read_exact (n : Z) (s : bytes) : outcome (bytes * bytes) :=
  if len s <? n then Err EOF else Ok (take (Z.to_nat n) s, drop (Z.to_nat n) s).

Definition read_u8 (s : bytes) : outcome (Z * bytes) :=
  match s with b :: s => Ok (b, s) | [] => Err EOF end.

Definition read_u16 (s : bytes) : outcome (Z * bytes) :=
  '(b, s) ← read_exact 2 s; Ok (of_be b, s).

(** ** Trojan *)
Definition crlf : bytes := [13; 10].

Definition build_trojan_request (password_hash host : bytes) (port : Z) : outcome bytes :=
  address ← match parse_ipv4 host with
            | Some ip => Ok (1 :: octets (V4 ip))
            | None =>
                match parse_ipv6 host with
                | Some ip => Ok (4 :: octets (V6 ip))
                | None =>
                    _ ← ensure (len host <=? 255) "Domain name too long for Trojan";
                    Ok (3 :: as_u8 (len host) :: host)
                end
            end;
  Ok (password_hash ++ crlf ++ [1] ++ address ++ be16 port ++ crlf).

(** [connect_datagram]: the header to write and the address of each packet. *)
Definition trojan_datagram_request (password_hash host : bytes) (port : Z) : outcome (bytes * bytes) :=
  header ← build_trojan_request password_hash host port;
  header ← set_at header 58 3;
  address ← sub header 59 (len header - 2);
  Ok (header, address).

(** ** VLESS *)
Definition build_vless_request (uuid host : bytes) (port : Z) : outcome bytes :=
  address ← match parse_ipv4 host with
            | Some ip => Ok (1 :: octets (V4 ip))
            | None =>
                match parse_ipv6 host with
                | Some ip => Ok (3 :: octets (V6 ip))
                | None =>
                    _ ← ensure (len host <=? 255) "Domain name too long for VLESS";
                    Ok (2 :: as_u8 (len host) :: host)
                end
            end;
  Ok ([0] ++ uuid ++ [0] ++ [1] ++ be16 port ++ address).

Definition FLOW : bytes := lit "xtls-rprx-vision".

(** The header [connect] writes on a Vision connection:
    [header[17] = addon.len() as u8; header.splice(18..18, addon)]. *)
Definition vless_vision_request (uuid host : bytes) (port : Z) : outcome bytes :=
  header ← build_vless_request uuid host port;
  let addon := [10; as_u8 (len FLOW)] ++ FLOW in
  header ← set_at header 17 (as_u8 (len addon));
  head ← sub header 0 18;
  tail ← sub header 18 (len header);
  Ok (head ++ addon ++ tail).

(** [connect_datagram] on a plain connection. *)
Definition vless_datagram_request (uuid host : bytes) (port : Z) : outcome bytes :=
  header ← build_vless_request uuid host port;
  set_at header 18 2.

(** [connect_datagram] on a Vision connection: the header and the XUDP address. *)
Definition vless_vision_datagram_request (uuid host : bytes) (port : Z) : outcome (bytes * bytes) :=
  if port =? 443
  then Err "Vision blocks UDP/443 so clients can fall back to HTTPS over TCP"
  else
    request ← build_vless_request uuid host port;
    address ← sub request 19 (len request);
    Ok ([0] ++ uuid ++ [as_u8 (len FLOW + 2)] ++ [10; as_u8 (len FLOW)] ++ FLOW ++ [3], address).

Definition read_vless_response (s : bytes) : outcome (unit * bytes) :=
  '(version, s) ← read_u8 s;
  _ ← ensure (version =? 0) "Unexpected VLESS response version";
  '(addon_len, s) ← read_u8 s;
  if 0 <? addon_len then '(_, s) ← read_exact addon_len s; Ok (tt, s) else Ok (tt, s).

(** ** The SOCKS5 server *)
Definition read_socks5_addr (s : bytes) : outcome (bytes * Z * bytes) :=
  '(atyp, s) ← read_u8 s;
  '(host, s) ← (if atyp =? 1 then
                  '(buf, s) ← read_exact 4 s; Ok (show_ip (V4 (of_be buf)), s)
                else if atyp =? 3 then
                  '(n, s) ← read_u8 s;
                  '(buf, s) ← read_exact n s;
                  host ← from_utf8 buf;
                  Ok (host, s)
                else if atyp =? 4 then
                  '(buf, s) ← read_exact 16 s; Ok (show_ip (V6 (of_be buf)), s)
                else Err "Unsupported SOCKS5 address type");
  '(port, s) ← read_u16 s;
  Ok (host, port, s).

Definition socks5_reply (rep : Z) : bytes := [5; rep; 0; 1; 0; 0; 0; 0; 0; 0].

(** Whether the client offers the method without authentication. *)
Definition socks5_greeting (s : bytes) : outcome (bool * bytes) :=
  '(version, s) ← read_u8 s;
  _ ← ensure (version =? 5) "Invalid SOCKS version";
  '(nmethods, s) ← read_u8 s;
  '(methods, s) ← read_exact nmethods s;
  Ok (bool_decide (0 ∈ methods), s).

Definition socks5_request (s : bytes) : outcome (Z * bytes * Z * bytes) :=
  '(ver, s) ← read_u8 s;
  _ ← ensure (ver =? 5) "Invalid SOCKS5 request version";
  '(cmd, s) ← read_u8 s;
  '(rsv, s) ← read_u8 s;
  _ ← ensure (rsv =? 0) "Invalid SOCKS5 reserved byte";
  if (cmd =? 1) || (cmd =? 3) then
    '(host, port, s) ← read_socks5_addr s;
    Ok (cmd, host, port, s)
  else Ok (cmd, [], 0, s).

(** The handshake of [handle_socks5]: what it writes and what it read. *)
Definition socks5_handshake (s : bytes) : bytes * outcome (Z * bytes * Z * bytes) :=
  match socks5_greeting s with
  | Ok (true, s) => ([5; 0], socks5_request s)
  | Ok (false, _) => ([5; 255], Err "Client does not support NO AUTH method")
  | Err e => ([], Err e)
  | Panic => ([], Panic)
  | Diverge => ([], Diverge)
  end.

(** What the connection is used for once its reply is written. *)
Inductive socks5_session :=
  | Relay (host : bytes) (port : Z) (early : bytes)
  | UdpAssociate (host : bytes) (port : Z).

(** [handle_socks5]; [connect] is [connect_upstream] and [early] the bytes the
    client sent after its request. *)
Definition handle_socks5 (connect : bytes → Z → outcome unit) (s : bytes)
    : bytes * outcome socks5_session :=
  let '(written, request) := socks5_handshake s in
  match request with
  | Ok (cmd, host, port, rest) =>
      if cmd =? 1 then
        match connect host port with
        | Ok _ => (written ++ socks5_reply 0, Ok (Relay host port rest))
        | Err e => (written ++ socks5_reply 4, Err e)
        | Panic => (written, Panic)
        | Diverge => (written, Diverge)
        end
      else if cmd =? 2 then (written ++ socks5_reply 7, Err "SOCKS5 BIND not supported")
      else if cmd =? 3 then (written, Ok (UdpAssociate host port))
      else (written ++ socks5_reply 7, Err "Unknown SOCKS5 command")
  | Err e => (written, Err e)
  | Panic => (written, Panic)
  | Diverge => (written, Diverge)
  end.

(** ** SOCKS5 datagrams *)
(** [match packet[3]]: the host, and where its field ends. *)
Definition decode_host (packet : bytes) (atyp : Z) : outcome (bytes * Z) :=
  if atyp =? 1 then
    _ ← ensure (10 <=? len packet) "Truncated IPv4 address";
    a ← sub packet 4 8;
    Ok (show_ip (V4 (of_be a)), 8)
  else if atyp =? 4 then
    _ ← ensure (22 <=? len packet) "Truncated IPv6 address";
    a ← sub packet 4 20;
    Ok (show_ip (V6 (of_be a)), 20)
  else if atyp =? 3 then
    _ ← ensure (5 <=? len packet) "Truncated domain";
    n ← idx packet 4;
    let stop := 5 + n in
    _ ← ensure ((5 <? stop) && (stop + 2 <=? len packet)) "Invalid domain";
    d ← sub packet 5 stop;
    host ← from_utf8 d;
    Ok (host, stop)
  else Err "Invalid UDP address type".

Definition decode (packet : bytes) : outcome (bytes * Z * Z) :=
  _ ← ensure ((4 <=? len packet) && bool_decide (range packet 0 3 = [0; 0; 0]))
        "Fragmented or malformed UDP request";
  atyp ← idx packet 3;
  '(host, stop) ← decode_host packet atyp;
  port ← idx_u16 packet stop;
  _ ← ensure (negb (port =? 0)) "Invalid UDP destination port";
  Ok (host, port, stop + 2).
