(* ===== verification/HeadersSpec.v ===== *)
(** * Destinations on the wire: what is written is what is read *)
From S2P Require Import Prelude Bytes Text Net NetText Headers.

(** ** Reading what was written *)
Lemma set_at_mid {A} (pre post : list A) x y i : i = len pre →
  set_at (pre ++ x :: post) i y = Ok (pre ++ y :: post).
Proof.
  intros ->. rewrite set_at_in by lenlia. apply (f_equal Ok). unfold len. rewrite Nat2Z.id.
  rewrite insert_app_r_alt by lia. by rewrite Nat.sub_diag.
Qed.

Lemma read_exact_app a s n : n = len a → read_exact n (a ++ s) = Ok (a, s).
Proof.
  intros ->. unfold read_exact. rewrite (proj2 (Z.ltb_ge _ _)) by lenlia.
  unfold len. by rewrite Nat2Z.id, take_app_length, drop_app_length.
Qed.

Lemma read_u16_app z s : u16 z → read_u16 (be16 z ++ s) = Ok (z, s).
Proof. intros Hz. unfold read_u16. rewrite read_exact_app by done. orun. by rewrite of_be_be16. Qed.

Lemma returns_read_exact n s : returns (read_exact n s).
Proof. unfold read_exact. by destruct (_ <? _). Qed.

Lemma returns_read_u8 s : returns (read_u8 s).
Proof. by destruct s. Qed.

Lemma returns_read_u16 s : returns (read_u16 s).
Proof. apply returns_bind; [apply returns_read_exact|]. by intros []. Qed.

#[export] Hint Resolve returns_read_exact returns_read_u8 returns_read_u16 : outcome.

(** ** Destinations *)

(** How a destination is announced: [kd] and [k6] are the type bytes the protocol
    gives to domains and to IPv6 addresses. *)
Inductive dest (kd k6 : Z) (host : bytes) : bytes → Prop :=
  | dest_v4 ip : parse_ipv4 host = Some ip → dest kd k6 host (1 :: octets (V4 ip))
  | dest_v6 ip : parse_ipv4 host = None → parse_ipv6 host = Some ip →
      dest kd k6 host (k6 :: octets (V6 ip))
  | dest_domain : parse_ipv4 host = None → parse_ipv6 host = None → len host <= 255 →
      dest kd k6 host (kd :: len host :: host).

(** The host name a SOCKS reader reports for a destination. *)
Definition canonical (host : bytes) : bytes :=
  match parse_ipv4 host with
  | Some ip => show_ip (V4 ip)
  | None => match parse_ipv6 host with Some ip => show_ip (V6 ip) | None => host end
  end.

(** A host that cannot be announced. *)
Definition too_long (host : bytes) : Prop :=
  parse_ipv4 host = None ∧ parse_ipv6 host = None ∧ 255 < len host.

Lemma parse_ipv6_u128 s a : parse_ipv6 s = Some a → u128 a.
Proof.
  unfold parse_ipv6, parse_with. destruct (read_ipv6_addr s) as [[b [|]]|] eqn:E; try done.
  intros [= <-]. by eapply read_ipv6_u128.
Qed.

Lemma as_u8_len (host : bytes) : len host <= 255 → as_u8 (len host) = len host.
Proof. intros. pose proof (len_nonneg host). apply Z.mod_small. lia. Qed.

Lemma trojan_layout hash host port :
  match build_trojan_request hash host port with
  | Ok buf => ∃ a, dest 3 4 host a ∧ buf = hash ++ crlf ++ [1] ++ a ++ be16 port ++ crlf
  | Err _ => too_long host
  | _ => False
  end.
Proof.
  unfold build_trojan_request.
  destruct (parse_ipv4 host) eqn:E4; [orun; eexists; split; [by constructor|done]|].
  destruct (parse_ipv6 host) eqn:E6; [orun; eexists; split; [by constructor|done]|].
  destruct (Z.leb_spec (len host) 255); orun; [|by repeat split].
  eexists; split; [by constructor|]. by rewrite as_u8_len.
Qed.

Lemma vless_layout uuid host port :
  match build_vless_request uuid host port with
  | Ok buf => ∃ a, dest 2 3 host a ∧ buf = [0] ++ uuid ++ [0] ++ [1] ++ be16 port ++ a
  | Err _ => too_long host
  | _ => False
  end.
Proof.
  unfold build_vless_request.
  destruct (parse_ipv4 host) eqn:E4; [orun; eexists; split; [by constructor|done]|].
  destruct (parse_ipv6 host) eqn:E6; [orun; eexists; split; [by constructor|done]|].
  destruct (Z.leb_spec (len host) 255); orun; [|by repeat split].
  eexists; split; [by constructor|]. by rewrite as_u8_len.
Qed.

(** ** The SOCKS readers on an announced destination *)
Lemma read_socks5_dest host a port rest : dest 3 4 host a → utf8_valid host = true → u16 port →
  read_socks5_addr (a ++ be16 port ++ rest) = Ok (canonical host, port, rest).
Proof.
  intros Ha Hu Hp. unfold read_socks5_addr, canonical.
  destruct Ha as [ip H4|ip H4 H6|H4 H6 Hl]; rewrite ?H4, ?H6, <- ?app_comm_cons; cbn [read_u8]; orun; cbn [Z.eqb].
  - cbn -[octets be16 show_ip]. rewrite read_exact_app by done. orun. rewrite read_u16_app by done. orun.
    by rewrite of_be_octets_v4 by (by eapply parse_ipv4_u32).
  - cbn -[octets be16 show_ip]. rewrite read_exact_app by done. orun. rewrite read_u16_app by done. orun.
    by rewrite of_be_octets_v6 by (by eapply parse_ipv6_u128).
  - cbn -[be16 show_ip]. rewrite read_exact_app by done. orun. unfold from_utf8. rewrite Hu. orun.
    rewrite read_u16_app by done. done.
Qed.

Lemma idx_u16_at pre port rest i : u16 port → i = len pre →
  idx_u16 (pre ++ be16 port ++ rest) i = Ok port.
Proof. intros Hp ->. rewrite <- (Z.add_0_r (len pre)), idx_u16_app_r by lia. by apply idx_u16_be16. Qed.

Lemma decode_dest host a port payload : dest 3 4 host a → utf8_valid host = true → u16 port →
  port ≠ 0 → host ≠ [] →
  decode ([0; 0; 0] ++ a ++ be16 port ++ payload) = Ok (canonical host, port, 3 + len a + 2).
Proof.
  intros Ha Hu Hp Hp0 Hh. unfold decode, decode_host. pose proof (len_nonneg payload).
  set (packet := [0; 0; 0] ++ a ++ be16 port ++ payload).
  assert (Hlen : len packet = 3 + len a + 2 + len payload) by (unfold packet; lenlia).
  assert (Hport : idx_u16 packet (3 + len a) = Ok port)
    by (unfold packet; rewrite app_assoc; apply idx_u16_at; [done|lenlia]).
  assert (Hr : range packet 0 3 = [0; 0; 0]) by done.
  rewrite Hr, (bool_decide_true (_ = _)) by done.
  destruct Ha as [ip H4|ip H4 H6|H4 H6 Hl]; unfold canonical; rewrite ?H4, ?H6.
  - assert (len (1 :: octets (V4 ip)) = 5) by done.
    rewrite (proj2 (Z.leb_le 4 _)) by lia. cbn [andb]. orun.
    change (idx packet 3) with (@Ok Z 1). orun. cbn [Z.eqb Pos.eqb].
    rewrite (proj2 (Z.leb_le 10 _)) by lia. orun.
    replace (sub packet 4 8) with (Ok (octets (V4 ip)))
      by (symmetry; by apply (sub_mid [0; 0; 0; 1] (octets (V4 ip)) (be16 port ++ payload))).
    orun. change 8 with (3 + len (1 :: octets (V4 ip))). rewrite Hport. orun.
    rewrite (proj2 (Z.eqb_neq port 0)) by done. cbn [negb]. orun.
    by rewrite of_be_octets_v4 by (by eapply parse_ipv4_u32).
  - assert (len (4 :: octets (V6 ip)) = 17) by done.
    rewrite (proj2 (Z.leb_le 4 _)) by lia. cbn [andb]. orun.
    change (idx packet 3) with (@Ok Z 4). orun. cbn [Z.eqb Pos.eqb].
    rewrite (proj2 (Z.leb_le 22 _)) by lia. orun.
    replace (sub packet 4 20) with (Ok (octets (V6 ip)))
      by (symmetry; by apply (sub_mid [0; 0; 0; 4] (octets (V6 ip)) (be16 port ++ payload))).
    orun. change 20 with (3 + len (4 :: octets (V6 ip))). rewrite Hport. orun.
    rewrite (proj2 (Z.eqb_neq port 0)) by done. cbn [negb]. orun.
    by rewrite of_be_octets_v6 by (by eapply parse_ipv6_u128).
  - assert (Ha : len (3 :: len host :: host) = 2 + len host) by lenlia.
    assert (0 < len host) by (destruct host; [done|lenlia]).
    rewrite (proj2 (Z.leb_le 4 _)) by lia. cbn [andb]. orun.
    change (idx packet 3) with (@Ok Z 3). orun. cbn [Z.eqb Pos.eqb].
    rewrite (proj2 (Z.leb_le 5 _)) by lia. orun.
    change (idx packet 4) with (Ok (len host)). orun.
    rewrite (proj2 (Z.ltb_lt 5 _)), (proj2 (Z.leb_le _ (len packet))) by lia. cbn [andb]. orun.
    replace (sub packet 5 (5 + len host)) with (Ok host)
      by (symmetry; apply (sub_mid [0; 0; 0; 3; len host] host (be16 port ++ payload)); lenlia).
    orun. unfold from_utf8. rewrite Hu. orun.
    replace (5 + len host) with (3 + len (3 :: len host :: host)) by lia. rewrite Hport. orun.
    rewrite (proj2 (Z.eqb_neq port 0)) by done. done.
Qed.

(** ** Arbitrary datagrams *)
Lemma idx_prefix (p x y : bytes) i : i < len p → idx (p ++ x) i = idx (p ++ y) i.
Proof. intros. unfold idx. by rewrite !byte_at_app_l. Qed.

Lemma idx_u16_prefix (p x y : bytes) i : i + 1 < len p → idx_u16 (p ++ x) i = idx_u16 (p ++ y) i.
Proof. intros. unfold idx_u16. rewrite (idx_prefix p x y i), (idx_prefix p x y (i + 1)) by lia. done. Qed.

Lemma range_prefix (p x y : bytes) a b : 0 <= a → b <= len p → range (p ++ x) a b = range (p ++ y) a b.
Proof. intros. by rewrite !range_app_l. Qed.

Lemma sub_prefix (p x y : bytes) a b : 0 <= a → b <= len p → sub (p ++ x) a b = sub (p ++ y) a b.
Proof.
  intros Ha Hb. unfold sub, in_range. rewrite (range_prefix p x y) by done.
  pose proof (len_nonneg x). pose proof (len_nonneg y). rewrite !len_app.
  by rewrite !(proj2 (Z.leb_le b _)) by lia.
Qed.

Lemma decode_host_spec packet atyp : is_bytes packet → 4 <= len packet →
  returns (decode_host packet atyp) ∧
  ∀ h stop, decode_host packet atyp = Ok (h, stop) → 5 <= stop ∧ stop + 2 <= len packet.
Proof.
  intros Hb Hl. unfold decode_host. destruct (atyp =? 1); [|destruct (atyp =? 4); [|destruct (atyp =? 3)]].
  - destruct (Z.leb_spec 10 (len packet)); orun; [|by split].
    rewrite sub_in by lia. orun. split; [done|]. intros h stop [= _ <-]. lia.
  - destruct (Z.leb_spec 22 (len packet)); orun; [|by split].
    rewrite sub_in by lia. orun. split; [done|]. intros h stop [= _ <-]. lia.
  - destruct (Z.leb_spec 5 (len packet)); orun; [|by split].
    destruct (idx_in packet 4) as [n Hn]; [lia|]. rewrite Hn. orun.
    destruct (Z.ltb_spec 5 (5 + n)), (Z.leb_spec (5 + n + 2) (len packet)); cbn [andb]; orun; try by split.
    rewrite sub_in by lia. orun. unfold from_utf8. destruct (utf8_valid _); orun; [|by split].
    split; [done|]. intros h stop [= _ <-]. lia.
  - by split.
Qed.

Lemma decode_host_prefix (p x y : bytes) atyp h stop :
  decode_host (p ++ x) atyp = Ok (h, stop) → stop + 2 <= len p →
  decode_host (p ++ y) atyp = Ok (h, stop).
Proof.
  unfold decode_host. intros Hd Hs. pose proof (len_nonneg y). rewrite len_app.
  destruct (atyp =? 1); [|destruct (atyp =? 4); [|destruct (atyp =? 3)]]; inv_ok.
  - rewrite (sub_prefix p y x), Hx0 by lia. by rewrite (proj2 (Z.leb_le 10 _)) by lia.
  - rewrite (sub_prefix p y x), Hx0 by lia. by rewrite (proj2 (Z.leb_le 22 _)) by lia.
  - apply andb_true_iff in Hx1 as [Hn%Z.ltb_lt _].
    rewrite (proj2 (Z.leb_le 5 _)), (idx_prefix p y x), Hx0 by lia. orun.
    rewrite (proj2 (Z.ltb_lt 5 _)), (proj2 (Z.leb_le _ (len p + len y))) by lia. cbn [andb]. orun.
    rewrite (sub_prefix p y x), Hx2 by lia. orun. by rewrite Hx3.
Qed.

Lemma returns_udp_decode packet : is_bytes packet → returns (decode packet).
Proof.
  intros Hb. unfold decode. apply returns_bind; [auto with outcome|]. intros [] Hg%ensure_ok.
  apply andb_true_iff in Hg as [Hl%Z.leb_le _].
  apply returns_bind; [apply returns_idx; lia|]. intros atyp _.
  destruct (decode_host_spec packet atyp Hb Hl) as [Hr Hs].
  apply returns_bind; [done|]. intros [h stop] [Hs1 Hs2]%Hs.
  apply returns_bind; [apply returns_idx_u16; lia|]. intros port _.
  apply returns_bind; [auto with outcome|done].
Qed.

(** Where [decode] finds the payload, and that the bytes before it decide. *)
Lemma decode_prefix (p x y : bytes) host port off : is_bytes (p ++ x) →
  decode (p ++ x) = Ok (host, port, off) →
  off <= len (p ++ x) ∧ 7 <= off ∧ u16 port ∧ port ≠ 0 ∧
  (off = len p → decode (p ++ y) = Ok (host, port, off)).
Proof.
  intros Hb Hd. unfold decode in Hd. apply bind_ok in Hd as ([] & Hguard%ensure_ok & Hd).
  apply andb_true_iff in Hguard as [Hlen%Z.leb_le Hzero].
  apply bind_ok in Hd as (atyp & Hatyp & Hd). apply bind_ok in Hd as ([h stop] & Haddr & Hd).
  apply bind_ok in Hd as (pt & Hport & Hd). apply bind_ok in Hd as ([] & Hnz%ensure_ok & Hd).
  injection Hd as -> -> <-.
  destruct (decode_host_spec (p ++ x) atyp Hb Hlen) as [_ Hs]. destruct (Hs _ _ Haddr) as [Hs1 Hs2].
  split; [lia|]. split; [lia|]. split; [by eapply idx_u16_bound|].
  split; [by apply negb_true_iff, Z.eqb_neq in Hnz|]. intros Hoff.
  unfold decode. pose proof (len_nonneg y). rewrite (range_prefix p y x), Hzero by lia.
  rewrite (proj2 (Z.leb_le 4 (len (p ++ y)))) by lenlia. cbn [andb]. orun.
  rewrite (idx_prefix p y x), Hatyp by lia. orun.
  rewrite (decode_host_prefix p x y _ host stop) by (done || lia). orun.
  rewrite (idx_u16_prefix p y x), Hport by lia. orun. by rewrite Hnz.
Qed.

(** ** Properties *)

(** Trojan over UDP and the SOCKS readers agree on destinations: the datagram
    request is the TCP request with the UDP command in its place after the 56
    characters of the password hash, and its address field, read back by the SOCKS
    address parser or at the head of a SOCKS datagram, gives the same host (IP
    literals in canonical form) and port with the bytes that follow untouched. A
    request is refused only for a domain longer than 255 bytes. *)
Theorem trojan_destination hash host port : len hash = 56 → utf8_valid host = true → u16 port →
  match trojan_datagram_request hash host port with
  | Ok (header, address) =>
      (build_trojan_request hash host port = Ok (hash ++ crlf ++ [1] ++ address ++ crlf)) ∧
      header = hash ++ crlf ++ [3] ++ address ++ crlf ∧
      (∀ rest, read_socks5_addr (address ++ rest) = Ok (canonical host, port, rest)) ∧
      (port ≠ 0 → host ≠ [] → ∀ payload,
         decode ([0; 0; 0] ++ address ++ payload) = Ok (canonical host, port, 3 + len address))
  | Err _ => too_long host
  | Panic | Diverge => False
  end.
Proof.
  intros Hhash Hu Hp. unfold trojan_datagram_request.
  pose proof (trojan_layout hash host port) as Hl.
  destruct (build_trojan_request hash host port) as [buf| | |]; try done. orun.
  destruct Hl as (a & Ha & ->).
  assert (Hset : set_at (hash ++ crlf ++ [1] ++ a ++ be16 port ++ crlf) 58 3
                 = Ok (hash ++ crlf ++ [3] ++ a ++ be16 port ++ crlf)).
  { rewrite !(app_assoc hash crlf). apply set_at_mid. rewrite len_app, Hhash. done. }
  rewrite Hset. orun.
  replace (sub _ 59 _) with (Ok (a ++ be16 port)).
  2: { symmetry. rewrite (app_assoc a). rewrite (app_assoc crlf), (app_assoc hash).
       apply sub_mid; autorewrite with len; change (len crlf) with 2; rewrite Hhash; lia. }
  orun. rewrite <- !app_assoc. split; [done|]. split; [done|]. split.
  - intros rest. rewrite <- app_assoc. by apply read_socks5_dest.
  - intros Hp0 Hh payload. rewrite <- app_assoc, (decode_dest host) by done.
    do 2 f_equal. lenlia.
Qed.

Lemma trojan_destination_witness :
  match trojan_datagram_request (replicate 56 97) (lit "example.com") 443 with
  | Ok (header, address) =>
      build_trojan_request (replicate 56 97) (lit "example.com") 443
        = Ok (replicate 56 97 ++ crlf ++ [1] ++ address ++ crlf) ∧
      header = replicate 56 97 ++ crlf ++ [3] ++ address ++ crlf ∧
      (∀ rest, read_socks5_addr (address ++ rest) = Ok (canonical (lit "example.com"), 443, rest)) ∧
      (443 ≠ 0 → lit "example.com" ≠ [] → ∀ payload,
         decode ([0; 0; 0] ++ address ++ payload) = Ok (canonical (lit "example.com"), 443, 3 + len address))
  | _ => False
  end.
Proof. apply (trojan_destination (replicate 56 97) (lit "example.com") 443); decided. Defined.

(** Decoding a SOCKS5 datagram, whatever its bytes, returns without a panic.
    When it succeeds the port is not zero and the payload starts inside the
    datagram, and the header before the payload, which replies reuse, decodes to the
    same destination in front of any other payload. *)
Theorem socks_udp_decode_spec packet : is_bytes packet →
  returns (decode packet) ∧
  ∀ host port off, decode packet = Ok (host, port, off) →
    u16 port ∧ port ≠ 0 ∧ 7 <= off <= len packet ∧
    ∀ body, decode (range packet 0 off ++ body) = Ok (host, port, off).
Proof.
  intros Hb. split; [by apply returns_udp_decode|]. intros host port off Hd.
  pose proof (decode_prefix [] packet [] host port off Hb Hd) as (Hoff & H7 & Hp & Hp0 & _).
  split; [done|]. split; [done|]. split; [simpl in *; lia|]. intros body.
  assert (E : packet = range packet 0 off ++ range packet off (len packet))
    by (rewrite range_split by (simpl in *; lia); symmetry; by apply range_all).
  rewrite E in Hb, Hd. eapply decode_prefix; [done|exact Hd|].
  rewrite len_range by (simpl in *; lia). lia.
Qed.

Lemma socks_udp_decode_spec_witness :
  returns (decode [0; 0; 0; 1; 10; 0; 0; 1; 0; 53; 9]) ∧
  decode (range [0; 0; 0; 1; 10; 0; 0; 1; 0; 53; 9] 0 10 ++ [7]) = Ok (lit "10.0.0.1", 53, 10).
Proof.
  destruct (socks_udp_decode_spec [0; 0; 0; 1; 10; 0; 0; 1; 0; 53; 9]) as [Hr Hd]; [decided|].
  split; [exact Hr|]. apply Hd. vm_compute. reflexivity.
Defined.

(** The documented layout of a VLESS request and of its answer. *)
Definition vless_frame (uuid addon : bytes) (cmd : Z) (rest : bytes) : bytes :=
  [0] ++ uuid ++ [len addon] ++ addon ++ [cmd] ++ rest.

Definition vless_answer (addon : bytes) : bytes := [0; len addon] ++ addon.

(** The add-on that selects the Vision flow. *)
Definition flow_addon : bytes := [10; len FLOW] ++ FLOW.

(** The four VLESS requests follow the documented layout: a TCP request and a
    UDP request without add-on, a Vision request that carries the flow add-on in
    front of the same destination, and a Vision UDP request that opens the mux and
    leaves port and destination to the frames, refused for port 443. The answer's
    header, with any add-on, is consumed exactly. Requests fail only for a domain
    longer than 255 bytes. *)
Theorem vless_requests uuid host port : len uuid = 16 → u16 port →
  (∀ addon rest, len addon < 256 →
     read_vless_response (vless_answer addon ++ rest) = Ok (tt, rest)) ∧
  match build_vless_request uuid host port with
  | Ok request => ∃ a, dest 2 3 host a ∧
      request = vless_frame uuid [] 1 (be16 port ++ a) ∧
      vless_datagram_request uuid host port = Ok (vless_frame uuid [] 2 (be16 port ++ a)) ∧
      vless_vision_request uuid host port = Ok (vless_frame uuid flow_addon 1 (be16 port ++ a)) ∧
      vless_vision_datagram_request uuid host port =
        if port =? 443
        then Err "Vision blocks UDP/443 so clients can fall back to HTTPS over TCP"
        else Ok (vless_frame uuid flow_addon 3 [], be16 port ++ a)
  | Err _ => too_long host
  | Panic | Diverge => False
  end.
Proof.
  intros Huuid Hp. split.
  { intros addon rest Hlen. unfold read_vless_response, vless_answer. cbn -[len take drop].
    pose proof (len_nonneg addon). destruct (Z.ltb_spec 0 (len addon)).
    - by rewrite read_exact_app.
    - by rewrite (len_zero_nil addon) by lia. }
  pose proof (vless_layout uuid host port) as Hl.
  unfold vless_datagram_request, vless_vision_request, vless_vision_datagram_request.
  destruct (build_vless_request uuid host port) as [request| | |]; try done.
  destruct Hl as (a & Ha & ->). exists a. split; [done|]. split; [done|]. orun.
  set (req := [0] ++ uuid ++ [0] ++ [1] ++ be16 port ++ a).
  assert (E17 : set_at req 17 18 = Ok ([0] ++ uuid ++ [18] ++ [1] ++ be16 port ++ a))
    by (apply (set_at_mid (0 :: uuid)); lenlia).
  assert (E18 : set_at req 18 2 = Ok ([0] ++ uuid ++ [0] ++ [2] ++ be16 port ++ a)).
  { unfold req. rewrite !(app_assoc uuid [0]). apply (set_at_mid (0 :: uuid ++ [0])). lenlia. }
  split; [by rewrite E18|]. split.
  - change (as_u8 (len ([10; as_u8 (len FLOW)] ++ FLOW))) with 18. rewrite E17. orun.
    rewrite !(app_assoc uuid [18]), !(app_assoc [0]).
    replace (sub _ 0 18) with (Ok ([0] ++ uuid ++ [18]))
      by (symmetry; apply (sub_mid [] ([0] ++ uuid ++ [18])); autorewrite with len; lia).
    orun. rewrite (sub_suffix (([0] ++ uuid) ++ [18])) by (done || lenlia). orun.
    unfold vless_frame. by rewrite <- !app_assoc.
  - destruct (port =? 443); [done|].
    replace (sub req 19 (len req)) with (Ok (be16 port ++ a)); [done|]. symmetry. unfold req.
    rewrite (app_assoc [0] [1]), (app_assoc uuid), (app_assoc [0]). apply sub_suffix; lenlia.
Qed.

Lemma vless_requests_witness :
  read_vless_response (vless_answer [1; 2] ++ [9]) = Ok (tt, [9]) ∧
  vless_vision_request (replicate 16 7) (lit "10.0.0.1") 80
    = Ok (vless_frame (replicate 16 7) flow_addon 1 (be16 80 ++ [1; 10; 0; 0; 1])).
Proof.
  destruct (vless_requests (replicate 16 7) (lit "10.0.0.1") 80) as [Hr Hb]; [reflexivity|decided|].
  split; [by apply Hr|].
  assert (E : build_vless_request (replicate 16 7) (lit "10.0.0.1") 80
              = Ok (vless_frame (replicate 16 7) [] 1 (be16 80 ++ [1; 10; 0; 0; 1]))) by (vm_compute; reflexivity).
  rewrite E in Hb. destruct Hb as (a & _ & Ea & _ & Hv & _). rewrite Hv.
  apply (f_equal (drop 19)) in Ea. vm_compute in Ea. congruence.
Defined.

(** *** The SOCKS5 handshake *)
(** Past one step that always returns. *)
Ltac rbind := apply returns_bind; [auto with outcome|].

Lemma returns_read_socks5_addr s : returns (read_socks5_addr s).
Proof.
  unfold read_socks5_addr. apply returns_bind; [auto with outcome|]. intros [atyp t] _.
  apply returns_bind.
  2: { intros [host u] _. apply returns_bind; [auto with outcome|]. by intros []. }
  destruct (atyp =? 1); [|destruct (atyp =? 3); [|destruct (atyp =? 4); [|done]]].
  - apply returns_bind; [auto with outcome|]. by intros [].
  - apply returns_bind; [auto with outcome|]. intros [n u] _.
    apply returns_bind; [auto with outcome|]. intros [buf v] _. unfold from_utf8. by destruct (utf8_valid buf).
  - apply returns_bind; [auto with outcome|]. by intros [].
Qed.

Lemma returns_socks5_request s : returns (socks5_request s).
Proof.
  unfold socks5_request.
  rbind. intros [version s1] _. rbind. intros _ _. rbind. intros [cmd s2] _.
  rbind. intros [rsv s3] _. rbind. intros _ _.
  destruct (_ || _); [|done]. apply returns_bind; [apply returns_read_socks5_addr|]. by intros [[] ?].
Qed.

Lemma returns_socks5_greeting s : returns (socks5_greeting s).
Proof.
  unfold socks5_greeting.
  rbind. intros [version s1] _. rbind. intros _ _. rbind. intros [n s2] _. rbind. by intros [].
Qed.

(** What the server has said by the time the session starts or fails. *)
Definition replies_ok (connect : bytes → Z → outcome unit) (written : bytes)
    (r : outcome socks5_session) : Prop :=
  match r with
  | Ok (Relay host port _) => connect host port = Ok tt ∧ written = [5; 0] ++ socks5_reply 0
  | Ok (UdpAssociate _ _) => written = [5; 0]
  | Err _ => written ∈ [[]; [5; 255]; [5; 0]; [5; 0] ++ socks5_reply 4; [5; 0] ++ socks5_reply 7]
  | Panic | Diverge => False
  end.

(** The SOCKS5 server answers every byte stream with one of the replies of the
    protocol: success only once the destination is connected, "host unreachable" when
    connecting failed, "command not supported" for the commands it lacks, and nothing
    is connected for a client that does not offer the method without authentication.
    A client that follows the protocol is connected to the destination it named, and
    the bytes it sent early are left for the relay. *)
Theorem socks5_handshake_spec (connect : bytes → Z → outcome unit) :
  (∀ host port, returns (connect host port)) →
  (∀ s, let '(written, r) := handle_socks5 connect s in replies_ok connect written r) ∧
  (∀ methods host a port early, len methods < 256 → dest 3 4 host a → utf8_valid host = true → u16 port →
    handle_socks5 connect
      ([5; len methods] ++ methods ++ [5; 1; 0] ++ a ++ be16 port ++ early) =
      if bool_decide (0 ∈ methods) then
        match connect (canonical host) port with
        | Ok _ => ([5; 0] ++ socks5_reply 0, Ok (Relay (canonical host) port early))
        | Err e => ([5; 0] ++ socks5_reply 4, Err e)
        | Panic => ([5; 0], Panic)
        | Diverge => ([5; 0], Diverge)
        end
      else ([5; 255], Err "Client does not support NO AUTH method")).
Proof.
  intros Hc. split.
  - intros s. unfold handle_socks5, socks5_handshake.
    pose proof (returns_socks5_greeting s). destruct (socks5_greeting s) as [[[] t]|e| |]; try done;
      [|by right; left|by left].
    pose proof (returns_socks5_request t). destruct (socks5_request t) as [[[[cmd host] port] rest]|e| |]; try done;
      [|by right; right; left].
    destruct (cmd =? 1); [|destruct (cmd =? 2); [|destruct (cmd =? 3); [done|]]].
    + pose proof (Hc host port). destruct (connect host port) as [[]|e| |] eqn:E; try done.
      simpl. rewrite !elem_of_cons. tauto.
    + simpl. rewrite !elem_of_cons. tauto.
    + simpl. rewrite !elem_of_cons. tauto.
  - intros methods host a port early Hm Ha Hu Hp. unfold handle_socks5, socks5_handshake.
    assert (Hg : socks5_greeting ([5; len methods] ++ methods ++ [5; 1; 0] ++ a ++ be16 port ++ early)
                 = Ok (bool_decide (0 ∈ methods), [5; 1; 0] ++ a ++ be16 port ++ early)).
    { unfold socks5_greeting. cbn [app read_u8]. orun. cbn [Z.eqb Pos.eqb read_u8]. orun.
      by rewrite read_exact_app. }
    rewrite Hg. destruct (bool_decide (0 ∈ methods)); [|done].
    replace (socks5_request _) with (Ok (1, canonical host, port, early)); [done|].
    symmetry. unfold socks5_request. do 4 (cbn [app read_u8 Z.eqb Pos.eqb orb]; orun).
    rewrite (read_socks5_dest host) by done. done.
Qed.

Lemma socks5_handshake_spec_witness :
  handle_socks5 (λ _ _, Ok tt)
    ([5; len [0]] ++ [0] ++ [5; 1; 0] ++ [1; 10; 0; 0; 1] ++ be16 80 ++ [9]) =
  ([5; 0] ++ socks5_reply 0, Ok (Relay (canonical (lit "10.0.0.1")) 80 [9])).
Proof.
  destruct (socks5_handshake_spec (λ _ _, Ok tt)) as [_ Hs]; [done|].
  apply (Hs [0] (lit "10.0.0.1") [1; 10; 0; 0; 1] 80 [9]); [done| |decided..].
  apply (dest_v4 3 4 (lit "10.0.0.1") 167772161). vm_compute. reflexivity.
Defined.
