(* ===== verification/StreamDatagram.v ===== *)
(** * UDP framed over a stream (proxy/stream_datagram.rs)

    The frames of the four framings, the reader task's [read_packet], and the
    sender with its poison flag: a write that is cancelled half-way bars every
    later one.  A stream being read is the list of the chunks the transport will
    deliver; only [NativeChunks] depends on where they begin and end. *)
From S2P Require Import Prelude Bytes Text Headers.

Inductive Framing :=
  | Length16
  | Xudp (address : bytes)
  | Trojan (address : bytes)
  | NativeChunks (max : Z).

(** ** Reading *)

(** The guards on an XUDP header; [true] when a payload follows. *)
Definition xudp_header (header : bytes) : outcome bool :=
  let size := len header in
  first ← sub header 0 2;
  _ ← ensure (bool_decide (first = [0; 0])) "Unexpected XUDP session";
  status ← idx header 2;
  option ← idx header 3;
  _ ← ensure ((2 <=? status) && (status <=? 4) && (Z.land option (255 - 3) =? 0)
              && (Z.land option 2 =? 0)) "XUDP session closed or invalid status";
  _ ← ensure (negb (status =? 3)) "XUDP session ended";
  _ ← (if 4 <? size then
         _ ← ensure (8 <=? size) "Invalid XUDP address";
         network ← idx header 4;
         _ ← ensure (network =? 2) "Invalid XUDP address";
         address ← sub header 5 size;
         family ← idx address 2;
         length ← (if family =? 1 then Ok 7
                   else if family =? 3 then Ok 19
                   else if family =? 2 then
                     _ ← ensure (4 <=? len address) "Invalid XUDP domain";
                     n ← idx address 3;
                     Ok (4 + n)
                   else Err "Invalid XUDP address family");
         ensure (len address =? length) "Invalid XUDP address length"
       else Ok tt);
  Ok (negb (Z.land option 1 =? 0)).

(** The loop over XUDP headers, with or without a payload. *)
Fixpoint read_xudp (fuel : nat) (s : bytes) : outcome (bytes * bytes) :=
  match fuel with
  | O => Diverge
  | S fuel =>
      '(size, s) ← read_u16 s;
      _ ← ensure ((4 <=? size) && (size <=? 512)) "Invalid XUDP header length";
      '(header, s) ← read_exact size s;
      payload ← xudp_header header;
      if payload : bool then
        '(size, s) ← read_u16 s;
        read_exact size s
      else read_xudp fuel s
  end.

Definition skip_trojan_address (s : bytes) : outcome (unit * bytes) :=
  '(atyp, s) ← read_u8 s;
  '(count, s) ← (if atyp =? 1 then Ok (4, s)
                 else if atyp =? 4 then Ok (16, s)
                 else if atyp =? 3 then read_u8 s
                 else Err "Invalid Trojan UDP address");
  '(_, s) ← read_exact (count + 2) s;
  Ok (tt, s).

(** [read_packet] for the framings that read exact lengths. *)
Definition read_framed (frame : Framing) (s : bytes) : outcome (bytes * bytes) :=
  match frame with
  | Xudp _ => read_xudp (S (length s)) s
  | Length16 => '(n, s) ← read_u16 s; read_exact n s
  | Trojan _ =>
      '(_, s) ← skip_trojan_address s;
      '(n, s) ← read_u16 s;
      '(delimiter, s) ← read_exact 2 s;
      _ ← ensure (bool_decide (delimiter = crlf)) "Invalid Trojan UDP delimiter";
      read_exact n s
  | NativeChunks _ => Err EOF
  end.

(** One [read] of at most [n] bytes: the rest of the current chunk. *)
Fixpoint read_some (n : Z) (s : list bytes) : bytes * list bytes :=
  match s with
  | [] => ([], [])
  | c :: s' =>
      if bool_decide (c = []) then read_some n s'
      else if len c <=? n then (c, s')
      else (take (Z.to_nat n) c, drop (Z.to_nat n) c :: s')
  end.

Definition read_packet (frame : Framing) (s : list bytes) : outcome (bytes * list bytes) :=
  match frame with
  | NativeChunks max =>
      let '(packet, s) := read_some (max + 16) s in
      _ ← ensure (0 <? len packet) "UDP stream closed";
      Ok (packet, s)
  | _ => '(packet, rest) ← read_framed frame (concat s); Ok (packet, [rest])
  end.

(** ** Writing *)

(** The bytes [send] writes for one packet. *)
Definition frame_bytes (frame : Framing) (started : bool) (packet : bytes) : bytes :=
  match frame with
  | Length16 => be16 (as_u16 (len packet))
  | Xudp address =>
      be16 (as_u16 (5 + len address)) ++ [0; 0; if started then 2 else 1; 1; 2] ++ address
      ++ be16 (as_u16 (len packet))
  | Trojan address => address ++ be16 (as_u16 (len packet)) ++ crlf
  | NativeChunks _ => []
  end ++ packet.

Record Sender := {
  written : bytes;
  poisoned : bool;
  request_started : bool;
}.

Definition new_sender : Sender := {| written := []; poisoned := false; request_started := false |}.

(** The guards of [send] that leave the sender as it was. *)
Definition send_guard (frame : Framing) (packet : bytes) : outcome unit :=
  _ ← ensure (len packet <=? 65535) "UDP payload too large";
  match frame with
  | NativeChunks max =>
      ensure ((0 <? len packet) && (len packet <=? max))
        "VMess UDP packet exceeds negotiated chunk size or is empty"
  | _ => Ok tt
  end.

Definition is_xudp (frame : Framing) : bool := match frame with Xudp _ => true | _ => false end.

(** [send] run to its end; [cut] is the number of bytes written before the write
    fails or the caller drops the future, [None] when neither happens. *)
Definition send (frame : Framing) (packet : bytes) (cut : option nat) (s : Sender)
    : Sender * outcome unit :=
  match send_guard frame packet with
  | Ok _ =>
      if poisoned s then (s, Err "Previous UDP frame write was cancelled")
      else
        let bytes := frame_bytes frame (request_started s) packet in
        match cut with
        | None => ({| written := written s ++ bytes; poisoned := false;
                      request_started := request_started s || is_xudp frame |}, Ok tt)
        | Some k => ({| written := written s ++ take k bytes; poisoned := true;
                        request_started := request_started s || (is_xudp frame && (2 <=? Z.of_nat k)) |},
                     Err "interrupted")
        end
  | Err e => (s, Err e)
  | Panic => (s, Panic)
  | Diverge => (s, Diverge)
  end.

(** A caller's sends, and the packets among them that succeeded. *)
Fixpoint send_all (frame : Framing) (calls : list (bytes * option nat)) (s : Sender)
    : Sender * list bytes :=
  match calls with
  | [] => (s, [])
  | (packet, cut) :: rest =>
      let '(s, r) := send frame packet cut s in
      let '(s, ok) := send_all frame rest s in
      (s, if is_ok r then packet :: ok else ok)
  end.

(** The reader task: packets until the first failure. *)
Fixpoint read_all (fuel : nat) (frame : Framing) (s : list bytes) : list bytes :=
  match fuel with
  | O => []
  | S fuel =>
      match read_packet frame s with
      | Ok (packet, s) => packet :: read_all fuel frame s
      | _ => []
      end
  end.

(** [recv] into a buffer of [room] bytes. *)
Definition recv (room : Z) (received : option (outcome bytes)) : outcome bytes :=
  packet ← match received with Some r => r | None => Err "UDP stream closed" end;
  _ ← ensure (len packet <=? room) "UDP receive buffer too small";
  Ok packet.
