(* ===== verification/StreamDatagramSpec.v ===== *)
(** * UDP over a stream: framing is exact, bounded and never desynchronises *)
From S2P Require Import Prelude Bytes Text Net NetText Headers HeadersSpec StreamDatagram.

(** The framings as the outbounds build them, see [trojan_datagram_request] and
    [vless_vision_datagram_request]. *)
Inductive framing_ok : Framing → Prop :=
  | ok_length16 : framing_ok Length16
  | ok_xudp host port d : dest 2 3 host d → framing_ok (Xudp (be16 port ++ d))
  | ok_trojan host port d : dest 3 4 host d → framing_ok (Trojan (d ++ be16 port)).

(** ** One frame *)
Lemma read_u16_len (p rest : bytes) : len p <= 65535 →
  read_u16 (be16 (as_u16 (len p)) ++ rest) = Ok (len p, rest).
Proof.
  intros Hp. pose proof (len_nonneg p). unfold as_u16. rewrite Z.mod_small by lia.
  apply read_u16_app. unfold u16. lia.
Qed.

Lemma dest_len kd k6 host d : dest kd k6 host d → 2 <= len d <= 257.
Proof.
  intros [ip H4|ip H4 H6|H4 H6 Hl]; [by change (2 <= 5 <= 257)|by change (2 <= 17 <= 257)|].
  pose proof (len_nonneg host). lenlia.
Qed.

Lemma xudp_header_ok host port d : dest 2 3 host d →
  xudp_header ([0; 0; 2; 1; 2] ++ be16 port ++ d) = Ok true.
Proof.
  intros Hd. pose proof (dest_len _ _ _ _ Hd) as Hlen.
  set (header := [0; 0; 2; 1; 2] ++ be16 port ++ d).
  assert (Hh : len header = 7 + len d) by (unfold header; lenlia).
  unfold xudp_header.
  replace (sub header 0 2) with (Ok [0; 0]) by (symmetry; apply (sub_mid [] [0; 0]); done).
  orun. rewrite bool_decide_true by done. orun.
  change (idx header 2) with (@Ok Z 2). change (idx header 3) with (@Ok Z 1). orun.
  change (idx header 4) with (@Ok Z 2). cbn [Z.leb Z.compare Pos.compare Pos.compare_cont andb Z.land Z.sub Pos.land Z.eqb negb].
  rewrite (proj2 (Z.ltb_lt 4 _)), (proj2 (Z.leb_le 8 _)) by lia. orun.
  replace (sub header 5 (len header)) with (Ok (be16 port ++ d))
    by (symmetry; apply (sub_suffix [0; 0; 2; 1; 2]); done).
  orun. destruct Hd as [ip H4|ip H4 H6|H4 H6 Hl]; [done..|].
  change (idx _ 2) with (@Ok Z 2). change (idx _ 3) with (Ok (len host)). orun.
  assert (Ha : len (be16 port ++ 2 :: len host :: host) = 4 + len host) by lenlia.
  cbn -[len be16]. rewrite Ha, (proj2 (Z.leb_le 4 _)) by (pose proof (len_nonneg host); lia). orun.
  by rewrite Z.eqb_refl.
Qed.

Lemma read_xudp_frame fuel host port d p rest : dest 2 3 host d → len p <= 65535 →
  read_xudp (S fuel) (frame_bytes (Xudp (be16 port ++ d)) true p ++ rest) = Ok (p, rest).
Proof.
  intros Hd Hp. pose proof (dest_len _ _ _ _ Hd) as Hlen. unfold frame_bytes. cbn [read_xudp].
  set (address := be16 port ++ d). assert (Ha : len address = 2 + len d) by (unfold address; lenlia).
  rewrite <- !app_assoc. unfold as_u16 at 1. rewrite Z.mod_small by lia.
  rewrite read_u16_app by (unfold u16; lia). orun.
  rewrite (proj2 (Z.leb_le 4 _)), (proj2 (Z.leb_le _ 512)) by lia. cbn [andb]. orun.
  rewrite (app_assoc _ address), read_exact_app by lenlia. orun.
  unfold address at 1. rewrite (xudp_header_ok host) by done. orun.
  rewrite read_u16_len by done. orun. by apply read_exact_app.
Qed.

Lemma skip_trojan_ok host d port rest : dest 3 4 host d →
  skip_trojan_address (d ++ be16 port ++ rest) = Ok (tt, rest).
Proof.
  intros Hd. unfold skip_trojan_address. rewrite (app_assoc d).
  destruct Hd as [ip H4|ip H4 H6|H4 H6 Hl].
  - do 3 (cbn [app read_u8 Z.eqb Pos.eqb]; orun). by rewrite read_exact_app.
  - do 3 (cbn [app read_u8 Z.eqb Pos.eqb]; orun). by rewrite read_exact_app.
  - do 3 (cbn [app read_u8 Z.eqb Pos.eqb]; orun). rewrite read_exact_app by lenlia. done.
Qed.

(** Reading one frame back. *)
Lemma read_frame f started p rest : framing_ok f → (is_xudp f = true → started = true) → len p <= 65535 →
  read_framed f (frame_bytes f started p ++ rest) = Ok (p, rest).
Proof.
  intros [|host port d Hd|host port d Hd] Hs Hp; unfold read_framed.
  - unfold frame_bytes. rewrite <- app_assoc, read_u16_len by done. orun. by apply read_exact_app.
  - rewrite Hs by done. by eapply read_xudp_frame.
  - unfold frame_bytes. rewrite <- !app_assoc, (skip_trojan_ok host) by done. orun.
    rewrite read_u16_len by done. orun. rewrite read_exact_app by done. orun.
    rewrite bool_decide_true by done. orun. by apply read_exact_app.
Qed.

(** ** A reader never looks past the bytes it returns *)
Lemma read_exact_more n s t a r : read_exact n s = Ok (a, r) → read_exact n (s ++ t) = Ok (a, r ++ t).
Proof.
  unfold read_exact. rewrite len_app. pose proof (len_nonneg t).
  destruct (Z.ltb_spec (len s) n); [done|]. intros [= <- <-].
  rewrite (proj2 (Z.ltb_ge _ n)) by lia. unfold len in *.
  by rewrite take_app_le, drop_app_le by lia.
Qed.

Lemma read_u8_more s t b r : read_u8 s = Ok (b, r) → read_u8 (s ++ t) = Ok (b, r ++ t).
Proof. destruct s; [done|]. by intros [= -> ->]. Qed.

Lemma read_u16_more s t v r : read_u16 s = Ok (v, r) → read_u16 (s ++ t) = Ok (v, r ++ t).
Proof.
  unfold read_u16. intros H. apply bind_ok in H as ([b u] & Hb & [= <- <-]).
  by rewrite (read_exact_more _ _ _ _ _ Hb).
Qed.

(** Replays a read found in [H] on a longer stream. *)
Ltac replay H :=
  let p := fresh "p" in let r := fresh "r" in let Hx := fresh "Hx" in
  apply bind_ok in H as ([p r] & Hx & H);
  first [rewrite (read_u16_more _ _ _ _ Hx) | rewrite (read_exact_more _ _ _ _ _ Hx)
        | rewrite (read_u8_more _ _ _ _ Hx)]; orun.

Ltac reguard H :=
  let u := fresh "u" in let Hx := fresh "Hx" in
  apply bind_ok in H as (u & Hx & H); rewrite Hx; orun.

Lemma read_xudp_more n n' s t p r : read_xudp n s = Ok (p, r) → (n <= n')%nat →
  read_xudp n' (s ++ t) = Ok (p, r ++ t).
Proof.
  revert n' s. induction n as [|n IH]; intros [|n'] s H Hn; try done; [lia|].
  cbn [read_xudp] in *. replay H. reguard H. replay H.
  apply bind_ok in H as (payload & Hpay & H). rewrite Hpay. orun. destruct payload.
  - replay H. by apply read_exact_more.
  - apply IH; [done|lia].
Qed.

Lemma skip_trojan_more s t r : skip_trojan_address s = Ok (tt, r) →
  skip_trojan_address (s ++ t) = Ok (tt, r ++ t).
Proof.
  unfold skip_trojan_address. intros H. replay H.
  destruct (p =? 1); [|destruct (p =? 4); [|destruct (p =? 3); [|done]]]; orun;
    try (replay H); try (cbn [mbind outcome_bind] in H; replay H); by injection H as ->.
Qed.

Lemma read_framed_more f s t p r : read_framed f s = Ok (p, r) → read_framed f (s ++ t) = Ok (p, r ++ t).
Proof.
  destruct f as [|a|a|]; intros H; unfold read_framed in *; [| | |done].
  - replay H. by apply read_exact_more.
  - eapply read_xudp_more; [exact H|]. rewrite length_app. lia.
  - apply bind_ok in H as ([[] u] & Hx & H). rewrite (skip_trojan_more _ _ _ Hx). orun.
    replay H. replay H. reguard H. by apply read_exact_more.
Qed.

(** A frame cut short gives nothing. *)
Lemma read_cut f started p k : framing_ok f → (is_xudp f = true → started = true) → len p <= 65535 →
  (k < length (frame_bytes f started p))%nat →
  ∀ q r, read_framed f (take k (frame_bytes f started p)) ≠ Ok (q, r).
Proof.
  intros Hf Hs Hp Hk q r H. apply (read_framed_more _ _ (drop k (frame_bytes f started p))) in H.
  rewrite take_drop in H. pose proof (read_frame f started p [] Hf Hs Hp) as E.
  rewrite app_nil_r in E. rewrite E in H. injection H as _ H. symmetry in H.
  apply app_eq_nil in H as [_ H]. apply (f_equal length) in H. rewrite length_drop in H. simpl in H. lia.
Qed.

(** ** Any sequence of sends *)
Lemma send_poisoned f calls s : poisoned s = true → (send_all f calls s).2 = [] ∧ (send_all f calls s).1 = s.
Proof.
  intros Hs. induction calls as [|[p cut] calls IH]; [done|]. cbn [send_all].
  assert (E : ∃ e, send f p cut s = (s, Err e)).
  { unfold send. pose proof (returns_ensure (len p <=? 65535) "UDP payload too large") as Hr.
    unfold send_guard. destruct (len p <=? 65535); orun; [|by eexists].
    rewrite Hs. destruct f as [|a|a|m]; orun; try by eexists.
    destruct (_ && _); orun; by eexists. }
  destruct E as [e ->]. destruct (send_all f calls s) as [s' ok]. simpl in *. by destruct IH as [-> ->].
Qed.

Lemma read_all_unfold fuel f chunks : framing_ok f →
  read_all (S fuel) f chunks =
    match read_framed f (concat chunks) with
    | Ok (p, r) => p :: read_all fuel f [r]
    | _ => []
    end.
Proof.
  intros Hf. cbn [read_all]. assert (E : read_packet f chunks = '(p, r) ← read_framed f (concat chunks); Ok (p, [r]))
    by (by destruct Hf). rewrite E.
  destruct (read_framed f (concat chunks)) as [[p r]| | |]; done.
Qed.

Lemma read_framed_nil f q r : framing_ok f → read_framed f [] ≠ Ok (q, r).
Proof. by destruct 1. Qed.

(** What the peer can read beyond the packets whose [send] succeeded: nothing, or
    the one packet that was interrupted after its last byte was written. *)
Definition last_interrupted (calls : list (bytes * option nat)) (extra : list bytes) : Prop :=
  extra = [] ∨ ∃ p k, (p, Some k) ∈ calls ∧ extra = [p].

Lemma send_all_read f calls s : framing_ok f → poisoned s = false →
  (is_xudp f = true → request_started s = true) →
  ∃ tail extra, written (send_all f calls s).1 = written s ++ tail ∧
    last_interrupted calls extra ∧
    ∀ fuel, (length (send_all f calls s).2 + 1 < fuel)%nat →
      read_all fuel f [tail] = (send_all f calls s).2 ++ extra.
Proof.
  intros Hf. revert s. induction calls as [|[p cut] calls IH]; intros s Hs Hx.
  - exists [], []. rewrite app_nil_r. split; [done|]. split; [by left|]. intros [|fuel] Hfuel; [lia|].
    rewrite read_all_unfold by done. cbn [concat app]. pose proof (read_framed_nil f) as Hn.
    destruct (read_framed f []) as [[q r]| | |]; try done. by destruct (Hn q r).
  - cbn [send_all].
    destruct (send f p cut s) as [s1 r1] eqn:Hsend. unfold send in Hsend.
    destruct (send_guard f p) as [[]|e| |] eqn:Hg; simplify_eq.
    + assert (Hp : len p <= 65535)
        by (unfold send_guard in Hg; apply bind_ok in Hg as (? & Hp%ensure_ok%Z.leb_le & _); done).
      rewrite Hs in Hsend. destruct cut as [k|]; injection Hsend as <- <-.
      * set (frame := frame_bytes f (request_started s) p) in *.
        set (s1 := {| written := _; poisoned := true; request_started := _ |}).
        pose proof (send_poisoned f calls s1 eq_refl) as [E2 E1].
        destruct (send_all f calls s1) as [s2 ok]. simpl in E1, E2. subst s2 ok. cbn [is_ok fst snd written s1].
        exists (take k frame). destruct (decide (k < length frame)%nat) as [Hk|Hk].
        -- exists []. split; [done|]. split; [by left|]. intros [|fuel] Hfuel; [lia|].
           rewrite read_all_unfold by done. cbn [concat]. rewrite app_nil_r.
           pose proof (read_cut f (request_started s) p k Hf Hx Hp Hk) as Hc.
           destruct (read_framed f _) as [[q r]| | |]; try done. by destruct (Hc q r).
        -- exists [p]. split; [done|]. split; [right; exists p, k; split; [left|done]|].
           intros [|[|fuel]] Hfuel; [simpl in Hfuel; lia..|]. rewrite take_ge by lia.
           rewrite read_all_unfold by done. cbn [concat].
           unfold frame. rewrite read_frame by done. rewrite read_all_unfold by done. cbn [concat app].
           pose proof (read_framed_nil f) as Hn.
           destruct (read_framed f []) as [[q r]| | |]; try done. by destruct (Hn q r).
      * set (frame := frame_bytes f (request_started s) p) in *.
        set (s1 := {| written := _; poisoned := false; request_started := _ |}).
        destruct (IH s1) as (tail & extra & Hw & Hi & Hr); [done|intros E; simpl; by rewrite E, orb_true_r|].
        destruct (send_all f calls s1) as [s2 ok]. cbn [is_ok fst snd] in *.
        exists (frame ++ tail), extra. split; [by rewrite Hw, app_assoc|].
        split; [destruct Hi as [|(q & k & ? & ?)]; [by left|right; exists q, k; split; [by right|done]]|].
        intros [|fuel] Hfuel; [simpl in Hfuel; lia|]. rewrite read_all_unfold by done. cbn [concat].
        rewrite app_nil_r. unfold frame. rewrite read_frame by done.
        rewrite Hr by (simpl in Hfuel; lia). done.
    + destruct (IH s1 Hs Hx) as (tail & extra & Hw & Hi & Hr).
      destruct (send_all f calls s1) as [s2 ok]. cbn [is_ok fst snd] in *.
      exists tail, extra. split; [done|]. split; [|done].
      destruct Hi as [|(q & k & ? & ?)]; [by left|right; exists q, k; split; [by right|done]].
    + unfold send_guard in Hg. destruct (len p <=? 65535), f; try done. by destruct (_ && _).
    + unfold send_guard in Hg. destruct (len p <=? 65535), f; try done. by destruct (_ && _).
Qed.

(** ** Any bytes *)
Lemma read_exact_ok n s a r : 0 <= n → read_exact n s = Ok (a, r) → len a = n ∧ s = a ++ r.
Proof.
  unfold read_exact. destruct (Z.ltb_spec (len s) n); [done|]. intros Hn [= <- <-].
  rewrite take_drop. split; [|done]. unfold len in *. rewrite length_take. lia.
Qed.

Lemma read_u16_ok s v r : is_bytes s → read_u16 s = Ok (v, r) → u16 v ∧ is_bytes r ∧ (length r < length s)%nat.
Proof.
  unfold read_u16. intros Hs H. apply bind_ok in H as ([b t] & Hb & [= <- <-]).
  apply read_exact_ok in Hb as [Hl ->]; [|lia]. apply is_bytes_app in Hs as [Hb Ht].
  pose proof (of_be_bound b Hb) as Hv. rewrite Hl in Hv. split; [done|]. split; [done|].
  rewrite length_app. unfold len in Hl. lia.
Qed.

Lemma returns_xudp_header header : is_bytes header → 4 <= len header → returns (xudp_header header).
Proof.
  intros Hb Hl. unfold xudp_header.
  rewrite (sub_in header 0 2) by lia. orun. rbind. intros [] _.
  apply returns_bind; [apply returns_idx; lia|]. intros status _.
  apply returns_bind; [apply returns_idx; lia|]. intros option _.
  rbind. intros [] _. rbind. intros [] _. apply returns_bind; [|done].
  destruct (4 <? len header); [|done]. rbind. intros [] H8%ensure_ok%Z.leb_le.
  apply returns_bind; [apply returns_idx; lia|]. intros network _. rbind. intros [] _.
  rewrite sub_in by lia. orun.
  assert (Ha : len (range header 5 (len header)) = len header - 5) by (apply len_range; lia).
  apply returns_bind; [apply returns_idx; lia|]. intros family _.
  apply returns_bind; [|auto with outcome].
  destruct (family =? 1); [done|]. destruct (family =? 3); [done|]. destruct (family =? 2); [|done].
  rbind. intros [] H4%ensure_ok%Z.leb_le. apply returns_bind; [apply returns_idx; lia|done].
Qed.

Lemma read_exact_bounded n s : 0 <= n <= 65535 →
  returns (read_exact n s) ∧ ∀ p r, read_exact n s = Ok (p, r) → len p <= 65535.
Proof. intros Hn. split; [apply returns_read_exact|]. intros p r [Hp _]%read_exact_ok; lia. Qed.

Lemma bounded_bind {A} (o : outcome A) (k : A → outcome (bytes * bytes)) :
  returns o → (∀ a, o = Ok a → returns (k a) ∧ ∀ p r, k a = Ok (p, r) → len p <= 65535) →
  returns (o ≫= k) ∧ ∀ p r, o ≫= k = Ok (p, r) → len p <= 65535.
Proof.
  intros Ho Hk. split; [apply returns_bind; [done|]; intros a Ha; by apply Hk|].
  intros p r (a & Ha & E)%bind_ok. by eapply Hk.
Qed.

Lemma read_xudp_total fuel s : is_bytes s → (length s < fuel)%nat →
  returns (read_xudp fuel s) ∧ ∀ p r, read_xudp fuel s = Ok (p, r) → len p <= 65535.
Proof.
  revert s. induction fuel as [|fuel IH]; intros s Hs Hf; [lia|]. cbn [read_xudp].
  apply bounded_bind; [auto with outcome|]. intros [size t] (Hsize & Ht & Hlt)%read_u16_ok; [|done].
  apply bounded_bind; [auto with outcome|]. intros [] Hg%ensure_ok.
  apply andb_true_iff in Hg as [H4%Z.leb_le H512%Z.leb_le].
  apply bounded_bind; [auto with outcome|]. intros [header u] [Hh ->]%read_exact_ok; [|lia].
  apply is_bytes_app in Ht as [Hhb Hu]. rewrite length_app in Hlt.
  apply bounded_bind; [by apply returns_xudp_header; [|lia]|]. intros [|] _.
  - apply bounded_bind; [auto with outcome|]. intros [n v] (Hn & _)%read_u16_ok; [|done].
    apply read_exact_bounded. unfold u16 in Hn. lia.
  - apply IH; [done|lia].
Qed.

Lemma skip_trojan_total s : is_bytes s → returns (skip_trojan_address s) ∧
  ∀ r, skip_trojan_address s = Ok (tt, r) → is_bytes r.
Proof.
  intros Hs. unfold skip_trojan_address. split.
  - rbind. intros [atyp t] _. apply returns_bind; [|intros [count u] _; rbind; by intros []].
    destruct (atyp =? 1); [done|]. destruct (atyp =? 4); [done|]. destruct (atyp =? 3); [|done].
    auto with outcome.
  - intros r H. apply bind_ok in H as ([atyp t] & Ht & H). destruct s as [|b s]; [done|].
    injection Ht as <- <-. apply Forall_cons in Hs as [_ Hs].
    apply bind_ok in H as ([count u] & Hu & H). apply bind_ok in H as ([d v] & Hv & [= <-]).
    assert (Hc : 0 <= count ∧ is_bytes u).
    { destruct (b =? 1); [by injection Hu as <- <-|]. destruct (b =? 4); [by injection Hu as <- <-|].
      destruct (b =? 3); [|done]. destruct s as [|c s]; [done|]. injection Hu as <- <-.
      apply Forall_cons in Hs as [Hc Hs]. unfold u8 in Hc. split; [lia|done]. }
    apply read_exact_ok in Hv as [_ ->]; [|lia]. destruct Hc as [_ Hc]. by apply is_bytes_app in Hc as [_ ?].
Qed.

Lemma read_framed_total f s : is_bytes s →
  returns (read_framed f s) ∧ ∀ p r, read_framed f s = Ok (p, r) → len p <= 65535.
Proof.
  intros Hs. destruct f as [|a|a|m]; unfold read_framed.
  - apply bounded_bind; [auto with outcome|]. intros [n t] (Hn & _)%read_u16_ok; [|done].
    apply read_exact_bounded. unfold u16 in Hn. lia.
  - apply read_xudp_total; [done|lia].
  - destruct (skip_trojan_total s Hs) as [Hr Hb].
    apply bounded_bind; [done|]. intros [[] t] Ht%Hb.
    apply bounded_bind; [auto with outcome|]. intros [n u] (Hn & _)%read_u16_ok; [|done].
    apply bounded_bind; [auto with outcome|]. intros [d v] _.
    apply bounded_bind; [auto with outcome|]. intros [] _.
    apply read_exact_bounded. unfold u16 in Hn. lia.
  - done.
Qed.

Lemma read_some_bound n s : 0 <= n → len (read_some n s).1 <= n.
Proof.
  intros Hn. induction s as [|c s IH]; [done|]. cbn [read_some].
  destruct (bool_decide (c = [])); [done|]. destruct (Z.leb_spec (len c) n); [done|].
  cbn [fst]. unfold len in *. rewrite length_take. lia.
Qed.

Lemma read_native_chunks max packets : Forall (λ p, 0 < len p <= max + 16) packets →
  ∀ fuel, (length packets < fuel)%nat → read_all fuel (NativeChunks max) packets = packets.
Proof.
  induction 1 as [|p packets Hp _ IH]; intros [|fuel] Hf; try (simpl in Hf; lia); [done|].
  cbn [read_all read_packet read_some]. rewrite bool_decide_false by (intros ->; done || (change (len []) with 0 in Hp; lia)).
  rewrite (proj2 (Z.leb_le (len p) _)) by lia. orun. rewrite (proj2 (Z.ltb_lt 0 _)) by lia. orun.
  f_equal. apply IH. simpl in Hf. lia.
Qed.

Lemma read_all_chunks f chunks fuel : framing_ok f → read_all fuel f chunks = read_all fuel f [concat chunks].
Proof.
  intros Hf. destruct fuel; [done|]. rewrite !read_all_unfold by done. cbn [concat]. by rewrite app_nil_r.
Qed.

(** ** From the first send *)
(** A sender in the middle of an XUDP session. *)
Definition continuing (f : Framing) : Sender :=
  {| written := []; poisoned := false; request_started := is_xudp f |}.

(** What the peer reads after it opened the session: the first XUDP frame must have
    status 1, New, the later ones status 2, Keep, as in the reader of the code. *)
Definition open_session (f : Framing) (s : bytes) : option bytes :=
  match f, s with
  | Xudp _, l1 :: l2 :: i1 :: i2 :: status :: rest => if status =? 1 then Some (l1 :: l2 :: i1 :: i2 :: 2 :: rest) else None
  | _, _ => Some s
  end.

Definition with_written (w : bytes) (s : Sender) : Sender :=
  {| written := w; poisoned := poisoned s; request_started := request_started s |}.

Lemma send_written f p cut s w :
  send f p cut (with_written (w ++ written s) s) = (with_written (w ++ written (send f p cut s).1) (send f p cut s).1, (send f p cut s).2).
Proof.
  unfold send. destruct (send_guard f p); cbn [poisoned request_started with_written]; [|done..]. destruct (poisoned s); [done|].
  destruct cut; cbn [fst snd]; unfold with_written; cbn [written poisoned request_started]; by rewrite app_assoc.
Qed.

Lemma send_all_written f calls s w :
  send_all f calls (with_written (w ++ written s) s) =
  (with_written (w ++ written (send_all f calls s).1) (send_all f calls s).1, (send_all f calls s).2).
Proof.
  revert s. induction calls as [|[p cut] calls IH]; intros s; [done|]. cbn [send_all]. rewrite send_written.
  destruct (send f p cut s) as [s1 r]. cbn [fst snd]. rewrite IH. by destruct (send_all f calls s1).
Qed.

(** The first frame of a session differs from the later ones in its status. *)
Lemma first_frame address p : ∃ l1 l2 rest, ∀ started,
  frame_bytes (Xudp address) started p = l1 :: l2 :: 0 :: 0 :: (if started : bool then 2 else 1) :: rest.
Proof. eexists _, _, _. intros started. unfold frame_bytes, be16, be_bytes. cbn [app]. by destruct started. Qed.

Lemma open_new f calls :
  open_session f (written (send_all f calls new_sender).1) = Some (written (send_all f calls (continuing f)).1) ∧
  (send_all f calls new_sender).2 = (send_all f calls (continuing f)).2.
Proof.
  destruct f as [|address|address|max]; [done| |done..]. set (f := Xudp address).
  induction calls as [|[p cut] calls IH]; [done|]. cbn [send_all]. unfold send.
  destruct (send_guard f p); [|by destruct (send_all f calls new_sender), (send_all f calls (continuing f))..].
  cbn [poisoned request_started written new_sender continuing is_xudp f app orb andb]. clear IH.
  destruct (first_frame address p) as (l1 & l2 & rest & Hframe). fold f in Hframe.
  destruct cut as [k|].
  - set (s1 := {| written := take k (frame_bytes f false p); poisoned := true; request_started := _ |}).
    set (s2 := {| written := take k (frame_bytes f true p); poisoned := true; request_started := _ |}).
    destruct (send_poisoned f calls s1 eq_refl) as [E1 E2], (send_poisoned f calls s2 eq_refl) as [E3 E4].
    destruct (send_all f calls s1), (send_all f calls s2). cbn [fst snd is_ok] in *. subst.
    subst s1 s2. cbn [written]. rewrite !Hframe.
    by do 5 (destruct k as [|k]; [done|]).
  - set (s := {| written := []; poisoned := false; request_started := true |}).
    pose proof (send_all_written f calls s (frame_bytes f false p)) as E1. pose proof (send_all_written f calls s (frame_bytes f true p)) as E2.
    unfold with_written at 1 in E1. unfold with_written at 1 in E2. cbn [written poisoned request_started s] in E1, E2. rewrite app_nil_r in E1, E2. rewrite E1, E2.
    cbn [fst snd is_ok with_written written]. rewrite !Hframe. done.
Qed.

(** The bytes on the wire: whole frames of the packets sent, the first opening the
    session, and a part of one more. *)
Fixpoint frames (f : Framing) (started : bool) (packets : list bytes) : bytes :=
  match packets with
  | [] => []
  | p :: packets => frame_bytes f started p ++ frames f true packets
  end.

Lemma frame_started f started p : is_xudp f = false → frame_bytes f started p = frame_bytes f true p.
Proof. by destruct f. Qed.

Lemma frames_started f started ps : is_xudp f = false → frames f started ps = frames f true ps.
Proof. intros Hf. destruct ps; [done|]. cbn [frames]. by rewrite frame_started. Qed.

Lemma send_all_wire f calls s : poisoned s = false →
  ∃ cut, written (send_all f calls s).1 = written s ++ frames f (request_started s) (send_all f calls s).2 ++ cut ∧
    (cut = [] ∨ ∃ p k started, (p, Some k) ∈ calls ∧ cut = take k (frame_bytes f started p)) ∧
    Forall (λ p, send_guard f p = Ok tt) (send_all f calls s).2.
Proof.
  revert s. induction calls as [|[p cut] calls IH]; intros s Hs; cbn [send_all].
  { exists []. rewrite !app_nil_r. split; [done|]. split; [by left|constructor]. }
  destruct (send f p cut s) as [s1 r] eqn:E. unfold send in E.
  assert (∀ q k, (q, Some k) ∈ calls → (q, Some k) ∈ (p, cut) :: calls) as Hin by (intros; by right).
  destruct (send_guard f p) as [[]|e| |] eqn:Hg.
  2-4: injection E as <- <-; destruct (IH s Hs) as (c & Hw & Hc & Hf); destruct (send_all f calls s); exists c; split; [done|];
    split; [|done]; destruct Hc as [|(q & k & st & ? & ?)]; [by left|right; exists q, k, st; by auto].
  rewrite Hs in E. destruct cut as [k|]; injection E as <- <-.
  - set (s1 := {| written := _; poisoned := true; request_started := _ |}).
    destruct (send_poisoned f calls s1 eq_refl) as [E1 E2]. destruct (send_all f calls s1). cbn [fst snd is_ok] in *. subst.
    exists (take k (frame_bytes f (request_started s) p)). split; [done|]. split; [|constructor]. right. exists p, k, (request_started s).
    split; [left|done].
  - set (s1 := {| written := _; poisoned := false; request_started := _ |}).
    destruct (IH s1 eq_refl) as (c & Hw & Hc & Hf). destruct (send_all f calls s1) as [s2 ok]. cbn [fst snd is_ok] in *. exists c.
    split; [|split; [destruct Hc as [|(q & k & st & ? & ?)]; [by left|right; exists q, k, st; by auto]|by constructor]].
    rewrite Hw. cbn [written s1 frames]. rewrite <- !app_assoc. do 3 f_equal. cbn [request_started s1].
    destruct (is_xudp f) eqn:Ef; [by rewrite orb_true_r|]. by apply frames_started.
Qed.

(** C32. UDP framed over a stream never loses its framing, from the first send on. For
    any sequence of sends, each completed or interrupted after any number of bytes, the
    wire holds whole frames of exactly the packets whose [send] succeeded, in order, and
    at most a part of one interrupted frame behind them; an XUDP session opens with
    status 1 and continues with status 2. With an address of the forms the outbounds
    build, and however the transport cuts the bytes into chunks, a peer that opens the
    session reads exactly these packets, followed at most by one packet interrupted after
    its last byte; a frame cut short is never taken for a packet. [NativeChunks] has no
    frames of its own: packets are the chunks of the transport, and each that was sent
    fits the single read that takes it. *)
Theorem stream_never_desyncs f calls :
  let ok := (send_all f calls new_sender).2 in
  let wire := written (send_all f calls new_sender).1 in
  (∃ cut, wire = frames f false ok ++ cut ∧
     (cut = [] ∨ ∃ p k started, (p, Some k) ∈ calls ∧ cut = take k (frame_bytes f started p))) ∧
  (framing_ok f → ∃ s extra, open_session f wire = Some s ∧ last_interrupted calls extra ∧
     ∀ chunks fuel, concat chunks = s → (length ok + 1 < fuel)%nat → read_all fuel f chunks = ok ++ extra) ∧
  (∀ max, f = NativeChunks max → read_all (S (length ok)) f ok = ok ∧ frames f false ok = concat ok).
Proof.
  intros ok wire. destruct (send_all_wire f calls new_sender eq_refl) as (cut & Hw & Hc & Hg). split; [by exists cut|]. split.
  - intros Hf. destruct (open_new f calls) as [Ho Hok]. fold wire in Ho. fold ok in Hok.
    destruct (send_all_read f calls (continuing f) Hf) as (tail & extra & Ht & Hi & Hr); try done. cbn [written continuing app] in Ht.
    rewrite Ht in Ho. exists tail, extra. split; [done|]. split; [done|]. intros chunks fuel Hchunks Hfuel. rewrite read_all_chunks, Hchunks by done.
    rewrite Hr by (by rewrite <- Hok). by rewrite Hok.
  - intros max ->. split.
    + apply read_native_chunks; [|lia]. eapply Forall_impl; [exact Hg|]. intros p Hp. unfold send_guard in Hp.
      apply bind_ok in Hp as ([] & _ & Hp%ensure_ok%andb_true_iff). lia.
    + assert (∀ b ps, frames (NativeChunks max) b ps = concat ps) as H; [|apply H].
      intros b ps. revert b. induction ps as [|p ps IH]; intros b; [done|]. cbn [frames concat frame_bytes app]. by rewrite IH.
Qed.

(** Two whole XUDP frames and a cut one, from a fresh sender, cut inside the first. *)
Lemma stream_never_desyncs_witness :
  let f := Xudp (be16 53 ++ [1; 10; 0; 0; 1]) in
  let calls := [([7; 8], None); ([9], None); ([6], Some 9%nat); ([5], None)] in
  ∃ s extra, open_session f (written (send_all f calls new_sender).1) = Some s ∧ last_interrupted calls extra ∧
    read_all 5 f [take 3 s; drop 3 s] = [[7; 8]; [9]] ++ extra.
Proof.
  intros f calls. destruct (stream_never_desyncs f calls) as (_ & Hread & _).
  destruct Hread as (s & extra & Hs & Hi & Hr).
  - apply (ok_xudp (lit "10.0.0.1") 53 [1; 10; 0; 0; 1]). apply (dest_v4 2 3 (lit "10.0.0.1") 167772161). vm_compute. reflexivity.
  - exists s, extra. split; [exact Hs|]. split; [exact Hi|]. apply (Hr [take 3 s; drop 3 s]); [|vm_compute; lia].
    cbn [concat]. by rewrite app_nil_r, take_drop.
Defined.

(** Reading one packet from arbitrary bytes, in any framing, returns: the loop
    over XUDP headers ends and no index is out of range. A packet read has at most
    65535 bytes, or the negotiated chunk size with its authentication tag; and a
    transport that keeps chunk boundaries hands every packet over as it was. *)
Theorem stream_read_total f chunks : Forall is_bytes chunks →
  returns (read_packet f chunks) ∧
  (∀ p r, read_packet f chunks = Ok (p, r) →
     match f with NativeChunks max => 0 <= max → len p <= max + 16 | _ => len p <= 65535 end) ∧
  (∀ max packets, Forall (λ p, 0 < len p <= max + 16) packets →
     read_all (S (length packets)) (NativeChunks max) packets = packets).
Proof.
  intros Hb. assert (Hc : is_bytes (concat chunks)) by 
    by (induction Hb; [constructor|apply is_bytes_app; by split]).
  destruct (read_framed_total f _ Hc) as [Hr Hl]. split; [|split].
  - destruct f as [|a|a|m]; cbn [read_packet];
      try (apply returns_bind; [exact Hr|by intros []]).
    destruct (read_some (m + 16) chunks). rbind. done.
  - intros p r H. destruct f as [|a|a|m]; cbn [read_packet] in H;
      try (apply bind_ok in H as ([q t] & Hq & [= <- <-]); by eapply Hl).
    intros Hm. pose proof (read_some_bound (m + 16) chunks ltac:(lia)) as Hs.
    destruct (read_some (m + 16) chunks) as [q t]. inv_ok. done.
  - intros max packets Hp. apply read_native_chunks; [done|lia].
Qed.

Lemma stream_read_total_witness :
  returns (read_packet (Xudp []) [[0; 4; 0; 0]; [2; 0]; [0; 4; 0; 0; 2; 1; 0; 1; 9]]) ∧
  read_all 3 (NativeChunks 100) [[1; 2]; [3]] = [[1; 2]; [3]].
Proof.
  destruct (stream_read_total (Xudp []) [[0; 4; 0; 0]; [2; 0]; [0; 4; 0; 0; 2; 1; 0; 1; 9]]) as (Hr & _ & Hn);
    [repeat constructor; unfold u8; lia|].
  split; [exact Hr|]. apply (Hn 100 [[1; 2]; [3]]). repeat constructor; vm_compute; congruence.
Defined.
