(* ===== verification/SocksUdp.v ===== *)
(** * A SOCKS5 UDP association (proxy/socks_udp.rs)

    [serve]: the guards on the request, the reply, and the loop that owns the
    association.  One iteration of the loop is a function of the event [select!]
    picked; [step] strings them together.  A flow's task is the source of
    replies; whether the global budget has a permit, the upstream connects and a
    send succeeds are parts of the event. *)
From S2P Require Import Prelude Bytes Text Net NetText Headers.

Definition endpoint : Type := IpAddr * Z.

Record Flow := {
  activity : Z;
  finished : bool;
  (** What the flow's task captured: the header it echoes and whom it answers. *)
  header : bytes;
  source : endpoint;
}.

Record Association := {
  client : option endpoint;
  flows : gmap (bytes * Z) Flow;
}.

Definition is_unspecified (ip : IpAddr) : bool :=
  match ip with V4 a => a =? 0 | V6 a => a =? 0 end.

(** The guards of [serve], and the client it starts with. *)
Definition serve_start (peer : IpAddr) (requested_host : bytes) (requested_port : Z)
    : outcome Association :=
  requested ← ok_or (parse_ip requested_host) "UDP client must use an IP address";
  _ ← ensure (is_unspecified requested || bool_decide (requested = peer))
        "UDP client address differs from TCP peer";
  Ok {| client := if requested_port =? 0 then None else Some (peer, requested_port); flows := ∅ |}.

Definition associate_reply (address : endpoint) : bytes :=
  [5; 0; 0] ++ (if is_ipv4 address.1 then [1] else [4]) ++ octets address.1 ++ be16 address.2.

Definition MAX_FLOWS : nat := 16.

(** [flows.retain(|_, flow| !flow.task.is_finished())]. *)
Definition retain_live (fs : gmap (bytes * Z) Flow) : gmap (bytes * Z) Flow :=
  filter (λ kv, finished kv.2 = false) fs.

(** [flows.iter().min_by_key(activity)]: the first of the least active entries. *)
Definition less_active (best : option ((bytes * Z) * Flow)) (kv : (bytes * Z) * Flow)
    : option ((bytes * Z) * Flow) :=
  match best with
  | Some b => if activity kv.2 <? activity b.2 then Some kv else Some b
  | None => Some kv
  end.

Definition min_by_activity (l : list ((bytes * Z) * Flow)) : option ((bytes * Z) * Flow) :=
  foldl less_active None l.

Definition evict_oldest (fs : gmap (bytes * Z) Flow) : gmap (bytes * Z) Flow :=
  if bool_decide (MAX_FLOWS <= size fs)%nat then
    match min_by_activity (map_to_list fs) with
    | Some (key, _) => delete key fs
    | None => fs
    end
  else fs.

(** What an iteration does to the outside. *)
Inductive action :=
  | Connect (host : bytes) (port : Z)
  | SendUpstream (host : bytes) (port : Z) (payload : bytes)
  | Reply (to : endpoint) (datagram : bytes).

Record outcomes := { permit : bool; connected : bool; sent : bool }.

(** The end of an iteration: hand the payload to the flow, when there is one. *)
Definition forward (now : Z) (o : outcomes) (key : bytes * Z) (payload : bytes)
    (fs : gmap (bytes * Z) Flow) : gmap (bytes * Z) Flow * list action :=
  match fs !! key with
  | Some flow =>
      (if sent o
       then <[key := {| activity := now; finished := finished flow; header := header flow;
                        source := source flow |}]> fs
       else delete key fs,
       [SendUpstream key.1 key.2 payload])
  | None => (fs, [])
  end.

(** A datagram arrives at the association's socket. *)
Definition on_packet (peer : IpAddr) (now : Z) (o : outcomes) (from : endpoint) (packet : bytes)
    (a : Association) : Association * list action :=
  if negb (bool_decide (from.1 = peer))
     || match client a with Some c => negb (bool_decide (c = from)) | None => false end
  then (a, [])
  else
    match decode packet with
    | Ok (host, port, offset) =>
        let key := (host, port) in
        let payload := range packet offset (len packet) in
        let fs := retain_live (flows a) in
        let done (r : gmap (bytes * Z) Flow * list action) (before : list action) :=
          ({| client := Some from; flows := r.1 |}, before ++ r.2) in
        match fs !! key with
        | Some _ => done (forward now o key payload fs) []
        | None =>
            let fs := evict_oldest fs in
            if negb (permit o) then done (fs, []) []
            else if negb (connected o) then done (fs, []) [Connect host port]
            else
              let flow := {| activity := now; finished := false;
                             header := range packet 0 offset; source := from |} in
              done (forward now o key payload (<[key := flow]> fs)) [Connect host port]
        end
    | _ => (a, [])
    end.

(** The flow's task forwards one packet from upstream. *)
Definition MAX_UDP_PAYLOAD : Z := 65507.

Definition on_upstream (flow : Flow) (body : bytes) : list action :=
  if MAX_UDP_PAYLOAD <? len body + len (header flow) then []
  else [Reply (source flow) (header flow ++ body)].

Inductive event :=
  | Packet (now : Z) (o : outcomes) (from : endpoint) (packet : bytes)
  | Cleanup
  | Upstream (key : bytes * Z) (now : Z) (body : bytes)
  | TaskEnds (key : bytes * Z).

Definition touch (flow : Flow) (now : Z) (stop : bool) : Flow :=
  {| activity := if stop then activity flow else now; finished := stop || finished flow;
     header := header flow; source := source flow |}.

Definition step (peer : IpAddr) (e : event) (a : Association) : Association * list action :=
  match e with
  | Packet now o from packet => on_packet peer now o from packet a
  | Cleanup => ({| client := client a; flows := retain_live (flows a) |}, [])
  | Upstream key now body =>
      match flows a !! key with
      | Some flow =>
          if finished flow then (a, [])
          else ({| client := client a;
                   flows := match on_upstream flow body with
                            | [] => flows a
                            | _ => <[key := touch flow now false]> (flows a)
                            end |},
                on_upstream flow body)
      | None => (a, [])
      end
  | TaskEnds key =>
      match flows a !! key with
      | Some flow => ({| client := client a; flows := <[key := touch flow 0 true]> (flows a) |}, [])
      | None => (a, [])
      end
  end.

(** The actions of a whole association. *)
Fixpoint run (peer : IpAddr) (events : list event) (a : Association) : Association * list action :=
  match events with
  | [] => (a, [])
  | e :: rest =>
      let '(a, acts) := step peer e a in
      let '(a, more) := run peer rest a in
      (a, acts ++ more)
  end.
