(* ===== verification/SocksUdpSpec.v ===== *)
(** * A SOCKS5 UDP association serves one client, within its limits *)
From S2P Require Import Prelude Bytes Text Net NetText Headers HeadersSpec SocksUdp.

(** ** Eviction *)
Lemma min_by_activity_elem l : match min_by_activity l with Some kv => kv ∈ l | None => l = [] end.
Proof.
  unfold min_by_activity.
  assert (G : ∀ acc, match foldl less_active acc l with
              | Some kv => acc = Some kv ∨ kv ∈ l
              | None => acc = None ∧ l = [] end).
  { induction l as [|kv l IH]; intros acc; simpl; [by destruct acc; auto|].
    specialize (IH (less_active acc kv)). destruct (foldl _ _ l) as [r|].
    - rewrite elem_of_cons. destruct IH as [IH|]; [|by right; right].
      destruct acc as [b|]; simpl in IH; [destruct (_ <? _)|]; injection IH as ->; auto.
    - destruct IH as [IH _]. destruct acc as [b|]; simpl in IH; [destruct (_ <? _)|]; done. }
  specialize (G None). destruct (foldl _ _ l); by destruct G.
Qed.

Lemma evict_oldest_size fs : (size fs <= MAX_FLOWS)%nat → (size (evict_oldest fs) < MAX_FLOWS)%nat.
Proof.
  unfold evict_oldest, MAX_FLOWS. intros Hs. case_bool_decide as Hb; [|lia].
  pose proof (min_by_activity_elem (map_to_list fs)) as He.
  destruct (min_by_activity _) as [[key f]|].
  - apply elem_of_map_to_list in He. rewrite map_size_delete_Some by (by rewrite He). lia.
  - apply map_to_list_empty_iff in He. subst fs. rewrite map_size_empty. lia.
Qed.

Lemma evict_oldest_subseteq fs : evict_oldest fs ⊆ fs.
Proof.
  unfold evict_oldest. case_bool_decide; [|done].
  destruct (min_by_activity _) as [[key f]|]; [apply delete_subseteq|done].
Qed.

Lemma retain_live_subseteq fs : retain_live fs ⊆ fs.
Proof. apply map_filter_subseteq. Qed.

(** ** The invariant *)
Definition flow_ok (c : endpoint) (key : bytes * Z) (f : Flow) : Prop :=
  source f = c ∧ ∀ body, decode (header f ++ body) = Ok (key.1, key.2, len (header f)).

Record association_ok (peer : IpAddr) (a : Association) : Prop := {
  as_size : (size (flows a) <= MAX_FLOWS)%nat;
  as_client : match client a with
              | Some c => c.1 = peer ∧ map_Forall (flow_ok c) (flows a)
              | None => flows a = ∅
              end;
}.

(** What an event may make the association do, for the client [c]. *)
Definition action_ok (e : event) (c : endpoint) (act : action) : Prop :=
  match act with
  | Connect host port =>
      ∃ now o packet off, e = Packet now o c packet ∧ decode packet = Ok (host, port, off)
  | SendUpstream host port payload =>
      ∃ now o packet off, e = Packet now o c packet ∧ decode packet = Ok (host, port, off) ∧
        payload = range packet off (len packet)
  | Reply to datagram =>
      to = c ∧ len datagram <= MAX_UDP_PAYLOAD ∧
      ∃ key now body off, e = Upstream key now body ∧
        decode datagram = Ok (key.1, key.2, off) ∧ range datagram off (len datagram) = body
  end.

Definition event_ok (e : event) : Prop :=
  match e with Packet _ _ _ packet => is_bytes packet | _ => True end.

Lemma flows_subseteq_ok (c : endpoint) (fs fs' : gmap (bytes * Z) Flow) : fs ⊆ fs' →
  map_Forall (flow_ok c) fs' → map_Forall (flow_ok c) fs ∧ (size fs <= size fs')%nat.
Proof. intros Hs Hf. split; [|by apply map_subseteq_size].
  intros k f Hk. by eapply Hf, lookup_weaken. Qed.

Lemma flow_touch_ok (c : endpoint) key f f' : flow_ok c key f → source f' = source f → header f' = header f → flow_ok c key f'.
Proof. intros [Hs Hd] E1 E2. split; [congruence|by rewrite E2]. Qed.

(** Replacing a flow that is there keeps the table's bounds. *)
Lemma flows_update_ok (c : endpoint) (fs : gmap (bytes * Z) Flow) key f f' : fs !! key = Some f →
  map_Forall (flow_ok c) fs → source f' = source f → header f' = header f →
  map_Forall (flow_ok c) (<[key := f']> fs) ∧ size (<[key := f']> fs) = size fs.
Proof.
  intros Hk Hf E1 E2. split.
  - apply map_Forall_insert_2; [|done]. by eapply flow_touch_ok; [eapply Hf|..].
  - by rewrite map_size_insert_Some by (by rewrite Hk).
Qed.

Lemma forward_ok now o (c : endpoint) key payload fs :
  map_Forall (flow_ok c) fs →
  let '(fs', acts) := forward now o key payload fs in
  map_Forall (flow_ok c) fs' ∧ (size fs' <= size fs)%nat ∧
  ∀ act, act ∈ acts → act = SendUpstream key.1 key.2 payload.
Proof.
  intros Hf. unfold forward. destruct (fs !! key) as [f|] eqn:Hk.
  2: { split; [done|]. split; [done|]. intros act Ha. by apply not_elem_of_nil in Ha. }
  assert (Ha : ∀ act, act ∈ [SendUpstream key.1 key.2 payload] → act = SendUpstream key.1 key.2 payload)
    by (intros act; by rewrite list_elem_of_singleton).
  destruct (sent o).
  - destruct (flows_update_ok c fs key f {| activity := now; finished := finished f;
                header := header f; source := source f |} Hk Hf) as [H1 H2]; [done..|].
    split; [done|]. split; [|done]. by rewrite H2.
  - split; [by apply map_Forall_delete|]. split; [|done]. apply map_subseteq_size, delete_subseteq.
Qed.

(** ** One event *)
Lemma on_packet_client peer now o from packet a c : client a = Some c →
  client (on_packet peer now o from packet a).1 = Some c.
Proof.
  intros Hc. unfold on_packet. rewrite Hc. destruct (_ || _) eqn:E; [done|].
  apply orb_false_iff in E as [_ E]. apply negb_false_iff, bool_decide_eq_true in E as <-.
  destruct (decode packet) as [[[host port] off]| | |]; try done.
  destruct (retain_live (flows a) !! (host, port)); [done|].
  by destruct (permit o), (connected o).
Qed.

(** The flow a packet opens answers with a header that names its destination. *)
Lemma new_flow_ok c now host port off packet : is_bytes packet → decode packet = Ok (host, port, off) →
  flow_ok c (host, port) {| activity := now; finished := false; header := range packet 0 off; source := c |}.
Proof.
  intros Hb Hd. split; [done|]. intros body. cbn [SocksUdp.header fst snd].
  pose proof (decode_prefix [] packet [] host port off Hb Hd) as (Hoff & H7 & _). simpl in Hoff.
  assert (E : packet = range packet 0 off ++ range packet off (len packet))
    by (rewrite range_split by lia; symmetry; by apply range_all).
  assert (Hl : len (range packet 0 off) = off) by (rewrite len_range; lia).
  rewrite Hl. rewrite E in Hb, Hd. by eapply decode_prefix; [exact Hb|exact Hd|].
Qed.

Lemma on_packet_ok peer now o from packet a : association_ok peer a → is_bytes packet →
  let '(a', acts) := on_packet peer now o from packet a in
  association_ok peer a' ∧
  ∀ act, act ∈ acts → ∃ c, client a' = Some c ∧ action_ok (Packet now o from packet) c act.
Proof.
  intros Ha Hb. unfold on_packet.
  assert (Hnil : ∀ a', association_ok peer a' → association_ok peer a' ∧
    ∀ act, act ∈ [] → ∃ c, client a' = Some c ∧ action_ok (Packet now o from packet) c act)
    by (intros a' ?; split; [done|]; intros act Hact; by apply not_elem_of_nil in Hact).
  destruct (_ || _) eqn:E; [by apply Hnil|]. apply orb_false_iff in E as [Hpeer Hpin].
  apply negb_false_iff, bool_decide_eq_true in Hpeer.
  destruct (decode packet) as [[[host port] off]|e| |] eqn:Hd; try by apply Hnil.
  assert (Hfs : map_Forall (flow_ok from) (flows a) ∧ (size (flows a) <= MAX_FLOWS)%nat).
  { destruct Ha as [Hs Hc]. split; [|done]. destruct (client a) as [c|].
    - apply negb_false_iff, bool_decide_eq_true in Hpin as <-. apply Hc.
    - rewrite Hc. apply map_Forall_empty. }
  destruct Hfs as [Hfs Hsize].
  destruct (flows_subseteq_ok from _ _ (retain_live_subseteq (flows a)) Hfs) as [Hlive Hlen].
  assert (Hok : ∀ fs, map_Forall (flow_ok from) fs → (size fs <= MAX_FLOWS)%nat →
    association_ok peer {| client := Some from; flows := fs |}) by (intros; by constructor).
  assert (Hconn : action_ok (Packet now o from packet) from (Connect host port))
    by (exists now, o, packet, off; done).
  assert (Hsend : action_ok (Packet now o from packet) from
                    (SendUpstream host port (range packet off (len packet))))
    by (exists now, o, packet, off; done).
  destruct (retain_live (flows a) !! (host, port)) as [f|] eqn:Hk.
  { pose proof (forward_ok now o from (host, port) (range packet off (len packet)) _ Hlive) as Hfw.
    destruct (forward _ _ _ _ _) as [fs' acts]. destruct Hfw as (H1 & H2 & H3). cbn [fst snd app].
    split; [apply Hok; [done|lia]|]. intros act Hact%H3. subst act. by exists from. }
  destruct (flows_subseteq_ok from _ _ (evict_oldest_subseteq (retain_live (flows a))) Hlive) as [Hev _].
  pose proof (evict_oldest_size (retain_live (flows a)) ltac:(lia)) as Hroom.
  destruct (permit o); cbn [negb].
  2: { cbn [fst snd app]. apply Hnil, Hok; [done|lia]. }
  destruct (connected o); cbn [negb].
  2: { cbn [fst snd app]. split; [apply Hok; [done|lia]|].
       intros act Hact%list_elem_of_singleton. subst act. by exists from. }
  set (flow := {| activity := now; finished := false; header := _; source := from |}).
  set (fs := <[(host, port) := flow]> (evict_oldest (retain_live (flows a)))).
  assert (Hnew : map_Forall (flow_ok from) fs)
    by (apply map_Forall_insert_2; [by apply new_flow_ok|done]).
  assert (Hfull : (size fs <= MAX_FLOWS)%nat).
  { unfold fs. rewrite map_size_insert_None; [lia|].
    eapply lookup_weaken_None; [exact Hk|apply evict_oldest_subseteq]. }
  pose proof (forward_ok now o from (host, port) (range packet off (len packet)) fs Hnew) as Hfw.
  destruct (forward _ _ _ _ _) as [fs' acts]. destruct Hfw as (H1 & H2 & H3). cbn [fst snd app].
  split; [apply Hok; [done|lia]|]. intros act [->|Hact%H3]%elem_of_cons; [|subst act]; by exists from.
Qed.

Lemma on_upstream_ok c key flow now body act : flow_ok c key flow → act ∈ on_upstream flow body →
  action_ok (Upstream key now body) c act.
Proof.
  intros [Hs Hd] Hact. unfold on_upstream in Hact. destruct (Z.ltb_spec MAX_UDP_PAYLOAD (len body + len (header flow))).
  { by apply not_elem_of_nil in Hact. }
  apply list_elem_of_singleton in Hact as ->. split; [done|]. split; [lenlia|].
  exists key, now, body, (len (header flow)). split; [done|]. split; [apply Hd|].
  rewrite <- (app_nil_r body) at 1. apply range_app; lenlia.
Qed.

Lemma step_client peer e a c : client a = Some c → client (step peer e a).1 = Some c.
Proof.
  intros Hc. destruct e as [now o from packet| |key now body|key]; cbn [step].
  - by apply on_packet_client.
  - done.
  - destruct (flows a !! key) as [f|]; [|done]. by destruct (finished f).
  - by destruct (flows a !! key).
Qed.

Lemma association_step_ok peer e a : association_ok peer a → event_ok e →
  association_ok peer (step peer e a).1 ∧
  ∀ act, act ∈ (step peer e a).2 → ∃ c, client (step peer e a).1 = Some c ∧ action_ok e c act.
Proof.
  intros Ha He. destruct e as [now o from packet| |key now body|key]; cbn [step].
  - pose proof (on_packet_ok peer now o from packet a Ha He) as Hp.
    by destruct (on_packet _ _ _ _ _ _).
  - split; [|by intros act Hact%not_elem_of_nil]. destruct Ha as [Hs Hc]. constructor; cbn [fst flows client].
    + etrans; [|exact Hs]. apply map_subseteq_size, retain_live_subseteq.
    + destruct (client a) as [c|].
      * split; [apply Hc|]. by eapply flows_subseteq_ok; [apply retain_live_subseteq|apply Hc].
      * rewrite Hc. apply map_filter_empty.
  - destruct (flows a !! key) as [f|] eqn:Hk; [|split; [done|by intros act Hact%not_elem_of_nil]].
    destruct (finished f); [split; [done|by intros act Hact%not_elem_of_nil]|].
    destruct Ha as [Hs Hc]. destruct (client a) as [c|] eqn:Ec; [|by rewrite Hc in Hk].
    destruct Hc as [Hpeer Hf].
    destruct (flows_update_ok c (flows a) key f (touch f now false) Hk Hf) as [H1 H2]; [done..|]. split.
    + destruct (on_upstream f body); constructor; cbn [fst flows client]; rewrite ?Ec, ?H2; try done.
    + intros act Hact. exists c. split; [done|]. eapply on_upstream_ok; [by eapply Hf|exact Hact].
  - destruct (flows a !! key) as [f|] eqn:Hk; [|split; [done|by intros act Hact%not_elem_of_nil]].
    split; [|by intros act Hact%not_elem_of_nil]. destruct Ha as [Hs Hc].
    destruct (client a) as [c|] eqn:Ec; [|by rewrite Hc in Hk]. destruct Hc as [Hpeer Hf].
    destruct (flows_update_ok c (flows a) key f (touch f 0 true) Hk Hf) as [H1 H2]; [done..|].
    constructor; cbn [fst flows client]; rewrite ?Ec, ?H2; done.
Qed.

(** ** A whole association *)
Lemma run_client peer events a c : client a = Some c → client (run peer events a).1 = Some c.
Proof.
  revert a. induction events as [|e events IH]; intros a Hc; [done|]. cbn [run].
  pose proof (step_client peer e a c Hc) as H1. destruct (step peer e a) as [a1 acts].
  specialize (IH a1 H1). by destruct (run peer events a1).
Qed.

Lemma run_ok peer events a : association_ok peer a → Forall event_ok events →
  association_ok peer (run peer events a).1 ∧
  ∀ act, act ∈ (run peer events a).2 →
    ∃ c e, client (run peer events a).1 = Some c ∧ e ∈ events ∧ action_ok e c act.
Proof.
  intros Ha Hev. revert a Ha. induction Hev as [|e events He _ IH]; intros a Ha.
  { split; [done|by intros act Hact%not_elem_of_nil]. }
  cbn [run]. destruct (association_step_ok peer e a Ha He) as [H1 H2].
  destruct (step peer e a) as [a1 acts]. cbn [fst snd] in *. destruct (IH a1 H1) as [H3 H4].
  pose proof (run_client peer events a1) as Hkeep.
  destruct (run peer events a1) as [a2 more]. cbn [fst snd] in *. split; [done|].
  intros act [(c & Hc & Hact)%H2|(c & e' & Hc & Hin & Hact)%H4]%elem_of_app.
  - exists c, e. split; [by apply Hkeep|]. split; [left|done].
  - exists c, e'. split; [done|]. split; [by right|done].
Qed.

Lemma serve_start_ok peer host port a : serve_start peer host port = Ok a → association_ok peer a.
Proof.
  unfold serve_start. intros H. inv_ok. constructor; cbn [flows client].
  - rewrite map_size_empty. unfold MAX_FLOWS. lia.
  - destruct (port =? 0); [done|]. split; [done|apply map_Forall_empty].
Qed.

(** C33. A SOCKS5 UDP association serves one client and nobody else. Whatever
    datagrams, replies, failures and clean-ups follow one another, at most 16 flows
    are open; the client is pinned to one endpoint at the address of the TCP peer,
    the port it asked for if it named one; only its datagrams cause connections, and
    their payloads go unchanged to the destination each one names; and every reply
    goes to that client alone, within the size of a UDP datagram, headed by the
    destination it came from and ending in the upstream's bytes. *)
Theorem socks_udp_association peer host port a0 events :
  serve_start peer host port = Ok a0 → Forall event_ok events →
  let '(a, actions) := run peer events a0 in
  (size (flows a) <= 16)%nat ∧
  (port ≠ 0 → client a = Some (peer, port)) ∧
  (∀ c, client a = Some c → c.1 = peer) ∧
  ∀ act, act ∈ actions → ∃ c e, client a = Some c ∧ e ∈ events ∧ action_ok e c act.
Proof.
  intros Hs Hev. pose proof (serve_start_ok _ _ _ _ Hs) as H0.
  destruct (run_ok peer events a0 H0 Hev) as [Ha Hact].
  assert (Hpin : port ≠ 0 → client (run peer events a0).1 = Some (peer, port)).
  { intros Hp. apply run_client. unfold serve_start in Hs. inv_ok. simpl.
    by rewrite (proj2 (Z.eqb_neq port 0)). }
  destruct (run peer events a0) as [a actions]. cbn [fst snd] in *.
  split; [apply Ha|]. split; [done|]. split; [|done].
  intros c Hc. destruct Ha as [_ Hcl]. rewrite Hc in Hcl. apply Hcl.
Qed.

Lemma socks_udp_association_witness :
  let peer := V4 (of_be [192; 168; 1; 2]) in
  let packet := [0; 0; 0; 1; 10; 0; 0; 1; 0; 53; 9] in
  let ok := {| permit := true; connected := true; sent := true |} in
  let events := [Packet 1 ok (V4 7, 5000) packet; Packet 2 ok (peer, 5000) packet;
                 Upstream (lit "10.0.0.1", 53) 3 [8]] in
  let a0 := {| client := Some (peer, 5000); flows := ∅ |} in
  (run peer events a0).2 =
    [Connect (lit "10.0.0.1") 53; SendUpstream (lit "10.0.0.1") 53 [9];
     Reply (peer, 5000) [0; 0; 0; 1; 10; 0; 0; 1; 0; 53; 8]] ∧
  ∀ act, act ∈ (run peer events a0).2 →
    ∃ c e, client (run peer events a0).1 = Some c ∧ e ∈ events ∧ action_ok e c act.
Proof.
  intros peer packet ok events a0. split; [vm_compute; reflexivity|].
  pose proof (socks_udp_association peer (lit "0.0.0.0") 5000 a0 events) as H.
  destruct (run peer events a0) as [a actions]. apply H.
  - vm_compute. reflexivity.
  - repeat constructor; unfold u8; lia.
Defined.
