(* ===== verification/TlsSniff.v ===== *)
(** * The host name of a TLS connection (proxy/tls_sniff.rs)

    The parser of a ClientHello prefix, the detection over TLS records, the
    reading loop and the replay of what it consumed.  A stream is the list of the
    chunks its reads will return; the deadline is the number of reads that finish
    before it fires. *)
From S2P Require Import Prelude Bytes Text Net StreamDatagram.

Definition PREFIX_LIMIT : Z := 4096.

Inductive Detection := More | Other | Host (name : bytes).

Definition word (bytes : bytes) (at_ : Z) : option Z := of_be <$> get_range bytes at_ (at_ + 2).

(** ** ClientHello

    [hello_name] returns [None] ([Incomplete]), [Some(None)] ([Rejected]) or
    [Some(Some(name))] ([Found]); [Stuck] is a loop out of fuel. *)
Inductive verdict := Incomplete | Rejected | Found (name : bytes) | Stuck.

(** The operator [?]. *)
Definition or_more {A} (o : option A) (k : A → verdict) : verdict :=
  match o with Some a => k a | None => Incomplete end.

Notation "x ?← o ; k" := (or_more o (λ x, k)) (at level 20, o at level 100, k at level 200).

Definition valid_label (s : bytes) : bool :=
  (0 <? len s) && (len s <=? 63) && negb (bool_decide (head s = Some 45))
  && negb (bool_decide (last s = Some 45)) && forallb (λ c, is_ascii_alphanumeric c || (c =? 45)) s.

Definition valid_domain (value : bytes) : bool :=
  (0 <? len value) && (len value <=? 253) && forallb valid_label (split_on 46 value).

(** The name of a [host_name] entry, when it is a domain. *)
Definition accept_name (name : bytes) : option bytes :=
  if utf8_valid name then
    let name := to_ascii_lowercase (trim_end_byte 46 name) in
    if negb (valid_domain name) || bool_decide (is_Some (parse_ip name)) then None else Some name
  else None.

Fixpoint names_loop (fuel : nat) (names : bytes) (offset : Z) (host : option bytes) : verdict :=
  match fuel with
  | O => Stuck
  | S fuel =>
      if offset <? len names then
        name_kind ?← byte_at names offset;
        size ?← word names (offset + 1);
        name ?← get_range names (offset + 3) (offset + 3 + size);
        let offset := offset + 3 + size in
        if name_kind =? 0 then
          match host with
          | Some _ => Rejected
          | None => match accept_name name with
                    | Some name => names_loop fuel names offset (Some name)
                    | None => Rejected
                    end
          end
        else names_loop fuel names offset host
      else match host with Some name => Found name | None => Rejected end
  end.

Fixpoint extensions_loop (fuel : nat) (bytes : bytes) (at_ extensions_end : Z) : verdict :=
  match fuel with
  | O => Stuck
  | S fuel =>
      if at_ <? extensions_end then
        kind ?← word bytes at_;
        size ?← word bytes (at_ + 2);
        let at_ := at_ + 4 in
        if extensions_end <? at_ + size then Rejected
        else
          extension ?← get_range bytes at_ (at_ + size);
          if kind =? 0 then
            listed ?← word extension 0;
            if negb (listed + 2 =? size) then Rejected
            else names_loop (S (length extension)) extension 2 None
          else extensions_loop fuel bytes (at_ + size) extensions_end
      else Rejected
  end.

(** The hello once its declared end is known, on the bytes up to that end. *)
Definition hello_body (bytes : bytes) (stop : Z) : verdict :=
  session ?← byte_at bytes 38;
  let at_ := 38 + (1 + session) in
  cipher_length ?← word bytes at_;
  if (cipher_length =? 0) || negb (cipher_length mod 2 =? 0) then Rejected
  else
    let at_ := at_ + (2 + cipher_length) in
    compression ?← byte_at bytes at_;
    let at_ := at_ + (1 + compression) in
    extensions ?← word bytes at_;
    let extensions_end := at_ + 2 + extensions in
    if negb (extensions_end =? stop) then Rejected
    else extensions_loop (S (length bytes)) bytes (at_ + 2) extensions_end.

Definition u24 (a b c : Z) : Z := Z.lor (Z.lor (Z.shiftl a 16) (Z.shiftl b 8)) c.

(** [4 + (length[0] << 16 | length[1] << 8 | length[2])]. *)
Definition declared (length : bytes) : Z :=
  4 + match length with [a; b; c] => u24 a b c | _ => 0 end.

Definition hello_name (bytes : bytes) : verdict :=
  kind ?← byte_at bytes 0;
  if negb (kind =? 1) then Rejected
  else
    length ?← get_range bytes 1 4;
    let stop := declared length in
    hello_body (range bytes 0 (Z.min (len bytes) stop)) stop.

(** ** Records *)
Fixpoint detect_loop (fuel : nat) (prefix : bytes) (at_ : Z) (hello : bytes) : outcome Detection :=
  match fuel with
  | O => Diverge
  | S fuel =>
      if at_ <? len prefix then
        kind ← idx prefix at_;
        if negb (kind =? 22) then Ok Other
        else
          match get_range prefix at_ (at_ + 5) with
          | None => Ok More
          | Some header =>
              major ← idx header 1;
              minor ← idx header 2;
              if negb (major =? 3) || (4 <? minor) then Ok Other
              else
                match word header 3 with
                | None => Panic
                | Some size =>
                    if (size =? 0) || (18432 <? size) then Ok Other
                    else
                      let at_ := at_ + 5 in
                      let stop := at_ + size in
                      record ← sub prefix at_ (Z.min stop (len prefix));
                      let hello := hello ++ record in
                      match hello_name hello with
                      | Found name => Ok (Host name)
                      | Rejected => Ok Other
                      | Stuck => Diverge
                      | Incomplete =>
                          if (4 <=? len hello) && (declared (range hello 1 4) <=? len hello) then Ok Other
                          else if len prefix <? stop then Ok More
                          else detect_loop fuel prefix stop hello
                      end
                end
          end
      else Ok More
  end.

Definition detect (prefix : bytes) : outcome Detection := detect_loop (S (length prefix)) prefix 0 [].

(** ** Reading *)

(** The inspection: the name, the bytes consumed and the stream that is left. *)
Fixpoint read_loop (reads : nat) (s : list bytes) (prefix : bytes)
    : outcome (option bytes * bytes * list bytes) :=
  match reads with
  | O => Ok (None, prefix, s)
  | S reads =>
      if len prefix <? PREFIX_LIMIT then
        let capacity := Z.min 1024 (PREFIX_LIMIT - len prefix) in
        let '(chunk, s) := read_some capacity s in
        if len chunk =? 0 then Ok (None, prefix, s)
        else
          let prefix := prefix ++ chunk in
          detection ← detect prefix;
          match detection with
          | Host name => Ok (Some name, prefix, s)
          | Other => Ok (None, prefix, s)
          | More => read_loop reads s prefix
          end
      else Ok (None, prefix, s)
  end.

Definition read_name (reads : nat) (s : list bytes) : outcome (option bytes * bytes * list bytes) :=
  read_loop reads s [].

(** ** Replay *)
Record Replay := { stream : list bytes; prefix : bytes; position : Z }.

Definition Replay_new (stream : list bytes) (prefix : bytes) : Replay :=
  {| stream := stream; prefix := prefix; position := 0 |}.

(** [poll_read] into a buffer with [remaining] free bytes. *)
Definition poll_read (remaining : Z) (r : Replay) : outcome (bytes * Replay) :=
  if remaining =? 0 then Ok ([], r)
  else if (position r <? len (prefix r)) && (0 <? remaining) then
    let size := Z.min remaining (len (prefix r) - position r) in
    out ← sub (prefix r) (position r) (position r + size);
    let position := position r + size in
    Ok (out, if position =? len (prefix r)
             then {| stream := stream r; prefix := []; position := 0 |}
             else {| stream := stream r; prefix := prefix r; position := position |})
  else
    let '(out, s) := read_some remaining (stream r) in
    Ok (out, {| stream := s; prefix := prefix r; position := position r |}).

Fixpoint poll_reads (buffers : list Z) (r : Replay) : outcome (bytes * Replay) :=
  match buffers with
  | [] => Ok ([], r)
  | n :: rest =>
      '(out, r) ← poll_read n r;
      '(more, r) ← poll_reads rest r;
      Ok (out ++ more, r)
  end.
