(* ===== verification/TlsSniffSpec.v ===== *)
(** * The host name of a TLS connection: independent of segmentation, invisible to the relay *)
From S2P Require Import Prelude Bytes Text Net StreamDatagram TlsSniff.

(** ** More bytes never change a decision *)

(** [v'] decides as [v] did, if [v] did. *)
Definition extends (v v' : verdict) : Prop := v = Incomplete ∨ v = v'.

#[export] Instance extends_preorder : PreOrder extends.
Proof. split; unfold extends; [by right|]. intros x y z [] []; subst; auto. Qed.

Lemma extends_cases v v' : extends v v' → v = Incomplete ∨ v ≠ Incomplete ∧ v' = v.
Proof. unfold extends. destruct v; naive_solver. Qed.

Lemma extends_or_more {A} (o o' : option A) k k' :
  (∀ a, o = Some a → o' = Some a) → (∀ a, o = Some a → extends (k a) (k' a)) →
  extends (or_more o k) (or_more o' k').
Proof.
  intros Ho Hk. destruct o as [a|]; [|by left]. rewrite (Ho a eq_refl). by apply Hk.
Qed.

Lemma byte_at_more (b c : bytes) i x : byte_at b i = Some x → byte_at (b ++ c) i = Some x.
Proof. intros H. rewrite byte_at_app_l; [done|]. apply byte_at_bound in H. lia. Qed.

Lemma get_range_more (b c : bytes) i j x : get_range b i j = Some x → get_range (b ++ c) i j = Some x.
Proof.
  rewrite !get_range_some. intros [H ->]. apply in_range_spec in H. split.
  - apply in_range_spec. lenlia.
  - by rewrite range_app_l by lia.
Qed.

Lemma word_more (b c : bytes) i x : word b i = Some x → word (b ++ c) i = Some x.
Proof.
  unfold word. destruct (get_range b i (i + 2)) eqn:E; [|done]. by rewrite (get_range_more _ c _ _ _ E).
Qed.

(** ** The loops end *)
Lemma word_bound b i x : is_bytes b → word b i = Some x → u16 x ∧ i + 2 <= len b ∧ 0 <= i.
Proof.
  intros Hb. unfold word. destruct (get_range b i (i + 2)) as [r|] eqn:E; [|done]. intros [= <-].
  apply get_range_some in E as [H ->]. apply in_range_spec in H.
  pose proof (of_be_bound _ (is_bytes_range b i (i + 2) Hb)) as Hv. rewrite len_range in Hv by lia.
  replace (i + 2 - i) with 2 in Hv by lia. split; [exact Hv|lia].
Qed.

Lemma get_range_bytes (b : bytes) i j r : is_bytes b → get_range b i j = Some r →
  is_bytes r ∧ len r = j - i ∧ 0 <= i ∧ j <= len b.
Proof.
  intros Hb [H ->]%get_range_some. apply in_range_spec in H.
  split; [by apply is_bytes_range|]. rewrite len_range by lia. lia.
Qed.

(** What a verdict may be: [P] holds of a name that was found. *)
Definition settled (P : bytes → Prop) (v : verdict) : Prop :=
  match v with Stuck => False | Found name => P name | _ => True end.

Definition good_name (name : bytes) : Prop := valid_domain name = true ∧ parse_ip name = None.

Lemma settled_or_more {A} P (o : option A) k : (∀ a, o = Some a → settled P (k a)) → settled P (or_more o k).
Proof. intros Hk. destruct o; [by apply Hk|exact I]. Qed.

Lemma accept_name_good name n : accept_name name = Some n → good_name n.
Proof.
  unfold accept_name. destruct (utf8_valid name); [|done].
  destruct (_ || _) eqn:E; [done|]. intros [= <-].
  apply orb_false_iff in E as [E1%negb_false_iff E2%bool_decide_eq_false]. split; [done|].
  by apply eq_None_not_Some.
Qed.

Lemma names_loop_settled fuel names offset host : is_bytes names →
  (∀ n, host = Some n → good_name n) → Z.max 0 (len names - offset) < Z.of_nat fuel →
  settled good_name (names_loop fuel names offset host).
Proof.
  intros Hb. revert offset host. induction fuel as [|fuel IH]; intros offset host Hh Hf; [lia|].
  cbn [names_loop]. destruct (Z.ltb_spec offset (len names)).
  2: { destruct host; simpl; [by apply Hh|done]. }
  apply settled_or_more. intros kind _. apply settled_or_more. intros size (Hs & _)%word_bound; [|done].
  apply settled_or_more. intros name (_ & _ & _ & Hend)%get_range_bytes; [|done].
  unfold u16 in Hs. destruct (kind =? 0).
  - destruct host; [exact I|]. destruct (accept_name name) as [n|] eqn:E; [|exact I].
    apply IH; [|lia]. intros ? [= <-]. by eapply accept_name_good.
  - apply IH; [done|lia].
Qed.

Lemma extensions_loop_settled fuel b i stop : is_bytes b → 0 <= i →
  Z.max 0 (len b - i) < Z.of_nat fuel → settled good_name (extensions_loop fuel b i stop).
Proof.
  intros Hb. revert i. induction fuel as [|fuel IH]; intros i Hi Hf; [lia|].
  cbn [extensions_loop]. destruct (i <? stop); [|exact I].
  apply settled_or_more. intros kind _. apply settled_or_more. intros size (Hs & _)%word_bound; [|done].
  unfold u16 in Hs. destruct (_ <? _); [exact I|].
  apply settled_or_more. intros ext (He & _ & _ & Hend)%get_range_bytes; [|done].
  destruct (kind =? 0); [|apply IH; lia].
  apply settled_or_more. intros listed _. destruct (negb _); [exact I|].
  apply names_loop_settled; [done|done|]. unfold len in *. lia.
Qed.

Lemma hello_body_settled b stop : is_bytes b → settled good_name (hello_body b stop).
Proof.
  intros Hb. unfold hello_body.
  apply settled_or_more. intros session Hsess%is_bytes_at; [|done].
  apply settled_or_more. intros cipher (Hc & _)%word_bound; [|done].
  destruct (_ || _); [exact I|].
  apply settled_or_more. intros comp Hcomp%is_bytes_at; [|done].
  apply settled_or_more. intros ext _. destruct (negb _); [exact I|].
  apply extensions_loop_settled; unfold u8, u16 in *; [done|lia|]. unfold len in *. lia.
Qed.

Lemma hello_name_settled b : is_bytes b → settled good_name (hello_name b).
Proof.
  intros Hb. unfold hello_name. apply settled_or_more. intros kind _.
  destruct (negb _); [exact I|]. apply settled_or_more. intros l _.
  by apply hello_body_settled, is_bytes_range.
Qed.

(** ** A longer prefix of the hello *)
Lemma names_loop_fuel fuel fuel' names offset host : (fuel <= fuel')%nat →
  names_loop fuel names offset host ≠ Stuck →
  names_loop fuel' names offset host = names_loop fuel names offset host.
Proof.
  revert fuel' offset host. induction fuel as [|fuel IH]; intros [|fuel'] offset host Hf Hs; try done; [lia|].
  cbn [names_loop] in *. destruct (offset <? len names); [|done].
  destruct (byte_at names offset); [|done]. destruct (word names (offset + 1)); [|done].
  cbn [or_more] in *. destruct (get_range _ _ _); [|done]. cbn [or_more] in *.
  destruct (_ =? 0); [|by apply IH; [lia|]]. destruct host; [done|].
  destruct (accept_name _); [|done]. by apply IH; [lia|].
Qed.

Lemma extensions_loop_more fuel fuel' b c i stop : (fuel <= fuel')%nat →
  extensions_loop fuel b i stop ≠ Stuck →
  extends (extensions_loop fuel b i stop) (extensions_loop fuel' (b ++ c) i stop).
Proof.
  revert fuel' i. induction fuel as [|fuel IH]; intros [|fuel'] i Hf Hs; try done; [lia|].
  cbn [extensions_loop] in *. destruct (i <? stop); [|by right].
  destruct (word b i) as [kind|] eqn:E1; [|by left]. rewrite (word_more _ c _ _ E1).
  destruct (word b (i + 2)) as [size|] eqn:E2; [|by left]. rewrite (word_more _ c _ _ E2).
  cbn [or_more] in *. destruct (_ <? _); [by right|].
  destruct (get_range b (i + 4) (i + 4 + size)) as [ext|] eqn:E3; [|by left].
  rewrite (get_range_more _ c _ _ _ E3). cbn [or_more] in *.
  destruct (kind =? 0); [by right|]. apply IH; [lia|done].
Qed.

Lemma hello_body_more b c stop : is_bytes b → extends (hello_body b stop) (hello_body (b ++ c) stop).
Proof.
  intros Hb. unfold hello_body.
  apply extends_or_more; [intros; by apply byte_at_more|]. intros session Hsess%is_bytes_at; [|done].
  apply extends_or_more; [intros; by apply word_more|]. intros cipher (Hc & _)%word_bound; [|done].
  destruct (_ || _); [by right|].
  apply extends_or_more; [intros; by apply byte_at_more|]. intros comp Hcomp%is_bytes_at; [|done].
  apply extends_or_more; [intros; by apply word_more|]. intros ext _. destruct (negb _); [by right|].
  unfold u8, u16 in *. apply extensions_loop_more; [rewrite length_app; lia|].
  pose proof (extensions_loop_settled (S (length b)) b
    (38 + (1 + session) + (2 + cipher) + (1 + comp) + 2)
    (38 + (1 + session) + (2 + cipher) + (1 + comp) + 2 + ext) Hb ltac:(lia)) as Hset.
  intros E. rewrite E in Hset. apply Hset. unfold len. lia.
Qed.

Lemma declared_bound l : is_bytes l → 4 <= declared l.
Proof.
  unfold is_bytes. intros Hb. unfold declared. destruct l as [|a [|b [|c [|]]]]; try lia.
  rewrite !Forall_cons in Hb. destruct Hb as (Ha & Hb & Hc & _). unfold u8, u24 in *.
  assert (0 <= Z.lor (Z.lor (Z.shiftl a 16) (Z.shiftl b 8)) c); [|lia].
  rewrite !Z.lor_nonneg, !Z.shiftl_nonneg. lia.
Qed.

Lemma range_min_more (b c : bytes) stop : 0 <= stop →
  ∃ x, range (b ++ c) 0 (Z.min (len (b ++ c)) stop) = range b 0 (Z.min (len b) stop) ++ x.
Proof.
  intros Hs. pose proof (len_nonneg b). pose proof (len_nonneg c).
  exists (range (b ++ c) (Z.min (len b) stop) (Z.min (len (b ++ c)) stop)).
  rewrite <- (range_app_l b c 0) by lia. rewrite range_split by lenlia. done.
Qed.

Lemma hello_name_more b c : is_bytes (b ++ c) → extends (hello_name b) (hello_name (b ++ c)).
Proof.
  intros Hbc. apply is_bytes_app in Hbc as [Hb Hc]. unfold hello_name.
  apply extends_or_more; [intros; by apply byte_at_more|]. intros kind _.
  destruct (negb _); [by right|].
  apply extends_or_more; [intros; by apply get_range_more|]. intros l (Hl & _)%get_range_bytes; [|done].
  pose proof (declared_bound l Hl). destruct (range_min_more b c (declared l)) as [x ->]; [lia|].
  by apply hello_body_more, is_bytes_range.
Qed.

(** Past the declared end, bytes do not matter at all. *)
Lemma hello_name_complete b c : 4 <= len b → declared (range b 1 4) <= len b → is_bytes b →
  hello_name (b ++ c) = hello_name b.
Proof.
  intros H4 Hd Hb. unfold hello_name. pose proof (len_nonneg c).
  rewrite byte_at_app_l by lia.
  assert (E : get_range b 1 4 = Some (range b 1 4)) by (apply get_range_some; split; [apply in_range_spec; lia|done]).
  rewrite (get_range_more _ c _ _ _ E), E. cbn [or_more].
  pose proof (declared_bound (range b 1 4) (is_bytes_range _ _ _ Hb)).
  rewrite len_app, !Z.min_r by lia. by rewrite range_app_l by lia.
Qed.

(** ** Records *)
Definition good_detection (o : outcome Detection) : Prop :=
  match o with Ok (Host name) => good_name name | Ok _ => True | _ => False end.

Lemma word_in b i : is_bytes b → 0 <= i → i + 2 <= len b → ∃ v, word b i = Some v ∧ u16 v.
Proof.
  intros Hb Hi Hl. destruct (word b i) as [v|] eqn:E.
  - exists v. split; [done|]. by apply word_bound in E as [? _].
  - unfold word, get_range in E. by rewrite (proj2 (in_range_spec b i (i + 2))) in E by lia.
Qed.

Lemma detect_loop_good fuel prefix i hello : is_bytes prefix → is_bytes hello → 0 <= i →
  Z.max 0 (len prefix - i) < Z.of_nat fuel → good_detection (detect_loop fuel prefix i hello).
Proof.
  intros Hb. revert i hello. induction fuel as [|fuel IH]; intros i hello Hh Hi Hf; [lia|].
  cbn [detect_loop]. destruct (Z.ltb_spec i (len prefix)); [|exact I].
  destruct (idx_in prefix i) as [kind ->]; [lia|]. orun. destruct (negb _); [exact I|].
  destruct (get_range prefix i (i + 5)) as [header|] eqn:Eh; [|exact I].
  apply get_range_bytes in Eh as (Hhb & Hlen & _ & Hend); [|done].
  destruct (idx_in header 1) as [major ->]; [lia|]. destruct (idx_in header 2) as [minor ->]; [lia|].
  orun. destruct (_ || _); [exact I|].
  destruct (word_in header 3 Hhb) as (size & -> & Hsize); [lia..|].
  unfold u16 in Hsize. destruct ((size =? 0) || _); [exact I|].
  rewrite sub_in by lia. orun.
  set (hello' := hello ++ range prefix (i + 5) (Z.min (i + 5 + size) (len prefix))).
  assert (Hh' : is_bytes hello') by (apply is_bytes_app; split; [done|by apply is_bytes_range]).
  pose proof (hello_name_settled hello' Hh') as Hs. destruct (hello_name hello'); try done.
  destruct (_ && _); [exact I|]. destruct (Z.ltb_spec (len prefix) (i + 5 + size)); [exact I|].
  apply IH; [done|lia|lia].
Qed.

(** The record read so far, on a longer prefix. *)
Lemma record_more (p q : bytes) a b : 0 <= a → a <= len p → a <= b →
  ∃ x, range (p ++ q) a (Z.min b (len (p ++ q))) = range p a (Z.min b (len p)) ++ x ∧
       (b <= len p → x = []).
Proof.
  intros Ha Hp Hb. pose proof (len_nonneg q).
  exists (range (p ++ q) (Z.min b (len p)) (Z.min b (len (p ++ q)))). split.
  - rewrite <- (range_app_l p q a) by lia. by rewrite range_split by lenlia.
  - intros Hbp. apply range_empty. lenlia.
Qed.

Lemma detect_loop_more fuel fuel' p q i hello d : is_bytes (p ++ q) → is_bytes hello → 0 <= i →
  (fuel <= fuel')%nat → d ≠ More → detect_loop fuel p i hello = Ok d →
  detect_loop fuel' (p ++ q) i hello = Ok d.
Proof.
  intros Hpq. apply is_bytes_app in Hpq as Hb. destruct Hb as [Hp Hq].
  revert fuel' i hello. induction fuel as [|fuel IH]; intros [|fuel'] i hello Hh Hi Hf Hd H; try done; [lia|].
  cbn [detect_loop] in *. destruct (Z.ltb_spec i (len p)); [|congruence].
  pose proof (len_nonneg q). rewrite (proj2 (Z.ltb_lt i (len (p ++ q)))) by lenlia.
  destruct (idx_in p i) as [kind Ek]; [lia|]. rewrite Ek in H.
  assert (Ek' : idx (p ++ q) i = Ok kind) by (apply idx_ok, byte_at_more, idx_ok, Ek).
  rewrite Ek'. orun. cbn [mbind outcome_bind] in H. destruct (negb _); [done|].
  destruct (get_range p i (i + 5)) as [header|] eqn:Eh; [|congruence].
  rewrite (get_range_more _ q _ _ _ Eh). apply get_range_bytes in Eh as (Hhb & Hlen & _ & Hend); [|done].
  destruct (idx_in header 1) as [major Em]; [lia|]. destruct (idx_in header 2) as [minor En]; [lia|].
  rewrite Em, En in *. orun. cbn [mbind outcome_bind] in H. destruct (_ || _); [done|].
  destruct (word_in header 3 Hhb) as (size & Es & Hsize); [lia..|]. rewrite Es in *.
  unfold u16 in Hsize. destruct ((size =? 0) || _); [done|].
  rewrite sub_in in H by lia. rewrite sub_in by lenlia. orun. cbn [mbind outcome_bind] in H.
  destruct (record_more p q (i + 5) (i + 5 + size)) as (x & Ex & Hx); [lia..|].
  set (hello' := hello ++ range p (i + 5) (Z.min (i + 5 + size) (len p))) in *.
  assert (Hh' : is_bytes hello') by (apply is_bytes_app; split; [done|by apply is_bytes_range]).
  assert (Hhx : is_bytes (hello' ++ x)).
  { unfold hello'. rewrite <- app_assoc, <- Ex. apply is_bytes_app. split; [done|by apply is_bytes_range]. }
  rewrite Ex, app_assoc. fold hello'. pose proof (hello_name_settled hello' Hh') as Hset.
  destruct (extends_cases _ _ (hello_name_more hello' x Hhx)) as [Einc|[Hne Esame]].
  - rewrite Einc in H. destruct (Z.leb_spec 4 (len hello')); cbn [andb] in H.
    2: { destruct (Z.ltb_spec (len p) (i + 5 + size)); [congruence|].
         rewrite Hx, app_nil_r, Einc by lia. rewrite (proj2 (Z.leb_gt 4 _)) by lia. cbn [andb].
         rewrite (proj2 (Z.ltb_ge (len (p ++ q)) _)) by lenlia. apply IH; [done|lia|lia|done|done]. }
    rewrite (range_app_l hello' x 1 4) by lia. pose proof (len_nonneg x).
    rewrite (proj2 (Z.leb_le 4 (len (hello' ++ x)))) by lenlia. cbn [andb].
    destruct (Z.leb_spec (declared (range hello' 1 4)) (len hello')).
    + rewrite hello_name_complete, Einc by done.
      by rewrite (proj2 (Z.leb_le (declared _) (len (hello' ++ x)))) by lenlia.
    + destruct (Z.ltb_spec (len p) (i + 5 + size)); [congruence|].
      rewrite Hx, app_nil_r, Einc by lia. rewrite (proj2 (Z.leb_gt (declared _) (len hello'))) by lia.
      rewrite (proj2 (Z.ltb_ge (len (p ++ q)) _)) by lenlia. apply IH; [done|lia|lia|done|done].
  - rewrite Esame. by destruct (hello_name hello').
Qed.

Lemma detect_good p : is_bytes p → good_detection (detect p).
Proof. intros Hb. apply detect_loop_good; [done|constructor|lia|]. unfold len. lia. Qed.

Lemma detect_more p q d : is_bytes (p ++ q) → d ≠ More → detect p = Ok d → detect (p ++ q) = Ok d.
Proof.
  intros Hb Hd H. unfold detect in *. eapply detect_loop_more; [done|constructor|lia| |done|exact H].
  rewrite length_app. lia.
Qed.

(** ** The reading loop *)
Lemma read_some_spec n s : 0 <= n → let '(c, s') := read_some n s in
  c ++ concat s' = concat s ∧ len c <= n ∧ (0 < n → c = [] → concat s = []).
Proof.
  intros Hn. induction s as [|c s IH]; [done|]. cbn [read_some].
  destruct (decide (c = [])) as [->|Hc].
  { rewrite bool_decide_true by done. by destruct (read_some n s). }
  rewrite bool_decide_false by done. destruct (Z.leb_spec (len c) n).
  - split; [done|]. split; [done|]. intros _ ->. done.
  - cbn [concat]. rewrite app_assoc, take_drop. split; [done|]. unfold len in *.
    rewrite length_take. split; [lia|]. intros Hp E. apply (f_equal length) in E.
    rewrite length_take in E. simpl in E. lia.
Qed.

(** The host name in the first [PREFIX_LIMIT] bytes of a stream. *)
Definition host_of (data : bytes) : option bytes :=
  match detect (range data 0 (Z.min (len data) PREFIX_LIMIT)) with
  | Ok (Host name) => Some name
  | _ => None
  end.

Lemma host_of_prefix p rest d : is_bytes (p ++ rest) → len p <= PREFIX_LIMIT → detect p = Ok d →
  (d = More → rest = [] ∨ len p = PREFIX_LIMIT) →
  host_of (p ++ rest) = match d with Host name => Some name | _ => None end.
Proof.
  intros Hb Hl Hd Hm. unfold host_of. pose proof (len_nonneg p). pose proof (len_nonneg rest).
  destruct (record_more p rest 0 PREFIX_LIMIT) as (x & Ex & Hx); [lia|lia|unfold PREFIX_LIMIT; lia|].
  rewrite Z.min_comm, Ex, (range_all p) by lia.
  assert (Hpx : is_bytes (p ++ x)).
  { rewrite <- (range_all p 0 (Z.min PREFIX_LIMIT (len p))), <- Ex by lia. by apply is_bytes_range. }
  destruct d as [| |name].
  - assert (x = []) as ->; [|by rewrite app_nil_r, Hd].
    destruct (Hm eq_refl) as [->|Hfull]; [|apply Hx; lia].
    rewrite app_nil_r, (range_all p) in Ex by lia. by rewrite <- (app_nil_r p) in Ex at 1; apply app_inv_head in Ex.
  - by rewrite (detect_more p x Other).
  - by rewrite (detect_more p x (Host name)).
Qed.

Lemma read_loop_spec reads s p : is_bytes (p ++ concat s) → len p <= PREFIX_LIMIT → detect p = Ok More →
  ∃ name p' s', read_loop reads s p = Ok (name, p', s') ∧
    p' ++ concat s' = p ++ concat s ∧ len p' <= PREFIX_LIMIT ∧
    (∀ n, name = Some n → good_name n ∧ host_of (p ++ concat s) = Some n) ∧
    (PREFIX_LIMIT - len p < Z.of_nat reads → name = host_of (p ++ concat s)).
Proof.
  revert s p. induction reads as [|reads IH]; intros s p Hb Hl Hd.
  { exists None, p, s. repeat split; try done. lia. }
  cbn [read_loop]. destruct (Z.ltb_spec (len p) PREFIX_LIMIT).
  2: { exists None, p, s. repeat split; try done. intros _.
       symmetry. apply (host_of_prefix p (concat s) More); try done. right. lia. }
  set (capacity := Z.min 1024 (PREFIX_LIMIT - len p)).
  pose proof (read_some_spec capacity s ltac:(lia)) as Hr.
  destruct (read_some capacity s) as [c s']. destruct Hr as (Hc & Hlc & He).
  destruct (Z.eqb_spec (len c) 0) as [E0|E0].
  { apply len_zero_nil in E0. exists None, p, s'. subst c. simpl in Hc.
    split; [done|]. split; [by rewrite Hc|]. split; [done|]. split; [done|]. intros _.
    symmetry. rewrite He by (done || lia). apply (host_of_prefix p [] More); try done.
    - by rewrite <- (He ltac:(lia) eq_refl).
    - by left. }
  rewrite <- Hc in Hb |- *. rewrite app_assoc in Hb |- *.
  assert (Hb' : is_bytes (p ++ c)) by (by apply is_bytes_app in Hb as [? _]).
  assert (Hl' : len (p ++ c) <= PREFIX_LIMIT) by lenlia.
  pose proof (detect_good (p ++ c) Hb') as Hg.
  destruct (detect (p ++ c)) as [[| |name]|e| |] eqn:Ed; try done; orun.
  - destruct (IH s' (p ++ c) Hb Hl' Ed) as (name & p' & s2 & E & H1 & H2 & H3 & H4).
    exists name, p', s2. split; [done|]. split; [done|]. split; [done|]. split; [done|].
    intros Hreads. apply H4. pose proof (len_nonneg c). lenlia.
  - exists None, (p ++ c), s'. repeat split; try done. intros _.
    symmetry. by apply (host_of_prefix _ _ Other).
  - assert (Hh : host_of ((p ++ c) ++ concat s') = Some name) by (by apply (host_of_prefix _ _ (Host name))).
    exists (Some name), (p ++ c), s'. split; [done|]. split; [done|]. split; [done|]. split; [|done].
    intros n [= <-]. by split.
Qed.

(** ** Replay *)
Definition unread (r : Replay) : bytes := drop (Z.to_nat (position r)) (prefix r) ++ concat (stream r).

Definition replay_ok (r : Replay) : Prop := 0 <= position r <= len (prefix r).

Lemma poll_read_spec n r : 0 <= n → replay_ok r →
  ∃ out r', poll_read n r = Ok (out, r') ∧ replay_ok r' ∧ out ++ unread r' = unread r ∧ len out <= n ∧
    (0 < n → unread r ≠ [] → out ≠ []).
Proof.
  unfold replay_ok, poll_read. intros Hn Hr. destruct (Z.eqb_spec n 0) as [->|Hn0].
  { exists [], r. repeat split; try done; lia. }
  destruct (Z.ltb_spec (position r) (len (prefix r))) as [Hlt|Hge]; cbn [andb].
  - rewrite (proj2 (Z.ltb_lt 0 n)) by lia. set (size := Z.min n (len (prefix r) - position r)).
    rewrite sub_in by lia. orun. set (out := range (prefix r) (position r) (position r + size)).
    assert (Hout : len out = size) by (unfold out; rewrite len_range; lia).
    assert (Happ : out ++ drop (Z.to_nat (position r + size)) (prefix r) = drop (Z.to_nat (position r)) (prefix r)).
    { unfold out, range. replace (Z.to_nat (position r + size - position r)) with (Z.to_nat size) by lia.
      rewrite Z2Nat.inj_add, <- drop_drop by lia. apply take_drop. }
    assert (Hne : out ≠ []) by (intros E; rewrite E in Hout; change (len []) with 0 in Hout; lia).
    eexists out, _. split; [reflexivity|].
    destruct (Z.eqb_spec (position r + size) (len (prefix r))) as [E|E]; cbn [position prefix stream].
    + split; [done|]. split; [|by split; [lia|]].
      unfold unread. cbn [position prefix stream]. rewrite <- Happ, <- app_assoc.
      by rewrite (drop_ge (prefix r)) by (unfold len in E; lia).
    + split; [lia|]. split; [|by split; [lia|]].
      unfold unread. cbn [position prefix stream]. by rewrite <- Happ, <- app_assoc.
  - pose proof (read_some_spec n (stream r) Hn) as Hs. destruct (read_some n (stream r)) as [out s].
    destruct Hs as (Hc & Hl & He). eexists out, _. split; [reflexivity|]. cbn [position prefix stream].
    assert (Hd : drop (Z.to_nat (position r)) (prefix r) = []) by (apply drop_ge; unfold len in *; lia).
    split; [done|]. unfold unread. cbn [position prefix stream]. rewrite Hd. cbn [app].
    split; [done|]. split; [done|]. intros Hp Hu Ho. by apply Hu, He.
Qed.

Lemma poll_reads_spec buffers r : Forall (λ n, 0 <= n) buffers → replay_ok r →
  ∃ out r', poll_reads buffers r = Ok (out, r') ∧ out ++ unread r' = unread r.
Proof.
  intros Hb. revert r. induction Hb as [|n buffers Hn _ IH]; intros r Hr.
  { by exists [], r. }
  destruct (poll_read_spec n r Hn Hr) as (out & r1 & E1 & Hr1 & H1 & _).
  destruct (IH r1 Hr1) as (more & r2 & E2 & H2). exists (out ++ more), r2.
  cbn [poll_reads]. rewrite E1. orun. rewrite E2. orun. split; [done|].
  by rewrite <- app_assoc, H2.
Qed.

(** ** Properties *)

(** C35. The sniffed host name depends on the bytes of the connection only, not on
    how the network cuts them: when the reads needed finish before the deadline, the
    result is the name found in the first 4096 bytes whatever the segmentation, and a
    deadline that fires earlier can only lose the name, never change it. A name is a
    lower-case domain and not an IP literal; inspection neither panics nor loops. *)
Theorem sniff_name_spec reads chunks : Forall is_bytes chunks →
  ∃ name consumed rest, read_name reads chunks = Ok (name, consumed, rest) ∧
    (∀ n, name = Some n → good_name n ∧ host_of (concat chunks) = Some n) ∧
    (PREFIX_LIMIT < Z.of_nat reads → name = host_of (concat chunks)).
Proof.
  intros Hb. assert (Hc : is_bytes (concat chunks))
    by (induction Hb; [constructor|apply is_bytes_app; by split]).
  destruct (read_loop_spec reads chunks [] Hc) as (name & p & s & E & _ & _ & Hn & Hr).
  - unfold PREFIX_LIMIT. change (len []) with 0. lia.
  - reflexivity.
  - exists name, p, s. split; [done|]. split; [done|]. intros Hreads. apply Hr.
    change (len []) with 0. lia.
Qed.

(** A ClientHello for a.b, cut in two records. *)
Definition client_hello : bytes :=
  let hello := [3; 3] ++ replicate 32 7 ++ [0] ++ [0; 2; 19; 1] ++ [1; 0]
               ++ [0; 12; 0; 0; 0; 8; 0; 6; 0; 0; 3; 97; 46; 66] in
  let message := [1; 0; 0; len hello] ++ hello in
  [22; 3; 1; 0; 20] ++ take 20 message ++ [22; 3; 1; 0; len message - 20] ++ drop 20 message.

Lemma sniff_name_spec_witness :
  ∃ name consumed rest,
    read_name (Z.to_nat 4097) [take 7 client_hello; drop 7 client_hello; [1; 2]] = Ok (name, consumed, rest) ∧
    (∀ n, name = Some n → good_name n) ∧ name = Some (lit "a.b").
Proof.
  destruct (sniff_name_spec (Z.to_nat 4097) [take 7 client_hello; drop 7 client_hello; [1; 2]])
    as (name & consumed & rest & E & Hn & Hr); [decided|].
  exists name, consumed, rest. split; [exact E|]. split; [intros n Hname; by apply Hn|].
  rewrite Hr by (unfold PREFIX_LIMIT; lia). vm_compute. reflexivity.
Defined.

(** Inspection is invisible to the relay: whatever the deadline, the replayed
    stream yields the bytes of the original one, in order, none lost, repeated or
    changed, for any sizes of the reader's buffers; and at most 4096 bytes are held. *)
Theorem sniff_replay_transparent reads chunks buffers :
  Forall is_bytes chunks → Forall (λ n, 0 <= n) buffers →
  ∃ name consumed rest, read_name reads chunks = Ok (name, consumed, rest) ∧
    len consumed <= PREFIX_LIMIT ∧
    ∃ out r, poll_reads buffers (Replay_new rest consumed) = Ok (out, r) ∧
      out ++ unread r = concat chunks.
Proof.
  intros Hb Hn. assert (Hc : is_bytes (concat chunks))
    by (induction Hb; [constructor|apply is_bytes_app; by split]).
  destruct (read_loop_spec reads chunks [] Hc) as (name & p & s & E & Hps & Hl & _).
  - unfold PREFIX_LIMIT. change (len []) with 0. lia.
  - reflexivity.
  - exists name, p, s. split; [done|]. split; [done|].
    destruct (poll_reads_spec buffers (Replay_new s p) Hn) as (out & r & Er & Hr).
    { unfold replay_ok. cbn [position prefix Replay_new]. pose proof (len_nonneg p). lia. }
    exists out, r. split; [done|]. by rewrite Hr.
Qed.

Lemma sniff_replay_transparent_witness :
  ∃ name consumed rest, read_name 5 [client_hello; [1; 2]] = Ok (name, consumed, rest) ∧
    len consumed <= PREFIX_LIMIT ∧
    ∃ out r, poll_reads [3; 0; 100; 7] (Replay_new rest consumed) = Ok (out, r) ∧
      out ++ unread r = concat [client_hello; [1; 2]].
Proof. apply sniff_replay_transparent; decided. Defined.
