(* ===== verification/Mtu.v ===== *)
(** * The MTU of the TUN device (proxy/tun/mtu.rs)

    Choosing the MTU at startup: the guards, the search over ICMP probes, the
    kernel's feedback, the cache of measured paths and the reading of [ip route].
    What the system answers is a parameter: [probe] may depend on all the probes
    sent before, so that losses and changing paths are covered.  Text is a list of
    Unicode scalar values. *)
From S2P Require Import Prelude Bytes Text Net NetText Sorting.

Definition FALLBACK_MTU : Z := 1400.
Definition MIN_MTU : Z := 1280.
Definition MAX_AUTO_MTU : Z := 1500.
Definition CACHE_VERSION : Z := 2.
Definition CACHE_ENTRIES : Z := 32.

Definition validate (mtu : Z) : outcome unit :=
  ensure ((MIN_MTU <=? mtu) && (mtu <=? 9000)) "TUN MTU must be between 1280 and 9000".

Inductive Probe := Fits | TooBig | Unknown.

#[export] Instance Probe_eq_dec : EqDecision Probe.
Proof. solve_decision. Defined.

Record Link := { interface_mtu : Z; mtu : Z; fingerprint : list Z }.

(** What [select] reads of a node. *)
Inductive ProxyProtocol :=
  | Shadowsocks (udp : bool)
  | Hysteria2
  | Tuic
  | Wireguard (config_mtu : Z)
  | OtherProtocol.

Record Node := { server : list Z; port : Z; protocol : ProxyProtocol; protocol_name : list Z }.

Definition clamp (lo hi n : Z) : Z := Z.max lo (Z.min n hi).

Definition headroom (node : option Node) : Z :=
  match protocol <$> node with
  | Some (Shadowsocks true) => 128
  | Some (Hysteria2 | Tuic) => 100
  | _ => 80
  end.

(** [path.saturating_sub(reserve).clamp(MIN_MTU, MAX_AUTO_MTU)]. *)
Definition tun_from_path (path reserve : Z) : Z := clamp MIN_MTU MAX_AUTO_MTU (Z.max 0 (path - reserve)).

Fixpoint unique_targets_from (seen : list IpAddr) (targets : list IpAddr) : list IpAddr :=
  match targets with
  | [] => seen
  | t :: rest => unique_targets_from (if bool_decide (t ∈ seen) then seen else seen ++ [t]) rest
  end.

Definition unique_targets (targets : list IpAddr) : list IpAddr := unique_targets_from [] targets.

(** ** The search *)

(** The probes sent so far, oldest first, with their answers. *)
Abbreviation trace := (list (Z * Probe)).

Definition ask (probe : trace → Z → Probe) (t : trace) (mtu : Z) : trace * Probe :=
  let answer := probe t mtu in (t ++ [(mtu, answer)], answer).

Fixpoint discover_loop (fuel : nat) (probe : trace → Z → Probe) (t : trace) (low high : Z)
    : trace * outcome (option Z) :=
  match fuel with
  | O => (t, Diverge)
  | S fuel =>
      if 8 <? high - low then
        let mid := low + Z.max ((high - low) / 16) 1 * 8 in
        let '(t, answer) := ask probe t mid in
        match answer with
        | Fits => discover_loop fuel probe t mid high
        | TooBig => discover_loop fuel probe t low mid
        | Unknown => (t, Ok None)
        end
      else (t, Ok (Some low))
  end.

Definition discover (upper : Z) (probe : trace → Z → Probe) (t : trace) : trace * outcome (option Z) :=
  if upper <? MIN_MTU then (t, Ok None)
  else
    let '(t, answer) := ask probe t upper in
    match answer with
    | Fits => (t, Ok (Some upper))
    | Unknown => (t, Ok None)
    | TooBig =>
        if upper =? MIN_MTU then (t, Ok None)
        else
          let '(t, answer) := ask probe t MIN_MTU in
          if negb (bool_decide (answer = Fits)) then (t, Ok None)
          else discover_loop (Z.to_nat (upper - MIN_MTU)) probe t MIN_MTU upper
    end.

Definition discover_with_feedback (upper : Z) (probe : trace → Z → Probe) (feedback : trace → option Z)
    : trace * outcome (option Z) :=
  let '(t, found) := discover upper probe [] in
  match found with
  | Ok (Some mtu) => (t, Ok (Some mtu))
  | Ok None =>
      match feedback t with
      | None => (t, Ok None)
      | Some learned =>
          if (MIN_MTU <=? learned) && (learned <? upper) then
            let '(t, answer) := ask probe t learned in
            (t, Ok (if bool_decide (answer = Fits) then Some learned else None))
          else (t, Ok None)
      end
  | Err e => (t, Err e)
  | Panic => (t, Panic)
  | Diverge => (t, Diverge)
  end.

(** ** Answers of the system's tools *)
Definition classify_probe (success : bool) (output : list Z) : Probe :=
  if success then Fits
  else
    let text := to_ascii_lowercase output in
    if existsb (contains text)
         (map lit ["message too long"; "frag needed"; "fragmentation needed"; "packet too big";
                   "needs to be fragmented"]%string)
    then TooBig else Unknown.

Definition no_outbound_route (success : bool) (message : list Z) : bool :=
  negb success && contains (to_ascii_lowercase message) (lit "network is unreachable").

(** The payload that makes an echo of [mtu] bytes; [None] below the headers. *)
Definition ping_payload (target : IpAddr) (mtu : Z) : option Z :=
  let headers := if is_ipv4 target then 28 else 48 in
  if mtu <? headers then None else Some (mtu - headers).

Definition ping_args (target : IpAddr) (mtu : Z) : option (list (list Z)) :=
  payload ← ping_payload target mtu;
  Some [if is_ipv4 target then lit "-4" else lit "-6"; lit "-c"; lit "1"; lit "-M"; lit "do";
        lit "-s"; show_uint payload; show_ip target].

Fixpoint token_in (words : list (list Z)) (key : list Z) : option (list Z) :=
  match words with
  | [] => None
  | word :: rest => if bool_decide (word = key) then head rest else token_in rest key
  end.

Definition token_after (text key : list Z) : option (list Z) := token_in (split_whitespace text) key.

Definition valid_interface (iface : list Z) : bool :=
  negb (starts_with (lit "-") iface) && negb (contains iface (lit "/"))
  && negb (contains iface [92]) && negb (bool_decide (iface = []))
  && negb (starts_with (lit "sockrocket") iface) && negb (starts_with (lit "utun") iface).

Definition linux_route_fingerprint (route : list Z) (link_mtu : Z) : option (list Z) :=
  dev ← token_after route (lit "dev");
  let field key default_ := default default_ (token_after route (lit key)) in
  Some (lit "route-v2|" ++ join [124] [dev; show_uint link_mtu; field "via"%string [];
                                       field "src"%string []; field "table"%string (lit "main")]).

(** [inspect_link] on Linux: [route] is the output of [ip route get], when it
    succeeded, and [sysfs] the content of the interface's [mtu] file. *)
Definition inspect_link (route : option bytes) (sysfs : list Z → option (list Z)) : option Link :=
  out ← route;
  route ← utf8_decode out;
  iface ← token_after route (lit "dev");
  if negb (valid_interface iface) then None
  else
    content ← sysfs iface;
    mtu ← parse_uint 65535 (trim content);
    let route_mtu := default mtu (s ← token_after route (lit "mtu"); parse_uint 65535 s) in
    if mtu <? MIN_MTU then None
    else
      fingerprint ← linux_route_fingerprint route mtu;
      Some {| interface_mtu := mtu; mtu := Z.min mtu route_mtu; fingerprint := fingerprint |}.

(** ** The cache *)
Record CachedPath := { key : list Z; measured_at : Z; path_mtu : Z }.
Record Cache := { version : Z; entries : list CachedPath }.

(** [read_store] on the parsed file, [None] when it is missing or malformed. *)
Definition read_store (file : option Cache) : option Cache :=
  c ← file;
  if (version c =? CACHE_VERSION) && (len (entries c) <=? CACHE_ENTRIES) then Some c else None.

Definition read_cache (file : option Cache) (now : Z) (k : list Z) (upper : Z) : option Z :=
  cache ← read_store file;
  entry ← find (λ e, bool_decide (key e = k) && (measured_at e <=? now)
                     && (MIN_MTU <=? path_mtu e) && (path_mtu e <=? upper)) (entries cache);
  Some (path_mtu entry).

Definition older (a b : CachedPath) : bool := measured_at a <=? measured_at b.

(** [write_cache]: the store it writes. *)
Definition write_cache (file : option Cache) (now : Z) (k : list Z) (measured : Z) : Cache :=
  let cache := default {| version := CACHE_VERSION; entries := [] |} (read_store file) in
  let kept := sort_by older (List.filter (λ e, negb (bool_decide (key e = k))) (entries cache)) in
  let kept := if CACHE_ENTRIES <=? len kept then drop 1 kept else kept in
  {| version := version cache;
     entries := kept ++ [{| key := k; measured_at := now; path_mtu := measured |}] |}.

(** ** Selection *)
Section select.
(** What the system says about a target: its link, whether it has no route at all,
    the probes and the link seen again after them. *)
Context (inspect : IpAddr → option Link) (unreachable : IpAddr → bool).
Context (probe : IpAddr → trace → Z → Probe) (feedback : IpAddr → trace → option Z).
Context (node : option Node) (now : Z) (cached_file : bool).

Definition path_key (target : IpAddr) (link : Link) (reserve : Z) : list Z :=
  join [124] [lit "v2"; show_ip target;
              match node with Some n => server n | None => lit "direct" end;
              show_uint match node with Some n => port n | None => 0 end;
              match node with Some n => protocol_name n | None => lit "direct" end;
              show_uint reserve; fingerprint link].

Record Selection := {
  selected : Z;
  observed : bool;
  (** The cache file; probes sent, per target. *)
  store : option Cache;
  probes : list (IpAddr * trace);
}.

(** One round of the loop over the targets. *)
Definition select_target (reserve : Z) (s : Selection) (target : IpAddr) : outcome Selection :=
  match inspect target with
  | None =>
      if unreachable target then Ok s
      else Ok {| selected := Z.min (selected s) FALLBACK_MTU; observed := observed s;
                 store := store s; probes := probes s |}
  | Some link =>
      let upper := Z.min (mtu link) MAX_AUTO_MTU in
      let fallback := Z.min (tun_from_path upper reserve) FALLBACK_MTU in
      let k := path_key target link reserve in
      let cached := if cached_file then read_cache (store s) now k upper else None in
      '(t, measured) ←
        match cached with
        | Some path => Ok ([], Some path)
        | None =>
            let '(t, r) := discover_with_feedback upper (probe target) (feedback target) in
            measured ← r; Ok (t, measured)
        end;
      let store :=
        match measured, cached with
        | Some path, None => if cached_file then Some (write_cache (store s) now k path) else store s
        | _, _ => store s
        end in
      let mtu := match measured with Some path => tun_from_path path reserve | None => fallback end in
      Ok {| selected := Z.min (selected s) mtu; observed := true; store := store;
            probes := probes s ++ [(target, t)] |}
  end.

Fixpoint select_targets (reserve : Z) (s : Selection) (targets : list IpAddr) : outcome Selection :=
  match targets with
  | [] => Ok s
  | t :: rest => s ← select_target reserve s t; select_targets reserve s rest
  end.

Definition select (targets : list IpAddr) (manual : option Z) (file : option Cache)
    : outcome Selection :=
  match manual with
  | Some mtu =>
      _ ← validate mtu;
      Ok {| selected := mtu; observed := false; store := file; probes := [] |}
  | None =>
      let targets := unique_targets targets in
      let reserve := headroom node in
      s ← select_targets reserve
            {| selected := MAX_AUTO_MTU; observed := false; store := file; probes := [] |}
            (take (Z.to_nat CACHE_ENTRIES) targets);
      let mtu := if negb (observed s) || (CACHE_ENTRIES <? len targets) || bool_decide (targets = [])
                 then Z.min (selected s) FALLBACK_MTU else selected s in
      let mtu := match protocol <$> node with
                 | Some (Wireguard m) => Z.min mtu (clamp MIN_MTU MAX_AUTO_MTU m)
                 | _ => mtu
                 end in
      Ok {| selected := mtu; observed := observed s; store := store s; probes := probes s |}
  end.
End select.
