(* ===== verification/MtuSpec.v ===== *)
(** * The MTU of the TUN device: no claim without a probe, always within bounds *)
From S2P Require Import Prelude Bytes Text Net NetText Sorting Mtu.

(** ** The search *)

(** The offset of the middle of an interval of width [d]. *)
Definition offset (d : Z) : Z := Z.max (d / 16) 1 * 8.

Lemma offset_inside d : 8 < d → 0 < offset d < d.
Proof. unfold offset. lia. Qed.

(** What a search may return, given the probes it sent after [t0]. *)
Definition honest (upper : Z) (t : trace) (r : outcome (option Z)) : Prop :=
  ∃ m, r = Ok m ∧ ∀ p, m = Some p → MIN_MTU <= p <= upper ∧ (p, Fits) ∈ t.

Lemma honest_none upper t : honest upper t (Ok None).
Proof. by exists None. Qed.

Lemma honest_some upper t p : MIN_MTU <= p <= upper → (p, Fits) ∈ t → honest upper t (Ok (Some p)).
Proof. intros Hp Ht. exists (Some p). split; [done|]. by intros ? [= <-]. Qed.

Lemma discover_loop_honest fuel probe t low high upper : high - low <= Z.of_nat fuel →
  MIN_MTU <= low → low < high <= upper → (low, Fits) ∈ t →
  let '(t', r) := discover_loop fuel probe t low high in honest upper t' r.
Proof.
  revert t low high. induction fuel as [|fuel IH]; intros t low high Hf Hm Hlt Hin; [lia|].
  cbn [discover_loop]. destruct (Z.ltb_spec 8 (high - low)); [|apply honest_some; [lia|done]].
  fold (offset (high - low)). pose proof (offset_inside (high - low)). unfold ask.
  destruct (probe t _) eqn:E.
  - apply IH; [lia..|]. apply elem_of_app. right. by left.
  - apply IH; [lia..|]. apply elem_of_app. by left.
  - apply honest_none.
Qed.

Lemma discover_honest upper probe t :
  let '(t', r) := discover upper probe t in honest upper t' r.
Proof.
  unfold discover, ask. destruct (Z.ltb_spec upper MIN_MTU); [apply honest_none|].
  destruct (probe t upper); [|destruct (Z.eqb_spec upper MIN_MTU); [apply honest_none|]|apply honest_none].
  - apply honest_some; [lia|]. apply elem_of_app. right. by left.
  - destruct (probe (t ++ [(upper, TooBig)]) MIN_MTU) eqn:E; cbn; try apply honest_none.
    apply discover_loop_honest; [lia..|]. apply elem_of_app. right. by left.
Qed.

Lemma feedback_honest upper probe feedback :
  let '(t, r) := discover_with_feedback upper probe feedback in honest upper t r.
Proof.
  unfold discover_with_feedback. pose proof (discover_honest upper probe []) as Hd.
  destruct (discover upper probe []) as [t r]. destruct Hd as (m & -> & Hm).
  destruct m as [p|]; [by exists (Some p)|].
  destruct (feedback t) as [learned|]; [|apply honest_none].
  destruct (Z.leb_spec MIN_MTU learned), (Z.ltb_spec learned upper); cbn [andb]; try apply honest_none.
  unfold ask. destruct (probe t learned); cbn; try apply honest_none.
  apply honest_some; [lia|]. apply elem_of_app. right. by left.
Qed.

(** *** How many probes *)
Fixpoint worst (fuel : nat) (d : Z) : Z :=
  match fuel with
  | O => 0
  | S fuel => if 8 <? d then 1 + Z.max (worst fuel (offset d)) (worst fuel (d - offset d)) else 0
  end.

Lemma discover_loop_probes fuel probe t low high :
  len (discover_loop fuel probe t low high).1 <= len t + worst fuel (high - low).
Proof.
  revert t low high. induction fuel as [|fuel IH]; intros t low high; cbn [discover_loop worst fst]; [lia|].
  destruct (8 <? high - low); cbn [fst]; [|lia]. fold (offset (high - low)). unfold ask.
  destruct (probe t _); cbn [fst].
  - etrans; [apply IH|]. replace (high - (low + offset (high - low))) with (high - low - offset (high - low)) by lia.
    lenlia.
  - etrans; [apply IH|]. replace (low + offset (high - low) - low) with (offset (high - low)) by lia. lenlia.
  - rewrite len_app. change (len [_]) with 1. pose proof (len_nonneg t).
    assert (∀ f d, 0 <= worst f d) as Hw by (clear; induction f; intros d; simpl; [lia|]; destruct (8 <? d); [|lia];
      specialize (IHf (d - offset d)); lia).
    pose proof (Hw fuel (offset (high - low))). lia.
Qed.

(** For the widths the selection searches, six probes are enough. *)
Lemma worst_auto d : 0 < d <= 220 → worst (Z.to_nat d) d <= 6.
Proof.
  intros Hd. assert (H : Forall (λ n, worst n (Z.of_nat n) <= 6) (seq 0 221)) by decided.
  rewrite Forall_forall in H. specialize (H (Z.to_nat d)). rewrite Z2Nat.id in H by lia. apply H.
  apply elem_of_seq. lia.
Qed.

Lemma discover_probes upper probe t : upper <= MAX_AUTO_MTU → len (discover upper probe t).1 <= len t + 8.
Proof.
  intros Hu. unfold discover, ask. destruct (Z.ltb_spec upper MIN_MTU); cbn [fst]; [lia|].
  assert (Hone : len (t ++ [(upper, probe t upper)]) = len t + 1) by lenlia.
  destruct (probe t upper); cbn [fst]; try lia.
  destruct (Z.eqb_spec upper MIN_MTU); cbn [fst]; [lia|].
  destruct (negb _); cbn [fst]; [lenlia|].
  pose proof (worst_auto (upper - MIN_MTU)) as Hw. unfold MIN_MTU, MAX_AUTO_MTU in *.
  etrans; [apply discover_loop_probes|]. rewrite len_app, Hone. change (len [_]) with 1. lia.
Qed.

Lemma feedback_probes upper probe feedback : upper <= MAX_AUTO_MTU →
  len (discover_with_feedback upper probe feedback).1 <= 9.
Proof.
  intros Hu. unfold discover_with_feedback. pose proof (discover_probes upper probe [] Hu) as Hd.
  destruct (discover upper probe []) as [t [[p|]|e| |]]; cbn [fst] in *; change (len []) with 0 in Hd; try lia.
  destruct (feedback t); cbn [fst]; [|lia]. destruct (_ && _); unfold ask; cbn [fst]; lenlia.
Qed.

(** *** On a path whose MTU does not change *)
Definition path_probe (path : Z) : trace → Z → Probe := λ _ m, if m <=? path then Fits else TooBig.

Lemma discover_loop_exact fuel path t low high : high - low <= Z.of_nat fuel → low < high →
  low <= path < high →
  ∃ p, (discover_loop fuel (path_probe path) t low high).2 = Ok (Some p) ∧ p <= path < p + 8.
Proof.
  revert t low high. induction fuel as [|fuel IH]; intros t low high Hf Hlt Hp; [lia|].
  cbn [discover_loop]. destruct (Z.ltb_spec 8 (high - low)); [|exists low; split; [done|]; lia].
  fold (offset (high - low)). pose proof (offset_inside (high - low)). unfold ask, path_probe at 1.
  destruct (Z.leb_spec (low + offset (high - low)) path); apply IH; lia.
Qed.

Lemma discover_exact upper path : MIN_MTU <= upper → MIN_MTU <= path →
  ∃ p, (discover upper (path_probe path) []).2 = Ok (Some p) ∧ p <= path ∧ (p = upper ∨ path < p + 8).
Proof.
  intros Hu Hp. unfold discover, ask, path_probe. rewrite (proj2 (Z.ltb_ge upper MIN_MTU)) by lia.
  destruct (Z.leb_spec upper path); [exists upper; auto|].
  destruct (Z.eqb_spec upper MIN_MTU); [lia|]. rewrite (proj2 (Z.leb_le MIN_MTU path)) by lia.
  rewrite bool_decide_true by done. cbn [negb].
  destruct (discover_loop_exact (Z.to_nat (upper - MIN_MTU)) path [(upper, TooBig); (MIN_MTU, Fits)] MIN_MTU upper)
    as (p & E & H1); [lia..|]. exists p. split; [exact E|]. lia.
Qed.

(** The search for the path MTU ends after at most nine echoes and never turns
    loss into a measurement: whatever the probes answer, in whatever order, a size is
    claimed only if an echo of exactly that size got through, and it lies between
    1280 and the link's limit. On a path with a fixed MTU of at least 1280 the result
    is the largest size on the search grid that fits: the link's limit, or less than
    eight bytes below the true MTU. *)
Theorem mtu_discover_spec upper probe feedback :
  let '(t, r) := discover_with_feedback upper probe feedback in
  honest upper t r ∧
  (upper <= MAX_AUTO_MTU → len t <= 9) ∧
  (∀ path, MIN_MTU <= upper → MIN_MTU <= path → probe = path_probe path →
     ∃ p, r = Ok (Some p) ∧ p <= path ∧ (p = upper ∨ path < p + 8)).
Proof.
  pose proof (feedback_honest upper probe feedback) as Hh.
  pose proof (feedback_probes upper probe feedback) as Hp.
  destruct (discover_with_feedback upper probe feedback) as [t r] eqn:E. cbn [fst] in Hp.
  split; [done|]. split; [done|]. intros path Hu Hpath ->.
  destruct (discover_exact upper path Hu Hpath) as (p & Ed & Hb). exists p. split; [|done].
  unfold discover_with_feedback in E. destruct (discover upper _ []) as [t' r']. cbn [snd] in Ed. subst r'.
  congruence.
Qed.

(** ** The selection *)
Section select.
Context (inspect : IpAddr → option Link) (unreachable : IpAddr → bool).
Context (probe : IpAddr → trace → Z → Probe) (feedback : IpAddr → trace → option Z).
Context (node : option Node) (now : Z) (cached_file : bool).
Notation reserve := (headroom node).
Notation select_target := (select_target inspect unreachable probe feedback node now cached_file).
Notation select_targets := (select_targets inspect unreachable probe feedback node now cached_file).

(** The most a target allows. *)
Definition target_cap (target : IpAddr) : Z :=
  match inspect target with
  | Some link => tun_from_path (Z.min (mtu link) MAX_AUTO_MTU) reserve
  | None => if unreachable target then MAX_AUTO_MTU else FALLBACK_MTU
  end.

Definition in_bounds (n : Z) : Prop := MIN_MTU <= n <= MAX_AUTO_MTU.

Lemma tun_bounds path r : in_bounds (tun_from_path path r).
Proof. unfold in_bounds, tun_from_path, clamp, MIN_MTU, MAX_AUTO_MTU. lia. Qed.

Lemma tun_mono p q r : p <= q → tun_from_path p r <= tun_from_path q r.
Proof. unfold tun_from_path, clamp. lia. Qed.

Lemma read_cache_bound file k upper p : read_cache file now k upper = Some p → MIN_MTU <= p <= upper.
Proof.
  unfold read_cache. destruct (read_store file) as [c|]; [|done]. simpl.
  destruct (find _ _) as [e|] eqn:E; [|done]. intros [= <-]. apply find_some in E as [_ E].
  rewrite !andb_true_iff, !Z.leb_le in E. lia.
Qed.

(** One target lowers the result to what it allows, and to the fallback when
    nothing is known about its path. *)
Definition unmeasured (t : trace) : Prop := ∀ p, (p, Fits) ∉ t.

Lemma select_target_ok s target : in_bounds (selected s) →
  ∃ s', select_target reserve s target = Ok s' ∧ in_bounds (selected s') ∧
    selected s' <= selected s ∧ selected s' <= target_cap target ∧
    (observed s' = true ↔ observed s = true ∨ is_Some (inspect target)) ∧
    (∃ new, probes s' = probes s ++ new ∧
       (cached_file = false → ∀ x, x ∈ new → unmeasured x.2 → selected s' <= FALLBACK_MTU)).
Proof.
  intros Hb. unfold Mtu.select_target, target_cap. pose proof (tun_bounds) as Ht.
  destruct (inspect target) as [link|].
  2: { destruct (unreachable target); eexists; (split; [reflexivity|]); cbn [selected observed probes];
         unfold in_bounds, FALLBACK_MTU, MIN_MTU, MAX_AUTO_MTU in *;
         (split; [lia|]); (split; [lia|]); (split; [lia|]);
         (split; [split; [auto|by intros [?|[? ?]]]|]);
         exists []; rewrite app_nil_r; (split; [done|]); intros _ x Hx; by apply not_elem_of_nil in Hx. }
  set (upper := Z.min (mtu link) MAX_AUTO_MTU). set (k := path_key _ _ _ _).
  destruct (if cached_file then read_cache (store s) now k upper else None) as [path|] eqn:Ec; obind.
  - destruct cached_file; [|done]. apply read_cache_bound in Ec.
    eexists. split; [reflexivity|]. cbn [selected observed probes].
    pose proof (tun_mono path upper reserve). specialize (Ht path reserve). unfold in_bounds in *.
    split; [lia|]. split; [lia|]. split; [lia|]. split; [by split; [right; eexists|]|].
    eexists. split; [reflexivity|]. done.
  - pose proof (feedback_honest upper (probe target) (feedback target)) as Hh.
    destruct (discover_with_feedback _ _ _) as [t r]. destruct Hh as (m & -> & Hm). obind.
    eexists. split; [reflexivity|]. cbn [selected observed probes].
    pose proof (Ht upper reserve) as Hu.
    destruct m as [path|].
    + destruct (Hm path eq_refl) as [Hp Hin]. pose proof (tun_mono path upper reserve). pose proof (Ht path reserve).
      unfold in_bounds in *. split; [lia|]. split; [lia|]. split; [lia|].
      split; [by split; [right; eexists|]|]. eexists. split; [reflexivity|].
      intros _ x ->%list_elem_of_singleton Hx. by destruct (Hx path).
    + unfold in_bounds, FALLBACK_MTU, MIN_MTU, MAX_AUTO_MTU in *. split; [lia|]. split; [lia|]. split; [lia|].
      split; [by split; [right; eexists|]|]. eexists. split; [reflexivity|]. intros _ x _ _. lia.
Qed.

Lemma select_targets_ok targets s : in_bounds (selected s) →
  ∃ s', select_targets reserve s targets = Ok s' ∧ in_bounds (selected s') ∧
    selected s' <= selected s ∧ (∀ t, t ∈ targets → selected s' <= target_cap t) ∧
    (observed s' = true ↔ observed s = true ∨ ∃ t, t ∈ targets ∧ is_Some (inspect t)) ∧
    (∃ new, probes s' = probes s ++ new ∧
       (cached_file = false → ∀ x, x ∈ new → unmeasured x.2 → selected s' <= FALLBACK_MTU)).
Proof.
  revert s. induction targets as [|t targets IH]; intros s Hb.
  { exists s. split; [done|]. split; [done|]. split; [lia|]. split; [by intros t Ht%not_elem_of_nil|].
    split; [split; [auto|by intros [|(t & Ht%not_elem_of_nil & _)]]|].
    exists []. rewrite app_nil_r. split; [done|]. by intros _ x Hx%not_elem_of_nil. }
  destruct (select_target_ok s t Hb) as (s1 & E1 & Hb1 & H1 & Hc1 & Ho1 & new1 & Hn1 & Hu1).
  destruct (IH s1 Hb1) as (s2 & E2 & Hb2 & H2 & Hc2 & Ho2 & new2 & Hn2 & Hu2).
  exists s2. cbn [Mtu.select_targets]. rewrite E1. obind. split; [done|]. split; [done|].
  split; [lia|]. split.
  { intros x [->|Hx]%elem_of_cons; [lia|by apply Hc2]. }
  split.
  { rewrite Ho2, Ho1. split.
    - intros [[|]|(x & Hx & ?)]; [by left|right; exists t; split; [left|done]|].
      right. exists x. split; [by right|done].
    - intros [|(x & [->|Hx]%elem_of_cons & ?)]; [auto|auto|]. right. by exists x. }
  exists (new1 ++ new2). rewrite Hn2, Hn1, app_assoc. split; [done|].
  intros Hf x [Hx|Hx]%elem_of_app Hun; [|by apply (Hu2 Hf x)]. specialize (Hu1 Hf x Hx Hun). lia.
Qed.

(** The targets the selection looks at. *)
Definition examined (targets : list IpAddr) : list IpAddr :=
  take (Z.to_nat CACHE_ENTRIES) (unique_targets targets).

(** The MTU selected at startup. A manual value is taken as it is if it lies
    between 1280 and 9000 and refused otherwise, without probing. Otherwise the result
    lies between 1280 and 1500 and within what every examined node address allows; it
    is at most 1400 when nothing could be examined, when there are more than 32
    addresses, when an address has neither a readable link nor a clear absence of
    route, and, without a cache, when some examined path let no echo through; and a
    WireGuard node's own MTU bounds it. *)
Theorem mtu_select_spec targets manual file :
  match manual, select inspect unreachable probe feedback node now cached_file targets manual file with
  | Some m, Ok s => 1280 <= m <= 9000 ∧ selected s = m ∧ probes s = [] ∧ store s = file
  | Some m, Err _ => ¬ 1280 <= m <= 9000
  | None, Ok s => 1280 <= selected s <= 1500 ∧
      (∀ t, t ∈ examined targets → selected s <= target_cap t) ∧
      (targets = [] ∨ 32 < len (unique_targets targets) ∨ (∀ t, t ∈ examined targets → inspect t = None) →
         selected s <= 1400) ∧
      (cached_file = false → ∀ t p, (t, p) ∈ probes s → unmeasured p → selected s <= 1400) ∧
      (∀ m, protocol <$> node = Some (Wireguard m) → selected s <= clamp 1280 1500 m)
  | _, _ => False
  end.
Proof.
  unfold select, validate. destruct manual as [m|].
  { destruct (Z.leb_spec MIN_MTU m), (Z.leb_spec m 9000); cbn [andb]; orun; cbn;
      unfold MIN_MTU in *; [repeat split; lia || done|lia..]. }
  destruct (select_targets_ok (examined targets)
    {| selected := MAX_AUTO_MTU; observed := false; store := file; probes := [] |})
    as (s & E & Hb & _ & Hc & Ho & new & Hn & Hu); [by vm_compute|].
  unfold examined in E. rewrite E. obind. cbn [selected probes observed app] in *.
  set (few := negb (observed s) || _ || _).
  set (base := if few then Z.min (selected s) FALLBACK_MTU else selected s).
  set (final := match protocol <$> node with Some (Wireguard m) => _ | _ => base end).
  assert (Hbase : 1280 <= base <= 1500 ∧ base <= selected s)
    by (unfold base, in_bounds, FALLBACK_MTU, MIN_MTU, MAX_AUTO_MTU in *; destruct few; lia).
  assert (Hfinal : 1280 <= final <= base).
  { unfold final, clamp, MIN_MTU, MAX_AUTO_MTU. destruct (protocol <$> node) as [[]|]; lia. }
  split; [lia|]. split; [intros t Ht; specialize (Hc t Ht); lia|]. split; [|split].
  - intros Hcases. assert (few = true) as Hf; [|unfold base in Hfinal; rewrite Hf in Hfinal; unfold FALLBACK_MTU in *; lia].
    unfold few. destruct Hcases as [->|[Hlen|Hnone]].
    + rewrite (bool_decide_true (unique_targets [] = [])) by done. by rewrite orb_true_r.
    + rewrite (proj2 (Z.ltb_lt CACHE_ENTRIES _)) by (unfold CACHE_ENTRIES; lia). by rewrite orb_true_r.
    + destruct (observed s); [|done]. destruct Ho as [[Ho|(t & Ht & [l Hl])] _]; [done..|].
      by rewrite Hnone in Hl.
  - intros Hf t p Hp Hun. rewrite Hn in Hp. specialize (Hu Hf (t, p) Hp Hun). unfold FALLBACK_MTU in Hu. lia.
  - intros m Hm. unfold final. rewrite Hm. unfold MIN_MTU, MAX_AUTO_MTU. lia.
Qed.
End select.

(** ** The cache *)
Definition store_ok (c : Cache) : Prop := version c = CACHE_VERSION ∧ len (entries c) <= CACHE_ENTRIES.

Lemma read_store_ok c : store_ok c → read_store (Some c) = Some c.
Proof.
  intros [Hv Hl]. unfold read_store. simpl. rewrite Hv, Z.eqb_refl. by rewrite (proj2 (Z.leb_le _ CACHE_ENTRIES)).
Qed.

Lemma length_list_filter {A} (p : A → bool) l : (length (List.filter p l) <= length l)%nat.
Proof. induction l as [|x l IH]; simpl; [lia|]. destruct (p x); simpl; lia. Qed.

Lemma older_total a b : older a b = true ∨ older b a = true.
Proof. unfold older. rewrite !Z.leb_le. lia. Qed.

Lemma older_trans a b c : older a b = true → older b c = true → older a c = true.
Proof. unfold older. rewrite !Z.leb_le. lia. Qed.

(** The entries the new one joins, before room is made. *)
Definition others (file : option Cache) (k : list Z) : list CachedPath :=
  match read_store file with
  | Some c => List.filter (λ e, negb (bool_decide (key e = k))) (entries c)
  | None => []
  end.

Lemma elem_of_others file k e :
  e ∈ others file k ↔ ∃ c, read_store file = Some c ∧ e ∈ entries c ∧ key e ≠ k.
Proof.
  unfold others. destruct (read_store file) as [c|].
  - rewrite list_elem_of_In, filter_In, negb_true_iff, bool_decide_eq_false, <- list_elem_of_In. naive_solver.
  - split; [by intros ?%not_elem_of_nil|naive_solver].
Qed.

Lemma others_len file k : len (others file k) <= CACHE_ENTRIES.
Proof.
  unfold others, read_store. destruct file as [c|]; [|done]. simpl.
  destruct (_ && _) eqn:E; [|done]. apply andb_true_iff in E as [_ E%Z.leb_le].
  pose proof (length_list_filter (λ e, negb (bool_decide (key e = k))) (entries c)). unfold len in *. lia.
Qed.

(** The cache of measured paths. Writing a measurement yields a valid store of at
    most 32 entries that gives it back for the same key at any later time, as long as
    it fits the link; the entries of other keys are kept, except that a full store
    loses its oldest one; and reading never returns a value above the limit asked for,
    below 1280 or from the future. *)
Theorem mtu_cache_spec file now k p :
  let c := write_cache file now k p in
  let new := {| key := k; measured_at := now; path_mtu := p |} in
  store_ok c ∧
  (∀ now' upper, now <= now' → MIN_MTU <= p <= upper → read_cache (Some c) now' k upper = Some p) ∧
  (∀ e, e ∈ entries c → e = new ∨ e ∈ others file k) ∧
  (∀ e, e ∈ others file k → e ∈ entries c ∨
     len (others file k) = CACHE_ENTRIES ∧ ∀ e', e' ∈ entries c → e' = new ∨ measured_at e <= measured_at e') ∧
  (∀ now' k' upper q, read_cache file now' k' upper = Some q →
     MIN_MTU <= q <= upper ∧ ∃ c e, file = Some c ∧ e ∈ entries c ∧ key e = k' ∧ path_mtu e = q ∧ measured_at e <= now').
Proof.
  set (sorted_others := sort_by older (others file k)).
  assert (Hperm : sorted_others ≡ₚ others file k) by apply sort_by_perm.
  assert (Hsorted : sorted older sorted_others) by apply (sort_by_sorted older older_total older_trans).
  pose proof (others_len file k) as Hlen.
  assert (Hsl : len sorted_others = len (others file k)) by (unfold len; by rewrite Hperm).
  set (kept := if CACHE_ENTRIES <=? len sorted_others then drop 1 sorted_others else sorted_others).
  assert (Hkept : ∀ e, e ∈ kept → e ∈ others file k).
  { intros e He. rewrite <- Hperm. unfold kept in He. destruct (_ <=? _); [|done].
    rewrite <- (take_drop 1 sorted_others). apply elem_of_app. by right. }
  assert (Hwrite : write_cache file now k p =
    {| version := CACHE_VERSION; entries := kept ++ [{| key := k; measured_at := now; path_mtu := p |}] |}).
  { unfold write_cache, kept, sorted_others, others. unfold read_store. destruct file as [c|]; [|done]. simpl.
    destruct (version c =? CACHE_VERSION) eqn:Ev; [|done]. apply Z.eqb_eq in Ev.
    destruct (len (entries c) <=? CACHE_ENTRIES); [|done]. simpl. by rewrite Ev. }
  cbv zeta. rewrite Hwrite. cbn [entries].
  assert (Hok : store_ok {| version := CACHE_VERSION; entries := kept ++ [{| key := k; measured_at := now; path_mtu := p |}] |}).
  { split; [done|]. cbn [entries]. rewrite len_app. change (len [_]) with 1. unfold kept.
    destruct (Z.leb_spec CACHE_ENTRIES (len sorted_others)); [|lia].
    unfold CACHE_ENTRIES, len in *. rewrite length_drop. lia. }
  split; [done|]. split; [|split; [|split]].
  - intros now' upper Hnow Hp. unfold read_cache. rewrite read_store_ok by done. cbn [mbind option_bind entries].
    rewrite find_app, (proj2 (find_none_Forall _ kept)).
    + simpl. rewrite bool_decide_true by done.
      by rewrite (proj2 (Z.leb_le now now')), (proj2 (Z.leb_le MIN_MTU p)), (proj2 (Z.leb_le p upper)) by lia.
    + apply Forall_forall. intros e (c & _ & _ & Hne)%Hkept%elem_of_others.
      by rewrite bool_decide_false by done.
  - intros e [He|He%list_elem_of_singleton]%elem_of_app; [right; by apply Hkept|by left].
  - intros e He. rewrite <- Hperm in He. unfold kept.
    destruct (Z.leb_spec CACHE_ENTRIES (len sorted_others)); [|left; apply elem_of_app; by left].
    destruct sorted_others as [|x l]; [by apply not_elem_of_nil in He|]. cbn [drop].
    apply elem_of_cons in He as [->|He]; [|left; apply elem_of_app; by left].
    right. split; [lia|]. intros e' [He'|He'%list_elem_of_singleton]%elem_of_app; [right|by left].
    inversion_clear Hsorted as [|? ? _ Hall]. rewrite Forall_forall in Hall.
    apply Z.leb_le. exact (Hall e' He').
  - intros now' k' upper q Hq. split; [by eapply read_cache_bound|].
    unfold read_cache, read_store in Hq. destruct file as [c|]; [|done]. simpl in Hq.
    destruct (_ && _); [|done]. simpl in Hq. destruct (find _ _) as [e|] eqn:E; [|done].
    injection Hq as <-. apply find_some in E as [Hin E]. rewrite !andb_true_iff, bool_decide_eq_true, !Z.leb_le in E.
    exists c, e. rewrite list_elem_of_In. naive_solver.
Qed.

(** ** Witnesses *)
Lemma mtu_discover_spec_witness :
  ∃ p, (discover_with_feedback 1500 (path_probe 1420) (λ _, None)).2 = Ok (Some p) ∧
    p <= 1420 ∧ (p = 1500 ∨ 1420 < p + 8).
Proof.
  pose proof (mtu_discover_spec 1500 (path_probe 1420) (λ _, None)) as H.
  destruct (discover_with_feedback 1500 (path_probe 1420) (λ _, None)) as [t r].
  destruct H as (_ & _ & H). apply H; [unfold MIN_MTU; lia..|reflexivity].
Defined.

Lemma mtu_select_spec_witness :
  let link := {| interface_mtu := 1500; mtu := 1480; fingerprint := [] |} in
  let s := select (λ _, Some link) (λ _, false) (λ _, path_probe 1400) (λ _ _, None) None 0 false
             [V4 1; V4 2] None None in
  match s with
  | Ok s => 1280 <= selected s <= 1500 ∧ selected s <= target_cap (λ _, Some link) (λ _, false) None (V4 2)
  | _ => False
  end.
Proof.
  intros link. pose proof (mtu_select_spec (λ _, Some link) (λ _, false) (λ _, path_probe 1400) (λ _ _, None)
                  None 0 false [V4 1; V4 2] None None) as H.
  cbv zeta. destruct (select _ _ _ _ _ _ _ _ _ _) as [s| | |]; try done.
  destruct H as (Hb & Hc & _). split; [exact Hb|]. apply Hc. decided.
Defined.

Lemma mtu_cache_spec_witness :
  read_cache (Some (write_cache None 5 (lit "key") 1400)) 9 (lit "key") 1500 = Some 1400.
Proof.
  destruct (mtu_cache_spec None 5 (lit "key") 1400) as (_ & H & _).
  apply H; [lia|unfold MIN_MTU; lia].
Defined.
