(* ===== verification/Health.v ===== *)
(** * Health checks and failover (proxy/health.rs)

    The failure tracker, one probe with its optional failover, the choice of a
    replacement and the round of concurrent probes.  What the network answers is a
    parameter: the result of each probe, and the order in which concurrent probes
    finish, a list that ends where the round's deadline fires.  Outbounds are
    identities ([Arc::ptr_eq]); the fingerprint of a node is an argument.  The
    outer 30-second timeout, longer than the waits it covers, is not modelled. *)
From S2P Require Import Prelude Bytes Sorting.

Definition U32_MAX : Z := 4294967295.
Definition QUARANTINE : Z := 120 * 1000000000.
Definition MAX_PROBES : nat := 4.

Section health.
Context {Node Key : Type} `{Countable Key}.
(** [node.latency_ms] and [config::dedup::node_fingerprint]. *)
Context (latency_ms : Node → option Z) (node_fingerprint : Node → Key).

Definition outbound : Type := Z.

Record FailureTracker := {
  threshold : Z;
  consecutive : Z;
  candidate_cursor : nat;
  current : option nat;
  avoided : gmap nat Z;
  recent : list nat;
  last_outbound : option outbound;
}.

Definition FailureTracker_new (t : Z) : FailureTracker :=
  {| threshold := Z.max t 1; consecutive := 0; candidate_cursor := 0; current := None;
     avoided := ∅; recent := []; last_outbound := None |}.

Definition set_consecutive (n : Z) (t : FailureTracker) : FailureTracker :=
  {| threshold := threshold t; consecutive := n; candidate_cursor := candidate_cursor t;
     current := current t; avoided := avoided t; recent := recent t; last_outbound := last_outbound t |}.
Definition set_cursor (n : nat) (t : FailureTracker) : FailureTracker :=
  {| threshold := threshold t; consecutive := consecutive t; candidate_cursor := n;
     current := current t; avoided := avoided t; recent := recent t; last_outbound := last_outbound t |}.
Definition set_current (c : option nat) (t : FailureTracker) : FailureTracker :=
  {| threshold := threshold t; consecutive := consecutive t; candidate_cursor := candidate_cursor t;
     current := c; avoided := avoided t; recent := recent t; last_outbound := last_outbound t |}.
Definition set_avoided (a : gmap nat Z) (t : FailureTracker) : FailureTracker :=
  {| threshold := threshold t; consecutive := consecutive t; candidate_cursor := candidate_cursor t;
     current := current t; avoided := a; recent := recent t; last_outbound := last_outbound t |}.
Definition set_recent (r : list nat) (t : FailureTracker) : FailureTracker :=
  {| threshold := threshold t; consecutive := consecutive t; candidate_cursor := candidate_cursor t;
     current := current t; avoided := avoided t; recent := r; last_outbound := last_outbound t |}.
Definition set_last (o : outbound) (t : FailureTracker) : FailureTracker :=
  {| threshold := threshold t; consecutive := consecutive t; candidate_cursor := candidate_cursor t;
     current := current t; avoided := avoided t; recent := recent t; last_outbound := Some o |}.

Definition record_success (t : FailureTracker) : FailureTracker := set_consecutive 0 t.

Definition record_failure (t : FailureTracker) : bool * FailureTracker :=
  let n := Z.min (consecutive t + 1) U32_MAX in
  (threshold t <=? n, set_consecutive n t).

(** [recent.retain(|i| *i != index); recent.insert(0, index); recent.truncate(4)]. *)
Definition remember (index : nat) (t : FailureTracker) : FailureTracker :=
  set_recent (take 4 (index :: List.filter (λ i, negb (i =? index)%nat) (recent t))) t.

(** ** Candidates *)
Fixpoint first_seen (seen : gset Key) (l : list (nat * Node)) : list (nat * Node) :=
  match l with
  | [] => []
  | (i, node) :: rest =>
      let key := node_fingerprint node in
      if bool_decide (key ∈ seen) then first_seen seen rest
      else (i, node) :: first_seen ({[key]} ∪ seen) rest
  end.

Definition excluded (nodes : list Node) (avoided : gmap nat Z) : gset Key :=
  list_to_set (omap (λ i, node_fingerprint <$> nodes !! i) (map_to_list avoided).*1).

(** [!excluded.contains(&key) && seen.insert(key)]: an excluded key is never
    inserted in [seen], so [seen] may start with the excluded ones. *)
Definition eligible_candidates (nodes : list Node) (avoided : gmap nat Z) : list (nat * Node) :=
  first_seen (excluded nodes avoided) (imap (λ i node, (i, node)) nodes).

(** ** A round of concurrent probes *)
Definition by_latency (a b : nat * Node) : bool :=
  default U32_MAX (latency_ms a.2) <=? default U32_MAX (latency_ms b.2).

Definition rotate_left {A} (n : nat) (l : list A) : list A := drop n l ++ take n l.

(** The loop's state: who waits, who is probed, the cursor and the best so far. *)
Record Round := {
  waiting : list nat;
  running : list nat;
  cursor : nat;
  best : option (nat * Z);
}.

(** [while set.len() < 4]: schedules candidates while there is room. *)
Fixpoint fill (fuel count : nat) (r : Round) : Round :=
  match fuel with
  | O => r
  | S fuel =>
      if (length (running r) <? MAX_PROBES)%nat then
        match waiting r with
        | [] => r
        | index :: rest =>
            fill fuel count {| waiting := rest; running := running r ++ [index];
                               cursor := (cursor r + 1) mod count; best := best r |}
        end
      else r
  end.

Definition better (result : option (nat * Z)) (best : option (nat * Z)) : option (nat * Z) :=
  match result, best with
  | Some (i, ms), Some (_, best_ms) => if ms <? best_ms then Some (i, ms) else best
  | Some (i, ms), None => Some (i, ms)
  | None, _ => best
  end.

(** The loop: [order] says which running probe finishes next; at its end the
    deadline fires. *)
Fixpoint round (probe : nat → option Z) (count : nat) (order : list nat) (r : Round) : Round :=
  let r := fill MAX_PROBES count r in
  match order, running r with
  | k :: order, _ :: _ =>
      let k := (k mod length (running r))%nat in
      match running r !! k with
      | Some index =>
          round probe count order
            {| waiting := waiting r; running := delete k (running r); cursor := cursor r;
               best := better ((λ ms, (index, ms)) <$> probe index) (best r) |}
      | None => r
      end
  | _, _ => r
  end.

(** [find_best_node_with]: the new cursor and the best node. *)
Definition find_best_node (probe : nat → option Z) (order : list nat) (nodes : list Node) (cursor_ : nat)
    : nat * option (nat * Z) :=
  let ordered := sort_by by_latency (imap (λ i node, (i, node)) nodes) in
  match ordered with
  | [] => (cursor_, None)
  | _ =>
      let count := length ordered in
      let r := round probe count order
                 {| waiting := (rotate_left (cursor_ mod count) ordered).*1; running := [];
                    cursor := cursor_; best := None |} in
      (cursor r, best r)
  end.

(** ** The replacement *)

(** [probe] tests the node of an index of [nodes]. *)
Definition find_replacement (probe : nat → option Z) (order : list nat) (now : Z)
    (nodes : list Node) (t : FailureTracker) : FailureTracker * option (nat * Z) :=
  let among (t : FailureTracker) :=
    let available := eligible_candidates nodes (avoided t) in
    let '(c, found) :=
      find_best_node (λ k, '(i, _) ← available !! k; probe i) order available.*2 (candidate_cursor t) in
    (set_cursor c t,
     '(k, ms) ← found; '(i, _) ← available !! k; Some (i, ms)) in
  match head (List.filter (λ i, bool_decide (avoided t !! i = None)) (recent t)) with
  | Some index =>
      match nodes !! index with
      | Some _ =>
          match probe index with
          | Some ms => (t, Some (index, ms))
          | None => among (set_avoided (<[index := now + QUARANTINE]> (avoided t)) t)
          end
      | None => among t
      end
  | None => among t
  end.

(** ** One probe *)
Inductive HealthEvent :=
  | ProbeOk (latency : Z)
  | ProbeFailed (consecutive_failures : Z)
  | AutoSwitched (node_index : nat) (latency : Z)
  | SwitchFailed.

(** What happens around one call: the active outbound before and after the probe
    and when the swap is tried, the results of the probe and of its confirmation,
    the candidates' probes, the order they finish in, what the factory builds, and
    the clock at its two readings. *)
Record Surroundings := {
  snapshot : outbound;
  after_probe : outbound;
  at_swap : outbound;
  probed : option Z;
  confirmed : option Z;
  candidate : nat → option Z;
  finishing : list nat;
  factory : nat → option outbound;
  clock : Z;
  clock_retry : Z;
}.

(** A failed check is repeated once, when a failure may switch nodes. *)
Definition confirm_probe (confirm : bool) (first second : option Z) : option Z :=
  match first with
  | Some ms => Some ms
  | None => if confirm then second else None
  end.

(** A manual switch owns the decision. *)
Definition adopt (s : Surroundings) (t : FailureTracker) : FailureTracker :=
  let t := match last_outbound t with
           | Some old => if old =? snapshot s then t else set_consecutive 0 (set_current None t)
           | None => t
           end in
  set_last (snapshot s) t.

(** The end of a failed check that reached the threshold. *)
Definition fail_over (s : Surroundings) (nodes : list Node) (t : FailureTracker)
    : FailureTracker * option outbound * list HealthEvent :=
  let t := set_consecutive 0 t in
  let live := filter (λ kv, clock s < kv.2) (avoided t) in
  let t := set_avoided (match current t with
                        | Some index => <[index := clock s + QUARANTINE]> live
                        | None => live
                        end) t in
  let '(t, found) := find_replacement (candidate s) (finishing s) (clock_retry s) nodes t in
  match found with
  | Some (index, ms) =>
      match factory s index with
      | Some o =>
          if negb (at_swap s =? snapshot s) then (t, None, [])
          else (remember index (set_current (Some index) (set_last o t)), Some o, [AutoSwitched index ms])
      | None => (t, None, [SwitchFailed])
      end
  | None => (t, None, [SwitchFailed])
  end.

(** [probe_once], when shutdown is not signalled: the tracker, the outbound
    swapped in, the events sent. *)
Definition probe_once (auto_switch : bool) (s : Surroundings) (nodes : list Node) (t : FailureTracker)
    : FailureTracker * option outbound * list HealthEvent :=
  let t := adopt s t in
  if negb (after_probe s =? snapshot s) then (t, None, [])
  else
    match confirm_probe auto_switch (probed s) (confirmed s) with
    | Some ms =>
        let t := record_success t in
        (match current t with Some index => remember index t | None => t end, None, [ProbeOk ms])
    | None =>
        let '(should_switch, t) := record_failure t in
        let failed := ProbeFailed (consecutive t) in
        if negb (should_switch && auto_switch) then (t, None, [failed])
        else
          let '(t, swap, events) := fail_over s nodes t in
          (t, swap, failed :: events)
    end.

(** ** The monitor's task *)

(** [run]: the tracker, for a sequence of probes; the time between two probes is
    the timer's. *)
Definition run_from (auto_switch : bool) (nodes : list Node) (t : FailureTracker)
    (ticks : list Surroundings) : FailureTracker :=
  fold_left (λ t s, (probe_once auto_switch s nodes t).1.1) ticks t.

Definition run (auto_switch : bool) (failure_threshold : Z) (active_node : option nat)
    (nodes : list Node) (ticks : list Surroundings) : FailureTracker :=
  run_from auto_switch nodes (set_current active_node (FailureTracker_new failure_threshold)) ticks.
End health.
