(* ===== verification/HealthSpec.v ===== *)
(** * Health checks and failover: what the monitor guarantees

    A round of probes is described by the candidates it scheduled, a prefix of the
    rotated order; the tracker's counter is bounded by the failures that a look at
    the past probes finds. *)
From S2P Require Import Prelude Bytes Sorting Health.

Section spec.
Context {Node Key : Type} `{Countable Key}.
Context (latency_ms : Node → option Z) (node_fingerprint : Node → Key).
Notation find_best_node := (find_best_node latency_ms).
Notation eligible_candidates := (eligible_candidates node_fingerprint).
Notation find_replacement := (find_replacement latency_ms node_fingerprint).
Notation probe_once := (probe_once latency_ms node_fingerprint).
Notation fail_over := (fail_over latency_ms node_fingerprint).
Notation run_from := (run_from latency_ms node_fingerprint).
Notation run := (run latency_ms node_fingerprint).

(** ** Candidates *)
Lemma elem_of_first_seen seen l i node :
  (i, node) ∈ first_seen node_fingerprint seen l → (i, node) ∈ l ∧ node_fingerprint node ∉ seen.
Proof.
  revert seen; induction l as [|[j n] l IH]; intros seen; simpl; [by intros ?%not_elem_of_nil|].
  case_bool_decide.
  - intros [Hl Hs]%IH. split; [by right|done].
  - intros [[= -> ->]|Hin]%elem_of_cons; [split; [by left|done]|].
    apply IH in Hin as [Hl Hs]. split; [by right|set_solver].
Qed.

Lemma elem_of_imap_pair {A} (l : list A) i x :
  (i, x) ∈ imap (λ i x, (i, x)) l ↔ l !! i = Some x.
Proof.
  rewrite list_elem_of_lookup. setoid_rewrite list_lookup_imap. split.
  - intros [k (y & Hy & [= -> ->])%fmap_Some]. done.
  - intros Hx. exists i. by rewrite Hx.
Qed.

Lemma elem_of_excluded nodes av i node :
  nodes !! i = Some node → is_Some (av !! i) → node_fingerprint node ∈ excluded node_fingerprint nodes av.
Proof.
  intros Hn [z Hz]. apply elem_of_list_to_set, list_elem_of_omap.
  exists i. split; [|by rewrite Hn].
  apply list_elem_of_fmap. exists (i, z). split; [done|by apply elem_of_map_to_list].
Qed.

Lemma elem_of_eligible nodes av i node :
  (i, node) ∈ eligible_candidates nodes av →
  nodes !! i = Some node ∧ av !! i = None ∧ node_fingerprint node ∉ excluded node_fingerprint nodes av.
Proof.
  intros [Hin%elem_of_imap_pair Hk]%elem_of_first_seen. split; [done|]. split; [|done].
  apply eq_None_not_Some. intros Hs. by eapply Hk, elem_of_excluded.
Qed.

(** ** A round of probes *)
Lemma fill_spec fuel count r :
  let r' := fill fuel count r in
  running r' ++ waiting r' = running r ++ waiting r ∧ best r' = best r ∧
  (length (running r) ≤ 4 → length (running r') ≤ 4)%nat ∧
  (4 ≤ fuel + length (running r) → waiting r' = [] ∨ 4 ≤ length (running r'))%nat.
Proof.
  revert r; induction fuel as [|fuel IH]; intros r; simpl.
  { split_and!; [done..|]. right. done. }
  destruct (length (running r) <? MAX_PROBES)%nat eqn:Hlt; unfold MAX_PROBES in Hlt.
  - apply Nat.ltb_lt in Hlt. destruct (waiting r) as [|i w] eqn:Hw.
    { rewrite Hw. split_and!; [done..|by left]. }
    match goal with |- context [fill fuel count ?x] => destruct (IH x) as (E & Hb & Hle & Hfull) end.
    simpl in *. rewrite length_app in Hle, Hfull. simpl in *.
    split_and!; [by rewrite E, <- app_assoc|done|intros; apply Hle; lia|intros; apply Hfull; lia].
  - apply Nat.ltb_ge in Hlt. split_and!; [done..|]. intros; by right.
Qed.

#[local] Arguments fill : simpl never.
#[local] Arguments Health.fail_over : simpl never.

Lemma round_unfold probe count order r :
  round probe count order r =
  let r := fill MAX_PROBES count r in
  match order, running r with
  | k :: order, _ :: _ =>
      let k := (k mod length (running r))%nat in
      match running r !! k with
      | Some index =>
          round probe count order
            {| waiting := waiting r; running := delete k (running r); cursor := cursor r;
               best := better ((λ ms, (index, ms)) <$> probe index) (best r) |}
      | None => r
      end
  | _, _ => r
  end.
Proof. by destruct order. Qed.

Definition no_worse (found : option (nat * Z)) (m : Z) : Prop := ∃ i ms, found = Some (i, ms) ∧ ms ≤ m.

Lemma better_spec result b :
  (better result b = result ∨ better result b = b) ∧
  (∀ i m, result = Some (i, m) → no_worse (better result b) m) ∧
  (∀ m, no_worse b m → no_worse (better result b) m).
Proof.
  unfold no_worse, better. destruct result as [[i m]|], b as [[j n]|]; simpl;
    try destruct (Z.ltb_spec m n); split_and!; naive_solver lia.
Qed.

Lemma round_found probe count order r i ms :
  best (round probe count order r) = Some (i, ms) →
  best r = Some (i, ms) ∨ i ∈ running r ++ waiting r ∧ probe i = Some ms.
Proof.
  revert r; induction order as [|k order IH]; intros r; rewrite round_unfold; simpl;
    destruct (fill_spec MAX_PROBES count r) as (E & Hb & _); set (r' := fill _ _ r) in *.
  { rewrite Hb. by left. }
  destruct (running r') as [|x xs] eqn:Hr; [rewrite Hb; by left|].
  change (x :: xs ++ ?l) with ((x :: xs) ++ l) in E. rewrite <- Hr in E |- *.
  destruct (running r' !! _) as [index|] eqn:Hi; [|rewrite Hb; by left].
  intros [Hbest|[Hin Hp]]%IH; simpl in *.
  - destruct (better_spec ((λ ms, (index, ms)) <$> probe index) (best r')) as [[E'|E'] _]; rewrite E' in Hbest.
    + apply fmap_Some in Hbest as (m & Hm & [= -> ->]). right. split; [|done].
      rewrite <- E. apply elem_of_app. left. by eapply list_elem_of_lookup_2.
    + left. congruence.
  - right. split; [|done]. rewrite <- E. apply elem_of_app in Hin. apply elem_of_app.
    destruct Hin as [Hin|]; [left|by right]. by eapply list_elem_of_delete_inv.
Qed.

Lemma no_worse_trans b m m' : no_worse b m → m ≤ m' → no_worse b m'.
Proof. intros (i & ms & E & Hle) ?. exists i, ms. split; [done|lia]. Qed.

(** With an order long enough to see every probe end, nothing reachable is faster. *)
Lemma round_complete probe count order r :
  (length (running r) + length (waiting r) ≤ length order)%nat →
  let r' := round probe count order r in
  waiting r' = [] ∧
  (∀ i m, i ∈ running r ++ waiting r → probe i = Some m → no_worse (best r') m) ∧
  (∀ m, no_worse (best r) m → no_worse (best r') m).
Proof.
  revert r; induction order as [|k order IH]; intros r Hlen; rewrite round_unfold; simpl in *;
    destruct (fill_spec MAX_PROBES count r) as (E & Hb & _ & Hfull); set (r' := fill _ _ r) in *;
    apply (f_equal length) in E as El; rewrite !length_app in El; specialize (Hfull ltac:(unfold MAX_PROBES; lia)).
  { assert (running r = [] ∧ waiting r = [] ∧ waiting r' = []) as (Er & Ew & Hw).
    { split_and!; apply nil_length_inv; lia. }
    rewrite Hb, Hw, Er, Ew. split_and!; [done| |done]. by intros i m ?%not_elem_of_nil. }
  destruct (running r') as [|x xs] eqn:Hr.
  { assert (waiting r' = []) as Hw by (destruct Hfull as [|Hfull]; [done|simpl in Hfull; lia]).
    simpl in E. rewrite Hw in *. rewrite Hb, <- E. split_and!; [done| |done].
    by intros i m ?%not_elem_of_nil. }
  rewrite <- Hr in *. assert (length (running r') ≠ 0%nat) as Hne by (rewrite Hr; done).
  destruct (running r' !! _) as [index|] eqn:Hi.
  2:{ apply lookup_ge_None in Hi. pose proof (Nat.mod_upper_bound k _ Hne). lia. }
  apply delete_Permutation in Hi as HP.
  match goal with |- context [round probe count order ?x] => destruct (IH x) as (Hw & Hin & Hold) end.
  { simpl. rewrite HP in El. simpl in El. lia. }
  clear IH. simpl in *. destruct (better_spec ((λ ms, (index, ms)) <$> probe index) (best r')) as (_ & Hnew & Hkeep).
  split_and!; [done| |rewrite <- Hb; auto].
  intros i m Hel Hp. rewrite <- E, HP in Hel. simpl in Hel.
  apply elem_of_cons in Hel as [->|Hel]; [|by eapply Hin].
  apply Hold, Hnew with (i := index). by rewrite Hp.
Qed.

Lemma round_concurrency probe count order r :
  (length (running r) ≤ 4 → length (running (round probe count order r)) ≤ 4)%nat.
Proof.
  revert r; induction order as [|k order IH]; intros r Hr; rewrite round_unfold; simpl in *;
    destruct (fill_spec MAX_PROBES count r) as (_ & _ & Hle & _); specialize (Hle Hr); [done|].
  set (r' := fill _ _ r) in *. destruct (running r') as [|x xs] eqn:E; [by rewrite E|]. rewrite <- E in *.
  destruct (running r' !! _) eqn:Hi; [|done]. apply IH. simpl.
  pose proof (length_delete (running r') (k mod length (running r')) ltac:(by eexists)). lia.
Qed.

(** ** The best node and the replacement *)
Lemma sort_imap_perm {A} (le : nat * A → nat * A → bool) (l : list A) n :
  (rotate_left n (sort_by le (imap (λ i x, (i, x)) l))) ≡ₚ imap (λ i x, (i, x)) l.
Proof.
  unfold rotate_left. rewrite (Permutation_app_comm (drop _ _)), take_drop. apply sort_by_perm.
Qed.

Lemma find_best_node_spec probe order (nodes : list Node) c :
  let found := (find_best_node probe order nodes c).2 in
  (∀ i ms, found = Some (i, ms) → probe i = Some ms ∧ (i < length nodes)%nat) ∧
  ((length nodes ≤ length order)%nat → ∀ i m, (i < length nodes)%nat → probe i = Some m → no_worse found m).
Proof.
  unfold Health.find_best_node. set (ordered := sort_by _ _).
  assert (ordered ≡ₚ imap (λ i node, (i, node)) nodes) as HP by apply sort_by_perm.
  destruct ordered as [|o os] eqn:Ho.
  { apply Permutation_nil_l in HP. apply (f_equal length) in HP. rewrite length_imap in HP.
    simpl. split; [done|]. destruct nodes; [simpl; lia|done]. }
  rewrite <- Ho in *. clear Ho o os. cbn zeta.
  match goal with |- context [round probe ?n order ?x] => set (r := round probe n order x); set (r0 := x) in * end.
  assert (Hin : ∀ i, i ∈ waiting r0 ↔ (i < length nodes)%nat).
  { intros i. simpl. unfold ordered. rewrite sort_imap_perm, list_elem_of_fmap. split.
    - intros ([j y] & -> & Hj%elem_of_imap_pair). by eapply lookup_lt_Some.
    - intros [y Hy]%lookup_lt_is_Some. exists (i, y). split; [done|by apply elem_of_imap_pair]. }
  simpl. split.
  - intros i ms Hf. apply round_found in Hf as [?|[Hw Hp]]; [done|]. split; [done|]. by apply Hin.
  - intros Hlen i m Hi Hp. apply (round_complete probe (length ordered) order r0) with (i := i).
    + simpl. rewrite length_fmap. unfold ordered. rewrite sort_imap_perm, length_imap. lia.
    + by apply Hin.
    + done.
Qed.

(** A candidate the code may dial: its own endpoint and key are not quarantined. *)
Definition among (cand : nat → option Z) (order : list nat) (nodes : list Node) (av : gmap nat Z)
    (found : option (nat * Z)) : Prop :=
  (∀ i ms, found = Some (i, ms) →
     cand i = Some ms ∧ ∃ node, (i, node) ∈ eligible_candidates nodes av) ∧
  ((length nodes ≤ length order)%nat →
     ∀ i node m, (i, node) ∈ eligible_candidates nodes av → cand i = Some m → no_worse found m).

Lemma length_eligible nodes av : (length (eligible_candidates nodes av) ≤ length nodes)%nat.
Proof.
  unfold Health.eligible_candidates. rewrite <- (length_imap (λ i node, (i, node)) nodes).
  generalize (imap (λ i node, (i, node)) nodes); intros l.
  generalize (excluded node_fingerprint nodes av); intros seen. revert seen.
  induction l as [|[i n] l IH]; intros seen; simpl; [lia|].
  case_bool_decide; simpl; [pose proof (IH seen)|pose proof (IH ({[node_fingerprint n]} ∪ seen))]; lia.
Qed.

Lemma among_spec cand order nodes av c :
  let available := eligible_candidates nodes av in
  let found := (find_best_node (λ k, '(i, _) ← available !! k; cand i) order available.*2 c).2 in
  among cand order nodes av ('(k, ms) ← found; '(i, _) ← available !! k; Some (i, ms)).
Proof.
  intros available found.
  destruct (find_best_node_spec (λ k, '(i, _) ← available !! k; cand i) order available.*2 c) as [Hsome Hbest].
  fold found in Hsome, Hbest. rewrite length_fmap in *. split.
  - intros i ms Hf. destruct found as [[k m]|]; simpl in Hf; [|done].
    destruct (Hsome k m eq_refl) as [Hp _].
    destruct (available !! k) as [[j node]|] eqn:Hk; simpl in *; [|done].
    injection Hf as <- <-. split; [done|]. exists node. by eapply list_elem_of_lookup_2.
  - intros Hlen i node m [k Hk]%list_elem_of_lookup_1 Hm.
    assert (no_worse found m) as (k' & ms & Hf & Hle).
    { apply Hbest with (i := k); [|by eapply lookup_lt_Some|unfold available; by rewrite Hk].
      pose proof (length_eligible nodes av). fold available in H0. lia. }
    destruct (Hsome k' ms Hf) as [_ Hlt]. apply lookup_lt_is_Some in Hlt as [[j n] Hj].
    exists j, ms. split; [|done]. rewrite Hf. simpl. by rewrite Hj.
Qed.

(** The node used most recently among those not quarantined. *)
Definition last_good (t : FailureTracker) : option nat :=
  head (List.filter (λ i, bool_decide (avoided t !! i = None)) (recent t)).

Definition same_but_search (t t' : FailureTracker) : Prop :=
  threshold t' = threshold t ∧ consecutive t' = consecutive t ∧ current t' = current t ∧
  recent t' = recent t ∧ last_outbound t' = last_outbound t ∧
  (∀ i, is_Some (avoided t !! i) → avoided t' !! i = avoided t !! i).

Lemma head_filter_spec {A} (p : A → bool) l x : head (List.filter p l) = Some x → x ∈ l ∧ p x = true.
Proof.
  induction l as [|y l IH]; simpl; [done|]. destruct (p y) eqn:E; simpl.
  - intros [= ->]. split; [by left|done].
  - intros [Hx Hp]%IH. split; [by right|done].
Qed.

(** The outcome of the search, by the way it was found. *)
Inductive replaced (cand : nat → option Z) (order : list nat) (now : Z) (nodes : list Node)
    (t t' : FailureTracker) (found : option (nat * Z)) : Prop :=
  | reused i ms :
      last_good t = Some i → (i < length nodes)%nat → cand i = Some ms →
      t' = t → found = Some (i, ms) → replaced cand order now nodes t t' found
  | searched :
      (∀ i, last_good t = Some i → (i < length nodes)%nat → cand i = None ∧ avoided t' !! i = Some (now + QUARANTINE)) →
      same_but_search t t' → among cand order nodes (avoided t') found →
      replaced cand order now nodes t t' found.

Lemma find_replacement_replaced cand order now nodes t :
  let '(t', found) := find_replacement cand order now nodes t in
  replaced cand order now nodes t t' found.
Proof.
  assert (Hsearch : ∀ t0, same_but_search t t0 →
    (∀ i, last_good t = Some i → (i < length nodes)%nat → cand i = None ∧ avoided t0 !! i = Some (now + QUARANTINE)) →
    let '(t', found) :=
      (let available := eligible_candidates nodes (avoided t0) in
       let '(c, found) :=
         find_best_node (λ k, '(i, _) ← available !! k; cand i) order available.*2 (candidate_cursor t0) in
       (set_cursor c t0, '(k, ms) ← found; '(i, _) ← available !! k; Some (i, ms))) in
    replaced cand order now nodes t t' found).
  { intros t0 Hsame Hlast. pose proof (among_spec cand order nodes (avoided t0) (candidate_cursor t0)) as Ham.
    cbn zeta in *. destruct (find_best_node _ _ _ _) as [c found]. simpl in *. apply searched; [done..|exact Ham]. }
  assert (Hrefl : same_but_search t t) by (by split_and!).
  unfold Health.find_replacement. fold (last_good t). destruct (last_good t) as [i|] eqn:Hl.
  2:{ apply Hsearch; [done|]. intros i [=]. }
  destruct (nodes !! i) as [node|] eqn:Hi.
  2:{ apply Hsearch; [done|]. intros j [= ->] Hlt%lookup_lt_is_Some. rewrite Hi in Hlt. by destruct Hlt. }
  destruct (cand i) as [ms|] eqn:Hc.
  { eapply reused; [done|by eapply lookup_lt_Some|done..]. }
  apply Hsearch.
  - split_and!; [done..|]. intros j Hj. simpl. rewrite lookup_insert_ne; [done|]. intros ->.
    apply head_filter_spec in Hl as [_ Hn]. apply bool_decide_eq_true in Hn. rewrite Hn in Hj. by destruct Hj.
  - intros j [= ->] _. split; [done|]. simpl. apply lookup_insert_eq.
Qed.

(** The replacement the search proposes answered its probe just now and is not
    quarantined; it is either the last node known to work or the fastest of the
    eligible ones, none of which the search overlooks once every probe has ended;
    with nothing reachable it proposes nothing. *)
Theorem health_replacement_spec cand order now nodes t t' found :
  find_replacement cand order now nodes t = (t', found) →
  (∀ i ms, found = Some (i, ms) →
     (i < length nodes)%nat ∧ cand i = Some ms ∧ avoided t' !! i = None ∧
     (last_good t = Some i ∨ ∃ node, (i, node) ∈ eligible_candidates nodes (avoided t'))) ∧
  ((length nodes ≤ length order)%nat → ∀ j node m,
     (j, node) ∈ eligible_candidates nodes (avoided t') → cand j = Some m →
     ∃ i ms, found = Some (i, ms) ∧ (last_good t = Some i ∨ ms ≤ m)).
Proof.
  intros E. pose proof (find_replacement_replaced cand order now nodes t) as HR. rewrite E in HR.
  destruct HR as [i ms Hl Hlt Hc -> ->|Hlast Hsame [Hsome Hbest]].
  - split.
    + intros ? ? [= <- <-]. split_and!; [done..| |by left].
      apply head_filter_spec in Hl as [_ Hn]. by apply bool_decide_eq_true in Hn.
    + intros _ j node m _ _. exists i, ms. split; [done|by left].
  - split.
    + intros i ms Hf. destruct (Hsome i ms Hf) as [Hc [node Hel]].
      destruct (elem_of_eligible _ _ _ _ Hel) as (Hn & Hav & _).
      split_and!; [by eapply lookup_lt_Some|done|done|right; by exists node].
    + intros Hlen j node m Hel Hm. destruct (Hbest Hlen j node m Hel Hm) as (i & ms & Hf & Hle).
      exists i, ms. split; [done|by right].
Qed.

(** ** The failures behind a switch *)

Section ticks.
Context (auto_switch : bool).

(** Failed checks of [o], latest first, since its last success or since another
    outbound was active; a check overtaken by a switch does not count. *)
Fixpoint failures_of (o : outbound) (past : list Surroundings) : Z :=
  match past with
  | [] => 0
  | s :: past =>
      if negb (snapshot s =? o) then 0
      else if negb (after_probe s =? o) then failures_of o past
      else match confirm_probe auto_switch (probed s) (confirmed s) with
           | Some _ => 0
           | None => 1 + failures_of o past
           end
  end.

Lemma failures_nonneg o past : 0 ≤ failures_of o past.
Proof. induction past as [|s past IH]; simpl; [lia|]. repeat case_match; lia. Qed.

(** The counter never exceeds the failures of the outbound the tracker saw last. *)
Definition counted (past : list Surroundings) (t : FailureTracker) : Prop :=
  match last_outbound t with
  | Some o => consecutive t ≤ failures_of o past
  | None => consecutive t = 0
  end.

Lemma adopt_counted past s t :
  counted past t →
  consecutive (adopt s t) ≤ failures_of (snapshot s) past ∧ last_outbound (adopt s t) = Some (snapshot s) ∧
  threshold (adopt s t) = threshold t.
Proof.
  unfold counted, adopt. pose proof (failures_nonneg (snapshot s) past).
  destruct (last_outbound t) as [o|]; [|simpl; intros ->; split_and!; done].
  intros ?. destruct (Z.eqb_spec o (snapshot s)) as [->|]; simpl; split_and!; done.
Qed.

Lemma fail_over_spec s nodes t t' swap events :
  fail_over s nodes t = (t', swap, events) →
  consecutive t' = 0 ∧ threshold t' = threshold t ∧
  match swap with
  | None => last_outbound t' = last_outbound t
  | Some o => ∃ index ms, events = [AutoSwitched index ms] ∧ at_swap s = snapshot s ∧
      factory s index = Some o ∧ candidate s index = Some ms ∧ (index < length nodes)%nat ∧
      avoided t' !! index = None ∧ current t' = Some index ∧ last_outbound t' = Some o ∧
      (∀ old, current t = Some old → avoided t' !! old = Some (clock s + QUARANTINE))
  end.
Proof.
  unfold Health.fail_over.
  match goal with |- context [Health.find_replacement _ _ _ _ _ _ ?x] => set (t1 := x) end.
  pose proof (find_replacement_replaced (candidate s) (finishing s) (clock_retry s) nodes t1) as HR.
  destruct (find_replacement _ _ _ _ t1) as [t2 found] eqn:E.
  assert (Ht2 : same_but_search t1 t2).
  { destruct HR as [? ? _ _ _ -> _|_ ? _]; [by split_and!|done]. }
  destruct Ht2 as (Hth & Hc & Hcur & Hr & Hlo & Hav).
  assert (Hfound : ∀ i ms, found = Some (i, ms) →
    (i < length nodes)%nat ∧ candidate s i = Some ms ∧ avoided t2 !! i = None).
  { intros i ms Hf. destruct HR as [j n Hl Hlt Hcj -> Hf'|_ _ [Hsome _]].
    - rewrite Hf in Hf'. injection Hf' as <- <-. split_and!; [done..|].
      apply head_filter_spec in Hl as [_ Hn]. by apply bool_decide_eq_true in Hn.
    - destruct (Hsome i ms Hf) as [Hci [node (Hn & Ha & _)%elem_of_eligible]].
      split_and!; [by eapply lookup_lt_Some|done|done]. }
  destruct found as [[i ms]|]; [|intros [= <- <- <-]; done].
  destruct (Hfound i ms eq_refl) as (Hlt & Hci & Hai).
  destruct (factory s i) as [o|] eqn:Hfac; [|intros [= <- <- <-]; done].
  destruct (Z.eqb_spec (at_swap s) (snapshot s)) as [Has|]; simpl; intros [= <- <- <-]; simpl; [|done].
  split_and!; [done..|]. exists i, ms. split_and!; [done..|].
  intros old Hold. assert (avoided t1 !! old = Some (clock s + QUARANTINE)) as Hq.
  { simpl. rewrite Hold. apply lookup_insert_eq. }
  rewrite Hav; [done|by rewrite Hq].
Qed.

Lemma probe_once_counted s nodes past t :
  counted past t → 1 ≤ threshold t →
  counted (s :: past) (probe_once auto_switch s nodes t).1.1 ∧
  threshold (probe_once auto_switch s nodes t).1.1 = threshold t.
Proof.
  intros Hcount Hthr. destruct (adopt_counted past s t Hcount) as (Hle & Hlast & Hth).
  unfold Health.probe_once. set (ta := adopt s t) in *. clearbody ta. rewrite <- Hth in *. clear Hth.
  unfold counted. destruct (Z.eqb_spec (after_probe s) (snapshot s)) as [Ha|Ha]; simpl.
  2:{ rewrite Hlast, Z.eqb_refl. simpl. destruct (Z.eqb_spec (after_probe s) (snapshot s)); [done|]. by split. }
  destruct (confirm_probe auto_switch (probed s) (confirmed s)) as [ms|] eqn:Hp; simpl.
  { destruct (current ta); simpl; rewrite Hlast, Z.eqb_refl, Ha, Z.eqb_refl; simpl; done. }
  destruct (_ && _) eqn:Hsw; simpl.
  2:{ rewrite Hlast, Z.eqb_refl, Ha, Z.eqb_refl. simpl. lia. }
  match goal with |- context [Health.fail_over _ _ s nodes ?x] =>
    destruct (fail_over s nodes x) as [[t' swap] events] eqn:E end.
  apply fail_over_spec in E as (Hc & Hth & Hs). simpl. rewrite Hth, Hc. split; [|done].
  destruct (last_outbound t'); [pose proof (failures_nonneg o past); repeat case_match; lia|done].
Qed.

Lemma run_counted nodes threshold_ active ticks :
  counted (rev ticks) (run auto_switch threshold_ active nodes ticks) ∧
  threshold (run auto_switch threshold_ active nodes ticks) = Z.max threshold_ 1.
Proof.
  unfold Health.run, Health.run_from. induction ticks as [|s ticks IH] using rev_ind; [done|].
  rewrite fold_left_app, rev_app_distr. simpl. destruct IH as [Hc Ht]. rewrite <- Ht.
  apply probe_once_counted; [done|lia].
Qed.

(** C39. The monitor switches only when it may: automatic switching is on, the check
    failed twice, the last checks of this very outbound include as many failures
    as the threshold since its last success, nobody switched meanwhile; and the
    switch goes to a valid node other than the failed one, that answered its
    probe, through the outbound built for it, the failed node being quarantined. *)
Theorem health_failover_spec nodes threshold_ active ticks s t' o events :
  probe_once auto_switch s nodes (run auto_switch threshold_ active nodes ticks) = (t', Some o, events) →
  auto_switch = true ∧ probed s = None ∧ confirmed s = None ∧
  after_probe s = snapshot s ∧ at_swap s = snapshot s ∧
  Z.max threshold_ 1 ≤ failures_of (snapshot s) (s :: rev ticks) ∧
  consecutive t' = 0 ∧ last_outbound t' = Some o ∧
  ∃ index ms, current t' = Some index ∧ (index < length nodes)%nat ∧
    factory s index = Some o ∧ candidate s index = Some ms ∧ avoided t' !! index = None ∧
    (∃ n, events = [ProbeFailed n; AutoSwitched index ms]) ∧
    (∀ old, current (adopt s (run auto_switch threshold_ active nodes ticks)) = Some old →
       old ≠ index ∧ avoided t' !! old = Some (clock s + QUARANTINE)).
Proof.
  destruct (run_counted nodes threshold_ active ticks) as [Hcount Hthr].
  set (t := run _ _ _ _ _) in *. clearbody t.
  destruct (adopt_counted _ s t Hcount) as (Hle & _ & Hth). unfold Health.probe_once.
  set (ta := adopt s t) in *. clearbody ta. simpl failures_of. rewrite Z.eqb_refl. simpl.
  destruct (Z.eqb_spec (after_probe s) (snapshot s)) as [Ha|Ha]; simpl; [|done].
  destruct (confirm_probe auto_switch (probed s) (confirmed s)) as [ms|] eqn:Hp; simpl; [done|].
  destruct (_ && auto_switch) eqn:Hsw; simpl; [|done].
  apply andb_true_iff in Hsw as [Hn%Z.leb_le ->].
  match goal with |- context [Health.fail_over _ _ s nodes ?x] =>
    destruct (fail_over s nodes x) as [[t2 swap] events'] eqn:E end.
  intros [= <- -> <-]. apply fail_over_spec in E as (Hc & _ & Hs). simpl in Hs.
  destruct Hs as (index & n & -> & Hat & Hf & Hcand & Hlt & Hav & Hcur & Hlast & Hold).
  unfold confirm_probe in Hp. destruct (probed s) eqn:Hpr; [done|].
  split_and!; [done..|lia|done|done|].
  exists index, n. split_and!; [done..|by eexists|].
  intros old Ho. specialize (Hold old Ho). split; [|done]. intros ->. congruence.
Qed.
End ticks.
End spec.

(** ** Witnesses: two nodes, the first one failing *)
Definition sample_tick (now : Z) : Surroundings :=
  {| snapshot := 1; after_probe := 1; at_swap := 1; probed := None; confirmed := None;
     candidate := λ i, if (i =? 1)%nat then Some 40 else None; finishing := [0%nat; 0%nat];
     factory := λ i, Some (10 + Z.of_nat i); clock := now; clock_retry := now |}.

Definition sample_once (t : FailureTracker) :=
  probe_once (λ _ : Z, None) id true (sample_tick 30) [100; 200] t.

Definition sample_run := run (λ _ : Z, None) id true 2 (Some 0%nat) [100; 200] [sample_tick 0].

Lemma health_failover_spec_witness :
  ∃ t' events, sample_once sample_run = (t', Some 11, events) ∧
    2 ≤ failures_of true 1 [sample_tick 30; sample_tick 0] ∧ current t' = Some 1%nat.
Proof.
  destruct (sample_once sample_run) as [[t' swap] events] eqn:E.
  assert (swap = Some 11) as -> by (vm_compute in E; congruence).
  exists t', events. split; [done|].
  destruct (health_failover_spec (λ _ : Z, None) id true [100; 200] 2 (Some 0%nat) [sample_tick 0]
    (sample_tick 30) t' 11 events E) as (_ & _ & _ & _ & _ & Hn & _ & _ & i & ms & Hc & _ & Hf & _).
  split; [exact Hn|]. rewrite Hc. f_equal. simpl in Hf. injection Hf as Hf. lia.
Defined.

Lemma health_replacement_spec_witness :
  ∃ t', find_replacement (λ _ : Z, None) id (λ i, if (i =? 1)%nat then Some 40 else None) [0%nat; 0%nat] 0
          [100; 200] (FailureTracker_new 2) = (t', Some (1%nat, 40)) ∧ avoided t' !! 1%nat = None.
Proof.
  destruct (find_replacement (λ _ : Z, None) id (λ i, if (i =? 1)%nat then Some 40 else None) [0%nat; 0%nat] 0
          [100; 200] (FailureTracker_new 2)) as [t' found] eqn:E.
  assert (found = Some (1%nat, 40)) as -> by (vm_compute in E; congruence).
  exists t'. split; [done|].
  destruct (health_replacement_spec _ _ _ _ _ _ _ _ _ E) as [Hf _]. by apply (Hf 1%nat 40).
Defined.
