(* ===== verification/AsyncIo.v ===== *)
(** * Polled byte streams

    The [AsyncRead] and [AsyncWrite] traits of tokio as the code uses them: a
    poll is pending, or ready with a value or an error.  A stream is what its
    polls will answer, an arbitrary list; the bytes it has accepted are kept.
    When the list is exhausted a poll is pending.  An empty chunk is the end of
    the stream; a chunk larger than the reader's buffer is delivered in parts. *)
From S2P Require Import Prelude Bytes.

Inductive poll (A : Type) := Pending | Ready (result : outcome A).
Arguments Pending {A}.
Arguments Ready {A} result.

Inductive read_event := Chunk (bs : bytes) | ReadPending | ReadFailed (e : string).
Inductive write_event := Accept (n : nat) | WritePending | WriteFailed (e : string).

Record Raw := { incoming : list read_event; answers : list write_event; sent : bytes }.

(** [poll_read] into a buffer with room for [n] bytes. *)
Definition raw_read (n : Z) (r : Raw) : poll bytes * Raw :=
  match incoming r with
  | [] => (Pending, r)
  | ReadPending :: rest => (Pending, {| incoming := rest; answers := answers r; sent := sent r |})
  | ReadFailed e :: rest => (Ready (Err e), {| incoming := rest; answers := answers r; sent := sent r |})
  | Chunk bs :: rest =>
      if len bs <=? n
      then (Ready (Ok bs), {| incoming := rest; answers := answers r; sent := sent r |})
      else (Ready (Ok (take (Z.to_nat n) bs)),
            {| incoming := Chunk (drop (Z.to_nat n) bs) :: rest; answers := answers r; sent := sent r |})
  end.

(** [poll_write]: accepts a prefix of [bs], possibly an empty one. *)
Definition raw_write (bs : bytes) (r : Raw) : poll Z * Raw :=
  match answers r with
  | [] => (Pending, r)
  | WritePending :: rest => (Pending, {| incoming := incoming r; answers := rest; sent := sent r |})
  | WriteFailed e :: rest => (Ready (Err e), {| incoming := incoming r; answers := rest; sent := sent r |})
  | Accept n :: rest =>
      (Ready (Ok (len (take n bs))),
       {| incoming := incoming r; answers := rest; sent := sent r ++ take n bs |})
  end.

Definition raw_flush (r : Raw) : poll unit * Raw :=
  match answers r with
  | [] => (Pending, r)
  | WritePending :: rest => (Pending, {| incoming := incoming r; answers := rest; sent := sent r |})
  | WriteFailed e :: rest => (Ready (Err e), {| incoming := incoming r; answers := rest; sent := sent r |})
  | Accept _ :: rest => (Ready (Ok tt), {| incoming := incoming r; answers := rest; sent := sent r |})
  end.

(** The bytes that will arrive, whatever the cuts. *)
Definition arriving (r : Raw) : bytes :=
  flat_map (λ e, match e with Chunk bs => bs | _ => [] end) (incoming r).

(** Polls until the result is ready; [None] when the time for it runs out after
    [budget] polls. *)
Fixpoint await {S A} (budget : nat) (f : S → poll A * S) (s : S) : option (outcome A) * S :=
  match budget with
  | O => (None, s)
  | S budget => match f s with (Pending, s) => await budget f s | (Ready o, s) => (Some o, s) end
  end.

(** One poll after another, each with its argument. *)
Fixpoint polls {S A B} (f : A → S → B * S) (xs : list A) (s : S) : list B * S :=
  match xs with
  | [] => ([], s)
  | x :: xs => let '(r, s) := f x s in let '(rs, s) := polls f xs s in (r :: rs, s)
  end.

(** The bytes reads handed over. *)
Definition delivered (rs : list (poll bytes)) : bytes :=
  flat_map (λ r, match r with Ready (Ok bs) => bs | _ => [] end) rs.

Lemma raw_read_arriving n r p r' :
  0 <= n → raw_read n r = (p, r') →
  answers r' = answers r ∧ sent r' = sent r ∧
  match p with
  | Ready (Ok bs) => arriving r = bs ++ arriving r' ∧ len bs <= n
  | Pending | Ready (Err _) => arriving r' = arriving r
  | _ => False
  end.
Proof.
  intros Hn. unfold raw_read, arriving. destruct (incoming r) as [|[bs| |e] rest] eqn:E; simpl.
  - intros [= <- <-]. by rewrite E.
  - destruct (Z.leb_spec (len bs) n); intros [= <- <-]; simpl; split_and!; try done.
    + by rewrite app_assoc, take_drop.
    + unfold len in *. rewrite length_take. lia.
  - by intros [= <- <-].
  - by intros [= <- <-].
Qed.

Lemma raw_write_sent bs r p r' :
  raw_write bs r = (p, r') →
  incoming r' = incoming r ∧
  match p with
  | Ready (Ok n) => 0 <= n <= len bs ∧ sent r' = sent r ++ take (Z.to_nat n) bs
      ∧ length (answers r) = S (length (answers r'))
  | Pending | Ready (Err _) => sent r' = sent r
  | _ => False
  end.
Proof.
  unfold raw_write. destruct (answers r) as [|[n| |e] rest] eqn:E; intros [= <- <-]; simpl; split_and!; try done.
  - apply len_nonneg.
  - unfold len. rewrite length_take. lia.
  - unfold len. rewrite Nat2Z.id, length_take. f_equal.
    destruct (decide (n <= length bs)%nat); [by rewrite Nat.min_l by lia|].
    by rewrite Nat.min_r, !take_ge by lia.
Qed.

Lemma raw_flush_sent r p r' :
  raw_flush r = (p, r') →
  incoming r' = incoming r ∧ sent r' = sent r ∧
  match p with
  | Ready (Ok _) => length (answers r) = S (length (answers r'))
  | Pending | Ready (Err _) => True
  | _ => False
  end.
Proof. unfold raw_flush. by destruct (answers r) as [|[n| |e] rest] eqn:E; intros [= <- <-]. Qed.

Lemma await_ind {S A} (f : S → poll A * S) (I : S → Prop) budget s o s' :
  (∀ s p s', I s → f s = (p, s') → I s') → I s → await budget f s = (o, s') → I s'.
Proof.
  intros Hf. revert s. induction budget as [|budget IH]; intros s Hs; simpl; [by intros [= _ <-]|].
  destruct (f s) as [[|r] s1] eqn:E; [by apply IH, (Hf _ _ _ Hs E)|]. intros [= _ <-]. by eapply Hf.
Qed.

(** The errors the reads of a stream will give. *)
Definition read_faults (r : Raw) : list string :=
  flat_map (λ e, match e with ReadFailed er => [er] | _ => [] end) (incoming r).

Lemma raw_read_faults n r p r' :
  raw_read n r = (p, r') →
  read_faults r' ⊆ read_faults r ∧ match p with Ready (Err e) => e ∈ read_faults r | _ => True end.
Proof.
  unfold raw_read, read_faults. destruct (incoming r) as [|[bs| |e] rest] eqn:E; simpl.
  - intros [= <- <-]. by rewrite E.
  - by destruct (len bs <=? n); intros [= <- <-].
  - by intros [= <- <-].
  - intros [= <- <-]. simpl. split; [set_solver|apply list_elem_of_here].
Qed.

Lemma raw_write_incoming bs r p r' : raw_write bs r = (p, r') → incoming r' = incoming r.
Proof. unfold raw_write. by destruct (answers r) as [|[n| |e] rest]; intros [= <- <-]. Qed.

(** ** Connections that go on *)
(** No read fails or ends the connection. *)
Definition steady (events : list read_event) : Prop :=
  Forall (λ e, match e with Chunk [] | ReadFailed _ => False | _ => True end) events.

Lemma raw_read_steady n r p r' :
  0 < n → raw_read n r = (p, r') → steady (incoming r) →
  steady (incoming r') ∧ match p with Pending => True | Ready (Ok (_ :: _)) => True | _ => False end.
Proof.
  intros Hn. unfold raw_read, steady. destruct (incoming r) as [|[[|b bs]| |e] rest] eqn:E; simpl.
  - intros [= <- <-] _. by rewrite E.
  - by intros _ [[] _]%Forall_cons.
  - intros Hr [_ Hs]%Forall_cons. destruct (Z.leb_spec (len (b :: bs)) n); injection Hr as <- <-; [done|]. simpl.
    destruct (drop (Z.to_nat n) (b :: bs)) as [|c cs] eqn:Ed.
    { apply (f_equal length) in Ed. rewrite length_drop in Ed. unfold len in *. simpl in *. lia. }
    split; [by constructor|]. destruct (Z.to_nat n) eqn:En; [lia|done].
  - intros [= <- <-] [_ Hs]%Forall_cons. done.
  - by intros _ [[] _]%Forall_cons.
Qed.

(** A read of at most [n] bytes uses up an event, or fills the buffer. *)
Lemma raw_read_event n r bs r' :
  raw_read n r = (Ready (Ok bs), r') → 0 <= n → len bs = n ∨ length (incoming r) = S (length (incoming r')).
Proof.
  unfold raw_read. destruct (incoming r) as [|[b| |e] rest] eqn:E; try done. destruct (Z.leb_spec (len b) n); intros [= <- <-] Hn; [by right|].
  left. unfold len in *. rewrite length_take. lia.
Qed.

(** ** Assembling a buffer *)
(** The loop that reads until a buffer is full: [Ok true] when [buf] has [want] bytes,
    [Ok false] when the connection ended before. *)
Fixpoint fill_loop (fuel : nat) (want : Z) (buf : bytes) (r : Raw) : poll bool * bytes * Raw :=
  match fuel with
  | O => (Ready Diverge, buf, r)
  | S fuel =>
      if len buf <? want then
        match raw_read (want - len buf) r with
        | (Pending, r) => (Pending, buf, r)
        | (Ready (Ok bs), r) => if bool_decide (bs = []) then (Ready (Ok false), buf, r) else fill_loop fuel want (buf ++ bs) r
        | (Ready (Err e), r) => (Ready (Err e), buf, r)
        | (Ready Panic, r) => (Ready Panic, buf, r)
        | (Ready Diverge, r) => (Ready Diverge, buf, r)
        end
      else (Ready (Ok true), buf, r)
  end.

Definition fill (want : Z) (buf : bytes) (r : Raw) : poll bool * bytes * Raw := fill_loop (S (S (length (incoming r)))) want buf r.

Lemma fill_loop_ok fuel want : ∀ buf r p buf' r',
  len buf <= want → (length (incoming r) + (if (len buf <? want)%Z then 1 else 0) < fuel)%nat →
  fill_loop fuel want buf r = (p, buf', r') →
  ∃ bs, buf' = buf ++ bs ∧ arriving r = bs ++ arriving r' ∧ len buf' <= want ∧ sent r' = sent r ∧ answers r' = answers r ∧
    (steady (incoming r) → steady (incoming r')) ∧
    match p with
    | Ready (Ok true) => len buf' = want
    | Pending => len buf' < want
    | Ready (Ok false) | Ready (Err _) => len buf' < want ∧ ¬ steady (incoming r)
    | _ => False
    end.
Proof.
  induction fuel as [|fuel IH]; intros buf r p buf' r' Hl Hf; [lia|]. cbn [fill_loop].
  destruct (Z.ltb_spec (len buf) want) as [Hlt|Hge].
  2: { intros [= <- <- <-]. exists []. rewrite app_nil_r. split_and!; try done. lia. }
  cbn iota in Hf. destruct (raw_read (want - len buf) r) as [pr r1] eqn:E.
  pose proof (raw_read_arriving (want - len buf) _ _ _ ltac:(lia) E) as (Ha & Hs & Hp).
  assert (∀ (Hst : steady (incoming r)), steady (incoming r1) ∧ match pr with Pending => True | Ready (Ok (_ :: _)) => True | _ => False end) as Hst.
  { intros Hst. eapply raw_read_steady; [|done|done]. lia. }
  destruct pr as [|[bs|e| |]]; try done.
  - intros [= <- <- <-]. exists []. rewrite app_nil_r. split_and!; try done. by intros [? _]%Hst.
  - case_bool_decide as Hb.
    + intros [= <- <- <-]. subst bs. exists []. rewrite app_nil_r. destruct Hp as [Hp _]. split_and!; try done; [by intros [? _]%Hst|].
      by intros [_ ?]%Hst.
    + destruct Hp as [Hp Hlb]. intros Hrec. apply IH in Hrec as (bs' & -> & Ha' & Hl' & Hs' & Han' & Hst' & Hres).
      * exists (bs ++ bs'). rewrite app_assoc. split_and!; try done; [by rewrite Hp, Ha', app_assoc|congruence|congruence|by intros [? _]%Hst; auto|].
        destruct p as [|[[]|e| |]]; try done; (split; [apply Hres|]); intros [Hc _]%Hst; by apply Hres.
      * rewrite len_app. lia.
      * destruct (raw_read_event _ _ _ _ E ltac:(lia)) as [Hfull|Hev].
        -- rewrite len_app. replace (len buf + len bs <? want) with false by (symmetry; apply Z.ltb_ge; lia).
           assert (length (incoming r1) <= length (incoming r))%nat; [|lia]. unfold raw_read in E.
           destruct (incoming r) as [|[b| |e] rest]; try done. destruct (len b <=? want - len buf); injection E as _ <-; simpl; lia.
        -- destruct (len (buf ++ bs) <? want)%Z; lia.
  - intros [= <- <- <-]. exists []. rewrite app_nil_r. split_and!; try done; [by intros [? _]%Hst|]. by intros [_ ?]%Hst.
Qed.

Lemma fill_ok want buf r p buf' r' :
  len buf <= want → fill want buf r = (p, buf', r') →
  ∃ bs, buf' = buf ++ bs ∧ arriving r = bs ++ arriving r' ∧ len buf' <= want ∧ sent r' = sent r ∧ answers r' = answers r ∧
    (steady (incoming r) → steady (incoming r')) ∧
    match p with
    | Ready (Ok true) => len buf' = want
    | Pending => len buf' < want
    | Ready (Ok false) | Ready (Err _) => len buf' < want ∧ ¬ steady (incoming r)
    | _ => False
    end.
Proof. intros Hl. apply fill_loop_ok; [done|]. destruct (len buf <? want)%Z; lia. Qed.

Lemma raw_read_sent_same n r p r' : raw_read n r = (p, r') → sent r' = sent r.
Proof. unfold raw_read. destruct (incoming r) as [|[b| |] ?]; [| destruct (len b <=? n)| |]; by intros [= <- <-]. Qed.

Lemma fill_loop_sent fuel want : ∀ buf r p buf' r', fill_loop fuel want buf r = (p, buf', r') → sent r' = sent r.
Proof.
  induction fuel as [|fuel IH]; intros buf r p buf' r'; cbn [fill_loop]; [by intros [= <- <- <-]|].
  destruct (len buf <? want); [|by intros [= <- <- <-]]. destruct (raw_read _ r) as [pr r1] eqn:E. apply raw_read_sent_same in E.
  destruct pr as [|[bs| | |]]; try (by intros [= <- <- <-]). case_bool_decide; [by intros [= <- <- <-]|]. intros ->%IH. done.
Qed.

Lemma fill_sent want buf r p buf' r' : fill want buf r = (p, buf', r') → sent r' = sent r.
Proof. apply fill_loop_sent. Qed.
