(* ===== verification/AnyTls.v ===== *)
(** * AnyTLS sessions (proxy/anytls/mod.rs, proxy/anytls/padding.rs)

    The padding policy a server may replace, the frames of a session, its polls
    over an arbitrary stream, the stream the application holds, and the pool of
    idle sessions with its reaper.  The TLS connection is a [Raw] stream, the
    random generator and MD5 are parameters, and a timeout is the number of polls
    that happen before it fires.  The text of a remote error is not modelled. *)
From S2P Require Import Prelude Bytes Text Net AsyncIo.

(** [rand::rng()]. *)
Class Rng (G : Type) := {
  random_range : Z → Z → G → Z * G;
  random_fill : nat → G → bytes * G;
  random_range_in lo hi g : lo <= hi → lo <= (random_range lo hi g).1 <= hi;
  random_fill_length n g : length (random_fill n g).1 = n;
}.

(** [format!("{:x}", Md5::digest(raw))]. *)
Class Md5 := {
  md5_hex : bytes → bytes;
  md5_hex_length b : len (md5_hex b) = 32;
}.

(** ** The padding policy *)
Record Padding := { stop : Z; rules : gmap Z (list (option (Z * Z))); md5 : bytes }.

Definition U32_MAX : Z := 4294967295.
Definition USIZE_MAX : Z := 2 ^ 64 - 1.

(** The loop over [value.split(',')]. *)
Fixpoint parse_parts (parts : list (list Z)) (ranges : list (option (Z * Z))) (budget : Z)
    : outcome (list (option (Z * Z))) :=
  match parts with
  | [] => Ok ranges
  | part :: parts =>
      _ ← ensure (len ranges <? 16) "Too many padding segments";
      if bool_decide (part = lit "c") then parse_parts parts (ranges ++ [None]) budget
      else
        '(lo, hi) ← ok_or (split_once 45 part) "Invalid padding range";
        lo ← ok_or (parse_uint USIZE_MAX lo) "invalid number";
        hi ← ok_or (parse_uint USIZE_MAX hi) "invalid number";
        _ ← ensure ((0 <? lo) && (lo <=? hi) && (hi <=? 16384)) "Invalid padding size";
        _ ← ensure (budget + hi <=? 65536) "Padding record budget exceeded";
        parse_parts parts (ranges ++ [Some (lo, hi)]) (budget + hi)
  end.

(** The loop over the lines that are not blank. *)
Fixpoint parse_lines (ls : list (list Z)) (stop : option Z) (rules : gmap Z (list (option (Z * Z))))
    : outcome (option Z * gmap Z (list (option (Z * Z)))) :=
  match ls with
  | [] => Ok (stop, rules)
  | line :: ls =>
      '(key, value) ← ok_or (split_once 61 (trim line)) "Invalid AnyTLS padding policy";
      if bool_decide (key = lit "stop") then
        _ ← ensure (negb (bool_decide (is_Some stop))) "Duplicate padding stop";
        n ← ok_or (parse_uint U32_MAX value) "invalid number";
        parse_lines ls (Some n) rules
      else
        index ← ok_or (parse_uint U32_MAX key) "invalid number";
        _ ← ensure ((index <? 128) && negb (bool_decide (is_Some (rules !! index))))
              "Invalid padding packet index";
        ranges ← parse_parts (split_on 44 value) [] 0;
        parse_lines ls stop (<[index := ranges]> rules)
  end.

Section padding.
Context `{Md5}.

Definition parse (raw : bytes) : outcome Padding :=
  _ ← ensure (len raw <=? 8192) "AnyTLS padding policy too large";
  text ← ok_or (utf8_decode raw) "invalid utf-8";
  '(stop, rules) ← parse_lines (filter (λ line, trim line ≠ []) (lines text)) None ∅;
  stop ← ok_or stop "Missing padding stop";
  _ ← ensure (stop <=? 128) "Padding stop exceeds limit";
  Ok {| stop := stop; rules := rules; md5 := md5_hex raw |}.

Definition DEFAULT : bytes :=
  join [newline] (map lit ["stop=8"; "0=30-30"; "1=100-400";
    "2=400-500,c,500-1000,c,500-1000,c,500-1000,c,500-1000"; "3=9-9,500-1000";
    "4=500-1000"; "5=500-1000"; "6=500-1000"; "7=500-1000"]%string).

(** [Padding::default]: [expect] panics if the built-in policy is rejected. *)
Definition Padding_default : outcome Padding :=
  match parse DEFAULT with Ok p => Ok p | _ => Panic end.
End padding.

Section sizes.
Context {G : Type} `{Rng G}.

Fixpoint draw (ranges : list (option (Z * Z))) (g : G) : list (option Z) * G :=
  match ranges with
  | [] => ([], g)
  | None :: ranges => let '(rest, g) := draw ranges g in (None :: rest, g)
  | Some (lo, hi) :: ranges =>
      let '(size, g) := random_range lo hi g in
      let '(rest, g) := draw ranges g in (Some size :: rest, g)
  end.

Definition sizes (p : Padding) (packet : Z) (g : G) : list (option Z) * G :=
  if stop p <=? packet then ([], g) else draw (default [] (rules p !! packet)) g.
End sizes.

(** ** Frames *)
Definition frame (command id : Z) (data : bytes) : bytes :=
  [command] ++ be32 id ++ be16 (len data) ++ data.

(** [char::is_control]. *)
Definition is_control (c : Z) : bool := between 0 31 c || between 127 159 c.

Definition socks_address (host : bytes) (port : Z) : outcome bytes :=
  let chars := default [] (utf8_decode host) in
  _ ← ensure (negb (bool_decide (host = [])) && negb (existsb (λ c, is_control c || is_whitespace c) chars))
        "Invalid proxy destination";
  match parse_ip host with
  | Some (V4 ip) => Ok ([1] ++ octets (V4 ip) ++ be16 port)
  | Some (V6 ip) => Ok ([4] ++ octets (V6 ip) ++ be16 port)
  | None =>
      _ ← ensure (len host <=? 255) "Destination name too long";
      Ok ([3; as_u8 (len host)] ++ host ++ be16 port)
  end.

(** ** A session *)
Record Session := {
  raw : Raw;
  id : Z;
  next_id : Z;
  sequence : Z;
  packet : Z;
  idle_since : Z;
  wire : list bytes;
  wire_pos : Z;
  header : bytes;
  header_pos : Z;
  body : bytes;
  body_pos : Z;
  content : bytes;
  content_pos : Z;
  acked : bool;
  server_settings : bool;
  peer_finished : bool;
  local_finished : bool;
  healthy : bool;
}.

(** Updates of the fields that change together. *)
Definition with_wire (p : Z) (w : list bytes) (h : bool) (s : Session) : Session :=
  {| raw := raw s; id := id s; next_id := next_id s; sequence := sequence s; packet := p;
     idle_since := idle_since s; wire := w; wire_pos := wire_pos s; header := header s;
     header_pos := header_pos s; body := body s; body_pos := body_pos s; content := content s;
     content_pos := content_pos s; acked := acked s; server_settings := server_settings s;
     peer_finished := peer_finished s; local_finished := local_finished s; healthy := h |}.
Definition with_output (r : Raw) (w : list bytes) (pos : Z) (h : bool) (s : Session) : Session :=
  {| raw := r; id := id s; next_id := next_id s; sequence := sequence s; packet := packet s;
     idle_since := idle_since s; wire := w; wire_pos := pos; header := header s;
     header_pos := header_pos s; body := body s; body_pos := body_pos s; content := content s;
     content_pos := content_pos s; acked := acked s; server_settings := server_settings s;
     peer_finished := peer_finished s; local_finished := local_finished s; healthy := h |}.
Definition with_input (r : Raw) (h : bytes) (hp : Z) (b : bytes) (bp : Z) (s : Session) : Session :=
  {| raw := r; id := id s; next_id := next_id s; sequence := sequence s; packet := packet s;
     idle_since := idle_since s; wire := wire s; wire_pos := wire_pos s; header := h;
     header_pos := hp; body := b; body_pos := bp; content := content s;
     content_pos := content_pos s; acked := acked s; server_settings := server_settings s;
     peer_finished := peer_finished s; local_finished := local_finished s; healthy := healthy s |}.
Definition with_content (c : bytes) (pos : Z) (s : Session) : Session :=
  {| raw := raw s; id := id s; next_id := next_id s; sequence := sequence s; packet := packet s;
     idle_since := idle_since s; wire := wire s; wire_pos := wire_pos s; header := header s;
     header_pos := header_pos s; body := body s; body_pos := body_pos s; content := c;
     content_pos := pos; acked := acked s; server_settings := server_settings s;
     peer_finished := peer_finished s; local_finished := local_finished s; healthy := healthy s |}.
Definition with_flags (a ss pf lf h : bool) (s : Session) : Session :=
  {| raw := raw s; id := id s; next_id := next_id s; sequence := sequence s; packet := packet s;
     idle_since := idle_since s; wire := wire s; wire_pos := wire_pos s; header := header s;
     header_pos := header_pos s; body := body s; body_pos := body_pos s; content := content s;
     content_pos := content_pos s; acked := a; server_settings := ss;
     peer_finished := pf; local_finished := lf; healthy := h |}.
Definition unhealthy (s : Session) : Session :=
  with_flags (acked s) (server_settings s) (peer_finished s) (local_finished s) false s.
Definition finish (s : Session) : Session :=
  with_flags (acked s) (server_settings s) (peer_finished s) true (healthy s) s.
Definition with_idle_since (t : Z) (s : Session) : Session :=
  {| raw := raw s; id := id s; next_id := next_id s; sequence := sequence s; packet := packet s;
     idle_since := t; wire := wire s; wire_pos := wire_pos s; header := header s;
     header_pos := header_pos s; body := body s; body_pos := body_pos s; content := content s;
     content_pos := content_pos s; acked := acked s; server_settings := server_settings s;
     peer_finished := peer_finished s; local_finished := local_finished s; healthy := healthy s |}.

Definition MAX_PAYLOAD : Z := 16 * 1024.
Definition WIRE_LIMIT : Z := 128 * 1024.

(** The loop of [queue]: the records it makes and where it stopped. *)
Fixpoint records (szs : list (option Z)) (data : bytes) (pos : Z) : list bytes * Z :=
  match szs with
  | [] => ([], pos)
  | None :: szs => if pos =? len data then ([], pos) else records szs data pos
  | Some size :: szs =>
      let n := Z.min size (len data - pos) in
      let record := range data pos (pos + n) in
      let record := if 7 <=? size - n then record ++ frame 0 0 (replicate (Z.to_nat (size - n - 7)) 0)
                    else record in
      let '(rest, stop) := records szs data (pos + n) in
      (if bool_decide (record = []) then rest else record :: rest, stop)
  end.

(** What the sessions of a client share: the policy and the generator. *)
Record World {G : Type} := { padding : Padding; rng : G }.
Arguments World : clear implicits.

Section session.
Context {G : Type} `{RG : Rng G} `{MD : Md5}.
Notation World := (World G).

Definition queue (data : bytes) (w : World) (s : Session) : World * Session :=
  let '(szs, g) := sizes (padding w) (packet s) (rng w) in
  let '(rs, pos) := records szs data 0 in
  let out := wire s ++ rs ++ (if pos <? len data then [range data pos (len data)] else []) in
  let s := if WIRE_LIMIT <? foldr (λ r n, len r + n) 0 out
           then with_wire (Z.min (packet s + 1) U32_MAX) [] false s
           else with_wire (Z.min (packet s + 1) U32_MAX) out (healthy s) s in
  ({| padding := padding w; rng := g |}, s).

(** The loop of [poll_flush_wire]; every round polls the stream at least once. *)
Fixpoint flush_loop (fuel : nat) (s : Session) : poll unit * Session :=
  match fuel with
  | O => (Ready Diverge, s)
  | S fuel =>
      match wire s with
      | [] => (Ready (Ok tt), s)
      | record :: rest =>
          if wire_pos s <? len record then
            match raw_write (range record (wire_pos s) (len record)) (raw s) with
            | (Ready (Ok n), r) =>
                if n =? 0 then (Ready (Err "write zero"), with_output r (wire s) (wire_pos s) false s)
                else flush_loop fuel (with_output r (wire s) (wire_pos s + n) (healthy s) s)
            | (Ready (Err e), r) => (Ready (Err e), with_output r (wire s) (wire_pos s) false s)
            | (Ready Panic, r) => (Ready Panic, s)
            | (Ready Diverge, r) => (Ready Diverge, s)
            | (Pending, r) => (Pending, with_output r (wire s) (wire_pos s) (healthy s) s)
            end
          else
            match raw_flush (raw s) with
            | (Ready (Ok _), r) => flush_loop fuel (with_output r rest 0 (healthy s) s)
            | (Ready (Err e), r) => (Ready (Err e), with_output r (wire s) (wire_pos s) false s)
            | (Ready Panic, r) => (Ready Panic, s)
            | (Ready Diverge, r) => (Ready Diverge, s)
            | (Pending, r) => (Pending, with_output r (wire s) (wire_pos s) (healthy s) s)
            end
      end
  end.

Definition poll_flush_wire (s : Session) : poll unit * Session :=
  if negb (healthy s) then (Ready (Err "AnyTLS session is no longer usable"), s)
  else flush_loop (S (length (answers (raw s)))) s.

(** [while pos < target]: reads into [buf[pos..]]. *)
Fixpoint fill (fuel : nat) (target : Z) (buf : bytes) (pos : Z) (r : Raw)
    : poll unit * (bytes * Z * Raw) :=
  if pos <? target then
    match fuel with
    | O => (Ready Diverge, (buf, pos, r))
    | S fuel =>
        match raw_read (len buf - pos) r with
        | (Pending, r) => (Pending, (buf, pos, r))
        | (Ready (Err e), r) => (Ready (Err e), (buf, pos, r))
        | (Ready Panic, r) => (Ready Panic, (buf, pos, r))
        | (Ready Diverge, r) => (Ready Diverge, (buf, pos, r))
        | (Ready (Ok bs), r) =>
            if len bs =? 0 then (Ready (Err "unexpected end of file"), (buf, pos, r))
            else fill fuel target (take (Z.to_nat pos) buf ++ bs ++ drop (Z.to_nat (pos + len bs)) buf)
                   (pos + len bs) r
        end
    end
  else (Ready (Ok tt), (buf, pos, r)).

Definition resize_bytes (n : Z) (b : bytes) : bytes :=
  if len b =? n then b else take (Z.to_nat n) b ++ replicate (Z.to_nat (n - len b)) 0.

Definition poll_frame (s : Session) : poll (Z * Z * bytes) * Session :=
  let '(p, (h, hp, r)) := fill 7 7 (header s) (header_pos s) (raw s) in
  match p with
  | Pending => (Pending, with_input r h hp (body s) (body_pos s) s)
  | Ready (Err e) => (Ready (Err e), with_input r h hp (body s) (body_pos s) s)
  | Ready Panic => (Ready Panic, s)
  | Ready Diverge => (Ready Diverge, s)
  | Ready (Ok _) =>
      let n := of_be (range h 5 7) in
      let '(p, (b, bp, r)) := fill (Z.to_nat n) n (resize_bytes n (body s)) (body_pos s) r in
      match p with
      | Pending => (Pending, with_input r h hp b bp s)
      | Ready (Err e) => (Ready (Err e), with_input r h hp b bp s)
      | Ready Panic => (Ready Panic, s)
      | Ready Diverge => (Ready Diverge, s)
      | Ready (Ok _) =>
          (Ready (Ok (default 0 (byte_at h 0), of_be (range h 1 5), b)), with_input r h 0 [] 0 s)
      end
  end.

(** [text.lines().find_map(|line| line.strip_prefix("v="))] parsed. *)
Definition settings_version (text : list Z) : option Z :=
  match omap (strip_prefix (lit "v=")) (lines text) with
  | v :: _ => parse_uint U32_MAX v
  | [] => None
  end.

Definition apply (command fid : Z) (data : bytes) (w : World) (s : Session)
    : outcome unit * World * Session :=
  let own := fid =? id s in
  let empty := bool_decide (data = []) in
  if command =? 0 then (Ok tt, w, s)
  else if (command =? 2) && own then
    if 65535 <? Z.max 0 (len (content s) - content_pos s) + len data
    then (Err "AnyTLS early data limit exceeded", w, s)
    else (Ok tt, w, with_content (drop (Z.to_nat (content_pos s)) (content s) ++ data) 0 s)
  else if (command =? 3) && own && empty then
    (Ok tt, w, with_flags (acked s) (server_settings s) true (local_finished s) (healthy s) s)
  else if (command =? 7) && own then
    if negb empty then (Err "AnyTLS destination rejected", w, s)
    else (Ok tt, w, with_flags true (server_settings s) (peer_finished s) (local_finished s) (healthy s) s)
  else if ((command =? 2) || (command =? 3) || (command =? 7)) && ((0 <? fid) && (fid <? id s)) then
    (Ok tt, w, s)
  else if command =? 5 then (Err "AnyTLS server rejected the session", w, s)
  else if (command =? 6) && (fid =? 0) then
    match parse data with
    | Ok policy => (Ok tt, {| padding := policy; rng := rng w |}, s)
    | _ => (Err "Invalid AnyTLS padding update", w, s)
    end
  else if (command =? 8) && empty then
    if 16 <=? len (wire s) then (Err "AnyTLS control backlog exceeded", w, s)
    else let '(w, s) := queue (frame 9 fid []) w s in (Ok tt, w, s)
  else if (command =? 9) && empty then (Ok tt, w, s)
  else if (command =? 10) && (fid =? 0) then
    match utf8_decode data with
    | None => (Err "Invalid AnyTLS server settings", w, s)
    | Some text =>
        match settings_version text with
        | None => (Err "Invalid AnyTLS server version", w, s)
        | Some version =>
            (Ok tt, w, with_flags (acked s) (2 <=? version) (peer_finished s) (local_finished s) (healthy s) s)
        end
    end
  else (Err "Unexpected AnyTLS session frame", w, s).

(** One frame of the peer, and what follows it. *)
Definition on_frame {A} (w : World) (s : Session) (k : World → Session → poll A * World * Session)
    : poll A * World * Session :=
  match poll_frame s with
  | (Pending, s) => (Pending, w, s)
  | (Ready (Err e), s) => (Ready (Err e), w, unhealthy s)
  | (Ready Panic, s) => (Ready Panic, w, s)
  | (Ready Diverge, s) => (Ready Diverge, w, s)
  | (Ready (Ok (cmd, fid, data)), s) =>
      match apply cmd fid data w s with
      | (Ok _, w, s) => k w s
      | (Err e, w, s) => (Ready (Err e), w, unhealthy s)
      | (Panic, w, s) => (Ready Panic, w, s)
      | (Diverge, w, s) => (Ready Diverge, w, s)
      end
  end.

(** The loop of [poll_ready], at most sixteen frames a poll. *)
Fixpoint ready_loop (rounds : nat) (w : World) (s : Session) : poll unit * World * Session :=
  match rounds with
  | O => (Pending, w, s)
  | S rounds =>
      match poll_flush_wire s with
      | (Ready (Err e), s) => (Ready (Err e), w, s)
      | (_, s) =>
          if acked s && server_settings s then (Ready (Ok tt), w, s)
          else on_frame w s (λ w s,
            if peer_finished s
            then (Ready (Err "AnyTLS stream closed before acknowledgement"), w, unhealthy s)
            else ready_loop rounds w s)
      end
  end.

Definition poll_ready (w : World) (s : Session) : poll unit * World * Session := ready_loop 16 w s.

Definition poll_open_ready (w : World) (s : Session) : poll unit * World * Session :=
  if negb (server_settings s) then (Ready (Ok tt), w, s) else poll_ready w s.

(** ** The stream of the application *)
Fixpoint read_loop (rounds : nat) (remaining : Z) (w : World) (s : Session)
    : poll bytes * World * Session :=
  match rounds with
  | O => (Pending, w, s)
  | S rounds =>
      if content_pos s <? len (content s) then
        let n := Z.min remaining (len (content s) - content_pos s) in
        (Ready (Ok (range (content s) (content_pos s) (content_pos s + n))), w,
         with_content (content s) (content_pos s + n) s)
      else
        let s := with_content [] 0 s in
        if peer_finished s then (Ready (Ok []), w, s)
        else
          match poll_flush_wire s with
          | (Ready (Err e), s) => (Ready (Err e), w, s)
          | (_, s) =>
              on_frame w s (λ w s, read_loop rounds remaining w s)
          end
  end.

Definition poll_read (remaining : Z) (w : World) (s : Session) : poll bytes * World * Session :=
  if remaining =? 0 then (Ready (Ok []), w, s) else read_loop 16 remaining w s.

Definition poll_write (data : bytes) (w : World) (s : Session) : poll Z * World * Session :=
  if local_finished s || peer_finished s then (Ready (Err "broken pipe"), w, s)
  else
    match poll_flush_wire s with
    | (Ready (Ok _), s) =>
        let n := Z.min (len data) MAX_PAYLOAD in
        if n =? 0 then (Ready (Ok 0), w, s)
        else let '(w, s) := queue (frame 2 (id s) (take (Z.to_nat n) data)) w s in (Ready (Ok n), w, s)
    | (Ready (Err e), s) => (Ready (Err e), w, s)
    | (Ready Panic, s) => (Ready Panic, w, s)
    | (Ready Diverge, s) => (Ready Diverge, w, s)
    | (Pending, s) => (Pending, w, s)
    end.

(** The frame that ends the local side, sent once. *)
Definition queue_fin (w : World) (s : Session) : World * Session :=
  let '(w, s) := queue (frame 3 (id s) []) w s in (w, finish s).

Definition poll_shutdown (w : World) (s : Session) : poll unit * World * Session :=
  let '(w, s) := if local_finished s then (w, s) else queue_fin w s in
  let '(p, s) := poll_flush_wire s in (p, w, s).
End session.
