(* ===== verification/AnyTlsFrames.v ===== *)
(** * AnyTLS: frames, padding policies and padded messages *)
From S2P Require Import Prelude Bytes Text TextTrim AsyncIo AnyTls.

#[local] Open Scope list_scope.
#[local] Open Scope Z_scope.

(** ** The peer's view of a stream of frames *)
Definition Frame : Type := Z * Z * bytes.

Definition enc (fs : list Frame) : bytes := flat_map (λ '(c, i, d), frame c i d) fs.

(** The reference parser: the complete frames, and the bytes after them. *)
Fixpoint unframe (fuel : nat) (bs : bytes) : list Frame * bytes :=
  match fuel with
  | O => ([], bs)
  | S fuel =>
      let n := 7 + of_be (range bs 5 7) in
      if (7 <=? len bs) && (n <=? len bs) then
        let '(fs, rest) := unframe fuel (drop (Z.to_nat n) bs) in
        ((default 0 (byte_at bs 0), of_be (range bs 1 5), range bs 7 n) :: fs, rest)
      else ([], bs)
  end.
Definition frames_of (bs : bytes) : list Frame := (unframe (length bs) bs).1.

(** The payload of stream [i] among frames. *)
Definition payload (i : Z) (fs : list Frame) : bytes :=
  flat_map (λ '(c, j, d), if (c =? 2) && (j =? i) then d else []) fs.

(** The frames of stream [i] that carry data or end it. *)
Definition own (i : Z) (fs : list Frame) : list Frame :=
  filter (λ f : Frame, f.1.2 = i ∧ (f.1.1 = 2 ∨ f.1.1 = 3)) fs.

Definition frame_ok (f : Frame) : Prop := u8 f.1.1 ∧ u32 f.1.2 ∧ len f.2 <= 65535.

Lemma len_frame c i d : len (frame c i d) = 7 + len d.
Proof. unfold frame. rewrite !len_app, len_be32, len_be16. change (len [c]) with 1. lia. Qed.

Lemma enc_app fs gs : enc (fs ++ gs) = enc fs ++ enc gs.
Proof. apply flat_map_app. Qed.

Lemma payload_app i fs gs : payload i (fs ++ gs) = payload i fs ++ payload i gs.
Proof. apply flat_map_app. Qed.

Lemma own_app i fs gs : own i (fs ++ gs) = own i fs ++ own i gs.
Proof. apply filter_app. Qed.

Lemma own_cons_other i c j d fs : c ≠ 2 → c ≠ 3 → own i ((c, j, d) :: fs) = own i fs.
Proof. intros H2 H3. unfold own. rewrite filter_cons_False; [done|]. simpl. lia. Qed.

Lemma own_cons_same i c d fs : c = 2 ∨ c = 3 → own i ((c, i, d) :: fs) = (c, i, d) :: own i fs.
Proof. intros Hc. unfold own. by rewrite filter_cons_True. Qed.

Lemma range_frame c i d t :
  byte_at (frame c i d ++ t) 0 = Some c ∧ range (frame c i d ++ t) 1 5 = be32 i ∧
  range (frame c i d ++ t) 5 7 = be16 (len d) ∧ drop 7 (frame c i d ++ t) = d ++ t.
Proof. done. Qed.

Lemma unframe_enc fs : ∀ fuel rest, Forall frame_ok fs → (length fs <= fuel)%nat →
  unframe fuel (enc fs ++ rest) =
    let '(gs, t) := unframe (fuel - length fs) rest in (fs ++ gs, t).
Proof.
  induction fs as [|[[c i] d] fs IH]; intros fuel rest Hfs Hfuel.
  { simpl. rewrite Nat.sub_0_r. by destruct (unframe fuel rest). }
  destruct fuel as [|fuel]; [simpl in Hfuel; lia|].
  apply Forall_cons in Hfs as [(Hc & Hi & Hd) Hfs]. simpl in Hc, Hi, Hd.
  change (enc ((c, i, d) :: fs)) with (frame c i d ++ enc fs). rewrite <- app_assoc.
  destruct (range_frame c i d (enc fs ++ rest)) as (H0 & H1 & H5 & H7).
  cbn [unframe]. rewrite H0, H1, H5, of_be_be16, of_be_be32 by (done || (unfold u16; pose proof (len_nonneg d); lia)).
  pose proof (len_nonneg d). pose proof (len_nonneg (enc fs ++ rest)).
  rewrite len_app, len_frame.
  rewrite (proj2 (Z.leb_le 7 _)), (proj2 (Z.leb_le (7 + len d) _)) by lia. cbn [andb].
  replace (drop (Z.to_nat (7 + len d)) (frame c i d ++ enc fs ++ rest)) with (enc fs ++ rest).
  2:{ replace (Z.to_nat (7 + len d)) with (length (frame c i d)) by (pose proof (len_frame c i d); unfold len in *; lia).
      by rewrite drop_app_length. }
  rewrite IH by (done || simpl in *; lia). simpl length. rewrite Nat.sub_succ.
  destruct (unframe (fuel - length fs) rest) as [gs t]. simpl default.
  do 3 f_equal. unfold range. change (Z.to_nat 7) with 7%nat. rewrite H7.
  replace (Z.to_nat (7 + len d - 7)) with (length d) by (unfold len; lia). by rewrite take_app_length.
Qed.

Lemma length_enc fs : (length fs <= length (enc fs))%nat.
Proof.
  induction fs as [|[[c i] d] fs IH]; [done|]. change (enc ((c, i, d) :: fs)) with (frame c i d ++ enc fs).
  rewrite length_app. simpl. lia.
Qed.

Lemma frames_of_enc fs : Forall frame_ok fs → frames_of (enc fs) = fs.
Proof.
  intros Hfs. unfold frames_of. pose proof (unframe_enc fs (length (enc fs)) [] Hfs (length_enc fs)) as E.
  rewrite app_nil_r in E. rewrite E. by destruct (length (enc fs) - length fs)%nat; simpl; rewrite app_nil_r.
Qed.

(** ** The policy *)
Definition range_ok (r : option (Z * Z)) : Prop :=
  match r with Some (lo, hi) => 0 < lo <= hi ∧ hi <= 16384 | None => True end.
Definition budget (ranges : list (option (Z * Z))) : Z :=
  foldr (λ r n, match r with Some (_, hi) => hi + n | None => n end) 0 ranges.
Definition ranges_ok (ranges : list (option (Z * Z))) : Prop :=
  Forall range_ok ranges ∧ (length ranges <= 16)%nat ∧ budget ranges <= 65536.
Record policy_ok (p : Padding) : Prop := {
  policy_stop : 0 <= stop p <= 128;
  policy_rules : map_Forall (λ i ranges, 0 <= i < 128 ∧ ranges_ok ranges) (rules p);
  policy_md5 : len (md5 p) = 32;
}.

Lemma budget_snoc ranges r : budget (ranges ++ [r]) = budget ranges + budget [r].
Proof. induction ranges as [|[[lo hi]|] ranges IH]; simpl in *; [destruct r as [[]|]; lia|lia|done]. Qed.

Lemma parse_parts_ok parts : ∀ ranges out,
  ranges_ok ranges → parse_parts parts ranges (budget ranges) = Ok out → ranges_ok out.
Proof.
  induction parts as [|part parts IH]; intros ranges out Hr H; simpl in H; [by injection H as <-|].
  apply bind_ok in H as (u & Hlen%ensure_ok & H). apply Z.ltb_lt in Hlen. destruct Hr as (Hf & Hl & Hb).
  unfold len in Hlen.
  case_bool_decide.
  - replace (budget ranges) with (budget (ranges ++ [None])) in H by (rewrite budget_snoc; simpl; lia).
    eapply IH, H. split_and!; [by apply Forall_app; split; [|repeat constructor]|rewrite length_app; simpl; lia|].
    rewrite budget_snoc. simpl. lia.
  - apply bind_ok in H as ([lo' hi'] & _ & H). apply bind_ok in H as (lo & _ & H).
    apply bind_ok in H as (hi & _ & H). apply bind_ok in H as (u1 & Hsize%ensure_ok & H).
    apply bind_ok in H as (u2 & Hbudget%ensure_ok & H).
    rewrite !andb_true_iff, Z.ltb_lt, !Z.leb_le in Hsize. apply Z.leb_le in Hbudget.
    replace (budget ranges + hi) with (budget (ranges ++ [Some (lo, hi)])) in H by (rewrite budget_snoc; simpl; lia).
    eapply IH, H. split_and!; [|rewrite length_app; simpl; lia|rewrite budget_snoc; simpl; lia].
    apply Forall_app. split; [done|]. repeat constructor; lia.
Qed.

Lemma parse_lines_ok ls : ∀ st rs st' rs',
  (∀ n, st = Some n → 0 <= n) → map_Forall (λ i ranges, 0 <= i < 128 ∧ ranges_ok ranges) rs →
  parse_lines ls st rs = Ok (st', rs') →
  (∀ n, st' = Some n → 0 <= n) ∧ map_Forall (λ i ranges, 0 <= i < 128 ∧ ranges_ok ranges) rs'.
Proof.
  induction ls as [|line ls IH]; intros st rs st' rs' Hst Hrs H; simpl in H; [by injection H as <- <-|].
  apply bind_ok in H as ([key value] & _ & H). case_bool_decide.
  - apply bind_ok in H as (u & _ & H). apply bind_ok in H as (n & Hn%ok_or_ok & H).
    eapply IH, H; [|done]. intros ? [= <-]. apply parse_uint_range in Hn; [lia|done].
  - apply bind_ok in H as (i & Hi%ok_or_ok & H). apply bind_ok in H as (u & Hidx%ensure_ok & H).
    apply bind_ok in H as (ranges & Hranges & H).
    apply parse_uint_range in Hi; [|done]. apply andb_true_iff in Hidx as [Hidx%Z.ltb_lt _].
    eapply IH, H; [done|]. apply map_Forall_insert_2; [|done]. split; [lia|].
    eapply (parse_parts_ok _ []), Hranges. split_and!; [constructor|simpl; lia|simpl; lia].
Qed.

Lemma parse_ok `{M : Md5} raw p : parse raw = Ok p → policy_ok p.
Proof.
  unfold parse. intros H. apply bind_ok in H as (u & _ & H). apply bind_ok in H as (text & _ & H).
  apply bind_ok in H as ([st rs] & Hl & H). apply bind_ok in H as (st' & Hst%ok_or_ok & H).
  apply bind_ok in H as (u' & Hle%ensure_ok & H). injection H as <-. apply Z.leb_le in Hle.
  apply parse_lines_ok in Hl as [Hn Hrs]; [|done|apply map_Forall_empty].
  split; simpl; [|done|apply md5_hex_length]. specialize (Hn _ Hst). lia.
Qed.

Definition total (szs : list (option Z)) : Z :=
  foldr (λ s n, match s with Some size => size + n | None => n end) 0 szs.
Definition sizes_ok (szs : list (option Z)) : Prop :=
  Forall (λ s, ∀ size, s = Some size → 0 < size <= 16384) szs ∧ total szs <= 65536 ∧ (length szs <= 16)%nat.

Section sizes.
Context {G : Type} `{Rng G}.

Lemma draw_ok ranges : ∀ g, Forall range_ok ranges →
  Forall (λ s, ∀ size, s = Some size → 0 < size <= 16384) (draw ranges g).1 ∧
  total (draw ranges g).1 <= budget ranges ∧ length (draw ranges g).1 = length ranges.
Proof.
  induction ranges as [|[[lo hi]|] ranges IH]; intros g Hr; [repeat constructor; simpl; lia| |];
    apply Forall_cons in Hr as [Hx Hr]; simpl.
  - destruct Hx as [Hlo Hhi]. pose proof (random_range_in lo hi g (proj2 Hlo)) as Hrand.
    destruct (random_range lo hi g) as [size g1]. destruct (IH g1 Hr) as (Hf & Ht & Hl).
    destruct (draw ranges g1) as [rest g2]. simpl in *. split_and!; [|lia|by rewrite Hl].
    constructor; [|done]. intros ? [= <-]. lia.
  - destruct (IH g Hr) as (Hf & Ht & Hl). destruct (draw ranges g) as [rest g2]. simpl in *.
    split_and!; [by constructor|done|by rewrite Hl].
Qed.

Lemma sizes_bounded p n g : policy_ok p → sizes_ok (sizes p n g).1.
Proof.
  intros [_ Hrules _]. unfold sizes, sizes_ok. destruct (stop p <=? n); [repeat constructor; simpl; lia|].
  destruct (rules p !! n) as [ranges|] eqn:E; [|repeat constructor; simpl; lia].
  destruct (Hrules _ _ E) as (_ & Hf & Hl & Hb). simpl.
  destruct (draw_ok ranges g Hf) as (H1 & H2 & H3). split_and!; [done|lia|lia].
Qed.
End sizes.

(** ** Padding a message *)
Definition bytes_of (w : list bytes) : Z := foldr (λ r n, len r + n) 0 w.
Definition pads (gaps : list Z) : list Frame := map (λ g, (0, 0, replicate (Z.to_nat g) 0)) gaps.

Lemma pads_ok gaps : Forall (λ g, 0 <= g <= 16377) gaps → Forall frame_ok (pads gaps).
Proof.
  intros Hg. apply Forall_map. eapply Forall_impl; [exact Hg|]. intros g Hgap.
  unfold frame_ok. cbn [fst snd]. rewrite len_replicate. unfold u8, u32. simpl in Hgap. lia.
Qed.

Lemma own_pads i gaps : own i (pads gaps) = [].
Proof. induction gaps as [|g gaps IH]; [done|]. simpl. by rewrite own_cons_other. Qed.

Lemma total_nonneg szs : Forall (λ s, ∀ size, s = Some size → 0 < size <= 16384) szs → 0 <= total szs.
Proof.
  induction 1 as [|[size|] szs Hs _ IH]; simpl; [done| |done]. specialize (Hs _ eq_refl). lia.
Qed.

Lemma bytes_of_app v w : bytes_of (v ++ w) = bytes_of v + bytes_of w.
Proof. induction v as [|r v IH]; simpl; [done|]. rewrite IH. lia. Qed.

Lemma bytes_of_concat w : bytes_of w = len (concat w).
Proof. induction w as [|r w IH]; simpl; [done|]. by rewrite IH, len_app. Qed.

(** The records carry the message, cut anywhere, then padding frames only. *)
Lemma records_spec szs data : ∀ pos rs pos',
  Forall (λ s, ∀ size, s = Some size → 0 < size <= 16384) szs → 0 <= pos <= len data →
  records szs data pos = (rs, pos') →
  pos <= pos' <= len data ∧ Forall (λ r, r ≠ []) rs ∧
  ∃ gaps, concat rs = range data pos pos' ++ enc (pads gaps) ∧
    Forall (λ g, 0 <= g <= 16377) gaps ∧ (gaps ≠ [] → pos' = len data) ∧
    (pos' < len data → pos' - pos = total szs) ∧ len (concat rs) <= total szs.
Proof.
  induction szs as [|[size|] szs IH]; intros pos rs pos' Hs Hpos; cbn [records].
  - intros [= <- <-]. split; [lia|]. split; [constructor|]. exists []. rewrite range_empty by lia. simpl.
    split_and!; try done; lia.
  - apply Forall_cons in Hs as [Hsize Hs]. specialize (Hsize _ eq_refl).
    set (n := Z.min size (len data - pos)). set (r0 := range data pos (pos + n)).
    destruct (records szs data (pos + n)) as [rest stop_] eqn:E.
    apply IH in E as (Hp & Hne & gaps & Hc & Hg & Hend & Hstop & Hlen); [|done|lia].
    assert (len r0 = n) as Hr0 by (unfold r0; rewrite len_range; lia).
    set (r := if 7 <=? size - n then _ else r0).
    assert (∃ g0, r = r0 ++ enc (pads g0) ∧ Forall (λ g, 0 <= g <= 16377) g0 ∧ (g0 ≠ [] → n < size)
      ∧ len r <= size) as (g0 & Hr & Hg0 & Hn0 & Hlr).
    { subst r. destruct (Z.leb_spec 7 (size - n)).
      - exists [size - n - 7]. simpl. rewrite app_nil_r. split_and!; [done|repeat constructor; lia|lia|].
        rewrite len_app, len_frame, len_replicate. lia.
      - exists []. simpl. rewrite app_nil_r. split_and!; try done. lia. }
    intros [= <- <-].
    assert (concat (if bool_decide (r = []) then rest else r :: rest) = r ++ concat rest) as ->.
    { case_bool_decide as Hb; [by rewrite Hb|done]. }
    split; [lia|]. split; [case_bool_decide; [done|by constructor]|].
    exists (g0 ++ gaps). rewrite Hr, Hc. unfold pads. rewrite map_app. fold (pads g0) (pads gaps).
    assert (g0 ≠ [] → n < size ∧ pos + n = len data) as Hfull by (intros Hg0'; specialize (Hn0 Hg0'); lia).
    assert (enc (pads g0) ++ range data (pos + n) stop_ = range data (pos + n) stop_ ++ enc (pads g0)) as Hcomm.
    { destruct g0 as [|g g0]; [by rewrite app_nil_r|]. destruct (Hfull ltac:(done)).
      rewrite range_empty by lia. by rewrite app_nil_r. }
    split_and!.
    + rewrite enc_app. rewrite <- !app_assoc. rewrite (app_assoc (enc (pads g0))), Hcomm.
      rewrite <- (range_split data pos (pos + n) stop_) by lia. fold r0. by rewrite <- !app_assoc.
    + by apply Forall_app.
    + intros Hne'. destruct g0 as [|g g0]; [by apply Hend|]. destruct (Hfull ltac:(done)). lia.
    + intros Hlt. simpl. specialize (Hstop Hlt). lia.
    + rewrite <- Hr, <- Hc, len_app. simpl. lia.
  - apply Forall_cons in Hs as [_ Hs]. destruct (Z.eqb_spec pos (len data)) as [->|Hne].
    + intros [= <- <-]. split; [lia|]. split; [constructor|]. exists []. rewrite range_empty by lia. simpl.
      split_and!; try done; [lia|]. by apply total_nonneg.
    + intros E. by apply IH.
Qed.
