(* ===== verification/AnyTlsSpec.v ===== *)
(** * AnyTLS: what goes through a session *)
From S2P Require Import Prelude Bytes Text AsyncIo AnyTls AnyTlsFrames.

#[local] Open Scope list_scope.
#[local] Open Scope Z_scope.

(** ** The state of a session *)
Definition output (s : Session) : bytes := sent (raw s) ++ drop (Z.to_nat (wire_pos s)) (concat (wire s)).
Definition partial (s : Session) : bytes :=
  take (Z.to_nat (header_pos s)) (header s)
  ++ if header_pos s =? 7 then take (Z.to_nat (body_pos s)) (body s) else [].
Definition buffered (s : Session) : bytes := drop (Z.to_nat (content_pos s)) (content s).

Definition front_pos (w : list bytes) (pos : Z) : Prop :=
  match w with [] => pos = 0 | r :: _ => 0 <= pos <= len r end.

Record session_ok (s : Session) : Prop := {
  ok_id : u32 (id s);
  ok_header : len (header s) = 7;
  ok_header_pos : 0 <= header_pos s <= 7;
  ok_body : if header_pos s =? 7 then len (body s) = of_be (range (header s) 5 7) else body s = [];
  ok_body_pos : 0 <= body_pos s <= len (body s);
  ok_bytes : is_bytes (header s) ∧ is_bytes (body s) ∧ is_bytes (arriving (raw s));
  ok_front : healthy s = true → front_pos (wire s) (wire_pos s);
  ok_wire : bytes_of (wire s) <= WIRE_LIMIT;
  ok_content : 0 <= content_pos s <= len (content s) ∧ len (content s) <= 65535;
}.

(** *** Reading *)
Lemma frame_fill_spec fuel target : ∀ buf pos r p buf' pos' r',
  len buf = target → 0 <= pos <= target → target - pos <= Z.of_nat fuel →
  is_bytes buf → is_bytes (arriving r) → fill fuel target buf pos r = (p, (buf', pos', r')) →
  len buf' = target ∧ pos <= pos' <= target ∧ is_bytes buf' ∧ is_bytes (arriving r') ∧
  answers r' = answers r ∧ sent r' = sent r ∧
  take (Z.to_nat pos) buf ++ arriving r = take (Z.to_nat pos') buf' ++ arriving r' ∧
  match p with
  | Ready (Ok _) => pos' = target
  | Pending | Ready (Err _) => pos' < target
  | _ => False
  end.
Proof.
  induction fuel as [|fuel IH]; intros buf pos r p buf' pos' r' Hbuf Hpos Hfuel Hb Ha; cbn [fill];
    (destruct (Z.ltb_spec pos target); [|intros [= <- <- <- <-]; split_and!; done || lia]); [lia|].
  destruct (raw_read (len buf - pos) r) as [q r1] eqn:E.
  apply raw_read_arriving in E as (Han & Hse & Hq); [|lia].
  destruct q as [|[bs|e| |]]; [|destruct Hq as [Hq Hn]| |done|done];
    [intros [= <- <- <- <-]; rewrite Hq; split_and!; try (done || lia)| |intros [= <- <- <- <-]; rewrite Hq; split_and!; try (done || lia)].
  rewrite Hq in Ha. apply is_bytes_app in Ha as [Hbs Ha].
  destruct (Z.eqb_spec (len bs) 0) as [Hz|Hz].
  { intros [= <- <- <- <-]. rewrite Hq. apply len_zero_nil in Hz as ->. split_and!; done || lia. }
  pose proof (len_nonneg bs). set (buf1 := take _ buf ++ bs ++ _).
  assert (len (take (Z.to_nat pos) buf) = pos) as Hpre by (unfold len in *; rewrite length_take; lia).
  assert (take (Z.to_nat (pos + len bs)) buf1 = take (Z.to_nat pos) buf ++ bs) as Htake.
  { unfold buf1. rewrite app_assoc. apply take_app_length'. rewrite length_app. unfold len in *. lia. }
  assert (len buf1 = target) as Hl1.
  { unfold buf1. rewrite !len_app, Hpre. unfold len in *. rewrite length_drop. lia. }
  intros E. apply IH in E as (H1 & H2 & H3 & H4 & H5 & H6 & H7 & H8); [|done|lia|lia| |done].
  - split_and!; try done; try lia; try congruence. rewrite Hq. rewrite <- H7, Htake. by rewrite app_assoc.
  - unfold buf1. apply is_bytes_app. split; [by apply Forall_take|]. apply is_bytes_app. split; [done|by apply Forall_drop].
Qed.

Lemma be_of_bytes b n : is_bytes b → length b = n → be_bytes n (of_be b) = b.
Proof.
  revert n. induction b as [|x b IH] using rev_ind; intros n Hb Hn; [by subst|].
  apply Forall_app in Hb as [Hb Hx]. apply Forall_cons in Hx as [Hx _]. unfold u8 in Hx.
  rewrite length_app in Hn. simpl in Hn. destruct n as [|n]; [lia|]. cbn [be_bytes]. rewrite of_be_snoc.
  replace ((of_be b * 256 + x) / 256) with (of_be b) by lia.
  replace ((of_be b * 256 + x) mod 256) with x by lia. f_equal. apply IH; [done|lia].
Qed.

(** A full header and its body are the encoding of a frame. *)
Lemma header_frame h b :
  len h = 7 → is_bytes h → len b = of_be (range h 5 7) →
  frame_ok (default 0 (byte_at h 0), of_be (range h 1 5), b) ∧
  frame (default 0 (byte_at h 0)) (of_be (range h 1 5)) b = h ++ b.
Proof.
  intros Hh Hbs Hb. unfold len in Hh. destruct h as [|c [|i1 [|i2 [|i3 [|i4 [|l1 [|l2 [|]]]]]]]]; try (simpl in Hh; lia).
  change (range [c; i1; i2; i3; i4; l1; l2] 5 7) with [l1; l2] in *.
  change (range [c; i1; i2; i3; i4; l1; l2] 1 5) with [i1; i2; i3; i4].
  change (default 0 (byte_at [c; i1; i2; i3; i4; l1; l2] 0)) with c.
  apply Forall_cons in Hbs as [Hc Hbs].
  change [i1; i2; i3; i4; l1; l2] with ([i1; i2; i3; i4] ++ [l1; l2]) in Hbs.
  apply Forall_app in Hbs as [Hi Hl].
  pose proof (of_be_bound _ Hi) as Hib. pose proof (of_be_bound _ Hl) as Hlb.
  change (256 ^ len [i1; i2; i3; i4]) with 4294967296 in Hib. change (256 ^ len [l1; l2]) with 65536 in Hlb.
  split; [split_and!; [exact Hc|exact Hib|cbn [snd]; lia]|].
  unfold frame, be32, be16. rewrite Hb, !be_of_bytes by done. done.
Qed.

Lemma take_all_len {A} (l : list A) n : len l = n → take (Z.to_nat n) l = l.
Proof. intros <-. unfold len. rewrite Nat2Z.id. by apply take_ge. Qed.

Lemma resize_spec n s :
  session_ok s → header_pos s = 7 → n = of_be (range (header s) 5 7) → resize_bytes n (body s) = body s.
Proof.
  intros Hs Hp ->. pose proof (ok_body _ Hs) as Hb. rewrite Hp in Hb. simpl in Hb.
  unfold resize_bytes. by rewrite Hb, Z.eqb_refl.
Qed.

(** The state where reading stopped inside the header, or inside the body. *)
Lemma stop_in_header s r h hp :
  session_ok s → header_pos s <= hp < 7 → len h = 7 → is_bytes h → is_bytes (arriving r) →
  take (Z.to_nat (header_pos s)) (header s) ++ arriving (raw s) = take (Z.to_nat hp) h ++ arriving r →
  let s' := with_input r h hp (body s) (body_pos s) s in
  session_ok s' ∧ partial s ++ arriving (raw s) = partial s' ++ arriving r.
Proof.
  intros [Hid Hhd Hhp Hbody Hbp (Hb1 & Hb2 & Hb3) Hfr Hw Hc] Hp Hh Hhb Hr E.
  destruct (Z.eqb_spec (header_pos s) 7); [lia|]. simpl. split.
  - split; simpl; try done; [lia|]. by rewrite (proj2 (Z.eqb_neq hp 7)) by lia.
  - unfold partial. simpl. rewrite !(proj2 (Z.eqb_neq _ 7)) by lia. by rewrite !app_nil_r.
Qed.

Lemma stop_in_body s r h b bp :
  session_ok s → len h = 7 → is_bytes h → is_bytes b → is_bytes (arriving r) →
  len b = of_be (range h 5 7) → 0 <= bp <= len b →
  session_ok (with_input r h 7 b bp s) ∧ partial (with_input r h 7 b bp s) = h ++ take (Z.to_nat bp) b.
Proof.
  intros [Hid Hhd Hhp Hbody Hbp (Hb1 & Hb2 & Hb3) Hfr Hw Hc] Hh Hhb Hbb Hr Hb Hp. split.
  - split; simpl; done || lia.
  - unfold partial. simpl. f_equal. by apply (take_all_len h 7).
Qed.

(** What the body reader starts from. *)
Lemma body_start s r h :
  session_ok s → len h = 7 → is_bytes h → (header_pos s = 7 → h = header s ∧ r = raw s) →
  take (Z.to_nat (header_pos s)) (header s) ++ arriving (raw s) = h ++ arriving r →
  let n := of_be (range h 5 7) in let b := resize_bytes n (body s) in
  0 <= n < 65536 ∧ len b = n ∧ is_bytes b ∧ 0 <= body_pos s <= n ∧
  partial s ++ arriving (raw s) = h ++ take (Z.to_nat (body_pos s)) b ++ arriving r.
Proof.
  intros Hs Hh Hhb Hfull E n b. pose proof Hs as [Hid Hhd Hhp Hbody Hbp (Hb1 & Hb2 & Hb3) Hfr Hw Hc].
  assert (0 <= n < 65536) as Hn.
  { pose proof (of_be_bound (range h 5 7) ltac:(by apply is_bytes_range)) as Hbd.
    rewrite len_range in Hbd by lia. exact Hbd. }
  split; [done|]. unfold partial. destruct (Z.eqb_spec (header_pos s) 7) as [E7|E7].
  - destruct (Hfull E7) as [-> ->]. unfold b, resize_bytes. fold n in Hbody. rewrite Hbody, Z.eqb_refl, E7.
    rewrite (take_all_len _ 7) by done. split_and!; try done; [lia..|]. by rewrite <- app_assoc.
  - rewrite Hbody in Hbp. assert (body_pos s = 0) as -> by (change (len (@nil Z)) with 0 in Hbp; lia).
    rewrite app_nil_r, E. unfold b, resize_bytes. rewrite Hbody. split_and!; try done; try lia.
    + destruct (Z.eqb_spec (len (@nil Z)) n) as [En|En]; [done|].
      rewrite len_app, len_replicate, take_nil, len_nil. lia.
    + case_match; [constructor|]. apply is_bytes_app. rewrite take_nil. split; [constructor|].
      apply Forall_replicate. unfold u8. lia.
Qed.

(** One frame, whatever the cuts: bytes are moved, never lost. *)
Lemma poll_frame_spec s p s' :
  session_ok s → poll_frame s = (p, s') →
  s' = with_input (raw s') (header s') (header_pos s') (body s') (body_pos s') s ∧
  answers (raw s') = answers (raw s) ∧ sent (raw s') = sent (raw s) ∧ session_ok s' ∧
  match p with
  | Pending | Ready (Err _) => partial s ++ arriving (raw s) = partial s' ++ arriving (raw s')
  | Ready (Ok (c, i, d)) => frame_ok (c, i, d) ∧ partial s' = [] ∧
      partial s ++ arriving (raw s) = frame c i d ++ arriving (raw s')
  | _ => False
  end.
Proof.
  intros Hs. unfold poll_frame.
  destruct (fill 7 7 (header s) (header_pos s) (raw s)) as [q [[h hp] r]] eqn:E.
  assert (header_pos s = 7 → h = header s ∧ r = raw s) as Hfull
    by (intros E7; rewrite E7 in E; by injection E as _ <- _ <-).
  pose proof (ok_header_pos _ Hs). destruct (ok_bytes _ Hs) as (Hb1 & Hb2 & Hb3).
  apply frame_fill_spec in E as (H1 & H2 & H3 & H4 & H5 & H6 & H7 & H8); [|apply Hs|done|lia|done|done].
  destruct q as [|[[]|e| |]]; try done;
    try (destruct (stop_in_header s r h hp) as [Hok Hpart]; try done; [lia|]; intros [= <- <-]; by split_and!).
  subst hp. rewrite (take_all_len h 7) in H7 by done.
  destruct (body_start s r h) as (Hn & Hrl & Hrb & Hbp & Hpart); [done..|].
  set (n := of_be (range h 5 7)) in *.
  destruct (fill _ n _ (body_pos s) r) as [q [[b bp] r2]] eqn:E.
  apply frame_fill_spec in E as (G1 & G2 & G3 & G4 & G5 & G6 & G7 & G8); [|done|done|lia|done|done].
  rewrite Hpart, G7. 
  destruct (stop_in_body s r2 h b bp) as [Hok Hp2]; [done..|lia|].
  destruct q as [|[[]|e| |]]; try done; try (intros [= <- <-]; split_and!; try done; try (simpl; congruence); by rewrite Hp2, <- app_assoc).
  intros [= <- <-]. destruct (header_frame h b) as [Hf He]; [done..|]. subst bp.
  split_and!; try done; try (simpl; congruence).
  - destruct Hs. split; simpl; try done. split_and!; [done|constructor|done].
  - rewrite He, (take_all_len b n) by done. by rewrite app_assoc.
Qed.

(** *** Writing *)
Lemma drop_front w pos (rest : list bytes) :
  front_pos w pos → drop (Z.to_nat pos) (concat (w ++ rest)) = drop (Z.to_nat pos) (concat w) ++ concat rest.
Proof.
  intros Hf. rewrite concat_app, drop_app_le; [done|]. destruct w as [|r w]; simpl in Hf.
  - subst. simpl. lia.
  - simpl. rewrite length_app. unfold len in Hf. lia.
Qed.

(** Every byte of the wire is sent once, in order. *)
Lemma flush_loop_spec fuel : ∀ s p s',
  flush_loop fuel s = (p, s') → (length (answers (raw s)) < fuel)%nat → healthy s = true → session_ok s →
  s' = with_output (raw s') (wire s') (wire_pos s') (healthy s') s ∧ session_ok s' ∧
  incoming (raw s') = incoming (raw s) ∧ output s' = output s ∧ sent (raw s) `prefix_of` sent (raw s') ∧
  match p with
  | Ready (Ok _) => wire s' = [] ∧ healthy s' = true
  | Pending => healthy s' = true
  | Ready (Err _) => healthy s' = false
  | _ => False
  end.
Proof.
  induction fuel as [|fuel IH]; intros s p s' E Hfuel Hh Hs; [lia|]. cbn [flush_loop] in E.
  pose proof (ok_front _ Hs Hh) as Hfront. pose proof (ok_wire _ Hs) as Hwire.
  destruct (wire s) as [|record rest] eqn:Ew.
  { injection E as <- <-. split_and!; try done. by destruct s. }
  assert (0 <= len (concat rest)) as Hrest by apply len_nonneg.
  assert (∀ r w pos h, incoming r = incoming (raw s) → (h = true → front_pos w pos) → bytes_of w <= WIRE_LIMIT →
    session_ok (with_output r w pos h s)) as Hok.
  { intros r w pos h Hi Hf Hw. destruct Hs as [? ? ? ? ? (? & ? & Ha) ? ? ?].
    split; simpl; try done. split_and!; try done. unfold arriving in *. by rewrite Hi. }
  destruct (Z.ltb_spec (wire_pos s) (len record)) as [Hlt|Hge].
  - destruct (raw_write _ (raw s)) as [q r] eqn:Eq. apply raw_write_sent in Eq as [Hi Hq].
    simpl in Hfront, Hwire.
    destruct q as [|[n|e| |]]; try done.
    + injection E as <- <-. split_and!; simpl; try done; [by apply Hok|unfold output; simpl; by rewrite Hq, Ew|by rewrite Hq].
    + destruct Hq as (Hn & Hsent & Hans). rewrite len_range in Hn by lia.
      assert (output (with_output r (record :: rest) (wire_pos s + n) (healthy s) s) = output s) as Hout.
      { unfold output. simpl. rewrite Hsent, Ew, <- app_assoc. f_equal. simpl. unfold len in *.
        rewrite !drop_app_le by lia. rewrite app_assoc. f_equal.
        unfold range. rewrite take_take. rewrite Nat.min_l by lia.
        rewrite <- (take_drop (Z.to_nat n) (drop (Z.to_nat (wire_pos s)) record)) at 2. f_equal.
        rewrite drop_drop. f_equal. lia. }
      destruct (Z.eqb_spec n 0) as [->|Hn0].
      * injection E as <- <-. simpl in Hsent. rewrite app_nil_r in Hsent.
        split_and!; simpl; try done; [by apply Hok| |by rewrite Hsent].
        unfold output. simpl. by rewrite Hsent, Ew.
      * apply IH in E as (H1 & H2 & H3 & H4 & H5 & H6); [|simpl; lia|done|apply Hok; [done|simpl; lia|done]].
        split_and!; [by rewrite H1 at 1|done|by rewrite H3|by rewrite H4| |done].
        etransitivity; [|exact H5]. simpl. rewrite Hsent. by eexists.
    + injection E as <- <-. split_and!; simpl; try done; [by apply Hok|unfold output; simpl; by rewrite Hq, Ew|by rewrite Hq].
  - destruct (raw_flush (raw s)) as [q r] eqn:Eq. apply raw_flush_sent in Eq as (Hi & Hsent & Hq).
    simpl in Hfront, Hwire.
    destruct q as [|[n|e| |]]; try done.
    + injection E as <- <-. split_and!; simpl; try done; [by apply Hok|unfold output; simpl; by rewrite Hsent, Ew|by rewrite Hsent].
    + assert (wire_pos s = len record) as Hpos by lia.
      assert (output (with_output r rest 0 (healthy s) s) = output s) as Hout.
      { unfold output. simpl. rewrite Hsent, Ew, Hpos. simpl. f_equal.
        unfold len. by rewrite Nat2Z.id, drop_app_length. }
      apply IH in E as (H1 & H2 & H3 & H4 & H5 & H6); [|simpl; lia|done|].
      2:{ apply Hok; [done| |pose proof (len_nonneg record); lia]. intros _. destruct rest as [|r2 rest]; simpl; [done|].
          pose proof (len_nonneg r2). lia. }
      split_and!; [by rewrite H1 at 1|done|by rewrite H3|by rewrite H4| |done].
      by rewrite <- H5, <- Hsent.
    + injection E as <- <-. split_and!; simpl; try done; [by apply Hok|unfold output; simpl; by rewrite Hsent, Ew|by rewrite Hsent].
Qed.

Lemma poll_flush_wire_spec s p s' :
  session_ok s → poll_flush_wire s = (p, s') →
  s' = with_output (raw s') (wire s') (wire_pos s') (healthy s') s ∧ session_ok s' ∧
  incoming (raw s') = incoming (raw s) ∧ output s' = output s ∧ sent (raw s) `prefix_of` sent (raw s') ∧
  (healthy s' = true → healthy s = true) ∧ (healthy s = false → s' = s) ∧
  match p with
  | Ready (Ok _) => wire s' = [] ∧ healthy s' = true
  | Pending => healthy s' = true
  | Ready (Err _) => healthy s' = false
  | _ => False
  end.
Proof.
  intros Hs. unfold poll_flush_wire. destruct (healthy s) eqn:Hh; cbn [negb].
  - intros E. apply flush_loop_spec in E as (H1 & H2 & H3 & H4 & H5 & H6); [|lia|done|done]. by split_and!.
  - intros [= <- <-]. split_and!; try done; [by destruct s|by rewrite Hh].
Qed.

Section session.
Context {G : Type} `{RG : Rng G} `{MD : Md5}.
Notation World := (World G).
Implicit Types w : World.

Definition world_ok w : Prop := policy_ok (padding w).

Lemma queue_spec fs w s w' s' :
  world_ok w → session_ok s → queue (enc fs) w s = (w', s') →
  padding w' = padding w ∧ session_ok s' ∧
  s' = with_wire (packet s') (wire s') (healthy s') s ∧
  (healthy s' = true → healthy s = true ∧ ∃ gaps, Forall (λ g, 0 <= g <= 16377) gaps ∧
     output s' = output s ++ enc (fs ++ pads gaps)) ∧
  (bytes_of (wire s) + Z.max 65536 (len (enc fs)) <= WIRE_LIMIT → healthy s' = healthy s).
Proof.
  intros Hw Hs. unfold queue. pose proof (sizes_bounded (padding w) (packet s) (rng w) Hw) as (Hsz & Htot & _).
  destruct (sizes (padding w) (packet s) (rng w)) as [szs g]. simpl in Hsz, Htot.
  destruct (records szs (enc fs) 0) as [rs pos] eqn:E.
  apply records_spec in E as (Hpos & Hne & gaps & Hc & Hg & Hend & Hstop & Hlen); [|done|pose proof (len_nonneg (enc fs)); lia].
  set (new := rs ++ (if pos <? len (enc fs) then [range (enc fs) pos (len (enc fs))] else [])).
  assert (concat new = enc fs ++ enc (pads gaps) ∧ len (concat new) <= Z.max 65536 (len (enc fs))) as [Hnew Hlnew].
  { unfold new. rewrite concat_app, Hc. destruct (Z.ltb_spec pos (len (enc fs))).
    - destruct gaps as [|gap gaps]; [|specialize (Hend ltac:(done)); lia]. simpl. rewrite !app_nil_r.
      rewrite range_split, range_all by (done || lia). by split; [|lia].
    - assert (pos = len (enc fs)) as -> by lia. rewrite range_all by (done || lia). simpl. rewrite app_nil_r.
      split; [done|]. rewrite Hc in Hlen. rewrite range_all in Hlen by (done || lia). lia. }
  fold (bytes_of (wire s ++ new)). rewrite bytes_of_app, (bytes_of_concat new).
  destruct (Z.ltb_spec WIRE_LIMIT (bytes_of (wire s) + len (concat new))) as [Hov|Hov]; intros [= <- <-].
  - split_and!; simpl; try done; [|intros; lia].
    destruct Hs. split; simpl; try done.
  - split_and!; simpl; try done.
    + destruct Hs as [? ? ? ? ? ? Hfr ? ?]. split; simpl; try done.
      * intros Hh. specialize (Hfr Hh). destruct (wire s); simpl in *; [|done]. rewrite Hfr.
        destruct new as [|r new']; simpl; [done|]. pose proof (len_nonneg r). lia.
      * fold new. rewrite bytes_of_app, (bytes_of_concat new). lia.
    + intros Hh. split; [done|]. exists gaps. split; [done|]. unfold output. simpl. fold new.
      rewrite drop_front by (by apply Hs). by rewrite Hnew, enc_app, app_assoc.
Qed.

(** ** The contract of a stream

    [stream_inv O I B fo fi del s]: since the state whose output was [O], whose
    remaining input was [I] and whose buffer was [B], the session has queued the
    frames [fo], accepted the frames [fi] and delivered [del]. *)
Record stream_inv (O I B : bytes) (fo fi : list Frame) (del : bytes) (s : Session) : Prop := {
  inv_ok : session_ok s;
  inv_fo : Forall frame_ok fo;
  inv_fi : Forall frame_ok fi;
  inv_sent : sent (raw s) `prefix_of` O ++ enc fo;
  inv_out : healthy s = true → output s = O ++ enc fo;
  inv_in : ∃ rest, I = enc fi ++ rest ++ arriving (raw s) ∧ (healthy s = true → rest = partial s);
  inv_buf : B ++ payload (id s) fi = del ++ buffered s;
}.

Lemma stream_inv_start s :
  session_ok s → stream_inv (output s) (partial s ++ arriving (raw s)) (buffered s) [] [] [] s.
Proof.
  intros Hs. split; try done; try constructor.
  - unfold output. rewrite app_nil_r. by eexists.
  - by rewrite app_nil_r.
  - by exists (partial s).
  - by rewrite app_nil_r.
Qed.

Lemma flush_inv O I B fo fi del s p s' :
  stream_inv O I B fo fi del s → poll_flush_wire s = (p, s') →
  stream_inv O I B fo fi del s' ∧ id s' = id s ∧ (healthy s' = true → healthy s = true) ∧
  content s' = content s ∧ content_pos s' = content_pos s ∧
  local_finished s' = local_finished s ∧ sent (raw s) `prefix_of` sent (raw s') ∧
  match p with
  | Ready (Ok _) => wire s' = [] ∧ healthy s' = true
  | Pending => healthy s' = true
  | Ready (Err _) => healthy s' = false
  | _ => False
  end.
Proof.
  intros Hi E. pose proof Hi as [Hok Hfo Hfi Hsent Hout (rest & HI & Hrest) Hbuf].
  apply poll_flush_wire_spec in E as (H1 & H2 & H3 & H4 & H5 & H6 & H7 & H8); [|done].
  split; [|by rewrite H1]. destruct (healthy s) eqn:Hh; [|by rewrite (H7 eq_refl)].
  split; try done.
  - rewrite <- Hout, <- H4 by done. unfold output. by eexists.
  - intros _. rewrite H4. by apply Hout.
  - exists rest. unfold arriving in *. rewrite H3. split; [done|]. intros _. rewrite Hrest by done. by rewrite H1.
  - rewrite H1. exact Hbuf.
Qed.

(** Changes of flags and of the content leave the two directions alone. *)
Lemma with_flags_ok a ss pf lf h s :
  session_ok s → (h = true → healthy s = true) → session_ok (with_flags a ss pf lf h s).
Proof. intros [] Hh. split; simpl; auto. Qed.

Lemma apply_spec c i d w s r w' s' :
  session_ok s → frame_ok (c, i, d) → world_ok w → apply c i d w s = (r, w', s') →
  world_ok w' ∧ id s' = id s ∧ raw s' = raw s ∧ partial s' = partial s ∧
  local_finished s' = local_finished s ∧
  match r with
  | Ok _ => session_ok s' ∧ buffered s' = buffered s ++ payload (id s) [(c, i, d)] ∧
      ∃ gs, Forall frame_ok gs ∧ own (id s) gs = [] ∧
        (healthy s' = true → healthy s = true ∧ output s' = output s ++ enc gs)
  | Err _ => s' = s ∧ w' = w
  | _ => False
  end.
Proof.
  intros Hs Hf Hw. unfold apply.
  assert (∀ s1, session_ok s1 → output s1 = output s → healthy s1 = healthy s → buffered s1 = buffered s →
    payload (id s) [(c, i, d)] = [] →
    session_ok s1 ∧ buffered s1 = buffered s ++ payload (id s) [(c, i, d)] ∧
    ∃ gs, Forall frame_ok gs ∧ own (id s) gs = [] ∧
      (healthy s1 = true → healthy s = true ∧ output s1 = output s ++ enc gs)) as Hsame.
  { intros s1 Hs1 Ho Hh Hb Hp. rewrite Hp, app_nil_r. split_and!; try done. exists []. simpl. rewrite app_nil_r, Ho, Hh.
    by split_and!. }
  unfold payload in Hsame |- *. simpl in Hsame |- *. rewrite app_nil_r in *.
  destruct (Z.eqb_spec c 0) as [->|H0]; [intros [= <- <- <-]; split_and!; try done; by apply Hsame|].
  destruct (Z.eqb_spec c 2) as [->|H2]; simpl.
  { destruct (Z.eqb_spec i (id s)) as [Hi|Hi]; simpl in *.
    - destruct (65535 <? _) eqn:El; intros [= <- <- <-]; [by split_and!|]. apply Z.ltb_ge in El.
      destruct (ok_content _ Hs) as [Hcp Hcl].
      assert (len (drop (Z.to_nat (content_pos s)) (content s)) = len (content s) - content_pos s) as Hld
        by (unfold len in *; rewrite length_drop; lia).
      assert (len (drop (Z.to_nat (content_pos s)) (content s) ++ d) <= 65535) as Hln by (rewrite len_app; lia).
      split_and!; try done; simpl.
      + destruct Hs. split; simpl; try done. pose proof (len_nonneg (drop (Z.to_nat (content_pos s)) (content s) ++ d)). lia.
      + exists []. simpl. rewrite app_nil_r. by split_and!.
    - destruct ((0 <? i) && (i <? id s)); intros [= <- <- <-]; [split_and!; try done; by apply Hsame|by split_and!]. }
  destruct (Z.eqb_spec c 3) as [->|H3]; simpl.
  { destruct ((i =? id s) && bool_decide (d = [])) eqn:E1.
    { intros [= <- <- <-]. split_and!; try done; apply Hsame; try done; by apply with_flags_ok. }
    destruct ((0 <? i) && (i <? id s)); intros [= <- <- <-]; [split_and!; try done; by apply Hsame|by split_and!]. }
  destruct (Z.eqb_spec c 7) as [->|H7]; simpl.
  { destruct (i =? id s).
    { destruct (negb _); intros [= <- <- <-]; [by split_and!|]. split_and!; try done; apply Hsame; try done;
      by apply with_flags_ok. }
    destruct ((0 <? i) && (i <? id s)); intros [= <- <- <-]; [split_and!; try done; by apply Hsame|by split_and!]. }
  destruct (Z.eqb_spec c 5) as [->|H5]; [intros [= <- <- <-]; by split_and!|].
  destruct ((c =? 6) && (i =? 0)).
  { destruct (parse d) as [p|e| |] eqn:Ep; intros [= <- <- <-]; try by split_and!.
    apply parse_ok in Ep. split_and!; try done; by apply Hsame. }
  destruct ((c =? 8) && bool_decide (d = [])).
  { destruct (16 <=? _); [intros [= <- <- <-]; by split_and!|].
    destruct (queue (frame 9 i []) w s) as [w1 s1] eqn:Eq. intros [= <- <- <-].
    replace (frame 9 i []) with (enc [(9, i, [])]) in Eq by done.
    apply queue_spec in Eq as (Q1 & Q2 & Q3 & Q4 & Q5); [|done..].
    split; [unfold world_ok; by rewrite Q1|]. rewrite Q3 at 1 2 3 4. split_and!; try done.
    - rewrite Q3. simpl. by rewrite app_nil_r.
    - destruct (healthy s1) eqn:Eh; [|exists []; by split_and!].
      destruct (Q4 eq_refl) as (Hh & gaps & Hg & Ho). exists ((9, i, []) :: pads gaps). split_and!.
      + constructor; [|by apply pads_ok]. destruct Hf as (_ & Hi & _). by split_and!.
      + by rewrite own_cons_other, own_pads.
      + done. }
  destruct ((c =? 9) && bool_decide (d = [])); [intros [= <- <- <-]; split_and!; try done; by apply Hsame|].
  destruct ((c =? 10) && (i =? 0)); [|intros [= <- <- <-]; by split_and!].
  destruct (utf8_decode d); [|intros [= <- <- <-]; by split_and!].
  destruct (settings_version l); intros [= <- <- <-]; [|by split_and!].
  split_and!; try done; apply Hsame; try done; by apply with_flags_ok.
Qed.

(** A frame that arrives and is applied. *)
Lemma frame_step_inv O I B fo fi del c i d w s s1 r w' s2 :
  stream_inv O I B fo fi del s → healthy s = true → world_ok w →
  poll_frame s = (Ready (Ok (c, i, d)), s1) → apply c i d w s1 = (r, w', s2) →
  world_ok w' ∧ id s2 = id s ∧ local_finished s2 = local_finished s ∧ sent (raw s2) = sent (raw s) ∧
  match r with
  | Ok _ => ∃ gs, own (id s) gs = [] ∧ stream_inv O I B (fo ++ gs) (fi ++ [(c, i, d)]) del s2
  | Err _ => stream_inv O I B fo fi del (unhealthy s2)
  | _ => False
  end.
Proof.
  intros Hinv Hh Hw Ef Ea. pose proof Hinv as [Hok Hfo Hfi Hsent Hout (rest & HI & Hrest) Hbuf].
  apply poll_frame_spec in Ef as (F1 & F2 & F3 & F4 & F5 & F6 & F7); [|done].
  specialize (Hrest Hh) as ->. rewrite F7 in HI.
  assert (id s1 = id s ∧ buffered s1 = buffered s ∧ healthy s1 = healthy s ∧ local_finished s1 = local_finished s
    ∧ output s1 = output s) as (Hid & Hb & Hh1 & Hlf & Ho1).
  { rewrite F1. split_and!; try done. unfold output. simpl. by rewrite F3. }
  apply apply_spec in Ea as (A1 & A2 & A3 & A4 & A5 & A6); [|done..].
  split; [done|]. split; [congruence|]. split; [congruence|]. split; [congruence|].
  destruct r as [[]|e| |]; try done.
  - destruct A6 as (Hok2 & Hb2 & gs & Hgs & Hp & Hout2). rewrite Hid in *.
    exists gs. split; [done|]. split; [done|by apply Forall_app|by apply Forall_app; split; [|constructor]|..].
    + rewrite A3, F3, enc_app, app_assoc. by apply prefix_app_r.
    + intros Hh2. destruct (Hout2 Hh2) as [_ ->]. rewrite Ho1, Hout, enc_app by done. by rewrite app_assoc.
    + exists []. rewrite A3, enc_app. simpl. rewrite app_nil_r, <- app_assoc. split; [done|]. intros _. by rewrite A4.
    + rewrite A2, payload_app, app_assoc, Hbuf, Hb2, Hb. by rewrite app_assoc.
  - destruct A6 as [-> ->]. split; try done; simpl.
    + by apply with_flags_ok.
    + by rewrite F3.
    + exists (frame c i d). rewrite <- HI. done.
    + rewrite Hid. unfold buffered in *. simpl. by rewrite Hb.
Qed.

Lemma with_content_inv O I B fo fi del del' c pos s :
  stream_inv O I B fo fi del s → 0 <= pos <= len c → len c <= 65535 →
  del ++ buffered s = del' ++ drop (Z.to_nat pos) c →
  stream_inv O I B fo fi del' (with_content c pos s).
Proof.
  intros [Hok Hfo Hfi Hsent Hout Hin Hbuf] Hpos Hlen E. split; try done.
  - destruct Hok. by split.
  - simpl. by rewrite Hbuf, E.
Qed.

Lemma unhealthy_inv O I B fo fi del s : stream_inv O I B fo fi del s → stream_inv O I B fo fi del (unhealthy s).
Proof.
  intros [Hok Hfo Hfi Hsent Hout (rest & HI & _) Hbuf]. split; try done; [by apply with_flags_ok|by exists rest].
Qed.

(** A reader that stops without a frame. *)
Lemma no_frame_inv O I B fo fi del s p s' :
  stream_inv O I B fo fi del s → healthy s = true → poll_frame s = (p, s') → (∀ f, p ≠ Ready (Ok f)) →
  stream_inv O I B fo fi del s' ∧ id s' = id s ∧ local_finished s' = local_finished s ∧
  sent (raw s') = sent (raw s) ∧ p ≠ Ready Panic ∧ p ≠ Ready Diverge.
Proof.
  intros [Hok Hfo Hfi Hsent Hout (rest & HI & Hrest) Hbuf] Hh E Hp.
  apply poll_frame_spec in E as (F1 & F2 & F3 & F4 & F5); [|done].
  assert (partial s ++ arriving (raw s) = partial s' ++ arriving (raw s')) as Hmove
    by (destruct p as [|[[[c i] d]|e| |]]; try done; by destruct (Hp (c, i, d))).
  split; [|split; [by rewrite F1|split; [by rewrite F1|split; [done|by destruct p as [|[]]]]]]. split; try done.
  - by rewrite F3.
  - intros _. rewrite <- Hout by done. rewrite F1. unfold output in *. simpl. by rewrite F3.
  - exists (partial s'). rewrite <- Hmove. split; [|done]. by rewrite HI, Hrest.
  - rewrite F1. exact Hbuf.
Qed.

(** What a poll does to the stream, for its value, its shared state and its session. *)
Definition poll_keeps {A} (O I B : bytes) (fo fi : list Frame) (del : bytes) (taken : A → bytes) s
    (p : poll A) w' s' : Prop :=
  world_ok w' ∧ id s' = id s ∧ local_finished s' = local_finished s ∧
  sent (raw s) `prefix_of` sent (raw s') ∧ p ≠ Ready Panic ∧ p ≠ Ready Diverge ∧
  ∃ gs hs, own (id s) gs = [] ∧
    stream_inv O I B (fo ++ gs) (fi ++ hs) (del ++ match p with Ready (Ok x) => taken x | _ => [] end) s'.

Lemma poll_keeps_id {A} O I B fo fi del (taken : A → bytes) s p w s' :
  world_ok w → id s' = id s → local_finished s' = local_finished s → sent (raw s) `prefix_of` sent (raw s') →
  match p with Ready Panic | Ready Diverge => False | _ => True end →
  stream_inv O I B fo fi (del ++ match p with Ready (Ok x) => taken x | _ => [] end) s' →
  poll_keeps O I B fo fi del taken s p w s'.
Proof.
  intros Hw Hid Hlf Hsent Hp Hi. split_and!; try done; [by destruct p as [|[]]..|]. exists [], []. by rewrite !app_nil_r.
Qed.

Lemma poll_keeps_from {A} O I B fo fi del (taken : A → bytes) s s1 p w s' :
  id s1 = id s → local_finished s1 = local_finished s → sent (raw s) `prefix_of` sent (raw s1) →
  poll_keeps O I B fo fi del taken s1 p w s' → poll_keeps O I B fo fi del taken s p w s'.
Proof.
  intros Hid Hlf Hse (K1 & K2 & K3 & K4 & K5 & K8 & gs & hs & K6 & K7). split_and!; try congruence; [by etransitivity|].
  exists gs, hs. by rewrite <- Hid.
Qed.

Lemma on_frame_keeps {A} O I B fo fi del (taken : A → bytes) k w s p w' s' :
  stream_inv O I B fo fi del s → healthy s = true → world_ok w →
  (∀ gs hs w1 s1, id s1 = id s → stream_inv O I B (fo ++ gs) (fi ++ hs) del s1 → world_ok w1 →
    k w1 s1 = (p, w', s') → poll_keeps O I B (fo ++ gs) (fi ++ hs) del taken s1 p w' s') →
  on_frame w s k = (p, w', s') → poll_keeps O I B fo fi del taken s p w' s'.
Proof.
  intros Hi Hh Hw Hk. unfold on_frame. destruct (poll_frame s) as [f s1] eqn:Ef.
  destruct f as [|[[[c i] d]|e| |]].
  - intros [= <- <- <-]. eapply no_frame_inv in Ef as (Hi1 & Hid & Hlf & Hse & _); [|done..].
    apply poll_keeps_id; try done; [by rewrite Hse|]. by rewrite app_nil_r.
  - destruct (apply c i d w s1) as [[r w1] s2] eqn:Ea.
    eapply frame_step_inv in Ea as (Hw1 & Hid & Hlf & Hse & Hr); [|done..]. destruct r as [u|e| |]; try done.
    + destruct Hr as (gs & Hgs & Hi2). intros E. destruct (Hk _ _ _ _ Hid Hi2 Hw1 E) as (K1 & K2 & K3 & K4 & K5 & K8 & gs' & hs' & K6 & K7).
      split_and!; try congruence. exists (gs ++ gs'), ((c, i, d) :: hs').
      rewrite own_app, Hgs. split; [by rewrite <- Hid|].
      rewrite (app_assoc fo). change ((c, i, d) :: hs') with ([(c, i, d)] ++ hs'). by rewrite (app_assoc fi).
    + intros [= <- <- <-]. apply poll_keeps_id; try done; [by rewrite <- Hse|]. by rewrite app_nil_r.
  - intros [= <- <- <-]. eapply no_frame_inv in Ef as (Hi1 & Hid & Hlf & Hse & _); [|done..].
    apply poll_keeps_id; try done; [by rewrite <- Hse|]. rewrite app_nil_r. by apply unhealthy_inv.
  - eapply no_frame_inv in Ef as (_ & _ & _ & _ & Hn & _); done.
  - eapply no_frame_inv in Ef as (_ & _ & _ & _ & _ & Hn); done.
Qed.

Lemma read_loop_keeps rounds : ∀ O I B fo fi del k w s p w' s',
  stream_inv O I B fo fi del s → world_ok w → 0 < k →
  read_loop rounds k w s = (p, w', s') →
  poll_keeps O I B fo fi del (λ bs, bs) s p w' s'.
Proof.
  induction rounds as [|rounds IH]; intros O I B fo fi del k w s p w' s' Hi Hw Hk; cbn [read_loop].
  { intros [= <- <- <-]. apply poll_keeps_id; try done. by rewrite app_nil_r. }
  destruct (ok_content _ (inv_ok _ _ _ _ _ _ _ Hi)) as [Hcp Hcl].
  destruct (Z.ltb_spec (content_pos s) (len (content s))) as [Hlt|Hge].
  - set (n := Z.min k _). intros [= <- <- <-]. apply poll_keeps_id; try done.
    eapply with_content_inv; [done|lia|done|].
    rewrite <- app_assoc. f_equal. unfold buffered.
    rewrite <- (take_drop (Z.to_nat n) (drop (Z.to_nat (content_pos s)) (content s))) at 1.
    unfold range. rewrite drop_drop. replace (content_pos s + n - content_pos s) with n by lia.
    simpl. do 2 f_equal. lia.
  - assert (stream_inv O I B fo fi del (with_content [] 0 s)) as Hi0.
    { eapply with_content_inv; [done|done|done|]. unfold buffered. rewrite drop_ge by (unfold len in *; lia). done. }
    set (s0 := with_content [] 0 s) in *.
    destruct (peer_finished s0).
    { intros [= <- <- <-]. apply poll_keeps_id; try done. by rewrite app_nil_r. }
    destruct (poll_flush_wire s0) as [q s1] eqn:Eq.
    eapply flush_inv in Eq as (Hi1 & Hid1 & _ & _ & _ & Hlf1 & Hse1 & Hq); [|done].
    assert (healthy s1 = true → on_frame w s1 (λ w s, read_loop rounds k w s) = (p, w', s') →
      poll_keeps O I B fo fi del (λ bs, bs) s p w' s') as Hnext.
    { intros Hh E. eapply on_frame_keeps in E; [|done..|].
      - by eapply poll_keeps_from.
      - intros gs hs w1 s2 _ Hi2 Hw2 E2. by eapply IH. }
    destruct q as [|[[]|e| |]]; try done; [by apply Hnext|by apply Hnext, Hq|].
    intros [= <- <- <-]. apply poll_keeps_id; try done. by rewrite app_nil_r.
Qed.

Lemma poll_read_keeps O I B fo fi del k w s p w' s' :
  stream_inv O I B fo fi del s → world_ok w → 0 <= k → poll_read k w s = (p, w', s') →
  poll_keeps O I B fo fi del (λ bs, bs) s p w' s'.
Proof.
  intros Hi Hw Hk. unfold poll_read. destruct (Z.eqb_spec k 0).
  - intros [= <- <- <-]. apply poll_keeps_id; try done. by rewrite app_nil_r.
  - apply read_loop_keeps; try done. lia.
Qed.

Lemma ready_loop_keeps rounds : ∀ O I B fo fi del w s p w' s',
  stream_inv O I B fo fi del s → world_ok w → ready_loop rounds w s = (p, w', s') →
  poll_keeps O I B fo fi del (λ _, []) s p w' s'.
Proof.
  induction rounds as [|rounds IH]; intros O I B fo fi del w s p w' s' Hi Hw; cbn [ready_loop].
  { intros [= <- <- <-]. apply poll_keeps_id; try done. by rewrite app_nil_r. }
  destruct (poll_flush_wire s) as [q s1] eqn:Eq.
  eapply flush_inv in Eq as (Hi1 & Hid1 & _ & _ & _ & Hlf1 & Hse1 & Hq); [|done].
  set (next := if acked s1 && server_settings s1 then _ else _).
  assert (healthy s1 = true → next = (p, w', s') → poll_keeps O I B fo fi del (λ _, []) s p w' s') as Hnext.
  { intros Hh. unfold next. destruct (acked s1 && server_settings s1).
    { intros [= <- <- <-]. apply poll_keeps_id; try done. by rewrite app_nil_r. }
    intros E. eapply on_frame_keeps in E; [|done..|]; [by eapply poll_keeps_from|].
    intros gs hs w1 s2 _ Hi2 Hw2. simpl. destruct (peer_finished s2); [|intros E2; by eapply IH].
    intros [= <- <- <-]. apply poll_keeps_id; try done. rewrite app_nil_r. by apply unhealthy_inv. }
  destruct q as [|[[]|e| |]]; try done; [by apply Hnext|by apply Hnext, Hq|].
  intros [= <- <- <-]. apply poll_keeps_id; try done. by rewrite app_nil_r.
Qed.

Lemma ready_loop_healthy rounds : ∀ O I B fo fi del w s w' s',
  stream_inv O I B fo fi del s → world_ok w → ready_loop rounds w s = (Ready (Ok tt), w', s') →
  healthy s' = true.
Proof.
  induction rounds as [|rounds IH]; intros O I B fo fi del w s w' s' Hi Hw; cbn [ready_loop]; [done|].
  destruct (poll_flush_wire s) as [q s1] eqn:Eq.
  eapply flush_inv in Eq as (Hi1 & _ & _ & _ & _ & _ & _ & Hq); [|done].
  set (next := if acked s1 && server_settings s1 then _ else _).
  assert (healthy s1 = true → next = (Ready (Ok tt), w', s') → healthy s' = true) as Hnext.
  { intros Hh. unfold next. destruct (acked s1 && server_settings s1); [by intros [= _ <-]|].
    unfold on_frame. destruct (poll_frame s1) as [f s2] eqn:Ef. destruct f as [|[[[c i] d]|e| |]]; try done.
    destruct (apply c i d w s2) as [[r w1] s3] eqn:Ea.
    eapply frame_step_inv in Ea as (Hw1 & _ & _ & _ & Hr); [|done..]. destruct r as [u|e| |]; try done.
    destruct Hr as (gs & _ & Hi2). destruct (peer_finished s3); [done|]. by eapply IH. }
  destruct q as [|[[]|e| |]]; try done; [by apply Hnext|by apply Hnext, Hq].
Qed.

(** A message that joins the wire. *)
Lemma queue_inv O I B fo fi del fs w s w' s' :
  stream_inv O I B fo fi del s → world_ok w → Forall frame_ok fs → queue (enc fs) w s = (w', s') →
  world_ok w' ∧ id s' = id s ∧ local_finished s' = local_finished s ∧
  (bytes_of (wire s) + Z.max 65536 (len (enc fs)) <= WIRE_LIMIT → healthy s' = healthy s) ∧
  ∃ gaps, stream_inv O I B (fo ++ fs ++ pads gaps) fi del s'.
Proof.
  intros [Hok Hfo Hfi Hsent Hout (rest & HI & Hrest) Hbuf] Hw Hfs E.
  apply queue_spec in E as (Q1 & Q2 & Q3 & Q4 & Q5); [|done..].
  split_and!; try done; [unfold world_ok; by rewrite Q1|by rewrite Q3..|].
  assert (∃ gaps, Forall (λ g, 0 <= g <= 16377) gaps ∧ (healthy s' = true →
    healthy s = true ∧ output s' = output s ++ enc (fs ++ pads gaps))) as (gaps & Hg & Ho).
  { destruct (healthy s'); [|by exists []]. destruct (Q4 eq_refl) as (Hh & gaps & Hg & Ho). by exists gaps. }
  exists gaps. split; try done.
  - apply Forall_app. split; [done|]. apply Forall_app. split; [done|by apply pads_ok].
  - rewrite enc_app, app_assoc, Q3. by apply prefix_app_r.
  - intros Hh. destruct (Ho Hh) as [Hh0 ->]. rewrite (enc_app fo), Hout by done. by rewrite app_assoc.
  - exists rest. rewrite Q3. split; [done|]. intros Hh. rewrite Q3 in Hh. by rewrite Hrest by apply (Ho Hh).
  - rewrite Q3. exact Hbuf.
Qed.

Lemma own_frame_ok s c d :
  session_ok s → c = 2 ∨ c = 3 → len d <= 65535 → Forall frame_ok [(c, id s, d)].
Proof. intros Hs Hc Hd. constructor; [|done]. split_and!; [unfold u8; simpl; lia|apply Hs|done]. Qed.

Lemma own_single i c d gaps : c = 2 ∨ c = 3 → own i ([(c, i, d)] ++ pads gaps) = [(c, i, d)].
Proof. intros Hc. simpl. by rewrite own_cons_same, own_pads. Qed.

Lemma enc_single c i d : frame c i d = enc [(c, i, d)].
Proof. simpl. by rewrite app_nil_r. Qed.

(** The frame of an accepted write. *)
Definition written_frame s (data : bytes) (p : poll Z) : list Frame :=
  match p with
  | Ready (Ok n) => if n =? 0 then [] else [(2, id s, take (Z.to_nat n) data)]
  | _ => []
  end.

Lemma poll_write_inv O I B fo fi del data w s p w' s' :
  stream_inv O I B fo fi del s → world_ok w → poll_write data w s = (p, w', s') →
  world_ok w' ∧ id s' = id s ∧ local_finished s' = local_finished s ∧ p ≠ Ready Panic ∧ p ≠ Ready Diverge ∧
  (∀ n, p = Ready (Ok n) → n = Z.min (len data) MAX_PAYLOAD ∧ local_finished s = false ∧ healthy s' = true) ∧
  ∃ gs, own (id s) gs = written_frame s data p ∧ stream_inv O I B (fo ++ gs) fi del s'.
Proof.
  intros Hi Hw. unfold poll_write. destruct (local_finished s) eqn:Hlf; simpl.
  { intros [= <- <- <-]. split_and!; try done. exists []. by rewrite app_nil_r. }
  destruct (peer_finished s).
  { intros [= <- <- <-]. split_and!; try done. exists []. by rewrite app_nil_r. }
  destruct (poll_flush_wire s) as [q s1] eqn:Eq.
  eapply flush_inv in Eq as (Hi1 & Hid1 & _ & _ & _ & Hlf1 & Hse1 & Hq); [|done].
  destruct q as [|[[]|e| |]]; try done;
    try (intros [= <- <- <-]; split_and!; try congruence; exists []; by rewrite app_nil_r).
  destruct Hq as [Hwire Hh]. set (n := Z.min (len data) MAX_PAYLOAD).
  assert (0 <= n <= 16384) as Hn by (pose proof (len_nonneg data); unfold n, MAX_PAYLOAD; lia).
  destruct (Z.eqb_spec n 0) as [Hz|Hz].
  { intros [= <- <- <-]. split_and!; try congruence; [by intros ? [= <-]|]. exists [].
    rewrite app_nil_r. by split. }
  destruct (queue _ w s1) as [w1 s2] eqn:Eq. intros [= <- <- <-].
  assert (len (take (Z.to_nat n) data) = n) as Hlen by (unfold n, len in *; rewrite length_take; lia).
  rewrite enc_single in Eq. eapply queue_inv in Eq as (Hw1 & Hid2 & Hlf2 & Hover & gaps & Hi2); [|done..|].
  2:{ apply own_frame_ok; [apply Hi1|by left|lia]. }
  split_and!; try congruence.
  - intros ? [= <-]. split_and!; [done..|]. rewrite Hover; [done|]. rewrite Hwire. simpl bytes_of.
    rewrite <- enc_single, len_frame, Hlen. unfold WIRE_LIMIT. lia.
  - eexists. split; [|exact Hi2]. simpl. rewrite (proj2 (Z.eqb_neq n 0)) by done. rewrite <- Hid1.
    apply own_single. by left.
Qed.

Lemma finish_inv O I B fo fi del s : stream_inv O I B fo fi del s → stream_inv O I B fo fi del (finish s).
Proof. intros [Hok Hfo Hfi Hsent Hout Hin Hbuf]. split; try done. by apply with_flags_ok. Qed.

Lemma queue_fin_inv O I B fo fi del w s w' s' :
  stream_inv O I B fo fi del s → world_ok w → queue_fin w s = (w', s') →
  world_ok w' ∧ id s' = id s ∧ local_finished s' = true ∧
  ∃ gs, own (id s) gs = [(3, id s, [])] ∧ stream_inv O I B (fo ++ gs) fi del s'.
Proof.
  intros Hi Hw. unfold queue_fin. rewrite enc_single. destruct (queue _ w s) as [w1 s1] eqn:Eq. intros [= <- <-].
  eapply queue_inv in Eq as (Hw1 & Hid & _ & _ & gaps & Hi1); [|done..|].
  2:{ apply own_frame_ok; [apply Hi|by right|done]. }
  split_and!; try done. eexists. split; [|by apply finish_inv]. apply own_single. by right.
Qed.

Lemma poll_shutdown_inv O I B fo fi del w s p w' s' :
  stream_inv O I B fo fi del s → world_ok w → poll_shutdown w s = (p, w', s') →
  world_ok w' ∧ id s' = id s ∧ local_finished s' = true ∧ p ≠ Ready Panic ∧ p ≠ Ready Diverge ∧
  ∃ gs, own (id s) gs = (if local_finished s then [] else [(3, id s, [])]) ∧
    stream_inv O I B (fo ++ gs) fi del s'.
Proof.
  intros Hi Hw. unfold poll_shutdown. destruct (if local_finished s then _ else _) as [w1 s1] eqn:E1.
  assert (world_ok w1 ∧ id s1 = id s ∧ local_finished s1 = true ∧
    ∃ gs, own (id s) gs = (if local_finished s then [] else [(3, id s, [])]) ∧
      stream_inv O I B (fo ++ gs) fi del s1) as (Hw1 & Hid1 & Hlf1 & gs & Hgs & Hi1).
  { destruct (local_finished s) eqn:Hlf; [|by eapply queue_fin_inv].
    injection E1 as <- <-. split_and!; try done. exists []. by rewrite app_nil_r. }
  destruct (poll_flush_wire s1) as [q s2] eqn:Eq. intros [= <- <- <-].
  eapply flush_inv in Eq as (Hi2 & Hid2 & _ & _ & _ & Hlf2 & _ & Hq); [|done].
  split_and!; try congruence; [by destruct q as [|[]]..|]. by exists gs.
Qed.

(** *** Histories of a stream

    What may happen to a stream: the polls of the application, and another session
    of the client that replaces the shared policy or draws random numbers. *)
Inductive Op := OpRead (remaining : Z) | OpWrite (data : bytes) | OpFlush | OpShutdown | OpShared (w : World).

Definition settled {A B} (p : poll A) (x : B) : outcome B :=
  match p with Ready Panic => Panic | Ready Diverge => Diverge | _ => Ok x end.

(** The frames the application asked for, the bytes it received, and the state. *)
Definition exec (o : Op) w s : outcome (list Frame * bytes * World * Session) :=
  match o with
  | OpRead k => let '(p, w, s) := poll_read k w s in
                settled p ([], match p with Ready (Ok bs) => bs | _ => [] end, w, s)
  | OpWrite data => let '(p, w', s') := poll_write data w s in settled p (written_frame s data p, [], w', s')
  | OpFlush => let '(p, s) := poll_flush_wire s in settled p ([], [], w, s)
  | OpShutdown => let '(p, w', s') := poll_shutdown w s in
                  settled p (if local_finished s then [] else [(3, id s, [])], [], w', s')
  | OpShared w => Ok ([], [], w, s)
  end.

Fixpoint run (ops : list Op) w s : outcome (list Frame * bytes * World * Session) :=
  match ops with
  | [] => Ok ([], [], w, s)
  | o :: ops =>
      '(asked, received, w, s) ← exec o w s;
      '(asked', received', w, s) ← run ops w s;
      Ok (asked ++ asked', received ++ received', w, s)
  end.

Definition op_ok (o : Op) : Prop :=
  match o with OpRead k => 0 <= k | OpShared w => world_ok w | _ => True end.

Lemma settled_ok {A B} (p : poll A) (x : B) : p ≠ Ready Panic → p ≠ Ready Diverge → settled p x = Ok x.
Proof. by destruct p as [|[]]. Qed.

Lemma exec_inv O I B fo fi del o w s :
  stream_inv O I B fo fi del s → world_ok w → op_ok o →
  ∃ asked received w' s' gs hs, exec o w s = Ok (asked, received, w', s') ∧ world_ok w' ∧ id s' = id s ∧
    own (id s) gs = asked ∧ stream_inv O I B (fo ++ gs) (fi ++ hs) (del ++ received) s'.
Proof.
  intros Hi Hw Ho. destruct o as [k|data| | |w1]; simpl.
  - destruct (poll_read k w s) as [[p w'] s'] eqn:E.
    eapply poll_read_keeps in E as (K1 & K2 & K3 & K4 & K5 & K8 & gs & hs & K6 & K7); [|done..].
    rewrite settled_ok by done. eexists _, _, w', s', gs, hs. by rewrite K6.
  - destruct (poll_write data w s) as [[p w'] s'] eqn:E.
    eapply poll_write_inv in E as (K1 & K2 & K3 & K4 & K5 & _ & gs & K6 & K7); [|done..].
    rewrite settled_ok by done. eexists _, _, w', s', gs, []. by rewrite !app_nil_r.
  - destruct (poll_flush_wire s) as [p s'] eqn:E.
    eapply flush_inv in E as (K1 & K2 & _ & _ & _ & _ & _ & Hp); [|done].
    rewrite settled_ok by (by destruct p as [|[]]). eexists _, _, w, s', [], []. by rewrite !app_nil_r.
  - destruct (poll_shutdown w s) as [[p w'] s'] eqn:E.
    eapply poll_shutdown_inv in E as (K1 & K2 & K3 & K4 & K5 & gs & K6 & K7); [|done..].
    rewrite settled_ok by done. eexists _, _, w', s', gs, []. by rewrite !app_nil_r.
  - eexists _, _, w1, s, [], []. by rewrite !app_nil_r.
Qed.

Lemma run_inv ops : ∀ O I B fo fi del w s,
  stream_inv O I B fo fi del s → world_ok w → Forall op_ok ops →
  ∃ asked received w' s' gs hs, run ops w s = Ok (asked, received, w', s') ∧ world_ok w' ∧ id s' = id s ∧
    own (id s) gs = asked ∧ stream_inv O I B (fo ++ gs) (fi ++ hs) (del ++ received) s'.
Proof.
  induction ops as [|o ops IH]; intros O I B fo fi del w s Hi Hw Hops.
  { eexists _, _, w, s, [], []. by rewrite !app_nil_r. }
  apply Forall_cons in Hops as [Ho Hops].
  destruct (exec_inv _ _ _ _ _ _ o _ _ Hi Hw Ho) as (a & r & w1 & s1 & gs & hs & E & Hw1 & Hid & Hown & Hi1).
  destruct (IH _ _ _ _ _ _ w1 s1 Hi1 Hw1 Hops) as (a' & r' & w2 & s2 & gs' & hs' & E' & Hw2 & Hid' & Hown' & Hi2).
  exists (a ++ a'), (r ++ r'), w2, s2, (gs ++ gs'), (hs ++ hs'). simpl. rewrite E. obind. rewrite E'. obind.
  rewrite Hid in *. split_and!; try done; [by rewrite own_app, Hown, Hown'|by rewrite !app_assoc].
Qed.

(** C4. A stream over a session, for any sequence of reads, writes, flushes and
    shutdowns, any padding policy received on the way and any cutting, delay or
    failure of the connection. Every poll returns. What the session puts on the
    connection is a sequence of whole frames; those of this stream are the accepted
    writes in order and one end mark, the others are padding and replies; bytes
    leave in order and, while the session is healthy, none is lost. What the
    application receives is the payload the peer addressed to this stream, in order:
    padding, control frames and frames of closed streams add nothing. Buffers stay
    within 65535 and 131072 bytes. *)
Theorem anytls_stream_spec ops w s :
  session_ok s → world_ok w → Forall op_ok ops →
  ∃ asked received w' s' fo fi,
    run ops w s = Ok (asked, received, w', s') ∧
    frames_of (enc fo) = fo ∧ own (id s) fo = asked ∧
    sent (raw s') `prefix_of` output s ++ enc fo ∧
    (healthy s' = true → output s' = output s ++ enc fo) ∧
    frames_of (enc fi) = fi ∧
    buffered s ++ payload (id s) fi = received ++ buffered s' ∧
    (∃ rest, partial s ++ arriving (raw s) = enc fi ++ rest ++ arriving (raw s') ∧
       (healthy s' = true → rest = partial s')) ∧
    len (buffered s') <= 65535 ∧ bytes_of (wire s') <= WIRE_LIMIT.
Proof.
  intros Hs Hw Hops.
  destruct (run_inv ops _ _ _ _ _ _ w s (stream_inv_start s Hs) Hw Hops)
    as (asked & received & w' & s' & fo & fi & Hrun & Hw' & Hid & Hown & [Hok Hfo Hfi Hsent Hout Hin Hbuf]).
  exists asked, received, w', s', fo, fi. simpl in *.
  split_and!; try done; [by apply frames_of_enc..|by rewrite <- Hid| |apply Hok].
  destruct (ok_content _ Hok) as [? ?]. unfold buffered, len in *. rewrite length_drop. lia.
Qed.

(** A write that was accepted is not lost to the bound of the wire: with any
    policy a server can install the session stays healthy, and a write of more than
    16384 bytes is accepted in part. Nothing is accepted after the local end mark. *)
Theorem anytls_write_bound data w s n w' s' :
  session_ok s → world_ok w → poll_write data w s = (Ready (Ok n), w', s') →
  n = Z.min (len data) 16384 ∧ healthy s' = true ∧ local_finished s = false ∧
  bytes_of (wire s') <= WIRE_LIMIT.
Proof.
  intros Hs Hw E. eapply poll_write_inv in E as (_ & _ & _ & _ & _ & Hn & gs & _ & Hi);
    [|by apply stream_inv_start|done].
  destruct (Hn n eq_refl) as (-> & Hlf & Hh). split_and!; try done. apply Hi.
Qed.

(** ** Policies and refused frames *)
Lemma returns_parse_parts parts : ∀ ranges b, returns (parse_parts parts ranges b).
Proof.
  induction parts as [|part parts IH]; intros ranges b; simpl; [done|].
  apply returns_bind; [apply returns_ensure|]. intros _ _. case_bool_decide; [apply IH|].
  apply returns_bind; [apply returns_ok_or|]. intros [lo hi] _.
  do 2 (apply returns_bind; [apply returns_ok_or|]; intros ? _).
  do 2 (apply returns_bind; [apply returns_ensure|]; intros _ _). apply IH.
Qed.

Lemma returns_parse_lines ls : ∀ st rs, returns (parse_lines ls st rs).
Proof.
  induction ls as [|line ls IH]; intros st rs; simpl; [done|].
  apply returns_bind; [apply returns_ok_or|]. intros [key value] _. case_bool_decide.
  - apply returns_bind; [apply returns_ensure|]. intros _ _. apply returns_bind; [apply returns_ok_or|]. intros ? _. apply IH.
  - apply returns_bind; [apply returns_ok_or|]. intros ? _. apply returns_bind; [apply returns_ensure|]. intros _ _.
    apply returns_bind; [apply returns_parse_parts|]. intros ? _. apply IH.
Qed.

Lemma returns_parse data : returns (parse data).
Proof.
  unfold parse. apply returns_bind; [apply returns_ensure|]. intros _ _.
  apply returns_bind; [apply returns_ok_or|]. intros text _.
  apply returns_bind; [apply returns_parse_lines|]. intros [st rs] _.
  apply returns_bind; [apply returns_ok_or|]. intros ? _. apply returns_bind; [apply returns_ensure|]. by intros _ _.
Qed.

Lemma default_ok : ∃ p, Padding_default = Ok p ∧ policy_ok p.
Proof.
  assert (∃ p, parse DEFAULT = Ok p) as [p Hp] by (eexists; vm_compute; reflexivity).
  exists p. unfold Padding_default. rewrite Hp. split; [done|]. by eapply parse_ok.
Qed.

(** C22. Bad policies and bad frames are refused without effect. Reading a policy
    always returns; one that is accepted has at most 128 packets, 16 segments a
    packet, segments of 1 to 16384 bytes and 65536 bytes a packet, and the sizes drawn
    from it obey these bounds; the built-in policy is accepted. A policy that is
    refused leaves the shared one in place, and a frame that is refused changes
    nothing, for its session and for the others. *)
Theorem anytls_refusal_spec :
  (∀ data, returns (parse data)) ∧
  (∀ data p, parse data = Ok p → policy_ok p) ∧
  (∀ p n g, policy_ok p → sizes_ok (sizes p n g).1) ∧
  (∃ p, Padding_default = Ok p ∧ policy_ok p) ∧
  (∀ data w s, is_ok (parse data) = false →
     apply 6 0 data w s = (Err "Invalid AnyTLS padding update", w, s)) ∧
  (∀ c i d w s e w' s', apply c i d w s = (Err e, w', s') → w' = w ∧ s' = s).
Proof.
  split_and!; [apply returns_parse|apply parse_ok|intros; by apply sizes_bounded|apply default_ok|..].
  - intros data w s Hp. unfold apply. simpl. by destruct (parse data).
  - intros c i d w s e w' s'. unfold apply.
    repeat (case_match; try (intros [= <- <- <-]; done); try done); try (by intros [=]).
Qed.
End session.

(** ** Examples *)
Definition zero_rng : Rng unit.
Proof.
  refine {| random_range lo hi g := (lo, g); random_fill n g := (replicate n 0, g) |}.
  - simpl. lia.
  - intros. apply length_replicate.
Defined.

Definition zero_md5 : Md5.
Proof. by refine {| md5_hex b := replicate 32 48 |}. Defined.

Definition no_policy : Padding := {| stop := 8; rules := {[1 := [Some (30, 40)]]}; md5 := replicate 32 48 |}.

(** A session between two frames, with a connection. *)
Definition example_session (r : Raw) : Session :=
  {| raw := r; id := 2; next_id := 3; sequence := 0; packet := 1; idle_since := 0; wire := []; wire_pos := 0;
     header := replicate 7 0; header_pos := 0; body := []; body_pos := 0; content := []; content_pos := 0;
     acked := true; server_settings := true; peer_finished := false; local_finished := false; healthy := true |}.

Lemma example_session_ok r : is_bytes (arriving r) → session_ok (example_session r).
Proof.
  intros Hr. split; simpl; try done. split_and!; [|constructor|done]. repeat constructor; unfold u8; lia.
Qed.

Lemma no_policy_ok : policy_ok no_policy.
Proof.
  split; [simpl; lia| |done]. apply map_Forall_singleton. split; [lia|]. split_and!; [|simpl; lia|simpl; lia].
  repeat constructor; lia.
Qed.

(** A write, a late frame of stream 1 and a frame of stream 2 cut in two. *)
Definition example_raw : Raw :=
  {| incoming := [Chunk (frame 2 1 [9; 9]); Chunk (take 8 (frame 2 2 [7; 8])); ReadPending;
                  Chunk (drop 8 (frame 2 2 [7; 8]))];
     answers := [Accept 5; WritePending; Accept 99; Accept 0]; sent := [] |}.

Lemma anytls_stream_spec_witness :
  ∃ w' s' fo, @run unit zero_rng zero_md5 [OpWrite [1; 2]; OpFlush; OpRead 10; OpRead 10; OpShutdown]
      {| padding := no_policy; rng := tt |} (example_session example_raw)
    = Ok ([(2, 2, [1; 2]); (3, 2, [])], [7; 8], w', s') ∧ own 2 fo = [(2, 2, [1; 2]); (3, 2, [])] ∧
      sent (raw s') `prefix_of` enc fo.
Proof.
  destruct (@anytls_stream_spec unit zero_rng zero_md5 [OpWrite [1; 2]; OpFlush; OpRead 10; OpRead 10; OpShutdown]
      {| padding := no_policy; rng := tt |} (example_session example_raw))
    as (asked & received & w' & s' & fo & fi & Hrun & _ & Hown & Hsent & _).
  - apply example_session_ok. vm_compute. repeat constructor; done.
  - apply no_policy_ok.
  - repeat constructor; simpl; lia.
  - exists w', s', fo. assert (asked = [(2, 2, [1; 2]); (3, 2, [])] ∧ received = [7; 8]) as [-> ->].
    { vm_compute in Hrun. by injection Hrun as <- <- _ _. }
    by split_and!.
Defined.

Lemma anytls_write_bound_witness :
  ∃ w' s', @poll_write unit zero_rng [1; 2] {| padding := no_policy; rng := tt |} (example_session example_raw)
    = (Ready (Ok 2), w', s') ∧ healthy s' = true.
Proof.
  destruct (@poll_write unit zero_rng [1; 2] {| padding := no_policy; rng := tt |} (example_session example_raw))
    as [[p w'] s'] eqn:E.
  assert (p = Ready (Ok 2)) as -> by (vm_compute in E; by injection E as <- _ _).
  exists w', s'. split; [done|].
  eapply anytls_write_bound in E as (_ & Hh & _); [done| |apply no_policy_ok].
  apply example_session_ok. vm_compute. repeat constructor; done.
Defined.
