(* ===== verification/AnyTlsPool.v ===== *)
(** * The pool of AnyTLS sessions (proxy/anytls/mod.rs)

    Opening a stream over an idle session or a new one, the return of a session
    whose stream is dropped, and the reaper of idle sessions, as operations on the
    state a [Client] shares; calls that overlap are the steps of [advance] and
    [advance_close].  Dialling is a parameter: the connection, or its
    error, of each attempt.  [budget] counts the polls before a timeout fires, and
    a stream of the connection that falls silent is one whose polls stay pending.
    The permits of the two semaphores are counters; other clients also take and
    return the global ones. *)
From S2P Require Import Prelude Bytes Text Sorting AsyncIo AnyTls.

Definition IDLE_LIMIT : Z := 4.
Definition IDLE_TTL : Z := 30 * 1000000000.
Definition SESSION_SLOTS : Z := 64.

Section pool.
Context {G : Type} `{RG : Rng G} `{MD : Md5}.
Notation World := (World G).

Record Client := {
  world : World;
  password : bytes;
  idle : list Session;
  slots : Z;
  global : Z;
  keep_idle : bool;
  next_sequence : Z;
}.

Definition with_world (w : World) (c : Client) : Client :=
  {| world := w; password := password c; idle := idle c; slots := slots c; global := global c;
     keep_idle := keep_idle c; next_sequence := next_sequence c |}.
Definition with_idle (l : list Session) (c : Client) : Client :=
  {| world := world c; password := password c; idle := l; slots := slots c; global := global c;
     keep_idle := keep_idle c; next_sequence := next_sequence c |}.
Definition with_permits (n m : Z) (c : Client) : Client :=
  {| world := world c; password := password c; idle := idle c; slots := n; global := m;
     keep_idle := keep_idle c; next_sequence := next_sequence c |}.

(** [n] sessions are dropped, with their permits. *)
Definition release (n : Z) (c : Client) : Client := with_permits (slots c + n) (global c + n) c.

(** [idle_since.elapsed() < IDLE_TTL]. *)
Definition fresh (now : Z) (s : Session) : bool := Z.max 0 (now - idle_since s) <? IDLE_TTL.

(** [take_idle] pops from the end; what it skips is dropped. *)
Fixpoint pop_fresh (now : Z) (rev_idle : list Session) : option Session * list Session * Z :=
  match rev_idle with
  | [] => (None, [], 0)
  | s :: rest =>
      if fresh now s then (Some s, rest, 0)
      else let '(o, l, dropped) := pop_fresh now rest in (o, l, dropped + 1)
  end.

Definition take_idle (now : Z) (c : Client) : option Session * Client :=
  let '(o, rest, dropped) := pop_fresh now (reverse (idle c)) in
  (o, release dropped (with_idle (reverse rest) c)).

(** ** A new session *)
(** [write_all]: every round polls the stream once. *)
Fixpoint write_all (fuel : nat) (bs : bytes) (r : Raw) : option (outcome unit) * Raw :=
  match fuel with
  | O => (None, r)
  | S fuel =>
      match bs with
      | [] => (Some (Ok tt), r)
      | _ =>
          match raw_write bs r with
          | (Pending, r) => write_all fuel bs r
          | (Ready (Ok n), r) =>
              if n =? 0 then (Some (Err "write zero"), r) else write_all fuel (drop (Z.to_nat n) bs) r
          | (Ready (Err e), r) => (Some (Err e), r)
          | (Ready Panic, r) => (Some Panic, r)
          | (Ready Diverge, r) => (Some Diverge, r)
          end
      end
  end.

(** The authentication block: the digest, the length of the padding, the padding. *)
Definition auth_block (c : Client) : bytes * Client :=
  let '(szs, g) := sizes (padding (world c)) 0 (rng (world c)) in
  let pad := match omap (λ s, s) szs with n :: _ => n | [] => 0 end in
  let '(noise, g) := random_fill (Z.to_nat pad) g in
  (password c ++ be16 (as_u16 pad) ++ noise,
   with_world {| padding := padding (world c); rng := g |} c).

Definition new_session (r : Raw) (seq : Z) (now : Z) : Session :=
  {| raw := r; id := 0; next_id := 1; sequence := seq; packet := 1; idle_since := now; wire := []; wire_pos := 0;
     header := replicate 7 0; header_pos := 0; body := []; body_pos := 0; content := []; content_pos := 0;
     acked := false; server_settings := false; peer_finished := false; local_finished := false; healthy := true |}.

(** Both permits, or none. *)
Definition reserve (c : Client) : outcome unit * Client :=
  if slots c <=? 0 then (Err "AnyTLS session capacity reached", c)
  else if global c <=? 0 then (Err "AnyTLS global capacity reached", c)
  else (Ok tt, with_permits (slots c - 1) (global c - 1) c).

(** The authentication block is written and flushed; [None] when the time runs out. *)
Definition greet (budget : nat) (auth : bytes) (r : Raw) : option (outcome Raw) :=
  match write_all budget auth r with
  | (Some (Ok _), r) =>
      match await budget raw_flush r with
      | (Some (Ok _), r) => Some (Ok r)
      | (Some (Err e), _) => Some (Err e)
      | (Some Panic, _) => Some Panic
      | (Some Diverge, _) => Some Diverge
      | (None, _) => None
      end
  | (Some (Err e), _) => Some (Err e)
  | (Some Panic, _) => Some Panic
  | (Some Diverge, _) => Some Diverge
  | (None, _) => None
  end.

(** [sequence.fetch_add] numbers the session. *)
Definition enrol (r : Raw) (now : Z) (c : Client) : Session * Client :=
  (new_session r (next_sequence c) now,
   {| world := world c; password := password c; idle := idle c; slots := slots c; global := global c;
      keep_idle := keep_idle c; next_sequence := (next_sequence c + 1) mod 2 ^ 64 |}).

(** [create_session]; [None] when the handshake times out. *)
Definition create_session (connect : outcome Raw) (budget : nat) (now : Z) (c : Client)
    : option (outcome Session) * Client :=
  match reserve c with
  | (Ok _, c) =>
      match connect with
      | Ok r =>
          let '(auth, c) := auth_block c in
          match greet budget auth r with
          | Some (Ok r) => let '(s, c) := enrol r now c in (Some (Ok s), c)
          | Some (Err e) => (Some (Err e), release 1 c)
          | Some Panic => (Some Panic, release 1 c)
          | Some Diverge => (Some Diverge, release 1 c)
          | None => (None, release 1 c)
          end
      | Err e => (Some (Err e), release 1 c)
      | Panic => (Some Panic, release 1 c)
      | Diverge => (None, release 1 c)
      end
  | (Err e, c) => (Some (Err e), c)
  | (Panic, c) => (Some Panic, c)
  | (Diverge, c) => (None, c)
  end.

(** ** Opening a stream *)
(** The session made ready for its next stream. *)
Definition next_stream (s : Session) : Session :=
  {| raw := raw s; id := next_id s; next_id := next_id s + 1; sequence := sequence s; packet := packet s;
     idle_since := idle_since s; wire := wire s; wire_pos := wire_pos s; header := header s;
     header_pos := header_pos s; body := body s; body_pos := body_pos s; content := []; content_pos := 0;
     acked := false; server_settings := server_settings s; peer_finished := false; local_finished := false;
     healthy := healthy s |}.

Definition open_request (version : bytes) (address : bytes) (c : Client) (s : Session) : bytes :=
  let settings := lit "v=2" ++ [newline] ++ lit "client=sockrocket/" ++ version ++ [newline]
                  ++ lit "padding-md5=" ++ md5 (padding (world c)) ++ [newline] in
  (if id s =? 1 then frame 4 0 settings else []) ++ frame 1 (id s) [] ++ frame 2 (id s) address.

(** Sends the request and waits for the answer the peer's version requires. *)
Definition settle (budget : nat) (request : bytes) (c : Client) (s : Session)
    : option (outcome unit) * Client * Session :=
  let '(w, s) := queue request (world c) s in
  match await budget poll_flush_wire s with
  | (Some (Ok _), s) =>
      let '(o, (w, s)) := await budget (λ '(w, s), let '(p, w, s) := poll_open_ready w s in (p, (w, s))) (w, s) in
      (o, with_world w c, s)
  | (o, s) => (o, with_world w c, s)
  end.

Inductive opened := Opened (s : Session) | Failed (e : string) | TimedOut | Crashed.

(** One attempt with a session: [None] means try again. *)
Definition attempt (budget : nat) (version address : bytes) (is_last : bool) (s : Session) (c : Client)
    : option opened * Client :=
  if next_id s =? U32_MAX then (None, release 1 c)
  else
    let s := next_stream s in
    let '(ready, c, s) := settle budget (open_request version address c s) c s in
    match ready with
    | Some (Ok _) => (Some (Opened s), c)
    | Some (Err e) => (if is_last then Some (Failed e) else None, release 1 c)
    | Some _ => (Some Crashed, release 1 c)
    | None => (Some TimedOut, release 1 c)
    end.

Definition attempt_new (budget : nat) (version address : bytes) (is_last : bool) (connect : outcome Raw) (now : Z)
    (c : Client) : option opened * Client :=
  match create_session connect budget now c with
  | (Some (Ok s), c) => attempt budget version address is_last s c
  | (Some (Err e), c) => (Some (Failed e), c)
  | (Some _, c) => (Some Crashed, c)
  | (None, c) => (Some TimedOut, c)
  end.

Definition open_initial (host : bytes) (port : Z) (initial version : bytes) (connect : nat → outcome Raw)
    (budget : nat) (now : Z) (c : Client) : opened * Client :=
  match socks_address host port with
  | Ok address =>
      let address := address ++ initial in
      let '(reused, c) := take_idle now c in
      let '(o, c) := match reused with
                     | Some s => attempt budget version address false s c
                     | None => attempt_new budget version address false (connect 0%nat) now c
                     end in
      match o with
      | Some o => (o, c)
      | None =>
          match attempt_new budget version address true (connect 1%nat) now c with
          | (Some o, c) => (o, c)
          | (None, c) => (Failed "AnyTLS session could not be opened", c)
          end
      end
  | Err e => (Failed e, c)
  | _ => (Crashed, c)
  end.

(** ** Calls that overlap

    [open_initial] is the call that nothing interrupts.  Between its locks a call waits
    for the network, and others run: here it is cut where it takes a lock, a permit or a
    number, and where it waits. *)
Inductive phase :=
  | Taking                              (** before [take_idle] *)
  | Dialling                            (** before the permits *)
  | Connecting                          (** with permits, the connection under way *)
  | Greeting (auth : bytes) (r : Raw)   (** the authentication block being written *)
  | Enrolling (r : Raw)                 (** before the number of the session *)
  | InHand (s : Session)                (** with a session, before its next stream *)
  | Asking (s : Session) (request : bytes)  (** the request built, not queued *)
  | Flushing (s : Session)
  | Waiting (s : Session).              (** for the answer of the peer *)

Record Call := { is_last : bool; target : bytes; at_ : phase }.

Definition goes (p : phase) (t : Call) : Call := {| is_last := is_last t; target := target t; at_ := p |}.

(** Whether a call holds the permits of a session. *)
Definition holds (p : phase) : bool := match p with Taking | Dialling => false | _ => true end.

Inductive progress := Continues (t : Call) | Opens (s : Session) | Ends.

(** The second attempt is the last one, over a new connection. *)
Definition again (t : Call) : progress :=
  if is_last t then Ends else Continues {| is_last := true; target := target t; at_ := Dialling |}.

(** What a call does up to its next lock or wait; [connect] is what the connection gave,
    [budget] the polls before the timeout. *)
Definition advance (version : bytes) (connect : outcome Raw) (budget : nat) (now : Z) (t : Call) (c : Client) : progress * Client :=
  match at_ t with
  | Taking =>
      let '(reused, c) := take_idle now c in
      (Continues (goes (match reused with Some s => InHand s | None => Dialling end) t), c)
  | Dialling => match reserve c with (Ok _, c) => (Continues (goes Connecting t), c) | (_, c) => (Ends, c) end
  | Connecting =>
      match connect with
      | Ok r => let '(auth, c) := auth_block c in (Continues (goes (Greeting auth r) t), c)
      | _ => (Ends, release 1 c)
      end
  | Greeting auth r =>
      match greet budget auth r with
      | Some (Ok r) => (Continues (goes (Enrolling r) t), c)
      | _ => (Ends, release 1 c)
      end
  | Enrolling r => let '(s, c) := enrol r now c in (Continues (goes (InHand s) t), c)
  | InHand s =>
      if next_id s =? U32_MAX then (again t, release 1 c)
      else let s := next_stream s in (Continues (goes (Asking s (open_request version (target t) c s)) t), c)
  | Asking s request =>
      let '(w, s) := queue request (world c) s in (Continues (goes (Flushing s) t), with_world w c)
  | Flushing s =>
      match await budget poll_flush_wire s with
      | (Some (Ok _), s) => (Continues (goes (Waiting s) t), c)
      | (Some (Err _), _) => (again t, release 1 c)
      | _ => (Ends, release 1 c)
      end
  | Waiting s =>
      let '(p, w, s) := poll_open_ready (world c) s in
      let c := with_world w c in
      match p with
      | Pending => (Continues (goes (Waiting s) t), c)
      | Ready (Ok _) => (Opens s, c)
      | Ready (Err _) => (again t, release 1 c)
      | _ => (Ends, release 1 c)
      end
  end.

(** A call that is dropped, or whose time is over, gives back what it holds. *)
Definition abandon (t : Call) (c : Client) : Client := if holds (at_ t) then release 1 c else c.

(** ** The end of a stream *)
Definition by_sequence (a b : Session) : bool := sequence a <=? sequence b.

Definition recycle (now : Z) (s : Session) (c : Client) : Client :=
  if negb (keep_idle c) || negb (healthy s) then release 1 c
  else
    let l := sort_by by_sequence (idle c ++ [with_idle_since now s]) in
    if IDLE_LIMIT <? len l then release 1 (with_idle (drop 1 l) c) else with_idle l c.

(** The finalizer [drop] spawns; without a runtime the session is only dropped. *)
Definition drop_stream (runtime : bool) (budget : nat) (now : Z) (s : Session) (c : Client) : Client :=
  if negb (healthy s) || negb (keep_idle c) || negb runtime then release 1 c
  else
    let '(w, s) := if negb (local_finished s) && negb (peer_finished s)
                   then queue_fin (world c) s else (world c, s) in
    let c := with_world w c in
    match await budget poll_flush_wire s with
    | (Some (Ok _), s) => recycle now s c
    | _ => release 1 c
    end.

(** The same in the steps of the finalizer: [drop] itself, the last frame queued, the wire
    flushed and the session returned. *)
Inductive closing := Finishing (s : Session) | Draining (s : Session).

Definition start_close (runtime : bool) (s : Session) (c : Client) : option closing * Client :=
  if negb (healthy s) || negb (keep_idle c) || negb runtime then (None, release 1 c) else (Some (Finishing s), c).

Definition advance_close (budget : nat) (now : Z) (k : closing) (c : Client) : option closing * Client :=
  match k with
  | Finishing s =>
      let '(w, s) := if negb (local_finished s) && negb (peer_finished s)
                     then queue_fin (world c) s else (world c, s) in
      (Some (Draining s), with_world w c)
  | Draining s =>
      match await budget poll_flush_wire s with
      | (Some (Ok _), s) => (None, recycle now s c)
      | _ => (None, release 1 c)
      end
  end.

(** ** The reaper *)
(** Sixteen frames of an idle session; [None] drops it. *)
Fixpoint reap_session (rounds : nat) (w : World) (s : Session) : World * option Session :=
  match rounds with
  | O => (w, Some s)
  | S rounds =>
      match poll_flush_wire s with
      | (Ready (Err _), _) => (w, None)
      | (_, s) =>
          match poll_frame s with
          | (Ready (Ok (cmd, fid, data)), s) =>
              match apply cmd fid data w s with
              | (Ok _, w, s) => reap_session rounds w (with_content [] 0 s)
              | (_, w, _) => (w, None)
              end
          | (Pending, s) => (w, Some s)
          | (_, _) => (w, None)
          end
      end
  end.

Fixpoint reap_all (w : World) (l : list Session) : World * list Session :=
  match l with
  | [] => (w, [])
  | s :: l =>
      let '(w, o) := reap_session 16 w s in
      let '(w, l) := reap_all w l in
      (w, match o with Some s => s :: l | None => l end)
  end.

(** The poll of the reaper over every idle session. *)
Definition reap_poll (c : Client) : Client :=
  let '(w, l) := reap_all (world c) (idle c) in
  release (len (idle c) - len l) (with_world w (with_idle l c)).

(** [retain(|s| s.idle_since.elapsed() < IDLE_TTL)]. *)
Definition reap_expired (now : Z) (c : Client) : Client :=
  let l := filter (λ s, fresh now s = true) (idle c) in
  release (len (idle c) - len l) (with_idle l c).
End pool.
