(* ===== verification/AnyTlsPoolSpec.v ===== *)
(** * AnyTLS: opening, returning and reaping sessions *)
From S2P Require Import Prelude Bytes Text Net Sorting AsyncIo AnyTls AnyTlsFrames AnyTlsSpec AnyTlsPool.

#[local] Open Scope list_scope.
#[local] Open Scope Z_scope.

Section pool.
Context {G : Type} `{RG : Rng G} `{MD : Md5}.
Notation World := (World G).
Notation Client := (Client (G := G)).
Implicit Types (w : World) (c : Client).

(** ** Permits

    A client that gives up [n] sessions, or takes them: what an operation may do to
    the counters. *)
Definition held c : Z := slots c + len (idle c).

Lemma held_release n c : held (release n c) = held c + n.
Proof. unfold held. simpl. lia. Qed.

(** ** Taking an idle session *)
Lemma pop_fresh_spec now l : 
  let '(o, rest, dropped) := pop_fresh now l in
  ∃ stale, Forall (λ s, fresh now s = false) stale ∧ dropped = len stale ∧
    match o with
    | Some s => l = stale ++ s :: rest ∧ fresh now s = true
    | None => l = stale ∧ rest = []
    end.
Proof.
  induction l as [|s l IH]; simpl; [by exists []|]. destruct (fresh now s) eqn:Hs; [by exists []|].
  destruct (pop_fresh now l) as [[o rest] dropped]. destruct IH as (stale & Hf & -> & Ho).
  exists (s :: stale). split; [by constructor|]. split; [rewrite len_cons; lia|].
  destruct o; [destruct Ho as [-> ?]|destruct Ho as [-> ->]]; by split.
Qed.

(** The newest session that is not too old is taken, newer ones that are go. *)
Lemma take_idle_spec now c o c' :
  take_idle now c = (o, c') →
  world c' = world c ∧ keep_idle c' = keep_idle c ∧
  ∃ stale, Forall (λ s, fresh now s = false) stale ∧
    match o with
    | Some s => idle c = idle c' ++ s :: stale ∧ fresh now s = true ∧ held c' = held c - 1
    | None => idle c = stale ∧ idle c' = [] ∧ held c' = held c
    end.
Proof.
  unfold take_idle. pose proof (pop_fresh_spec now (reverse (idle c))) as Hp.
  destruct (pop_fresh now (reverse (idle c))) as [[r rest] dropped]. intros [= <- <-].
  destruct Hp as (stale & Hf & -> & Hr). split; [done|]. split; [done|]. exists (reverse stale).
  split; [by rewrite Forall_reverse|]. unfold held. simpl.
  destruct r as [s|]; [destruct Hr as [E Hfr]|destruct Hr as [E ->]].
  - assert (idle c = reverse rest ++ s :: reverse stale) as Hi.
    { rewrite <- (reverse_involutive (idle c)), E, reverse_app, reverse_cons. by rewrite <- app_assoc. }
    split_and!; [done..|]. rewrite Hi, len_app, len_cons. unfold len. rewrite !length_reverse. simpl. lia.
  - assert (idle c = reverse stale) as Hi by (by rewrite <- (reverse_involutive (idle c)), E).
    split_and!; [done..|]. rewrite Hi. change (reverse []) with (@nil Session). unfold len. rewrite length_reverse. simpl. lia.
Qed.

(** ** A new session *)
Lemma write_all_spec fuel : ∀ bs r o r',
  write_all fuel bs r = (o, r') →
  incoming r' = incoming r ∧ (o = Some (Ok tt) → sent r' = sent r ++ bs) ∧ sent r `prefix_of` sent r' ∧
  sent r' `prefix_of` sent r ++ bs ∧ o ≠ Some Panic ∧ o ≠ Some Diverge.
Proof.
  induction fuel as [|fuel IH]; intros bs r o r'; cbn [write_all].
  { intros [= <- <-]. split_and!; try done. by eexists. }
  destruct bs as [|b bs]; [intros [= <- <-]; split_and!; try done; by rewrite app_nil_r|].
  destruct (raw_write (b :: bs) r) as [q r1] eqn:E. apply raw_write_sent in E as [Hi Hq].
  destruct q as [|[n|e| |]]; try done.
  - intros E%IH. rewrite Hi, Hq in E. done.
  - destruct Hq as (Hn & Hs & _). destruct (Z.eqb_spec n 0) as [->|].
    { intros [= <- <-]. simpl in Hs. rewrite Hs, app_nil_r. split_and!; try done. by eexists. }
    intros E%IH. rewrite Hi, Hs in E. rewrite <- (take_drop (Z.to_nat n) (b :: bs)) at 1 2.
    rewrite app_assoc. destruct E as (H1 & H2 & H3 & H4 & H5). split_and!; try done; try apply H5.
    etransitivity; [|exact H3]. by eexists.
  - intros [= <- <-]. rewrite Hq. split_and!; try done. by eexists.
Qed.

Lemma raw_flush_incoming budget r o r' :
  await budget raw_flush r = (o, r') → incoming r' = incoming r ∧ sent r' = sent r.
Proof.
  intros E. apply (await_ind raw_flush (λ r', incoming r' = incoming r ∧ sent r' = sent r)) in E; [done| |done].
  intros r1 p r2 [H1 H2] E1. apply raw_flush_sent in E1 as (H3 & H4 & _). split; congruence.
Qed.

Lemma auth_block_spec c bs c' :
  auth_block c = (bs, c') →
  padding (world c') = padding (world c) ∧ idle c' = idle c ∧ slots c' = slots c ∧ global c' = global c ∧
  keep_idle c' = keep_idle c ∧ next_sequence c' = next_sequence c ∧
  ∃ pad noise, bs = password c ++ be16 (as_u16 pad) ++ noise ∧ len noise = Z.max 0 pad.
Proof.
  unfold auth_block. destruct (sizes (padding (world c)) 0 (rng (world c))) as [szs g].
  set (pad := match omap _ szs with [] => 0 | n :: _ => n end).
  pose proof (random_fill_length (Z.to_nat pad) g) as Hl.
  destruct (random_fill (Z.to_nat pad) g) as [noise g'].
  intros [= <- <-]. split_and!; try done. exists pad, noise. split; [done|]. simpl in Hl. unfold len. lia.
Qed.

Lemma new_session_ok r n now : is_bytes (arriving r) → session_ok (new_session r n now).
Proof.
  intros Hr. split; simpl; try done. split_and!; [|constructor|done]. repeat constructor; unfold u8; lia.
Qed.

Lemma greet_spec budget auth r o :
  greet budget auth r = o → o ≠ Some Panic ∧ o ≠ Some Diverge ∧
  (∀ r', o = Some (Ok r') → incoming r' = incoming r ∧ sent r' = sent r ++ auth).
Proof.
  intros <-. unfold greet. destruct (write_all budget auth r) as [o1 r1] eqn:Ew.
  apply write_all_spec in Ew as (W1 & W2 & _ & _ & W5 & W6). destruct o1 as [[[]|e| |]|]; try done.
  destruct (await budget raw_flush r1) as [o2 r2] eqn:Ef. pose proof Ef as Ef2. apply raw_flush_incoming in Ef as [F1 F2].
  assert (o2 ≠ Some Panic ∧ o2 ≠ Some Diverge) as [F3 F4].
  { clear -Ef2. revert r1 Ef2.
    induction budget as [|n IH]; intros r1; cbn [await]; [by intros [= <- _]|].
    destruct (raw_flush r1) as [q r3] eqn:Eq. apply raw_flush_sent in Eq as (_ & _ & Hq). destruct q as [|[[]|e| |]]; try done; [apply IH|by intros [= <- _]..]. }
  destruct o2 as [[[]|e| |]|]; try done. split; [done|]. split; [done|]. intros r' [= <-]. split; [congruence|]. by rewrite F2, W2.
Qed.

Lemma release_reserved (c : Client) : release 1 (with_permits (slots c - 1) (global c - 1) c) = c.
Proof. unfold release, with_permits. destruct c. simpl. f_equal; lia. Qed.

Lemma create_session_spec connect budget now c o c' :
  (∀ r, connect = Ok r → is_bytes (arriving r)) → world_ok (world c) →
  create_session connect budget now c = (o, c') →
  world_ok (world c') ∧ idle c' = idle c ∧ keep_idle c' = keep_idle c ∧
  match o with
  | Some (Ok s) => slots c' = slots c - 1 ∧ 0 < slots c ∧ session_ok s ∧ id s = 0 ∧ next_id s = 1 ∧ healthy s = true ∧
      sequence s = next_sequence c ∧ next_sequence c' = (next_sequence c + 1) mod 2 ^ 64 ∧
      ∃ r pad noise, connect = Ok r ∧ len noise = Z.max 0 pad ∧
        output s = sent r ++ password c ++ be16 (as_u16 pad) ++ noise
  | _ => slots c' = slots c
  end.
Proof.
  intros Hbytes Hw. unfold create_session, reserve.
  destruct (Z.leb_spec (slots c) 0); [by intros [= <- <-]|].
  destruct (Z.leb_spec (global c) 0); [by intros [= <- <-]|].
  destruct connect as [r|e| |]; try (intros [= <- <-]; by rewrite release_reserved).
  destruct (auth_block _) as [auth c1] eqn:Ea.
  apply auth_block_spec in Ea as (A1 & A2 & A3 & A4 & A5 & A6 & pad & noise & A7 & A8).
  simpl in A1, A2, A3, A4, A5, A6, A7.
  assert (world_ok (world c1)) as Hw1 by (unfold world_ok; by rewrite A1).
  destruct (greet budget auth r) as [o1|] eqn:Eg; [|intros [= <- <-]; simpl; split_and!; try done; by rewrite A3; lia].
  apply greet_spec in Eg as (_ & _ & Hg).
  destruct o1 as [r1|e| |]; try (intros [= <- <-]; simpl; split_and!; try done; by rewrite A3; lia).
  destruct (Hg r1 eq_refl) as [G1 G2]. unfold enrol.
  intros [= <- <-]. cbn -[Z.pow Z.modulo new_session]. rewrite A2, A3, A5, A6. split_and!; try reflexivity; try assumption.
  - apply new_session_ok. unfold arriving. rewrite G1. by apply Hbytes.
  - exists r, pad, noise. split_and!; try done. unfold output. simpl. by rewrite app_nil_r, G2, A7.
Qed.

(** ** What identifies a session is left alone by its polls *)
Definition ident (s : Session) : Z * Z * Z := (id s, next_id s, sequence s).

Lemma queue_ident data w s w' s' : queue data w s = (w', s') → ident s' = ident s.
Proof.
  unfold queue. destruct (sizes _ _ _), (records _ _ _). intros [= _ <-]. by destruct (WIRE_LIMIT <? _).
Qed.

Lemma flush_loop_ident fuel : ∀ s p s', flush_loop fuel s = (p, s') → ident s' = ident s.
Proof.
  induction fuel as [|fuel IH]; intros s p s'; cbn [flush_loop]; [by intros [= _ <-]|].
  destruct (wire s) as [|r rest]; [by intros [= _ <-]|]. destruct (wire_pos s <? len r).
  - destruct (raw_write _ _) as [[|[n|e| |]] r1]; try by intros [= _ <-].
    destruct (n =? 0); [by intros [= _ <-]|]. by intros E%IH.
  - destruct (raw_flush _) as [[|[n|e| |]] r1]; try by intros [= _ <-]. by intros E%IH.
Qed.

Lemma flush_ident s p s' : poll_flush_wire s = (p, s') → ident s' = ident s.
Proof. unfold poll_flush_wire. destruct (negb _); [by intros [= _ <-]|]. apply flush_loop_ident. Qed.

Lemma poll_frame_ident s p s' : poll_frame s = (p, s') → ident s' = ident s.
Proof.
  unfold poll_frame. destruct (fill 7 _ _ _ _) as [[|[[]|e| |]] [[h hp] r]]; try by intros [= _ <-].
  destruct (fill _ _ _ _ _) as [[|[[]|e| |]] [[b bp] r1]]; by intros [= _ <-].
Qed.

Lemma apply_ident (cmd i : Z) d w s r w' s' : apply cmd i d w s = (r, w', s') → ident s' = ident s.
Proof.
  unfold apply. repeat (case_match; try (intros [= _ _ <-]; done)).
  intros [= _ _ <-]. by eapply queue_ident.
Qed.

Lemma on_frame_ident {A} (k : World → Session → poll A * World * Session) w s p w' s' :
  (∀ w1 s1, k w1 s1 = (p, w', s') → ident s' = ident s1) → on_frame w s k = (p, w', s') → ident s' = ident s.
Proof.
  intros Hk. unfold on_frame. destruct (poll_frame s) as [f s1] eqn:Ef. apply poll_frame_ident in Ef.
  destruct f as [|[[[c i] d]|e| |]]; try by intros [= _ _ <-].
  destruct (apply c i d w s1) as [[r w1] s2] eqn:Ea. apply apply_ident in Ea.
  destruct r; try (intros [= _ _ <-]; by etransitivity). intros E%Hk. congruence.
Qed.

Lemma ready_loop_ident rounds : ∀ w s p w' s', ready_loop rounds w s = (p, w', s') → ident s' = ident s.
Proof.
  induction rounds as [|rounds IH]; intros w s p w' s'; cbn [ready_loop]; [by intros [= _ _ <-]|].
  destruct (poll_flush_wire s) as [q s1] eqn:Eq. apply flush_ident in Eq. rewrite <- Eq.
  set (next := if acked s1 && server_settings s1 then _ else _).
  assert (next = (p, w', s') → ident s' = ident s1) as Hnext.
  { unfold next. destruct (_ && _); [by intros [= _ _ <-]|]. apply on_frame_ident. intros w2 s2.
    destruct (peer_finished s2); [by intros [= _ _ <-]|apply IH]. }
  destruct q as [|[]]; try done. by intros [= _ _ <-].
Qed.

Lemma open_ready_ident w s p w' s' : poll_open_ready w s = (p, w', s') → ident s' = ident s.
Proof. unfold poll_open_ready. destruct (negb _); [by intros [= _ _ <-]|]. apply ready_loop_ident. Qed.

Lemma read_loop_ident rounds : ∀ k w s p w' s', read_loop rounds k w s = (p, w', s') → ident s' = ident s.
Proof.
  induction rounds as [|rounds IH]; intros k w s p w' s'; cbn [read_loop]; [by intros [= _ _ <-]|].
  destruct (content_pos s <? _); [by intros [= _ _ <-]|].
  destruct (peer_finished _); [by intros [= _ _ <-]|].
  destruct (poll_flush_wire _) as [q s1] eqn:Eq. apply flush_ident in Eq.
  change (ident (with_content [] 0 s)) with (ident s) in Eq. rewrite <- Eq.
  assert (on_frame w s1 (λ w s, read_loop rounds k w s) = (p, w', s') → ident s' = ident s1) as Hnext.
  { apply on_frame_ident. intros w2 s2. apply IH. }
  destruct q as [|[]]; try done. by intros [= _ _ <-].
Qed.

Lemma exec_ident o w s a r w' s' : exec o w s = Ok (a, r, w', s') → ident s' = ident s.
Proof.
  destruct o as [k|data| | |w1]; simpl.
  - unfold poll_read. destruct (k =? 0); [by intros [= _ _ _ <-]|].
    destruct (read_loop 16 k w s) as [[p w1] s1] eqn:E. apply read_loop_ident in E.
    unfold settled. destruct p as [|[]]; try done; by intros [= _ _ _ <-].
  - unfold poll_write. destruct (_ || _); [by intros [= _ _ _ <-]|].
    destruct (poll_flush_wire s) as [q s1] eqn:Eq. apply flush_ident in Eq.
    destruct q as [|[]]; try done; try by intros [= _ _ _ <-].
    destruct (_ =? 0); [by intros [= _ _ _ <-]|]. destruct (queue _ w s1) as [w1 s2] eqn:E.
    apply queue_ident in E. intros [= _ _ _ <-]. congruence.
  - destruct (poll_flush_wire s) as [q s1] eqn:Eq. apply flush_ident in Eq.
    unfold settled. destruct q as [|[]]; try done; by intros [= _ _ _ <-].
  - unfold poll_shutdown, queue_fin.
    destruct (if local_finished s then _ else _) as [w1 s1] eqn:E1.
    assert (ident s1 = ident s) as Hid.
    { destruct (local_finished s); [by injection E1 as _ <-|]. destruct (queue _ w s) as [w2 s2] eqn:Eq.
      injection E1 as _ <-. apply queue_ident in Eq. exact Eq. }
    destruct (poll_flush_wire s1) as [q s2] eqn:Eq. apply flush_ident in Eq.
    unfold settled. destruct q as [|[]]; try done; intros [= _ _ _ <-]; congruence.
  - by intros [= _ _ _ <-].
Qed.

(** ** Opening a stream *)
Lemma await_flush_inv O I B fo fi del budget s o s' :
  stream_inv O I B fo fi del s → await budget poll_flush_wire s = (o, s') →
  stream_inv O I B fo fi del s' ∧ ident s' = ident s ∧ sent (raw s) `prefix_of` sent (raw s') ∧
  (o = Some (Ok tt) → healthy s' = true ∧ wire s' = []) ∧ o ≠ Some Panic ∧ o ≠ Some Diverge.
Proof.
  revert s. induction budget as [|budget IH]; intros s Hi; simpl; [by intros [= <- <-]|].
  destruct (poll_flush_wire s) as [q s1] eqn:Eq. pose proof (flush_ident _ _ _ Eq) as Hid.
  eapply flush_inv in Eq as (Hi1 & _ & _ & _ & _ & _ & Hse & Hq); [|done].
  destruct q as [|[[]|e| |]]; try done; [|by intros [= <- <-]; destruct Hq|by intros [= <- <-]].
  intros E. apply IH in E as (H1 & H2 & H3 & H4); [|done]. split_and!; try done; [congruence|by etransitivity|apply H4..].
Qed.

Lemma open_ready_keeps O I B fo fi del w s p w' s' :
  stream_inv O I B fo fi del s → world_ok w → poll_open_ready w s = (p, w', s') →
  poll_keeps O I B fo fi del (λ _, []) s p w' s'.
Proof.
  intros Hi Hw. unfold poll_open_ready, poll_ready. destruct (negb _).
  - intros [= <- <- <-]. apply poll_keeps_id; try done. by rewrite app_nil_r.
  - by apply ready_loop_keeps.
Qed.

#[local] Opaque poll_open_ready.

Lemma await_ready_inv O I B budget w s o w' s' : ∀ fo fi del,
  stream_inv O I B fo fi del s → world_ok w →
  await budget (λ '(w, s), let '(p, w, s) := poll_open_ready w s in (p, (w, s))) (w, s) = (o, (w', s')) →
  world_ok w' ∧ ident s' = ident s ∧ sent (raw s) `prefix_of` sent (raw s') ∧
  o ≠ Some Panic ∧ o ≠ Some Diverge ∧
  ∃ gs hs, own (id s) gs = [] ∧ stream_inv O I B (fo ++ gs) (fi ++ hs) del s'.
Proof.
  revert w s. induction budget as [|budget IH]; intros w s fo fi del Hi Hw; cbn [await].
  { intros [= <- <- <-]. split_and!; try done. exists [], []. by rewrite !app_nil_r. }
  destruct (poll_open_ready w s) as [[p w1] s1] eqn:Eq. pose proof (open_ready_ident _ _ _ _ _ Eq) as Hid.
  assert (poll_keeps O I B fo fi del (λ _, []) s p w1 s1) as (K1 & K2 & K3 & K4 & K5 & K8 & gs & hs & K6 & K7).
  { by eapply open_ready_keeps. }
  assert (stream_inv O I B (fo ++ gs) (fi ++ hs) del s1) as Hi1 by (destruct p as [|[]]; by rewrite app_nil_r in K7).
  destruct p as [|r].
  - intros E. eapply IH in E as (H1 & H2 & H3 & H4 & H5 & gs' & hs' & H7 & H8); [|done..].
    split_and!; try done; [congruence|by etransitivity|].
    exists (gs ++ gs'), (hs ++ hs'). rewrite own_app, K6. rewrite K2 in H7. by rewrite !app_assoc.
  - intros [= <- <- <-]. split_and!; try done; [congruence..|]. by exists gs, hs.
Qed.

(** What a session [s0] has become when a stream to [address] was opened over it. *)
Record opened_over (version address : bytes) w (s0 s : Session) : Prop := {
  open_next : next_id s0 < U32_MAX ∧ id s = next_id s0 ∧ next_id s = next_id s0 + 1 ∧ sequence s = sequence s0;
  open_ok : session_ok s;
  open_sent : ∃ settings gaps gs,
    settings = (if next_id s0 =? 1
                then [(4, 0, lit "v=2" ++ [newline] ++ lit "client=sockrocket/" ++ version ++ [newline]
                             ++ lit "padding-md5=" ++ md5 (padding w) ++ [newline])] else []) ∧
    own (id s) gs = [] ∧
    output s0 ++ enc (settings ++ [(1, id s, []); (2, id s, address)] ++ pads gaps) `prefix_of` sent (raw s) ∧
    (healthy s = true →
      output s = output s0 ++ enc (settings ++ [(1, id s, []); (2, id s, address)] ++ pads gaps ++ gs));
  open_read : ∃ fi rest, Forall frame_ok fi ∧ buffered s = payload (id s) fi ∧
    partial s0 ++ arriving (raw s0) = enc fi ++ rest ++ arriving (raw s) ∧
    (healthy s = true → rest = partial s);
}.

Lemma next_stream_ok s : session_ok s → 0 <= next_id s < U32_MAX → session_ok (next_stream s).
Proof. intros [] Hn. split; simpl; try done. unfold u32, U32_MAX in *. lia. Qed.

Lemma open_request_enc version address c s :
  open_request version address c s =
    enc ((if id s =? 1 then [(4, 0, lit "v=2" ++ [newline] ++ lit "client=sockrocket/" ++ version ++ [newline]
                             ++ lit "padding-md5=" ++ md5 (padding (world c)) ++ [newline])] else [])
         ++ [(1, id s, []); (2, id s, address)]).
Proof.
  unfold open_request. rewrite enc_app. f_equal; [by destruct (id s =? 1); simpl; rewrite ?app_nil_r|].
  simpl. by rewrite app_nil_r.
Qed.

Lemma open_frames_ok version address w s :
  world_ok w → session_ok s → len address <= 65535 → len version <= 60000 →
  Forall frame_ok ((if id s =? 1 then [(4, 0, lit "v=2" ++ [newline] ++ lit "client=sockrocket/" ++ version ++ [newline]
                             ++ lit "padding-md5=" ++ md5 (padding w) ++ [newline])] else [])
         ++ [(1, id s, []); (2, id s, address)]).
Proof.
  intros Hw Hs Ha Hv. pose proof (policy_md5 _ Hw). apply Forall_app. split.
  - case_match; [|constructor]. constructor; [|constructor]. split_and!; [by unfold u8|by unfold u32|].
    cbn [snd]. rewrite !len_app. change (len (lit "v=2")) with 3. change (len (lit "client=sockrocket/")) with 18.
    change (len (lit "padding-md5=")) with 12. change (len [newline]) with 1. lia.
  - repeat constructor; simpl; try done; apply Hs.
Qed.

Lemma queue_frames data w s w' s' fs : data = enc fs → queue data w s = (w', s') → queue (enc fs) w s = (w', s').
Proof. by intros ->. Qed.

Lemma attempt_spec budget version address is_last s c o c' :
  session_ok s → 0 <= next_id s <= U32_MAX → world_ok (world c) →
  len address <= 65535 → len version <= 60000 →
  attempt budget version address is_last s c = (o, c') →
  world_ok (world c') ∧ idle c' = idle c ∧ keep_idle c' = keep_idle c ∧ o ≠ Some Crashed ∧
  match o with
  | Some (Opened s') => opened_over version address (world c) s s' ∧ slots c' = slots c
  | _ => slots c' = slots c + 1
  end.
Proof.
  intros Hs Hnext Hw Ha Hv. unfold attempt. destruct (Z.eqb_spec (next_id s) U32_MAX) as [|Hlt].
  { by intros [= <- <-]. }
  set (s1 := next_stream s). assert (session_ok s1) as Hs1 by (apply next_stream_ok; [done|lia]).
  unfold settle. destruct (queue _ (world c) s1) as [w1 s2] eqn:Eq.
  pose proof (queue_ident _ _ _ _ _ Eq) as Hid2. apply (queue_frames _ _ _ _ _ _ (open_request_enc _ _ _ _)) in Eq.
  set (settings := if id s1 =? 1 then _ else _) in Eq.
  pose proof (stream_inv_start s1 Hs1) as Hi1.
  eapply queue_inv in Eq as (Hw1 & _ & _ & _ & gaps & Hi2);
    [|exact Hi1|exact Hw|exact (open_frames_ok version address (world c) s1 Hw Hs1 Ha Hv)].
  destruct (await budget poll_flush_wire s2) as [r s3] eqn:Ef.
  eapply await_flush_inv in Ef as (Hi3 & Hid3 & Hse3 & Hok3 & Hp3 & Hd3); [|done].
  destruct r as [[[]|e| |]|]; try done;
    try (intros [= <- <-]; simpl; split_and!; done || by destruct is_last).
  destruct (Hok3 eq_refl) as [Hh3 Hwire3].
  destruct (await budget _ (w1, s3)) as [r [w4 s4]] eqn:Er.
  eapply await_ready_inv in Er as (Hw4 & Hid4 & Hse4 & Hp4 & Hd4 & gs & hs & Hgs & Hi4); [|done..].
  destruct r as [[[]|e| |]|]; try done;
    try (intros [= <- <-]; simpl; split_and!; done || by destruct is_last).
  intros [= <- <-]. simpl. split_and!; try done.
  assert (ident s4 = (next_id s, next_id s + 1, sequence s)) as Hid by (rewrite Hid4, Hid3, Hid2; done).
  injection Hid as Hi Hn Hq. assert (id s3 = id s1) as Hi31 by (rewrite Hid2 in Hid3; by injection Hid3).
  destruct Hi4 as [Hok4 Hfo4 Hfi4 Hsent4 Hout4 (rest & Hin4 & Hrest4) Hbuf4].
  split.
  - split_and!; try done. lia.
  - done.
  - exists settings, gaps, gs. unfold settings. change (id s1) with (next_id s). rewrite Hi. split; [done|].
    split; [rewrite Hi31 in Hgs; exact Hgs|]. fold settings. change (output s) with (output s1).
    pose proof (inv_out _ _ _ _ _ _ _ Hi3 Hh3) as Hsent3. unfold output at 1 in Hsent3.
    rewrite Hwire3 in Hsent3; simpl concat in Hsent3; rewrite drop_nil, app_nil_r in Hsent3.
    split; [|intros Hh; rewrite Hout4 by done; f_equal].
    + rewrite (app_assoc settings). rewrite Hsent3 in Hse4. exact Hse4.
    + rewrite app_nil_l. by rewrite <- !app_assoc.
  - exists hs, rest. split_and!; done.
Qed.

(** ** The state of a client *)
Definition sess_ok (s : Session) : Prop := session_ok s ∧ 0 <= id s < next_id s ∧ next_id s <= U32_MAX.

Record client_ok c : Prop := {
  client_world : world_ok (world c);
  client_slots : 0 <= slots c;
  client_idle : Forall sess_ok (idle c);
  client_limit : len (idle c) <= IDLE_LIMIT;
  client_sorted : StronglySorted Z.le (map sequence (idle c));
}.

Lemma StronglySorted_sublist {A} (R : relation A) l k :
  l `sublist_of` k → StronglySorted R k → StronglySorted R l.
Proof.
  induction 1 as [|x l k Hl IH|x l k Hl IH]; [done|..]; intros Hs; apply StronglySorted_inv in Hs as [Hs Hx].
  - constructor; [by apply IH|]. rewrite Forall_forall in *. intros y Hy. apply Hx. by eapply elem_of_submseteq, sublist_submseteq.
  - by apply IH.
Qed.

(** What is left of a pool that gave sessions away. *)
Lemma fewer_idle_ok c c' :
  client_ok c → world_ok (world c') → Forall sess_ok (idle c') →
  map sequence (idle c') `sublist_of` map sequence (idle c) → 0 <= slots c' → client_ok c'.
Proof.
  intros [Hw Hs Hi Hl Hsort] Hw' Hf Hsub Hn. pose proof (sublist_length _ _ Hsub) as Hlen.
  rewrite !length_map in Hlen. split; simpl; try done.
  - unfold len in *. lia.
  - by eapply StronglySorted_sublist.
Qed.

Lemma same_idle_ok c c' :
  client_ok c → world_ok (world c') → idle c' = idle c → 0 <= slots c' → client_ok c'.
Proof. intros Hc Hw Hi Hs. apply (fewer_idle_ok c); try done; rewrite Hi; [apply Hc|done]. Qed.

Lemma take_idle_ok now c o c' :
  client_ok c → take_idle now c = (o, c') →
  client_ok c' ∧ (∀ s, o = Some s → sess_ok s).
Proof.
  intros Hc E. pose proof E as E2. apply take_idle_spec in E as (Hw & _ & stale & _ & Ho).
  assert (slots c <= slots c') as Hsl.
  { unfold take_idle in E2. pose proof (pop_fresh_spec now (reverse (idle c))) as Hp.
    destruct (pop_fresh now (reverse (idle c))) as [[r rest] dropped]. injection E2 as _ <-.
    destruct Hp as (st & _ & -> & _). simpl. pose proof (len_nonneg st). lia. }
  pose proof (client_slots _ Hc). pose proof (client_idle _ Hc) as Hi.
  destruct o as [s|].
  - destruct Ho as (E & _ & _). rewrite E in Hi. apply Forall_app in Hi as [Hi Hs].
    apply Forall_cons in Hs as [Hs _]. split; [|by intros ? [= <-]].
    apply (fewer_idle_ok c); try done; [rewrite Hw; apply Hc| |lia].
    rewrite E, map_app. by apply sublist_inserts_r.
  - destruct Ho as (_ & E & _). split; [|done].
    apply (fewer_idle_ok c); try done; [rewrite Hw; apply Hc|by rewrite E|rewrite E; apply sublist_nil_l|lia].
Qed.

Lemma attempt_ok budget version address is_last s c o c' :
  client_ok c → sess_ok s → len address <= 65535 → len version <= 60000 →
  attempt budget version address is_last s c = (o, c') →
  client_ok c' ∧ idle c' = idle c ∧ o ≠ Some Crashed ∧
  match o with
  | Some (Opened s') => opened_over version address (world c) s s' ∧ sess_ok s' ∧ held c' = held c
  | _ => held c' = held c + 1
  end.
Proof.
  intros Hc (Hs & Hid & Hn) Ha Hv E. pose proof (client_slots _ Hc).
  apply attempt_spec in E as (Hw & Hi & _ & Hcr & Ho); [|done|lia|apply Hc|done..].
  assert (0 <= slots c') as Hsl by (destruct o as [[]|]; [destruct Ho as [_ ->]| | | |]; lia).
  split; [by apply (same_idle_ok c)|]. split; [done|]. split; [done|]. unfold held. rewrite Hi.
  destruct o as [[s'|e| |]|]; try lia. destruct Ho as [Ho ->]. split; [done|]. split; [|done].
  destruct Ho as [(H1 & H2 & H3 & _) Hok _ _]. unfold sess_ok. split; [done|]. unfold U32_MAX in *. lia.
Qed.

Lemma attempt_new_ok budget version address is_last connect now c o c' :
  client_ok c → (∀ r, connect = Ok r → is_bytes (arriving r)) → len address <= 65535 → len version <= 60000 →
  attempt_new budget version address is_last connect now c = (o, c') →
  client_ok c' ∧ idle c' = idle c ∧
  match o with
  | Some (Opened s') => sess_ok s' ∧ held c' = held c - 1 ∧
      ∃ s0 w r pad noise, id s0 = 0 ∧ next_id s0 = 1 ∧ connect = Ok r ∧ len noise = Z.max 0 pad ∧
        output s0 = sent r ++ password c ++ be16 (as_u16 pad) ++ noise ∧ opened_over version address w s0 s'
  | _ => held c' = held c
  end.
Proof.
  intros Hc Hb Ha Hv. unfold attempt_new. destruct (create_session connect budget now c) as [r c1] eqn:E.
  pose proof (client_slots _ Hc).
  apply create_session_spec in E as (Hw & Hi & Hk & Hr); [|done|apply Hc].
  destruct r as [[s|e| |]|].
  - destruct Hr as (Hsl & Hpos & Hok & Hid & Hn & Hh & _ & _ & r & pad & noise & Hcon & Hl & Hout).
    assert (client_ok c1) as Hc1 by (apply (same_idle_ok c); [done..|lia]).
    intros E. apply attempt_ok in E as (K1 & K2 & K3 & K4); [|done| |done..].
    2:{ split; [done|]. rewrite Hid, Hn. unfold U32_MAX. lia. }
    split; [done|]. split; [congruence|]. unfold held in *. rewrite Hi in *. rewrite K2 in *.
    destruct o as [[s'|e| |]|]; try lia. destruct K4 as (K4 & K5 & K6). split; [done|]. split; [lia|].
    exists s, (world c1), r, pad, noise. by split_and!.
  - intros [= <- <-]. unfold held. rewrite Hi, Hr. split; [by apply (same_idle_ok c); [..|rewrite Hr]|done].
  - intros [= <- <-]. unfold held. rewrite Hi, Hr. split; [by apply (same_idle_ok c); [..|rewrite Hr]|done].
  - intros [= <- <-]. unfold held. rewrite Hi, Hr. split; [by apply (same_idle_ok c); [..|rewrite Hr]|done].
  - intros [= <- <-]. unfold held. rewrite Hi, Hr. split; [by apply (same_idle_ok c); [..|rewrite Hr]|done].
Qed.

Lemma socks_address_len host port address : socks_address host port = Ok address → len address <= 259.
Proof.
  unfold socks_address. intros E. apply bind_ok in E as (u & _ & E). clear u.
  destruct (parse_ip host) as [[ip|ip]|]; [injection E as <-..|]; [by vm_compute|by vm_compute|].
  apply bind_ok in E as (u & Hl%ensure_ok & E). apply Z.leb_le in Hl.
  match type of E with Ok ?x = _ => assert (address = x) as -> by congruence end.
  rewrite !len_app, len_be16. change (len [3; as_u8 (len host)]) with 2. lia.
Qed.

Lemma take_idle_password now c o c' : take_idle now c = (o, c') → password c' = password c.
Proof. unfold take_idle. destruct (pop_fresh _ _) as [[r rest] d]. by intros [= _ <-]. Qed.

Lemma attempt_password budget version address is_last s c o c' :
  attempt budget version address is_last s c = (o, c') → password c' = password c.
Proof.
  unfold attempt, settle. destruct (_ =? _); [by intros [= _ <-]|]. destruct (queue _ _ _) as [w1 s1].
  destruct (await budget poll_flush_wire s1) as [[[u|e| |]|] s2]; try by intros [= _ <-].
  destruct (await budget _ (w1, s2)) as [[[u2|e| |]|] [w3 s3]]; by intros [= _ <-].
Qed.

Lemma attempt_new_password budget version address is_last connect now c o c' :
  attempt_new budget version address is_last connect now c = (o, c') → password c' = password c.
Proof.
  unfold attempt_new. destruct (create_session connect budget now c) as [r c1] eqn:E.
  assert (password c1 = password c) as Hp.
  { unfold create_session, reserve in E. destruct (slots c <=? 0); [by injection E as _ <-|].
    destruct (global c <=? 0); [by injection E as _ <-|].
    destruct connect as [raw0|e| |]; try by injection E as _ <-.
    destruct (auth_block _) as [auth c2] eqn:Ea.
    assert (password c2 = password c) as Hp2.
    { unfold auth_block in Ea. destruct (sizes _ _ _), (random_fill _ _). by injection Ea as _ <-. }
    destruct (greet budget auth raw0) as [[r1|e| |]|]; by injection E as _ <-. }
  rewrite <- Hp. destruct r as [[s|e| |]|]; try by intros [= _ <-]. apply attempt_password.
Qed.

(** Where the session of a new stream comes from: the newest idle one that is not
    too old, or a connection that was dialled and authenticated. *)
Definition origin (connect : nat → outcome Raw) (now : Z) c (s0 : Session) : Prop :=
  (∃ older newer, idle c = older ++ s0 :: newer ∧ fresh now s0 = true ∧ Forall (λ s, fresh now s = false) newer) ∨
  (id s0 = 0 ∧ next_id s0 = 1 ∧ ∃ n r pad noise, connect n = Ok r ∧ len noise = Z.max 0 pad ∧
     output s0 = sent r ++ password c ++ be16 (as_u16 pad) ++ noise).

Lemma open_initial_ok host port initial version connect budget now c o c' :
  client_ok c → (∀ n r, connect n = Ok r → is_bytes (arriving r)) → len initial <= 60000 → len version <= 60000 →
  open_initial host port initial version connect budget now c = (o, c') →
  client_ok c' ∧ (∀ s, s ∈ idle c' → s ∈ idle c) ∧
  match o with
  | Opened s => sess_ok s ∧ held c' = held c - 1 ∧
      ∃ address s0 w, socks_address host port = Ok address ∧ origin connect now c s0 ∧
        opened_over version (address ++ initial) w s0 s
  | _ => held c' = held c
  end.
Proof.
  intros Hc Hb Hin Hv. unfold open_initial.
  destruct (socks_address host port) as [address|e| |] eqn:Ea; try by intros [= <- <-].
  pose proof (socks_address_len _ _ _ Ea) as Hla.
  assert (len (address ++ initial) <= 65535) as Ha by (rewrite len_app; lia). cbv zeta.
  destruct (take_idle now c) as [reused c1] eqn:Et.
  pose proof (take_idle_ok _ _ _ _ Hc Et) as [Hc1 Hr]. pose proof (take_idle_password _ _ _ _ Et) as Hp.
  apply take_idle_spec in Et as (_ & _ & stale & Hstale & Ht).
  assert (∀ s, s ∈ idle c1 → s ∈ idle c) as Hsub.
  { intros s Hs. destruct reused; [destruct Ht as (-> & _); apply elem_of_app; by left|].
    destruct Ht as (_ & E & _). rewrite E in Hs. by apply elem_of_nil in Hs. }
  set (x := match reused with Some s => attempt _ _ _ _ s c1 | None => _ end).
  destruct x as [r c2] eqn:Ex. unfold x in Ex. clear x.
  assert (client_ok c2 ∧ idle c2 = idle c1 ∧ password c2 = password c ∧ match r with
    | Some (Opened s) => sess_ok s ∧ held c2 = held c - 1 ∧ ∃ s0 w, origin connect now c s0 ∧
        opened_over version (address ++ initial) w s0 s
    | _ => held c2 = held c end) as (Hc2 & Hi2 & Hp2 & Hr2).
  { destruct reused as [s|].
    - pose proof (attempt_password _ _ _ _ _ _ _ _ Ex) as Hp2.
      apply attempt_ok in Ex as (K1 & K2 & _ & K3); [|done|by apply Hr|done..].
      destruct Ht as (Hi & Hf & Hh). split_and!; [done..|congruence|].
      destruct r as [[s'|e| |]|]; try lia. destruct K3 as (K3 & K4 & K5). split; [done|]. split; [lia|].
      exists s, (world c1). split; [|done]. left. by exists (idle c1), stale.
    - pose proof (attempt_new_password _ _ _ _ _ _ _ _ _ Ex) as Hp2.
      apply attempt_new_ok in Ex as (K1 & K2 & K3); [|done|by intros; eapply Hb|done..].
      destruct Ht as (_ & _ & Hh). split_and!; [done..|congruence|].
      destruct r as [[s'|e| |]|]; try lia. destruct K3 as (K3 & K4 & s0 & w & r & pad & noise & K5 & K6 & K7 & K8 & K9 & K10).
      split; [done|]. split; [lia|]. exists s0, w. split; [|done]. right. rewrite <- Hp. by split_and!; [..|exists 0%nat, r, pad, noise]. }
  assert (∀ s, s ∈ idle c2 → s ∈ idle c) as Hsub2 by (intros s; rewrite Hi2; apply Hsub).
  destruct r as [o2|].
  { intros [= <- <-]. split; [done|]. split; [done|]. destruct o2 as [s| | |]; try done.
    destruct Hr2 as (R1 & R2 & s0 & w & R3 & R4). split_and!; try done. by exists address, s0, w. }
  destruct (attempt_new _ _ _ true _ now c2) as [r3 c3] eqn:En.
  apply attempt_new_ok in En as (K1 & K2 & K3); [|done|by intros; eapply Hb|done..].
  rewrite <- K2 in Hsub2.
  destruct r3 as [[s|e| |]|]; intros [= <- <-]; split_and!; try done; try lia.
  - apply K3.
  - destruct K3 as (_ & _ & s0 & w & r & pad & noise & K5 & K6 & K7 & K8 & K9 & K10).
    exists address, s0, w. split_and!; try done. right. rewrite <- Hp2. by split_and!; [..|exists 1%nat, r, pad, noise].
Qed.

(** ** The end of a stream *)
Lemma sess_ok_ident s s' : sess_ok s → session_ok s' → ident s' = ident s → sess_ok s'.
Proof. intros (_ & H1 & H2) Hs E. injection E as E1 E2 _. unfold sess_ok. by rewrite E1, E2. Qed.

Lemma sorted_sequences l : StronglySorted Z.le (map sequence (sort_by by_sequence l)).
Proof.
  assert (sorted by_sequence (sort_by by_sequence l)) as Hs.
  { apply sort_by_sorted; unfold by_sequence; intros; rewrite ?Z.leb_le in *; lia. }
  unfold sorted in Hs. induction Hs as [|x k Hk IH Hx]; simpl; constructor; [done|].
  apply Forall_map. eapply Forall_impl; [exact Hx|]. intros y. apply Z.leb_le.
Qed.

Lemma release_ok c n : client_ok c → 0 <= n → client_ok (release n c).
Proof. intros Hc Hn. pose proof (client_slots _ Hc). apply (same_idle_ok c); simpl; try done; [apply Hc|lia]. Qed.

Lemma recycle_ok now s c :
  client_ok c → sess_ok s → client_ok (recycle now s c) ∧ held (recycle now s c) = held c + 1.
Proof.
  intros Hc Hs. unfold recycle. destruct (_ || _); [split; [by apply release_ok|apply held_release]|].
  set (l := sort_by by_sequence _).
  assert (Forall sess_ok l) as Hl.
  { apply Forall_sort_by, Forall_app. split; [apply Hc|]. constructor; [|constructor].
    destruct Hs as [[] Hn]. split; [by split|exact Hn]. }
  assert (len l = len (idle c) + 1) as Hlen.
  { unfold l, len. rewrite (Permutation_length (sort_by_perm _ _)), length_app. simpl. lia. }
  pose proof (client_limit _ Hc) as Hlim. pose proof (sorted_sequences (idle c ++ [with_idle_since now s])) as Hsort.
  fold l in Hsort. pose proof (client_slots _ Hc). unfold IDLE_LIMIT in *.
  destruct (Z.ltb_spec 4 (len l)) as [Hgt|Hle].
  - destruct l as [|x l]; [done|]. change (drop 1 (x :: l)) with (drop 0 l). rewrite drop_0, len_cons in *. split.
    + split; simpl; try apply Hc; [lia|by apply Forall_cons in Hl as [_ Hl]|unfold IDLE_LIMIT; lia|].
      by apply StronglySorted_inv in Hsort as [Hsort _].
    + unfold held. simpl. lia.
  - split; [|unfold held; simpl; lia]. split; simpl; try apply Hc; try done.
Qed.

(** ** The reaper *)
Lemma reap_session_ok rounds : ∀ w s w' o,
  world_ok w → session_ok s → reap_session rounds w s = (w', o) →
  world_ok w' ∧ (∀ s', o = Some s' → session_ok s' ∧ ident s' = ident s).
Proof.
  induction rounds as [|rounds IH]; intros w s w' o Hw Hs; cbn [reap_session].
  { intros [= <- <-]. split; [done|]. by intros ? [= <-]. }
  destruct (poll_flush_wire s) as [q s1] eqn:Eq. pose proof (flush_ident _ _ _ Eq) as Hid1.
  apply poll_flush_wire_spec in Eq as (_ & Hs1 & _ & _ & _ & _ & _ & _); [|done].
  destruct (poll_frame s1) as [f s2] eqn:Ef. pose proof (poll_frame_ident _ _ _ Ef) as Hid2.
  apply poll_frame_spec in Ef as (_ & _ & _ & Hs2 & Hf); [|done].
  set (next := match f with Ready (Ok _) => _ | _ => _ end).
  assert (next = (w', o) → world_ok w' ∧ (∀ s', o = Some s' → session_ok s' ∧ ident s' = ident s)) as Hnext.
  { unfold next. destruct f as [|[[[c i] d]|e| |]]; try (intros [= <- <-]; split; [done|]; intros ? [= <-]; split; congruence).
    destruct (apply c i d w s2) as [[r w3] s3] eqn:Ea. pose proof (apply_ident _ _ _ _ _ _ _ _ Ea) as Hid3.
    apply apply_spec in Ea as (Hw3 & _ & _ & _ & _ & Hr); [|done|apply Hf|done].
    destruct r as [u|e| |]; try (intros [= <- <-]; by split).
    destruct Hr as (Hs3 & _). intros E. apply IH in E as [H1 H2]; [|done|].
    - split; [done|]. intros s' Hs'. destruct (H2 s' Hs') as [H3 H4]. split; [done|].
      change (ident (with_content [] 0 s3)) with (ident s3) in H4. congruence.
    - destruct Hs3. by split. }
  destruct q as [|[u|e| |]]; try done. intros [= <- <-]. by split.
Qed.

Lemma reap_all_ok l : ∀ w w' l', world_ok w → Forall sess_ok l → reap_all w l = (w', l') →
  world_ok w' ∧ Forall sess_ok l' ∧ map sequence l' `sublist_of` map sequence l.
Proof.
  induction l as [|s l IH]; intros w w' l' Hw Hl; cbn [reap_all]; [by intros [= <- <-]|].
  apply Forall_cons in Hl as [Hs Hl]. destruct (reap_session 16 w s) as [w1 o] eqn:E1.
  destruct (reap_all w1 l) as [w2 l2] eqn:E2. intros [= <- <-].
  apply reap_session_ok in E1 as [Hw1 Ho]; [|done|apply Hs].
  apply IH in E2 as (Hw2 & Hl2 & Hsub); [|done..]. split; [done|]. destruct o as [s'|].
  - destruct (Ho s' eq_refl) as [Hs' Hid]. split; [by constructor; [eapply sess_ok_ident|]|].
    simpl. injection Hid as _ _ ->. by constructor.
  - split; [done|]. by apply sublist_cons.
Qed.

Lemma sublist_map {A B} (f : A → B) l k : l `sublist_of` k → map f l `sublist_of` map f k.
Proof. induction 1; simpl; by constructor. Qed.

Lemma reap_poll_ok c : client_ok c → client_ok (reap_poll c) ∧ held (reap_poll c) = held c.
Proof.
  intros Hc. unfold reap_poll. destruct (reap_all (world c) (idle c)) as [w l] eqn:E.
  apply reap_all_ok in E as (Hw & Hl & Hsub); [|apply Hc..].
  pose proof (sublist_length _ _ Hsub) as Hlen. rewrite !length_map in Hlen. pose proof (client_slots _ Hc).
  split; [|unfold held; simpl; lia]. apply (fewer_idle_ok c); try done. simpl. unfold len. lia.
Qed.

Lemma reap_expired_ok now c : client_ok c → client_ok (reap_expired now c) ∧ held (reap_expired now c) = held c.
Proof.
  intros Hc. unfold reap_expired. set (l := filter _ (idle c)).
  assert (l `sublist_of` idle c) as Hsub by apply sublist_filter.
  pose proof (sublist_length _ _ Hsub). pose proof (client_slots _ Hc).
  split; [|unfold held; simpl; lia]. apply (fewer_idle_ok c); try done; simpl.
  - apply Hc.
  - apply Forall_forall. intros s [_ Hs]%list_elem_of_filter. revert s Hs. apply Forall_forall, Hc.
  - by apply sublist_map.
  - unfold len. lia.
Qed.

(** ** A client and its calls

    Every step of every call, in any order: streams opened over connections that succeed
    or fail, calls given up at any point, polls of streams, their ends, the rounds of the
    reaper, and the other clients that share the global permits. *)
Record Pool := { client : Client; calls : gmap nat Call; streams : gmap nat Session; closings : gmap nat closing }.

Definition first_attempt (target : bytes) : Call := {| is_last := false; target := target; at_ := Taking |}.

Inductive pool_step (P : Pool) : Pool → Prop :=
  | step_call key host port initial address :
      calls P !! key = None → socks_address host port = Ok address → len initial <= 60000 →
      pool_step P {| client := client P; calls := <[key := first_attempt (address ++ initial)]> (calls P);
                     streams := streams P; closings := closings P |}
  | step_advance key new version connect budget now t p c' :
      calls P !! key = Some t → streams P !! new = None → len version <= 60000 →
      (∀ r, connect = Ok r → is_bytes (arriving r)) →
      advance version connect budget now t (client P) = (p, c') →
      pool_step P {| client := c';
                     calls := match p with Continues t' => <[key := t']> (calls P) | _ => delete key (calls P) end;
                     streams := match p with Opens s => <[new := s]> (streams P) | _ => streams P end;
                     closings := closings P |}
  | step_abandon key t :
      calls P !! key = Some t →
      pool_step P {| client := abandon t (client P); calls := delete key (calls P); streams := streams P; closings := closings P |}
  | step_use key s o asked received w' s' :
      streams P !! key = Some s → op_ok o → exec o (world (client P)) s = Ok (asked, received, w', s') →
      pool_step P {| client := with_world w' (client P); calls := calls P; streams := <[key := s']> (streams P); closings := closings P |}
  | step_drop key new s runtime k c' :
      streams P !! key = Some s → closings P !! new = None → start_close runtime s (client P) = (k, c') →
      pool_step P {| client := c'; calls := calls P; streams := delete key (streams P);
                     closings := match k with Some k => <[new := k]> (closings P) | None => closings P end |}
  | step_close key budget now k k' c' :
      closings P !! key = Some k → advance_close budget now k (client P) = (k', c') →
      pool_step P {| client := c'; calls := calls P; streams := streams P;
                     closings := match k' with Some k' => <[key := k']> (closings P) | None => delete key (closings P) end |}
  | step_cancel key k :
      closings P !! key = Some k →
      pool_step P {| client := release 1 (client P); calls := calls P; streams := streams P; closings := delete key (closings P) |}
  | step_reap : pool_step P {| client := reap_poll (client P); calls := calls P; streams := streams P; closings := closings P |}
  | step_expire now :
      pool_step P {| client := reap_expired now (client P); calls := calls P; streams := streams P; closings := closings P |}
  | step_others m :
      pool_step P {| client := with_permits (slots (client P)) m (client P); calls := calls P; streams := streams P; closings := closings P |}.

Definition new_client (w : World) (pwd : bytes) (permits : Z) (keep : bool) : Client :=
  {| world := w; password := pwd; idle := []; slots := SESSION_SLOTS; global := permits; keep_idle := keep;
     next_sequence := 0 |}.

Definition new_pool (c : Client) : Pool := {| client := c; calls := ∅; streams := ∅; closings := ∅ |}.

Inductive pool_reachable : Pool → Prop :=
  | pool_start p g pwd permits keep : Padding_default = Ok p →
      pool_reachable (new_pool (new_client {| padding := p; rng := g |} pwd permits keep))
  | pool_next P P' : pool_reachable P → pool_step P P' → pool_reachable P'.

(** *** Calls under way *)
Definition phase_ok (p : phase) : Prop :=
  match p with
  | Taking | Dialling | Connecting => True
  | Greeting _ r | Enrolling r => is_bytes (arriving r)
  | InHand s | Flushing s | Waiting s => sess_ok s
  | Asking s request => sess_ok s ∧ ∃ fs, request = enc fs ∧ Forall frame_ok fs
  end.
Definition call_ok (t : Call) : Prop := len (target t) <= 65535 ∧ phase_ok (at_ t).
Definition permits (t : Call) : Z := Z.b2z (holds (at_ t)).

Definition closing_session (k : closing) : Session := match k with Finishing s | Draining s => s end.

Lemma with_world_ok c w : client_ok c → world_ok w → client_ok (with_world w c).
Proof. intros Hc Hw. by apply (same_idle_ok c); [..|apply Hc]. Qed.

(** What a step leaves: a good client, and the permits it had. *)
Definition advanced (c c' : Client) (before : Z) (p : progress) : Prop :=
  client_ok c' ∧
  match p with
  | Continues t => call_ok t ∧ held c' + permits t = held c + before
  | Opens s => sess_ok s ∧ held c' + 1 = held c + before
  | Ends => held c' = held c + before
  end.

Lemma again_ok c c' t : client_ok c' → len (target t) <= 65535 → held c' = held c → advanced c (release 1 c') 1 (again t).
Proof.
  intros Hc Ht Hh. split; [by apply release_ok|]. unfold again. destruct (is_last t); rewrite held_release; [lia|].
  split; [by split|]. unfold permits. simpl. lia.
Qed.

Lemma ends_ok c c' : client_ok c' → held c' = held c → advanced c (release 1 c') 1 Ends.
Proof. intros Hc Hh. split; [by apply release_ok|]. rewrite held_release. lia. Qed.

Lemma taking_ok c now t : client_ok c → len (target t) <= 65535 → at_ t = Taking →
  let '(o, c') := take_idle now c in
  advanced c c' (permits t) (Continues (goes (match o with Some s => InHand s | None => Dialling end) t)).
Proof.
  intros Hc Ht Hp. destruct (take_idle now c) as [o c'] eqn:E. pose proof (take_idle_ok _ _ _ _ Hc E) as [Hc' Hs].
  apply take_idle_spec in E as (_ & _ & stale & _ & Ho). unfold permits. rewrite Hp. split; [done|].
  destruct o as [s|]; (split; [split; [done|by apply Hs || done]|]); cbn; destruct Ho as (_ & _ & ->); lia.
Qed.

Lemma reserve_ok c : client_ok c →
  match reserve c with
  | (Ok _, c') => client_ok c' ∧ held c' = held c - 1
  | (Err _, c') => c' = c
  | _ => False
  end.
Proof.
  intros Hc. unfold reserve. destruct (Z.leb_spec (slots c) 0); [done|]. destruct (global c <=? 0); [done|].
  split; [|unfold held; simpl; lia]. apply (same_idle_ok c); simpl; try done; [apply Hc|lia].
Qed.

Lemma auth_ok c auth c' : client_ok c → auth_block c = (auth, c') → client_ok c' ∧ held c' = held c.
Proof.
  intros Hc E. apply auth_block_spec in E as (A1 & A2 & A3 & _). split; [|unfold held; by rewrite A2, A3].
  apply (same_idle_ok c); try done; [unfold world_ok; rewrite A1; apply Hc|rewrite A3; apply Hc].
Qed.

Lemma enrol_ok r now c s c' : client_ok c → is_bytes (arriving r) → enrol r now c = (s, c') →
  client_ok c' ∧ sess_ok s ∧ held c' = held c.
Proof.
  unfold enrol. intros Hc Hr [= <- <-]. split; [apply (same_idle_ok c); [done|apply Hc|done|apply Hc]|]. split; [|done].
  split; [by apply new_session_ok|]. cbn. unfold U32_MAX. lia.
Qed.

Lemma queued_ok fs w s w' s' : world_ok w → sess_ok s → Forall frame_ok fs → queue (enc fs) w s = (w', s') → world_ok w' ∧ sess_ok s'.
Proof.
  intros Hw Hs Hf E. pose proof (queue_ident _ _ _ _ _ E) as Hid.
  eapply queue_inv in E as (Hw' & _ & _ & _ & gaps & Hi); [|exact (stream_inv_start s (proj1 Hs))|done|done].
  split; [done|]. by apply (sess_ok_ident s); [..|apply Hi|].
Qed.

Lemma flushed_ok budget s o s' : sess_ok s → await budget poll_flush_wire s = (o, s') → sess_ok s' ∧ o ≠ Some Panic ∧ o ≠ Some Diverge.
Proof.
  intros Hs E. eapply await_flush_inv in E as (Hi & Hid & _ & _ & Hp & Hd); [|exact (stream_inv_start s (proj1 Hs))].
  split; [|done]. by apply (sess_ok_ident s); [..|apply Hi|].
Qed.

Lemma waited_ok w s p w' s' : world_ok w → sess_ok s → poll_open_ready w s = (p, w', s') → world_ok w' ∧ sess_ok s'.
Proof.
  intros Hw Hs E. pose proof (open_ready_ident _ _ _ _ _ E) as Hid.
  eapply open_ready_keeps in E as (K1 & _ & _ & _ & _ & _ & gs & hs & _ & K); [|exact (stream_inv_start s (proj1 Hs))|done].
  split; [done|]. apply (sess_ok_ident s); [done| |done]. destruct p as [|[]]; apply K.
Qed.

Lemma advance_ok version connect budget now t c p c' :
  client_ok c → call_ok t → (∀ r, connect = Ok r → is_bytes (arriving r)) → len version <= 60000 →
  advance version connect budget now t c = (p, c') → advanced c c' (permits t) p.
Proof.
  intros Hc [Ht Hp] Hb Hv. unfold advance. destruct (at_ t) as [| | |auth r|r|s|s request|s|s] eqn:Ea; cbn [phase_ok] in Hp;
    assert (permits t = Z.b2z (holds (at_ t))) as Hw by done; rewrite Ea in Hw; cbn [holds Z.b2z] in Hw.
  - pose proof (taking_ok c now t Hc Ht Ea) as H. destruct (take_idle now c) as [o c1]. by intros [= <- <-].
  - pose proof (reserve_ok c Hc) as H. destruct (reserve c) as [[[]|e| |] c1]; try done; intros [= <- <-]; rewrite Hw.
    + destruct H as [H1 H2]. split; [done|]. split; [by split|]. unfold permits. simpl. lia.
    + rewrite H. split; [done|lia].
  - rewrite Hw. destruct connect as [r|e| |]; try (intros [= <- <-]; by apply ends_ok).
    destruct (auth_block c) as [auth c1] eqn:E. apply auth_ok in E as [H1 H2]; [|done]. intros [= <- <-]. split; [done|].
    split; [split; [done|by apply Hb]|]. unfold permits. simpl. lia.
  - rewrite Hw. destruct (greet budget auth r) as [[r1|e| |]|] eqn:E; try (intros [= <- <-]; by apply ends_ok).
    apply greet_spec in E as (_ & _ & Hg). destruct (Hg r1 eq_refl) as [Hg1 _]. intros [= <- <-]. split; [done|].
    split; [|unfold permits; simpl; lia]. split; [done|]. cbn. unfold arriving. by rewrite Hg1.
  - rewrite Hw. destruct (enrol r now c) as [s c1] eqn:E. apply enrol_ok in E as (H1 & H2 & H3); [|done..]. intros [= <- <-].
    split; [done|]. split; [by split|]. unfold permits. simpl. lia.
  - rewrite Hw. destruct (Z.eqb_spec (next_id s) U32_MAX) as [|Hn]; intros [= <- <-]; [by apply again_ok|]. destruct Hp as (Hs & Hi & Hm).
    assert (session_ok (next_stream s)) as Hs1 by (apply next_stream_ok; [done|lia]).
    split; [done|]. split; [|unfold permits; simpl; lia]. split; [done|]. split; [split; [done|cbn; lia]|].
    eexists. split; [apply open_request_enc|]. apply open_frames_ok; [apply Hc|done|done|done].
  - rewrite Hw. destruct Hp as (Hs & fs & -> & Hf). destruct (queue (enc fs) (world c) s) as [w s1] eqn:E.
    apply queued_ok in E as [H1 H2]; [|apply Hc|done..]. intros [= <- <-]. split; [by apply with_world_ok|]. split; [by split|]. done.
  - rewrite Hw. destruct (await budget poll_flush_wire s) as [o s1] eqn:E. apply flushed_ok in E as (H1 & H2 & H3); [|done].
    destruct o as [[u|e| |]|]; try done; intros [= <- <-]; [split; [done|]; by split; [by split|]|by apply again_ok|by apply ends_ok].
  - rewrite Hw. destruct (poll_open_ready (world c) s) as [[q w] s1] eqn:E. apply waited_ok in E as [H1 H2]; [|apply Hc|done].
    pose proof (with_world_ok c w Hc H1) as Hc1.
    destruct q as [|[u|e| |]]; intros [= <- <-]; [split; [done|]; by split; [by split|]|by split|by apply again_ok|by apply ends_ok..].
Qed.

Lemma start_close_ok runtime s c k c' : client_ok c → sess_ok s → start_close runtime s c = (k, c') →
  client_ok c' ∧ match k with Some k => sess_ok (closing_session k) ∧ held c' = held c | None => held c' = held c + 1 end.
Proof.
  intros Hc Hs. unfold start_close. destruct (_ || _); intros [= <- <-]; [split; [by apply release_ok|apply held_release]|done].
Qed.

Lemma advance_close_ok budget now k c k' c' : client_ok c → sess_ok (closing_session k) → advance_close budget now k c = (k', c') →
  client_ok c' ∧ match k' with Some k => sess_ok (closing_session k) ∧ held c' = held c | None => held c' = held c + 1 end.
Proof.
  intros Hc Hs. destruct k as [s|s]; cbn [advance_close closing_session] in *.
  - destruct (_ && _); [|intros [= <- <-]; split; [by apply with_world_ok; [|apply Hc]|done]].
    destruct (queue_fin (world c) s) as [w1 s1] eqn:E. pose proof E as E2. unfold queue_fin in E2.
    destruct (queue _ _ s) as [w2 s2] eqn:Eq. injection E2 as -> <-. apply queue_ident in Eq.
    eapply queue_fin_inv in E as (H1 & _ & _ & gs & _ & H2); [|exact (stream_inv_start s (proj1 Hs))|apply Hc].
    intros [= <- <-]. split; [by apply with_world_ok|]. split; [|done]. apply (sess_ok_ident s); [done|apply H2|exact Eq].
  - destruct (await budget poll_flush_wire s) as [o s1] eqn:E. apply flushed_ok in E as (H1 & _ & _); [|done].
    destruct o as [[u|e| |]|]; intros [= <- <-]; [by apply recycle_ok|split; [by apply release_ok|apply held_release]..].
Qed.

(** *** Every history *)
Record pool_ok (P : Pool) : Prop := {
  pool_client : client_ok (client P);
  pool_calls : map_Forall (λ _ t, call_ok t) (calls P);
  pool_streams : map_Forall (λ _ s, sess_ok s) (streams P);
  pool_closings : map_Forall (λ _ k, sess_ok (closing_session k)) (closings P);
  pool_permits : held (client P) + sum_by permits (calls P) + Z.of_nat (size (streams P)) + Z.of_nat (size (closings P)) = SESSION_SLOTS;
}.

Lemma size_delete {A} (m : gmap nat A) i x : m !! i = Some x → Z.of_nat (size (delete i m)) = Z.of_nat (size m) - 1.
Proof.
  intros Hi. rewrite map_size_delete_Some by done. assert (size m ≠ 0%nat) by (intros E%map_size_empty_inv; by rewrite E, lookup_empty in Hi). lia.
Qed.

Lemma pool_step_ok P P' : pool_ok P → pool_step P P' → pool_ok P'.
Proof.
  intros [Hc Ht Hst Hk Hp] Hstep.
  destruct Hstep as [key host port initial address Hnew Ha Hi|key new version connect budget now t p c' Hkey Hnew Hv Hb E|key t Hkey
    |key s o asked received w' s' Hkey Ho E|key new s runtime k c' Hkey Hnew E|key budget now k k' c' Hkey E|key k Hkey| |now|m].
  - split; cbn [client calls streams closings]; try done.
    + apply map_Forall_insert_2; [|done]. split; [|done]. cbn. apply socks_address_len in Ha. rewrite len_app. lia.
    + rewrite sum_by_insert by done. unfold permits at 1. simpl. lia.
  - destruct (advance_ok _ _ _ _ _ _ _ _ Hc (Ht _ _ Hkey) Hb Hv E) as [Hc' Hr].
    destruct p as [t'|s|]; split; cbn [client calls streams closings]; try done.
    + destruct Hr as [Hr _]. by apply map_Forall_insert_2.
    + rewrite (sum_by_update _ _ _ t) by done. lia.
    + by apply map_Forall_delete.
    + destruct Hr as [Hr _]. by apply map_Forall_insert_2.
    + rewrite (sum_by_delete _ _ _ t), map_size_insert_None by done. lia.
    + by apply map_Forall_delete.
    + rewrite (sum_by_delete _ _ _ t) by done. lia.
  - assert (client_ok (abandon t (client P)) ∧ held (abandon t (client P)) = held (client P) + permits t) as [H1 H2].
    { unfold abandon, permits. destruct (holds (at_ t)); [split; [by apply release_ok|by rewrite held_release]|split; [done|simpl; lia]]. }
    split; cbn [client calls streams closings]; try done; [by apply map_Forall_delete|]. rewrite (sum_by_delete _ _ _ t) by done. lia.
  - pose proof (Hst _ _ Hkey) as Hs. pose proof (exec_ident _ _ _ _ _ _ _ E) as Hid.
    destruct (exec_inv _ _ _ _ _ _ o _ _ (stream_inv_start s (proj1 Hs)) (client_world _ Hc) Ho)
      as (a & r & w1 & s1 & gs & hs & E1 & Hw1 & _ & _ & Hi1).
    rewrite E in E1. injection E1 as <- <- <- <-. split; cbn [client calls streams closings]; try done.
    + by apply with_world_ok.
    + apply map_Forall_insert_2; [|done]. apply (sess_ok_ident s); [done|apply Hi1|done].
    + rewrite map_size_insert_Some by done. exact Hp.
  - destruct (start_close_ok _ _ _ _ _ Hc (Hst _ _ Hkey) E) as [Hc' Hr].
    destruct k as [k|]; split; cbn [client calls streams closings]; try done; try (by apply map_Forall_delete).
    + apply map_Forall_insert_2; [apply Hr|done].
    + rewrite (size_delete _ _ _ Hkey), map_size_insert_None by done. lia.
    + rewrite (size_delete _ _ _ Hkey). lia.
  - destruct (advance_close_ok _ _ _ _ _ _ Hc (Hk _ _ Hkey) E) as [Hc' Hr].
    destruct k' as [k'|]; split; cbn [client calls streams closings]; try done.
    + apply map_Forall_insert_2; [apply Hr|done].
    + rewrite map_size_insert_Some by done. lia.
    + by apply map_Forall_delete.
    + rewrite (size_delete _ _ _ Hkey). lia.
  - split; cbn [client calls streams closings]; try done; [by apply release_ok|by apply map_Forall_delete|].
    rewrite held_release, (size_delete _ _ _ Hkey). lia.
  - destruct (reap_poll_ok _ Hc) as [H1 H2]. split; cbn [client calls streams closings]; try done. lia.
  - destruct (reap_expired_ok now _ Hc) as [H1 H2]. split; cbn [client calls streams closings]; try done. lia.
  - split; cbn [client calls streams closings]; try done. apply (same_idle_ok (client P)); try done; apply Hc.
Qed.

Lemma pool_reachable_ok P : pool_reachable P → pool_ok P.
Proof.
  induction 1 as [p g pwd n keep Hp|P P' _ IH Hstep]; [|by eapply pool_step_ok].
  destruct default_ok as (p' & Hp' & Hok). rewrite Hp in Hp'. injection Hp' as <-.
  split; cbn [client calls streams closings new_pool]; [|apply map_Forall_empty..|rewrite sum_by_empty, !map_size_empty; reflexivity].
  split; simpl; try done. constructor.
Qed.

Lemma anytls_pool_runs P P' : pool_reachable P → rtc pool_step P P' → pool_reachable P'.
Proof. intros HP. induction 1 as [|P1 P2 P3 H12 _ IH]; [done|by apply IH, (pool_next P1)]. Qed.

(** C12. The pool of a client, after any history, however its calls overlap, are given
    up or fail: a permit is free, or belongs to an idle session, to a call that opens a
    stream, to an open stream or to one being closed, never lost and never doubled; at
    most four sessions idle, ordered by age; the shared policy is within its bounds;
    every session is in a state from which streams behave, its stream ids used once each
    and below the last one. *)
Theorem anytls_pool_spec P :
  pool_reachable P →
  0 <= slots (client P) ∧
  slots (client P) + len (idle (client P)) + sum_by permits (calls P) + Z.of_nat (size (streams P)) + Z.of_nat (size (closings P)) = 64 ∧
  len (idle (client P)) <= 4 ∧ StronglySorted Z.le (map sequence (idle (client P))) ∧
  world_ok (world (client P)) ∧
  (∀ s, s ∈ idle (client P) ∨ (∃ key, streams P !! key = Some s) ∨ (∃ key k, closings P !! key = Some k ∧ s = closing_session k) →
     session_ok s ∧ 0 <= id s < next_id s ∧ next_id s <= U32_MAX).
Proof.
  intros [Hc Ht Hst Hk Hp]%pool_reachable_ok. unfold held in Hp. destruct Hc as [Hw Hs Hi Hl Hsort].
  split_and!; try done. intros s [Hin|[[key Hkey]|(key & k & Hkey & ->)]]; [|by apply (Hst key)|by apply (Hk key)].
  rewrite Forall_forall in Hi. by apply Hi.
Qed.

(** *** Calls that do not overlap *)
Lemma advance_target version connect budget now t c t' c' : advance version connect budget now t c = (Continues t', c') → target t' = target t.
Proof. unfold advance, again. repeat case_match; intros; by simplify_eq. Qed.

Section alone.
Variables (version : bytes) (budget : nat) (now : Z) (key new : nat).
Variables (cs : gmap nat Call) (ss : gmap nat Session) (ks : gmap nat closing) (goal : bytes).
Hypotheses (Hkey : cs !! key = None) (Hnew : ss !! new = None) (Hversion : len version <= 60000).

Definition during c (last : bool) (p : phase) : Pool :=
  {| client := c; calls := <[key := {| is_last := last; target := goal; at_ := p |}]> cs; streams := ss; closings := ks |}.
Definition without c : Pool := {| client := c; calls := cs; streams := ss; closings := ks |}.
Definition with_stream c s : Pool := {| client := c; calls := cs; streams := <[new := s]> ss; closings := ks |}.

(** The pool after an attempt. *)
Definition after_attempt (last : bool) (o : option opened) c : Pool :=
  match o with
  | None => if last then without c else during c true Dialling
  | Some (Opened s) => with_stream c s
  | Some _ => without c
  end.

Definition after_step (q : progress) c : Pool :=
  match q with Continues t => during c (is_last t) (at_ t) | Opens s => with_stream c s | Ends => without c end.

Lemma advance_step connect c last p q c' : (∀ r, connect = Ok r → is_bytes (arriving r)) →
  advance version connect budget now {| is_last := last; target := goal; at_ := p |} c = (q, c') →
  pool_step (during c last p) (after_step q c').
Proof.
  intros Hb E.
  pose proof (step_advance (during c last p) key new version connect budget now _ q c' (lookup_insert_eq _ _ _) Hnew Hversion Hb E) as Hs.
  destruct q as [[l g ph]|s|]; cbn [calls streams closings during] in Hs; rewrite ?insert_insert_eq, ?delete_insert_id in Hs by done; try exact Hs.
  apply advance_target in E as Hg. cbn in Hg. subst g. exact Hs.
Qed.

(** A step that needs no connection. *)
Lemma steps_on c last p q c' P : advance version Diverge budget now {| is_last := last; target := goal; at_ := p |} c = (q, c') →
  rtc pool_step (after_step q c') P → rtc pool_step (during c last p) P.
Proof. intros E HP. eapply rtc_l; [eapply advance_step; [|exact E]|exact HP]. done. Qed.

Lemma abandon_step c last p : pool_step (during c last p) (without (abandon {| is_last := last; target := goal; at_ := p |} c)).
Proof.
  pose proof (step_abandon (during c last p) key _ (lookup_insert_eq _ _ _)) as Hs.
  cbn [calls during] in Hs. by rewrite delete_insert_id in Hs by done.
Qed.

Lemma after_again last c : after_step (again {| is_last := last; target := goal; at_ := Taking |}) c = after_attempt last None c.
Proof. by destruct last. Qed.

Lemma waiting_runs n last c w s o w' s' :
  await n (λ '(w, s), let '(p, w, s) := poll_open_ready w s in (p, (w, s))) (w, s) = (o, (w', s')) →
  rtc pool_step (during (with_world w c) last (Waiting s))
    (match o with
     | Some (Ok _) => with_stream (with_world w' c) s'
     | Some (Err _) => after_attempt last None (release 1 (with_world w' c))
     | _ => without (release 1 (with_world w' c))
     end).
Proof.
  revert w s. induction n as [|n IH]; intros w s; cbn [await].
  { intros [= <- <- <-]. eapply rtc_once, abandon_step. }
  destruct (poll_open_ready w s) as [[p w1] s1] eqn:E.
  assert (∀ q c', advance version Diverge budget now {| is_last := last; target := goal; at_ := Waiting s |} (with_world w c) = (q, c') →
    ∀ P, rtc pool_step (after_step q c') P → rtc pool_step (during (with_world w c) last (Waiting s)) P) as Hon
    by (intros; by eapply steps_on).
  cbn [advance at_] in Hon. change (world (with_world w c)) with w in Hon. rewrite E in Hon.
  change (with_world w1 (with_world w c)) with (with_world w1 c) in Hon.
  destruct p as [|[u|e| |]]; [intros E'; eapply Hon; [done|by apply IH]|intros [= <- <- <-]; eapply Hon; [done|]..].
  - apply rtc_refl.
  - destruct last; apply rtc_refl.
  - apply rtc_refl.
  - apply rtc_refl.
Qed.

Lemma attempt_runs last s c o c' : attempt budget version goal last s c = (o, c') →
  rtc pool_step (during c last (InHand s)) (after_attempt last o c').
Proof.
  unfold attempt. intros E.
  assert (∀ q c', advance version Diverge budget now {| is_last := last; target := goal; at_ := InHand s |} c = (q, c') →
    ∀ P, rtc pool_step (after_step q c') P → rtc pool_step (during c last (InHand s)) P) as Hon by (intros; by eapply steps_on).
  cbn [advance at_ target goes is_last] in Hon. destruct (next_id s =? U32_MAX).
  { injection E as <- <-. eapply Hon; [done|]. destruct last; apply rtc_refl. }
  eapply Hon; [done|]. clear Hon. cbn [after_step goes is_last at_]. unfold settle in E. set (s1 := next_stream s) in *.
  destruct (queue _ _ s1) as [w s2] eqn:Eq.
  eapply steps_on; [cbn [advance at_]; rewrite Eq; reflexivity|]. cbn [after_step goes is_last at_].
  destruct (await budget poll_flush_wire s2) as [r s3] eqn:Ef.
  destruct r as [[u|e| |]|]; (eapply steps_on; [cbn [advance at_]; rewrite Ef; reflexivity|]);
    [|injection E as <- <-; by destruct last|injection E as <- <-; apply rtc_refl..].
  cbn [after_step goes is_last at_].
  destruct (await budget _ (w, s3)) as [r2 [w4 s4]] eqn:Er. apply (waiting_runs _ last c) in Er.
  destruct r2 as [[u2|e| |]|]; injection E as <- <-; try exact Er. by destruct last.
Qed.

Lemma create_runs connect last c o c' : (∀ r, connect = Ok r → is_bytes (arriving r)) → create_session connect budget now c = (o, c') →
  rtc pool_step (during c last Dialling) (match o with Some (Ok s) => during c' last (InHand s) | _ => without c' end).
Proof.
  intros Hb. unfold create_session. pose proof (steps_on c last Dialling) as Hd. cbn [advance at_ goes is_last target] in Hd.
  destruct (reserve c) as [[[]|e| |] c1]; try (intros [= <- <-]; eapply Hd; [done|]; apply rtc_refl). intros E. eapply Hd; [done|]. clear Hd.
  cbn [after_step goes is_last at_].
  assert (∀ q c', advance version connect budget now {| is_last := last; target := goal; at_ := Connecting |} c1 = (q, c') →
    ∀ P, rtc pool_step (after_step q c') P → rtc pool_step (during c1 last Connecting) P) as Hon
    by (intros q c2 Ea P HP; eapply rtc_l; [eapply advance_step; [exact Hb|exact Ea]|exact HP]).
  cbn [advance at_ goes is_last target] in Hon. destruct connect as [r|e| |]; try (injection E as <- <-; eapply Hon; [done|]; apply rtc_refl).
  destruct (auth_block c1) as [auth c2]. eapply Hon; [done|]. clear Hon. cbn [after_step goes is_last at_].
  destruct (greet budget auth r) as [[r1|e| |]|] eqn:Eg; (eapply steps_on; [cbn [advance at_]; rewrite Eg; reflexivity|]);
    try (injection E as <- <-; apply rtc_refl). cbn [after_step goes is_last at_].
  destruct (enrol r1 now c2) as [s c3] eqn:Es. injection E as <- <-.
  eapply steps_on; [cbn [advance at_]; rewrite Es; reflexivity|]. apply rtc_refl.
Qed.

Lemma attempt_new_runs connect last c o c' : (∀ r, connect = Ok r → is_bytes (arriving r)) →
  attempt_new budget version goal last connect now c = (o, c') → rtc pool_step (during c last Dialling) (after_attempt last o c').
Proof.
  intros Hb. unfold attempt_new. destruct (create_session connect budget now c) as [r c1] eqn:E. apply (create_runs _ last) in E; [|done].
  destruct r as [[s|e| |]|]; [|intros [= <- <-]; exact E..]. intros Ea%attempt_runs. by etransitivity.
Qed.
End alone.

(** A call during which nothing else happens is [open_initial]. *)
Theorem open_initial_runs host port initial version connect budget now key new c o c' cs ss ks :
  cs !! key = None → ss !! new = None → len version <= 60000 → len initial <= 60000 →
  (∀ n r, connect n = Ok r → is_bytes (arriving r)) →
  open_initial host port initial version connect budget now c = (o, c') →
  rtc pool_step {| client := c; calls := cs; streams := ss; closings := ks |}
    {| client := c'; calls := cs; streams := match o with Opened s => <[new := s]> ss | _ => ss end; closings := ks |}.
Proof.
  intros Hkey Hnew Hv Hi Hb. unfold open_initial.
  destruct (socks_address host port) as [address|e| |] eqn:Ea; try (intros [= <- <-]; apply rtc_refl). set (goal := address ++ initial).
  destruct (take_idle now c) as [reused c1] eqn:Et. intros E.
  eapply rtc_l; [exact (step_call {| client := c; calls := cs; streams := ss; closings := ks |} key host port initial address Hkey Ea Hi)|].
  fold goal. change (rtc pool_step (during key cs ss ks goal c false Taking)
    {| client := c'; calls := cs; streams := match o with Opened s => <[new := s]> ss | _ => ss end; closings := ks |}).
  eapply (steps_on version budget now key new); [done..|cbn [advance at_]; rewrite Et; reflexivity|]. cbn [after_step goes is_last at_].
  set (x := match reused with Some s => attempt _ _ _ _ s c1 | None => _ end) in E. destruct x as [r c2] eqn:Ex.
  assert (rtc pool_step (during key cs ss ks goal c1 false (match reused with Some s => InHand s | None => Dialling end))
    (after_attempt key new cs ss ks goal false r c2)) as H1.
  { unfold x in Ex. destruct reused as [s|]; [by apply (attempt_runs version budget now)|apply (attempt_new_runs version budget now _ _ _ _ _ _ Hkey Hnew Hv (connect 0%nat)); [by intros; eapply Hb|exact Ex]]. }
  etransitivity; [exact H1|]. destruct r as [r|]; [injection E as <- <-; destruct r; apply rtc_refl|].
  destruct (attempt_new _ _ _ true _ now c2) as [r3 c3] eqn:En.
  apply (attempt_new_runs version budget now key new cs ss ks goal Hkey Hnew Hv (connect 1%nat)) in En; [|by intros; eapply Hb].
  cbn [after_attempt]. destruct r3 as [r3|]; injection E as <- <-; [destruct r3; exact En|exact En].
Qed.

(** And a stream dropped while nothing else happens is [drop_stream]. *)
Theorem drop_stream_runs runtime budget now key new s c cs ss ks :
  ss !! key = Some s → ks !! new = None →
  rtc pool_step {| client := c; calls := cs; streams := ss; closings := ks |}
    {| client := drop_stream runtime budget now s c; calls := cs; streams := delete key ss; closings := ks |}.
Proof.
  intros Hkey Hnew. destruct (start_close runtime s c) as [k c1] eqn:E.
  eapply rtc_l; [exact (step_drop {| client := c; calls := cs; streams := ss; closings := ks |} key new s runtime k c1 Hkey Hnew E)|].
  cbn [calls streams closings]. unfold start_close in E. unfold drop_stream. destruct (_ || _ || _); injection E as <- <-; [apply rtc_refl|].
  destruct (if negb _ && negb _ then _ else _) as [w s1] eqn:Ew.
  eapply rtc_l; [eapply (step_close _ new budget now); [apply lookup_insert_eq|cbn [advance_close client]; rewrite Ew; reflexivity]|].
  cbn [client calls streams closings]. rewrite insert_insert_eq.
  destruct (await budget poll_flush_wire s1) as [r s2] eqn:Ef. destruct r as [[u|e| |]|];
    (eapply rtc_l; [eapply (step_close _ new budget now); [apply lookup_insert_eq|cbn [advance_close client]; rewrite Ef; reflexivity]|]);
    cbn [client calls streams closings]; rewrite delete_insert_id by done; apply rtc_refl.
Qed.

(** Opening a stream, over whatever the connections do. A stream that opens runs
    over the newest idle session that is not too old, or over a new connection whose
    first bytes are the digest of the password and its padding; its id was never used
    on that session; the settings (on the first stream), the opening and the
    destination were handed to the connection, padding after them; and what the
    application will read first is the payload of frames of this very stream, not
    what was left for an earlier one. One session leaves the pool for it, none when
    it fails, and nothing idle is invented. *)
Theorem anytls_open_spec host port initial version connect budget now c o c' :
  client_ok c → (∀ n r, connect n = Ok r → is_bytes (arriving r)) → len initial <= 60000 → len version <= 60000 →
  open_initial host port initial version connect budget now c = (o, c') →
  (∀ s, s ∈ idle c' → s ∈ idle c) ∧
  match o with
  | Opened s => held c' = held c - 1 ∧
      ∃ address s0 w, socks_address host port = Ok address ∧ origin connect now c s0 ∧
        opened_over version (address ++ initial) w s0 s
  | _ => held c' = held c
  end.
Proof.
  intros Hc Hb Hi Hv E. apply open_initial_ok in E as (_ & H1 & H2); [|done..]. split; [done|].
  destruct o; try done. destruct H2 as (_ & H2 & H3). by split.
Qed.
End pool.

(** ** Examples *)
Definition example_client : Client :=
  @new_client unit {| padding := no_policy; rng := tt |} (replicate 32 1) 128 true.

Definition example_connect (n : nat) : outcome Raw :=
  Ok {| incoming := []; answers := replicate 20 (Accept 400); sent := [] |}.

Lemma example_client_ok : client_ok example_client.
Proof. split; simpl; try done; [apply no_policy_ok|constructor]. Qed.

Lemma example_connect_bytes n r : example_connect n = Ok r → is_bytes (arriving r).
Proof. intros [= <-]. constructor. Qed.

Lemma anytls_open_spec_witness :
  ∃ s c', @open_initial unit zero_rng zero_md5 (lit "example.com") 443 [] (lit "1") example_connect 40 0 example_client
    = (Opened s, c') ∧ held c' = 63 ∧
  ∃ address s0 (w : World unit), socks_address (lit "example.com") 443 = Ok address ∧
    origin example_connect 0 example_client s0 ∧ opened_over (lit "1") (address ++ []) w s0 s.
Proof.
  destruct (@open_initial unit zero_rng zero_md5 (lit "example.com") 443 [] (lit "1") example_connect 40 0 example_client)
    as [o c'] eqn:E.
  assert (len (@nil Z) <= 60000 ∧ len (lit "1") <= 60000) as [H1 H2] by (split; by vm_compute).
  destruct (anytls_open_spec _ _ _ _ _ _ _ _ _ _ example_client_ok example_connect_bytes H1 H2 E) as [_ Ho].
  destruct o as [s| | |]; [|by vm_compute in E..].
  exists s, c'. split; [done|]. exact Ho.
Defined.

Lemma anytls_pool_spec_witness :
  ∃ p s c', @Padding_default zero_md5 = Ok p ∧
    @open_initial unit zero_rng zero_md5 (lit "example.com") 443 [] (lit "1") example_connect 40 0
      (@new_client unit {| padding := p; rng := tt |} (replicate 32 1) 128 true) = (Opened s, c') ∧
    slots c' + len (idle c') + 1 = 64.
Proof.
  destruct (@Padding_default zero_md5) as [p| | |] eqn:Ep; [|by vm_compute in Ep..].
  destruct (@open_initial unit zero_rng zero_md5 (lit "example.com") 443 [] (lit "1") example_connect 40 0
      (@new_client unit {| padding := p; rng := tt |} (replicate 32 1) 128 true)) as [o c'] eqn:E.
  destruct o as [s| | |]; [|by (vm_compute in Ep; injection Ep as <-; vm_compute in E)..].
  exists p, s, c'. split; [done|]. split; [done|].
  assert (len (@nil Z) <= 60000 ∧ len (lit "1") <= 60000) as [H1 H2] by (split; by vm_compute).
  set (c0 := @new_client unit {| padding := p; rng := tt |} (replicate 32 1) 128 true) in *.
  destruct (@anytls_pool_spec unit zero_rng zero_md5 {| client := c'; calls := ∅; streams := <[0%nat := s]> ∅; closings := ∅ |}) as (_ & Hp & _).
  - apply (@anytls_pool_runs unit zero_rng zero_md5 (new_pool c0)); [by apply pool_start|].
    by apply (@open_initial_runs unit zero_rng zero_md5 (lit "example.com") 443 [] (lit "1") example_connect 40 0 0%nat 0%nat c0 (Opened s) c' ∅ ∅ ∅);
      [..|apply example_connect_bytes|exact E].
  - cbn [client calls streams closings] in Hp. rewrite sum_by_empty, map_size_insert_None, !map_size_empty in Hp by done. lia.
Defined.
