(* ===== verification/SsUdp.v ===== *)
(** * UDP over Shadowsocks (proxy/ss.rs)

    The packet counter of the sending side, the replay window and the receiving
    loop.  The socket and its cryptography belong to the shadowsocks crate: what it
    receives is a list of results, a datagram with its control data or an error.  The
    theorems say that no packet is accepted twice and no number is used twice. *)
From stdpp Require Import gmap sets.
From S2P Require Import Prelude Bytes Net Text.
#[local] Open Scope list_scope.
#[local] Open Scope Z_scope.

Definition U64_MAX : Z := 2 ^ 64 - 1.

(** ** The replay window: [highest] is a [u64], [bits] a [u128] *)
Record ReplayWindow := { highest : Z; bits : Z }.

(** [ReplayWindow::default()]. *)
Definition empty_window : ReplayWindow := {| highest := 0; bits := 0 |}.

Definition accept (id : Z) (w : ReplayWindow) : bool * ReplayWindow :=
  if bits w =? 0 then (true, {| highest := id; bits := 1 |})
  else if highest w <? id then
    let shift := id - highest w in
    (true, {| highest := id;
              bits := if 128 <=? shift then 1 else Z.lor (Z.shiftl (bits w) shift mod 2 ^ 128) 1 |})
  else
    let age := highest w - id in
    if (128 <=? age) || negb (Z.land (bits w) (Z.shiftl 1 age) =? 0) then (false, w)
    else (true, {| highest := highest w; bits := Z.lor (bits w) (Z.shiftl 1 age) |}).

(** ** Receiving *)
Record Control := { client_session_id : Z; server_session_id : Z; packet_id : Z }.

(** [recv_with_ctrl]: a datagram and its control data, if its cipher has any. *)
Definition received : Type := outcome (bytes * option Control).

(** What the loop of [recv] does with the control data of one datagram: [Ok true]
    delivers it, [Ok false] drops it. *)
Definition admit_packet (session : Z) (control : option Control) (replay : gmap Z ReplayWindow)
    : outcome bool * gmap Z ReplayWindow :=
  match control with
  | None => (Ok true, replay)
  | Some c =>
      if negb (client_session_id c =? session) then (Ok false, replay)
      else if (size replay <? 4)%nat || bool_decide (is_Some (replay !! server_session_id c)) then
        let '(ok, w) := accept (packet_id c) (default empty_window (replay !! server_session_id c)) in
        (Ok ok, <[server_session_id c := w]> replay)
      else (Err "Too many Shadowsocks server sessions", replay)
  end.

(** [recv] into a buffer of [room] bytes, over the datagrams that will arrive;
    [None] when it still waits for one. *)
Fixpoint recv (session room : Z) (events : list received) (replay : gmap Z ReplayWindow)
    : option (outcome bytes) * list received * gmap Z ReplayWindow :=
  match events with
  | [] => (None, [], replay)
  | Ok (wire, control) :: rest =>
      match admit_packet session control replay with
      | (Ok false, replay) => recv session room rest replay
      | (Ok true, replay) =>
          (Some (if len wire <=? room then Ok wire else Err "Shadowsocks UDP receive buffer too small"), rest, replay)
      | (Err e, replay) => (Some (Err e), rest, replay)
      | (Panic, replay) => (Some Panic, rest, replay)
      | (Diverge, replay) => (Some Diverge, rest, replay)
      end
  | Err e :: rest => (Some (Err e), rest, replay)
  | Panic :: rest => (Some Panic, rest, replay)
  | Diverge :: rest => (Some Diverge, rest, replay)
  end.

(** ** Sending

    [send] takes its packet number from an atomic counter, with a loop of weak
    compare-and-exchange.  [Loaded id] is a caller about to exchange, [Took id] one
    that has its number, [Exhausted] one whose [checked_add] failed. *)
Inductive sender := Loaded (id : Z) | Took (id : Z) | Exhausted.

Record Counter := { packet : Z; senders : gmap nat sender }.

Inductive send_step (s : Counter) : Counter → Prop :=
  | send_load t : senders s !! t = None →
      send_step s {| packet := packet s; senders := <[t := Loaded (packet s)]> (senders s) |}
  | send_exhausted t id : senders s !! t = Some (Loaded id) → U64_MAX < id + 1 →
      send_step s {| packet := packet s; senders := <[t := Exhausted]> (senders s) |}
  | send_exchange t id : senders s !! t = Some (Loaded id) → id + 1 <= U64_MAX → packet s = id →
      send_step s {| packet := id + 1; senders := <[t := Took id]> (senders s) |}
  | send_retry t id : senders s !! t = Some (Loaded id) → id + 1 <= U64_MAX →
      send_step s {| packet := packet s; senders := <[t := Loaded (packet s)]> (senders s) |}.

Inductive send_reachable : Counter → Prop :=
  | send_start : send_reachable {| packet := 0; senders := ∅ |}
  | send_next s s' : send_reachable s → send_step s s' → send_reachable s'.

(** ** The target address *)
Definition trim_brackets (s : bytes) : bytes :=
  let p := λ c, (c =? 91) || (c =? 93) in
  reverse (drop_while p (reverse (drop_while p s))).

(** [relay::Address] of the shadowsocks crate. *)
Inductive Address := SocketAddress (ip : IpAddr) (port : Z) | DomainNameAddress (host : bytes) (port : Z).

Definition target_address (host : bytes) (port : Z) : Address :=
  match parse_ip (trim_brackets host) with
  | Some ip => SocketAddress ip port
  | None => DomainNameAddress host port
  end.

(** * No packet twice, no number twice *)
(** ** The window as the set of packets it remembers *)
Record remembers (w : ReplayWindow) (seen : gset Z) : Prop := {
  rem_bits : 0 <= bits w < 2 ^ 128;
  rem_empty : bits w = 0 ↔ seen = ∅;
  rem_highest : seen ≠ ∅ → highest w ∈ seen ∧ ∀ i, i ∈ seen → i <= highest w;
  rem_bit : seen ≠ ∅ → ∀ k, 0 <= k < 128 → Z.testbit (bits w) k = bool_decide (highest w - k ∈ seen);
}.

(** The reference: a packet is new and not older than the window. *)
Definition stale (id : Z) (seen : gset Z) : Prop := id ∈ seen ∨ ∃ m, m ∈ seen ∧ id + 128 <= m.

#[local] Instance stale_dec id seen : Decision (stale id seen).
Proof.
  unfold stale. destruct (decide (id ∈ seen)); [left; by left|].
  destruct (decide (set_Exists (λ m, id + 128 <= m) seen)) as [H|H].
  - left. right. destruct H as (m & ? & ?). by exists m.
  - right. intros [?|(m & ? & ?)]; [done|]. apply H. by exists m.
Defined.

Lemma land_single b k : 0 <= k → (Z.land b (Z.shiftl 1 k) =? 0) = negb (Z.testbit b k).
Proof.
  intros Hk. rewrite Z.shiftl_1_l. destruct (Z.testbit b k) eqn:E; simpl.
  - apply Z.eqb_neq. intros H0. assert (Z.testbit (Z.land b (2 ^ k)) k = false) as H1 by (by rewrite H0, Z.bits_0).
    rewrite Z.land_spec, E, Z.pow2_bits_true in H1 by done. done.
  - apply Z.eqb_eq. apply Z.bits_inj'. intros n Hn. rewrite Z.land_spec, Z.bits_0.
    destruct (decide (n = k)) as [->|]; [by rewrite E|]. rewrite Z.pow2_bits_false by done. apply andb_false_r.
Qed.

Lemma lor_bound a b n : 0 < n → 0 <= a < 2 ^ n → 0 <= b < 2 ^ n → 0 <= Z.lor a b < 2 ^ n.
Proof.
  intros Hn Ha Hb. split; [apply Z.lor_nonneg; lia|].
  destruct (Z.eq_dec (Z.lor a b) 0) as [->|]; [lia|].
  assert (0 < Z.lor a b) as Hpos by (pose proof (proj2 (Z.lor_nonneg a b)); lia).
  apply Z.log2_lt_pow2; [done|]. rewrite Z.log2_lor by lia.
  apply Z.max_lub_lt.
  - destruct (Z.eq_dec a 0) as [->|]; [done|apply Z.log2_lt_pow2; lia].
  - destruct (Z.eq_dec b 0) as [->|]; [done|apply Z.log2_lt_pow2; lia].
Qed.

Lemma remembers_empty : remembers empty_window ∅.
Proof. split; simpl; [lia|done|done|done]. Qed.

Lemma testbit_1 k : 0 <= k → Z.testbit 1 k = bool_decide (k = 0).
Proof.
  intros Hk. destruct (decide (k = 0)) as [->|]; [done|]. rewrite bool_decide_eq_false_2 by done.
  change 1 with (2 ^ 0). apply Z.pow2_bits_false. lia.
Qed.

Lemma accept_refines id w seen :
  remembers w seen →
  let '(ok, w') := accept id w in
  ok = negb (bool_decide (stale id seen)) ∧
  remembers w' (if ok then {[id]} ∪ seen else seen).
Proof.
  intros [Hb He Hh Hk]. unfold accept. destruct (Z.eqb_spec (bits w) 0) as [H0|H0].
  - apply He in H0 as ->. split; [by rewrite bool_decide_eq_false_2 by (unfold stale; set_solver)|].
    rewrite union_empty_r_L. split; simpl; [lia|split; [lia|set_solver]|set_solver|].
    intros _ k Hk'. rewrite testbit_1 by lia. apply bool_decide_ext. rewrite elem_of_singleton. lia.
  - assert (seen ≠ ∅) as Hne by (by rewrite <- He). destruct (Hh Hne) as [Hin Hmax]. specialize (Hk Hne).
    destruct (Z.ltb_spec (highest w) id) as [Hlt|Hge].
    + split.
      { rewrite bool_decide_eq_false_2; [done|]. intros [Hid|(m & Hm & Hle)]; [apply Hmax in Hid; lia|apply Hmax in Hm; lia]. }
      set (b := if 128 <=? id - highest w then 1 else _).
      assert (0 <= b < 2 ^ 128 ∧ ∀ k, 0 <= k < 128 → Z.testbit b k = bool_decide (id - k ∈ {[id]} ∪ seen)) as [Hbb Hbk].
      { unfold b. destruct (Z.leb_spec 128 (id - highest w)).
        - split; [lia|]. intros k Hk'. rewrite testbit_1 by lia. apply bool_decide_ext. split; [set_solver by lia|].
          intros [E%elem_of_singleton|E%Hmax]%elem_of_union; lia.
        - split.
          + apply lor_bound; [lia| |lia]. apply Z.mod_pos_bound. lia.
          + intros k Hk'. rewrite Z.lor_spec, testbit_1, Z.mod_pow2_bits_low, Z.shiftl_spec by lia.
            destruct (decide (k = 0)) as [->|].
            * rewrite orb_true_r. symmetry. apply bool_decide_eq_true_2. rewrite Z.sub_0_r. set_solver.
            * rewrite (bool_decide_eq_false_2 (k = 0)), orb_false_r by done.
              destruct (Z.ltb_spec (k - (id - highest w)) 0).
              -- rewrite Z.testbit_neg_r by done. symmetry. apply bool_decide_eq_false_2.
                 intros [E%elem_of_singleton|E%Hmax]%elem_of_union; lia.
              -- rewrite Hk by lia. replace (highest w - (k - (id - highest w))) with (id - k) by lia.
                 apply bool_decide_ext. rewrite elem_of_union, elem_of_singleton. split; [by right|].
                 intros [?|?]; [lia|done]. }
      split; simpl; [done| | |by intros _].
      * split; [|set_solver]. intros E. specialize (Hbk 0 ltac:(lia)). rewrite E, Z.bits_0 in Hbk.
        symmetry in Hbk. apply bool_decide_eq_false in Hbk. rewrite Z.sub_0_r in Hbk. set_solver.
      * intros _. split; [set_solver|]. intros i [->%elem_of_singleton|Hi%Hmax]%elem_of_union; lia.
    + rewrite land_single by lia. rewrite negb_involutive.
      destruct (Z.leb_spec 128 (highest w - id)) as [Hold|Hnew]; simpl.
      { split; [|done]. rewrite bool_decide_eq_true_2; [done|]. right. exists (highest w). split; [done|lia]. }
      rewrite Hk by lia. replace (highest w - (highest w - id)) with id by lia.
      destruct (bool_decide (id ∈ seen)) eqn:Ein.
      { apply bool_decide_eq_true in Ein. split; [|done]. rewrite bool_decide_eq_true_2; [done|by left]. }
      apply bool_decide_eq_false in Ein. split.
      { rewrite bool_decide_eq_false_2; [done|]. intros [?|(m & Hm%Hmax & Hle)]; [done|lia]. }
      split; simpl.
      * apply lor_bound; [lia|done|]. rewrite Z.shiftl_1_l. split; [apply Z.pow_nonneg; lia|].
        apply Z.pow_lt_mono_r; lia.
      * split; [|set_solver]. intros [E _]%Z.lor_eq_0_iff. done.
      * intros _. split; [set_solver|]. intros i [->%elem_of_singleton|Hi%Hmax]%elem_of_union; lia.
      * intros _ k Hk'. rewrite Z.lor_spec, Z.shiftl_1_l, Hk, Z.pow2_bits_eqb by lia.
        destruct (Z.eqb_spec (highest w - id) k) as [<-|Hnk].
        -- rewrite orb_true_r. symmetry. apply bool_decide_eq_true_2.
           replace (highest w - (highest w - id)) with id by lia. set_solver.
        -- rewrite orb_false_r. apply bool_decide_ext. rewrite elem_of_union, elem_of_singleton.
           split; [by right|]. intros [?|?]; [lia|done].
Qed.

(** ** The receiver as a set of packets per server session *)
Abbreviation Seen := (gmap Z (gset Z)).

Definition spec_admit (session : Z) (control : option Control) (s : Seen) : outcome bool * Seen :=
  match control with
  | None => (Ok true, s)
  | Some c =>
      if negb (client_session_id c =? session) then (Ok false, s)
      else if (size s <? 4)%nat || bool_decide (is_Some (s !! server_session_id c)) then
        let seen := default ∅ (s !! server_session_id c) in
        if decide (stale (packet_id c) seen) then (Ok false, <[server_session_id c := seen]> s)
        else (Ok true, <[server_session_id c := {[packet_id c]} ∪ seen]> s)
      else (Err "Too many Shadowsocks server sessions", s)
  end.

Record refines (replay : gmap Z ReplayWindow) (s : Seen) : Prop := {
  ref_dom : ∀ k, is_Some (replay !! k) ↔ is_Some (s !! k);
  ref_window : ∀ k w seen, replay !! k = Some w → s !! k = Some seen → remembers w seen;
  ref_bound : (size s <= 4)%nat;
}.

Lemma refines_empty : refines ∅ ∅.
Proof.
  split; [|by intros k w seen H; rewrite lookup_empty in H|apply Nat.le_0_l].
  intros k. rewrite !lookup_empty. split; by intros [? ?].
Qed.

Lemma refines_size replay s : refines replay s → size replay = size s.
Proof.
  intros [Hd _ _]. assert (dom replay = dom s) as E by (apply set_eq; intros k; rewrite (elem_of_dom replay), (elem_of_dom s); apply Hd).
  by rewrite <- (size_dom replay), <- (size_dom s), E.
Qed.

Lemma refines_insert replay s k w seen :
  refines replay s → remembers w seen → (size s < 4)%nat ∨ is_Some (s !! k) →
  refines (<[k := w]> replay) (<[k := seen]> s).
Proof.
  intros [Hd Hw Hb] Hr Hk. split.
  - intros j. rewrite (lookup_insert_is_Some replay), (lookup_insert_is_Some s). by rewrite Hd.
  - intros j w' seen' H1 H2. destruct (decide (k = j)) as [<-|Hne].
    + rewrite lookup_insert_eq in H1. rewrite lookup_insert_eq in H2. by simplify_eq.
    + rewrite lookup_insert_ne in H1 by done. rewrite lookup_insert_ne in H2 by done. by eapply Hw.
  - destruct (s !! k) eqn:E; [by rewrite map_size_insert_Some by (by rewrite E)|].
    rewrite map_size_insert_None by done. destruct Hk as [|[? ?]]; [lia|done].
Qed.

Lemma admit_refines session control replay s :
  refines replay s →
  (admit_packet session control replay).1 = (spec_admit session control s).1 ∧
  refines (admit_packet session control replay).2 (spec_admit session control s).2.
Proof.
  intros Hr. unfold admit_packet, spec_admit. destruct control as [c|]; [|done].
  destruct (negb _); [done|]. rewrite (refines_size _ _ Hr).
  rewrite (bool_decide_ext _ _ (ref_dom _ _ Hr (server_session_id c))).
  destruct ((size s <? 4)%nat || _) eqn:Hroom; [|done].
  assert ((size s < 4)%nat ∨ is_Some (s !! server_session_id c)) as Hk.
  { apply orb_true_iff in Hroom as [H%Nat.ltb_lt|H%bool_decide_eq_true]; [by left|by right]. }
  assert (remembers (default empty_window (replay !! server_session_id c)) (default ∅ (s !! server_session_id c))) as Hrem.
  { destruct (replay !! server_session_id c) as [w|] eqn:E1, (s !! server_session_id c) as [seen|] eqn:E2; simpl.
    - by eapply ref_window.
    - exfalso. destruct (proj1 (ref_dom _ _ Hr _) (ltac:(by eexists))) as [x Hx]. congruence.
    - exfalso. destruct (proj2 (ref_dom _ _ Hr _) (ltac:(by eexists))) as [x Hx]. congruence.
    - apply remembers_empty. }
  pose proof (accept_refines (packet_id c) _ _ Hrem) as Ha.
  destruct (accept _ _) as [ok w]. destruct Ha as [-> Hw].
  destruct (decide (stale (packet_id c) _)) as [Hs|Hs].
  - rewrite bool_decide_eq_true_2 in Hw |- * by done. split; [done|]. by apply refines_insert.
  - rewrite bool_decide_eq_false_2 in Hw |- * by done. split; [done|]. by apply refines_insert.
Qed.

(** ** Histories of [recv]

    The reference history: what each datagram gives its receiver, if anything. *)
Fixpoint spec_recv (session room : Z) (events : list received) (s : Seen) : list (outcome bytes) :=
  match events with
  | [] => []
  | Ok (wire, control) :: rest =>
      let '(verdict, s) := spec_admit session control s in
      let out := spec_recv session room rest s in
      match verdict with
      | Ok false => out
      | Ok true => (if len wire <=? room then Ok wire else Err "Shadowsocks UDP receive buffer too small") :: out
      | Err e => Err e :: out
      | Panic => Panic :: out
      | Diverge => Diverge :: out
      end
  | Err e :: rest => Err e :: spec_recv session room rest s
  | Panic :: rest => Panic :: spec_recv session room rest s
  | Diverge :: rest => Diverge :: spec_recv session room rest s
  end.

(** Calls of [recv] until one would wait. *)
Fixpoint recv_all (fuel : nat) (session room : Z) (events : list received) (replay : gmap Z ReplayWindow)
    : list (outcome bytes) * gmap Z ReplayWindow :=
  match fuel with
  | O => ([], replay)
  | S fuel =>
      match recv session room events replay with
      | (Some o, rest, replay) => let '(out, replay) := recv_all fuel session room rest replay in (o :: out, replay)
      | (None, _, replay) => ([], replay)
      end
  end.

Lemma recv_shorter session room events : ∀ replay o rest replay',
  recv session room events replay = (Some o, rest, replay') → (length rest < length events)%nat.
Proof.
  induction events as [|[[wire control]|e| |] events IH]; intros replay o rest replay'; simpl; [done|..];
    try (intros [= _ <- _]; lia).
  destruct (admit_packet session control replay) as [[[]|e| |] r]; try (intros [= _ <- _]; lia).
  intros E%IH. lia.
Qed.

Lemma ss_recv_spec session room events : ∀ replay s,
  refines replay s →
  match recv session room events replay with
  | (Some o, rest, replay') => ∃ s', refines replay' s' ∧
      spec_recv session room events s = o :: spec_recv session room rest s'
  | (None, _, replay') => spec_recv session room events s = [] ∧ (size replay' <= 4)%nat
  end.
Proof.
  induction events as [|[[wire control]|e| |] events IH]; intros replay s Hr; simpl; try (by exists s).
  { split; [done|]. rewrite (refines_size _ _ Hr). apply Hr. }
  pose proof (admit_refines session control _ _ Hr) as [Hv Hr'].
  destruct (admit_packet session control replay) as [v replay'], (spec_admit session control s) as [v' s'].
  simpl in *. subst v'. destruct v as [[]|e| |]; try (by exists s'). by apply IH.
Qed.

(** The packets [recv] delivered, by server session and number. *)
Fixpoint delivered (session : Z) (events : list received) (s : Seen) : list (Z * Z) :=
  match events with
  | [] => []
  | Ok (_, control) :: rest =>
      let '(verdict, s) := spec_admit session control s in
      match verdict, control with
      | Ok true, Some c => (server_session_id c, packet_id c) :: delivered session rest s
      | _, _ => delivered session rest s
      end
  | _ :: rest => delivered session rest s
  end.

Lemma spec_admit_grows session control s k i :
  i ∈ default ∅ (s !! k) → i ∈ default ∅ ((spec_admit session control s).2 !! k).
Proof.
  intros Hi. unfold spec_admit. destruct control as [c|]; [|done]. destruct (negb _); [done|].
  destruct (_ || _); [|done]. destruct (decide (stale _ _)); simpl;
    (destruct (decide (server_session_id c = k)) as [<-|]; [rewrite lookup_insert_eq; simpl|by rewrite lookup_insert_ne]).
  - done.
  - set_solver.
Qed.

Lemma delivered_new session events : ∀ s k i, i ∈ default ∅ (s !! k) → (k, i) ∉ delivered session events s.
Proof.
  induction events as [|[[wire control]|e| |] events IH]; intros s k i Hi; simpl; try (by apply IH); [apply not_elem_of_nil|].
  pose proof (spec_admit_grows session control s k i Hi) as Hg.
  destruct (spec_admit session control s) as [v s'] eqn:E. simpl in Hg.
  destruct v as [[]|e| |], control as [c|]; try (by apply IH).
  apply not_elem_of_cons. split; [|by apply IH]. intros [= -> ->]. revert E. unfold spec_admit.
  destruct (negb _); [done|]. destruct (_ || _); [|done]. destruct (decide (stale _ _)) as [Hs|Hs]; [done|].
  intros _. apply Hs. by left.
Qed.

Lemma delivered_nodup session events : ∀ s, NoDup (delivered session events s).
Proof.
  induction events as [|[[wire control]|e| |] events IH]; intros s; simpl; try (by apply IH); [constructor|].
  destruct (spec_admit session control s) as [v s'] eqn:E.
  destruct v as [[]|e| |], control as [c|]; try (by apply IH). constructor; [|by apply IH].
  apply delivered_new. revert E. unfold spec_admit. destruct (negb _); [done|]. destruct (_ || _); [|done].
  destruct (decide (stale _ _)); [done|]. intros [= <-]. rewrite lookup_insert_eq. simpl. set_solver.
Qed.

(** C34. The receiver implements a set of packets. Whatever datagrams arrive, in any
    order and repeatedly, the calls of [recv] give what a receiver with an unbounded
    memory would give that refuses a packet it has seen, a packet more than 127
    numbers behind the newest of its session, a packet of another client session, and
    a fifth server session; so no numbered packet is delivered twice, and at most
    four windows are kept. *)
Theorem ss_recv_refines session room events :
  let '(out, replay) := recv_all (S (length events)) session room events ∅ in
  out = spec_recv session room events ∅ ∧ (size replay <= 4)%nat ∧ NoDup (delivered session events ∅).
Proof.
  assert (∀ fuel evs replay s, refines replay s → (length evs < fuel)%nat →
    let '(out, replay') := recv_all fuel session room evs replay in
    out = spec_recv session room evs s ∧ (size replay' <= 4)%nat) as Hall.
  { induction fuel as [|fuel IH]; intros evs replay s Hr Hf; [lia|].
    cbn [recv_all]. pose proof (ss_recv_spec session room evs _ _ Hr) as Hs.
    destruct (recv session room evs replay) as [[[o|] rest] replay'] eqn:E; [|by destruct Hs as [-> ?]].
    destruct Hs as (s' & Hr' & ->). apply recv_shorter in E. specialize (IH rest replay' s' Hr' ltac:(lia)).
    destruct (recv_all fuel session room rest replay') as [out final]. destruct IH as [-> ?]. done. }
  specialize (Hall (S (length events)) events ∅ ∅ refines_empty ltac:(lia)).
  destruct (recv_all _ _ _ _ _) as [out replay]. destruct Hall as [-> ?]. split_and!; [done..|]. apply delivered_nodup.
Qed.

(** ** Packet numbers *)
Record counter_ok (s : Counter) : Prop := {
  cnt_range : 0 <= packet s <= U64_MAX;
  cnt_loaded : ∀ t id, senders s !! t = Some (Loaded id) → 0 <= id <= packet s;
  cnt_took : ∀ t id, senders s !! t = Some (Took id) → 0 <= id < packet s;
  cnt_unique : ∀ t u id, senders s !! t = Some (Took id) → senders s !! u = Some (Took id) → t = u;
  cnt_exhausted : ∀ t, senders s !! t = Some Exhausted → packet s = U64_MAX;
}.

Lemma counter_reachable_ok s : send_reachable s → counter_ok s.
Proof.
  induction 1 as [|s s' _ [Hr Hl Ht Hu He] Hstep].
  { split; simpl; try (intros *; by rewrite lookup_empty). unfold U64_MAX. lia. }
  destruct Hstep as [t Hn|t id Hs Hx|t id Hs Hx Heq|t id Hs Hx]; split; simpl.
  - done.
  - intros u i [[<- [= <-]]|[_ ?]]%lookup_insert_Some; [lia|by eapply Hl].
  - intros u i [[<- ?]|[_ ?]]%lookup_insert_Some; [done|by eapply Ht].
  - intros u v i [[<- ?]|[_ H1]]%lookup_insert_Some [[<- ?]|[_ H2]]%lookup_insert_Some; try done. by eapply Hu.
  - intros u [[<- ?]|[_ ?]]%lookup_insert_Some; [done|by eapply He].
  - done.
  - intros u i [[<- ?]|[_ ?]]%lookup_insert_Some; [done|by eapply Hl].
  - intros u i [[<- ?]|[_ ?]]%lookup_insert_Some; [done|by eapply Ht].
  - intros u v i [[<- ?]|[_ H1]]%lookup_insert_Some [[<- ?]|[_ H2]]%lookup_insert_Some; try done. by eapply Hu.
  - intros u _. specialize (Hl _ _ Hs). lia.
  - specialize (Hl _ _ Hs). lia.
  - intros u i [[<- ?]|[_ H1]]%lookup_insert_Some; [done|]. specialize (Hl _ _ H1). lia.
  - intros u i [[<- [= <-]]|[_ H1]]%lookup_insert_Some; [specialize (Hl _ _ Hs); lia|]. specialize (Ht _ _ H1). lia.
  - intros u v i [[<- [= <-]]|[_ H1]]%lookup_insert_Some [[<- E2]|[_ H2]]%lookup_insert_Some; try done.
    + specialize (Ht _ _ H2). lia.
    + injection E2 as <-. specialize (Ht _ _ H1). lia.
    + by eapply Hu.
  - intros u [[<- ?]|[_ H1]]%lookup_insert_Some; [done|]. specialize (He _ H1). lia.
  - done.
  - intros u i [[<- [= <-]]|[_ ?]]%lookup_insert_Some; [lia|by eapply Hl].
  - intros u i [[<- ?]|[_ ?]]%lookup_insert_Some; [done|by eapply Ht].
  - intros u v i [[<- ?]|[_ H1]]%lookup_insert_Some [[<- ?]|[_ H2]]%lookup_insert_Some; try done. by eapply Hu.
  - intros u [[<- ?]|[_ ?]]%lookup_insert_Some; [done|by eapply He].
Qed.

(** Two packets of a Shadowsocks association never carry the same number, however
    their senders interleave and however often the weak exchange fails: numbers are
    handed out once each and stay below the counter, which never wraps; a sender
    fails only when every number was used; and one whose exchange can fail for no
    other reason than another sender's progress may take the next step. *)
Theorem ss_numbers_unique s :
  send_reachable s →
  (∀ t u id, senders s !! t = Some (Took id) → senders s !! u = Some (Took id) → t = u) ∧
  (∀ t id, senders s !! t = Some (Took id) → 0 <= id < packet s ∧ packet s <= U64_MAX) ∧
  (∀ t, senders s !! t = Some Exhausted → packet s = U64_MAX) ∧
  (∀ t id, senders s !! t = Some (Loaded id) → ∃ s', send_step s s' ∧
     (senders s' !! t = Some (Took id) ∨ senders s' !! t = Some Exhausted ∨
      (packet s ≠ id ∧ senders s' !! t = Some (Loaded (packet s))))).
Proof.
  intros [Hr Hl Ht Hu He]%counter_reachable_ok. split_and!; try done.
  - intros t id Hs. specialize (Ht _ _ Hs). lia.
  - intros t id Hs. destruct (decide (U64_MAX < id + 1)) as [Hx|Hx].
    { eexists. split; [by eapply send_exhausted|]. simpl. rewrite lookup_insert_eq. auto. }
    destruct (decide (packet s = id)) as [Heq|Hne].
    + eexists. split; [eapply send_exchange; [done|lia|done]|]. simpl. rewrite lookup_insert_eq. auto.
    + eexists. split; [eapply send_retry; [done|lia]|]. simpl. rewrite lookup_insert_eq. auto.
Qed.

(** Two senders that loaded the same number. *)
Lemma ss_numbers_unique_witness :
  let s := {| packet := 1; senders := {[0%nat := Took 0; 1%nat := Loaded 0]} |} in
  send_reachable s ∧ ∀ t u id, senders s !! t = Some (Took id) → senders s !! u = Some (Took id) → t = u.
Proof.
  intros s.
  set (s0 := {| packet := 0; senders := ∅ |}).
  set (s1 := {| packet := 0; senders := <[0%nat := Loaded 0]> ∅ |}).
  set (s2 := {| packet := 0; senders := <[1%nat := Loaded 0]> (<[0%nat := Loaded 0]> ∅) |}).
  assert (send_reachable s) as Hs.
  { apply (send_next s2); [apply (send_next s1); [apply (send_next s0); [apply send_start|]|]|].
    - exact (send_load s0 0%nat eq_refl).
    - exact (send_load s1 1%nat eq_refl).
    - exact (send_exchange s2 0%nat 0 eq_refl ltac:(by vm_compute) eq_refl). }
  split; [done|]. apply (ss_numbers_unique s Hs).
Defined.
