(* ===== verification/Vision.v ===== *)
(** * VLESS Vision (proxy/vision.rs)

    The reader that stops at the records of the outer TLS connection, the parser
    that watches the records of the inner one, and the stream that frames the first
    packets and then hands over to the bare connection.  The outer TLS client is the
    vendored craftls: what its reads give, what it still holds decrypted, and the
    socket under it are three [Raw] streams, and [at_boundary] of the socket's
    [RecordIo] is a parameter of the stream's state. *)
From S2P Require Import Prelude Bytes AsyncIo.

Definition CHUNK : Z := 16 * 1024.
Definition MAX_FRAME : Z := 21 + 2 * 65535.

(** [rand::random::<u8>()]. *)
Class RandomByte (G : Type) := {
  random_byte : G → Z * G;
  random_byte_u8 g : u8 (random_byte g).1;
}.

(** ** Records of the outer connection *)
Record RecordIo := { io : Raw; header : bytes; header_len : Z; remaining : Z }.

Definition RecordIo_new (r : Raw) : RecordIo :=
  {| io := r; header := replicate 5 0; header_len := 0; remaining := 0 |}.

Definition at_boundary (r : RecordIo) : bool := (header_len r =? 0) && (remaining r =? 0).

(** [poll_read] into a buffer with room for [room] bytes. *)
Definition record_read (room : Z) (r : RecordIo) : poll bytes * RecordIo :=
  if room =? 0 then (Ready (Ok []), r)
  else
    let in_header := remaining r =? 0 in
    let max := if in_header then 5 - header_len r else remaining r in
    let limit := Z.min max room in
    match raw_read limit (io r) with
    | (Pending, i) => (Pending, {| io := i; header := header r; header_len := header_len r; remaining := remaining r |})
    | (Ready (Err e), i) =>
        (Ready (Err e), {| io := i; header := header r; header_len := header_len r; remaining := remaining r |})
    | (Ready Panic, i) => (Ready Panic, r)
    | (Ready Diverge, i) => (Ready Diverge, r)
    | (Ready (Ok bs), i) =>
        let n := len bs in
        if (n =? 0) && negb (at_boundary r)
        then (Ready (Err "Truncated outer TLS record"),
              {| io := i; header := header r; header_len := header_len r; remaining := remaining r |})
        else if in_header then
          let h := take (Z.to_nat (header_len r)) (header r) ++ bs ++ drop (Z.to_nat (header_len r + n)) (header r) in
          let hl := header_len r + n in
          if hl =? 5 then
            let size := of_be (range h 3 5) in
            (Ready (Ok bs), {| io := i; header := h; header_len := if size =? 0 then 0 else hl; remaining := size |})
          else (Ready (Ok bs), {| io := i; header := h; header_len := hl; remaining := remaining r |})
        else
          let left := remaining r - n in
          (Ready (Ok bs), {| io := i; header := header r; header_len := if left =? 0 then 0 else header_len r;
                             remaining := left |})
    end.

(** ** Records of the inner connection *)
Definition release_prefix (buf : bytes) (consumed : Z) : bytes :=
  drop (Z.to_nat (Z.min consumed (len buf))) buf.

(** The extension loop of [server_hello]. *)
Fixpoint hello_extensions (fuel : nat) (b : bytes) (at_ stop : Z) : outcome (option bool) :=
  match fuel with
  | O => Diverge
  | S fuel =>
      if at_ + 4 <=? stop then
        key ← idx_u16 b at_;
        size ← idx_u16 b (at_ + 2);
        let at_ := at_ + 4 in
        if stop <? at_ + size then Ok (Some false)
        else if key =? 43 then
          v ← sub b at_ (at_ + size);
          Ok (Some ((size =? 2) && bool_decide (v = [3; 4])))
        else hello_extensions fuel b (at_ + size) stop
      else Ok (Some false)
  end.

(** The operator [?] on a missing byte. *)
Definition or_none {A B} (o : option A) (k : A → outcome (option B)) : outcome (option B) :=
  match o with Some a => k a | None => Ok None end.

Definition server_hello (bs : bytes) : outcome (option bool) :=
  if len bs <? 4 then Ok None
  else
    b1 ← idx bs 1; b2 ← idx bs 2; b3 ← idx bs 3;
    let size := Z.lor (Z.lor (Z.shiftl b1 16) (Z.shiftl b2 8)) b3 in
    if 65532 <? size then Ok (Some false)
    else if len bs <? size + 4 then Ok None
    else
      b0 ← idx bs 0;
      if negb (b0 =? 2) || (size <? 40) then Ok (Some false)
      else
        b ← sub bs 4 (4 + size);
        or_none (byte_at b 34) (λ n,
        let offset := 35 + n in
        or_none (byte_at b offset) (λ c0, or_none (byte_at b (offset + 1)) (λ c1,
        let cipher := c0 * 256 + c1 in
        if negb ((4865 <=? cipher) && (cipher <=? 4868)) then Ok (Some false)
        else
          let at_ := offset + 5 in
          or_none (byte_at b (offset + 3)) (λ e0, or_none (byte_at b (offset + 4)) (λ e1,
          let stop := at_ + (e0 * 256 + e1) in
          if len b <? stop then Ok (Some false)
          else hello_extensions (S (length b)) b at_ stop)))))
  .

Record Records := { rbytes : bytes; handshake : bytes; enabled : bool; seen_tls : bool; rfailed : bool }.

Definition Records_default : Records :=
  {| rbytes := []; handshake := []; enabled := false; seen_tls := false; rfailed := false |}.

(** What one round of the loop of [feed] keeps: the flags, whether the last whole
    record carried application data, and the bytes consumed. *)
Fixpoint feed_loop (fuel : nat) (server : bool) (r : Records) (last_application : bool) (consumed : Z)
    : outcome (Records * bool * Z) :=
  match fuel with
  | O => Diverge
  | S fuel =>
      if 5 <=? len (rbytes r) - consumed then
        let view := drop (Z.to_nat consumed) (rbytes r) in
        kind ← idx view 0;
        major ← idx view 1;
        let fail := {| rbytes := rbytes r; handshake := handshake r; enabled := enabled r; seen_tls := seen_tls r;
                       rfailed := true |} in
        if negb ((20 <=? kind) && (kind <=? 23)) || negb (major =? 3) then Ok (fail, last_application, consumed)
        else
          size ← idx_u16 view 3;
          if 18432 <? size then Ok (fail, last_application, consumed)
          else if len view <? size + 5 then Ok (r, last_application, consumed)
          else
            '(hs, en) ←
              (if server && (kind =? 22) && negb (enabled r) && (len (handshake r) + size <=? 65536) then
                 body ← sub view 5 (5 + size);
                 let hs := handshake r ++ body in
                 hello ← server_hello hs;
                 Ok match hello with Some en => ([], en) | None => (hs, enabled r) end
               else Ok (handshake r, enabled r));
            feed_loop fuel server
              {| rbytes := rbytes r; handshake := hs; enabled := en; seen_tls := true; rfailed := rfailed r |}
              (kind =? 23) (consumed + size + 5)
      else Ok (r, last_application, consumed)
  end.

Definition with_rbytes (b : bytes) (r : Records) : Records :=
  {| rbytes := b; handshake := handshake r; enabled := enabled r; seen_tls := seen_tls r; rfailed := rfailed r |}.

Definition feed (data : bytes) (server : bool) (r : Records) : outcome (bool * Records) :=
  if rfailed r then Ok (false, r)
  else if 131072 <? len (rbytes r) + len data then
    Ok (false, {| rbytes := []; handshake := handshake r; enabled := enabled r; seen_tls := seen_tls r; rfailed := true |})
  else
    let r := with_rbytes (rbytes r ++ data) r in
    '(r, last_application, consumed) ← feed_loop (S (length (rbytes r))) server r false 0;
    let r := if rfailed r then with_rbytes [] r
             else if 0 <? consumed then with_rbytes (release_prefix (rbytes r) consumed) r else r in
    Ok (last_application && bool_decide (rbytes r = []), r).

(** ** The stream *)
(** The reading half of [VisionStream]: the VLESS response, then padded frames, then
    the rest. *)
Record Reader := {
  response : bytes;
  response_left : option Z;
  response_done : bool;
  encoded : bytes;
  first_read : bool;
  reading_padding : bool;
  raw_reading : bool;
  ready : bytes;
  ready_at : Z;
  inbound : Records;
}.

(** The writing half. *)
Record Writer := {
  wire : bytes;
  wire_at : Z;
  write_command : Z;
  first_write : bool;
  writing_padding : bool;
  raw_writing : bool;
  outbound : Records;
  writes : Z;
}.

(** [tls] is the decrypted side of the outer connection, [held] what the TLS client
    has decrypted and not handed out, [socket] the connection under it. *)
Record VisionStream := {
  tls : Raw; held : Raw; socket : Raw; uuid : bytes; reader : Reader; writer : Writer; failed : bool
}.

Definition VisionStream_new (t h s : Raw) (uuid : bytes) : VisionStream :=
  {| tls := t; held := h; socket := s; uuid := uuid;
     reader := {| response := []; response_left := None; response_done := false; encoded := [];
                  first_read := true; reading_padding := true; raw_reading := false; ready := []; ready_at := 0;
                  inbound := Records_default |};
     writer := {| wire := []; wire_at := 0; write_command := 0; first_write := true; writing_padding := true;
                  raw_writing := false; outbound := Records_default; writes := 0 |};
     failed := false |}.

Definition with_streams (t h s : Raw) (v : VisionStream) : VisionStream :=
  {| tls := t; held := h; socket := s; uuid := uuid v; reader := reader v; writer := writer v; failed := failed v |}.
Definition with_reader (r : Reader) (v : VisionStream) : VisionStream :=
  {| tls := tls v; held := held v; socket := socket v; uuid := uuid v; reader := r; writer := writer v;
     failed := failed v |}.
Definition with_writer (w : Writer) (v : VisionStream) : VisionStream :=
  {| tls := tls v; held := held v; socket := socket v; uuid := uuid v; reader := reader v; writer := w;
     failed := failed v |}.
Definition with_failed (v : VisionStream) : VisionStream :=
  {| tls := tls v; held := held v; socket := socket v; uuid := uuid v; reader := reader v; writer := writer v;
     failed := true |}.

Definition with_ready (b : bytes) (at_ : Z) (r : Reader) : Reader :=
  {| response := response r; response_left := response_left r; response_done := response_done r;
     encoded := encoded r; first_read := first_read r; reading_padding := reading_padding r;
     raw_reading := raw_reading r; ready := b; ready_at := at_; inbound := inbound r |}.
Definition with_encoded (b : bytes) (r : Reader) : Reader :=
  {| response := response r; response_left := response_left r; response_done := response_done r;
     encoded := b; first_read := first_read r; reading_padding := reading_padding r;
     raw_reading := raw_reading r; ready := ready r; ready_at := ready_at r; inbound := inbound r |}.
Definition with_response (b : bytes) (more : option Z) (done_ : bool) (r : Reader) : Reader :=
  {| response := b; response_left := more; response_done := done_;
     encoded := encoded r; first_read := first_read r; reading_padding := reading_padding r;
     raw_reading := raw_reading r; ready := ready r; ready_at := ready_at r; inbound := inbound r |}.
Definition with_wire (b : bytes) (at_ : Z) (raw : bool) (w : Writer) : Writer :=
  {| wire := b; wire_at := at_; write_command := write_command w; first_write := first_write w;
     writing_padding := writing_padding w; raw_writing := raw; outbound := outbound w; writes := writes w |}.

Section stream.
Context (boundary : VisionStream → bool).

(** *** Reading *)
Definition decode (v : VisionStream) : outcome bool * VisionStream :=
  let r := reader v in
  if negb (reading_padding r) then
    (Ok (negb (bool_decide (encoded r = []))), with_reader (with_encoded [] (with_ready (encoded r) (ready_at r) r)) v)
  else
    let prefix := if first_read r then 16 else 0 in
    let e := encoded r in
    if len e <? prefix + 5 then (Ok false, v)
    else if first_read r && negb (bool_decide (range e 0 16 = uuid v)) then (Err "Invalid Vision UUID", v)
    else
      let command := default 0 (byte_at e prefix) in
      if 2 <? command then (Err "Invalid Vision command", v)
      else
        let content := of_be (range e (prefix + 1) (prefix + 3)) in
        let padding := of_be (range e (prefix + 3) (prefix + 5)) in
        let size := prefix + 5 + content + padding in
        if len e <? size then (Ok false, v)
        else
          let body := range e (prefix + 5) (prefix + 5 + content) in
          match feed body true (inbound r) with
          | Ok (_, records) =>
              let rest := release_prefix e size in
              let last := negb (command =? 0) in
              let r' := {| response := response r; response_left := response_left r; response_done := response_done r;
                           encoded := if last then [] else rest; first_read := false;
                           reading_padding := if last then false else reading_padding r;
                           raw_reading := raw_reading r; ready := if last then body ++ rest else body;
                           ready_at := ready_at r; inbound := records |} in
              if command =? 2 then
                if negb (boundary v)
                then (Err "Vision direct transition inside outer TLS record", with_reader r' v)
                else
                  (Ok (negb (bool_decide (ready r' = []))),
                   with_reader {| response := response r'; response_left := response_left r';
                                  response_done := response_done r'; encoded := encoded r'; first_read := false;
                                  reading_padding := reading_padding r'; raw_reading := true; ready := ready r';
                                  ready_at := ready_at r'; inbound := records |} v)
              else (Ok (negb (bool_decide (ready r' = []))), with_reader r' v)
          | Err er => (Err er, v)
          | Panic => (Panic, v)
          | Diverge => (Diverge, v)
          end.

(** One round of the VLESS response: [true] to go on. *)
Definition read_response (v : VisionStream) : poll unit * VisionStream :=
  let r := reader v in
  let need := match response_left r with Some more => more | None => 2 - len (response r) end in
  if need =? 0 then (Ready (Ok tt), with_reader (with_response (response r) (response_left r) true r) v)
  else
    match raw_read need (tls v) with
    | (Pending, t) => (Pending, with_streams t (held v) (socket v) v)
    | (Ready (Err e), t) => (Ready (Err e), with_streams t (held v) (socket v) v)
    | (Ready Panic, t) => (Ready Panic, v)
    | (Ready Diverge, t) => (Ready Diverge, v)
    | (Ready (Ok chunk), t) =>
        let v := with_streams t (held v) (socket v) v in
        if bool_decide (chunk = []) then (Ready (Err "unexpected end of file"), v)
        else
          match response_left r with
          | Some more => (Ready (Ok tt), with_reader (with_response (response r) (Some (more - len chunk)) false r) v)
          | None =>
              let resp := response r ++ chunk in
              if len resp =? 2 then
                if negb (default 0 (byte_at resp 0) =? 0)
                then (Ready (Err "Invalid VLESS response"), with_reader (with_response resp None false r) v)
                else (Ready (Ok tt), with_reader (with_response resp (byte_at resp 1) false r) v)
              else (Ready (Ok tt), with_reader (with_response resp None false r) v)
          end
    end.

(** A read after the direct transition. *)
Definition read_direct (room : Z) (v : VisionStream) : poll bytes * VisionStream :=
  let from_socket (h : Raw) :=
    let '(p, s) := raw_read room (socket v) in (p, with_streams (tls v) h s v) in
  match raw_read (Z.min room CHUNK) (held v) with
  | (Ready (Ok bs), h) => if 0 <? len bs then (Ready (Ok bs), with_streams (tls v) h (socket v) v) else from_socket h
  | (Ready (Err e), h) => (Ready (Err e), with_streams (tls v) h (socket v) v)
  | (Ready Panic, _) => (Ready Panic, v)
  | (Ready Diverge, _) => (Ready Diverge, v)
  | (Pending, h) => from_socket h
  end.

(** The sixty-four rounds of [poll_read]. *)
Fixpoint read_loop (rounds : nat) (room : Z) (v : VisionStream) : poll bytes * VisionStream :=
  match rounds with
  | O => (Pending, v)
  | S rounds =>
      let r := reader v in
      if ready_at r <? len (ready r) then
        let n := Z.min room (len (ready r) - ready_at r) in
        (Ready (Ok (range (ready r) (ready_at r) (ready_at r + n))),
         with_reader (with_ready (release_prefix (ready r) (ready_at r + n)) 0 r) v)
      else
        let v := with_reader (with_ready [] 0 r) v in
        if negb (response_done r) then
          match read_response v with
          | (Ready (Ok _), v) => read_loop rounds room v
          | (Ready (Err e), v) => (Ready (Err e), v)
          | (Ready Panic, v) => (Ready Panic, v)
          | (Ready Diverge, v) => (Ready Diverge, v)
          | (Pending, v) => (Pending, v)
          end
        else if raw_reading r then read_direct room v
        else
          match decode v with
          | (Ok true, v) => read_loop rounds room v
          | (Ok false, v) =>
              let e := encoded (reader v) in
              if len e <? len (encoded r) then read_loop rounds room v
              else if raw_reading (reader v) then read_loop rounds room v
              else if MAX_FRAME <? len e then (Ready (Err "Vision frame exceeds limit"), v)
              else
                match raw_read 4096 (tls v) with
                | (Pending, t) => (Pending, with_streams t (held v) (socket v) v)
                | (Ready (Err er), t) => (Ready (Err er), with_streams t (held v) (socket v) v)
                | (Ready Panic, _) => (Ready Panic, v)
                | (Ready Diverge, _) => (Ready Diverge, v)
                | (Ready (Ok chunk), t) =>
                    let v := with_streams t (held v) (socket v) v in
                    if bool_decide (chunk = []) then
                      if bool_decide (e = []) then (Ready (Ok []), v)
                      else (Ready (Err "Truncated Vision frame"), v)
                    else read_loop rounds room (with_reader (with_encoded (e ++ chunk) (reader v)) v)
                end
          | (Err er, v) => (Ready (Err er), v)
          | (Panic, v) => (Ready Panic, v)
          | (Diverge, v) => (Ready Diverge, v)
          end
  end.

Definition poll_read (room : Z) (v : VisionStream) : poll bytes * VisionStream :=
  if room =? 0 then (Ready (Ok []), v)
  else if failed v then (Ready (Err "Vision stream failed"), v)
  else
    match read_loop 64 room v with
    | (Ready (Err e), v) => (Ready (Err e), with_failed v)
    | (p, v) => (p, v)
    end.
End stream.

(** *** Writing *)
Section writer.
Context {G : Type} `{RB : RandomByte G}.

(** The loop of [drain_wire], then the transition when the last frame asked for it. *)
Fixpoint drain_loop (fuel : nat) (v : VisionStream) : poll unit * VisionStream :=
  match fuel with
  | O => (Ready Diverge, v)
  | S fuel =>
      let w := writer v in
      if wire_at w <? len (wire w) then
        match raw_write (range (wire w) (wire_at w) (len (wire w))) (tls v) with
        | (Ready (Ok n), t) =>
            let v := with_streams t (held v) (socket v) v in
            if n =? 0 then (Ready (Err "write zero"), v)
            else drain_loop fuel (with_writer (with_wire (wire w) (wire_at w + n) (raw_writing w) w) v)
        | (Ready (Err e), t) => (Ready (Err e), with_streams t (held v) (socket v) v)
        | (Ready Panic, _) => (Ready Panic, v)
        | (Ready Diverge, _) => (Ready Diverge, v)
        | (Pending, t) => (Pending, with_streams t (held v) (socket v) v)
        end
      else if negb (bool_decide (wire w = [])) && (write_command w =? 2) then
        match raw_flush (tls v) with
        | (Ready (Ok _), t) => (Ready (Ok tt), with_writer (with_wire [] 0 true w) (with_streams t (held v) (socket v) v))
        | (Ready (Err e), t) => (Ready (Err e), with_streams t (held v) (socket v) v)
        | (Ready Panic, _) => (Ready Panic, v)
        | (Ready Diverge, _) => (Ready Diverge, v)
        | (Pending, t) => (Pending, with_streams t (held v) (socket v) v)
        end
      else (Ready (Ok tt), with_writer (with_wire [] 0 (raw_writing w) w) v)
  end.

Definition drain_wire (v : VisionStream) : poll unit * VisionStream :=
  drain_loop (S (length (answers (tls v)))) v.

(** The padded frame of [poll_write] for the first [n] bytes of [buf]. *)
Definition frame_padding (seen : bool) (n : Z) (g : G) : Z * G :=
  let '(r, g) := random_byte g in
  (if seen && (n <? 900) then 900 - n + r else r, g).

Definition padded_frame (command : Z) (data : bytes) (padding : Z) : bytes :=
  [command] ++ be16 (len data) ++ be16 padding ++ data ++ replicate (Z.to_nat padding) 0.

Definition padded_write (buf : bytes) (g : G) (v : VisionStream) : outcome (Z * G * VisionStream) :=
  let w := writer v in
  let n := Z.min (len buf) CHUNK in
  let data := take (Z.to_nat n) buf in
  let writes' := writes w + 1 in
  fed ← feed data false (outbound w);
  let '(application, records) := (fed : bool * Records) in
  let command := if application then if enabled (inbound (reader v)) then 2 else 1
                 else if 8 <=? writes' then 1 else 0 in
  let '(padding, g) := frame_padding (seen_tls records) n g in
  let head := if first_write w then wire w ++ uuid v else wire w in
  Ok (n, g, with_writer
    {| wire := head ++ padded_frame command data padding; wire_at := wire_at w; write_command := command;
       first_write := false; writing_padding := if command =? 0 then writing_padding w else false;
       raw_writing := raw_writing w; outbound := records; writes := writes' |} v).

Definition poll_write (buf : bytes) (g : G) (v : VisionStream) : poll Z * G * VisionStream :=
  if failed v then (Ready (Err "Vision stream failed"), g, v)
  else
    match drain_wire v with
    | (Ready (Ok _), v) =>
        if raw_writing (writer v) then
          let '(p, s) := raw_write buf (socket v) in (p, g, with_streams (tls v) (held v) s v)
        else if negb (writing_padding (writer v)) then
          let '(p, t) := raw_write buf (tls v) in (p, g, with_streams t (held v) (socket v) v)
        else if bool_decide (buf = []) then (Ready (Ok 0), g, v)
        else
          match padded_write buf g v with
          | Ok (n, g, v) => (Ready (Ok n), g, v)
          | Err e => (Ready (Err e), g, v)
          | Panic => (Ready Panic, g, v)
          | Diverge => (Ready Diverge, g, v)
          end
    | (Ready (Err e), v) => (Ready (Err e), g, v)
    | (Ready Panic, v) => (Ready Panic, g, v)
    | (Ready Diverge, v) => (Ready Diverge, g, v)
    | (Pending, v) => (Pending, g, v)
    end.

(** [poll_flush] of the connection that carries the bytes now. *)
Definition flush_current (v : VisionStream) : poll unit * VisionStream :=
  if raw_writing (writer v) then let '(p, s) := raw_flush (socket v) in (p, with_streams (tls v) (held v) s v)
  else let '(p, t) := raw_flush (tls v) in (p, with_streams t (held v) (socket v) v).

Definition poll_flush (v : VisionStream) : poll unit * VisionStream :=
  match drain_wire v with
  | (Ready (Ok _), v) => flush_current v
  | (p, v) => (p, v)
  end.

(** [poll_shutdown]; ending a connection sends none of the application's bytes, so
    its poll is modelled as the one of a flush. *)
Definition poll_shutdown (v : VisionStream) : poll unit * VisionStream :=
  match drain_wire v with
  | (Ready (Ok _), v) =>
      if raw_reading (reader v) || raw_writing (writer v) then
        let close_socket (v : VisionStream) := let '(p, s) := raw_flush (socket v) in (p, with_streams (tls v) (held v) s v) in
        if negb (raw_writing (writer v)) then
          match raw_flush (tls v) with
          | (Ready (Ok _), t) => close_socket (with_streams t (held v) (socket v) v)
          | (p, t) => (p, with_streams t (held v) (socket v) v)
          end
        else close_socket v
      else let '(p, t) := raw_flush (tls v) in (p, with_streams t (held v) (socket v) v)
  | (p, v) => (p, v)
  end.
End writer.
