(* ===== verification/VisionRecords.v ===== *)
(** * Vision: the records of both TLS connections

    Where the outer reader stops, and what the watcher of the inner records finds. *)
From S2P Require Import Prelude Bytes AsyncIo Vision.

#[local] Open Scope list_scope.
#[local] Open Scope Z_scope.

(** ** The outer connection

    The reference: what is left of a byte string once its whole records are gone. *)
Fixpoint open_record (fuel : nat) (bs : bytes) : bytes :=
  match fuel with
  | O => bs
  | S fuel =>
      if 5 <=? len bs then
        let n := 5 + of_be (range bs 3 5) in
        if n <=? len bs then open_record fuel (drop (Z.to_nat n) bs) else bs
      else bs
  end.

(** A byte string that stops inside a record, or before one. *)
Definition unfinished (tail : bytes) : Prop := len tail < 5 ∨ len tail < 5 + of_be (range tail 3 5).

Inductive whole : bytes → Prop :=
  | whole_nil : whole []
  | whole_record h b rest : len h = 5 → is_bytes h → len b = of_be (range h 3 5) → whole rest → whole (h ++ b ++ rest).

Lemma whole_snoc ws h b :
  whole ws → len h = 5 → is_bytes h → len b = of_be (range h 3 5) → whole (ws ++ h ++ b).
Proof.
  intros Hws Hh Hb Hl. induction Hws as [|h' b' rest Hh' Hb' Hl' Hr IH].
  - rewrite app_nil_l, <- (app_nil_r b). by apply whole_record; [..|constructor].
  - replace ((h' ++ b' ++ rest) ++ h ++ b) with (h' ++ b' ++ (rest ++ h ++ b)) by (by rewrite <- !app_assoc).
    by apply whole_record.
Qed.

Lemma of_be_nonneg bs : is_bytes bs → 0 <= of_be bs.
Proof. intros Hb. apply of_be_bound, Hb. Qed.

Lemma open_record_unfinished fuel tail : unfinished tail → open_record fuel tail = tail.
Proof.
  destruct fuel as [|fuel]; [done|]. intros Hu. cbn [open_record].
  destruct (Z.leb_spec 5 (len tail)); [|done].
  destruct (Z.leb_spec (5 + of_be (range tail 3 5)) (len tail)); [|done]. destruct Hu; lia.
Qed.

Lemma open_record_whole ws tail :
  whole ws → unfinished tail → ∀ fuel, (length ws <= fuel)%nat → open_record fuel (ws ++ tail) = tail.
Proof.
  intros Hws Hu. induction Hws as [|h b rest Hh Hb Hl Hr IH]; intros fuel Hf.
  - by apply open_record_unfinished.
  - destruct fuel as [|fuel]; [rewrite length_app in Hf; unfold len in Hh; lia|]. cbn [open_record].
    rewrite <- !app_assoc. pose proof (of_be_nonneg (range h 3 5) ltac:(by apply is_bytes_range)) as Hn.
    assert (len (h ++ b ++ rest ++ tail) = 5 + len b + len (rest ++ tail)) as Hlen by (rewrite !len_app; lia).
    pose proof (len_nonneg (rest ++ tail)). rewrite (proj2 (Z.leb_le 5 _)) by lia.
    rewrite (range_app_l h) by lia. rewrite <- Hl, (proj2 (Z.leb_le _ _)) by lia.
    replace (drop _ (h ++ b ++ rest ++ tail)) with (rest ++ tail).
    + apply IH. rewrite !length_app in Hf. unfold len in *. lia.
    + rewrite app_assoc. rewrite drop_app_length'; [done|]. rewrite length_app. unfold len in *. lia.
Qed.

(** What the reader has seen since it started. *)
Record seen_ok (seen : bytes) (r : RecordIo) : Prop := {
  so_header : len (header r) = 5;
  so_bytes : is_bytes (header r) ∧ is_bytes (arriving (io r));
  so_split : ∃ ws tail, seen = ws ++ tail ∧ whole ws ∧ unfinished tail ∧
    if remaining r =? 0 then 0 <= header_len r < 5 ∧ tail = take (Z.to_nat (header_len r)) (header r)
    else header_len r = 5 ∧ 0 < remaining r ∧
         ∃ body, tail = header r ++ body ∧ len body + remaining r = of_be (range (header r) 3 5);
}.

Lemma seen_boundary seen r : seen_ok seen r → at_boundary r = bool_decide (open_record (length seen) seen = []).
Proof.
  intros [Hh Hb (ws & tail & -> & Hw & Hu & Ht)].
  rewrite open_record_whole by (done || rewrite length_app; lia). unfold at_boundary.
  destruct (Z.eqb_spec (remaining r) 0) as [H0|H0].
  - destruct Ht as [Hl ->]. rewrite andb_true_r. destruct (Z.eqb_spec (header_len r) 0) as [->|Hne]; [done|].
    rewrite bool_decide_eq_false_2; [done|]. intros E%(f_equal length). rewrite length_take in E. unfold len in Hh.
    simpl in E. lia.
  - destruct Ht as (_ & _ & body & -> & _). rewrite andb_false_r, bool_decide_eq_false_2; [done|].
    intros E%(f_equal len). rewrite len_app in E. pose proof (len_nonneg body). change (len (@nil Z)) with 0 in E. lia.
Qed.

Lemma splice_header (h bs : bytes) k :
  0 <= k → k + len bs <= len h →
  len (take (Z.to_nat k) h ++ bs ++ drop (Z.to_nat (k + len bs)) h) = len h ∧
  take (Z.to_nat (k + len bs)) (take (Z.to_nat k) h ++ bs ++ drop (Z.to_nat (k + len bs)) h)
    = take (Z.to_nat k) h ++ bs.
Proof.
  intros Hk Hl. pose proof (len_nonneg bs). unfold len in *. split.
  - rewrite !length_app, length_take, length_drop. lia.
  - rewrite app_assoc, take_app_le by (rewrite length_app, length_take; lia).
    rewrite take_ge; [done|]. rewrite length_app, length_take. lia.
Qed.

Lemma size_bound h : len h = 5 → is_bytes h → 0 <= of_be (range h 3 5) < 65536.
Proof.
  intros Hh Hb. pose proof (of_be_bound (range h 3 5) ltac:(by apply is_bytes_range)) as H.
  rewrite len_range in H by lia. exact H.
Qed.

(** A read moves bytes from the connection to the reader and stays in one record. *)
Lemma record_read_spec seen room r p r' :
  seen_ok seen r → 0 < room → record_read room r = (p, r') →
  match p with
  | Ready (Ok bs) => arriving (io r) = bs ++ arriving (io r') ∧ len bs <= room ∧ seen_ok (seen ++ bs) r' ∧
      (bs = [] → at_boundary r = true)
  | Pending | Ready (Err _) => arriving (io r') = arriving (io r) ∧ seen_ok seen r'
  | _ => False
  end.
Proof.
  intros [Hh [Hhb Hab] (ws & tail & Hs & Hw & Hu & Ht)] Hroom. unfold record_read.
  rewrite (proj2 (Z.eqb_neq room 0)) by lia. set (limit := Z.min _ room).
  assert (0 < limit) as Hlim.
  { unfold limit. destruct (Z.eqb_spec (remaining r) 0); [lia|]. destruct Ht as (_ & ? & _). lia. }
  destruct (raw_read limit (io r)) as [q i] eqn:E. apply raw_read_arriving in E as (_ & _ & Hq); [|lia].
  assert (∀ i', arriving i' = arriving (io r) →
    seen_ok seen {| io := i'; header := header r; header_len := header_len r; remaining := remaining r |}) as Hsame.
  { intros i' Hi. split; simpl; [done|by rewrite Hi|]. by exists ws, tail. }
  destruct q as [|[bs|e| |]]; try done; try (intros [= <- <-]; split; [done|by apply Hsame]).
  destruct Hq as [Harr Hn]. pose proof (len_nonneg bs) as Hn0. rewrite Harr in Hab. apply is_bytes_app in Hab as [Hbs Hab].
  destruct ((len bs =? 0) && negb (at_boundary r)) eqn:Eeof.
  { intros [= <- <-]. apply andb_true_iff in Eeof as [Hz%Z.eqb_eq _]. apply len_zero_nil in Hz as ->.
    split; [by rewrite Harr|]. apply Hsame. by rewrite Harr. }
  assert (bs = [] → at_boundary r = true) as Hend.
  { intros ->. simpl in Eeof. by destruct (at_boundary r). }
  destruct (Z.eqb_spec (remaining r) 0) as [H0|H0].
  - destruct Ht as [Hl ->]. assert (header_len r + len bs <= len (header r)) as Hfit by (unfold limit in Hn; lia).
    destruct (splice_header (header r) bs (header_len r)) as [Hlen Htake]; [lia|done|].
    set (h := take _ (header r) ++ bs ++ _) in *.
    assert (is_bytes h) as Hhb'.
    { unfold h. apply is_bytes_app. split; [by apply Forall_take|]. apply is_bytes_app. split; [done|by apply Forall_drop]. }
    assert (seen ++ bs = ws ++ take (Z.to_nat (header_len r + len bs)) h) as Hseen by (by rewrite Hs, Htake, app_assoc).
    destruct (Z.eqb_spec (header_len r + len bs) 5) as [H5|H5].
    + assert (take (Z.to_nat (header_len r + len bs)) h = h) as Hall
        by (rewrite H5; apply take_ge; unfold len in *; lia).
      rewrite Hall in Hseen. pose proof (size_bound h ltac:(lia) Hhb') as Hsz.
      intros [= <- <-]. split; [done|]. split; [unfold limit in Hn; lia|]. split; [|done].
      split; simpl; [lia|by split|]. destruct (Z.eqb_spec (of_be (range h 3 5)) 0) as [Hz|Hz].
      * exists (ws ++ h ++ []), []. rewrite !app_nil_r. split; [done|]. split; [|split; [by left|]].
        -- rewrite <- (app_nil_r h). by apply whole_snoc; [..|lia| |rewrite Hz].
        -- simpl. split; [lia|done].
      * exists ws, h. split; [done|]. split; [done|]. split; [right; lia|].
        split; [done|]. split; [lia|]. exists []. rewrite app_nil_r. split; [done|].
        change (len (@nil Z)) with 0. lia.
    + intros [= <- <-]. split; [done|]. split; [unfold limit in Hn; lia|]. split; [|done].
      split; simpl; [lia|by split|]. exists ws, (take (Z.to_nat (header_len r + len bs)) h).
      split; [done|]. split; [done|]. split.
      * left. unfold len in *. rewrite length_take. lia.
      * rewrite H0. simpl. split; [lia|done].
  - destruct Ht as (Hl & Hpos & body & -> & Hbody).
    intros [= <- <-]. split; [done|]. split; [unfold limit in Hn; lia|]. split; [|done].
    assert (len (body ++ bs) + (remaining r - len bs) = of_be (range (header r) 3 5)) as Hb' by (rewrite len_app; lia).
    split; simpl; [done|by split|]. destruct (Z.eqb_spec (remaining r - len bs) 0) as [Hz|Hz].
    + exists (ws ++ header r ++ body ++ bs), []. rewrite app_nil_r.
      split; [by rewrite Hs, <- !app_assoc|]. split; [apply whole_snoc; [done..|lia]|]. split; [by left|].
      split; [lia|done].
    + exists ws, (header r ++ body ++ bs). split; [by rewrite Hs, <- !app_assoc|]. split; [done|]. split.
      * right. rewrite (range_app_l (header r)) by lia. rewrite len_app. unfold limit in Hn. lia.
      * split; [done|]. split; [unfold limit in Hn; lia|]. exists (body ++ bs). by split.
Qed.

(** A run of reads; what was delivered, and [None] if a poll panicked. *)
Fixpoint record_reads (rooms : list Z) (r : RecordIo) : outcome (bytes * RecordIo) :=
  match rooms with
  | [] => Ok ([], r)
  | room :: rooms =>
      match record_read room r with
      | (Ready Panic, _) => Panic
      | (Ready Diverge, _) => Diverge
      | (p, r) => '(more, r) ← record_reads rooms r;
                  Ok (match p with Ready (Ok bs) => bs | _ => [] end ++ more, r)
      end
  end.

Lemma record_reads_spec rooms : ∀ seen r,
  seen_ok seen r → Forall (λ n, 0 <= n) rooms →
  ∃ bs r', record_reads rooms r = Ok (bs, r') ∧ arriving (io r) = bs ++ arriving (io r') ∧ seen_ok (seen ++ bs) r'.
Proof.
  induction rooms as [|room rooms IH]; intros seen r Hr Hrooms.
  { exists [], r. by rewrite app_nil_r. }
  apply Forall_cons in Hrooms as [Hroom Hrooms]. cbn [record_reads].
  destruct (decide (room = 0)) as [->|Hne].
  { unfold record_read. rewrite Z.eqb_refl. destruct (IH seen r Hr Hrooms) as (bs & r' & E & H). rewrite E. by exists bs, r'. }
  destruct (record_read room r) as [p r1] eqn:E. apply (record_read_spec seen) in E; [|done|lia].
  destruct p as [|[bs|e| |]]; try done.
  - destruct E as [Ha Hr1]. destruct (IH seen r1 Hr1 Hrooms) as (bs & r' & E & H1 & H2). rewrite E. exists bs, r'.
    by rewrite <- Ha.
  - destruct E as (Ha & _ & Hr1 & _). destruct (IH _ r1 Hr1 Hrooms) as (more & r' & E & H1 & H2). rewrite E.
    exists (bs ++ more), r'. split; [done|]. by rewrite Ha, H1, !app_assoc.
  - destruct E as [Ha Hr1]. destruct (IH seen r1 Hr1 Hrooms) as (bs & r' & E & H1 & H2). rewrite E. exists bs, r'.
    by rewrite <- Ha.
Qed.

(** The reader of the outer connection stops at its records. For any reads into
    any buffers and any cutting, delay or failure of the connection, every poll
    returns, what the TLS client received is what the connection delivered, and the
    reader says it is at a boundary exactly when these bytes are whole records: so
    when a stream turns to the bare connection there, no byte of it was swallowed. *)
Theorem vision_record_boundary r rooms :
  is_bytes (arriving r) → Forall (λ n, 0 <= n) rooms →
  ∃ bs r', record_reads rooms (RecordIo_new r) = Ok (bs, r') ∧
    arriving r = bs ++ arriving (io r') ∧
    at_boundary r' = bool_decide (open_record (length bs) bs = []).
Proof.
  intros Hr Hrooms. destruct (record_reads_spec rooms [] (RecordIo_new r)) as (bs & r' & E & Ha & Hs); [|done|].
  - split; simpl; [done|split; [repeat constructor; unfold u8; lia|done]|].
    exists [], []. split; [done|]. split; [constructor|]. split; [by left|]. simpl. split; [lia|done].
  - exists bs, r'. split; [done|]. split; [done|]. by apply seen_boundary in Hs.
Qed.

(** A record in two reads, then one byte of the next. *)
Lemma vision_record_boundary_witness :
  ∃ bs r', record_reads [9; 9; 9] (RecordIo_new {| incoming := [Chunk [23; 3; 3; 0; 2; 7; 8; 20]]; answers := []; sent := [] |})
    = Ok (bs, r') ∧ at_boundary r' = bool_decide (open_record (length bs) bs = []).
Proof.
  destruct (vision_record_boundary {| incoming := [Chunk [23; 3; 3; 0; 2; 7; 8; 20]]; answers := []; sent := [] |} [9; 9; 9])
    as (bs & r' & E & _ & H); [repeat constructor; unfold u8; lia|repeat constructor; lia|].
  exists bs, r'. by split.
Defined.

(** * Watching the records of the inner connection *)
(** ** ServerHello *)
Lemma hello_extensions_returns fuel : ∀ b at_ stop,
  is_bytes b → 0 <= at_ → stop <= len b → Z.max 0 (stop - at_) < Z.of_nat fuel →
  ∃ o, hello_extensions fuel b at_ stop = Ok o.
Proof.
  induction fuel as [|fuel IH]; intros b at_ stop Hb Hat Hstop Hf; [lia|]. cbn [hello_extensions].
  destruct (Z.leb_spec (at_ + 4) stop); [|by eexists].
  destruct (idx_u16_in b at_) as [key Hkey]; [lia..|]. destruct (idx_u16_in b (at_ + 2)) as [size Hsize]; [lia..|].
  rewrite Hkey. obind. rewrite Hsize. obind. pose proof (idx_u16_bound _ _ _ Hb Hsize) as Hsz. unfold u16 in Hsz.
  destruct (Z.ltb_spec stop (at_ + 4 + size)); [by eexists|].
  destruct (key =? 43); [rewrite sub_in by lia; by eexists|]. apply IH; try done; lia.
Qed.

Lemma or_none_returns {A B} (o : option A) (k : A → outcome (option B)) :
  (∀ a, o = Some a → ∃ x, k a = Ok x) → ∃ x, or_none o k = Ok x.
Proof. intros Hk. destruct o as [a|]; simpl; [by apply Hk|by eexists]. Qed.

Lemma server_hello_returns bs : is_bytes bs → ∃ o, server_hello bs = Ok o.
Proof.
  intros Hb. unfold server_hello. destruct (Z.ltb_spec (len bs) 4); [by eexists|].
  destruct (idx_in bs 1) as [b1 H1]; [lia|]. destruct (idx_in bs 2) as [b2 H2]; [lia|].
  destruct (idx_in bs 3) as [b3 H3]; [lia|]. destruct (idx_in bs 0) as [b0 H0]; [lia|].
  rewrite H1, H2, H3. obind. cbv zeta. set (size := Z.lor _ b3).
  assert (0 <= size) as Hs.
  { apply is_bytes_idx in H1, H2, H3; [|done..]. unfold u8 in *. unfold size. rewrite !Z.lor_nonneg, !Z.shiftl_nonneg. lia. }
  destruct (65532 <? size); [by eexists|]. destruct (Z.ltb_spec (len bs) (size + 4)); [by eexists|].
  rewrite H0. obind. destruct (negb (b0 =? 2) || (size <? 40)); [by eexists|].
  rewrite sub_in by lia. obind. set (b := range bs 4 (4 + size)).
  assert (is_bytes b) as Hbb by (by apply is_bytes_range).
  apply or_none_returns. intros n Hn. apply or_none_returns. intros c0 Hc0. apply or_none_returns. intros c1 Hc1.
  destruct (negb _); [by eexists|]. apply or_none_returns. intros e0 He0. apply or_none_returns. intros e1 He1.
  destruct (Z.ltb_spec (len b) (35 + n + 5 + (e0 * 256 + e1))); [by eexists|].
  pose proof (is_bytes_at _ _ _ Hbb Hn) as Hun. pose proof (is_bytes_at _ _ _ Hbb He0) as Hu0.
  pose proof (is_bytes_at _ _ _ Hbb He1) as Hu1. unfold u8 in *.
  apply hello_extensions_returns; [done|lia|lia|unfold len in *; lia].
Qed.

(** ** Records one by one

    The reference: what the records at the head of a buffer do, and the bytes after
    them; a header that is not one of TLS stops the parser for good. *)
Fixpoint scan (fuel : nat) (server : bool) (r : Records) (last : bool) (buf : bytes)
    : outcome (Records * bool * bytes) :=
  match fuel with
  | O => Diverge
  | S fuel =>
      if 5 <=? len buf then
        kind ← idx buf 0;
        major ← idx buf 1;
        size ← idx_u16 buf 3;
        if negb ((20 <=? kind) && (kind <=? 23)) || negb (major =? 3) || (18432 <? size)
        then Ok ({| rbytes := rbytes r; handshake := handshake r; enabled := enabled r; seen_tls := seen_tls r;
                    rfailed := true |}, last, buf)
        else if len buf <? size + 5 then Ok (r, last, buf)
        else
          '(hs, en) ←
            (if server && (kind =? 22) && negb (enabled r) && (len (handshake r) + size <=? 65536) then
               hello ← server_hello (handshake r ++ range buf 5 (5 + size));
               Ok match hello with
                  | Some en => ([], en)
                  | None => (handshake r ++ range buf 5 (5 + size), enabled r)
                  end
             else Ok (handshake r, enabled r));
          scan fuel server
            {| rbytes := rbytes r; handshake := hs; enabled := en; seen_tls := true; rfailed := rfailed r |}
            (kind =? 23) (drop (Z.to_nat (size + 5)) buf)
      else Ok (r, last, buf)
  end.

Lemma feed_loop_scan fuel server : ∀ r last consumed,
  is_bytes (rbytes r) → 0 <= consumed <= len (rbytes r) →
  feed_loop fuel server r last consumed =
    ('(r', last', rest) ← scan fuel server r last (drop (Z.to_nat consumed) (rbytes r));
     Ok (r', last', len (rbytes r) - len rest)).
Proof.
  induction fuel as [|fuel IH]; intros r last consumed Hb Hc; [done|]. cbn [feed_loop scan].
  set (buf := drop (Z.to_nat consumed) (rbytes r)).
  assert (len buf = len (rbytes r) - consumed) as Hlen by (unfold buf, len in *; rewrite length_drop; lia).
  rewrite <- Hlen. destruct (Z.leb_spec 5 (len buf)); [|simpl; do 2 f_equal; lia].
  destruct (idx_in buf 0) as [kind ->]; [lia|]. destruct (idx_in buf 1) as [major ->]; [lia|].
  destruct (idx_u16_in buf 3) as [size Hsize]; [lia..|]. rewrite Hsize. obind.
  destruct (negb _ || negb _); simpl; [do 2 f_equal; lia|].
  destruct (18432 <? size); simpl; [do 2 f_equal; lia|].
  destruct (Z.ltb_spec (len buf) (size + 5)); simpl; [do 2 f_equal; lia|].
  assert (0 <= size) as Hs0.
  { assert (is_bytes buf) as Hbuf by (by apply Forall_drop). apply idx_u16_bound in Hsize; [|done]. unfold u16 in Hsize. lia. }
  rewrite sub_in by lia. obind.
  set (keep := if server && _ && _ && _ then _ else _).
  assert (∀ hs en, feed_loop fuel server
      {| rbytes := rbytes r; handshake := hs; enabled := en; seen_tls := true; rfailed := rfailed r |} (kind =? 23) (consumed + size + 5)
    = ('(r', last', rest) ← scan fuel server
        {| rbytes := rbytes r; handshake := hs; enabled := en; seen_tls := true; rfailed := rfailed r |} (kind =? 23)
        (drop (Z.to_nat (size + 5)) buf); Ok (r', last', len (rbytes r) - len rest))) as Hnext.
  { intros hs en. rewrite IH by (simpl; done || lia). simpl. unfold buf. rewrite drop_drop.
    by replace (Z.to_nat consumed + Z.to_nat (size + 5))%nat with (Z.to_nat (consumed + size + 5)) by lia. }
  unfold keep. destruct (server && _ && _ && _); [|apply Hnext].
  destruct (server_hello _) as [[en|]|e| |]; obind; done || apply Hnext.
Qed.

(** Enough fuel: one round per record. *)
Lemma scan_fuel fuel server : ∀ r last buf fuel',
  is_bytes buf → (length buf < fuel)%nat → (length buf < fuel')%nat →
  scan fuel server r last buf = scan fuel' server r last buf.
Proof.
  induction fuel as [|fuel IH]; intros r last buf [|fuel'] Hb H1 H2; [lia..|]. cbn [scan].
  destruct (Z.leb_spec 5 (len buf)) as [H5|]; [|done].
  destruct (idx_in buf 0) as [kind ->]; [lia|]. destruct (idx_in buf 1) as [major ->]; [lia|].
  destruct (idx_u16_in buf 3) as [size Hsize]; [lia..|]. rewrite Hsize. obind.
  apply idx_u16_bound in Hsize; [|done]. unfold u16 in Hsize.
  destruct (negb _ || negb _ || _); [done|]. destruct (len buf <? size + 5); [done|].
  assert (∀ r last, scan fuel server r last (drop (Z.to_nat (size + 5)) buf)
    = scan fuel' server r last (drop (Z.to_nat (size + 5)) buf)) as Hnext.
  { intros. apply IH; [by apply Forall_drop|rewrite length_drop; unfold len in *; lia|rewrite length_drop; unfold len in *; lia]. }
  destruct (server && _ && _ && _); [|apply Hnext]. destruct (server_hello _) as [[en|]|e| |]; obind; done || apply Hnext.
Qed.

Record scan_ok (r r' : Records) (buf rest : bytes) (last last' : bool) : Prop := {
  scan_rbytes : rbytes r' = rbytes r;
  scan_handshake : len (handshake r) <= 65536 → len (handshake r') <= 65536;
  scan_hs_bytes : is_bytes (handshake r');
  scan_rest : ∃ done_, buf = done_ ++ rest ∧
    (last' = true → done_ = [] ∧ last = true ∨
       ∃ pre h body, done_ = pre ++ h ++ body ∧ len h = 5 ∧ head h = Some 23 ∧ len body = of_be (range h 3 5));
}.

Lemma of_be_two a b : of_be [a; b] = a * 256 + b.
Proof. reflexivity. Qed.

Lemma idx_u16_range bs i v : 0 <= i → i + 1 < len bs → idx_u16 bs i = Ok v → of_be (range bs i (i + 2)) = v.
Proof.
  intros Hi Hl. unfold idx_u16. destruct (idx_in bs i) as [a Ha]; [lia|]. destruct (idx_in bs (i + 1)) as [b Hb]; [lia|].
  rewrite Ha, Hb. obind. intros [= <-]. apply idx_ok in Ha, Hb. unfold byte_at in Ha, Hb.
  rewrite (proj2 (Z.ltb_ge i 0)) in Ha by lia. rewrite (proj2 (Z.ltb_ge (i + 1) 0)) in Hb by lia. unfold range. replace (i + 2 - i) with 2 by lia.
  rewrite (drop_S _ _ _ Ha). replace (S (Z.to_nat i)) with (Z.to_nat (i + 1)) by lia. by rewrite (drop_S _ _ _ Hb).
Qed.

Lemma scan_spec fuel server : ∀ r last buf,
  is_bytes buf → is_bytes (handshake r) → (length buf < fuel)%nat →
  ∃ r' last' rest, scan fuel server r last buf = Ok (r', last', rest) ∧ scan_ok r r' buf rest last last'.
Proof.
  induction fuel as [|fuel IH]; intros r last buf Hb Hhs Hf; [lia|]. cbn [scan].
  assert (∀ r1, rbytes r1 = rbytes r → handshake r1 = handshake r →
    ∃ r' last' rest, Ok (r1, last, buf) = Ok (r', last', rest) ∧ scan_ok r r' buf rest last last') as Hstop.
  { intros r1 H1 H2. exists r1, last, buf. split; [done|]. split; [done|by rewrite H2|by rewrite H2|].
    exists []. split; [done|]. intros ->. by left. }
  destruct (Z.leb_spec 5 (len buf)) as [H5|]; [|by apply Hstop].
  destruct (idx_in buf 0) as [kind Hkind]; [lia|]. destruct (idx_in buf 1) as [major Hmajor]; [lia|].
  destruct (idx_u16_in buf 3) as [size Hsize]; [lia..|]. rewrite Hkind, Hmajor, Hsize. obind.
  pose proof (idx_u16_bound _ _ _ Hb Hsize) as Hsz. unfold u16 in Hsz.
  destruct (negb _ || negb _ || _); [by apply Hstop|]. destruct (Z.ltb_spec (len buf) (size + 5)) as [|Hlen]; [by apply Hstop|].
  set (h := range buf 0 5). set (body := range buf 5 (5 + size)).
  assert (buf = (h ++ body) ++ drop (Z.to_nat (size + 5)) buf) as Hsplit.
  { unfold h, body. rewrite range_split by lia. unfold range. rewrite drop_0.
    replace (Z.to_nat (5 + size - 0)) with (Z.to_nat (size + 5)) by lia. by rewrite take_drop. }
  assert (len h = 5 ∧ len body = of_be (range h 3 5) ∧ is_bytes body ∧ (kind = 23 → head h = Some 23)) as (Hh & Hbody & Hbb & Hhead).
  { assert (len h = 5) as Hh by (unfold h; rewrite len_range; lia). split_and!; [done| |by apply is_bytes_range|].
    - unfold body. rewrite len_range by lia. replace (range h 3 5) with (range buf 3 5).
      + assert (of_be (range buf 3 5) = size) as -> by (apply (idx_u16_range buf 3); [lia|lia|done]). lia.
      + unfold h, range. rewrite !drop_0. change (Z.to_nat (5 - 0)) with 5%nat. change (Z.to_nat (5 - 3)) with 2%nat.
        change (Z.to_nat 3) with 3%nat. by rewrite skipn_firstn_comm, take_take.
    - intros ->. apply idx_ok in Hkind. unfold h. destruct buf as [|x buf]; [done|]. by injection Hkind as ->. }
  assert (∀ hs en, is_bytes hs → (len (handshake r) <= 65536 → len hs <= 65536) →
    ∃ r' last' rest, scan fuel server {| rbytes := rbytes r; handshake := hs; enabled := en; seen_tls := true;
      rfailed := rfailed r |} (kind =? 23) (drop (Z.to_nat (size + 5)) buf) = Ok (r', last', rest)
      ∧ scan_ok r r' buf rest last last') as Hnext.
  { intros hs en Hhb Hhl.
    destruct (IH {| rbytes := rbytes r; handshake := hs; enabled := en; seen_tls := true; rfailed := rfailed r |}
      (kind =? 23) (drop (Z.to_nat (size + 5)) buf)) as (r' & last' & rest & E & [S1 S2 S3 (d & Hd & S4)]);
      [by apply Forall_drop|done|rewrite length_drop; unfold len in *; lia|].
    exists r', last', rest. split; [done|]. split; [done|auto|done|].
    exists ((h ++ body) ++ d). rewrite <- app_assoc, <- Hd. split; [done|]. intros Hl. right.
    destruct (S4 Hl) as [[-> Hk]|(pre & h' & body' & -> & Hrest)].
    - apply Z.eqb_eq in Hk. exists [], h, body. rewrite app_nil_r. split_and!; auto.
    - exists ((h ++ body) ++ pre), h', body'. rewrite <- !app_assoc. by split. }
  destruct (server && _ && _ && _) eqn:Ek; [|by apply Hnext].
  destruct (server_hello_returns (handshake r ++ body)) as [o Ho]; [by apply is_bytes_app|]. rewrite Ho. obind.
  apply andb_true_iff in Ek as [_ Hroom%Z.leb_le].
  destruct o as [en|]; obind.
  - apply Hnext; [constructor|]. intros _. by vm_compute.
  - apply Hnext; [by apply is_bytes_app|]. intros _. rewrite len_app. unfold body. rewrite len_range by lia. lia.
Qed.

(** The scan looks neither at the bytes kept nor at the flag it starts with. *)
Lemma scan_rbytes_irrelevant fuel server x : ∀ r last buf,
  scan fuel server (with_rbytes x r) last buf =
    ('(r', last', rest) ← scan fuel server r last buf; Ok (with_rbytes x r', last', rest)).
Proof.
  induction fuel as [|fuel IH]; intros r last buf; [done|]. cbn [scan]. simpl.
  destruct (5 <=? len buf); [|done]. destruct (idx buf 0) as [kind|e| |]; try done. obind.
  destruct (idx buf 1) as [major|e| |]; try done. obind. destruct (idx_u16 buf 3) as [size|e| |]; try done. obind.
  destruct (negb _ || negb _ || _); [done|]. destruct (len buf <? size + 5); [done|].
  destruct (server && _ && _ && _); [|apply (IH {| seen_tls := true |})].
  destruct (server_hello _) as [[en|]|e| |]; obind; done || apply (IH {| seen_tls := true |}).
Qed.

Lemma scan_last fuel server : ∀ r l1 l2 buf r' l1' rest,
  scan fuel server r l1 buf = Ok (r', l1', rest) →
  ∃ l2', scan fuel server r l2 buf = Ok (r', l2', rest) ∧ (l1' = l2' ∨ rest = buf ∧ l1' = l1 ∧ l2' = l2).
Proof.
  destruct fuel as [|fuel]; intros r l1 l2 buf r' l1' rest; [done|]. cbn [scan].
  assert (∀ r1, Ok (r1, l1, buf) = Ok (r', l1', rest) →
    ∃ l2', Ok (r1, l2, buf) = Ok (r', l2', rest) ∧ (l1' = l2' ∨ rest = buf ∧ l1' = l1 ∧ l2' = l2)) as Hstop.
  { intros r1 [= <- <- <-]. exists l2. split; [done|]. by right. }
  destruct (5 <=? len buf); [|apply Hstop]. destruct (idx buf 0) as [kind|e| |]; try done. obind.
  destruct (idx buf 1) as [major|e| |]; try done. obind. destruct (idx_u16 buf 3) as [size|e| |]; try done. obind.
  destruct (negb _ || negb _ || _); [apply Hstop|]. destruct (len buf <? size + 5); [apply Hstop|].
  intros H. exists l1'. split; [exact H|by left].
Qed.

(** Reading on after more bytes is reading the whole. *)
Lemma scan_app fuel server : ∀ r last a b r1 last1 rest fuel',
  is_bytes a → is_bytes b → rfailed r = false → (length a < fuel)%nat → (length (a ++ b) < fuel')%nat →
  scan fuel server r last a = Ok (r1, last1, rest) →
  scan fuel' server r last (a ++ b) =
    (if rfailed r1 then Ok (r1, last1, rest ++ b) else scan (S (length (rest ++ b))) server r1 last1 (rest ++ b)).
Proof.
  induction fuel as [|fuel IH]; intros r last a b r1 last1 rest fuel' Ha Hb Hok Hf Hf'; [done|].
  assert (Ok (r, last, a) = Ok (r1, last1, rest) → scan fuel' server r last (a ++ b) =
    (if rfailed r1 then Ok (r1, last1, rest ++ b) else scan (S (length (rest ++ b))) server r1 last1 (rest ++ b))) as Hstop.
  { intros [= <- <- <-]. rewrite Hok. apply scan_fuel; [by apply is_bytes_app|done|lia]. }
  cbn [scan]. destruct (Z.leb_spec 5 (len a)) as [H5|]; [|done].
  destruct (idx_in a 0) as [kind Hkind]; [lia|]. destruct (idx_in a 1) as [major Hmajor]; [lia|].
  destruct (idx_u16_in a 3) as [size Hsize]; [lia..|]. rewrite Hkind, Hmajor, Hsize. obind.
  pose proof (idx_u16_bound _ _ _ Ha Hsize) as Hsz. unfold u16 in Hsz.
  assert (∀ i x, idx a i = Ok x → idx (a ++ b) i = Ok x) as Hidx.
  { intros i x Hx. apply idx_ok in Hx. unfold idx. unfold byte_at in *. destruct (i <? 0); [done|].
    by rewrite (lookup_app_l_Some _ _ _ _ Hx). }
  assert (idx_u16 (a ++ b) 3 = Ok size) as Hsize'.
  { revert Hsize. unfold idx_u16. destruct (idx_in a 3) as [x Hx]; [lia|]. destruct (idx_in a (3 + 1)) as [y Hy]; [lia|].
    by rewrite Hx, Hy, (Hidx _ _ Hx), (Hidx _ _ Hy). }
  destruct (negb _ || negb _ || _) eqn:Ebad.
  { intros [= <- <- <-]. simpl. destruct fuel' as [|fuel']; [lia|]. cbn [scan].
    destruct (Z.leb_spec 5 (len (a ++ b))); [|rewrite len_app in *; pose proof (len_nonneg b); lia].
    by rewrite (Hidx _ _ Hkind), (Hidx _ _ Hmajor), Hsize'; obind; rewrite Ebad. }
  destruct (Z.ltb_spec (len a) (size + 5)); [done|]. clear Hstop.
  destruct fuel' as [|fuel']; [lia|]. cbn [scan]. pose proof (len_nonneg b). pose proof (len_app a b) as Hlab.
  destruct (Z.leb_spec 5 (len (a ++ b))); [|lia]. rewrite (Hidx _ _ Hkind), (Hidx _ _ Hmajor), Hsize'. obind. rewrite Ebad.
  destruct (Z.ltb_spec (len (a ++ b)) (size + 5)); [lia|].
  assert (range (a ++ b) 5 (5 + size) = range a 5 (5 + size)) as ->.
  { unfold range. rewrite skipn_app, take_app_le; [done|]. rewrite length_drop. unfold len in *. lia. }
  rewrite drop_app_le by (unfold len in *; lia).
  assert (∀ hs en, scan fuel server {| rbytes := rbytes r; handshake := hs; enabled := en; seen_tls := true;
      rfailed := rfailed r |} (kind =? 23) (drop (Z.to_nat (size + 5)) a) = Ok (r1, last1, rest) →
    scan fuel' server {| rbytes := rbytes r; handshake := hs; enabled := en; seen_tls := true; rfailed := rfailed r |}
      (kind =? 23) (drop (Z.to_nat (size + 5)) a ++ b) =
    (if rfailed r1 then Ok (r1, last1, rest ++ b) else scan (S (length (rest ++ b))) server r1 last1 (rest ++ b))) as Hnext.
  { intros hs en. apply IH; [by apply Forall_drop|done|done|rewrite length_drop; unfold len in *; lia|].
    rewrite length_app, length_drop in *. unfold len in *. lia. }
  destruct (server && _ && _ && _); [|apply Hnext].
  destruct (server_hello _) as [[en|]|e| |]; obind; done || apply Hnext.
Qed.

(** ** Feeding *)
Record records_ok (r : Records) : Prop := {
  records_bytes : is_bytes (rbytes r);
  records_handshake : is_bytes (handshake r);
  records_room : len (rbytes r) <= 131072;
  records_handshake_room : len (handshake r) <= 65536;
}.

(** A whole record of the inner connection. *)
Definition record_of (kind : Z) (rec : bytes) : Prop :=
  ∃ h body, rec = h ++ body ∧ len h = 5 ∧ head h = Some kind ∧ len body = of_be (range h 3 5).

(** What [feed] answers, from the scan of the bytes kept and the new ones. *)
Definition settle (res : Records * bool * bytes) : bool * Records :=
  let '(r, last, rest) := res in
  let rest := if rfailed r then [] else rest in
  (last && bool_decide (rest = []), with_rbytes rest r).

Definition scan_all (server : bool) (r : Records) (last : bool) (buf : bytes) :=
  scan (S (length buf)) server r last buf.

Lemma feed_scan data server r :
  is_bytes data → records_ok r → rfailed r = false → len (rbytes r) + len data <= 131072 →
  feed data server r = (res ← scan_all server r false (rbytes r ++ data); Ok (settle res)).
Proof.
  intros Hd [Hb Hh _ _] Hf Hl. unfold feed. rewrite Hf. destruct (Z.ltb_spec 131072 (len (rbytes r) + len data)); [lia|].
  set (buf := rbytes r ++ data). assert (is_bytes buf) as Hbuf by (by apply is_bytes_app).
  rewrite feed_loop_scan by (done || simpl; unfold len; lia).
  change (rbytes (with_rbytes buf r)) with buf. rewrite Z2Nat.inj_0, drop_0.
  destruct (scan_spec (S (length buf)) server (with_rbytes buf r) false buf) as (r' & last' & rest & E & [S1 _ _ (d & Hsplit & _)]);
    [done|done|simpl; lia|].
  unfold scan_all. rewrite scan_rbytes_irrelevant in E |- *.
  destruct (scan (S (length buf)) server r false buf) as [[[r0 last0] rest0]|e| |]; try done. revert E. obind. intros [= <- <- <-].
  simpl. destruct (rfailed r0); [done|]. unfold settle.
  assert (len buf - len rest0 = len d) as -> by (rewrite Hsplit, len_app; lia).
  destruct (Z.ltb_spec 0 (len d)).
  - unfold release_prefix. assert (drop (Z.to_nat (Z.min (len d) (len buf))) buf = rest0) as ->; [|done].
    rewrite Hsplit, len_app, Z.min_l by (pose proof (len_nonneg rest0); lia). unfold len. by rewrite Nat2Z.id, drop_app_length.
  - assert (d = []) as -> by (destruct d; [done|unfold len in *; simpl in *; lia]). simpl in Hsplit. by rewrite Hsplit.
Qed.

Lemma scan_all_spec server r buf :
  is_bytes buf → is_bytes (handshake r) →
  ∃ r' last' rest, scan_all server r false buf = Ok (r', last', rest) ∧ scan_ok r r' buf rest false last'.
Proof. intros. apply scan_spec; try done; lia. Qed.

(** A bounded feed. *)
Lemma feed_ok data server r :
  is_bytes data → records_ok r →
  ∃ b r', feed data server r = Ok (b, r') ∧ records_ok r' ∧
    (b = true → ∃ pre rec rest, rbytes r ++ data = pre ++ rec ++ rest ∧ record_of 23 rec ∧ (rest = [] ∨ rfailed r' = true)).
Proof.
  intros Hd Hr. destruct (rfailed r) eqn:Hf; [exists false, r; unfold feed; by rewrite Hf|].
  destruct (Z.ltb_spec 131072 (len (rbytes r) + len data)) as [Hbig|Hl].
  { eexists false, _. unfold feed. rewrite Hf. apply Z.ltb_lt in Hbig as ->. split; [done|]. split; [|done].
    destruct Hr. split; try done. constructor. }
  rewrite feed_scan by done. pose proof Hr as [Hb Hh _ Hroom].
  destruct (scan_all_spec server r (rbytes r ++ data)) as (r' & last' & rest & -> & [_ Hhr Hhb (d & Hsplit & Hlast)]);
    [by apply is_bytes_app|done|]. obind. eexists _, _. split; [done|].
  pose proof (f_equal len Hsplit) as Hlens. rewrite !len_app in Hlens. pose proof (len_nonneg d).
  assert (is_bytes (d ++ rest)) as Hbr by (rewrite <- Hsplit; by apply is_bytes_app). apply is_bytes_app in Hbr as [_ Hbr].
  split.
  - split; simpl; [by destruct (rfailed r'); [constructor|]|done| |by apply Hhr].
    destruct (rfailed r'); [by vm_compute|lia].
  - simpl. intros [Hl' Hrest%bool_decide_eq_true]%andb_true_iff.
    destruct (Hlast Hl') as [[_ [=]]|(pre & h & body & -> & H1 & H2 & H3)].
    exists pre, (h ++ body), rest. split; [rewrite Hsplit; by rewrite <- !app_assoc|].
    split; [by exists h, body|].
    destruct (rfailed r'); [by right|by left].
Qed.

(** Cutting the data into two feeds changes neither the records nor, when nothing
    was malformed, the answer. *)
Lemma feed_app a b server r x r1 :
  is_bytes a → is_bytes b → records_ok r → len (rbytes r) + len a + len b <= 131072 →
  feed a server r = Ok (x, r1) →
  ∃ y z r2, feed b server r1 = Ok (y, r2) ∧ feed (a ++ b) server r = Ok (z, r2) ∧
    (b ≠ [] → rfailed r2 = false → y = z).
Proof.
  intros Ha Hb Hr Hroom. destruct (rfailed r) eqn:Hf.
  { unfold feed. rewrite Hf. intros [= <- <-]. rewrite Hf. by exists false, false, r. }
  pose proof Hr as [Hrb Hrh _ Hhr]. pose proof (len_nonneg b).
  rewrite feed_scan by (done || lia). intros E.
  rewrite (feed_scan (a ++ b)) by first [by apply is_bytes_app | done | rewrite ?len_app; lia].
  destruct (scan_all_spec server r (rbytes r ++ a)) as (r' & last' & rest & Es & [Hrb' Hhr' Hhb' (d & Hsplit & _)]);
    [by apply is_bytes_app|done|]. rewrite Es in E. revert E. obind. intros [= <- <-].
  rewrite app_assoc. unfold scan_all at 1.
  rewrite (scan_app (S (length (rbytes r ++ a))) server r false (rbytes r ++ a) b r' last' rest)
    by first [by apply is_bytes_app | done | lia].
  pose proof (f_equal len Hsplit) as Hlens. rewrite !len_app in Hlens. pose proof (len_nonneg d).
  assert (is_bytes (d ++ rest)) as Hbr by (rewrite <- Hsplit; by apply is_bytes_app). apply is_bytes_app in Hbr as [_ Hbr].
  destruct (rfailed r') eqn:Hf'; obind.
  { exists false, last', (with_rbytes [] r'). unfold feed. simpl. rewrite Hf'. by rewrite andb_true_r. }
  rewrite feed_scan by (done || simpl; lia || (split; simpl; [done|done|lia|by apply Hhr'])).
  change (rbytes (with_rbytes rest r')) with rest. unfold scan_all. rewrite scan_rbytes_irrelevant.
  destruct (scan_all_spec server r' (rest ++ b)) as (r2 & l2 & rest2 & E2 & _); [by apply is_bytes_app|done|].
  unfold scan_all in E2. rewrite E2. obind.
  destruct (scan_last _ _ _ false last' _ _ _ _ E2) as (l3 & E3 & Hl3). rewrite E3. obind. unfold settle. simpl.
  eexists _, _, _. split_and!; [done|done|]. intros Hbne Hf2. simpl in Hf2. rewrite Hf2.
  destruct Hl3 as [->|(-> & _)]; [done|]. rewrite (bool_decide_eq_false_2 (rest ++ b = [])); [by rewrite !andb_false_r|].
  intros [_ ->]%app_eq_nil. done.
Qed.

(** Watching the inner connection is bounded and does not depend on the cuts. A
    feed always returns; the watcher never keeps more than 128 KiB of records or
    64 KiB of a handshake; feeding data in two parts leaves the watcher as feeding it
    whole does, and gives the same answer when no record is malformed and the second
    part is not empty; and the answer that the data ends a record is given only
    when the bytes kept and fed contain a whole application-data record, with nothing
    behind it unless the watcher has failed. *)
Theorem vision_feed_spec server r a b :
  is_bytes a → is_bytes b → records_ok r →
  (∃ x r1, feed a server r = Ok (x, r1) ∧ records_ok r1 ∧
     (x = true → ∃ pre rec rest,
        rbytes r ++ a = pre ++ rec ++ rest ∧ record_of 23 rec ∧ (rest = [] ∨ rfailed r1 = true))) ∧
  (∀ x r1, feed a server r = Ok (x, r1) → len (rbytes r) + len a + len b <= 131072 →
     ∃ y z r2, feed b server r1 = Ok (y, r2) ∧ feed (a ++ b) server r = Ok (z, r2) ∧
       (b ≠ [] → rfailed r2 = false → y = z)).
Proof. intros Ha Hb Hr. split; [by apply feed_ok|]. intros x r1 E Hl. by eapply feed_app. Qed.

(** An application-data record in two parts. *)
Lemma vision_feed_spec_witness :
  ∃ y z r2, feed [9] false (with_rbytes [23; 3; 3; 0; 1] Records_default) = Ok (y, r2) ∧
    feed ([23; 3; 3; 0; 1] ++ [9]) false Records_default = Ok (z, r2) ∧ ([9] ≠ [] → rfailed r2 = false → y = z).
Proof.
  apply (vision_feed_spec false Records_default [23; 3; 3; 0; 1] [9]) with (x := false).
  - repeat constructor; unfold u8; lia.
  - repeat constructor; unfold u8; lia.
  - split; simpl; first [done | by constructor].
  - by vm_compute.
  - by vm_compute.
Defined.
