(* ===== verification/VisionRead.v ===== *)
(** * Vision: what the reads hand over *)
From S2P Require Import Prelude Bytes AsyncIo Vision VisionRecords.

#[local] Open Scope list_scope.
#[local] Open Scope Z_scope.

(** A padded frame, with any padding bytes. *)
Definition vision_frame (command : Z) (content pad : bytes) : bytes :=
  [command] ++ be16 (len content) ++ be16 (len pad) ++ content ++ pad.

Definition frame_fits (f : bytes * bytes) : Prop :=
  is_bytes f.1 ∧ len f.1 < 65536 ∧ len f.2 < 65536.

Lemma len_vision_frame k c p : len (vision_frame k c p) = 5 + len c + len p.
Proof. unfold vision_frame. rewrite !len_app, !len_be16. change (len [k]) with 1. lia. Qed.

Lemma range_of_prefix (pre post : bytes) : range (pre ++ post) 0 (len pre) = pre.
Proof. exact (range_app [] pre post 0 (len pre) eq_refl eq_refl). Qed.

(** The header of a frame, behind [pre]. *)
Lemma vision_header e more pre k c p rest :
  e ++ more = pre ++ vision_frame k c p ++ rest → frame_fits (c, p) → len pre + 5 <= len e →
  range e 0 (len pre) = pre ∧ byte_at e (len pre) = Some k
  ∧ of_be (range e (len pre + 1) (len pre + 3)) = len c ∧ of_be (range e (len pre + 3) (len pre + 5)) = len p.
Proof.
  intros Heq (_ & Hc & Hp) Hlen. simpl in Hc, Hp. pose proof (len_nonneg c). pose proof (len_nonneg p). pose proof (len_nonneg pre).
  assert (∀ a b, 0 <= a → b <= len e → range e a b = range (pre ++ vision_frame k c p ++ rest) a b) as Hr.
  { intros. rewrite <- Heq. by rewrite range_app_l. }
  rewrite !Hr by lia. rewrite <- (byte_at_app_l e more) by lia. rewrite Heq. unfold vision_frame. rewrite <- !app_assoc.
  rewrite range_of_prefix. split; [done|].
  replace (len pre) with (len pre + 0) at 1 by lia. rewrite byte_at_app_r by lia. split; [done|].
  change ([k] ++ ?x) with ([k] ++ x). rewrite (app_assoc pre [k]).
  rewrite range_app by (rewrite ?len_app, ?len_be16; change (len [k]) with 1; lia).
  rewrite (app_assoc _ (be16 (len c))). rewrite range_app by (rewrite ?len_app, ?len_be16; change (len [k]) with 1; lia).
  by rewrite !of_be_be16 by (unfold u16; lia).
Qed.

(** The reader after a whole frame, with [e] left behind it. *)
Definition decoded (k : Z) (c e : bytes) (records : Records) (r : Reader) : Reader :=
  {| response := response r; response_left := response_left r; response_done := response_done r;
     encoded := if k =? 0 then e else []; first_read := false;
     reading_padding := k =? 0; raw_reading := (k =? 2) || raw_reading r; ready := if k =? 0 then c else c ++ e;
     ready_at := ready_at r; inbound := records |}.

Definition prefix_of_first (v : VisionStream) : bytes := if first_read (reader v) then uuid v else [].

Lemma len_prefix v : len (uuid v) = 16 → len (prefix_of_first v) = if first_read (reader v) then 16 else 0.
Proof. intros H. unfold prefix_of_first. by destruct (first_read _). Qed.

Lemma decode_frame boundary v more k c p rest :
  reading_padding (reader v) = true → len (uuid v) = 16 → frame_fits (c, p) → 0 <= k <= 2 →
  records_ok (inbound (reader v)) →
  encoded (reader v) ++ more = prefix_of_first v ++ vision_frame k c p ++ rest →
  (decode boundary v = (Ok false, v) ∧ len (encoded (reader v)) <= MAX_FRAME) ∨
  ∃ e records, encoded (reader v) = prefix_of_first v ++ vision_frame k c p ++ e ∧ e ++ more = rest ∧ records_ok records ∧
    let r' := decoded k c e records (reader v) in
    (decode boundary v = (Ok (negb (bool_decide (ready r' = []))), with_reader r' v) ∨
     ∃ v', decode boundary v = (Err "Vision direct transition inside outer TLS record", v')).
Proof.
  intros Hpad Huuid Hfit Hk Hrec Heq. pose proof (len_prefix v Huuid) as Hpre.
  pose proof Hfit as (Hcb & Hc & Hp). simpl in Hcb, Hc, Hp. pose proof (len_nonneg c). pose proof (len_nonneg p).
  set (pre := prefix_of_first v) in *. set (e := encoded (reader v)) in *.
  unfold decode. rewrite Hpad. cbn [negb]. rewrite <- Hpre. fold e.
  assert (0 <= len pre <= 16) as Hpl by (rewrite Hpre; destruct (first_read _); lia).
  destruct (Z.ltb_spec (len e) (len pre + 5)); [left; split; [done|unfold MAX_FRAME; lia]|].
  destruct (vision_header _ _ _ _ _ _ _ Heq Hfit ltac:(done)) as (Hid & Hcmd & Hlc & Hlp).
  assert ((first_read (reader v) && negb (bool_decide (range e 0 16 = uuid v))) = false) as ->.
  { unfold pre, prefix_of_first in Hid. destruct (first_read _); [|done]. rewrite Huuid in Hid. by rewrite bool_decide_eq_true_2. }
  rewrite Hcmd, Hlc, Hlp. simpl default. destruct (Z.ltb_spec 2 k); [lia|].
  destruct (Z.ltb_spec (len e) (len pre + 5 + len c + len p)); [left; split; [done|unfold MAX_FRAME; lia]|]. right.
  assert (∃ e', e = pre ++ vision_frame k c p ++ e' ∧ e' ++ more = rest) as (e' & He & Hrest).
  { rewrite app_assoc in Heq. pose proof (len_vision_frame k c p).
    apply app_eq_inv in Heq as [(k' & He & Hm)|(k' & He & Hm)]; [by exists k'; rewrite <- app_assoc in He|].
    assert (k' = []) as -> by (apply len_zero_nil; pose proof (len_nonneg k'); apply (f_equal len) in He; rewrite !len_app in He; lia).
    exists []. rewrite app_nil_r in *. by rewrite He in *. }
  assert (range e (len pre + 5) (len pre + 5 + len c) = c) as ->.
  { rewrite He. unfold vision_frame. rewrite <- !app_assoc.
    replace (pre ++ _) with ((pre ++ [k] ++ be16 (len c) ++ be16 (len p)) ++ c ++ p ++ e') by (by rewrite <- !app_assoc).
    apply range_app; rewrite !len_app, !len_be16; change (len [k]) with 1; lia. }
  destruct (feed_ok c true (inbound (reader v)) Hcb Hrec) as (b & records & -> & Hrec' & _). exists e', records.
  split_and!; [done|done|done|].
  assert (release_prefix e (len pre + 5 + len c + len p) = e') as ->.
  { unfold release_prefix. rewrite Z.min_l by lia. rewrite He, app_assoc.
    replace (Z.to_nat _) with (length (pre ++ vision_frame k c p)); [apply drop_app_length|].
    pose proof (len_vision_frame k c p) as Hl. rewrite length_app. unfold len in *. lia. }
  unfold decoded. destruct (Z.eqb_spec k 2) as [->|Hk2]; simpl.
  - destruct (negb (boundary _)); [right; by eexists|left; done].
  - left. destruct (Z.eqb_spec k 0) as [->|]; simpl; rewrite ?Hpad; done.
Qed.

Lemma raw_read_clean n r p r' :
  0 <= n → raw_read n r = (p, r') →
  read_faults r' ⊆ read_faults r ∧
  match p with
  | Ready (Ok bs) => arriving r = bs ++ arriving r' ∧ len bs <= n
  | Pending => arriving r' = arriving r
  | Ready (Err e) => e ∈ read_faults r
  | _ => False
  end.
Proof.
  intros Hn E. pose proof (raw_read_arriving _ _ _ _ Hn E) as (_ & _ & Hp). pose proof (raw_read_faults _ _ _ _ E) as (Hf & He).
  split; [done|]. by destruct p as [|[| | |]].
Qed.

(** What the TLS client holds after the transition: chunks, and no more bytes once a
    read gives none. *)
Fixpoint settled (events : list read_event) : Prop :=
  match events with
  | [] => True
  | Chunk (_ :: _) :: events => settled events
  | _ :: events => flat_map (λ e, match e with Chunk bs => bs | _ => [] end) events = []
  end.

Lemma raw_read_settled n r p r' :
  0 < n → raw_read n r = (p, r') → settled (incoming r) →
  settled (incoming r') ∧ match p with Ready (Ok (_ :: _)) => True | _ => arriving r = [] ∧ arriving r' = [] end.
Proof.
  assert (∀ es, flat_map (λ e, match e with Chunk bs => bs | _ => [] end) es = [] → settled es) as Hnone.
  { induction es as [|[[|x bs]| |e] es IH]; simpl; auto. done. }
  intros Hn. unfold raw_read, arriving. destruct (incoming r) as [|[[|x bs]| |e] rest] eqn:E; simpl.
  - intros [= <- <-] _. by rewrite E.
  - destruct (Z.leb_spec (len (@nil Z)) n) as [|Hl]; [|change (len []) with 0 in Hl; lia]. intros [= <- <-] Hs. simpl. auto.
  - destruct (Z.leb_spec (len (x :: bs)) n); intros [= <- <-] Hs; simpl; [done|].
    destruct (drop (Z.to_nat n) (x :: bs)) as [|y l] eqn:Ed.
    { apply (f_equal length) in Ed. rewrite length_drop in Ed. unfold len in *. simpl in *. lia. }
    split; [done|]. destruct (Z.to_nat n) eqn:En; [lia|done].
  - intros [= <- <-] Hs. simpl. auto.
  - intros [= <- <-] Hs. simpl. auto.
Qed.

(** ** A well-formed stream *)
Section reading.
Context (boundary : VisionStream → bool).
(** The response of the server and its add-ons, the frames before the last one, the
    last one with its command, and what follows; [more] is what never arrives. *)
Context (id addons : bytes) (frames : list (bytes * bytes)) (k : Z) (c p rest more : bytes).
(** What the TLS client holds, what arrives on the socket, and the errors to come. *)
Context (H S : bytes) (faults : list string).
Context (Hid : len id = 16) (Hk : k = 1 ∨ k = 2) (Hlast : frame_fits (c, p)) (Hframes : Forall frame_fits frames).

Definition contents (fs : list (bytes * bytes)) : bytes := flat_map fst fs.
Definition framed (fs : list (bytes * bytes)) : bytes := flat_map (λ f, vision_frame 0 f.1 f.2) fs.
Definition stream_bytes : bytes := id ++ framed frames ++ vision_frame k c p ++ rest.
Definition response_bytes : bytes := [0; len addons] ++ addons.

Definition refusal (e : string) : Prop :=
  e ∈ ["unexpected end of file"; "Truncated Vision frame"; "Vision direct transition inside outer TLS record"]
  ∨ e ∈ faults.

Record sane (v : VisionStream) : Prop := {
  sane_uuid : uuid v = id;
  sane_records : records_ok (inbound (reader v));
  sane_ready : ready_at (reader v) = 0;
  sane_faults : read_faults (tls v) ⊆ faults ∧ read_faults (held v) ⊆ faults ∧ read_faults (socket v) ⊆ faults;
  sane_held : settled (incoming (held v));
  sane_failed : failed v = false;
}.

(** Where the reads stand after [out]. *)
Inductive reading (v : VisionStream) (out : bytes) : Prop :=
  | in_response :
      response_done (reader v) = false → first_read (reader v) = true → reading_padding (reader v) = true →
      raw_reading (reader v) = false → encoded (reader v) = [] → ready (reader v) = [] → out = [] →
      arriving (held v) = H → arriving (socket v) = S →
      match response_left (reader v) with
      | None => len (response (reader v)) < 2 ∧
          response (reader v) ++ arriving (tls v) ++ more = response_bytes ++ stream_bytes
      | Some m => ∃ a, len a = m ∧ arriving (tls v) ++ more = a ++ stream_bytes
      end → reading v out
  | in_frames done_ todo :
      response_done (reader v) = true → reading_padding (reader v) = true → raw_reading (reader v) = false →
      arriving (held v) = H → arriving (socket v) = S → frames = done_ ++ todo →
      out ++ ready (reader v) = contents done_ →
      encoded (reader v) ++ arriving (tls v) ++ more
        = prefix_of_first v ++ framed todo ++ vision_frame k c p ++ rest → reading v out
  | in_rest :
      response_done (reader v) = true → reading_padding (reader v) = false → raw_reading (reader v) = false →
      k = 1 → out ++ ready (reader v) ++ encoded (reader v) ++ arriving (tls v) ++ more
        = contents frames ++ c ++ rest → reading v out
  | in_direct now :
      response_done (reader v) = true → raw_reading (reader v) = true → k = 2 → now `prefix_of` rest →
      out ++ ready (reader v) ++ arriving (held v) ++ arriving (socket v) = contents frames ++ c ++ now ++ H ++ S →
      reading v out.

Definition read_ok (out : bytes) (r : poll bytes * VisionStream) : Prop :=
  match r with
  | (Pending, v') => sane v' ∧ reading v' out
  | (Ready (Ok bs), v') => sane v' ∧ reading v' (out ++ bs)
  | (Ready (Err e), _) => refusal e
  | _ => False
  end.

(** Handing over bytes that are ready. *)
Lemma hand_over n v out :
  sane v → reading v out → 0 <= n <= len (ready (reader v)) →
  let v' := with_reader (with_ready (release_prefix (ready (reader v)) n) 0 (reader v)) v in
  sane v' ∧ reading v' (out ++ range (ready (reader v)) 0 n).
Proof.
  intros [H1 H2 H3 H4 H5 H6] Hr Hn. split; [by split|].
  assert (range (ready (reader v)) 0 n ++ release_prefix (ready (reader v)) n = ready (reader v)) as Hsplit.
  { unfold range, release_prefix. rewrite drop_0, Z.min_l, Z.sub_0_r by lia. apply take_drop. }
  destruct Hr as [? ? ? ? ? Hready ->|done_ todo ? ? ? ? ? ? Hout|? ? ? ? Hout|now ? ? ? ? Hout].
  - rewrite Hready in *. destruct (release_prefix [] n) as [|? ?] eqn:E;
      [|unfold release_prefix in E; by rewrite drop_nil in E].
    assert (range [] 0 n = ([] : bytes)) as -> by (unfold range; by rewrite drop_nil, take_nil). by eapply in_response.
  - eapply in_frames; try done. simpl. by rewrite <- app_assoc, Hsplit.
  - eapply in_rest; try done. simpl. rewrite <- app_assoc, (app_assoc _ (release_prefix _ _)), Hsplit. done.
  - eapply in_direct; try done. simpl. rewrite <- app_assoc, (app_assoc _ (release_prefix _ _)), Hsplit. done.
Qed.

Definition round_ok (out : bytes) {A} (r : poll A * VisionStream) : Prop :=
  match r with
  | (Ready (Ok _), v') | (Pending, v') => sane v' ∧ reading v' out
  | (Ready (Err e), _) => refusal e
  | _ => False
  end.

Lemma cut_prefix (a b x y : bytes) : a ++ b = x ++ y → len a <= len x → ∃ z, x = a ++ z ∧ b = z ++ y.
Proof.
  intros Heq Hl. apply app_eq_inv in Heq as [(z & -> & ->)|(z & -> & ->)]; [|by exists z].
  rewrite len_app in Hl. assert (z = []) as -> by (apply len_zero_nil; pose proof (len_nonneg z); lia).
  exists []. by rewrite !app_nil_r.
Qed.

Lemma response_round v out :
  sane v → reading v out → response_done (reader v) = false → round_ok out (read_response v).
Proof.
  intros Hs Hr Hdone. destruct Hr as [_ H2 H3 H4 H5 H6 -> H7 H8 Hresp|? ? E|E|? E]; [|congruence..].
  pose proof Hs as [S1 S2 S3 (S4 & S5 & S6) S7 S8]. unfold read_response.
  assert (∀ need, 0 < need →
    need = match response_left (reader v) with Some m => m | None => 2 - len (response (reader v)) end →
    ∀ pr t, raw_read need (tls v) = (pr, t) →
    sane (with_streams t (held v) (socket v) v) ∧
    match pr with
    | Ready (Ok bs) => arriving (tls v) = bs ++ arriving t ∧ len bs <= need
    | Pending => reading (with_streams t (held v) (socket v) v) []
    | Ready (Err e) => refusal e
    | _ => False
    end) as Hread.
  { intros need Hpos Hneed pr t E. pose proof (raw_read_clean need _ _ _ ltac:(lia) E) as (Hf & Hpr). split.
    { split; simpl; try done. split_and!; set_solver. }
    destruct pr as [|[bs|e| |]]; try done; [|right; set_solver].
    apply in_response; simpl; try done. by rewrite Hpr. }
  destruct (response_left (reader v)) as [m|] eqn:Eleft.
  - destruct Hresp as (a & Ha & Harr). pose proof (len_nonneg a). destruct (Z.eqb_spec m 0) as [->|Hm].
    + apply len_zero_nil in Ha as ->. split; [done|]. eapply (in_frames _ _ [] frames); try done.
      unfold prefix_of_first. cbn [reader with_reader with_response encoded first_read uuid tls]. by rewrite H5, H2, S1.
    + specialize (Hread m ltac:(lia) eq_refl). destruct (raw_read m (tls v)) as [pr t]. destruct (Hread _ _ eq_refl) as [Hs' Hpr].
      destruct pr as [|[bs|e| |]]; try done. destruct (bool_decide (bs = [])); [left; set_solver|].
      destruct Hpr as [Hbs Hl]. rewrite Hbs, <- app_assoc in Harr. destruct (cut_prefix _ _ _ _ Harr ltac:(lia)) as (a' & -> & Ha').
      split; [by destruct Hs'|]. apply in_response; simpl; try done. exists a'. rewrite len_app in Ha. split; [lia|done].
  - destruct Hresp as (Hshort & Harr). destruct (Z.eqb_spec (2 - len (response (reader v))) 0); [lia|].
    specialize (Hread (2 - len (response (reader v))) ltac:(lia) eq_refl). destruct (raw_read _ (tls v)) as [pr t]. destruct (Hread _ _ eq_refl) as [Hs' Hpr].
    destruct pr as [|[bs|e| |]]; try done. destruct (bool_decide (bs = [])); [left; set_solver|].
    destruct Hpr as [Hbs Hl]. rewrite Hbs, <- app_assoc, app_assoc in Harr. set (resp := response (reader v) ++ bs) in *.
    assert (len resp <= 2) as Hl2 by (unfold resp; rewrite len_app; lia).
    destruct (Z.eqb_spec (len resp) 2) as [H2'|H2'].
    + unfold response_bytes in Harr. rewrite <- app_assoc in Harr.
      destruct (cut_prefix _ _ _ _ Harr ltac:(rewrite H2'; done)) as (z & Hz & Hrest).
      assert (z = []) as -> by (apply len_zero_nil; apply (f_equal len) in Hz; rewrite len_app in Hz; change (len [0; len addons]) with 2 in Hz; lia).
      rewrite app_nil_r in Hz. rewrite <- Hz. simpl. split; [by destruct Hs'|].
      apply in_response; simpl; try done. by exists addons.
    + split; [by destruct Hs'|]. apply in_response; simpl; try done. split; [lia|done].
Qed.

Lemma direct_round room v out :
  0 < room → sane v → reading v out → raw_reading (reader v) = true → ready (reader v) = [] →
  read_ok out (read_direct room v).
Proof.
  intros Hroom Hs Hr Hraw Hready. destruct Hr as [? ? ? E|? ? ? ? E|? ? E|now Hdone _ H2 Hnow Hout]; [congruence..|].
  pose proof Hs as [S1 S2 S3 (S4 & S5 & S6) S7 S8]. rewrite Hready in Hout. simpl in Hout.
  unfold read_direct. destruct (raw_read (Z.min room CHUNK) (held v)) as [pr h] eqn:E.
  pose proof (raw_read_clean (Z.min room CHUNK) _ _ _ ltac:(unfold CHUNK; lia) E) as (Hf & Hpr).
  pose proof (raw_read_settled (Z.min room CHUNK) _ _ _ ltac:(unfold CHUNK; lia) E S7) as (Hset & Hempty).
  assert (arriving (held v) = [] ∧ arriving h = [] → read_ok out
    (let '(p0, s) := raw_read room (socket v) in (p0, with_streams (tls v) h s v))) as Hsock.
  { intros [Hh Hh']. destruct (raw_read room (socket v)) as [pr' s] eqn:E'.
    pose proof (raw_read_clean room _ _ _ ltac:(lia) E') as (Hf' & Hpr').
    assert (sane (with_streams (tls v) h s v)) as Hs' by (split; simpl; try done; split_and!; set_solver).
    rewrite Hh in Hout. destruct pr' as [|[bs|e| |]]; simpl; try done; [| |right; set_solver].
    - split; [done|]. eapply in_direct; try done. simpl. by rewrite Hready, Hh', Hpr'.
    - split; [done|]. eapply in_direct; try done. simpl. rewrite Hready, Hh', <- Hout. simpl. destruct Hpr' as [-> _].
      by rewrite <- app_assoc. }
  destruct pr as [|[bs|e| |]]; try done; [by apply Hsock| |by right; set_solver].
  destruct (Z.ltb_spec 0 (len bs)) as [Hl|Hl].
  - simpl. split; [split; simpl; try done; split_and!; set_solver|]. eapply in_direct; try done. simpl.
    rewrite Hready, <- Hout. simpl. destruct Hpr as [-> _]. by rewrite <- !app_assoc.
  - apply Hsock. by destruct bs as [|x bs].
Qed.

(** One decoded frame of a state between frames. *)
Definition decode_ok (v : VisionStream) (out : bytes) (r : outcome bool * VisionStream) : Prop :=
  match r with
  | (Ok b, v') => sane v' ∧ reading v' out ∧ response_done (reader v') = true ∧
      (b = false → len (encoded (reader v')) < len (encoded (reader v)) ∨
         raw_reading (reader v') = false ∧ len (encoded (reader v')) <= MAX_FRAME)
  | (Err e, _) => refusal e
  | _ => False
  end.

Lemma frame_round v out cmd content pad tail :
  sane v → reading v out → response_done (reader v) = true → reading_padding (reader v) = true →
  raw_reading (reader v) = false → frame_fits (content, pad) → 0 <= cmd <= 2 →
  encoded (reader v) ++ arriving (tls v) ++ more = prefix_of_first v ++ vision_frame cmd content pad ++ tail →
  (∀ e records, e ++ arriving (tls v) ++ more = tail →
     reading (with_reader (decoded cmd content e records (reader v)) v) out) →
  decode_ok v out (decode boundary v).
Proof.
  intros Hs Hr Hdone Hpad Hraw Hfit Hcmd Heq Hnext. pose proof Hs as [S1 S2 S3 S4 S5 S6].
  destruct (decode_frame boundary v (arriving (tls v) ++ more) cmd content pad tail Hpad ltac:(by rewrite S1) Hfit Hcmd S2 Heq)
    as [[-> Hmax]|(e & records & He & Hrest & Hrec & [->|[v' ->]])].
  - split_and!; auto.
  - split_and!; [by split|by apply Hnext|done|]. intros _. left. rewrite He, !len_app, len_vision_frame.
    pose proof (len_nonneg content). pose proof (len_nonneg pad). pose proof (len_nonneg (prefix_of_first v)).
    pose proof (len_nonneg e). simpl. destruct (cmd =? 0); [|change (len []) with 0]; lia.
  - left. set_solver.
Qed.

Lemma decode_round v out :
  sane v → reading v out → response_done (reader v) = true → raw_reading (reader v) = false → ready (reader v) = [] →
  decode_ok v out (decode boundary v).
Proof.
  intros Hs Hr Hdone Hraw Hready.
  pose proof Hr as [E|done_ todo _ Hpad _ Hh Hsock Hsplit Hout Harr|_ Hpad _ Hk1 Hout|now _ E]; [congruence| | |congruence].
  - rewrite Hready, app_nil_r in Hout. destruct todo as [|[f pad] todo].
    + rewrite app_nil_r in Hsplit. subst done_. apply (frame_round _ _ k c p rest); try done; [by destruct Hk; lia|]. intros e records He. destruct Hk as [->| ->].
      * apply in_rest; simpl; try done. by rewrite Hout, <- He, <- !app_assoc.
      * eapply (in_direct _ _ e); simpl; try done; [by exists (arriving (tls v) ++ more)|].
        by rewrite Hout, Hh, Hsock, <- !app_assoc.
    + change (framed ((f, pad) :: todo)) with (vision_frame 0 f pad ++ framed todo) in Harr. rewrite <- app_assoc in Harr.
      assert (frame_fits (f, pad)) as Hf by (rewrite Hsplit in Hframes; by apply Forall_app in Hframes as [_ [? _]%Forall_cons]).
      apply (frame_round _ _ 0 f pad (framed todo ++ vision_frame k c p ++ rest)); try done. intros e records He.
      eapply (in_frames _ _ (done_ ++ [(f, pad)]) todo); try done; [by rewrite <- app_assoc|].
      unfold contents. rewrite flat_map_app. simpl. by rewrite app_nil_r, Hout.
  - unfold decode. rewrite Hpad. cbn [negb]. split_and!; [by destruct Hs|..]; try done.
    + apply in_rest; try done. simpl. by rewrite Hready in Hout.
    + intros _. right. split; [done|]. by vm_compute.
Qed.

Lemma more_encoded v out t bs :
  reading v out → response_done (reader v) = true → raw_reading (reader v) = false → arriving (tls v) = bs ++ arriving t →
  reading (with_reader (with_encoded (encoded (reader v) ++ bs) (reader v)) (with_streams t (held v) (socket v) v)) out.
Proof.
  intros [E|done_ todo|? ? ? ? Hout|? ? E] Hdone Hraw Ht; [congruence| | |congruence].
  - eapply in_frames; try done. simpl. by rewrite <- app_assoc, (app_assoc bs), <- Ht.
  - eapply in_rest; try done. simpl. by rewrite <- app_assoc, (app_assoc bs), <- Ht.
Qed.

Lemma read_loop_ok room rounds : ∀ v out,
  0 < room → sane v → reading v out → read_ok out (read_loop boundary rounds room v).
Proof.
  induction rounds as [|rounds IH]; intros v out Hroom Hs Hr; [done|]. cbn [read_loop].
  pose proof (sane_ready _ Hs) as Hat. rewrite Hat. pose proof (len_nonneg (ready (reader v))).
  destruct (Z.ltb_spec 0 (len (ready (reader v)))) as [Hready|Hready].
  { rewrite Z.sub_0_r, Z.add_0_l. apply hand_over; try done. lia. }
  assert (ready (reader v) = []) as Hnil by (apply len_zero_nil; lia).
  assert (with_reader (with_ready [] 0 (reader v)) v = v) as ->.
  { destruct v as [? ? ? ? [] ? ?]. simpl in *. by subst. }
  destruct (response_done (reader v)) eqn:Hdone; cbn [negb].
  2: { pose proof (response_round v out Hs Hr Hdone) as Hround. destruct (read_response v) as [[|[u|e| |]] v']; try done.
       destruct Hround. by apply IH. }
  destruct (raw_reading (reader v)) eqn:Hraw; [by apply direct_round|].
  pose proof (decode_round v out Hs Hr Hdone Hraw Hnil) as Hdec.
  destruct (decode boundary v) as [[[]|e| |] v']; try done; destruct Hdec as (Hs' & Hr' & Hdone' & Hfalse); [by apply IH|].
  destruct (Z.ltb_spec (len (encoded (reader v'))) (len (encoded (reader v)))); [by apply IH|].
  destruct (Hfalse eq_refl) as [|[Hraw' Hmax]]; [lia|]. rewrite Hraw'.
  destruct (Z.ltb_spec MAX_FRAME (len (encoded (reader v')))); [lia|].
  destruct (raw_read 4096 (tls v')) as [pr t] eqn:E. pose proof (raw_read_clean 4096 _ _ _ ltac:(lia) E) as (Hf & Hpr).
  assert (sane (with_streams t (held v') (socket v') v')) as Hst by (destruct Hs' as [? ? ? (? & ? & ?)]; split; try done; simpl; split_and!; set_solver).
  destruct pr as [|[bs|e| |]]; try done.
  - split; [done|]. pose proof (more_encoded v' out t [] Hr' Hdone' Hraw' ltac:(by rewrite Hpr)) as Hm.
    rewrite app_nil_r in Hm. by destruct v' as [? ? ? ? []].
  - destruct Hpr as [Hbs _]. pose proof (more_encoded v' out t bs Hr' Hdone' Hraw' Hbs) as Hm.
    destruct (bool_decide_reflect (bs = [])) as [->|].
    + destruct (bool_decide _); [|left; set_solver]. rewrite app_nil_r in Hm. split; [done|]. rewrite app_nil_r. by destruct v' as [? ? ? ? []].
    + apply IH; try done. by destruct Hst.
  - right. destruct Hs' as [? ? ? (? & ? & ?)]. set_solver.
Qed.
End reading.

(** ** Runs of reads *)
(** What the application is to see: the contents, then what follows the last frame
    ([k = 1]), or what of it was decrypted with the last frame, what the TLS client
    holds, and the socket ([k = 2]). *)
Definition plain (frames : list (bytes * bytes)) (k : Z) (c rest now held_ sock : bytes) : bytes :=
  contents frames ++ c ++ (if k =? 1 then rest else now ++ held_ ++ sock).

Definition drained (v : VisionStream) : Prop :=
  ready (reader v) = [] ∧
  if raw_reading (reader v) then arriving (held v) = [] ∧ arriving (socket v) = []
  else encoded (reader v) = [] ∧ arriving (tls v) = [].

Definition read_answer (faults : list string) (r : poll bytes) : Prop :=
  match r with
  | Pending | Ready (Ok _) => True
  | Ready (Err e) => refusal faults e ∨ e = "Vision stream failed"
  | _ => False
  end.

Section run_lemmas.
Context (boundary : VisionStream → bool) (id addons : bytes) (frames : list (bytes * bytes)) (k : Z).
Context (c p rest more H S : bytes) (faults : list string).
Context (Hid : len id = 16) (Hk : k = 1 ∨ k = 2) (Hlast : frame_fits (c, p)) (Hframes : Forall frame_fits frames).
Notation reading := (reading id addons frames k c p rest more H S).
Notation plain := (λ now, plain frames k c rest now H S).

Lemma reading_prefix v out : reading v out → ∃ now, now `prefix_of` rest ∧ out `prefix_of` plain now.
Proof.
  unfold VisionRead.plain. intros [_ _ _ _ _ _ ->|done_ todo _ _ _ _ _ -> Hout|_ _ _ -> Hout|now _ _ -> Hnow Hout].
  - exists []. split; [apply prefix_nil|apply prefix_nil].
  - exists []. split; [apply prefix_nil|]. eexists. unfold contents in *. rewrite flat_map_app, <- Hout, <- !app_assoc. done.
  - exists []. split; [apply prefix_nil|]. simpl. rewrite <- Hout. by eexists.
  - exists now. split; [done|]. simpl. rewrite <- Hout. by eexists.
Qed.

Lemma reading_drained v out :
  reading v out → drained v → more = [] → ∃ now, now `prefix_of` rest ∧ out = plain now.
Proof.
  unfold VisionRead.plain.
  intros [_ _ _ Hraw _ _ _ _ _ Hresp|done_ todo _ _ Hraw _ _ _ _ Harr|_ _ Hraw -> Hout|now _ Hraw -> Hnow Hout] [Hready Hempty] ->;
    rewrite Hraw in Hempty; destruct Hempty as [He Ht].
  - exfalso. rewrite Ht in Hresp. unfold stream_bytes in Hresp. destruct (response_left (reader v)).
    + destruct Hresp as (a & _ & Ha). apply (f_equal len) in Ha. rewrite !len_app, Hid, len_vision_frame in Ha.
      change (len []) with 0 in Ha. pose proof (len_nonneg a). pose proof (len_nonneg (framed frames)). pose proof (len_nonneg c).
      pose proof (len_nonneg p). pose proof (len_nonneg rest). lia.
    + destruct Hresp as (Hs & Ha). apply (f_equal len) in Ha. unfold response_bytes in Ha. rewrite !len_app, Hid, len_vision_frame in Ha.
      change (len []) with 0 in Ha. change (len [0; len addons]) with 2 in Ha. pose proof (len_nonneg addons).
      pose proof (len_nonneg (framed frames)). pose proof (len_nonneg c). pose proof (len_nonneg p). pose proof (len_nonneg rest). lia.
  - exfalso. rewrite He, Ht in Harr. apply (f_equal len) in Harr. rewrite !len_app, len_vision_frame in Harr. change (len []) with 0 in Harr.
    pose proof (len_nonneg (prefix_of_first v)). pose proof (len_nonneg (framed todo)). pose proof (len_nonneg c).
    pose proof (len_nonneg p). pose proof (len_nonneg rest). lia.
  - exists []. split; [apply prefix_nil|]. rewrite Hready, He, Ht, !app_nil_r in Hout. done.
  - exists now. split; [done|]. rewrite Hready, He, Ht, !app_nil_r in Hout. done.
Qed.

(** Where a run of reads stands. *)
Definition run_ok (v : VisionStream) (out : bytes) : Prop :=
  sane id faults v ∧ reading v out
  ∨ failed v = true ∧ ∃ now, now `prefix_of` rest ∧ out `prefix_of` plain now.

Lemma poll_read_run room v out r v' :
  0 <= room → run_ok v out → poll_read boundary room v = (r, v') →
  read_answer faults r ∧ run_ok v' (out ++ delivered [r]).
Proof.
  intros Hroom Hrun. unfold poll_read. destruct (Z.eqb_spec room 0).
  { intros [= <- <-]. simpl. by rewrite app_nil_r. }
  destruct Hrun as [[Hs Hr]|[Hf Hout]].
  - rewrite (sane_failed _ _ _ Hs). pose proof (read_loop_ok boundary id addons frames k c p rest more H S faults
      Hid Hk Hlast Hframes room 64 v out ltac:(lia) Hs Hr) as Hok.
    destruct (read_loop boundary 64 room v) as [[|[bs|e| |]] v1]; simpl in Hok; try done; intros [= <- <-].
    + simpl. rewrite app_nil_r. split; [done|]. by left.
    + simpl. rewrite app_nil_r. split; [done|]. by left.
    + simpl. rewrite app_nil_r. split; [by left|]. right. split; [done|]. by eapply reading_prefix.
  - rewrite Hf. intros [= <- <-]. simpl. rewrite app_nil_r. split; [by right|]. by right.
Qed.

Lemma reads_run rooms : ∀ v out rs v',
  Forall (Z.le 0) rooms → run_ok v out → polls (poll_read boundary) rooms v = (rs, v') →
  Forall (read_answer faults) rs ∧ run_ok v' (out ++ delivered rs).
Proof.
  induction rooms as [|room rooms IH]; intros v out rs v' Hrooms Hrun; simpl.
  { intros [= <- <-]. simpl. by rewrite app_nil_r. }
  apply Forall_cons in Hrooms as [Hroom Hrooms]. destruct (poll_read boundary room v) as [r v1] eqn:E.
  destruct (polls (poll_read boundary) rooms v1) as [rs1 v2] eqn:E'. intros [= <- <-].
  destruct (poll_read_run _ _ _ _ _ Hroom Hrun E) as [Ha Hrun1]. destruct (IH _ _ _ _ Hrooms Hrun1 E') as [Has Hrun2].
  split; [by constructor|]. change (delivered (r :: rs1)) with (delivered ([r] ++ rs1)). unfold delivered in *.
  by rewrite flat_map_app, app_assoc.
Qed.
End run_lemmas.

(** C17. A Vision stream reads through the framing. Let the server send the VLESS
    response with its add-ons, the identifier, any frames of any padding, a last frame
    that ends the padding ([k = 1]) or turns to the bare connection ([k = 2]), and
    what follows it; let the TLS client deliver any prefix of it, cut, delayed and
    broken off anywhere. Then no run of reads panics or refuses the stream for a
    reason other than its breaking off, an error of a connection, or a transition
    inside an outer record: not for its identifier, commands or frame sizes. What the
    reads hand over is a prefix of the contents in order, followed by the rest, or, on
    a direct transition, by what of it was decrypted already, then what the TLS client
    holds, then the socket; and when all of that has arrived and nothing is left
    buffered, exactly that was handed over. *)
Theorem vision_read_spec boundary id addons frames k c p rest more t h s rooms rs v :
  len id = 16 → k = 1 ∨ k = 2 → frame_fits (c, p) → Forall frame_fits frames →
  arriving t ++ more = response_bytes addons ++ stream_bytes id frames k c p rest →
  settled (incoming h) → Forall (Z.le 0) rooms →
  polls (poll_read boundary) rooms (VisionStream_new t h s id) = (rs, v) →
  Forall (read_answer (read_faults t ++ read_faults h ++ read_faults s)) rs ∧
  (∃ now, now `prefix_of` rest ∧
     delivered rs `prefix_of` plain frames k c rest now (arriving h) (arriving s)) ∧
  (failed v = false → drained v → more = [] →
     ∃ now, now `prefix_of` rest ∧ delivered rs = plain frames k c rest now (arriving h) (arriving s)).
Proof.
  intros Hid Hk Hlast Hframes Harr Hset Hrooms E.
  destruct (reads_run boundary id addons frames k c p rest more (arriving h) (arriving s)
    (read_faults t ++ read_faults h ++ read_faults s) Hid Hk Hlast Hframes rooms (VisionStream_new t h s id) [] rs v)
    as [Hanswers Hrun]; [done| |done|].
  - left. split.
    + split; simpl; try done; [|set_solver]. split; simpl; first [done | by constructor].
    + apply in_response; simpl; done.
  - split; [done|]. simpl in Hrun. destruct Hrun as [[Hs Hr]|[Hf Hpre]].
    + split; [by eapply reading_prefix|]. intros _ Hd Hm. by eapply reading_drained.
    + split; [done|]. congruence.
Qed.

Lemma small_frame (c p : bytes) :
  forallb (λ x, (0 <=? x) && (x <? 256)) c && (len c <? 65536) && (len p <? 65536) = true → frame_fits (c, p).
Proof.
  intros [[Hc Hl%Z.ltb_lt]%andb_true_iff Hp%Z.ltb_lt]%andb_true_iff. split_and!; try done. simpl.
  apply Forall_forall. intros x Hx. rewrite forallb_forall in Hc. apply list_elem_of_In, Hc in Hx. unfold u8. lia.
Qed.

(** Two frames and a tail, cut inside the first frame. *)
Lemma vision_read_spec_witness :
  let id := replicate 16 7 in
  let stream := [0; 1; 9] ++ stream_bytes id [([1; 2], [0])] 1 [3] [] [4] in
  let t := {| incoming := [Chunk (take 22 stream); ReadPending; Chunk (drop 22 stream)]; answers := []; sent := [] |} in
  let none := {| incoming := []; answers := []; sent := [] |} in
  ∃ now, now `prefix_of` [4] ∧
    delivered (polls (poll_read (λ _, true)) [9; 9; 9; 9] (VisionStream_new t none none id)).1
      `prefix_of` plain [([1; 2], [0])] 1 [3] [4] now [] [].
Proof.
  intros id stream t none.
  destruct (polls (poll_read (λ _, true)) [9; 9; 9; 9] (VisionStream_new t none none id)) as [rs v] eqn:E.
  apply (vision_read_spec (λ _, true) id [9] [([1; 2], [0])] 1 [3] [] [4] [] t none none [9; 9; 9; 9] rs v).
  - done.
  - by left.
  - by apply small_frame.
  - constructor; [by apply small_frame|constructor].
  - by vm_compute.
  - done.
  - repeat constructor; lia.
  - exact E.
Defined.
