(* ===== verification/VisionWrite.v ===== *)
(** * Vision: what the writes put on the connections *)
From S2P Require Import Prelude Bytes AsyncIo Vision VisionRecords VisionRead.

#[local] Open Scope list_scope.
#[local] Open Scope Z_scope.

(** ** What a read leaves alone *)
Definition keeps (v v' : VisionStream) : Prop :=
  writer v' = writer v ∧ uuid v' = uuid v ∧ sent (tls v') = sent (tls v) ∧ sent (socket v') = sent (socket v).

#[global] Instance keeps_preorder : PreOrder keeps.
Proof.
  split; [by intros v|]. intros v1 v2 v3 (H1 & H2 & H3 & H4) (H1' & H2' & H3' & H4'). unfold keeps.
  by rewrite H1', H2', H3', H4'.
Qed.

Lemma raw_read_sent n r p r' : raw_read n r = (p, r') → sent r' = sent r.
Proof.
  unfold raw_read. destruct (incoming r) as [|[bs| |e] rest]; try by intros [= <- <-].
  by destruct (len bs <=? n); intros [= <- <-].
Qed.

Section keeps.
Context (boundary : VisionStream → bool).

Lemma decode_keeps v : keeps v (decode boundary v).2.
Proof.
  unfold decode. repeat case_match; simplify_eq/=; done.
Qed.

Lemma read_response_keeps v : keeps v (read_response v).2.
Proof.
  unfold read_response. destruct (_ =? 0); [done|]. destruct (raw_read _ (tls v)) as [pr t] eqn:E. apply raw_read_sent in E.
  repeat case_match; simplify_eq/=; done.
Qed.

Lemma read_direct_keeps room v : keeps v (read_direct room v).2.
Proof.
  unfold read_direct. destruct (raw_read _ (held v)) as [pr h]. destruct (raw_read room (socket v)) as [ps s] eqn:E.
  apply raw_read_sent in E. repeat case_match; simplify_eq/=; done.
Qed.

Lemma vision_read_loop_keeps rounds room : ∀ v, keeps v (read_loop boundary rounds room v).2.
Proof.
  induction rounds as [|rounds IH]; intros v; [done|]. cbn [read_loop].
  destruct (ready_at (reader v) <? len (ready (reader v))); [done|].
  set (v0 := with_reader (with_ready [] 0 (reader v)) v). assert (keeps v v0) as Hv0 by done.
  destruct (negb (response_done (reader v))).
  { pose proof (read_response_keeps v0) as Hr. destruct (read_response v0) as [[|[u|e| |]] v1]; simpl in Hr;
      try by etrans. }
  destruct (raw_reading (reader v)); [etrans; [exact Hv0|apply read_direct_keeps]|].
  pose proof (decode_keeps v0) as Hd. destruct (decode boundary v0) as [[[]|e| |] v1]; simpl in Hd; try by etrans.
  assert (keeps v v1) as Hv1 by (by etrans).
  destruct (len (encoded (reader v1)) <? len (encoded (reader v))); [by etrans|].
  destruct (raw_reading (reader v1)); [by etrans|]. destruct (MAX_FRAME <? _); [done|].
  destruct (raw_read 4096 (tls v1)) as [pr t] eqn:E. apply raw_read_sent in E.
  assert (∀ r, keeps v (with_reader r (with_streams t (held v1) (socket v1) v1))) as Ht by (intros r; by etrans).
  assert (keeps v (with_streams t (held v1) (socket v1) v1)) as Ht' by (by etrans).
  destruct pr as [|[bs|e| |]]; try done. destruct (bool_decide (bs = [])); [by destruct (bool_decide _)|].
  etrans; [apply Ht|apply IH].
Qed.

Lemma vision_poll_read_keeps room v : keeps v (poll_read boundary room v).2.
Proof.
  unfold poll_read. destruct (room =? 0); [done|]. destruct (failed v); [done|].
  pose proof (vision_read_loop_keeps 64 room v) as H. by destruct (read_loop boundary 64 room v) as [[|[bs|e| |]] v1].
Qed.
End keeps.

(** ** Draining *)
(** What was framed and not sent yet. *)
Definition unsent (v : VisionStream) : bytes := drop (Z.to_nat (wire_at (writer v))) (wire (writer v)).

Definition wire_ok (v : VisionStream) : Prop := 0 <= wire_at (writer v) <= len (wire (writer v)).

Definition turns (w : Writer) : bool := negb (bool_decide (wire w = [])) && (write_command w =? 2).

Lemma range_drop {A} (l : list A) i : 0 <= i <= len l → range l i (len l) = drop (Z.to_nat i) l.
Proof. intros. unfold range. apply take_ge. rewrite length_drop. unfold len in *. lia. Qed.

Lemma drain_loop_ok fuel : ∀ v p v',
  wire_ok v → (length (answers (tls v)) < fuel)%nat → drain_loop fuel v = (p, v') →
  reader v' = reader v ∧ uuid v' = uuid v ∧ socket v' = socket v ∧ failed v' = failed v ∧ wire_ok v' ∧
  sent (tls v') ++ unsent v' = sent (tls v) ++ unsent v ∧
  match p with
  | Ready (Ok _) => writer v' = with_wire [] 0 (turns (writer v) || raw_writing (writer v)) (writer v)
  | Pending | Ready (Err _) => ∃ at_, writer v' = with_wire (wire (writer v)) at_ (raw_writing (writer v)) (writer v)
  | _ => False
  end.
Proof.
  induction fuel as [|fuel IH]; intros v p v' Hw Hf; [lia|]. cbn [drain_loop]. pose proof Hw as [Hw0 Hw1].
  assert (∃ at_, writer v = with_wire (wire (writer v)) at_ (raw_writing (writer v)) (writer v)) as Hsame.
  { exists (wire_at (writer v)). by destruct (writer v). }
  destruct (Z.ltb_spec (wire_at (writer v)) (len (wire (writer v)))) as [Hlt|Hge].
  - rewrite range_drop by done. fold (unsent v). destruct (raw_write (unsent v) (tls v)) as [pr t] eqn:E.
    apply raw_write_sent in E as [_ Hpr].
    destruct pr as [|[n|e| |]]; try done; [by intros [= <- <-]; simpl; rewrite Hpr| |by intros [= <- <-]; simpl; rewrite Hpr].
    destruct Hpr as ((Hn0 & Hn) & Hsent & Hans).
    assert (len (unsent v) = len (wire (writer v)) - wire_at (writer v)) as Hlu by (unfold unsent, len in *; rewrite length_drop; lia).
    destruct (Z.eqb_spec n 0) as [->|Hn1].
    { intros [= <- <-]. simpl. rewrite Hsent, app_nil_r. done. }
    intros E. apply IH in E; [|split; simpl; lia|simpl; lia]. simpl in E.
    destruct E as (H1 & H2 & H3 & H4 & H5 & H6 & H7). split_and!; try done.
    rewrite H6, Hsent. unfold unsent. simpl. rewrite Z2Nat.inj_add by lia. rewrite <- drop_drop, <- app_assoc, take_drop. done.
  - assert (unsent v = []) as Hnone by (unfold unsent; apply drop_ge; unfold len in *; lia).
    fold (turns (writer v)). destruct (turns (writer v)) eqn:Et.
    + destruct (raw_flush (tls v)) as [pr t] eqn:E. apply raw_flush_sent in E as (_ & Hsent & Hpr).
      destruct pr as [|[u|e| |]]; try done; intros [= <- <-]; simpl; rewrite ?Hsent; split_and!; try done.
      by rewrite Hnone.
    + intros [= <- <-]. simpl. split_and!; try done. by rewrite Hnone.
Qed.

Lemma drain_wire_ok v p v' :
  wire_ok v → drain_wire v = (p, v') →
  reader v' = reader v ∧ uuid v' = uuid v ∧ socket v' = socket v ∧ failed v' = failed v ∧ wire_ok v' ∧
  sent (tls v') ++ unsent v' = sent (tls v) ++ unsent v ∧
  match p with
  | Ready (Ok _) => writer v' = with_wire [] 0 (turns (writer v) || raw_writing (writer v)) (writer v)
  | Pending | Ready (Err _) => ∃ at_, writer v' = with_wire (wire (writer v)) at_ (raw_writing (writer v)) (writer v)
  | _ => False
  end.
Proof. intros Hw. apply drain_loop_ok; [done|lia]. Qed.

(** ** What was put on the connections *)
Section writing.
Context {G : Type} `{RB : RandomByte G}.
(** The identifier, and what the connections had sent before. *)
Context (id T S : bytes).

(** A frame of the writer. *)
Definition written_frame (f : bytes * bytes) : Prop := frame_fits f ∧ 0 < len f.1 <= CHUNK.

Definition started (frames : list (bytes * bytes)) : bytes :=
  if bool_decide (frames = []) then [] else id ++ framed frames.

Record writer_ok (v : VisionStream) : Prop := {
  writer_uuid : uuid v = id;
  writer_records : records_ok (outbound (writer v));
  writer_wire : wire_ok v;
}.

(** Where the writes stand when they have accepted [acc]. *)
Inductive writing (v : VisionStream) (acc : bytes) : Prop :=
  | in_padding frames :
      writing_padding (writer v) = true → raw_writing (writer v) = false → write_command (writer v) = 0 →
      first_write (writer v) = bool_decide (frames = []) → writes (writer v) = len frames → len frames < 8 →
      Forall written_frame frames → acc = contents frames →
      sent (tls v) ++ unsent v = T ++ started frames → sent (socket v) = S → writing v acc
  | in_tls frames c p d :
      writing_padding (writer v) = false → raw_writing (writer v) = false → write_command (writer v) = 1 →
      len frames < 8 → Forall written_frame frames → written_frame (c, p) → acc = contents frames ++ c ++ d →
      sent (tls v) ++ unsent v = T ++ stream_bytes id frames 1 c p d → sent (socket v) = S → writing v acc
  | turning frames c p :
      writing_padding (writer v) = false → raw_writing (writer v) = false → write_command (writer v) = 2 →
      wire (writer v) ≠ [] →
      len frames < 8 → Forall written_frame frames → written_frame (c, p) → acc = contents frames ++ c →
      sent (tls v) ++ unsent v = T ++ stream_bytes id frames 2 c p [] → sent (socket v) = S → writing v acc
  | turned frames c p d :
      writing_padding (writer v) = false → raw_writing (writer v) = true → wire (writer v) = [] →
      len frames < 8 → Forall written_frame frames → written_frame (c, p) → acc = contents frames ++ c ++ d →
      sent (tls v) = T ++ stream_bytes id frames 2 c p [] → sent (socket v) = S ++ d → writing v acc.

Lemma drain_writing v acc p v' :
  writer_ok v → writing v acc → drain_wire v = (p, v') →
  writer_ok v' ∧ writing v' acc ∧
  match p with
  | Ready (Ok _) => wire (writer v') = [] ∧ wire_at (writer v') = 0
  | Pending | Ready (Err _) => True
  | _ => False
  end.
Proof.
  intros [W1 W2 W3] Hw E. destruct (drain_wire_ok _ _ _ W3 E) as (D1 & D2 & D3 & D4 & D5 & D6 & D7).
  assert ((∃ w at_, writer v' = with_wire w at_ (raw_writing (writer v)) (writer v) ∧
     (wire (writer v) = [] → w = []) ∧ (turns (writer v) = true → w ≠ [])) ∨
     turns (writer v) = true ∧ writer v' = with_wire [] 0 true (writer v)) as Hcases.
  { destruct p as [|[u|e| |]]; try done.
    - left. destruct D7 as [at_ ->]. exists (wire (writer v)), at_. split_and!; try done. unfold turns. by destruct (wire _).
    - destruct (turns (writer v)) eqn:Et; [by right|]. left. exists [], 0. rewrite D7. by split_and!.
    - left. destruct D7 as [at_ ->]. exists (wire (writer v)), at_. split_and!; try done. unfold turns. by destruct (wire _). }
  assert (writer_ok v') as Hok.
  { split; [by rewrite D2| |done]. destruct Hcases as [(w & at_ & -> & _)|[_ ->]]; done. }
  split; [done|]. split; [|destruct p as [|[u|e| |]]; try done; by rewrite D7].
  destruct Hcases as [(w & at_ & Hv & Hempty & Hturn)|[Hturn Hv]].
  - destruct Hw as [frames|frames c p0 d|frames c p0|frames c p0 d ? ? ? ? ? ? ? Hsent].
    + eapply (in_padding _ _ frames); rewrite ?Hv; simpl; try done; [by rewrite D6|by rewrite D3].
    + eapply (in_tls _ _ frames c p0 d); rewrite ?Hv; simpl; try done; [by rewrite D6|by rewrite D3].
    + eapply (turning _ _ frames c p0); rewrite ?Hv; simpl; try done; [|by rewrite D6|by rewrite D3].
      apply Hturn. unfold turns. rewrite H1. by rewrite bool_decide_eq_false_2.
    + eapply (turned _ _ frames c p0 d); rewrite ?Hv; simpl; try done; [by apply Hempty| |by rewrite D3].
      rewrite <- Hsent. unfold unsent in D6. rewrite Hv in D6. simpl in D6. rewrite (Hempty H1), H1, !drop_nil, !app_nil_r in D6. done.
  - unfold turns in Hturn. apply andb_true_iff in Hturn as [Hne H2%Z.eqb_eq].
    destruct Hw as [frames ? ? Hc|frames c p0 d ? ? Hc|frames c p0 ? ? ? ? ? ? ? -> Hsent|frames c p0 d ? ? Hc]; [congruence..| |by rewrite Hc in Hne].
    eapply (turned _ _ frames c p0 []); rewrite ?Hv; simpl; try done; [by rewrite app_nil_r| |by rewrite app_nil_r, D3].
    rewrite <- Hsent, <- D6. unfold unsent. rewrite Hv. simpl. by rewrite app_nil_r.
Qed.

Lemma padded_vision_frame k c n : 0 <= n → padded_frame k c n = vision_frame k c (replicate (Z.to_nat n) 0).
Proof. intros. unfold padded_frame, vision_frame. by rewrite len_replicate, Z2Nat.id. Qed.

Lemma frame_padding_bound seen n (g : G) : 0 < n → 0 <= (frame_padding seen n g).1 < 65536.
Proof.
  intros Hn. unfold frame_padding. pose proof (random_byte_u8 g) as Hr. destruct (random_byte g) as [r g']. simpl in *.
  unfold u8 in Hr. destruct (seen && (n <? 900)) eqn:E; simpl; [|lia]. apply andb_true_iff in E as [_ E%Z.ltb_lt]. lia.
Qed.

Lemma padded_write_ok buf g v acc :
  writer_ok v → writing v acc → writing_padding (writer v) = true → raw_writing (writer v) = false →
  wire (writer v) = [] → wire_at (writer v) = 0 → is_bytes buf → buf ≠ [] →
  ∃ g' v', let n := Z.min (len buf) CHUNK in
    padded_write buf g v = Ok (n, g', v') ∧ writer_ok v' ∧ writing v' (acc ++ take (Z.to_nat n) buf).
Proof.
  intros [W1 W2 W3] Hw Hpad Hraw Hwire Hat Hbuf Hne. cbv zeta. unfold padded_write.
  set (n := Z.min (len buf) CHUNK). set (data := take (Z.to_nat n) buf).
  assert (0 < len buf) by (destruct buf; [done|rewrite len_cons; pose proof (len_nonneg buf); lia]).
  assert (len data = n) as Hdata by (unfold data, len in *; rewrite length_take; unfold n, CHUNK, len in *; lia).
  assert (is_bytes data) as Hdb by (by apply Forall_take).
  destruct (feed_ok data false (outbound (writer v)) Hdb W2) as (b & records & -> & Hrec & _). obind.
  set (k := if b then _ else _). pose proof (frame_padding_bound (seen_tls records) n g ltac:(unfold n, CHUNK; lia)) as Hp.
  destruct (frame_padding (seen_tls records) n g) as [padding g']. simpl in Hp. rewrite Hwire.
  destruct Hw as [frames _ _ _ Hfirst Hwrites Hlen Hframes -> Hsent Hsock|? ? ? ? E|? ? ? E|? ? ? ? E]; [|congruence..].
  set (pad := replicate (Z.to_nat padding) 0). assert (written_frame (data, pad)) as Hf.
  { unfold written_frame, frame_fits, pad. simpl. rewrite len_replicate. unfold n, CHUNK in *. split_and!; done || lia. }
  rewrite (padded_vision_frame k data padding) by lia. fold pad.
  assert (started frames ++ (if first_write (writer v) then [] ++ uuid v else []) = id ++ framed frames) as Hstart.
  { rewrite Hfirst, W1. unfold started. destruct (bool_decide_reflect (frames = [])) as [Hnil|]; [|by rewrite app_nil_r].
    rewrite Hnil. simpl. by rewrite app_nil_r. }
  assert (unsent v = []) as Hun by (unfold unsent; by rewrite Hwire, drop_nil). rewrite Hun, app_nil_r in Hsent.
  assert (∀ tail, sent (tls v) ++ (if first_write (writer v) then [] ++ uuid v else []) ++ tail
    = T ++ id ++ framed frames ++ tail) as Hwhole.
  { intros tail. rewrite Hsent, <- app_assoc. f_equal. rewrite app_assoc, Hstart. by rewrite <- app_assoc. }
  assert (∀ h, h ++ vision_frame k data pad ≠ []) as Hnonempty by (intros h; unfold vision_frame; by destruct h).
  eexists g', _. split; [reflexivity|]. split.
  { split; simpl; [done|done|]. unfold wire_ok. simpl. rewrite Hat. split; [done|apply len_nonneg]. }
  assert (k = 0 ∧ writes (writer v) + 1 < 8 ∨ k = 1 ∨ k = 2) as [[Hk Hw8]|[Hk|Hk]].
  { unfold k. destruct b; [destruct (enabled _); auto|]. destruct (Z.leb_spec 8 (writes (writer v) + 1)); auto. }
  - eapply (in_padding _ _ (frames ++ [(data, pad)])); unfold unsent; rewrite ?Hk; simpl; try done.
    + rewrite bool_decide_eq_false_2; [done|]. by destruct frames.
    + rewrite Hwrites, len_app. done.
    + rewrite len_app. change (len [(data, pad)]) with 1. lia.
    + apply Forall_app. by split; [|constructor].
    + unfold contents. rewrite flat_map_app. simpl. by rewrite app_nil_r.
    + rewrite Hat, drop_0. rewrite Hwhole. unfold started. rewrite bool_decide_eq_false_2 by (by destruct frames).
      unfold framed. rewrite flat_map_app. cbn [flat_map]. by rewrite !app_nil_r.
  - eapply (in_tls _ _ frames data pad []); unfold unsent; rewrite ?Hk; simpl; try done; [by rewrite app_nil_r|].
    rewrite Hat, drop_0. rewrite Hwhole. unfold stream_bytes. by rewrite app_nil_r.
  - eapply (turning _ _ frames data pad); unfold unsent; rewrite ?Hk; simpl; try done.
    + rewrite <- Hk. apply Hnonempty.
    + rewrite Hat, drop_0. rewrite Hwhole. unfold stream_bytes. by rewrite app_nil_r.
Qed.

Lemma sent_more v acc bs s' :
  writing v acc → raw_writing (writer v) = true → sent s' = sent (socket v) ++ bs →
  writing (with_streams (tls v) (held v) s' v) (acc ++ bs).
Proof.
  intros Hw Hraw Hs. destruct Hw as [? ? E|? ? ? ? ? E|? ? ? ? E|frames c p d ? ? ? ? ? ? -> ? Hsock]; [congruence..|].
  eapply (turned _ _ frames c p (d ++ bs)); simpl; try done; [by rewrite <- !app_assoc|]. by rewrite Hs, Hsock, app_assoc.
Qed.

Lemma sent_tls v acc bs t' :
  writing v acc → writing_padding (writer v) = false → raw_writing (writer v) = false → wire (writer v) = [] →
  sent t' = sent (tls v) ++ bs → writing (with_streams t' (held v) (socket v) v) (acc ++ bs).
Proof.
  intros Hw Hpad Hraw Hwire Hs.
  destruct Hw as [? E|frames c p d ? ? ? ? ? ? -> Hsent ?|? ? ? ? ? ? E|? ? ? ? ? E]; [congruence| |congruence|congruence].
  eapply (in_tls _ _ frames c p (d ++ bs)); unfold unsent; simpl; try done; [by rewrite <- !app_assoc|].
  unfold unsent in Hsent. rewrite Hwire, drop_nil, app_nil_r in *. rewrite Hs, Hsent. unfold stream_bytes. by rewrite <- !app_assoc.
Qed.

Lemma poll_write_ok buf g v acc p g' v' :
  writer_ok v → writing v acc → is_bytes buf → poll_write buf g v = (p, g', v') →
  writer_ok v' ∧
  match p with
  | Ready (Ok n) => 0 <= n <= len buf ∧ writing v' (acc ++ take (Z.to_nat n) buf)
  | Pending | Ready (Err _) => writing v' acc
  | _ => False
  end.
Proof.
  intros Hok Hw Hbuf. unfold poll_write. destruct (failed v); [by intros [= <- <- <-]|].
  destruct (drain_wire v) as [pd v1] eqn:E. destruct (drain_writing _ _ _ _ Hok Hw E) as (Hok1 & Hw1 & Hpd).
  destruct pd as [|[u|e| |]]; try done; [by intros [= <- <- <-]| |by intros [= <- <- <-]]. destruct Hpd as [Hwire Hat].
  destruct (raw_writing (writer v1)) eqn:Hraw.
  { destruct (raw_write buf (socket v1)) as [pr s1] eqn:Es. apply raw_write_sent in Es as [_ Hpr]. intros [= <- <- <-].
    split; [by destruct Hok1|]. destruct pr as [|[n|e| |]]; try done.
    - rewrite <- (app_nil_r acc). apply sent_more; try done. by rewrite app_nil_r.
    - destruct Hpr as (Hn & Hs & _). split; [done|]. by apply sent_more.
    - rewrite <- (app_nil_r acc). apply sent_more; try done. by rewrite app_nil_r. }
  destruct (writing_padding (writer v1)) eqn:Hpad; cbn [negb].
  2: { destruct (raw_write buf (tls v1)) as [pr t1] eqn:Es. apply raw_write_sent in Es as [_ Hpr]. intros [= <- <- <-].
    split; [by destruct Hok1|]. destruct pr as [|[n|e| |]]; try done.
    - rewrite <- (app_nil_r acc). apply sent_tls; try done. by rewrite app_nil_r.
    - destruct Hpr as (Hn & Hs & _). split; [done|]. by apply sent_tls.
    - rewrite <- (app_nil_r acc). apply sent_tls; try done. by rewrite app_nil_r. }
  destruct (bool_decide_reflect (buf = [])) as [->|Hne].
  { intros [= <- <- <-]. split; [done|]. simpl. by rewrite app_nil_r. }
  destruct (padded_write_ok buf g v1 acc Hok1 Hw1 Hpad Hraw Hwire Hat Hbuf Hne) as (g2 & v2 & -> & Hok2 & Hw2).
  intros [= <- <- <-]. split; [done|]. split; [|done]. pose proof (len_nonneg buf). unfold CHUNK. lia.
Qed.

Lemma flush_writing (v : VisionStream) acc t s' :
  writer_ok v → writing v acc → sent t = sent (tls v) → sent s' = sent (socket v) →
  writer_ok (with_streams t (held v) s' v) ∧ writing (with_streams t (held v) s' v) acc.
Proof.
  intros Hok Hw Ht Hs. split; [by destruct Hok|].
  destruct Hw as [frames|frames c p d|frames c p|frames c p d].
  - eapply (in_padding _ _ frames); unfold unsent in *; simpl; rewrite ?Ht, ?Hs; done.
  - eapply (in_tls _ _ frames c p d); unfold unsent in *; simpl; rewrite ?Ht, ?Hs; done.
  - eapply (turning _ _ frames c p); unfold unsent in *; simpl; rewrite ?Ht, ?Hs; done.
  - eapply (turned _ _ frames c p d); unfold unsent in *; simpl; rewrite ?Ht, ?Hs; done.
Qed.

(** A flush or the end of the stream: everything framed was sent, if it succeeds. *)
Definition flushed (v : VisionStream) (acc : bytes) (r : poll unit * VisionStream) : Prop :=
  writer_ok r.2 ∧ writing r.2 acc ∧
  match r.1 with Ready (Ok _) => unsent r.2 = [] | Pending | Ready (Err _) => True | _ => False end.

Lemma poll_flush_ok v acc : writer_ok v → writing v acc → flushed v acc (poll_flush v).
Proof.
  intros Hok Hw. unfold poll_flush, flush_current, flushed.
  destruct (drain_wire v) as [pd v1] eqn:E. destruct (drain_writing _ _ _ _ Hok Hw E) as (Hok1 & Hw1 & Hpd).
  destruct pd as [|[u|e| |]]; try done. destruct Hpd as [Hwire Hat].
  assert (∀ t s', unsent (with_streams t (held v1) s' v1) = []) as Hun by (intros; unfold unsent; simpl; by rewrite Hwire, drop_nil).
  destruct (raw_writing (writer v1)).
  - destruct (raw_flush (socket v1)) as [pr s1] eqn:Es. apply raw_flush_sent in Es as (_ & Hs & Hpr). simpl.
    destruct (flush_writing v1 acc (tls v1) s1 Hok1 Hw1 eq_refl Hs). split_and!; try done. by destruct pr as [|[| | |]].
  - destruct (raw_flush (tls v1)) as [pr t1] eqn:Es. apply raw_flush_sent in Es as (_ & Hs & Hpr). simpl.
    destruct (flush_writing v1 acc t1 (socket v1) Hok1 Hw1 Hs eq_refl). split_and!; try done. by destruct pr as [|[| | |]].
Qed.

Lemma poll_shutdown_ok v acc : writer_ok v → writing v acc → flushed v acc (poll_shutdown v).
Proof.
  intros Hok Hw. unfold poll_shutdown, flushed.
  destruct (drain_wire v) as [pd v1] eqn:E. destruct (drain_writing _ _ _ _ Hok Hw E) as (Hok1 & Hw1 & Hpd).
  destruct pd as [|[u|e| |]]; try done. destruct Hpd as [Hwire Hat].
  assert (∀ t s', unsent (with_streams t (held v1) s' v1) = []) as Hun by (intros; unfold unsent; simpl; by rewrite Hwire, drop_nil).
  destruct (raw_flush (tls v1)) as [prt t1] eqn:Et. apply raw_flush_sent in Et as (_ & Ht & Hprt).
  destruct (flush_writing v1 acc t1 (socket v1) Hok1 Hw1 Ht eq_refl) as [Hokt Hwt].
  assert (∀ v2, writer_ok v2 → writing v2 acc → unsent v2 = [] →
    flushed v acc (let '(p, s) := raw_flush (socket v2) in (p, with_streams (tls v2) (held v2) s v2))) as Hclose.
  { intros v2 Hok2 Hw2 Hun2. destruct (raw_flush (socket v2)) as [pr s1] eqn:Es. apply raw_flush_sent in Es as (_ & Hs & Hpr).
    destruct (flush_writing v2 acc (tls v2) s1 Hok2 Hw2 eq_refl Hs). unfold flushed. simpl. split_and!; try done.
    by destruct pr as [|[| | |]]. }
  destruct (raw_reading (reader v1) || raw_writing (writer v1)).
  - destruct (negb (raw_writing (writer v1))).
    + destruct prt as [|[u1|e| |]]; try done. by apply Hclose.
    + apply Hclose; try done. unfold unsent. by rewrite Hwire, drop_nil.
  - simpl. split_and!; try done. by destruct prt as [|[| | |]].
Qed.

Lemma keeps_writing v v' acc : keeps v v' → writer_ok v → writing v acc → writer_ok v' ∧ writing v' acc.
Proof.
  intros (K1 & K2 & K3 & K4) [W1 W2 W3] Hw. split; [split; [by rewrite K2|by rewrite K1|unfold wire_ok; by rewrite K1]|].
  destruct Hw as [frames|frames c p d|frames c p|frames c p d].
  - eapply (in_padding _ _ frames); unfold unsent in *; rewrite ?K1, ?K3, ?K4; done.
  - eapply (in_tls _ _ frames c p d); unfold unsent in *; rewrite ?K1, ?K3, ?K4; done.
  - eapply (turning _ _ frames c p); unfold unsent in *; rewrite ?K1, ?K3, ?K4; done.
  - eapply (turned _ _ frames c p d); unfold unsent in *; rewrite ?K1, ?K3, ?K4; done.
Qed.
End writing.

(** ** Runs of polls *)
Inductive stream_op := Write (buf : bytes) | Flush | Shutdown | Read (room : Z).

Section runs.
Context {G : Type} `{RB : RandomByte G} (boundary : VisionStream → bool).

(** What a poll answers: whether it returned, and the bytes it accepted. *)
Definition accepted (buf : bytes) (p : poll Z) : bool * bytes :=
  match p with
  | Pending | Ready (Err _) => (true, [])
  | Ready (Ok n) => (true, take (Z.to_nat n) buf)
  | _ => (false, [])
  end.
Definition returned {A} (p : poll A) : bool :=
  match p with Ready Panic | Ready Diverge => false | _ => true end.

Definition perform (op : stream_op) (g : G) (v : VisionStream) : bool * bytes * G * VisionStream :=
  match op with
  | Write buf => let '(p, g, v) := poll_write buf g v in let '(ok, bs) := accepted buf p in (ok, bs, g, v)
  | Flush => let '(p, v) := poll_flush v in (returned p, [], g, v)
  | Shutdown => let '(p, v) := poll_shutdown v in (returned p, [], g, v)
  | Read room => let '(_, v) := poll_read boundary room v in (true, [], g, v)
  end.

(** Whether every poll returned, and all the bytes accepted. *)
Fixpoint run (ops : list stream_op) (g : G) (v : VisionStream) : bool * bytes * G * VisionStream :=
  match ops with
  | [] => (true, [], g, v)
  | op :: ops =>
      let '(ok, bs, g, v) := perform op g v in
      let '(oks, more, g, v) := run ops g v in (ok && oks, bs ++ more, g, v)
  end.

Definition op_ok (op : stream_op) : Prop := match op with Write buf => is_bytes buf | _ => True end.

Lemma perform_ok id T S op g v acc ok bs g' v' :
  op_ok op → writer_ok id v → writing id T S v acc → perform op g v = (ok, bs, g', v') →
  ok = true ∧ writer_ok id v' ∧ writing id T S v' (acc ++ bs).
Proof.
  intros Hop Hok Hw. destruct op as [buf| | |room]; simpl.
  - destruct (poll_write buf g v) as [[p g1] v1] eqn:E. destruct (poll_write_ok id T S buf g v acc p g1 v1 Hok Hw Hop E) as [Hok1 Hp].
    destruct p as [|[n|e| |]]; try done; simpl; intros [= <- <- <- <-]; rewrite ?app_nil_r; try done. by destruct Hp.
  - pose proof (poll_flush_ok id T S v acc Hok Hw) as (Hok1 & Hw1 & Hp). destruct (poll_flush v) as [p v1].
    intros [= <- <- <- <-]. rewrite app_nil_r. by destruct p as [|[| | |]].
  - pose proof (poll_shutdown_ok id T S v acc Hok Hw) as (Hok1 & Hw1 & Hp). destruct (poll_shutdown v) as [p v1].
    intros [= <- <- <- <-]. rewrite app_nil_r. by destruct p as [|[| | |]].
  - pose proof (vision_poll_read_keeps boundary room v) as Hk. destruct (poll_read boundary room v) as [p v1].
    intros [= <- <- <- <-]. rewrite app_nil_r. split; [done|]. by eapply keeps_writing.
Qed.

Lemma run_writing id T S ops : ∀ g v acc ok bs g' v',
  Forall op_ok ops → writer_ok id v → writing id T S v acc → run ops g v = (ok, bs, g', v') →
  ok = true ∧ writer_ok id v' ∧ writing id T S v' (acc ++ bs).
Proof.
  induction ops as [|op ops IH]; intros g v acc ok bs g' v' Hops Hok Hw; simpl.
  { intros [= <- <- <- <-]. by rewrite app_nil_r. }
  apply Forall_cons in Hops as [Hop Hops]. destruct (perform op g v) as [[[ok1 bs1] g1] v1] eqn:E.
  destruct (perform_ok id T S op g v acc ok1 bs1 g1 v1 Hop Hok Hw E) as (-> & Hok1 & Hw1).
  destruct (run ops g1 v1) as [[[ok2 bs2] g2] v2] eqn:E2. intros [= <- <- <- <-].
  rewrite app_assoc. by eapply IH.
Qed.
End runs.

(** What the TLS connection and the socket carry for the bytes accepted: nothing yet;
    frames of the padding phase; these and a last frame with what follows it in TLS;
    or a last frame that turns to the socket, which carries the rest. *)
Inductive vision_carries (id : bytes) : bytes → bytes → bytes → Prop :=
  | carries_nothing : vision_carries id [] [] []
  | carries_frames frames :
      Forall written_frame frames → len frames < 8 → frames ≠ [] →
      vision_carries id (id ++ framed frames) [] (contents frames)
  | carries_tls frames c p d :
      Forall written_frame frames → len frames < 8 → written_frame (c, p) →
      vision_carries id (stream_bytes id frames 1 c p d) [] (contents frames ++ c ++ d)
  | carries_direct frames c p d :
      Forall written_frame frames → len frames < 8 → written_frame (c, p) →
      vision_carries id (stream_bytes id frames 2 c p []) d (contents frames ++ c ++ d).

Lemma writing_carries id T S v acc :
  writing id T S v acc →
  ∃ on_tls on_socket, sent (tls v) ++ unsent v = T ++ on_tls ∧ sent (socket v) = S ++ on_socket ∧
    vision_carries id on_tls on_socket acc ∧ (on_socket ≠ [] → unsent v = []).
Proof.
  intros [frames _ _ _ _ _ Hlen Hframes -> Hsent Hsock|frames c p d _ _ _ Hlen Hframes Hf -> Hsent Hsock
    |frames c p _ _ _ _ Hlen Hframes Hf -> Hsent Hsock|frames c p d _ _ Hwire Hlen Hframes Hf -> Hsent Hsock].
  - exists (started id frames), []. rewrite app_nil_r. split_and!; try done. unfold started.
    case_bool_decide as Hnil; [rewrite Hnil; apply carries_nothing|by apply carries_frames].
  - exists (stream_bytes id frames 1 c p d), []. rewrite app_nil_r. split_and!; try done. by apply carries_tls.
  - exists (stream_bytes id frames 2 c p []), []. rewrite app_nil_r. split_and!; try done.
    rewrite <- (app_nil_r c) at 2. by apply carries_direct.
  - exists (stream_bytes id frames 2 c p []), d. assert (unsent v = []) as Hun by (unfold unsent; by rewrite Hwire, drop_nil).
    rewrite Hun, app_nil_r. split_and!; try done. by apply carries_direct.
Qed.

(** C18. A Vision stream writes what a Vision reader unframes. Whatever the random
    padding, and however the polls of writes, flushes, reads and shutdowns interleave
    and the connections delay, shorten and fail them, every poll returns, and the
    bytes accepted so far are carried, in order and once, by frames of the reader's
    format: the identifier, at most seven frames that go on, a last one, and then
    plain bytes on the TLS connection, or on the socket after a frame that turns to
    it. The socket carries nothing before every framed byte is sent, and a flush that
    succeeds leaves no framed byte unsent. *)
Theorem vision_write_spec {G} `{RB : RandomByte G} boundary ops (g : G) t h s id ok acc g' v :
  Forall op_ok ops → run boundary ops g (VisionStream_new t h s id) = (ok, acc, g', v) →
  ok = true ∧
  (∃ on_tls on_socket, sent (tls v) ++ unsent v = sent t ++ on_tls ∧ sent (socket v) = sent s ++ on_socket ∧
     vision_carries id on_tls on_socket acc ∧ (on_socket ≠ [] → unsent v = [])) ∧
  (∀ v', poll_flush v = (Ready (Ok tt), v') → unsent v' = []).
Proof.
  intros Hops E.
  destruct (run_writing boundary id (sent t) (sent s) ops g (VisionStream_new t h s id) [] ok acc g' v) as (-> & Hok & Hw); try done.
  - split; simpl; [done| |done]. split; simpl; first [done | by constructor].
  - eapply (in_padding _ _ _ _ _ []); by simpl.
  - split; [done|]. split; [by apply writing_carries|]. intros v' Hf.
    pose proof (poll_flush_ok id (sent t) (sent s) v acc Hok Hw) as (_ & _ & Hun). by rewrite Hf in Hun.
Qed.

#[local] Instance constant_byte : RandomByte unit.
Proof. refine {| random_byte := λ g, (2, g) |}. intros []. by vm_compute. Defined.

(** Two writes, the second cut short by the connection. *)
Lemma vision_write_spec_witness :
  let none := {| incoming := []; answers := []; sent := [] |} in
  let t := {| incoming := []; answers := [Accept 4; Accept 99; Accept 99]; sent := [] |} in
  ∃ ok acc g v, run (λ _, true) [Write [1; 2]; Flush; Write [3]; Flush] tt (VisionStream_new t none none (replicate 16 7)) = (ok, acc, g, v)
    ∧ acc = [1; 2; 3] ∧ ok = true.
Proof.
  intros none t.
  destruct (run (λ _, true) [Write [1; 2]; Flush; Write [3]; Flush] tt (VisionStream_new t none none (replicate 16 7)))
    as [[[ok acc] g] v] eqn:E.
  exists ok, acc, g, v. split; [done|].
  split; [assert (acc = (run (λ _, true) [Write [1; 2]; Flush; Write [3]; Flush] tt (VisionStream_new t none none (replicate 16 7))).1.1.2)
    as -> by (by rewrite E); by vm_compute|].
  apply (vision_write_spec (λ _, true) [Write [1; 2]; Flush; Write [3]; Flush] tt t none none (replicate 16 7) ok acc g v); [|exact E].
  repeat constructor; by vm_compute.
Defined.
