(* ===== verification/Vmess.v ===== *)
(** * VMess: keys, request header and chunk cipher (proxy/vmess.rs)

    The derivation of keys, the request the client opens a connection with, and the
    cipher of the chunks.  The hash functions, the block cipher and the two AEAD
    ciphers of the external crates are the class [Crypto]; a hasher is the bytes it
    was fed.  The random values of a request and the clock are arguments. *)
From Stdlib Require Import String.
From S2P Require Import Prelude Bytes Text Net NetText.

#[local] Open Scope string_scope.
#[local] Open Scope list_scope.
#[local] Open Scope Z_scope.

Class Crypto := {
  md5 : bytes → bytes;
  sha256 : bytes → bytes;
  crc32 : bytes → Z;
  aes128_block : bytes → bytes → bytes;
  (** key, nonce, additional data, message *)
  gcm_seal : bytes → bytes → bytes → bytes → bytes;
  gcm_open : bytes → bytes → bytes → bytes → option bytes;
  chacha_seal : bytes → bytes → bytes → bytes;
  chacha_open : bytes → bytes → bytes → option bytes;
}.

Inductive VMessSecurity := Aes128Gcm | Chacha20Poly1305 | Auto | SecurityNone | Zero_.

Definition security_byte (s : VMessSecurity) : Z :=
  match s with Aes128Gcm => 3 | Chacha20Poly1305 => 4 | Auto => 3 | SecurityNone => 5 | Zero_ => 6 end.

Definition one_of_names (s : list Z) (names : list string) : bool := existsb (λ n, bool_decide (s = lit n)) names.

Section vmess.
Context {U : Unicode} {C : Crypto}.

Definition security_from_str (s : list Z) : VMessSecurity :=
  let s := to_lowercase s in
  if one_of_names s ["aes-128-gcm"] then Aes128Gcm
  else if one_of_names s ["chacha20-poly1305"; "chacha20-ietf-poly1305"] then Chacha20Poly1305
  else if one_of_names s ["auto"] then Aes128Gcm
  else if one_of_names s ["none"] then SecurityNone
  else if one_of_names s ["zero"] then Zero_
  else Aes128Gcm.

Definition vmess_cmd_key (uuid : bytes) : bytes := md5 (uuid ++ lit "c48619fe-8f02-49e0-b9e9-edf763e17e21").

(** ** Key derivation *)
Definition xor_pad (pad : Z) (block : bytes) : bytes := map (λ b, Z.lxor b pad) block.
Definition zero_pad (block : bytes) : bytes := block ++ replicate (64 - length block) 0.

Record GoHmacSha256 := { h_inner : bytes; h_outer : bytes }.

Definition hmac_new (key : bytes) : GoHmacSha256 :=
  let block := zero_pad (if 64 <? len key then sha256 key else key) in
  {| h_inner := xor_pad 54 block; h_outer := xor_pad 92 block |}.
Definition hmac_write (data : bytes) (h : GoHmacSha256) : GoHmacSha256 :=
  {| h_inner := h_inner h ++ data; h_outer := h_outer h |}.
Definition hmac_sum (h : GoHmacSha256) : bytes := sha256 (h_outer h ++ sha256 (h_inner h)).

Inductive KdfHasher := Base (h : GoHmacSha256) | Level (okey : bytes) (inner outer : KdfHasher).

(** [block[i] = pad ^ k] over a block of [pad] bytes. *)
Definition hmac_block_pad (key : bytes) (pad : Z) : bytes :=
  let k := if 64 <? len key then take 32 (sha256 key) else key in
  map (λ b, Z.lxor pad b) k ++ replicate (64 - length k) pad.

Fixpoint kdf_update (m : bytes) (h : KdfHasher) : KdfHasher :=
  match h with
  | Base h => Base (hmac_write m h)
  | Level okey inner outer => Level okey (kdf_update m inner) outer
  end.

Definition new_level (inner : KdfHasher) (key : bytes) : KdfHasher :=
  Level (hmac_block_pad key 92) (kdf_update (hmac_block_pad key 54) inner) inner.

(** [fuel] bounds the levels. *)
Fixpoint kdf_finalize (fuel : nat) (h : KdfHasher) : outcome bytes :=
  match fuel with
  | O => Diverge
  | S fuel =>
      match h with
      | Base h => Ok (hmac_sum h)
      | Level okey inner outer =>
          h1 ← kdf_finalize fuel inner;
          kdf_finalize fuel (kdf_update h1 (kdf_update okey outer))
      end
  end.

Definition kdf (key : bytes) (paths : list bytes) : outcome bytes :=
  kdf_finalize (S (length paths)) (kdf_update key (foldl new_level (Base (hmac_new (lit "VMess AEAD KDF"))) paths)).

(** ** The request *)
Definition create_auth_id (cmd_key : bytes) (timestamp : Z) (rand4 : bytes) : outcome bytes :=
  key ← kdf cmd_key [lit "AES Auth ID Encryption"];
  key ← sub key 0 16;
  let block := be_bytes 8 timestamp ++ rand4 in
  Ok (aes128_block key (block ++ be32 (crc32 block))).

Definition fnv1a32 (data : bytes) : Z := foldl (λ h b, (Z.lxor h b * 16777619) mod 2 ^ 32) 2166136261 data.

(** The random values of a request. *)
Record RequestRandom := { rand4 : bytes; nonce : bytes; padding : bytes }.

Definition address_of (host : bytes) : outcome bytes :=
  match parse_ipv4 host with
  | Some ip => Ok (1 :: octets (V4 ip))
  | None =>
      match parse_ipv6 host with
      | Some ip => Ok (3 :: octets (V6 ip))
      | None =>
          _ ← ensure (len host <=? 255) "Domain name too long for VMess";
          Ok (2 :: as_u8 (len host) :: host)
      end
  end.

(** The inner header, before it is sealed. *)
Definition plain_header (rnd : RequestRandom) (body_key body_iv : bytes) (resp_auth : Z) (security : VMessSecurity)
    (host : bytes) (port command : Z) : outcome bytes :=
  address ← address_of host;
  let header := [1] ++ body_iv ++ body_key ++ [resp_auth; 1]
    ++ [Z.lor (Z.shiftl (len (padding rnd)) 4) (security_byte security); 0; command]
    ++ be16 port ++ address ++ padding rnd in
  Ok (header ++ be32 (fnv1a32 header)).

Definition build_vmess_header_command (timestamp : Z) (rnd : RequestRandom) (uuid body_key body_iv : bytes) (resp_auth : Z)
    (security : VMessSecurity) (host : bytes) (port command : Z) : outcome bytes :=
  let cmd_key := vmess_cmd_key uuid in
  auth_id ← create_auth_id cmd_key timestamp (rand4 rnd);
  header ← plain_header rnd body_key body_iv resp_auth security host port command;
  length_key ← kdf cmd_key [lit "VMess Header AEAD Key_Length"; auth_id; nonce rnd];
  length_nonce ← kdf cmd_key [lit "VMess Header AEAD Nonce_Length"; auth_id; nonce rnd];
  length_key ← sub length_key 0 16;
  length_nonce ← sub length_nonce 0 12;
  let encrypted_length := gcm_seal length_key length_nonce auth_id (be16 (as_u16 (len header))) in
  header_key ← kdf cmd_key [lit "VMess Header AEAD Key"; auth_id; nonce rnd];
  header_nonce ← kdf cmd_key [lit "VMess Header AEAD Nonce"; auth_id; nonce rnd];
  header_key ← sub header_key 0 16;
  header_nonce ← sub header_nonce 0 12;
  let encrypted_header := gcm_seal header_key header_nonce auth_id header in
  Ok (auth_id ++ encrypted_length ++ nonce rnd ++ encrypted_header).

(** ** The cipher of the chunks *)
Inductive VMessChunkCipher :=
  | ChunkAes (key iv : bytes)
  | ChunkChacha (key iv : bytes)
  | ChunkNone.

Definition generate_chacha_key (key : bytes) : bytes := md5 key ++ md5 (md5 key).

Definition chunk_cipher_new (security : VMessSecurity) (key iv : bytes) : VMessChunkCipher :=
  match security with
  | Aes128Gcm | Auto => ChunkAes key iv
  | Chacha20Poly1305 => ChunkChacha (generate_chacha_key key) iv
  | SecurityNone | Zero_ => ChunkNone
  end.

Definition make_aead_nonce (iv : bytes) (count : Z) : bytes := be16 count ++ range iv 2 12.

(** Sealing and opening in place. *)
Definition seal_chunk (cipher : VMessChunkCipher) (count : Z) (data : bytes) : bytes :=
  match cipher with
  | ChunkAes key iv => gcm_seal key (make_aead_nonce iv count) [] data
  | ChunkChacha key iv => chacha_seal key (make_aead_nonce iv count) data
  | ChunkNone => data
  end.

Definition decrypt_in_place (cipher : VMessChunkCipher) (count : Z) (data : bytes) : outcome bytes :=
  match cipher with
  | ChunkAes key iv => ok_or (gcm_open key (make_aead_nonce iv count) [] data) "AES-GCM decrypt"
  | ChunkChacha key iv => ok_or (chacha_open key (make_aead_nonce iv count) data) "ChaCha20 decrypt"
  | ChunkNone => Ok data
  end.

Definition overhead (cipher : VMessChunkCipher) : Z := match cipher with ChunkNone => 0 | _ => 16 end.

(** ** The response header *)
Definition decrypt_resp_header_len (enc resp_key resp_iv : bytes) : outcome Z :=
  key ← kdf resp_key [lit "AEAD Resp Header Len Key"];
  iv ← kdf resp_iv [lit "AEAD Resp Header Len IV"];
  key ← sub key 0 16;
  iv ← sub iv 0 12;
  plain ← ok_or (gcm_open key iv [] enc) "VMess response header length decrypt failed";
  b0 ← idx plain 0;
  b1 ← idx plain 1;
  _ ← ensure (of_be [b0; b1] <=? 256) "VMess response header too large";
  Ok (of_be [b0; b1]).

Definition verify_resp_header_payload (enc : bytes) (expected_auth : Z) (resp_key resp_iv : bytes) : outcome unit :=
  key ← kdf resp_key [lit "AEAD Resp Header Key"];
  iv ← kdf resp_iv [lit "AEAD Resp Header IV"];
  key ← sub key 0 16;
  iv ← sub iv 0 12;
  plain ← ok_or (gcm_open key iv [] enc) "VMess response header decrypt failed";
  ensure (default 0 (head plain) =? expected_auth) "VMess response auth mismatch".
End vmess.
