(* ===== verification/VmessSpec.v ===== *)
(** * VMess: the keys, and the request a server reads *)
From Stdlib Require Import String.
From S2P Require Import Prelude Bytes Text Net NetText Headers HeadersSpec Vmess.

#[local] Open Scope string_scope.
#[local] Open Scope list_scope.
#[local] Open Scope Z_scope.

(** What the ciphers promise. *)
Class CryptoLaws (C : Crypto) := {
  len_md5 m : len (md5 m) = 16;
  len_sha256 m : len (sha256 m) = 32;
  crc32_u32 m : u32 (crc32 m);
  len_aes128_block k b : len b = 16 → len (aes128_block k b) = 16;
  aes128_unblock : bytes → bytes → bytes;
  aes128_inverse k b : len b = 16 → aes128_unblock k (aes128_block k b) = b;
  len_gcm_seal k n a m : len (gcm_seal k n a m) = len m + 16;
  gcm_open_seal k n a m : gcm_open k n a (gcm_seal k n a m) = Some m;
  len_chacha_seal k n m : len (chacha_seal k n m) = len m + 16;
  chacha_open_seal k n m : chacha_open k n (chacha_seal k n m) = Some m;
}.

Section spec.
Context {U : Unicode} {C : Crypto} {L : CryptoLaws C}.

(** ** The derivation is HMAC, nested *)
(** HMAC over a hash; a key longer than a block is hashed by SHA-256. *)
Definition hmac (H : bytes → bytes) (key msg : bytes) : bytes :=
  let k := zero_pad (if 64 <? len key then sha256 key else key) in
  H (xor_pad 92 k ++ H (xor_pad 54 k ++ msg)).

Definition nested_hmac (paths : list bytes) : bytes → bytes :=
  foldl hmac (hmac sha256 (lit "VMess AEAD KDF")) paths.

Lemma block_pad key pad : u8 pad → hmac_block_pad key pad = xor_pad pad (zero_pad (if 64 <? len key then sha256 key else key)).
Proof.
  intros Hp. unfold hmac_block_pad, xor_pad, zero_pad. rewrite map_app. 
  assert (take 32 (sha256 key) = sha256 key) as -> by (apply take_ge; pose proof (len_sha256 key); unfold len in *; lia).
  f_equal.
  - apply map_ext. intros b. apply Z.lxor_comm.
  - change (map ?f ?l) with (f <$> l). rewrite fmap_replicate. by rewrite Z.lxor_0_l.
Qed.

(** A hasher that computes [H] of what it is fed, with [d] levels. *)
Inductive computes : nat → KdfHasher → (bytes → bytes) → Prop :=
  | computes_base h : computes 0 (Base h) (λ m, sha256 (h_outer h ++ sha256 (h_inner h ++ m)))
  | computes_level d okey inner outer H H' :
      computes d inner H → computes d outer H' → computes (S d) (Level okey inner outer) (λ m, H' (okey ++ H m)).

Lemma computes_update d h H m : computes d h H → ∃ H', computes d (kdf_update m h) H' ∧ ∀ x, H' x = H (m ++ x).
Proof.
  intros Hc. revert m. induction Hc as [h|d okey inner outer H H' Hi IHi Ho IHo]; intros m; cbn [kdf_update].
  - eexists. split; [constructor|]. intros x. cbn. by rewrite app_assoc.
  - destruct (IHi m) as (Hm & H1 & H2). eexists. split; [by constructor|]. intros x. cbn. by rewrite H2.
Qed.

Lemma computes_finalize d h H fuel : computes d h H → (d < fuel)%nat → kdf_finalize fuel h = Ok (H []).
Proof.
  revert d h H. induction fuel as [|fuel IH]; intros d h H Hc Hf; [lia|]. cbn [kdf_finalize].
  destruct Hc as [h|d okey inner outer H H' Hi Ho]; [cbn; by rewrite app_nil_r|].
  rewrite (IH d inner H) by (done || lia). obind. destruct (computes_update d outer H' okey Ho) as (Ha & A1 & A2).
  destruct (computes_update d _ Ha (H []) A1) as (Hb & B1 & B2). rewrite (IH d _ Hb) by (done || lia).
  rewrite B2, app_nil_r, A2. done.
Qed.

Lemma kdf_ok key paths : kdf key paths = Ok (nested_hmac paths key).
Proof.
  assert (∀ h H, (∃ H0, computes (length paths) h H0 ∧ ∀ x, H0 x = H x) → kdf_finalize (S (length paths)) (kdf_update key h) = Ok (H key)) as Hfin.
  { intros h H (H0 & Hc & E). destruct (computes_update _ _ _ key Hc) as (H1 & C1 & E1).
    rewrite (computes_finalize _ _ _ _ C1) by lia. by rewrite E1, app_nil_r, E. }
  unfold kdf. apply Hfin. unfold nested_hmac.
    assert (∀ d h H, (∃ H0, computes d h H0 ∧ ∀ x, H0 x = H x) →
      ∃ H0, computes (d + length paths) (foldl new_level h paths) H0 ∧ ∀ x, H0 x = foldl hmac H paths x) as Hgo.
    { induction paths as [|p paths IH]; intros d h H Hh; cbn [foldl length]; [by rewrite Nat.add_0_r|].
      rewrite Nat.add_succ_r, <- Nat.add_succ_l. apply IH; [|].
      { intros h0 H0 (H1 & Hc & E). destruct (computes_update _ _ _ key Hc) as (H2 & C2 & E2).
        rewrite (computes_finalize _ _ _ _ C2) by lia. by rewrite E2, app_nil_r, E. }
      destruct Hh as (H0 & Hc & E). unfold new_level. destruct (computes_update _ _ _ (hmac_block_pad p 54) Hc) as (H1 & C1 & E1).
      eexists. split; [by constructor|]. intros x. cbn. rewrite E, E1, E. unfold hmac. by rewrite !block_pad. }
    apply (Hgo 0%nat). eexists. split; [constructor|]. intros x. done.
Qed.

Lemma len_nested key paths : len (nested_hmac paths key) = 32.
Proof.
  unfold nested_hmac. assert (∀ H : bytes → bytes, (∀ m, len (H m) = 32) → ∀ m, len (foldl hmac H paths m) = 32) as Hlen.
    { induction paths as [|p paths IH]; intros H HH m; cbn [foldl]; [done|]. apply IH. intros x. apply HH. }
    apply Hlen. intros m. apply len_sha256.
Qed.

(** The key derivation is nested HMAC-SHA256. The hasher that is cloned before and
    updated around each level computes, for any key and any paths, HMAC keyed with the
    last path, over HMAC keyed with the path before it, down to HMAC-SHA256 keyed with
    the name of the derivation; it always returns, and gives 32 bytes. *)
Theorem kdf_is_nested_hmac key paths : kdf key paths = Ok (nested_hmac paths key) ∧ len (nested_hmac paths key) = 32.
Proof. split; [apply kdf_ok|apply len_nested]. Qed.


(** ** What a server reads *)
(** The request of the VMess protocol, as a server opens it. *)
Record VMessRequest := {
  q_timestamp : Z; q_iv : bytes; q_key : bytes; q_auth : Z; q_security : Z; q_command : Z; q_port : Z; q_address : bytes;
}.

Definition read_address (s : bytes) : outcome (bytes * bytes) :=
  '(atyp, s) ← read_u8 s;
  if atyp =? 1 then '(a, s) ← read_exact 4 s; Ok (1 :: a, s)
  else if atyp =? 3 then '(a, s) ← read_exact 16 s; Ok (3 :: a, s)
  else if atyp =? 2 then '(n, s) ← read_u8 s; '(a, s) ← read_exact n s; Ok (2 :: n :: a, s)
  else Err "address type".

Definition open_plain (timestamp : Z) (header : bytes) : outcome VMessRequest :=
  '(body, check) ← read_exact (len header - 4) header;
  _ ← ensure (of_be check =? fnv1a32 body) "checksum";
  '(version, s) ← read_u8 body;
  _ ← ensure (version =? 1) "version";
  '(iv, s) ← read_exact 16 s;
  '(key, s) ← read_exact 16 s;
  '(auth, s) ← read_u8 s;
  '(option, s) ← read_u8 s;
  _ ← ensure (option =? 1) "option";
  '(bits, s) ← read_u8 s;
  '(reserved, s) ← read_u8 s;
  '(command, s) ← read_u8 s;
  '(port, s) ← read_u16 s;
  '(address, s) ← read_address s;
  _ ← ensure (len s =? Z.shiftr bits 4) "padding";
  Ok {| q_timestamp := timestamp; q_iv := iv; q_key := key; q_auth := auth; q_security := Z.land bits 15;
        q_command := command; q_port := port; q_address := address |}.

Definition open_request (uuid wire : bytes) : outcome (VMessRequest * bytes) :=
  let cmd_key := vmess_cmd_key uuid in
  let derive (label : string) (path : list bytes) := nested_hmac (lit label :: path) cmd_key in
  '(auth_id, s) ← read_exact 16 wire;
  let block := aes128_unblock (range (derive "AES Auth ID Encryption" []) 0 16) auth_id in
  _ ← ensure (crc32 (range block 0 12) =? of_be (range block 12 16)) "auth id";
  '(enc, s) ← read_exact 18 s;
  '(nonce, s) ← read_exact 8 s;
  plain ← ok_or (gcm_open (range (derive "VMess Header AEAD Key_Length" [auth_id; nonce]) 0 16)
                          (range (derive "VMess Header AEAD Nonce_Length" [auth_id; nonce]) 0 12) auth_id enc) "length";
  '(enc, s) ← read_exact (of_be plain + 16) s;
  header ← ok_or (gcm_open (range (derive "VMess Header AEAD Key" [auth_id; nonce]) 0 16)
                           (range (derive "VMess Header AEAD Nonce" [auth_id; nonce]) 0 12) auth_id enc) "header";
  request ← open_plain (of_be (range block 0 8)) header;
  Ok (request, s).

Lemma address_read host a s : address_of host = Ok a → read_address (a ++ s) = Ok (a, s) ∧ len a <= 257.
Proof.
  unfold address_of. destruct (parse_ipv4 host) as [ip|].
  { intros <-%Ok_inj. unfold read_address. cbn [app read_u8]. orun. cbn [Z.eqb Pos.eqb]. rewrite read_exact_app by done. orun. done. }
  destruct (parse_ipv6 host) as [ip|].
  { intros <-%Ok_inj. unfold read_address. cbn [app read_u8]. orun. cbn [Z.eqb Pos.eqb]. rewrite read_exact_app by done. orun. done. }
  destruct (Z.leb_spec (len host) 255) as [Hl|]; [|done]. cbn [ensure]. obind. intros <-%Ok_inj.
  pose proof (len_nonneg host). unfold as_u8. rewrite Z.mod_small by lia. unfold read_address. cbn [app read_u8]. orun.
  cbn [Z.eqb Pos.eqb read_u8]. orun. rewrite read_exact_app by done. orun. split; [done|]. unfold len in *. cbn. lia.
Qed.

Record request_fits (timestamp : Z) (rnd : RequestRandom) (body_key body_iv : bytes) (port : Z) : Prop := {
  rf_time : 0 <= timestamp < 2 ^ 64;
  rf_rand4 : len (rand4 rnd) = 4;
  rf_nonce : len (nonce rnd) = 8;
  rf_padding : len (padding rnd) < 16;
  rf_key : len body_key = 16;
  rf_iv : len body_iv = 16;
  rf_port : u16 port;
}.

Lemma security_bits p s : 0 <= p < 16 →
  Z.shiftr (Z.lor (Z.shiftl p 4) (security_byte s)) 4 = p ∧ Z.land (Z.lor (Z.shiftl p 4) (security_byte s)) 15 = security_byte s.
Proof.
  intros Hp. assert (p = 0 ∨ p = 1 ∨ p = 2 ∨ p = 3 ∨ p = 4 ∨ p = 5 ∨ p = 6 ∨ p = 7 ∨ p = 8 ∨ p = 9 ∨ p = 10 ∨ p = 11 ∨ p = 12 ∨ p = 13
    ∨ p = 14 ∨ p = 15) as Hcases by lia.
  destruct_or! Hcases; subst p; destruct s; done.
Qed.

Lemma fnv1a32_u32 data : u32 (fnv1a32 data).
Proof.
  unfold fnv1a32. assert (∀ h, u32 h → u32 (foldl (λ h b, (Z.lxor h b * 16777619) mod 2 ^ 32) h data)) as Hgo; [|by apply Hgo].
  induction data as [|b data IH]; intros h Hh; cbn [foldl]; [done|]. apply IH. unfold u32. apply Z.mod_pos_bound. lia.
Qed.

(** The plain header reads back. *)
Lemma plain_header_reads timestamp rnd body_key body_iv auth security host port command header :
  request_fits timestamp rnd body_key body_iv port →
  plain_header rnd body_key body_iv auth security host port command = Ok header →
  ∃ address, address_of host = Ok address ∧ len header < 65536 ∧
    ∀ t, open_plain t header = Ok {| q_timestamp := t; q_iv := body_iv; q_key := body_key; q_auth := auth;
      q_security := security_byte security; q_command := command; q_port := port; q_address := address |}.
Proof.
  intros [_ _ _ Hpad Hkey Hiv Hport] E. unfold plain_header in E. destruct (address_of host) as [a| | |] eqn:Ea; try done.
  revert E. obind. cbv zeta. intros <-%Ok_inj. exists a. split; [done|]. destruct (address_read host a (padding rnd) Ea) as [Hread Hla].
  pose proof (len_nonneg (padding rnd)). destruct (security_bits (len (padding rnd)) security ltac:(lia)) as [Hb1 Hb2].
  set (bits := Z.lor _ _) in *. set (body := [1] ++ _).
  assert (len body = 40 + len a + len (padding rnd)) as Hbody.
  { unfold body. rewrite !len_app, Hiv, Hkey, len_be16. change (len [1]) with 1. change (len [auth; 1]) with 2. change (len [bits; 0; command]) with 3. lia. }
  split. { rewrite len_app, len_be32. lia. }
  intros t. unfold open_plain. rewrite read_exact_app by (rewrite len_app, len_be32; lia). orun.
  rewrite of_be_be32 by apply fnv1a32_u32. rewrite Z.eqb_refl. cbn [ensure]. orun.
  unfold body. cbn [app read_u8]. orun. cbn [Z.eqb Pos.eqb ensure]. orun. rewrite read_exact_app by done. orun.
  rewrite read_exact_app by done. orun. do 5 (cbn [app read_u8 Z.eqb Pos.eqb ensure]; orun).
  rewrite read_u16_app by done. orun. rewrite Hread. orun. rewrite Hb1, Hb2, Z.eqb_refl. cbn [ensure]. orun. done.
Qed.

(** A VMess server reads the request the client meant. For any identifier, keys,
    destination, command and random values of their sizes: the request is built unless
    the destination is a domain name longer than 255 bytes, in which case it is an
    error; and a server that knows the identifier opens it, whatever follows it, to the
    time, the keys, the authentication byte, the security, the command, the port and
    the address it was built from, with its checksums in order and nothing left of it. *)
Theorem vmess_request_spec timestamp rnd uuid body_key body_iv auth security host port command :
  request_fits timestamp rnd body_key body_iv port →
  match build_vmess_header_command timestamp rnd uuid body_key body_iv auth security host port command with
  | Ok out => ∃ address, address_of host = Ok address ∧ ∀ rest, open_request uuid (out ++ rest) =
      Ok ({| q_timestamp := timestamp; q_iv := body_iv; q_key := body_key; q_auth := auth; q_security := security_byte security;
             q_command := command; q_port := port; q_address := address |}, rest)
  | Err _ => parse_ipv4 host = None ∧ parse_ipv6 host = None ∧ 255 < len host
  | Panic | Diverge => False
  end.
Proof.
  intros Hfit. pose proof Hfit as [Ht Hr4 Hn Hpad Hkey Hiv Hport]. unfold build_vmess_header_command, create_auth_id. cbv zeta.
  set (cmd := vmess_cmd_key uuid). rewrite kdf_ok. orun. rewrite sub_in by (rewrite ?len_nested; lia). orun.
  set (block := be_bytes 8 timestamp ++ rand4 rnd). assert (len block = 12) as Hblock by (unfold block; rewrite len_app, len_be_bytes; lia).
  set (id := aes128_block _ _). destruct (plain_header rnd body_key body_iv auth security host port command) as [header|e| |] eqn:Eh.
  - destruct (plain_header_reads timestamp _ _ _ _ _ _ _ _ _ Hfit Eh) as (a & Ea & Hlen & Hopen). orun.
    rewrite !kdf_ok. orun. rewrite !sub_in by (rewrite ?len_nested; lia). orun. exists a. split; [done|]. intros rest.
    unfold open_request. cbv zeta. fold cmd. rewrite <- !app_assoc.
    assert (len (block ++ be32 (crc32 block)) = 16) as Hb16 by (rewrite len_app, len_be32; lia).
    rewrite read_exact_app by (unfold id; by rewrite len_aes128_block). orun.
    rewrite !(aes128_inverse _ (block ++ be32 (crc32 block)) Hb16 : aes128_unblock _ id = _).
    assert (range (block ++ be32 (crc32 block)) 0 12 = block) as -> by (rewrite range_app_l by lia; apply range_all; lia).
    assert (range (block ++ be32 (crc32 block)) 12 16 = be32 (crc32 block)) as ->.
    { pose proof (range_app block (be32 (crc32 block)) [] 12 16) as E. rewrite app_nil_r in E. apply E; rewrite ?len_be32; lia. }
    assert (range (block ++ be32 (crc32 block)) 0 8 = be_bytes 8 timestamp) as ->.
    { unfold block. rewrite <- app_assoc. rewrite range_app_l by (rewrite ?len_be_bytes; lia). apply range_all; rewrite ?len_be_bytes; lia. }
    rewrite of_be_be32 by apply crc32_u32. rewrite Z.eqb_refl. cbn [ensure]. orun.
    rewrite read_exact_app by (by rewrite len_gcm_seal, len_be16). orun. rewrite read_exact_app by done. orun.
    rewrite gcm_open_seal. cbn [ok_or]. orun. pose proof (len_nonneg header).
    unfold as_u16. rewrite Z.mod_small, of_be_be16 by (unfold u16; lia).
    rewrite read_exact_app by (by rewrite len_gcm_seal). orun. rewrite gcm_open_seal. cbn [ok_or]. orun.
    rewrite of_be_small by done. rewrite Hopen. orun. done.
  - orun. destruct (address_of host) as [a|e'| |] eqn:Ea; try (unfold plain_header in Eh; by rewrite Ea in Eh).
    unfold address_of in Ea. destruct (parse_ipv4 host); [done|]. destruct (parse_ipv6 host); [done|].
    destruct (Z.leb_spec (len host) 255); [done|]. by split_and!.
  - unfold plain_header, address_of in Eh. destruct (parse_ipv4 host), (parse_ipv6 host), (len host <=? 255); done.
  - unfold plain_header, address_of in Eh. destruct (parse_ipv4 host), (parse_ipv6 host), (len host <=? 255); done.
Qed.
End spec.

(** Ciphers that only tag, for examples. *)
#[export] Instance plain_crypto : Crypto := {
  md5 _ := replicate 16 0;
  sha256 _ := replicate 32 0;
  crc32 _ := 0;
  aes128_block _ b := b;
  gcm_seal _ _ _ m := m ++ replicate 16 0;
  gcm_open _ _ _ c := Some (take (length c - 16) c);
  chacha_seal _ _ m := m ++ replicate 16 0;
  chacha_open _ _ c := Some (take (length c - 16) c);
}.

Lemma untag (m : bytes) : Some (take (length (m ++ replicate 16 0) - 16) (m ++ replicate 16 0)) = Some m.
Proof. f_equal. rewrite length_app, length_replicate, Nat.add_sub. apply take_app_length. Qed.

#[export] Instance plain_crypto_laws : CryptoLaws plain_crypto.
Proof.
  refine {| aes128_unblock _ b := b |}; intros; cbn [md5 sha256 crc32 aes128_block gcm_seal gcm_open chacha_seal chacha_open plain_crypto];
    first [done | apply untag | by rewrite len_app].
Defined.

(** A request to a domain name. *)
Lemma vmess_request_spec_witness :
  ∃ out q, build_vmess_header_command 1700000000 {| rand4 := [1; 2; 3; 4]; nonce := replicate 8 5; padding := [6; 7] |} (replicate 16 9)
    (replicate 16 1) (replicate 16 2) 3 Aes128Gcm (lit "example.com") 443 1 = Ok out ∧ open_request (replicate 16 9) (out ++ [8]) = Ok (q, [8]).
Proof.
  pose proof (vmess_request_spec 1700000000 {| rand4 := [1; 2; 3; 4]; nonce := replicate 8 5; padding := [6; 7] |} (replicate 16 9)
    (replicate 16 1) (replicate 16 2) 3 Aes128Gcm (lit "example.com") 443 1 ltac:(split; by vm_compute)) as H.
  destruct (build_vmess_header_command _ _ _ _ _ _ _ _ _ _) as [out| | |] eqn:E.
  - destruct H as (a & _ & Hopen). eexists _, _. split; [done|apply Hopen].
  - destruct H as (_ & _ & Hl). by vm_compute in Hl.
  - done.
  - done.
Defined.
