(* ===== verification/VmessStream.v ===== *)
(** * VMess: the encrypted stream (proxy/vmess.rs)

    [VMessStream] over a polled connection: the reader verifies the response header on
    the first read, then assembles, decrypts and hands out chunks; the writer seals one
    chunk for each accepted write and drains it.  Buffers are the bytes they hold. *)
From Stdlib Require Import String.
From S2P Require Import Prelude Bytes Text NetText AsyncIo Vmess.

#[local] Open Scope string_scope.
#[local] Open Scope list_scope.
#[local] Open Scope Z_scope.

Inductive ReadState := RespHeaderLen | RespHeaderPayload | ChunkLen | ChunkPayload | Plain.

(** The read side; [len_part] is the part of [len_buf] before [len_pos]. *)
Record VReader := {
  state : ReadState;
  resp_buf : bytes;
  resp_payload_len : Z;
  len_part : bytes;
  chunk_len : Z;
  chunk : bytes;
  plain_pos : Z;
  read_count : Z;
  fatal : option string;
  read_eof : bool;
}.

(** The write side. *)
Record VWriter := {
  out : bytes;
  out_pos : Z;
  write_in_flight : option Z;
  write_count : Z;
  write_closed : bool;
}.

Record VMessStream := {
  inner : Raw;
  read_cipher : VMessChunkCipher;
  write_cipher : VMessChunkCipher;
  resp_key : bytes;
  resp_iv : bytes;
  resp_auth : Z;
  max_chunk : Z;
  vreader : VReader;
  vwriter : VWriter;
}.

Definition with_inner (i : Raw) (v : VMessStream) : VMessStream :=
  {| inner := i; read_cipher := read_cipher v; write_cipher := write_cipher v; resp_key := resp_key v; resp_iv := resp_iv v;
     resp_auth := resp_auth v; max_chunk := max_chunk v; vreader := vreader v; vwriter := vwriter v |}.
Definition with_vreader (r : VReader) (v : VMessStream) : VMessStream :=
  {| inner := inner v; read_cipher := read_cipher v; write_cipher := write_cipher v; resp_key := resp_key v; resp_iv := resp_iv v;
     resp_auth := resp_auth v; max_chunk := max_chunk v; vreader := r; vwriter := vwriter v |}.
Definition with_vwriter (w : VWriter) (v : VMessStream) : VMessStream :=
  {| inner := inner v; read_cipher := read_cipher v; write_cipher := write_cipher v; resp_key := resp_key v; resp_iv := resp_iv v;
     resp_auth := resp_auth v; max_chunk := max_chunk v; vreader := vreader v; vwriter := w |}.

(** Fields of the reader that change together. *)
Definition with_resp (s : ReadState) (buf : bytes) (payload : Z) (r : VReader) : VReader :=
  {| state := s; resp_buf := buf; resp_payload_len := payload; len_part := len_part r; chunk_len := chunk_len r;
     chunk := chunk r; plain_pos := plain_pos r; read_count := read_count r; fatal := fatal r; read_eof := read_eof r |}.
Definition with_len (part : bytes) (r : VReader) : VReader :=
  {| state := state r; resp_buf := resp_buf r; resp_payload_len := resp_payload_len r; len_part := part;
     chunk_len := chunk_len r; chunk := chunk r; plain_pos := plain_pos r; read_count := read_count r; fatal := fatal r;
     read_eof := read_eof r |}.
Definition with_chunk (s : ReadState) (n : Z) (buf : bytes) (pos count : Z) (r : VReader) : VReader :=
  {| state := s; resp_buf := resp_buf r; resp_payload_len := resp_payload_len r; len_part := len_part r; chunk_len := n;
     chunk := buf; plain_pos := pos; read_count := count; fatal := fatal r; read_eof := read_eof r |}.
Definition with_end (f : option string) (eof : bool) (r : VReader) : VReader :=
  {| state := state r; resp_buf := resp_buf r; resp_payload_len := resp_payload_len r; len_part := len_part r;
     chunk_len := chunk_len r; chunk := chunk r; plain_pos := plain_pos r; read_count := read_count r; fatal := f;
     read_eof := eof |}.

Section stream.
Context {C : Crypto}.

Definition VMessStream_new (i : Raw) (req_key req_iv resp_key resp_iv : bytes) (resp_auth : Z) (security : VMessSecurity)
    : VMessStream :=
  let write_cipher := chunk_cipher_new security req_key req_iv in
  {| inner := i; read_cipher := chunk_cipher_new security resp_key resp_iv; write_cipher := write_cipher;
     resp_key := resp_key; resp_iv := resp_iv; resp_auth := resp_auth; max_chunk := 16384 - overhead write_cipher;
     vreader := {| state := RespHeaderLen; resp_buf := []; resp_payload_len := 0; len_part := []; chunk_len := 0; chunk := [];
                   plain_pos := 0; read_count := 0; fatal := None; read_eof := false |};
     vwriter := {| out := []; out_pos := 0; write_in_flight := None; write_count := 0; write_closed := false |} |}.

(** ** Reading *)
Definition poll_fill_inner (want : Z) (buf : bytes) (r : Raw) : poll unit * bytes * Raw :=
  match fill want buf r with
  | (Pending, buf, r) => (Pending, buf, r)
  | (Ready (Ok true), buf, r) => (Ready (Ok tt), buf, r)
  | (Ready (Ok false), buf, r) => (Ready (Err "connection closed mid-read"), buf, r)
  | (Ready (Err e), buf, r) => (Ready (Err e), buf, r)
  | (Ready Panic, buf, r) => (Ready Panic, buf, r)
  | (Ready Diverge, buf, r) => (Ready Diverge, buf, r)
  end.

(** What a round of the loop decides: an answer, or to go on. *)
Definition answer : Type := option (poll bytes).

(** A block of the response header that was assembled, or failed. *)
Definition header_round (want : Z) (verify : bytes → outcome VReader) (v : VMessStream) : answer * VMessStream :=
  let r := vreader v in
  match poll_fill_inner want (resp_buf r) (inner v) with
  | (Pending, buf, i) => (Some Pending, with_inner i (with_vreader (with_resp (state r) buf (resp_payload_len r) r) v))
  | (Ready (Err e), buf, i) =>
      (None, with_inner i (with_vreader (with_end (Some e) false (with_resp (state r) buf (resp_payload_len r) r)) v))
  | (Ready Panic, _, _) => (Some (Ready Panic), v)
  | (Ready Diverge, _, _) => (Some (Ready Diverge), v)
  | (Ready (Ok _), buf, i) =>
      match verify buf with
      | Ok r => (None, with_inner i (with_vreader r v))
      | Err e => (None, with_inner i (with_vreader (with_end (Some e) false (with_resp (state r) buf (resp_payload_len r) r)) v))
      | Panic => (Some (Ready Panic), v)
      | Diverge => (Some (Ready Diverge), v)
      end
  end.

(** The length prefix of a chunk; its read loop is that of [poll_fill_inner], and any
    failure is the end of the stream. *)
Definition length_round (v : VMessStream) : answer * VMessStream :=
  let r := vreader v in
  match poll_fill_inner 2 (len_part r) (inner v) with
  | (Pending, part, i) => (Some Pending, with_inner i (with_vreader (with_len part r) v))
  | (Ready (Err _), part, i) => (Some (Ready (Ok [])), with_inner i (with_vreader (with_end None true (with_len part r)) v))
  | (Ready Panic, _, _) => (Some (Ready Panic), v)
  | (Ready Diverge, _, _) => (Some (Ready Diverge), v)
  | (Ready (Ok _), part, i) =>
      let r := with_len [] r in
      if of_be part =? 0 then (Some (Ready (Ok [])), with_inner i (with_vreader (with_end None true r) v))
      else (None, with_inner i (with_vreader (with_chunk ChunkPayload (of_be part) [] (plain_pos r) (read_count r) r) v))
  end.

Definition payload_round (v : VMessStream) : answer * VMessStream :=
  let r := vreader v in
  let keep buf := with_chunk ChunkPayload (chunk_len r) buf (plain_pos r) (read_count r) r in
  match poll_fill_inner (chunk_len r) (chunk r) (inner v) with
  | (Pending, buf, i) => (Some Pending, with_inner i (with_vreader (keep buf) v))
  | (Ready (Err _), buf, i) => (Some (Ready (Ok [])), with_inner i (with_vreader (with_end None true (keep buf)) v))
  | (Ready Panic, _, _) => (Some (Ready Panic), v)
  | (Ready Diverge, _, _) => (Some (Ready Diverge), v)
  | (Ready (Ok _), buf, i) =>
      match decrypt_in_place (read_cipher v) (read_count r) buf with
      | Ok plain =>
          let count := (read_count r + 1) mod 65536 in
          let next := if bool_decide (plain = []) then ChunkLen else Plain in
          (None, with_inner i (with_vreader (with_chunk next (chunk_len r) plain 0 count r) v))
      | Err _ => (Some (Ready (Ok [])), with_inner i (with_vreader (with_end None true (keep buf)) v))
      | Panic => (Some (Ready Panic), v)
      | Diverge => (Some (Ready Diverge), v)
      end
  end.

Definition deliver (room : Z) (v : VMessStream) : answer * VMessStream :=
  let r := vreader v in
  let n := Z.min room (len (chunk r) - plain_pos r) in
  let pos := plain_pos r + n in
  (Some (Ready (Ok (range (chunk r) (plain_pos r) pos))),
   with_vreader (if pos =? len (chunk r) then with_chunk ChunkLen (chunk_len r) [] 0 (read_count r) r
                 else with_chunk Plain (chunk_len r) (chunk r) pos (read_count r) r) v).

Definition read_round (room : Z) (v : VMessStream) : answer * VMessStream :=
  let r := vreader v in
  if (room =? 0) || read_eof r then (Some (Ready (Ok [])), v)
  else
    match fatal r with
    | Some e => (Some (Ready (Err e)), with_vreader (with_end None true r) v)
    | None =>
        match state r with
        | Plain => deliver room v
        | RespHeaderLen =>
            header_round 18 (λ buf, n ← decrypt_resp_header_len buf (resp_key v) (resp_iv v);
                                    Ok (with_resp RespHeaderPayload [] n r)) v
        | RespHeaderPayload =>
            header_round (resp_payload_len r + 16)
              (λ buf, _ ← verify_resp_header_payload buf (resp_auth v) (resp_key v) (resp_iv v);
                      Ok (with_resp ChunkLen [] (resp_payload_len r) r)) v
        | ChunkLen => length_round v
        | ChunkPayload => payload_round v
        end
    end.

Fixpoint read_loop (fuel : nat) (room : Z) (v : VMessStream) : poll bytes * VMessStream :=
  match fuel with
  | O => (Ready Diverge, v)
  | S fuel => match read_round room v with (Some a, v) => (a, v) | (None, v) => read_loop fuel room v end
  end.

(** Every round but the last takes a byte from the connection, or notes a failure. *)
Definition poll_read (room : Z) (v : VMessStream) : poll bytes * VMessStream :=
  read_loop (Z.to_nat (len (arriving (inner v))) + 3) room v.

(** ** Writing *)
Definition with_out (o : bytes) (pos : Z) (w : VWriter) : VWriter :=
  {| out := o; out_pos := pos; write_in_flight := write_in_flight w; write_count := write_count w;
     write_closed := write_closed w |}.
Definition with_flight (n : option Z) (count : Z) (w : VWriter) : VWriter :=
  {| out := out w; out_pos := out_pos w; write_in_flight := n; write_count := count; write_closed := write_closed w |}.
Definition with_closed (w : VWriter) : VWriter :=
  {| out := out w; out_pos := out_pos w; write_in_flight := write_in_flight w; write_count := write_count w;
     write_closed := true |}.

Fixpoint flush_loop (fuel : nat) (v : VMessStream) : poll unit * VMessStream :=
  match fuel with
  | O => (Ready Diverge, v)
  | S fuel =>
      let w := vwriter v in
      if out_pos w <? len (out w) then
        match raw_write (range (out w) (out_pos w) (len (out w))) (inner v) with
        | (Pending, i) => (Pending, with_inner i v)
        | (Ready (Err e), i) => (Ready (Err e), with_inner i (with_vwriter (with_out [] 0 w) v))
        | (Ready (Ok n), i) =>
            if n =? 0 then (Ready (Err "failed to write VMess chunk"), with_inner i (with_vwriter (with_out [] 0 w) v))
            else flush_loop fuel (with_inner i (with_vwriter (with_out (out w) (out_pos w + n) w) v))
        | (Ready Panic, _) => (Ready Panic, v)
        | (Ready Diverge, _) => (Ready Diverge, v)
        end
      else
        let '(p, i) := raw_flush (inner v) in (p, with_inner i (with_vwriter (with_out [] 0 w) v))
  end.

Definition poll_flush_out (v : VMessStream) : poll unit * VMessStream :=
  flush_loop (S (length (answers (inner v)))) v.

(** The chunk of [poll_write] for the first [n] bytes of [buf]. *)
Definition put_chunk (buf : bytes) (v : VMessStream) : VMessStream :=
  let w := vwriter v in
  let n := Z.min (len buf) (max_chunk v) in
  let sealed := seal_chunk (write_cipher v) (write_count w) (take (Z.to_nat n) buf) in
  with_vwriter (with_flight (Some n) (write_count w) (with_out (out w ++ be16 (as_u16 (len sealed)) ++ sealed) (out_pos w) w)) v.

(** The write in flight is on the wire: the counter moves on. *)
Definition landed (n : Z) (v : VMessStream) : poll Z * VMessStream :=
  (Ready (Ok n), with_vwriter (with_flight None ((write_count (vwriter v) + 1) mod 65536) (vwriter v)) v).

Definition write_failed (e : string) (v : VMessStream) : poll Z * VMessStream :=
  (Ready (Err e), with_vwriter (with_flight None (write_count (vwriter v)) (vwriter v)) v).

Definition new_chunk (buf : bytes) (v : VMessStream) : poll Z * VMessStream :=
  if bool_decide (buf = []) then (Ready (Ok 0), v)
  else
    let n := Z.min (len buf) (max_chunk v) in
    match poll_flush_out (put_chunk buf v) with
    | (Pending, v) => (Pending, v)
    | (Ready (Err e), v) => write_failed e v
    | (Ready (Ok _), v) => landed n v
    | (Ready Panic, v) => (Ready Panic, v)
    | (Ready Diverge, v) => (Ready Diverge, v)
    end.

Definition poll_write (buf : bytes) (v : VMessStream) : poll Z * VMessStream :=
  let w := vwriter v in
  if write_closed w then (Ready (Err "VMess stream is closed"), v)
  else if bool_decide (is_Some (write_in_flight w)) || (out_pos w <? len (out w)) then
    match poll_flush_out v with
    | (Pending, v) => (Pending, v)
    | (Ready (Err e), v) => write_failed e v
    | (Ready (Ok _), v) =>
        match write_in_flight (vwriter v) with Some n => landed n v | None => new_chunk buf v end
    | (Ready Panic, v) => (Ready Panic, v)
    | (Ready Diverge, v) => (Ready Diverge, v)
    end
  else new_chunk buf v.

Definition poll_flush (v : VMessStream) : poll unit * VMessStream := poll_flush_out v.

(** The shutdown of the connection is polled like its flush. *)
Definition poll_shutdown (v : VMessStream) : poll unit * VMessStream :=
  match poll_flush_out v with
  | (Ready (Ok _), v) =>
      let '(p, i) := raw_flush (inner v) in
      (p, with_inner i (match p with Ready (Ok _) => with_vwriter (with_closed (vwriter v)) v | _ => v end))
  | (p, v) => (p, v)
  end.
End stream.
