(* ===== verification/VmessReadSpec.v ===== *)
(** * VMess: what the reads hand over *)
From Stdlib Require Import String.
From S2P Require Import Prelude Bytes Text NetText AsyncIo Vmess VmessSpec VmessStream.

#[local] Open Scope string_scope.
#[local] Open Scope list_scope.
#[local] Open Scope Z_scope.

Lemma poll_fill_ok want buf r p buf' r' :
  len buf <= want → poll_fill_inner want buf r = (p, buf', r') →
  ∃ bs, buf' = buf ++ bs ∧ arriving r = bs ++ arriving r' ∧ len buf' <= want ∧ sent r' = sent r ∧ answers r' = answers r ∧
    (steady (incoming r) → steady (incoming r')) ∧
    match p with
    | Ready (Ok _) => len buf' = want
    | Pending => len buf' < want
    | Ready (Err _) => ¬ steady (incoming r)
    | _ => False
    end.
Proof.
  intros Hl. unfold poll_fill_inner. destruct (fill want buf r) as [[pr b] i] eqn:E.
  apply fill_ok in E as (bs & -> & Ha & Hb & Hs & Han & Hst & Hres); [|done].
  destruct pr as [|[[]|e| |]]; try done; intros [= <- <- <-]; exists bs; split_and!; try done; apply Hres.
Qed.

Lemma app_cut (a b x y : bytes) : a ++ b = x ++ y → len a = len x → a = x ∧ b = y.
Proof. intros Heq Hl. apply app_inj_1; [unfold len in Hl; lia|done]. Qed.

(** ** A well-formed stream *)
(** A chunk on the wire. *)
Definition chunk_frame `{Crypto} (cipher : VMessChunkCipher) (i : nat) (p : bytes) : bytes :=
  be16 (len (seal_chunk cipher (Z.of_nat i mod 65536) p)) ++ seal_chunk cipher (Z.of_nat i mod 65536) p.

(** Chunks, from the [i]-th on. *)
Fixpoint chunk_frames `{Crypto} (cipher : VMessChunkCipher) (i : nat) (ps : list bytes) : bytes :=
  match ps with [] => [] | p :: ps => chunk_frame cipher i p ++ chunk_frames cipher (S i) ps end.

(** The length prefix holds the sealed chunk, and is not the mark of the end. *)
Definition chunk_fits (cipher : VMessChunkCipher) (p : bytes) : Prop := 0 < len p + overhead cipher < 65536.

(** How the stream goes on behind the chunks. *)
Inductive ending := Open | Ended (tail : bytes).
Definition ending_bytes (e : ending) : bytes := match e with Open => [] | Ended tail => [0; 0] ++ tail end.

Section laws.
Context {C : Crypto} {L : CryptoLaws C}.

Lemma len_seal_chunk cipher i p : len (seal_chunk cipher i p) = len p + overhead cipher.
Proof. destruct cipher; cbn; rewrite ?len_gcm_seal, ?len_chacha_seal; lia. Qed.

Lemma decrypt_seal cipher i p : decrypt_in_place cipher i (seal_chunk cipher i p) = Ok p.
Proof. destruct cipher; cbn; rewrite ?gcm_open_seal, ?chacha_open_seal; done. Qed.

(** The response header a server writes. *)
Definition response_label (key iv : bytes) (what : string) : bytes * bytes :=
  (range (nested_hmac [lit ("AEAD Resp Header " ++ what ++ "Key")%string] key) 0 16,
   range (nested_hmac [lit ("AEAD Resp Header " ++ what ++ "IV")%string] iv) 0 12).
Definition response_len_block (key iv payload : bytes) : bytes :=
  let '(k, n) := response_label key iv "Len " in gcm_seal k n [] (be16 (len payload)).
Definition response_payload_block (key iv payload : bytes) : bytes :=
  let '(k, n) := response_label key iv "" in gcm_seal k n [] payload.

Lemma response_len_reads key iv payload :
  len payload <= 256 → decrypt_resp_header_len (response_len_block key iv payload) key iv = Ok (len payload).
Proof.
  intros Hl. pose proof (len_nonneg payload). unfold decrypt_resp_header_len, response_len_block, response_label. rewrite !kdf_ok. orun.
  rewrite !sub_in by (rewrite ?len_nested; lia). orun. rewrite gcm_open_seal. cbn [ok_or]. orun.
  change (be16 (len payload)) with [(len payload / 256) mod 256; len payload mod 256].
  change (idx [?a; ?b] 0) with (Ok a). change (idx [?a; ?b] 1) with (Ok b). orun.
  change [(len payload / 256) mod 256; len payload mod 256] with (be16 (len payload)). rewrite of_be_be16 by (unfold u16; lia).
  by rewrite (proj2 (Z.leb_le _ _)).
Qed.

Lemma response_payload_reads key iv payload auth :
  head payload = Some auth → verify_resp_header_payload (response_payload_block key iv payload) auth key iv = Ok tt.
Proof.
  intros Hh. unfold verify_resp_header_payload, response_payload_block, response_label. rewrite !kdf_ok. orun.
  rewrite !sub_in by (rewrite ?len_nested; lia). orun. rewrite gcm_open_seal. cbn [ok_or]. orun. rewrite Hh. cbn [default from_option].
  by rewrite Z.eqb_refl.
Qed.
End laws.

Section reading.
Context {C : Crypto} {L : CryptoLaws C}.
(** The keys, the response, the chunks and what follows them; [more] never arrives.
    [goes_on] tells whether the connection is known not to fail or end. *)
Context (cipher : VMessChunkCipher) (key iv payload : bytes) (auth : Z) (ps : list bytes) (e : ending) (more : bytes) (goes_on : Prop).
Context (Hpayload : len payload <= 256) (Hauth : head payload = Some auth) (Hps : Forall (chunk_fits cipher) ps).

Definition stream_bytes : bytes :=
  response_len_block key iv payload ++ response_payload_block key iv payload ++ chunk_frames cipher 0 ps ++ ending_bytes e.

Record sane (v : VMessStream) : Prop := {
  sane_cipher : read_cipher v = cipher;
  sane_key : resp_key v = key;
  sane_iv : resp_iv v = iv;
  sane_auth : resp_auth v = auth;
  sane_steady : goes_on → steady (incoming (inner v));
}.

(** Where the reads stand after [got]. *)
Inductive reading (v : VMessStream) (got : bytes) : Prop :=
  | in_length :
      read_eof (vreader v) = false → fatal (vreader v) = None → state (vreader v) = RespHeaderLen → got = [] →
      len (resp_buf (vreader v)) < 18 → len_part (vreader v) = [] → read_count (vreader v) = 0 →
      resp_buf (vreader v) ++ arriving (inner v) ++ more = stream_bytes → reading v got
  | in_payload :
      read_eof (vreader v) = false → fatal (vreader v) = None → state (vreader v) = RespHeaderPayload → got = [] →
      resp_payload_len (vreader v) = len payload → len (resp_buf (vreader v)) < len payload + 16 →
      len_part (vreader v) = [] → read_count (vreader v) = 0 →
      resp_buf (vreader v) ++ arriving (inner v) ++ more
        = response_payload_block key iv payload ++ chunk_frames cipher 0 ps ++ ending_bytes e → reading v got
  | at_chunk done_ todo :
      read_eof (vreader v) = false → fatal (vreader v) = None → state (vreader v) = ChunkLen → ps = done_ ++ todo →
      got = concat done_ → len (len_part (vreader v)) < 2 → read_count (vreader v) = Z.of_nat (length done_) mod 65536 →
      len_part (vreader v) ++ arriving (inner v) ++ more = chunk_frames cipher (length done_) todo ++ ending_bytes e → reading v got
  | in_chunk done_ p todo :
      read_eof (vreader v) = false → fatal (vreader v) = None → state (vreader v) = ChunkPayload → ps = done_ ++ p :: todo →
      got = concat done_ → len_part (vreader v) = [] → read_count (vreader v) = Z.of_nat (length done_) mod 65536 →
      chunk_len (vreader v) = len p + overhead cipher → len (chunk (vreader v)) < chunk_len (vreader v) →
      chunk (vreader v) ++ arriving (inner v) ++ more
        = seal_chunk cipher (Z.of_nat (length done_) mod 65536) p ++ chunk_frames cipher (S (length done_)) todo ++ ending_bytes e →
      reading v got
  | handing done_ todo :
      read_eof (vreader v) = false → fatal (vreader v) = None → state (vreader v) = Plain → ps = done_ ++ todo →
      0 <= plain_pos (vreader v) < len (chunk (vreader v)) →
      got ++ drop (Z.to_nat (plain_pos (vreader v))) (chunk (vreader v)) = concat done_ →
      len_part (vreader v) = [] → read_count (vreader v) = Z.of_nat (length done_) mod 65536 →
      arriving (inner v) ++ more = chunk_frames cipher (length done_) todo ++ ending_bytes e → reading v got
  | finished :
      read_eof (vreader v) = true ∨ is_Some (fatal (vreader v)) → got `prefix_of` concat ps →
      (goes_on → read_eof (vreader v) = true ∧ got = concat ps ∧ e ≠ Open) → reading v got.

Definition round_ok (room : Z) (v : VMessStream) (got : bytes) (res : answer * VMessStream) : Prop :=
  match res with
  | (None, v') => sane v' ∧ reading v' got ∧
      (len (arriving (inner v')) < len (arriving (inner v)) ∨ is_Some (fatal (vreader v')) ∧ len (arriving (inner v')) <= len (arriving (inner v)))
  | (Some Pending, v') => sane v' ∧ reading v' got
  | (Some (Ready (Ok bs)), v') => sane v' ∧ reading v' (got ++ bs) ∧ (bs = [] → 0 < room → read_eof (vreader v') = true)
  | (Some (Ready (Err _)), v') => sane v' ∧ reading v' got ∧ ¬ goes_on
  | _ => False
  end.

(** A stream that breaks off leaves what was handed over. *)
Lemma broken v got r i :
  got `prefix_of` concat ps → read_eof r = true ∨ is_Some (fatal r) → ¬ goes_on → reading (with_inner i (with_vreader r v)) got.
Proof. intros Hp Hr Hg. by apply finished. Qed.

Lemma sane_with v r i : sane v → (goes_on → steady (incoming i)) → sane (with_inner i (with_vreader r v)).
Proof. intros [? ? ? ? ?] Hi. by split. Qed.

Lemma got_prefix v got : reading v got → got `prefix_of` concat ps.
Proof.
  intros [? ? ? -> | ? ? ? -> |done_ todo ? ? ? -> ->|done_ p todo ? ? ? -> ->|done_ todo ? ? ? -> ? Hout|? ?]; try apply prefix_nil; try done.
  - rewrite concat_app. by apply prefix_app_r.
  - rewrite concat_app. by apply prefix_app_r.
  - rewrite concat_app, <- Hout, <- app_assoc. by apply prefix_app_r.
Qed.

Lemma length_header_round v got :
  sane v → reading v got → state (vreader v) = RespHeaderLen → read_eof (vreader v) = false → fatal (vreader v) = None →
  ∀ room, round_ok room v got
    (header_round 18 (λ buf, n ← decrypt_resp_header_len buf (resp_key v) (resp_iv v); Ok (with_resp RespHeaderPayload [] n (vreader v))) v).
Proof.
  intros Hs Hr Hst Heof Hfat room. destruct Hr as [_ _ _ -> Hlen Hpart Hcount Harr| | | | |[?|[]]]; try congruence. pose proof Hs as [S1 S2 S3 S4 S5].
  unfold header_round. destruct (poll_fill_inner 18 (resp_buf (vreader v)) (inner v)) as [[pr buf] i] eqn:E.
  apply poll_fill_ok in E as (bs & -> & Ha & Hl & _ & _ & Hsteady & Hres); [|lia].
  assert (goes_on → steady (incoming i)) as Hi by auto. rewrite Ha, <- app_assoc, app_assoc in Harr.
  destruct pr as [|[[]|er| |]]; try done.
  - split; [by apply sane_with|]. apply in_length; done.
  - unfold stream_bytes in Harr. apply app_cut in Harr as [Hb Hrest].
    2: { unfold response_len_block, response_label. rewrite len_gcm_seal, len_be16. done. }
    rewrite Hb, S2, S3, response_len_reads by done. orun. split; [by apply sane_with|]. split.
    + apply in_payload; try done; cbn; change (len []) with 0; pose proof (len_nonneg payload); lia.
    + left. cbn. rewrite Ha, len_app. apply (f_equal len) in Hb. unfold response_len_block, response_label in Hb.
      rewrite len_app, len_gcm_seal, len_be16 in Hb. lia.
  - split; [by apply sane_with|]. split; [|right; cbn; split; [done|rewrite Ha, len_app; pose proof (len_nonneg bs); lia]].
    apply broken; [apply prefix_nil|by right|]. intros Hg. by apply Hres, S5.
Qed.

Lemma payload_header_round v got :
  sane v → reading v got → state (vreader v) = RespHeaderPayload → read_eof (vreader v) = false → fatal (vreader v) = None →
  ∀ room, round_ok room v got
    (header_round (resp_payload_len (vreader v) + 16)
       (λ buf, _ ← verify_resp_header_payload buf (resp_auth v) (resp_key v) (resp_iv v); Ok (with_resp ChunkLen [] (resp_payload_len (vreader v)) (vreader v))) v).
Proof.
  intros Hs Hr Hst Heof Hfat room. destruct Hr as [|_ _ _ -> Hpl Hlen Hpart Hcount Harr| | | |[?|[]]]; try congruence. pose proof Hs as [S1 S2 S3 S4 S5].
  unfold header_round. rewrite Hpl. destruct (poll_fill_inner (len payload + 16) (resp_buf (vreader v)) (inner v)) as [[pr buf] i] eqn:E.
  apply poll_fill_ok in E as (bs & -> & Ha & Hl & _ & _ & Hsteady & Hres); [|lia].
  assert (goes_on → steady (incoming i)) as Hi by auto. rewrite Ha, <- app_assoc, app_assoc in Harr.
  destruct pr as [|[[]|er| |]]; try done.
  - split; [by apply sane_with|]. apply in_payload; done.
  - assert (len (response_payload_block key iv payload) = len payload + 16) as Hb16.
    { unfold response_payload_block, response_label. by rewrite len_gcm_seal. }
    apply app_cut in Harr as [Hb Hrest]; [|congruence].
    rewrite Hb, S2, S3, S4, response_payload_reads by done. orun. split; [by apply sane_with|]. split.
    + apply (at_chunk _ _ [] ps); try done; cbn; by rewrite Hpart.
    + left. cbn. rewrite Ha, len_app. apply (f_equal len) in Hb. rewrite len_app in Hb. lia.
  - split; [by apply sane_with|]. split; [|right; cbn; split; [done|rewrite Ha, len_app; pose proof (len_nonneg bs); lia]].
    apply broken; [apply prefix_nil|by right|]. intros Hg. by apply Hres, S5.
Qed.

Lemma concat_snoc (a : list bytes) p : concat (a ++ [p]) = concat a ++ p.
Proof. by rewrite concat_app, concat_cons, app_nil_r. Qed.

Lemma length_round_ok room v got :
  sane v → reading v got → state (vreader v) = ChunkLen → read_eof (vreader v) = false → fatal (vreader v) = None →
  round_ok room v got (length_round v).
Proof.
  intros Hs Hr Hst Heof Hfat. pose proof (got_prefix _ _ Hr) as Hpre.
  destruct Hr as [| |done_ todo _ _ _ Hsplit -> Hpart Hcount Harr| | |[?|[]]]; try congruence. pose proof Hs as [S1 S2 S3 S4 S5].
  unfold length_round. destruct (poll_fill_inner 2 (len_part (vreader v)) (inner v)) as [[pr buf] i] eqn:E.
  apply poll_fill_ok in E as (bs & -> & Ha & Hl & _ & _ & Hsteady & Hres); [|lia].
  assert (goes_on → steady (incoming i)) as Hi by auto. rewrite Ha, <- app_assoc, app_assoc in Harr.
  destruct pr as [|[[]|er| |]]; try done.
  - split; [by apply sane_with|]. by apply (at_chunk _ _ done_ todo).
  - destruct todo as [|p todo]; cbn [chunk_frames app] in Harr.
    + rewrite app_nil_r in Hsplit. subst done_. destruct e as [|tail] eqn:Hend; cbn [ending_bytes app] in Harr.
      { apply (f_equal len) in Harr. rewrite len_app, Hres in Harr. pose proof (len_nonneg (arriving i ++ more)). change (len []) with 0 in Harr. lia. }
      change (0 :: 0 :: tail) with ([0; 0] ++ tail) in Harr. apply app_cut in Harr as [-> _]; [|done]. cbn iota beta.
      change (of_be [0; 0] =? 0) with true. cbn iota. split; [by apply sane_with|]. rewrite app_nil_r. split; [|done].
      apply finished; [by left|done|intros _; split_and!; [done|done|by rewrite Hend]].
    + unfold chunk_frame in Harr. rewrite <- !app_assoc in Harr. rewrite (app_assoc (len_part _)) in Harr.
      apply app_cut in Harr as [Hb Hrest]; [|by rewrite len_be16]. rewrite Hb.
      assert (chunk_fits cipher p) as Hfit by (rewrite Hsplit, Forall_app, Forall_cons in Hps; naive_solver). unfold chunk_fits in Hfit.
      rewrite of_be_be16 by (rewrite len_seal_chunk; unfold u16; lia). rewrite len_seal_chunk.
      destruct (Z.eqb_spec (len p + overhead cipher) 0); [lia|]. split; [by apply sane_with|]. split.
      * apply (in_chunk _ _ done_ p todo); try done; cbn; change (len []) with 0; lia.
      * left. cbn. rewrite Ha, len_app. rewrite len_app in Hres. lia.
  - split; [by apply sane_with|]. rewrite app_nil_r. split; [|done]. apply broken; [done|by left|]. intros Hg. by apply Hres, S5.
Qed.

Lemma payload_round_ok room v got :
  sane v → reading v got → state (vreader v) = ChunkPayload → read_eof (vreader v) = false → fatal (vreader v) = None →
  round_ok room v got (payload_round v).
Proof.
  intros Hs Hr Hst Heof Hfat. pose proof (got_prefix _ _ Hr) as Hpre.
  destruct Hr as [| | |done_ p todo _ _ _ Hsplit -> Hpart Hcount Hcl Hlen Harr| |[?|[]]]; try congruence. pose proof Hs as [S1 S2 S3 S4 S5].
  unfold payload_round. destruct (poll_fill_inner _ (chunk (vreader v)) (inner v)) as [[pr buf] i] eqn:E.
  apply poll_fill_ok in E as (bs & -> & Ha & Hl & _ & _ & Hsteady & Hres); [|lia].
  assert (goes_on → steady (incoming i)) as Hi by auto. rewrite Ha, <- app_assoc, app_assoc in Harr.
  destruct pr as [|[[]|er| |]]; try done.
  - split; [by apply sane_with|]. by apply (in_chunk _ _ done_ p todo).
  - apply app_cut in Harr as [Hb Hrest]; [|rewrite len_seal_chunk; lia].
    rewrite Hb, S1, Hcount, decrypt_seal. split; [by apply sane_with|].
    assert (ps = (done_ ++ [p]) ++ todo) as Hsplit' by (by rewrite <- app_assoc).
    assert ((Z.of_nat (length done_) mod 65536 + 1) mod 65536 = Z.of_nat (length (done_ ++ [p])) mod 65536) as Hnext.
    { rewrite length_app. cbn [length]. rewrite Z.add_mod_idemp_l by lia. f_equal. lia. }
    rewrite Hnext. assert (S (length done_) = length (done_ ++ [p])) as Hsucc by (rewrite length_app; cbn; lia). rewrite Hsucc in Hrest.
    split.
    + case_bool_decide as Hp.
      * apply (at_chunk _ _ (done_ ++ [p]) todo); try done; cbn; [by rewrite concat_snoc, Hp, app_nil_r|by rewrite Hpart|by rewrite Hpart].
      * apply (handing _ _ (done_ ++ [p]) todo); try done; cbn; [|by rewrite concat_snoc].
        destruct p; [done|]. unfold len. cbn [length]. lia.
    + left. cbn. rewrite Ha, len_app. rewrite len_app in Hres. lia.
  - split; [by apply sane_with|]. rewrite app_nil_r. split; [|done]. apply broken; [done|by left|]. intros Hg. by apply Hres, S5.
Qed.

Lemma range_drop_split (bs : bytes) a b : 0 <= a <= b → range bs a b ++ drop (Z.to_nat b) bs = drop (Z.to_nat a) bs.
Proof.
  intros Hab. unfold range. replace (Z.to_nat b) with (Z.to_nat a + Z.to_nat (b - a))%nat by lia. rewrite <- drop_drop. apply take_drop.
Qed.

Lemma deliver_round_ok room v got :
  0 < room → sane v → reading v got → state (vreader v) = Plain → read_eof (vreader v) = false → fatal (vreader v) = None →
  round_ok room v got (deliver room v).
Proof.
  intros Hroom Hs Hr Hst Heof Hfat.
  destruct Hr as [| | | |done_ todo _ _ _ Hsplit Hpos Hout Hpart Hcount Harr|[?|[]]]; try congruence. pose proof Hs as [S1 S2 S3 S4 S5].
  unfold deliver, round_ok. set (n := Z.min room _). assert (0 < n <= len (chunk (vreader v)) - plain_pos (vreader v)) as Hn by lia.
  assert ((got ++ range (chunk (vreader v)) (plain_pos (vreader v)) (plain_pos (vreader v) + n))
    ++ drop (Z.to_nat (plain_pos (vreader v) + n)) (chunk (vreader v)) = concat done_) as Hgot
    by (by rewrite <- app_assoc, range_drop_split by lia).
  split; [by split|]. split.
  - destruct (Z.eqb_spec (plain_pos (vreader v) + n) (len (chunk (vreader v)))) as [Hend|Hend].
    + rewrite drop_ge, app_nil_r in Hgot by (unfold len in *; lia). apply (at_chunk _ _ done_ todo); try done; cbn; by rewrite Hpart.
    + apply (handing _ _ done_ todo); try done. cbn. lia.
  - intros Hnil. exfalso. apply (f_equal length) in Hnil. unfold range in Hnil. rewrite length_take, length_drop in Hnil.
    unfold len in *. cbn in Hnil. lia.
Qed.

Lemma read_round_ok room v got : 0 <= room → sane v → reading v got → round_ok room v got (read_round room v).
Proof.
  intros Hroom Hs Hr. unfold read_round. destruct (Z.eqb_spec room 0) as [->|Hroom'].
  { cbn. rewrite app_nil_r. split_and!; try done. }
  destruct (read_eof (vreader v)) eqn:Heof; cbn [orb].
  { cbn. rewrite app_nil_r. by split_and!. }
  destruct (fatal (vreader v)) as [er|] eqn:Hfat.
  - assert (reading v got) as Hr' by done. destruct Hr as [| | | | |_ Hpre Hgo]; try congruence. cbn.
    assert (¬ goes_on) as Hno by (intros Hg; destruct (Hgo Hg) as [? _]; congruence). split; [by split; destruct Hs|].
    split; [|done]. apply finished; [by left|done|done].
  - destruct (state (vreader v)) eqn:Hst; [by apply length_header_round|by apply payload_header_round|by apply length_round_ok
      |by apply payload_round_ok|apply deliver_round_ok; try done; lia].
Qed.

Lemma read_round_fatal room v : is_Some (fatal (vreader v)) → ∃ a v', read_round room v = (Some a, v').
Proof. intros [er E]. unfold read_round. rewrite E. destruct (_ || _); by eexists _, _. Qed.

(** An answer to the caller. *)
Definition answer_ok (room : Z) (got : bytes) (res : poll bytes * VMessStream) : Prop :=
  match res with
  | (Pending, v') => sane v' ∧ reading v' got
  | (Ready (Ok bs), v') => sane v' ∧ reading v' (got ++ bs) ∧ (bs = [] → 0 < room → read_eof (vreader v') = true)
  | (Ready (Err _), v') => sane v' ∧ reading v' got ∧ ¬ goes_on
  | _ => False
  end.

Lemma rounds_ok room got fuel : ∀ v,
  0 <= room → (Z.to_nat (len (arriving (inner v))) + 2 <= fuel)%nat → sane v → reading v got → answer_ok room got (read_loop fuel room v).
Proof.
  induction fuel as [|fuel IH]; intros v Hroom Hfuel Hs Hr; [lia|]. cbn [read_loop].
  pose proof (read_round_ok room v got Hroom Hs Hr) as Hok. destruct (read_round room v) as [[a|] v1] eqn:E; cbn in Hok.
  - by destruct a as [|[| | |]].
  - destruct Hok as (Hs1 & Hr1 & [Hless|[Hf _]]); [apply IH; try done; pose proof (len_nonneg (arriving (inner v1))); lia|].
    destruct fuel as [|fuel]; [lia|]. cbn [read_loop]. destruct (read_round_fatal room v1 Hf) as (a & v2 & E2).
    pose proof (read_round_ok room v1 got Hroom Hs1 Hr1) as Hok. rewrite E2 in Hok |- *. by destruct a as [|[| | |]].
Qed.

Lemma poll_read_ok room v got : 0 <= room → sane v → reading v got → answer_ok room got (poll_read room v).
Proof. intros Hroom Hs Hr. apply rounds_ok; try done. lia. Qed.

(** Everything arrived and nothing is left to hand over. *)
Lemma reading_complete v got :
  reading v got → goes_on → more = [] → arriving (inner v) = [] → state (vreader v) ≠ Plain → got = concat ps.
Proof.
  intros Hr Hg Hmore Harrived Hplain.
  destruct Hr as [_ _ _ -> Hlen _ _ Harr|_ _ _ -> _ Hlen _ _ Harr|done_ todo _ _ _ Hsplit -> Hlen _ Harr|done_ p todo _ _ _ _ _ _ _ Hcl Hlen Harr| |_ _ Hgo];
    [| | | |done|by destruct (Hgo Hg) as (_ & ? & _)]; rewrite Harrived, Hmore in Harr; cbn [app] in Harr.
  - exfalso. apply (f_equal len) in Harr. unfold stream_bytes, response_len_block, response_label in Harr. rewrite !len_app, len_gcm_seal, len_be16 in Harr.
    change (len []) with 0 in Harr. pose proof (len_nonneg (response_payload_block key iv payload)).
    pose proof (len_nonneg (chunk_frames cipher 0 ps)). pose proof (len_nonneg (ending_bytes e)). lia.
  - exfalso. apply (f_equal len) in Harr. unfold response_payload_block, response_label in Harr. rewrite !len_app, len_gcm_seal in Harr.
    change (len []) with 0 in Harr. pose proof (len_nonneg (chunk_frames cipher 0 ps)). pose proof (len_nonneg (ending_bytes e)). lia.
  - destruct todo as [|p todo]; [by rewrite app_nil_r in Hsplit; subst|]. exfalso. apply (f_equal len) in Harr. cbn [chunk_frames] in Harr.
    unfold chunk_frame in Harr. rewrite !len_app, len_be16 in Harr. change (len []) with 0 in Harr.
    pose proof (len_nonneg (seal_chunk cipher (Z.of_nat (length done_) mod 65536) p)). pose proof (len_nonneg (chunk_frames cipher (S (length done_)) todo)).
    pose proof (len_nonneg (ending_bytes e)). lia.
  - exfalso. apply (f_equal len) in Harr. rewrite !len_app, len_seal_chunk in Harr. change (len []) with 0 in Harr.
    pose proof (len_nonneg (chunk_frames cipher (S (length done_)) todo)). pose proof (len_nonneg (ending_bytes e)). lia.
Qed.

Lemma reading_eof v got : reading v got → read_eof (vreader v) = true → goes_on → got = concat ps ∧ e ≠ Open.
Proof. intros [| | | | |_ _ Hgo] Heof Hg; try congruence. by destruct (Hgo Hg) as (_ & ? & ?). Qed.

(** ** Runs of reads *)
(** What the answers say of a connection. *)
Definition answer_fine (r : poll bytes) : Prop :=
  match r with Pending | Ready (Ok _) => True | Ready (Err _) => ¬ goes_on | _ => False end.

Definition end_seen (rooms : list Z) (rs : list (poll bytes)) : Prop :=
  Exists (λ '(room, r), 0 < room ∧ r = Ready (Ok [])) (zip rooms rs).

Lemma poll_read_eof room v : read_eof (vreader v) = true → poll_read room v = (Ready (Ok []), v).
Proof. intros E. unfold poll_read. rewrite Nat.add_comm. cbn [read_loop Nat.add]. unfold read_round. by rewrite E, orb_true_r. Qed.

Lemma polls_eof rooms v rs v' : polls poll_read rooms v = (rs, v') → read_eof (vreader v) = true → read_eof (vreader v') = true.
Proof.
  revert rs. induction rooms as [|room rooms IH]; intros rs; cbn [polls]; [by intros [= <- <-]|]. intros E Heof.
  rewrite poll_read_eof in E by done. destruct (polls poll_read rooms v) as [rs1 v1]. injection E as <- <-. by eapply IH.
Qed.

Lemma polls_reading rooms : ∀ v got rs v',
  Forall (Z.le 0) rooms → sane v → reading v got → polls poll_read rooms v = (rs, v') →
  Forall answer_fine rs ∧ sane v' ∧ reading v' (got ++ delivered rs) ∧ (end_seen rooms rs → read_eof (vreader v') = true).
Proof.
  induction rooms as [|room rooms IH]; intros v got rs v' Hrooms Hs Hr; cbn [polls].
  { intros [= <- <-]. unfold end_seen. cbn. rewrite app_nil_r. split_and!; try done. by intros ?%Exists_nil. }
  apply Forall_cons in Hrooms as [Hroom Hrooms]. pose proof (poll_read_ok room v got Hroom Hs Hr) as Hok.
  destruct (poll_read room v) as [r v1]. destruct (polls poll_read rooms v1) as [rs1 v2] eqn:E. intros [= <- <-].
  assert (answer_fine r ∧ sane v1 ∧ reading v1 (got ++ delivered [r]) ∧ (0 < room ∧ r = Ready (Ok []) → read_eof (vreader v1) = true))
    as (Hfine & Hs1 & Hr1 & Heof).
  { destruct r as [|[bs|er| |]]; cbn in Hok |- *; rewrite ?app_nil_r; try done.
    - destruct Hok as (? & ?). split_and!; try done. by intros [_ ?].
    - destruct Hok as (? & ? & Hend). split_and!; try done. intros [? [= ->]]. by apply Hend.
    - destruct Hok as (? & ? & ?). split_and!; try done. by intros [_ ?]. }
  destruct (IH _ _ _ _ Hrooms Hs1 Hr1 E) as (Hfines & Hs2 & Hr2 & Heofs). split_and!; try done; [by constructor| |].
  - change (r :: rs1) with ([r] ++ rs1). unfold delivered in *. by rewrite flat_map_app, app_assoc.
  - unfold end_seen. cbn [zip zip_with]. rewrite Exists_cons. intros [Hnow|Hlater]; [|by apply Heofs]. by eapply polls_eof, Heof.
Qed.
End reading.

(** C19. A VMess stream reads what the server wrote. Let the server send a response
    header that carries the authentication byte, then any chunks sealed with the
    client's response keys under the running counter, wrapped at 65536, then the mark of
    the end or nothing; let the connection deliver any prefix of it, cut, delayed and
    broken off anywhere. Then no run of reads panics or runs for ever, and what the
    reads hand over is a prefix of the plaintexts in order. If the connection neither
    fails nor ends, no read fails; a read that is given room and returns nothing means
    that the server marked the end and every byte was handed over; and when everything
    sent has arrived and no chunk is half delivered, every byte was handed over. *)
Theorem vmess_read_spec `{L : CryptoLaws} security req_key req_iv key iv auth payload ps e more raw rooms rs v :
  let cipher := chunk_cipher_new security key iv in
  len payload <= 256 → head payload = Some auth → Forall (chunk_fits cipher) ps →
  arriving raw ++ more = stream_bytes cipher key iv payload ps e → Forall (Z.le 0) rooms →
  polls poll_read rooms (VMessStream_new raw req_key req_iv key iv auth security) = (rs, v) →
  Forall (λ r, r ≠ Ready Panic ∧ r ≠ Ready Diverge) rs ∧ delivered rs `prefix_of` concat ps ∧
  (steady (incoming raw) →
     Forall (λ r, ∀ er, r ≠ Ready (Err er)) rs ∧
     (end_seen rooms rs → delivered rs = concat ps ∧ e ≠ Open) ∧
     (more = [] → arriving (inner v) = [] → state (vreader v) ≠ Plain → delivered rs = concat ps)).
Proof.
  intros cipher Hpayload Hauth Hps Harr Hrooms E.
  destruct (polls_reading cipher key iv payload auth ps e more (steady (incoming raw)) Hpayload Hauth Hps rooms
    (VMessStream_new raw req_key req_iv key iv auth security) [] rs v Hrooms)
    as (Hfine & Hs & Hr & Hend); [| |exact E|].
  - by split.
  - by apply in_length.
  - cbn [app] in Hr. split_and!.
    + apply (Forall_impl _ _ _ Hfine). intros [|[| | |]]; done.
    + by eapply got_prefix.
    + intros Hsteady. split_and!.
      * apply (Forall_impl _ _ _ Hfine). intros [|[| | |]]; done.
      * intros Hseen. by eapply reading_eof; [exact Hr|apply Hend|].
      * intros. by eapply reading_complete.
Qed.

(** Two chunks and the end, cut inside the response header and inside a chunk. *)
Lemma vmess_read_spec_witness :
  let cipher := chunk_cipher_new Aes128Gcm (replicate 16 1) (replicate 16 2) in
  let stream := stream_bytes cipher (replicate 16 1) (replicate 16 2) [7; 0; 0; 0] [[1; 2; 3]; [4; 5]] (Ended []) in
  let raw := {| incoming := [Chunk (take 10 stream); ReadPending; Chunk (take 50 (drop 10 stream)); Chunk (drop 60 stream)];
                answers := []; sent := [] |} in
  delivered (polls poll_read [9; 9; 2; 9; 9; 9] (VMessStream_new raw [] [] (replicate 16 1) (replicate 16 2) 7 Aes128Gcm)).1 = [1; 2; 3; 4; 5].
Proof.
  intros cipher stream raw.
  assert ((polls poll_read [9; 9; 2; 9; 9; 9] (VMessStream_new raw [] [] (replicate 16 1) (replicate 16 2) 7 Aes128Gcm)).1
    = [Pending; Ready (Ok [1; 2; 3]); Ready (Ok [4; 5]); Ready (Ok []); Ready (Ok []); Ready (Ok [])]) as Hrs by (by vm_compute).
  destruct (polls _ _ _) as [rs v] eqn:E. cbn [fst] in Hrs |- *.
  edestruct (vmess_read_spec Aes128Gcm [] [] (replicate 16 1) (replicate 16 2) 7 [7; 0; 0; 0] [[1; 2; 3]; [4; 5]] (Ended []) []
    raw [9; 9; 2; 9; 9; 9] rs v) as (_ & _ & Hsteady).
  - by vm_compute.
  - done.
  - repeat constructor; by vm_compute.
  - by vm_compute.
  - repeat constructor; lia.
  - exact E.
  - destruct Hsteady as (_ & Hend & _); [repeat constructor|]. apply Hend. rewrite Hrs.
    unfold end_seen. cbn [zip zip_with]. do 3 apply Exists_cons_tl. apply Exists_cons_hd. split; [reflexivity|reflexivity].
Defined.
