(* ===== verification/VmessWriteSpec.v ===== *)
(** * VMess: what the writes put on the wire *)
From Stdlib Require Import String.
From S2P Require Import Prelude Bytes Text NetText AsyncIo Vmess VmessSpec VmessStream VmessReadSpec.

#[local] Open Scope string_scope.
#[local] Open Scope list_scope.
#[local] Open Scope Z_scope.

(** Accepted bytes that are not on the wire yet. *)
Definition unsent (v : VMessStream) : bytes := drop (Z.to_nat (out_pos (vwriter v))) (out (vwriter v)).

(** ** Polls of the other direction *)
(** Reads leave the write side alone. *)
Record keeps_writer (v v' : VMessStream) : Prop := {
  kw_writer : vwriter v' = vwriter v;
  kw_cipher : write_cipher v' = write_cipher v;
  kw_max : max_chunk v' = max_chunk v;
  kw_sent : sent (inner v') = sent (inner v);
}.

#[export] Instance keeps_preorder : PreOrder keeps_writer.
Proof. split; [by intros v; split|]. intros u v w [] []. split; congruence. Qed.

Lemma poll_fill_sent want buf r p buf' r' : poll_fill_inner want buf r = (p, buf', r') → sent r' = sent r.
Proof.
  unfold poll_fill_inner. destruct (fill want buf r) as [[pr b] i] eqn:E. apply fill_sent in E.
  by destruct pr as [|[[]| | |]]; intros [= <- <- <-].
Qed.

Section writes.
Context {C : Crypto}.

Lemma header_round_keeps want verify v : keeps_writer v (header_round want verify v).2.
Proof.
  unfold header_round. destruct (poll_fill_inner _ _ _) as [[p buf] i] eqn:E. apply poll_fill_sent in E.
  destruct p as [|[?| | |]]; cbn; try by split. by destruct (verify buf).
Qed.

Lemma length_round_keeps v : keeps_writer v (length_round v).2.
Proof.
  unfold length_round. destruct (poll_fill_inner _ _ _) as [[p buf] i] eqn:E. apply poll_fill_sent in E.
  destruct p as [|[?| | |]]; cbn; try by split. by destruct (of_be buf =? 0).
Qed.

Lemma payload_round_keeps v : keeps_writer v (payload_round v).2.
Proof.
  unfold payload_round. destruct (poll_fill_inner _ _ _) as [[p buf] i] eqn:E. apply poll_fill_sent in E.
  destruct p as [|[?| | |]]; cbn; try by split. by destruct (decrypt_in_place _ _ _).
Qed.

Lemma read_round_keeps room v : keeps_writer v (read_round room v).2.
Proof.
  unfold read_round. destruct (_ || _); [done|]. destruct (fatal _); [by split|].
  destruct (state _); [apply header_round_keeps|apply header_round_keeps|apply length_round_keeps|apply payload_round_keeps|by split].
Qed.

Lemma poll_read_writer room v : keeps_writer v (poll_read room v).2.
Proof.
  unfold poll_read. generalize (Z.to_nat (len (arriving (inner v))) + 3)%nat as fuel. intros fuel. revert v.
  induction fuel as [|fuel IH]; intros v; cbn [read_loop]; [done|]. pose proof (read_round_keeps room v) as Hk.
  destruct (read_round room v) as [[a|] v1]; [done|]. by etransitivity; [|apply IH].
Qed.

(** ** A caller *)
(** The caller of the write side: a write that is pending is polled again with its
    bytes; the pieces are what the writes accepted. *)
Record Caller := { pend : option bytes; pieces : list bytes; stream : VMessStream }.
Inductive stream_op := Write (buf : bytes) | Flush | Shutdown | Read (room : Z).

Definition caller (p : option bytes) (done_ : list bytes) (v : VMessStream) : Caller := {| pend := p; pieces := done_; stream := v |}.

(** A caller goes on behind the bytes that were accepted; it cannot with more of them
    than it gave. *)
Definition perform (op : stream_op) (c : Caller) : outcome unit * Caller :=
  match op with
  | Write buf =>
      let b := default buf (pend c) in
      match poll_write b (stream c) with
      | (Pending, v) => (Ok tt, caller (Some b) (pieces c) v)
      | (Ready (Ok n), v) =>
          match sub b 0 n with
          | Ok piece => (Ok tt, caller None (if n =? 0 then pieces c else pieces c ++ [piece]) v)
          | _ => (Panic, caller None (pieces c) v)
          end
      | (Ready (Err e), v) => (Err e, caller (pend c) (pieces c) v)
      | (Ready Panic, v) => (Panic, caller None (pieces c) v)
      | (Ready Diverge, v) => (Diverge, caller None (pieces c) v)
      end
  | Flush | Shutdown =>
      match (match op with Flush => poll_flush | _ => poll_shutdown end) (stream c) with
      | (Pending, v) => (Ok tt, caller (pend c) (pieces c) v)
      | (Ready o, v) => (o, caller (pend c) (pieces c) v)
      end
  | Read room => (Ok tt, caller (pend c) (pieces c) (poll_read room (stream c)).2)
  end.

(** The caller stops at the first failure of a write, flush or shutdown. *)
Fixpoint run (ops : list stream_op) (c : Caller) : outcome unit * Caller :=
  match ops with
  | [] => (Ok tt, c)
  | op :: ops => match perform op c with (Ok _, c) => run ops c | r => r end
  end.

(** The piece of a write that is under way. *)
Definition started (M : Z) (p : option bytes) : list bytes :=
  match p with Some b => [take (Z.to_nat (Z.min (len b) M)) b] | None => [] end.

(** ** Draining *)
Lemma flush_loop_ok fuel : ∀ v p v',
  0 <= out_pos (vwriter v) <= len (out (vwriter v)) → (length (answers (inner v)) < fuel)%nat → flush_loop fuel v = (p, v') →
  ∃ i o pos, v' = with_inner i (with_vwriter (with_out o pos (vwriter v)) v) ∧ 0 <= pos <= len o ∧
    match p with
    | Pending => sent i ++ unsent v' = sent (inner v) ++ unsent v ∧ (o = out (vwriter v) ∨ o = [])
    | Ready (Ok _) => sent i = sent (inner v) ++ unsent v ∧ o = []
    | Ready (Err _) => ∃ lost, sent i ++ lost = sent (inner v) ++ unsent v
    | _ => False
    end.
Proof.
  induction fuel as [|fuel IH]; intros v p v' Hpos Hfuel; [lia|]. cbn [flush_loop].
  destruct (Z.ltb_spec (out_pos (vwriter v)) (len (out (vwriter v)))) as [Hlt|Hge].
  - destruct (raw_write _ (inner v)) as [pr i] eqn:E. pose proof (raw_write_sent _ _ _ _ E) as (_ & Hw).
    assert (range (out (vwriter v)) (out_pos (vwriter v)) (len (out (vwriter v))) = unsent v) as Hr.
    { unfold range, unsent. apply take_ge. rewrite length_drop. unfold len. lia. }
    rewrite Hr in Hw. destruct pr as [|[n|er| |]]; try done.
    + intros [= <- <-]. exists i, (out (vwriter v)), (out_pos (vwriter v)). destruct v as [? ? ? ? ? ? ? ? []]. cbn in *. split_and!; try done; try lia; try (by left).
      by rewrite Hw.
    + destruct Hw as (Hn & Hsent & Hans). destruct (Z.eqb_spec n 0) as [->|Hn0].
      { intros [= <- <-]. eexists i, [], 0. split_and!; try done. exists (unsent v). by rewrite Hsent, Z2Nat.inj_0, take_0, app_nil_r. }
      intros Hrec. apply IH in Hrec as (i' & o & pos & -> & Hpos' & Hres); [| |cbn; lia].
      * exists i', o, pos. split; [done|]. split; [done|].
        assert (sent i ++ drop (Z.to_nat (out_pos (vwriter v) + n)) (out (vwriter v)) = sent (inner v) ++ unsent v) as Hmove.
        { rewrite Hsent, <- app_assoc. f_equal. unfold unsent. rewrite Z2Nat.inj_add, <- drop_drop by lia. apply take_drop. }
        cbn in Hres |- *. unfold unsent in *. cbn in *. rewrite Hmove in Hres. done.
      * cbn. unfold unsent in Hn. unfold len in *. rewrite length_drop in Hn. lia.
    + intros [= <- <-]. eexists i, [], 0. split_and!; try done. exists (unsent v). by rewrite Hw.
  - destruct (raw_flush (inner v)) as [pr i] eqn:E. pose proof (raw_flush_sent _ _ _ E) as (_ & Hs & Hw). intros [= <- <-].
    exists i, [], 0. assert (unsent v = []) as Hun by (unfold unsent; apply drop_ge; unfold len in *; lia).
    split_and!; try done. rewrite Hs, Hun. destruct pr as [|[[]|er| |]]; try done; cbn; rewrite !app_nil_r.
    + split; [done|by right].
    + done.
    + exists []. by rewrite app_nil_r.
Qed.

Lemma poll_flush_out_ok v p v' :
  0 <= out_pos (vwriter v) <= len (out (vwriter v)) → poll_flush_out v = (p, v') →
  ∃ i o pos, v' = with_inner i (with_vwriter (with_out o pos (vwriter v)) v) ∧ 0 <= pos <= len o ∧
    match p with
    | Pending => sent i ++ unsent v' = sent (inner v) ++ unsent v ∧ (o = out (vwriter v) ∨ o = [])
    | Ready (Ok _) => sent i = sent (inner v) ++ unsent v ∧ o = []
    | Ready (Err _) => ∃ lost, sent i ++ lost = sent (inner v) ++ unsent v
    | _ => False
    end.
Proof. intros Hpos. apply flush_loop_ok; [done|lia]. Qed.
End writes.

(** ** Where the writes stand *)
Section writing.
Context {C : Crypto} {L : CryptoLaws C} (cipher : VMessChunkCipher) (M : Z) (W0 : bytes).
Context (HM : 0 < M) (Hfits : M + overhead cipher < 65536).

Definition piece_ok (p : bytes) : Prop := 0 < len p <= M.

Record writing (c : Caller) : Prop := {
  w_cipher : write_cipher (stream c) = cipher;
  w_max : max_chunk (stream c) = M;
  w_count : write_count (vwriter (stream c)) = Z.of_nat (length (pieces c)) mod 65536;
  w_pos : 0 <= out_pos (vwriter (stream c)) <= len (out (vwriter (stream c)));
  w_flight : write_in_flight (vwriter (stream c)) = (λ b, Z.min (len b) M) <$> pend c;
  w_idle : pend c = None → out (vwriter (stream c)) = [];
  w_pend : ∀ b, pend c = Some b → b ≠ [];
  w_pieces : Forall piece_ok (pieces c);
  w_wire : sent (inner (stream c)) ++ unsent (stream c) = W0 ++ chunk_frames cipher 0 (pieces c ++ started M (pend c));
}.

(** After a failure what was sent is cut off. *)
Definition spoilt (c : Caller) : Prop :=
  Forall piece_ok (pieces c) ∧
  ∃ last lost, (length last <= 1)%nat ∧ sent (inner (stream c)) ++ lost = W0 ++ chunk_frames cipher 0 (pieces c ++ last).

Lemma writing_spoilt c : writing c → spoilt c.
Proof. intros [? ? ? ? ? ? ? ? ?]. split; [done|]. eexists (started M (pend c)), _. split; [destruct (pend c); cbn; lia|done]. Qed.

Lemma len_pos_nonempty (b : bytes) : b ≠ [] → 0 < len b.
Proof. destruct b; [done|]. unfold len. cbn [length]. lia. Qed.

Lemma started_ok b : b ≠ [] → piece_ok (take (Z.to_nat (Z.min (len b) M)) b).
Proof. intros Hb%len_pos_nonempty. unfold piece_ok, len in *. rewrite length_take. lia. Qed.

Lemma chunk_frames_snoc i ps p : chunk_frames cipher i (ps ++ [p]) = chunk_frames cipher i ps ++ chunk_frame cipher (i + length ps) p.
Proof.
  revert i. induction ps as [|q ps IH]; intros i; cbn [chunk_frames app length]; [by rewrite app_nil_r, Nat.add_0_r|].
  by rewrite IH, <- app_assoc, Nat.add_succ_r.
Qed.

Lemma flush_ok p ps v :
  writing (caller p ps v) →
  match poll_flush_out v with
  | (Pending, v') => writing (caller p ps v')
  | (Ready (Ok _), v') => writing (caller p ps v') ∧ out (vwriter v') = []
  | (Ready (Err _), v') => ∀ w, spoilt (caller p ps (with_vwriter w v'))
  | _ => False
  end.
Proof.
  intros Hw. pose proof Hw as [H1 H2 H3 H4 H5 H6 H7 H8 H9]. cbn [stream pend pieces caller] in *.
  destruct (poll_flush_out v) as [r v'] eqn:E. apply poll_flush_out_ok in E as (i & o & pos & -> & Hpos & Hr); [|done].
  destruct r as [|[[]|er| |]]; try done.
  - destruct Hr as [Hs Ho]. split; try done; cbn; [|by rewrite <- H9, <- Hs].
    intros Hp. destruct Ho as [->| ->]; [by apply H6|done].
  - destruct Hr as [Hs ->]. split; [|done]. split; try done. cbn. rewrite <- H9, <- Hs. unfold unsent. cbn. by rewrite drop_nil, app_nil_r.
  - destruct Hr as [lost Hl]. intros w. split; [done|]. eexists (started M p), lost. split; [destruct p; cbn; lia|]. cbn. by rewrite <- H9, <- Hl.
Qed.

Lemma put_chunk_ok b ps v : b ≠ [] → writing (caller None ps v) → writing (caller (Some b) ps (put_chunk b v)).
Proof.
  intros Hb [H1 H2 H3 H4 H5 H6 H7 H8 H9]. cbn [stream pend pieces caller started fmap option_fmap option_map] in *.
  pose proof (started_ok b Hb) as Hp. unfold piece_ok in Hp. specialize (H6 eq_refl). rewrite H6 in H4. change (len []) with 0 in H4.
  unfold put_chunk. rewrite H6, H2, H1, H3, app_nil_l. set (p := take _ b) in *.
  set (frame := be16 _ ++ seal_chunk _ _ p).
  assert (frame = chunk_frame cipher (length ps) p) as Hframe.
  { unfold frame, chunk_frame. rewrite len_seal_chunk. unfold as_u16. rewrite Z.mod_small; [done|].
    assert (0 <= overhead cipher) by (by destruct cipher). lia. }
  clearbody frame.
  split; cbn; try done.
  - pose proof (len_nonneg frame). lia.
  - by intros ? [= <-].
  - unfold unsent. cbn. assert (out_pos (vwriter v) = 0) as -> by lia. fold p. change (drop (Z.to_nat 0) frame) with frame.
    rewrite chunk_frames_snoc, app_assoc. rewrite app_nil_r in H9. unfold unsent in H9. rewrite H6, drop_nil, app_nil_r in H9.
    by rewrite <- H9, Hframe.
Qed.

Lemma landed_ok b ps v :
  writing (caller (Some b) ps v) → out (vwriter v) = [] →
  writing (caller None (ps ++ [take (Z.to_nat (Z.min (len b) M)) b]) (landed (Z.min (len b) M) v).2).
Proof.
  intros [H1 H2 H3 H4 H5 H6 H7 H8 H9] Hout. cbn [stream pend pieces caller started] in *. split; cbn; try done.
  - rewrite H3, length_app. cbn [length]. rewrite Z.add_mod_idemp_l by lia. f_equal. lia.
  - apply Forall_app. split; [done|]. constructor; [|done]. by apply started_ok, H7.
  - by rewrite app_nil_r.
Qed.

(** A write under way is polled again, or a new one is begun. *)
Lemma write_ok buf c : writing c → match perform (Write buf) c with (Ok _, c') => writing c' | (Err _, c') => spoilt c' | _ => False end.
Proof.
  intros Hw. cbn [perform]. unfold poll_write. destruct c as [p ps v]. cbn [pend stream pieces] in *.
  destruct (write_closed (vwriter v)); [by apply writing_spoilt|]. pose proof (w_flight _ Hw) as Hflight. cbn in Hflight.
  assert (∀ b : bytes, b ≠ [] → sub b 0 (Z.min (len b) M) = Ok (take (Z.to_nat (Z.min (len b) M)) b)) as Hsub.
  { intros b Hb%len_pos_nonempty. rewrite sub_in by lia. unfold range. by rewrite drop_0, Z.sub_0_r. }
  assert (∀ b : bytes, b ≠ [] → (Z.min (len b) M =? 0) = false) as Hnz by (intros b Hb%len_pos_nonempty; apply Z.eqb_neq; lia).
  destruct p as [b|]; cbn [default from_option id] in *.
  - pose proof (w_pend _ Hw b eq_refl) as Hb. rewrite bool_decide_eq_true_2 by (rewrite Hflight; by eexists). cbn [orb].
    pose proof (flush_ok _ _ _ Hw) as Hf. destruct (poll_flush_out v) as [[|[[]|er| |]] v1]; try done.
    + destruct Hf as [Hw1 Hout]. pose proof (w_flight _ Hw1) as Hfl. cbn in Hfl. rewrite Hfl. cbn [landed].
      rewrite Hsub, Hnz by done. by apply landed_ok in Hw1.
    + apply Hf.
  - rewrite bool_decide_eq_false_2 by (rewrite Hflight; by intros [? ?]). cbn [orb].
    pose proof (w_pos _ Hw) as Hpos. pose proof (w_idle _ Hw eq_refl) as Hidle. cbn in Hpos, Hidle. rewrite Hidle in Hpos |- *.
    change (len []) with 0 in *. destruct (Z.ltb_spec (out_pos (vwriter v)) 0); [lia|]. unfold new_chunk. case_bool_decide as Hb.
    { subst buf. done. }
    pose proof (put_chunk_ok _ _ _ Hb Hw) as Hw1. pose proof (flush_ok _ _ _ Hw1) as Hf.
    rewrite (w_max _ Hw : max_chunk v = M).
    destruct (poll_flush_out (put_chunk buf v)) as [[|[[]|er| |]] v1]; try done.
    + destruct Hf as [Hw2 Hout]. cbn [landed]. rewrite Hsub, Hnz by done. by apply landed_ok in Hw2.
    + apply (Hf (with_flight None (write_count (vwriter v1)) (vwriter v1))).
Qed.

Lemma perform_writing op c : writing c → match perform op c with (Ok _, c') => writing c' | (Err _, c') => spoilt c' | _ => False end.
Proof.
  intros Hw. destruct op as [buf| | |room]; [by apply write_ok| | |]; destruct c as [p ps v]; cbn [perform stream pend pieces].
  - unfold poll_flush. pose proof (flush_ok _ _ _ Hw) as Hf. destruct (poll_flush_out v) as [[|[[]|er| |]] v1]; try done; [apply Hf|].
    apply (Hf (vwriter v1)).
  - unfold poll_shutdown. pose proof (flush_ok _ _ _ Hw) as Hf. destruct (poll_flush_out v) as [[|[[]|er| |]] v1]; try done; [|apply (Hf (vwriter v1))].
    destruct Hf as [Hw1 _]. destruct (raw_flush (inner v1)) as [r i] eqn:E. apply raw_flush_sent in E as (_ & Hs & Hr).
    assert (writing (caller p ps (with_inner i v1)) ∧ writing (caller p ps (with_inner i (with_vwriter (with_closed (vwriter v1)) v1)))) as [Ha Hb].
    { split; destruct Hw1; split; try done; cbn in *; by rewrite Hs. }
    destruct r as [|[[]|er| |]]; try done. by apply writing_spoilt.
  - pose proof (poll_read_writer room v) as [K1 K2 K3 K4]. destruct Hw as [H1 H2 H3 H4 H5 H6 H7 H8 H9]. cbn [stream pend pieces] in *.
    split; cbn [stream pend pieces caller]; rewrite ?K1, ?K2, ?K3, ?K4; try done. unfold unsent in *. by rewrite K1.
Qed.

Lemma run_writes ops c : writing c → match run ops c with (Ok _, c') => writing c' | (Err _, c') => spoilt c' | _ => False end.
Proof.
  revert c. induction ops as [|op ops IH]; intros c Hw; cbn [run]; [done|]. pose proof (perform_writing op c Hw) as Hp.
  destruct (perform op c) as [[[]|er| |] c1]; try done. by apply IH.
Qed.
End writing.

(** C20. A VMess stream writes chunks a server opens. However writes, flushes, shutdowns
    and reads follow each other and the connection delays, shortens and fails them, no
    poll panics or runs for ever, no write claims more than its buffer, and every piece
    a write accepted is not empty and fits a chunk. As long as no write, flush or
    shutdown failed, what is sent and still buffered is exactly the accepted pieces, in
    order and once, followed by the piece of a write under way, each sealed under its
    number, wrapped at 65536: the chunks [vmess_read_spec] reads. At the first failure
    what was sent is a beginning of such chunks. A flush that succeeds leaves nothing
    buffered. *)
Theorem vmess_write_spec `{L : CryptoLaws} security req_key req_iv key iv auth raw ops r c :
  let cipher := chunk_cipher_new security req_key req_iv in
  run ops (caller None [] (VMessStream_new raw req_key req_iv key iv auth security)) = (r, c) →
  Forall (chunk_fits cipher) (pieces c) ∧
  match r with
  | Ok _ =>
      sent (inner (stream c)) ++ unsent (stream c)
        = sent raw ++ chunk_frames cipher 0 (pieces c ++ started (16384 - overhead cipher) (pend c)) ∧
      ∀ v, poll_flush (stream c) = (Ready (Ok tt), v) → unsent v = []
  | Err _ => ∃ last, (length last <= 1)%nat ∧
      sent (inner (stream c)) `prefix_of` sent raw ++ chunk_frames cipher 0 (pieces c ++ last)
  | _ => False
  end.
Proof.
  intros cipher E. set (M := 16384 - overhead cipher).
  assert (0 < M ∧ 0 <= overhead cipher ∧ M + overhead cipher < 65536) as (HM & Ho & Hfits) by (unfold M; destruct cipher; cbn; lia).
  assert (∀ ps, Forall (piece_ok M) ps → Forall (chunk_fits cipher) ps) as Hpieces.
  { intros ps Hps. apply (Forall_impl _ _ _ Hps). unfold piece_ok, chunk_fits. lia. }
  pose proof (run_writes cipher M (sent raw) HM Hfits ops (caller None [] (VMessStream_new raw req_key req_iv key iv auth security))) as Hrun.
  rewrite E in Hrun. assert (writing cipher M (sent raw) (caller None [] (VMessStream_new raw req_key req_iv key iv auth security))) as Hstart
    by (split; try done; cbn; by rewrite app_nil_r).
  specialize (Hrun Hstart).
  destruct r as [[]|er| |]; try done.
  - split; [apply Hpieces, (w_pieces _ _ _ _ Hrun)|]. split; [apply (w_wire _ _ _ _ Hrun)|]. intros v Hf.
    destruct c as [p ps v0]. pose proof (flush_ok cipher M (sent raw) p ps v0 Hrun) as Hok. unfold poll_flush in Hf. cbn [stream] in Hf.
    rewrite Hf in Hok. destruct Hok as [_ Hout]. unfold unsent. by rewrite Hout, drop_nil.
  - destruct Hrun as (Hp & last & lost & Hl & Hs). split; [by apply Hpieces|]. exists last. split; [done|]. by exists lost.
Qed.

(** A write that drains in two polls, then another one. *)
Lemma vmess_write_spec_witness :
  let raw := {| incoming := []; answers := [Accept 5; WritePending; Accept 99; Accept 0; Accept 99; Accept 0]; sent := [] |} in
  ∃ c, run [Write [1; 2; 3]; Write [1; 2; 3]; Write [4]] (caller None [] (VMessStream_new raw [] [] [] [] 7 Aes128Gcm)) = (Ok tt, c) ∧
    pieces c = [[1; 2; 3]; [4]] ∧ Forall (chunk_fits (ChunkAes [] [])) (pieces c).
Proof.
  intros raw. destruct (run [Write [1; 2; 3]; Write [1; 2; 3]; Write [4]] (caller None [] (VMessStream_new raw [] [] [] [] 7 Aes128Gcm)))
    as [r c] eqn:E.
  assert (r = Ok tt) as -> by (change r with (r, c).1; rewrite <- E; by vm_compute).
  exists c. split; [done|].
  split; [change (pieces c) with (pieces (Ok tt : outcome unit, c).2); rewrite <- E; by vm_compute|].
  apply (vmess_write_spec Aes128Gcm [] [] [] [] 7 raw [Write [1; 2; 3]; Write [1; 2; 3]; Write [4]] (Ok tt) c E).
Defined.
