(* ===== verification/ShadowTls.v ===== *)
(** * ShadowTLS (proxy/shadow_tls.rs)

    A TLS handshake is read through [HandshakeTap], which finds the server's random value
    and the record the server has signed; then [ShadowTlsIo] frames the bare connection
    in records with a rolling tag.  HMAC-SHA1 and SHA-256 of the external crates are the
    class [Macs]; a hasher is its key and the bytes it was fed.  The TLS client between
    the two is the vendored craftls.  An error is its message without the values in it. *)
From Stdlib Require Import String.
From S2P Require Import Prelude Bytes Text AsyncIo.

#[local] Open Scope string_scope.
#[local] Open Scope list_scope.
#[local] Open Scope Z_scope.

Class Macs := {
  hmac_sha1 : bytes → bytes → bytes;
  sha256 : bytes → bytes;
  len_hmac_sha1 k m : len (hmac_sha1 k m) = 20;
  len_sha256 m : len (sha256 m) = 32;
}.

Definition TLS_HANDSHAKE : Z := 22.
Definition TLS_APPLICATION_DATA : Z := 23.
Definition TLS_ALERT : Z := 21.
Definition SERVER_HELLO : Z := 2.
Definition TLS_HEADER_SIZE : Z := 5.
Definition HMAC_SIZE : Z := 4.
Definition TLS_HMAC_HEADER_SIZE : Z := TLS_HEADER_SIZE + HMAC_SIZE.
Definition TLS_RANDOM_SIZE : Z := 32.
Definition MAX_FRAME_PAYLOAD : Z := 65535 - HMAC_SIZE.
Definition SERVER_RANDOM_IDX : Z := TLS_HEADER_SIZE + 1 + 3 + 2.
Definition SUPPORTED_VERSIONS_TYPE : Z := 43.
Definition TLS_13 : Z := 772.
Definition FRAME_VERSION : bytes := [3; 3].

(** [Hmac<Sha1>]: its key and what it was fed. *)
Record HmacSha1 := { mac_key : bytes; mac_data : bytes }.
Definition update (data : bytes) (m : HmacSha1) : HmacSha1 := {| mac_key := mac_key m; mac_data := mac_data m ++ data |}.

Section shadow.
Context {M : Macs}.

Definition hmac_password (password : bytes) (parts : list bytes) : HmacSha1 :=
  foldl (λ m p, update p m) {| mac_key := password; mac_data := [] |} parts.

Definition mac4 (m : HmacSha1) : bytes := range (hmac_sha1 (mac_key m) (mac_data m)) 0 HMAC_SIZE.

Definition kdf (password server_random : bytes) : bytes := sha256 (password ++ server_random).

(** ** The handshake *)
(** The loop over the extensions. *)
Fixpoint extensions (fuel : nat) (record : bytes) (pos stop : Z) : outcome bool :=
  match fuel with
  | O => Diverge
  | S fuel =>
      if pos + 4 <=? stop then
        ext_type ← idx_u16 record pos;
        ext_len ← idx_u16 record (pos + 2);
        let pos := pos + 4 in
        if stop <? pos + ext_len then Ok false
        else if ext_type =? SUPPORTED_VERSIONS_TYPE then
          if ext_len =? 2 then v ← idx_u16 record pos; Ok (v =? TLS_13) else Ok false
        else extensions fuel record (pos + ext_len) stop
      else Ok false
  end.

Definition support_tls13 (record : bytes) : outcome bool :=
  let pos := SERVER_RANDOM_IDX + TLS_RANDOM_SIZE in
  if len record <=? pos then Ok false
  else
    sid_len ← idx record pos;
    let pos := pos + (1 + sid_len + 3) in
    if len record <? pos + 2 then Ok false
    else
      ext_total ← idx_u16 record pos;
      let pos := pos + 2 in
      let stop := Z.min (pos + ext_total) (len record) in
      extensions (S (length record)) record pos stop.

Record HandshakeState := { server_random : bytes; hmac_sr : HmacSha1; key : bytes; tls13 : bool }.

Definition HandshakeState_new (password server_random : bytes) (tls13 : bool) : HandshakeState :=
  {| server_random := server_random; hmac_sr := hmac_password password [server_random]; key := kdf password server_random;
     tls13 := tls13 |}.

(** [hdr] and [body] are the parts assembled so far. *)
Record HandshakeTap := {
  tap_inner : Raw;
  password : bytes;
  pending : bytes;
  pending_pos : Z;
  tap_hdr : bytes;
  tap_body : bytes;
  state : option HandshakeState;
  auth_checked : bool;
  authorized : bool;
}.

Definition HandshakeTap_new (i : Raw) (pw : bytes) : HandshakeTap :=
  {| tap_inner := i; password := pw; pending := []; pending_pos := 0; tap_hdr := []; tap_body := []; state := None;
     auth_checked := false; authorized := false |}.

Definition with_assembly (i : Raw) (h b : bytes) (t : HandshakeTap) : HandshakeTap :=
  {| tap_inner := i; password := password t; pending := pending t; pending_pos := pending_pos t; tap_hdr := h; tap_body := b;
     state := state t; auth_checked := auth_checked t; authorized := authorized t |}.
Definition with_pending (p : bytes) (pos : Z) (t : HandshakeTap) : HandshakeTap :=
  {| tap_inner := tap_inner t; password := password t; pending := p; pending_pos := pos; tap_hdr := tap_hdr t; tap_body := tap_body t;
     state := state t; auth_checked := auth_checked t; authorized := authorized t |}.
Definition with_state (s : option HandshakeState) (checked ok : bool) (t : HandshakeTap) : HandshakeTap :=
  {| tap_inner := tap_inner t; password := password t; pending := pending t; pending_pos := pending_pos t; tap_hdr := tap_hdr t;
     tap_body := tap_body t; state := s; auth_checked := checked; authorized := ok |}.

(** The payload XORed with the key, over and over. *)
Definition xor_cycle (key bs : bytes) : bytes := imap (λ i b, Z.lxor b (nth (i mod length key) key 0)) bs.

(** The signed record: its payload decoded, the signature cut out, the length corrected. *)
Definition unsplice (key record : bytes) : bytes :=
  let payload := xor_cycle key (drop 9 record) in
  take 3 record ++ be16 (as_u16 (len payload)) ++ payload.

(** What a record becomes, and the state, [auth_checked] and [authorized] after it. *)
Definition inspect (password record : bytes) (state : option HandshakeState) (checked authorized : bool)
    : outcome (bytes * (option HandshakeState * bool * bool)) :=
  first ← idx record 0;
  if (first =? TLS_HANDSHAKE) && (SERVER_RANDOM_IDX + TLS_RANDOM_SIZE <? len record) &&
     bool_decide (byte_at record TLS_HEADER_SIZE = Some SERVER_HELLO)
  then
    random ← sub record SERVER_RANDOM_IDX (SERVER_RANDOM_IDX + 32);
    tls13 ← support_tls13 record;
    Ok (record, (Some (HandshakeState_new password random tls13), checked, authorized))
  else
    match state with
    | Some s =>
        if (first =? TLS_APPLICATION_DATA) && negb checked then
          if TLS_HMAC_HEADER_SIZE <? len record then
            tag ← sub record TLS_HEADER_SIZE TLS_HMAC_HEADER_SIZE;
            if bool_decide (mac4 (update (drop 9 record) (hmac_sr s)) = tag)
            then Ok (unsplice (key s) record, (Some s, true, true))
            else Ok (record, (Some s, true, authorized))
          else Ok (record, (Some s, true, authorized))
        else Ok (record, (Some s, checked, authorized))
    | None => Ok (record, (None, checked, authorized))
    end.

Definition process_record (record : bytes) (t : HandshakeTap) : outcome HandshakeTap :=
  '(shown, (s, checked, ok)) ← inspect (password t) record (state t) (auth_checked t) (authorized t);
  Ok (with_pending shown 0 (with_state s checked ok t)).

(** What a round of a reading loop decides: an answer, or to go on. *)
Definition answer : Type := option (poll bytes).

Definition tap_deliver (room : Z) (t : HandshakeTap) : poll bytes * HandshakeTap :=
  let n := Z.min room (len (pending t) - pending_pos t) in
  (Ready (Ok (range (pending t) (pending_pos t) (pending_pos t + n))), with_pending (pending t) (pending_pos t + n) t).

(** A record assembled, inspected and handed out. *)
Definition tap_round (room : Z) (t : HandshakeTap) : answer * HandshakeTap :=
  let body := if bool_decide (tap_hdr t = []) then [] else tap_body t in
  match fill TLS_HEADER_SIZE (tap_hdr t) (tap_inner t) with
  | (Pending, h, i) => (Some Pending, with_assembly i h body t)
  | (Ready (Err e), h, i) => (Some (Ready (Err e)), with_assembly i h body t)
  | (Ready (Ok false), h, i) => (Some (Ready (Ok [])), with_assembly i h body t)
  | (Ready (Ok true), h, i) =>
      let body_len := of_be (range h 3 5) in
      match fill body_len body i with
      | (Pending, b, i) => (Some Pending, with_assembly i h b t)
      | (Ready (Err e), b, i) => (Some (Ready (Err e)), with_assembly i h b t)
      | (Ready (Ok false), b, i) => (Some (Ready (Err "shadow-tls: EOF inside a TLS record")), with_assembly i h b t)
      | (Ready (Ok true), b, i) =>
          match process_record (h ++ b) (with_assembly i [] b t) with
          | Ok t => if pending_pos t <? len (pending t) then let '(p, t) := tap_deliver room t in (Some p, t) else (None, t)
          | Err e => (Some (Ready (Err e)), t)
          | Panic => (Some (Ready Panic), t)
          | Diverge => (Some (Ready Diverge), t)
          end
      | (Ready Panic, _, _) => (Some (Ready Panic), t)
      | (Ready Diverge, _, _) => (Some (Ready Diverge), t)
      end
  | (Ready Panic, _, _) => (Some (Ready Panic), t)
  | (Ready Diverge, _, _) => (Some (Ready Diverge), t)
  end.

(** A record has its header at least, so the first one answers. *)
Fixpoint tap_loop (fuel : nat) (room : Z) (t : HandshakeTap) : poll bytes * HandshakeTap :=
  match fuel with
  | O => (Ready Diverge, t)
  | S fuel => match tap_round room t with (Some a, t) => (a, t) | (None, t) => tap_loop fuel room t end
  end.

Definition tap_read (room : Z) (t : HandshakeTap) : poll bytes * HandshakeTap :=
  if pending_pos t <? len (pending t) then tap_deliver room t
  else if room =? 0 then (Ready (Ok []), t)
  else tap_loop 1 room t.

(** ** The relay *)
Inductive FrameRole := Client | Server.

Definition write_label (r : FrameRole) : bytes := match r with Client => lit "C" | Server => lit "S" end.
Definition read_label (r : FrameRole) : bytes := match r with Client => lit "S" | Server => lit "C" end.

Record ShadowTlsIo := {
  inner : Raw;
  payload : bytes;
  payload_pos : Z;
  hdr : bytes;
  body : bytes;
  write_hmac : HmacSha1;
  read_hmac : HmacSha1;
  ignore_hmac : option HmacSha1;
  write_pending : bytes;
  write_pos : Z;
  saw_alert : bool;
}.

Definition ShadowTlsIo_new (i : Raw) (password server_random : bytes) (role : FrameRole) : ShadowTlsIo :=
  {| inner := i; payload := []; payload_pos := 0; hdr := []; body := [];
     write_hmac := hmac_password password [server_random; write_label role];
     read_hmac := hmac_password password [server_random; read_label role];
     ignore_hmac := Some (hmac_password password [server_random]);
     write_pending := []; write_pos := 0; saw_alert := false |}.

Definition with_frame (i : Raw) (h b : bytes) (v : ShadowTlsIo) : ShadowTlsIo :=
  {| inner := i; payload := payload v; payload_pos := payload_pos v; hdr := h; body := b; write_hmac := write_hmac v;
     read_hmac := read_hmac v; ignore_hmac := ignore_hmac v; write_pending := write_pending v; write_pos := write_pos v;
     saw_alert := saw_alert v |}.
Definition with_payload (p : bytes) (pos : Z) (b : bytes) (v : ShadowTlsIo) : ShadowTlsIo :=
  {| inner := inner v; payload := p; payload_pos := pos; hdr := hdr v; body := b; write_hmac := write_hmac v;
     read_hmac := read_hmac v; ignore_hmac := ignore_hmac v; write_pending := write_pending v; write_pos := write_pos v;
     saw_alert := saw_alert v |}.
Definition with_macs (rd : HmacSha1) (ig : option HmacSha1) (v : ShadowTlsIo) : ShadowTlsIo :=
  {| inner := inner v; payload := payload v; payload_pos := payload_pos v; hdr := hdr v; body := body v; write_hmac := write_hmac v;
     read_hmac := rd; ignore_hmac := ig; write_pending := write_pending v; write_pos := write_pos v; saw_alert := saw_alert v |}.
Definition with_alert (v : ShadowTlsIo) : ShadowTlsIo :=
  {| inner := inner v; payload := payload v; payload_pos := payload_pos v; hdr := hdr v; body := body v; write_hmac := write_hmac v;
     read_hmac := read_hmac v; ignore_hmac := ignore_hmac v; write_pending := write_pending v; write_pos := write_pos v; saw_alert := true |}.
Definition with_writing (i : Raw) (m : HmacSha1) (p : bytes) (pos : Z) (v : ShadowTlsIo) : ShadowTlsIo :=
  {| inner := i; payload := payload v; payload_pos := payload_pos v; hdr := hdr v; body := body v; write_hmac := m;
     read_hmac := read_hmac v; ignore_hmac := ignore_hmac v; write_pending := p; write_pos := pos; saw_alert := saw_alert v |}.

(** The data goes into the rolling tag, which must be the frame's; the frame becomes the
    payload, and the old payload the next body. *)
Definition verify_frame (b : bytes) (v : ShadowTlsIo) : answer * ShadowTlsIo :=
  let rd := update (drop 4 b) (read_hmac v) in
  let expected := mac4 rd in
  let v := with_macs (update expected rd) None v in
  if bool_decide (expected = take 4 b) then (None, with_payload b HMAC_SIZE (payload v) v)
  else (Some (Ready (Err "shadow-tls: frame HMAC mismatch")), v).

(** A whole frame: its kind, the control frames that are skipped, its tag. *)
Definition frame_round (h b : bytes) (v : ShadowTlsIo) : answer * ShadowTlsIo :=
  match h with
  | [kind; v1; v2; _; _] =>
      if kind =? TLS_ALERT then (Some (Ready (Ok [])), with_alert v)
      else if negb (kind =? TLS_APPLICATION_DATA) || negb (bool_decide ([v1; v2] = FRAME_VERSION))
      then (Some (Ready (Err "shadow-tls: unexpected frame content type")), v)
      else
        match ignore_hmac v with
        | Some ig => if bool_decide (mac4 (update (drop 4 b) ig) = take 4 b) then (None, v) else verify_frame b v
        | None => verify_frame b v
        end
  | _ => (Some (Ready Panic), v)
  end.

(** A round of [poll_read]. *)
Definition read_round (room : Z) (v : ShadowTlsIo) : answer * ShadowTlsIo :=
  if payload_pos v <? len (payload v) then
    let n := Z.min room (len (payload v) - payload_pos v) in
    (Some (Ready (Ok (range (payload v) (payload_pos v) (payload_pos v + n)))), with_payload (payload v) (payload_pos v + n) (body v) v)
  else if (room =? 0) || saw_alert v then (Some (Ready (Ok [])), v)
  else
    let b := if bool_decide (hdr v = []) then [] else body v in
    match fill TLS_HEADER_SIZE (hdr v) (inner v) with
    | (Pending, h, i) => (Some Pending, with_frame i h b v)
    | (Ready (Err e), h, i) => (Some (Ready (Err e)), with_frame i h b v)
    | (Ready (Ok false), h, i) => (Some (Ready (Ok [])), with_alert (with_frame i h b v))
    | (Ready (Ok true), h, i) =>
        let body_len := of_be (range h 3 5) in
        if body_len <? HMAC_SIZE then (Some (Ready (Err "shadow-tls: frame shorter than its HMAC")), with_frame i h b v)
        else
          match fill body_len b i with
          | (Pending, b, i) => (Some Pending, with_frame i h b v)
          | (Ready (Err e), b, i) => (Some (Ready (Err e)), with_frame i h b v)
          | (Ready (Ok false), b, i) => (Some (Ready (Err "shadow-tls: EOF inside a frame")), with_frame i h b v)
          | (Ready (Ok true), b, i) => frame_round h b (with_frame i [] b v)
          | (Ready Panic, _, _) => (Some (Ready Panic), v)
          | (Ready Diverge, _, _) => (Some (Ready Diverge), v)
          end
    | (Ready Panic, _, _) => (Some (Ready Panic), v)
    | (Ready Diverge, _, _) => (Some (Ready Diverge), v)
    end.

Fixpoint read_loop (fuel : nat) (room : Z) (v : ShadowTlsIo) : poll bytes * ShadowTlsIo :=
  match fuel with
  | O => (Ready Diverge, v)
  | S fuel => match read_round room v with (Some a, v) => (a, v) | (None, v) => read_loop fuel room v end
  end.

(** Every round that goes on has taken bytes from the connection. *)
Definition poll_read (room : Z) (v : ShadowTlsIo) : poll bytes * ShadowTlsIo :=
  read_loop (S (S (length (arriving (inner v))))) room v.

(** [payload.chunks(n)]. *)
Fixpoint chunks (fuel : nat) (n : nat) (bs : bytes) : list bytes :=
  match fuel, bs with
  | S fuel, _ :: _ => take n bs :: chunks fuel n (drop n bs)
  | _, _ => []
  end.

Definition frame (tag data : bytes) : bytes :=
  [TLS_APPLICATION_DATA] ++ FRAME_VERSION ++ be16 (as_u16 (HMAC_SIZE + len data)) ++ tag ++ data.

(** The body of the loop of [queue_frame]. *)
Definition add_frame (acc : bytes * HmacSha1) (chunk : bytes) : bytes * HmacSha1 :=
  let m := update chunk acc.2 in
  let tag := mac4 m in
  (acc.1 ++ frame tag chunk, update tag m).

Definition queue_frame (data : bytes) (v : ShadowTlsIo) : ShadowTlsIo :=
  let '(p, m) := foldl add_frame ([], write_hmac v) (chunks (length data) (Z.to_nat MAX_FRAME_PAYLOAD) data) in
  with_writing (inner v) m p 0 v.

(** The loop that drains the queued frame. *)
Fixpoint drain_loop (fuel : nat) (error : string) (v : ShadowTlsIo) : poll unit * ShadowTlsIo :=
  match fuel with
  | O => (Ready Diverge, v)
  | S fuel =>
      if write_pos v <? len (write_pending v) then
        match raw_write (drop (Z.to_nat (write_pos v)) (write_pending v)) (inner v) with
        | (Pending, i) => (Pending, with_writing i (write_hmac v) (write_pending v) (write_pos v) v)
        | (Ready (Err e), i) => (Ready (Err e), with_writing i (write_hmac v) (write_pending v) (write_pos v) v)
        | (Ready (Ok n), i) =>
            if n =? 0 then (Ready (Err error), with_writing i (write_hmac v) (write_pending v) (write_pos v) v)
            else drain_loop fuel error (with_writing i (write_hmac v) (write_pending v) (write_pos v + n) v)
        | (Ready Panic, _) => (Ready Panic, v)
        | (Ready Diverge, _) => (Ready Diverge, v)
        end
      else (Ready (Ok tt), v)
  end.

Definition drain (error : string) (v : ShadowTlsIo) : poll unit * ShadowTlsIo := drain_loop (S (length (answers (inner v)))) error v.

Definition poll_write (buf : bytes) (v : ShadowTlsIo) : poll Z * ShadowTlsIo :=
  if bool_decide (buf = []) then (Ready (Ok 0), v)
  else
    let v := if write_pos v =? len (write_pending v) then queue_frame buf v else v in
    match drain "shadow-tls: failed to write frame" v with
    | (Pending, v) => (Pending, v)
    | (Ready (Err e), v) => (Ready (Err e), v)
    | (Ready (Ok _), v) => (Ready (Ok (len buf)), with_writing (inner v) (write_hmac v) [] 0 v)
    | (Ready Panic, v) => (Ready Panic, v)
    | (Ready Diverge, v) => (Ready Diverge, v)
    end.

Definition poll_flush (v : ShadowTlsIo) : poll unit * ShadowTlsIo :=
  match drain "shadow-tls: failed to flush frame" v with
  | (Ready (Ok _), v) =>
      let '(p, i) := raw_flush (inner v) in (p, with_writing i (write_hmac v) (write_pending v) (write_pos v) v)
  | (p, v) => (p, v)
  end.

(** The shutdown of the connection is polled like its flush. *)
Definition poll_shutdown (v : ShadowTlsIo) : poll unit * ShadowTlsIo :=
  match poll_flush v with
  | (Ready (Ok _), v) =>
      let '(p, i) := raw_flush (inner v) in (p, with_writing i (write_hmac v) (write_pending v) (write_pos v) v)
  | (p, v) => (p, v)
  end.

(** The end of [open_relay]: what the TLS client leaves is turned into the relay, if the
    server has signed. *)
Definition open_relay (t : HandshakeTap) : outcome ShadowTlsIo :=
  if negb (authorized t) then Err "shadow-tls authentication failed"
  else match state t with
       | Some s => Ok (ShadowTlsIo_new (tap_inner t) (password t) (server_random s) Client)
       | None => Panic
       end.
End shadow.
