(* ===== verification/ShadowTlsSpec.v ===== *)
(** * ShadowTLS: what the handshake shows the TLS client, and what the relay carries
    (proxy/shadow_tls.rs) *)
From Stdlib Require Import String.
From S2P Require Import Prelude Bytes Text AsyncIo ShadowTls.

#[local] Open Scope string_scope.
#[local] Open Scope list_scope.
#[local] Open Scope Z_scope.

(** Reads one after the other, up to the first error. *)
Fixpoint reads {S} (read : Z → S → poll bytes * S) (rooms : list Z) (v : S) : list (poll bytes) * S :=
  match rooms with
  | [] => ([], v)
  | room :: rooms =>
      let '(p, v) := read room v in
      match p with
      | Pending | Ready (Ok _) => let '(ps, v) := reads read rooms v in (p :: ps, v)
      | _ => ([p], v)
      end
  end.

Section relay.
Context {M : Macs}.
Implicit Types (ig : option HmacSha1) (rd : HmacSha1) (v : ShadowTlsIo).

Lemma len_mac4 m : len (mac4 m) = 4.
Proof. unfold mac4. rewrite len_range; [done|done|done|]. by rewrite len_hmac_sha1. Qed.

(** ** What a byte string carries *)
(** A frame opened: the hashers after it and its data, none for a control frame. *)
Definition open_frame ig rd (h b : bytes) : option (option HmacSha1 * HmacSha1 * bytes) :=
  let rolling :=
    let rd := update (drop 4 b) rd in
    if bool_decide (mac4 rd = take 4 b) then Some (None, update (mac4 rd) rd, drop 4 b) else None in
  match h with
  | [kind; v1; v2; _; _] =>
      if (kind =? TLS_APPLICATION_DATA) && bool_decide ([v1; v2] = FRAME_VERSION) then
        match ig with
        | Some m => if bool_decide (mac4 (update (drop 4 b) m) = take 4 b) then Some (Some m, rd, []) else rolling
        | None => rolling
        end
      else None
  | _ => None
  end.

(** The data of the frames at the head of [bs], up to the first that is not whole or not
    in order. *)
Fixpoint contents (fuel : nat) ig rd (bs : bytes) : bytes :=
  match fuel with
  | O => []
  | S fuel =>
      let n := of_be (range bs 3 5) in
      if (len bs <? 5) || (n <? HMAC_SIZE) || (len bs <? 5 + n) then []
      else match open_frame ig rd (take 5 bs) (range bs 5 (5 + n)) with
           | Some (ig, rd, d) => d ++ contents fuel ig rd (drop (Z.to_nat (5 + n)) bs)
           | None => []
           end
  end.

Lemma contents_fuel fuel fuel' ig rd bs : (length bs <= fuel)%nat → (length bs <= fuel')%nat → contents fuel ig rd bs = contents fuel' ig rd bs.
Proof.
  revert fuel' ig rd bs. induction fuel as [|fuel IH]; intros [|fuel'] ig rd bs Hf Hf'; try done.
  - destruct bs; [done|simpl in Hf; lia].
  - destruct bs; [done|simpl in Hf'; lia].
  - cbn [contents]. destruct (_ || _) eqn:E; [done|]. apply orb_false_iff in E as [E1 E2]. apply orb_false_iff in E1 as [E0 E1].
    apply Z.ltb_ge in E0, E1, E2. destruct (open_frame _ _ _ _) as [[[ig' rd'] d]|]; [|done]. f_equal. unfold HMAC_SIZE in *.
    apply IH; rewrite length_drop; unfold len in *; lia.
Qed.

Definition carried ig rd (bs : bytes) : bytes := contents (length bs) ig rd bs.

Lemma carried_short ig rd bs : len bs < 5 ∨ len bs < 5 + of_be (range bs 3 5) ∨ of_be (range bs 3 5) < HMAC_SIZE → carried ig rd bs = [].
Proof.
  unfold carried. intros Hs. destruct (length bs); [done|]. cbn [contents].
  destruct (Z.ltb_spec (len bs) 5), (Z.ltb_spec (of_be (range bs 3 5)) HMAC_SIZE), (Z.ltb_spec (len bs) (5 + of_be (range bs 3 5))); try done; lia.
Qed.

Lemma carried_frame ig rd h b rest : len h = 5 → len b = of_be (range h 3 5) → HMAC_SIZE <= len b →
  carried ig rd (h ++ b ++ rest) = match open_frame ig rd h b with Some (ig, rd, d) => d ++ carried ig rd rest | None => [] end.
Proof.
  unfold HMAC_SIZE. intros Hh Hb Hn.
  assert (range (h ++ b ++ rest) 3 5 = range h 3 5) as E3 by (apply range_app_l; lia).
  assert (take 5 (h ++ b ++ rest) = h) as Et by (rewrite take_app_le by (unfold len in Hh; lia); apply take_ge; unfold len in Hh; lia).
  assert (range (h ++ b ++ rest) 5 (5 + len b) = b) as Eb.
  { unfold range. replace (Z.to_nat 5) with (length h) by (unfold len in Hh; lia). rewrite drop_app_length.
    replace (Z.to_nat (5 + len b - 5)) with (length b) by (unfold len; lia). by rewrite take_app_length. }
  assert (drop (Z.to_nat (5 + len b)) (h ++ b ++ rest) = rest) as Ed.
  { rewrite app_assoc. replace (Z.to_nat (5 + len b)) with (length (h ++ b)) by (rewrite length_app; unfold len in *; lia). apply drop_app_length. }
  unfold carried. rewrite (contents_fuel _ (S (length (h ++ b ++ rest)))) by lia. cbn [contents].
  rewrite E3, <- Hb, Et, Eb, Ed. rewrite !len_app. pose proof (len_nonneg rest). unfold HMAC_SIZE.
  destruct (Z.ltb_spec (len h + (len b + len rest)) 5), (Z.ltb_spec (len b) 4), (Z.ltb_spec (len h + (len b + len rest)) (5 + len b)); try lia. cbn [orb].
  destruct (open_frame ig rd h b) as [[[ig' rd'] d]|]; [|done]. f_equal. apply contents_fuel; [rewrite !length_app; lia|done].
Qed.

(** What is received but not handed over, or still to arrive. *)
Definition assembled v : bytes := hdr v ++ (if bool_decide (hdr v = []) then [] else body v).
Definition unread v : bytes := if saw_alert v then [] else carried (ignore_hmac v) (read_hmac v) (assembled v ++ arriving (inner v)).
Definition remaining v : bytes := drop (Z.to_nat (payload_pos v)) (payload v) ++ unread v.

(** A body is only under way behind a whole header. *)
Definition wf v : Prop :=
  0 <= payload_pos v <= len (payload v) ∧
  (hdr v = [] ∨ len (hdr v) < 5 ∧ body v = [] ∨ len (hdr v) = 5 ∧ len (body v) < Z.max 1 (of_be (range (hdr v) 3 5))).

(** A round of a read from [v]: the bytes are handed over in order, the end and an error
    come where nothing is left, unless the connection itself breaks. *)
Definition round_ok (room : Z) v (res : answer * ShadowTlsIo) : Prop :=
  let v' := res.2 in
  wf v' ∧ sent (inner v') = sent (inner v) ∧ (steady (incoming (inner v)) → steady (incoming (inner v'))) ∧
  match res.1 with
  | None => remaining v' = remaining v ∧ len (arriving (inner v')) < len (arriving (inner v))
  | Some Pending => remaining v' = remaining v ∧ (arriving (inner v') = [] → remaining v' = [])
  | Some (Ready (Ok bs)) =>
      len bs <= Z.max 0 room ∧
      (remaining v = bs ++ remaining v' ∨ bs = [] ∧ remaining v' = [] ∧ ¬ steady (incoming (inner v))) ∧
      (bs = [] → 0 < room → remaining v' = [])
  | Some (Ready (Err _)) => steady (incoming (inner v)) → remaining v = []
  | _ => False
  end.

Lemma frame_round_ok room v h b i : wf v → len h = 5 → len b = of_be (range h 3 5) → HMAC_SIZE <= len b →
  len (payload v) <= payload_pos v → saw_alert v = false →
  assembled v ++ arriving (inner v) = h ++ b ++ arriving i → sent i = sent (inner v) →
  (steady (incoming (inner v)) → steady (incoming i)) → len (arriving i) < len (arriving (inner v)) →
  round_ok room v (frame_round h b (with_frame i [] b v)).
Proof.
  intros [Hpos _] Hh Hb Hn Hend Hal Hall Hs Hst Hlt.
  assert (drop (Z.to_nat (payload_pos v)) (payload v) = []) as Hp by (apply drop_ge; unfold len in *; lia).
  assert (remaining v = match open_frame (ignore_hmac v) (read_hmac v) h b with Some (ig, rd, d) => d ++ carried ig rd (arriving i) | None => [] end) as Hrem.
  { unfold remaining, unread. by rewrite Hp, Hal, Hall, carried_frame. }
  set (w := with_frame i [] b v).
  assert (∀ rd ig, wf (with_macs rd ig w)) as Hwf by (intros rd ig; split; [exact Hpos|by left]).
  assert (∀ rd ig, remaining (with_macs rd ig w) = carried ig rd (arriving i)) as Hafter
    by (intros rd ig; unfold remaining, unread; cbn; by rewrite Hp, Hal).
  assert (remaining w = carried (ignore_hmac v) (read_hmac v) (arriving i)) as Hsame by (unfold remaining, unread; cbn; by rewrite Hp, Hal).
  assert (∀ rd, wf (with_payload b HMAC_SIZE (payload w) (with_macs rd None w)) ∧
    remaining (with_payload b HMAC_SIZE (payload w) (with_macs rd None w)) = drop 4 b ++ carried None rd (arriving i)) as Hdata.
  { intros rd. split; [split; [unfold HMAC_SIZE in *; cbn; lia|by left]|]. unfold remaining, unread. cbn. by rewrite Hal. }
  assert (remaining v = match (if bool_decide (mac4 (update (drop 4 b) (read_hmac v)) = take 4 b) then
      Some (None : option HmacSha1, update (mac4 (update (drop 4 b) (read_hmac v))) (update (drop 4 b) (read_hmac v)), drop 4 b) else None) with
    | Some (ig, rd, d) => d ++ carried ig rd (arriving i) | None => [] end → round_ok room v (verify_frame b w)) as Hverify.
  { intros Hr. unfold verify_frame. cbn [read_hmac with_frame w]. unfold w at 1. cbn [read_hmac with_frame].
    case_bool_decide as Ht.
    - edestruct Hdata as [Hw Hr']. split; [exact Hw|]. split; [exact Hs|]. split; [exact Hst|]. cbn [fst snd]. split; [rewrite Hr; exact Hr'|exact Hlt].
    - split; [apply Hwf|]. split; [exact Hs|]. split; [exact Hst|]. by intros _. }
  destruct h as [|k [|v1 [|v2 [|l1 [|l2 [|]]]]]]; try (exfalso; unfold len in Hh; simpl in Hh; lia).
  unfold frame_round, open_frame in *. destruct (Z.eqb_spec k TLS_ALERT) as [->|Hk].
  { change (TLS_ALERT =? TLS_APPLICATION_DATA) with false in Hrem. cbn [andb] in Hrem.
    assert (remaining (with_alert w) = []) as Hr by (unfold remaining, unread; cbn; by rewrite Hp).
    split; [split; [exact Hpos|by left]|]. split; [exact Hs|]. split; [exact Hst|]. cbn [fst snd]. change (len (@nil Z)) with 0.
    rewrite Hrem, Hr. split; [lia|]. split; [by left|done]. }
  destruct (k =? TLS_APPLICATION_DATA); cbn [negb orb andb] in *; [|split; [apply (Hwf (read_hmac v) (ignore_hmac v))|split; [exact Hs|split; [exact Hst|by intros _]]]].
  destruct (bool_decide ([v1; v2] = FRAME_VERSION)); cbn [negb] in *; [|split; [apply (Hwf (read_hmac v) (ignore_hmac v))|split; [exact Hs|split; [exact Hst|by intros _]]]].
  change (ignore_hmac w) with (ignore_hmac v). destruct (ignore_hmac v) as [ig|] eqn:Eig; [|by apply Hverify].
  destruct (bool_decide (mac4 (update (drop 4 b) ig) = take 4 b)) eqn:Et; [|by apply Hverify].
  split; [apply (Hwf (read_hmac v) (ignore_hmac v))|]. split; [exact Hs|]. split; [exact Hst|]. cbn [fst snd]. split; [|exact Hlt].
  rewrite Hrem. exact Hsame.
Qed.

Lemma relay_deliver_ok room v : wf v → 0 <= room → payload_pos v < len (payload v) → round_ok room v (read_round room v).
Proof.
  intros [Hpos Hh] Hr Hlt. unfold read_round. rewrite (proj2 (Z.ltb_lt _ _) Hlt).
  set (n := Z.min room (len (payload v) - payload_pos v)).
  assert (drop (Z.to_nat (payload_pos v)) (payload v) =
    range (payload v) (payload_pos v) (payload_pos v + n) ++ drop (Z.to_nat (payload_pos v + n)) (payload v)) as Hd.
  { unfold range. rewrite <- (take_drop (Z.to_nat (payload_pos v + n - payload_pos v)) (drop _ _)) at 1. rewrite drop_drop. f_equal. f_equal. lia. }
  split; [split; [cbn; lia|exact Hh]|]. split; [done|]. split; [done|]. cbn [fst snd].
  rewrite len_range by lia. split; [lia|]. split.
  - left. unfold remaining at 1. rewrite Hd, <- app_assoc. done.
  - intros He Hroom. exfalso. apply (f_equal len) in He. rewrite len_range in He by lia. change (len []) with 0 in He. lia.
Qed.

Lemma relay_read_round_ok room v : wf v → 0 <= room → round_ok room v (read_round room v).
Proof.
  intros Hwf Hr. destruct (Z.ltb_spec (payload_pos v) (len (payload v))) as [Hlt|Hge]; [by apply relay_deliver_ok|].
  pose proof Hwf as [Hpos Hh].
  assert (drop (Z.to_nat (payload_pos v)) (payload v) = []) as Hp by (apply drop_ge; unfold len in *; lia).
  unfold read_round. rewrite (proj2 (Z.ltb_ge _ _) Hge).
  destruct (Z.eqb_spec room 0) as [->|Hroom]; cbn [orb].
  { split; [done|]. split; [done|]. split; [done|]. cbn [fst snd]. change (len (@nil Z)) with 0. split; [lia|]. split; [by left|lia]. }
  destruct (saw_alert v) eqn:Hal.
  { assert (remaining v = []) as Hrem by (unfold remaining, unread; by rewrite Hp, Hal).
    split; [done|]. split; [done|]. split; [done|]. cbn [fst snd]. rewrite Hrem. change (len (@nil Z)) with 0. split; [lia|]. split; [by left|done]. }
  set (b := if bool_decide (hdr v = []) then [] else body v).
  assert (len (hdr v) <= 5) as Hh5 by (destruct Hh as [->|[[] |[] ]]; [by cbn|lia..]).
  destruct (fill TLS_HEADER_SIZE (hdr v) (inner v)) as [[pr h] i] eqn:E.
  apply fill_ok in E as (bs & Eh & Ha & Hl & Hs & Han & Hst & Hres); [|done].
  assert (assembled v ++ arriving (inner v) = hdr v ++ b ++ bs ++ arriving i) as Hall by (unfold assembled; by rewrite Ha, <- app_assoc).
  assert (len (hdr v) < 5 → b = []) as Hb0.
  { intros Hlt. unfold b. case_bool_decide; [done|]. destruct Hh as [?|[[] |[] ]]; [done|done|lia]. }
  assert (len h = len (hdr v) + len bs) as Hlh by (by rewrite Eh, len_app).
  assert (∀ w x y, inner w = x → saw_alert w = false → payload w = payload v → payload_pos w = payload_pos v → ignore_hmac w = ignore_hmac v →
    read_hmac w = read_hmac v → assembled w = y → y ++ arriving x = assembled v ++ arriving (inner v) →
    remaining w = remaining v ∧ remaining w = carried (ignore_hmac v) (read_hmac v) (y ++ arriving x)) as Hsame.
  { intros w x y Ei Ea E1 E2 E3 E4 E5 E6. unfold remaining, unread. rewrite E1, E2, E3, E4, E5, Ei, Ea, Hp, Hal, E6. done. }
  destruct (Z.lt_ge_cases (len h) 5) as [Hh'|Hh'].
  { assert (b = []) as Eb by (apply Hb0; pose proof (len_nonneg bs); lia).
    assert (wf (with_frame i h b v)) as Hw by (split; [exact Hpos|right; left; by split]).
    assert (assembled (with_frame i h b v) = h) as Eas by (unfold assembled; cbn; rewrite Eb; by case_bool_decide; rewrite app_nil_r).
    rewrite Eb in Hall. cbn [app] in Hall. rewrite app_assoc, <- Eh in Hall.
    destruct (Hsame (with_frame i h b v) i h eq_refl Hal eq_refl eq_refl eq_refl eq_refl Eas (eq_sym Hall)) as [R1 R2].
    destruct pr as [|[[]|e| |]]; try done.
    - split; [exact Hw|]. split; [exact Hs|]. split; [exact Hst|]. cbn [fst snd]. split; [exact R1|]. intros Hai. rewrite R2. apply carried_short. left. 
      cbn in Hai. rewrite Hai, app_nil_r. lia.
    - unfold TLS_HEADER_SIZE in Hres. lia.
    - split; [split; [exact Hpos|right; left; by split]|]. split; [exact Hs|]. split; [exact Hst|]. cbn [fst snd]. change (len (@nil Z)) with 0.
      assert (remaining (with_alert (with_frame i h b v)) = []) as -> by (unfold remaining, unread; cbn; by rewrite Hp). split; [lia|].
      split; [right; split; [done|split; [done|apply Hres]]|done].
    - split; [exact Hw|]. split; [exact Hs|]. split; [exact Hst|]. cbn. by intros ?%Hres. }
  assert (len h = 5) as Hh5' by (unfold TLS_HEADER_SIZE in Hl; lia). clear Hh'.
  destruct pr as [|[[]|e| |]]; try done; unfold TLS_HEADER_SIZE in Hres; try lia. clear Hres.
  set (n := of_be (range h 3 5)).
  assert (len b < Z.max 1 n ∧ (len b < n ∨ len bs > 0 ∨ n < 4)) as [Hbn Hprog].
  { destruct (Z.lt_ge_cases (len (hdr v)) 5) as [Hlt|Hge']; [rewrite Hb0 by done; change (len []) with 0; split; [lia|right; left; lia]|].
    assert (bs = []) as -> by (apply len_zero_nil; lia). rewrite app_nil_r in Eh. subst h.
    destruct Hh as [Hz|[[] |[_ Hb]]]; [rewrite Hz in Hge'; cbn in Hge'; lia|lia|]. unfold b. case_bool_decide; [change (len []) with 0; lia|]. fold n in Hb. lia. }
  assert (hdr v ++ b ++ bs = h ++ b) as Hswap.
  { destruct (Z.lt_ge_cases (len (hdr v)) 5) as [Hlt|Hge']; [by rewrite Hb0, Eh, app_nil_r by done|].
    assert (bs = []) as -> by (apply len_zero_nil; lia). rewrite Eh, !app_nil_r. done. }
  assert (assembled v ++ arriving (inner v) = h ++ b ++ arriving i) as Hall' by (rewrite Hall, (app_assoc b), (app_assoc (hdr v)), Hswap; by rewrite <- app_assoc).
  assert (∀ b' x, assembled (with_frame x h b' v) = h ++ b') as Has.
  { intros b' x. unfold assembled. cbn. rewrite bool_decide_eq_false_2; [done|]. intros ->. by cbn in Hh5'. }
  assert (∀ rest, range (h ++ rest) 3 5 = range h 3 5) as Hr35 by (intros rest; apply range_app_l; lia).
  destruct (Z.ltb_spec n HMAC_SIZE) as [Hn|Hn]; unfold HMAC_SIZE in Hn.
  { assert (wf (with_frame i h b v)) as Hw by (split; [exact Hpos|right; right; split; [exact Hh5'|exact Hbn]]).
    split; [exact Hw|]. split; [exact Hs|]. split; [exact Hst|]. cbn [fst snd]. intros _.
    destruct (Hsame (with_frame i h b v) i (h ++ b) eq_refl Hal eq_refl eq_refl eq_refl eq_refl (Has _ _)) as [R1 R2]; [by rewrite <- app_assoc|].
    rewrite <- R1, R2. apply carried_short. right. right. rewrite <- app_assoc, Hr35. exact Hn. }
  destruct (fill n b i) as [[pr b'] i'] eqn:E'.
  apply fill_ok in E' as (bs' & Eb' & Ha' & Hl' & Hs' & Han' & Hst' & Hres'); [|lia].
  assert (assembled v ++ arriving (inner v) = h ++ b' ++ arriving i') as Hall'' by (rewrite Hall', Ha', Eb'; by rewrite <- app_assoc).
  assert (steady (incoming (inner v)) → steady (incoming i')) as Hst'' by auto.
  destruct pr as [|[[]|e| |]]; try done.
  - assert (wf (with_frame i' h b' v)) as Hw by (split; [exact Hpos|right; right; split; [exact Hh5'|cbn; fold n; lia]]).
    destruct (Hsame (with_frame i' h b' v) i' (h ++ b') eq_refl Hal eq_refl eq_refl eq_refl eq_refl (Has _ _)) as [R1 R2]; [by rewrite <- app_assoc|].
    split; [exact Hw|]. split; [cbn; by rewrite Hs'|]. split; [exact Hst''|]. cbn [fst snd]. split; [exact R1|]. intros Hai. rewrite R2. cbn in Hai.
    rewrite Hai, app_nil_r. apply carried_short. right. left. rewrite Hr35, len_app. fold n. lia.
  - apply frame_round_ok; [exact Hwf|exact Hh5'|exact Hres'|unfold HMAC_SIZE; lia|exact Hge|exact Hal|exact Hall''|congruence|exact Hst''|]. rewrite Ha, Ha', !len_app.
    assert (len b' = len b + len bs') by (by rewrite Eb', len_app). pose proof (len_nonneg bs). pose proof (len_nonneg bs'). lia.
  - assert (wf (with_frame i' h b' v)) as Hw by (split; [exact Hpos|right; right; split; [exact Hh5'|cbn; fold n; lia]]).
    split; [exact Hw|]. split; [cbn; by rewrite Hs'|]. split; [exact Hst''|]. cbn. intros Hsteady. exfalso. apply Hres'. auto.
  - assert (wf (with_frame i' h b' v)) as Hw by (split; [exact Hpos|right; right; split; [exact Hh5'|cbn; fold n; lia]]).
    split; [exact Hw|]. split; [cbn; by rewrite Hs'|]. split; [exact Hst''|]. cbn. intros Hsteady. exfalso. apply Hres'. auto.
Qed.

(** ** Reads *)
(** What a read from [v] gives: as [round_ok], and it always answers. *)
Definition read_ok (room : Z) v (p : poll bytes) v' : Prop := round_ok room v (Some p, v').

Lemma relay_read_loop_ok fuel room v : wf v → 0 <= room → len (arriving (inner v)) < Z.of_nat fuel →
  let '(p, v') := read_loop fuel room v in read_ok room v p v'.
Proof.
  revert v. induction fuel as [|fuel IH]; intros v Hw Hr Hf; [pose proof (len_nonneg (arriving (inner v))); lia|]. cbn [read_loop].
  pose proof (relay_read_round_ok room v Hw Hr) as (Hw1 & Hs1 & Hst1 & Hres). destruct (read_round room v) as [[p|] v1]; cbn [fst snd] in *.
  - by split.
  - destruct Hres as [Hrem Hlt]. specialize (IH v1 Hw1 Hr ltac:(lia)). destruct (read_loop fuel room v1) as [p v2].
    destruct IH as (Hw2 & Hs2 & Hst2 & Hres2). split; [done|]. split; [by rewrite Hs2|]. split; [auto|]. cbn [fst snd] in *. rewrite <- Hrem.
    destruct p as [|[bs|e| |]]; try done; [|auto]. destruct Hres2 as (Hl & Ho & He). split; [done|]. split; [|done].
    destruct Ho as [?|(? & ? & Hn)]; [by left|]. right. split_and!; auto.
Qed.

Lemma relay_poll_read_ok room v : wf v → 0 <= room → let '(p, v') := poll_read room v in read_ok room v p v'.
Proof. intros Hw Hr. apply relay_read_loop_ok; [done|done|]. unfold len. lia. Qed.

(** A read found the end, failed, or waits for a connection that has nothing more. *)
Definition exhausted (ps : list (poll bytes)) v : Prop :=
  Ready (Ok []) ∈ ps ∨ (∃ e, Ready (Err e) ∈ ps) ∨ last ps = Some Pending ∧ arriving (inner v) = [].

Lemma reads_nil rooms v v' : reads poll_read rooms v = ([], v') → v' = v.
Proof.
  destruct rooms as [|r rooms]; cbn [reads]; [by intros [= ->]|].
  destruct (poll_read r v) as [[|[bs|e| |]] v0]; [destruct (reads poll_read rooms v0)|destruct (reads poll_read rooms v0)|..]; done.
Qed.

Lemma reads_ok rooms v : wf v → Forall (λ n, 0 <= n) rooms →
  let '(ps, v') := reads poll_read rooms v in
  delivered ps `prefix_of` remaining v ∧ sent (inner v') = sent (inner v) ∧ Forall (λ p, p ≠ Ready Panic ∧ p ≠ Ready Diverge) ps ∧
  (steady (incoming (inner v)) → Forall (λ n, 0 < n) rooms → exhausted ps v' → delivered ps = remaining v).
Proof.
  revert v. induction rooms as [|room rooms IH]; intros v Hw Hr; cbn [reads].
  { split; [apply prefix_nil|]. split; [done|]. split; [constructor|]. intros _ _ [Hin|[[e Hin]|[Hl _]]]; [by apply elem_of_nil in Hin..|done]. }
  apply Forall_cons in Hr as [Hr Hrs]. pose proof (relay_poll_read_ok room v Hw Hr) as Hp.
  destruct (poll_read room v) as [p v1]. destruct Hp as (Hw1 & Hs1 & Hst1 & Hres). cbn [fst snd] in *.
  specialize (IH v1 Hw1 Hrs). destruct p as [|[bs|e| |]]; try done.
  - destruct (reads poll_read rooms v1) as [ps v2] eqn:E. destruct IH as (Hpre & Hs & Hf & Hall). destruct Hres as [Hrem Hdone].
    change (delivered (Pending :: ps)) with (delivered ps). rewrite <- Hrem. split; [done|]. split; [congruence|]. split; [by constructor|].
    intros Hst [_ Hpos]%Forall_cons Hex. destruct ps as [|p ps].
    + apply reads_nil in E as ->. destruct Hex as [Hin|[[e Hin]|[_ Ha]]]; [by apply list_elem_of_singleton in Hin..|]. cbn. symmetry. by apply Hdone.
    + apply Hall; [auto|done|]. destruct Hex as [Hin|[[e Hin]|[Hl Ha]]].
      * left. by apply elem_of_cons in Hin as [?|].
      * right. left. exists e. by apply elem_of_cons in Hin as [?|].
      * right. right. by split.
  - destruct (reads poll_read rooms v1) as [ps v2] eqn:E. destruct IH as (Hpre & Hs & Hf & Hall). destruct Hres as (Hl & Ho & He).
    change (delivered (Ready (Ok bs) :: ps)) with (bs ++ delivered ps).
    split. { destruct Ho as [->|(-> & Hz & _)]; [by apply prefix_app|]. rewrite Hz in Hpre. apply prefix_nil_inv in Hpre as ->. apply prefix_nil. }
    split; [congruence|]. split; [by constructor|]. intros Hst [Hp0 Hpos]%Forall_cons Hex. destruct Ho as [->|(_ & _ & Hn)]; [|done]. f_equal.
    destruct bs as [|x bs].
    { rewrite (He eq_refl Hp0) in *. by apply prefix_nil_inv in Hpre. }
    destruct ps as [|p ps].
    + destruct Hex as [Hin|[[e Hin]|[Hl' _]]]; [by apply list_elem_of_singleton in Hin..|done].
    + apply Hall; [auto|done|]. destruct Hex as [Hin|[[e Hin]|[Hl' Ha]]].
      * left. by apply elem_of_cons in Hin as [?|].
      * right. left. exists e. by apply elem_of_cons in Hin as [?|].
      * right. right. by split.
  - split; [apply prefix_nil|]. split; [done|]. split; [by repeat constructor|]. intros Hst _ _. symmetry. by apply Hres.
Qed.

(** ** Frames *)
(** The frames of a writer whose hasher is [m], and the hasher after them. *)
Fixpoint frames (m : HmacSha1) (ds : list bytes) : bytes :=
  match ds with
  | [] => []
  | d :: ds => let m := update d m in frame (mac4 m) d ++ frames (update (mac4 m) m) ds
  end.

(** A control frame: its tag is that of the server's random value alone. *)
Definition control (m : HmacSha1) (f : bytes) : Prop := ∃ d, f = frame (mac4 (update d m)) d ∧ len d <= MAX_FRAME_PAYLOAD.
Definition data_ok (d : bytes) : Prop := len d <= MAX_FRAME_PAYLOAD.

Lemma carried_one ig rd tag d rest : len tag = 4 → data_ok d →
  carried ig rd (frame tag d ++ rest) =
  match open_frame ig rd ([TLS_APPLICATION_DATA] ++ FRAME_VERSION ++ be16 (HMAC_SIZE + len d)) (tag ++ d) with
  | Some (ig, rd, d) => d ++ carried ig rd rest
  | None => []
  end.
Proof.
  unfold data_ok, MAX_FRAME_PAYLOAD. intros Ht Hd. unfold frame, as_u16. pose proof (len_nonneg d). rewrite Z.mod_small by (unfold HMAC_SIZE in *; lia).
  set (h := [TLS_APPLICATION_DATA] ++ FRAME_VERSION ++ be16 (HMAC_SIZE + len d)).
  assert (([TLS_APPLICATION_DATA] ++ FRAME_VERSION ++ be16 (HMAC_SIZE + len d) ++ tag ++ d) ++ rest = h ++ (tag ++ d) ++ rest) as -> by (unfold h; by rewrite <- !app_assoc).
  assert (of_be (range h 3 5) = HMAC_SIZE + len d) as Hh.
  { unfold h. change (range _ 3 5) with (be16 (HMAC_SIZE + len d)). apply of_be_be16. unfold u16, HMAC_SIZE in *. lia. }
  rewrite carried_frame; [done|done|rewrite Hh, len_app, Ht; unfold HMAC_SIZE; lia|rewrite len_app, Ht; unfold HMAC_SIZE; lia].
Qed.

Lemma open_whole ig rd n tag d : len tag = 4 →
  open_frame ig rd ([TLS_APPLICATION_DATA] ++ FRAME_VERSION ++ be16 n) (tag ++ d) =
  let rolling := if bool_decide (mac4 (update d rd) = tag) then Some (None, update (mac4 (update d rd)) (update d rd), d) else None in
  match ig with Some m => if bool_decide (mac4 (update d m) = tag) then Some (Some m, rd, []) else rolling | None => rolling end.
Proof.
  intros Ht. unfold open_frame. change (be16 n) with [(n / 256) mod 256; n mod 256]. cbn [app FRAME_VERSION].
  rewrite bool_decide_eq_true_2 by done. change (TLS_APPLICATION_DATA =? TLS_APPLICATION_DATA) with true. cbn [andb].
  assert (take 4 (tag ++ d) = tag) as -> by (rewrite take_app_le by (unfold len in Ht; lia); apply take_ge; unfold len in Ht; lia).
  assert (drop 4 (tag ++ d) = d) as -> by (replace 4%nat with (length tag) by (unfold len in Ht; lia); apply drop_app_length). done.
Qed.

Lemma carried_frames rd ds rest : Forall data_ok ds → ∃ rd', carried None rd (frames rd ds ++ rest) = concat ds ++ carried None rd' rest.
Proof.
  revert rd. induction ds as [|d ds IH]; intros rd Hds; [by exists rd|]. apply Forall_cons in Hds as [Hd Hds]. cbn [frames].
  destruct (IH (update (mac4 (update d rd)) (update d rd)) Hds) as [rd' Hrd]. exists rd'. rewrite <- app_assoc, carried_one by (done || apply len_mac4).
  rewrite open_whole by apply len_mac4. rewrite bool_decide_eq_true_2 by done. cbn [concat]. by rewrite Hrd, <- app_assoc.
Qed.

Lemma carried_controls m rd fs rest : Forall (control m) fs → carried (Some m) rd (concat fs ++ rest) = carried (Some m) rd rest.
Proof.
  intros Hfs. induction Hfs as [|f fs (d & -> & Hd) _ IH]; [done|]. cbn [concat]. rewrite <- app_assoc, carried_one by (done || apply len_mac4).
  rewrite open_whole by apply len_mac4. cbv zeta. by rewrite (bool_decide_eq_true_2 (mac4 (update d m) = _)).
Qed.

(** The first data frame is not taken for a control frame. *)
Definition told_apart (m rd : HmacSha1) (ds : list bytes) : Prop :=
  match ds with [] => True | d :: _ => mac4 (update d m) ≠ mac4 (update d rd) end.

Lemma carried_stream m rd fs ds rest : Forall (control m) fs → Forall data_ok ds → told_apart m rd ds → ds ≠ [] →
  ∃ rd', carried (Some m) rd (concat fs ++ frames rd ds ++ rest) = concat ds ++ carried None rd' rest.
Proof.
  intros Hfs Hds Ht Hne. rewrite carried_controls by done. destruct ds as [|d ds]; [done|]. apply Forall_cons in Hds as [Hd Hds]. cbn [frames].
  destruct (carried_frames (update (mac4 (update d rd)) (update d rd)) ds rest Hds) as [rd' Hrd]. exists rd'.
  rewrite <- app_assoc, carried_one by (done || apply len_mac4). rewrite open_whole by apply len_mac4.
  cbv zeta. cbn [told_apart] in Ht. rewrite (bool_decide_eq_false_2 (mac4 (update d m) = _)) by exact Ht.
  rewrite (bool_decide_eq_true_2 (mac4 (update d rd) = _)) by done. cbn [concat]. by rewrite Hrd, <- app_assoc.
Qed.

(** ** Only verified data is carried *)
Lemma header_of_parts h b : is_bytes h → len h = 5 → len b = of_be (range h 3 5) → HMAC_SIZE <= len b → take 3 h = [TLS_APPLICATION_DATA] ++ FRAME_VERSION →
  h = [TLS_APPLICATION_DATA] ++ FRAME_VERSION ++ be16 (HMAC_SIZE + len (drop 4 b)) ∧ data_ok (drop 4 b).
Proof.
  intros Hbs Hh Hb Hn Ht. destruct h as [|k [|v1 [|v2 [|l1 [|l2 [|]]]]]]; try (exfalso; unfold len in Hh; simpl in Hh; lia).
  change (range _ 3 5) with [l1; l2] in Hb. injection Ht as -> -> ->.
  assert (is_bytes [l1; l2]) as Hl by (do 3 (apply Forall_cons in Hbs as [_ Hbs]); done).
  pose proof (of_be_bound _ Hl) as Hbound. change (256 ^ len [l1; l2]) with 65536 in Hbound.
  assert (HMAC_SIZE + len (drop 4 b) = len b) as E by (unfold HMAC_SIZE, len in *; rewrite length_drop; lia).
  split; [|unfold data_ok, MAX_FRAME_PAYLOAD; lia]. rewrite E, Hb.
  change (be16 (of_be [l1; l2])) with (be_bytes (length [l1; l2]) (of_be [l1; l2])). by rewrite be_bytes_of_be.
Qed.

Lemma frame_eq tag d : data_ok d → frame tag d = ([TLS_APPLICATION_DATA] ++ FRAME_VERSION ++ be16 (HMAC_SIZE + len d)) ++ tag ++ d.
Proof.
  unfold data_ok, MAX_FRAME_PAYLOAD, HMAC_SIZE. intros Hd. pose proof (len_nonneg d). unfold frame, as_u16, HMAC_SIZE.
  rewrite Z.mod_small by lia. by rewrite <- !app_assoc.
Qed.

(** A byte string carries nothing, or starts with a frame that is opened. *)
Lemma carried_split ig rd bs : is_bytes bs →
  carried ig rd bs = [] ∨
  ∃ tag d rest ig' rd' d', bs = frame tag d ++ rest ∧ len tag = 4 ∧ data_ok d ∧ (length rest < length bs)%nat ∧ is_bytes rest ∧
    open_frame ig rd ([TLS_APPLICATION_DATA] ++ FRAME_VERSION ++ be16 (HMAC_SIZE + len d)) (tag ++ d) = Some (ig', rd', d').
Proof.
  intros Hbs. destruct (Z.lt_ge_cases (len bs) 5) as [Hl|Hl]; [left; apply carried_short; by left|].
  set (n := of_be (range bs 3 5)). destruct (Z.lt_ge_cases (len bs) (5 + n)) as [Hl'|Hl']; [left; apply carried_short; by right; left|].
  destruct (Z.lt_ge_cases n HMAC_SIZE) as [Hn|Hn]; [left; apply carried_short; by right; right|].
  set (h := take 5 bs). set (b := range bs 5 (5 + n)). set (rest := drop (Z.to_nat (5 + n)) bs).
  assert (len h = 5) as Hh by (unfold h, len in *; rewrite length_take; lia).
  assert (len b = n) as Hb by (unfold b, HMAC_SIZE in *; rewrite len_range; lia).
  assert (bs = h ++ b ++ rest) as Eall.
  { unfold h, b, rest, range. rewrite <- (take_drop 5 bs) at 1. f_equal. replace (Z.to_nat 5) with 5%nat by done.
    rewrite <- (take_drop (Z.to_nat (5 + n - 5)) (drop 5 bs)) at 1. f_equal. rewrite drop_drop. f_equal. unfold HMAC_SIZE in *. lia. }
  assert (range h 3 5 = range bs 3 5) as Er by (rewrite <- (range_app_l h (b ++ rest) 3 5), <- Eall by lia; done).
  assert (is_bytes h ∧ is_bytes rest) as [Hbh Hbr] by (split; [by apply Forall_take|by apply Forall_drop]).
  clearbody rest b h. subst bs. rewrite carried_frame; [|done|rewrite Er; exact Hb|lia].
  destruct (open_frame ig rd h b) as [[[ig' rd'] d']|] eqn:Eo; [|by left]. right.
  assert (take 3 h = [TLS_APPLICATION_DATA] ++ FRAME_VERSION) as Ht.
  { unfold open_frame in Eo. destruct h as [|k [|v1 [|v2 [|l1 [|l2 [|]]]]]]; try discriminate Eo.
    destruct (Z.eqb_spec k TLS_APPLICATION_DATA) as [->|]; [|discriminate Eo]. cbn [andb] in Eo. case_bool_decide as Hv; [|discriminate Eo].
    injection Hv as -> ->. done. }
  destruct (header_of_parts h b Hbh Hh) as [Hhd Hd]; [rewrite Er; exact Hb|lia|done|].
  exists (take 4 b), (drop 4 b), rest, ig', rd', d'. split; [by rewrite (frame_eq _ _ Hd), <- Hhd, take_drop, <- app_assoc|].
  split; [unfold HMAC_SIZE, len in *; rewrite length_take; lia|].
  split; [done|]. split; [rewrite !length_app; unfold len in Hh; lia|]. split; [done|]. by rewrite take_drop, <- Hhd.
Qed.

Lemma carried_sound_open fuel rd bs : (length bs <= fuel)%nat → is_bytes bs →
  ∃ ds rest, bs = frames rd ds ++ rest ∧ Forall data_ok ds ∧ carried None rd bs = concat ds.
Proof.
  revert rd bs. induction fuel as [|fuel IH]; intros rd bs Hf Hbs.
  { destruct bs; [|simpl in Hf; lia]. by exists [], []. }
  destruct (carried_split None rd bs Hbs) as [E|(tag & d & rest & ig' & rd' & d' & E & Ht & Hd & Hl & Hr & Ho)]; [by exists [], bs|].
  subst bs. rewrite carried_one, Ho by done. rewrite open_whole in Ho by done. cbv zeta in Ho. case_bool_decide as Htag; [|discriminate Ho].
  injection Ho as <- <- <-. destruct (IH (update (mac4 (update d rd)) (update d rd)) rest ltac:(lia) Hr) as (ds & r & -> & Hds & ->).
  exists (d :: ds), r. split; [cbn [frames]; by rewrite Htag, <- app_assoc|]. split; [by constructor|done].
Qed.

Lemma carried_sound fuel m rd bs : (length bs <= fuel)%nat → is_bytes bs →
  ∃ fs ds rest, bs = concat fs ++ frames rd ds ++ rest ∧ Forall (control m) fs ∧ Forall data_ok ds ∧ carried (Some m) rd bs = concat ds.
Proof.
  revert bs. induction fuel as [|fuel IH]; intros bs Hf Hbs.
  { destruct bs; [|simpl in Hf; lia]. by exists [], [], []. }
  destruct (carried_split (Some m) rd bs Hbs) as [E|(tag & d & rest & ig' & rd' & d' & E & Ht & Hd & Hl & Hr & Ho)]; [by exists [], [], bs|].
  subst bs. rewrite carried_one, Ho by done. rewrite open_whole in Ho by done. cbv zeta in Ho.
  destruct (bool_decide (mac4 (update d m) = tag)) eqn:Ec.
  - apply bool_decide_eq_true in Ec. injection Ho as <- <- <-. destruct (IH rest ltac:(lia) Hr) as (fs & ds & r & -> & Hfs & Hds & E).
    exists (frame tag d :: fs), ds, r. cbn [concat]. rewrite <- app_assoc. split; [done|]. split; [|by split]. constructor; [|done]. by exists d; subst tag.
  - case_bool_decide as Htag; [|discriminate Ho]. injection Ho as <- <- <-.
    destruct (carried_sound_open fuel (update (mac4 (update d rd)) (update d rd)) rest ltac:(lia) Hr) as (ds & r & -> & Hds & ->).
    exists [], (d :: ds), r. split; [cbn [frames concat]; by rewrite Htag, <- app_assoc|]. split; [done|]. split; [by constructor|done].
Qed.

(** ** Writing *)
(** The hasher after some frames. *)
Definition after (m : HmacSha1) (ds : list bytes) : HmacSha1 := foldl (λ m d, update (mac4 (update d m)) (update d m)) m ds.

Lemma frames_app m ds es : frames m (ds ++ es) = frames m ds ++ frames (after m ds) es.
Proof. revert m. induction ds as [|d ds IH]; intros m; [done|]. cbn [frames app]. by rewrite IH, <- app_assoc. Qed.

Lemma after_app m ds es : after m (ds ++ es) = after (after m ds) es.
Proof. apply foldl_app. Qed.

Lemma add_frames acc m ds : foldl add_frame (acc, m) ds = (acc ++ frames m ds, after m ds).
Proof.
  revert acc m. induction ds as [|d ds IH]; intros acc m; cbn [foldl frames]; [by rewrite app_nil_r|].
  unfold add_frame at 2. cbn [fst snd]. by rewrite IH, <- app_assoc.
Qed.

(** The pieces a write is cut into. *)
Definition pieces (d : bytes) : list bytes := chunks (length d) (Z.to_nat MAX_FRAME_PAYLOAD) d.

Lemma chunks_concat fuel n bs : (0 < n)%nat → (length bs <= fuel)%nat → concat (chunks fuel n bs) = bs.
Proof.
  intros Hn. revert bs. induction fuel as [|fuel IH]; intros bs Hf; [by destruct bs; [|simpl in Hf; lia]|].
  destruct bs as [|x bs]; [done|]. cbn [chunks concat]. rewrite IH; [apply take_drop|]. rewrite length_drop. simpl in *. lia.
Qed.

Lemma chunks_len fuel n bs : Forall (λ d, (length d <= n)%nat) (chunks fuel n bs).
Proof.
  revert bs. induction fuel as [|fuel IH]; intros bs; [constructor|]. destruct bs as [|x bs]; [constructor|]. cbn [chunks].
  constructor; [rewrite length_take; lia|apply IH].
Qed.

Lemma pieces_concat d : concat (pieces d) = d.
Proof. apply chunks_concat; [unfold MAX_FRAME_PAYLOAD, HMAC_SIZE; lia|done]. Qed.

Lemma pieces_ok d : Forall data_ok (pieces d).
Proof.
  eapply Forall_impl; [apply chunks_len|]. intros e He. unfold data_ok, len, MAX_FRAME_PAYLOAD, HMAC_SIZE in *. lia.
Qed.

(** Queued bytes that are not on the wire. *)
Definition unsent v : bytes := drop (Z.to_nat (write_pos v)) (write_pending v).

Lemma relay_drain_loop_ok fuel err v : 0 <= write_pos v <= len (write_pending v) → (length (answers (inner v)) < fuel)%nat →
  let '(p, v') := drain_loop fuel err v in
  write_hmac v' = write_hmac v ∧ 0 <= write_pos v' <= len (write_pending v') ∧ write_pending v' = write_pending v ∧
  sent (inner v') ++ unsent v' = sent (inner v) ++ unsent v ∧
  match p with
  | Ready (Ok _) => write_pos v' = len (write_pending v')
  | Pending | Ready (Err _) => write_pos v' < len (write_pending v')
  | _ => False
  end.
Proof.
  revert v. induction fuel as [|fuel IH]; intros v Hp Hf; [lia|]. cbn [drain_loop].
  destruct (Z.ltb_spec (write_pos v) (len (write_pending v))) as [Hlt|Hge].
  2: { split; [done|]. split; [done|]. split; [done|]. split; [done|lia]. }
  destruct (raw_write (drop (Z.to_nat (write_pos v)) (write_pending v)) (inner v)) as [p i] eqn:E.
  apply raw_write_sent in E as [Hin Hres]. destruct p as [|[n|e| |]]; try done.
  - cbn. unfold unsent. cbn. rewrite Hres. split_and!; done || lia.
  - destruct Hres as (Hn & Hs & Ha). destruct (Z.eqb_spec n 0) as [->|Hn0].
    + cbn. unfold unsent. cbn. change (take (Z.to_nat 0) _) with (@nil Z) in Hs. rewrite Hs, app_nil_r. split_and!; done || lia.
    + assert (len (drop (Z.to_nat (write_pos v)) (write_pending v)) = len (write_pending v) - write_pos v) as Hd
        by (unfold len in *; rewrite length_drop; lia).
      set (w := with_writing i (write_hmac v) (write_pending v) (write_pos v + n) v).
      specialize (IH w ltac:(cbn; lia) ltac:(cbn; lia)). destruct (drain_loop fuel err w) as [q v'] eqn:Ew.
      destruct IH as (H1 & H2 & H3 & H4 & H5). split; [done|]. split; [done|]. split; [done|]. split; [|done]. rewrite H4. cbn. unfold unsent. cbn.
      rewrite Hs, <- app_assoc. f_equal. rewrite <- (take_drop (Z.to_nat n) (drop (Z.to_nat (write_pos v)) (write_pending v))) at 2.
      f_equal. rewrite drop_drop. f_equal. lia.
  - cbn. unfold unsent. cbn. rewrite Hres. split_and!; done || lia.
Qed.

Lemma drain_ok err v : 0 <= write_pos v <= len (write_pending v) →
  let '(p, v') := drain err v in
  write_hmac v' = write_hmac v ∧ 0 <= write_pos v' <= len (write_pending v') ∧ write_pending v' = write_pending v ∧
  sent (inner v') ++ unsent v' = sent (inner v) ++ unsent v ∧
  match p with
  | Ready (Ok _) => write_pos v' = len (write_pending v')
  | Pending | Ready (Err _) => write_pos v' < len (write_pending v')
  | _ => False
  end.
Proof. intros Hp. apply relay_drain_loop_ok; [done|lia]. Qed.

(** Reads leave the write side alone. *)
Record keeps_writer v v' : Prop := {
  kw_hmac : write_hmac v' = write_hmac v;
  kw_pending : write_pending v' = write_pending v;
  kw_pos : write_pos v' = write_pos v;
}.

Lemma keeps_trans u v w : keeps_writer u v → keeps_writer v w → keeps_writer u w.
Proof. intros [] []. split; congruence. Qed.

Lemma frame_round_keeps h b v : keeps_writer v (frame_round h b v).2.
Proof. unfold frame_round, verify_frame. repeat case_match; by split. Qed.

Lemma relay_read_round_keeps room v : keeps_writer v (read_round room v).2.
Proof.
  unfold read_round. destruct (_ <? _); [by split|]. destruct (_ || _); [by split|].
  destruct (fill _ _ _) as [[[|[[]|e| |]] h] i]; try (by split). destruct (_ <? _); [by split|].
  destruct (fill _ _ _) as [[[|[[]|e| |]] b] j]; try (by split). eapply keeps_trans; [|apply frame_round_keeps]. by split.
Qed.

Lemma relay_poll_read_keeps room v : keeps_writer v (poll_read room v).2.
Proof.
  unfold poll_read. generalize (S (S (length (arriving (inner v))))) as fuel. intros fuel. revert v.
  induction fuel as [|fuel IH]; intros v; cbn [read_loop]; [by split|]. pose proof (relay_read_round_keeps room v) as Hk.
  destruct (read_round room v) as [[a|] v1]; [done|]. eapply keeps_trans; [exact Hk|apply IH].
Qed.

(** ** A caller *)
(** Polls in any order and with any buffers.  [queued] are the buffers that became
    frames, [accepted] the bytes the writes reported, [pend] a write that has not been
    answered, and [orderly] says that no other buffer was offered in its place and no
    flush or shutdown came before its answer. *)
Record Caller := { queued : list bytes; accepted : list bytes; pend : option bytes; orderly : bool; stream : ShadowTlsIo }.
Inductive stream_op := Write (buf : bytes) | Flush | Shutdown | Read (room : Z).

Definition caller v : Caller := {| queued := []; accepted := []; pend := None; orderly := true; stream := v |}.

Definition with_stream v (c : Caller) : Caller :=
  {| queued := queued c; accepted := accepted c; pend := pend c; orderly := orderly c; stream := v |}.

(** [poll_write] queues a buffer when nothing is left of the last one. *)
Definition note_write (buf : bytes) (c : Caller) : Caller :=
  {| queued := if bool_decide (buf ≠ []) && (write_pos (stream c) =? len (write_pending (stream c))) then queued c ++ [buf] else queued c;
     accepted := accepted c; pend := pend c;
     orderly := orderly c && match pend c with Some b => bool_decide (buf = b) | None => true end; stream := stream c |}.
Definition note_flush (c : Caller) : Caller :=
  {| queued := queued c; accepted := accepted c; pend := pend c; orderly := orderly c && bool_decide (pend c = None); stream := stream c |}.
Definition answered (n : Z) (buf : bytes) (c : Caller) : Caller :=
  {| queued := queued c; accepted := if n =? 0 then accepted c else accepted c ++ [take (Z.to_nat n) buf]; pend := None;
     orderly := orderly c; stream := stream c |}.
Definition unanswered (buf : bytes) (c : Caller) : Caller :=
  {| queued := queued c; accepted := accepted c; pend := Some buf; orderly := orderly c; stream := stream c |}.

Definition perform (op : stream_op) (c : Caller) : outcome Caller :=
  let unit_result (r : poll unit * ShadowTlsIo) c :=
    match r with
    | (Pending, v) | (Ready (Ok _), v) | (Ready (Err _), v) => Ok (with_stream v c)
    | (Ready Panic, _) => Panic
    | (Ready Diverge, _) => Diverge
    end in
  match op with
  | Write buf =>
      let c := note_write buf c in
      match poll_write buf (stream c) with
      | (Ready (Ok n), v) => Ok (answered n buf (with_stream v c))
      | (Pending, v) | (Ready (Err _), v) => Ok (unanswered buf (with_stream v c))
      | (Ready Panic, _) => Panic
      | (Ready Diverge, _) => Diverge
      end
  | Flush => unit_result (poll_flush (stream c)) (note_flush c)
  | Shutdown => unit_result (poll_shutdown (stream c)) (note_flush c)
  | Read room =>
      match poll_read room (stream c) with
      | (Ready Panic, _) => Panic
      | (Ready Diverge, _) => Diverge
      | (_, v) => Ok (with_stream v c)
      end
  end.

Fixpoint run (ops : list stream_op) (c : Caller) : outcome Caller :=
  match ops with [] => Ok c | op :: ops => c ← perform op c; run ops c end.

Section writing.
Variables (m0 : HmacSha1) (base : bytes).

Definition on_wire (ps : list bytes) : bytes := frames m0 (flat_map pieces ps).
Definition started (p : option bytes) : list bytes := match p with Some b => [b] | None => [] end.

(** The write side: what was queued is on the wire or waits behind it. *)
Record writing (ps : list bytes) v : Prop := {
  w_pos : 0 <= write_pos v <= len (write_pending v);
  w_wire : sent (inner v) ++ unsent v = base ++ on_wire ps;
  w_hmac : write_hmac v = after m0 (flat_map pieces ps);
  w_reading : wf v;
}.

(** And an orderly caller knows how far it is. *)
Record calling (c : Caller) : Prop := {
  c_writing : writing (queued c) (stream c);
  c_orderly : orderly c = true → queued c = accepted c ++ started (pend c) ∧
    match pend c with
    | Some b => b ≠ [] ∧ write_pos (stream c) < len (write_pending (stream c))
    | None => write_pos (stream c) = len (write_pending (stream c))
    end;
}.

Lemma unsent_done v : write_pos v = len (write_pending v) → unsent v = [].
Proof. intros E. unfold unsent. rewrite E. apply drop_ge. unfold len. lia. Qed.

Lemma on_wire_snoc ps b : on_wire (ps ++ [b]) = on_wire ps ++ frames (after m0 (flat_map pieces ps)) (pieces b).
Proof. unfold on_wire. rewrite flat_map_app. cbn [flat_map]. by rewrite app_nil_r, frames_app. Qed.

Lemma after_snoc ps b : after m0 (flat_map pieces (ps ++ [b])) = after (after m0 (flat_map pieces ps)) (pieces b).
Proof. rewrite flat_map_app. cbn [flat_map]. by rewrite app_nil_r, after_app. Qed.

(** A queued write: the frames wait behind what was sent. *)
Lemma queue_ok b ps v : writing ps v → write_pos v = len (write_pending v) → writing (ps ++ [b]) (queue_frame b v).
Proof.
  intros [Hpos Hwire Hmac Hwf] Hidle. unfold queue_frame. fold (pieces b). rewrite add_frames.
  pose proof (len_nonneg (frames (write_hmac v) (pieces b))). rewrite (unsent_done _ Hidle), app_nil_r in Hwire. split; cbn.
  - lia.
  - unfold unsent. cbn. by rewrite drop_0, Hwire, on_wire_snoc, Hmac, <- app_assoc.
  - by rewrite after_snoc, Hmac.
  - exact Hwf.
Qed.

(** Draining keeps what is queued, whatever the connection answers. *)
Lemma drained_ok err ps v : writing ps v →
  let '(p, v') := drain err v in
  writing ps v' ∧
  match p with
  | Ready (Ok _) => write_pos v' = len (write_pending v')
  | Pending | Ready (Err _) => write_pos v' < len (write_pending v')
  | _ => False
  end.
Proof.
  intros [Hpos Hwire Hmac Hwf]. pose proof (drain_ok err v Hpos) as Hd.
  assert (wf (drain err v).2) as Hw.
  { unfold drain. generalize (S (length (answers (inner v)))) as fuel. intros fuel. clear -Hwf. revert v Hwf.
    induction fuel as [|fuel IH]; intros v Hwf; cbn [drain_loop]; [done|]. destruct (_ <? _); [|done].
    destruct (raw_write _ _) as [[|[n|e| |]] i]; try done. destruct (n =? 0); [done|]. by apply IH. }
  destruct (drain err v) as [p v']. destruct Hd as (D1 & D2 & D3 & D4 & D5). split; [|done]. split; [done|by rewrite D4|by rewrite D1|done].
Qed.

Lemma writing_done ps v i : writing ps v → write_pos v = len (write_pending v) → sent i = sent (inner v) → incoming i = incoming (inner v) →
  writing ps (with_writing i (write_hmac v) [] 0 v).
Proof.
  intros [H1 H2 H3 H4] Hd Hs Hin. rewrite (unsent_done _ Hd) in H2. split; cbn; try done. unfold unsent. cbn. by rewrite Hs.
Qed.

Lemma writing_inner ps v i : writing ps v → sent i = sent (inner v) →
  writing ps (with_writing i (write_hmac v) (write_pending v) (write_pos v) v).
Proof. intros [H1 H2 H3 H4] Hs. split; cbn; try done. by rewrite Hs. Qed.

(** What a write offers the connection: its own frames behind nothing, or what is left. *)
Definition offered (buf : bytes) v : ShadowTlsIo := if write_pos v =? len (write_pending v) then queue_frame buf v else v.

Lemma offered_ok buf c : buf ≠ [] → calling c →
  writing (queued (note_write buf c)) (offered buf (stream c)) ∧
  (orderly (note_write buf c) = true → queued (note_write buf c) = accepted c ++ [buf]).
Proof.
  intros Hb [Hw Ho]. unfold note_write, offered. cbn [queued orderly]. rewrite bool_decide_eq_true_2 by done. cbn [andb].
  destruct (Z.eqb_spec (write_pos (stream c)) (len (write_pending (stream c)))) as [He|Hne].
  - split; [by apply queue_ok|]. intros [Hor Hp]%andb_true_iff. destruct (Ho Hor) as [-> Hpend].
    destruct (pend c) as [b|]; [lia|]. cbn [started]. by rewrite app_nil_r.
  - split; [done|]. intros [Hor Hp]%andb_true_iff. destruct (Ho Hor) as [-> Hpend].
    destruct (pend c) as [b|]; [|done]. apply bool_decide_eq_true in Hp as ->. done.
Qed.

Lemma relay_write_ok buf c : calling c → match perform (Write buf) c with Ok c' => calling c' | _ => False end.
Proof.
  intros Hc. cbn [perform]. unfold poll_write. case_bool_decide as Hb.
  { subst buf. destruct Hc as [Hw Ho]. cbn [note_write stream]. split; [exact Hw|]. cbn. intros [Hor Hp]%andb_true_iff. destruct (Ho Hor) as [-> Hpend].
    destruct (pend c) as [b|]; [|done]. apply bool_decide_eq_true in Hp as <-. by destruct Hpend. }
  destruct (offered_ok buf c Hb Hc) as [Hw Ho]. change (stream (note_write buf c)) with (stream c). fold (offered buf (stream c)).
  assert (0 < len buf) as Hl by (destruct buf; [done|rewrite len_cons; pose proof (len_nonneg buf); lia]).
  pose proof (drained_ok "shadow-tls: failed to write frame" _ _ Hw) as Hd. destruct (drain _ _) as [p v']. destruct Hd as [Hw' D].
  destruct p as [|[[]|e| |]]; try done.
  - split; [exact Hw'|]. intros Hor. split; [by apply Ho|done].
  - unfold answered. rewrite (proj2 (Z.eqb_neq _ _)) by lia. rewrite take_ge by (unfold len; lia).
    split; [by apply writing_done|]. cbn. intros Hor. split; [|done]. rewrite app_nil_r. by apply Ho.
  - split; [exact Hw'|]. intros Hor. split; [by apply Ho|done].
Qed.

(** A flush before nothing is left finds what was queued; between writes, nothing. *)
Lemma relay_flush_writing ps v : writing ps v →
  let '(p, v') := poll_flush v in
  writing ps v' ∧ match p with Pending | Ready (Ok _) | Ready (Err _) => True | _ => False end ∧
  (write_pos v = len (write_pending v) → write_pos v' = len (write_pending v')).
Proof.
  intros Hw. unfold poll_flush. pose proof (drained_ok "shadow-tls: failed to flush frame" ps v Hw) as Hd.
  assert (write_pos v = len (write_pending v) → drain "shadow-tls: failed to flush frame" v = (Ready (Ok tt), v)) as Hquiet
    by (intros Hi; unfold drain; cbn [drain_loop]; by rewrite (proj2 (Z.ltb_ge _ _)) by lia).
  destruct (drain _ v) as [p v1]. destruct Hd as [Hw1 D]. destruct p as [|[[]|e| |]]; try done.
  - split; [done|]. split; [done|]. by intros ?%Hquiet.
  - destruct (raw_flush (inner v1)) as [p i] eqn:E. apply raw_flush_sent in E as (_ & Hs & Hp). split; [by apply writing_inner|].
    split; [by destruct p as [|[[]|e| |]]|done].
  - split; [done|]. split; [done|]. by intros ?%Hquiet.
Qed.

Lemma relay_shutdown_writing ps v : writing ps v →
  let '(p, v') := poll_shutdown v in
  writing ps v' ∧ match p with Pending | Ready (Ok _) | Ready (Err _) => True | _ => False end ∧
  (write_pos v = len (write_pending v) → write_pos v' = len (write_pending v')).
Proof.
  intros Hw. unfold poll_shutdown. pose proof (relay_flush_writing ps v Hw) as Hf. destruct (poll_flush v) as [[|[[]|e| |]] v1]; try done.
  destruct Hf as (Hw1 & _ & Hq). destruct (raw_flush (inner v1)) as [p i] eqn:E. apply raw_flush_sent in E as (_ & Hs & Hp).
  split; [by apply writing_inner|]. split; [by destruct p as [|[[]|e| |]]|exact Hq].
Qed.

Lemma quiet_calling c v : calling c → writing (queued c) v →
  (write_pos (stream c) = len (write_pending (stream c)) → write_pos v = len (write_pending v)) → calling (with_stream v (note_flush c)).
Proof.
  intros [_ Ho] Hw Hq. split; [exact Hw|]. cbn. intros [Hor Hp%bool_decide_eq_true]%andb_true_iff. destruct (Ho Hor) as [Hqd Hpend].
  rewrite Hp in *. split; [done|]. by apply Hq.
Qed.

Definition room_ok (op : stream_op) : Prop := match op with Read room => 0 <= room | _ => True end.

Lemma read_writing room ps v : 0 <= room → writing ps v →
  let '(p, v') := poll_read room v in
  writing ps v' ∧ p ≠ Ready Panic ∧ p ≠ Ready Diverge ∧ write_pos v' = write_pos v ∧ write_pending v' = write_pending v.
Proof.
  intros Hroom [H1 H2 H3 H4]. pose proof (relay_poll_read_ok room v H4 Hroom) as Hr. pose proof (relay_poll_read_keeps room v) as [K1 K2 K3].
  destruct (poll_read room v) as [p v1]. destruct Hr as (Hw & Hs & _ & Hp). cbn [fst snd] in *.
  split; [|by destruct p as [|[]]]. split; unfold unsent in *; rewrite ?K1, ?K2, ?K3, ?Hs; done.
Qed.

Lemma relay_perform_ok op c : room_ok op → calling c → match perform op c with Ok c' => calling c' | _ => False end.
Proof.
  intros Hroom Hc. pose proof Hc as [Hw Ho]. destruct op as [buf| | |room]; [by apply relay_write_ok|..]; cbn [perform].
  - pose proof (relay_flush_writing _ _ Hw) as Hf. destruct (poll_flush (stream c)) as [[|[[]|e| |]] v]; destruct Hf as (H1 & H2 & H3); try done;
      by apply quiet_calling.
  - pose proof (relay_shutdown_writing _ _ Hw) as Hf. destruct (poll_shutdown (stream c)) as [[|[[]|e| |]] v]; destruct Hf as (H1 & H2 & H3); try done;
      by apply quiet_calling.
  - pose proof (read_writing room _ _ Hroom Hw) as Hr. destruct (poll_read room (stream c)) as [[|[bs|e| |]] v]; destruct Hr as (H1 & H2 & H3 & E1 & E2);
      try done; split; cbn [queued stream orderly accepted pend with_stream]; rewrite ?E1, ?E2; done.
Qed.

Lemma relay_run_ok ops c : Forall room_ok ops → calling c → ∃ c', run ops c = Ok c' ∧ calling c'.
Proof.
  intros Hops. revert c. induction Hops as [|op ops Hop _ IH]; intros c Hc; cbn [run]; [by exists c|]. pose proof (relay_perform_ok op c Hop Hc) as Hp.
  destruct (perform op c) as [c1|e| |]; try done. obind. by apply IH.
Qed.
End writing.

Lemma calling_new raw password random role :
  calling (hmac_password password [random; write_label role]) (sent raw) (caller (ShadowTlsIo_new raw password random role)).
Proof. split; [split; cbn; try done; by split; [|left]|done]. Qed.

Lemma remaining_new raw password random role :
  let v := ShadowTlsIo_new raw password random role in
  wf v ∧ remaining v = carried (Some (hmac_password password [random])) (hmac_password password [random; read_label role]) (arriving raw).
Proof. split; [by split; [|left]|done]. Qed.

(** C16. What the relay hands over is authentic. However the connection cuts, delays, ends or
    fails, and whatever bytes it brings, no read panics or runs for ever, and what the
    reads hand over is, in order and once, the beginning of the data of frames that
    stand at the head of what arrives, behind control frames of the server, and carry
    the tags a writer with the password and the server's random value computes. As long
    as the connection itself neither ends nor fails, all of that data has been handed
    over when a read finds the end, fails, or waits with nothing more to come. *)
Theorem shadow_read_spec raw password random role rooms rs v :
  is_bytes (arriving raw) → Forall (λ n, 0 <= n) rooms → reads poll_read rooms (ShadowTlsIo_new raw password random role) = (rs, v) →
  Forall (λ p, p ≠ Ready Panic ∧ p ≠ Ready Diverge) rs ∧ sent (inner v) = sent raw ∧
  ∃ controls ds rest,
    arriving raw = concat controls ++ frames (hmac_password password [random; read_label role]) ds ++ rest ∧
    Forall (control (hmac_password password [random])) controls ∧ Forall data_ok ds ∧
    delivered rs `prefix_of` concat ds ∧
    (steady (incoming raw) → Forall (λ n, 0 < n) rooms → exhausted rs v → delivered rs = concat ds).
Proof.
  intros Hbs Hrooms E. destruct (remaining_new raw password random role) as [Hwf Hrem].
  pose proof (reads_ok rooms _ Hwf Hrooms) as Hr. rewrite E, Hrem in Hr. destruct Hr as (Hpre & Hs & Hf & Hall). split; [done|]. split; [done|].
  destruct (carried_sound (length (arriving raw)) (hmac_password password [random]) (hmac_password password [random; read_label role]) (arriving raw))
    as (fs & ds & rest & Ha & Hfs & Hds & Hc); [done|done|].
  exists fs, ds, rest. rewrite Hc in Hpre, Hall. done.
Qed.

(** C15. The relay sends frames of what it was given, and the other end reads them back.
    However the client's writes, flushes, shutdowns and reads follow each other, with
    whatever buffers, and however its connection delays, shortens and fails them, no poll
    panics or runs for ever, and the bytes sent and still queued are always frames of
    exactly the buffers that were offered when nothing was left to send, whole and in
    order.  For a caller that offers an unanswered write again with its buffer, before
    any flush, those are the buffers its writes reported and the one under way, and
    nothing is left to send between its writes.  (Other callers duplicate or lose data:
    [flush_duplicates], [longer_retry_loses].)  When frames of [ps] arrive at the server,
    behind control frames of its own protocol and however cut, its reads hand over
    exactly the bytes of [ps], unless the first tag happens to be that of a control
    frame. *)
Theorem shadow_relay_spec raw password random ops :
  let m := hmac_password password [random; write_label Client] in
  Forall room_ok ops →
  (∃ c, run ops (caller (ShadowTlsIo_new raw password random Client)) = Ok c ∧
    sent (inner (stream c)) ++ unsent (stream c) = sent raw ++ on_wire m (queued c) ∧
    (orderly c = true → queued c = accepted c ++ started (pend c) ∧ (pend c = None → unsent (stream c) = []))) ∧
  ∀ raw' controls ps rooms rs v,
    arriving raw' = concat controls ++ on_wire m ps → Forall (control (hmac_password password [random])) controls →
    told_apart (hmac_password password [random]) m (flat_map pieces ps) →
    Forall (λ n, 0 <= n) rooms → reads poll_read rooms (ShadowTlsIo_new raw' password random Server) = (rs, v) →
    delivered rs `prefix_of` concat ps ∧
    (steady (incoming raw') → Forall (λ n, 0 < n) rooms → exhausted rs v → delivered rs = concat ps).
Proof.
  intros m Hops. split.
  - destruct (relay_run_ok m (sent raw) ops _ Hops (calling_new raw password random Client)) as (c & E & [Hw Ho]). exists c. split; [done|].
    split; [apply Hw|]. intros Hor. destruct (Ho Hor) as [Hq Hp]. split; [done|]. intros Hn. rewrite Hn in Hp. by apply unsent_done.
  - intros raw' fs ps rooms rs v Ha Hfs Ht Hrooms Er. destruct (remaining_new raw' password random Server) as [Hwf Hrem].
    pose proof (reads_ok rooms _ Hwf Hrooms) as Hr. rewrite Er, Hrem, Ha in Hr. destruct Hr as (Hpre & _ & _ & Hall).
    assert (carried (Some (hmac_password password [random])) (hmac_password password [random; read_label Server]) (concat fs ++ on_wire m ps) = concat ps) as Hc.
    { change (read_label Server) with (write_label Client). fold m.
      assert (concat (flat_map pieces ps) = concat ps) as <-.
      { clear. induction ps as [|p ps IH]; [done|]. cbn [flat_map concat]. by rewrite concat_app, pieces_concat, IH. }
      assert (Forall data_ok (flat_map pieces ps)) as Hds by (clear; induction ps; cbn [flat_map]; [constructor|apply Forall_app; split; [apply pieces_ok|done]]).
      unfold on_wire. destruct (flat_map pieces ps) as [|d ds] eqn:Ed.
      - cbn [frames]. rewrite carried_controls by done. done.
      - destruct (carried_stream (hmac_password password [random]) m fs (d :: ds) [] Hfs Hds Ht) as [rd' Hrd]; [done|].
        rewrite app_nil_r in Hrd. rewrite Hrd. change (carried None rd' []) with (@nil Z). by rewrite app_nil_r. }
    rewrite Hc in Hpre, Hall. by split.
Qed.
End relay.

(** ** The handshake *)
Section handshake.
Context {M : Macs}.
Implicit Types (t : HandshakeTap).

Lemma u16_in record pos : is_bytes record → 0 <= pos → pos + 2 <= len record → ∃ n, idx_u16 record pos = Ok n ∧ 0 <= n.
Proof.
  intros Hbs H0 Hl. destruct (idx_u16_in record pos) as [n Hn]; [lia..|]. exists n. split; [done|]. apply (idx_u16_bound _ _ _ Hbs Hn).
Qed.

Lemma extensions_returns fuel record : ∀ pos stop, is_bytes record → 0 <= pos → stop <= len record → Z.max 0 (stop - pos) < Z.of_nat fuel →
  ∃ b, extensions fuel record pos stop = Ok b.
Proof.
  induction fuel as [|fuel IH]; intros pos stop Hbs Hp Hs Hf; [lia|]. cbn [extensions].
  destruct (Z.leb_spec (pos + 4) stop); [|by eexists].
  destruct (u16_in record pos) as (ty & -> & _); [done|lia..|]. obind. destruct (u16_in record (pos + 2)) as (n & -> & Hn); [done|lia..|]. obind.
  destruct (Z.ltb_spec stop (pos + 4 + n)); [by eexists|]. destruct (ty =? SUPPORTED_VERSIONS_TYPE); [|apply IH; done || lia].
  destruct (Z.eqb_spec n 2) as [->|]; [|by eexists]. destruct (u16_in record (pos + 4)) as (v & -> & _); [done|lia..|]. by eexists.
Qed.

Lemma support_tls13_returns record : is_bytes record → ∃ b, support_tls13 record = Ok b.
Proof.
  intros Hbs. unfold support_tls13. set (p := SERVER_RANDOM_IDX + TLS_RANDOM_SIZE). assert (p = 43) as Hp43 by done. clearbody p.
  destruct (Z.leb_spec (len record) p); [by eexists|]. destruct (idx_in record p) as [n Hn]; [lia..|]. rewrite Hn. obind.
  assert (0 <= n) as Hn0 by (apply (is_bytes_idx _ _ _ Hbs Hn)).
  destruct (Z.ltb_spec (len record) (p + (1 + n + 3) + 2)); [by eexists|].
  destruct (u16_in record (p + (1 + n + 3))) as (total & -> & Ht); [done|lia..|]. obind.
  apply extensions_returns; [done|lia|lia|]. unfold len in *. lia.
Qed.

(** A whole record: its header names its length. *)
Definition whole (r : bytes) : Prop := is_bytes r ∧ 5 <= len r ∧ len r = 5 + of_be (range r 3 5).
#[global] Instance whole_dec r : Decision (whole r).
Proof. unfold whole, is_bytes. apply _. Defined.

Definition tap_state : Type := option HandshakeState * bool * bool.
Definition state_of t : tap_state := (state t, auth_checked t, authorized t).

Lemma inspect_returns pw r st checked ok : whole r → ∃ shown st', inspect pw r st checked ok = Ok (shown, st') ∧ 5 <= len shown.
Proof.
  intros (Hbs & Hl & Hn). unfold inspect. destruct (idx_in r 0) as [k Hk]; [lia..|]. rewrite Hk. obind.
  destruct ((k =? TLS_HANDSHAKE) && _ && _) eqn:E.
  - apply andb_true_iff in E as [E _]. apply andb_true_iff in E as [_ E]. apply Z.ltb_lt in E.
    rewrite sub_in by (unfold SERVER_RANDOM_IDX, TLS_RANDOM_SIZE, TLS_HEADER_SIZE in *; lia). obind.
    destruct (support_tls13_returns r Hbs) as [b ->]. obind. eexists _, _; split; [reflexivity|exact Hl].
  - clear E. destruct st as [s|]; [|eexists _, _; split; [reflexivity|exact Hl]]. destruct ((k =? TLS_APPLICATION_DATA) && negb checked); [|eexists _, _; split; [reflexivity|exact Hl]].
    destruct (Z.ltb_spec TLS_HMAC_HEADER_SIZE (len r)) as [Hl9|]; [|eexists _, _; split; [reflexivity|exact Hl]].
    rewrite sub_in by (unfold TLS_HMAC_HEADER_SIZE, TLS_HEADER_SIZE, HMAC_SIZE in *; lia). obind.
    case_bool_decide; [|eexists _, _; split; [reflexivity|exact Hl]]. eexists _, _. split; [done|]. unfold unsplice. rewrite !len_app, len_be16.
    assert (len (take 3 r) = 3) by (unfold len in *; rewrite length_take; lia). pose proof (len_nonneg (xor_cycle (key s) (drop 9 r))). lia.
Qed.

(** Records inspected one after the other. *)
Fixpoint inspect_all (pw : bytes) (st : tap_state) (rs : list bytes) : outcome (bytes * tap_state) :=
  match rs with
  | [] => Ok ([], st)
  | r :: rs =>
      '(shown, st) ← inspect pw r st.1.1 st.1.2 st.2;
      '(more, st) ← inspect_all pw st rs;
      Ok (shown ++ more, st)
  end.

Lemma inspect_all_app pw st rs rs' : inspect_all pw st (rs ++ rs') =
  ('(a, st) ← inspect_all pw st rs; '(b, st) ← inspect_all pw st rs'; Ok (a ++ b, st)).
Proof.
  revert st. induction rs as [|r rs IH]; intros st; cbn [inspect_all app].
  - obind. by destruct (inspect_all pw st rs') as [[b st']| | |].
  - destruct (inspect pw r _ _ _) as [[a st1]| | |]; try done. obind. rewrite IH. destruct (inspect_all pw st1 rs) as [[b st2]| | |]; try done. obind.
    destruct (inspect_all pw st2 rs') as [[c st3]| | |]; try done. obind. by rewrite app_assoc.
Qed.

(** Where the reads of a tap stand: the records taken so far, and what became of them. *)
Definition tap_assembled t : bytes := tap_hdr t ++ (if bool_decide (tap_hdr t = []) then [] else tap_body t).
Record tapping (pw all : bytes) t (got : bytes) (rs : list bytes) : Prop := {
  tp_password : password t = pw;
  tp_pos : 0 <= pending_pos t <= len (pending t);
  tp_all : all = concat rs ++ tap_assembled t ++ arriving (tap_inner t);
  tp_whole : Forall whole rs;
  tp_shown : inspect_all pw (None, false, false) rs = Ok (got ++ drop (Z.to_nat (pending_pos t)) (pending t), state_of t);
  tp_part : tap_hdr t = [] ∨ len (tap_hdr t) < 5 ∧ tap_body t = [] ∨
            len (tap_hdr t) = 5 ∧ len (tap_body t) < Z.max 1 (of_be (range (tap_hdr t) 3 5));
}.

Lemma process_ok r t : whole r → ∃ shown st, inspect (password t) r (state t) (auth_checked t) (authorized t) = Ok (shown, st) ∧ 5 <= len shown ∧
  process_record r t = Ok (with_pending shown 0 (with_state st.1.1 st.1.2 st.2 t)).
Proof.
  intros Hw. destruct (inspect_returns (password t) r (state t) (auth_checked t) (authorized t) Hw) as (shown & [[s c] o] & E & Hl).
  exists shown, (s, c, o). unfold process_record. by rewrite E.
Qed.

Definition tap_round_ok (pw all : bytes) (got : bytes) (res : poll bytes * HandshakeTap) (rs : list bytes) : Prop :=
  match res with
  | (Ready (Ok bs), t') => ∃ rs', tapping pw all t' (got ++ bs) (rs ++ rs')
  | (Pending, t') | (Ready (Err _), t') => tapping pw all t' got rs
  | _ => False
  end.

Lemma tap_deliver_ok pw all room t got rs : tapping pw all t got rs → 0 <= room →
  ∃ bs t', tap_deliver room t = (Ready (Ok bs), t') ∧ tapping pw all t' (got ++ bs) rs.
Proof.
  intros [H1 H2 H3 H4 H5 H6] Hr. unfold tap_deliver. set (n := Z.min room (len (pending t) - pending_pos t)).
  eexists _, _. split; [reflexivity|]. split; cbn; try done; [lia|]. rewrite H5. f_equal. f_equal. rewrite <- app_assoc. f_equal.
  unfold range. rewrite <- (take_drop (Z.to_nat (pending_pos t + n - pending_pos t)) (drop _ _)) at 1. rewrite drop_drop. f_equal. f_equal. lia.
Qed.

Lemma tap_loop_ok pw all room t got rs : is_bytes all → tapping pw all t got rs → 0 < room → len (pending t) <= pending_pos t →
  tap_round_ok pw all got (tap_loop 1 room t) rs.
Proof.
  intros Hby [H1 H2 H3 H4 H5 H6] Hr Hend. cbn [tap_loop]. unfold tap_round.
  assert (drop (Z.to_nat (pending_pos t)) (pending t) = []) as Hp by (apply drop_ge; unfold len in *; lia).
  set (b := if bool_decide (tap_hdr t = []) then [] else tap_body t).
  assert (len (tap_hdr t) <= 5) as Hh5 by (destruct H6 as [->|[[] |[] ]]; [by cbn|lia..]).
  destruct (fill TLS_HEADER_SIZE (tap_hdr t) (tap_inner t)) as [[pr h] i] eqn:E.
  apply fill_ok in E as (bs & Eh & Ha & Hl & _ & _ & _ & Hres); [|done].
  assert (len (tap_hdr t) < 5 → b = []) as Hb0.
  { intros Hlt. unfold b. case_bool_decide; [done|]. destruct H6 as [?|[[] |[] ]]; [done|done|lia]. }
  assert (len h = len (tap_hdr t) + len bs) as Hlh by (by rewrite Eh, len_app).
  assert (tap_hdr t ++ b ++ bs = h ++ b) as Hswap.
  { destruct (Z.lt_ge_cases (len (tap_hdr t)) 5) as [Hlt|Hge']; [by rewrite Hb0, Eh, app_nil_r by done|].
    unfold TLS_HEADER_SIZE in Hl. pose proof (len_nonneg bs). assert (bs = []) as -> by (apply len_zero_nil; lia). rewrite Eh, !app_nil_r. done. }
  assert (all = concat rs ++ h ++ b ++ arriving i) as Hall.
  { rewrite H3. unfold tap_assembled. fold b. rewrite Ha, <- app_assoc. f_equal. by rewrite (app_assoc b), (app_assoc (tap_hdr t)), Hswap, <- app_assoc. }
  destruct (Z.lt_ge_cases (len h) 5) as [Hh|Hh].
  { assert (b = []) as Eb by (apply Hb0; pose proof (len_nonneg bs); lia).
    assert (tapping pw all (with_assembly i h b t) got rs) as Ht.
    { split; cbn; try done; [|right; left; by split]. rewrite Hall, Eb. unfold tap_assembled. cbn. by case_bool_decide; rewrite app_nil_r. }
    destruct pr as [|[[]|e| |]]; try done; [unfold TLS_HEADER_SIZE in Hres; lia|]. exists []. by rewrite !app_nil_r. }
  assert (len h = 5) as Hh' by (unfold TLS_HEADER_SIZE in Hl; lia). clear Hh.
  destruct pr as [|[[]|e| |]]; try done; unfold TLS_HEADER_SIZE in Hres; try lia. clear Hres.
  set (n := of_be (range h 3 5)).
  assert (is_bytes h) as Hbh.
  { unfold is_bytes in *. rewrite Hall in Hby. apply Forall_app in Hby as [_ Hby]. by apply Forall_app in Hby as [Hby _]. }
  assert (0 <= n) as Hn by (apply of_be_bound; by apply is_bytes_range).
  assert (len b <= n) as Hbn.
  { destruct (Z.lt_ge_cases (len (tap_hdr t)) 5) as [Hlt|Hge']; [by rewrite Hb0|].
    pose proof (len_nonneg bs). assert (bs = []) as -> by (apply len_zero_nil; lia). rewrite app_nil_r in Eh. subst h.
    destruct H6 as [Hz|[[] |[_ Hb]]]; [rewrite Hz in Hge'; cbn in Hge'; lia|lia|]. unfold b. case_bool_decide; [done|]. fold n in Hb. lia. }
  destruct (fill n b i) as [[pr b'] i'] eqn:E'.
  apply fill_ok in E' as (bs' & Eb' & Ha' & Hl' & _ & _ & _ & Hres'); [|done].
  assert (all = concat rs ++ (h ++ b') ++ arriving i') as Hall' by (rewrite Hall, Ha', Eb'; by rewrite <- !app_assoc).
  assert (len b' < n → tapping pw all (with_assembly i' h b' t) got rs) as Hpart.
  { intros Hlt. split; cbn; try done; [|right; right; fold n; split; [done|lia]]. rewrite Hall'. unfold tap_assembled. cbn.
    rewrite bool_decide_eq_false_2; [done|]. intros ->. by cbn in Hh'. }
  destruct pr as [|[[]|e| |]]; try done; [by apply Hpart| |by apply Hpart, Hres'|by apply Hpart, Hres'].
  assert (whole (h ++ b')) as Hwh.
  { unfold whole. rewrite len_app, range_app_l by lia. fold n. pose proof (len_nonneg b'). split; [|lia].
    unfold is_bytes in *. rewrite Hall' in Hby. apply Forall_app in Hby as [_ Hby]. by apply Forall_app in Hby as [Hby _]. }
  destruct (process_ok (h ++ b') (with_assembly i' [] b' t) Hwh) as (shown & st & Hin & Hls & ->). cbn [password state auth_checked authorized with_assembly] in Hin.
  cbn [pending pending_pos with_pending]. rewrite (proj2 (Z.ltb_lt 0 (len shown))) by lia.
  assert (tapping pw all (with_pending shown 0 (with_state st.1.1 st.1.2 st.2 (with_assembly i' [] b' t))) got (rs ++ [h ++ b'])) as Ht.
  { split; cbn; try done; [lia| | | |by left].
    - rewrite Hall', concat_app. cbn [concat]. by rewrite app_nil_r, <- !app_assoc.
    - apply Forall_app. split; [done|]. by constructor.
    - rewrite inspect_all_app, H5, Hp, app_nil_r. obind. cbn [inspect_all]. cbn [fst snd state_of]. rewrite <- H1, Hin. obind. rewrite app_nil_r.
      destruct st as [[]]. done. }
  destruct (tap_deliver_ok pw all room _ got _ Ht ltac:(lia)) as (out & t' & -> & Hd). by exists [h ++ b'].
Qed.

Lemma tap_read_ok pw all room t got rs : is_bytes all → tapping pw all t got rs → 0 <= room → tap_round_ok pw all got (tap_read room t) rs.
Proof.
  intros Hby Ht Hr. unfold tap_read. destruct (Z.ltb_spec (pending_pos t) (len (pending t))) as [Hlt|Hge].
  { destruct (tap_deliver_ok pw all room t got rs Ht Hr) as (bs & t' & -> & Hd). exists []. by rewrite app_nil_r. }
  destruct (Z.eqb_spec room 0); [exists []; by rewrite !app_nil_r|]. apply tap_loop_ok; done || lia.
Qed.

Lemma tap_reads_ok pw all rooms t got rs : is_bytes all → tapping pw all t got rs → Forall (λ n, 0 <= n) rooms →
  let '(ps, t') := reads tap_read rooms t in
  Forall (λ p, p ≠ Ready Panic ∧ p ≠ Ready Diverge) ps ∧ ∃ rs', tapping pw all t' (got ++ delivered ps) rs'.
Proof.
  intros Hby. revert t got rs. induction rooms as [|room rooms IH]; intros t got rs Ht Hr; cbn [reads].
  { split; [constructor|]. exists rs. cbn. by rewrite app_nil_r. }
  apply Forall_cons in Hr as [Hr Hrs]. pose proof (tap_read_ok pw all room t got rs Hby Ht Hr) as Hp. unfold tap_round_ok in Hp.
  destruct (tap_read room t) as [[|[bs|e| |]] t1]; try done.
  - specialize (IH t1 got rs Hp Hrs). destruct (reads tap_read rooms t1) as [ps t2]. destruct IH as [Hf [rs' Hrs']]. split; [by constructor|]. by exists rs'.
  - destruct Hp as [rs1 Ht1]. specialize (IH t1 (got ++ bs) (rs ++ rs1) Ht1 Hrs). destruct (reads tap_read rooms t1) as [ps t2]. destruct IH as [Hf [rs' Hrs']].
    split; [by constructor|]. exists rs'. change (delivered (Ready (Ok bs) :: ps)) with (bs ++ delivered ps). by rewrite app_assoc.
  - split; [by repeat constructor|]. exists rs. cbn. by rewrite app_nil_r.
Qed.

(** ** What inspection does to records *)
Definition is_hello (r : bytes) : bool :=
  bool_decide (head r = Some TLS_HANDSHAKE) && (43 <? len r) && bool_decide (byte_at r 5 = Some SERVER_HELLO).
Definition is_app_data (r : bytes) : bool := bool_decide (head r = Some TLS_APPLICATION_DATA).

(** The record a server signs, around the genuine one with header bytes [v1 v2]. *)
Definition spliced (pw random : bytes) (v1 v2 : Z) (payload : bytes) : bytes :=
  let x := xor_cycle (kdf pw random) payload in
  [TLS_APPLICATION_DATA; v1; v2] ++ be16 (HMAC_SIZE + len x) ++ mac4 (update x (hmac_password pw [random])) ++ x.
Definition genuine (v1 v2 : Z) (payload : bytes) : bytes := [TLS_APPLICATION_DATA; v1; v2] ++ be16 (len payload) ++ payload.

Lemma len_xor_cycle k bs : len (xor_cycle k bs) = len bs.
Proof. unfold xor_cycle, len. by rewrite length_imap. Qed.

Lemma xor_cycle_twice k bs : xor_cycle k (xor_cycle k bs) = bs.
Proof.
  unfold xor_cycle. apply list_eq. intros i. rewrite !list_lookup_imap. destruct (bs !! i) as [b|]; [|done]. cbn. f_equal.
  by rewrite Z.lxor_assoc, Z.lxor_nilpotent, Z.lxor_0_r.
Qed.

Lemma whole_head r : whole r → ∃ k, idx r 0 = Ok k ∧ head r = Some k.
Proof. intros (_ & Hl & _). destruct r as [|k r]; [by cbn in Hl|]. by exists k. Qed.

Lemma hello_test r k : head r = Some k →
  (k =? TLS_HANDSHAKE) && (SERVER_RANDOM_IDX + TLS_RANDOM_SIZE <? len r) && bool_decide (byte_at r TLS_HEADER_SIZE = Some SERVER_HELLO) = is_hello r.
Proof.
  intros Hk. unfold is_hello. rewrite Hk. change (SERVER_RANDOM_IDX + TLS_RANDOM_SIZE) with 43. change TLS_HEADER_SIZE with 5. f_equal. f_equal.
  destruct (Z.eqb_spec k TLS_HANDSHAKE); case_bool_decide; congruence.
Qed.

Lemma app_data_test r k : head r = Some k → (k =? TLS_APPLICATION_DATA) = is_app_data r.
Proof. intros Hk. unfold is_app_data. rewrite Hk. destruct (Z.eqb_spec k TLS_APPLICATION_DATA); case_bool_decide; congruence. Qed.

(** The three things that happen to a record. *)
Lemma inspect_hello pw r st c o : whole r → is_hello r = true →
  ∃ b, inspect pw r st c o = Ok (r, (Some (HandshakeState_new pw (range r 11 43) b), c, o)).
Proof.
  intros Hw Hh. destruct (whole_head r Hw) as (k & Hi & Hk). unfold inspect. rewrite Hi. obind. rewrite (hello_test r k Hk), Hh.
  unfold is_hello in Hh. apply andb_true_iff in Hh as [Hh _]. apply andb_true_iff in Hh as [_ Hl]. apply Z.ltb_lt in Hl.
  change (SERVER_RANDOM_IDX) with 11. rewrite sub_in by lia. obind. destruct (support_tls13_returns r ltac:(apply Hw)) as [b ->]. obind. by exists b.
Qed.

Lemma inspect_other pw r st c o : whole r → is_hello r = false →
  inspect pw r st c o = Ok (r, (st, c, o)) ∧ (st = None ∨ c = true ∨ is_app_data r = false) ∨
  ∃ s, st = Some s ∧ c = false ∧ is_app_data r = true ∧
    (inspect pw r st c o = Ok (r, (st, true, o)) ∧ ¬ (9 < len r ∧ range r 5 9 = mac4 (update (drop 9 r) (hmac_sr s))) ∨
     inspect pw r st c o = Ok (unsplice (key s) r, (st, true, true)) ∧ 9 < len r ∧ range r 5 9 = mac4 (update (drop 9 r) (hmac_sr s))).
Proof.
  intros Hw Hh. destruct (whole_head r Hw) as (k & Hi & Hk). unfold inspect. rewrite Hi. obind. rewrite (hello_test r k Hk), Hh, (app_data_test r k Hk).
  destruct st as [s|]; [|by left; split; [|left]]. destruct (is_app_data r), c; cbn [andb negb]; try (by left; split; [|by auto]). right. exists s. split; [done|]. split; [done|]. split; [done|].
  change TLS_HMAC_HEADER_SIZE with 9. change TLS_HEADER_SIZE with 5. destruct (Z.ltb_spec 9 (len r)); [|left; split; [done|lia]].
  rewrite sub_in by lia. obind. case_bool_decide; [by right|left]. split; [done|]. by intros [_ ?].
Qed.

(** States come from a ServerHello. *)
Definition known (pw : bytes) (hellos : list bytes) (st : tap_state) : Prop :=
  match st.1.1 with
  | Some s => ∃ r b, r ∈ hellos ∧ is_hello r = true ∧ s = HandshakeState_new pw (range r 11 43) b
  | None => True
  end.

(** A record signed with the password for the random value of a ServerHello. *)
Definition signed (pw : bytes) (rs : list bytes) : Prop :=
  ∃ hello r, hello ∈ rs ∧ is_hello hello = true ∧ r ∈ rs ∧ is_app_data r = true ∧
    range r 5 9 = mac4 (update (drop 9 r) (hmac_password pw [range hello 11 43])).

Lemma inspect_all_sound pw rs : ∀ st hellos shown st', Forall whole rs → known pw hellos st → inspect_all pw st rs = Ok (shown, st') →
  (st.2 = true → st'.2 = true) ∧ (st'.2 = false → shown = concat rs) ∧ (st'.2 = true → st.2 = true ∨ signed pw (hellos ++ rs)).
Proof.
  induction rs as [|r rs IH]; intros [[st c] o] hellos shown st' Hw Hk; cbn [inspect_all fst snd].
  { intros [= <- <-]. cbn. split; [done|]. split; [done|]. by left. }
  apply Forall_cons in Hw as [Hr Hw]. intros Hin.
  assert (∀ x st1 more, known pw (hellos ++ [r]) st1 → inspect_all pw st1 rs = Ok (more, st') → shown = x ++ more →
    (st1.2 = true → st'.2 = true) ∧ (st'.2 = false → shown = x ++ concat rs) ∧
    (st'.2 = true → st1.2 = true ∨ signed pw (hellos ++ r :: rs))) as Hnext.
  { intros x st1 more Hk1 E ->. destruct (IH _ _ _ _ Hw Hk1 E) as (I1 & I2 & I3). rewrite <- app_assoc in I3. split; [done|]. split; [|done].
    intros Hf. by rewrite (I2 Hf). }
  assert (∀ h, h ∈ hellos → h ∈ hellos ++ [r]) as Hsub by (intros; apply elem_of_app; by left).
  assert (known pw (hellos ++ [r]) (st, c, o)) as Hk'.
  { unfold known in *. cbn in *. destruct st as [s|]; [|done]. destruct Hk as (h & b & Hh & ?). exists h, b. split; [by apply Hsub|done]. }
  destruct (is_hello r) eqn:Eh.
  { destruct (inspect_hello pw r st c o Hr Eh) as [b E]. rewrite E in Hin. cbn [mbind outcome_bind] in Hin.
    destruct (inspect_all pw _ rs) as [[more st2]| | |] eqn:Er; cbn in Hin; try discriminate Hin. injection Hin as <- <-.
    apply (Hnext r (Some (HandshakeState_new pw (range r 11 43) b), c, o) more); [|exact Er|done]. unfold known. cbn. exists r, b. split; [apply elem_of_app; right; apply list_elem_of_here|done]. }
  destruct (inspect_other pw r st c o Hr Eh) as [[E _]|(s & -> & -> & Ha & [[E _]|(E & Hl & Hs)])]; rewrite E in Hin; cbn [mbind outcome_bind] in Hin;
    destruct (inspect_all pw _ rs) as [[more st2]| | |] eqn:Er; cbn in Hin; try discriminate Hin; injection Hin as <- <-.
  - by apply (Hnext r (st, c, o) more Hk' Er).
  - by apply (Hnext r (Some s, true, o) more Hk' Er).
  - destruct (Hnext _ (Some s, true, true) more Hk' Er eq_refl) as (N1 & N2 & N3). cbn in N1, N2. split; [by intros _; apply N1|].
    split; [intros Hf; by rewrite N1 in Hf|]. intros _. right. unfold known in Hk. cbn in Hk. destruct Hk as (h & b & Hh & Hhello & ->).
    exists h, r. split; [apply elem_of_app; by left|]. split; [done|]. split; [apply elem_of_app; right; apply list_elem_of_here|]. by split.
Qed.

Lemma inspect_same pw l : ∀ st c o, Forall whole l → Forall (λ r, is_hello r = false) l →
  st = None ∨ c = true ∨ Forall (λ r, is_app_data r = false) l → inspect_all pw (st, c, o) l = Ok (concat l, (st, c, o)).
Proof.
  induction l as [|r l IH]; intros st c o Hw Hh Hs; [done|]. apply Forall_cons in Hw as [Hr Hw]. apply Forall_cons in Hh as [Hrh Hh]. cbn [inspect_all fst snd].
  assert (inspect pw r st c o = Ok (r, (st, c, o))) as ->.
  { destruct (inspect_other pw r st c o Hr Hrh) as [[? _]|(s & -> & -> & Ha & _)]; [done|]. destruct Hs as [?|[?|Hs]]; [done|done|].
    apply Forall_cons in Hs as [Hs _]. congruence. }
  obind. rewrite IH; [done|done|done|]. destruct Hs as [?|[?|Hs]]; [by left|by right; left|right; right]. by apply Forall_cons in Hs as [_ Hs].
Qed.

Lemma whole_cut r r' x y : whole r → whole r' → r ++ x = r' ++ y → r = r' ∧ x = y.
Proof.
  intros (_ & H5 & Hl) (_ & H5' & Hl') E. apply app_inj_1; [|done].
  assert (range r 3 5 = range r' 3 5) as Er by (rewrite <- (range_app_l r x 3 5), <- (range_app_l r' y 3 5), E by lia; done).
  rewrite Er in Hl. unfold len in *. lia.
Qed.

Lemma whole_prefix rs : ∀ l x, Forall whole rs → Forall whole l → concat rs ++ x = concat l → ∃ more, l = rs ++ more.
Proof.
  induction rs as [|r rs IH]; intros l x Hw Hl E; [by exists l|]. apply Forall_cons in Hw as [Hr Hw]. cbn [concat] in E. rewrite <- app_assoc in E.
  destruct l as [|r' l]. { exfalso. destruct Hr as (_ & H5 & _). destruct r; [by cbn in H5|done]. }
  apply Forall_cons in Hl as [Hr' Hl]. cbn [concat] in E. destruct (whole_cut _ _ _ _ Hr Hr' E) as [-> E'].
  destruct (IH l x Hw Hl E') as [more ->]. by exists more.
Qed.

Lemma inspect_prefix pw st rs more out st1 all st2 :
  inspect_all pw st rs = Ok (out, st1) → inspect_all pw st (rs ++ more) = Ok (all, st2) → out `prefix_of` all.
Proof.
  rewrite inspect_all_app. intros ->. obind. destruct (inspect_all pw st1 more) as [[b st3]| | |]; try done. obind. intros [= <- _]. by apply prefix_app_r.
Qed.

Lemma spliced_parts pw random v1 v2 payload : len payload <= MAX_FRAME_PAYLOAD →
  let r := spliced pw random v1 v2 payload in
  let x := xor_cycle (kdf pw random) payload in
  len r = 9 + len payload ∧ of_be (range r 3 5) = HMAC_SIZE + len payload ∧
  take 3 r = [TLS_APPLICATION_DATA; v1; v2] ∧ drop 9 r = x ∧ range r 5 9 = mac4 (update x (hmac_password pw [random])).
Proof.
  unfold MAX_FRAME_PAYLOAD. intros Hl. pose proof (len_nonneg payload). cbv zeta. unfold spliced. set (x := xor_cycle (kdf pw random) payload).
  assert (len x = len payload) as Hx by apply len_xor_cycle. set (tag := mac4 _). assert (len tag = 4) as Ht by apply len_mac4.
  change (be16 (HMAC_SIZE + len x)) with [((HMAC_SIZE + len x) / 256) mod 256; (HMAC_SIZE + len x) mod 256]. cbn [app].
  destruct tag as [|a [|b [|c [|d [|]]]]]; try (exfalso; unfold len in Ht; simpl in Ht; lia). cbn [app].
  split; [rewrite !len_cons, Hx; lia|]. split; [|split; [done|split; [done|]]].
  - change (range _ 3 5) with (be16 (HMAC_SIZE + len x)). rewrite of_be_be16 by (unfold u16, HMAC_SIZE in *; lia). lia.
  - done.
Qed.

Lemma inspect_spliced pw random b v1 v2 payload o : 0 < len payload <= MAX_FRAME_PAYLOAD → whole (spliced pw random v1 v2 payload) →
  inspect pw (spliced pw random v1 v2 payload) (Some (HandshakeState_new pw random b)) false o =
  Ok (genuine v1 v2 payload, (Some (HandshakeState_new pw random b), true, true)).
Proof.
  intros Hl Hw. destruct (spliced_parts pw random v1 v2 payload ltac:(lia)) as (Hlen & Hbe & H3 & H9 & Htag). cbv zeta in *.
  set (r := spliced pw random v1 v2 payload) in *.
  assert (is_hello r = false ∧ is_app_data r = true) as [Hh Ha] by done.
  destruct (inspect_other pw r (Some (HandshakeState_new pw random b)) false o Hw Hh) as [[_ [?|[?|?]]]|(s & [= <-] & _ & _ & [[_ Hn]|(E & _)])]; [done|done|congruence|..].
  - exfalso. apply Hn. split; [lia|]. by rewrite H9, Htag.
  - rewrite E. f_equal. f_equal. unfold unsplice. cbn [key HandshakeState_new]. rewrite H3, H9, xor_cycle_twice. unfold genuine, as_u16.
    unfold MAX_FRAME_PAYLOAD, HMAC_SIZE in *. rewrite Z.mod_small by lia. done.
Qed.
(** What a TLS client is shown of a stream of records: the signed one is the genuine one. *)
Lemma inspect_flight pw before hello middle v1 v2 payload later : 0 < len payload <= MAX_FRAME_PAYLOAD →
  let r := spliced pw (range hello 11 43) v1 v2 payload in
  Forall whole (before ++ [hello] ++ middle ++ [r] ++ later) → is_hello hello = true →
  Forall (λ r, is_hello r = false) (before ++ middle ++ later) → Forall (λ r, is_app_data r = false) middle →
  ∃ b, let s := Some (HandshakeState_new pw (range hello 11 43) b) in
  inspect_all pw (None, false, false) (before ++ [hello] ++ middle) = Ok (concat before ++ hello ++ concat middle, (s, false, false)) ∧
  inspect_all pw (s, false, false) (r :: later) = Ok (genuine v1 v2 payload ++ concat later, (s, true, true)).
Proof.
  intros Hl r Hw Hhello Hh Ha. rewrite !Forall_app in Hw. destruct Hw as (Hwb & Hwh & Hwm & Hwr & Hwl). rewrite !Forall_app in Hh.
  destruct Hh as (Hhb & Hhm & Hhl). apply Forall_cons in Hwh as [Hwh _]. apply Forall_cons in Hwr as [Hwr _].
  destruct (inspect_hello pw hello None false false Hwh Hhello) as [b Hin]. exists b. cbv zeta. split.
  - rewrite inspect_all_app, inspect_same by auto. obind. cbn [app inspect_all fst snd]. rewrite Hin. obind. by rewrite inspect_same by auto.
  - cbn [inspect_all fst snd]. unfold r. rewrite inspect_spliced by done. obind. by rewrite inspect_same by auto.
Qed.

Lemma prefix_cases {A} (a b rs more : list A) : a ++ b = rs ++ more → rs `prefix_of` a ∨ ∃ x, rs = a ++ x ∧ b = x ++ more.
Proof.
  intros E. destruct (prefix_weak_total rs a (rs ++ more)) as [H|[x ->]]; [by exists more|by exists b|by left|]. right. exists x.
  split; [done|]. rewrite <- app_assoc in E. by simplify_list_eq.
Qed.

(** C14. The handshake is a man in the middle of its own making, and only the password opens
    it. However the connection cuts, delays, ends or fails, and whatever it brings, no
    read of the TLS client panics or runs for ever. Unless a record signed with the
    password, for the random value of a ServerHello, has arrived, the client is shown the
    bytes of the server unchanged and no relay is opened. When the server signs the first
    application data after its ServerHello, the client is shown the genuine stream: the
    signature gone, the payload decoded, the length corrected, every other record as it
    came; and a client that has been shown any of the signed record has the relay opened
    with the password and that ServerHello's random value. *)
Theorem shadow_handshake_spec raw pw rooms ps t :
  is_bytes (arriving raw) → Forall (λ n, 0 <= n) rooms → reads tap_read rooms (HandshakeTap_new raw pw) = (ps, t) →
  Forall (λ p, p ≠ Ready Panic ∧ p ≠ Ready Diverge) ps ∧
  (if authorized t
   then ∃ rs rest, arriving raw = concat rs ++ rest ∧ Forall whole rs ∧ signed pw rs
   else delivered ps `prefix_of` arriving raw ∧ open_relay t = Err "shadow-tls authentication failed") ∧
  ∀ before hello middle v1 v2 payload later to_come,
    0 < len payload <= MAX_FRAME_PAYLOAD → let r := spliced pw (range hello 11 43) v1 v2 payload in
    Forall whole (before ++ [hello] ++ middle ++ [r] ++ later) → is_hello hello = true →
    Forall (λ r, is_hello r = false) (before ++ middle ++ later) → Forall (λ r, is_app_data r = false) middle →
    arriving raw ++ to_come = concat (before ++ [hello] ++ middle ++ [r] ++ later) →
    let shown := concat before ++ hello ++ concat middle in
    delivered ps `prefix_of` shown ++ genuine v1 v2 payload ++ concat later ∧
    (len shown < len (delivered ps) → open_relay t = Ok (ShadowTlsIo_new (tap_inner t) pw (range hello 11 43) Client)).
Proof.
  intros Hby Hrooms E. assert (tapping pw (arriving raw) (HandshakeTap_new raw pw) [] []) as Ht by (split; cbn; first [done|by left|by split]).
  pose proof (tap_reads_ok pw _ rooms _ _ _ Hby Ht Hrooms) as Hok. rewrite E in Hok. destruct Hok as [Hf [rs [Hpw _ Hall Hwh Hin _]]]. cbn [app] in Hin.
  split; [done|]. set (unshown := drop _ _) in Hin. split.
  - destruct (inspect_all_sound pw rs (None, false, false) [] _ _ Hwh I Hin) as (_ & Hsame & Hsig). cbn in Hsame, Hsig.
    destruct (authorized t) eqn:Ea.
    + exists rs, (tap_assembled t ++ arriving (tap_inner t)). split; [done|]. split; [done|]. by destruct (Hsig eq_refl).
    + split; [|by unfold open_relay; rewrite Ea]. rewrite Hall, <- (Hsame eq_refl), <- app_assoc. by apply prefix_app_r.
  - intros before hello middle v1 v2 payload later to_come Hl r Hw Hhello Hh Ha Hflight shown.
    destruct (inspect_flight pw before hello middle v1 v2 payload later Hl Hw Hhello Hh Ha) as (b & H1 & H2). cbv zeta in *. fold r shown in H1, H2.
    rewrite Hall, <- app_assoc in Hflight. destruct (whole_prefix rs _ _ Hwh Hw Hflight) as [more Hmore].
    assert (delivered ps `prefix_of` delivered ps ++ unshown) as Hd by by apply prefix_app_r.
    assert (inspect_all pw (None, false, false) (before ++ [hello] ++ middle ++ [r] ++ later) =
      Ok (shown ++ genuine v1 v2 payload ++ concat later, (Some (HandshakeState_new pw (range hello 11 43) b), true, true))) as H12.
    { assert (before ++ [hello] ++ middle ++ [r] ++ later = (before ++ [hello] ++ middle) ++ r :: later) as -> by (by rewrite <- !app_assoc).
      rewrite inspect_all_app, H1. obind. by rewrite H2. }
    split; [etrans; [exact Hd|]; rewrite Hmore in H12; by apply (inspect_prefix _ _ _ _ _ _ _ _ Hin H12)|]. intros Hlen.
    destruct (prefix_cases (before ++ [hello] ++ middle) (r :: later) rs more) as [[x Hx]|(x & -> & Hx)]; [rewrite <- Hmore; by rewrite <- !app_assoc| |].
    { exfalso. rewrite Hx in H1. pose proof (inspect_prefix _ _ _ _ _ _ _ _ Hin H1) as Hp. assert (delivered ps `prefix_of` shown) as Hp' by by etrans.
      apply prefix_length in Hp'. unfold len in *. lia. }
    destruct x as [|r' x].
    { exfalso. rewrite app_nil_r, H1 in Hin. injection Hin as Hs _. fold shown in Hs. rewrite Hs, len_app in Hlen. pose proof (len_nonneg unshown). lia. }
    injection Hx as <- ->. rewrite inspect_all_app, H1 in Hin. cbn [mbind outcome_bind] in Hin.
    destruct (inspect_flight pw before hello middle v1 v2 payload x Hl) as (b' & H1' & H2'); [| | |done|].
    { rewrite !Forall_app in Hw. rewrite !Forall_app. by destruct Hw as (? & ? & ? & ? & ? & _). }
    { done. }
    { rewrite !Forall_app in Hh. rewrite !Forall_app. by destruct Hh as (? & ? & ? & _). }
    fold shown in H1'. cbv zeta in H1'. rewrite H1 in H1'. injection H1' as Eb. subst b'. fold r in H2'. rewrite H2' in Hin. cbn [mbind outcome_bind] in Hin.
    injection Hin as _ Es _ Eo. unfold open_relay. rewrite <- Eo, <- Es. cbn. by rewrite Hpw.
Qed.
End handshake.

(** ** Concrete streams *)
(** A sum of the fed bytes in place of the digests. *)
Definition toy_digest (n : nat) (bs : bytes) : bytes :=
  be_bytes n (foldl (λ h b, (h * 65599 + (b + 1) * 2 ^ (8 * Z.of_nat n - 40)) mod 2 ^ (8 * Z.of_nat n)) 0 bs).

#[local] Program Instance toy_macs : Macs := {|
  hmac_sha1 k m := toy_digest 20 (k ++ 0 :: m);
  sha256 m := toy_digest 32 m;
|}.
Next Obligation. intros k m. apply len_be_bytes. Qed.
Next Obligation. intros m. apply len_be_bytes. Qed.

Definition ex_hello : bytes := [22; 3; 3; 0; 39; 2; 0; 0; 35; 3; 3] ++ be_bytes 32 (2 ^ 200 + 77) ++ [9].
Definition ex_sealed : bytes := spliced (lit "pw") (range ex_hello 11 43) 3 3 [5; 6; 7].

(** A control frame, then two data frames, cut inside a header and a body, then a frame
    that neither end has made. *)
Definition ex_ignored : HmacSha1 := hmac_password (lit "pw") [lit "random"].
Definition ex_reading : bytes :=
  frame (mac4 (update [1] ex_ignored)) [1] ++
  frames (hmac_password (lit "pw") [lit "random"; lit "S"]) [[1; 2; 3]; [4]] ++ frame (mac4 (update [8] ex_ignored)) [9].
Definition ex_raw (stream : bytes) : Raw :=
  {| incoming := [Chunk (take 3 stream); ReadPending; Chunk (take 14 (drop 3 stream)); Chunk (drop 17 stream)]; answers := []; sent := [] |}.

Lemma shadow_read_spec_witness :
  let '(rs, v) := reads poll_read [9; 9; 2; 9; 9] (ShadowTlsIo_new (ex_raw ex_reading) (lit "pw") (lit "random") Client) in
  delivered rs = [1; 2; 3; 4] ∧ ∃ controls ds rest,
    ex_reading = concat controls ++ frames (hmac_password (lit "pw") [lit "random"; lit "S"]) ds ++ rest ∧
    Forall (control ex_ignored) controls ∧ [1; 2; 3; 4] = concat ds.
Proof.
  destruct (reads _ _ _) as [rs v] eqn:E.
  assert (rs = [Pending; Ready (Ok [1; 2; 3]); Ready (Ok [4]); Ready (Err "shadow-tls: frame HMAC mismatch")]) as Hrs
    by (change rs with (rs, v).1; rewrite <- E; by vm_compute).
  destruct (shadow_read_spec (ex_raw ex_reading) (lit "pw") (lit "random") Client [9; 9; 2; 9; 9] rs v) as (_ & _ & fs & ds & rest & Ha & Hfs & _ & _ & Hall);
    [decided|repeat constructor; lia|done|].
  split; [by rewrite Hrs|]. exists fs, ds, rest. split; [exact Ha|]. split; [done|]. rewrite <- Hall; [by rewrite Hrs|by repeat constructor|repeat constructor; lia|].
  right. left. eexists. rewrite Hrs. do 3 apply list_elem_of_further. apply list_elem_of_here.
Defined.

(** A write that drains in three polls, a flush, another write; and the server's end. *)
Definition ex_ops : list stream_op := [Write [1; 2; 3]; Write [1; 2; 3]; Write [1; 2; 3]; Flush; Read 4; Write [4]; Shutdown].

Lemma shadow_relay_spec_witness :
  let raw := {| incoming := []; answers := [Accept 5; WritePending; Accept 1; WritePending; Accept 99; Accept 99; Accept 99]; sent := [] |} in
  let m := hmac_password (lit "pw") [lit "random"; lit "C"] in
  ∃ c, run ex_ops (caller (ShadowTlsIo_new raw (lit "pw") (lit "random") Client)) = Ok c ∧
    accepted c = [[1; 2; 3]; [4]] ∧ sent (inner (stream c)) = on_wire m [[1; 2; 3]; [4]] ∧
    let '(rs, v) := reads poll_read [9; 9; 2; 9] (ShadowTlsIo_new (ex_raw (on_wire m [[1; 2; 3]; [4]])) (lit "pw") (lit "random") Server) in
    delivered rs = [1; 2; 3; 4].
Proof.
  intros raw m. assert (Forall room_ok ex_ops) as Hops by (repeat (constructor; [done|]); constructor).
  assert (match run ex_ops (caller (ShadowTlsIo_new raw (lit "pw") (lit "random") Client)) with
    | Ok c => accepted c = [[1; 2; 3]; [4]] ∧ pend c = None ∧ orderly c = true | _ => False end) as Hc by (vm_compute; repeat split).
  assert (let '(rs, v) := reads poll_read [9; 9; 2; 9] (ShadowTlsIo_new (ex_raw (on_wire m [[1; 2; 3]; [4]])) (lit "pw") (lit "random") Server) in
    rs = [Pending; Ready (Ok [1; 2; 3]); Ready (Ok [4]); Pending] ∧ incoming (inner v) = []) as Hv by (vm_compute; repeat split).
  destruct (shadow_relay_spec raw (lit "pw") (lit "random") ex_ops) as [(c & E & Hsent & Ho) Hread]; [exact Hops|].
  rewrite E in Hc. destruct Hc as (Hacc & Hpend & Hor). destruct (Ho Hor) as [Hq Hu]. exists c. split; [exact E|]. split; [exact Hacc|].
  split; [rewrite (Hu Hpend), app_nil_r, Hq, Hacc, Hpend in Hsent; exact Hsent|].
  destruct (reads _ _ _) as [rs v] eqn:Er. destruct Hv as [Hrs Hv].
  destruct (Hread (ex_raw (on_wire m [[1; 2; 3]; [4]])) [] [[1; 2; 3]; [4]] [9; 9; 2; 9] rs v) as [_ Hall];
    [vm_compute; reflexivity|constructor|vm_compute; discriminate|repeat constructor; lia|exact Er|].
  apply Hall; [vm_compute; repeat constructor|repeat constructor; lia|]. right. right. rewrite Hrs. unfold arriving. rewrite Hv. split; reflexivity.
Defined.

(** Part of the signed record has been shown. *)
Lemma shadow_handshake_spec_witness :
  let '(ps, t) := reads tap_read [50; 50; 7] (HandshakeTap_new (ex_raw (ex_hello ++ ex_sealed)) (lit "pw")) in
  delivered ps = ex_hello ++ take 7 (genuine 3 3 [5; 6; 7]) ∧
  open_relay t = Ok (ShadowTlsIo_new (tap_inner t) (lit "pw") (range ex_hello 11 43) Client).
Proof.
  assert (let '(ps, _) := reads tap_read [50; 50; 7] (HandshakeTap_new (ex_raw (ex_hello ++ ex_sealed)) (lit "pw")) in
    delivered ps = ex_hello ++ take 7 (genuine 3 3 [5; 6; 7])) as Hd by (vm_compute; reflexivity).
  destruct (reads _ _ _) as [ps t] eqn:E. split; [exact Hd|].
  destruct (shadow_handshake_spec (ex_raw (ex_hello ++ ex_sealed)) (lit "pw") [50; 50; 7] ps t) as (_ & _ & Hflight);
    [decided|repeat constructor; lia|exact E|]. clear E.
  destruct (Hflight [] ex_hello [] 3 3 [5; 6; 7] [] []) as [_ Hopen].
  - split; reflexivity || discriminate.
  - cbn [app]. decided.
  - reflexivity.
  - constructor.
  - constructor.
  - vm_compute; reflexivity.
  - apply Hopen. rewrite Hd. reflexivity.
Defined.

(** A connection that takes eight bytes and is then not ready, and again after the flush. *)
Definition slow_raw : Raw := {| incoming := []; answers := [Accept 8; WritePending; Accept 99; Accept 99; Accept 99]; sent := [] |}.

(** A flush between a pending write and its retry: the retry sends the data again. *)
Example flush_duplicates :
  let m := hmac_password (lit "pw") [lit "random"; lit "C"] in
  let '(w, v) := poll_write [1; 2; 3] (ShadowTlsIo_new slow_raw (lit "pw") (lit "random") Client) in
  let '(f, v) := poll_flush v in
  let '(w', v) := poll_write [1; 2; 3] v in
  w = Pending ∧ f = Ready (Ok tt) ∧ w' = Ready (Ok 3) ∧ sent (inner v) = on_wire m [[1; 2; 3]; [1; 2; 3]].
Proof. by vm_compute. Qed.

(** A retry with more bytes than the pending write: they are accepted and never sent. *)
Example longer_retry_loses :
  let m := hmac_password (lit "pw") [lit "random"; lit "C"] in
  let '(w, v) := poll_write [1; 2; 3] (ShadowTlsIo_new slow_raw (lit "pw") (lit "random") Client) in
  let '(w', v) := poll_write [1; 2; 3; 4; 5] v in
  w = Pending ∧ w' = Ready (Ok 5) ∧ sent (inner v) = on_wire m [[1; 2; 3]].
Proof. by vm_compute. Qed.
