(* ===== verification/StrOrder.v ===== *)
(** * Strings as keys

    The order of [String], which is the order of its scalar values, the entries of a
    [BTreeMap] and the least element of a [BTreeSet] under it. *)
From S2P Require Import Prelude Bytes Text Sorting.

#[local] Open Scope list_scope.
#[local] Open Scope Z_scope.

Abbreviation str := (list Z).

Fixpoint str_leb (a b : str) : bool :=
  match a, b with
  | [], _ => true
  | _, [] => false
  | x :: a, y :: b => if x =? y then str_leb a b else x <? y
  end.

(** By key. *)
Definition key_leb {A} (x y : str * A) : bool := str_leb x.1 y.1.

(** A [BTreeMap] in the order of its keys, and a [BTreeSet] in order. *)
Definition entries {A} (m : gmap str A) : list (str * A) := sort_by key_leb (map_to_list m).
Definition members (s : gset str) : list str := sort_by str_leb (elements s).

(** [BTreeSet::first]. *)
Definition first (s : gset str) : option str := head (members s).

Lemma str_leb_total a : ∀ b, str_leb a b = true ∨ str_leb b a = true.
Proof.
  induction a as [|x a IH]; intros [|y b]; cbn; [by left|by left|by right|]. rewrite (Z.eqb_sym y x).
  destruct (Z.eqb_spec x y); [apply IH|]. destruct (Z.ltb_spec x y), (Z.ltb_spec y x); (by left) || (by right) || lia.
Qed.

Lemma str_leb_trans a : ∀ b c, str_leb a b = true → str_leb b c = true → str_leb a c = true.
Proof.
  induction a as [|x a IH]; intros [|y b] [|z c]; cbn; try done.
  destruct (Z.eqb_spec x y) as [->|Hxy]; [destruct (Z.eqb_spec y z); [apply IH|done]|]. intros Hl%Z.ltb_lt.
  destruct (Z.eqb_spec y z) as [->|Hyz]; [destruct (Z.eqb_spec x z); [lia|]; intros _; by apply Z.ltb_lt|].
  intros Hl'%Z.ltb_lt. destruct (Z.eqb_spec x z); [lia|]. apply Z.ltb_lt. lia.
Qed.

Lemma str_leb_antisym a : ∀ b, str_leb a b = true → str_leb b a = true → a = b.
Proof.
  induction a as [|x a IH]; intros [|y b]; cbn; try done. rewrite (Z.eqb_sym y x).
  destruct (Z.eqb_spec x y) as [->|]; [intros H1 H2; f_equal; auto|].
  intros ?%Z.ltb_lt ?%Z.ltb_lt. lia.
Qed.

Lemma key_leb_total {A} (x y : str * A) : key_leb x y = true ∨ key_leb y x = true.
Proof. apply str_leb_total. Qed.

Lemma key_leb_trans {A} (x y z : str * A) : key_leb x y = true → key_leb y z = true → key_leb x z = true.
Proof. apply str_leb_trans. Qed.

Lemma entries_perm {A} (m : gmap str A) : entries m ≡ₚ map_to_list m.
Proof. apply sort_by_perm. Qed.

(** With distinct keys, the order of insertion does not show. *)
Lemma sort_by_key_unique {A} (l l' : list (str * A)) :
  NoDup l.*1 → l ≡ₚ l' → sort_by key_leb l = sort_by key_leb l'.
Proof.
  intros Hnd Hp.
  assert (sort_by key_leb l ≡ₚ sort_by key_leb l') as Hs by (by rewrite !sort_by_perm).
  assert (NoDup (sort_by key_leb l).*1) as Hn by (by rewrite sort_by_perm).
  pose proof (sort_by_sorted key_leb key_leb_total key_leb_trans l) as S1.
  pose proof (sort_by_sorted key_leb key_leb_total key_leb_trans l') as S2.
  generalize dependent (sort_by key_leb l'). generalize dependent (sort_by key_leb l). clear.
  intros s Hn S1. induction S1 as [|x s S1 IH Hx]; intros [|y s'] Hp S2; [done|by apply Permutation_nil_l in Hp|by apply Permutation_nil_r in Hp|].
  cbn in Hn. apply NoDup_cons in Hn as [Hxs Hn]. inversion S2 as [|? ? S2' Hy]; subst.
  assert (x = y) as ->.
  { assert (x ∈ y :: s') as [->|Hin]%elem_of_cons by (rewrite <- Hp; by left); [done|].
    assert (y ∈ x :: s) as [->|Hin']%elem_of_cons by (rewrite Hp; by left); [done|].
    rewrite Forall_forall in Hx, Hy. specialize (Hx _ Hin'). specialize (Hy _ Hin). cbn in *.
    destruct Hxs. apply list_elem_of_fmap. exists y. split; [|done]. by apply str_leb_antisym. }
  f_equal. apply IH; [done| |done]. by apply (inj (cons y)).
Qed.

Lemma first_none s : first s = None ↔ s = ∅.
Proof.
  unfold first, members. split.
  - intros H%head_None. apply (f_equal length) in H. rewrite (Permutation_length (sort_by_perm str_leb (elements s))) in H.
    apply leibniz_equiv, elements_empty_iff. by apply length_zero_iff_nil.
  - intros ->. by rewrite elements_empty.
Qed.

Lemma first_elem s x : first s = Some x → x ∈ s.
Proof.
  unfold first, members. intros H%head_Some_elem_of. rewrite sort_by_perm in H. by apply elem_of_elements.
Qed.
