(* ===== verification/Nodes.v ===== *)
(** * Nodes and their identity (config/model.rs, config/node_identity.rs)

    The data of a proxy node, its JSON form as serde derives it from the attributes of
    the types, and the fingerprint by which rules and groups refer to it. *)
From Stdlib Require Import String.
From S2P Require Import Prelude Bytes Text Net NetText Sorting StrOrder.

#[local] Open Scope string_scope.
#[local] Open Scope list_scope.
#[local] Open Scope Z_scope.

(** ** JSON values, as far as identities need them *)
(** The tree of [serde_json::Value], its recursive order of keys ([canonical] of
    config/node_identity.rs) and what that order forgets. *)
(** [Number] is an integer, [Float] the bits of an [f64]; an object lists its members
    in the order its map visits them. *)
Inductive Value :=
  | Null
  | Bool (b : bool)
  | Number (n : Z)
  | Float (bits : Z)
  | Text (s : str)
  | Array (l : list Value)
  | Object (l : list (str * Value)).

Section induction.
Context (P : Value → Prop).
Context (Hnull : P Null) (Hbool : ∀ b, P (Bool b)) (Hnumber : ∀ n, P (Number n)) (Hfloat : ∀ n, P (Float n)) (Htext : ∀ s, P (Text s)).
Context (Harray : ∀ l, Forall P l → P (Array l)) (Hobject : ∀ l, Forall (λ e, P e.2) l → P (Object l)).

Fixpoint value_tree_ind (v : Value) : P v :=
  match v with
  | Null => Hnull
  | Bool b => Hbool b
  | Number n => Hnumber n
  | Float n => Hfloat n
  | Text s => Htext s
  | Array l => Harray l ((fix go l : Forall P l := match l with [] => Forall_nil_2 _ | v :: l => Forall_cons_2 _ _ _ (value_tree_ind v) (go l) end) l)
  | Object l => Hobject l ((fix go l : Forall (λ e, P e.2) l := match l with [] => Forall_nil_2 _ | e :: l => Forall_cons_2 _ _ _ (value_tree_ind e.2) (go l) end) l)
  end.
End induction.

Fixpoint canonical (v : Value) : Value :=
  match v with
  | Object l => Object (sort_by key_leb (map (λ e, (e.1, canonical e.2)) l))
  | Array l => Array (map canonical l)
  | other => other
  end.

(** [Value::get_mut] of a key, and what is done there. *)
Definition update_field (key : str) (f : Value → Value) (v : Value) : Value :=
  match v with Object l => Object (map (λ e, if decide (e.1 = key) then (e.1, f e.2) else e) l) | _ => v end.

Definition lowercase_field (key : str) : Value → Value :=
  update_field key (λ v, match v with Text s => Text (to_ascii_lowercase s) | _ => v end).

(** ** What the order forgets *)
(** The keys of an object are those of a map. *)
Fixpoint unique_keys (v : Value) : Prop :=
  match v with
  | Object l => NoDup l.*1 ∧ (fix go l := match l with [] => True | e :: l => unique_keys e.2 ∧ go l end) l
  | Array l => (fix go l := match l with [] => True | e :: l => unique_keys e ∧ go l end) l
  | _ => True
  end.

(** Equal up to the order of the members, at every depth. *)
Inductive same : Value → Value → Prop :=
  | same_leaf v : same v v
  | same_array l l' : Forall2 same l l' → same (Array l) (Array l')
  | same_object l l' m : l' ≡ₚ m → Forall2 (λ x y, x.1 = y.1 ∧ same x.2 y.2) l m → same (Object l) (Object l').

Lemma unique_keys_object l : unique_keys (Object l) ↔ NoDup l.*1 ∧ Forall (λ e, unique_keys e.2) l.
Proof. cbn. apply and_iff_compat_l. induction l as [|e l IH]; [done|]. by rewrite Forall_cons, IH. Qed.

Lemma unique_keys_array l : unique_keys (Array l) ↔ Forall unique_keys l.
Proof. cbn. induction l as [|e l IH]; [done|]. by rewrite Forall_cons, IH. Qed.

Lemma same_refl v : same v v.
Proof. constructor. Qed.

Lemma canonical_keys l : (map (λ e : str * Value, (e.1, canonical e.2)) l).*1 = l.*1.
Proof. induction l as [|e l IH]; [done|]. cbn. by f_equal. Qed.

(** The canonical forms of two values are equal exactly when the values are, up to the
    order of the members. *)
Lemma canonical_same v : ∀ w, unique_keys v → unique_keys w → canonical v = canonical w ↔ same v w.
Proof.
  induction v as [|b|n|n|s|l IH|l IH] using value_tree_ind; intros w Hv Hw.
  1-5: split; [intros E; destruct w; cbn in E; first [discriminate E|done|injection E as ->; apply same_refl|apply same_refl]|inversion 1; by subst].
  - split.
    + destruct w as [| | | | |l'|]; try discriminate 1. cbn. intros [= E]. apply same_array.
      apply unique_keys_array in Hv, Hw. revert l' Hw E. induction IH as [|v l Hx _ IH]; intros [|w l'] Hw E; try discriminate E; [constructor|].
      apply Forall_cons in Hv as [Hv Hl], Hw as [Hw Hl']. injection E as E1 E2. constructor; [by apply Hx|auto].
    + inversion 1 as [|? l' HF|]; subst; [done|]. cbn. f_equal. apply unique_keys_array in Hv, Hw.
      clear H. revert Hv Hw. induction HF as [|v w l l' H1 HF IH']; intros Hv Hw; [done|]. apply Forall_cons in Hv as [Hv Hl], Hw as [Hw Hl'], IH as [IHv IH].
      cbn. f_equal; [by apply IHv|auto].
  - apply unique_keys_object in Hv as [Hn Hv]. split.
    + destruct w as [| | | | | |l']; try discriminate 1. cbn. intros [= E]. apply unique_keys_object in Hw as [Hn' Hw].
      assert (map (λ e : str * Value, (e.1, canonical e.2)) l' ≡ₚ map (λ e, (e.1, canonical e.2)) l) as Hp
        by (rewrite <- (sort_by_perm key_leb (map _ l')), <- E; apply sort_by_perm).
      symmetry in Hp. apply Permutation_map_inv in Hp as (m & Em & Hm). apply (same_object _ _ m); [done|]. rewrite Hm in Hw.
      clear -IH Hv Hw Em. revert m Hw Em. induction IH as [|x l Hx _ IH]; intros [|y m] Hw Em; try discriminate Em; [constructor|].
      apply Forall_cons in Hv as [Hv Hl], Hw as [Hw Hm]. injection Em as E1 E2 Em. constructor; [split; [done|by apply Hx]|auto].
    + intros Hs. inversion Hs as [| |? l' m Hm HF]; subst; [done|]. apply unique_keys_object in Hw as [Hn' Hw]. cbn. f_equal.
      apply sort_by_key_unique; [by rewrite canonical_keys|]. rewrite Hm. rewrite Hm in Hw. apply reflexive_eq.
      clear -IH Hv Hw HF. induction HF as [|x y l m [E1 E2] HF IH']; [done|].
      apply Forall_cons in Hv as [Hv Hl], Hw as [Hw Hm], IH as [IHx IH]. cbn. f_equal; [|auto].
      f_equal; [done|]. by apply IHx.
Qed.

(** ** config/model.rs *)
Record ShadowTlsConfig := { st_host : str; st_password : str; st_skip_cert_verify : bool }.

Record WireguardConfig := {
  private_key : str; wg_public_key : str; preshared_key : option str;
  local_addresses : list str; allowed_ips : list str; wg_dns : list IpAddr;
  wg_mtu : Z; persistent_keepalive : Z; wg_udp : bool;
}.

Inductive ProxyProtocol :=
  | Wireguard (config : WireguardConfig)
  | AnyTls (password : str) (udp : bool)
  | Shadowsocks (cipher password : str) (udp : bool) (shadow_tls : option ShadowTlsConfig)
  | VMess (uuid : str) (alter_id : Z) (cipher : str) (udp : bool)
  | VLess (uuid : str) (flow : option str) (udp : bool)
  | Tuic (uuid password congestion_control : str) (udp : bool)
  | Trojan (password : str) (udp : bool)
  | Hysteria2 (password : str) (udp : bool).

Inductive TransportType := Tcp | Tls | WebSocket | Xhttp | Quic | Reality.

Record TlsConfig := { tls_sni : option str; tls_skip_cert_verify : bool; alpn : option (list str); tls_fingerprint : option str }.
Record WsConfig := { ws_path : option str; ws_host : option str; headers : option (gmap str str) }.
Record XhttpConfig := { x_path : option str; x_host : option str; mode : str; options : gmap str Value }.
Record RealityConfig := {
  public_key : str; short_id : str; reality_sni : option str; client_fingerprint : option str; reality_skip_cert_verify : bool;
}.
Record TransportConfig := {
  transport_type : TransportType; tls : option TlsConfig; ws : option WsConfig; xhttp : option XhttpConfig; reality : option RealityConfig;
}.

Record Node := {
  name : str; server : str; port : Z; protocol : ProxyProtocol; transport : option TransportConfig;
  latency_ms : option Z; tags : list str; extra : gmap str str;
}.

(** ShadowTLS carries streams only. *)
Definition supports_udp (p : ProxyProtocol) : bool :=
  match p with
  | Wireguard config => wg_udp config
  | Shadowsocks _ _ udp shadow_tls => udp && negb (bool_decide (is_Some shadow_tls))
  | VMess _ _ _ udp | VLess _ _ udp | Tuic _ _ _ udp | Trojan _ udp | Hysteria2 _ udp | AnyTls _ udp => udp
  end.

(** ** The JSON form *)
Definition opt (v : option str) : Value := match v with Some s => Text s | None => Null end.
Definition texts (l : list str) : Value := Array (map Text l).
Definition field (k : string) (v : Value) : str * Value := (lit k, v).

(** An object whose members are inserted one by one: a repeated key is replaced. *)
Definition insert_member (l : list (str * Value)) (e : str * Value) : list (str * Value) :=
  if decide (e.1 ∈ l.*1) then map (λ x, if decide (x.1 = e.1) then e else x) l else l ++ [e].
Definition object (l : list (str * Value)) : Value := Object (foldl insert_member [] l).

Definition shadow_tls_value (s : option ShadowTlsConfig) : Value :=
  match s with
  | Some s => Object [field "host" (Text (st_host s)); field "password" (Text (st_password s)); field "skip_cert_verify" (Bool (st_skip_cert_verify s))]
  | None => Null
  end.

Definition wireguard_fields (c : WireguardConfig) : list (str * Value) :=
  [field "private_key" (Text (private_key c)); field "public_key" (Text (wg_public_key c)); field "preshared_key" (opt (preshared_key c));
   field "local_addresses" (texts (local_addresses c)); field "allowed_ips" (texts (allowed_ips c)); field "dns" (texts (map show_ip (wg_dns c)));
   field "mtu" (Number (wg_mtu c)); field "persistent_keepalive" (Number (persistent_keepalive c)); field "udp" (Bool (wg_udp c))].

Definition protocol_value (p : ProxyProtocol) : Value :=
  match p with
  | Wireguard config => Object (field "type" (Text (lit "wireguard")) :: wireguard_fields config)
  | AnyTls password udp => Object [field "type" (Text (lit "anytls")); field "password" (Text password); field "udp" (Bool udp)]
  | Shadowsocks cipher password udp shadow =>
      Object [field "type" (Text (lit "shadowsocks")); field "cipher" (Text cipher); field "password" (Text password); field "udp" (Bool udp);
              field "shadow_tls" (shadow_tls_value shadow)]
  | VMess uuid alter_id cipher udp =>
      Object [field "type" (Text (lit "vmess")); field "uuid" (Text uuid); field "alter_id" (Number alter_id); field "cipher" (Text cipher); field "udp" (Bool udp)]
  | VLess uuid flow udp => Object [field "type" (Text (lit "vless")); field "uuid" (Text uuid); field "flow" (opt flow); field "udp" (Bool udp)]
  | Tuic uuid password congestion udp =>
      Object [field "type" (Text (lit "tuic")); field "uuid" (Text uuid); field "password" (Text password); field "congestion_control" (Text congestion); field "udp" (Bool udp)]
  | Trojan password udp => Object [field "type" (Text (lit "trojan")); field "password" (Text password); field "udp" (Bool udp)]
  | Hysteria2 password udp => Object [field "type" (Text (lit "hysteria2")); field "password" (Text password); field "udp" (Bool udp)]
  end.

Definition transport_type_name (t : TransportType) : str :=
  lit match t with Tcp => "tcp" | Tls => "tls" | WebSocket => "websocket" | Xhttp => "xhttp" | Quic => "quic" | Reality => "reality" end.

Definition tls_value (t : TlsConfig) : Value :=
  Object [field "sni" (opt (tls_sni t)); field "skip_cert_verify" (Bool (tls_skip_cert_verify t));
          field "alpn" (match alpn t with Some l => texts l | None => Null end); field "fingerprint" (opt (tls_fingerprint t))].

(** A [HashMap] is visited in an order of its own. *)
Definition headers_value (h : gmap str str) : Value := Object (map (λ e, (e.1, Text e.2)) (map_to_list h)).
Definition ws_value (w : WsConfig) : Value :=
  Object [field "path" (opt (ws_path w)); field "host" (opt (ws_host w)); field "headers" (match headers w with Some h => headers_value h | None => Null end)].
Definition xhttp_value (x : XhttpConfig) : Value :=
  object ([field "path" (opt (x_path x)); field "host" (opt (x_host x)); field "mode" (Text (mode x))] ++ entries (options x)).
Definition reality_value (r : RealityConfig) : Value :=
  Object [field "public_key" (Text (public_key r)); field "short_id" (Text (short_id r)); field "sni" (opt (reality_sni r));
          field "client_fingerprint" (opt (client_fingerprint r)); field "skip_cert_verify" (Bool (reality_skip_cert_verify r))].

Definition some_or_null {A} (f : A → Value) (o : option A) : Value := match o with Some a => f a | None => Null end.

Definition transport_config_value (t : TransportConfig) : Value :=
  Object ([field "type" (Text (transport_type_name (transport_type t))); field "tls" (some_or_null tls_value (tls t)); field "ws" (some_or_null ws_value (ws t))]
          ++ match xhttp t with Some x => [field "xhttp" (xhttp_value x)] | None => [] end
          ++ [field "reality" (some_or_null reality_value (reality t))]).
Definition transport_value : option TransportConfig → Value := some_or_null transport_config_value.

(** ** serde_json and sha2 *)
(** The text of a value names the value; sets and maps of strings are read back. *)
Class SerdeJson := {
  json_to_string : Value → str;
  json_to_string_inj v w : json_to_string v = json_to_string w → v = w;
  set_to_string : gset str → str;
  set_from_str : str → option (gset str);
  set_from_to s : set_from_str (set_to_string s) = Some s;
  names_to_string : gmap str str → str;
  names_from_str : str → option (gmap str str);
  names_from_to m : names_from_str (names_to_string m) = Some m;
}.

(** The digest of the UTF-8 form of a string. *)
Class Sha256 := { sha256 : str → bytes; sha256_bytes s : is_bytes (sha256 s); len_sha256 s : len (sha256 s) = 32 }.

(** ** The fingerprint *)
(** [{:x}] of a digest. *)
Definition hex (bs : bytes) : str := flat_map (λ b, [hex_digit (b / 16); hex_digit (b mod 16)]) bs.

Section identity.
Context `{SerdeJson} `{Sha256}.

Definition node_public_id (fingerprint : str) : str := hex (sha256 fingerprint).

Definition WATCHED : list str :=
  map lit ["tls_certificate_sha256"; "tuic_certificate_sha256"; "hysteria2_up_mbps"; "hysteria2_down_mbps"; "hysteria2_fast_open";
           "hysteria2_mport"; "hysteria2_client_fingerprint_hint"; "proxy_server_dns"].

Definition identity_protocol (p : ProxyProtocol) : Value :=
  update_field (lit "shadow_tls") (lowercase_field (lit "host"))
    (lowercase_field (lit "cipher") (lowercase_field (lit "uuid") (protocol_value p))).

Definition identity_transport (t : option TransportConfig) : Value :=
  update_field (lit "reality") (lowercase_field (lit "sni"))
    (update_field (lit "tls") (lowercase_field (lit "sni")) (update_field (lit "ws") (lowercase_field (lit "host")) (transport_value t))).

Definition watched (e : gmap str str) : list (str * Value) :=
  omap (λ k, (λ v, (k, Text v)) <$> e !! k) WATCHED.

Definition identity (node : Node) : Value :=
  canonical (Array [Text (to_ascii_lowercase (server node)); Number (port node); identity_protocol (protocol node);
                    identity_transport (transport node); Object (watched (extra node))]).

Definition fingerprint (node : Node) : str := lit "v2:" ++ node_public_id (json_to_string (identity node)).

(** ** The identity before version 0.0.18 (config/dedup.rs) *)
Definition bar : str := lit "|".
Definition extra_or_empty (node : Node) (k : string) : str := default [] (extra node !! lit k).

Definition legacy_credentials (node : Node) : str :=
  let transport_text := json_to_string (transport_value (transport node)) in
  match protocol node with
  | Wireguard config => lit "wireguard|" ++ json_to_string (Object (wireguard_fields config))
  | Shadowsocks cipher password _ shadow =>
      lit "ss|" ++ to_ascii_lowercase cipher ++ bar ++ password ++ lit "|st:" ++ default [] ((λ st, to_ascii_lowercase (st_host st)) <$> shadow)
  | VMess uuid alter_id cipher _ => lit "vmess|" ++ to_ascii_lowercase uuid ++ bar ++ show_uint alter_id ++ bar ++ to_ascii_lowercase cipher
  | VLess uuid flow _ => lit "vless|" ++ to_ascii_lowercase uuid ++ bar ++ default [] flow
  | Tuic uuid password congestion _ =>
      lit "tuic|" ++ join bar [to_ascii_lowercase uuid; password; congestion; extra_or_empty node "tuic_certificate_sha256"; transport_text]
  | Trojan password _ => lit "trojan|" ++ password
  | Hysteria2 password _ =>
      lit "hy2|" ++ join bar [password; extra_or_empty node "tls_certificate_sha256"; extra_or_empty node "hysteria2_up_mbps"; extra_or_empty node "hysteria2_down_mbps";
                              extra_or_empty node "hysteria2_fast_open"; extra_or_empty node "hysteria2_mport"; transport_text]
  | AnyTls password _ => lit "anytls|" ++ join bar [password; extra_or_empty node "tls_certificate_sha256"; transport_text]
  end.

Definition transport_summary (t : option TransportConfig) : str :=
  match t with
  | None => lit "tcp"
  | Some tc =>
      lit match transport_type tc with Tcp => "tcp" | Tls => "tls" | WebSocket => "ws" | Xhttp => "xhttp" | Quic => "quic" | Reality => "reality" end
      ++ match xhttp tc with Some x => bar ++ json_to_string (xhttp_value x) | None => [] end
      ++ match ws tc with Some w => bar ++ default [] (ws_path w) ++ bar ++ to_ascii_lowercase (default [] (ws_host w)) | None => [] end
      ++ match reality tc with Some r => lit "|pbk:" ++ public_key r | None => [] end
  end.

Definition legacy_node_fingerprint (node : Node) : str :=
  join bar [to_ascii_lowercase (server node); show_uint (port node); legacy_credentials node; transport_summary (transport node)]
  ++ match extra node !! lit "proxy_server_dns" with Some policy => lit "|server-dns:" ++ policy | None => [] end.
End identity.
