(* ===== verification/NodeIdentity.v ===== *)
(** * What the fingerprint tells apart (config/node_identity.rs)

    Two nodes have one fingerprint exactly when they are the same server with the same
    credentials, reached the same way: equal but for the case of host names and
    identifiers, the order of JSON members and everything that is only displayed. *)
From Stdlib Require Import String.
From S2P Require Import Prelude Bytes Text Net NetText Sorting StrOrder Nodes.

#[local] Open Scope string_scope.
#[local] Open Scope list_scope.
#[local] Open Scope Z_scope.

(** ** Equal but for case *)
Definition lower_opt : option str → option str := fmap to_ascii_lowercase.

Definition normal_shadow (s : ShadowTlsConfig) : ShadowTlsConfig :=
  {| st_host := to_ascii_lowercase (st_host s); st_password := st_password s; st_skip_cert_verify := st_skip_cert_verify s |}.

Definition normal_protocol (p : ProxyProtocol) : ProxyProtocol :=
  match p with
  | Shadowsocks cipher password udp shadow => Shadowsocks (to_ascii_lowercase cipher) password udp (normal_shadow <$> shadow)
  | VMess uuid alter_id cipher udp => VMess (to_ascii_lowercase uuid) alter_id (to_ascii_lowercase cipher) udp
  | VLess uuid flow udp => VLess (to_ascii_lowercase uuid) flow udp
  | Tuic uuid password congestion udp => Tuic (to_ascii_lowercase uuid) password congestion udp
  | p => p
  end.

Definition normal_tls (t : TlsConfig) : TlsConfig :=
  {| tls_sni := lower_opt (tls_sni t); tls_skip_cert_verify := tls_skip_cert_verify t; alpn := alpn t; tls_fingerprint := tls_fingerprint t |}.
Definition normal_ws (w : WsConfig) : WsConfig := {| ws_path := ws_path w; ws_host := lower_opt (ws_host w); headers := headers w |}.
Definition normal_reality (r : RealityConfig) : RealityConfig :=
  {| public_key := public_key r; short_id := short_id r; reality_sni := lower_opt (reality_sni r); client_fingerprint := client_fingerprint r;
     reality_skip_cert_verify := reality_skip_cert_verify r |}.
Definition normal_transport (t : TransportConfig) : TransportConfig :=
  {| transport_type := transport_type t; tls := normal_tls <$> tls t; ws := normal_ws <$> ws t; xhttp := xhttp t; reality := normal_reality <$> reality t |}.

(** The same server with the same credentials, reached the same way. *)
Definition same_server (n m : Node) : Prop :=
  to_ascii_lowercase (server n) = to_ascii_lowercase (server m) ∧ port n = port m ∧
  normal_protocol (protocol n) = normal_protocol (protocol m) ∧
  same (transport_value (normal_transport <$> transport n)) (transport_value (normal_transport <$> transport m)) ∧
  ∀ k, k ∈ WATCHED → extra n !! k = extra m !! k.

(** Addresses are addresses, and the objects among the XHTTP options have distinct keys. *)
Definition protocol_ok (p : ProxyProtocol) : Prop :=
  match p with Wireguard config => Forall ip_wf (wg_dns config) | _ => True end.
Definition options_ok (x : XhttpConfig) : Prop := map_Forall (λ _, unique_keys) (options x).
Definition node_ok (n : Node) : Prop :=
  protocol_ok (protocol n) ∧ ∀ t x, transport n = Some t → xhttp t = Some x → options_ok x.

Lemma identity_protocol_normal p : identity_protocol p = protocol_value (normal_protocol p).
Proof. destruct p as [| |? ? ? [|]| | | | |]; cbv -[to_ascii_lowercase show_ip texts opt]; reflexivity. Qed.

Lemma identity_transport_normal t : identity_transport t = transport_value (normal_transport <$> t).
Proof.
  destruct t as [[ty [[[] ? ? ?]|] [[? [] ?]|] [x|] [[? ? [] ? ?]|]]|]; cbv -[to_ascii_lowercase texts headers_value xhttp_value]; reflexivity.
Qed.

(** An object with literal keys. *)
Ltac literal_object :=
  cbv beta iota delta [some_or_null tls_value reality_value ws_value protocol_value wireguard_fields transport_config_value app field
    transport_type tls ws xhttp reality alpn headers];
  apply unique_keys_object; split; [decided|repeat first [apply Forall_nil_2|apply Forall_cons_2; cbn [snd]]].

Lemma unique_texts l : unique_keys (texts l).
Proof. by apply unique_keys_array, Forall_map, Forall_true. Qed.

Lemma unique_opt o : unique_keys (opt o).
Proof. by destruct o. Qed.

Lemma shadow_value_unique s : unique_keys (shadow_tls_value s).
Proof. destruct s; [literal_object; done|done]. Qed.

#[local] Hint Extern 1 (unique_keys _) => exact I : core.
#[local] Hint Resolve unique_texts unique_opt shadow_value_unique : core.

Lemma protocol_value_unique p : unique_keys (protocol_value p).
Proof.
destruct p; literal_object; auto.
Qed.

Lemma insert_member_keys l e : NoDup l.*1 → NoDup (insert_member l e).*1.
Proof.
  intros Hl. unfold insert_member. case_decide as Hin.
  - assert ((map (λ x, if decide (x.1 = e.1) then e else x) l).*1 = l.*1) as ->; [|done].
    clear. induction l as [|x l IH]; [done|]. cbn. rewrite IH. f_equal. by case_decide.
  - rewrite fmap_app. apply NoDup_app. split; [done|]. split; [|apply NoDup_singleton].
    intros k Hk ->%list_elem_of_singleton. done.
Qed.

Lemma object_unique l : Forall (λ e, unique_keys e.2) l → unique_keys (object l).
Proof.
  intros Hl. apply unique_keys_object.
  assert (∀ acc, NoDup acc.*1 ∧ Forall (λ e, unique_keys e.2) acc →
    NoDup (foldl insert_member acc l).*1 ∧ Forall (λ e, unique_keys e.2) (foldl insert_member acc l)) as Hgo; [|apply Hgo; split; constructor].
  induction Hl as [|e l He Hl IH]; intros acc [Hn Ha]; [done|]. cbn. apply IH. split; [by apply insert_member_keys|].
  unfold insert_member. case_decide; [|by apply Forall_app; repeat constructor].
  apply Forall_map. eapply Forall_impl; [exact Ha|]. intros x Hx. by case_decide.
Qed.

Lemma transport_value_unique t : (∀ tc x, t = Some tc → xhttp tc = Some x → options_ok x) → unique_keys (transport_value t).
Proof.
  intros Hx. destruct t as [[ty tl w x r]|]; [|done]. cbn [transport_value some_or_null].
  assert (unique_keys (some_or_null tls_value tl)) as H1 by (destruct tl as [[? ? [|] ?]|]; [literal_object; auto..|done]).
  assert (unique_keys (some_or_null reality_value r)) as H2 by (destruct r; [literal_object; auto|done]).
  assert (unique_keys (some_or_null ws_value w)) as H3.
  { destruct w as [[? ? h]|]; [|done]. literal_object; auto. destruct h as [h|]; [|done].
    apply unique_keys_object. split.
    - assert ((map (λ e : str * str, (e.1, Text e.2)) (map_to_list h)).*1 = (map_to_list h).*1) as ->; [|apply NoDup_fst_map_to_list].
      induction (map_to_list h) as [|e l IH]; [done|]. cbn. by rewrite IH.
    - apply Forall_map, Forall_true. done. }
  destruct x as [x|].
  - assert (unique_keys (xhttp_value x)) as H4.
    { apply object_unique, Forall_app. split; [repeat constructor; cbn; auto|]. rewrite entries_perm.
      apply Forall_forall. intros [k v] Hin%elem_of_map_to_list. by apply (Hx _ _ eq_refl eq_refl k v). }
    literal_object; auto.
  - literal_object; auto.
Qed.
(** ** The JSON form names the node *)
Lemma canonical_object l : canonical (Object l) = Object (sort_by key_leb (map (λ e, (e.1, canonical e.2)) l)).
Proof. done. Qed.

Lemma canonical_texts l : canonical (texts l) = texts l.
Proof. unfold texts. cbn. f_equal. rewrite map_map. done. Qed.

Lemma canonical_opt o : canonical (opt o) = opt o.
Proof. by destruct o. Qed.

Lemma text_list_inj l l' : map Text l = map Text l' → l = l'.
Proof. apply list_fmap_eq_inj. by intros ? ? [= ->]. Qed.

#[local] Instance opt_inj : Inj (=) (=) opt.
Proof. intros [] [] E; try discriminate E; [by injection E as ->|done]. Qed.

Lemma show_ips_inj l l' : Forall ip_wf l → Forall ip_wf l' → map show_ip l = map show_ip l' → l = l'.
Proof.
  intros Hl. revert l'. induction Hl as [|a l Ha Hl IH]; intros [|b l'] Hl' E; try discriminate E; [done|].
  apply Forall_cons in Hl' as [Hb Hl']. injection E as E1 E2. f_equal; [|auto].
  apply (inj Some). by rewrite <- (parse_show_ip a Ha), <- (parse_show_ip b Hb), E1.
Qed.

(** Compares two canonical objects with literal keys, member by member. *)
Ltac compare_objects E :=
  rewrite !canonical_object in E;
  cbv -[canonical texts opt show_ip shadow_tls_value map_to_list] in E;
  rewrite ?canonical_texts, ?canonical_opt in E;
  first [discriminate E|injection E; clear E; intros].

Lemma shadow_value_inj s s' : canonical (shadow_tls_value s) = canonical (shadow_tls_value s') → s = s'.
Proof.
  destruct s as [[h p b]|], s' as [[h' p' b']|]; intros E; unfold shadow_tls_value in E; [compare_objects E|discriminate E..|done].
  by subst.
Qed.

Lemma protocol_value_inj p q : protocol_ok p → protocol_ok q →
  canonical (protocol_value p) = canonical (protocol_value q) → p = q.
Proof.
  intros Hp Hq E. destruct p as [[]| | | | | | |], q as [[]| | | | | | |]; unfold protocol_value, wireguard_fields in E; try (compare_objects E; fail); compare_objects E; subst; try done.
  - f_equal. f_equal; try (by apply (inj opt)) || (by apply text_list_inj) || idtac. apply show_ips_inj; [done..|]. by apply text_list_inj.
  - f_equal. by apply shadow_value_inj.
  - f_equal. by apply (inj opt).
Qed.

Lemma hex_inj a b : is_bytes a → is_bytes b → hex a = hex b → a = b.
Proof.
  assert (∀ x y, 0 <= x < 16 → 0 <= y < 16 → hex_digit x = hex_digit y → x = y) as Hd.
  { intros x y ? ?. unfold hex_digit. destruct (Z.ltb_spec x 10), (Z.ltb_spec y 10); lia. }
  intros Ha. revert b. induction Ha as [|x a Hx Ha IH]; intros [|y b] Hb E; try discriminate E; [done|].
  apply Forall_cons in Hb as [Hy Hb]. unfold u8 in *. cbn in E. injection E as E1 E2 E3. f_equal; [|auto].
  apply Hd in E1; [|lia..]. apply Hd in E2; [|lia..]. lia.
Qed.

Lemma elem_of_watched e k v : (k, v) ∈ watched e ↔ k ∈ WATCHED ∧ Text <$> e !! k = Some v.
Proof.
  unfold watched. rewrite list_elem_of_omap. split.
  - intros (k' & Hk & E). destruct (e !! k') as [x|] eqn:Ex; [|done]. injection E as <- <-. by rewrite Ex.
  - intros (Hk & E). exists k. split; [done|]. destruct (e !! k) as [x|]; [|done]. cbn in *. by simplify_eq.
Qed.

Lemma watched_keys e : NoDup (watched e).*1.
Proof.
  unfold watched. assert (NoDup WATCHED) as Hn by decided. induction Hn as [|k l Hk Hn IH]; [constructor|].
  cbn. destruct (e !! k) as [x|]; [|done]. cbn. constructor; [|done].
  intros ([k' v] & -> & Hin)%list_elem_of_fmap_1. apply Hk. apply list_elem_of_omap in Hin as (k2 & H2 & E).
  destruct (e !! k2); [|done]. by injection E as -> _.
Qed.

Lemma watched_canonical e e' : (∀ k, k ∈ WATCHED → e !! k = e' !! k) ↔ canonical (Object (watched e)) = canonical (Object (watched e')).
Proof.
  assert (∀ e, map (λ x, (x.1, canonical x.2)) (watched e) = watched e) as Hc.
  { intros e0. unfold watched. induction WATCHED as [|k l IH]; [done|]. cbn. destruct (e0 !! k); cbn; by rewrite IH. }
  rewrite !canonical_object, !Hc. split.
  - intros He. do 2 f_equal. unfold watched. apply list_omap_ext, Forall_Forall2_diag, Forall_forall. intros k Hk. by rewrite He.
  - intros [= E]. assert (watched e ≡ₚ watched e') as Hp by (by rewrite <- (sort_by_perm key_leb (watched e)), E; apply sort_by_perm).
    intros k Hk. apply option_eq. intros v.
    assert ((k, Text v) ∈ watched e ↔ (k, Text v) ∈ watched e') as Hi by (by rewrite Hp).
    rewrite !elem_of_watched in Hi. destruct Hi as [H1 H2]. clear -Hk H1 H2. generalize dependent (e !! k). generalize dependent (e' !! k).
    intros o o' H1 H2. split; intros ->; [destruct H1 as [_ E]|destruct H2 as [_ E]]; try done.
    + destruct o; [|done]. cbn in E. by simplify_eq.
    + destruct o'; [|done]. cbn in E. by simplify_eq.
Qed.

(** ** Instances of the interfaces *)
Fixpoint to_tree (v : Value) : gen_tree (bool + (Z + (Z + str))) :=
  match v with
  | Null => GenNode 0 []
  | Bool b => GenLeaf (inl b)
  | Number n => GenLeaf (inr (inl n))
  | Float n => GenLeaf (inr (inr (inl n)))
  | Text s => GenLeaf (inr (inr (inr s)))
  | Array l => GenNode 1 (map to_tree l)
  | Object l => GenNode 2 (map (λ e, GenNode 3 [GenLeaf (inr (inr (inr e.1))); to_tree e.2]) l)
  end.

#[local] Instance to_tree_inj : Inj (=) (=) to_tree.
Proof.
  intros v. induction v as [| | | | |l IH|l IH] using value_tree_ind; intros w E; destruct w as [| | | | |l'|l']; try discriminate E; try (by injection E as ->); try done.
  - f_equal. cbn in E. injection E as E. revert l' E. induction IH as [|v l Hv _ IH]; intros [|w l'] E; try discriminate E; [done|].
    injection E as E1 E2. f_equal; auto.
  - f_equal. cbn in E. injection E as E. revert l' E. induction IH as [|[k v] l Hv _ IH]; intros [|[k' w] l'] E; try discriminate E; [done|].
    cbn in E. injection E as -> E1 E2. cbn in Hv. f_equal; [f_equal|]; auto.
Qed.

(** A number names the value. *)
Definition named {A} `{Countable A} (a : A) : str := [Zpos (encode a)].
Definition unnamed {A} `{Countable A} (s : str) : option A := match s with [Zpos p] => decode p | _ => None end.

Definition plain_json : SerdeJson.
Proof.
  refine {| json_to_string v := named (to_tree v);
            set_to_string := named; set_from_str := unnamed; names_to_string := named; names_from_str := unnamed |}.
  - intros v w E. injection E as E. apply (inj encode) in E. by apply (inj to_tree).
  - intros s. apply decode_encode.
  - intros m. apply decode_encode.
Defined.

Definition plain_sha256 : Sha256.
Proof.
  refine {| sha256 s := be_bytes 32 (foldl (λ a b, (a * 31 + b) mod (2 ^ 255 - 19)) 7 s) |}.
  - intros s. apply be_bytes_u8.
  - intros s. by rewrite len_be_bytes.
Defined.

Section fingerprint.
Context `{SerdeJson} `{Sha256}.

Lemma identity_same_server n m : node_ok n → node_ok m → identity n = identity m ↔ same_server n m.
Proof.
  intros [Hp Hx] [Hp' Hx']. unfold identity, same_server. cbn [canonical map]. rewrite !identity_protocol_normal, !identity_transport_normal.
  assert (∀ p, protocol_ok p → protocol_ok (normal_protocol p)) as Hnp by (by intros []).
  assert (∀ n, (∀ t x, transport n = Some t → xhttp t = Some x → options_ok x) → unique_keys (transport_value (normal_transport <$> transport n))) as Ht.
  { intros n0 Hn0. apply transport_value_unique. intros tc x E Ex. destruct (transport n0) as [t|]; [|done]. injection E as <-. by apply (Hn0 t). }
  pose proof (canonical_same _ _ (Ht n Hx) (Ht m Hx')) as Hs. split.
  - intros E. change (canonical (Object ?l)) with (canonical (Object l)) in E. apply (f_equal (λ v, match v with Array l => l | _ => [] end)) in E.
    injection E as E1 E2 E3 E4 E5. split; [done|]. split; [done|]. split; [by apply protocol_value_inj; auto|]. split; [by apply Hs|].
    apply watched_canonical. rewrite !canonical_object. by f_equal.
  - intros (E1 & E2 & E3 & E4 & E5). apply Hs in E4. apply watched_canonical in E5. rewrite !canonical_object in E5. by rewrite E1, E2, E3, E4, E5.
Qed.

(** What the digest of a node is taken of. *)
Definition document (n : Node) : bytes := json_to_string (identity n).

End fingerprint.

Definition sample (n s : string) (secret : str) : Node :=
  {| name := lit n; server := lit s; port := 443; protocol := VMess secret 0 (lit "AUTO") true; transport := None; latency_ms := None; tags := []; extra := ∅ |}.

Lemma sample_ok n s secret : node_ok (sample n s secret).
Proof. by split. Qed.

