(* ===== verification/Dedup.v ===== *)
(** * Deduplication of nodes and subscription refreshes (config/dedup.rs, config/storage.rs)

    Which subscriptions a node belongs to and under which remark each of them lists it is
    kept in [extra]; nodes with one fingerprint are merged and their memberships united.
    A [HashMap] from a fingerprint to an index is a finite map. *)
From Stdlib Require Import String.
From S2P Require Import Prelude Bytes Text NetText Sorting StrOrder Nodes NodeIdentity.

#[local] Open Scope string_scope.
#[local] Open Scope list_scope.
#[local] Open Scope Z_scope.

(** What config/node_identity.rs promises: an identity without line feeds that looks at
    the server, the credentials, the transport and the watched options only. *)
Class Identity := {
  node_fingerprint : Node → str;
  fingerprint_ignores n m : server n = server m → port n = port m → protocol n = protocol m → transport n = transport m →
    (∀ k, k ∈ WATCHED → extra n !! k = extra m !! k) → node_fingerprint n = node_fingerprint m;
  fingerprint_line n : 10 ∉ node_fingerprint n;
}.

(** The fingerprint of config/node_identity.rs keeps the promise. *)
Lemma hex_line bs : is_bytes bs → 10 ∉ hex bs.
Proof.
  intros Hb (b & Hin & Hb')%list_elem_of_In%in_flat_map. unfold is_bytes in Hb. rewrite Forall_forall in Hb. apply list_elem_of_In in Hin.
  specialize (Hb _ Hin). unfold u8 in Hb. unfold hex_digit in Hb'. cbn in Hb'. destruct Hb' as [E|[E|[]]]; revert E; case_match; lia.
Qed.

#[export] Instance node_identity `{SerdeJson} `{Sha256} : Identity.
Proof.
  refine {| node_fingerprint := fingerprint |}.
  - intros n m E1 E2 E3 E4 He. unfold fingerprint, identity. rewrite E1, E2, E3, E4. do 3 f_equal.
    assert (watched (extra n) = watched (extra m)) as ->; [|done]. unfold watched. apply list_omap_ext, Forall_Forall2_diag, Forall_forall.
    intros k Hk. by rewrite He.
  - intros n [Hp|Hh]%elem_of_app; [by assert (10 ∉ lit "v2:") as Hl by decided|]. revert Hh. apply hex_line, sha256_bytes.
Defined.

Definition SUB_URL_EXTRA_KEY : str := lit "sub_url".
Definition SOURCES_KEY : str := lit "subscription_sources".
Definition NAMES_KEY : str := lit "subscription_names".
Definition MANUAL_KEY : str := lit "manual_copy".

Definition with_extra (e : gmap str str) (n : Node) : Node :=
  {| name := name n; server := server n; port := port n; protocol := protocol n; transport := transport n;
     latency_ms := latency_ms n; tags := tags n; extra := e |}.
Definition with_name (s : str) (n : Node) : Node :=
  {| name := s; server := server n; port := port n; protocol := protocol n; transport := transport n;
     latency_ms := latency_ms n; tags := tags n; extra := extra n |}.

Record Subscription := {
  sub_name : str; url : str; format : str; last_updated : option Z; refresh_interval_hours : Z; refresh_revision : str;
}.

(** The fields of the configuration a refresh reads or writes. *)
Record AppConfig := { nodes : list Node; active_node : option nat; subscriptions : list Subscription }.

Section dedup.
Context `{SerdeJson} `{Identity}.

(** ** Memberships *)
Definition subscription_sources (node : Node) : gset str :=
  let sources := default ∅ (extra node !! SOURCES_KEY ≫= set_from_str) in
  match extra node !! SUB_URL_EXTRA_KEY with Some url => {[url]} ∪ sources | None => sources end.

Definition subscription_names (node : Node) : gmap str str :=
  let names := default ∅ (extra node !! NAMES_KEY ≫= names_from_str) in
  let sources := subscription_sources node in
  filter (λ e, e.1 ∈ sources) names ∪ gset_to_gmap (name node) sources.

Definition set_names (names : gmap str str) (node : Node) : Node :=
  with_extra (if bool_decide (names = ∅) then delete NAMES_KEY (extra node) else <[NAMES_KEY := names_to_string names]> (extra node)) node.

Definition set_sources (sources : gset str) (node : Node) : Node :=
  let e := delete SOURCES_KEY (delete SUB_URL_EXTRA_KEY (extra node)) in
  with_extra (match first sources with
              | Some f => <[SOURCES_KEY := set_to_string sources]> (<[SUB_URL_EXTRA_KEY := f]> e)
              | None => e
              end) node.

Definition set_manual (node : Node) : Node := with_extra (<[MANUAL_KEY := lit "true"]> (extra node)) node.

Definition is_manual (node : Node) : bool :=
  bool_decide (subscription_sources node = ∅) || bool_decide (extra node !! MANUAL_KEY = Some (lit "true")).

Definition tag (url : str) (node : Node) : Node :=
  let remark := default (name node) (subscription_names node !! url) in
  set_sources {[url]} (set_names {[url := remark]} (with_extra (delete MANUAL_KEY (extra node)) node)).
Definition tag_subscription_nodes (nodes : list Node) (url : str) : list Node := map (tag url) nodes.

Definition detach (removed : gset str) (node : Node) : option Node :=
  let manual := is_manual node in
  let node := set_names (filter (λ e, e.1 ∉ removed) (subscription_names node)) node in
  let sources := subscription_sources node ∖ removed in
  let node := set_sources sources node in
  if manual || negb (bool_decide (sources = ∅)) then Some (if manual then set_manual node else node) else None.
Definition detach_sources (nodes : list Node) (removed : gset str) : list Node := omap (detach removed) nodes.

(** ** Merging *)
Definition merge_duplicate (retained incoming : Node) : Node :=
  let manual := is_manual retained || is_manual incoming in
  let retained := set_names (subscription_names retained ∪ subscription_names incoming) retained in
  let retained := set_sources (subscription_sources retained ∪ subscription_sources incoming) retained in
  if manual then set_manual retained else retained.

(** [merge_duplicate(&mut merged[index], &node)]. *)
Definition merge_at (index : nat) (node : Node) (merged : list Node) : outcome (list Node) :=
  match merged !! index with
  | Some retained => Ok (<[index := merge_duplicate retained node]> merged)
  | None => Panic
  end.

Definition dedup_step (acc : outcome (gmap str nat * list Node)) (node : Node) : outcome (gmap str nat * list Node) :=
  '(seen, merged) ← acc;
  let fingerprint := node_fingerprint node in
  match seen !! fingerprint with
  | Some index => merged ← merge_at index node merged; Ok (seen, merged)
  | None => Ok (<[fingerprint := length merged]> seen, merged ++ [node])
  end.

Definition dedup_nodes (nodes : list Node) : outcome (list Node * Z) :=
  '(_, merged) ← foldl dedup_step (Ok (∅, [])) nodes;
  Ok (merged, len nodes - len merged).

(** ** An imported subscription *)
Record Import := { seen_named : gmap str nat; fresh_by_fp : gmap str nat; merged : list Node }.

Definition named_key (node : Node) : str := node_fingerprint node ++ [10] ++ name node.

Definition import_fresh (acc : outcome Import) (node : Node) : outcome Import :=
  i ← acc;
  let fingerprint := node_fingerprint node in
  match seen_named i !! named_key node with
  | Some index => m ← merge_at index node (merged i); Ok {| seen_named := seen_named i; fresh_by_fp := fresh_by_fp i; merged := m |}
  | None =>
      Ok {| seen_named := <[named_key node := length (merged i)]> (seen_named i);
            fresh_by_fp := match fresh_by_fp i !! fingerprint with Some _ => fresh_by_fp i | None => <[fingerprint := length (merged i)]> (fresh_by_fp i) end;
            merged := merged i ++ [node] |}
  end.

Definition import_kept (acc : outcome Import) (node : Node) : outcome Import :=
  i ← acc;
  match seen_named i !! named_key node with
  | Some index => m ← merge_at index node (merged i); Ok {| seen_named := seen_named i; fresh_by_fp := fresh_by_fp i; merged := m |}
  | None =>
      match fresh_by_fp i !! node_fingerprint node with
      | Some index =>
          if is_manual node || bool_decide (subscription_sources node = ∅) then
            m ← merge_at index node (merged i); Ok {| seen_named := seen_named i; fresh_by_fp := fresh_by_fp i; merged := m |}
          else Ok {| seen_named := <[named_key node := length (merged i)]> (seen_named i); fresh_by_fp := fresh_by_fp i; merged := merged i ++ [node] |}
      | None => Ok {| seen_named := <[named_key node := length (merged i)]> (seen_named i); fresh_by_fp := fresh_by_fp i; merged := merged i ++ [node] |}
      end
  end.

Definition dedup_subscription_import (nodes : list Node) (fresh_len : nat) : outcome (list Node * Z) :=
  let fresh_len := Nat.min fresh_len (length nodes) in
  let start := {| seen_named := ∅; fresh_by_fp := ∅; merged := [] |} in
  i ← foldl import_kept (foldl import_fresh (Ok start) (take fresh_len nodes)) (drop fresh_len nodes);
  Ok (merged i, len nodes - len (merged i)).

(** ** Display names *)
Definition suffixed (base : str) (n : Z) : str := base ++ lit " #" ++ show_uint n.

(** The search for a free name; a counter of 32 bits that has tried more names than are
    taken without success will never succeed. *)
Fixpoint free_name (fuel : nat) (seen : gset str) (base : str) (n : Z) : outcome str :=
  match fuel with
  | O => Diverge
  | S fuel => if bool_decide (suffixed base n ∈ seen) then free_name fuel seen base (as_u32 (n + 1)) else Ok (suffixed base n)
  end.

Definition uniquify_step (acc : outcome (gset str * list Node * bool)) (node : Node) : outcome (gset str * list Node * bool) :=
  '(seen, done, changed) ← acc;
  if bool_decide (name node ∈ seen) then
    let node := set_names (subscription_names node) node in
    candidate ← free_name (S (size seen)) seen (name node) 2;
    Ok ({[candidate]} ∪ seen, done ++ [with_name candidate node], true)
  else Ok ({[name node]} ∪ seen, done ++ [node], changed).

Definition uniquify_node_names (nodes : list Node) : outcome (list Node * bool) :=
  '(_, done, changed) ← foldl uniquify_step (Ok (∅, [], false)) nodes;
  Ok (done, changed).
End dedup.
