(* ===== verification/DedupSpec.v ===== *)
(** * Merging keeps every membership, and names stay unique (config/dedup.rs) *)
From Stdlib Require Import String.
From S2P Require Import Prelude Bytes Text TextTrim Sorting StrOrder Nodes NodeIdentity Dedup.

#[local] Open Scope list_scope.
#[local] Open Scope Z_scope.

(** The keys of [extra] that say where a node comes from. *)
Definition PROVENANCE : list str := [SUB_URL_EXTRA_KEY; SOURCES_KEY; NAMES_KEY; MANUAL_KEY].

(** One node but for where it comes from. *)
Record same_node (n m : Node) : Prop := {
  same_name : name n = name m;
  same_address : server n = server m ∧ port n = port m;
  same_protocol : protocol n = protocol m;
  same_transport : transport n = transport m;
  same_display : latency_ms n = latency_ms m ∧ tags n = tags m;
  same_extra k : k ∉ PROVENANCE → extra n !! k = extra m !! k;
}.

#[export] Instance same_node_equivalence : Equivalence same_node.
Proof.
  split.
  - by split.
  - intros n m [? [] ? ? [] ?]. split; naive_solver.
  - intros n m k [H1 [] H2 H3 [] He] [G1 [] G2 G3 [] Ge]. split; try congruence; [split; congruence..|].
    intros x Hx. by rewrite He, Ge.
Qed.

Lemma same_with_extra e n : (∀ k, k ∉ PROVENANCE → e !! k = extra n !! k) → same_node (with_extra e n) n.
Proof. intros He. split; cbn; auto. Qed.

(** Equality of literal keys. *)
Ltac keys :=
  rewrite ?lookup_insert_ne, ?lookup_delete_ne by (let E := fresh in intros E; vm_compute in E; discriminate E);
  rewrite ?lookup_insert_eq, ?lookup_delete_eq.

Section dedup.
Context `{SerdeJson} `{Identity}.

Lemma same_fingerprint n m : same_node n m → node_fingerprint n = node_fingerprint m.
Proof.
  intros [_ [] ? ? _ He]. apply fingerprint_ignores; [done..|]. intros k Hk. apply He.
  assert (Forall (λ k, k ∉ PROVENANCE) WATCHED) as Hw by decided. rewrite Forall_forall in Hw. by apply Hw.
Qed.

(** ** The parts of a membership *)
Definition stored_names (n : Node) : gmap str str := default ∅ (extra n !! NAMES_KEY ≫= names_from_str).
Definition manual_flag (n : Node) : bool := bool_decide (extra n !! MANUAL_KEY = Some (lit "true")).

Lemma same_set_names m n : same_node (set_names m n) n.
Proof.
  apply same_with_extra. intros k Hk. assert (k ≠ NAMES_KEY) by (intros ->; apply Hk; decided).
  case_bool_decide; [by rewrite lookup_delete_ne|by rewrite lookup_insert_ne].
Qed.

Lemma same_set_sources s n : same_node (set_sources s n) n.
Proof.
  apply same_with_extra. intros k Hk. assert (k ≠ SUB_URL_EXTRA_KEY) by (intros ->; apply Hk; decided).
  assert (k ≠ SOURCES_KEY) by (intros ->; apply Hk; decided).
  destruct (first s); by rewrite ?lookup_insert_ne, !lookup_delete_ne.
Qed.

Lemma same_set_manual n : same_node (set_manual n) n.
Proof. apply same_with_extra. intros k Hk. rewrite lookup_insert_ne; [done|]. intros <-. apply Hk. decided. Qed.

Lemma sources_set_sources s n : subscription_sources (set_sources s n) = s.
Proof.
  unfold subscription_sources, set_sources. cbn [extra with_extra]. destruct (first s) as [f|] eqn:E.
  - keys. cbn. rewrite set_from_to. cbn. apply first_elem in E. set_solver.
  - apply first_none in E as ->. keys. done.
Qed.

Lemma sources_set_names m n : subscription_sources (set_names m n) = subscription_sources n.
Proof. unfold subscription_sources, set_names. cbn [extra with_extra].
 case_bool_decide; by keys. Qed.

Lemma sources_set_manual n : subscription_sources (set_manual n) = subscription_sources n.
Proof. unfold subscription_sources, set_manual. cbn [extra with_extra]. by keys. Qed.

Lemma stored_set_names m n : stored_names (set_names m n) = m.
Proof.
  unfold stored_names, set_names. cbn [extra with_extra]. case_bool_decide as E; keys; cbn; [by rewrite E|by rewrite names_from_to].
Qed.

Lemma stored_set_sources s n : stored_names (set_sources s n) = stored_names n.
Proof. unfold stored_names, set_sources. cbn [extra with_extra]. destruct (first s); by keys. Qed.

Lemma stored_set_manual n : stored_names (set_manual n) = stored_names n.
Proof. unfold stored_names, set_manual. cbn [extra with_extra]. by keys. Qed.

Lemma flag_set_names m n : manual_flag (set_names m n) = manual_flag n.
Proof. unfold manual_flag, set_names. cbn [extra with_extra]. destruct (bool_decide (m = ∅)); by keys. Qed.

Lemma flag_set_sources s n : manual_flag (set_sources s n) = manual_flag n.
Proof. unfold manual_flag, set_sources. cbn [extra with_extra]. destruct (first s); by keys. Qed.

Lemma flag_set_manual n : manual_flag (set_manual n) = true.
Proof. unfold manual_flag, set_manual. cbn [extra with_extra]. keys. by apply bool_decide_eq_true. Qed.

Lemma is_manual_eq n : is_manual n = bool_decide (subscription_sources n = ∅) || manual_flag n.
Proof. done. Qed.

Lemma names_eq n : subscription_names n = filter (λ e, e.1 ∈ subscription_sources n) (stored_names n) ∪ gset_to_gmap (name n) (subscription_sources n).
Proof. done. Qed.

Lemma lookup_names n s : subscription_names n !! s = if decide (s ∈ subscription_sources n) then Some (default (name n) (stored_names n !! s)) else None.
Proof.
  rewrite names_eq. case_decide as Hs.
  - destruct (stored_names n !! s) as [x|] eqn:E.
    + apply lookup_union_Some_l. by apply map_lookup_filter_Some.
    + rewrite lookup_union_r; [by apply lookup_gset_to_gmap_Some|]. apply map_lookup_filter_None. by left.
  - apply lookup_union_None. split; [apply map_lookup_filter_None; right; by intros|by apply lookup_gset_to_gmap_None].
Qed.

Lemma dom_names n : dom (subscription_names n) = subscription_sources n.
Proof. apply set_eq. intros s. rewrite elem_of_dom, lookup_names. case_decide; split; (done || by intros [] || eauto). Qed.

(** ** What the operations do to a node *)
Lemma tag_spec u n :
  same_node (tag u n) n ∧ subscription_sources (tag u n) = {[u]} ∧ is_manual (tag u n) = false ∧
  subscription_names (tag u n) = {[u := default (name n) (subscription_names n !! u)]}.
Proof.
  unfold tag. set (n' := with_extra _ n). set (r := default _ _).
  assert (same_node n' n) as Hn' by (apply same_with_extra; intros k Hk; rewrite lookup_delete_ne; [done|]; intros <-; apply Hk; decided).
  assert (same_node (set_sources {[u]} (set_names {[u := r]} n')) n) as Hs by (by rewrite same_set_sources, same_set_names).
  split; [done|]. split; [apply sources_set_sources|]. split.
  - rewrite is_manual_eq, sources_set_sources, flag_set_sources, flag_set_names. unfold manual_flag, n'. cbn [extra with_extra]. keys.
    rewrite bool_decide_eq_false_2 by set_solver. done.
  - apply map_eq. intros s. rewrite lookup_names, sources_set_sources, stored_set_sources, stored_set_names. case_decide as Hu.
    + apply elem_of_singleton in Hu as ->. by rewrite !lookup_singleton_eq.
    + rewrite lookup_singleton_ne; [done|]. set_solver.
Qed.

Lemma set_names_same n : subscription_names (set_names (subscription_names n) n) = subscription_names n.
Proof.
  apply map_eq. intros s. rewrite lookup_names, sources_set_names, stored_set_names, lookup_names. by case_decide.
Qed.

Lemma detach_spec removed n :
  match detach removed n with
  | None => is_manual n = false ∧ subscription_sources n ⊆ removed
  | Some m => same_node m n ∧ subscription_sources m = subscription_sources n ∖ removed ∧ is_manual m = is_manual n ∧
      ∀ s, s ∉ removed → subscription_names m !! s = subscription_names n !! s
  end.
Proof.
  unfold detach. set (n1 := set_names _ n). rewrite !(sources_set_names _ n : subscription_sources n1 = _). set (r := subscription_sources n ∖ removed).
  set (n2 := set_sources r n1).
  assert (same_node n2 n) as Hs by (unfold n2, n1; by rewrite same_set_sources, same_set_names).
  assert (∀ s, s ∉ removed → subscription_names n2 !! s = subscription_names n !! s) as Hnames.
  { intros s Hr. unfold n2, n1. rewrite !lookup_names, sources_set_sources, stored_set_sources, stored_set_names.
    rewrite (decide_ext (s ∈ r) (s ∈ subscription_sources n)) by set_solver. case_decide as Hin; [|done].
    rewrite map_lookup_filter, lookup_names, decide_True by done. cbn. by rewrite option_guard_True. }
  destruct (is_manual n) eqn:Em; cbn [orb].
  - split; [by rewrite same_set_manual|]. split; [by rewrite sources_set_manual; apply sources_set_sources|].
    split; [by rewrite is_manual_eq, flag_set_manual, orb_true_r|]. intros s Hr. rewrite <- Hnames by done.
    by rewrite !lookup_names, sources_set_manual, stored_set_manual.
  - case_bool_decide as Hr; cbn [negb]; [split; [done|set_solver]|]. split; [done|]. split; [apply sources_set_sources|]. split; [|done].
    rewrite is_manual_eq in Em. apply orb_false_iff in Em as [_ Em]. unfold n2, n1.
    rewrite is_manual_eq, sources_set_sources, flag_set_sources, flag_set_names, Em. by rewrite bool_decide_eq_false_2.
Qed.

Lemma merge_spec r i :
  same_node (merge_duplicate r i) r ∧ subscription_sources (merge_duplicate r i) = subscription_sources r ∪ subscription_sources i ∧
  is_manual (merge_duplicate r i) = is_manual r || is_manual i ∧
  subscription_names (merge_duplicate r i) = subscription_names r ∪ subscription_names i.
Proof.
  unfold merge_duplicate. rewrite sources_set_names. set (m := set_sources _ _).
  assert (same_node m r) as Hs by (unfold m; by rewrite same_set_sources, same_set_names).
  assert (subscription_names m = subscription_names r ∪ subscription_names i) as Hn.
  { apply map_eq. intros s. unfold m. rewrite lookup_names, sources_set_sources, stored_set_sources, stored_set_names.
    case_decide as Hin.
    - assert (is_Some ((subscription_names r ∪ subscription_names i) !! s)) as [x ->]; [|done].
      apply elem_of_dom. by rewrite dom_union, !dom_names.
    - symmetry. apply not_elem_of_dom. by rewrite dom_union, !dom_names. }
  destruct (is_manual r || is_manual i) eqn:Em.
  - split; [by rewrite same_set_manual|]. split; [by rewrite sources_set_manual; apply sources_set_sources|].
    split; [by rewrite is_manual_eq, flag_set_manual, orb_true_r|].
    rewrite <- Hn. apply map_eq. intros s. by rewrite !lookup_names, sources_set_manual, stored_set_manual.
  - split; [done|]. split; [apply sources_set_sources|]. split; [|done].
    apply orb_false_iff in Em as [Er _]. rewrite is_manual_eq in Er. apply orb_false_iff in Er as [Hne Er]. apply bool_decide_eq_false in Hne.
    unfold m. rewrite is_manual_eq, sources_set_sources, flag_set_sources, flag_set_names, Er, bool_decide_eq_false_2; [done|set_solver].
Qed.

Lemma merge_at_ok i n l r : l !! i = Some r → merge_at i n l = Ok (<[i := merge_duplicate r n]> l).
Proof. unfold merge_at. by intros ->. Qed.

(** ** Deduplication *)
(** A node that stands for a group of nodes: it is the first of them, belongs to every
    subscription of any of them, under the remark the first of them has there, and is a
    manual copy when one of them is. *)
Record stands_for (group : list Node) (n : Node) : Prop := {
  first_of_group : ∃ f, head group = Some f ∧ same_node n f;
  group_sources : subscription_sources n = ⋃ (map subscription_sources group);
  group_names : subscription_names n = foldl (∪) ∅ (map subscription_names group);
  group_manual : is_manual n = existsb is_manual group;
}.

Lemma stands_for_one n : stands_for [n] n.
Proof.
  split; cbn; [by exists n|set_solver|by rewrite (left_id_L ∅ (∪))|by rewrite orb_false_r].
Qed.

Lemma stands_for_merge g n i : stands_for g n → stands_for (g ++ [i]) (merge_duplicate n i).
Proof.
  intros [(f & Hf & Hs) Hg Hn Hm]. destruct (merge_spec n i) as (H1 & H2 & H3 & H4). split.
  - exists f. split; [|by rewrite H1]. by destruct g.
  - rewrite map_app, union_list_app_L, H2, Hg. cbn. set_solver.
  - by rewrite map_app, foldl_app, H4, Hn.
  - rewrite existsb_app, H3, Hm. cbn. by rewrite orb_false_r.
Qed.

Definition add_first (acc : list str) (x : str) : list str := if decide (x ∈ acc) then acc else acc ++ [x].
(** The strings of a list, each at its first place. *)
Definition firsts (l : list str) : list str := foldl add_first [] l.

Lemma firsts_snoc l x : firsts (l ++ [x]) = add_first (firsts l) x.
Proof. unfold firsts. by rewrite foldl_app. Qed.

Lemma firsts_nodup l : NoDup (firsts l).
Proof.
  induction l as [|x l IH] using rev_ind; [constructor|]. rewrite firsts_snoc. unfold add_first. case_decide; [done|].
  apply NoDup_app. split; [done|]. split; [|apply NoDup_singleton]. by intros y Hy ->%list_elem_of_singleton.
Qed.

Lemma elem_of_firsts l x : x ∈ firsts l ↔ x ∈ l.
Proof.
  induction l as [|y l IH] using rev_ind; [done|]. rewrite firsts_snoc, elem_of_app, list_elem_of_singleton. unfold add_first.
  case_decide; [naive_solver|]. by rewrite elem_of_app, list_elem_of_singleton, IH.
Qed.

(** An index of a list by the keys of its elements. *)
Definition indexes {A} (key : A → str) (m : gmap str nat) (l : list A) : Prop :=
  ∀ k i, m !! k = Some i ↔ key <$> l !! i = Some k.

Lemma indexes_snoc {A} (key : A → str) m l x : indexes key m l → m !! key x = None → indexes key (<[key x := length l]> m) (l ++ [x]).
Proof.
  intros Hm Hx k i. destruct (decide (key x = k)) as [<-|Hne].
  - rewrite lookup_insert_eq. split; [intros [= <-]; by rewrite lookup_app_r, Nat.sub_diag by done|].
    destruct (decide (i < length l)%nat) as [Hi|Hi].
    + rewrite lookup_app_l by done. intros E%Hm. congruence.
    + rewrite lookup_app_r by lia. destruct (i - length l)%nat eqn:Ei; [|done]. intros _. f_equal. lia.
  - rewrite lookup_insert_ne by done. rewrite (Hm k i). destruct (decide (i < length l)%nat) as [Hi|Hi]; [by rewrite lookup_app_l|].
    rewrite lookup_app_r by lia. rewrite (lookup_ge_None_2 l i) by lia. destruct (i - length l)%nat; cbn; [|done].
    split; [done|]. by intros [= ?].
Qed.

Lemma indexes_insert {A} (key : A → str) m l i x y : indexes key m l → l !! i = Some x → key y = key x → indexes key m (<[i := y]> l).
Proof.
  intros Hm Hx Hk k j. rewrite (Hm k j). destruct (decide (i = j)) as [<-|Hne]; [|by rewrite list_lookup_insert_ne].
  rewrite list_lookup_insert_eq by (by apply lookup_lt_Some in Hx). by rewrite Hx; cbn; rewrite Hk.
Qed.

Lemma map_insert_same {A} (key : A → str) l i x y : l !! i = Some x → key y = key x → map key (<[i := y]> l) = map key l.
Proof. intros Hx Hk. change (key <$> <[i := y]> l = key <$> l). rewrite list_fmap_insert. apply list_insert_id. by rewrite list_lookup_fmap, Hx, Hk. Qed.

Lemma indexes_elem {A} (key : A → str) m l k : indexes key m l → is_Some (m !! k) ↔ k ∈ map key l.
Proof.
  intros Hm. rewrite (list_elem_of_fmap key l k). split.
  - intros [i Hi%Hm]. destruct (l !! i) as [x|] eqn:E; [|done]. injection Hi as <-. exists x. split; [done|]. by eapply list_elem_of_lookup_2.
  - intros (x & -> & [i Hi]%list_elem_of_lookup). exists i. apply Hm. by rewrite Hi.
Qed.

(** C29. Deduplication returns, one node is left for each fingerprint, in the order in which
    the fingerprints first occur, the number of removed nodes is what the list has lost,
    and what is left of the nodes with one fingerprint is the first of them with the
    memberships of them all: the union of their subscriptions, for each subscription the
    remark of the first that belongs to it, and a manual copy when one of them is. *)
Theorem dedup_nodes_spec nodes : ∃ merged,
  dedup_nodes nodes = Ok (merged, len nodes - len merged) ∧
  map node_fingerprint merged = firsts (map node_fingerprint nodes) ∧
  ∀ n, n ∈ merged → stands_for (filter (λ m, node_fingerprint m = node_fingerprint n) nodes) n.
Proof.
  unfold dedup_nodes.
  enough (∃ seen merged, foldl dedup_step (Ok (∅, [])) nodes = Ok (seen, merged) ∧ indexes node_fingerprint seen merged ∧
    map node_fingerprint merged = firsts (map node_fingerprint nodes) ∧
    ∀ n, n ∈ merged → stands_for (filter (λ m, node_fingerprint m = node_fingerprint n) nodes) n) as (seen & merged & -> & _ & H1 & H2)
    by (by exists merged).
  induction nodes as [|x nodes IH] using rev_ind; [exists ∅, []; (split; [done|]); (split; [by intros k i|]); (split; [done|]); by intros n ?%not_elem_of_nil|].
  destruct IH as (seen & merged & E & Hi & Hf & Hs). rewrite foldl_app, E. cbn [foldl dedup_step mbind outcome_bind].
  rewrite map_app. cbn [map]. rewrite firsts_snoc, <- Hf. unfold add_first. destruct (seen !! node_fingerprint x) as [i|] eqn:Ex.
  - assert (Hex := Ex). apply Hi in Hex. destruct (merged !! i) as [r|] eqn:Er; [|done]. injection Hex as Hr.
    rewrite (merge_at_ok _ _ _ _ Er). destruct (merge_spec r x) as (Hsame & _). apply same_fingerprint in Hsame as Hfp.
    eexists _, _. split; [done|]. split; [by eapply indexes_insert|]. rewrite decide_True by (rewrite <- (indexes_elem _ _ _ _ Hi), Ex; eauto). split.
    + by eapply map_insert_same.
    + intros n [j Hj]%list_elem_of_lookup. rewrite filter_app, filter_cons, filter_nil.
      destruct (decide (j = i)) as [->|Hne].
      * rewrite list_lookup_insert_eq in Hj by (by apply lookup_lt_Some in Er). injection Hj as <-.
        rewrite decide_True by congruence. apply stands_for_merge. rewrite Hfp. apply Hs. by eapply list_elem_of_lookup_2.
      * rewrite list_lookup_insert_ne in Hj by done. rewrite decide_False, app_nil_r; [apply Hs; by eapply list_elem_of_lookup_2|].
        intros E'. destruct Hne. assert (seen !! node_fingerprint n = Some j) as Hj' by (apply Hi; by rewrite Hj). congruence.
  - eexists _, _. split; [done|]. split; [by apply indexes_snoc|]. assert (node_fingerprint x ∉ map node_fingerprint merged) as Hx
      by (rewrite <- (indexes_elem _ _ _ _ Hi), Ex; by intros []). rewrite decide_False by done. split; [by rewrite map_app|].
    intros n [Hn| ->%list_elem_of_singleton]%elem_of_app; rewrite filter_app, filter_cons, filter_nil.
    + rewrite decide_False, app_nil_r; [by apply Hs|]. intros E'. apply Hx. rewrite E'. apply list_elem_of_fmap. by exists n.
    + rewrite decide_True by done.
      assert (filter (λ m, node_fingerprint m = node_fingerprint x) nodes = []) as ->; [|apply stands_for_one].
      apply elem_of_nil_inv. intros m [Em Hm]%list_elem_of_filter. apply Hx. rewrite Hf. apply elem_of_firsts, list_elem_of_fmap. by exists m.
Qed.
End dedup.
#[global] Hint Rewrite @sources_set_sources @sources_set_names @sources_set_manual @stored_set_names @stored_set_sources @stored_set_manual
  @flag_set_names @flag_set_sources @flag_set_manual : provenance.

(** * Names stay unique *)
Lemma show_uint_inj n m : 0 <= n < 10 ^ 40 → 0 <= m < 10 ^ 40 → show_uint n = show_uint m → n = m.
Proof.
  intros Hn Hm E. apply (inj Some). rewrite <- (parse_show_uint (10 ^ 40) n), <- (parse_show_uint (10 ^ 40) m) by lia. by rewrite E.
Qed.

Lemma suffixed_inj base n m : 0 <= n < 10 ^ 40 → 0 <= m < 10 ^ 40 → suffixed base n = suffixed base m → n = m.
Proof. unfold suffixed. intros Hn Hm E%app_inv_head%app_inv_head. by apply show_uint_inj. Qed.

(** The search ends within the names that are taken. *)
Lemma free_name_search seen base fuel : ∀ n, 2 <= n → n + Z.of_nat fuel < 2 ^ 32 →
  match free_name fuel seen base n with
  | Ok s => ∃ k, n <= k < 2 ^ 32 ∧ s = suffixed base k ∧ suffixed base k ∉ seen ∧ ∀ j, n <= j < k → suffixed base j ∈ seen
  | Diverge => ∀ k, n <= k < n + Z.of_nat fuel → suffixed base k ∈ seen
  | _ => False
  end.
Proof.
  induction fuel as [|fuel IH]; intros n Hn Hb; cbn [free_name]; [intros k; lia|].
  case_bool_decide as Hs; [|exists n; split; [lia|]; split; [done|]; split; [done|intros j; lia]].
  replace (as_u32 (n + 1)) with (n + 1) by (unfold as_u32; lia).
  specialize (IH (n + 1) ltac:(lia) ltac:(lia)). destruct (free_name _ _ _ _) as [s| | |]; try done.
  - destruct IH as (k & Hk & -> & Hf & Hj). exists k. split; [lia|]. split; [done|]. split; [done|].
    intros j Hj'. destruct (decide (j = n)) as [->|]; [done|]. apply Hj. lia.
  - intros k Hk. destruct (decide (k = n)) as [->|]; [done|]. apply IH. lia.
Qed.

Lemma free_name_ok seen base : Z.of_nat (size seen) + 3 < 2 ^ 32 →
  ∃ k, free_name (S (size seen)) seen base 2 = Ok (suffixed base k) ∧ 2 <= k < 2 ^ 32 ∧ suffixed base k ∉ seen ∧ ∀ j, 2 <= j < k → suffixed base j ∈ seen.
Proof.
  intros Hb. pose proof (free_name_search seen base (S (size seen)) 2 ltac:(lia) ltac:(lia)) as H.
  destruct (free_name _ _ _ _) as [s| | |]; try done.
  - destruct H as (k & Hk & -> & Hs). by exists k.
  - exfalso. set (l := suffixed base <$> seqZ 2 (Z.of_nat (S (size seen)))).
    assert (NoDup l) as Hl.
    { unfold l. apply NoDup_fmap_2_strong; [|apply NoDup_seqZ]. intros x y Hx%elem_of_seqZ Hy%elem_of_seqZ.
      apply suffixed_inj; lia. }
    assert (list_to_set l ⊆ seen) as Hsub.
    { intros s (k & -> & Hk%elem_of_seqZ)%elem_of_list_to_set%list_elem_of_fmap. apply H. lia. }
    apply subseteq_size in Hsub. rewrite size_list_to_set in Hsub by done. unfold l in Hsub. rewrite length_fmap, length_seqZ in Hsub. lia.
Qed.

Section names.
Context `{SerdeJson} `{Identity}.

(** What renaming does to a node: another name, the same memberships and remarks. *)
Record renamed (n m : Node) : Prop := {
  renamed_same : same_node (with_name (name n) m) n;
  renamed_sources : subscription_sources m = subscription_sources n;
  renamed_names : subscription_names m = subscription_names n;
  renamed_manual : is_manual m = is_manual n;
}.

Lemma renamed_refl n : renamed n n.
Proof. by split. Qed.

Lemma rename_spec n s : renamed n (with_name s (set_names (subscription_names n) n)).
Proof.
  assert (∀ m, subscription_sources (with_name s m) = subscription_sources m) as Hw by done.
  split.
  - change (with_name (name n) _) with (with_extra (extra (set_names (subscription_names n) n)) n).
    apply same_with_extra. apply same_set_names.
  - by rewrite Hw, sources_set_names.
  - apply map_eq. intros x. rewrite !lookup_names, Hw, sources_set_names.
    change (stored_names (with_name s ?m)) with (stored_names m). rewrite stored_set_names, lookup_names. by case_decide.
  - rewrite !is_manual_eq, Hw, sources_set_names. change (manual_flag (with_name s ?m)) with (manual_flag m). by rewrite flag_set_names.
Qed.

Lemma renamed_fingerprint n m : renamed n m → node_fingerprint m = node_fingerprint n.
Proof.
  intros [Hs _ _ _]. rewrite <- (same_fingerprint _ _ Hs). by apply fingerprint_ignores.
Qed.

(** What came of the nodes of a list: the ones whose name is taken get a suffix. *)
Inductive uniquified : list Node → list Node → Prop :=
  | uniquified_nil : uniquified [] []
  | uniquified_keep l l' n : uniquified l l' → name n ∉ map name l' → uniquified (l ++ [n]) (l' ++ [n])
  | uniquified_rename l l' n m k : uniquified l l' → name n ∈ map name l' → renamed n m →
      2 <= k < 2 ^ 32 → name m = suffixed (name n) k → name m ∉ map name l' →
      (∀ j, 2 <= j < k → suffixed (name n) j ∈ map name l') → uniquified (l ++ [n]) (l' ++ [m]).

Lemma uniquify_loop nodes : len nodes + 3 < 2 ^ 32 → ∃ seen out,
  foldl uniquify_step (Ok (∅, [], false)) nodes = Ok (seen, out, negb (bool_decide (NoDup (map name nodes)))) ∧
  seen = list_to_set (map name out) ∧ NoDup (map name out) ∧ length out = length nodes ∧ uniquified nodes out ∧ (NoDup (map name nodes) → out = nodes).
Proof.
  intros Hb.
  induction nodes as [|n nodes IH] using rev_ind.
  - exists ∅, []. do 5 (split; [by (constructor || vm_compute || idtac)|]). done.
  - destruct IH as (seen & out & E & -> & Hn & Hl & Hu & Hid); [unfold len in *; rewrite length_app in Hb; lia|].
    rewrite foldl_app, E. cbn [foldl uniquify_step mbind outcome_bind]. rewrite map_app. cbn [map].
    assert (∀ x, x ∈ (list_to_set (map name out) : gset str) ↔ x ∈ map name out) as Hin by (intros x; apply elem_of_list_to_set).
    assert (∀ x, x ∉ map name out → NoDup (map name out ++ [x])) as Hnd.
    { intros x Hx. apply NoDup_app. split; [done|]. split; [|apply NoDup_singleton]. by intros y Hy ->%list_elem_of_singleton. }
    destruct (decide (name n ∈ map name out)) as [Hseen|Hseen].
    + rewrite (bool_decide_eq_true_2 (name n ∈ _)) by (by apply Hin). change (name (set_names _ n)) with (name n).
      destruct (free_name_ok (list_to_set (map name out)) (name n)) as (k & -> & Hk & Hfree & Hleast).
      { rewrite size_list_to_set, length_map by done. unfold len in *. rewrite length_app in Hb. cbn in Hb. lia. }
      cbn [mbind outcome_bind]. rewrite Hin in Hfree. eexists _, _. split.
      { do 2 f_equal. symmetry. apply negb_true_iff, bool_decide_eq_false. intros Hnd'. apply NoDup_app in Hnd' as (Hnn & Hd & _).
        rewrite Hid in Hseen by done. by apply (Hd (name n)); [|by left]. }
      rewrite !map_app, !length_app, Hl. split; [cbn; set_solver|]. split; [by apply Hnd|]. split; [done|]. split.
      * by apply (uniquified_rename _ _ n _ k); [| |apply rename_spec| | | |intros j Hj; apply Hin, Hleast].
      * intros Hnd'. apply NoDup_app in Hnd' as (Hnn & Hd & _). rewrite Hid in Hseen by done. by destruct (Hd (name n)); [|left].
    + rewrite (bool_decide_eq_false_2 (name n ∈ _)) by (by rewrite Hin). eexists _, _. split.
      { do 2 f_equal. f_equal. apply bool_decide_ext. split.
        - intros Hnn. rewrite Hid in Hseen, Hnd by done. by apply Hnd.
        - by intros (Hnn & _)%NoDup_app. }
      rewrite !map_app, !length_app, Hl. split; [cbn; set_solver|]. split; [by apply Hnd|]. split; [done|]. split; [by constructor|].
      intros (Hnn & _)%NoDup_app. by rewrite Hid.
Qed.

Lemma uniquified_names nodes : len nodes + 3 < 2 ^ 32 → ∃ out changed,
  uniquify_node_names nodes = Ok (out, changed) ∧ NoDup (map name out) ∧ uniquified nodes out.
Proof.
  intros Hb. unfold uniquify_node_names. destruct (uniquify_loop nodes Hb) as (seen & out & -> & _ & H1 & _ & H2 & _).
  by eexists _, _.
Qed.

(** Making names unique returns, and the counter of 32 bits does not wrap, for lists
    of fewer than 2^32 - 3 nodes. The names of the result are distinct, the flag says
    whether any name was changed, distinct names are left alone, and otherwise a node keeps
    its name unless an earlier node of the result has it, when it gets the first suffix
    from 2 on that is free; a renamed node keeps its identity, its subscriptions and the
    remarks under which they list it. *)
Theorem uniquify_node_names_spec nodes : len nodes + 3 < 2 ^ 32 → ∃ out,
  uniquify_node_names nodes = Ok (out, negb (bool_decide (NoDup (map name nodes)))) ∧
  NoDup (map name out) ∧ uniquified nodes out ∧ (NoDup (map name nodes) → out = nodes).
Proof.
  intros Hb. unfold uniquify_node_names. destruct (uniquify_loop nodes Hb) as (seen & out & -> & _ & H1 & _ & H2 & H3).
  by exists out.
Qed.
End names.

Lemma uniquify_node_names_spec_witness :
  let nodes := [sample "A" "a.example" []; sample "A" "b.example" []; sample "A #2" "c.example" []] in
  ∃ out, @uniquify_node_names plain_json nodes = Ok (out, true) ∧ map name out = [lit "A"; lit "A #2"; lit "A #2 #2"] ∧ NoDup (map name out).
Proof.
  cbv zeta. destruct (@uniquify_node_names_spec plain_json
    [sample "A" "a.example" []; sample "A" "b.example" []; sample "A #2" "c.example" []] ltac:(vm_compute; reflexivity)) as (out & E & Hn & _).
  exists out. split; [rewrite E; f_equal|]. split; [|exact Hn].
  assert (match @uniquify_node_names plain_json [sample "A" "a.example" []; sample "A" "b.example" []; sample "A #2" "c.example" []] with
          | Ok r => Some (map name r.1) | _ => None end = Some [lit "A"; lit "A #2"; lit "A #2 #2"]) as En by (vm_compute; reflexivity).
  rewrite E in En. by injection En.
Defined.
