(* ===== verification/Refresh.v ===== *)
(** * Applying subscription refreshes (config/dedup.rs, config/storage.rs)

    The nodes of a download replace those of its subscription, and downloads of an older
    revision are refused.  The clock and the generator of revisions are arguments:
    [revision i] is the one drawn for the i-th subscription. *)
From S2P Require Import Prelude Bytes Text Sorting StrOrder Nodes NodeIdentity Dedup.

#[local] Open Scope list_scope.
#[local] Open Scope Z_scope.

(** [Iterator::position]. *)
Definition position {A} (p : A → bool) (l : list A) : option nat := fst <$> list_find (λ x, p x = true) l.

(** The index of the only element with a property. *)
Definition only {A} (p : A → bool) (l : list A) : option nat :=
  match filter (λ e, p e.2 = true) (imap pair l) with [(i, _)] => Some i | _ => None end.

(** A download, and the version of the subscription it was made from. *)
Record SubscriptionRefreshSnapshot := { s_url : str; s_revision : str }.
Record SubscriptionRefreshCommit := { config : AppConfig; applied_urls : list str; written : bool }.

Section refresh.
Context `{SerdeJson} `{Identity}.

Definition acceptable (c : AppConfig) (batch : str * list Node) : bool :=
  negb (bool_decide (batch.2 = [])) && existsb (λ s, bool_decide (url s = batch.1)) (subscriptions c).

Definition same_remark (names : gmap str str) (node : Node) : bool :=
  existsb (λ e, bool_decide (names !! e.1 = Some e.2)) (map_to_list (subscription_names node)).

(** The node the user had selected, in the new list. *)
Definition restore_active (active : option Node) (merged : list Node) : option nat :=
  active ← active;
  let same node := bool_decide (node_fingerprint node = node_fingerprint active) in
  match position (λ node, bool_decide (name node = name active) && same node) merged with
  | Some i => Some i
  | None => match position same merged with Some i => Some i | None => only (same_remark (subscription_names active)) merged end
  end.

Definition refreshed_subscription (urls : gset str) (now : Z) (revision : nat → str) (i : nat) (s : Subscription) : Subscription :=
  if bool_decide (url s ∈ urls) then
    {| sub_name := sub_name s; url := url s; format := format s; last_updated := Some now;
       refresh_interval_hours := refresh_interval_hours s; refresh_revision := revision i |}
  else s.

Definition apply_subscription_refresh (now : Z) (revision : nat → str) (c : AppConfig) (refreshed : list (str * list Node)) : outcome (bool * AppConfig) :=
  let refreshed := filter (λ b, acceptable c b = true) refreshed in
  if bool_decide (refreshed = []) then Ok (false, c)
  else
    let active := active_node c ≫= (nodes c !!.) in
    let urls := list_to_set refreshed.*1 in
    let kept := detach_sources (nodes c) urls in
    let fresh := concat (map (λ b, tag_subscription_nodes b.2 b.1) refreshed) in
    '(merged, _) ← dedup_subscription_import (fresh ++ kept) (length fresh);
    let active_node := restore_active active merged in
    '(merged, _) ← uniquify_node_names merged;
    Ok (true, {| nodes := merged; active_node := active_node; subscriptions := imap (refreshed_subscription urls now revision) (subscriptions c) |}).

Definition remove_subscription_nodes (c : AppConfig) (u : str) : AppConfig :=
  let active := node_fingerprint <$> (active_node c ≫= (nodes c !!.)) in
  let kept := detach_sources (nodes c) {[u]} in
  {| nodes := kept; subscriptions := filter (λ s, url s ≠ u) (subscriptions c);
     active_node := active ≫= (λ f, position (λ node, bool_decide (node_fingerprint node = f)) kept) |}.

Definition applicable (c : AppConfig) (batch : SubscriptionRefreshSnapshot * list Node) : bool :=
  negb (bool_decide (batch.2 = [])) &&
  existsb (λ s, bool_decide (url s = s_url batch.1) && bool_decide (refresh_revision s = s_revision batch.1)) (subscriptions c).

(** [Vec::dedup]. *)
Fixpoint dedup (l : list str) : list str :=
  match l with
  | a :: ((b :: _) as l) => if bool_decide (a = b) then dedup l else a :: dedup l
  | l => l
  end.

(** The critical section of a commit, on the configuration the file holds. *)
Definition commit_subscription_refresh (now : Z) (revision : nat → str) (current : AppConfig)
    (refreshed : list (SubscriptionRefreshSnapshot * list Node)) : outcome SubscriptionRefreshCommit :=
  let applicable := filter (λ b, applicable current b = true) refreshed in
  let applied := dedup (sort_by str_leb (map (λ b, s_url b.1) applicable)) in
  '(changed, c) ← apply_subscription_refresh now revision current (map (λ b, (s_url b.1, b.2)) applicable);
  Ok {| config := c; applied_urls := applied; written := changed |}.
End refresh.
