(* ===== verification/RefreshSpec.v ===== *)
(** * A refresh replaces what its subscriptions own, and nothing else
    (config/dedup.rs, config/storage.rs) *)
From Stdlib Require Import String.
From S2P Require Import Prelude Bytes Text Sorting StrOrder Nodes NodeIdentity Dedup DedupSpec Refresh.

#[local] Open Scope string_scope.
#[local] Open Scope list_scope.
#[local] Open Scope Z_scope.

Lemma app_separator (a b c d : list Z) : 10 ∉ a → 10 ∉ c → a ++ 10 :: b = c ++ 10 :: d → a = c ∧ b = d.
Proof.
  revert c. induction a as [|x a IH]; intros [|y c] Ha Hc E; cbn in E.
  - by injection E.
  - injection E as <- _. destruct Hc. by left.
  - injection E as -> _. destruct Ha. by left.
  - injection E as <- E. apply not_elem_of_cons in Ha as [_ Ha], Hc as [_ Hc]. by destruct (IH c Ha Hc E) as [-> ->].
Qed.

Lemma position_some {A} (p : A → bool) l i : position p l = Some i → ∃ x, l !! i = Some x ∧ p x = true.
Proof.
  unfold position. destruct (list_find _ l) as [[j x]|] eqn:E; [|done]. intros [= ->].
  apply list_find_Some in E as (Hx & Hp & _). by exists x.
Qed.

Lemma position_none {A} (p : A → bool) l x : position p l = None → x ∈ l → p x = false.
Proof.
  unfold position. destruct (list_find _ l) as [[j y]|] eqn:E; [done|]. intros _ Hx.
  apply list_find_None in E. rewrite Forall_forall in E. specialize (E x Hx). cbn in E. by destruct (p x).
Qed.

Lemma only_spec {A} (p : A → bool) l i : only p l = Some i →
  (∃ x, l !! i = Some x ∧ p x = true) ∧ ∀ j y, l !! j = Some y → p y = true → j = i.
Proof.
  unfold only. set (hits := filter _ _).
  assert (∀ j y, (j, y) ∈ hits ↔ l !! j = Some y ∧ p y = true) as Hh.
  { intros j y. unfold hits. rewrite list_elem_of_filter, elem_of_lookup_imap. naive_solver. }
  destruct hits as [|[j x] [|]]; try done. intros [= <-]. split.
  - exists x. apply Hh. by left.
  - intros k y Hk Hy. assert ((k, y) ∈ [(j, x)]) as [= -> ->]%list_elem_of_singleton by (by apply Hh). done.
Qed.

Section refresh.
Context `{SerdeJson} `{Identity}.

(** ** What a list of nodes says about a fingerprint *)
(** Some node with the fingerprint has the property. *)
Definition some_node (P : Node → Prop) (l : list Node) (f : str) : Prop := ∃ n, n ∈ l ∧ node_fingerprint n = f ∧ P n.
Definition belongs (s : str) (n : Node) : Prop := s ∈ subscription_sources n.
Definition by_hand (n : Node) : Prop := is_manual n = true.

(** Properties that merging adds up and renaming leaves alone. *)
Class Additive (P : Node → Prop) := {
  additive_merge r n : P (merge_duplicate r n) ↔ P r ∨ P n;
  additive_rename n m : renamed n m → P m ↔ P n;
}.

#[export] Instance belongs_additive s : Additive (belongs s).
Proof.
  split; unfold belongs.
  - intros r n. destruct (merge_spec r n) as (_ & -> & _). set_solver.
  - intros n m [_ -> _ _]. done.
Qed.

#[export] Instance by_hand_additive : Additive by_hand.
Proof.
  split; unfold by_hand.
  - intros r n. destruct (merge_spec r n) as (_ & _ & -> & _). apply orb_true_iff.
  - intros n m [_ _ _ ->]. done.
Qed.

#[export] Instance any_additive : Additive (λ _, True).
Proof. by split; naive_solver. Qed.

Lemma some_app P l l' f : some_node P (l ++ l') f ↔ some_node P l f ∨ some_node P l' f.
Proof. unfold some_node. setoid_rewrite elem_of_app. naive_solver. Qed.

Lemma some_one P n f : some_node P [n] f ↔ node_fingerprint n = f ∧ P n.
Proof. unfold some_node. setoid_rewrite list_elem_of_singleton. naive_solver. Qed.

Lemma some_merge P `{!Additive P} l i r n f : l !! i = Some r → node_fingerprint r = node_fingerprint n →
  some_node P (<[i := merge_duplicate r n]> l) f ↔ some_node P (l ++ [n]) f.
Proof.
  intros Hr Hf. assert (node_fingerprint (merge_duplicate r n) = node_fingerprint r) as Hm by apply same_fingerprint, merge_spec.
  rewrite some_app, some_one. rewrite insert_take_drop by (by apply lookup_lt_Some in Hr).
  rewrite <- (take_drop_middle l i r Hr) at 3. rewrite !some_app. change (?x :: drop (S i) l) with ([x] ++ drop (S i) l).
  rewrite !some_app, !some_one, additive_merge, Hm. rewrite Hf. tauto.
Qed.

Lemma named_key_inj n m : named_key n = named_key m → node_fingerprint n = node_fingerprint m ∧ name n = name m.
Proof. unfold named_key. apply app_separator; apply fingerprint_line. Qed.

Lemma named_key_merge r n : named_key (merge_duplicate r n) = named_key r.
Proof. destruct (merge_spec r n) as (Hs & _). unfold named_key. by rewrite (same_fingerprint _ _ Hs), (same_name _ _ Hs). Qed.

(** ** Imports *)
(** After the nodes [p]. *)
Record import_ok (p : list Node) (i : Import) : Prop := {
  import_named : indexes named_key (seen_named i) (merged i);
  import_by_fp f k : fresh_by_fp i !! f = Some k → node_fingerprint <$> merged i !! k = Some f;
  import_some P `{!Additive P} f : some_node P (merged i) f ↔ some_node P p f;
  import_length : (length (merged i) <= length p)%nat;
}.

Lemma import_ok_start : import_ok [] {| seen_named := ∅; fresh_by_fp := ∅; merged := [] |}.
Proof. by split; intros. Qed.

(** The two things that happen to a node: it is merged into an equal one, or put last. *)
Lemma import_ok_merge p i n k r : import_ok p i → merged i !! k = Some r → node_fingerprint r = node_fingerprint n →
  import_ok (p ++ [n]) {| seen_named := seen_named i; fresh_by_fp := fresh_by_fp i; merged := <[k := merge_duplicate r n]> (merged i) |}.
Proof.
  intros [Hn Hf Hs Hl] Hr Hfp. split; cbn [seen_named fresh_by_fp merged].
  - eapply indexes_insert; [done..|apply named_key_merge].
  - intros f j Hj%Hf. destruct (decide (k = j)) as [<-|]; [|by rewrite list_lookup_insert_ne].
    rewrite list_lookup_insert_eq by (by apply lookup_lt_Some in Hr). rewrite Hr in Hj. cbn in *. rewrite <- Hj. f_equal.
    apply same_fingerprint, merge_spec.
  - intros P HP f. by rewrite some_merge, !some_app, (Hs P HP f).
  - rewrite length_insert, length_app. cbn. lia.
Qed.

Lemma import_ok_push p i n fresh : import_ok p i → seen_named i !! named_key n = None →
  (∀ f k, fresh !! f = Some k → fresh_by_fp i !! f = Some k ∨ f = node_fingerprint n ∧ k = length (merged i)) →
  import_ok (p ++ [n]) {| seen_named := <[named_key n := length (merged i)]> (seen_named i); fresh_by_fp := fresh; merged := merged i ++ [n] |}.
Proof.
  intros [Hn Hf Hs Hl] Hk Hfresh. split; cbn [seen_named fresh_by_fp merged].
  - by apply indexes_snoc.
  - intros f k [Hj%Hf|[-> ->]]%Hfresh; [|by rewrite lookup_app_r, Nat.sub_diag by done].
    destruct (merged i !! k) as [x|] eqn:E; [|done]. by rewrite (lookup_app_l_Some _ _ _ _ E).
  - intros P HP f. by rewrite !some_app, (Hs P HP f).
  - rewrite !length_app. cbn. lia.
Qed.

Lemma seen_lookup p i n k : import_ok p i → seen_named i !! named_key n = Some k →
  ∃ r, merged i !! k = Some r ∧ named_key r = named_key n ∧ node_fingerprint r = node_fingerprint n ∧ name r = name n.
Proof.
  intros Hi Hk. apply (import_named _ _ Hi) in Hk. destruct (merged i !! k) as [r|]; [|done]. injection Hk as Hk.
  exists r. destruct (named_key_inj _ _ Hk). done.
Qed.

(** Under [key] some node is listed by [s] as [x]. *)
Definition remarked (l : list Node) (key s x : str) : Prop := ∃ r, r ∈ l ∧ named_key r = key ∧ subscription_names r !! s = Some x.
(** Every remark of a node is its name. *)
Definition plain (n : Node) : Prop := ∀ s x, subscription_names n !! s = Some x → x = name n.

Lemma elem_of_insert {A} (l : list A) k r y : l !! k = Some r → y ∈ <[k := y]> l.
Proof. intros Hr. apply (list_elem_of_lookup_2 _ k), list_lookup_insert_eq. by apply lookup_lt_Some in Hr. Qed.

Lemma remarked_app l l' key s x : remarked (l ++ l') key s x ↔ remarked l key s x ∨ remarked l' key s x.
Proof. unfold remarked. setoid_rewrite elem_of_app. naive_solver. Qed.

Lemma remarked_merge l k r n key s x : l !! k = Some r → remarked l key s x → remarked (<[k := merge_duplicate r n]> l) key s x.
Proof.
  intros Hr (r' & [j Hj]%list_elem_of_lookup & Hk & Hx). destruct (decide (k = j)) as [<-|Hne].
  - assert (r' = r) as -> by congruence. exists (merge_duplicate r n). split.
    + by eapply elem_of_insert.
    + split; [by rewrite named_key_merge|]. destruct (merge_spec r n) as (_ & _ & _ & ->). by apply lookup_union_Some_l.
  - exists r'. split; [|done]. apply (list_elem_of_lookup_2 _ j). by rewrite list_lookup_insert_ne.
Qed.

Lemma plain_merge r n : plain r → plain n → name n = name r → plain (merge_duplicate r n).
Proof.
  intros Hr Hn E s x. destruct (merge_spec r n) as (Hs & _ & _ & ->). rewrite (same_name _ _ Hs).
  intros [Hx|[_ Hx]]%lookup_union_Some_raw; [by apply (Hr s)|rewrite <- E; by apply (Hn s)].
Qed.

Lemma names_sources n s : s ∈ subscription_sources n → is_Some (subscription_names n !! s).
Proof. intros Hs. apply elem_of_dom. by rewrite dom_names. Qed.

(** A node of the download. *)
Lemma import_fresh_ok p i n : import_ok p i → ∃ i', import_fresh (Ok i) n = Ok i' ∧ import_ok (p ++ [n]) i' ∧
  map named_key (merged i') = add_first (map named_key (merged i)) (named_key n) ∧
  (∀ key s x, remarked (merged i) key s x → remarked (merged i') key s x) ∧
  (Forall plain (merged i) → plain n → Forall plain (merged i') ∧
   ∀ s, s ∈ subscription_sources n → remarked (merged i') (named_key n) s (name n)).
Proof.
  intros Hi. unfold import_fresh. cbn [mbind outcome_bind]. unfold add_first. rewrite <- (decide_ext _ _ _ _ (indexes_elem _ _ _ (named_key n) (import_named _ _ Hi))).
  destruct (seen_named i !! named_key n) as [k|] eqn:Ek.
  - destruct (seen_lookup _ _ _ _ Hi Ek) as (r & Hr & Hk & Hf & Hname). rewrite (merge_at_ok _ _ _ _ Hr). cbn [mbind outcome_bind].
    rewrite decide_True by eauto. eexists. split; [done|]. split; [by apply import_ok_merge|]. cbn [merged].
    split; [by eapply map_insert_same; [|apply named_key_merge]|]. split; [intros; by apply remarked_merge|]. intros Hp Hn.
    assert (plain r) as Hpr by (by eapply Forall_lookup_1 in Hr; [|exact Hp]).
    assert (plain (merge_duplicate r n)) as Hpm by (by apply plain_merge). split; [by apply Forall_insert|].
    intros s Hs. exists (merge_duplicate r n). split; [by eapply elem_of_insert|]. split; [by rewrite named_key_merge|].
    destruct (merge_spec r n) as (Hsame & Hsrc & _ & _).
    destruct (names_sources (merge_duplicate r n) s) as [x Hx]; [rewrite Hsrc; set_solver|]. rewrite Hx. f_equal.
    rewrite (Hpm s x Hx), (same_name _ _ Hsame). done.
  - rewrite decide_False by (by intros []). eexists. split; [done|]. split.
    { apply import_ok_push; [done..|]. intros f k. destruct (fresh_by_fp i !! node_fingerprint n) eqn:E; [by left|].
      destruct (decide (node_fingerprint n = f)) as [<-|Hne]; [rewrite lookup_insert_eq; intros [= <-]; by right|rewrite lookup_insert_ne by done; by left]. }
    cbn [merged]. split; [by rewrite map_app|]. split; [intros; apply remarked_app; by left|]. intros Hp Hn. split; [by apply Forall_app; split; [|constructor]|].
    intros s Hs. apply remarked_app. right. exists n. split; [by left|]. split; [done|].
    destruct (names_sources n s Hs) as [x Hx]. rewrite Hx. f_equal. by apply (Hn s).
Qed.

(** A node that was there before. *)
Lemma import_kept_ok p i n : import_ok p i → ∃ i', import_kept (Ok i) n = Ok i' ∧ import_ok (p ++ [n]) i' ∧
  (∀ key s x, remarked (merged i) key s x → remarked (merged i') key s x) ∧
  map named_key (merged i) `prefix_of` map named_key (merged i').
Proof.
  intros Hi. unfold import_kept. cbn [mbind outcome_bind].
  assert (∀ k r, merged i !! k = Some r → node_fingerprint r = node_fingerprint n → ∃ i',
    (m ← merge_at k n (merged i); Ok {| seen_named := seen_named i; fresh_by_fp := fresh_by_fp i; merged := m |}) = Ok i' ∧ import_ok (p ++ [n]) i' ∧
    (∀ key s x, remarked (merged i) key s x → remarked (merged i') key s x) ∧ map named_key (merged i) `prefix_of` map named_key (merged i')) as Hmerge.
  { intros k r Hr Hf. rewrite (merge_at_ok _ _ _ _ Hr). eexists. split; [done|]. split; [by apply import_ok_merge|].
    cbn [merged]. split; [intros; by apply remarked_merge|].
    rewrite (map_insert_same named_key _ _ _ _ Hr) by apply named_key_merge. done. }
  assert (seen_named i !! named_key n = None → ∃ i',
    Ok {| seen_named := <[named_key n := length (merged i)]> (seen_named i); fresh_by_fp := fresh_by_fp i; merged := merged i ++ [n] |} = Ok i' ∧ import_ok (p ++ [n]) i' ∧
    (∀ key s x, remarked (merged i) key s x → remarked (merged i') key s x) ∧ map named_key (merged i) `prefix_of` map named_key (merged i')) as Hpush.
  { intros Hk. eexists. split; [done|]. split; [apply import_ok_push; [done..|by left]|]. cbn [merged].
    split; [intros; apply remarked_app; by left|]. rewrite map_app. by apply prefix_app_r. }
  destruct (seen_named i !! named_key n) as [k|] eqn:Ek.
  - destruct (seen_lookup _ _ _ _ Hi Ek) as (r & Hr & _ & Hf & _). by apply (Hmerge k r).
  - destruct (fresh_by_fp i !! node_fingerprint n) as [k|] eqn:Ef; [|by apply Hpush].
    destruct (is_manual n || _); [|by apply Hpush].
    apply (import_by_fp _ _ Hi) in Ef. destruct (merged i !! k) as [r|] eqn:Er; [|done]. injection Ef as Ef. by apply (Hmerge k r).
Qed.

Definition import_start : Import := {| seen_named := ∅; fresh_by_fp := ∅; merged := [] |}.
(** Every membership of the nodes is under their name. *)
Definition all_remarked (fresh l : list Node) : Prop := ∀ n s, n ∈ fresh → s ∈ subscription_sources n → remarked l (named_key n) s (name n).

Lemma fresh_loop_ok fresh : ∃ i, foldl import_fresh (Ok import_start) fresh = Ok i ∧ import_ok fresh i ∧
  map named_key (merged i) = firsts (map named_key fresh) ∧
  (Forall plain fresh → Forall plain (merged i) ∧ all_remarked fresh (merged i)).
Proof.
  induction fresh as [|n fresh IH] using rev_ind.
  - eexists. split; [done|]. split; [apply import_ok_start|]. split; [done|]. intros _. split; [constructor|]. by intros n s ?%not_elem_of_nil.
  - destruct IH as (i & E & Hi & Hk & Hp). destruct (import_fresh_ok _ _ n Hi) as (i' & E' & Hi' & Hk' & Hr & Hp').
    exists i'. rewrite foldl_app, E. split; [done|]. split; [done|]. split; [by rewrite Hk', map_app; cbn [map]; rewrite firsts_snoc, Hk|].
    intros [Hf [Hn _]%Forall_cons]%Forall_app. destruct (Hp Hf) as [Hm Ha]. destruct (Hp' Hm Hn) as [Hm' Ha']. split; [done|].
    intros x s [Hx| ->%list_elem_of_singleton]%elem_of_app Hs; [apply Hr; by apply Ha|by apply Ha'].
Qed.

Lemma import_spec fresh kept : ∃ i,
  dedup_subscription_import (fresh ++ kept) (length fresh) = Ok (merged i, len (fresh ++ kept) - len (merged i)) ∧ import_ok (fresh ++ kept) i ∧
  firsts (map named_key fresh) `prefix_of` map named_key (merged i) ∧ (Forall plain fresh → all_remarked fresh (merged i)).
Proof.
  unfold dedup_subscription_import. rewrite Nat.min_l by (rewrite length_app; lia). rewrite take_app_length, drop_app_length. fold import_start.
  destruct (fresh_loop_ok fresh) as (i0 & -> & Hi0 & Hk0 & Hp0).
  enough (∃ i, foldl import_kept (Ok i0) kept = Ok i ∧ import_ok (fresh ++ kept) i ∧
    map named_key (merged i0) `prefix_of` map named_key (merged i) ∧ ∀ key s x, remarked (merged i0) key s x → remarked (merged i) key s x) as (i & -> & Hi & Hk & Hr).
  { exists i. split; [done|]. split; [done|]. split; [by rewrite <- Hk0|]. intros Hf n s Hn Hs. apply Hr. by apply Hp0. }
  induction kept as [|n kept IH] using rev_ind; [exists i0; by rewrite app_nil_r|].
  destruct IH as (i & E & Hi & Hk & Hr). destruct (import_kept_ok _ _ n Hi) as (i' & E' & Hi' & Hr' & Hk').
  exists i'. rewrite foldl_app, E, app_assoc. split; [done|]. split; [done|]. split; [by etrans|]. auto.
Qed.

(** ** The nodes that go in *)
Definition fresh_nodes (batches : list (str * list Node)) : list Node := concat (map (λ b, tag_subscription_nodes b.2 b.1) batches).

Lemma elem_of_fresh batches n : n ∈ fresh_nodes batches ↔ ∃ u ns m, (u, ns) ∈ batches ∧ m ∈ ns ∧ n = tag u m.
Proof.
  unfold fresh_nodes, tag_subscription_nodes. rewrite list_elem_of_In, in_concat. split.
  - intros (l & ([u ns] & <- & Hb)%in_map_iff & (m & <- & Hm)%in_map_iff). exists u, ns, m. by rewrite !list_elem_of_In.
  - intros (u & ns & m & Hb & Hm & ->). exists (map (tag u) ns). rewrite !in_map_iff. split; [exists (u, ns)|exists m]; by rewrite <- list_elem_of_In.
Qed.

Lemma fresh_nodes_filter P `{∀ b, Decision (P b)} batches : (length (fresh_nodes (filter P batches)) <= length (fresh_nodes batches))%nat.
Proof. unfold fresh_nodes. induction batches as [|b l IH]; [done|]. rewrite filter_cons. case_decide; cbn; rewrite ?length_app in *; lia. Qed.

Lemma fresh_belongs batches s f : some_node (belongs s) (fresh_nodes batches) f ↔ ∃ ns n, (s, ns) ∈ batches ∧ n ∈ ns ∧ node_fingerprint n = f.
Proof.
  unfold some_node, belongs. setoid_rewrite elem_of_fresh. split.
  - intros (n & (u & ns & m & Hb & Hm & ->) & Hf & Hs). destruct (tag_spec u m) as (Hsame & Hsrc & _). rewrite Hsrc in Hs.
    apply elem_of_singleton in Hs as ->. exists ns, m. split; [done|]. split; [done|]. by rewrite <- (same_fingerprint _ _ Hsame).
  - intros (ns & m & Hb & Hm & Hf). exists (tag s m). destruct (tag_spec s m) as (Hsame & Hsrc & _). split; [by exists s, ns, m|].
    rewrite (same_fingerprint _ _ Hsame), Hsrc. split; [done|set_solver].
Qed.

Lemma fresh_by_hand batches f : ¬ some_node by_hand (fresh_nodes batches) f.
Proof.
  intros (n & (u & ns & m & Hb & Hm & ->)%elem_of_fresh & _ & Hh). destruct (tag_spec u m) as (_ & _ & Hman & _). unfold by_hand in Hh. congruence.
Qed.

Lemma tag_plain u n : subscription_sources n = ∅ → plain (tag u n).
Proof.
  intros Hs s x. destruct (tag_spec u n) as (Hsame & _ & _ & ->). rewrite lookup_singleton_Some, lookup_names, Hs, decide_False by set_solver.
  intros [_ <-]. by rewrite (same_name _ _ Hsame).
Qed.

Lemma elem_of_detached l removed n : n ∈ detach_sources l removed ↔ ∃ m, m ∈ l ∧ detach removed m = Some n.
Proof. apply list_elem_of_omap. Qed.

Lemma length_detached l removed : (length (detach_sources l removed) <= length l)%nat.
Proof. unfold detach_sources. induction l as [|n l IH]; [done|]. cbn. destruct (detach removed n); cbn; lia. Qed.

Lemma detached_belongs l removed s f : some_node (belongs s) (detach_sources l removed) f ↔ some_node (belongs s) l f ∧ s ∉ removed.
Proof.
  unfold some_node, belongs. setoid_rewrite elem_of_detached. split.
  - intros (n & (m & Hm & E) & Hf & Hs). pose proof (detach_spec removed m) as Hd. rewrite E in Hd. destruct Hd as (Hsame & Hsrc & _).
    rewrite Hsrc in Hs. split; [|set_solver]. exists m. rewrite <- (same_fingerprint _ _ Hsame). split; [done|]. split; [done|set_solver].
  - intros ((m & Hm & Hf & Hs) & Hr). pose proof (detach_spec removed m) as Hd. destruct (detach removed m) as [n|] eqn:E; [|destruct Hd; set_solver].
    destruct Hd as (Hsame & Hsrc & _). exists n. split; [by exists m|]. rewrite (same_fingerprint _ _ Hsame), Hsrc. split; [done|set_solver].
Qed.

Lemma detached_by_hand l removed f : some_node by_hand (detach_sources l removed) f ↔ some_node by_hand l f.
Proof.
  unfold some_node, by_hand. setoid_rewrite elem_of_detached. split.
  - intros (n & (m & Hm & E) & Hf & Hs). pose proof (detach_spec removed m) as Hd. rewrite E in Hd. destruct Hd as (Hsame & _ & Hman & _).
    exists m. rewrite <- (same_fingerprint _ _ Hsame), <- Hman. done.
  - intros (m & Hm & Hf & Hh). pose proof (detach_spec removed m) as Hd. destruct (detach removed m) as [n|] eqn:E; [|destruct Hd; congruence].
    destruct Hd as (Hsame & _ & Hman & _). exists n. split; [by exists m|]. rewrite (same_fingerprint _ _ Hsame), Hman. done.
Qed.

(** ** The names at the end *)
Lemma uniquified_renamed l l' : uniquified l l' → Forall2 renamed l l'.
Proof.
  induction 1; [constructor|apply Forall2_app; [done|]; constructor; [|constructor]..]; [apply renamed_refl|done].
Qed.

Lemma renamed_some P `{!Additive P} l l' f : Forall2 renamed l l' → some_node P l' f ↔ some_node P l f.
Proof.
  unfold some_node. intros Hr. induction Hr as [|n m l l' Hnm _ IH]; [by setoid_rewrite elem_of_nil|].
  setoid_rewrite elem_of_cons. pose proof (additive_rename n m Hnm). pose proof (renamed_fingerprint n m Hnm). naive_solver congruence.
Qed.

(** ** The refresh *)
(** The selection after a refresh: the same server if it is still there, else the only
    node that some subscription lists under the remark the selected one had there. *)
Definition active_ok (active : option Node) (c : AppConfig) : Prop :=
  match active with
  | None => active_node c = None
  | Some a =>
      (some_node (λ _, True) (nodes c) (node_fingerprint a) →
        ∃ i n, active_node c = Some i ∧ nodes c !! i = Some n ∧ node_fingerprint n = node_fingerprint a) ∧
      (¬ some_node (λ _, True) (nodes c) (node_fingerprint a) → ∀ i, active_node c = Some i →
        (∃ n, nodes c !! i = Some n ∧ same_remark (subscription_names a) n = true) ∧
        ∀ j n, nodes c !! j = Some n → same_remark (subscription_names a) n = true → j = i)
  end.

Lemma restore_active_ok active l l' s : Forall2 renamed l l' →
  active_ok active {| nodes := l'; active_node := restore_active active l; subscriptions := s |}.
Proof.
  intros Hr. destruct active as [a|]; [|done]. unfold active_ok, restore_active. cbn [mbind option_bind nodes active_node].
  assert (∀ i n, l !! i = Some n → ∃ m, l' !! i = Some m ∧ renamed n m) as Hl by (intros i n Hn; by eapply Forall2_lookup_l).
  assert (∀ i m, l' !! i = Some m → ∃ n, l !! i = Some n ∧ renamed n m) as Hl' by (intros i m Hm; by eapply Forall2_lookup_r).
  assert (∀ n m, renamed n m → same_remark (subscription_names a) m = same_remark (subscription_names a) n) as Hsr
    by (intros n m [_ _ E _]; unfold same_remark; by rewrite E).
  set (same := λ n, bool_decide (node_fingerprint n = node_fingerprint a)).
  assert (∀ i p, position (λ n, p n && same n) l = Some i →
    ∃ n, l' !! i = Some n ∧ node_fingerprint n = node_fingerprint a) as Hpos.
  { intros i p (n & Hn & [_ Hf%bool_decide_eq_true]%andb_true_iff)%position_some. destruct (Hl _ _ Hn) as (m & Hm & Hnm).
    exists m. split; [done|]. by rewrite (renamed_fingerprint _ _ Hnm). }
  assert (∀ i n, l' !! i = Some n → node_fingerprint n = node_fingerprint a → some_node (λ _, True) l' (node_fingerprint a)) as Hex
    by (intros i n Hn Hf; exists n; split; [by eapply list_elem_of_lookup_2|done]).
  destruct (position _ l) as [i|] eqn:E1.
  { apply (Hpos i) in E1 as (n & Hn & Hf). split; [intros _; by exists i, n|]. intros Hno. destruct Hno. by apply (Hex i n). }
  destruct (position same l) as [i|] eqn:E2.
  { apply (Hpos i (λ _, true)) in E2 as (n & Hn & Hf). split; [intros _; by exists i, n|]. intros Hno. destruct Hno. by apply (Hex i n). }
  split.
  - intros Hsome. apply (renamed_some _ _ _ _ Hr) in Hsome as (n & Hn & Hf & _). apply (position_none _ _ _ E2) in Hn.
    by apply bool_decide_eq_false in Hn.
  - intros _ i [(n & Hn & Hp) Hu]%only_spec. split.
    + destruct (Hl _ _ Hn) as (m & Hm & Hnm). exists m. split; [done|]. by rewrite (Hsr _ _ Hnm).
    + intros j m Hm Hpm. destruct (Hl' _ _ Hm) as (x & Hx & Hxm). apply (Hu j x Hx). by rewrite <- (Hsr _ _ Hxm).
Qed.

(** What a refresh does when it does anything. *)
Lemma refresh_shape now revision c refreshed :
  len (nodes c) + len (fresh_nodes refreshed) + 3 < 2 ^ 32 →
  let accepted := filter (λ b, acceptable c b = true) refreshed in
  let urls : gset str := list_to_set accepted.*1 in
  let kept := detach_sources (nodes c) urls in
  accepted ≠ [] → ∃ i out,
    apply_subscription_refresh now revision c refreshed =
      Ok (true, {| nodes := out; active_node := restore_active (active_node c ≫= (nodes c !!.)) (merged i);
                   subscriptions := imap (refreshed_subscription urls now revision) (subscriptions c) |}) ∧
    import_ok (fresh_nodes accepted ++ kept) i ∧ (Forall plain (fresh_nodes accepted) → all_remarked (fresh_nodes accepted) (merged i)) ∧
    NoDup (map name out) ∧ Forall2 renamed (merged i) out.
Proof.
  intros Hb accepted urls kept Hne. unfold apply_subscription_refresh. fold accepted. fold urls.
  rewrite bool_decide_eq_false_2 by done. fold (fresh_nodes accepted). fold kept.
  destruct (import_spec (fresh_nodes accepted) kept) as (i & -> & Hi & _ & Hrem). cbn [mbind outcome_bind].
  assert (len (merged i) + 3 < 2 ^ 32) as Hb'.
  { pose proof (import_length _ _ Hi) as Hl. rewrite length_app in Hl. unfold len in *.
    pose proof (length_detached (nodes c) urls). pose proof (fresh_nodes_filter (λ b, acceptable c b = true) refreshed). unfold kept, accepted in *. lia. }
  destruct (uniquified_names (merged i) Hb') as (out & changed & -> & Hnd & Hu). cbn [mbind outcome_bind].
  exists i, out. split; [done|]. split; [done|]. split; [done|]. split; [done|]. by apply uniquified_renamed.
Qed.

(** C5. A refresh returns. Downloads that are empty or of no subscription of the
    configuration are left out; when none is left nothing changes. Otherwise, with the
    accepted downloads: a subscription owns a fingerprint afterwards exactly when it was
    refreshed and its download has the fingerprint, or it was not refreshed and owned it
    before; exactly the fingerprints with a manual copy still have one; names are
    distinct; every remark of a download is listed for its subscription under its
    fingerprint, also when several remarks share a server or a suffix was added to the
    displayed name; the selected server stays selected while any node for it is left;
    and exactly the refreshed subscriptions get the new time and revision. Fewer than
    2^32 - 3 nodes take part. *)
Theorem refresh_spec now revision c refreshed :
  len (nodes c) + len (fresh_nodes refreshed) + 3 < 2 ^ 32 →
  let accepted := filter (λ b, acceptable c b = true) refreshed in
  let urls : gset str := list_to_set accepted.*1 in
  (accepted = [] → apply_subscription_refresh now revision c refreshed = Ok (false, c)) ∧
  (accepted ≠ [] → ∃ c', apply_subscription_refresh now revision c refreshed = Ok (true, c') ∧
    (∀ s f, some_node (belongs s) (nodes c') f ↔
      (some_node (belongs s) (nodes c) f ∧ s ∉ urls) ∨ ∃ ns n, (s, ns) ∈ accepted ∧ n ∈ ns ∧ node_fingerprint n = f) ∧
    (∀ f, some_node by_hand (nodes c') f ↔ some_node by_hand (nodes c) f) ∧
    NoDup (map name (nodes c')) ∧
    ((∀ u ns n, (u, ns) ∈ accepted → n ∈ ns → subscription_sources n = ∅) →
      ∀ u ns n, (u, ns) ∈ accepted → n ∈ ns →
      ∃ m, m ∈ nodes c' ∧ node_fingerprint m = node_fingerprint n ∧ subscription_names m !! u = Some (name n)) ∧
    active_ok (active_node c ≫= (nodes c !!.)) c' ∧
    subscriptions c' = imap (refreshed_subscription urls now revision) (subscriptions c)).
Proof.
  intros Hb accepted urls. split; [unfold apply_subscription_refresh; fold accepted; by intros ->|].
  intros Hne. destruct (refresh_shape now revision c refreshed Hb Hne) as (i & out & -> & Hi & Hrem & Hnd & Hr). fold accepted in Hi, Hrem.
  eexists. split; [done|]. cbn [nodes active_node subscriptions]. split_and!.
  - intros s f. rewrite (renamed_some (belongs s) _ _ _ Hr), (import_some _ _ Hi (belongs s)), some_app, fresh_belongs, detached_belongs. tauto.
  - intros f. rewrite (renamed_some by_hand _ _ _ Hr), (import_some _ _ Hi by_hand), some_app, detached_by_hand.
    pose proof (fresh_by_hand accepted f). tauto.
  - done.
  - intros Hfresh u ns n Hb0 Hn. destruct (tag_spec u n) as (Hsame & Hsrc & _).
    destruct (Hrem) with (n := tag u n) (s := u) as (r & Hin & Hk & Hx).
    + apply Forall_forall. intros x (u' & ns' & m & Hb1 & Hm & ->)%elem_of_fresh. apply tag_plain. by eapply Hfresh.
    + apply elem_of_fresh. by exists u, ns, n.
    + rewrite Hsrc. set_solver.
    + apply list_elem_of_lookup in Hin as [j Hj]. destruct (Forall2_lookup_l _ _ _ _ _ Hr Hj) as (m & Hm & Hrm).
      exists m. split; [by eapply list_elem_of_lookup_2|]. apply named_key_inj in Hk as [Hf _].
      rewrite (renamed_fingerprint _ _ Hrm), Hf, (same_fingerprint _ _ Hsame), (renamed_names _ _ Hrm), Hx, (same_name _ _ Hsame). done.
  - by apply restore_active_ok.
  - done.
Qed.

(** Removing a subscription takes its memberships away and no others, leaves the manual
    copies, keeps of every node that is left all fields and the remarks of the other
    subscriptions, and the selection stays at the same server or is dropped with it. *)
Theorem remove_subscription_spec c u :
  let c' := remove_subscription_nodes c u in
  (∀ s f, some_node (belongs s) (nodes c') f ↔ some_node (belongs s) (nodes c) f ∧ s ≠ u) ∧
  (∀ f, some_node by_hand (nodes c') f ↔ some_node by_hand (nodes c) f) ∧
  (∀ m, m ∈ nodes c' → ∃ n, n ∈ nodes c ∧ same_node m n ∧ ∀ s, s ≠ u → subscription_names m !! s = subscription_names n !! s) ∧
  subscriptions c' = filter (λ s, url s ≠ u) (subscriptions c) ∧
  match active_node c ≫= (nodes c !!.) with
  | Some a =>
      (some_node (λ _, True) (nodes c') (node_fingerprint a) →
        ∃ i n, active_node c' = Some i ∧ nodes c' !! i = Some n ∧ node_fingerprint n = node_fingerprint a) ∧
      (¬ some_node (λ _, True) (nodes c') (node_fingerprint a) → active_node c' = None)
  | None => active_node c' = None
  end.
Proof.
  cbv zeta. unfold remove_subscription_nodes. cbn [nodes subscriptions]. split_and!; [| | | |].
  - intros s f. rewrite detached_belongs. set_solver.
  - intros f. apply detached_by_hand.
  - intros m (n & Hn & E)%elem_of_detached. exists n. pose proof (detach_spec {[u]} n) as Hd. rewrite E in Hd.
    destruct Hd as (Hs & _ & _ & Hx). split; [done|]. split; [done|]. intros s Hsu. apply Hx. set_solver.
  - done.
  - cbn [active_node]. destruct (active_node c ≫= (nodes c !!.)) as [a|]; [|done]. cbn [fmap option_fmap option_map mbind option_bind].
    destruct (position _ _) as [i|] eqn:E.
    + apply position_some in E as (n & Hn & Hf%bool_decide_eq_true). split; [intros _; by exists i, n|].
      intros Hno. destruct Hno. exists n. split; [by eapply list_elem_of_lookup_2|done].
    + split; [|done]. intros (n & Hn & Hf & _). apply (position_none _ _ _ E) in Hn. by apply bool_decide_eq_false in Hn.
Qed.

(** ** Downloads of an older version *)
Lemma elem_of_dedup l x : x ∈ dedup l ↔ x ∈ l.
Proof.
  induction l as [|a [|b l] IH]; [done..|]. cbn [dedup] in *. case_bool_decide as E.
  - rewrite IH, E. set_solver.
  - rewrite elem_of_cons, IH. set_solver.
Qed.

Lemma dedup_nodup l : sorted str_leb l → NoDup (dedup l).
Proof.
  induction l as [|a [|b l] IH]; intros Hs; [constructor|apply NoDup_singleton|]. cbn [dedup] in *. inversion Hs as [|? ? Hs' Ha]; subst.
  case_bool_decide as E; [by apply IH|]. constructor; [|by apply IH]. change (a ∉ dedup (b :: l)). rewrite elem_of_dedup. intros [->|Hin]%elem_of_cons; [done|].
  apply Forall_cons in Ha as [Hab _]. inversion Hs' as [|? ? _ Hb]; subst. rewrite Forall_forall in Hb.
  apply E, str_leb_antisym; [done|by apply Hb].
Qed.

Lemma applicable_spec c b : applicable c b = true ↔
  b.2 ≠ [] ∧ ∃ s, s ∈ subscriptions c ∧ url s = s_url b.1 ∧ refresh_revision s = s_revision b.1.
Proof.
  unfold applicable. rewrite andb_true_iff, negb_true_iff, bool_decide_eq_false, existsb_exists.
  setoid_rewrite andb_true_iff. setoid_rewrite bool_decide_eq_true. setoid_rewrite <- list_elem_of_In. done.
Qed.

Definition batch_of (b : SubscriptionRefreshSnapshot * list Node) : str * list Node := (s_url b.1, b.2).

Lemma applicable_accepted c l :
  filter (λ b, acceptable c b = true) (map batch_of (filter (λ b, applicable c b = true) l)) = map batch_of (filter (λ b, applicable c b = true) l).
Proof.
  induction l as [|b l IH]; [done|]. rewrite filter_cons. case_decide as Hb; [|done]. cbn [map]. rewrite filter_cons, IH.
  rewrite decide_True; [done|]. apply applicable_spec in Hb as (Hne & s & Hs & Hu & _). unfold acceptable, batch_of. cbn [fst snd].
  rewrite bool_decide_eq_false_2 by done. apply existsb_exists. exists s. rewrite <- list_elem_of_In, bool_decide_eq_true. done.
Qed.

(** Committing downloads returns and applies those made from the version the
    configuration holds: exactly the non-empty ones whose address and revision are still
    those of a subscription, each address reported once. If nothing was applied nothing
    is written. New revisions are not those of the downloads, so committing the same
    downloads again, or later ones made from the same snapshots, changes nothing. *)
Theorem commit_refresh_spec now revision c refreshed :
  len (nodes c) + len (fresh_nodes (map batch_of refreshed)) + 3 < 2 ^ 32 →
  (∀ i b, b ∈ refreshed → revision i ≠ s_revision b.1) →
  ∃ r, commit_subscription_refresh now revision c refreshed = Ok r ∧
    NoDup (applied_urls r) ∧
    (∀ u, u ∈ applied_urls r ↔ ∃ b s, b ∈ refreshed ∧ b.2 ≠ [] ∧ s ∈ subscriptions c ∧ url s = s_url b.1 ∧ refresh_revision s = s_revision b.1 ∧ u = url s) ∧
    (written r = true ↔ applied_urls r ≠ []) ∧
    (written r = false → config r = c) ∧
    apply_subscription_refresh now revision c (map batch_of (filter (λ b, applicable c b = true) refreshed)) = Ok (written r, config r) ∧
    ∀ now' revision', commit_subscription_refresh now' revision' (config r) refreshed = Ok {| config := config r; applied_urls := []; written := false |}.
Proof.
  intros Hb Hfresh. unfold commit_subscription_refresh at 1. set (ok := filter (λ b, applicable c b = true) refreshed). fold batch_of. change (λ b, (s_url b.1, b.2)) with batch_of.
  set (applied := dedup _).
  assert (∀ b, b ∈ ok ↔ b ∈ refreshed ∧ applicable c b = true) as Hok by (intros b; unfold ok; rewrite list_elem_of_filter; tauto).
  assert (∀ u, u ∈ applied ↔ ∃ b, b ∈ ok ∧ u = s_url b.1) as Happ.
  { intros u. unfold applied. rewrite elem_of_dedup, (sort_by_perm str_leb). rewrite (list_elem_of_fmap (λ b, s_url b.1)). naive_solver. }
  assert (∃ changed c', apply_subscription_refresh now revision c (map batch_of ok) = Ok (changed, c') ∧ (changed = true ↔ ok ≠ []) ∧ (changed = false → c' = c) ∧
    (ok ≠ [] → subscriptions c' = imap (refreshed_subscription (list_to_set (map batch_of ok).*1) now revision) (subscriptions c))) as (changed & c' & E & Hch & Hid & Hsub).
  { destruct (decide (ok = [])) as [->|Hne].
    - exists false, c. split; [done|]. naive_solver.
    - destruct (refresh_shape now revision c (map batch_of ok)) as (i & out & E & _).
      + pose proof (fresh_nodes_filter (λ b, acceptable c b = true) (map batch_of refreshed)).
        assert (length (fresh_nodes (map batch_of ok)) <= length (fresh_nodes (map batch_of refreshed)))%nat; [|unfold len in *; lia].
        unfold ok, fresh_nodes. clear. induction refreshed as [|b l IH]; [done|]. rewrite filter_cons. case_decide; cbn; rewrite ?length_app in *; lia.
      + unfold ok. rewrite applicable_accepted. fold ok. by destruct ok.
      + unfold ok in E. rewrite applicable_accepted in E. fold ok in E. eexists _, _. split; [exact E|]. naive_solver. }
  rewrite E. cbn [mbind outcome_bind]. eexists. split; [done|]. cbn [applied_urls written config]. split_and!.
  - apply dedup_nodup, sort_by_sorted; [intros a b; apply str_leb_total|intros a b d; apply str_leb_trans].
  - intros u. rewrite Happ. setoid_rewrite Hok. setoid_rewrite applicable_spec. naive_solver.
  - rewrite Hch. assert (ok = [] ↔ applied = []) as Ho; [|naive_solver]. split; [unfold applied; by intros ->|].
    intros Ha. destruct ok as [|b l] eqn:Eo; [done|]. assert (s_url b.1 ∈ applied) as Hin by (apply Happ; exists b; split; [by left|done]). rewrite Ha in Hin. by apply not_elem_of_nil in Hin.
  - done.
  - done.
  - intros now' revision'. unfold commit_subscription_refresh.
    assert (filter (λ b, applicable c' b = true) refreshed = []) as ->; [|done].
    apply elem_of_nil_inv. intros b [(Hne & s & Hs & Hu & Hr)%applicable_spec Hin]%list_elem_of_filter.
    destruct (decide (ok = [])) as [Ho|Ho].
    + rewrite Hid in Hs by (destruct changed; [by destruct (proj1 Hch eq_refl)|done]). assert (b ∈ ok) as Hb' by (apply Hok; split; [done|]; apply applicable_spec; split; [done|]; by exists s). rewrite Ho in Hb'. by apply not_elem_of_nil in Hb'.
    + rewrite (Hsub Ho) in Hs. apply elem_of_lookup_imap in Hs as (i & s0 & -> & Hs0). unfold refreshed_subscription in *. case_bool_decide as Hin'; cbn in Hu, Hr.
      * by apply (Hfresh i b Hin).
      * apply Hin', elem_of_list_to_set, list_elem_of_fmap. exists (batch_of b). split; [done|]. apply list_elem_of_fmap. exists b. split; [done|].
        apply Hok. split; [done|]. apply applicable_spec. split; [done|]. exists s0. split; [by eapply list_elem_of_lookup_2|done].
Qed.
End refresh.

(** ** Examples *)
#[local] Instance example_json : SerdeJson := plain_json.
#[local] Instance example_sha256 : Sha256 := plain_sha256.

Definition listed (u : string) (rev : string) : Subscription :=
  {| sub_name := lit u; url := lit u; format := lit "auto"; last_updated := None; refresh_interval_hours := 24; refresh_revision := lit rev |}.

(** A manual node and one of the subscription [a], which is selected. *)
Definition before : AppConfig :=
  {| nodes := [sample "mine" "m.example" []; tag (lit "a") (sample "Tokyo" "t.example" [])]; active_node := Some 1%nat;
     subscriptions := [listed "a" "v1"; listed "b" "v1"] |}.
(** The server has a new remark, and a new node has come. *)
Definition download : list Node := [sample "Tokyo 01" "t.example" []; sample "mine" "n.example" []].

Lemma refresh_spec_witness : ∃ c',
  apply_subscription_refresh 7 (λ _, lit "v2") before [(lit "a", download); (lit "gone", download)] = Ok (true, c') ∧
  NoDup (map name (nodes c')) ∧ active_ok (active_node before ≫= (nodes before !!.)) c' ∧
  (∀ f, some_node by_hand (nodes c') f ↔ some_node by_hand (nodes before) f) ∧
  map name (nodes c') = [lit "Tokyo 01"; lit "mine"; lit "mine #2"] ∧ active_node c' = Some 0%nat.
Proof.
  destruct (refresh_spec 7 (λ _, lit "v2") before [(lit "a", download); (lit "gone", download)]) as [_ Hs]; [by vm_compute|].
  destruct Hs as (c' & E & _ & Hm & Hn & _ & Ha & _); [by vm_compute|]. exists c'. split; [exact E|]. split; [done|]. split; [done|]. split; [done|].
  assert (match apply_subscription_refresh 7 (λ _, lit "v2") before [(lit "a", download); (lit "gone", download)] with
          | Ok (_, c') => Some (map name (nodes c'), active_node c') | _ => None end = Some ([lit "Tokyo 01"; lit "mine"; lit "mine #2"], Some 0%nat)) as Ec by (vm_compute; reflexivity).
  rewrite E in Ec. clear -Ec. injection Ec as E1 E2. split; assumption.
Defined.

Lemma commit_refresh_spec_witness : ∃ r,
  commit_subscription_refresh 7 (λ _, lit "v2") before [({| s_url := lit "a"; s_revision := lit "v1" |}, download); ({| s_url := lit "b"; s_revision := lit "v0" |}, download)] = Ok r ∧
  NoDup (applied_urls r) ∧ applied_urls r = [lit "a"] ∧
  commit_subscription_refresh 8 (λ _, lit "v3") (config r) [({| s_url := lit "a"; s_revision := lit "v1" |}, download); ({| s_url := lit "b"; s_revision := lit "v0" |}, download)]
    = Ok {| config := config r; applied_urls := []; written := false |}.
Proof.
  destruct (commit_refresh_spec 7 (λ _, lit "v2") before
    [({| s_url := lit "a"; s_revision := lit "v1" |}, download); ({| s_url := lit "b"; s_revision := lit "v0" |}, download)]) as (r & E & Hn & _ & _ & _ & _ & Hagain).
  - by vm_compute.
  - intros _ b [->|[->|[]%not_elem_of_nil]%elem_of_cons]%elem_of_cons; vm_compute; intros [=].
  - exists r. split; [exact E|]. split; [done|]. split; [|apply Hagain].
    assert (match commit_subscription_refresh 7 (λ _, lit "v2") before
      [({| s_url := lit "a"; s_revision := lit "v1" |}, download); ({| s_url := lit "b"; s_revision := lit "v0" |}, download)] with
      | Ok r => Some (applied_urls r) | _ => None end = Some [lit "a"]) as Er by (vm_compute; reflexivity).
    rewrite E in Er. clear -Er. injection Er as Er. exact Er.
Defined.

(** A server listed by two subscriptions under one remark is one node, but not once its
    displayed name has a suffix: the next refresh lists it twice. *)
Definition shared (suffix : list Node) : AppConfig :=
  {| nodes := suffix ++ [merge_duplicate (tag (lit "a") (sample "X" "t.example" [])) (tag (lit "b") (sample "X" "t.example" []))]; active_node := None;
     subscriptions := [listed "a" "v1"; listed "b" "v1"; listed "c" "v1"] |}.
Definition refreshed_names (c : AppConfig) : option (list str) :=
  match uniquify_node_names (nodes c) with
  | Ok (l, _) =>
      match apply_subscription_refresh 7 (λ _, lit "v2") {| nodes := l; active_node := None; subscriptions := subscriptions c |}
              [(lit "a", [sample "X" "t.example" []])] with
      | Ok (_, c') => Some (map name (nodes c'))
      | _ => None
      end
  | _ => None
  end.

Example shared_remark_folds : refreshed_names (shared []) = Some [lit "X"].
Proof. vm_compute. reflexivity. Qed.

Example suffixed_remark_doubles :
  refreshed_names (shared [tag (lit "c") (sample "X" "other.example" [])]) = Some [lit "X"; lit "X #2"; lit "X #2 #2"].
Proof. vm_compute. reflexivity. Qed.
