(* ===== verification/Migrate.v ===== *)
(** * References to old identities (config/node_identity.rs, config/storage.rs)

    [migrate_references] on the tree of a configuration file, and the part of the file a
    refresh replaces.  Reading the nodes of the tree is serde's and a parameter. *)
From Stdlib Require Import String.
From S2P Require Import Prelude Bytes Text StrOrder Nodes NodeIdentity.

#[local] Open Scope string_scope.
#[local] Open Scope list_scope.
#[local] Open Scope Z_scope.

(** [serde_yaml::Value]. *)
Inductive Yaml :=
  | YNull
  | YBool (b : bool)
  | YNumber (text : str)
  | YString (s : str)
  | YSequence (l : list Yaml)
  | YMapping (l : list (Yaml * Yaml))
  | YTagged (tag : str) (v : Yaml).

Fixpoint untag (v : Yaml) : Yaml := match v with YTagged _ v => untag v | _ => v end.
Definition as_str (v : Yaml) : option str := match untag v with YString s => Some s | _ => None end.
Definition as_sequence (v : Yaml) : option (list Yaml) := match untag v with YSequence l => Some l | _ => None end.
Definition as_mapping (v : Yaml) : option (list (Yaml * Yaml)) := match untag v with YMapping l => Some l | _ => None end.

Definition is_key (k : str) (v : Yaml) : bool := match v with YString s => bool_decide (s = k) | _ => false end.
(** [Mapping::get] of a string, and [Value::get] below tags. *)
Definition get_key (k : str) (l : list (Yaml * Yaml)) : option Yaml := snd <$> List.find (λ e, is_key k e.1) l.
Definition get (k : str) (v : Yaml) : option Yaml := as_mapping v ≫= get_key k.

(** A visitor of parts of the tree that notes whether it has changed anything. *)
Definition visit : Type := Yaml → bool → Yaml * bool.

Fixpoint below (f : visit) (v : Yaml) : bool → Yaml * bool := λ changed,
  match v with
  | YTagged t v => let '(v, changed) := below f v changed in (YTagged t v, changed)
  | _ => f v changed
  end.

Fixpoint visit_list {A} (f : A → bool → A * bool) (l : list A) (changed : bool) : list A * bool :=
  match l with
  | [] => ([], changed)
  | v :: l => let '(v, changed) := f v changed in let '(l, changed) := visit_list f l changed in (v :: l, changed)
  end.

(** [if let Some(list) = value.as_sequence_mut() { for x in list { .. } }]. *)
Definition elements (f : visit) : visit := below (λ v changed, match v with YSequence l => let '(l, changed) := visit_list f l changed in (YSequence l, changed) | _ => (v, changed) end).

(** [if let Some(x) = value.get_mut(k) { .. }]: the first member with the key. *)
Fixpoint visit_key (k : str) (f : visit) (l : list (Yaml * Yaml)) (changed : bool) : list (Yaml * Yaml) * bool :=
  match l with
  | [] => ([], changed)
  | (x, v) :: l =>
      if is_key k x then let '(v, changed) := f v changed in ((x, v) :: l, changed)
      else let '(l, changed) := visit_key k f l changed in ((x, v) :: l, changed)
  end.
Definition member (k : str) (f : visit) : visit := below (λ v changed, match v with YMapping l => let '(l, changed) := visit_key k f l changed in (YMapping l, changed) | _ => (v, changed) end).

Definition replace (replacements : gmap str str) : visit := λ v changed,
  match as_str v ≫= (λ s, replacements !! s) with
  | Some new => (YString new, true)
  | None => (v, changed)
  end.

Definition then_visit (f g : visit) : visit := λ v changed, let '(v, changed) := f v changed in g v changed.

Definition insert_key (k : str) (v : Yaml) (l : list (Yaml * Yaml)) : list (Yaml * Yaml) :=
  if existsb (λ e, is_key k e.1) l then (visit_key k (λ _ c, (v, c)) l false).1 else l ++ [(YString k, v)].

(** The three insertions into the root. *)
Fixpoint replace_nodes (nodes subscriptions active_node v : Yaml) : outcome Yaml :=
  match v with
  | YTagged t v => v ← replace_nodes nodes subscriptions active_node v; Ok (YTagged t v)
  | YMapping l => Ok (YMapping (insert_key (lit "active_node") active_node (insert_key (lit "subscriptions") subscriptions (insert_key (lit "nodes") nodes l))))
  | _ => Err "config root is not a mapping"
  end.

Section migrate.
Context `{SerdeJson} `{Sha256} (nodes_of : Yaml → option (list Node)).

Definition has_references (map : list (Yaml * Yaml)) : bool :=
  match get_key (lit "groups") map ≫= as_sequence with Some (_ :: _) => true | _ => false end ||
  match get_key (lit "rules") map ≫= as_sequence with
  | Some rules => existsb (λ rule, match get (lit "target") rule ≫= as_str with Some t => starts_with (lit "node:") t | None => false end) rules
  | None => false
  end.

(** [entry(k).or_insert(v)]. *)
Definition or_insert (m : gmap str str) (e : str * str) : gmap str str := match m !! e.1 with Some _ => m | None => <[e.1 := e.2]> m end.

Definition target_of (fingerprint : str) : str := lit "node:" ++ node_public_id fingerprint.
Definition new_targets (nodes : list Node) : gmap str str :=
  foldl or_insert ∅ (map (λ n, (target_of (legacy_node_fingerprint n), target_of (fingerprint n))) nodes).
Definition new_members (nodes : list Node) : gmap str str :=
  foldl or_insert ∅ (map (λ n, (legacy_node_fingerprint n, fingerprint n)) nodes).

Definition migrate_group (members : gmap str str) : visit :=
  then_visit (member (lit "current") (replace members)) (member (lit "members") (elements (replace members))).
Definition migrate_rule (targets : gmap str str) : visit := member (lit "target") (replace targets).

Definition migrate_references (raw : Yaml) : outcome (Yaml * bool) :=
  match as_mapping raw with
  | None => Ok (raw, false)
  | Some map =>
      if negb (has_references map) then Ok (raw, false)
      else
        nodes ← ok_or (nodes_of (default (YSequence []) (get_key (lit "nodes") map))) "invalid nodes";
        Ok (then_visit (member (lit "groups") (elements (migrate_group (new_members nodes))))
              (member (lit "rules") (elements (migrate_rule (new_targets nodes)))) raw false)
  end.

(** What [write_nodes_and_subscriptions] makes of the content of the file. *)
Definition with_nodes_and_subscriptions (raw nodes subscriptions active_node : Yaml) : outcome Yaml :=
  '(value, _) ← migrate_references raw;
  replace_nodes nodes subscriptions active_node value.
End migrate.
