(* ===== verification/MigrateSpec.v ===== *)
(** * Migration moves the references and nothing else (config/node_identity.rs) *)
From Stdlib Require Import String.
From S2P Require Import Prelude Bytes Text StrOrder Nodes NodeIdentity Migrate.

#[local] Open Scope string_scope.
#[local] Open Scope list_scope.
#[local] Open Scope Z_scope.

#[local] Arguments lit : simpl never.

(** ** Visitors *)
(** What becomes of a value does not depend on the flag, and the flag is raised by every change. *)
Record steady {A} (f : A → bool → A * bool) : Prop := {
  steady_value v c : (f v c).1 = (f v false).1;
  steady_flag v c : (f v c).2 = false → c = false ∧ (f v c).1 = v;
}.

Ltac visited := repeat match goal with |- context [let '(_, _) := ?t in _] => rewrite (surjective_pairing t); cbn [fst snd] end.

Lemma steady_list {A} (f : A → bool → A * bool) : steady f → steady (visit_list f).
Proof.
  intros [Hv Hc]. split.
  - intros l. induction l as [|v l IH]; intros c; [done|]. cbn. visited. f_equal; [apply Hv|]. by rewrite IH, (IH (f v false).2).
  - intros l. induction l as [|v l IH]; intros c; [done|]. cbn. visited. intros E. apply IH in E as [E El]. apply Hc in E as [-> Ev].
    by rewrite El, Ev.
Qed.

Lemma visit_list_value {A} (f : A → bool → A * bool) l c : steady f → (visit_list f l c).1 = map (λ v, (f v false).1) l.
Proof.
  intros Hf. revert c. induction l as [|v l IH]; intros c; [done|]. cbn. visited. by rewrite IH, (steady_value _ Hf).
Qed.

Lemma steady_below f : steady f → steady (below f).
Proof.
  intros [Hv Hc]. split.
  - intros v. induction v; intros c; cbn; try apply Hv. visited. by rewrite IHv.
  - intros v. induction v; intros c; cbn; try apply Hc. visited. intros E. by destruct (IHv c E) as [-> ->].
Qed.

Lemma steady_key k f : steady f → steady (visit_key k f).
Proof.
  intros [Hv Hc]. split.
  - intros l. induction l as [|[x v] l IH]; intros c; [done|]. cbn. destruct (is_key k x); visited; [by rewrite Hv|by rewrite IH].
  - intros l. induction l as [|[x v] l IH]; intros c; [done|]. cbn. destruct (is_key k x); visited; intros E; [by destruct (Hc v c E) as [-> ->]|].
    by destruct (IH c E) as [-> ->].
Qed.

Lemma steady_elements f : steady f → steady (elements f).
Proof.
  intros Hf%steady_list. apply steady_below. destruct Hf as [Hv Hc]. split.
  - intros [] c; cbn; try done. visited. by rewrite Hv.
  - intros [] c; cbn; try done. visited. intros E. by destruct (Hc _ _ E) as [-> ->].
Qed.

Lemma steady_member k f : steady f → steady (member k f).
Proof.
  intros Hf%(steady_key k). apply steady_below. destruct Hf as [Hv Hc]. split.
  - intros [] c; cbn; try done. visited. by rewrite Hv.
  - intros [] c; cbn; try done. visited. intros E. by destruct (Hc _ _ E) as [-> ->].
Qed.

Lemma steady_then f g : steady f → steady g → steady (then_visit f g).
Proof.
  intros [Hf Hf'] [Hg Hg']. unfold then_visit. split; intros v c; visited.
  - by rewrite Hg, (Hg _ (f v false).2), Hf.
  - intros [E ->]%Hg'. by apply Hf'.
Qed.

Lemma steady_replace m : steady (replace m).
Proof. unfold replace. split; intros v c; destruct (as_str v ≫= _); done. Qed.

#[local] Hint Resolve steady_elements steady_member steady_then steady_replace : steady.

(** What a visitor leaves of a member. *)
Lemma get_member k f v c : get k (member k f v c).1 = (λ x, (f x c).1) <$> get k v.
Proof.
  unfold get, member. induction v as [| | | | |l|t v IH]; try done; cbn.
  - visited. unfold as_mapping. cbn [untag mbind option_bind]. unfold get_key. induction l as [|[x v] l IH]; [done|]. cbn.
    destruct (is_key k x) eqn:Ek; visited; cbn; rewrite Ek; [done|]. apply IH.
  - visited. unfold as_mapping in *. cbn [untag]. apply IH.
Qed.

Lemma is_key_ne k k' x : k ≠ k' → is_key k x = true → is_key k' x = false.
Proof. destruct x; try done. cbn. intros Hne ->%bool_decide_eq_true. by apply bool_decide_eq_false. Qed.

Lemma get_member_ne k k' f v c : k ≠ k' → get k' (member k f v c).1 = get k' v.
Proof.
  intros Hne. unfold get, member. induction v as [| | | | |l|t v IH]; try done; cbn.
  - visited. unfold as_mapping. cbn [untag mbind option_bind]. unfold get_key. induction l as [|[x v] l IH]; [done|]. cbn.
    destruct (is_key k x) eqn:Ek; visited; cbn; [by rewrite (is_key_ne k k' x)|]. destruct (is_key k' x); [done|]. apply IH.
  - visited. unfold as_mapping in *. cbn [untag]. apply IH.
Qed.

Lemma sequence_elements f v c : as_sequence (elements f v c).1 = (λ l, (visit_list f l c).1) <$> as_sequence v.
Proof.
  unfold as_sequence, elements. induction v as [| | | | | |t v IH]; try done; cbn; visited; [done|]. apply IH.
Qed.

Lemma str_replace m v c : as_str (replace m v c).1 = (λ s, default s (m !! s)) <$> as_str v.
Proof. unfold replace. destruct (as_str v) as [s|] eqn:E; cbn; [|by rewrite E]. destruct (m !! s); cbn; [done|by rewrite E]. Qed.

(** ** The references of a file *)
Definition group_references (raw : Yaml) : list (option str * list (option str)) :=
  map (λ g, (get (lit "current") g ≫= as_str, map as_str (default [] (get (lit "members") g ≫= as_sequence))))
    (default [] (get (lit "groups") raw ≫= as_sequence)).
Definition rule_targets (raw : Yaml) : list (option str) :=
  map (λ r, get (lit "target") r ≫= as_str) (default [] (get (lit "rules") raw ≫= as_sequence)).

Section migrate.
Context `{SerdeJson} `{Sha256} (nodes_of : Yaml → option (list Node)).

(** The new name of an old one: of the first node that had it. *)
Definition moved (old new : Node → str) (nodes : list Node) (s : str) : str :=
  match List.find (λ n, bool_decide (old n = s)) nodes with Some n => new n | None => s end.
Definition member_moved : list Node → str → str := moved legacy_node_fingerprint fingerprint.
Definition target_moved : list Node → str → str := moved (λ n, target_of (legacy_node_fingerprint n)) (λ n, target_of (fingerprint n)).

Lemma or_insert_find (old new : Node → str) nodes s :
  foldl or_insert ∅ (map (λ n, (old n, new n)) nodes) !! s = new <$> List.find (λ n, bool_decide (old n = s)) nodes.
Proof.
  assert (∀ m, foldl or_insert m (map (λ n, (old n, new n)) nodes) !! s =
    match m !! s with Some x => Some x | None => new <$> List.find (λ n, bool_decide (old n = s)) nodes end) as Hgo; [|by rewrite Hgo, lookup_empty].
  induction nodes as [|n nodes IH]; intros m; cbn; [by destruct (m !! s)|]. rewrite IH. unfold or_insert. cbn [fst snd].
  case_bool_decide as E; [subst s; destruct (m !! old n) eqn:Em; rewrite ?lookup_insert_eq, ?Em; done|].
  destruct (m !! old n); [done|]. by rewrite lookup_insert_ne.
Qed.

Lemma moved_eq (old new : Node → str) nodes s :
  default s (foldl or_insert ∅ (map (λ n, (old n, new n)) nodes) !! s) = moved old new nodes s.
Proof. rewrite or_insert_find. unfold moved. by destruct (List.find _ _). Qed.

Lemma migrate_groups_references m raw c :
  group_references (member (lit "groups") (elements (migrate_group m)) raw c).1 =
  map (λ g, ((λ s, default s (m !! s)) <$> g.1, map (fmap (λ s, default s (m !! s))) g.2)) (group_references raw).
Proof.
  assert (lit "current" ≠ lit "members") as Hne by (by vm_compute).
  unfold group_references. rewrite get_member. destruct (get (lit "groups") raw) as [gs|]; [|done]. cbn. rewrite sequence_elements.
  destruct (as_sequence gs) as [l|]; [|done]. cbn. rewrite visit_list_value by (unfold migrate_group; auto with steady). rewrite !map_map. apply map_ext. intros g.
  unfold migrate_group, then_visit. visited. rewrite get_member_ne by done. rewrite !get_member, get_member_ne by done. f_equal.
  - destruct (get (lit "current") g); [|done]. cbn. apply str_replace.
  - destruct (get (lit "members") g) as [ms|]; [|done]. cbn. rewrite sequence_elements. destruct (as_sequence ms) as [l'|]; [|done]. cbn.
    rewrite visit_list_value by apply steady_replace. rewrite !map_map. apply map_ext. intros v. apply str_replace.
Qed.

Lemma migrate_rules_targets m raw c :
  rule_targets (member (lit "rules") (elements (migrate_rule m)) raw c).1 = map (fmap (λ s, default s (m !! s))) (rule_targets raw).
Proof.
  unfold rule_targets. rewrite get_member. destruct (get (lit "rules") raw) as [rs|]; [|done]. cbn. rewrite sequence_elements.
  destruct (as_sequence rs) as [l|]; [|done]. cbn. rewrite visit_list_value by (unfold migrate_rule; auto with steady). rewrite !map_map. apply map_ext. intros r.
  unfold migrate_rule. rewrite get_member. destruct (get (lit "target") r); [|done]. cbn. apply str_replace.
Qed.

(** ** The file a refresh writes *)
Lemma get_insert_key k v l : get_key k (insert_key k v l) = Some v.
Proof.
  unfold get_key, insert_key. destruct (existsb _ l) eqn:E.
  - induction l as [|[x w] l IH]; [done|]. cbn in *. destruct (is_key k x) eqn:Ek; visited; cbn; rewrite Ek; [done|]. apply IH. done.
  - assert (List.find (λ e : Yaml * Yaml, is_key k e.1) l = None) as Hn.
    { induction l as [|[x w] l IH]; [done|]. cbn in *. apply orb_false_iff in E as [-> E]. auto. }
    clear E. induction l as [|[x w] l IH]; cbn in *; [by rewrite bool_decide_eq_true_2|]. destruct (is_key k x); [done|auto].
Qed.

Lemma get_insert_key_ne k k' v l : k ≠ k' → get_key k' (insert_key k v l) = get_key k' l.
Proof.
  intros Hne. unfold get_key, insert_key. destruct (existsb _ l).
  - induction l as [|[x w] l IH]; [done|]. cbn in *. destruct (is_key k x) eqn:Ek; visited; cbn; [by rewrite (is_key_ne k k' x)|].
    destruct (is_key k' x); [done|]. apply IH.
  - induction l as [|[x w] l IH]; cbn; [by rewrite bool_decide_eq_false_2|]. by destruct (is_key k' x).
Qed.

(** The three keys hold the new values, and under every other key is what the migration
    of the old file left there. *)
Lemma written_file raw n s a v : with_nodes_and_subscriptions nodes_of raw n s a = Ok v →
  get (lit "nodes") v = Some n ∧ get (lit "subscriptions") v = Some s ∧ get (lit "active_node") v = Some a ∧
  ∃ raw' changed, migrate_references nodes_of raw = Ok (raw', changed) ∧
    ∀ k, k ≠ lit "nodes" → k ≠ lit "subscriptions" → k ≠ lit "active_node" → get k v = get k raw'.
Proof.
  unfold with_nodes_and_subscriptions. destruct (migrate_references nodes_of raw) as [[raw' changed]| | |]; try done. cbn [mbind outcome_bind].
  assert (lit "nodes" ≠ lit "subscriptions" ∧ lit "nodes" ≠ lit "active_node" ∧ lit "subscriptions" ≠ lit "active_node") as (H1 & H2 & H3) by (by vm_compute).
  enough (∀ w v, replace_nodes n s a w = Ok v → get (lit "nodes") v = Some n ∧ get (lit "subscriptions") v = Some s ∧ get (lit "active_node") v = Some a ∧
    ∀ k, k ≠ lit "nodes" → k ≠ lit "subscriptions" → k ≠ lit "active_node" → get k v = get k w) as Hgo by (intros (? & ? & ? & ?)%Hgo; eauto 8).
  clear v. intros w. induction w as [| | | | |l|t w IH]; intros v E; try discriminate E.
  - cbn in E. injection E as <-. unfold get, as_mapping. cbn [untag mbind option_bind].
    rewrite get_insert_key, !get_insert_key_ne, !get_insert_key by done. split; [done|].
    rewrite get_insert_key_ne, get_insert_key by done. split; [done|]. split; [done|]. intros k ? ? ?. by rewrite !get_insert_key_ne.
  - cbn [replace_nodes] in E. destruct (replace_nodes n s a w) as [w'| | |] eqn:Ew; try discriminate E. injection E as <-. apply (IH w' eq_refl).
Qed.

(** Migration fails only when the nodes of the file cannot be read. Otherwise a file
    whose change is not reported is the same file, every key but [groups] and [rules] is
    what it was, and either nothing moved or every member and selection of a group and
    every target of a rule that names the old identity of a node is replaced by the new
    identity of the first node that had it, all others staying as they are. *)
Theorem migrate_references_spec raw :
  match migrate_references nodes_of raw with
  | Ok (raw', changed) =>
      (changed = false → raw' = raw) ∧
      (∀ k, k ≠ lit "groups" → k ≠ lit "rules" → get k raw' = get k raw) ∧
      (raw' = raw ∨ ∃ nodes, nodes_of (default (YSequence []) (get (lit "nodes") raw)) = Some nodes ∧
        group_references raw' = map (λ g, (member_moved nodes <$> g.1, map (fmap (member_moved nodes)) g.2)) (group_references raw) ∧
        rule_targets raw' = map (fmap (target_moved nodes)) (rule_targets raw))
  | Err _ => nodes_of (default (YSequence []) (get (lit "nodes") raw)) = None
  | _ => False
  end.
Proof.
  unfold migrate_references. destruct (as_mapping raw) as [l|] eqn:El; [|by eauto].
  destruct (has_references l); cbn [negb]; [|by eauto].
  replace (get_key (lit "nodes") l) with (get (lit "nodes") raw) by (unfold get; by rewrite El).
  destruct (nodes_of _) as [nodes|] eqn:En; cbn; [|done].
  set (f := member (lit "groups") _). set (g := member (lit "rules") _).
  assert (steady f) as Hf by (unfold f, migrate_group; auto 8 with steady). assert (steady g) as Hg by (unfold g, migrate_rule; auto 8 with steady).
  assert (lit "groups" ≠ lit "rules") as Hne by (by vm_compute).
  rewrite (surjective_pairing (then_visit f g raw false)). split; [|split].
  - intros E. by apply (steady_flag _ (steady_then _ _ Hf Hg)) in E as [_ E].
  - intros k H1 H2. unfold then_visit. visited. unfold g, f. rewrite !get_member_ne; done.
  - right. exists nodes. split; [done|]. unfold then_visit. visited. split.
    + assert (group_references (g (f raw false).1 (f raw false).2).1 = group_references (f raw false).1) as ->
        by (unfold group_references, g; by rewrite get_member_ne).
      unfold f. rewrite migrate_groups_references. apply map_ext. intros [o ms]. cbn [fst snd]. f_equal.
      * destruct o; [|done]. cbn. f_equal. apply moved_eq.
      * apply map_ext. intros []; [|done]. cbn. f_equal. apply moved_eq.
    + unfold g. rewrite migrate_rules_targets. assert (rule_targets (f raw false).1 = rule_targets raw) as ->
        by (unfold rule_targets, f; by rewrite get_member_ne).
      apply map_ext. intros []; [|done]. cbn. f_equal. apply (moved_eq (λ n, target_of _) (λ n, target_of _)).
Qed.
End migrate.
