(* ===== verification/Calendar.v ===== *)
(** * The calendar of the traffic ledger (traffic.rs)

    Days since 1970-01-01 to a civil date, months back and forth, and the keys of the
    monthly buckets. *)
From S2P Require Import Prelude Bytes Text StrOrder.

#[local] Open Scope list_scope.
#[local] Open Scope Z_scope.

Definition as_i32 (z : Z) : Z := (z + 2 ^ 31) mod 2 ^ 32 - 2 ^ 31.

(** Division of [i64] truncates; the [u32] steps divide non-negative numbers. *)
Definition civil_from_days (days : Z) : Z * Z * Z :=
  let z := days + 719468 in
  let era := Z.quot (if 0 <=? z then z else z - 146096) 146097 in
  let doe := as_u32 (z - era * 146097) in
  let yoe := (doe - doe / 1460 + doe / 36524 - doe / 146096) / 365 in
  let y := as_i32 (yoe + era * 400) in
  let doy := doe - (365 * yoe + yoe / 4 - yoe / 100) in
  let mp := (5 * doy + 2) / 153 in
  let d := doy - (153 * mp + 2) / 5 + 1 in
  let m := if mp <? 10 then mp + 3 else mp - 9 in
  let y := if m <=? 2 then y + 1 else y in
  (y, m, d).

(** [div_euclid] and [rem_euclid] by 12. *)
Definition shift_month (y m delta : Z) : Z * Z :=
  let idx := y * 12 + (m - 1) + delta in
  (idx / 12, idx mod 12 + 1).

(** [{n:0w}]. *)
Definition pad_number (w : nat) (n : Z) : bytes :=
  let digits := show_uint (Z.abs n) in
  let sign := if n <? 0 then [45] else [] in
  sign ++ replicate (w - length sign - length digits) 48 ++ digits.

(** [format!("{y:04}-{m:02}")]. *)
Definition month_name (y m : Z) : bytes := pad_number 4 y ++ [45] ++ pad_number 2 m.

Definition month_of_day (day : Z) : bytes := let '(y, m, _) := civil_from_days day in month_name y m.

(** The clock is the time since 1970 in seconds. *)
Definition month_key (now : Z) : bytes := month_of_day (now / 86400).

(** The first month that is kept. *)
Definition cutoff_month (now keep_months : Z) : bytes :=
  let keep := Z.max keep_months 1 in
  let '(y, m, _) := civil_from_days (now / 86400) in
  let '(cy, cm) := shift_month y m (1 - keep) in
  month_name cy cm.

Definition recent_month_keys (now keep : Z) : list bytes :=
  let keep := Z.max keep 1 in
  let '(y, m, _) := civil_from_days (now / 86400) in
  (λ i, let '(cy, cm) := shift_month y m (- i) in month_name cy cm) <$> reverse (seqZ 0 keep).

(** ** The calendar by counting *)
Definition leap (y : Z) : bool := (y mod 4 =? 0) && (negb (y mod 100 =? 0) || (y mod 400 =? 0)).
Definition month_length (leaps : bool) (m : Z) : Z :=
  if m =? 2 then (if leaps then 29 else 28) else if (m =? 4) || (m =? 6) || (m =? 9) || (m =? 11) then 30 else 31.
Definition month_days (y m : Z) : Z := month_length (leap y) m.
Definition next_day (date : Z * Z * Z) : Z * Z * Z :=
  let '(y, m, d) := date in
  if d <? month_days y m then (y, m, d + 1) else if m <? 12 then (y, m + 1, 1) else (y + 1, 1, 1).

(** A day of an era of 400 years. *)
Definition civil_of_era (doe : Z) : Z * Z * Z :=
  let yoe := (doe - doe / 1460 + doe / 36524 - doe / 146096) / 365 in
  let doy := doe - (365 * yoe + yoe / 4 - yoe / 100) in
  let mp := (5 * doy + 2) / 153 in
  let d := doy - (153 * mp + 2) / 5 + 1 in
  let m := if mp <? 10 then mp + 3 else mp - 9 in
  (if m <=? 2 then yoe + 1 else yoe, m, d).

Definition shift_years (n : Z) (date : Z * Z * Z) : Z * Z * Z := let '(y, m, d) := date in (y + n, m, d).

(** *** The year of a day of an era *)
Definition year_index (doe : Z) : Z := (doe - doe / 1460 + doe / 36524 - doe / 146096) / 365.
Definition year_start (y : Z) : Z := 365 * y + y / 4 - y / 100.
Definition year_length (y : Z) : Z := if leap (y + 1) then 366 else 365.

Lemma year_index_mono n doe : 0 <= doe → year_index doe <= year_index (doe + Z.of_nat n).
Proof.
  intros Hd. induction n as [|n IH]; [rewrite Z.add_0_r; lia|]. etransitivity; [exact IH|].
  rewrite Nat2Z.inj_succ. set (x := doe + Z.of_nat n). replace (doe + Z.succ (Z.of_nat n)) with (x + 1) by lia. assert (0 <= x) as Hx by lia.
  clearbody x. unfold year_index. apply Z.div_le_mono; [lia|].
  assert ((x + 1) / 1460 <= x / 1460 + 1) as H1 by lia. assert (x / 36524 <= (x + 1) / 36524) as H2 by lia.
  destruct (decide ((x + 1) mod 146096 = 0)) as [Hm|Hm].
  - assert (∃ k, x + 1 = 146096 * k) as [k Hk] by (exists ((x + 1) / 146096); lia).
    assert ((x + 1) / 36524 = 4 * k ∧ x / 36524 = 4 * k - 1 ∧ (x + 1) / 146096 = k ∧ x / 146096 = k - 1) as (E1 & E2 & E3 & E4) by lia. lia.
  - assert ((x + 1) / 146096 = x / 146096) as H3 by lia. lia.
Qed.

(** The years of an era, checked one by one. *)
Definition year_checks (y : Z) : bool :=
  (year_index (year_start y) =? y) && (year_index (year_start y + year_length y - 1) =? y)
  && ((y =? 399) || (year_start (y + 1) =? year_start y + year_length y)).

Lemma years_checked : forallb (λ n, year_checks (Z.of_nat n)) (seq 0 400) = true.
Proof. reflexivity. Qed.

Lemma year_facts y : 0 <= y < 400 →
  year_index (year_start y) = y ∧ year_index (year_start y + year_length y - 1) = y ∧
  (y = 399 ∨ year_start (y + 1) = year_start y + year_length y).
Proof.
  intros Hy. pose proof years_checked as H. rewrite forallb_forall in H. specialize (H (Z.to_nat y)). rewrite Z2Nat.id in H by lia.
  assert (List.In (Z.to_nat y) (seq 0 400)) as Hin by (apply in_seq; lia). apply H in Hin. unfold year_checks in Hin.
  apply andb_true_iff in Hin as [[H1%Z.eqb_eq H2%Z.eqb_eq]%andb_true_iff H3%orb_true_iff].
  split_and!; [done|done|]. destruct H3 as [H3%Z.eqb_eq|H3%Z.eqb_eq]; [by left|by right].
Qed.

Lemma in_year n doe : (n <= 400)%nat → 0 <= doe < (if bool_decide (n = 400)%nat then 146097 else year_start (Z.of_nat n)) →
  ∃ y, 0 <= y < 400 ∧ year_start y <= doe < year_start y + year_length y.
Proof.
  induction n as [|n IH]; intros Hn Hd; [rewrite bool_decide_eq_false_2 in Hd by lia; unfold year_start in Hd; lia|].
  destruct (decide (doe < year_start (Z.of_nat n))) as [Hlt|Hge].
  { apply IH; [lia|]. rewrite bool_decide_eq_false_2 by lia. lia. }
  exists (Z.of_nat n). split; [lia|]. split; [lia|]. destruct (year_facts (Z.of_nat n) ltac:(lia)) as (_ & _ & [Hlast|Hnext]).
  - rewrite bool_decide_eq_true_2 in Hd by lia. rewrite Hlast. change (year_start 399 + year_length 399) with 146097. lia.
  - case_bool_decide as Hc; [|rewrite <- Hnext, Z.add_1_r, <- Nat2Z.inj_succ; lia].
    assert (n = 399%nat) as -> by lia. change (year_start (Z.of_nat 399) + year_length (Z.of_nat 399)) with 146097. lia.
Qed.

Lemma era_year doe : 0 <= doe < 146097 → ∃ y, 0 <= y < 400 ∧ year_start y <= doe < year_start y + year_length y ∧ year_index doe = y.
Proof.
  intros Hd. destruct (in_year 400 doe ltac:(lia) Hd) as (y & Hy & Hdoe). exists y. split_and!; try lia.
  destruct (year_facts y Hy) as (H1 & H2 & _). assert (0 <= year_start y) as Hs by (unfold year_start; lia).
  pose proof (year_index_mono (Z.to_nat (doe - year_start y)) (year_start y) Hs) as Ha.
  pose proof (year_index_mono (Z.to_nat (year_start y + year_length y - 1 - doe)) doe ltac:(lia)) as Hb.
  rewrite Z2Nat.id in Ha, Hb by lia. replace (year_start y + (doe - year_start y)) with doe in Ha by lia.
  replace (doe + (year_start y + year_length y - 1 - doe)) with (year_start y + year_length y - 1) in Hb by lia. lia.
Qed.

(** *** The month of a day of a year that begins in March *)
Definition month_of (doy : Z) : Z * Z :=
  let mp := (5 * doy + 2) / 153 in (if mp <? 10 then mp + 3 else mp - 9, doy - (153 * mp + 2) / 5 + 1).
Definition carried (m : Z) : Z := if m <=? 2 then 1 else 0.
(** The next day, and the years that pass. *)
Definition next_in (leaps : bool) (md : Z * Z) : Z * (Z * Z) :=
  let '(m, d) := md in
  if d <? month_length leaps m then (0, (m, d + 1)) else if m <? 12 then (0, (m + 1, 1)) else (1, (1, 1)).

Lemma next_day_in y md : next_day (y, md.1, md.2) = let '(c, md') := next_in (leap y) md in (y + c, md'.1, md'.2).
Proof.
  destruct md as [m d]. unfold next_day, next_in, month_days. cbn [fst snd].
  destruct (d <? _); [|destruct (m <? 12)]; cbn; by rewrite ?Z.add_0_r.
Qed.

(** The days of a year, checked one by one: the next day of the year, and the last. *)
Definition day_checks (leaps : bool) (doy : Z) : bool :=
  bool_decide (next_in leaps (month_of doy) =
    if doy + 1 <? (if leaps then 366 else 365) then (carried (month_of (doy + 1)).1 - carried (month_of doy).1, month_of (doy + 1))
    else (0, (3, 1))) && (negb (doy + 1 =? (if leaps then 366 else 365)) || (carried (month_of doy).1 =? 1)).

(** The leap year is that of the January and February of the year. *)
Lemma days_checked : forallb (λ n, day_checks true (Z.of_nat n)) (seq 0 366) && forallb (λ n, day_checks false (Z.of_nat n)) (seq 0 365) = true.
Proof. reflexivity. Qed.

Lemma day_facts (leaps : bool) (doy : Z) : 0 <= doy < (if leaps then 366 else 365) →
  next_in leaps (month_of doy) =
    (if doy + 1 <? (if leaps then 366 else 365) then (carried (month_of (doy + 1)).1 - carried (month_of doy).1, month_of (doy + 1)) else (0, (3, 1)))
  ∧ (doy + 1 = (if leaps then 366 else 365) → carried (month_of doy).1 = 1).
Proof.
  intros Hd. pose proof days_checked as [Ht Hf]%andb_true_iff. rewrite forallb_forall in Ht, Hf.
  assert (day_checks leaps doy = true) as [H1%bool_decide_eq_true H2%orb_true_iff]%andb_true_iff.
  { rewrite <- (Z2Nat.id doy) by lia. destruct leaps; [apply Ht|apply Hf]; apply in_seq; lia. }
  split; [done|]. intros Hl. destruct H2 as [H2%negb_true_iff%Z.eqb_neq|H2%Z.eqb_eq]; [done|done].
Qed.

Lemma civil_of_era_parts doe : civil_of_era doe = (year_index doe + carried (month_of (doe - year_start (year_index doe))).1,
  (month_of (doe - year_start (year_index doe))).1, (month_of (doe - year_start (year_index doe))).2).
Proof.
  unfold civil_of_era, month_of, carried, year_start, year_index. cbv zeta. cbn [fst snd].
  f_equal. f_equal. set (b := _ <=? 2). destruct b; lia.
Qed.

Lemma leap_carried y doy : next_in (leap (y + carried (month_of doy).1)) (month_of doy) = next_in (leap (y + 1)) (month_of doy).
Proof.
  destruct (month_of doy) as [m d]. unfold next_in, month_length. cbn [fst].
  destruct (Z.eqb_spec m 2) as [->|]; [done|]. done.
Qed.

Lemma civil_of_era_next doe : 0 <= doe < 146096 → civil_of_era (doe + 1) = next_day (civil_of_era doe).
Proof.
  intros Hd. destruct (era_year doe ltac:(lia)) as (y & Hy & Hdoe & Hi). destruct (year_facts y Hy) as (F1 & F2 & F3).
  rewrite (civil_of_era_parts doe), Hi, next_day_in, leap_carried. set (doy := doe - year_start y).
  destruct (day_facts (leap (y + 1)) doy) as [Hnext Hcar]; [unfold doy, year_length in *; lia|]. rewrite Hnext. fold (year_length y) in Hcar |- *.
  rewrite civil_of_era_parts. destruct (Z.ltb_spec (doy + 1) (year_length y)) as [Hin|Hout].
  - destruct (era_year (doe + 1) ltac:(lia)) as (y' & Hy' & Hdoe' & Hi'). rewrite Hi'.
    assert (y' = y) as ->.
    { pose proof (year_index_mono 1 doe ltac:(lia)) as Ha. pose proof (year_index_mono (Z.to_nat (year_start y + year_length y - 1 - (doe + 1))) (doe + 1) ltac:(lia)) as Hb.
      rewrite Z2Nat.id in Hb by (unfold doy in Hin; lia). replace (doe + 1 + _) with (year_start y + year_length y - 1) in Hb by lia.
      change (Z.of_nat 1) with 1 in Ha. lia. }
    replace (doe + 1 - year_start y) with (doy + 1) by (unfold doy; lia). f_equal. f_equal. lia.
  - assert (doy + 1 = year_length y) as Hend by (unfold doy in *; lia). specialize (Hcar Hend). rewrite Hcar.
    destruct F3 as [->|F3].
    { exfalso. unfold doy in Hend. change (year_start 399 + year_length 399) with 146097 in Hdoe.
      change (year_length 399) with 366 in Hend. change (year_start 399) with 145731 in Hend. lia. }
    assert (doe + 1 = year_start (y + 1)) as -> by (unfold doy in Hend; lia).
    destruct (decide (y = 399)) as [->|Hne]; [by vm_compute in F3|]. destruct (year_facts (y + 1) ltac:(lia)) as (G1 & _). rewrite G1, Z.sub_diag.
    cbn. f_equal; f_equal; lia.
Qed.

Lemma leap_shift y k : leap (y + 400 * k) = leap y.
Proof.
  unfold leap. replace ((y + 400 * k) mod 400) with (y mod 400) by (rewrite (Z.mul_comm 400), Z.mod_add; lia).
  replace ((y + 400 * k) mod 100) with (y mod 100) by (replace (400 * k) with ((4 * k) * 100) by lia; rewrite Z.mod_add; lia).
  by replace ((y + 400 * k) mod 4) with (y mod 4) by (replace (400 * k) with ((100 * k) * 4) by lia; rewrite Z.mod_add; lia).
Qed.

Lemma next_day_shift k date : next_day (shift_years (400 * k) date) = shift_years (400 * k) (next_day date).
Proof.
  destruct date as [[y m] d]. unfold shift_years, next_day, month_days. rewrite leap_shift. repeat case_match; simplify_eq; f_equal; f_equal; lia.
Qed.

Lemma civil_era days :
  0 <= days < 2 ^ 39 →
  civil_from_days days = shift_years (400 * ((days + 719468) / 146097)) (civil_of_era ((days + 719468) mod 146097)).
Proof.
  intros Hd. unfold civil_from_days. replace (0 <=? days + 719468) with true by (symmetry; apply Z.leb_le; lia).
  rewrite Z.quot_div_nonneg by lia. set (era := (days + 719468) / 146097).
  assert (days + 719468 - era * 146097 = (days + 719468) mod 146097) as -> by (unfold era; rewrite Z.mod_eq; lia).
  set (doe := (days + 719468) mod 146097). assert (0 <= doe < 146097) as Hdoe by (apply Z.mod_pos_bound; lia).
  assert (0 <= era < 2 ^ 22) as Hera by (unfold era; clear -Hd; split; [apply Z.div_pos; lia|apply Z.div_lt_upper_bound; lia]).
  unfold as_u32. rewrite (Z.mod_small doe) by lia. unfold civil_of_era, shift_years. cbv zeta.
  set (yoe := (doe - doe / 1460 + doe / 36524 - doe / 146096) / 365).
  assert (0 <= yoe < 400) as Hy by (unfold yoe; clear -Hdoe; lia).
  unfold as_i32. rewrite Z.mod_small by lia. f_equal. f_equal. set (b := _ <=? 2). destruct b; lia.
Qed.

Lemma civil_next days : 0 <= days < 2 ^ 39 - 1 → civil_from_days (days + 1) = next_day (civil_from_days days).
Proof.
  intros Hd. rewrite !civil_era by lia. rewrite next_day_shift. set (z := days + 719468).
  replace (days + 1 + 719468) with (z + 1) by lia. pose proof (Z.mod_pos_bound z 146097 ltac:(lia)) as Hm.
  destruct (decide (z mod 146097 = 146096)) as [Hlast|Hlast].
  - rewrite Hlast. assert ((z + 1) / 146097 = z / 146097 + 1 ∧ (z + 1) mod 146097 = 0) as [-> ->] by (clear -Hlast; lia).
    replace (next_day (civil_of_era 146096)) with (shift_years 400 (civil_of_era 0)) by reflexivity.
    destruct (civil_of_era 0) as [[y m] d]. unfold shift_years. f_equal. f_equal. lia.
  - assert ((z + 1) / 146097 = z / 146097 ∧ (z + 1) mod 146097 = z mod 146097 + 1) as [-> ->] by (clear -Hlast Hm; lia).
    f_equal. apply civil_of_era_next. lia.
Qed.

(** The date of a day is the calendar's. For every day from 1970-01-01 on, as long
    as the year fits, the closed formula gives the date that counting day by day gives,
    with the lengths of months and the leap years of the Gregorian calendar. *)
Theorem civil_from_days_spec n : Z.of_nat n < 2 ^ 39 → civil_from_days (Z.of_nat n) = Nat.iter n next_day (1970, 1, 1).
Proof.
  induction n as [|n IH]; intros Hn; [by vm_compute|]. rewrite Nat2Z.inj_succ, <- Z.add_1_r, civil_next by lia.
  cbn [Nat.iter]. by rewrite IH by lia.
Qed.

(** The first of March of a leap year. *)
Lemma civil_from_days_spec_witness : civil_from_days (Z.of_nat 60) = Nat.iter 60 next_day (1970, 1, 1).
Proof. apply (civil_from_days_spec 60). by vm_compute. Defined.

(** ** The keys of months are ordered like months *)
Definition digits_value (ds : bytes) : Z := foldl (λ acc d, acc * 10 + (d - 48)) 0 ds.
Definition decimal (ds : bytes) : Prop := Forall (λ d, 48 <= d <= 57) ds.

Lemma foldl_digits ds : ∀ acc, foldl (λ acc d, acc * 10 + (d - 48)) acc ds = acc * 10 ^ len ds + digits_value ds.
Proof.
  unfold digits_value. induction ds as [|d ds IH]; intros acc; cbn [foldl]; [change (len []) with 0; lia|].
  rewrite IH, (IH (0 * 10 + _)). unfold len. cbn [length]. rewrite Nat2Z.inj_succ, Z.pow_succ_r by lia. lia.
Qed.

Lemma digits_value_cons d ds : digits_value (d :: ds) = (d - 48) * 10 ^ len ds + digits_value ds.
Proof. unfold digits_value at 1. cbn [foldl]. rewrite foldl_digits. lia. Qed.

Lemma digits_value_bound ds : decimal ds → 0 <= digits_value ds < 10 ^ len ds.
Proof.
  induction 1 as [|d ds Hd _ IH]; [by vm_compute|]. rewrite digits_value_cons. unfold len in *. cbn [length].
  rewrite Nat2Z.inj_succ, Z.pow_succ_r by lia. nia.
Qed.

Lemma str_leb_digits a b s t : decimal a → decimal b → length a = length b →
  str_leb (a ++ s) (b ++ t) = if digits_value a =? digits_value b then str_leb s t else digits_value a <? digits_value b.
Proof.
  intros Ha. revert b. induction Ha as [|x a Hx Ha IH]; intros [|y b] Hb Hl; try done. cbn [app str_leb].
  apply Forall_cons in Hb as [Hy Hb]. injection Hl as Hl. rewrite !digits_value_cons.
  pose proof (digits_value_bound a Ha). pose proof (digits_value_bound b Hb). assert (len a = len b) as Hlen by (unfold len; lia).
  rewrite Hlen in *. set (p := 10 ^ len b) in *. destruct (Z.eqb_spec x y) as [->|Hne].
  - rewrite IH by done. destruct (Z.eqb_spec (digits_value a) (digits_value b)) as [->|]; [by rewrite Z.eqb_refl|].
    destruct (Z.eqb_spec ((y - 48) * p + digits_value a) ((y - 48) * p + digits_value b)); [lia|].
    destruct (Z.ltb_spec (digits_value a) (digits_value b)); symmetry; [apply Z.ltb_lt|apply Z.ltb_ge]; lia.
  - destruct (Z.eqb_spec ((x - 48) * p + digits_value a) ((y - 48) * p + digits_value b)); [nia|].
    destruct (Z.ltb_spec x y); symmetry; [apply Z.ltb_lt|apply Z.ltb_ge]; nia.
Qed.

Lemma show_digits_step fuel n : show_digits (S fuel) n = if n <? 10 then [48 + n] else show_digits fuel (n / 10) ++ [48 + n mod 10].
Proof. done. Qed.

Lemma pad_two n : 0 <= n < 100 → pad_number 2 n = [48 + n / 10; 48 + n mod 10].
Proof.
  intros Hn. unfold pad_number. replace (n <? 0) with false by (symmetry; apply Z.ltb_ge; lia). rewrite Z.abs_eq by lia.
  unfold show_uint. do 2 rewrite show_digits_step. destruct (Z.ltb_spec n 10).
  - cbn. rewrite Z.div_small, Z.mod_small by lia. done.
  - destruct (Z.ltb_spec (n / 10) 10); [done|lia].
Qed.

Lemma pad_four n : 0 <= n < 10000 → pad_number 4 n = [48 + n / 1000; 48 + n / 100 mod 10; 48 + n / 10 mod 10; 48 + n mod 10].
Proof.
  intros Hn. unfold pad_number. replace (n <? 0) with false by (symmetry; apply Z.ltb_ge; lia). rewrite Z.abs_eq by lia.
  unfold show_uint. do 4 rewrite show_digits_step.
  destruct (Z.ltb_spec n 10); [cbn; repeat (f_equal; [lia|]); f_equal; lia|].
  destruct (Z.ltb_spec (n / 10) 10); [cbn; repeat (f_equal; [lia|]); f_equal; lia|].
  destruct (Z.ltb_spec (n / 10 / 10) 10); [cbn; repeat (f_equal; [lia|]); f_equal; lia|].
  destruct (Z.ltb_spec (n / 10 / 10 / 10) 10); [|lia]. cbn; repeat (f_equal; [lia|]); f_equal; lia.
Qed.

Lemma month_name_order y m y' m' :
  0 <= y < 10000 → 1 <= m <= 12 → 0 <= y' < 10000 → 1 <= m' <= 12 →
  str_leb (month_name y m) (month_name y' m') = (y * 12 + m <=? y' * 12 + m').
Proof.
  intros Hy Hm Hy' Hm'. unfold month_name. rewrite !pad_four, !pad_two by lia.
  assert (∀ a, 0 <= a < 10000 → digits_value [48 + a / 1000; 48 + a / 100 mod 10; 48 + a / 10 mod 10; 48 + a mod 10] = a) as V4
    by (intros; cbn; lia).
  assert (∀ a, 0 <= a < 100 → digits_value [48 + a / 10; 48 + a mod 10] = a) as V2 by (intros; cbn; lia).
  assert (∀ a, 0 <= a < 10000 → decimal [48 + a / 1000; 48 + a / 100 mod 10; 48 + a / 10 mod 10; 48 + a mod 10]) as D4
    by (intros; repeat constructor; lia).
  assert (∀ a, 0 <= a < 100 → decimal [48 + a / 10; 48 + a mod 10]) as D2 by (intros; repeat constructor; lia).
  rewrite str_leb_digits, !V4 by auto. destruct (Z.eqb_spec y y') as [->|].
  - change (str_leb ([45] ++ ?a) ([45] ++ ?b)) with (str_leb a b). rewrite <- (app_nil_r [48 + m / 10; _]), <- (app_nil_r [48 + m' / 10; _]).
    rewrite str_leb_digits, !V2 by (auto with lia || done). cbn [str_leb]. destruct (Z.eqb_spec m m'); symmetry.
    + apply Z.leb_le. lia.
    + destruct (Z.ltb_spec m m'); [apply Z.leb_le|apply Z.leb_gt]; lia.
  - destruct (Z.ltb_spec y y'); symmetry; [apply Z.leb_le|apply Z.leb_gt]; lia.
Qed.
