(* ===== verification/Traffic.v ===== *)
(** * The traffic ledger (traffic.rs)

    The books: bytes of this session by node, and monthly bytes by node and by
    subscription.  Names and identifiers are lists of scalar values, keys of months are
    bytes.  A [BTreeMap] is a finite map whose entries are visited in the order of the
    keys; the clock is an argument. *)
From Stdlib Require Import String.
From S2P Require Import Prelude Bytes Text Sorting StrOrder Calendar.

#[local] Open Scope string_scope.
#[local] Open Scope list_scope.
#[local] Open Scope Z_scope.

Definition U64_MAX : Z := 2 ^ 64 - 1.
Definition sat_add (a b : Z) : Z := Z.min (a + b) U64_MAX.

Definition DIRECT_TRAFFIC_ID : str := lit "direct".
Definition zh_direct : str := [30452; 36830].
Definition zh_node : str := [33410; 28857].
Definition zh_subscription : str := [35746; 38405].

(** Also the entry of a month. *)
Record TrafficCounters := { up : Z; down : Z }.
Definition no_traffic : TrafficCounters := {| up := 0; down := 0 |}.
Definition total (c : TrafficCounters) : Z := sat_add (up c) (down c).
Definition add_counters (u d : Z) (c : TrafficCounters) : TrafficCounters := {| up := sat_add (up c) u; down := sat_add (down c) d |}.

Record SessionEntry := { se_name : str; se_counters : TrafficCounters }.
(** Of a node, or of a subscription. *)
Record NodeHistory := { nh_name : str; months : gmap bytes TrafficCounters }.
Record TrafficTarget := { id : str; name : str; subscription_id : option str; subscription_name : option str }.

#[export] Instance traffic_counters_eq : EqDecision TrafficCounters.
Proof. solve_decision. Defined.
#[export] Instance traffic_target_eq : EqDecision TrafficTarget.
Proof. solve_decision. Defined.

(** ** Labels *)
Definition label_carries_secret (name : str) : bool :=
  let lower := to_ascii_lowercase name in
  existsb (λ s, contains lower (lit s)) ["://"; "token="; "password="; "passwd="; "secret="; "auth="].

Definition public_traffic_label (name fallback : str) : str :=
  let trimmed := trim name in
  if bool_decide (trimmed = []) || label_carries_secret trimmed then fallback else take 80 trimmed.

(** ** The books *)
Record Books := {
  session : gmap str SessionEntry;
  history : gmap str NodeHistory;
  subscriptions : gmap str NodeHistory;
  generation : Z;
}.

Definition non_empty (s : option str) : option str := match s with Some [] => None | _ => s end.
Definition known_id (i : str) : str := match i with [] => DIRECT_TRAFFIC_ID | _ => i end.
Definition node_label (i n : str) : str := public_traffic_label n (if bool_decide (known_id i = DIRECT_TRAFFIC_ID) then zh_direct else zh_node).

(** One more sample in the bucket of a month. *)
Definition add_month (month : bytes) (u d : Z) (h : NodeHistory) : NodeHistory :=
  {| nh_name := nh_name h; months := <[month := add_counters u d (default no_traffic (months h !! month))]> (months h) |}.

(** The three locked sections of [record_parts_in_month]. *)
Definition record_session (t : TrafficTarget) (u d : Z) (b : Books) : Books :=
  let i := known_id (id t) in
  let n := node_label (id t) (name t) in
  let entry := default {| se_name := n; se_counters := no_traffic |} (session b !! i) in
  {| session := <[i := {| se_name := n; se_counters := add_counters u d (se_counters entry) |}]> (session b);
     history := history b; subscriptions := subscriptions b; generation := generation b |}.

Definition record_history (t : TrafficTarget) (u d : Z) (month : bytes) (b : Books) : Books :=
  let i := known_id (id t) in
  let n := node_label (id t) (name t) in
  let node := default {| nh_name := n; months := ∅ |} (history b !! i) in
  {| session := session b; history := <[i := add_month month u d {| nh_name := n; months := months node |}]> (history b);
     subscriptions := subscriptions b; generation := generation b |}.

Definition record_subscription (t : TrafficTarget) (u d : Z) (month : bytes) (b : Books) : Books :=
  let label := (λ n, public_traffic_label n zh_subscription) <$> subscription_name t in
  match non_empty (subscription_id t) with
  | Some i =>
      let sub := default {| nh_name := default zh_subscription label; months := ∅ |} (subscriptions b !! i) in
      let sub := {| nh_name := default (nh_name sub) (non_empty label); months := months sub |} in
      {| session := session b; history := history b; subscriptions := <[i := add_month month u d sub]> (subscriptions b);
         generation := (generation b + 1) mod 2 ^ 64 |}
  | None => {| session := session b; history := history b; subscriptions := subscriptions b; generation := (generation b + 1) mod 2 ^ 64 |}
  end.

Definition record_parts_in_month (t : TrafficTarget) (u d : Z) (month : bytes) (b : Books) : Books :=
  if (u =? 0) && (d =? 0) then b
  else record_subscription t u d month (record_history t u d month (record_session t u d b)).

(** ** Retention *)
(** [&key[..7]] is a panic inside a character. *)
Definition month_prefix_of (key : bytes) : outcome (option bytes) :=
  if (7 <=? len key) && bool_decide (key !! 4%nat = Some 45) then
    if default false (cont <$> key !! 7%nat) then Panic
    else
      let prefix := take 7 key in
      Ok (if forallb (λ b, is_digit b || (b =? 45)) prefix then Some prefix else None)
  else Ok None.

(** A sample is added to the bucket of its key. *)
Definition add_row (m : gmap bytes TrafficCounters) (e : bytes * TrafficCounters) : gmap bytes TrafficCounters :=
  <[e.1 := add_counters (up e.2) (down e.2) (default no_traffic (m !! e.1))]> m.

Definition fold_entry (folded : outcome (gmap bytes TrafficCounters)) (e : bytes * TrafficCounters) : outcome (gmap bytes TrafficCounters) :=
  folded ← folded;
  month ← month_prefix_of e.1;
  Ok (match month with
      | None => folded
      | Some month => add_row folded (month, e.2)
      end).

Definition fold_daily_into_months (node : NodeHistory) : outcome NodeHistory :=
  folded ← foldl fold_entry (Ok ∅) (entries (months node));
  Ok {| nh_name := nh_name node; months := folded |}.

Definition keep_months_from (cutoff : bytes) (node : NodeHistory) : NodeHistory :=
  {| nh_name := nh_name node; months := filter (λ e, str_leb cutoff e.1 = true) (months node) |}.

Definition is_kept (node : NodeHistory) : bool := negb (bool_decide (months node = ∅)) || negb (bool_decide (nh_name node = [])).

Definition prune_node (cutoff : bytes) (acc : outcome (gmap str NodeHistory)) (e : str * NodeHistory) : outcome (gmap str NodeHistory) :=
  acc ← acc;
  node ← fold_daily_into_months e.2;
  let node := keep_months_from cutoff node in
  Ok (if is_kept node then <[e.1 := node]> acc else acc).

Definition prune_history (now keep_months : Z) (h : gmap str NodeHistory) : outcome (gmap str NodeHistory) :=
  foldl (prune_node (cutoff_month now keep_months)) (Ok ∅) (entries h).

Definition prune_subscriptions (now keep_months : Z) (s : gmap str NodeHistory) : gmap str NodeHistory :=
  filter (λ e, is_kept e.2 = true) (keep_months_from (cutoff_month now keep_months) <$> s).

(** ** Identities that changed *)
(** A node with its old and its new identifier. *)
Record Renamed := { old_id : str; new_id : str; node_name : str }.

Definition merge_months (into from : gmap bytes TrafficCounters) : gmap bytes TrafficCounters := foldl add_row into (entries from).

Definition migrate_node (st : bool * gmap str NodeHistory) (n : Renamed) : bool * gmap str NodeHistory :=
  let '(changed, h) := st in
  match h !! old_id n with
  | None => st
  | Some previous =>
      let h := delete (old_id n) h in
      let target := default {| nh_name := node_name n; months := ∅ |} (h !! new_id n) in
      (true, <[new_id n := {| nh_name := nh_name target; months := merge_months (months target) (months previous) |}]> h)
  end.

Definition migrate_node_identities (nodes : list Renamed) (b : Books) : Books :=
  let '(changed, h) := foldl migrate_node (false, history b) nodes in
  {| session := session b; history := h; subscriptions := subscriptions b;
     generation := if (changed : bool) then (generation b + 1) mod 2 ^ 64 else generation b |}.

(** ** The catalog of targets *)
(** A node of the configuration: its public identifier, its name, and the address of
    the subscription it came from. *)
Record CatalogNode := { cn_id : str; cn_name : str; cn_url : option str }.
Record TrafficCatalog := { catalog_nodes : gmap str TrafficTarget; active : option TrafficTarget }.

Section catalog.
(** A hash of the address. *)
Context (subscription_public_id : str → str).

Definition direct_traffic_target : TrafficTarget :=
  {| id := DIRECT_TRAFFIC_ID; name := zh_direct; subscription_id := None; subscription_name := None |}.

Definition target_for_node (n : CatalogNode) : TrafficTarget :=
  {| id := cn_id n; name := cn_name n; subscription_id := subscription_public_id <$> non_empty (cn_url n); subscription_name := None |}.

(** The name of the subscription, when its address is known and it has one. *)
Definition named_target (names : gmap str str) (n : CatalogNode) : TrafficTarget :=
  let t := target_for_node n in
  match non_empty (cn_url n) with
  | Some url => {| id := id t; name := name t; subscription_id := subscription_id t; subscription_name := non_empty (names !! url) |}
  | None => t
  end.

Definition publish_traffic_catalog (nodes : list CatalogNode) (subs : list (str * str)) (active_index : option nat) (direct_mode : bool) : TrafficCatalog :=
  let names : gmap str str := foldl (λ m e, <[e.1 := e.2]> m) ∅ subs in
  let built : gmap str TrafficTarget := foldl (λ m n, <[cn_id n := named_target names n]> m) ∅ nodes in
  {| catalog_nodes := built;
     active := if direct_mode then None else i ← active_index; n ← nodes !! i; built !! cn_id n |}.

Definition set_catalog_active (public_id n : str) (c : TrafficCatalog) : TrafficTarget * TrafficCatalog :=
  let t := default {| id := public_id; name := n; subscription_id := None; subscription_name := None |} (catalog_nodes c !! public_id) in
  (t, {| catalog_nodes := catalog_nodes c; active := Some t |}).

(** The target [note_node] notes. *)
Definition noted_target (n : CatalogNode) (c : TrafficCatalog) : TrafficTarget := default (target_for_node n) (catalog_nodes c !! cn_id n).
End catalog.
