(* ===== verification/TrafficSteps.v ===== *)
(** * The traffic ledger: recorders and mergers (traffic.rs)

    Every stream counts its bytes with two atomics of a counter of its own, without a
    lock; mergers drain the counters of the registry into the books under the lock of
    the registry.  A step is one atomic access or one critical section, and steps of
    the recorders, of a merger and of direct samples interleave. *)
From Stdlib Require Import String.
From S2P Require Import Prelude Bytes Text StrOrder Calendar Traffic.

#[local] Open Scope list_scope.
#[local] Open Scope Z_scope.

(** [PendingTraffic]: target, day and the two atomics. *)
Record Counter := { c_target : TrafficTarget; c_day : Z; c_up : Z; c_down : Z }.
Record Scope := { s_target : option TrafficTarget; s_generation : Z }.
Record Current := {
  current_id : option str; current_name : option str; current_sub_id : option str; current_sub_name : option str;
  current_generation : Z;
}.

(** ** Recorders *)
Record Call := { call_up : Z; call_down : Z; call_day : Z }.

(** Where a call of [record_at] stands: the generation of its scope is loaded; both
    are; fields of the current target are read; the old counter waits for the lock, or
    is drained under it; the new counter is to be registered; the bytes are added. *)
Inductive pc :=
  | Idle
  | Scoped (c : Call) (scope_generation : Z)
  | Reading (c : Call) (versions : Z * Z)
  | ReadingCurrent (c : Call) (versions : Z * Z) (fields : list (option str))
  | Chosen (c : Call) (versions : Z * Z) (t : TrafficTarget)
  | Retire (c : Call) (versions : Z * Z) (t : TrafficTarget) (old : nat)
  | Push (c : Call) (versions : Z * Z) (t : TrafficTarget)
  | AddUp (c : Call)
  | AddDown (c : Call)
  | Dropped.

Record Recorder := { r_scope : option nat; r_versions : Z * Z; held : option nat; r_pc : pc }.

Definition new_recorder (scope : option nat) : Recorder :=
  {| r_scope := scope; r_versions := (U64_MAX, U64_MAX); held := None; r_pc := Idle |}.

(** ** Draining *)
(** Bytes on their way into the books: the next section of [record_parts_in_month]. *)
Record Flight := { f_target : TrafficTarget; f_month : bytes; f_up : Z; f_down : Z; f_stage : nat }.

Definition flight_step (f : Flight) (b : Books) : option Flight * Books :=
  let next := {| f_target := f_target f; f_month := f_month f; f_up := f_up f; f_down := f_down f; f_stage := S (f_stage f) |} in
  match f_stage f with
  | 0%nat => (Some next, record_session (f_target f) (f_up f) (f_down f) b)
  | 1%nat => (Some next, record_history (f_target f) (f_up f) (f_down f) (f_month f) b)
  | _ => (None, record_subscription (f_target f) (f_up f) (f_down f) (f_month f) b)
  end.

(** [merge_counter]: swap both atomics, then record what they held. *)
Inductive drain := SwapUp | SwapDown (u : Z) | Flying (f : Flight) | Drained.

(** The registry's lock: free, a merger that keeps counters, or a recorder that retires
    its own. *)
Inductive guard_state :=
  | Free
  | Merging (kept : list nat) (now : option (nat * drain)) (todo : list nat)
  | Retiring (r i : nat) (d : drain).

Record World := {
  books : Books;
  current : Current;
  registry : list nat;
  counters : gmap nat Counter;
  scopes : gmap nat Scope;
  recorders : gmap nat Recorder;
  guard : guard_state;
  samples : gmap nat Flight;
}.

Definition with_books b w := {| books := b; current := current w; registry := registry w; counters := counters w; scopes := scopes w;
  recorders := recorders w; guard := guard w; samples := samples w |}.
Definition with_current c w := {| books := books w; current := c; registry := registry w; counters := counters w; scopes := scopes w;
  recorders := recorders w; guard := guard w; samples := samples w |}.
Definition with_registry l w := {| books := books w; current := current w; registry := l; counters := counters w; scopes := scopes w;
  recorders := recorders w; guard := guard w; samples := samples w |}.
Definition with_counters m w := {| books := books w; current := current w; registry := registry w; counters := m; scopes := scopes w;
  recorders := recorders w; guard := guard w; samples := samples w |}.
Definition with_scopes m w := {| books := books w; current := current w; registry := registry w; counters := counters w; scopes := m;
  recorders := recorders w; guard := guard w; samples := samples w |}.
Definition with_recorders m w := {| books := books w; current := current w; registry := registry w; counters := counters w; scopes := scopes w;
  recorders := m; guard := guard w; samples := samples w |}.
Definition with_guard g w := {| books := books w; current := current w; registry := registry w; counters := counters w; scopes := scopes w;
  recorders := recorders w; guard := g; samples := samples w |}.
Definition with_samples m w := {| books := books w; current := current w; registry := registry w; counters := counters w; scopes := scopes w;
  recorders := recorders w; guard := guard w; samples := m |}.

(** One step of [merge_counter] for the counter [i]. *)
Definition drain_step (i : nat) (d : drain) (w : World) : option (drain * World) :=
  match d with
  | SwapUp =>
      c ← counters w !! i;
      Some (SwapDown (c_up c), with_counters (<[i := {| c_target := c_target c; c_day := c_day c; c_up := 0; c_down := c_down c |}]> (counters w)) w)
  | SwapDown u =>
      c ← counters w !! i;
      Some (if (u =? 0) && (c_down c =? 0) then Drained
            else Flying {| f_target := c_target c; f_month := month_of_day (c_day c); f_up := u; f_down := c_down c; f_stage := 0 |},
            with_counters (<[i := {| c_target := c_target c; c_day := c_day c; c_up := c_up c; c_down := 0 |}]> (counters w)) w)
  | Flying f =>
      let '(next, b) := flight_step f (books w) in
      Some (match next with Some f => Flying f | None => Drained end, with_books b w)
  | Drained => None
  end.

(** The counter a recorder has a reference to. *)
Definition holding (r : Recorder) : option nat := match r_pc r with Retire _ _ _ old => Some old | _ => held r end.

(** [Arc::strong_count(counter) > 1]: somebody besides the registry has it. *)
Definition shared (i : nat) (w : World) : bool :=
  existsb (λ r, bool_decide (holding r.2 = Some i)) (map_to_list (recorders w)).

(** [Vec::swap_remove] of the first occurrence. *)
Definition swap_remove (i : nat) (l : list nat) : list nat :=
  match list_find (eq i) l, last l with
  | Some (n, _), Some x => take (length l - 1) (<[n := x]> l)
  | _, _ => l
  end.

Definition with_pc (p : pc) (r : Recorder) : Recorder :=
  {| r_scope := r_scope r; r_versions := r_versions r; held := held r; r_pc := p |}.

(** The next step under the lock. *)
Definition guard_step (w : World) : option World :=
  match guard w with
  | Free => None
  | Merging kept (Some (i, Drained)) todo =>
      Some (with_guard (Merging (if shared i w then kept ++ [i] else kept) None todo) w)
  | Merging kept (Some (i, d)) todo =>
      '(d, w) ← drain_step i d w;
      Some (with_guard (Merging kept (Some (i, d)) todo) w)
  | Merging kept None (i :: todo) => Some (with_guard (Merging kept (Some (i, SwapUp)) todo) w)
  | Merging kept None [] => Some (with_guard Free (with_registry kept w))
  | Retiring r i Drained =>
      rec ← recorders w !! r;
      let w := with_guard Free (with_registry (swap_remove i (registry w)) w) in
      Some (with_recorders
        (match r_pc rec with
         | Retire c vs t _ => <[r := with_pc (Push c vs t) rec]> (recorders w)
         | _ => delete r (recorders w)
         end) w)
  | Retiring r i d =>
      '(d, w) ← drain_step i d w;
      Some (with_guard (Retiring r i d) w)
  end.

(** ** The calls of a recorder *)
Definition current_field (n : nat) (c : Current) : option str :=
  match n with 0%nat => current_id c | 1%nat => current_name c | 2%nat => current_sub_id c | _ => current_sub_name c end.

(** [current_target], of the four fields as they were read. *)
Definition target_of_fields (fields : list (option str)) : TrafficTarget :=
  {| id := default DIRECT_TRAFFIC_ID (default None (fields !! 0%nat)); name := default zh_direct (default None (fields !! 1%nat));
     subscription_id := default None (fields !! 2%nat); subscription_name := default None (fields !! 3%nat) |}.

Definition same_day (day : Z) (w : World) (r : Recorder) : bool :=
  match c ← (held r ≫= (λ i, counters w !! i)); Some (c_day c =? day) with Some b => b | None => false end.
Definition same_target (t : TrafficTarget) (w : World) (r : Recorder) : bool :=
  match c ← (held r ≫= (λ i, counters w !! i)); Some (bool_decide (c_target c = t)) with Some b => b | None => false end.

(** What was recorded, and by whom. *)
Record Event := { e_target : TrafficTarget; e_month : bytes; e_up : Z; e_down : Z }.

Definition set_recorder (r : nat) (rec : Recorder) (w : World) : World := with_recorders (<[r := rec]> (recorders w)) w.

(** The next step of a recorder, with the bytes it adds. *)
Definition recorder_step (r : nat) (w : World) : option (list Event * World) :=
  rec ← recorders w !! r;
  let go p := Some ([], set_recorder r (with_pc p rec) w) in
  match r_pc rec with
  | Idle | Dropped => None
  | Scoped c v1 =>
      let vs := (v1, current_generation (current w)) in
      if negb (same_day (call_day c) w rec) || negb (bool_decide (vs = r_versions rec)) then go (Reading c vs) else go (AddUp c)
  | Reading c vs =>
      match (r_scope rec ≫= (λ s, scopes w !! s)) ≫= s_target with
      | Some t => go (Chosen c vs t)
      | None => go (ReadingCurrent c vs [])
      end
  | ReadingCurrent c vs fields =>
      if bool_decide (length fields = 4%nat) then go (Chosen c vs (target_of_fields fields))
      else go (ReadingCurrent c vs (fields ++ [current_field (length fields) (current w)]))
  | Chosen c vs t =>
      if same_day (call_day c) w rec && same_target t w rec
      then Some ([], set_recorder r {| r_scope := r_scope rec; r_versions := vs; held := held rec; r_pc := AddUp c |} w)
      else match held rec with
           | Some old => Some ([], set_recorder r {| r_scope := r_scope rec; r_versions := r_versions rec; held := None; r_pc := Retire c vs t old |} w)
           | None => go (Push c vs t)
           end
  | Retire c vs t old =>
      match guard w with Free => Some ([], with_guard (Retiring r old SwapUp) w) | _ => None end
  | Push c vs t =>
      match guard w with
      | Free =>
          let i := fresh (dom (counters w)) in
          let counter := {| c_target := t; c_day := call_day c; c_up := 0; c_down := 0 |} in
          Some ([], set_recorder r {| r_scope := r_scope rec; r_versions := vs; held := Some i; r_pc := AddUp c |}
                      (with_registry (registry w ++ [i]) (with_counters (<[i := counter]> (counters w)) w)))
      | _ => None
      end
  | AddUp c =>
      i ← held rec;
      x ← counters w !! i;
      Some ([{| e_target := c_target x; e_month := month_of_day (c_day x); e_up := call_up c; e_down := 0 |}],
            set_recorder r (with_pc (AddDown c) rec)
              (with_counters (<[i := {| c_target := c_target x; c_day := c_day x; c_up := (c_up x + call_up c) mod 2 ^ 64; c_down := c_down x |}]>
                 (counters w)) w))
  | AddDown c =>
      i ← held rec;
      x ← counters w !! i;
      Some ([{| e_target := c_target x; e_month := month_of_day (c_day x); e_up := 0; e_down := call_down c |}],
            set_recorder r (with_pc Idle rec)
              (with_counters (<[i := {| c_target := c_target x; c_day := c_day x; c_up := c_up x; c_down := (c_down x + call_down c) mod 2 ^ 64 |}]>
                 (counters w)) w))
  end.

(** [record]: nothing is done for no bytes; else the generation of the scope is loaded. *)
Definition record (r : nat) (c : Call) (w : World) : option World :=
  rec ← recorders w !! r;
  match r_pc rec with
  | Idle =>
      if (call_up c =? 0) && (call_down c =? 0) then Some w
      else Some (set_recorder r (with_pc (Scoped c (default 0 (s_generation <$> (r_scope rec ≫= (λ s, scopes w !! s))))) rec) w)
  | _ => None
  end.

(** [Drop]: the counter is retired under the lock. *)
Definition drop_recorder (r : nat) (w : World) : option World :=
  rec ← recorders w !! r;
  match r_pc rec, held rec with
  | Idle, Some _ => Some (set_recorder r (with_pc Dropped rec) w)
  | Idle, None => Some (with_recorders (delete r (recorders w)) w)
  | Dropped, Some i => match guard w with Free => Some (with_guard (Retiring r i SwapUp) w) | _ => None end
  | _, _ => None
  end.

(** [merge_pending] takes the lock. *)
Definition merge_pending (w : World) : option World :=
  match guard w with Free => Some (with_guard (Merging [] None (registry w)) w) | _ => None end.

(** [record_target]: a sample that is not counted by a recorder. *)
Definition record_target (t : TrafficTarget) (u d now : Z) : option Flight :=
  if (u =? 0) && (d =? 0) then None
  else Some {| f_target := t; f_month := month_key now; f_up := u; f_down := d; f_stage := 0 |}.

(** ** The writers of targets *)
Inductive write := SetField (n : nat) (v : option str) | Bump.

Definition apply_write (x : write) (c : Current) : Current :=
  match x with
  | SetField 0 v => {| current_id := v; current_name := current_name c; current_sub_id := current_sub_id c; current_sub_name := current_sub_name c; current_generation := current_generation c |}
  | SetField 1 v => {| current_id := current_id c; current_name := v; current_sub_id := current_sub_id c; current_sub_name := current_sub_name c; current_generation := current_generation c |}
  | SetField 2 v => {| current_id := current_id c; current_name := current_name c; current_sub_id := v; current_sub_name := current_sub_name c; current_generation := current_generation c |}
  | SetField _ v => {| current_id := current_id c; current_name := current_name c; current_sub_id := current_sub_id c; current_sub_name := v; current_generation := current_generation c |}
  | Bump => {| current_id := current_id c; current_name := current_name c; current_sub_id := current_sub_id c; current_sub_name := current_sub_name c; current_generation := (current_generation c + 1) mod 2 ^ 64 |}
  end.

Definition or_else (o : option str) (s : str) : option str := match o with Some _ => o | None => Some s end.

Definition set_current_subscription (i n : option str) : list write := [SetField 2 (non_empty i); SetField 3 (non_empty n); Bump].

Definition set_current_node (i n : option str) : list write :=
  [SetField 0 (or_else (non_empty i) DIRECT_TRAFFIC_ID);
   SetField 1 (or_else ((λ v, public_traffic_label v zh_node) <$> non_empty n) zh_direct)]
  ++ set_current_subscription None None.

(** [note_traffic]: the target and the generation of a scope, under its lock. *)
Definition note_traffic (s : nat) (t : TrafficTarget) (w : World) : option World :=
  x ← scopes w !! s;
  Some (with_scopes (<[s := {| s_target := Some t; s_generation := (s_generation x + 1) mod 2 ^ 64 |}]> (scopes w)) w).

(** ** Steps *)
Definition u64 (z : Z) : Prop := 0 <= z < 2 ^ 64.

(** One step of the program, with what it recorded. *)
Inductive step (w : World) : list Event → World → Prop :=
  | step_scope s : scopes w !! s = None → step w [] (with_scopes (<[s := {| s_target := None; s_generation := 0 |}]> (scopes w)) w)
  | step_recorder_new r scope : recorders w !! r = None → step w [] (set_recorder r (new_recorder scope) w)
  | step_record r c w' : u64 (call_up c) → u64 (call_down c) → record r c w = Some w' → step w [] w'
  | step_recorder r evs w' : recorder_step r w = Some (evs, w') → step w evs w'
  | step_drop r w' : drop_recorder r w = Some w' → step w [] w'
  | step_merge w' : merge_pending w = Some w' → step w [] w'
  | step_guard w' : guard_step w = Some w' → step w [] w'
  | step_sample n t u d now f : samples w !! n = None → u64 u → u64 d → record_target t u d now = Some f →
      step w [{| e_target := t; e_month := f_month f; e_up := u; e_down := d |}] (with_samples (<[n := f]> (samples w)) w)
  | step_flight n f next b : samples w !! n = Some f → flight_step f (books w) = (next, b) →
      step w [] (with_samples (match next with Some f => <[n := f]> (samples w) | None => delete n (samples w) end) (with_books b w))
  | step_write x : step w [] (with_current (apply_write x (current w)) w)
  | step_note s t w' : note_traffic s t w = Some w' → step w [] w'.

(** A ledger nobody records to yet, with the books as they were loaded. *)
Definition ledger (b : Books) : World :=
  {| books := b; current := {| current_id := None; current_name := None; current_sub_id := None; current_sub_name := None; current_generation := 0 |};
     registry := []; counters := ∅; scopes := ∅; recorders := ∅; guard := Free; samples := ∅ |}.

Inductive reach (b : Books) : list Event → World → Prop :=
  | reach_start : reach b [] (ledger b)
  | reach_step trace w evs w' : reach b trace w → step w evs w' → reach b (trace ++ evs) w'.
