(* ===== verification/TrafficSpec.v ===== *)
(** * The traffic ledger: every byte is counted once *)
From Stdlib Require Import String.
From S2P Require Import Prelude Bytes Sorting Text StrOrder Calendar Traffic TrafficSteps.

#[local] Open Scope list_scope.
#[local] Open Scope Z_scope.

#[local] Arguments month_of_day : simpl never.

Lemma swap_remove_perm i l : i ∈ l → NoDup l → i :: swap_remove i l ≡ₚ l.
Proof.
  intros Hi Hnd. unfold swap_remove. destruct (list_find (eq i) l) as [[n j]|] eqn:E.
  2: { exfalso. by apply (list_find_None (eq i) l) in E; rewrite Forall_forall in E; eapply E. }
  apply list_find_Some in E as (Hn & <- & _). destruct (last l) as [x|] eqn:El.
  2: { apply last_None in El as ->. by apply elem_of_nil in Hi. }
  apply last_Some in El as [l' ->]. rewrite length_app. cbn [length]. replace (length l' + 1 - 1)%nat with (length l') by lia.
  destruct (decide (n < length l')%nat) as [Hlt|Hge].
  - rewrite insert_app_l by done. rewrite take_app_le by (rewrite length_insert; lia). rewrite take_ge by (rewrite length_insert; lia).
    rewrite lookup_app_l in Hn by done. rewrite (insert_take_drop _ _ _ Hlt).
    rewrite <- (take_drop_middle l' n i Hn) at 3. rewrite <- app_assoc. cbn [app].
    rewrite (Permutation_app_comm (drop _ _) [x]). cbn [app]. apply Permutation_middle.
  - assert (n = length l') as -> by (apply lookup_lt_Some in Hn; rewrite length_app in Hn; cbn in Hn; lia).
    rewrite lookup_app_r, Nat.sub_diag in Hn by lia. injection Hn as ->.
    rewrite insert_app_r_alt by lia. rewrite Nat.sub_diag. cbn. rewrite take_app_length. apply Permutation_cons_append.
Qed.

(** ** Who holds which counter *)
Definition no_bytes (c : Counter) : Prop := c_up c = 0 ∧ c_down c = 0.

Definition pc_ok (r : Recorder) : Prop :=
  match r_pc r with
  | AddUp c => is_Some (held r) ∧ u64 (call_up c) ∧ u64 (call_down c)
  | AddDown c => is_Some (held r) ∧ u64 (call_down c)
  | Dropped => is_Some (held r)
  | Retire c _ _ _ | Push c _ _ => held r = None ∧ u64 (call_up c) ∧ u64 (call_down c)
  | Scoped c _ | Reading c _ | ReadingCurrent c _ _ | Chosen c _ _ => u64 (call_up c) ∧ u64 (call_down c)
  | Idle => True
  end.

Definition flight_ok (f : Flight) : Prop := u64 (f_up f) ∧ u64 (f_down f).
Definition drain_ok (d : drain) : Prop := match d with SwapDown u => u64 u | Flying f => flight_ok f | _ => True end.

(** What a retiring recorder has emptied so far. *)
Definition emptied (d : drain) (c : Counter) : Prop :=
  match d with SwapUp => True | SwapDown _ => c_up c = 0 | _ => no_bytes c end.

Definition retires (rec : Recorder) (i : nat) : Prop := holding rec = Some i ∧ match r_pc rec with Retire _ _ _ _ | Dropped => True | _ => False end.

Definition guard_ok (w : World) : Prop :=
  match guard w with
  | Free => True
  | Merging kept now todo => registry w = kept ++ (match now with Some (i, d) => [i] | None => [] end) ++ todo ∧
      match now with Some (_, d) => drain_ok d | None => True end
  | Retiring r i d => drain_ok d ∧ (∃ rec, recorders w !! r = Some rec ∧ retires rec i) ∧ ∀ c, counters w !! i = Some c → emptied d c
  end.

Record sound (w : World) : Prop := {
  so_nodup : NoDup (registry w);
  so_held : ∀ r rec i, recorders w !! r = Some rec → holding rec = Some i → i ∈ registry w;
  so_registered : ∀ i, i ∈ registry w → ∃ r rec, recorders w !! r = Some rec ∧ holding rec = Some i;
  so_unique : ∀ r rec r' rec' i, recorders w !! r = Some rec → recorders w !! r' = Some rec' → holding rec = Some i → holding rec' = Some i → r = r';
  so_counters : ∀ i, i ∈ registry w → is_Some (counters w !! i);
  so_empty : ∀ i c, counters w !! i = Some c → i ∉ registry w → no_bytes c;
  so_u64 : ∀ i c, counters w !! i = Some c → u64 (c_up c) ∧ u64 (c_down c);
  so_samples : ∀ n f, samples w !! n = Some f → flight_ok f;
  so_pc : ∀ r rec, recorders w !! r = Some rec → pc_ok rec;
  so_guard : guard_ok w;
}.

(** No recorder is being retired that is not at its retirement. *)
Lemma retiring_pc w r rec i d : sound w → guard w = Retiring r i d → recorders w !! r = Some rec → retires rec i.
Proof. intros Hs Hg Hr. pose proof (so_guard w Hs) as H. unfold guard_ok in H. rewrite Hg in H. destruct H as (_ & (rec' & Hr' & ?) & _). congruence. Qed.

Lemma shared_spec w i : shared i w = true ↔ ∃ r rec, recorders w !! r = Some rec ∧ holding rec = Some i.
Proof.
  unfold shared. rewrite existsb_exists. split.
  - intros ([r rec] & Hin & Hh%bool_decide_eq_true). exists r, rec. split; [|done]. by apply elem_of_map_to_list, list_elem_of_In.
  - intros (r & rec & Hr & Hh). exists (r, rec). split; [by apply list_elem_of_In, elem_of_map_to_list|]. by apply bool_decide_eq_true.
Qed.

(** A recorder moves on without a change of what it holds. *)
Lemma sound_move w r rec rec' :
  sound w → recorders w !! r = Some rec → holding rec' = holding rec → pc_ok rec' → (∀ i, retires rec i → retires rec' i) →
  sound (set_recorder r rec' w).
Proof.
  intros [S1 S2 S3 S4 S5 S6 S7 S8 S9 S10] Hr Hh Hpc Hret.
  assert (∀ r0 rec0 i, <[r:=rec']> (recorders w) !! r0 = Some rec0 → holding rec0 = Some i → ∃ rec1, recorders w !! r0 = Some rec1 ∧ holding rec1 = Some i) as Hold.
  { intros r0 rec0 i [[-> ->]|[Hne Hr0]]%lookup_insert_Some Hi; [exists rec; by rewrite <- Hh|by exists rec0]. }
  split; try done; cbn.
  - intros r0 rec0 i H1 H2. destruct (Hold _ _ _ H1 H2) as (rec1 & H3 & H4). by eapply S2.
  - intros i Hi. destruct (S3 i Hi) as (r0 & rec0 & H1 & H2). destruct (decide (r0 = r)) as [->|Hne].
    + exists r, rec'. rewrite lookup_insert_eq. split; [done|]. congruence.
    + exists r0, rec0. by rewrite lookup_insert_ne.
  - intros r0 rec0 r1 rec1 i H1 H2 H3 H4. destruct (Hold _ _ _ H1 H3) as (? & ? & ?). destruct (Hold _ _ _ H2 H4) as (? & ? & ?). by eapply S4.
  - intros r0 rec0 [[-> ->]|[Hne Hr0]]%lookup_insert_Some; [done|by eapply S9].
  - unfold guard_ok in *. cbn. destruct (guard w) as [| |r0 i d]; try done. destruct S10 as (? & (rec0 & H1 & H2) & ?). split_and!; try done.
    destruct (decide (r0 = r)) as [->|Hne]; [exists rec'; rewrite lookup_insert_eq; split; [done|]; apply Hret; congruence|].
    exists rec0. by rewrite lookup_insert_ne.
Qed.

(** The atomics of a registered counter change. *)
Lemma sound_counter w i c c' :
  sound w → counters w !! i = Some c → i ∈ registry w → u64 (c_up c') → u64 (c_down c') →
  (∀ r d, guard w = Retiring r i d → emptied d c → emptied d c') → sound (with_counters (<[i:=c']> (counters w)) w).
Proof.
  intros [S1 S2 S3 S4 S5 S6 S7 S8 S9 S10] Hi Hreg Hu Hd Hem. split; try done; cbn.
  - intros j Hj. destruct (decide (j = i)) as [->|]; [rewrite lookup_insert_eq; by eexists|]. rewrite lookup_insert_ne by done. by apply S5.
  - intros j x [[-> ->]|[Hne Hj]]%lookup_insert_Some Hout; [done|by eapply S6].
  - intros j x [[-> ->]|[Hne Hj]]%lookup_insert_Some; [done|by eapply S7].
  - unfold guard_ok in *. cbn. destruct (guard w) as [| |r j d] eqn:Hg; try done. destruct S10 as (H1 & H2 & H3). split_and!; try done.
    intros x [[-> ->]|[Hne Hj]]%lookup_insert_Some; [by eapply Hem; [|apply H3]|by apply H3].
Qed.

(** Parts the invariant does not speak of. *)
Lemma sound_same w w' :
  registry w' = registry w → counters w' = counters w → recorders w' = recorders w → guard w' = guard w →
  (∀ n f, samples w' !! n = Some f → flight_ok f) → sound w → sound w'.
Proof. intros E1 E2 E3 E4 Hsm [S1 S2 S3 S4 S5 S6 S7 S8 S9 S10]. split; unfold guard_ok in *; by rewrite ?E1, ?E2, ?E3, ?E4. Qed.

(** The lock changes hands. *)
Lemma sound_guard w g : sound w → guard_ok (with_guard g w) → sound (with_guard g w).
Proof. intros [S1 S2 S3 S4 S5 S6 S7 S8 S9 S10] Hg. by split. Qed.

(** ** Steps keep it *)
(** The two ways of draining a counter. *)
Definition drains (mk : drain → guard_state) (i : nat) : Prop :=
  (∃ kept todo, mk = λ d, Merging kept (Some (i, d)) todo) ∨ ∃ r, mk = Retiring r i.

Lemma drains_facts mk i d w : drains mk i → sound w → guard w = mk d →
  i ∈ registry w ∧ drain_ok d ∧ (∀ r e, mk d = Retiring r i e → e = d ∧ ∀ c, counters w !! i = Some c → emptied d c) ∧ (∀ r j e, mk d = Retiring r j e → j = i).
Proof.
  intros Hmk Hs Hg. pose proof (so_guard w Hs) as H. unfold guard_ok in H. rewrite Hg in H. destruct Hmk as [(kept & todo & ->)|[r ->]].
  - destruct H as (Hreg & Hd). split_and!; try done. rewrite Hreg. set_solver.
  - destruct H as (Hd & (rec & Hr & Hret) & Hem). split_and!; try done; [by eapply so_held; [done|done|apply Hret]| |]; by intros; simplify_eq.
Qed.

Lemma guard_ok_drain mk i d d' w :
  drains mk i → guard w = mk d → guard_ok w → drain_ok d' → (∀ c, counters w !! i = Some c → emptied d' c ∨ ∀ r e, mk e ≠ Retiring r i e) →
  guard_ok (with_guard (mk d') w).
Proof.
  intros [(kept & todo & ->)|[r ->]] Hg H Hd Hem; unfold guard_ok in *; rewrite Hg in H; cbn in *.
  - by destruct H.
  - destruct H as (_ & Hrec & _). split_and!; try done. intros c Hc. by destruct (Hem c Hc) as [|Hno]; [|by destruct (Hno r d)].
Qed.

Lemma flight_step_ok f b : flight_ok f → match flight_step f b with (Some f', _) => flight_ok f' | _ => True end.
Proof. intros Hf. unfold flight_step. by destruct (f_stage f) as [|[|]]. Qed.

Lemma drain_sound mk i d d' w w' :
  drains mk i → sound w → guard w = mk d → drain_step i d w = Some (d', w') → sound (with_guard (mk d') w').
Proof.
  intros Hmk Hs Hg E. destruct (drains_facts _ _ _ _ Hmk Hs Hg) as (Hreg & Hok & Hret & Hj).
  destruct d as [|u|f|]; cbn [drain_step] in E; [| | |done].
  - destruct (counters w !! i) as [c|] eqn:Hc; [|done]. injection E as <- <-. destruct (so_u64 w Hs i c Hc) as [Hu Hd].
    match goal with |- sound (with_guard _ (with_counters (<[i:=?c']> _) w)) => set (c1 := c') end.
    assert (sound (with_counters (<[i:=c1]> (counters w)) w)) as Hs1.
    { apply (sound_counter w i c); try done. intros r e Hr _. destruct (Hret r e) as [-> _]; [by rewrite <- Hg|done]. }
    apply sound_guard; [done|]. eapply guard_ok_drain; [done|exact Hg|apply (so_guard _ Hs1)|done|].
    cbn [counters with_counters]. rewrite lookup_insert_eq. intros x <-%(inj Some). by left.
  - destruct (counters w !! i) as [c|] eqn:Hc; [|done]. injection E as <- <-. destruct (so_u64 w Hs i c Hc) as [Hu Hd].
    match goal with |- sound (with_guard _ (with_counters (<[i:=?c']> _) w)) => set (c1 := c') end.
    assert (sound (with_counters (<[i:=c1]> (counters w)) w)) as Hs1.
    { apply (sound_counter w i c); try done. intros r e Hr. destruct (Hret r e) as [-> _]; [by rewrite <- Hg|]. done. }
    apply sound_guard; [done|]. eapply guard_ok_drain; [done|exact Hg|apply (so_guard _ Hs1)|by destruct (_ && _)|].
    cbn [counters with_counters]. rewrite lookup_insert_eq. intros x <-%(inj Some).
    destruct Hmk as [(kept & todo & ->)|[r ->]]; [by right|]. left. destruct (Hret r (SwapDown u) eq_refl) as [_ Hem].
    specialize (Hem c eq_refl). cbn in Hem. by destruct (_ && _).
  - destruct (flight_step f (books w)) as [next b] eqn:Ef. injection E as <- <-.
    pose proof (flight_step_ok f (books w) Hok) as Hnext. rewrite Ef in Hnext.
    assert (sound (with_books b w)) as Hs1 by (apply (sound_same w); try done; apply (so_samples w Hs)).
    apply sound_guard; [done|]. eapply guard_ok_drain; [done|exact Hg|apply (so_guard _ Hs1)|by destruct next|].
    intros c Hc. cbn in Hc. destruct Hmk as [(kept & todo & ->)|[r ->]]; [by right|]. left.
    destruct (Hret r (Flying f) eq_refl) as [_ Hem]. specialize (Hem c Hc). by destruct next.
Qed.

Lemma guard_sound w w' : sound w → guard_step w = Some w' → sound w'.
Proof.
  intros Hs E. unfold guard_step in E. pose proof (so_guard w Hs) as Hok. unfold guard_ok in Hok. destruct (guard w) as [|kept now todo|r i d] eqn:Hg; [done| |].
  - destruct now as [[i d]|].
    + destruct Hok as [Hreg _]. destruct d as [|u|f|].
      1-3: destruct (drain_step i _ w) as [[d' w1]|] eqn:Ed; [|done]; injection E as <-;
        eapply (drain_sound (λ d, Merging kept (Some (i, d)) todo)); [left; by eexists _, _|done|exact Hg|exact Ed].
      injection E as <-. apply sound_guard; [done|]. cbn.
      assert (shared i w = true) as ->; [|split; [by rewrite Hreg, <- app_assoc|done]].
      apply shared_spec, (so_registered w Hs). rewrite Hreg. set_solver.
    + destruct Hok as [Hreg _]. cbn [app] in Hreg. destruct todo as [|i todo].
      * injection E as <-. rewrite app_nil_r in Hreg. rewrite <- Hreg.
        assert (with_registry (registry w) w = w) as -> by (by destruct w). by apply sound_guard.
      * injection E as <-. apply sound_guard; [done|]. cbn. by split.
  - destruct Hok as (Hd & (rec & Hr & Hret) & Hem). destruct d as [|u|f|].
    1-3: destruct (drain_step i _ w) as [[d' w1]|] eqn:Ed; [|done]; injection E as <-;
      eapply (drain_sound (Retiring r i)); [right; by eexists|done|exact Hg|exact Ed].
    rewrite Hr in E. injection E as <-. destruct Hret as [Hhold Hpc].
    pose proof Hs as [S1 S2 S3 S4 S5 S6 S7 S8 S9 S10]. assert (i ∈ registry w) as Hireg by (by eapply S2).
    pose proof (swap_remove_perm i (registry w) Hireg S1) as Hperm.
    assert (NoDup (i :: swap_remove i (registry w))) as [Hni Hnd]%NoDup_cons by (by rewrite Hperm).
    assert (∀ j, j ∈ swap_remove i (registry w) ↔ j ∈ registry w ∧ j ≠ i) as Hin.
    { intros j. assert (j ∈ i :: swap_remove i (registry w) ↔ j ∈ registry w) as Hj by (by rewrite Hperm). rewrite <- Hj, elem_of_cons.
      split; [intros Hin; split; [by right|by intros ->]|]. by intros [[?|?] ?]. }
    set (recs := match r_pc rec with Retire c vs t _ => <[r:=with_pc (Push c vs t) rec]> (recorders w) | _ => delete r (recorders w) end).
    assert (∀ r0 rec0, recs !! r0 = Some rec0 → (r0 = r ∧ holding rec0 = None ∧ pc_ok rec0) ∨ (r0 ≠ r ∧ recorders w !! r0 = Some rec0)) as Hrecs.
    { intros r0 rec0. unfold recs. pose proof (S9 r rec Hr) as Hpcok. unfold pc_ok in Hpcok. destruct (r_pc rec); try done.
      - intros [[-> <-]|[? ?]]%lookup_insert_Some; [left|right]; [|done]. cbn. destruct Hpcok as (? & ? & ?). by split_and!.
      - intros [? ?]%lookup_delete_Some. by right. }
    split; cbn; try done.
    + intros r0 rec0 j H1 H2. apply Hin. destruct (Hrecs _ _ H1) as [(-> & ? & _)|(Hne & H3)]; [congruence|]. split; [by eapply S2|].
      intros ->. apply Hne. by eapply S4.
    + intros j [Hj Hne]%Hin. destruct (S3 j Hj) as (r0 & rec0 & H1 & H2). exists r0, rec0. split; [|done].
      assert (r0 ≠ r) as Hr0 by (intros ->; congruence). unfold recs. destruct (r_pc rec); by rewrite ?lookup_insert_ne, ?lookup_delete_ne.
    + intros r0 rec0 r1 rec1 j H1 H2 H3 H4. destruct (Hrecs _ _ H1) as [(_ & ? & _)|(_ & H5)]; [congruence|].
      destruct (Hrecs _ _ H2) as [(_ & ? & _)|(_ & H6)]; [congruence|]. by eapply S4.
    + intros j [Hj _]%Hin. by apply S5.
    + intros j c Hc Hj. destruct (decide (j = i)) as [->|Hne]; [by apply (Hem c)|]. apply (S6 j c Hc). intros Hin'. by apply Hj, Hin.
    + intros r0 rec0 H1. destruct (Hrecs _ _ H1) as [(_ & _ & ?)|(_ & H2)]; [done|by eapply S9].
Qed.

(** A recorder that is not being retired. *)
Lemma sound_pc w r rec p :
  sound w → recorders w !! r = Some rec → (∀ c vs t old, r_pc rec ≠ Retire c vs t old) → r_pc rec ≠ Dropped →
  (∀ c vs t old, p ≠ Retire c vs t old) → pc_ok (with_pc p rec) → sound (set_recorder r (with_pc p rec) w).
Proof.
  intros Hs Hr H1 H2 H3 Hpc. apply (sound_move w r rec); try done.
  - unfold holding. cbn. destruct p, (r_pc rec) eqn:E; try done; exfalso; first [by eapply H3|by eapply H1].
  - intros i [_ Hret]. destruct (r_pc rec) eqn:E; try done. by destruct (H1 c versions t old).
Qed.

Lemma same_day_held day w rec : same_day day w rec = true → ∃ i c, held rec = Some i ∧ counters w !! i = Some c ∧ c_day c = day.
Proof.
  unfold same_day. destruct (held rec) as [i|]; cbn; [|done]. destruct (counters w !! i) as [c|] eqn:E; cbn; [|done]. intros ?%Z.eqb_eq. by exists i, c.
Qed.

(** A recorder adds to its counter. *)
Lemma sound_add w r rec p i x x' :
  sound w → recorders w !! r = Some rec → (∀ c vs t old, r_pc rec ≠ Retire c vs t old) → r_pc rec ≠ Dropped →
  (∀ c vs t old, p ≠ Retire c vs t old) → pc_ok (with_pc p rec) → held rec = Some i → counters w !! i = Some x →
  u64 (c_up x') → u64 (c_down x') → sound (set_recorder r (with_pc p rec) (with_counters (<[i:=x']> (counters w)) w)).
Proof.
  intros Hs Hr H1 H2 H3 Hpc Hi Hx Hu Hd.
  assert (holding rec = Some i) as Hh by (unfold holding; destruct (r_pc rec) eqn:E; try done; by destruct (H1 c versions t old)).
  apply sound_pc; try done. apply (sound_counter w i x); try done; [by eapply so_held|].
  intros r0 d Hg _. exfalso. pose proof (so_guard w Hs) as Hgo. unfold guard_ok in Hgo. rewrite Hg in Hgo.
  destruct Hgo as (_ & (rec0 & Hr0 & [Hh0 Hp0]) & _). assert (r0 = r) as -> by (by eapply so_unique).
  rewrite Hr in Hr0. injection Hr0 as <-. destruct (r_pc rec) eqn:E; try done. by destruct (H1 c versions t old).
Qed.

Lemma recorder_sound r w evs w' : sound w → recorder_step r w = Some (evs, w') → sound w'.
Proof.
  intros Hs E. unfold recorder_step in E. destruct (recorders w !! r) as [rec|] eqn:Hr; [|done]. cbn [mbind option_bind] in E.
  pose proof (so_pc w Hs r rec Hr) as Hpc. unfold pc_ok in Hpc. destruct (r_pc rec) as [|c v1|c vs|c vs fields|c vs t|c vs t old|c vs t|c|c|] eqn:Ep; try done.
  - destruct (negb (same_day _ _ _) || _) eqn:Eb; injection E as _ <-.
    + eapply sound_pc; rewrite ?Ep; done.
    + apply orb_false_iff in Eb as [Eb%negb_false_iff _]. apply same_day_held in Eb as (i & x & Hi & _).
      eapply sound_pc; rewrite ?Ep; done.
  - destruct (_ ≫= s_target); injection E as _ <-; eapply sound_pc; rewrite ?Ep; done.
  - case_bool_decide; injection E as _ <-; eapply sound_pc; rewrite ?Ep; done.
  - destruct (same_day _ _ _ && same_target _ _ _) eqn:Eb.
    + injection E as _ <-. apply andb_true_iff in Eb as [Eb _]. apply same_day_held in Eb as (i & x & Hi & _).
      apply (sound_move w r rec); try done; [unfold holding; cbn; by rewrite Ep|].
      intros j [_ Hj]. by rewrite Ep in Hj.
    + destruct (held rec) as [old|] eqn:Eh; injection E as _ <-.
      * apply (sound_move w r rec); try done; [unfold holding; cbn; by rewrite Ep, Eh|]. intros j [Hj _].
        unfold holding in Hj. rewrite Ep, Eh in Hj. by split.
      * eapply sound_pc; rewrite ?Ep; done.
  - destruct (guard w) eqn:Hg; try done. injection E as _ <-. apply sound_guard; [done|]. cbn. split_and!; try done.
    exists rec. split; [done|]. unfold retires, holding. by rewrite Ep.
  - destruct (guard w) eqn:Hg; try done. injection E as _ <-. destruct Hpc as (Hnone & Hu & Hd).
    set (i := fresh (dom (counters w))). assert (counters w !! i = None) as Hi by apply not_elem_of_dom, is_fresh.
    assert (i ∉ registry w) as Hni by (intros Hin; destruct (so_counters w Hs i Hin); congruence).
    set (rec' := {| r_scope := r_scope rec; r_versions := vs; held := Some i; r_pc := AddUp c |}).
    destruct Hs as [S1 S2 S3 S4 S5 S6 S7 S8 S9 S10].
    assert (holding rec = None) as Hold by (unfold holding; by rewrite Ep).
    assert (∀ r0 rec0 j, <[r:=rec']> (recorders w) !! r0 = Some rec0 → holding rec0 = Some j →
      (r0 = r ∧ j = i) ∨ (r0 ≠ r ∧ j ∈ registry w ∧ recorders w !! r0 = Some rec0)) as Hcases.
    { intros r0 rec0 j [[<- <-]|[Hne H0]]%lookup_insert_Some Hj; [left; by injection Hj as <-|right]. split_and!; try done. by eapply S2. }
    split; cbn; try done.
    + apply NoDup_app. split_and!; [done|set_solver|apply NoDup_singleton].
    + intros r0 rec0 j H1 H2. destruct (Hcases _ _ _ H1 H2) as [(_ & ->)|(_ & ? & _)]; set_solver.
    + intros j [Hj| ->%list_elem_of_singleton]%elem_of_app; [|exists r, rec'; by rewrite lookup_insert_eq].
      destruct (S3 j Hj) as (r0 & rec0 & H1 & H2). exists r0, rec0. rewrite lookup_insert_ne; [done|]. intros ->. congruence.
    + intros r0 rec0 r1 rec1 j H1 H2 H3 H4. destruct (Hcases _ _ _ H1 H3) as [(-> & ->)|(? & ? & ?)], (Hcases _ _ _ H2 H4) as [(-> & ?)|(? & ? & ?)]; try done; [congruence|by eapply S4].
    + intros j [Hj| ->%list_elem_of_singleton]%elem_of_app; [|rewrite lookup_insert_eq; by eexists].
      rewrite lookup_insert_ne; [by apply S5|]. intros ->. by apply Hni.
    + intros j x [[<- <-]|[Hne Hj]]%lookup_insert_Some Hout; [done|]. apply (S6 j); [done|]. set_solver.
    + intros j x [[<- <-]|[Hne Hj]]%lookup_insert_Some; [done|by eapply S7].
    + intros r0 rec0 [[<- <-]|[Hne H0]]%lookup_insert_Some; [|by eapply S9]. unfold pc_ok. cbn. split_and!; [by eexists|done|done].
    + unfold guard_ok. cbn. by rewrite Hg.
  - destruct Hpc as ([i Hi] & Hu & Hd). rewrite Hi in E. cbn in E. destruct (counters w !! i) as [x|] eqn:Hx; [|done]. cbn in E. injection E as _ <-.
    destruct (so_u64 w Hs i x Hx). eapply sound_add; rewrite ?Ep; try done. apply Z.mod_pos_bound. lia.
  - destruct Hpc as ([i Hi] & Hd). rewrite Hi in E. cbn in E. destruct (counters w !! i) as [x|] eqn:Hx; [|done]. cbn in E. injection E as _ <-.
    destruct (so_u64 w Hs i x Hx). eapply sound_add; rewrite ?Ep; try done. apply Z.mod_pos_bound. lia.
Qed.

Lemma step_sound w evs w' : sound w → step w evs w' → sound w'.
Proof.
  intros Hs [s Hn|r scope Hn|r c w1 Hu Hd E|r es w1 E|r w1 E|w1 E|w1 E|n t u d now f Hn Hu Hd E|n f next b Hf E|x|s t w1 E].
  - by apply (sound_same w); try done; apply (so_samples w Hs).
  - destruct Hs as [S1 S2 S3 S4 S5 S6 S7 S8 S9 S10]. split; cbn; try done.
    + intros r0 rec0 i [[<- <-]|[Hne H]]%lookup_insert_Some; [done|by eapply S2].
    + intros i Hi. destruct (S3 i Hi) as (r0 & rec0 & H1 & H2). exists r0, rec0. rewrite lookup_insert_ne; [done|]. intros ->. congruence.
    + intros r0 rec0 r1 rec1 i [[<- <-]|[? H0]]%lookup_insert_Some [[<- <-]|[? H1]]%lookup_insert_Some; try done. by eapply S4.
    + intros r0 rec0 [[<- <-]|[Hne H]]%lookup_insert_Some; [done|by eapply S9].
    + unfold guard_ok in *. cbn. destruct (guard w) as [| |r0 i d]; try done. destruct S10 as (? & (rec & H1 & H2) & ?). split_and!; try done.
      exists rec. rewrite lookup_insert_ne; [done|]. intros ->. congruence.
  - unfold record in E. destruct (recorders w !! r) as [rec|] eqn:Hr; [|done]. cbn in E. destruct (r_pc rec) eqn:Ep; try done.
    destruct (_ && _); injection E as <-; [done|]. eapply sound_pc; rewrite ?Ep; done.
  - by eapply recorder_sound.
  - unfold drop_recorder in E. destruct (recorders w !! r) as [rec|] eqn:Hr; [|done]. cbn in E.
    destruct (r_pc rec) eqn:Ep, (held rec) as [i|] eqn:Eh; try done.
    + injection E as <-. apply (sound_move w r rec); try done.
      * unfold holding. cbn. by rewrite Ep, Eh.
      * unfold pc_ok. cbn. rewrite Eh. by eexists.
      * intros j [_ Hj]. by rewrite Ep in Hj.
    + injection E as <-. assert (holding rec = None) as Hh by (unfold holding; by rewrite Ep).
      destruct Hs as [S1 S2 S3 S4 S5 S6 S7 S8 S9 S10]. split; cbn; try done.
      * intros r0 rec0 j [_ H]%lookup_delete_Some. by eapply S2.
      * intros j Hj. destruct (S3 j Hj) as (r0 & rec0 & H1 & H2). exists r0, rec0. rewrite lookup_delete_ne; [done|]. intros ->. congruence.
      * intros r0 rec0 r1 rec1 j [_ H0]%lookup_delete_Some [_ H1]%lookup_delete_Some. by eapply S4.
      * intros r0 rec0 [_ H]%lookup_delete_Some. by eapply S9.
      * unfold guard_ok in *. cbn. destruct (guard w) as [| |r0 j d]; try done. destruct S10 as (? & (rec0 & H1 & H2) & ?). split_and!; try done.
        exists rec0. rewrite lookup_delete_ne; [done|]. intros ->. destruct H2 as [H2 _]. congruence.
    + destruct (guard w) eqn:Hg; try done. injection E as <-. apply sound_guard; [done|]. cbn. split_and!; try done.
      exists rec. split; [done|]. unfold retires, holding. by rewrite Ep.
  - unfold merge_pending in E. destruct (guard w) eqn:Hg; try done. injection E as <-. apply sound_guard; [done|]. cbn. by split.
  - by eapply guard_sound.
  - apply (sound_same w); try done. intros m g. cbn. intros [[<- <-]|[? H]]%lookup_insert_Some; [|by eapply so_samples].
    unfold record_target in E. destruct (_ && _); [done|]. injection E as <-. done.
  - apply (sound_same w); try done. intros m g. cbn. pose proof (flight_step_ok f (books w) (so_samples w Hs n f Hf)) as Hok. rewrite E in Hok.
    destruct next as [f'|]; [intros [[<- <-]|[? H]]%lookup_insert_Some; [done|]|intros [? H]%lookup_delete_Some]; by eapply so_samples.
  - by apply (sound_same w); try done; apply (so_samples w Hs).
  - unfold note_traffic in E. destruct (scopes w !! s); [|done]. injection E as <-. by apply (sound_same w); try done; apply (so_samples w Hs).
Qed.

Lemma reach_sound b trace w : reach b trace w → sound w.
Proof.
  induction 1 as [|trace w evs w' _ IH Hstep]; [|by eapply step_sound].
  split; cbn; try constructor; intros *; rewrite ?lookup_empty; done || set_solver.
Qed.

(** ** Accounts *)
(** A place of the books where bytes of some targets and months end up, and the section
    of [record_parts_in_month] that puts them there. *)
Record Account := { owns : TrafficTarget → bytes → bool; credited : nat; value : Books → TrafficCounters }.

Class AccountLaws (a : Account) := {
  account_credited : (credited a <= 2)%nat;
  account_step f b :
    value a (flight_step f b).2 =
      if bool_decide (Nat.min (f_stage f) 2 = credited a) && owns a (f_target f) (f_month f)
      then add_counters (f_up f) (f_down f) (value a b) else value a b;
}.

Definition session_account (k : str) : Account :=
  {| owns t _ := bool_decide (known_id (id t) = k); credited := 0;
     value b := default no_traffic (se_counters <$> session b !! k) |}.
Definition month_account (k : str) (m : bytes) : Account :=
  {| owns t month := bool_decide (known_id (id t) = k) && bool_decide (month = m); credited := 1;
     value b := default no_traffic (history b !! k ≫= λ h, months h !! m) |}.
Definition subscription_account (k : str) (m : bytes) : Account :=
  {| owns t month := bool_decide (non_empty (subscription_id t) = Some k) && bool_decide (month = m); credited := 2;
     value b := default no_traffic (subscriptions b !! k ≫= λ h, months h !! m) |}.

Lemma month_bucket (h : gmap str NodeHistory) i k (month m : bytes) u d n base :
  base = default ∅ (months <$> h !! i) →
  default no_traffic (<[i := add_month month u d {| nh_name := n; months := base |}]> h !! k ≫= λ x, months x !! m) =
    if bool_decide (i = k) && bool_decide (month = m) then add_counters u d (default no_traffic (h !! k ≫= λ x, months x !! m))
    else default no_traffic (h !! k ≫= λ x, months x !! m).
Proof.
  intros ->. destruct (decide (i = k)) as [->|Hi].
  - rewrite lookup_insert_eq, (bool_decide_eq_true_2 (k = k)) by done. cbn. destruct (decide (month = m)) as [->|Hm].
    + rewrite lookup_insert_eq, (bool_decide_eq_true_2 (m = m)) by done. cbn. by destruct (h !! k).
    + rewrite lookup_insert_ne, (bool_decide_eq_false_2 (month = m)) by done. by destruct (h !! k).
  - rewrite lookup_insert_ne, (bool_decide_eq_false_2 (i = k)) by done. done.
Qed.

#[export] Instance session_account_laws k : AccountLaws (session_account k).
Proof.
  split; [cbn; lia|]. intros f b. unfold flight_step. destruct (f_stage f) as [|[|[|n]]]; cbn -[record_session]; try done.
  - change (bool_decide (0%nat = 0%nat)) with true. unfold record_session. cbn. destruct (decide (known_id (id (f_target f)) = k)) as [->|Hne].
    + rewrite lookup_insert_eq, bool_decide_eq_true_2 by done. cbn. by destruct (session b !! k).
    + by rewrite lookup_insert_ne, bool_decide_eq_false_2.
  - unfold record_subscription. by destruct (non_empty _).
  - unfold record_subscription. by destruct (non_empty _).
Qed.

#[export] Instance month_account_laws k m : AccountLaws (month_account k m).
Proof.
  split; [cbn; lia|]. intros f b. unfold flight_step. destruct (f_stage f) as [|[|[|n]]]; cbn -[record_history]; try done.
  - change (bool_decide (1%nat = 1%nat)) with true. cbn [andb]. unfold record_history. cbn [history]. apply month_bucket. by destruct (history b !! _).
  - unfold record_subscription. by destruct (non_empty _).
  - unfold record_subscription. by destruct (non_empty _).
Qed.

#[export] Instance subscription_account_laws k m : AccountLaws (subscription_account k m).
Proof.
  split; [cbn; lia|].
  assert (∀ t u d month b, default no_traffic (subscriptions (record_subscription t u d month b) !! k ≫= λ x, months x !! m) =
    if bool_decide (non_empty (subscription_id t) = Some k) && bool_decide (month = m)
    then add_counters u d (default no_traffic (subscriptions b !! k ≫= λ x, months x !! m)) else default no_traffic (subscriptions b !! k ≫= λ x, months x !! m)) as Hsub.
  { intros t u d month b. unfold record_subscription. destruct (non_empty (subscription_id t)) as [i|]; cbn [subscriptions]; [|done].
    assert (bool_decide (Some i = Some k) = bool_decide (i = k)) as -> by (apply bool_decide_ext; naive_solver).
    apply month_bucket. by destruct (subscriptions b !! i). }
  intros f b. unfold flight_step. destruct (f_stage f) as [|[|[|n]]]; cbn -[record_subscription]; try done; change (bool_decide (2%nat = 2%nat)) with true; cbn [andb]; apply Hsub.
Qed.

(** ** Conservation *)
Section conservation.
Context (a : Account) {L : AccountLaws a} (side : bool).

Definition pick (u d : Z) : Z := if side then u else d.
Definition balance (b : Books) : Z := if side then up (value a b) else down (value a b).
Definition counter_amount (c : Counter) : Z := if owns a (c_target c) (month_of_day (c_day c)) then pick (c_up c) (c_down c) else 0.
Definition flight_amount (f : Flight) : Z :=
  if owns a (f_target f) (f_month f) && (Nat.min (f_stage f) 2 <=? credited a)%nat then pick (f_up f) (f_down f) else 0.
Definition drain_amount (i : nat) (d : drain) (m : gmap nat Counter) : Z :=
  match d with
  | SwapDown u => match m !! i with Some c => if owns a (c_target c) (month_of_day (c_day c)) then pick u 0 else 0 | None => 0 end
  | Flying f => flight_amount f
  | _ => 0
  end.
Definition guard_amount (w : World) : Z :=
  match guard w with Merging _ (Some (i, d)) _ | Retiring _ i d => drain_amount i d (counters w) | _ => 0 end.

(** Bytes that are recorded and not in the books yet. *)
Definition unmerged (w : World) : Z := guard_amount w + sum_by counter_amount (counters w) + sum_by flight_amount (samples w).
Definition event_amount (e : Event) : Z := if owns a (e_target e) (e_month e) then pick (e_up e) (e_down e) else 0.
Definition recorded (trace : list Event) : Z := foldr (λ e acc, event_amount e + acc) 0 trace.
Definition total_of (w : World) : Z := balance (books w) + unmerged w.

Lemma recorded_app t1 t2 : recorded (t1 ++ t2) = recorded t1 + recorded t2.
Proof. unfold recorded. induction t1 as [|e t1 IH]; cbn [app foldr]; [done|]. rewrite IH. lia. Qed.

Lemma pick_nonneg u d : 0 <= u → 0 <= d → 0 <= pick u d.
Proof. unfold pick. by destruct side. Qed.

Lemma counter_amount_nonneg w i c : sound w → counters w !! i = Some c → 0 <= counter_amount c.
Proof. intros Hs Hc. destruct (so_u64 w Hs i c Hc) as [[? _] [? _]]. unfold counter_amount. case_match; [by apply pick_nonneg|done]. Qed.

Lemma flight_amount_nonneg f : flight_ok f → 0 <= flight_amount f.
Proof. intros [[? _] [? _]]. unfold flight_amount. case_match; [by apply pick_nonneg|done]. Qed.

Lemma drain_amount_nonneg i d m : drain_ok d → 0 <= drain_amount i d m.
Proof.
  destruct d as [|u|f|]; cbn; try done; [|apply flight_amount_nonneg]. intros [? _]. destruct (m !! i); [|done]. case_match; [by apply pick_nonneg|done].
Qed.

Lemma guard_amount_nonneg w : sound w → 0 <= guard_amount w.
Proof.
  intros Hs. pose proof (so_guard w Hs) as Hg. unfold guard_ok in Hg. unfold guard_amount.
  destruct (guard w) as [|kept [[i d]|] todo|r i d]; try done; apply drain_amount_nonneg; apply Hg.
Qed.

Lemma counters_nonneg w : sound w → 0 <= sum_by counter_amount (counters w).
Proof. intros Hs. apply sum_by_nonneg. intros i c. by apply counter_amount_nonneg. Qed.
Lemma samples_nonneg w : sound w → 0 <= sum_by flight_amount (samples w).
Proof. intros Hs. apply sum_by_nonneg. intros i f Hf. by apply flight_amount_nonneg, (so_samples w Hs i). Qed.

(** A section of the books takes what it is to take. *)
Lemma flight_moves f b :
  flight_ok f → 0 <= balance b → balance b + flight_amount f <= U64_MAX →
  balance (flight_step f b).2 + match (flight_step f b).1 with Some f' => flight_amount f' | None => 0 end = balance b + flight_amount f
  ∧ balance b <= balance (flight_step f b).2.
Proof.
  intros [[Hu _] [Hd _]] Hb Hmax. pose proof (account_step (a := a) f b) as Hstep. pose proof (account_credited (a := a)) as Hcr.
  assert (match (flight_step f b).1 with Some f' => flight_amount f' | None => 0 end =
    if owns a (f_target f) (f_month f) && (S (Nat.min (f_stage f) 2) <=? credited a)%nat then pick (f_up f) (f_down f) else 0) as ->.
  { unfold flight_step, flight_amount. destruct (f_stage f) as [|[|n]]; cbn [fst f_target f_month f_up f_down f_stage]; [done|done|].
    replace (S (Nat.min (S (S n)) 2) <=? credited a)%nat with false; [by rewrite andb_false_r|]. symmetry. apply Nat.leb_gt. lia. }
  unfold flight_amount in *. unfold balance in *. rewrite Hstep. destruct (owns a (f_target f) (f_month f)); cbn [andb] in *; rewrite ?andb_true_r, ?andb_false_r; [|lia].
  pose proof (pick_nonneg _ _ Hu Hd) as Hp. case_bool_decide as Hc.
  - rewrite Hc, Nat.leb_refl in Hmax |- *. replace (S (credited a) <=? credited a)%nat with false by (symmetry; apply Nat.leb_gt; lia).
    unfold add_counters, sat_add, pick in *. destruct side; cbn [up down]; rewrite Z.min_l by lia; lia.
  - split; [|done]. destruct (Nat.leb_spec (Nat.min (f_stage f) 2) (credited a)).
    + by replace (S (Nat.min (f_stage f) 2) <=? credited a)%nat with true by (symmetry; apply Nat.leb_le; lia).
    + by replace (S (Nat.min (f_stage f) 2) <=? credited a)%nat with false by (symmetry; apply Nat.leb_gt; lia).
Qed.

(** Draining moves bytes from a counter through the hand into the books. *)
Lemma drain_moves i d d' w w' :
  sound w → drain_ok d → 0 <= balance (books w) → balance (books w) + drain_amount i d (counters w) <= U64_MAX →
  drain_step i d w = Some (d', w') →
  balance (books w') + drain_amount i d' (counters w') + sum_by counter_amount (counters w')
    = balance (books w) + drain_amount i d (counters w) + sum_by counter_amount (counters w)
  ∧ samples w' = samples w ∧ balance (books w) <= balance (books w').
Proof.
  intros Hs Hd Hb Hmax E. destruct d as [|u|f|]; cbn [drain_step] in E; [| | |done].
  - destruct (counters w !! i) as [c|] eqn:Hc; [|done]. injection E as <- <-. cbn [books with_counters counters samples drain_amount].
    rewrite lookup_insert_eq, (sum_by_update _ _ _ _ _ Hc). cbn [c_target c_day c_up c_down]. split_and!; try done.
    unfold counter_amount. cbn [c_target c_day c_up c_down]. unfold pick. destruct (owns _ _ _), side; lia.
  - destruct (counters w !! i) as [c|] eqn:Hc; [|done]. injection E as <- <-. cbn [books with_counters counters samples drain_amount].
    rewrite Hc, (sum_by_update _ _ _ _ _ Hc). split_and!; try done. unfold counter_amount. cbn [c_target c_day c_up c_down].
    destruct (Z.eqb_spec u 0) as [->|], (Z.eqb_spec (c_down c) 0) as [E0|]; cbn [andb drain_amount]; unfold flight_amount; cbn [f_target f_month f_up f_down f_stage];
      unfold pick; rewrite ?E0; destruct (owns _ _ _), side; cbn [andb Nat.min Nat.leb]; lia.
  - pose proof (flight_moves f (books w) Hd Hb Hmax) as [Hm Hmono]. destruct (flight_step f (books w)) as [next b]. injection E as <- <-.
    cbn [books with_books counters samples drain_amount fst snd] in *. split_and!; try done. destruct next; cbn [drain_amount]; lia.
Qed.

Lemma total_same w w' :
  books w' = books w → counters w' = counters w → guard_amount w' = guard_amount w → samples w' = samples w → total_of w' = total_of w.
Proof. intros E1 E2 E3 E4. unfold total_of, unmerged. by rewrite E1, E2, E3, E4. Qed.

Lemma guard_amount_set g w : guard_amount (with_guard g w) = match g with Merging _ (Some (i, d)) _ | Retiring _ i d => drain_amount i d (counters w) | _ => 0 end.
Proof. done. Qed.

Lemma guard_moves w w' :
  sound w → 0 <= balance (books w) → total_of w <= U64_MAX → guard_step w = Some w' →
  total_of w' = total_of w ∧ balance (books w) <= balance (books w').
Proof.
  intros Hs Hb Hmax E. pose proof (so_guard w Hs) as Hg. unfold guard_ok in Hg. unfold guard_step in E.
  pose proof (counters_nonneg w Hs). pose proof (samples_nonneg w Hs).
  assert (∀ mk i d, drain_ok d → (∀ w d, guard_amount (with_guard (mk d) w) = drain_amount i d (counters w)) → guard w = mk d →
    ∀ d' w1, drain_step i d w = Some (d', w1) → total_of (with_guard (mk d') w1) = total_of w ∧ balance (books w) <= balance (books w1)) as Hdrain.
  { intros mk i d Hd Hmk Hgd d' w1 Ed. assert (guard_amount w = drain_amount i d (counters w)) as Hga.
    { specialize (Hmk w d). unfold guard_amount in *. cbn in Hmk. by rewrite Hgd. }
    unfold total_of, unmerged in Hmax. rewrite Hga in Hmax.
    destruct (drain_moves i d d' w w1 Hs Hd Hb ltac:(lia) Ed) as (Hm & Hsm & Hmono). split; [|done].
    unfold total_of, unmerged. rewrite Hmk, Hga. cbn [books with_guard counters samples]. rewrite Hsm. lia. }
  destruct (guard w) as [|kept [[i d]|] todo|r i d] eqn:Hgw; [done| | |].
  - destruct Hg as [_ Hd]. destruct d as [|u|f|].
    1-3: destruct (drain_step i _ w) as [[d' w1]|] eqn:Ed; [|done]; injection E as <-;
      apply (Hdrain (λ d, Merging kept (Some (i, d)) todo) i _ Hd ltac:(done) eq_refl _ _ Ed).
    injection E as <-. split; [|done]. apply total_same; try done. unfold guard_amount. cbn. by rewrite Hgw.
  - destruct todo as [|i todo]; injection E as <-; (split; [|done]); apply total_same; try done; unfold guard_amount; cbn; by rewrite Hgw.
  - destruct Hg as (Hd & (rec & Hr & _) & _). destruct d as [|u|f|].
    1-3: destruct (drain_step i _ w) as [[d' w1]|] eqn:Ed; [|done]; injection E as <-;
      apply (Hdrain (Retiring r i) i _ Hd ltac:(done) eq_refl _ _ Ed).
    rewrite Hr in E. injection E as <-. split; [|done]. apply total_same; try done. unfold guard_amount. cbn. by rewrite Hgw.
Qed.

(** A recorder adds bytes to its counter, and to the account that owns it. *)
Lemma add_moves w r rec p i x x' :
  sound w → counters w !! i = Some x → c_target x' = c_target x → c_day x' = c_day x →
  total_of (set_recorder r (with_pc p rec) (with_counters (<[i:=x']> (counters w)) w)) = total_of w - counter_amount x + counter_amount x'.
Proof.
  intros Hs Hx Ht Hday. unfold total_of, unmerged. cbn [books set_recorder with_recorders with_counters counters samples].
  rewrite (sum_by_update _ _ _ _ _ Hx).
  assert (guard_amount (set_recorder r (with_pc p rec) (with_counters (<[i:=x']> (counters w)) w)) = guard_amount w) as ->; [|lia].
  unfold guard_amount. cbn [guard set_recorder with_recorders with_counters counters].
  assert (∀ j d, drain_amount j d (<[i:=x']> (counters w)) = drain_amount j d (counters w)) as Hda.
  { intros j [|u|f|]; try done. cbn. destruct (decide (j = i)) as [->|Hne]; [by rewrite lookup_insert_eq, Hx, Ht, Hday|by rewrite lookup_insert_ne]. }
  destruct (guard w) as [|? [[j d]|] ?|? j d]; try done; apply Hda.
Qed.

Lemma recorder_moves w r evs w' :
  sound w → 0 <= balance (books w) → total_of w + recorded evs <= U64_MAX → recorder_step r w = Some (evs, w') →
  total_of w' = total_of w + recorded evs ∧ balance (books w') = balance (books w).
Proof.
  intros Hs Hb Hmax E. unfold recorder_step in E. destruct (recorders w !! r) as [rec|] eqn:Hr; [|done]. cbn [mbind option_bind] in E.
  pose proof (so_pc w Hs r rec Hr) as Hpc. unfold pc_ok in Hpc. pose proof (guard_amount_nonneg w Hs). pose proof (samples_nonneg w Hs).
  assert (∀ rec', total_of (set_recorder r rec' w) = total_of w) as Hpcs by (intros; by apply total_same).
  destruct (r_pc rec) as [|c v1|c vs|c vs fields|c vs t|c vs t old|c vs t|c|c|]; try done.
  - destruct (_ || _); injection E as <- <-; rewrite Hpcs; (split; [cbn; lia|done]).
  - destruct (_ ≫= s_target); injection E as <- <-; rewrite Hpcs; (split; [cbn; lia|done]).
  - case_bool_decide; injection E as <- <-; rewrite Hpcs; (split; [cbn; lia|done]).
  - destruct (_ && _); [|destruct (held rec)]; injection E as <- <-; rewrite Hpcs; (split; [cbn; lia|done]).
  - destruct (guard w) eqn:Hg; try done. injection E as <- <-. split; [|done]. rewrite Z.add_0_r. apply total_same; try done.
    unfold guard_amount. cbn. by rewrite Hg.
  - destruct (guard w) eqn:Hg; try done. injection E as <- <-. split; [|done]. rewrite Z.add_0_r. unfold total_of, unmerged.
    cbn [books set_recorder with_recorders with_registry with_counters counters samples]. set (i := fresh _).
    rewrite sum_by_insert by apply not_elem_of_dom, is_fresh. unfold guard_amount. cbn. rewrite Hg. unfold counter_amount at 1. cbn.
    unfold pick. destruct (owns _ _ _), side; lia.
  - destruct Hpc as ([i Hi] & [Hu _] & _). rewrite Hi in E. cbn in E. destruct (counters w !! i) as [x|] eqn:Hx; [|done]. injection E as <- <-. split; [|done].
    rewrite (add_moves w r rec _ i x) by done. unfold recorded in *. cbn [foldr] in *. unfold event_amount in *. cbn [e_target e_month e_up e_down] in *.
    destruct (so_u64 w Hs i x Hx) as [[Hxu _] [Hxd _]]. pose proof (sum_by_member counter_amount (counters w) i x (λ i c, counter_amount_nonneg w i c Hs) Hx) as Hmem.
    unfold total_of, unmerged in *. unfold counter_amount in *. cbn [c_target c_day c_up c_down] in *. destruct (owns _ _ _); [|lia].
    unfold pick in *. destruct side; [|lia]. unfold U64_MAX in Hmax. rewrite Z.mod_small by lia. lia.
  - destruct Hpc as ([i Hi] & [Hd _]). rewrite Hi in E. cbn in E. destruct (counters w !! i) as [x|] eqn:Hx; [|done]. injection E as <- <-. split; [|done].
    rewrite (add_moves w r rec _ i x) by done. unfold recorded in *. cbn [foldr] in *. unfold event_amount in *. cbn [e_target e_month e_up e_down] in *.
    destruct (so_u64 w Hs i x Hx) as [[Hxu _] [Hxd _]]. pose proof (sum_by_member counter_amount (counters w) i x (λ i c, counter_amount_nonneg w i c Hs) Hx) as Hmem.
    unfold total_of, unmerged in *. unfold counter_amount in *. cbn [c_target c_day c_up c_down] in *. destruct (owns _ _ _); [|lia].
    unfold pick in *. destruct side; [lia|]. unfold U64_MAX in Hmax. rewrite Z.mod_small by lia. lia.
Qed.

Lemma step_moves w evs w' :
  sound w → 0 <= balance (books w) → total_of w + recorded evs <= U64_MAX → step w evs w' →
  total_of w' = total_of w + recorded evs ∧ balance (books w) <= balance (books w').
Proof.
  intros Hs Hb Hmax Hstep. destruct Hstep as [s Hn|r scope Hn|r c w1 Hu Hd E|r es w1 E|r w1 E|w1 E|w1 E|n t u d now f Hn [Hu _] [Hd _] E|n f next b Hf E|x|s t w1 E].
  - split; [|done]. rewrite Z.add_0_r. by apply total_same.
  - split; [|done]. rewrite Z.add_0_r. by apply total_same.
  - unfold record in E. destruct (recorders w !! r) as [rec|]; [|done]. cbn in E. destruct (r_pc rec); try done.
    destruct (_ && _); injection E as <-; (split; [|done]); rewrite Z.add_0_r; by apply total_same.
  - destruct (recorder_moves w r es w1 Hs Hb Hmax E) as [-> ->]. done.
  - unfold drop_recorder in E. destruct (recorders w !! r) as [rec|]; [|done]. cbn in E.
    destruct (r_pc rec), (held rec); try done; [injection E as <-..|]; try (split; [|done]; rewrite Z.add_0_r; by apply total_same).
    destruct (guard w) eqn:Hg; try done. injection E as <-. split; [|done]. rewrite Z.add_0_r. apply total_same; try done. unfold guard_amount. cbn. by rewrite Hg.
  - unfold merge_pending in E. destruct (guard w) eqn:Hg; try done. injection E as <-. split; [|done]. rewrite Z.add_0_r.
    apply total_same; try done. unfold guard_amount. cbn. by rewrite Hg.
  - rewrite Z.add_0_r in *. by apply guard_moves.
  - split; [|done]. unfold record_target in E. destruct (_ && _); [done|]. injection E as <-. unfold total_of, unmerged, recorded.
    cbn [books with_samples counters samples foldr]. rewrite sum_by_insert by done. assert (guard_amount (with_samples _ w) = guard_amount w) as -> by done.
    unfold flight_amount at 1, event_amount. cbn. rewrite andb_true_r. lia.
  - assert (flight_ok f) as Hok by (by eapply so_samples). pose proof (guard_amount_nonneg w Hs). pose proof (counters_nonneg w Hs).
    pose proof (sum_by_member flight_amount (samples w) n f (λ n f H, flight_amount_nonneg f (so_samples w Hs n f H)) Hf) as Hmem.
    assert (balance (books w) + flight_amount f <= U64_MAX) as Hroom by (unfold total_of, unmerged in Hmax; cbn in Hmax; lia).
    pose proof (flight_moves f (books w) Hok Hb Hroom) as [Hm Hmono]. rewrite E in Hm, Hmono. cbn [fst snd] in *. split; [|done].
    unfold total_of, unmerged. cbn [books with_samples with_books counters samples recorded foldr].
    assert (guard_amount (with_samples (match next with Some f0 => <[n:=f0]> (samples w) | None => delete n (samples w) end) (with_books b w)) = guard_amount w) as -> by done.
    destruct next as [f'|]; [rewrite (sum_by_update _ _ _ _ _ Hf)|rewrite (sum_by_delete _ _ _ _ Hf)]; lia.
  - split; [|done]. rewrite Z.add_0_r. by apply total_same.
  - unfold note_traffic in E. destruct (scopes w !! s); [|done]. injection E as <-. split; [|done]. rewrite Z.add_0_r. by apply total_same.
Qed.

Lemma step_records w evs w' : sound w → step w evs w' → 0 <= recorded evs.
Proof.
  intros Hs Hstep. assert (∀ t m u d, 0 <= u → 0 <= d → 0 <= recorded [{| e_target := t; e_month := m; e_up := u; e_down := d |}]) as Hone.
  { intros t m u d Hu Hd. unfold recorded, event_amount. cbn. pose proof (pick_nonneg u d Hu Hd). case_match; lia. }
  destruct Hstep as [s Hn|r scope Hn|r c w1 Hu Hd E|r es w1 E|r w1 E|w1 E|w1 E|n t u d now f Hn [Hu _] [Hd _] E|n f next b Hf E|x|s t w1 E]; try done; [|by apply Hone].
  unfold recorder_step in E. destruct (recorders w !! r) as [rec|] eqn:Hr; [|done]. cbn [mbind option_bind] in E.
  pose proof (so_pc w Hs r rec Hr) as Hpc. unfold pc_ok in Hpc. destruct (r_pc rec) as [|c v1|c vs|c vs fields|c vs t|c vs t old|c vs t|c|c|]; try done.
  - destruct (_ || _); by injection E as <- _.
  - destruct (_ ≫= s_target); by injection E as <- _.
  - case_bool_decide; by injection E as <- _.
  - destruct (_ && _); [|destruct (held rec)]; by injection E as <- _.
  - destruct (guard w); try done; by injection E as <- _.
  - destruct (guard w); try done; by injection E as <- _.
  - destruct Hpc as (_ & [Hu _] & _). destruct (held rec) as [i|]; [|done]. cbn in E. destruct (counters w !! i); [|done]. injection E as <- _. by apply Hone.
  - destruct Hpc as (_ & [Hd _]). destruct (held rec) as [i|]; [|done]. cbn in E. destruct (counters w !! i); [|done]. injection E as <- _. by apply Hone.
Qed.

Lemma reach_total b trace w :
  reach b trace w → 0 <= balance b → balance b + recorded trace <= U64_MAX → total_of w = balance b + recorded trace ∧ 0 <= balance (books w).
Proof.
  intros Hr Hb. induction Hr as [|trace w evs w' Hr IH Hstep]; intros Hmax.
  - split; [|done]. unfold total_of, unmerged, guard_amount. cbn. rewrite !sum_by_empty. lia.
  - rewrite recorded_app in *. pose proof (reach_sound _ _ _ Hr) as Hs. pose proof (step_records _ _ _ Hs Hstep).
    destruct IH as [Ht Hb']; [lia|]. destruct (step_moves w evs w' Hs Hb' ltac:(lia) Hstep) as [-> Hmono]. lia.
Qed.

(** ** One merge *)
(** What a drained counter still has to give. *)
Definition left_of (d : drain) (c : Counter) : Z :=
  match d with
  | SwapUp => counter_amount c
  | SwapDown u => if owns a (c_target c) (month_of_day (c_day c)) then pick u (c_down c) else 0
  | Flying f => flight_amount f
  | Drained => 0
  end.

Definition merge_left (w : World) : Z :=
  match guard w with
  | Merging _ now todo =>
      match now with Some (i, d) => default 0 (left_of d <$> counters w !! i) | None => 0 end + sum_of counter_amount (counters w) todo
  | _ => 0
  end.

Lemma sum_of_mono (m m' : gmap nat Counter) l :
  (∀ i c, m !! i = Some c → ∃ c', m' !! i = Some c' ∧ counter_amount c <= counter_amount c') → (∀ i, i ∈ l → is_Some (m !! i)) →
  sum_of counter_amount m l <= sum_of counter_amount m' l.
Proof.
  intros Hm. unfold sum_of. induction l as [|i l IH]; intros Hl; cbn [foldr]; [done|]. destruct (Hl i ltac:(set_solver)) as [c Hc].
  destruct (Hm i c Hc) as (c' & Hc' & Hle). rewrite Hc, Hc'. cbn. assert (∀ j, j ∈ l → is_Some (m !! j)) as Hl' by set_solver. specialize (IH Hl'). lia.
Qed.

Lemma sum_of_other (m : gmap nat Counter) i c l : i ∉ l → sum_of counter_amount (<[i:=c]> m) l = sum_of counter_amount m l.
Proof.
  unfold sum_of. induction l as [|j l IH]; [done|]. intros [Hne Hl]%not_elem_of_cons. cbn [foldr]. by rewrite IH, lookup_insert_ne.
Qed.

(** A counter whose atomics only grew. *)
Definition grew (c c' : Counter) : Prop :=
  c_target c' = c_target c ∧ c_day c' = c_day c ∧
  (owns a (c_target c) (month_of_day (c_day c)) = true → if side then c_up c <= c_up c' else c_down c <= c_down c').

Lemma grew_left d c c' : grew c c' → left_of d c <= left_of d c'.
Proof.
  intros (Ht & Hd & Hle). unfold left_of, counter_amount. rewrite Ht, Hd. destruct d; try done;
    (destruct (owns a (c_target c) (month_of_day (c_day c))); [specialize (Hle eq_refl); unfold pick; destruct side; lia|done]).
Qed.

Lemma merge_left_mono w w' :
  sound w → guard w' = guard w → (∀ i c, counters w !! i = Some c → ∃ c', counters w' !! i = Some c' ∧ grew c c') → merge_left w <= merge_left w'.
Proof.
  intros Hs Hg Hm. unfold merge_left. rewrite Hg. pose proof (so_guard w Hs) as Hok. unfold guard_ok in Hok.
  destruct (guard w) as [|kept now todo|r i d]; try done. destruct Hok as [Hreg _].
  assert (sum_of counter_amount (counters w) todo <= sum_of counter_amount (counters w') todo) as Hsum.
  { apply sum_of_mono; [|intros i Hi; apply (so_counters w Hs); rewrite Hreg; set_solver].
    intros i c Hc. destruct (Hm i c Hc) as (c' & Hc' & Hgrew). exists c'. split; [done|]. by apply (grew_left SwapUp). }
  destruct now as [[i d]|]; [|lia]. destruct (so_counters w Hs i ltac:(rewrite Hreg; set_solver)) as [c Hc].
  destruct (Hm i c Hc) as (c' & Hc' & Hgrew). rewrite Hc, Hc'. cbn. pose proof (grew_left d c c' Hgrew). lia.
Qed.

Lemma grew_refl c : grew c c.
Proof. split_and!; try done. by destruct side. Qed.

Lemma guard_merges w w' kept now todo :
  sound w → guard w = Merging kept now todo → 0 <= balance (books w) → total_of w <= U64_MAX → guard_step w = Some w' →
  balance (books w) + merge_left w <= balance (books w') + merge_left w'.
Proof.
  intros Hs Hg Hb Hmax E. pose proof (so_guard w Hs) as Hok. unfold guard_ok in Hok. rewrite Hg in Hok. destruct Hok as [Hreg Hd].
  pose proof (counters_nonneg w Hs). pose proof (samples_nonneg w Hs). unfold guard_step in E. rewrite Hg in E. unfold merge_left at 1. rewrite Hg.
  destruct now as [[i d]|].
  - destruct (so_counters w Hs i ltac:(rewrite Hreg; set_solver)) as [c Hc]. rewrite Hc. cbn [fmap option_fmap option_map default from_option id].
    assert (i ∉ todo) as Hi.
    { pose proof (so_nodup w Hs) as Hnd. rewrite Hreg in Hnd. apply NoDup_app in Hnd as (_ & _ & Hnd). apply NoDup_cons in Hnd as [Hnd _]. done. }
    destruct d as [|u|f|]; cbn [drain_step] in E.
    + rewrite Hc in E. injection E as <-. unfold merge_left. cbn [guard with_guard counters with_counters books]. rewrite lookup_insert_eq, sum_of_other by done. done.
    + rewrite Hc in E. injection E as <-. unfold merge_left. cbn [guard with_guard counters with_counters books]. rewrite lookup_insert_eq, sum_of_other by done.
      cbn [fmap option_fmap option_map default from_option id]. unfold left_of, flight_amount.
      destruct (Z.eqb_spec u 0) as [->|], (Z.eqb_spec (c_down c) 0) as [E0|]; cbn [andb f_target f_month f_up f_down f_stage Nat.min Nat.leb];
        unfold pick; rewrite ?E0, ?andb_true_r; destruct (owns _ _ _), side; lia.
    + assert (balance (books w) + flight_amount f <= U64_MAX) as Hroom.
      { unfold total_of, unmerged, guard_amount in Hmax. rewrite Hg in Hmax. cbn [drain_amount] in Hmax. lia. }
      pose proof (flight_moves f (books w) Hd Hb Hroom) as [Hm _]. destruct (flight_step f (books w)) as [next b]. injection E as <-.
      unfold merge_left. cbn [guard with_guard counters with_books books fst snd] in *. rewrite Hc. cbn. destruct next; cbn [left_of]; lia.
    + injection E as <-. unfold merge_left. cbn. lia.
  - destruct todo as [|i todo]; injection E as <-; unfold merge_left; cbn [guard with_guard counters books with_registry sum_of foldr]; [lia|].
    change (left_of SwapUp) with counter_amount. unfold sum_of. lia.
Qed.

Lemma recorder_grows w r evs w' :
  sound w → 0 <= balance (books w) → total_of w + recorded evs <= U64_MAX → guard w ≠ Free → recorder_step r w = Some (evs, w') →
  guard w' = guard w ∧ ∀ i c, counters w !! i = Some c → ∃ c', counters w' !! i = Some c' ∧ grew c c'.
Proof.
  intros Hs Hb Hmax Hg E. unfold recorder_step in E. destruct (recorders w !! r) as [rec|] eqn:Hr; [|done]. cbn [mbind option_bind] in E.
  pose proof (so_pc w Hs r rec Hr) as Hpc. unfold pc_ok in Hpc. pose proof (guard_amount_nonneg w Hs). pose proof (samples_nonneg w Hs).
  assert (∀ i c, counters w !! i = Some c → ∃ c', counters w !! i = Some c' ∧ grew c c') as Hsame by (intros i c Hc; exists c; split; [done|apply grew_refl]).
  assert (∀ i x x', counters w !! i = Some x → grew x x' →
    ∀ j c, counters w !! j = Some c → ∃ c', <[i:=x']> (counters w) !! j = Some c' ∧ grew c c') as Hadd.
  { intros i x x' Hx Hgrew j c Hc. destruct (decide (j = i)) as [->|Hne]; [rewrite lookup_insert_eq; exists x'; split; [done|congruence]|].
    rewrite lookup_insert_ne by done. by apply Hsame. }
  destruct (r_pc rec) as [|c v1|c vs|c vs fields|c vs t|c vs t old|c vs t|c|c|]; try done.
  - destruct (_ || _); by injection E as _ <-.
  - destruct (_ ≫= s_target); by injection E as _ <-.
  - case_bool_decide; by injection E as _ <-.
  - destruct (_ && _); [|destruct (held rec)]; by injection E as _ <-.
  - by destruct (guard w).
  - by destruct (guard w).
  - destruct Hpc as ([i Hi] & [Hu _] & _). rewrite Hi in E. cbn in E. destruct (counters w !! i) as [x|] eqn:Hx; [|done]. injection E as <- <-. split; [done|].
    cbn [counters set_recorder with_recorders with_counters]. apply (Hadd i x); [done|]. split_and!; try done. cbn. intros Hown. destruct side eqn:Eside; [|lia].
    destruct (so_u64 w Hs i x Hx) as [[Hxu _] _]. pose proof (sum_by_member counter_amount (counters w) i x (λ i c, counter_amount_nonneg w i c Hs) Hx) as Hmem.
    unfold total_of, unmerged, recorded, event_amount in Hmax. cbn in Hmax. assert (counter_amount x = c_up x) as E1 by (unfold counter_amount, pick; by rewrite Hown, Eside).
    rewrite Hown in Hmax. unfold pick in Hmax. rewrite Eside in Hmax.
    rewrite Z.mod_small; unfold U64_MAX in Hmax; lia.
  - destruct Hpc as ([i Hi] & [Hd _]). rewrite Hi in E. cbn in E. destruct (counters w !! i) as [x|] eqn:Hx; [|done]. injection E as <- <-. split; [done|].
    cbn [counters set_recorder with_recorders with_counters]. apply (Hadd i x); [done|]. split_and!; try done. cbn. intros Hown. destruct side eqn:Eside; [lia|].
    destruct (so_u64 w Hs i x Hx) as [_ [Hxd _]]. pose proof (sum_by_member counter_amount (counters w) i x (λ i c, counter_amount_nonneg w i c Hs) Hx) as Hmem.
    unfold total_of, unmerged, recorded, event_amount in Hmax. cbn in Hmax. assert (counter_amount x = c_down x) as E1 by (unfold counter_amount, pick; by rewrite Hown, Eside).
    rewrite Hown in Hmax. unfold pick in Hmax. rewrite Eside in Hmax.
    rewrite Z.mod_small; unfold U64_MAX in Hmax; lia.
Qed.

Lemma step_merges w evs w' kept now todo :
  sound w → guard w = Merging kept now todo → 0 <= balance (books w) → total_of w + recorded evs <= U64_MAX → step w evs w' →
  balance (books w) + merge_left w <= balance (books w') + merge_left w' ∧ (guard w' = Free ∨ ∃ k n t, guard w' = Merging k n t).
Proof.
  intros Hs Hg Hb Hmax Hstep. destruct (step_moves w evs w' Hs Hb Hmax Hstep) as [_ Hmono].
  assert (∀ w1, guard w1 = guard w → balance (books w) <= balance (books w1) → (∀ i c, counters w !! i = Some c → ∃ c', counters w1 !! i = Some c' ∧ grew c c') →
    balance (books w) + merge_left w <= balance (books w1) + merge_left w1 ∧ (guard w1 = Free ∨ ∃ k n t, guard w1 = Merging k n t)) as Hgo.
  { intros w1 Hg1 Hb1 Hm. pose proof (merge_left_mono w w1 Hs Hg1 Hm). split; [lia|]. right. rewrite Hg1, Hg. by eexists _, _, _. }
  assert (∀ i c, counters w !! i = Some c → ∃ c', counters w !! i = Some c' ∧ grew c c') as Hsame by (intros i c Hc; exists c; split; [done|apply grew_refl]).
  destruct Hstep as [s Hn|r scope Hn|r c w1 Hu Hd E|r es w1 E|r w1 E|w1 E|w1 E|n t u d now' f Hn Hu Hd E|n f next b Hf E|x|s t w1 E];
    try (by apply Hgo).
  - unfold record in E. destruct (recorders w !! r) as [rec|]; [|done]. cbn in E. destruct (r_pc rec); try done.
    destruct (_ && _); injection E as <-; by apply Hgo.
  - destruct (recorder_grows w r es w1 Hs Hb Hmax ltac:(by rewrite Hg) E) as [Hg1 Hm]. by apply Hgo.
  - unfold drop_recorder in E. destruct (recorders w !! r) as [rec|]; [|done]. cbn in E.
    destruct (r_pc rec), (held rec); try done; rewrite ?Hg in E; try done; injection E as <-; by apply Hgo.
  - unfold merge_pending in E. by rewrite Hg in E.
  - split; [rewrite Z.add_0_r in Hmax; by eapply guard_merges|]. clear Hgo Hsame Hmono Hmax. unfold guard_step in E. rewrite Hg in E.
    destruct now as [[i d]|]; [|destruct todo; injection E as <-; cbn; [by left|right; by eexists _, _, _]].
    destruct d; [destruct (drain_step i _ w) as [[d' w2]|]; [|done]..|]; injection E as <-; right; by eexists _, _, _.
  - unfold note_traffic in E. destruct (scopes w !! s); [|done]. injection E as <-. by apply Hgo.
Qed.
End conservation.

(** The steps of the program from when a merger takes the lock to when it lets it go. *)
Inductive merges (w0 : World) : list Event → World → Prop :=
  | merges_start w : merge_pending w0 = Some w → merges w0 [] w
  | merges_step trace w evs w' : merges w0 trace w → guard w ≠ Free → step w evs w' → merges w0 (trace ++ evs) w'.

Lemma merges_reach b trace w0 trace' w : reach b trace w0 → merges w0 trace' w → reach b (trace ++ trace') w.
Proof.
  intros Hr Hm. induction Hm as [w E|trace' w evs w' Hm IH Hg Hstep]; [|rewrite app_assoc; by apply reach_step with w].
  apply reach_step with w0; [done|by apply step_merge].
Qed.

(** C6. Every byte is counted once. In every interleaving of streams that record,
    retarget, retire and drop their counters with mergers, direct samples and changes of
    the current node: what the books hold for an account (the session of a node, a month
    of a node, a month of a subscription), with the bytes in the counters and on their
    way into the books, is what they held at first and what was recorded for the targets
    and months of the account, as long as the sum fits 64 bits. No bytes are left in a
    counter that mergers do not see, and there is at most one registered counter for a
    live stream. *)
Theorem traffic_conserved a `{AccountLaws a} side b trace w :
  reach b trace w → 0 <= balance a side b → balance a side b + recorded a side trace <= U64_MAX →
  balance a side (books w) + unmerged a side w = balance a side b + recorded a side trace ∧
  (∀ i c, counters w !! i = Some c → i ∉ registry w → no_bytes c) ∧
  (length (registry w) <= size (recorders w))%nat.
Proof.
  intros Hr Hb Hmax. pose proof (reach_sound _ _ _ Hr) as Hs. destruct (reach_total a side b trace w Hr Hb Hmax) as [Ht _].
  split; [exact Ht|]. split; [apply (so_empty w Hs)|].
  assert (registry w ⊆+ omap (λ r, holding r.2) (map_to_list (recorders w))) as Hsub.
  { apply NoDup_submseteq; [apply (so_nodup w Hs)|]. intros i Hi. destruct (so_registered w Hs i Hi) as (r & rec & Hrec & Hh).
    apply list_elem_of_omap. exists (r, rec). split; [by apply elem_of_map_to_list|done]. }
  apply submseteq_length in Hsub. etransitivity; [exact Hsub|]. rewrite <- length_map_to_list.
  generalize (map_to_list (recorders w)) as l. induction l as [|x l IH]; cbn; [done|]. destruct (holding x.2); cbn; lia.
Qed.

(** A merge takes everything that was recorded before it. When a merger has taken
    the lock, drained the counters one by one and released the lock, whatever streams
    recorded meanwhile, each account holds at least what it held at first and what was
    recorded before the merge began, apart from direct samples that were still being
    booked then. *)
Theorem traffic_merge_complete a `{AccountLaws a} side b trace w0 trace' w :
  reach b trace w0 → merges w0 trace' w → guard w = Free →
  0 <= balance a side b → balance a side b + recorded a side (trace ++ trace') <= U64_MAX →
  balance a side b + recorded a side trace <= balance a side (books w) + sum_by (flight_amount a side) (samples w0).
Proof.
  intros Hr0 Hm Hfree Hb Hmax.
  assert (balance a side b + recorded a side trace <= balance a side (books w) + merge_left a side w + sum_by (flight_amount a side) (samples w0)
    ∧ (guard w = Free ∨ ∃ k n t, guard w = Merging k n t)) as (Hend & _).
  2: { unfold merge_left in Hend. rewrite Hfree in Hend. lia. }
  clear Hfree. induction Hm as [w E|trace' w evs w' Hm IH Hg Hstep].
  - rewrite app_nil_r in *. destruct (reach_total a side b trace w0 Hr0 Hb Hmax) as [Ht _]. pose proof (reach_sound _ _ _ Hr0) as Hs.
    unfold merge_pending in E. destruct (guard w0) eqn:Hg; try done. injection E as <-. split; [|right; by eexists _, _, _].
    unfold merge_left. cbn [guard with_guard counters books]. rewrite <- (sum_by_registered (counter_amount a side)).
    + unfold total_of, unmerged, guard_amount in Ht. rewrite Hg in Ht. lia.
    + apply (so_nodup w0 Hs).
    + apply (so_counters w0 Hs).
    + intros i c Hc Hi. destruct (so_empty w0 Hs i c Hc Hi) as [Hu Hd]. unfold counter_amount, pick. rewrite Hu, Hd. by destruct (owns _ _ _), side.
  - pose proof (merges_reach b trace w0 trace' w Hr0 Hm) as Hr. pose proof (reach_sound _ _ _ Hr) as Hs.
    pose proof (step_records a side w evs w' Hs Hstep) as Hev. rewrite app_assoc, recorded_app in Hmax.
    destruct IH as (Hle & [Hgs|(k & n & t & Hgs)]); [lia|done|].
    destruct (reach_total a side b _ w Hr Hb ltac:(lia)) as [Ht Hbw].
    destruct (step_merges a side w evs w' k n t Hs Hgs Hbw ltac:(lia) Hstep) as [Hle' Hgs']. split; [lia|done].
Qed.

(** ** Runs of one stream and one merger, for examples *)
Inductive command := New (r : nat) | Record_ (r : nat) (c : Call) | Go (r : nat).

Fixpoint play (cs : list command) (trace : list Event) (w : World) : option (list Event * World) :=
  match cs with
  | [] => Some (trace, w)
  | New r :: cs => if bool_decide (recorders w !! r = None) then play cs trace (set_recorder r (new_recorder None) w) else None
  | Record_ r c :: cs =>
      if bool_decide (0 <= call_up c < 2 ^ 64 ∧ 0 <= call_down c < 2 ^ 64) then record r c w ≫= play cs trace else None
  | Go r :: cs => match recorder_step r w with Some (evs, w) => play cs (trace ++ evs) w | None => None end
  end.

Lemma play_reach b cs : ∀ trace w trace' w', reach b trace w → play cs trace w = Some (trace', w') → reach b trace' w'.
Proof.
  induction cs as [|[r|r c|r] cs IH]; intros trace w trace' w' Hr; cbn [play]; [by intros [= <- <-]| | |].
  - case_bool_decide; [|done]. apply IH. rewrite <- (app_nil_r trace). eapply reach_step; [done|by apply step_recorder_new].
  - case_bool_decide as Hc; [|done]. destruct (record r c w) as [w1|] eqn:E; [|done]. apply IH. rewrite <- (app_nil_r trace).
    eapply reach_step; [done|by eapply step_record; [apply Hc|apply Hc|]].
  - destruct (recorder_step r w) as [[evs w1]|] eqn:E; [|done]. apply IH. eapply reach_step; [done|by eapply step_recorder].
Qed.

Fixpoint drain_all (fuel : nat) (w : World) : option World :=
  match fuel with
  | O => None
  | S fuel => match guard w with Free => Some w | _ => guard_step w ≫= drain_all fuel end
  end.

Lemma drain_all_merges w0 fuel : ∀ trace w w', merges w0 trace w → drain_all fuel w = Some w' → merges w0 trace w' ∧ guard w' = Free.
Proof.
  induction fuel as [|fuel IH]; intros trace w w' Hm; cbn [drain_all]; [done|]. destruct (guard w) eqn:Hg; [by intros [= <-]| |];
    (destruct (guard_step w) as [w1|] eqn:E; [|done]; cbn; apply IH; rewrite <- (app_nil_r trace);
     eapply merges_step; [done|by rewrite Hg|by apply step_guard]).
Qed.

Definition no_books : Books := {| session := ∅; history := ∅; subscriptions := ∅; generation := 0 |}.
Definition one_record : list command := [New 0; Record_ 0 {| call_up := 5; call_down := 7; call_day := 0 |}] ++ replicate 11 (Go 0).

(** Five bytes up and seven down of the direct bucket. *)
Lemma traffic_conserved_witness :
  ∃ trace w, play one_record [] (ledger no_books) = Some (trace, w) ∧
    balance (session_account DIRECT_TRAFFIC_ID) true (books w) + unmerged (session_account DIRECT_TRAFFIC_ID) true w = 5.
Proof.
  destruct (play one_record [] (ledger no_books)) as [[trace w]|] eqn:E; [|by vm_compute in E].
  exists trace, w. split; [done|].
  assert (recorded (session_account DIRECT_TRAFFIC_ID) true trace = 5) as Hrec.
  { replace trace with (default ([], ledger no_books) (play one_record [] (ledger no_books))).1 by (by rewrite E). by vm_compute. }
  destruct (traffic_conserved (session_account DIRECT_TRAFFIC_ID) true no_books trace w) as [H _].
  - eapply play_reach; [apply reach_start|exact E].
  - by vm_compute.
  - rewrite Hrec. by vm_compute.
  - rewrite Hrec in H. exact H.
Defined.

(** The merge that follows. *)
Lemma traffic_merge_complete_witness :
  ∃ w, 7 <= balance (session_account DIRECT_TRAFFIC_ID) false (books w).
Proof.
  destruct (play one_record [] (ledger no_books)) as [[trace w0]|] eqn:E; [|by vm_compute in E].
  assert (w0 = (default ([], ledger no_books) (play one_record [] (ledger no_books))).2) as Hw0 by (by rewrite E).
  assert (recorded (session_account DIRECT_TRAFFIC_ID) false trace = 7) as Hrec.
  { replace trace with (default ([], ledger no_books) (play one_record [] (ledger no_books))).1 by (by rewrite E). by vm_compute. }
  destruct (merge_pending w0) as [w1|] eqn:Em; [|by rewrite Hw0 in Em; vm_compute in Em].
  destruct (drain_all 20 w1) as [w|] eqn:Ed.
  2: { exfalso. assert (merge_pending w0 ≫= drain_all 20 = None) as Hd by (by rewrite Em). rewrite Hw0 in Hd. by vm_compute in Hd. }
  exists w. destruct (drain_all_merges w0 20 [] w1 w (merges_start w0 w1 Em) Ed) as [Hm Hfree].
  assert (sum_by (flight_amount (session_account DIRECT_TRAFFIC_ID) false) (samples w0) = 0) as Hsm by (rewrite Hw0; by vm_compute).
  pose proof (traffic_merge_complete (session_account DIRECT_TRAFFIC_ID) false no_books trace w0 [] w) as H.
  rewrite app_nil_r, Hrec, Hsm in H.
  assert (0 + 7 <= balance (session_account DIRECT_TRAFFIC_ID) false (books w) + 0) as Hle; [|rewrite Z.add_0_r in Hle; exact Hle].
  apply H; [|done|done|by vm_compute|by vm_compute]. eapply play_reach; [apply reach_start|exact E].
Defined.
