(* ===== verification/TrafficReports.v ===== *)
(** * The traffic ledger: what is kept, and reports (traffic.rs)

    Snapshots of the books, monthly tables, and the table of subscriptions derived from
    the nodes they own.  The file is its parsed content: YAML is external. *)
From Stdlib Require Import String.
From S2P Require Import Prelude Bytes Text Sorting StrOrder Calendar Traffic.

#[local] Open Scope list_scope.
#[local] Open Scope Z_scope.

(** * What is kept *)
(** The sums of a list of samples. *)
Definition sum_up (l : list (bytes * TrafficCounters)) : Z := foldr (λ e acc, up e.2 + acc) 0 l.
Definition sum_down (l : list (bytes * TrafficCounters)) : Z := foldr (λ e acc, down e.2 + acc) 0 l.

#[export] Instance sum_up_perm : Proper ((≡ₚ) ==> (=)) sum_up.
Proof. intros l l' H. induction H as [|x l l' _ IH|x y l|l l' l'' _ IH1 _ IH2]; cbn; [done|f_equal; exact IH|lia|by rewrite IH1]. Qed.
#[export] Instance sum_down_perm : Proper ((≡ₚ) ==> (=)) sum_down.
Proof. intros l l' H. induction H as [|x l l' _ IH|x y l|l l' l'' _ IH1 _ IH2]; cbn; [done|f_equal; exact IH|lia|by rewrite IH1]. Qed.

(** The month an entry belongs to. *)
Definition entry_month (key : bytes) : option bytes := match month_prefix_of key with Ok m => m | _ => None end.
Definition in_month (month : bytes) (e : bytes * TrafficCounters) : Prop := entry_month e.1 = Some month.
#[export] Instance in_month_dec month e : Decision (in_month month e).
Proof. unfold in_month. apply _. Defined.

(** The bucket of a month: what its entries sum to, up to the limit of 64 bits. *)
Definition bucket (l : list (bytes * TrafficCounters)) : option TrafficCounters :=
  match l with [] => None | _ => Some {| up := Z.min (sum_up l) U64_MAX; down := Z.min (sum_down l) U64_MAX |} end.

Lemma bucket_perm l l' : l ≡ₚ l' → bucket l = bucket l'.
Proof.
  intros H. destruct l as [|x l], l' as [|y l']; try done; [by apply Permutation_nil_cons in H|by symmetry in H; apply Permutation_nil_cons in H|].
  unfold bucket. by rewrite H.
Qed.

Definition counters_ok (c : TrafficCounters) : Prop := 0 <= up c <= U64_MAX ∧ 0 <= down c <= U64_MAX.

Lemma bucket_snoc l e : Forall (λ e, counters_ok e.2) l → counters_ok e.2 →
  bucket (l ++ [e]) = Some (add_counters (up e.2) (down e.2) (default no_traffic (bucket l))).
Proof.
  intros Hl [Hu Hd]. assert (sum_up (l ++ [e]) = sum_up l + up e.2 ∧ sum_down (l ++ [e]) = sum_down l + down e.2 ∧ 0 <= sum_up l ∧ 0 <= sum_down l) as (E1 & E2 & N1 & N2).
  { clear Hu Hd. unfold sum_up, sum_down. induction Hl as [|x l [Hxu Hxd] _ IH]; cbn [foldr app]; lia. }
  unfold bucket at 1. rewrite E1, E2. destruct l as [|x l]; cbn [app bucket default from_option Datatypes.id]; unfold add_counters, sat_add; cbn [up down no_traffic].
  - change (sum_up []) with 0. change (sum_down []) with 0. f_equal.
  - cbn [up down Datatypes.id]. f_equal. f_equal; lia.
Qed.

(** A key that does not break a character is no panic. *)
Definition plain_key (key : bytes) : Prop := is_ascii key = true.

Lemma plain_prefix key : plain_key key → month_prefix_of key = Ok (entry_month key).
Proof.
  intros Hk. unfold entry_month. assert (∃ m, month_prefix_of key = Ok m) as [m ->]; [|done]. unfold month_prefix_of.
  destruct ((7 <=? len key) && _); [|by eexists]. assert (default false (cont <$> key !! 7%nat) = false) as ->; [|by eexists].
  destruct (key !! 7%nat) as [c|] eqn:E; [|done]. cbn. unfold plain_key, is_ascii in Hk. rewrite forallb_forall in Hk.
  specialize (Hk c). unfold between in Hk. assert (List.In c key) as Hin by (eapply list_elem_of_In, list_elem_of_lookup_2, E).
  apply Hk in Hin. unfold cont. apply andb_true_iff in Hin as [_ H%Z.leb_le]. by replace (128 <=? c) with false by (symmetry; apply Z.leb_gt; lia).
Qed.

Lemma fold_entries_spec (l : list (bytes * TrafficCounters)) :
  Forall (λ e, plain_key e.1 ∧ counters_ok e.2) l →
  ∃ folded, foldl fold_entry (Ok ∅) l = Ok folded ∧ ∀ month, folded !! month = bucket (filter (in_month month) l).
Proof.
  induction l as [|e l IH] using rev_ind; intros Hl.
  - exists ∅. split; [done|]. intros month. by rewrite lookup_empty.
  - apply Forall_app in Hl as [Hl [[Hk Hc] _]%Forall_cons]. destruct (IH Hl) as (folded & E & Hf). rewrite foldl_app, E. cbn [foldl fold_entry mbind outcome_bind].
    rewrite plain_prefix by done. cbn [mbind outcome_bind]. eexists. split; [done|]. intros month.
    rewrite filter_app. assert (Forall (λ e, counters_ok e.2) (filter (in_month month) l)) as Hok.
    { apply Forall_forall. intros x [_ Hx]%list_elem_of_filter. rewrite Forall_forall in Hl. by apply Hl. }
    rewrite filter_cons, filter_nil. destruct (decide (in_month month e)) as [Hm|Hm].
    + unfold in_month in Hm. rewrite Hm. unfold add_row. cbn [fst snd]. rewrite lookup_insert_eq, Hf, bucket_snoc by done. done.
    + rewrite app_nil_r. destruct (entry_month e.1) as [m|] eqn:Em; [|apply Hf]. unfold add_row; cbn [fst]; rewrite lookup_insert_ne; [apply Hf|]. intros ->. by apply Hm.
Qed.

(** Books whose keys are ASCII, as the program writes them. *)
Definition node_ok (n : NodeHistory) : Prop := map_Forall (λ key c, plain_key key ∧ counters_ok c) (months n).

(** What is left of a node. *)
Definition kept_node (cutoff : bytes) (n n' : NodeHistory) : Prop :=
  nh_name n' = nh_name n ∧
  ∀ month, months n' !! month = if str_leb cutoff month then bucket (filter (in_month month) (map_to_list (months n))) else None.

Lemma fold_node_spec cutoff n : node_ok n → ∃ f, fold_daily_into_months n = Ok f ∧ kept_node cutoff n (keep_months_from cutoff f).
Proof.
  intros Hn. unfold fold_daily_into_months. destruct (fold_entries_spec (entries (months n))) as (folded & E & Hf).
  { rewrite entries_perm. apply Forall_forall. intros [key c] Hin%elem_of_map_to_list. apply (Hn key c Hin). }
  rewrite E. cbn [mbind outcome_bind]. eexists. split; [done|]. split; [done|]. intros month. cbn [months keep_months_from].
  assert (bucket (filter (in_month month) (entries (months n))) = bucket (filter (in_month month) (map_to_list (months n)))) as Hb
    by (apply bucket_perm; by rewrite entries_perm).
  destruct (str_leb cutoff month) eqn:Ec.
  - rewrite <- Hb, <- Hf. match goal with |- _ = ?found => destruct found as [c|] eqn:El end.
    + apply map_lookup_filter_Some. done.
    + apply map_lookup_filter_None. by left.
  - apply map_lookup_filter_None. right. intros c _. cbn. by rewrite Ec.
Qed.

(** History is kept by calendar months. For a history whose keys are plain text,
    pruning returns; a node is dropped exactly when it keeps no month and has no name;
    of a node that stays, each month from the first kept one on holds what all its
    entries, monthly or daily, sum to, up to the limit of 64 bits, and no other month
    is there. *)
Theorem prune_history_spec now keep_months h :
  map_Forall (λ _, node_ok) h →
  ∃ h', prune_history now keep_months h = Ok h' ∧
    ∀ i, match h !! i with
         | None => h' !! i = None
         | Some n => ∃ n', kept_node (cutoff_month now keep_months) n n' ∧ h' !! i = if is_kept n' then Some n' else None
         end.
Proof.
  intros Hok. unfold prune_history. set (cutoff := cutoff_month now keep_months).
  assert (∀ l, NoDup l.*1 → Forall (λ e : str * NodeHistory, node_ok e.2) l → ∃ h', foldl (prune_node cutoff) (Ok ∅) l = Ok h' ∧
    ∀ i, (∀ n, (i, n) ∈ l → ∃ n', kept_node cutoff n n' ∧ h' !! i = if is_kept n' then Some n' else None) ∧ (i ∉ l.*1 → h' !! i = None)) as Hgo.
  { induction l as [|[j n] l IH] using rev_ind; intros Hnd Hl.
    - exists ∅. split; [done|]. intros i. split; [by intros n Hin%elem_of_nil|done].
    - rewrite fmap_app in Hnd. apply NoDup_app in Hnd as (Hnd & Hnj & _). apply Forall_app in Hl as [Hl [Hn _]%Forall_cons].
      destruct (IH Hnd Hl) as (h' & E & Hh). rewrite foldl_app, E. cbn [foldl prune_node mbind outcome_bind fst snd].
      destruct (fold_node_spec cutoff n Hn) as (f & Ef & Hk). rewrite Ef. cbn [mbind outcome_bind]. eexists. split; [done|].
      assert (j ∉ l.*1) as Hj by (intros Hin; eapply Hnj; [exact Hin|]; set_solver).
      assert (∀ i, i ≠ j → (if is_kept (keep_months_from cutoff f) then <[j:=keep_months_from cutoff f]> h' else h') !! i = h' !! i) as Hother
        by (intros i Hi; case_match; [by rewrite lookup_insert_ne|done]).
      intros i. split.
      + intros n0 [Hin|[= -> ->]%list_elem_of_singleton]%elem_of_app.
        * rewrite Hother by (intros ->; apply Hj; by apply (list_elem_of_fmap_2 fst _ (j, n0))). by apply Hh.
        * exists (keep_months_from cutoff f). split; [done|]. case_match; [by rewrite lookup_insert_eq|by apply Hh].
      + rewrite fmap_app. intros [Hi Hij]%not_elem_of_app. rewrite Hother by set_solver. by apply Hh. }
  destruct (Hgo (entries h)) as (h' & E & Hh).
  - rewrite entries_perm. apply NoDup_fst_map_to_list.
  - rewrite entries_perm. apply Forall_forall. intros [i n] Hin%elem_of_map_to_list. by apply (Hok i n).
  - exists h'. split; [done|]. intros i. destruct (h !! i) as [n|] eqn:Ei.
    + apply Hh. rewrite entries_perm. by apply elem_of_map_to_list.
    + apply Hh. rewrite entries_perm. intros ([j n] & -> & Hin%elem_of_map_to_list)%list_elem_of_fmap_1. discriminate (eq_trans (eq_sym Hin) Ei).
Qed.

(** A daily entry folds into its month. *)
Lemma prune_history_spec_witness :
  let n := {| nh_name := []; months := {[ lit "2026-11-18" := {| up := 3; down := 0 |}; lit "2026-11" := {| up := 4; down := 1 |} ]} |} in
  ∃ h' : gmap str NodeHistory, prune_history 1795000000 6 {[ lit "a" := n ]} = Ok h'.
Proof.
  intros n. destruct (prune_history_spec 1795000000 6 {[ lit "a" := n ]}) as (h' & E & _).
  - apply map_Forall_singleton. unfold node_ok, n. cbn [months]. repeat apply map_Forall_insert_2; try apply map_Forall_empty; (split; [by vm_compute|split; by vm_compute]).
  - by exists h'.
Defined.

Definition TRAFFIC_HISTORY_MONTHS : Z := 6.

Record NodeTrafficSnapshot := { sn_id : str; sn_name : str; sn_session : TrafficCounters; sn_history : TrafficCounters }.
Record NodeMonthlyTraffic := { mt_id : str; mt_name : str; mt_months : list (bytes * TrafficCounters); mt_total : TrafficCounters }.
Record TrafficFile := {
  session_started : Z;
  file_session : gmap str SessionEntry;
  file_history : gmap str NodeHistory;
  file_subscriptions : gmap str NodeHistory;
}.

(** ** Order of the rows *)
(** [a.cmp(b).then_with(next)], as "not greater". *)
Definition then_leb (a b : Z) (next : bool) : bool := (a <? b) || ((a =? b) && next).

Definition snapshot_leb (a b : NodeTrafficSnapshot) : bool :=
  then_leb (total (sn_session b)) (total (sn_session a))
    (then_leb (total (sn_history b)) (total (sn_history a)) (str_leb (sn_name a) (sn_name b))).
Definition file_leb (a b : NodeTrafficSnapshot) : bool :=
  then_leb (total (sn_session b)) (total (sn_session a)) (total (sn_history b) <=? total (sn_history a)).
Definition monthly_leb (a b : NodeMonthlyTraffic) : bool :=
  then_leb (total (mt_total b)) (total (mt_total a)) (str_leb (mt_name a) (mt_name b)).

(** ** Snapshots *)
Definition add_all (l : list TrafficCounters) : TrafficCounters := foldl (λ t c, add_counters (up c) (down c) t) no_traffic l.

(** Names of the session first, then of the history. *)
Definition snapshot_names (s : gmap str SessionEntry) (h : gmap str NodeHistory) : gmap str str := (se_name <$> s) ∪ (nh_name <$> h).

Definition snapshot_row (s : gmap str SessionEntry) (h : gmap str NodeHistory) (e : str * str) : option NodeTrafficSnapshot :=
  let session_counters := default no_traffic (se_counters <$> s !! e.1) in
  let history_counters := default no_traffic ((λ n, add_all (entries (months n)).*2) <$> h !! e.1) in
  if (total session_counters =? 0) && (total history_counters =? 0) then None
  else Some {| sn_id := e.1; sn_name := e.2; sn_session := session_counters; sn_history := history_counters |}.

Definition snapshot_rows (s : gmap str SessionEntry) (h : gmap str NodeHistory) : list NodeTrafficSnapshot :=
  omap (snapshot_row s h) (entries (snapshot_names s h)).

(** [snapshots], after the pending counters were merged. *)
Definition snapshots (b : Books) : list NodeTrafficSnapshot := sort_by snapshot_leb (snapshot_rows (session b) (history b)).

Definition monthly_series (i : str) (b : Books) : list (bytes * TrafficCounters) :=
  match history b !! i with Some n => entries (months n) | None => [] end.

(** ** The file *)
(** What [flush] writes. *)
Definition file_of (now started : Z) (b : Books) : outcome TrafficFile :=
  h ← prune_history now TRAFFIC_HISTORY_MONTHS (history b);
  Ok {| session_started := started; file_session := session b; file_history := h;
        file_subscriptions := prune_subscriptions now TRAFFIC_HISTORY_MONTHS (subscriptions b) |}.

(** The books [load_or_new] starts with; no file, or one that does not parse, is [None]. *)
Definition load (now : Z) (file : option TrafficFile) : outcome Books :=
  match file with
  | Some f =>
      h ← prune_history now TRAFFIC_HISTORY_MONTHS (file_history f);
      Ok {| session := ∅; history := h; subscriptions := prune_subscriptions now TRAFFIC_HISTORY_MONTHS (file_subscriptions f); generation := 1 |}
  | None => Ok {| session := ∅; history := ∅; subscriptions := ∅; generation := 1 |}
  end.

Definition read_file (now : Z) (f : TrafficFile) : outcome (list NodeTrafficSnapshot) :=
  h ← prune_history now TRAFFIC_HISTORY_MONTHS (file_history f);
  Ok (sort_by file_leb (snapshot_rows (file_session f) h)).

Definition read_session_started (f : TrafficFile) : option Z := if 0 <? session_started f then Some (session_started f) else None.

Definition monthly_row (keys : list bytes) (e : str * NodeHistory) : option NodeMonthlyTraffic :=
  let row := (λ key, (key, default no_traffic (months e.2 !! key))) <$> keys in
  let t := add_all row.*2 in
  if total t =? 0 then None else Some {| mt_id := e.1; mt_name := nh_name e.2; mt_months := row; mt_total := t |}.

Definition read_recent_months (now keep : Z) (f : TrafficFile) : outcome (list NodeMonthlyTraffic) :=
  h ← prune_history now TRAFFIC_HISTORY_MONTHS (file_history f);
  Ok (sort_by monthly_leb (omap (monthly_row (recent_month_keys now keep)) (entries h))).

Definition read_recent_subscriptions (now keep : Z) (f : TrafficFile) : list NodeMonthlyTraffic :=
  sort_by monthly_leb (omap (monthly_row (recent_month_keys now keep))
    (entries (prune_subscriptions now TRAFFIC_HISTORY_MONTHS (file_subscriptions f)))).

(** ** Subscriptions as the sum of their nodes *)
(** Collecting into a map: the last of equal keys stays. *)
Definition collect {A} (l : list (str * A)) : gmap str A := foldl (λ m e, <[e.1 := e.2]> m) ∅ l.

Definition owners_of (membership names : list (str * str)) : gmap str str :=
  collect (filter (λ e, is_Some (collect names !! e.2)) membership).

Definition add_member (owners : gmap str str) (totals : gmap str (gmap bytes TrafficCounters)) (node : NodeMonthlyTraffic)
    : gmap str (gmap bytes TrafficCounters) :=
  match owners !! mt_id node with
  | None => totals
  | Some sub => <[sub := foldl add_row (default ∅ (totals !! sub)) (mt_months node)]> totals
  end.

Definition subscription_row (names : gmap str str) (e : str * gmap bytes TrafficCounters) : option NodeMonthlyTraffic :=
  let row := entries e.2 in
  let t := add_all row.*2 in
  if total t =? 0 then None
  else Some {| mt_id := e.1; mt_name := public_traffic_label (default [] (names !! e.1)) zh_subscription; mt_months := row; mt_total := t |}.

Definition sum_subscription_members (nodes : list NodeMonthlyTraffic) (membership names : list (str * str)) : list NodeMonthlyTraffic :=
  let totals := foldl (add_member (owners_of membership names)) ∅ nodes in
  sort_by monthly_leb (omap (subscription_row (collect names)) (entries totals)).

(** ** What the table of subscriptions says *)
(** The samples of the nodes a subscription owns, for one month. *)
Definition member_samples (owners : gmap str str) (nodes : list NodeMonthlyTraffic) (sub : str) (month : bytes) : list (bytes * TrafficCounters) :=
  filter (λ e, e.1 = month) (mjoin (mt_months <$> filter (λ n, owners !! mt_id n = Some sub) nodes)).

Lemma add_rows_spec l : ∀ m base,
  Forall (λ e, counters_ok e.2) l → Forall (λ e, counters_ok e.2) base →
  (∀ key, m !! key = bucket (filter (λ e, e.1 = key) base)) →
  ∀ key, foldl add_row m l !! key = bucket (filter (λ e, e.1 = key) (base ++ l)).
Proof.
  induction l as [|e l IH]; intros m base Hl Hbase Hm; cbn [foldl]; [intros key; by rewrite app_nil_r|].
  apply Forall_cons in Hl as [He Hl]. intros key. rewrite cons_middle, app_assoc. apply IH; [done|apply Forall_app; split; [done|by constructor]|].
  clear key. intros key. unfold add_row. rewrite filter_app, filter_cons, filter_nil. destruct (decide (e.1 = key)) as [<-|Hne].
  - rewrite lookup_insert_eq, Hm, bucket_snoc; [done| |done]. apply Forall_forall. intros x [_ Hx]%list_elem_of_filter. rewrite Forall_forall in Hbase. by apply Hbase.
  - by rewrite lookup_insert_ne, app_nil_r.
Qed.

Definition rows_ok (nodes : list NodeMonthlyTraffic) : Prop := Forall (λ n, Forall (λ e, counters_ok e.2) (mt_months n)) nodes.

Lemma members_ok (owners : gmap str str) nodes sub : rows_ok nodes → Forall (λ e, counters_ok e.2) (mjoin (mt_months <$> filter (λ n, owners !! mt_id n = Some sub) nodes)).
Proof.
  intros Hok. apply Forall_forall. intros e Hin. apply list_elem_of_join in Hin as (l & He & Hin).
  apply list_elem_of_fmap_1 in Hin as (n & -> & [_ Hn]%list_elem_of_filter).
  unfold rows_ok in Hok. rewrite Forall_forall in Hok. specialize (Hok n Hn). rewrite Forall_forall in Hok. by apply Hok.
Qed.

Lemma add_members_spec (owners : gmap str str) nodes : rows_ok nodes →
  let totals := foldl (add_member owners) ∅ nodes in
  ∀ sub, match totals !! sub with
    | None => ∀ n, n ∈ nodes → owners !! mt_id n ≠ Some sub
    | Some m => (∃ n, n ∈ nodes ∧ owners !! mt_id n = Some sub) ∧ ∀ month, m !! month = bucket (member_samples owners nodes sub month)
    end.
Proof.
  intros Hok totals. subst totals. induction nodes as [|n nodes IH] using rev_ind; [intros sub; cbn [foldl]; rewrite lookup_empty; by intros n ?%elem_of_nil|].
  apply Forall_app in Hok as [Hok [Hn _]%Forall_cons]. specialize (IH Hok). intros sub. rewrite foldl_app. cbn [foldl]. unfold add_member at 1.
  assert (∀ s, owners !! mt_id n ≠ Some s → ∀ month, member_samples owners (nodes ++ [n]) s month = member_samples owners nodes s month) as Hskip.
  { intros s Hs month. unfold member_samples. rewrite filter_app, filter_cons_False, filter_nil, app_nil_r by done. done. }
  destruct (owners !! mt_id n) as [s|] eqn:Eo.
  - destruct (decide (s = sub)) as [->|Hne].
    + rewrite lookup_insert_eq. split; [exists n; split; [set_solver|done]|]. intros month.
      unfold member_samples. rewrite filter_app, filter_cons_True, filter_nil by done. rewrite fmap_app, join_app. cbn [fmap list_fmap mjoin list_join]. rewrite app_nil_r.
      apply add_rows_spec; [done|by apply members_ok|]. intros key. specialize (IH sub). destruct (foldl _ ∅ nodes !! sub) as [m|].
      * cbn [default from_option Datatypes.id]. by apply IH.
      * cbn [default from_option]. rewrite lookup_empty. replace (filter (λ n, owners !! mt_id n = Some sub) nodes) with (@nil NodeMonthlyTraffic); [done|].
        symmetry. apply elem_of_nil_inv. intros x [Hf Hx]%list_elem_of_filter. by apply (IH x).
    + rewrite lookup_insert_ne by done. specialize (IH sub). destruct (foldl _ ∅ nodes !! sub) as [m|].
      * destruct IH as [(n0 & ? & ?) Hm]. split; [exists n0; split; [set_solver|done]|]. intros month. rewrite Hskip by congruence. apply Hm.
      * intros n0 [Hn0| ->%list_elem_of_singleton]%elem_of_app; [by apply IH|congruence].
  - specialize (IH sub). destruct (foldl _ ∅ nodes !! sub) as [m|].
    + destruct IH as [(n0 & ? & ?) Hm]. split; [exists n0; split; [set_solver|done]|]. intros month. rewrite Hskip by done. apply Hm.
    + intros n0 [Hn0| ->%list_elem_of_singleton]%elem_of_app; [by apply IH|congruence].
Qed.

(** ** The rows are in order *)
Lemma then_leb_total a b p q : p = true ∨ q = true → then_leb a b p = true ∨ then_leb b a q = true.
Proof. unfold then_leb. destruct (Z.ltb_spec a b), (Z.ltb_spec b a), (Z.eqb_spec a b), (Z.eqb_spec b a); cbn; auto; lia. Qed.

Lemma then_leb_trans a b c p q r : (p = true → q = true → r = true) → then_leb a b p = true → then_leb b c q = true → then_leb a c r = true.
Proof.
  unfold then_leb. intros Hr. destruct (Z.ltb_spec a b), (Z.ltb_spec b c), (Z.ltb_spec a c), (Z.eqb_spec a b), (Z.eqb_spec b c), (Z.eqb_spec a c); cbn; auto; lia.
Qed.

Lemma monthly_sorted l : sorted monthly_leb (sort_by monthly_leb l).
Proof.
  apply sort_by_sorted.
  - intros a b. apply then_leb_total, str_leb_total.
  - intros a b c H1 H2. eapply then_leb_trans; [|exact H2|exact H1]. intros. by eapply str_leb_trans.
Qed.

(** The table of subscriptions is the sum of their nodes. Given the monthly rows of
    the nodes, who owns which node and the names of the subscriptions (of a node or
    subscription listed twice, the last entry): each row of the result is a subscription
    that owns a node of the table and moved bytes, there is one row at most for each,
    and each of its months holds what the rows of the nodes it owns sum to in that
    month, up to the limit of 64 bits; a subscription that owns a node and has no row
    moved nothing; the rows are in descending order of their totals, then by name. *)
Theorem sum_subscription_members_spec nodes membership names :
  rows_ok nodes →
  let owners := owners_of membership names in
  let rows := sum_subscription_members nodes membership names in
  sorted monthly_leb rows ∧ NoDup (mt_id <$> rows) ∧
  (∀ row, row ∈ rows → (∃ n, n ∈ nodes ∧ owners !! mt_id n = Some (mt_id row)) ∧ total (mt_total row) ≠ 0 ∧ mt_total row = add_all (mt_months row).*2 ∧
     ∀ month c, (month, c) ∈ mt_months row ↔ bucket (member_samples owners nodes (mt_id row) month) = Some c) ∧
  (∀ n sub, n ∈ nodes → owners !! mt_id n = Some sub →
     sub ∈ mt_id <$> rows ∨ ∃ l, total (add_all l.*2) = 0 ∧ ∀ month c, (month, c) ∈ l ↔ bucket (member_samples owners nodes sub month) = Some c).
Proof.
  intros Hok owners rows. pose proof (add_members_spec owners nodes Hok) as Hspec. cbv zeta in Hspec.
  set (totals := foldl (add_member owners) ∅ nodes) in *.
  assert (rows ≡ₚ omap (subscription_row (collect names)) (map_to_list totals)) as Hrows.
  { unfold rows, sum_subscription_members. rewrite sort_by_perm. fold owners. fold totals. by rewrite (entries_perm totals). }
  assert (∀ sub m month c, totals !! sub = Some m → (month, c) ∈ entries m ↔ bucket (member_samples owners nodes sub month) = Some c) as Hmonths.
  { intros sub m month c Hm. specialize (Hspec sub). rewrite Hm in Hspec. destruct Hspec as [_ Hb]. rewrite <- Hb, (entries_perm m). apply elem_of_map_to_list. }
  split; [apply monthly_sorted|]. split; [|split].
  - rewrite Hrows. pose proof (NoDup_fst_map_to_list totals) as Hnd. revert Hnd. generalize (map_to_list totals) as l.
    induction l as [|e l IH]; cbn; [intros _; constructor|]. intros [He Hnd]%NoDup_cons. destruct (subscription_row (collect names) e) as [row|] eqn:Er; [|by apply IH].
    cbn. apply NoDup_cons. split; [|by apply IH]. unfold subscription_row in Er. destruct (_ =? 0); [done|]. injection Er as <-. cbn. intros Hin. apply He.
    apply list_elem_of_fmap_1 in Hin as (row & Heq & (e' & He' & Er)%list_elem_of_omap). unfold subscription_row in Er. destruct (_ =? 0); [done|]. injection Er as <-.
    cbn in Heq. rewrite Heq. by apply (list_elem_of_fmap_2 fst).
  - intros row Hin. rewrite Hrows in Hin. apply list_elem_of_omap in Hin as ([sub m] & Hm%elem_of_map_to_list & Er). unfold subscription_row in Er. cbn [fst snd] in Er.
    destruct (Z.eqb_spec (total (add_all (entries m).*2)) 0); [done|]. injection Er as <-. cbn. split_and!; try done.
    + specialize (Hspec sub). rewrite Hm in Hspec. apply Hspec.
    + intros month c. by apply Hmonths.
  - intros n sub Hn Ho. specialize (Hspec sub) as Hs. destruct (totals !! sub) as [m|] eqn:Hm; [|by destruct (Hs n Hn)].
    destruct (Z.eqb_spec (total (add_all (entries m).*2)) 0) as [Hz|Hz]; [right; exists (entries m); split; [done|]; intros; by apply Hmonths|left].
    rewrite Hrows. apply list_elem_of_fmap. eexists. split; [|apply list_elem_of_omap; exists (sub, m); split; [by apply elem_of_map_to_list|]].
    2: { unfold subscription_row. cbn [fst snd]. destruct (Z.eqb_spec (total (add_all (entries m).*2)) 0); [done|reflexivity]. }
    done.
Qed.

Lemma sum_subscription_members_spec_witness :
  let row i u := {| mt_id := lit i; mt_name := []; mt_months := [(lit "2026-11", {| up := u; down := 0 |})]; mt_total := {| up := u; down := 0 |} |} in
  NoDup (mt_id <$> sum_subscription_members [row "a"%string 3; row "b"%string 4] [(lit "a", lit "s"); (lit "b", lit "s")] [(lit "s", lit "S")]).
Proof.
  intros row. apply (sum_subscription_members_spec [row "a"%string 3; row "b"%string 4] [(lit "a", lit "s"); (lit "b", lit "s")] [(lit "s", lit "S")]).
  repeat constructor; by vm_compute.
Defined.

Example members_add_up :
  let row i u := {| mt_id := lit i; mt_name := []; mt_months := [(lit "2026-11", {| up := u; down := 0 |})]; mt_total := {| up := u; down := 0 |} |} in
  mt_total <$> sum_subscription_members [row "a"%string 3; row "b"%string 4] [(lit "a", lit "s"); (lit "b", lit "s")] [(lit "s", lit "S")] = [{| up := 7; down := 0 |}].
Proof. reflexivity. Qed.
