(* ===== verification/HttpProxy.v ===== *)
(** * The HTTP proxy (proxy/http.rs, proxy/http_forward.rs)

    The reader of a request header with its scan cursor, the parsers of the request line
    and of an authority, the two ways a connection is handled, the headers that a
    forwarded message keeps and the replay of what was read ahead.  A client is the list
    of what its reads will return: a chunk, the end as an empty chunk, or an error. *)
From Stdlib Require Import String.
From S2P Require Import Prelude Bytes Text TextTrim Net NetText AsyncIo.

#[local] Open Scope string_scope.
#[local] Open Scope list_scope.
#[local] Open Scope Z_scope.

Definition MAX_HEADER_SIZE : Z := 8192.

(** [windows(len p).position(|w| w == p)] of a non-empty [p]. *)
Fixpoint find_sub (p s : bytes) : option nat :=
  if starts_with p s then Some O else match s with [] => None | _ :: s => S <$> find_sub p s end.

Definition CRLF : bytes := [13; 10].
Definition find_header_end (buf : bytes) : option nat := find_sub (CRLF ++ CRLF) buf.

(** ** Reading the header *)
Inductive reading :=
  | Waiting (buf : bytes)
  | Read (result : outcome (bytes * bytes)) (rest : list (outcome bytes)).

Fixpoint read_loop (buf : bytes) (cursor : Z) (reads : list (outcome bytes)) : reading :=
  match reads with
  | [] => Waiting buf
  | Ok [] :: reads => Read (Err "Connection closed before HTTP header complete") reads
  | Ok chunk :: reads =>
      let buf := buf ++ chunk in
      match sub buf cursor (len buf) with
      | Ok window =>
          match find_header_end window with
          | Some pos =>
              let end_ := cursor + Z.of_nat pos + 4 in
              if MAX_HEADER_SIZE <? end_ then Read (Err "HTTP header too long") reads
              else Read (header ← sub buf 0 end_; remaining ← sub buf end_ (len buf); Ok (header, remaining)) reads
          | None =>
              let cursor := Z.max 0 (len buf - 3) in
              if MAX_HEADER_SIZE <? len buf then Read (Err "HTTP header too long") reads else read_loop buf cursor reads
          end
      | Err e => Read (Err e) reads
      | Panic => Read Panic reads
      | Diverge => Read Diverge reads
      end
  | Err e :: reads => Read (Err e) reads
  | Panic :: reads => Read Panic reads
  | Diverge :: reads => Read Diverge reads
  end.

Definition read_http_header (reads : list (outcome bytes)) : reading := read_loop [] 0 reads.

(** ** Parsing *)
Definition brackets (c : Z) : bool := (c =? 91) || (c =? 93).

Definition parse_host_port (target : bytes) (default_port : Z) : outcome (bytes * Z) :=
  match strip_prefix [91] target with
  | Some rest =>
      '(host, suffix) ← ok_or (split_once 93 rest) "Unclosed IPv6 address";
      _ ← ok_or (parse_ipv6 host) "invalid IPv6 address syntax";
      port ← (match suffix with
              | [] => Ok default_port
              | _ => digits ← ok_or (strip_prefix [58] suffix) "Invalid IPv6 authority"; ok_or (parse_uint 65535 digits) "invalid port"
              end);
      Ok (host, port)
  | None =>
      '(host, port) ← (match split_once 58 target with
                       | Some (host, port) => port ← ok_or (parse_uint 65535 port) "invalid port"; Ok (host, port)
                       | None => Ok (target, default_port)
                       end);
      _ ← ensure (negb (bool_decide (host = []) || existsb brackets host)) "Invalid host in proxy target";
      Ok (host, port)
  end.

Definition parse_request_line (header : bytes) : outcome (bytes * bytes * bytes) :=
  let first_line_end := default (length header) (find_sub CRLF header) in
  line ← from_utf8 (take first_line_end header);
  match split_once 32 line with
  | Some (method, rest) =>
      match split_once 32 rest with
      | Some (target, version) => Ok (method, target, version)
      | None => Err "Invalid HTTP request line"
      end
  | None => Err "Invalid HTTP request line"
  end.

(** ** A connection *)
(** What a connection has become: a tunnel, after which both sides are relayed, or a
    connection served request by request with what was read put in front of it. *)
Inductive handled :=
  | Tunnel (host : bytes) (port : Z) (to_client to_remote : bytes)
  | Serve (prefix : bytes)
  | Refused (to_client : bytes) (error : string).

Definition ESTABLISHED : bytes := lit "HTTP/1.1 200 Connection Established" ++ CRLF ++ CRLF.
Definition BAD_GATEWAY : bytes := lit "HTTP/1.1 502 Bad Gateway" ++ CRLF ++ CRLF.

Section connection.
Context (connect_upstream : bytes → Z → outcome unit).

(** [handle_http] up to the relay; [None] while the header is being read. *)
Definition handle_http (reads : list (outcome bytes)) : option (outcome handled * list (outcome bytes)) :=
  match read_http_header reads with
  | Waiting _ => None
  | Read result rest =>
      Some ('(header, remaining) ← result;
            '(method, target, _) ← parse_request_line header;
            if eq_ignore_ascii_case method (lit "CONNECT") then
              '(host, port) ← parse_host_port target 443;
              match connect_upstream host port with
              | Ok _ => Ok (Tunnel host port ESTABLISHED remaining)
              | Err e => Ok (Refused BAD_GATEWAY e)
              | Panic => Panic
              | Diverge => Diverge
              end
            else Ok (Serve (header ++ remaining)), rest)
  end.
End connection.

(** ** Headers of a forwarded message *)
(** A [HeaderMap]: names in lower case, several values for a name in order. *)
Abbreviation HeaderMap := (list (bytes * bytes)).
Definition get_all (name : bytes) (headers : HeaderMap) : list bytes := (filter (λ e, e.1 = name) headers).*2.
Definition remove (name : bytes) (headers : HeaderMap) : HeaderMap := filter (λ e, e.1 ≠ to_ascii_lowercase name) headers.
Definition insert (name value : bytes) (headers : HeaderMap) : HeaderMap := remove name headers ++ [(name, value)].

(** [HeaderValue::to_str]: visible ASCII and tabs. *)
Definition to_str (v : bytes) : option bytes := if forallb (λ c, between 32 126 c || (c =? 9)) v then Some v else None.

(** The members of the [Connection] header. *)
Definition nominations (headers : HeaderMap) : list bytes :=
  flat_map (λ v, map trim (split_on 44 v)) (omap to_str (get_all (lit "connection") headers)).

Definition HOP_BY_HOP : list bytes :=
  map lit ["proxy-authorization"; "proxy-authenticate"; "proxy-connection"; "connection"; "keep-alive"; "te"; "trailer"; "transfer-encoding"].

Definition remove_nominated (upgrade : bool) (headers : HeaderMap) (name : bytes) : HeaderMap :=
  if negb upgrade || negb (eq_ignore_ascii_case name (lit "upgrade")) then remove name headers else headers.

Definition clean (headers : HeaderMap) (upgrade : bool) : HeaderMap :=
  let headers := foldl (remove_nominated upgrade) headers (nominations headers) in
  let headers := foldl (λ h name, remove name h) headers HOP_BY_HOP in
  if upgrade then insert (lit "connection") (lit "upgrade") headers else remove (lit "upgrade") headers.

(** ** Forwarding a request *)
Record Authority := { as_str : bytes; host : bytes; port_u16 : option Z }.
Record Request := { is_connect : bool; scheme : option bytes; authority : option Authority; path_and_query : option bytes; headers : HeaderMap }.

Definition wants_upgrade (h : HeaderMap) : bool :=
  existsb (λ v, existsb (λ v, eq_ignore_ascii_case (trim v) (lit "upgrade")) (split_on 44 v)) (omap to_str (get_all (lit "connection") h))
  && existsb (λ e, bool_decide (e.1 = lit "upgrade")) h.

(** The characters [s] starts or ends with. *)
Definition trim_start_matches (c : Z) (s : bytes) : bytes := trim_start_byte c s.
Definition trim_end_matches (c : Z) (s : bytes) : bytes := trim_end_byte c s.

(** What [forward] sends, and where to. *)
Record Forwarded := { to_host : bytes; to_port : Z; uri : bytes; sent_headers : HeaderMap; upgrading : bool }.

Definition forward_request (request : Request) : outcome Forwarded :=
  _ ← ensure (negb (is_connect request)) "CONNECT requires a dedicated proxy connection";
  _ ← ensure (bool_decide (scheme request = Some (lit "http"))) "Only absolute HTTP URLs are accepted";
  authority ← ok_or (authority request) "Missing authority";
  _ ← ensure (negb (existsb (Z.eqb 64) (as_str authority))) "User information is not accepted in proxy URLs";
  let wants := wants_upgrade (headers request) in
  Ok {| to_host := trim_end_matches 93 (trim_start_matches 91 (host authority)); to_port := default 80 (port_u16 authority);
        uri := default (lit "/") (path_and_query request);
        sent_headers := insert (lit "host") (as_str authority) (clean (headers request) wants); upgrading := wants |}.

(** What the client gets for the answer of the origin. *)
Definition forward_response (f : Forwarded) (status : Z) (h : HeaderMap) : outcome HeaderMap :=
  let upgraded := status =? 101 in
  _ ← ensure (negb upgraded || upgrading f) "Unsolicited HTTP upgrade";
  Ok (clean h upgraded).

(** ** What was read ahead *)
Record Prefixed := { stream : Raw; prefix : bytes; position : Z }.

Definition prefixed_read (n : Z) (p : Prefixed) : poll bytes * Prefixed :=
  if position p <? len (prefix p) then
    let k := Z.min n (len (prefix p) - position p) in
    (Ready (sub (prefix p) (position p) (position p + k)), {| stream := stream p; prefix := prefix p; position := position p + k |})
  else let '(r, s) := raw_read n (stream p) in (r, {| stream := s; prefix := prefix p; position := position p |}).
