(* ===== verification/HttpProxySpec.v ===== *)
(** * What the HTTP proxy reads, and what it passes on (proxy/http.rs, proxy/http_forward.rs) *)
From Stdlib Require Import String.
From S2P Require Import Prelude Bytes Text TextTrim Net NetText AsyncIo HttpProxy.

#[local] Open Scope string_scope.
#[local] Open Scope list_scope.
#[local] Open Scope Z_scope.

(** ** Searching *)
Lemma find_sub_some p s i : find_sub p s = Some i ↔
  starts_with p (drop i s) = true ∧ ∀ j, (j < i)%nat → starts_with p (drop j s) = false.
Proof.
  revert i. induction s as [|c s IH]; intros i.
  - cbn [find_sub]. destruct (starts_with p []) eqn:E.
    + split; [intros [= <-]; by split; [|lia]|]. intros [_ Hj]. destruct i; [done|]. specialize (Hj 0%nat ltac:(lia)). cbn in Hj. congruence.
    + split; [done|]. rewrite drop_nil. by intros [? _]; congruence.
  - cbn [find_sub]. destruct (starts_with p (c :: s)) eqn:E.
    + split; [intros [= <-]; by split; [|lia]|]. intros [_ Hj]. destruct i; [done|]. specialize (Hj 0%nat ltac:(lia)). cbn [drop] in Hj. congruence.
    + rewrite fmap_Some. split.
      * intros (k & [H1 H2]%IH & ->). split; [done|]. intros [|j] Hj; [done|]. apply H2. lia.
      * intros [H1 H2]. destruct i as [|i]; [cbn [drop] in H1; congruence|]. exists i. split; [|done]. apply IH. split; [done|].
        intros j Hj. by apply (H2 (S j)); lia.
Qed.

Lemma find_sub_none p s : p ≠ [] → find_sub p s = None ↔ ∀ j, starts_with p (drop j s) = false.
Proof.
  intros Hp. assert (∀ j, starts_with p (drop j []) = false) as Hnil by (intros j; rewrite drop_nil; by destruct p).
  induction s as [|c s IH]; cbn [find_sub].
  - rewrite (Hnil 0%nat : starts_with p [] = false). done.
  - destruct (starts_with p (c :: s)) eqn:E.
    + split; [done|]. intros Hj. specialize (Hj 0%nat). cbn in Hj. congruence.
    + destruct (find_sub p s) as [i|]; cbn; split; try done.
      * intros Hj. enough (Some i = None) by done. apply IH. intros j. apply (Hj (S j)).
      * intros _ [|j]; [done|]. cbn. by apply IH.
Qed.

Lemma starts_with_app_long p a b : (length p <= length a)%nat → starts_with p (a ++ b) = starts_with p a.
Proof.
  revert a. induction p as [|x p IH]; intros [|y a] Hl; cbn in *; [done|done|lia|]. f_equal. apply IH. lia.
Qed.

Lemma starts_with_length p a : starts_with p a = true → (length p <= length a)%nat.
Proof. intros (t & ->)%starts_with_spec. rewrite length_app. lia. Qed.

Lemma find_sub_bound p s i : p ≠ [] → find_sub p s = Some i → (i + length p <= length s)%nat.
Proof.
  intros Hp [H1 _]%find_sub_some. apply starts_with_length in H1. rewrite length_drop in H1. destruct p; cbn in *; [done|lia].
Qed.

(** A match is found where it was, whatever comes after it. *)
Lemma find_sub_app p a b i : p ≠ [] → find_sub p a = Some i → find_sub p (a ++ b) = Some i.
Proof.
  intros Hp E. pose proof (find_sub_bound _ _ _ Hp E) as Hi. revert E. rewrite !find_sub_some. intros [H1 H2].
  assert (∀ j, (j <= i)%nat → starts_with p (drop j (a ++ b)) = starts_with p (drop j a)) as Hd.
  { intros j Hj. rewrite drop_app_le by lia. apply starts_with_app_long. rewrite length_drop. lia. }
  split; [by rewrite Hd|]. intros j Hj. rewrite Hd by lia. by apply H2.
Qed.

(** Scanning may resume [length p - 1] bytes before the end of what has no match. *)
Lemma find_sub_resume p a b k : p ≠ [] → find_sub p a = None → (k = 0 ∨ k + length p <= S (length a))%nat →
  find_sub p (a ++ b) = Nat.add k <$> find_sub p (drop k (a ++ b)).
Proof.
  intros Hp Ha Hk. rewrite find_sub_none in Ha by done.
  assert (∀ j, (j < k)%nat → starts_with p (drop j (a ++ b)) = false) as Hb.
  { intros j Hj. rewrite drop_app_le by lia. rewrite starts_with_app_long; [apply Ha|]. rewrite length_drop. lia. }
  destruct (find_sub p (drop k (a ++ b))) as [i|] eqn:E; cbn.
  - apply find_sub_some in E as [H1 H2]. rewrite drop_drop in H1. apply find_sub_some. split; [done|]. intros j Hj.
    destruct (decide (j < k)%nat); [by apply Hb|]. specialize (H2 (j - k)%nat ltac:(lia)). rewrite drop_drop in H2. by replace (k + (j - k))%nat with j in H2 by lia.
  - apply find_sub_none; [done|]. rewrite find_sub_none in E by done. intros j.
    destruct (decide (j < k)%nat); [by apply Hb|]. specialize (E (j - k)%nat). rewrite drop_drop in E. by replace (k + (j - k))%nat with j in E by lia.
Qed.


(** ** Reading the header *)
(** What the bytes of a client say, however they are cut. *)
Inductive verdict := Incomplete | TooLong | Header (n : Z).

Definition header_of (s : bytes) : verdict :=
  match find_header_end s with
  | Some pos => let n := Z.of_nat pos + 4 in if MAX_HEADER_SIZE <? n then TooLong else Header n
  | None => if MAX_HEADER_SIZE <? len s then TooLong else Incomplete
  end.

Definition blank_line : bytes := CRLF ++ CRLF.
Lemma blank_line_ne : blank_line ≠ [].
Proof. discriminate. Qed.

Lemma header_of_app a b : header_of a ≠ Incomplete → header_of (a ++ b) = header_of a.
Proof.
  unfold header_of, find_header_end. fold blank_line. destruct (find_sub blank_line a) as [i|] eqn:E.
  - intros _. by rewrite (find_sub_app _ _ b _ blank_line_ne E).
  - destruct (Z.ltb_spec MAX_HEADER_SIZE (len a)) as [Hl|]; [|done]. intros _.
    destruct (find_sub blank_line (a ++ b)) as [i|] eqn:Ei.
    + destruct (decide (i + 4 <= length a)%nat) as [Hi|Hi].
      * apply find_sub_some in Ei as [H1 _]. rewrite drop_app_le, starts_with_app_long in H1 by (rewrite ?length_drop; cbn; lia).
        rewrite find_sub_none in E by apply blank_line_ne. by rewrite E in H1.
      * destruct (Z.ltb_spec MAX_HEADER_SIZE (Z.of_nat i + 4)); [done|]. unfold len in Hl. lia.
    + rewrite len_app. destruct (Z.ltb_spec MAX_HEADER_SIZE (len a + len b)); [done|]. pose proof (len_nonneg b). lia.
Qed.

(** The reads of a client that sends [chunks]. *)
Definition reads_of (chunks : list bytes) : list (outcome bytes) := map Ok chunks.
Definition unread (rest : list (outcome bytes)) : bytes := flat_map (λ r, match r with Ok bs => bs | _ => [] end) rest.

Lemma unread_reads chunks : unread (reads_of chunks) = concat chunks.
Proof. induction chunks as [|c l IH]; [done|]. cbn. by f_equal. Qed.

Lemma sub_take {A} (l : list A) n : 0 <= n <= len l → sub l 0 n = Ok (take (Z.to_nat n) l).
Proof. intros Hn. rewrite sub_in by lia. unfold range. do 2 f_equal. lia. Qed.

Lemma sub_drop {A} (l : list A) n : 0 <= n <= len l → sub l n (len l) = Ok (drop (Z.to_nat n) l).
Proof. intros Hn. rewrite sub_in by lia. unfold range. f_equal. apply take_ge. rewrite length_drop. unfold len in *. lia. Qed.

(** One more chunk: the scan from the cursor finds what a scan of the whole would. *)
Lemma scan_resumes buf c : header_of buf = Incomplete →
  let cursor := Z.max 0 (len buf - 3) in
  find_header_end (buf ++ c) = Nat.add (Z.to_nat cursor) <$> find_header_end (drop (Z.to_nat cursor) (buf ++ c)).
Proof.
  intros Hb cursor. unfold header_of, find_header_end in *. fold blank_line in *.
  destruct (find_sub blank_line buf) eqn:E; [by destruct (_ <? _)|].
  apply find_sub_resume; [apply blank_line_ne|done|]. unfold cursor, len. cbn. lia.
Qed.

Definition reading_ok (s : bytes) (r : reading) : Prop :=
  match header_of s with
  | Incomplete => r = Waiting s
  | TooLong => ∃ rest, r = Read (Err "HTTP header too long") rest
  | Header n => ∃ remaining rest, r = Read (Ok (take (Z.to_nat n) s, remaining)) rest ∧ remaining ++ unread rest = drop (Z.to_nat n) s
  end.

Lemma header_loop_spec chunks : ∀ buf, Forall (λ c, c ≠ []) chunks → header_of buf = Incomplete →
  reading_ok (buf ++ concat chunks) (read_loop buf (Z.max 0 (len buf - 3)) (reads_of chunks)).
Proof.
  induction chunks as [|c chunks IH]; intros buf Hc Hb.
  - unfold reading_ok. cbn [concat]. by rewrite app_nil_r, Hb.
  - apply Forall_cons in Hc as [Hc Hcs]. cbn [concat]. rewrite app_assoc. cbn [reads_of map read_loop]. fold (reads_of chunks).
    destruct c as [|c0 c']; [done|]. set (c := c0 :: c') in *. set (cursor := Z.max 0 (len buf - 3)).
    pose proof (len_nonneg buf) as Hl0. pose proof (len_nonneg c) as Hl1.
    rewrite sub_drop by (unfold cursor; rewrite ?len_app; lia). pose proof (scan_resumes buf c Hb) as Hres. cbv zeta in Hres. fold cursor in Hres.
    destruct (find_header_end (drop (Z.to_nat cursor) _)) as [pos|]; cbn [fmap option_fmap option_map] in Hres.
    + assert (header_of (buf ++ c) = if MAX_HEADER_SIZE <? cursor + Z.of_nat pos + 4 then TooLong else Header (cursor + Z.of_nat pos + 4)) as Hh.
      { unfold header_of. rewrite Hres. by replace (Z.of_nat (Z.to_nat cursor + pos)) with (cursor + Z.of_nat pos) by (unfold cursor; lia). }
      unfold reading_ok. rewrite header_of_app; rewrite Hh; [|by destruct (_ <? _)]. destruct (MAX_HEADER_SIZE <? _); [by eexists|].
      apply find_sub_bound in Hres; [|apply blank_line_ne]. set (n := cursor + Z.of_nat pos + 4).
      assert (0 <= n <= len (buf ++ c)) as Hn by (unfold n, len, cursor in *; cbn in Hres; lia).
      rewrite sub_take by lia. cbn [mbind outcome_bind]. rewrite sub_drop by lia. cbn [mbind outcome_bind].
      assert (Z.to_nat n <= length (buf ++ c))%nat as Hn' by (clear -Hn; unfold len in Hn; lia). exists (drop (Z.to_nat n) (buf ++ c)), (reads_of chunks).
      rewrite (take_app_le (buf ++ c) (concat chunks)), (drop_app_le (buf ++ c) (concat chunks)), unread_reads by exact Hn'. done.
    + assert (header_of (buf ++ c) = if MAX_HEADER_SIZE <? len (buf ++ c) then TooLong else Incomplete) as Hh by (unfold header_of; by rewrite Hres).
      destruct (MAX_HEADER_SIZE <? len (buf ++ c)).
      * unfold reading_ok. rewrite header_of_app; rewrite Hh; [|done]. by eexists.
      * by apply IH.
Qed.

Lemma read_http_header_ok chunks : Forall (λ c, c ≠ []) chunks → reading_ok (concat chunks) (read_http_header (reads_of chunks)).
Proof. intros Hc. by apply (header_loop_spec chunks [] Hc). Qed.

(** ** Authorities *)
Lemma Forall_join (P : Z → Prop) sep parts : Forall P sep → Forall (Forall P) parts → Forall P (join sep parts).
Proof.
  intros Hs Hp. induction Hp as [|p [|q parts] Hx Hp IH]; cbn [join]; [constructor|done|]. by rewrite !Forall_app.
Qed.

Definition address_char (c : Z) : Prop := c ≠ 93.

Lemma show_hex_chars fuel : ∀ n, 0 <= n → Forall address_char (show_hex fuel n).
Proof.
  assert (∀ d, 0 <= d < 16 → address_char (hex_digit d)) as Hd by (intros d Hd; unfold address_char, hex_digit; destruct (Z.ltb_spec d 10); lia).
  induction fuel as [|fuel IH]; intros n Hn; cbn [show_hex]; [constructor|]. destruct (Z.ltb_spec n 16); [repeat constructor; apply Hd; lia|].
  apply Forall_app. split; [apply IH; lia|]. repeat constructor. apply Hd. lia.
Qed.

Lemma show_digits_chars fuel : ∀ n, 0 <= n → Forall (λ c, 48 <= c <= 57) (show_digits fuel n).
Proof.
  induction fuel as [|fuel IH]; intros n Hn; cbn [show_digits]; [constructor|]. destruct (Z.ltb_spec n 10); [repeat constructor; lia|].
  apply Forall_app. split; [apply IH; lia|]. repeat constructor; lia.
Qed.

Lemma show_ipv6_chars a : 0 <= a → 93 ∉ show_ipv6 a.
Proof.
  intros Ha. enough (Forall address_char (show_ipv6 a)) as Hf by (intros Hin; rewrite Forall_forall in Hf; by apply (Hf 93)).
  assert (∀ gs, Forall (λ g, 0 <= g) gs → Forall address_char (show_groups gs)) as Hg.
  { intros gs Hgs. unfold show_groups. apply Forall_join; [by repeat constructor|]. apply Forall_map. eapply Forall_impl; [exact Hgs|].
    intros g. apply show_hex_chars. }
  assert (Forall (λ g, 0 <= g) (segments a)) as Hseg.
  { unfold segments. apply Forall_map, Forall_true. intros i. unfold segment. lia. }
  unfold show_ipv6. destruct (to_ipv4_mapped a) as [v4|].
  - apply Forall_app. split; [by repeat constructor|]. unfold show_ipv4. apply Forall_join; [by repeat constructor|]. apply Forall_map, Forall_forall.
    intros b Hb. pose proof (be_bytes_u8 4 v4) as Hu. unfold is_bytes in Hu. rewrite Forall_forall in Hu. specialize (Hu b Hb). unfold u8 in Hu.
    eapply Forall_impl; [apply show_digits_chars; lia|]. intros c. unfold address_char. lia.
  - destruct (longest_zeros _) as [start n]. destruct (1 <? n)%nat; [|by apply Hg]. rewrite !Forall_app.
    split; [by apply Hg, Forall_take|]. split; [by repeat constructor|by apply Hg, Forall_drop].
Qed.

Lemma split_once_none_inv c s : split_once c s = None → c ∉ s.
Proof.
  induction s as [|x s IH]; cbn; [intros _ []%not_elem_of_nil|]. destruct (Z.eqb_spec x c); [done|]. destruct (split_once c s) as [[]|]; [done|].
  intros _ [->|Hin]%elem_of_cons; [done|by apply IH].
Qed.

Lemma existsb_brackets h : existsb brackets h = false ↔ 91 ∉ h ∧ 93 ∉ h.
Proof.
  induction h as [|c h IH]; [by split; [split; apply not_elem_of_nil|]|]. cbn [existsb]. rewrite orb_false_iff, IH, !not_elem_of_cons.
  unfold brackets. rewrite orb_false_iff, !Z.eqb_neq. naive_solver.
Qed.

(** A name or an IPv4 address, or an IPv6 address. *)
Definition plain_host (h : bytes) : Prop := h ≠ [] ∧ 58 ∉ h ∧ 91 ∉ h ∧ 93 ∉ h.

Lemma parse_host_port_returns t d : returns (parse_host_port t d).
Proof.
  unfold parse_host_port. destruct (strip_prefix [91] t) as [rest|].
  - destruct (split_once 93 rest) as [[h sfx]|]; [|done]. cbn. destruct (parse_ipv6 h); [|done]. cbn. destruct sfx as [|c sfx]; [done|].
    destruct (strip_prefix [58] (c :: sfx)) as [ds|]; [|done]. cbn. by destruct (parse_uint 65535 ds).
  - destruct (split_once 58 t) as [[h ds]|]; [destruct (parse_uint 65535 ds); [|done]|]; cbn; by destruct (negb _).
Qed.

(** The parser of an authority inverts the ways it is written: a name or IPv4 address,
    and an IPv6 address in brackets, with a port or without. It never panics, and what it
    accepts is an IPv6 address or a non-empty text without colons and brackets, and a
    port of 16 bits. *)
Theorem parse_host_port_spec d : u16 d →
  (∀ h p, plain_host h → u16 p → parse_host_port (h ++ [58] ++ show_uint p) d = Ok (h, p) ∧ parse_host_port h d = Ok (h, d)) ∧
  (∀ a p, u128 a → u16 p → parse_host_port ([91] ++ show_ipv6 a ++ [93; 58] ++ show_uint p) d = Ok (show_ipv6 a, p) ∧
    parse_host_port ([91] ++ show_ipv6 a ++ [93]) d = Ok (show_ipv6 a, d)) ∧
  ∀ t, match parse_host_port t d with
       | Ok (h, p) => u16 p ∧ (is_Some (parse_ipv6 h) ∨ plain_host h)
       | Err _ => True
       | _ => False
       end.
Proof.
  intros Hd. assert (∀ p, u16 p → parse_uint 65535 (show_uint p) = Some p) as Hu by (intros p Hp; unfold u16 in Hp; apply parse_show_uint; lia).
  split; [|split].
  - intros h p (Hne & Hc & Ho & Hb) Hp. unfold parse_host_port.
    assert (∀ t, strip_prefix [91] (h ++ t) = None) as Hs.
    { intros t. destruct h as [|c h]; [done|]. unfold strip_prefix. cbn [starts_with app]. apply not_elem_of_cons in Ho as [Ho _].
      by rewrite (proj2 (Z.eqb_neq 91 c)) by congruence. }
    pose proof (Hs []) as Hs0. rewrite app_nil_r in Hs0. rewrite Hs, Hs0. change ([58] ++ show_uint p) with (58 :: show_uint p).
    rewrite split_once_app, split_once_none by done. rewrite Hu by done. cbn [ok_or mbind outcome_bind].
    assert (existsb brackets h = false) as -> by (by apply existsb_brackets). by rewrite bool_decide_eq_false_2 by done.
  - intros a p Ha Hp. unfold parse_host_port.
    assert (∀ t, strip_prefix [91] ([91] ++ t) = Some t) as Hs by (intros t; apply (strip_prefix_app [91])). rewrite !Hs.
    assert (93 ∉ show_ipv6 a) as Hc by (apply show_ipv6_chars; unfold u128 in Ha; lia).
    change ([93; 58] ++ show_uint p) with (93 :: [58] ++ show_uint p). rewrite !split_once_app by done. cbn [ok_or mbind outcome_bind].
    rewrite parse_show_ipv6 by done. cbn [ok_or mbind outcome_bind]. rewrite (strip_prefix_app [58] (show_uint p)). cbn [app ok_or mbind outcome_bind]. by rewrite Hu.
  - intros t. pose proof (parse_host_port_returns t d) as Hr. destruct (parse_host_port t d) as [[h p]| | |] eqn:E; try done.
    unfold parse_host_port in E. destruct (strip_prefix [91] t) as [rest|].
    + inv_ok. destruct x as [h' sfx]. inv_ok. destruct sfx as [|c sfx]; inv_ok; simplify_eq; [by split; [|left]|].
      split; [|left; eauto]. apply parse_uint_range in Hx1; unfold u16; lia.
    + inv_ok. destruct x as [h' p']. inv_ok. simplify_eq. apply negb_true_iff, orb_false_iff in Hx0 as [Hne Hb]. apply bool_decide_eq_false in Hne.
      apply existsb_brackets in Hb. destruct (split_once 58 t) as [[l r]|] eqn:Es; inv_ok; simplify_eq.
      * apply split_once_split in Es as [_ Hc]. apply parse_uint_range in Hx0 as Hp; [|lia]. split; [unfold u16; lia|]. right. by destruct Hb.
      * apply split_once_none_inv in Es. split; [done|]. right. by destruct Hb.
Qed.

(** ** A connection *)
Lemma parse_request_line_returns h : returns (parse_request_line h).
Proof.
  unfold parse_request_line, from_utf8. destruct (utf8_valid _); [|done]. cbn. destruct (split_once 32 _) as [[m r]|]; [|done].
  by destruct (split_once 32 r) as [[]|].
Qed.

(** What is still to be read: the rest of the prefix, then the stream. *)
Definition left_to_read (p : Prefixed) : bytes := drop (Z.to_nat (position p)) (prefix p) ++ arriving (stream p).
Definition prefixed_ok (p : Prefixed) : Prop := 0 <= position p <= len (prefix p).

Lemma prefixed_read_ok n p r p' : 0 < n → prefixed_ok p → prefixed_read n p = (r, p') →
  prefixed_ok p' ∧ left_to_read p = delivered [r] ++ left_to_read p'.
Proof.
  intros Hn Hp. unfold prefixed_read, prefixed_ok, left_to_read in *. destruct (Z.ltb_spec (position p) (len (prefix p))).
  - intros [= <- <-]. cbn [position prefix stream]. split; [lia|].
    rewrite sub_in by lia. unfold delivered. cbn [flat_map]. rewrite app_nil_r, app_assoc. f_equal. unfold range.
    replace (Z.to_nat (position p + Z.min n (len (prefix p) - position p) - position p)) with (Z.to_nat (Z.min n (len (prefix p) - position p))) by lia.
    replace (Z.to_nat (position p + Z.min n (len (prefix p) - position p))) with (Z.to_nat (position p) + Z.to_nat (Z.min n (len (prefix p) - position p)))%nat by lia.
    by rewrite <- drop_drop, take_drop.
  - destruct (raw_read n (stream p)) as [r0 s] eqn:E. intros [= <- <-]. cbn [position prefix stream]. split; [done|].
    rewrite !drop_ge by (unfold len in *; lia). apply raw_read_arriving in E as (_ & _ & E); [|lia].
    destruct r0 as [|[bs|e| |]]; cbn; try done. by destruct E as [-> _]; rewrite app_nil_r.
Qed.

Lemma prefixed_reads_ok ns : ∀ p rs p', Forall (λ n, 0 < n) ns → prefixed_ok p → polls prefixed_read ns p = (rs, p') →
  prefixed_ok p' ∧ left_to_read p = delivered rs ++ left_to_read p'.
Proof.
  induction ns as [|n ns IH]; intros p rs p' Hns Hp E; cbn in E; [by injection E as <- <-|].
  apply Forall_cons in Hns as [Hn Hns]. destruct (prefixed_read n p) as [r q] eqn:Eq. destruct (polls prefixed_read ns q) as [rs' q'] eqn:Er.
  injection E as <- <-. destruct (prefixed_read_ok _ _ _ _ Hn Hp Eq) as [Hq E1]. destruct (IH _ _ _ Hns Hq Er) as [Hq' E2].
  split; [done|]. rewrite E1, E2. unfold delivered. cbn [flat_map]. by rewrite app_nil_r, app_assoc.
Qed.

(** The server that reads from a connection with a prefix gets the whole stream. *)
Definition replays (s : bytes) (p : bytes) (rest : list (outcome bytes)) : Prop :=
  ∀ ns stream rs q, arriving stream = unread rest → Forall (λ n, 0 < n) ns →
    polls prefixed_read ns {| stream := stream; prefix := p; position := 0 |} = (rs, q) → delivered rs ++ left_to_read q = s.

Lemma replays_all s p rest : p ++ unread rest = s → replays s p rest.
Proof.
  intros Hs ns st rs q Ha Hns E. apply prefixed_reads_ok in E as [_ E]; [|done|unfold prefixed_ok; cbn; pose proof (len_nonneg p); lia].
  rewrite <- E. unfold left_to_read. cbn [position prefix HttpProxy.stream]. by rewrite drop_0, Ha.
Qed.

Section connection.
Context (connect_upstream : bytes → Z → outcome unit).

(** C21. A connection is decided by the bytes the client sends, however reads cut them. A
    header that does not end within 8192 bytes is refused; otherwise the header is
    everything up to the first blank line. For CONNECT the client is told of the tunnel
    only when the destination was reached, and what the relay starts with is exactly what
    follows the header; when it was not reached the answer is 502; every other request is
    served from a connection that replays the whole stream, whatever the sizes of its
    reads and the pauses of the network. *)
Theorem http_proxy_spec chunks : Forall (λ c, c ≠ []) chunks →
  let s := concat chunks in
  match header_of s with
  | Incomplete => handle_http connect_upstream (reads_of chunks) = None
  | TooLong => ∃ rest, handle_http connect_upstream (reads_of chunks) = Some (Err "HTTP header too long", rest)
  | Header n => ∃ r rest, handle_http connect_upstream (reads_of chunks) = Some (r, rest) ∧
      match parse_request_line (take (Z.to_nat n) s) with
      | Ok (method, target, _) =>
          if eq_ignore_ascii_case method (lit "CONNECT") then
            match parse_host_port target 443 with
            | Ok (host, port) =>
                match connect_upstream host port with
                | Ok _ => ∃ ahead, r = Ok (Tunnel host port ESTABLISHED ahead) ∧ ahead ++ unread rest = drop (Z.to_nat n) s
                | Err e => r = Ok (Refused BAD_GATEWAY e)
                | Panic => r = Panic
                | Diverge => r = Diverge
                end
            | Err e => r = Err e
            | _ => False
            end
          else ∃ p, r = Ok (Serve p) ∧ replays s p rest
      | Err e => r = Err e
      | _ => False
      end
  end.
Proof.
  intros Hc s. pose proof (read_http_header_ok chunks Hc) as Hr. fold s in Hr. unfold reading_ok in Hr. unfold handle_http.
  destruct (header_of s) as [| |n]; [by rewrite Hr|by destruct Hr as [rest ->]; exists rest|].
  destruct Hr as (remaining & rest & -> & Hrest). eexists _, rest. split; [done|]. cbn [mbind outcome_bind].
  pose proof (parse_request_line_returns (take (Z.to_nat n) s)) as Hp. destruct (parse_request_line _) as [[[method target] version]| | |]; try done.
  cbn [mbind outcome_bind]. destruct (eq_ignore_ascii_case _ _).
  - pose proof (parse_host_port_returns target 443) as Hh. destruct (parse_host_port target 443) as [[host port]| | |]; try done.
    cbn [mbind outcome_bind]. destruct (connect_upstream host port); [by exists remaining|done..].
  - eexists. split; [done|]. apply replays_all. by rewrite <- app_assoc, Hrest, take_drop.
Qed.
End connection.

(** ** Forwarded headers *)
(** The names [clean] lets through. *)
Definition passes (upgrade : bool) (nominated : list bytes) (name : bytes) : bool :=
  negb (bool_decide (name ∈ HOP_BY_HOP)) &&
  forallb (λ n, (upgrade && eq_ignore_ascii_case n (lit "upgrade")) || negb (bool_decide (to_ascii_lowercase n = name))) nominated &&
  (upgrade || negb (bool_decide (name = lit "upgrade"))).

(** The headers whose name satisfies [p]. *)
Definition kept (p : bytes → bool) (h : HeaderMap) : HeaderMap := filter (λ e, p e.1 = true) h.

Lemma kept_kept p q h : kept p (kept q h) = kept (λ n, q n && p n) h.
Proof.
  unfold kept. rewrite list_filter_filter. apply list_filter_iff. intros e. rewrite andb_true_iff. tauto.
Qed.

Lemma kept_ext p q h : (∀ n, p n = q n) → kept p h = kept q h.
Proof. intros Hpq. apply list_filter_iff. intros e. by rewrite Hpq. Qed.

Lemma kept_all p h : (∀ n, p n = true) → kept p h = h.
Proof. intros Hp. unfold kept. induction h as [|e h IH]; [done|]. rewrite filter_cons_True by apply Hp. by f_equal. Qed.

Lemma remove_kept n h : remove n h = kept (λ m, negb (bool_decide (m = to_ascii_lowercase n))) h.
Proof. apply list_filter_iff. intros e. by rewrite negb_true_iff, bool_decide_eq_false. Qed.

Lemma remove_all_kept names h : Forall (λ n, to_ascii_lowercase n = n) names →
  foldl (λ h name, remove name h) h names = kept (λ m, negb (bool_decide (m ∈ names))) h.
Proof.
  revert h. induction names as [|n names IH]; intros h Hl; cbn [foldl].
  - symmetry. apply kept_all. intros m. apply negb_true_iff, bool_decide_eq_false, not_elem_of_nil.
  - apply Forall_cons in Hl as [Hn Hl]. rewrite IH by done. rewrite remove_kept, kept_kept, Hn. apply kept_ext. intros m.
    rewrite <- negb_orb. f_equal. rewrite <- bool_decide_or. apply bool_decide_ext. by rewrite elem_of_cons.
Qed.

Lemma remove_nominated_kept upgrade names h :
  foldl (remove_nominated upgrade) h names =
  kept (λ m, forallb (λ n, (upgrade && eq_ignore_ascii_case n (lit "upgrade")) || negb (bool_decide (to_ascii_lowercase n = m))) names) h.
Proof.
  revert h. induction names as [|n names IH]; intros h; cbn [foldl forallb].
  - symmetry. by apply kept_all.
  - rewrite IH. unfold remove_nominated. rewrite <- negb_andb. destruct (upgrade && eq_ignore_ascii_case n (lit "upgrade")) eqn:E; cbn [negb orb andb]; [done|].
    rewrite remove_kept, kept_kept. apply kept_ext. intros m. f_equal. f_equal. by apply bool_decide_ext.
Qed.

Lemma clean_eq h upgrade : clean h upgrade = kept (passes upgrade (nominations h)) h ++ if upgrade then [(lit "connection", lit "upgrade")] else [].
Proof.
  unfold clean. assert (Forall (λ n, to_ascii_lowercase n = n) HOP_BY_HOP) as Hl by decided.
  rewrite remove_nominated_kept, remove_all_kept by done. destruct upgrade.
  - unfold insert. rewrite remove_kept, !kept_kept. f_equal. apply kept_ext. intros m. unfold passes. cbn [orb].
    change (to_ascii_lowercase (lit "connection")) with (lit "connection"). destruct (forallb _ _); cbn [andb]; [|by rewrite andb_false_r].
    rewrite !andb_true_r. destruct (bool_decide_reflect (m ∈ HOP_BY_HOP)) as [|Hn]; [done|]. cbn [negb andb].
    apply negb_true_iff, bool_decide_eq_false. intros ->. apply Hn. decided.
  - rewrite remove_kept, !kept_kept, app_nil_r. apply kept_ext. intros m. unfold passes. cbn [orb].
    change (to_ascii_lowercase (lit "upgrade")) with (lit "upgrade"). rewrite andb_assoc. f_equal. apply andb_comm.
Qed.

(** ** Values under a name *)
Lemma get_all_app n h h' : get_all n (h ++ h') = get_all n h ++ get_all n h'.
Proof. unfold get_all. by rewrite filter_app, fmap_app. Qed.

Lemma get_all_kept n p h : get_all n (kept p h) = if p n then get_all n h else [].
Proof.
  unfold get_all, kept. rewrite list_filter_filter. destruct (p n) eqn:E.
  - f_equal. apply list_filter_iff. intros e. naive_solver.
  - apply elem_of_nil_inv. intros v ([k w] & -> & [[Ek Ep] _]%list_elem_of_filter)%list_elem_of_fmap. cbn in *. congruence.
Qed.

Lemma get_all_one n m v : get_all n [(m, v)] = if decide (m = n) then [v] else [].
Proof. unfold get_all. rewrite filter_cons, filter_nil. cbn. by case_decide. Qed.

Lemma get_insert m n v h : to_ascii_lowercase m = m → get_all n (insert m v h) = if decide (m = n) then [v] else get_all n h.
Proof.
  intros Hm. unfold insert. rewrite get_all_app, get_all_one, remove_kept, get_all_kept, Hm. case_decide as E.
  - subst. by rewrite bool_decide_eq_true_2.
  - rewrite bool_decide_eq_false_2 by congruence. apply app_nil_r.
Qed.

Lemma get_clean n h upgrade :
  get_all n (clean h upgrade) = (if passes upgrade (nominations h) n then get_all n h else []) ++ (if upgrade && bool_decide (n = lit "connection") then [lit "upgrade"] else []).
Proof.
  rewrite clean_eq, get_all_app, get_all_kept. f_equal. destruct upgrade; [|done]. rewrite get_all_one. cbn [andb].
  case_decide as E; [by rewrite bool_decide_eq_true_2|by rewrite bool_decide_eq_false_2 by congruence].
Qed.

Lemma passes_spec upgrade nominated n : passes upgrade nominated n = true ↔
  n ∉ HOP_BY_HOP ∧ (∀ m, m ∈ nominated → to_ascii_lowercase m = n → upgrade = true ∧ n = lit "upgrade") ∧ (upgrade = false → n ≠ lit "upgrade").
Proof.
  unfold passes. rewrite !andb_true_iff, negb_true_iff, bool_decide_eq_false, forallb_forall, orb_true_iff, negb_true_iff, bool_decide_eq_false.
  setoid_rewrite <- list_elem_of_In. setoid_rewrite orb_true_iff. setoid_rewrite andb_true_iff. setoid_rewrite negb_true_iff. setoid_rewrite bool_decide_eq_false.
  assert (∀ m, eq_ignore_ascii_case m (lit "upgrade") = true ↔ to_ascii_lowercase m = lit "upgrade") as He.
  { intros m. unfold eq_ignore_ascii_case. change (to_ascii_lowercase (lit "upgrade")) with (lit "upgrade"). apply bool_decide_eq_true. }
  setoid_rewrite He. split.
  - intros [[H1 H2] H3]. split; [done|]. split; [|destruct upgrade; naive_solver]. intros m Hm <-. destruct (H2 m Hm) as [?|?]; [done|done].
  - intros (H1 & H2 & H3). split; [split; [done|]|destruct upgrade; naive_solver]. intros m Hm.
    destruct (decide (to_ascii_lowercase m = n)) as [E|E]; [left; destruct (H2 m Hm E) as [-> E']; by rewrite E|by right].
Qed.

(** A request is forwarded only when it names an absolute http address without user
    information. What is sent has one [Host], the authority of the address, no header
    that concerns a single connection, except a [Connection: upgrade] of its own when the
    client asked for an upgrade, and none the client nominated for removal; all other
    headers keep their values in order. The answer passes the same filter, and an upgrade
    nobody asked for is an error. *)
Theorem forward_request_spec request :
  match forward_request request with
  | Ok f => is_connect request = false ∧ scheme request = Some (lit "http") ∧ ∃ a, authority request = Some a ∧ 64 ∉ as_str a ∧
      to_port f = default 80 (port_u16 a) ∧ uri f = default (lit "/") (path_and_query request) ∧
      upgrading f = wants_upgrade (headers request) ∧
      get_all (lit "host") (sent_headers f) = [as_str a] ∧
      get_all (lit "connection") (sent_headers f) = (if upgrading f then [lit "upgrade"] else []) ∧
      (∀ n, n ∈ HOP_BY_HOP → n ≠ lit "connection" → get_all n (sent_headers f) = []) ∧
      (upgrading f = false → get_all (lit "upgrade") (sent_headers f) = []) ∧
      (∀ n, n ∈ nominations (headers request) → to_ascii_lowercase n ∉ [lit "host"; lit "connection"] →
        (upgrading f = true → to_ascii_lowercase n ≠ lit "upgrade") → get_all (to_ascii_lowercase n) (sent_headers f) = []) ∧
      (∀ n, n ∉ HOP_BY_HOP → n ∉ [lit "host"; lit "upgrade"] → (∀ m, m ∈ nominations (headers request) → to_ascii_lowercase m ≠ n) →
        get_all n (sent_headers f) = get_all n (headers request)) ∧
      ∀ status h, match forward_response f status h with
        | Ok h' => h' = clean h (status =? 101)
        | Err _ => status = 101 ∧ upgrading f = false
        | _ => False
        end
  | Err _ => is_connect request = true ∨ scheme request ≠ Some (lit "http") ∨ authority request = None ∨
      ∃ a, authority request = Some a ∧ 64 ∈ as_str a
  | _ => False
  end.
Proof.
  unfold forward_request. destruct (is_connect request); [by left|]. cbn [negb ensure mbind outcome_bind].
  destruct (bool_decide_reflect (scheme request = Some (lit "http"))) as [Hs|Hs]; [|by right; left]. cbn [ensure mbind outcome_bind].
  destruct (authority request) as [a|] eqn:Ea; [|by do 2 right; left]. cbn [ok_or mbind outcome_bind].
  assert (existsb (Z.eqb 64) (as_str a) = true ↔ 64 ∈ as_str a) as Hat.
  { rewrite existsb_exists. setoid_rewrite Z.eqb_eq. setoid_rewrite <- list_elem_of_In. naive_solver. }
  destruct (existsb (Z.eqb 64) (as_str a)); cbn [negb ensure mbind outcome_bind]; [do 3 right; exists a; split; [done|by apply Hat]|].
  cbn [to_port uri upgrading sent_headers]. set (u := wants_upgrade (headers request)). set (h0 := headers request).
  split; [done|]. split; [done|]. exists a. split; [done|]. split; [by rewrite <- Hat|]. do 3 (split; [done|]).
  assert (∀ n, get_all n (insert (lit "host") (as_str a) (clean h0 u)) = if decide (lit "host" = n) then [as_str a] else get_all n (clean h0 u)) as Hget
    by (intros n; by apply get_insert).
  assert (∀ n, n ∈ HOP_BY_HOP → lit "host" ≠ n) as Hhop by (intros n Hn <-; revert Hn; decided).
  assert (∀ n, passes u (nominations h0) n = false → n ≠ lit "connection" → lit "host" ≠ n → get_all n (insert (lit "host") (as_str a) (clean h0 u)) = []) as Hgone.
  { intros n Hp Hn Hh. rewrite Hget, decide_False, get_clean, Hp, (bool_decide_eq_false_2 (n = _)), andb_false_r by done. done. }
  split_and!.
  - by rewrite Hget, decide_True.
  - rewrite Hget, decide_False, get_clean by (by vm_compute). rewrite bool_decide_eq_true_2, andb_true_r by done.
    destruct (passes u (nominations h0) (lit "connection")) eqn:E; [|done]. apply passes_spec in E as (E & _). destruct E. decided.
  - intros n Hn Hc. apply Hgone; [|done|by apply Hhop]. destruct (passes u _ n) eqn:E; [|done]. by apply passes_spec in E as (E & _).
  - intros Hu. apply Hgone; [|by vm_compute..]. destruct (passes u _ _) eqn:E; [|done]. apply passes_spec in E as (_ & _ & E). by destruct (E Hu).
  - intros n Hn Hc Hup. apply not_elem_of_cons in Hc as [Hh [Hc _]%not_elem_of_cons]. apply Hgone; [|done|congruence].
    destruct (passes u _ _) eqn:E; [|done]. apply passes_spec in E as (_ & E & _). destruct (E n Hn eq_refl) as [E1 E2]. by destruct (Hup E1).
  - intros n Hn Hh Hm. apply not_elem_of_cons in Hh as [Hh [Hu _]%not_elem_of_cons]. rewrite Hget, decide_False, get_clean by congruence.
    rewrite (bool_decide_eq_false_2 (n = _)), andb_false_r, app_nil_r by (intros ->; apply Hn; decided).
    destruct (passes u _ n) eqn:E; [done|]. apply not_true_iff_false in E. destruct E. apply passes_spec. split; [done|]. split; [|done].
    intros m Hin Em. by destruct (Hm m Hin).
  - intros status h. unfold forward_response. cbn [upgrading]. destruct (Z.eqb_spec status 101); cbn [negb orb]; [|done]. by destruct u.
Qed.

(** ** Examples *)
Definition reached (host : bytes) (port : Z) : outcome unit := if bool_decide (host = lit "example.com") then Ok tt else Err "unreachable".

Lemma http_proxy_spec_witness :
  let chunks := [lit "CONNECT example.com:443 HTT"; lit "P/1.1" ++ [13]; [10; 13]; [10; 1; 2]; [3]] in
  header_of (concat chunks) = Header 36 ∧
  ∃ r rest ahead, handle_http reached (reads_of chunks) = Some (r, rest) ∧ r = Ok (Tunnel (lit "example.com") 443 ESTABLISHED ahead) ∧ ahead ++ unread rest = [1; 2; 3].
Proof.
  cbv zeta. split; [by vm_compute|].
  pose proof (http_proxy_spec reached [lit "CONNECT example.com:443 HTT"; lit "P/1.1" ++ [13]; [10; 13]; [10; 1; 2]; [3]] ltac:(by repeat constructor)) as H.
  assert (header_of (concat [lit "CONNECT example.com:443 HTT"; lit "P/1.1" ++ [13]; [10; 13]; [10; 1; 2]; [3]]) = Header 36) as Hh by (vm_compute; reflexivity).
  cbv zeta in H. rewrite Hh in H. destruct H as (r & rest & E & Hr). exists r, rest.
  assert (parse_request_line (take (Z.to_nat 36) (concat [lit "CONNECT example.com:443 HTT"; lit "P/1.1" ++ [13]; [10; 13]; [10; 1; 2]; [3]]))
    = Ok (lit "CONNECT", lit "example.com:443", lit "HTTP/1.1")) as Ep by (vm_compute; reflexivity).
  rewrite Ep in Hr. assert (parse_host_port (lit "example.com:443") 443 = Ok (lit "example.com", 443)) as Eh by (vm_compute; reflexivity).
  change (eq_ignore_ascii_case (lit "CONNECT") (lit "CONNECT")) with true in Hr. cbv iota in Hr. rewrite Eh in Hr.
  change (reached (lit "example.com") 443) with (@Ok unit tt) in Hr. destruct Hr as (ahead & -> & Ha). exists ahead. split; [exact E|]. split; [reflexivity|].
  rewrite Ha. vm_compute. reflexivity.
Defined.

Lemma parse_host_port_spec_witness : parse_host_port (lit "example.com:8443") 443 = Ok (lit "example.com", 8443) ∧ parse_host_port (lit "[::1]:80") 443 = Ok (lit "::1", 80).
Proof.
  destruct (parse_host_port_spec 443 ltac:(unfold u16; lia)) as (H1 & H2 & _). split.
  - destruct (H1 (lit "example.com") 8443) as [E _]; [decided|unfold u16; lia|]. exact E.
  - destruct (H2 1 80) as [E _]; [unfold u128; lia|unfold u16; lia|]. exact E.
Defined.
