(* ===== verification/Pool.v ===== *)
(** * The warm connections of an outbound (proxy/pool.rs)

    A pool keeps a few connections dialled ahead of demand.  The worker that dials, the
    requests that take connections, the other pools that share the budget of permits and
    the clock are the actors; a step is a critical section of the pool's lock, an await
    or one access to the semaphore, and the steps interleave freely.  Dials are events:
    a dial gives a new connection or fails.  The clock is read once in a section, in
    nanoseconds.  A [PooledConn] carries one permit of the budget until it is dropped
    or taken apart.  At the end, the budgets a device gets from its memory
    (resources.rs). *)
From S2P Require Import Prelude Bytes Tokio.

Definition SECOND : Z := 1000000000.
Definition DEFAULT_MAX_AGE : Z := 30 * SECOND.
Definition DEMAND_WINDOW : Z := SECOND.
Definition FILL_CONCURRENCY : Z := 4.

(** The stream is its identity: one for every dial that succeeds. *)
Record PooledConn := { stream : nat; created : Z }.

Record PoolState := {
  conns : list PooledConn;
  target : Z;
  requests : Z;
  window_started : Z;
  last_get : Z;
}.

Definition with_conns (l : list PooledConn) (s : PoolState) : PoolState :=
  {| conns := l; target := target s; requests := requests s; window_started := window_started s; last_get := last_get s |}.
Definition with_target (t : Z) (s : PoolState) : PoolState :=
  {| conns := conns s; target := t; requests := requests s; window_started := window_started s; last_get := last_get s |}.

(** [Instant::elapsed] saturates at zero. *)
Definition elapsed (now since : Z) : Z := Z.max 0 (now - since).

(** [usize::next_power_of_two]: 1 for 0. *)
Definition next_power_of_two (n : Z) : Z := 2 ^ Z.log2_up n.

Definition saturating_sub (a b : Z) : Z := Z.max 0 (a - b).

(** What one non-blocking read of an unused connection gave. *)
Inductive idle_poll := Silent | Data | Eof | Failed.

Definition idle_stream_is_ready (p : idle_poll) : bool := match p with Silent => true | _ => false end.

Definition is_fresh (now : Z) (c : PooledConn) : bool := elapsed now (created c) <? DEFAULT_MAX_AGE.

(** ** The sections under the lock *)
Section sections.
Variables base capacity : Z.

Definition with_limits (now : Z) : PoolState :=
  {| conns := []; target := base; requests := 0; window_started := now; last_get := now |}.

(** The first section of [get]. *)
Definition count_request (now : Z) (s : PoolState) : PoolState :=
  let s := if DEFAULT_MAX_AGE <=? elapsed now (last_get s) then with_target base s else s in
  let s := if DEMAND_WINDOW <=? elapsed now (window_started s)
           then {| conns := conns s; target := base; requests := 0; window_started := now; last_get := last_get s |}
           else s in
  let r := Z.min (requests s + 1) capacity in
  {| conns := conns s; target := Z.min (Z.max (target s) (next_power_of_two r)) capacity; requests := r;
     window_started := window_started s; last_get := now |}.

(** The tick of the worker. *)
Definition maintain (now : Z) (s : PoolState) : PoolState :=
  let kept := filter (λ c, is_fresh now c) (conns s) in
  let t := if DEFAULT_MAX_AGE <=? elapsed now (last_get s) then base else target s in
  with_conns (take (Z.to_nat t) kept) (with_target t s).

(** The first section of [fill]. *)
Definition drop_expired (now : Z) (s : PoolState) : PoolState :=
  with_conns (filter (λ c, is_fresh now c) (conns s)) s.

Definition deficit (s : PoolState) : Z := saturating_sub (target s) (len (conns s)).

(** A dialled connection is kept or dropped. *)
Definition keep_conn (c : PooledConn) (s : PoolState) : PoolState :=
  if len (conns s) <? target s then with_conns (conns s ++ [c]) s else s.
End sections.

(** ** The actors *)
(** A task of the [JoinSet]: dialling, or finished with a connection or without. *)
Inductive task := Dialing | Finished (c : option PooledConn).

Record fill_vars := { failed_rounds : Z; attempts : Z }.

Inductive worker_pc :=
  | NotStarted
  | Waiting
  | FillStart
  | Deficit (v : fill_vars)
  | Spawning (v : fill_vars) (wanted : nat) (set : list task)
  | Joining (v : fill_vars) (successes : Z) (set : list task)
  | Pushing (v : fill_vars) (successes : Z) (set : list task) (c : PooledConn)
  | Sleeping (v : fill_vars)
  | Gone.

(** A call of [get]. *)
Inductive getter :=
  | Counting
  | Popping
  | Checking (c : PooledConn)
  | Connecting
  | Served (warm : bool) (s : nat)
  | Refused
  | Cancelled.

Section pool.
Context {SEM : Type} `{!Semaphore SEM}.
Variables base capacity : Z.

(** [others] permits are with other pools, [aborting] ones with dials that are being
    cancelled; [refill] is the stored notification; [dropped] says that the last handle
    is gone; [next_stream] names the next connection. *)
Record World := {
  state : PoolState;
  refill : bool;
  budget : SEM;
  others : Z;
  aborting : nat;
  worker : worker_pc;
  getters : gmap nat getter;
  clock : Z;
  next_stream : nat;
  dropped : bool;
}.

Definition set_state s w := {| state := s; refill := refill w; budget := budget w; others := others w; aborting := aborting w;
  worker := worker w; getters := getters w; clock := clock w; next_stream := next_stream w; dropped := dropped w |}.
Definition set_refill b w := {| state := state w; refill := b; budget := budget w; others := others w; aborting := aborting w;
  worker := worker w; getters := getters w; clock := clock w; next_stream := next_stream w; dropped := dropped w |}.
Definition set_budget b w := {| state := state w; refill := refill w; budget := b; others := others w; aborting := aborting w;
  worker := worker w; getters := getters w; clock := clock w; next_stream := next_stream w; dropped := dropped w |}.
Definition set_others o w := {| state := state w; refill := refill w; budget := budget w; others := o; aborting := aborting w;
  worker := worker w; getters := getters w; clock := clock w; next_stream := next_stream w; dropped := dropped w |}.
Definition set_aborting n w := {| state := state w; refill := refill w; budget := budget w; others := others w; aborting := n;
  worker := worker w; getters := getters w; clock := clock w; next_stream := next_stream w; dropped := dropped w |}.
Definition set_worker p w := {| state := state w; refill := refill w; budget := budget w; others := others w; aborting := aborting w;
  worker := p; getters := getters w; clock := clock w; next_stream := next_stream w; dropped := dropped w |}.
Definition set_getter g p w := {| state := state w; refill := refill w; budget := budget w; others := others w; aborting := aborting w;
  worker := worker w; getters := <[g := p]> (getters w); clock := clock w; next_stream := next_stream w; dropped := dropped w |}.
Definition set_clock t w := {| state := state w; refill := refill w; budget := budget w; others := others w; aborting := aborting w;
  worker := worker w; getters := getters w; clock := t; next_stream := next_stream w; dropped := dropped w |}.
Definition set_next n w := {| state := state w; refill := refill w; budget := budget w; others := others w; aborting := aborting w;
  worker := worker w; getters := getters w; clock := clock w; next_stream := n; dropped := dropped w |}.
Definition set_dropped w := {| state := state w; refill := refill w; budget := budget w; others := others w; aborting := aborting w;
  worker := worker w; getters := getters w; clock := clock w; next_stream := next_stream w; dropped := true |}.

(** Permits go back when what holds them is dropped. *)
Definition give_back (n : Z) (w : World) : World := set_budget (release n (budget w)) w.

(** A section that changes the pool's state; the connections it removes are dropped. *)
Definition in_state (f : PoolState → PoolState) (w : World) : World :=
  give_back (len (conns (state w)) - len (conns (f (state w)))) (set_state (f (state w)) w).

(** The worker runs once, inside a runtime, in a pool that may hold connections; it only
    ends when it is aborted. *)
Definition start_worker (runtime : bool) (w : World) : World :=
  if (capacity =? 0) || negb runtime then w
  else match worker w with NotStarted => set_worker FillStart w | _ => w end.

Definition new_pool (runtime : bool) (now : Z) (b : SEM) (elsewhere : Z) : World :=
  start_worker runtime
    {| state := with_limits base now; refill := false; budget := b; others := elsewhere; aborting := 0; worker := NotStarted;
       getters := ∅; clock := now; next_stream := 0; dropped := false |}.

(** ** The worker *)
(** The next step of [fill] where nothing is awaited. *)
Definition fill_step (w : World) : option World :=
  match worker w with
  | FillStart =>
      Some (set_worker (Deficit {| failed_rounds := 0; attempts := 0 |}) (in_state (drop_expired (clock w)) w))
  | Deficit v =>
      Some (set_worker
        (if attempts v <? capacity * 3 then
           let d := deficit (state w) in
           if d =? 0 then Waiting else Spawning v (Z.to_nat (Z.min d FILL_CONCURRENCY)) []
         else Waiting) w)
  | Spawning v (S n) set =>
      Some (match try_acquire_many 1 (budget w) with
            | Some b => set_worker (Spawning v n (set ++ [Dialing])) (set_budget b w)
            | None => set_worker (Spawning v 0 set) w
            end)
  | Spawning v O [] => Some (set_worker Waiting w)
  | Spawning v O set =>
      Some (set_worker (Joining {| failed_rounds := failed_rounds v; attempts := attempts v + len set |} 0 set) w)
  | Pushing v ok set c =>
      let s := keep_conn c (state w) in
      let w' := set_worker (Joining v ok set) (set_state s w) in
      Some (if len (conns (state w)) <? target (state w) then w' else give_back 1 w')
  | Joining v ok [] =>
      Some (set_worker
        (if ok =? 0 then
           let f := failed_rounds v + 1 in
           let v := {| failed_rounds := f; attempts := attempts v |} in
           if 3 <=? f then Waiting else Sleeping v
         else Deficit {| failed_rounds := 0; attempts := attempts v |}) w)
  | Sleeping v => Some (set_worker (Deficit v) w)
  | _ => None
  end.

(** [set.join_next()] takes a finished task. *)
Definition join_next (i : nat) (w : World) : option World :=
  match worker w with
  | Joining v ok set =>
      match set !! i with
      | Some (Finished (Some c)) => Some (set_worker (Pushing v (ok + 1) (delete i set) c) w)
      | Some (Finished None) => Some (set_worker (Joining v ok (delete i set)) w)
      | _ => None
      end
  | _ => None
  end.

Definition tasks (p : worker_pc) : list task :=
  match p with Spawning _ _ set | Joining _ _ set | Pushing _ _ set _ => set | _ => [] end.

Definition with_tasks (set : list task) (p : worker_pc) : worker_pc :=
  match p with
  | Spawning v n _ => Spawning v n set
  | Joining v ok _ => Joining v ok set
  | Pushing v ok _ c => Pushing v ok set c
  | _ => p
  end.

(** A task finishes its dial; a failed one drops its permit. *)
Definition dial_step (i : nat) (success : bool) (w : World) : option World :=
  match tasks (worker w) !! i with
  | Some Dialing =>
      Some (if success
            then set_next (S (next_stream w))
                   (set_worker (with_tasks (<[i := Finished (Some {| stream := next_stream w; created := clock w |})]> (tasks (worker w))) (worker w)) w)
            else give_back 1 (set_worker (with_tasks (<[i := Finished None]> (tasks (worker w))) (worker w)) w))
  | _ => None
  end.

(** [select!] of [run]. *)
Definition notified (w : World) : option World :=
  match worker w with
  | Waiting => if refill w then Some (set_worker FillStart (set_refill false w)) else None
  | _ => None
  end.

Definition tick (w : World) : option World :=
  match worker w with Waiting => Some (in_state (maintain base (clock w)) w) | _ => None end.

(** ** Requests *)
Definition start_get (g : nat) (runtime : bool) (w : World) : option World :=
  if dropped w then None
  else match getters w !! g with
       | None => Some (set_getter g Counting (start_worker runtime w))
       | Some _ => None
       end.

(** The next step of [get]; [p] is what the read of an idle connection gives. *)
Definition get_step (g : nat) (p : idle_poll) (w : World) : option World :=
  match getters w !! g with
  | Some Counting => Some (set_getter g Popping (in_state (count_request base capacity (clock w)) w))
  | Some Popping =>
      Some (match conns (state w) with
            | c :: l => set_getter g (Checking c) (set_state (with_conns l (state w)) w)
            | [] => set_getter g Connecting (set_refill true w)
            end)
  | Some (Checking c) =>
      Some (give_back 1
        (if is_fresh (clock w) c && idle_stream_is_ready p
         then set_getter g (Served true (stream c)) (set_refill true w)
         else set_getter g Popping w))
  | _ => None
  end.

(** The request's own dial ends: a new connection, an error or the timeout. *)
Definition get_dialled (g : nat) (success : bool) (w : World) : option World :=
  match getters w !! g with
  | Some Connecting =>
      Some (if success then set_next (S (next_stream w)) (set_getter g (Served false (next_stream w)) w)
            else set_getter g Refused w)
  | _ => None
  end.

(** The caller drops the request. *)
Definition cancel_get (g : nat) (w : World) : option World :=
  match getters w !! g with
  | Some (Checking c) => Some (give_back 1 (set_getter g Cancelled w))
  | Some Counting | Some Popping | Some Connecting => Some (set_getter g Cancelled w)
  | _ => None
  end.

Definition over (p : getter) : bool :=
  match p with Served _ _ | Refused | Cancelled => true | _ => false end.

(** ** The end of a pool *)
(** The last handle is dropped: no request borrows it. *)
Definition drop_owner (w : World) : option World :=
  if dropped w || negb (forallb (λ p, over p.2) (map_to_list (getters w))) then None else Some (set_dropped w).

Definition task_conns (t : task) : list PooledConn := match t with Finished (Some c) => [c] | _ => [] end.
Definition is_dialing (t : task) : bool := match t with Dialing => true | _ => false end.
Definition pushed (p : worker_pc) : list PooledConn := match p with Pushing _ _ _ c => [c] | _ => [] end.

(** The aborted worker is dropped with the state it owns; the dials of its set are
    aborted in turn. *)
Definition abort_worker (w : World) : option World :=
  match worker w with
  | Gone => None
  | p =>
      if dropped w then
        Some (give_back (len (conns (state w)) + len (mjoin (task_conns <$> tasks p)) + len (pushed p))
               (set_aborting (length (filter is_dialing (tasks p)))
                 (set_worker Gone (set_state (with_conns [] (state w)) w))))
      else None
  end.

Definition dial_aborted (w : World) : option World :=
  match aborting w with S n => Some (give_back 1 (set_aborting n w)) | O => None end.

(** ** The system *)
Inductive event :=
  | Fill
  | JoinNext (i : nat)
  | Dialled (i : nat) (success : bool)
  | Notified
  | Tick
  | StartGet (g : nat) (runtime : bool)
  | Get (g : nat) (p : idle_poll)
  | GetDialled (g : nat) (success : bool)
  | CancelGet (g : nat)
  | OtherAcquires
  | OtherReleases
  | Clock (dt : Z)
  | DropOwner
  | AbortWorker
  | DialAborted.

Definition act (e : event) (w : World) : option World :=
  match e with
  | Fill => fill_step w
  | JoinNext i => join_next i w
  | Dialled i ok => dial_step i ok w
  | Notified => notified w
  | Tick => tick w
  | StartGet g runtime => start_get g runtime w
  | Get g p => get_step g p w
  | GetDialled g ok => get_dialled g ok w
  | CancelGet g => cancel_get g w
  | OtherAcquires => b ← try_acquire_many 1 (budget w); Some (set_others (others w + 1) (set_budget b w))
  | OtherReleases => if 0 <? others w then Some (set_others (others w - 1) (give_back 1 w)) else None
  | Clock dt => if 0 <=? dt then Some (set_clock (clock w + dt) w) else None
  | DropOwner => drop_owner w
  | AbortWorker => abort_worker w
  | DialAborted => dial_aborted w
  end.

Fixpoint run (es : list event) (w : World) : option World :=
  match es with
  | [] => Some w
  | e :: es => w ← act e w; run es w
  end.
End pool.
Arguments World : clear implicits.

#[export] Instance idle_poll_eq_dec : EqDecision idle_poll.
Proof. solve_decision. Defined.
#[export] Instance event_eq_dec : EqDecision event.
Proof. solve_decision. Defined.

(** * The budgets of a device (resources.rs) *)
Record ResourceBudget := { tun_streams : Z; dns_queries : Z; dns_tcp_clients : Z; api_requests : Z }.

Definition for_memory_kib (total : Z) : ResourceBudget :=
  if total <=? 300 * 1024 then {| tun_streams := 256; dns_queries := 32; dns_tcp_clients := 4; api_requests := 2 |}
  else if total <=? 600 * 1024 then {| tun_streams := 1024; dns_queries := 64; dns_tcp_clients := 8; api_requests := 4 |}
  else {| tun_streams := 2048; dns_queries := 128; dns_tcp_clients := 16; api_requests := 6 |}.

Definition relay_buffer_for (memory_kib : Z) : Z :=
  if memory_kib <=? 307200 then 4 * 1024
  else if memory_kib <=? 614400 then 8 * 1024
  else 16 * 1024.

(** The base, the capacity and the permits shared by all pools. *)
Definition connection_pool_limits (memory_kib : Z) : Z * Z * Z :=
  if memory_kib <=? 307200 then (2, 4, 16)
  else if memory_kib <=? 614400 then (2, 8, 32)
  else (4, 16, 64).

Definition saturating_mul (a b : Z) : Z := Z.min (2 ^ 64 - 1) (a * b).
Definition clamp (lo hi z : Z) : Z := Z.min hi (Z.max lo z).

Definition tun_tcp_payload_budget_for (memory_kib : Z) : Z :=
  clamp (4 * 1024 * 1024) (64 * 1024 * 1024) (saturating_mul memory_kib 1024 / 16).

Definition tun_tcp_window_for (memory_kib active_tcp : Z) : Z :=
  let pool := Z.max (saturating_mul memory_kib 1024 / 16) (64 * 1024) in
  let share := pool / Z.max active_tcp 1 in
  as_u32 (clamp (64 * 1024) (512 * 1024) share).

(** ** What the budgets leave *)
Lemma connection_pool_limits_ok m :
  let '(base, capacity, budget) := connection_pool_limits m in 0 < base <= capacity ∧ 4 * capacity = budget.
Proof. unfold connection_pool_limits. destruct (m <=? 307200), (m <=? 614400); lia. Qed.

Lemma window_range m n : 65536 <= tun_tcp_window_for m n <= 524288.
Proof. unfold tun_tcp_window_for, as_u32, clamp. rewrite Z.mod_small; lia. Qed.

(** While the share of a flow is not below the floor, the flows together stay within a
    sixteenth of the memory. *)
Lemma window_aggregate m n : 0 <= m < 2 ^ 54 → 0 < n → 64 * 1024 * n <= m * 1024 / 16 → n * tun_tcp_window_for m n <= m * 1024 / 16.
Proof.
  intros Hm Hn Hs. unfold tun_tcp_window_for, saturating_mul, as_u32, clamp.
  replace (Z.min (2 ^ 64 - 1) (m * 1024)) with (m * 1024) by lia. set (p := m * 1024 / 16) in *. clearbody p.
  replace (Z.max p (64 * 1024)) with p by lia. replace (Z.max n 1) with n by lia.
  pose proof (Z.mul_div_le p n Hn). assert (65536 <= p / n) by (apply Z.div_le_lower_bound; lia).
  rewrite Z.mod_small by lia. nia.
Qed.

(** The budgets fit every device of 48 MiB or more: what TUN flows copy and hold stays
    within an eighth of the memory, relay buffers within a ninth, and within a sixteenth
    but for devices between 600 MiB and 1 GiB. *)
Lemma resource_budgets_spec m : 48 * 1024 <= m < 2 ^ 54 →
  tun_streams (for_memory_kib m) * (8 * 1024) + tun_tcp_payload_budget_for m <= m * 1024 / 8 ∧
  tun_streams (for_memory_kib m) * 2 * relay_buffer_for m <= m * 1024 / 9 ∧
  (m <= 600 * 1024 ∨ 1024 * 1024 <= m → tun_streams (for_memory_kib m) * 2 * relay_buffer_for m <= m * 1024 / 16) ∧
  dns_queries (for_memory_kib m) <= tun_streams (for_memory_kib m).
Proof.
  intros Hm. unfold for_memory_kib, relay_buffer_for, tun_tcp_payload_budget_for, saturating_mul, clamp.
  replace (Z.min (2 ^ 64 - 1) (m * 1024)) with (m * 1024) by lia.
  change (300 * 1024) with 307200. change (600 * 1024) with 614400.
  destruct (Z.leb_spec m 307200), (Z.leb_spec m 614400); cbn [tun_streams dns_queries]; repeat split; try lia.
Qed.
