(* ===== verification/PoolSpec.v ===== *)
(** * The warm connections: bounded, never shared, always given back (proxy/pool.rs) *)
From S2P Require Import Prelude Bytes Tokio Sorting Pool.

(** ** What is where *)
Section accounts.
Context {SEM : Type} `{!Semaphore SEM}.
(** What a connection, a dial and a connection handed out count for. *)
Variables (held : PooledConn → Z) (dial : Z) (given : nat → Z).

Definition task_weight (t : task) : Z :=
  match t with Dialing => dial | Finished (Some c) => held c | Finished None => 0 end.
Definition getter_weight (p : getter) : Z :=
  match p with Checking c => held c | Served _ s => given s | _ => 0 end.
Definition worker_weight (p : worker_pc) : Z := wsum task_weight (tasks p) + wsum held (pushed p).

Definition weight (w : World SEM) : Z :=
  wsum held (conns (state w)) + worker_weight (worker w) + sum_by getter_weight (getters w) + dial * Z.of_nat (aborting w).
End accounts.

(** The permits in the hands of a pool, and the places where a connection is. *)
Definition held_permits {SEM} : World SEM → Z := weight (λ _, 1) 1 (λ _, 0).
Definition is_stream (x : nat) (c : nat) : Z := if Nat.eq_dec c x then 1 else 0.
Definition copies {SEM} (x : nat) : World SEM → Z := weight (λ c, is_stream x (stream c)) 0 (is_stream x).

Lemma is_stream_range x c : 0 <= is_stream x c <= 1.
Proof. unfold is_stream. destruct (Nat.eq_dec c x); lia. Qed.

Lemma worker_weight_task held dial p i t t' :
  tasks p !! i = Some t → worker_weight held dial (with_tasks (<[i := t']> (tasks p)) p) =
  worker_weight held dial p - task_weight held dial t + task_weight held dial t'.
Proof.
  intros Hi. unfold worker_weight.
  destruct p; cbn [tasks with_tasks pushed] in *; try done; rewrite (wsum_insert _ _ _ _ _ Hi); lia.
Qed.

Lemma worker_weight_set held dial v n set : worker_weight held dial (Spawning v n set) = wsum (task_weight held dial) set.
Proof. apply Z.add_0_r. Qed.

Lemma getter_update held given g p q (m : gmap nat getter) : m !! g = Some p →
  sum_by (getter_weight held given) (<[g := q]> m) =
  sum_by (getter_weight held given) m - getter_weight held given p + getter_weight held given q.
Proof. intros Hg. by rewrite (sum_by_update _ _ _ _ _ Hg). Qed.

Lemma len_count_request base capacity now s : conns (count_request base capacity now s) = conns s.
Proof. unfold count_request. by repeat case_match. Qed.

Lemma conns_maintain base now s :
  conns (maintain base now s) `sublist_of` conns s.
Proof. unfold maintain. cbn. rewrite sublist_take. apply sublist_filter. Qed.

Lemma conns_drop_expired now s : conns (drop_expired now s) `sublist_of` conns s.
Proof. apply sublist_filter. Qed.

Lemma dialing_weight l :
  Z.of_nat (length (filter is_dialing l)) + len (mjoin (task_conns <$> l)) = wsum (task_weight (λ _, 1) 1) l.
Proof.
  induction l as [|t l IH]; [done|]. rewrite wsum_cons, fmap_cons, <- IH.
  change (mjoin (task_conns t :: (task_conns <$> l))) with (task_conns t ++ mjoin (task_conns <$> l)). rewrite len_app, filter_cons.
  destruct t as [|[c|]]; cbn [task_conns task_weight]; (destruct (decide _) as [Hd|Hd]; cbn in Hd; try done);
    rewrite ?length_cons, ?len_cons, ?len_nil; lia.
Qed.

(** ** Conservation *)
Section conservation.
Context {SEM : Type} `{!Semaphore SEM}.
Variables base capacity : Z.

#[local] Abbreviation World := (World SEM).
#[local] Abbreviation act := (act base capacity).
Implicit Types w : World.

Definition total_permits w : Z := available_permits (budget w) + others w + held_permits w.

Lemma total_in_state f w : total_permits (in_state f w) = total_permits w.
Proof.
  unfold total_permits, held_permits, weight, in_state. cbn. rewrite release_spec, !wsum_one. lia.
Qed.

Lemma total_set_worker p w : total_permits (set_worker p w) =
  total_permits w - worker_weight (λ _, 1) 1 (worker w) + worker_weight (λ _, 1) 1 p.
Proof. unfold total_permits, held_permits, weight. cbn. lia. Qed.

Lemma total_set_getter g p q w : getters w !! g = Some p → total_permits (set_getter g q w) =
  total_permits w - getter_weight (λ _, 1) (λ _, 0) p + getter_weight (λ _, 1) (λ _, 0) q.
Proof. intros Hg. unfold total_permits, held_permits, weight. cbn. rewrite (getter_update _ _ _ _ _ _ Hg). lia. Qed.

Lemma total_new_getter g q w : getters w !! g = None → total_permits (set_getter g q w) =
  total_permits w + getter_weight (λ _, 1) (λ _, 0) q.
Proof. intros Hg. unfold total_permits, held_permits, weight. cbn. rewrite sum_by_insert by done. lia. Qed.

Lemma total_give_back n w : total_permits (give_back n w) = total_permits w + n.
Proof. unfold total_permits, held_permits, weight. cbn. rewrite release_spec. lia. Qed.

Lemma total_set_conns s w : total_permits (set_state s w) = total_permits w - len (conns (state w)) + len (conns s).
Proof. unfold total_permits, held_permits, weight. cbn. rewrite !wsum_one. lia. Qed.

Lemma total_set_refill b w : total_permits (set_refill b w) = total_permits w.
Proof. done. Qed.

Lemma total_set_next n w : total_permits (set_next n w) = total_permits w.
Proof. done. Qed.
#[local] Hint Rewrite total_in_state total_set_worker total_give_back total_set_conns total_set_refill total_set_next : permits.

(** The worker's step only moves what it holds. *)
Lemma spawn_total v n set w : worker w = Spawning v (S n) set →
  total_permits (match try_acquire_many 1 (budget w) with
                 | Some b => set_worker (Spawning v n (set ++ [Dialing])) (set_budget b w)
                 | None => set_worker (Spawning v 0 set) w
                 end) = total_permits w.
Proof.
  intros E. pose proof (try_acquire_spec 1 (budget w) ltac:(lia)) as Ha.
  destruct (try_acquire_many 1 (budget w)) as [b|] eqn:Eb; rewrite total_set_worker; cbn [worker set_budget]; rewrite E;
    unfold worker_weight; cbn [tasks pushed]; [|by cbn; lia].
  unfold total_permits, held_permits, weight. cbn. rewrite wsum_app. cbn. lia.
Qed.

Lemma push_total v ok set c w : worker w = Pushing v ok set c →
  total_permits (let w' := set_worker (Joining v ok set) (set_state (keep_conn c (state w)) w) in
                 if len (conns (state w)) <? target (state w) then w' else give_back 1 w') = total_permits w.
Proof.
  intros E. unfold keep_conn. case_match; rewrite ?total_give_back, total_set_worker, total_set_conns; cbn [worker set_state conns with_conns];
    rewrite E; unfold worker_weight; cbn [tasks pushed]; rewrite ?len_app, ?len_cons, ?len_nil, ?wsum_cons;
    change (wsum (λ _ : PooledConn, 1) []) with 0; lia.
Qed.

Lemma fill_step_total w w' : fill_step capacity w = Some w' → total_permits w' = total_permits w.
Proof.
  intros Hw. unfold fill_step in Hw.
  destruct (worker w) as [| | |v|v n set|v ok set|v ok set c|v|] eqn:E; try discriminate Hw.
  - injection Hw as <-. rewrite total_set_worker, total_in_state. cbn. rewrite E. unfold worker_weight. cbn. lia.
  - injection Hw as <-. rewrite total_set_worker, E. unfold worker_weight. repeat case_match; cbn; lia.
  - destruct n; [destruct set as [|t set]|].
    1-2: injection Hw as <-; rewrite total_set_worker, E; unfold worker_weight; cbn; lia.
    injection Hw as <-. by eapply spawn_total.
  - destruct set; [|done]. injection Hw as <-. rewrite total_set_worker, E. unfold worker_weight. repeat case_match; cbn; lia.
  - injection Hw as <-. by eapply push_total.
  - injection Hw as <-. rewrite total_set_worker, E. unfold worker_weight. cbn. lia.
Qed.

Lemma join_next_total i w w' : join_next i w = Some w' → total_permits w' = total_permits w.
Proof.
  intros Hw. unfold join_next in Hw. destruct (worker w) as [| | |v|v n set|v ok set|v ok set c|v|] eqn:E; try discriminate Hw.
  destruct (set !! i) as [[|[c|]]|] eqn:Ei; try discriminate Hw; injection Hw as <-; rewrite total_set_worker, E;
    unfold worker_weight; cbn [tasks pushed]; rewrite (wsum_lookup _ set i _ Ei); cbn; lia.
Qed.

Lemma dial_step_total i ok w w' : dial_step i ok w = Some w' → total_permits w' = total_permits w.
Proof.
  intros Hw. unfold dial_step in Hw. destruct (tasks (worker w) !! i) as [[|r]|] eqn:Ei; try discriminate Hw.
  destruct ok; injection Hw as <-; autorewrite with permits; rewrite (worker_weight_task _ _ _ _ _ _ Ei); cbn; lia.
Qed.

Lemma total_start_worker r w : total_permits (start_worker capacity r w) = total_permits w.
Proof. unfold start_worker. repeat case_match; autorewrite with permits; try done. rewrite H0. unfold worker_weight. cbn. lia. Qed.

Lemma getters_start_worker r w : getters (start_worker capacity r w) = getters w.
Proof. unfold start_worker. by repeat case_match. Qed.

Lemma get_step_total g p w w' : get_step base capacity g p w = Some w' → total_permits w' = total_permits w.
Proof.
  intros Hw. unfold get_step in Hw. destruct (getters w !! g) as [[| |c| | | |]|] eqn:Eg; try discriminate Hw; injection Hw as <-.
  - rewrite (total_set_getter g Counting) by done. rewrite total_in_state. cbn. lia.
  - destruct (conns (state w)) as [|c l] eqn:El; rewrite (total_set_getter g Popping) by done; autorewrite with permits; cbn; [lia|].
    rewrite El, len_cons. lia.
  - rewrite total_give_back. case_match; rewrite (total_set_getter g (Checking c)) by done; autorewrite with permits; cbn; lia.
Qed.

Lemma get_dialled_total g ok w w' : get_dialled g ok w = Some w' → total_permits w' = total_permits w.
Proof.
  intros Hw. unfold get_dialled in Hw. destruct (getters w !! g) as [[| |c| | | |]|] eqn:Eg; try discriminate Hw.
  destruct ok; injection Hw as <-; autorewrite with permits; rewrite (total_set_getter g Connecting) by done; cbn; lia.
Qed.

Lemma cancel_total g w w' : cancel_get g w = Some w' → total_permits w' = total_permits w.
Proof.
  intros Hw. unfold cancel_get in Hw. destruct (getters w !! g) as [[| |c| | | |]|] eqn:Eg; try discriminate Hw; injection Hw as <-;
    autorewrite with permits; rewrite (total_set_getter _ _ _ _ Eg); cbn; lia.
Qed.

Lemma abort_total w w' : abort_worker w = Some w' → aborting w = 0%nat → total_permits w' = total_permits w.
Proof.
  intros Hw Hn. assert (total_permits w' = total_permits w ∨ worker w = Gone) as [|E]; [|done|by unfold abort_worker in Hw; rewrite E in Hw].
  left. unfold abort_worker in Hw. destruct (dropped w); [|by destruct (worker w)].
  assert (w' = give_back (len (conns (state w)) + len (mjoin (task_conns <$> tasks (worker w))) + len (pushed (worker w)))
    (set_aborting (length (filter is_dialing (tasks (worker w)))) (set_worker Gone (set_state (with_conns [] (state w)) w)))) as ->
    by (destruct (worker w); congruence).
  rewrite total_give_back. unfold total_permits, held_permits, weight, worker_weight. cbn -[Z.of_nat length filter wsum].
  rewrite Hn, !wsum_one. pose proof (dialing_weight (tasks (worker w))) as Hd.
  change (wsum (task_weight (λ _, 1) 1) []) with 0. change (len []) with 0. clear Hw. lia.
Qed.

Lemma act_total e w w' : act e w = Some w' → (worker w ≠ Gone → aborting w = 0%nat) → total_permits w' = total_permits w.
Proof.
  intros Hw Ha. destruct e; cbn in Hw.
  - by eapply fill_step_total.
  - by eapply join_next_total.
  - by eapply dial_step_total.
  - unfold notified in Hw. destruct (worker w) eqn:E; try done. destruct (refill w); [|done]. injection Hw as <-.
    autorewrite with permits. cbn. rewrite E. unfold worker_weight. cbn. lia.
  - unfold tick in Hw. destruct (worker w) eqn:E; try done. injection Hw as <-. apply total_in_state.
  - unfold start_get in Hw. destruct (dropped w); [done|]. destruct (getters w !! g) eqn:Eg; [done|]. injection Hw as <-.
    rewrite total_new_getter by (by rewrite getters_start_worker). rewrite total_start_worker. cbn. lia.
  - by eapply get_step_total.
  - by eapply get_dialled_total.
  - by eapply cancel_total.
  - pose proof (try_acquire_spec 1 (budget w) ltac:(lia)) as Hs. destruct (try_acquire_many 1 (budget w)) as [b|]; [|done].
    injection Hw as <-. unfold total_permits, held_permits, weight. cbn. lia.
  - case_match; [|done]. injection Hw as <-. unfold total_permits, held_permits, weight. cbn. rewrite release_spec. lia.
  - case_match; [|done]. by injection Hw as <-.
  - unfold drop_owner in Hw. case_match; [done|]. by injection Hw as <-.
  - eapply abort_total; [done|]. apply Ha. intros E. unfold abort_worker in Hw. by rewrite E in Hw.
  - unfold dial_aborted in Hw. destruct (aborting w) as [|n] eqn:En; [done|]. injection Hw as <-. rewrite total_give_back.
    unfold total_permits, held_permits, weight. cbn -[Z.of_nat]. rewrite En. lia.
Qed.

Lemma len_conns_maintain t w : len (conns (maintain base t (state w))) <= len (conns (state w)).
Proof. pose proof (sublist_length _ _ (conns_maintain base t (state w))). unfold len. lia. Qed.

Lemma len_conns_drop_expired t w : len (conns (drop_expired t (state w))) <= len (conns (state w)).
Proof. pose proof (sublist_length _ _ (conns_drop_expired t (state w))). unfold len. lia. Qed.

(** Nothing takes a permit that is not there. *)
Lemma act_available e w w' : act e w = Some w' → 0 <= available_permits (budget w) → 0 <= others w →
  0 <= available_permits (budget w') ∧ 0 <= others w'.
Proof.
  intros Hw Hb Ho. pose proof (len_conns_maintain (clock w) w) as Hm. pose proof (len_conns_drop_expired (clock w) w) as Hd.
  pose proof (f_equal len (len_count_request base capacity (clock w) (state w))) as Hc.
  pose proof (try_acquire_spec 1 (budget w) ltac:(lia)) as Hs.
  destruct e; cbn in Hw; unfold fill_step, join_next, dial_step, notified, tick, start_get, get_step, get_dialled, cancel_get, drop_owner,
    abort_worker, dial_aborted, in_state, start_worker in Hw; repeat (case_match; try discriminate Hw); simplify_option_eq;
    unfold give_back; cbn [budget others set_worker set_getter set_next set_refill set_budget set_aborting set_others set_state set_clock set_dropped];
    rewrite ?release_spec; try (split; [lia|done]); try (split; [done|lia]); split; try done; try lia.
  all: unfold len in *; lia.
Qed.

(** ** Every connection is in one place *)
Definition copies_grow w w' : Prop :=
  (next_stream w' = next_stream w ∧ ∀ x, copies x w' <= copies x w) ∨
  (next_stream w' = S (next_stream w) ∧ ∀ x, copies x w' <= copies x w + is_stream x (next_stream w)).

#[local] Abbreviation sw x := (λ c, is_stream x (stream c)).

Lemma copies_set_worker x p w : copies x (set_worker p w) = copies x w - worker_weight (sw x) 0 (worker w) + worker_weight (sw x) 0 p.
Proof. unfold copies, weight. cbn. lia. Qed.

Lemma copies_set_getter x g p q w : getters w !! g = Some p → copies x (set_getter g q w) =
  copies x w - getter_weight (sw x) (is_stream x) p + getter_weight (sw x) (is_stream x) q.
Proof. intros Hg. unfold copies, weight. cbn. rewrite (getter_update _ _ _ _ _ _ Hg). lia. Qed.

Lemma copies_new_getter x g q w : getters w !! g = None → copies x (set_getter g q w) =
  copies x w + getter_weight (sw x) (is_stream x) q.
Proof. intros Hg. unfold copies, weight. cbn. rewrite sum_by_insert by done. lia. Qed.

Lemma copies_set_state x s w : copies x (set_state s w) = copies x w - wsum (sw x) (conns (state w)) + wsum (sw x) (conns s).
Proof. unfold copies, weight. cbn. lia. Qed.

Lemma copies_in_state x f w : copies x (in_state f w) = copies x w - wsum (sw x) (conns (state w)) + wsum (sw x) (conns (f (state w))).
Proof. unfold in_state, give_back, copies, weight. cbn. lia. Qed.

Lemma copies_give_back x n w : copies x (give_back n w) = copies x w.
Proof. done. Qed.
Lemma copies_set_refill x b w : copies x (set_refill b w) = copies x w.
Proof. done. Qed.
Lemma copies_set_next x n w : copies x (set_next n w) = copies x w.
Proof. done. Qed.
Lemma copies_set_budget x b w : copies x (set_budget b w) = copies x w.
Proof. done. Qed.
#[local] Hint Rewrite copies_in_state copies_set_state copies_set_worker copies_give_back copies_set_refill copies_set_next copies_set_budget : copies.

Lemma sw_nonneg x c : 0 <= sw x c.
Proof. apply is_stream_range. Qed.

Lemma copies_maintain x t w : wsum (sw x) (conns (maintain base t (state w))) <= wsum (sw x) (conns (state w)).
Proof. apply wsum_sublist; [apply sw_nonneg|apply conns_maintain]. Qed.

Lemma copies_drop_expired x t w : wsum (sw x) (conns (drop_expired t (state w))) <= wsum (sw x) (conns (state w)).
Proof. apply wsum_sublist; [apply sw_nonneg|apply conns_drop_expired]. Qed.

Lemma copies_fill_step x w w' : fill_step capacity w = Some w' → copies x w' <= copies x w.
Proof.
  intros Hw. unfold fill_step in Hw. pose proof (copies_drop_expired x (clock w) w).
  destruct (worker w) as [| | |v|v n set|v ok set|v ok set c|v|] eqn:E; try discriminate Hw.
  - injection Hw as <-. autorewrite with copies. cbn [worker in_state give_back set_budget set_state]. rewrite E. unfold worker_weight. cbn -[Z.add drop_expired]. lia.
  - injection Hw as <-. autorewrite with copies. rewrite E. unfold worker_weight. repeat case_match; cbn -[Z.add]; lia.
  - destruct n; [destruct set as [|t set]|].
    1-2: injection Hw as <-; autorewrite with copies; rewrite E; unfold worker_weight; cbn -[Z.add]; lia.
    injection Hw as <-. case_match; autorewrite with copies; cbn [worker set_budget]; rewrite E; unfold worker_weight; cbn [tasks pushed];
      rewrite ?wsum_app, ?wsum_cons; cbn [task_weight]; change (wsum (task_weight (sw x) 0) []) with 0; lia.
  - destruct set; [|done]. injection Hw as <-. autorewrite with copies. rewrite E. unfold worker_weight. repeat case_match; cbn -[Z.add]; lia.
  - pose proof (sw_nonneg x c). injection Hw as <-. unfold keep_conn. case_match; autorewrite with copies; cbn [worker set_state conns with_conns]; rewrite E;
      unfold worker_weight; cbn [tasks pushed]; rewrite ?wsum_app, ?wsum_cons; change (wsum (sw x) []) with 0; lia.
  - injection Hw as <-. autorewrite with copies. rewrite E. unfold worker_weight. cbn -[Z.add]. lia.
Qed.

Lemma copies_join_next x i w w' : join_next i w = Some w' → copies x w' <= copies x w.
Proof.
  intros Hw. unfold join_next in Hw. destruct (worker w) as [| | |v|v n set|v ok set|v ok set c|v|] eqn:E; try discriminate Hw.
  destruct (set !! i) as [[|[c|]]|] eqn:Ei; try discriminate Hw; injection Hw as <-; autorewrite with copies; rewrite E;
    unfold worker_weight; cbn [tasks pushed]; rewrite (wsum_lookup _ set i _ Ei); cbn -[Z.add]; lia.
Qed.

Lemma copies_dial_step i ok w w' : dial_step i ok w = Some w' → copies_grow w w'.
Proof.
  intros Hw. unfold dial_step in Hw. destruct (tasks (worker w) !! i) as [[|r]|] eqn:Ei; try discriminate Hw.
  destruct ok; injection Hw as <-; [right|left]; (split; [done|]); intros x; autorewrite with copies;
    rewrite (worker_weight_task _ _ _ _ _ _ Ei); cbn; lia.
Qed.

Lemma copies_start_worker x r w : copies x (start_worker capacity r w) = copies x w.
Proof. unfold start_worker. repeat case_match; autorewrite with copies; try done. rewrite H0. unfold worker_weight. cbn. lia. Qed.

Lemma copies_get_step x g p w w' : get_step base capacity g p w = Some w' → copies x w' <= copies x w.
Proof.
  intros Hw. unfold get_step in Hw. destruct (getters w !! g) as [[| |c| | | |]|] eqn:Eg; try discriminate Hw; injection Hw as <-.
  - rewrite (copies_set_getter x g Counting) by done. autorewrite with copies. rewrite len_count_request. cbn. lia.
  - destruct (conns (state w)) as [|c l] eqn:El; rewrite (copies_set_getter x g Popping) by done; autorewrite with copies; cbn -[Z.add wsum]; [lia|].
    rewrite El, wsum_cons. lia.
  - rewrite copies_give_back. pose proof (sw_nonneg x c).
    case_match; rewrite (copies_set_getter x g (Checking c)) by done; autorewrite with copies; cbn; lia.
Qed.

Lemma copies_get_dialled g ok w w' : get_dialled g ok w = Some w' → copies_grow w w'.
Proof.
  intros Hw. unfold get_dialled in Hw. destruct (getters w !! g) as [[| |c| | | |]|] eqn:Eg; try discriminate Hw.
  destruct ok; injection Hw as <-; [right|left]; (split; [done|]); intros x; autorewrite with copies;
    rewrite (copies_set_getter x g Connecting) by done; cbn; lia.
Qed.

Lemma copies_cancel x g w w' : cancel_get g w = Some w' → copies x w' <= copies x w.
Proof.
  intros Hw. unfold cancel_get in Hw. destruct (getters w !! g) as [[| |c| | | |]|] eqn:Eg; try discriminate Hw; injection Hw as <-;
    autorewrite with copies; rewrite (copies_set_getter _ _ _ _ _ Eg); cbn; try lia. pose proof (sw_nonneg x c). lia.
Qed.

Lemma copies_abort x w w' : abort_worker w = Some w' → copies x w' <= copies x w.
Proof.
  intros Hw. assert (w' = give_back (len (conns (state w)) + len (mjoin (task_conns <$> tasks (worker w))) + len (pushed (worker w)))
    (set_aborting (length (filter is_dialing (tasks (worker w)))) (set_worker Gone (set_state (with_conns [] (state w)) w)))) as ->
    by (unfold abort_worker in Hw; destruct (dropped w), (worker w); congruence).
  assert (0 <= worker_weight (sw x) 0 (worker w)).
  { unfold worker_weight. assert (0 <= wsum (task_weight (sw x) 0) (tasks (worker w)) ∧ 0 <= wsum (sw x) (pushed (worker w))); [|lia].
    split; apply wsum_nonneg; [|apply sw_nonneg]. intros [|[c|]]; cbn; [done|apply sw_nonneg|done]. }
  pose proof (wsum_nonneg (sw x) (conns (state w)) (sw_nonneg x)).
  unfold copies, weight. cbn -[length filter Z.add Z.mul]. change (worker_weight _ _ Gone) with 0. lia.
Qed.

(** No step makes a second copy of a connection. *)
Lemma act_copies e w w' : act e w = Some w' → copies_grow w w'.
Proof.
  intros Hw. destruct e; cbn in Hw; try (by eapply copies_dial_step); try (by eapply copies_get_dialled).
  - left. split; [|intros x; by eapply copies_fill_step]. unfold fill_step in Hw. repeat (case_match; try discriminate Hw); by simplify_option_eq.
  - left. split; [|intros x; by eapply copies_join_next]. unfold join_next in Hw. repeat (case_match; try discriminate Hw); by simplify_option_eq.
  - unfold notified in Hw. destruct (worker w) eqn:E; try done. destruct (refill w); [|done]. injection Hw as <-.
    left. split; [done|]. intros x. autorewrite with copies. cbn. rewrite E. unfold worker_weight. cbn. lia.
  - unfold tick in Hw. destruct (worker w) eqn:E; try done. injection Hw as <-. left. split; [done|]. intros x.
    rewrite copies_in_state. pose proof (copies_maintain x (clock w) w). lia.
  - unfold start_get in Hw. destruct (dropped w); [done|]. destruct (getters w !! g) eqn:Eg; [done|]. injection Hw as <-.
    left. split; [unfold start_worker; by repeat case_match|]. intros x.
    rewrite copies_new_getter by (by rewrite getters_start_worker). rewrite copies_start_worker. cbn. lia.
  - left. split; [|intros x; by eapply copies_get_step]. unfold get_step in Hw. repeat (case_match; try discriminate Hw); by simplify_option_eq.
  - left. split; [|intros x; by eapply copies_cancel]. unfold cancel_get in Hw. repeat (case_match; try discriminate Hw); by simplify_option_eq.
  - destruct (try_acquire_many 1 (budget w)); [|done]. injection Hw as <-. by left.
  - case_match; [|done]. injection Hw as <-. by left.
  - case_match; [|done]. injection Hw as <-. by left.
  - unfold drop_owner in Hw. case_match; [done|]. injection Hw as <-. by left.
  - left. split; [|intros x; by eapply copies_abort]. unfold abort_worker in Hw. repeat (case_match; try discriminate Hw); by simplify_option_eq.
  - unfold dial_aborted in Hw. destruct (aborting w) as [|n] eqn:En; [done|]. injection Hw as <-. left. split; [done|].
    intros x. unfold copies, weight. cbn -[Z.of_nat]. lia.
Qed.

(** ** What holds in every state *)
Definition state_ok (s : PoolState) : Prop :=
  0 <= requests s <= capacity ∧ base <= target s <= capacity ∧ len (conns s) <= capacity.

Definition vars_ok (v : fill_vars) : Prop := 0 <= failed_rounds v <= 2 ∧ 0 <= attempts v <= capacity * 3 + 3.

(** A round dials at most four connections, and starts only within the fill's limit. *)
Definition worker_ok (p : worker_pc) : Prop :=
  match p with
  | NotStarted | Gone => True
  | Waiting | FillStart => 0 < capacity
  | Deficit v | Sleeping v => 0 < capacity ∧ vars_ok v
  | Spawning v n set => 0 < capacity ∧ vars_ok v ∧ attempts v < capacity * 3 ∧ Z.of_nat n + len set <= FILL_CONCURRENCY
  | Joining v ok set => 0 < capacity ∧ vars_ok v ∧ 0 <= ok ∧ len set <= FILL_CONCURRENCY
  | Pushing v ok set c => 0 < capacity ∧ vars_ok v ∧ 0 <= ok ∧ len set < FILL_CONCURRENCY
  end.

(** Once the last handle is dropped no request is under way; only then the worker goes. *)
Definition end_ok w : Prop :=
  (dropped w = true → ∀ g p, getters w !! g = Some p → over p = true) ∧
  (worker w = Gone → dropped w = true ∧ conns (state w) = []) ∧
  (worker w ≠ Gone → aborting w = 0%nat).

Definition pool_inv w : Prop := state_ok (state w) ∧ worker_ok (worker w) ∧ end_ok w.

Hypothesis limits : 0 <= base <= capacity.

Lemma next_power_of_two_pos n : 0 < next_power_of_two n.
Proof. apply Z.pow_pos_nonneg; [done|apply Z.log2_up_nonneg]. Qed.

Lemma count_request_ok t s : state_ok s → state_ok (count_request base capacity t s).
Proof.
  intros (Hr & Ht & Hl). pose proof (next_power_of_two_pos (Z.min (requests s + 1) capacity)).
  pose proof (next_power_of_two_pos (Z.min (0 + 1) capacity)).
  unfold state_ok. rewrite len_count_request. unfold count_request. repeat case_match; cbn -[Z.min Z.max] in *; lia.
Qed.

Lemma maintain_ok t s : state_ok s → state_ok (maintain base t s).
Proof.
  intros (Hr & Ht & Hl). pose proof (sublist_length _ _ (conns_maintain base t s)). unfold state_ok, len in *. cbn -[Z.to_nat] in *.
  split; [done|]. split; [case_match; lia|lia].
Qed.

Lemma drop_expired_ok t s : state_ok s → state_ok (drop_expired t s).
Proof. intros (Hr & Ht & Hl). pose proof (sublist_length _ _ (conns_drop_expired t s)). unfold state_ok, len in *. cbn in *. lia. Qed.

Lemma keep_conn_ok c s : state_ok s → state_ok (keep_conn c s).
Proof.
  intros (Hr & Ht & Hl). unfold keep_conn. destruct (Z.ltb_spec (len (conns s)) (target s)); [|done].
  unfold state_ok. cbn -[Z.add]. rewrite len_app. change (len [c]) with 1. lia.
Qed.

Lemma conns_tail_ok c l s : conns s = c :: l → state_ok s → state_ok (with_conns l s).
Proof. intros E (Hr & Ht & Hl). rewrite E, len_cons in Hl. unfold state_ok. cbn. lia. Qed.

(** A step that leaves requests and the end of the pool alone. *)
Ltac end_same := split; [done|split; [done|intros _; match goal with H : _ ≠ Gone → _ |- _ => by apply H end]].

Lemma fill_step_inv w w' : fill_step capacity w = Some w' → pool_inv w → pool_inv w'.
Proof.
  intros Hw (Hs & Hp & He1 & He2 & He3). unfold fill_step in Hw.
  destruct (worker w) as [| | |v|v n set|v ok set|v ok set c|v|] eqn:E; try discriminate Hw; cbn in Hp.
  - injection Hw as <-. split; [by apply drop_expired_ok|]. split; [unfold worker_ok, vars_ok; cbn; lia|]. by end_same.
  - injection Hw as <-. split; [done|]. split; [|by repeat case_match; end_same]. cbn [worker set_worker].
    destruct (Z.ltb_spec (attempts v) (capacity * 3)); [|cbn; lia]. destruct (Z.eqb_spec (deficit (state w)) 0); [cbn; lia|].
    unfold worker_ok. repeat split; try apply Hp; try lia. unfold FILL_CONCURRENCY, deficit, saturating_sub in *. change (len []) with 0. lia.
  - destruct n; [destruct set as [|t set]|]; injection Hw as <-.
    + split; [done|]. split; [cbn; lia|]. by end_same.
    + split; [done|]. split; [|by end_same]. unfold worker_ok, vars_ok, FILL_CONCURRENCY in *. cbn -[len] in *. pose proof (len_nonneg (t :: set)). lia.
    + case_match; (split; [done|split; [|by end_same]]); unfold worker_ok, vars_ok, FILL_CONCURRENCY in *; cbn -[Z.of_nat] in *;
        rewrite ?len_app; [change (len [Dialing]) with 1|]; lia.
  - destruct set; [|done]. injection Hw as <-. split; [done|]. split; [|by repeat case_match; end_same].
    cbn [worker set_worker]. repeat case_match; unfold worker_ok, vars_ok in *; cbn in *; lia.
  - assert (pool_inv (set_worker (Joining v ok set) (set_state (keep_conn c (state w)) w))) as Hi.
    { split; [by apply keep_conn_ok|]. split; [unfold worker_ok, vars_ok, FILL_CONCURRENCY in *; cbn; lia|]. by end_same. }
    injection Hw as <-. by case_match.
  - injection Hw as <-. split; [done|]. split; [done|]. by end_same.
Qed.

Lemma length_delete_lt {A} (l : list A) i x : l !! i = Some x → len (delete i l) = len l - 1.
Proof. intros Hi. pose proof (length_delete l i (ltac:(by eexists))). pose proof (lookup_lt_Some _ _ _ Hi). unfold len. lia. Qed.

Lemma join_next_inv i w w' : join_next i w = Some w' → pool_inv w → pool_inv w'.
Proof.
  intros Hw (Hs & Hp & He1 & He2 & He3). unfold join_next in Hw.
  destruct (worker w) as [| | |v|v n set|v ok set|v ok set c|v|] eqn:E; try discriminate Hw; cbn in Hp.
  destruct (set !! i) as [[|[c|]]|] eqn:Ei; try discriminate Hw; injection Hw as <-; (split; [done|split; [|by end_same]]);
    unfold worker_ok; cbn -[len delete]; rewrite (length_delete_lt _ _ _ Ei); unfold vars_ok, FILL_CONCURRENCY in *; lia.
Qed.

Lemma worker_ok_tasks i t p : worker_ok p → worker_ok (with_tasks (<[i := t]> (tasks p)) p).
Proof. unfold worker_ok, len. destruct p; cbn -[Z.of_nat]; rewrite ?length_insert; done. Qed.

Lemma dial_step_inv i ok w w' : dial_step i ok w = Some w' → pool_inv w → pool_inv w'.
Proof.
  intros Hw (Hs & Hp & He1 & He2 & He3). unfold dial_step in Hw.
  destruct (tasks (worker w) !! i) as [[|r]|] eqn:Ei; try discriminate Hw.
  assert (∀ t, worker (set_worker (with_tasks (<[i:=t]> (tasks (worker w))) (worker w)) w) ≠ Gone) as Hg
    by (intros t; cbn; by destruct (worker w)).
  destruct ok; injection Hw as <-; (split; [done|split; [by apply worker_ok_tasks|]]); (split; [done|]);
    (split; [intros Hgone; by destruct (Hg _ Hgone)|intros _; apply He3; by destruct (worker w)]).
Qed.

(** Requests never touch the worker. *)
Lemma getter_inv w w' : pool_inv w → dropped w = false → state_ok (state w') → worker w' = worker w → dropped w' = dropped w →
  aborting w' = aborting w → pool_inv w'.
Proof.
  intros (Hs & Hp & He1 & He2 & He3) Hd Hs' Hw Hd' Ha. split; [done|]. split; [by rewrite Hw|]. unfold end_ok.
  rewrite Hw, Hd', Ha, Hd. split; [done|]. split; [|done]. intros Hg. destruct (He2 Hg). congruence.
Qed.

Lemma not_dropped w g p : pool_inv w → getters w !! g = Some p → over p = false → dropped w = false.
Proof. intros (_ & _ & He & _) Hg Ho. destruct (dropped w) eqn:E; [|done]. rewrite (He eq_refl g p Hg) in Ho. done. Qed.

Lemma start_worker_ok r w : worker_ok (worker w) → worker_ok (worker (start_worker capacity r w)).
Proof.
  intros Hw. unfold start_worker. destruct (Z.eqb_spec capacity 0); [done|]. destruct (negb r); [done|].
  destruct (worker w) eqn:E; [cbn; lia|cbn [orb]; by rewrite ?E..].
Qed.

Lemma act_inv e w w' : act e w = Some w' → pool_inv w → pool_inv w'.
Proof.
  intros Hw Hi. pose proof Hi as (Hs & Hp & He1 & He2 & He3). destruct e; cbn in Hw.
  - by eapply fill_step_inv.
  - by eapply join_next_inv.
  - by eapply dial_step_inv.
  - unfold notified in Hw. destruct (worker w) eqn:E; try done. destruct (refill w); [|done]. injection Hw as <-.
    split; [done|]. split; [done|]. by end_same.
  - unfold tick in Hw. destruct (worker w) eqn:E; try done. injection Hw as <-.
    split; [by apply maintain_ok|]. split; [cbn -[maintain]; by rewrite E|]. unfold end_ok. cbn -[maintain]. rewrite E. by end_same.
  - unfold start_get in Hw. destruct (dropped w) eqn:Ed; [done|]. destruct (getters w !! g) eqn:Eg; [done|]. injection Hw as <-.
    pose proof (start_worker_ok runtime w Hp). unfold start_worker in *.
    destruct ((capacity =? 0) || negb runtime); [by apply (getter_inv w)|].
    destruct (worker w) eqn:E; [|by apply (getter_inv w)..].
    split; [done|]. split; [done|]. unfold end_ok. cbn. rewrite Ed. by end_same.
  - unfold get_step in Hw. destruct (getters w !! g) as [[| |c| | | |]|] eqn:Eg; try discriminate Hw; injection Hw as <-;
      apply (getter_inv w); try done; try (by eapply not_dropped); try (by repeat case_match).
    + by apply count_request_ok.
    + destruct (conns (state w)) eqn:E; [done|]. by eapply conns_tail_ok.
  - unfold get_dialled in Hw. destruct (getters w !! g) as [[| |c| | | |]|] eqn:Eg; try discriminate Hw.
    destruct success; injection Hw as <-; apply (getter_inv w); try done; by eapply not_dropped.
  - unfold cancel_get in Hw. destruct (getters w !! g) as [[| |c| | | |]|] eqn:Eg; try discriminate Hw; injection Hw as <-;
      apply (getter_inv w); try done; by eapply not_dropped.
  - destruct (try_acquire_many 1 (budget w)); [|done]. by injection Hw as <-.
  - case_match; [|done]. by injection Hw as <-.
  - case_match; [|done]. by injection Hw as <-.
  - unfold drop_owner in Hw. destruct (dropped w) eqn:Ed; [done|]. cbn in Hw.
    destruct (forallb _ _) eqn:Ef; [|done]. injection Hw as <-. split; [done|]. split; [done|]. split; [|split].
    + intros _ g p Hg. apply forallb_forall with (x := (g, p)) in Ef; [done|]. apply list_elem_of_In. by apply elem_of_map_to_list.
    + cbn. intros Hg. by destruct (He2 Hg).
    + done.
  - assert (w' = give_back (len (conns (state w)) + len (mjoin (task_conns <$> tasks (worker w))) + len (pushed (worker w)))
      (set_aborting (length (filter is_dialing (tasks (worker w)))) (set_worker Gone (set_state (with_conns [] (state w)) w))) ∧ dropped w = true)
      as [-> Hd] by (unfold abort_worker in Hw; destruct (dropped w), (worker w); split; congruence).
    split; [|split; [done|split; [done|split; [done|done]]]]. destruct Hs as (Hr & Ht & _). unfold state_ok. cbn. change (len []) with 0. lia.
  - unfold dial_aborted in Hw. destruct (aborting w) as [|n] eqn:En; [done|]. injection Hw as <-.
    split; [done|]. split; [done|]. split; [done|]. split; [done|]. cbn. intros Hg. by specialize (He3 Hg).
Qed.

Definition copies_ok w : Prop := ∀ x, copies x w <= if (x <? next_stream w)%nat then 1 else 0.

Lemma copies_ok_step e w w' : act e w = Some w' → copies_ok w → copies_ok w'.
Proof.
  intros [[Hn Hc]|[Hn Hc]]%act_copies Hw x; specialize (Hc x); specialize (Hw x); rewrite Hn; [lia|].
  unfold is_stream in Hc. destruct (Nat.ltb_spec x (next_stream w)), (Nat.ltb_spec x (S (next_stream w)));
    destruct (Nat.eq_dec (next_stream w) x); lia.
Qed.

(** Everything that holds in every state of a pool with [total] permits around. *)
Definition good (total : Z) w : Prop :=
  pool_inv w ∧ copies_ok w ∧ total_permits w = total ∧ 0 <= available_permits (budget w) ∧ 0 <= others w.

Lemma good_run es w w' total : run base capacity es w = Some w' → good total w → good total w'.
Proof.
  revert w. induction es as [|e es IH]; cbn -[act]; intros w Hr (Hi & Hc & Ht & Hb & Ho); [by simplify_eq|].
  destruct (act e w) as [w1|] eqn:E; [|done]. apply (IH w1 Hr).
  destruct (act_available e w w1 E Hb Ho). split; [by eapply act_inv|]. split; [by eapply copies_ok_step|].
  split; [|done]. rewrite <- Ht. eapply act_total; [done|]. apply Hi.
Qed.

Lemma good_new runtime now b elsewhere : 0 <= available_permits b → 0 <= elsewhere →
  good (available_permits b + elsewhere) (new_pool base capacity runtime now b elsewhere).
Proof.
  intros Hb He. unfold new_pool. set (w := {| dropped := false |}).
  assert (good (available_permits b + elsewhere) w) as (Hi & Hc & Ht & Hb' & Ho).
  { split; [|split; [|split; [|done]]].
    - split; [unfold state_ok; cbn; change (len []) with 0; lia|]. split; [done|]. split; [done|]. by split.
    - intros x. unfold copies, weight. cbn. by rewrite sum_by_empty.
    - unfold total_permits, held_permits, weight, worker_weight. cbn. rewrite sum_by_empty. lia. }
  split; [|split; [intros x; rewrite copies_start_worker; unfold start_worker; by repeat case_match|]].
  - pose proof (start_worker_ok runtime w ltac:(apply Hi)). unfold start_worker in *.
    destruct ((capacity =? 0) || negb runtime); [done|]. cbn. split; [apply Hi|]. split; [done|]. split; [done|]. by split.
  - rewrite total_start_worker. split; [done|]. unfold start_worker. by repeat case_match.
Qed.

(** What a step that hands out a warm connection has checked. *)
Lemma handed_out e w w' g x : act e w = Some w' → getters w' !! g = Some (Served true x) → getters w !! g ≠ Some (Served true x) →
  ∃ c, e = Get g Silent ∧ getters w !! g = Some (Checking c) ∧ stream c = x ∧ clock w - created c < DEFAULT_MAX_AGE ∧
    available_permits (budget w') = available_permits (budget w) + 1.
Proof.
  intros Hw Hg' Hg.
  assert (∀ g1 p w1, getters w' = <[g1 := p]> (getters w1) → getters w1 = getters w → g1 = g ∧ p = Served true x) as Hset.
  { intros g1 p w1 E E1. rewrite E, E1 in Hg'. apply lookup_insert_Some in Hg' as [[]|[]]; [done|contradiction]. }
  destruct e; cbn in Hw; unfold fill_step, join_next, dial_step, notified, tick, start_get, get_dialled, cancel_get, drop_owner,
    abort_worker, dial_aborted in Hw.
  7: { unfold get_step in Hw. destruct (getters w !! g0) as [[| |c| | | |]|] eqn:Eg; try discriminate Hw; injection Hw as <-; cbn in *.
       - by destruct (Hset g0 Popping w eq_refl eq_refl).
       - destruct (conns (state w)); [by destruct (Hset g0 Connecting w eq_refl eq_refl)|by destruct (Hset g0 (Checking p0) w eq_refl eq_refl)].
       - destruct (is_fresh (clock w) c) eqn:Ef; [|by destruct (Hset g0 Popping w eq_refl eq_refl)].
         destruct p; cbn in *; try (by destruct (Hset g0 Popping w eq_refl eq_refl)).
         destruct (Hset g0 (Served true (stream c)) w eq_refl eq_refl) as [-> [= <-]]. exists c. repeat split; try done; [|apply release_spec].
         unfold is_fresh, elapsed in Ef. apply Z.ltb_lt in Ef. lia. }
  all: exfalso; repeat (case_match; try discriminate Hw); simplify_option_eq; cbn in *; try contradiction.
  all: match type of Hg' with <[?k := ?p]> (getters ?w1) !! _ = _ => destruct (Hset k p w1 eq_refl) as [_ [=]] end.
  all: by rewrite ?getters_start_worker.
Qed.

(** ** A connection handed out is nowhere else *)
Lemma getter_weight_nonneg x p : 0 <= getter_weight (sw x) (is_stream x) p.
Proof. destruct p; cbn; try done; [apply sw_nonneg|apply is_stream_range]. Qed.

Lemma worker_weight_nonneg x p : 0 <= worker_weight (sw x) 0 p.
Proof.
  unfold worker_weight. assert (0 <= wsum (task_weight (sw x) 0) (tasks p) ∧ 0 <= wsum (sw x) (pushed p)); [|lia].
  split; apply wsum_nonneg; [|apply sw_nonneg]. intros [|[c|]]; cbn; [done|apply sw_nonneg|done].
Qed.

Lemma is_stream_self x : is_stream x x = 1.
Proof. unfold is_stream. by destruct (Nat.eq_dec x x). Qed.

Lemma copies_le_one w x : copies_ok w → copies x w <= 1.
Proof. intros Hw. specialize (Hw x). by destruct (x <? next_stream w)%nat; lia. Qed.

Lemma served_once w g g' k k' x : copies_ok w → getters w !! g = Some (Served k x) → getters w !! g' = Some (Served k' x) → g = g'.
Proof.
  intros Hc Hg Hg'. destruct (decide (g = g')) as [|Hne]; [done|exfalso]. pose proof (copies_le_one w x Hc) as Hx.
  set (f := getter_weight (sw x) (is_stream x)) in *.
  pose proof (sum_by_delete f _ _ _ Hg) as Hd. rewrite <- (lookup_delete_ne _ g g' Hne) in Hg'.
  pose proof (sum_by_member f _ _ _ (λ _ p _, getter_weight_nonneg x p) Hg') as Hm. unfold f in *. cbn in Hd, Hm. rewrite is_stream_self in *.
  pose proof (wsum_nonneg (sw x) (conns (state w)) (sw_nonneg x)). pose proof (worker_weight_nonneg x (worker w)).
  unfold copies, weight in Hx. fold (is_stream x) in Hx. lia.
Qed.

Lemma served_not_waiting w g k x c : copies_ok w → getters w !! g = Some (Served k x) → c ∈ conns (state w) → stream c ≠ x.
Proof.
  intros Hc Hg Hin Hx. subst x. pose proof (copies_le_one w (stream c) Hc) as Hx.
  pose proof (sum_by_member _ _ _ _ (λ _ p _, getter_weight_nonneg (stream c) p) Hg) as Hm. cbn in Hm. rewrite is_stream_self in Hm.
  apply list_elem_of_lookup in Hin as [i Hi]. pose proof (wsum_lookup (sw (stream c)) _ _ _ Hi) as Hl. cbn -[wsum delete] in Hl. rewrite is_stream_self in Hl.
  pose proof (wsum_nonneg (sw (stream c)) (delete i (conns (state w))) (sw_nonneg (stream c))). pose proof (worker_weight_nonneg (stream c) (worker w)).
  unfold copies, weight in Hx. lia.
Qed.

Lemma gone_permits w : worker w = Gone → aborting w = 0%nat → pool_inv w → held_permits w = 0.
Proof.
  intros Hg Ha (_ & _ & He1 & He2 & _). destruct (He2 Hg) as [Hd Hl]. specialize (He1 Hd).
  unfold held_permits, weight. rewrite Hl, Hg, Ha. cbn -[wsum Z.of_nat]. change (wsum (λ _, 1) []) with 0. change (worker_weight (λ _, 1) 1 Gone) with 0.
  assert (sum_by (getter_weight (λ _, 1) (λ _, 0)) (getters w) = 0); [|lia]. clear -He1. induction (getters w) as [|g p m Hm IH] using map_ind; [apply sum_by_empty|].
  rewrite sum_by_insert by done. rewrite IH.
  - specialize (He1 g p ltac:(by rewrite lookup_insert_eq)). by destruct p.
  - intros g' p' Hg'. apply (He1 g'). rewrite lookup_insert_ne; [done|]. intros ->. congruence.
Qed.

Lemma tasks_bounded p : worker_ok p → len (tasks p) <= FILL_CONCURRENCY.
Proof. destruct p; cbn -[len]; unfold FILL_CONCURRENCY; change (len []) with 0; lia. Qed.

Lemma idle_without_capacity w : capacity = 0 → pool_inv w → tasks (worker w) = [] ∧ conns (state w) = [].
Proof.
  intros E ((_ & _ & Hl) & Hp & _). split; [destruct (worker w); cbn in *; try done; lia|]. apply len_zero_nil. pose proof (len_nonneg (conns (state w))). lia.
Qed.

(** C13. In every state a pool can reach, whatever the other actors do: the warm connections
    stay within the capacity, at most four are dialled at a time, and a pool without
    capacity dials none; permits are conserved, none is taken that is not there, and all
    are back when the pool is gone; a connection goes to one request only, is then no
    longer in the pool, and is handed out warm only if it is younger than 30 seconds and
    a read found it silent, its permit going back. *)
Theorem pool_spec runtime now b elsewhere es w :
  0 <= available_permits b → 0 <= elsewhere →
  run base capacity es (new_pool base capacity runtime now b elsewhere) = Some w →
  (len (conns (state w)) <= capacity ∧ base <= target (state w) <= capacity ∧ 0 <= requests (state w) <= capacity ∧
   len (tasks (worker w)) <= FILL_CONCURRENCY ∧ (capacity = 0 → tasks (worker w) = [] ∧ conns (state w) = [])) ∧
  (available_permits (budget w) + others w + held_permits w = available_permits b + elsewhere ∧ 0 <= available_permits (budget w) ∧
   (worker w = Gone → aborting w = 0%nat → held_permits w = 0)) ∧
  (∀ g g' k k' x, getters w !! g = Some (Served k x) → getters w !! g' = Some (Served k' x) → g = g') ∧
  (∀ g k x c, getters w !! g = Some (Served k x) → c ∈ conns (state w) → stream c ≠ x) ∧
  (∀ e w' g x, act e w = Some w' → getters w' !! g = Some (Served true x) → getters w !! g ≠ Some (Served true x) →
     ∃ c, e = Get g Silent ∧ getters w !! g = Some (Checking c) ∧ stream c = x ∧ clock w - created c < DEFAULT_MAX_AGE ∧
       available_permits (budget w') = available_permits (budget w) + 1).
Proof.
  intros Hb He Hr. destruct (good_run es _ w _ Hr (good_new runtime now b elsewhere Hb He)) as (Hi & Hc & Ht & Hav & Ho).
  pose proof Hi as ((Hreq & Htgt & Hlen) & Hp & Hend). repeat split; try done; try apply Hreq; try apply Htgt; try (by apply idle_without_capacity).
  - by apply tasks_bounded.
  - intros Hg Ha. by apply gone_permits.
  - intros. by eapply served_once.
  - intros. by eapply served_not_waiting.
  - intros. by eapply handed_out.
Qed.

(** ** A fill ends *)
Definition worker_event (e : event) : bool := match e with Fill | JoinNext _ | Dialled _ _ => true | _ => false end.

Definition task_left (t : task) : Z := match t with Dialing => 3 | Finished (Some _) => 2 | Finished None => 1 end.
Definition rounds_left (v : fill_vars) : Z := 20 * Z.max 0 (capacity * 3 - attempts v).

(** The steps a fill still has, at most: each round makes an attempt and takes at most
    twenty steps. *)
Definition fill_left (p : worker_pc) : Z :=
  match p with
  | FillStart => 60 * capacity + 2
  | Deficit v => rounds_left v + 1
  | Sleeping v => rounds_left v + 2
  | Spawning v n set => rounds_left v - 16 + 4 * Z.of_nat n + wsum task_left set
  | Joining v _ set => rounds_left v + 3 + wsum task_left set
  | Pushing v _ set _ => rounds_left v + 4 + wsum task_left set
  | NotStarted | Waiting | Gone => 0
  end.

Lemma task_left_nonneg l : 0 <= wsum task_left l.
Proof. apply wsum_nonneg. by intros [|[c|]]. Qed.

Lemma fill_left_nonneg p : worker_ok p → 0 <= fill_left p.
Proof.
  destruct p as [| | |v|v n set|v ok set|v ok set c|v|]; cbn -[Z.of_nat]; unfold rounds_left; try pose proof (task_left_nonneg set); lia.
Qed.

Lemma fill_step_left w w' : fill_step capacity w = Some w' → worker_ok (worker w) →
  fill_left (worker w') < fill_left (worker w) ∧ worker w' ≠ NotStarted.
Proof.
  intros Hw Hp. unfold fill_step in Hw.
  destruct (worker w) as [| | |v|v n set|v ok set|v ok set c|v|] eqn:E; try discriminate Hw; cbn in Hp.
  - injection Hw as <-. split; [|done]. cbn. unfold rounds_left. cbn. lia.
  - injection Hw as <-. cbn [worker set_worker]. destruct (Z.ltb_spec (attempts v) (capacity * 3)); [|split; [cbn; unfold rounds_left; lia|done]].
    destruct (Z.eqb_spec (deficit (state w)) 0); [split; [cbn; unfold rounds_left; lia|done]|]. split; [|done].
    cbn -[Z.of_nat Z.to_nat]. unfold FILL_CONCURRENCY, deficit, saturating_sub in *. lia.
  - destruct n; [destruct set as [|t set]|]; injection Hw as <-.
    + split; [|done]. cbn. unfold rounds_left. lia.
    + split; [|done]. cbn -[wsum len]. unfold rounds_left. cbn [attempts]. rewrite len_cons. pose proof (len_nonneg set). lia.
    + case_match; (split; [|done]); cbn -[Z.of_nat]; rewrite ?wsum_app; cbn [wsum foldr task_left]; lia.
  - destruct set; [|done]. injection Hw as <-. cbn [worker set_worker]. repeat case_match; (split; [|done]); cbn; unfold rounds_left; cbn; lia.
  - injection Hw as <-. case_match; (split; [|done]); cbn; lia.
  - injection Hw as <-. split; [|done]. cbn. lia.
Qed.

Lemma join_next_left i w w' : join_next i w = Some w' → fill_left (worker w') < fill_left (worker w) ∧ worker w' ≠ NotStarted.
Proof.
  intros Hw. unfold join_next in Hw. destruct (worker w) as [| | |v|v n set|v ok set|v ok set c|v|] eqn:E; try discriminate Hw.
  destruct (set !! i) as [[|[c|]]|] eqn:Ei; try discriminate Hw; injection Hw as <-; (split; [|done]); cbn -[delete];
    rewrite (wsum_lookup _ set i _ Ei); cbn [task_left]; lia.
Qed.

Lemma dial_step_left i ok w w' : dial_step i ok w = Some w' → fill_left (worker w') < fill_left (worker w) ∧ worker w' ≠ NotStarted.
Proof.
  intros Hw. unfold dial_step in Hw. destruct (tasks (worker w) !! i) as [[|r]|] eqn:Ei; try discriminate Hw.
  assert (∀ t, task_left t < 3 → fill_left (with_tasks (<[i:=t]> (tasks (worker w))) (worker w)) < fill_left (worker w) ∧
    with_tasks (<[i:=t]> (tasks (worker w))) (worker w) ≠ NotStarted) as Ht.
  { intros t Hl. destruct (worker w) as [| | |v|v n set|v ok' set|v ok' set c|v|]; cbn in Ei; try discriminate Ei; (split; [|done]);
      cbn -[Z.of_nat]; rewrite (wsum_insert _ _ _ _ _ Ei); cbn [task_left]; lia. }
  destruct ok; injection Hw as <-; by apply Ht.
Qed.

Lemma start_worker_same r w : worker w ≠ NotStarted → worker (start_worker capacity r w) = worker w.
Proof. intros Hw. unfold start_worker. case_match; [done|]. by destruct (worker w) eqn:E; rewrite ?E. Qed.

Lemma act_left e w w' : act e w = Some w' → e ≠ Notified → worker_ok (worker w) → worker w ≠ NotStarted →
  fill_left (worker w') + (if worker_event e then 1 else 0) <= fill_left (worker w) ∧ worker w' ≠ NotStarted.
Proof.
  intros Hw Hn Hp Hs.
  assert (worker w' = worker w → fill_left (worker w') + 0 <= fill_left (worker w) ∧ worker w' ≠ NotStarted) as Hsame.
  { intros ->. split; [lia|done]. }
  destruct e; cbn [worker_event]; cbn in Hw; try done.
  - destruct (fill_step_left w w' Hw Hp). split; [lia|done].
  - destruct (join_next_left _ w w' Hw). split; [lia|done].
  - destruct (dial_step_left _ _ w w' Hw). split; [lia|done].
  - apply Hsame. unfold tick in Hw. destruct (worker w) eqn:E; try done. injection Hw as <-. by cbn -[maintain].
  - apply Hsame. unfold start_get in Hw. destruct (dropped w); [done|]. destruct (getters w !! g); [done|]. injection Hw as <-. by apply start_worker_same.
  - apply Hsame. unfold get_step in Hw. repeat (case_match; try discriminate Hw); by simplify_option_eq.
  - apply Hsame. unfold get_dialled in Hw. repeat (case_match; try discriminate Hw); by simplify_option_eq.
  - apply Hsame. unfold cancel_get in Hw. repeat (case_match; try discriminate Hw); by simplify_option_eq.
  - apply Hsame. destruct (try_acquire_many 1 (budget w)); [|done]. by injection Hw as <-.
  - apply Hsame. case_match; [|done]. by injection Hw as <-.
  - apply Hsame. case_match; [|done]. by injection Hw as <-.
  - apply Hsame. unfold drop_owner in Hw. case_match; [done|]. by injection Hw as <-.
  - pose proof (fill_left_nonneg _ Hp). assert (worker w' = Gone) as ->; [|by split; cbn; [lia|]].
    unfold abort_worker in Hw. repeat (case_match; try discriminate Hw); by simplify_option_eq.
  - apply Hsame. unfold dial_aborted in Hw. repeat (case_match; try discriminate Hw); by simplify_option_eq.
Qed.

Definition worker_events (es : list event) : Z := wsum (λ e, if worker_event e then 1 else 0) es.

Lemma run_left es w w' : run base capacity es w = Some w' → Notified ∉ es → pool_inv w → worker w ≠ NotStarted →
  worker_events es + fill_left (worker w') <= fill_left (worker w).
Proof.
  revert w. induction es as [|e es IH]; cbn -[act worker_events]; intros w Hr Hn Hi Hs; [simplify_eq; cbn; lia|].
  apply not_elem_of_cons in Hn as [Hne Hn]. destruct (act e w) as [w1|] eqn:E; [|done]. cbn in Hr.
  destruct (act_left e w w1 E ltac:(done) ltac:(apply Hi) Hs) as [Hl Hs1]. specialize (IH w1 Hr Hn (act_inv e w w1 E Hi) Hs1).
  unfold worker_events in *. rewrite wsum_cons. lia.
Qed.

Lemma run_started es w w' : run base capacity es w = Some w' → pool_inv w → worker w ≠ NotStarted → worker w' ≠ NotStarted.
Proof.
  revert w. induction es as [|e es IH]; cbn -[act]; intros w Hr Hi Hs; [by simplify_eq|]. destruct (act e w) as [w1|] eqn:E; [|done].
  apply (IH w1 Hr); [by eapply act_inv|]. destruct (decide (e = Notified)) as [->|Hne]; [|by eapply act_left; [done..|apply Hi|]].
  cbn in E. unfold notified in E. destruct (worker w); try done. destruct (refill w); [|done]. by injection E as <-.
Qed.

(** While a fill is under way something of it can happen. *)
Lemma fill_progress w : match worker w with NotStarted | Waiting | Gone => False | _ => True end →
  ∃ e, worker_event e = true ∧ is_Some (act e w).
Proof.
  intros Hw. destruct (worker w) as [| | |v|v n set|v ok set|v ok set c|v|] eqn:E; try done.
  - exists Fill. split; [done|]. cbn. unfold fill_step. rewrite E. by eexists.
  - exists Fill. split; [done|]. cbn. unfold fill_step. rewrite E. by eexists.
  - exists Fill. split; [done|]. cbn. unfold fill_step. rewrite E. destruct n; [destruct set|]; by eexists.
  - destruct set as [|[|[c|]] set].
    + exists Fill. split; [done|]. cbn. unfold fill_step. rewrite E. by eexists.
    + exists (Dialled 0 false). split; [done|]. cbn. unfold dial_step. rewrite E. by eexists.
    + exists (JoinNext 0). split; [done|]. cbn. unfold join_next. rewrite E. by eexists.
    + exists (JoinNext 0). split; [done|]. cbn. unfold join_next. rewrite E. by eexists.
  - exists Fill. split; [done|]. cbn. unfold fill_step. rewrite E. by eexists.
  - exists Fill. split; [done|]. cbn. unfold fill_step. rewrite E. by eexists.
Qed.

(** A fill ends: once started, it takes at most [60 * capacity + 2] steps of the worker
    and of its dials before the worker waits again, whatever the other actors do, and
    until then one of these steps is possible. *)
Theorem fill_ends runtime now b elsewhere es es' w w' :
  0 <= available_permits b → 0 <= elsewhere →
  run base capacity es (new_pool base capacity runtime now b elsewhere) = Some w → worker w = FillStart →
  run base capacity es' w = Some w' → Notified ∉ es' →
  worker_events es' <= 60 * capacity + 2 ∧
  (worker w' = Waiting ∨ worker w' = Gone ∨ ∃ e, worker_event e = true ∧ is_Some (act e w')).
Proof.
  intros Hb He Hr Hw Hr' Hn. pose proof (good_run es _ w _ Hr (good_new runtime now b elsewhere Hb He)) as Hg.
  pose proof (good_run es' w w' _ Hr' Hg) as ((_ & Hp' & _) & _). destruct Hg as (Hi & _).
  pose proof (run_left es' w w' Hr' Hn Hi ltac:(by rewrite Hw)) as Hl. pose proof (fill_left_nonneg _ Hp') as Hnn.
  rewrite Hw in Hl. cbn [fill_left] in Hl. split; [lia|].
  assert (worker w' ≠ NotStarted) as Hns by (eapply run_started; [done| |by rewrite Hw]; done).
  pose proof (fill_progress w') as Hpr. destruct (worker w'); eauto; done.
Qed.
End conservation.

(** ** Demand *)
Section demand.
Variables base capacity : Z.
Hypothesis limits : 0 <= base <= capacity.

Lemma next_power_of_two_mono a b : a <= b → next_power_of_two a <= next_power_of_two b.
Proof. intros Hab. apply Z.pow_le_mono_r; [done|]. by apply Z.log2_up_le_mono. Qed.

Lemma next_power_of_two_ge n : n <= next_power_of_two n.
Proof. unfold next_power_of_two. destruct (Z.le_gt_cases n 1) as [Hn|Hn]; [|by apply Z.log2_up_spec]. pose proof (Z.pow_pos_nonneg 2 (Z.log2_up n) ltac:(done) (Z.log2_up_nonneg n)). lia. Qed.

(** What [k] requests of one window have asked for. *)
Definition wanted (k : Z) : Z := Z.min capacity (Z.max base (next_power_of_two (Z.min k capacity))).

Lemma window_step t0 t k s : window_started s = t0 → t0 <= last_get s < t0 + DEMAND_WINDOW → t0 <= t < t0 + DEMAND_WINDOW →
  0 <= k → requests s = Z.min k capacity → target s = wanted k →
  let s' := count_request base capacity t s in
  window_started s' = t0 ∧ last_get s' = t ∧ requests s' = Z.min (k + 1) capacity ∧ target s' = wanted (k + 1) ∧ conns s' = conns s.
Proof.
  intros Hw Hl Ht Hk Hr Htg. unfold count_request, elapsed. unfold DEFAULT_MAX_AGE, DEMAND_WINDOW, SECOND in *.
  destruct (Z.leb_spec (30 * 1000000000) (Z.max 0 (t - last_get s))); [lia|]. rewrite Hw.
  destruct (Z.leb_spec 1000000000 (Z.max 0 (t - t0))); [lia|]. cbn. rewrite Hr, Htg.
  pose proof (next_power_of_two_mono (Z.min k capacity) (Z.min (k + 1) capacity) ltac:(lia)).
  replace (Z.min (Z.min k capacity + 1) capacity) with (Z.min (k + 1) capacity) by lia.
  unfold wanted. repeat split; try done; lia.
Qed.

(** The first request of a window forgets the demand of the previous one. *)
Lemma window_open t s : DEMAND_WINDOW <= elapsed t (window_started s) →
  let s' := count_request base capacity t s in
  window_started s' = t ∧ last_get s' = t ∧ requests s' = Z.min 1 capacity ∧ target s' = wanted 1 ∧ conns s' = conns s.
Proof.
  intros Hw. unfold count_request. destruct (DEFAULT_MAX_AGE <=? elapsed t (last_get s)); cbn [window_started with_target];
    apply Z.leb_le in Hw; rewrite Hw; cbn -[Z.min Z.max next_power_of_two Z.add]; change (0 + 1) with 1; unfold wanted; repeat split; lia.
Qed.

Lemma window_run t0 ts k s : window_started s = t0 → t0 <= last_get s < t0 + DEMAND_WINDOW →
  Forall (λ t, t0 <= t < t0 + DEMAND_WINDOW) ts → 0 <= k → requests s = Z.min k capacity → target s = wanted k →
  let s' := foldl (λ s t, count_request base capacity t s) s ts in
  requests s' = Z.min (k + len ts) capacity ∧ target s' = wanted (k + len ts) ∧ conns s' = conns s.
Proof.
  revert k s. induction ts as [|t ts IH]; intros k s Hw Hl Hts Hk Hr Ht; [by cbn; rewrite Z.add_0_r|].
  apply Forall_cons in Hts as [Hb Hts]. destruct (window_step t0 t k s Hw Hl Hb Hk Hr Ht) as (Hw' & Hl' & Hr' & Ht' & Hc').
  cbn [foldl]. destruct (IH (k + 1) _ Hw' ltac:(by rewrite Hl') Hts ltac:(lia) Hr' Ht') as (E1 & E2 & E3).
  rewrite len_cons, E1, E2, E3, Hc'. by rewrite !Z.add_assoc.
Qed.

(** The reserve follows demand: after [k] requests within a second the pool aims at the
    least power of two that covers them, within its limits, and never at less than its
    base; a tick after thirty seconds without a request returns to the base and keeps no
    connection that old. *)
Theorem demand_spec t ts s :
  DEMAND_WINDOW <= elapsed t (window_started s) → Forall (λ u, t <= u < t + DEMAND_WINDOW) ts →
  let s' := foldl (λ s u, count_request base capacity u s) s (t :: ts) in
  let k := len (t :: ts) in
  conns s' = conns s ∧ requests s' = Z.min k capacity ∧
  target s' = Z.min capacity (Z.max base (next_power_of_two (Z.min k capacity))) ∧ Z.min k capacity <= target s' ∧
  ∀ now, DEFAULT_MAX_AGE <= elapsed now (last_get s') →
    target (maintain base now s') = base ∧ len (conns (maintain base now s')) <= base ∧
    ∀ c, c ∈ conns (maintain base now s') → c ∈ conns s ∧ elapsed now (created c) < DEFAULT_MAX_AGE.
Proof.
  intros Hw Hts s' k. destruct (window_open t s Hw) as (Hw1 & Hl1 & Hr1 & Ht1 & Hc1).
  assert (t <= last_get (count_request base capacity t s) < t + DEMAND_WINDOW) as Hl by (rewrite Hl1; unfold DEMAND_WINDOW, SECOND; lia).
  destruct (window_run t ts 1 _ Hw1 Hl Hts ltac:(lia) Hr1 Ht1) as (E1 & E2 & E3).
  assert (conns s' = conns s) as Hc by (unfold s'; cbn [foldl]; by rewrite E3).
  assert (target s' = wanted k) as Hk by (unfold k; rewrite len_cons; exact E2).
  split; [done|]. split; [unfold k; rewrite len_cons; exact E1|]. split; [done|].
  split. { rewrite Hk. unfold wanted. pose proof (next_power_of_two_ge (Z.min k capacity)). lia. }
  intros now Hnow. apply Z.leb_le in Hnow. unfold maintain. rewrite Hnow. cbn [target conns with_conns with_target]. split; [done|].
  split; [unfold len; rewrite length_take; lia|]. intros c Hin. apply elem_of_take in Hin as (i & Hi & _).
  apply list_elem_of_lookup_2, list_elem_of_filter in Hi as [Hf Hi]. rewrite <- Hc. split; [done|].
  apply Is_true_true, Z.ltb_lt in Hf. exact Hf.
Qed.
End demand.

(** ** Concrete runs *)
(** A pool of one to two connections fills, a request takes the connection, the pool
    fills again for the demand it saw. *)
Definition sample_fill : list event := [Fill; Fill; Fill; Fill; Dialled 0 true; JoinNext 0; Fill; Fill; Fill].
Definition sample_get : list event := [StartGet 7 true; Get 7 Silent; Get 7 Silent; Get 7 Silent].
Definition sample_pool : World Z := new_pool 1 2 true 0 3 0.

Example pool_runs :
  (w ← run 1 2 (sample_fill ++ sample_get ++ [Notified; Fill; Fill; Fill]) sample_pool;
   Some (getters w !! 7%nat, len (conns (state w)), target (state w), budget w, tasks (worker w))) =
  Some (Some (Served true 0), 0, 1, 2, [Dialing]).
Proof. vm_compute. reflexivity. Qed.

(** A connection that has spoken is dropped, and the request dials its own. *)
Example spoken_connection_dropped :
  (w ← run 1 2 (sample_fill ++ [StartGet 7 true; Get 7 Silent; Get 7 Silent; Get 7 Data; Get 7 Silent; GetDialled 7 true]) sample_pool;
   Some (getters w !! 7%nat, budget w)) = Some (Some (Served false 1), 3).
Proof. vm_compute. reflexivity. Qed.

(** Three rounds without a connection end a fill. *)
Example three_failed_rounds :
  (w ← run 1 2 (Fill :: concat (replicate 3 [Fill; Fill; Fill; Dialled 0 false; JoinNext 0; Fill; Fill])) sample_pool;
   Some (worker w)) = None ∧
  (w ← run 1 2 (Fill :: concat (replicate 2 [Fill; Fill; Fill; Dialled 0 false; JoinNext 0; Fill; Fill]) ++
     [Fill; Fill; Fill; Dialled 0 false; JoinNext 0; Fill]) sample_pool;
   Some (worker w, budget w)) = Some (Waiting, 3).
Proof. vm_compute. split; reflexivity. Qed.

Lemma pool_spec_witness : ∃ w, run 1 2 (sample_fill ++ sample_get) sample_pool = Some w ∧
  getters w !! 7%nat = Some (Served true 0) ∧ budget w + others w + held_permits w = 3 ∧ len (conns (state w)) <= 2.
Proof.
  destruct (run 1 2 (sample_fill ++ sample_get) sample_pool) as [w|] eqn:E; [|exfalso; vm_compute in E; discriminate E].
  exists w. destruct (pool_spec (SEM:=Z) 1 2 ltac:(lia) true 0 3 0 (sample_fill ++ sample_get) w) as ((Hl & _) & (Hp & _) & _); [cbn; lia|lia|exact E|].
  split; [done|]. split; [|split; [exact Hp|exact Hl]]. vm_compute in E. injection E as <-. reflexivity.
Defined.

Lemma fill_ends_witness : worker_events sample_fill <= 60 * 2 + 2.
Proof.
  destruct (run 1 2 sample_fill sample_pool) as [w|] eqn:E; [|exfalso; vm_compute in E; discriminate E].
  apply (fill_ends (SEM:=Z) 1 2 ltac:(lia) true 0 3 0 [] sample_fill sample_pool w); [cbn; lia|lia|reflexivity|reflexivity|exact E|].
  apply (bool_decide_unpack _). vm_compute. exact I.
Defined.

Lemma demand_spec_witness :
  let s' := foldl (λ s u, count_request 2 8 u s) (with_limits 2 0) [DEMAND_WINDOW; DEMAND_WINDOW + 1; DEMAND_WINDOW + 2] in
  requests s' = 3 ∧ target s' = 4.
Proof.
  destruct (demand_spec 2 8 ltac:(lia) DEMAND_WINDOW [DEMAND_WINDOW + 1; DEMAND_WINDOW + 2] (with_limits 2 0))
    as (_ & Hr & Ht & _); [by vm_compute|repeat constructor; vm_compute; congruence|].
  split; [exact Hr|exact Ht].
Defined.
